(* ===== verification/_CoqProject ===== *)
-Q . S2P
Prelude.v
Contracts.v
Agent.v
Lifecycle.v
Orchestration.v
Input.v
Transcript.v
Transient.v
Prompt.v
Json.v
Review.v
Session.v
Protocol.v
Schema.v
Envelope.v
ResponseParse.v
SessionState.v
Stack.v
SessionOrder.v
MergeQueue.v
FileEntry.v
SessionManager.v
ReviewCache.v
FocusedReview.v
FocusedReviewLaws.v
Slash.v
Composer.v
Scheduler.v
HarnessModel.v
Patch.v
PatchLaws.v
ToolCalls.v
Forge.v
ForgeGithub.v
ForgeGitlab.v
ForgeLaws.v
Flow.v
Commits.v
RebaseFlow.v
MergeFlow.v
FlowLaws.v
MergeLaws.v
BranchPublish.v
PublishLaws.v
SyncPasses.v
SyncLaws.v
ProjectSync.v
ProjectSyncLaws.v
DiffPrompt.v
ReviewPrompt.v
PromptLaws.v
PromptEnds.v
ReviewCoverage.v
SessionTitle.v
TitleLaws.v
SessionCalls.v
Workspace.v
SessionLifecycle.v
LifecycleLaws.v
EventBatch.v
EventReducer.v
EventLaws.v
ReadFile.v
ReadLaws.v
HarnessIo.v
EffectLaws.v
TurnSnapshot.v
RepoTools.v
Engine.v
EngineLaws.v
MemoryStore.v
StoreLaws.v
CampaignStore.v
CampaignText.v
Coordinator.v
CampaignSpec.v
CampaignLaws.v
CampaignTurns.v
Campaigns.v
PlanLaws.v
