(* ===== verification/Prelude.v ===== *)
(** * Agentty: a verified model of the application's core

    Agentty is a terminal application in which coding agents work on Git
    worktrees, one session per worktree; controllers split work over campaigns of
    child sessions, and a harness of its own runs models that have no agent
    program.  The library models the program's own decision logic: what a session
    may do next, which work runs in which order, what is sent to an agent, a forge
    or Git, what is done with the answer, and how the user's text changes on the
    way.  Databases, Git, forges, providers and the terminal stay outside; where
    the modelled code asks them something, the answer is an argument of the model,
    chosen freely by the environment.

    ** Components and files

    Settings and sessions:
    - [Prelude]: Rust text as lists of Unicode scalar values (byte offsets and
      UTF-8 lengths are explicit, a slice at no character boundary is [None]),
      machine integers as [Z] with their saturation or wrap-around, stable
      sorting, list and text lemmas, automation, the hint database [rust].
    - [Contracts] (ag-contracts): response style, speed, permission and reasoning
      selectors with parsers, diff statistics, the provider-call budget.
    - [Agent] (ag-session/src/agent.rs): providers, models, retired models,
      persisted pairs, resolution against the installed providers.
    - [Lifecycle] (ag-session/src/model.rs, ag-forge/src/model.rs): roles, the
      session status machine, branch names, day keys, forge families.
    - [Transcript] (ag-session/src/message.rs), [Transient]
      (agentty/src/domain/transient_message.rs): messages, the transcript with its
      content hash, replay text; the store of replaceable output slots.
    - [Session] (agentty/src/domain/session.rs, question.rs), [SessionState]
      (app/session/state.rs), [SessionManager] (app/session/core.rs): the session
      record with its handles and hydration, the loaded sessions with their index,
      the in-memory operations on them.
    - [Stack], [SessionOrder], [MergeQueue] (agentty/src/domain, app): the parent
      graph and the gates that start branch work, the grouped list, the queue.
    - [Input], [FileEntry], [Slash], [Composer] (agentty/src/domain,
      runtime/mode/prompt.rs): text editing, mentions, menus, pasted images,
      history, submission.

    Protocol and prompts:
    - [Json] (the values of serde_json), [Prompt], [Protocol], [Schema], [Envelope],
      [ResponseParse] (ag-protocol): prompts with their transport parts, the
      structured response and its schema, repair prompts, recovery of a response
      from mixed text.
    - [Review] (ag-session/src/review.rs, ag-protocol/src/fence.rs), [ReviewCache]
      (app/review.rs), [FocusedReview] (app/session_diff.rs and its callers),
      [DiffPrompt] and [ReviewPrompt] (app/diff_prompt.rs, app/review_prompt.rs):
      the state of a focused review, its automatic start, and its bounded prompts:
      chunks, summaries, waves of fragments, cross-file pass, reduction.  Laws in
      [FocusedReviewLaws], [PromptLaws], [PromptEnds], [ReviewCoverage].

    Workflows:
    - [Scheduler] (ag-worker/src/scheduler.rs, mailbox.rs, and the host queue of
      agentty/src/app/session/workflow/worker.rs): selection of work and the
      serial run loop with its mailbox, pauses and retirement.
    - [Flow], [Commits], [RebaseFlow], [MergeFlow] (app/assist.rs, app/session/error.rs,
      app/session/workflow/task.rs, merge.rs): the calls a workflow makes and its
      errors, session commits, assisted rebases, merges and project syncs.  Laws in
      [FlowLaws], [MergeLaws].
    - [SessionCalls], [Workspace], [SessionLifecycle] (lifecycle.rs, isolation.rs,
      preparation.rs, draft.rs, access.rs of app/session/workflow): creating, drafting,
      forking, stacking, starting, answering, changing, canceling and deleting
      sessions and their worktrees.  Laws in [LifecycleLaws].
    - [SessionTitle] (lifecycle.rs, prompt_context.rs, ag-store/src/session.rs): the
      prompts for titles and the statements that claim and store them.  Laws in
      [TitleLaws].
    - [BranchPublish] (app/branch_publish.rs, review_request.rs), [SyncPasses]
      (app/sync.rs), [ProjectSync] (app/core/state.rs, core/event.rs, sync.rs):
      publishing, background polling, sharing of the base checkout.  Laws in
      [PublishLaws], [SyncLaws], [ProjectSyncLaws].
    - [EventBatch], [EventReducer] (app/core/event.rs, app/reducer.rs): application
      events, their batches and the phases that apply them.  Laws in [EventLaws].
    - [Forge], [ForgeGithub], [ForgeGitlab] (ag-forge): remotes, commands, payloads
      and the choice of an adapter.  Laws in [ForgeLaws].

    Campaigns:
    - [Orchestration] (ag-session/src/orchestration.rs), [CampaignStore]
      (ag-store/src/orchestration.rs), [CampaignText] and [Coordinator]
      (ag-orchestration/src/coordinator.rs): states and their transitions, the
      tables, the texts, the entry points and the reconciliation pass.
    - [CampaignSpec]: the abstract campaign machine; [CampaignLaws],
      [CampaignTurns], [Campaigns], [PlanLaws]: its refinement and its theorems.

    Harness:
    - [HarnessModel], [TurnSnapshot] (ag-harness/src/input.rs, model.rs,
      turn_options_snapshot.rs, ...): bounded input, messages and their sizes, turn
      options and their stored, fingerprinted snapshots.
    - [MemoryStore] (ag-harness/src/memory_store.rs, session.rs), [StoreLaws]:
      sessions, leased turns and write journals with every operation of the store;
      the [SessionStore] contract as a step relation on a session record.
    - [Patch], [ToolCalls], [ReadFile], [RepoTools] (ag-harness/src/write.rs, tool.rs,
      read/): unified diffs, admission of tool calls, bounded reads, the tools as
      programs.  Laws in [PatchLaws], [ReadLaws].
    - [HarnessIo], [Engine] (ag-harness/src/lifecycle.rs, effect.rs, engine.rs,
      turn.rs): calls of a turn, retained effects, the model loop.  Laws in
      [EffectLaws], [EngineLaws].

    Definitions keep the source's names; a name that several types share carries
    its type first ([SessionStatus_display]).  A method that changes [self]
    returns the new value; a panic of the source is [None], an error a [result].

    ** How the parts interact

    A session ([Session]) holds a status ([Lifecycle]), a transcript
    ([Transcript]), transient messages ([Transient]) and queued prompts
    ([Prompt]).  [Stack] and [SessionOrder] read lists of sessions.  [Composer]
    edits an input ([Input]) and submits a prompt ([Prompt]).  [Scheduler] runs
    commands and queued messages of one session against the interface
    [WorkQueue], whose laws [WorkQueueLaws] the application's queue is shown to
    fulfil ([SessionWorkerContext_laws]).

    Code that talks to its surroundings is a program in a small monad: it logs its
    calls and is answered by an environment, a class ([FlowHost], [PromptHost],
    [LifeHost], [TitleHost], the host of [Coordinator], the model and file system of
    [HarnessIo]).  A [LifeHost] may also change, at every call, the handles that
    the loaded sessions share with worker tasks.  The theorems quantify over
    environments, so over every order of answers, failures included; a logic of programs ([FlowLaws], [EngineLaws],
    [PromptLaws]) relates a result to the calls in the log.

    Unicode tables, the hash function, JSON codecs, the schema compiler and SHA-256
    are the parameters [UnicodeCase], [UnicodeAlnum], [FxHasher], [SnapshotCodec]
    (with [SnapshotCodecLaws]), [ContentHash] and [ReviewJson], used through
    documented laws.  The harness is a separate part of the program: [MemoryStore]
    keeps the messages of [HarnessModel] and the snapshots of [TurnSnapshot];
    [Engine] runs the tools of [RepoTools] and keeps the effects of [HarnessIo].

    ** What the theorems show

    - Campaigns: every run of the coordinator whose events take turns, whatever the
      controller answers, refines the abstract machine; integrated work was verified,
      one merge runs per campaign, an undisturbed cancellation completes, invalid
      plans change nothing ([Campaigns], [PlanLaws]).
    - Workflows: no merged work is lost, a merge ends in review or done, a rebase is
      never left paused, assistance is bounded, pushes are guarded by checks in the
      same run; work that waits for a base checkout is taken up when the sync or merge
      it waits for ends, and no sync works on the project of the merge that the queue
      holds as active ([FlowLaws], [MergeLaws], [PublishLaws], [ProjectSyncLaws]).  The
      queue can forget a merge that still runs; [ProjectSyncLaws] computes that run.
    - Session lifecycle: a failed creation asks for the removal of all it made; a reply
      reaches the worker of its own session once; a cancellation reaches every
      descendant; the stack shown follows the database, a refused rebase included; a
      change of model is complete or reported ([LifecycleLaws]).  Title prompts fit
      their budget, and a title is stored only by its own unbroken claim
      ([TitleLaws]).
    - Reviews and prompts: results count once per generation; chunks lose no byte;
      every prompt sent fits the budget and may only read; a review ends whatever the
      provider answers, and is about the whole diff or names what is missing
      ([FocusedReviewLaws], [PromptLaws], [PromptEnds], [ReviewCoverage]).
    - Events: a batch of setting events changes the shown sessions as its events say,
      one by one ([EventLaws]).
    - Scheduling: submission order, accounting of every accepted command over
      all interleavings of worker, handles and host, nothing started after a
      stop, termination of retirement ([Scheduler]); the merge queue is first-in
      first-out with at most one active merge ([MergeQueue]).
    - Editing and composing: commands never panic and keep cursor, snapshots and
      history bounds; undo and redo walk one timeline; attachments keep pointing at
      their placeholders, and a submission carries every shown attachment once, in
      order ([Input], [Composer], [Prompt]).
    - Sessions: the status machine with its reachable states, one running
      branch mutation per stack under every gate, the depth limit, exhaustive
      and duplicate-free list rows, an exact index, transcript reconstruction
      ([Lifecycle], [Stack], [SessionOrder], [SessionState], [Transcript], [Session]).
    - Harness: every store operation is a sequence of contract transitions, with
      fencing of owners and once-only requests ([StoreLaws]); a turn ends, its history
      holds the model's calls with what their tools returned, files are reached only
      through validated paths, replacements are journaled first, the lock of a session
      stays taken until its effects and its store gave it up ([EngineLaws],
      [EffectLaws]); a patch applies as written and, where no insertion meets a missing
      final newline, its reverse restores the file; pages of a read
      cover the file ([PatchLaws], [ReadLaws]).
    - Protocol and forges: a response is recovered from the text around it
      ([ResponseParse]); forge commands run authenticated and their command lines
      address their own remote, replies of the program are recognised ([ForgeLaws]).

    ** Bounds and fuel

    Loops that are not structural take fuel that is proved or seen to be enough:
    the length of the text for scans that advance in every round
    ([render_prompt_text_for_agent], [image_token_ranges], [parse_hunks],
    [skip_to_line], [chunk_parts]), the interval of a bisection ([search_largest]),
    the number of loaded sessions for parent walks with a visited set
    ([session_stack_depth]) and for the nesting of list rows
    ([append_stacked_child_rows]) and for the search of descendants
    ([descendant_ids_loop]), the length of an answer for the JSON value at its start
    ([json_prefix_loop]), the permitted tool calls and one for the model
    loop ([run_loop]).  Attempts and hook loops are structural.  The loops of
    [DiffPrompt] and [ReviewPrompt] have no bound known beforehand: the termination
    theorem says that some fuel is enough in every environment and that more gives
    the same.  [run_worker] and [drain_work] take the number of steps; the
    termination theorems give it ([work_left]).  Lengths are [nat]; a text longer
    than [usize] is out of reach.  Revisions saturate at [u64_max], which the
    theorems that need fresh revisions exclude.

    ** Not modelled

    Rendering, key dispatch, SQL other than the campaign tables' statements, process
    and network adapters, tracing, the Git and clipboard clients and the test
    tooling: input and output around the logic above, or code whose behaviour is
    that of a library it calls.  Of the application's workflows the background
    coordination of a session's creation (session_creation.rs), the execution of a
    turn with its follow-up (turn.rs, worker.rs) and the modes of the terminal are
    answers of the environment.  Campaign events that overlap, a pass and a controller
    turn whose statements interleave, are not modelled: the theorems of [Campaigns]
    hold while events take turns ([QuietHost]).  Mutexes are taken one critical section
    at a time; only the worker, the retained effects and the event queue have interleavings that matter across
    sections, and there they are modelled.  A method of [MemoryStore] is one critical
    section, and the theorems quantify over all sequences of methods, so over all
    interleavings of its callers. *)
From Stdlib Require Export Ascii Permutation Sorting.Sorted.
From Stdlib Require Decimal DecimalNat.
From stdpp Require Export base numbers strings gmap fin_maps list sorting.

Declare Scope rust_scope.
Delimit Scope rust_scope with rust.
Open Scope rust_scope.

(** ** Text: Rust [char], [str] and [String]

    A [char] is a Unicode scalar value, a [str] the sequence of its scalar
    values.  UTF-8 is visible through [len_utf8] and the byte-indexed
    operations below, which return [None] where Rust panics. *)

Abbreviation char := N (only parsing).
Abbreviation str := (list N) (only parsing).

(** A source literal: the UTF-8 bytes of the Rocq string, decoded. *)
Fixpoint lit (s : string) : str :=
  match s with
  | EmptyString => []
  | String a s1 =>
      let b0 := N_of_ascii a in
      if (b0 <? 128)%N then b0 :: lit s1 else
      match s1 with
      | EmptyString => []
      | String b s2 =>
          let b1 := (N_of_ascii b - 128)%N in
          if (b0 <? 224)%N then ((b0 - 192) * 64 + b1)%N :: lit s2 else
          match s2 with
          | EmptyString => []
          | String c s3 =>
              let b2 := (N_of_ascii c - 128)%N in
              if (b0 <? 240)%N
              then ((b0 - 224) * 4096 + b1 * 64 + b2)%N :: lit s3
              else match s3 with
                   | EmptyString => []
                   | String d s4 =>
                       let b3 := (N_of_ascii d - 128)%N in
                       ((b0 - 240) * 262144 + b1 * 4096 + b2 * 64 + b3)%N :: lit s4
                   end
          end
      end
  end.

Arguments lit _%_string_scope.
Notation "'L' s" := (lit s%string) (at level 9, s at level 8) : rust_scope.

Definition newline : char := 10%N.
Definition carriage_return : char := 13%N.
Definition space : char := 32%N.
Definition slash : char := 47%N.

(** [char::len_utf8], [str::len]. *)
Definition len_utf8 (c : char) : nat :=
  if (c <? 128)%N then 1 else if (c <? 2048)%N then 2 else if (c <? 65536)%N then 3 else 4.

Definition byte_len (s : str) : nat := sum_list_with len_utf8 s.

#[global] Arguments byte_len : simpl never.

(** [char::encode_utf8] and [str::as_bytes]. *)
Definition encode_utf8 (c : char) : list N :=
  (if c <? 128 then [c]
   else if c <? 2048 then [192 + c / 64; 128 + c mod 64]
   else if c <? 65536 then [224 + c / 4096; 128 + (c / 64) mod 64; 128 + c mod 64]
   else [240 + c / 262144; 128 + (c / 4096) mod 64; 128 + (c / 64) mod 64; 128 + c mod 64])%N.

Definition as_bytes (s : str) : list N := flat_map encode_utf8 s.

(** [str::split_at]: [None] is the panic on an offset that is past the end or
    not on a character boundary. *)
Fixpoint split_at_byte (s : str) (offset : nat) : option (str * str) :=
  match offset with
  | 0 => Some ([], s)
  | _ => match s with
         | [] => None
         | c :: s' =>
             if decide (len_utf8 c <= offset) then
               '(before, after) ← split_at_byte s' (offset - len_utf8 c);
               Some (c :: before, after)
             else None
         end
  end.

(** [String::insert_str] and [String::insert]. *)
Definition insert_str_at (s : str) (offset : nat) (text : str) : option str :=
  '(before, after) ← split_at_byte s offset; Some (before ++ text ++ after).

(** [String::replace_range(start..end, text)]. *)
Definition replace_byte_range (s : str) (start stop : nat) (text : str) : option str :=
  if decide (start <= stop) then
    '(head, after) ← split_at_byte s stop;
    '(before, _) ← split_at_byte head start;
    Some (before ++ text ++ after)
  else None.

(** [str::char_indices]: every character with its byte offset. *)
Fixpoint char_indices_from (offset : nat) (s : str) : list (nat * char) :=
  match s with
  | [] => []
  | c :: s' => (offset, c) :: char_indices_from (offset + len_utf8 c) s'
  end.

Definition char_indices (s : str) : list (nat * char) := char_indices_from 0 s.

(** [char::is_whitespace]: the Unicode [White_Space] property. *)
Definition is_whitespace (c : char) : bool :=
  ((9 <=? c) && (c <=? 13) || (c =? 32) || (c =? 133) || (c =? 160) || (c =? 5760)
   || (8192 <=? c) && (c <=? 8202) || (c =? 8232) || (c =? 8233) || (c =? 8239)
   || (c =? 8287) || (c =? 12288))%N.

Definition is_ascii_digit (c : char) : bool := ((48 <=? c) && (c <=? 57))%N.
Definition is_ascii_lowercase (c : char) : bool := ((97 <=? c) && (c <=? 122))%N.
Definition is_ascii_uppercase (c : char) : bool := ((65 <=? c) && (c <=? 90))%N.

(** Case mapping of the standard library.  Its Unicode tables are a parameter;
    what is fixed is its documented action on ASCII. *)
Class UnicodeCase := {
  char_to_lowercase : char → list char;
  str_to_lowercase : str → str
}.

Definition ascii_lower (c : char) : char :=
  if is_ascii_uppercase c then (c + 32)%N else c.

Definition is_ascii (c : char) : bool := (c <? 128)%N.

Class UnicodeCaseLaws `{UnicodeCase} : Prop := {
  char_to_lowercase_ascii c : is_ascii c = true → char_to_lowercase c = [ascii_lower c];
  str_to_lowercase_ascii s : forallb is_ascii s = true → str_to_lowercase s = map ascii_lower s
}.

(** The ASCII-only case mapping, an instance that evaluates. *)
#[global] Instance ascii_case : UnicodeCase := {|
  char_to_lowercase c := [ascii_lower c];
  str_to_lowercase s := map ascii_lower s
|}.

#[global] Instance ascii_case_laws : UnicodeCaseLaws.
Proof. by split. Qed.

(** [char::is_alphanumeric], a Unicode table of the standard library. *)
Class UnicodeAlnum := is_alphanumeric : char → bool.

#[global] Instance ascii_alnum : UnicodeAlnum := λ c,
  is_ascii_digit c || is_ascii_lowercase c || is_ascii_uppercase c.

(** [take_while(p).count()], [skip_while(p)] and [trim_*]. *)
Fixpoint count_while (p : char → bool) (s : str) : nat :=
  match s with
  | c :: s' => if p c then S (count_while p s') else 0
  | [] => 0
  end.

Fixpoint skip_while (p : char → bool) (s : str) : str :=
  match s with
  | c :: s' => if p c then skip_while p s' else s
  | [] => []
  end.

Definition trim_start_matches (p : char → bool) (s : str) : str := skip_while p s.
Definition trim_end_matches (p : char → bool) (s : str) : str := rev (skip_while p (rev s)).
Definition trim_start (s : str) : str := trim_start_matches is_whitespace s.
Definition trim_end (s : str) : str := trim_end_matches is_whitespace s.
Definition trim (s : str) : str := trim_end (trim_start s).

(** Scanning loops over a [Vec<char>]: [while i > 0 && p(characters[i - 1]) { i -= 1 }], where indexing past the
    end panics, and [while i < characters.len() && p(characters[i]) { i += 1 }]. *)
Fixpoint scan_back (p : char → bool) (characters : str) (i : nat) : option nat :=
  match i with
  | 0 => Some 0
  | S j => c ← characters !! j; if p c then scan_back p characters j else Some i
  end.

Definition scan_forward (p : char → bool) (characters : str) (i : nat) : nat :=
  i + count_while p (drop i characters).

(** [str::strip_prefix], [starts_with], [ends_with]. *)
Fixpoint strip_prefix (prefix s : str) : option str :=
  match prefix, s with
  | [], _ => Some s
  | p :: prefix', c :: s' => if (p =? c)%N then strip_prefix prefix' s' else None
  | _ :: _, [] => None
  end.

Definition starts_with (s prefix : str) : bool :=
  match strip_prefix prefix s with Some _ => true | None => false end.

Definition ends_with (s suffix : str) : bool := starts_with (rev s) (rev suffix).

(** [str::find] of a substring: the byte offset of its first occurrence. *)
Fixpoint find_from (offset : nat) (s needle : str) : option nat :=
  if starts_with s needle then Some offset
  else match s with
       | [] => None
       | c :: s' => find_from (offset + len_utf8 c) s' needle
       end.

Definition str_find (s needle : str) : option nat := find_from 0 s needle.
Definition str_contains (s needle : str) : bool :=
  match str_find s needle with Some _ => true | None => false end.

(** [str::split] on one character: never empty, the separators dropped. *)
Fixpoint split_char (sep : char) (s : str) : list str :=
  match s with
  | [] => [[]]
  | c :: s' =>
      match split_char sep s' with
      | seg :: rest => if (c =? sep)%N then [] :: seg :: rest else (c :: seg) :: rest
      | [] => [[c]]
      end
  end.

(** [str::split_once]. *)
Fixpoint split_once (s needle : str) : option (str * str) :=
  match strip_prefix needle s with
  | Some rest => Some ([], rest)
  | None =>
      match s with
      | [] => None
      | c :: s' => '(before, after) ← split_once s' needle; Some (c :: before, after)
      end
  end.

(** [str::rsplit_once]: the text around the last occurrence. *)
Fixpoint rsplit_once (s needle : str) : option (str * str) :=
  match s with
  | [] => match strip_prefix needle [] with Some rest => Some ([], rest) | None => None end
  | c :: s' =>
      match rsplit_once s' needle with
      | Some (before, after) => Some (c :: before, after)
      | None => match strip_prefix needle s with Some rest => Some ([], rest) | None => None end
      end
  end.

(** [str::replace]; every round consumes the pattern or one character. *)
Fixpoint str_replace_loop (fuel : nat) (s pattern by_ : str) : str :=
  match fuel with
  | 0 => s
  | S fuel' =>
      match strip_prefix pattern s with
      | Some rest => by_ ++ str_replace_loop fuel' rest pattern by_
      | None => match s with
                | [] => []
                | c :: s' => c :: str_replace_loop fuel' s' pattern by_
                end
      end
  end.

Definition str_replace (s pattern by_ : str) : str := str_replace_loop (S (length s)) s pattern by_.

(** [str::split_inclusive('\n')]: every line with its line feed. *)
Fixpoint split_inclusive (s : str) : list str :=
  match s with
  | [] => []
  | c :: s' =>
      if (c =? newline)%N then [c] :: split_inclusive s'
      else match split_inclusive s' with
           | [] => [[c]]
           | line :: rest => (c :: line) :: rest
           end
  end.

(** [slice::join] of texts. *)
Fixpoint join (sep : str) (parts : list str) : str :=
  match parts with
  | [] => []
  | [p] => p
  | p :: ps => p ++ sep ++ join sep ps
  end.

(** [str::lines]: a line feed ends a line, a carriage return before it is
    dropped with it, and a final empty segment is not a line. *)
Definition strip_cr (line : str) : str :=
  match rev line with
  | c :: r => if (c =? carriage_return)%N then rev r else line
  | [] => line
  end.

Fixpoint lines_of (segments : list str) : list str :=
  match segments with
  | [] => []
  | [[]] => []
  | [line] => [line]
  | line :: rest => strip_cr line :: lines_of rest
  end.

Definition str_lines (s : str) : list str := lines_of (split_char newline s).

(** Decimal [Display] of an unsigned integer. *)
Fixpoint uint_digits (d : Decimal.uint) : str :=
  match d with
  | Decimal.Nil => []
  | Decimal.D0 d => 48%N :: uint_digits d
  | Decimal.D1 d => 49%N :: uint_digits d
  | Decimal.D2 d => 50%N :: uint_digits d
  | Decimal.D3 d => 51%N :: uint_digits d
  | Decimal.D4 d => 52%N :: uint_digits d
  | Decimal.D5 d => 53%N :: uint_digits d
  | Decimal.D6 d => 54%N :: uint_digits d
  | Decimal.D7 d => 55%N :: uint_digits d
  | Decimal.D8 d => 56%N :: uint_digits d
  | Decimal.D9 d => 57%N :: uint_digits d
  end.

Definition display_nat (n : nat) : str := uint_digits (Nat.to_uint n).

Definition parse_digit (c : char) : option Z :=
  if is_ascii_digit c then Some (Z.of_N c - 48)%Z else None.

(** Decimal digits, read. *)
Fixpoint parse_digits (acc : Z) (s : str) : option Z :=
  match s with
  | [] => Some acc
  | c :: rest => d ← parse_digit c; parse_digits (acc * 10 + d)%Z rest
  end.

(** [i64] in decimal. *)
Definition display_Z (z : Z) : str :=
  if (z <? 0)%Z then 45%N :: uint_digits (N.to_uint (Z.to_N (- z))) else uint_digits (N.to_uint (Z.to_N z)).

(** ** Results, text dispatch and persisted enumerations *)

Inductive result (A E : Type) : Type :=
| Ok (value : A)
| Err (error : E).
Arguments Ok {A E} value.
Arguments Err {A E} error.

(** [?]. *)
Definition and_then {A B E} (r : result A E) (f : A → result B E) : result B E :=
  match r with Ok a => f a | Err e => Err e end.

(** [let p = e?; k]. *)
Notation "'let?' p ':=' e 'in' k" := (and_then e (λ x, match x with p => k end))
  (at level 200, p pattern, e at level 200, k at level 200, only parsing) : rust_scope.

(** [is_empty] of a slice, a [Vec] or a [str]. *)
Definition is_empty {A} (l : list A) : bool := match l with [] => true | _ => false end.

Definition str_eqb (a b : str) : bool := bool_decide (a = b).

(** [match value { "a" => x, "b" => y, _ => ... }]: the first arm whose text
    is [value]. *)
Fixpoint match_str {A} (value : str) (arms : list (str * A)) : option A :=
  match arms with
  | [] => None
  | (text, x) :: arms' => if str_eqb value text then Some x else match_str value arms'
  end.

Definition match_str_or {A} (value : str) (arms : list (str * A)) (error : str) : result A str :=
  match match_str value arms with Some x => Ok x | None => Err error end.

(** What the database layer asks of an enumeration stored as text: writing a
    value and reading it back gives the value. *)
Class Persisted (A : Type) (write : A → str) (read : str → result A str) : Prop :=
  read_write : ∀ a, read (write a) = Ok a.

(** No two spellings are read as the same value. *)
Class PersistedExact (A : Type) (write : A → str) (read : str → result A str) : Prop :=
  write_read : ∀ s a, read s = Ok a → write a = s.

(** ** Machine integers: [Z] with the operations' width written out *)

Definition u64_max : Z := (2 ^ 64 - 1)%Z.
Definition i64_max : Z := (2 ^ 63 - 1)%Z.
Definition i64_min : Z := (- 2 ^ 63)%Z.

Definition u64_saturating_add (a b : Z) : Z := Z.min (a + b) u64_max.
Definition u64_wrapping_add (a b : Z) : Z := ((a + b) mod 2 ^ 64)%Z.
Definition i64_clamp (z : Z) : Z := Z.max i64_min (Z.min z i64_max).
Definition i64_saturating_add (a b : Z) : Z := i64_clamp (a + b).
Definition i64_saturating_sub (a b : Z) : Z := i64_clamp (a - b).

(** [usize] addition, where the source saturates. *)
Definition usize_max : Z := u64_max.

(** [str::parse::<i64>]: an optional sign and at least one digit, in range;
    [str::parse::<usize>] and [u64]: an optional plus sign. *)
Definition i64_of (z : Z) : option Z :=
  if (i64_min <=? z)%Z && (z <=? i64_max)%Z then Some z else None.

Definition parse_i64 (s : str) : option Z :=
  match s with
  | [] => None
  | c :: rest =>
      if (c =? 43)%N then (if is_empty rest then None else z ← parse_digits 0 rest; i64_of z)
      else if (c =? 45)%N then (if is_empty rest then None else z ← parse_digits 0 rest; i64_of (- z)%Z)
      else z ← parse_digits 0 s; i64_of z
  end.

Definition parse_usize (s : str) : option Z :=
  let digits := match s with c :: rest => if (c =? 43)%N then rest else s | [] => s end in
  if is_empty digits then None
  else z ← parse_digits 0 digits; if (z <=? usize_max)%Z then Some z else None.

Definition usize_saturating_add (a b : Z) : Z := Z.min (a + b) usize_max.

(** ** Hashing

    The third-party [FxHasher] is a parameter: a function of the sequence of
    writes it was given. *)
Inductive HashWrite := WriteI64 (value : Z) | WriteBytes (bytes : list N) | WriteU8 (value : N)
| WriteDiscriminant (index : nat) | WriteStr (text : str) | WriteU64 (value : Z).

Class FxHasher := fx_finish : list HashWrite → Z.

(** A hasher that evaluates, for concrete inputs. *)
#[global] Instance counting_hasher : FxHasher := λ writes, Z.of_nat (length writes).

(** ** Sequences *)

(** [VecDeque::pop_back]. *)
Definition pop_back {A} (l : list A) : option (A * list A) :=
  match rev l with
  | [] => None
  | x :: r => Some (x, rev r)
  end.

(** [iter().position(p)]. *)
Fixpoint position {A} (p : A → bool) (l : list A) : option nat :=
  match l with
  | [] => None
  | x :: l' => if p x then Some 0 else S <$> position p l'
  end.

(** [iter().find(p)]. *)
Fixpoint list_find_b {A} (p : A → bool) (l : list A) : option A :=
  match l with
  | [] => None
  | x :: l' => if p x then Some x else list_find_b p l'
  end.

(** [Vec::remove(index)] for an index in range. *)
Definition remove_nth {A} (i : nat) (l : list A) : list A := take i l ++ drop (S i) l.

(** [slice::sort_by], a stable sort: insertion sort whose [leb x y] says that
    [x] may stay before [y]. *)
Fixpoint insert_by {A} (leb : A → A → bool) (x : A) (l : list A) : list A :=
  match l with
  | [] => [x]
  | y :: l' => if leb x y then x :: l else y :: insert_by leb x l'
  end.

Fixpoint sort_by {A} (leb : A → A → bool) (l : list A) : list A :=
  match l with
  | [] => []
  | x :: l' => insert_by leb x (sort_by leb l')
  end.

(** [slice::sort_by_key] on a natural or integer key. *)
Definition sort_by_key {A} (key : A → Z) (l : list A) : list A :=
  sort_by (λ x y, (key x <=? key y)%Z) l.

(** The order of texts: by their UTF-8 bytes, that is by their code points. *)
Fixpoint str_leb (a b : str) : bool :=
  match a, b with
  | [], _ => true
  | _, [] => false
  | x :: a', y :: b' => if (x =? y)%N then str_leb a' b' else (x <? y)%N
  end.

(** [Iterator::partition]. *)
Definition partition_by {A} (p : A → bool) (l : list A) : list A * list A :=
  (List.filter p l, List.filter (λ x, negb (p x)) l).

(** ** Automation *)

Create HintDb rust.

(** Splits the boolean connectives and comparisons in the context. *)
Ltac bool_split :=
  repeat match goal with
  | H : (_ && _)%bool = true |- _ => apply andb_prop in H; destruct H
  | H : negb _ = true |- _ => apply negb_true_iff in H
  | H : negb _ = false |- _ => apply negb_false_iff in H
  | H : (_ || _)%bool = false |- _ => apply orb_false_elim in H; destruct H
  | H : bool_decide _ = true |- _ => apply bool_decide_eq_true in H
  | H : bool_decide _ = false |- _ => apply bool_decide_eq_false in H
  | H : (_ =? _)%N = true |- _ => apply N.eqb_eq in H
  | H : (_ =? _)%N = false |- _ => apply N.eqb_neq in H
  | H : (_ <=? _)%N = true |- _ => apply N.leb_le in H
  | H : (_ <=? _)%N = false |- _ => apply N.leb_gt in H
  end.

(** Case analysis of every [match] of the goal and the context, then solves. *)
Ltac crush_match := repeat (case_match || simplify_eq/=); try done.

(** An enumeration property: all constructors, by computation. *)
Ltac enum_cases := intros; repeat match goal with x : _ |- _ => destruct x end; try done.

(** ** Text lemmas *)

Lemma len_utf8_pos c : 1 <= len_utf8 c.
Proof. unfold len_utf8. repeat case_match; lia. Qed.
#[export] Hint Resolve len_utf8_pos : rust.

Lemma byte_len_app s t : byte_len (s ++ t) = byte_len s + byte_len t.
Proof. apply sum_list_with_app. Qed.

Lemma byte_len_cons c s : byte_len (c :: s) = len_utf8 c + byte_len s.
Proof. done. Qed.

Lemma byte_len_nil_inv s : byte_len s = 0 → s = [].
Proof. destruct s as [|c s]; [done|]. rewrite byte_len_cons. pose proof (len_utf8_pos c). lia. Qed.

Lemma length_le_byte_len s : length s <= byte_len s.
Proof.
  induction s as [|c s IH]; simpl; [lia|]. pose proof (len_utf8_pos c).
  unfold byte_len in *; simpl; lia.
Qed.

Lemma length_as_bytes s : length (as_bytes s) = byte_len s.
Proof.
  induction s as [|c s IH]; simpl; [done|]. rewrite length_app, IH, byte_len_cons. f_equal.
  unfold encode_utf8, len_utf8. by repeat case_match.
Qed.

Lemma split_at_byte_app s t : split_at_byte (s ++ t) (byte_len s) = Some (s, t).
Proof.
  induction s as [|c s IH]; simpl; [by destruct t|].
  pose proof (len_utf8_pos c). rewrite byte_len_cons.
  destruct (len_utf8 c + byte_len s) as [|n] eqn:E; [lia|].
  rewrite <- E, decide_True by lia.
  replace (len_utf8 c + byte_len s - len_utf8 c) with (byte_len s) by lia.
  by rewrite IH.
Qed.

Lemma split_at_byte_take i s : split_at_byte s (byte_len (take i s)) = Some (take i s, drop i s).
Proof. rewrite <- (take_drop i s) at 1. apply split_at_byte_app. Qed.

Lemma split_at_byte_Some s offset before after :
  split_at_byte s offset = Some (before, after) → s = before ++ after ∧ byte_len before = offset.
Proof.
  revert offset before. induction s as [|c s IH]; intros [|n] before H; simplify_eq/=; try done.
  case_decide; simplify_eq. destruct (split_at_byte s _) as [[b a]|] eqn:E; simplify_eq/=.
  apply IH in E as [-> Hb]. split; [done|]. rewrite byte_len_cons. lia.
Qed.

Lemma char_indices_from_lookup offset s i :
  char_indices_from offset s !! i = (λ c, (offset + byte_len (take i s), c)) <$> s !! i.
Proof.
  revert offset i. induction s as [|c s IH]; intros offset [|i]; simpl; try done.
  - by rewrite Nat.add_0_r.
  - rewrite IH. destruct (s !! i); simpl; [|done]. rewrite byte_len_cons. by rewrite Nat.add_assoc.
Qed.

Lemma replace_byte_range_take s i j t :
  i <= j →
  replace_byte_range s (byte_len (take i s)) (byte_len (take j s)) t
    = Some (take i s ++ t ++ drop j s).
Proof.
  intros Hij. unfold replace_byte_range.
  assert (Hsplit : take j s = take i s ++ drop i (take j s)).
  { rewrite <- (take_drop i (take j s)) at 1. by rewrite take_take, Nat.min_l. }
  rewrite decide_True by (rewrite Hsplit, byte_len_app; lia).
  rewrite split_at_byte_take. simpl.
  rewrite Hsplit. by rewrite split_at_byte_app.
Qed.

Lemma insert_str_at_take s i t :
  insert_str_at s (byte_len (take i s)) t = Some (take i s ++ t ++ drop i s).
Proof. unfold insert_str_at. by rewrite split_at_byte_take. Qed.

Lemma count_while_le p s : count_while p s <= length s.
Proof. induction s as [|c s IH]; simpl; [lia|]. case_match; lia. Qed.

Lemma count_while_lookup p s i c : i < count_while p s → s !! i = Some c → p c = true.
Proof.
  revert i. induction s as [|d s IH]; intros [|i] Hi Hc; simplify_eq/=; case_match; try lia; try done.
  apply (IH i); [lia|done].
Qed.

Lemma count_while_stop p s c : s !! count_while p s = Some c → p c = false.
Proof. induction s as [|d s IH]; simpl; [done|]. case_match; [done|]. by intros [= ->]. Qed.

Lemma count_while_app p s t : forallb p s = true → count_while p (s ++ t) = length s + count_while p t.
Proof. induction s as [|c s IH]; simpl; [done|]. intros [-> ?]%andb_prop. by rewrite IH. Qed.

Lemma scan_back_spec p s i :
  i <= length s →
  ∃ j, scan_back p s i = Some j ∧ j <= i
    ∧ (∀ k c, j <= k < i → s !! k = Some c → p c = true)
    ∧ (∀ c, j ≠ 0 → s !! (j - 1) = Some c → p c = false).
Proof.
  induction i as [|i IH]; intros Hi; simpl.
  - exists 0. repeat split; intros; lia.
  - destruct (lookup_lt_is_Some_2 s i) as [c Hc]; [lia|]. rewrite Hc. simpl.
    destruct (p c) eqn:Hp.
    + destruct IH as (j & -> & Hj & Hall & Hstop); [lia|]. exists j. repeat split; [lia| |done].
      intros k d Hk Hd. destruct (decide (k = i)) as [->|]; [congruence|]. apply (Hall k); [lia|done].
    + exists (S i). repeat split; [lia|intros; lia|]. intros d _ Hd.
      replace (S i - 1) with i in Hd by lia. congruence.
Qed.

Lemma scan_back_total p s i : i <= length s → ∃ j, scan_back p s i = Some j ∧ j <= i.
Proof. intros Hi. destruct (scan_back_spec p s i Hi) as (j & ? & ? & _). eauto. Qed.

Lemma scan_forward_bounds p s i : i <= length s → i <= scan_forward p s i <= length s.
Proof.
  intros Hi. unfold scan_forward. pose proof (count_while_le p (drop i s)).
  rewrite length_drop in *. lia.
Qed.

Lemma scan_back_unique p s i j :
  i <= length s → j <= i →
  (∀ k c, j <= k < i → s !! k = Some c → p c = true) →
  (j ≠ 0 → ∃ c, s !! (j - 1) = Some c ∧ p c = false) →
  scan_back p s i = Some j.
Proof.
  intros Hi Hj Hall Hstop. destruct (scan_back_spec p s i Hi) as (j' & -> & Hj' & Hall' & Hstop').
  f_equal. destruct (lt_eq_lt_dec j' j) as [[Hlt| ->]|Hlt]; [|done|].
  - destruct Hstop as (c & Hc & Hp); [lia|]. rewrite (Hall' (j - 1) c) in Hp; [done|lia|done].
  - destruct (lookup_lt_is_Some_2 s (j' - 1)) as [c Hc]; [lia|].
    pose proof (Hstop' c) as Hp. rewrite (Hall (j' - 1) c) in Hp; [|lia|done].
    assert (true = false) by (apply Hp; [lia|done]). done.
Qed.

Lemma skip_while_drop p s : skip_while p s = drop (count_while p s) s.
Proof. induction s as [|c s IH]; simpl; [done|]. by case_match. Qed.

Lemma skip_while_idem p s : skip_while p (skip_while p s) = skip_while p s.
Proof. induction s as [|c s IH]; simpl; [done|]. case_match; [done|]. simpl. by case_match. Qed.

Lemma skip_while_head p s c t : skip_while p s = c :: t → p c = false.
Proof. induction s as [|d s IH]; simpl; [done|]. case_match; [done|]. by intros [= -> ->]. Qed.

Lemma trim_end_matches_prefix p s : trim_end_matches p s `prefix_of` s.
Proof.
  unfold trim_end_matches. rewrite skip_while_drop.
  exists (rev (take (count_while p (rev s)) (rev s))).
  by rewrite <- rev_app_distr, take_drop, rev_involutive.
Qed.

Lemma trim_end_matches_idem p s : trim_end_matches p (trim_end_matches p s) = trim_end_matches p s.
Proof. unfold trim_end_matches. by rewrite rev_involutive, skip_while_idem. Qed.

(** Trimming the end does not uncover leading characters. *)
Lemma trim_end_keeps_start p q s :
  skip_while q s = s → skip_while q (trim_end_matches p s) = trim_end_matches p s.
Proof.
  destruct s as [|c s]; [done|]. intros Hq.
  assert (Hc : q c = false) by (eapply skip_while_head; exact Hq).
  destruct (trim_end_matches_prefix p (c :: s)) as [k Hk].
  destruct (trim_end_matches p (c :: s)) as [|d t]; [done|].
  simplify_eq/=. by rewrite Hc.
Qed.

Lemma trim_idem s : trim (trim s) = trim s.
Proof.
  unfold trim, trim_start, trim_end, trim_start_matches.
  rewrite (trim_end_keeps_start is_whitespace is_whitespace), trim_end_matches_idem; [done|].
  apply skip_while_idem.
Qed.

Lemma skip_while_nil p s : skip_while p s = [] ↔ forallb p s = true.
Proof. induction s as [|c s IH]; simpl; [done|]. destruct (p c); simpl; [exact IH|naive_solver]. Qed.

Lemma forallb_rev {A} (p : A → bool) l : forallb p (rev l) = forallb p l.
Proof.
  induction l as [|x l IH]; simpl; [done|]. rewrite forallb_app, IH. simpl.
  rewrite andb_true_r. apply andb_comm.
Qed.

Lemma trim_end_matches_nil p s : trim_end_matches p s = [] ↔ forallb p s = true.
Proof.
  unfold trim_end_matches. rewrite <- forallb_rev, <- skip_while_nil.
  split; [|by intros ->]. intros H. by rewrite <- (rev_involutive (skip_while p (rev s))), H.
Qed.

Lemma forallb_skip_while p q s :
  (∀ c, p c = true → q c = true) → forallb q (skip_while p s) = forallb q s.
Proof.
  intros Hpq. induction s as [|c s IH]; simpl; [done|]. destruct (p c) eqn:Hp; [|done].
  by rewrite (Hpq c Hp).
Qed.

Lemma forallb_trim_end_matches p q s :
  (∀ c, p c = true → q c = true) → forallb q (trim_end_matches p s) = forallb q s.
Proof. intros. unfold trim_end_matches. by rewrite forallb_rev, forallb_skip_while, forallb_rev. Qed.

(** A text is blank when trimming leaves nothing. *)
Lemma trim_nil s : trim s = [] ↔ forallb is_whitespace s = true.
Proof.
  unfold trim, trim_start, trim_end, trim_start_matches.
  by rewrite trim_end_matches_nil, forallb_skip_while.
Qed.

(** Trimming the start keeps a trimmed end. *)
Lemma skip_while_keeps_end p q s :
  trim_end_matches q s = s → trim_end_matches q (skip_while p s) = skip_while p s.
Proof.
  unfold trim_end_matches. intros Hq. apply (f_equal (@rev _)) in Hq. rewrite rev_involutive in Hq.
  rewrite <- (rev_involutive (skip_while p s)) at 2. f_equal.
  rewrite (skip_while_drop p). destruct (rev (drop (count_while p s) s)) as [|c r] eqn:E; [done|].
  assert (Hc : q c = false).
  { apply (skip_while_head q (rev s) c (r ++ rev (take (count_while p s) s))). rewrite Hq.
    rewrite <- (take_drop (count_while p s) s) at 1. by rewrite rev_app_distr, E. }
  simpl. by rewrite Hc.
Qed.

Lemma strip_prefix_Some pre s rest : strip_prefix pre s = Some rest ↔ s = pre ++ rest.
Proof.
  revert s. induction pre as [|p pre IHp]; intros s; simpl; [naive_solver|].
  destruct s as [|c s]; [naive_solver|]. destruct (N.eqb_spec p c) as [->|Hne].
  - rewrite IHp. naive_solver.
  - naive_solver.
Qed.

Lemma starts_with_true s pre : starts_with s pre = true ↔ pre `prefix_of` s.
Proof.
  unfold starts_with. case_match eqn:E.
  - apply strip_prefix_Some in E. subst. split; [|done]. intros _. by exists l.
  - split; [done|]. intros [k Hk]. apply strip_prefix_Some in Hk. congruence.
Qed.

Lemma str_find_Some s needle k :
  str_find s needle = Some k → ∃ pre post, s = pre ++ needle ++ post ∧ byte_len pre = k.
Proof.
  unfold str_find. enough (Hgen : ∀ o, find_from o s needle = Some k →
    ∃ pre post, s = pre ++ needle ++ post ∧ o + byte_len pre = k) by (intros H; by apply (Hgen 0)).
  induction s as [|c s IH]; intros o; simpl; case_match eqn:E.
  - apply starts_with_true in E as [post E]. intros [= <-]. exists [], post. split; [done|].
    unfold byte_len. simpl. lia.
  - done.
  - apply starts_with_true in E as [post E]. intros [= <-]. exists [], post. split; [done|].
    unfold byte_len. simpl. lia.
  - intros (pre & post & -> & Hk)%IH. exists (c :: pre), post. split; [done|].
    rewrite byte_len_cons. lia.
Qed.

Lemma str_contains_true s needle :
  str_contains s needle = true ↔ ∃ pre post, s = pre ++ needle ++ post.
Proof.
  unfold str_contains, str_find. split.
  - case_match eqn:E; [|done]. apply str_find_Some in E as (pre & post & ? & _). eauto.
  - intros (pre & post & ->). generalize 0. induction pre as [|c pre IH]; intros o; simpl.
    + assert (Hs : starts_with (needle ++ post) needle = true)
        by (apply starts_with_true; by exists post).
      destruct (needle ++ post); simpl; by rewrite Hs.
    + destruct (starts_with _ needle); [done|apply IH].
Qed.

Lemma split_once_Some s needle a b : split_once s needle = Some (a, b) → s = a ++ needle ++ b.
Proof.
  revert a. induction s as [|c s IH]; intros a; cbn.
  - destruct (strip_prefix needle []) as [rest|] eqn:E; [|done]. intros [= <- ->].
    by apply strip_prefix_Some in E.
  - destruct (strip_prefix needle (c :: s)) as [rest|] eqn:E.
    + intros [= <- ->]. by apply strip_prefix_Some in E.
    + destruct (split_once s needle) as [[a' b']|] eqn:ES; [|done]. intros [= <- ->]. cbn. f_equal. by apply IH.
Qed.

Lemma split_once_char a c b : c ∉ a → split_once (a ++ c :: b) [c] = Some (a, b).
Proof.
  induction a as [|d a IH]; cbn; [intros _; by rewrite N.eqb_refl|].
  rewrite not_elem_of_cons. intros [H1 H2]. destruct (N.eqb_spec c d); [done|]. by rewrite IH.
Qed.

Lemma split_char_not_nil sep s : split_char sep s ≠ [].
Proof. destruct s as [|c s]; simpl; [done|]. repeat case_match; done. Qed.

(** Splitting on a character and joining with it is the identity. *)
Lemma join_app sep (xs ys : list str) :
  xs ≠ [] → ys ≠ [] → join sep (xs ++ ys) = join sep xs ++ sep ++ join sep ys.
Proof.
  induction xs as [|x xs IH]; [done|]. intros _ Hys. destruct xs as [|x' xs].
  - by destruct ys.
  - change (join sep ((x :: x' :: xs) ++ ys)) with (x ++ sep ++ join sep ((x' :: xs) ++ ys)).
    rewrite IH by done. cbn [join]. by rewrite <- !app_assoc.
Qed.

Lemma join_split_char sep s : join [sep] (split_char sep s) = s.
Proof.
  induction s as [|c s IH]; simpl; [done|].
  pose proof (split_char_not_nil sep s).
  destruct (split_char sep s) as [|seg rest]; [done|].
  destruct (N.eqb_spec c sep) as [->|_]; simpl in *; [by rewrite IH|].
  destruct rest; by rewrite <- IH.
Qed.

Lemma uint_digits_digit d : forallb is_ascii_digit (uint_digits d) = true.
Proof. by induction d. Qed.

Lemma uint_digits_inj d e : uint_digits d = uint_digits e → d = e.
Proof. revert e. induction d; intros []; simpl; intros; simplify_eq; f_equal; auto. Qed.

Lemma display_nat_digits n : forallb is_ascii_digit (display_nat n) = true.
Proof. apply uint_digits_digit. Qed.

Lemma display_nat_inj n m : display_nat n = display_nat m → n = m.
Proof. intros H%uint_digits_inj. by apply DecimalNat.Unsigned.to_uint_inj. Qed.

Lemma display_nat_not_nil n : display_nat n ≠ [].
Proof.
  unfold display_nat. intros H.
  assert (Hd : Nat.to_uint n = Decimal.Nil) by (destruct (Nat.to_uint n); done).
  assert (n = 0).
  { rewrite <- (DecimalNat.Unsigned.of_to n), Hd. done. }
  subst. done.
Qed.

Lemma and_then_Ok {A B E} (e : result A E) (f : A → result B E) b :
  and_then e f = Ok b ↔ ∃ a, e = Ok a ∧ f a = Ok b.
Proof. destruct e; cbn; split; [by eauto|by intros (? & [= <-] & ?)|done|by intros (? & ? & ?)]. Qed.

Lemma str_eqb_true a b : str_eqb a b = true ↔ a = b.
Proof. apply bool_decide_eq_true. Qed.

Lemma str_eqb_refl a : str_eqb a a = true.
Proof. by apply str_eqb_true. Qed.

(** Distinct values of a persisted enumeration are stored under distinct texts. *)
Lemma persisted_inj {A} (write : A → str) read `{!Persisted A write read} a b :
  write a = write b → a = b.
Proof. intros H. enough (@Ok A str a = Ok b) by congruence. by rewrite <- !(read_write), H. Qed.

Lemma match_str_Some {A} value (arms : list (str * A)) x :
  match_str value arms = Some x → (value, x) ∈ arms.
Proof.
  induction arms as [|[t y] arms IH]; simpl; [done|]. case_match eqn:E.
  - intros [= ->]. apply str_eqb_true in E as ->. by left.
  - intros H. right. auto.
Qed.

(** Exactness from the table of arms: every arm's text is its value's text. *)
Lemma match_str_exact {A} (write : A → str) value arms err x :
  Forall (λ '(t, y), write y = t) arms → match_str_or value arms err = Ok x → write x = value.
Proof.
  intros Harms. unfold match_str_or. destruct (match_str value arms) eqn:E; [|done].
  intros [= ->]. apply match_str_Some in E. rewrite Forall_forall in Harms. by apply Harms in E.
Qed.

(** Solves [Persisted] and [PersistedExact] goals of plain enumerations. *)
Ltac solve_persisted := intros []; vm_compute; reflexivity.
Ltac solve_exact := intros s a; apply match_str_exact; repeat constructor.

(** ** Sequence lemmas *)

Lemma is_empty_true {A} (l : list A) : is_empty l = true ↔ l = [].
Proof. by destruct l. Qed.

Lemma is_empty_false {A} (l : list A) : is_empty l = false ↔ l ≠ [].
Proof. by destruct l. Qed.

Lemma pop_back_Some {A} (l r : list A) x : pop_back l = Some (x, r) ↔ l = r ++ [x].
Proof.
  unfold pop_back. destruct (rev l) as [|y t] eqn:E.
  - split; [done|]. intros ->. rewrite rev_app_distr in E. done.
  - apply (f_equal (@rev A)) in E. rewrite rev_involutive in E. subst. simpl.
    split; [by intros [= -> ->]|]. by intros [-> [= ->]]%app_inj_2.
Qed.

Lemma pop_back_None {A} (l : list A) : pop_back l = None ↔ l = [].
Proof.
  unfold pop_back. destruct (rev l) as [|y t] eqn:E.
  - split; [|done]. intros _. apply (f_equal (@rev A)) in E. by rewrite rev_involutive in E.
  - split; [done|]. by intros ->.
Qed.

Lemma position_Some {A} (p : A → bool) l i :
  position p l = Some i → ∃ x, l !! i = Some x ∧ p x = true ∧
    ∀ j y, j < i → l !! j = Some y → p y = false.
Proof.
  revert i. induction l as [|x l IH]; intros i; simpl; [done|].
  destruct (p x) eqn:Hp.
  - intros [= <-]. exists x. repeat split; [done|]. intros; lia.
  - destruct (position p l) as [k|]; simpl; [|done]. intros [= <-].
    destruct (IH k eq_refl) as (z & Hz & Hpz & Hlt). exists z. repeat split; [done..|].
    intros [|j] y Hj Hy; simplify_eq/=; [done|]. apply (Hlt j); [lia|done].
Qed.

Lemma position_None {A} (p : A → bool) l : position p l = None ↔ Forall (λ x, p x = false) l.
Proof.
  induction l as [|x l IH]; simpl; [by split; [constructor|]|].
  rewrite Forall_cons. destruct (p x); [naive_solver|].
  rewrite fmap_None, IH. naive_solver.
Qed.

Lemma list_find_b_Some {A} (p : A → bool) l x :
  list_find_b p l = Some x → x ∈ l ∧ p x = true.
Proof.
  induction l as [|y l IH]; simpl; [done|]. case_match eqn:E.
  - intros [= ->]. split; [by left|done].
  - intros [? ?]%IH. split; [by right|done].
Qed.

Lemma list_find_b_None {A} (p : A → bool) l :
  list_find_b p l = None ↔ ∀ x, x ∈ l → p x = false.
Proof.
  induction l as [|y l IH]; simpl; [set_solver|]. case_match eqn:E.
  - split; [done|]. intros H. rewrite (H y) in E; [done|by left].
  - rewrite IH. set_solver.
Qed.

Lemma list_find_b_ext {A} (p q : A → bool) l :
  (∀ x, x ∈ l → p x = q x) → list_find_b p l = list_find_b q l.
Proof.
  induction l as [|y l IH]; simpl; [done|]. intros H.
  rewrite (H y) by (by left). case_match; [done|]. apply IH. intros. apply H. by right.
Qed.

Lemma list_find_b_is_Some {A} (p : A → bool) l x :
  x ∈ l → p x = true → is_Some (list_find_b p l).
Proof.
  intros Hx Hp. destruct (list_find_b p l) eqn:E; [done|].
  rewrite list_find_b_None in E. rewrite (E x) in Hp; done.
Qed.

Lemma elem_of_filter_b {A} (p : A → bool) l x :
  x ∈ List.filter p l ↔ p x = true ∧ x ∈ l.
Proof. rewrite !list_elem_of_In, filter_In. tauto. Qed.

Lemma sublist_filter_b {A} (p : A → bool) l : List.filter p l `sublist_of` l.
Proof. induction l as [|x l IH]; simpl; [done|]. destruct (p x); by constructor. Qed.

Lemma existsb_true {A} (p : A → bool) l : existsb p l = true ↔ ∃ x, x ∈ l ∧ p x = true.
Proof. rewrite existsb_exists. by setoid_rewrite list_elem_of_In. Qed.

Lemma existsb_false {A} (p : A → bool) l : existsb p l = false ↔ ∀ x, x ∈ l → p x = false.
Proof.
  rewrite <- not_true_iff_false, existsb_true. split.
  - intros H x Hx. apply not_true_iff_false. naive_solver.
  - intros H (x & Hx & Hp). rewrite H in Hp; done.
Qed.

Lemma list_find_b_app {A} (p : A → bool) l k :
  existsb p k = false → list_find_b p (l ++ k) = list_find_b p l.
Proof.
  intros Hk. induction l as [|x l IH]; simpl; [|by rewrite IH].
  apply list_find_b_None, existsb_false, Hk.
Qed.

Lemma list_find_b_filter {A} (p q : A → bool) l :
  (∀ x, p x = true → q x = true) → list_find_b p (List.filter q l) = list_find_b p l.
Proof.
  intros Hpq. induction l as [|x l IH]; simpl; [done|].
  destruct (q x) eqn:Eq; simpl; destruct (p x) eqn:Ep; rewrite ?IH; try done.
  by rewrite (Hpq x Ep) in Eq.
Qed.

Lemma omap_fmap {A B C} (g : B → option C) (f : A → B) (l : list A) : omap g (f <$> l) = omap (g ∘ f) l.
Proof. induction l as [|x l IH]; csimpl; [done|]. by rewrite IH. Qed.

Lemma omap_eq {A B} (f g : A → option B) (l : list A) : (∀ x, x ∈ l → f x = g x) → omap f l = omap g l.
Proof.
  induction l as [|x l IH]; csimpl; [done|]. intros H. rewrite (H x), IH by set_solver. done.
Qed.

Lemma omap_filter_None {A B} (f : A → option B) (p : A → bool) l :
  (∀ x, x ∈ l → p x = false → f x = None) → omap f (List.filter p l) = omap f l.
Proof.
  induction l as [|x l IH]; csimpl; [done|]. intros H. destruct (p x) eqn:Ep; csimpl.
  - rewrite IH by set_solver. done.
  - rewrite (H x), IH by set_solver. done.
Qed.

Lemma filter_none {A} (p : A → bool) l : (∀ x, x ∈ l → p x = false) → List.filter p l = [].
Proof.
  induction l as [|x l IH]; simpl; [done|]. intros H. rewrite (H x) by set_solver. apply IH. set_solver.
Qed.

Lemma NoDup_fmap_filter {A B} (f : A → B) (p : A → bool) l :
  NoDup (f <$> l) → NoDup (f <$> List.filter p l).
Proof.
  induction l as [|x l IH]; csimpl; [done|]. intros [Hx Hl]%NoDup_cons. destruct (p x); [|auto].
  csimpl. constructor; [|auto]. intros (y & E & [_ Hy]%elem_of_filter_b)%list_elem_of_fmap.
  apply Hx. rewrite E. by apply list_elem_of_fmap_2.
Qed.

Lemma forallb_true {A} (p : A → bool) l : forallb p l = true ↔ ∀ x, x ∈ l → p x = true.
Proof. rewrite forallb_forall. by setoid_rewrite list_elem_of_In. Qed.

(** Greedy subsequence matching: what is left of the query. *)
Fixpoint greedy (q cs : list char) : list char :=
  match cs with
  | [] => q
  | c :: cs' =>
      match q with
      | [] => []
      | x :: q' => if decide (x = c) then greedy q' cs' else greedy q cs'
      end
  end.

Lemma greedy_nil cs : greedy [] cs = [].
Proof. by destruct cs. Qed.

Lemma greedy_app q a b : greedy q (a ++ b) = greedy (greedy q a) b.
Proof.
  revert q. induction a as [|c a IH]; intros q; [done|]. simpl. destruct q as [|x q]; [by rewrite greedy_nil|].
  case_decide; apply IH.
Qed.

Lemma greedy_sublist q cs : greedy q cs = [] ↔ q `sublist_of` cs.
Proof.
  revert q. induction cs as [|c cs IH]; intros q; simpl.
  - split; [intros ->; constructor|]. by intros ?%sublist_nil_r.
  - destruct q as [|x q]; [split; [intros; apply sublist_nil_l|done]|].
    case_decide as E.
    + subst. rewrite IH. split; [by constructor|]. intros Hs. inversion Hs; subst; [done|].
      etransitivity; [|eassumption]. by apply sublist_cons.
    + rewrite IH. split; [by constructor|]. intros Hs. by inversion Hs; subst.
Qed.

(** ** Stable sorting *)

Lemma insert_by_perm {A} (leb : A → A → bool) x l : Permutation (insert_by leb x l) (x :: l).
Proof.
  induction l as [|y l IH]; simpl; [done|]. case_match; [done|].
  rewrite IH. apply perm_swap.
Qed.

Lemma sort_by_perm {A} (leb : A → A → bool) l : Permutation (sort_by leb l) l.
Proof. induction l as [|x l IH]; simpl; [done|]. by rewrite insert_by_perm, IH. Qed.

Lemma sort_by_elem {A} (leb : A → A → bool) l x : x ∈ sort_by leb l ↔ x ∈ l.
Proof. by rewrite (sort_by_perm leb l). Qed.

Section sorting.
Context {A : Type} (leb : A → A → bool).
Context (leb_total : ∀ x y, leb x y = true ∨ leb y x = true).
Context (leb_trans : ∀ x y z, leb x y = true → leb y z = true → leb x z = true).

Lemma insert_by_sorted x l :
  StronglySorted (λ a b, leb a b = true) l → StronglySorted (λ a b, leb a b = true) (insert_by leb x l).
Proof.
  induction 1 as [|y l Hl IH Hy]; simpl; [repeat constructor|].
  case_match eqn:E.
  - constructor; [by constructor|]. constructor; [done|].
    eapply Forall_impl; [exact Hy|]. eauto.
  - constructor; [done|]. rewrite insert_by_perm. constructor; [|done].
    by destruct (leb_total x y); [congruence|].
Qed.

Lemma sort_by_sorted l : StronglySorted (λ a b, leb a b = true) (sort_by leb l).
Proof. induction l as [|x l IH]; simpl; [constructor|]. by apply insert_by_sorted. Qed.

(** A sorted sequence is left unchanged. *)
Lemma sort_by_id l : StronglySorted (λ a b, leb a b = true) l → sort_by leb l = l.
Proof.
  induction 1 as [|x l Hl IH Hx]; simpl; [done|]. rewrite IH.
  destruct Hx as [|y l' Hxy _]; simpl; [done|]. by rewrite Hxy.
Qed.

(** Stability: the elements of a class closed under [leb] keep their order. *)
Lemma sort_by_stable (p : A → bool) l :
  (∀ x y, p x = true → p y = true → leb x y = true) →
  List.filter p (sort_by leb l) = List.filter p l.
Proof.
  intros Hp. induction l as [|x l IH]; simpl; [done|]. rewrite <- IH. clear IH.
  generalize (sort_by leb l). intros s. induction s as [|y s IHs]; simpl; [done|].
  destruct (leb x y) eqn:Exy; simpl; [done|]. rewrite IHs.
  destruct (p x) eqn:Px, (p y) eqn:Py; try done. by rewrite Hp in Exy.
Qed.
End sorting.

Lemma sort_by_key_sorted {A} (key : A → Z) l :
  StronglySorted (λ a b, (key a <=? key b)%Z = true) (sort_by_key key l).
Proof.
  apply (sort_by_sorted (λ a b, key a <=? key b)%Z); intros; rewrite ?Z.leb_le in *; lia.
Qed.

Lemma sort_by_key_perm {A} (key : A → Z) l : Permutation (sort_by_key key l) l.
Proof. apply sort_by_perm. Qed.

Lemma partition_by_perm {A} (p : A → bool) l :
  Permutation ((partition_by p l).1 ++ (partition_by p l).2) l.
Proof.
  induction l as [|x l IH]; simpl in *; [done|]. destruct (p x); simpl; [by rewrite IH|].
  rewrite <- Permutation_middle. by rewrite IH.
Qed.

Lemma partition_by_Forall {A} (p : A → bool) l :
  Forall (λ a, p a = true) (partition_by p l).1 ∧ Forall (λ a, p a = false) (partition_by p l).2.
Proof.
  unfold partition_by. simpl. split; apply Forall_forall; intros x [Hp _]%elem_of_filter_b; [done|].
  by apply negb_true_iff.
Qed.

(** ** Integer lemmas *)

Lemma u64_saturating_add_lt a : (a < u64_max)%Z → u64_saturating_add a 1 = (a + 1)%Z.
Proof. unfold u64_saturating_add. lia. Qed.

Lemma u64_saturating_add_range a b :
  (0 <= a)%Z → (0 <= b)%Z → (0 <= u64_saturating_add a b <= u64_max)%Z.
Proof. unfold u64_saturating_add, u64_max. lia. Qed.
