(* ===== verification/Contracts.v ===== *)
(** * Shared execution settings (crates/ag-contracts)

    The selector enumerations of an agent session (response style, speed,
    permission mode, reasoning level), their persisted texts and parsers, the
    diff statistics and the shared provider-call budget. *)
From S2P Require Import Prelude.

(** ** [ResponseStyle] (session.rs) *)

Inductive ResponseStyle := Concise | Balanced | Detailed.

#[global] Instance ResponseStyle_eq_dec : EqDecision ResponseStyle.
Proof. solve_decision. Defined.

Definition ResponseStyle_ALL : list ResponseStyle := [Concise; Balanced; Detailed].
Definition ResponseStyle_default : ResponseStyle := Balanced.

Definition ResponseStyle_as_str (self : ResponseStyle) : str :=
  match self with
  | Concise => L"concise"
  | Balanced => L"balanced"
  | Detailed => L"detailed"
  end.

Definition ResponseStyle_name (self : ResponseStyle) : str :=
  match self with
  | Concise => L"Concise"
  | Balanced => L"Balanced"
  | Detailed => L"Detailed"
  end.

Definition ResponseStyle_description (self : ResponseStyle) : str :=
  match self with
  | Concise => L"Compact answers with essential results, caveats, and verification."
  | Balanced => L"Enough context to understand and verify without exhaustive detail."
  | Detailed => L"Thorough decisions, trade-offs, effects, and verification."
  end.

Definition ResponseStyle_prompt_instruction (self : ResponseStyle) : str :=
  match self with
  | Concise => L"Lead with the outcome. Keep the final answer compact, omit routine narration, and retain essential caveats and verification."
  | Balanced => L"Lead with the outcome. Provide enough context to understand decisions and verify the result without exhaustive detail."
  | Detailed => L"Lead with the outcome. Explain decisions, trade-offs, affected behavior, and verification thoroughly without repetition."
  end.

Definition ResponseStyle_from_str (value : str) : result ResponseStyle str :=
  match_str_or value
    [(L"concise", Concise); (L"balanced", Balanced); (L"detailed", Detailed)]
    (L"Unknown response style: " ++ value).

(** ** [SpeedMode] (session.rs) *)

Inductive SpeedMode := Normal | Fast.

#[global] Instance SpeedMode_eq_dec : EqDecision SpeedMode.
Proof. solve_decision. Defined.

Definition SpeedMode_ALL : list SpeedMode := [Normal; Fast].
Definition SpeedMode_default : SpeedMode := Normal.

Definition SpeedMode_as_str (self : SpeedMode) : str :=
  match self with Normal => L"normal" | Fast => L"fast" end.

Definition SpeedMode_name (self : SpeedMode) : str :=
  match self with Normal => L"Normal" | Fast => L"Fast" end.

Definition SpeedMode_description (self : SpeedMode) : str :=
  match self with
  | Normal => L"Standard response speed and provider pricing."
  | Fast => L"Faster responses at a higher provider cost."
  end.

Definition SpeedMode_from_str (value : str) : result SpeedMode str :=
  match_str_or value [(L"normal", Normal); (L"fast", Fast)] (L"Unknown speed mode: " ++ value).

(** ** [SessionDiffState] and [SessionStats] (session.rs) *)

Inductive SessionDiffState := DiffUnknown | DiffEmpty | DiffPresent.

#[global] Instance SessionDiffState_eq_dec : EqDecision SessionDiffState.
Proof. solve_decision. Defined.

Record SessionStats := mkSessionStats {
  added_lines : Z;
  deleted_lines : Z;
  diff_state : SessionDiffState;
  input_tokens : Z;
  output_tokens : Z
}.

Definition SessionStats_default : SessionStats :=
  {| added_lines := 0; deleted_lines := 0; diff_state := DiffUnknown;
     input_tokens := 0; output_tokens := 0 |}.

Definition should_show_diff (self : SessionStats) : bool :=
  negb (bool_decide (diff_state self = DiffEmpty)).

(** One step of the fold over the patch lines. *)
Definition count_diff_line (acc : Z * Z) (line : str) : Z * Z :=
  let '(added, deleted) := acc in
  if starts_with line (L"+") && negb (starts_with line (L"+++"))
  then (u64_saturating_add added 1, deleted)
  else if starts_with line (L"-") && negb (starts_with line (L"---"))
  then (added, u64_saturating_add deleted 1)
  else (added, deleted).

Definition line_change_counts (diff : str) : Z * Z :=
  fold_left count_diff_line (str_lines diff) (0%Z, 0%Z).

(** ** [PermissionMode] (permission.rs) *)

Inductive PermissionMode := AutoEdit | AutoEditAddressComments | ReadOnly.

#[global] Instance PermissionMode_eq_dec : EqDecision PermissionMode.
Proof. solve_decision. Defined.

Definition PermissionMode_ALL : list PermissionMode :=
  [AutoEdit; AutoEditAddressComments; ReadOnly].

Definition PermissionMode_description (self : PermissionMode) : str :=
  match self with
  | AutoEdit => L"Allow the agent to edit files automatically."
  | AutoEditAddressComments =>
      L"Auto Edit, then address focused-review suggestions up to 3 times."
  | ReadOnly => L"Inspect the repository without changing files."
  end.

Definition PermissionMode_label (self : PermissionMode) : str :=
  match self with
  | AutoEdit => L"auto_edit"
  | AutoEditAddressComments => L"auto_edit_address_comments"
  | ReadOnly => L"read_only"
  end.

Definition PermissionMode_display_label (self : PermissionMode) : str :=
  match self with
  | AutoEdit => L"Auto Edit"
  | AutoEditAddressComments => L"Auto Edit + Auto Address Comments"
  | ReadOnly => L"Read Only"
  end.

Definition PermissionMode_is_read_only (self : PermissionMode) : bool :=
  bool_decide (self = ReadOnly).

Definition PermissionMode_from_str (s : str) : result PermissionMode str :=
  match_str_or s
    [(L"auto_edit", AutoEdit); (L"auto_edit_address_comments", AutoEditAddressComments);
     (L"read_only", ReadOnly)]
    (L"Unknown permission mode: " ++ s).

(** ** [ReasoningLevel] (reasoning.rs) *)

Inductive ReasoningLevel := Low | Medium | High | XHigh | Max.

#[global] Instance ReasoningLevel_eq_dec : EqDecision ReasoningLevel.
Proof. solve_decision. Defined.

Definition ReasoningLevel_ALL : list ReasoningLevel := [Low; Medium; High; XHigh; Max].
Definition ReasoningLevel_default : ReasoningLevel := High.

Definition ReasoningLevel_as_str (self : ReasoningLevel) : str :=
  match self with
  | Low => L"low" | Medium => L"medium" | High => L"high" | XHigh => L"xhigh" | Max => L"max"
  end.

Definition ReasoningLevel_description (self : ReasoningLevel) : str :=
  match self with
  | Low => L"Fastest responses with lighter reasoning."
  | Medium => L"Balanced speed and reasoning depth."
  | High => L"Deeper reasoning for tougher tasks."
  | XHigh => L"Extra-high reasoning for complex tasks."
  | Max => L"Maximum reasoning effort for the hardest tasks."
  end.

Definition ReasoningLevel_from_str (value : str) : result ReasoningLevel str :=
  match_str_or value
    [(L"low", Low); (L"medium", Medium); (L"high", High); (L"xhigh", XHigh); (L"max", Max)]
    (L"unknown reasoning level: " ++ value).

(** ** [ProviderCallBudget] (provider_call_budget.rs)

    The counter shared by every clone of the budget; each operation is one
    atomic step on it. *)

Definition budget_exhausted : str :=
  L"Input exceeds the maximum length reduction budget: provider call limit reached; changes are preserved".

Definition ProviderCallBudget_new (limit : nat) : nat := limit.

Definition ensure_available (remaining : nat) : result unit str :=
  if decide (remaining = 0) then Err budget_exhausted else Ok tt.

Definition consume (remaining : nat) : result unit str * nat :=
  match remaining with
  | 0 => (Err budget_exhausted, 0)
  | S r => (Ok tt, r)
  end.

(** The outcomes of [n] attempts made through any of the clones. *)
Fixpoint consume_all (n remaining : nat) : list (result unit str) * nat :=
  match n with
  | 0 => ([], remaining)
  | S n' =>
      let '(outcome, remaining1) := consume remaining in
      let '(outcomes, remaining2) := consume_all n' remaining1 in
      (outcome :: outcomes, remaining2)
  end.

(** ** Laws *)

#[global] Instance ResponseStyle_persisted :
  Persisted ResponseStyle ResponseStyle_as_str ResponseStyle_from_str.
Proof. solve_persisted. Qed.
#[global] Instance ResponseStyle_exact :
  PersistedExact ResponseStyle ResponseStyle_as_str ResponseStyle_from_str.
Proof. solve_exact. Qed.

#[global] Instance SpeedMode_persisted : Persisted SpeedMode SpeedMode_as_str SpeedMode_from_str.
Proof. solve_persisted. Qed.
#[global] Instance SpeedMode_exact : PersistedExact SpeedMode SpeedMode_as_str SpeedMode_from_str.
Proof. solve_exact. Qed.

#[global] Instance PermissionMode_persisted :
  Persisted PermissionMode PermissionMode_label PermissionMode_from_str.
Proof. solve_persisted. Qed.
#[global] Instance PermissionMode_exact :
  PersistedExact PermissionMode PermissionMode_label PermissionMode_from_str.
Proof. solve_exact. Qed.

#[global] Instance ReasoningLevel_persisted :
  Persisted ReasoningLevel ReasoningLevel_as_str ReasoningLevel_from_str.
Proof. solve_persisted. Qed.
#[global] Instance ReasoningLevel_exact :
  PersistedExact ReasoningLevel ReasoningLevel_as_str ReasoningLevel_from_str.
Proof. solve_exact. Qed.

(** The lines that count as added or deleted. *)
Definition is_added_line (line : str) : bool :=
  starts_with line (L"+") && negb (starts_with line (L"+++")).
Definition is_deleted_line (line : str) : bool :=
  starts_with line (L"-") && negb (starts_with line (L"---")).

Lemma added_not_deleted line : is_added_line line = true → is_deleted_line line = false.
Proof.
  unfold is_added_line, is_deleted_line. intros [[k ->]%starts_with_true _]%andb_prop. done.
Qed.

Lemma count_diff_fold ls a d :
  (0 <= a <= u64_max)%Z → (0 <= d <= u64_max)%Z →
  fold_left count_diff_line ls (a, d)
  = (Z.min (a + Z.of_nat (length (List.filter is_added_line ls))) u64_max,
     Z.min (d + Z.of_nat (length (List.filter is_deleted_line ls))) u64_max)%Z.
Proof.
  revert a d. induction ls as [|l ls IH]; intros a d Ha Hd; [simpl; f_equal; lia|].
  cbn [fold_left List.filter].
  change (count_diff_line (a, d) l) with
    (if is_added_line l then (u64_saturating_add a 1, d)
     else if is_deleted_line l then (a, u64_saturating_add d 1) else (a, d)).
  unfold u64_saturating_add. destruct (is_added_line l) eqn:Ea.
  - rewrite (added_not_deleted l Ea), IH by lia. simpl. f_equal; lia.
  - destruct (is_deleted_line l) eqn:Ed; rewrite IH by lia; [|done]. simpl. f_equal; lia.
Qed.

(** the diff statistics are exact: the two counters are the numbers of
    lines of the patch that start with one plus (or minus) sign and are not
    file headers, clamped at the width of a 64-bit counter. *)
Theorem line_change_counts_spec (diff : str) :
  line_change_counts diff
  = (Z.min (Z.of_nat (length (List.filter is_added_line (str_lines diff)))) u64_max,
     Z.min (Z.of_nat (length (List.filter is_deleted_line (str_lines diff)))) u64_max).
Proof. unfold line_change_counts. by rewrite count_diff_fold by (unfold u64_max; lia). Qed.

(** a budget of [limit] admits exactly the first [limit] provider attempts,
    through whichever clones they come, refuses every later one, and never
    hands out more than [limit]. *)
Theorem consume_all_spec (n limit : nat) :
  consume_all n (ProviderCallBudget_new limit)
  = (replicate (n `min` limit) (Ok tt) ++ replicate (n - limit) (Err budget_exhausted),
     limit - n).
Proof.
  unfold ProviderCallBudget_new. revert limit. induction n as [|n IH]; intros limit; simpl.
  - by rewrite Nat.sub_0_r.
  - destruct limit as [|limit]; simpl.
    + rewrite IH. rewrite Nat.min_0_r, Nat.sub_0_r. done.
    + by rewrite IH.
Qed.

(** Availability is checked without being charged, and predicts the next charge. *)
Lemma ensure_available_consume remaining :
  ensure_available remaining = (consume remaining).1.
Proof. by destruct remaining. Qed.
