(* ===== verification/Agent.v ===== *)
(** * Agent providers, models and selections (crates/ag-session/src/agent.rs)

    Providers and the models each can run, the coherent provider/model pair
    of a session, the parser of persisted pairs with its registry of retired
    models, and the resolution of a model against the installed providers. *)
From S2P Require Import Prelude Contracts.

Inductive AgentKind := Antigravity | Gemini | Claude | Codex.

#[global] Instance AgentKind_eq_dec : EqDecision AgentKind.
Proof. solve_decision. Defined.

Inductive AgentModel :=
| Gpt6Astra | Gpt56Sol | Gpt56Terra | Gpt56Luna
| Gemini38Flash | Gemini35FlashLite | Gemini31Pro
| Gpt53CodexSpark
| ClaudeOpus5 | ClaudeSonnet5 | ClaudeFable5 | ClaudeHaiku4520251001.

#[global] Instance AgentModel_eq_dec : EqDecision AgentModel.
Proof. solve_decision. Defined.

(** ** [impl AgentModel] *)

Definition AgentModel_as_str (self : AgentModel) : str :=
  match self with
  | Gpt6Astra => L"gpt-6-astra"
  | Gpt56Sol => L"gpt-5.6-sol"
  | Gpt56Terra => L"gpt-5.6-terra"
  | Gpt56Luna => L"gpt-5.6-luna"
  | Gemini38Flash => L"gemini-3.8-flash"
  | Gemini35FlashLite => L"gemini-3.5-flash-lite"
  | Gemini31Pro => L"gemini-3.1-pro-preview"
  | Gpt53CodexSpark => L"gpt-5.3-codex-spark"
  | ClaudeOpus5 => L"claude-opus-5"
  | ClaudeSonnet5 => L"claude-sonnet-5"
  | ClaudeFable5 => L"claude-fable-5"
  | ClaudeHaiku4520251001 => L"claude-haiku-4-5-20251001"
  end.

Definition AgentModel_provider_model_str (self : AgentModel) : str := AgentModel_as_str self.

Definition RETIRED_MODEL_REPLACEMENTS : list (str * AgentModel) :=
  [(L"gemini-3-pro-preview", Gemini31Pro);
   (L"gemini-3.1-pro", Gemini31Pro);
   (L"gemini-3-flash-preview", Gemini38Flash);
   (L"gemini-3.7-flash", Gemini38Flash);
   (L"gemini-3.6-flash", Gemini38Flash);
   (L"gemini-3.5-flash", Gemini35FlashLite);
   (L"gemini-3.1-flash-lite-preview", Gemini35FlashLite);
   (L"claude-opus-4-8", ClaudeOpus5);
   (L"claude-opus-4-6", ClaudeOpus5);
   (L"claude-opus-4-7", ClaudeOpus5);
   (L"claude-sonnet-4-6", ClaudeSonnet5);
   (L"gpt-5.5", Gpt56Sol);
   (L"gpt-5.4-mini", Gpt56Luna);
   (L"gpt-5.4", Gpt56Sol);
   (L"gpt-5.3-codex", Gpt56Sol);
   (L"gpt-5.2-codex", Gpt53CodexSpark)].

Definition retired_replacement (value : str) : option AgentModel :=
  snd <$> list_find_b (λ '(retired_id, _), str_eqb retired_id value) RETIRED_MODEL_REPLACEMENTS.

Definition AgentModel_from_str (value : str) : result AgentModel str :=
  match_str_or value
    [(L"gemini-3.8-flash", Gemini38Flash);
     (L"gemini-3.5-flash-lite", Gemini35FlashLite);
     (L"gemini-3.1-pro-preview", Gemini31Pro);
     (L"gpt-6-astra", Gpt6Astra);
     (L"gpt-5.6-sol", Gpt56Sol);
     (L"gpt-5.6-terra", Gpt56Terra);
     (L"gpt-5.6-luna", Gpt56Luna);
     (L"gpt-5.3-codex-spark", Gpt53CodexSpark);
     (L"claude-opus-5", ClaudeOpus5);
     (L"claude-sonnet-5", ClaudeSonnet5);
     (L"claude-fable-5", ClaudeFable5);
     (L"claude-haiku-4-5-20251001", ClaudeHaiku4520251001)]
    (L"unknown model: " ++ value).

Definition parse_persisted (value : str) : result AgentModel str :=
  match retired_replacement value with
  | Some replacement => Ok replacement
  | None => AgentModel_from_str value
  end.

Definition AgentModel_description (self : AgentModel) : str :=
  match self with
  | Gemini31Pro => L"Higher-quality Gemini model for deeper reasoning."
  | Gemini38Flash => L"Fast Gemini model for agentic and multimodal tasks."
  | Gemini35FlashLite => L"Lightweight Gemini model for fast, cost-conscious workloads."
  | Gpt6Astra => L"Most capable Codex model for the hardest end-to-end work."
  | Gpt56Sol => L"Flagship Codex model for complex professional work."
  | Gpt56Terra => L"Current Codex model for balanced coding performance."
  | Gpt56Luna => L"Current Codex model for lighter coding iterations."
  | Gpt53CodexSpark => L"Codex spark model for quick coding iterations."
  | ClaudeOpus5 => L"Latest Claude Opus model for complex tasks."
  | ClaudeSonnet5 => L"Balanced Claude model for quality and latency."
  | ClaudeFable5 => L"Claude Fable model for creative, narrative-heavy tasks."
  | ClaudeHaiku4520251001 => L"Fast Claude model for lighter tasks."
  end.

(** ** [impl AgentKind] *)

Definition AgentKind_ALL : list AgentKind := [Gemini; Antigravity; Claude; Codex].

Definition executable_name (self : AgentKind) : str :=
  match self with
  | Antigravity => L"agy" | Gemini => L"gemini" | Claude => L"claude" | Codex => L"codex"
  end.

Definition default_model (self : AgentKind) : AgentModel :=
  match self with
  | Antigravity | Gemini => Gemini31Pro
  | Claude => ClaudeFable5
  | Codex => Gpt56Sol
  end.

Definition models (self : AgentKind) : list AgentModel :=
  match self with
  | Antigravity => [Gemini31Pro; Gemini38Flash; Gemini35FlashLite]
  | Gemini => [Gemini31Pro; Gemini38Flash; Gemini35FlashLite]
  | Claude => [ClaudeFable5; ClaudeOpus5; ClaudeSonnet5; ClaudeHaiku4520251001]
  | Codex => [Gpt6Astra; Gpt56Sol; Gpt56Terra; Gpt56Luna; Gpt53CodexSpark]
  end.

Definition supports_model (self : AgentKind) (model : AgentModel) : bool :=
  bool_decide (model ∈ models self).

Definition model_str (self : AgentKind) (model : AgentModel) : option str :=
  if negb (supports_model self model) then None else Some (AgentModel_as_str model).

Definition parse_model (self : AgentKind) (value : str) : option AgentModel :=
  match AgentModel_from_str value with
  | Err _ => None
  | Ok model => if negb (supports_model self model) then None else Some model
  end.

Definition supports_speed_mode (self : AgentKind) : bool :=
  match self with Claude | Codex => true | _ => false end.

Definition AgentKind_name (self : AgentKind) : str :=
  match self with
  | Antigravity => L"antigravity" | Gemini => L"gemini" | Claude => L"claude" | Codex => L"codex"
  end.

Definition AgentKind_description (self : AgentKind) : str :=
  match self with
  | Antigravity => L"Google Antigravity CLI agent."
  | Gemini => L"Google Gemini CLI agent."
  | Claude => L"Anthropic Claude Code agent."
  | Codex => L"OpenAI Codex CLI agent."
  end.

Definition AgentKind_from_str `{UnicodeCase} (s : str) : result AgentKind str :=
  let lowered := str_to_lowercase s in
  match_str_or lowered
    [(L"antigravity", Antigravity); (L"agy", Antigravity); (L"gemini", Gemini);
     (L"claude", Claude); (L"codex", Codex)]
    (L"unknown agent kind: " ++ lowered).

(** ** [AgentSelection]: the fields are private, so every value is built by [new]. *)

Record AgentSelection := mkAgentSelection { kind : AgentKind; model : AgentModel }.

#[global] Instance AgentSelection_eq_dec : EqDecision AgentSelection.
Proof. solve_decision. Defined.

Definition AgentSelection_new (k : AgentKind) (m : AgentModel) : AgentSelection :=
  {| kind := k; model := if supports_model k m then m else default_model k |}.

Definition supports_fast_mode (self : AgentSelection) : bool :=
  match kind self, model self with
  | Claude, ClaudeOpus5 => true
  | Codex, (Gpt6Astra | Gpt56Sol | Gpt56Terra | Gpt56Luna) => true
  | _, _ => false
  end.

Definition compatible_with_speed_mode (self : AgentSelection) (speed_mode : SpeedMode)
  : AgentSelection :=
  if bool_decide (speed_mode = Normal) || supports_fast_mode self then self
  else match kind self with
       | Claude => AgentSelection_new Claude ClaudeOpus5
       | Codex => if bool_decide (model self = Gpt53CodexSpark)
                  then AgentSelection_new Codex Gpt56Sol else self
       | Antigravity | Gemini => self
       end.

(** ** Persisted pairs and resolution *)

Definition legacy_agent_kind_for_model_value (model_value : str) (m : AgentModel) : AgentKind :=
  if starts_with model_value (L"claude-") then Claude
  else if starts_with model_value (L"gpt-") then Codex
  else if starts_with model_value (L"gemini-") then Antigravity
  else match list_find_b (λ k, supports_model k m) AgentKind_ALL with
       | Some k => k
       | None => Antigravity
       end.

Definition parse_model_for_persisted_agent (agent_kind : AgentKind) (model_value : str)
  : AgentSelection :=
  match parse_model agent_kind model_value with
  | Some m => AgentSelection_new agent_kind m
  | None =>
      match parse_persisted model_value with
      | Ok m => if supports_model agent_kind m then AgentSelection_new agent_kind m
                else AgentSelection_new agent_kind (default_model agent_kind)
      | Err _ => AgentSelection_new agent_kind (default_model agent_kind)
      end
  end.

Definition parse_persisted_session_agent_model `{UnicodeCase}
    (agent_value : option str) (model_value : str) : AgentSelection :=
  let parsed_agent :=
    value ← agent_value;
    if decide (trim value = []) then None
    else match AgentKind_from_str value with Ok k => Some k | Err _ => None end in
  match parsed_agent with
  | Some agent_kind => parse_model_for_persisted_agent agent_kind model_value
  | None =>
      let m := match parse_persisted model_value with
               | Ok m => m
               | Err _ => default_model Antigravity
               end in
      AgentSelection_new (legacy_agent_kind_for_model_value model_value m) m
  end.

Definition push_unique (ms : list AgentModel) (m : AgentModel) : list AgentModel :=
  if decide (m ∈ ms) then ms else ms ++ [m].

Definition selectable_models_for_agent_kinds (agent_kinds : list AgentKind) : list AgentModel :=
  fold_left push_unique (agent_kinds ≫= models) [].

Definition resolve_model_for_available_agent_kinds (m : AgentModel)
    (agent_kinds : list AgentKind) (fallback_model : AgentModel) : AgentModel :=
  if existsb (λ k, supports_model k m) agent_kinds then m
  else if existsb (λ k, supports_model k fallback_model) agent_kinds then fallback_model
  else match head agent_kinds with
       | Some k => default_model k
       | None => fallback_model
       end.

Definition resolve_agent_kind_for_model (m : AgentModel) (agent_kinds : list AgentKind)
    (fallback_agent_kind : AgentKind) : AgentKind :=
  match list_find_b (λ k, supports_model k m) agent_kinds with
  | Some k => k
  | None => fallback_agent_kind
  end.

Definition resolve_agent_selection_for_model (m : AgentModel) (preferred_agent_kind : AgentKind)
    (agent_kinds : list AgentKind) : AgentSelection :=
  let agent_kind :=
    if supports_model preferred_agent_kind m then preferred_agent_kind
    else resolve_agent_kind_for_model m agent_kinds preferred_agent_kind in
  AgentSelection_new agent_kind m.

Definition resolve_prompt_model_agent_kind (session_agent_kind : AgentKind)
    (agent_kinds : list AgentKind) : option AgentKind :=
  if decide (session_agent_kind ∈ agent_kinds) then Some session_agent_kind
  else head agent_kinds.

(** ** Laws *)

#[global] Instance AgentModel_persisted : Persisted AgentModel AgentModel_as_str AgentModel_from_str.
Proof. solve_persisted. Qed.
#[global] Instance AgentModel_exact : PersistedExact AgentModel AgentModel_as_str AgentModel_from_str.
Proof. solve_exact. Qed.

Lemma AgentKind_read_write `{UnicodeCaseLaws} k : AgentKind_from_str (AgentKind_name k) = Ok k.
Proof.
  unfold AgentKind_from_str. rewrite str_to_lowercase_ascii by (by destruct k). by destruct k.
Qed.

(** A selection whose provider can run its model. *)
Definition coherent (self : AgentSelection) : Prop := supports_model (kind self) (model self) = true.

#[global] Instance coherent_dec self : Decision (coherent self).
Proof. unfold coherent. apply _. Defined.

Lemma supports_default_model k : supports_model k (default_model k) = true.
Proof. by destruct k. Qed.

Lemma AgentSelection_new_coherent k m : coherent (AgentSelection_new k m).
Proof.
  unfold coherent, AgentSelection_new; simpl.
  destruct (supports_model k m) eqn:E; [done|]. apply supports_default_model.
Qed.
#[export] Hint Resolve AgentSelection_new_coherent : rust.

Lemma AgentSelection_new_id k m : supports_model k m = true → AgentSelection_new k m = mkAgentSelection k m.
Proof. unfold AgentSelection_new. by intros ->. Qed.

Lemma parse_persisted_agent_coherent k v : coherent (parse_model_for_persisted_agent k v).
Proof. unfold parse_model_for_persisted_agent. crush_match; auto with rust. Qed.

(** A persisted agent value decides the provider, whatever the model text. *)
Lemma parse_persisted_agent_kind k v : kind (parse_model_for_persisted_agent k v) = k.
Proof. unfold parse_model_for_persisted_agent. by crush_match. Qed.

(** no session ever carries a model its provider cannot run: the smart
    constructor, the speed adjustment of a coherent pair, the parser of
    persisted rows (any texts, legacy rows included) and the resolution of a
    model setting all yield a provider/model pair the provider supports. *)
Theorem selection_coherent `{UnicodeCase} :
  (∀ k m, coherent (AgentSelection_new k m)) ∧
  (∀ self speed, coherent self → coherent (compatible_with_speed_mode self speed)) ∧
  (∀ agent_value model_value,
     coherent (parse_persisted_session_agent_model agent_value model_value)) ∧
  (∀ m preferred kinds, coherent (resolve_agent_selection_for_model m preferred kinds)).
Proof.
  split_and!.
  - auto with rust.
  - intros self speed Hc. unfold compatible_with_speed_mode. crush_match; auto with rust.
  - intros av mv. unfold parse_persisted_session_agent_model.
    case_match; [apply parse_persisted_agent_coherent|]. auto with rust.
  - intros. unfold resolve_agent_selection_for_model. auto with rust.
Qed.

(** asking for fast responses keeps the provider and, when the provider has
    a speed control, ends on a model that supports the fast mode; providers
    without the control and pairs that already support it are unchanged. *)
Theorem compatible_with_speed_mode_spec (self : AgentSelection) :
  coherent self →
  kind (compatible_with_speed_mode self Fast) = kind self ∧
  supports_fast_mode (compatible_with_speed_mode self Fast) = supports_speed_mode (kind self) ∧
  (supports_fast_mode self = true → compatible_with_speed_mode self Fast = self) ∧
  compatible_with_speed_mode self Normal = self.
Proof. destruct self as [[] []]; vm_compute; intros; done. Qed.

Lemma compatible_with_speed_mode_witness :
  coherent (mkAgentSelection Codex Gpt53CodexSpark) ∧
  supports_fast_mode (compatible_with_speed_mode (mkAgentSelection Codex Gpt53CodexSpark) Fast) = true.
Proof.
  split; [reflexivity|].
  destruct (compatible_with_speed_mode_spec (mkAgentSelection Codex Gpt53CodexSpark)) as (_ & H & _);
    [reflexivity|]. rewrite H. reflexivity.
Defined.

(** The retirement registry only names texts that are no current model. *)
Lemma retired_not_current value m :
  retired_replacement value = Some m → ∀ m', AgentModel_as_str m' ≠ value.
Proof.
  unfold retired_replacement. intros (p & Hp & ->)%fmap_Some m' <-. 
  apply list_find_b_Some in Hp as [Hin Heq]. destruct p as [t r]; simpl in *.
  apply str_eqb_true in Heq as ->.
  assert (Hall : forallb (λ '(t, _), forallb (λ m', negb (str_eqb t (AgentModel_as_str m')))
    (concat (map models AgentKind_ALL))) RETIRED_MODEL_REPLACEMENTS = true) by (vm_compute; reflexivity).
  rewrite forallb_true in Hall. specialize (Hall _ Hin). cbv beta iota in Hall.
  rewrite forallb_true in Hall. specialize (Hall m').
  rewrite negb_true_iff, <- not_true_iff_false, str_eqb_true in Hall.
  apply Hall; [|done]. rewrite list_elem_of_In. destruct m'; simpl; tauto.
Qed.

Lemma parse_persisted_current m : parse_persisted (AgentModel_as_str m) = Ok m.
Proof.
  unfold parse_persisted. destruct (retired_replacement _) eqn:E; [|apply read_write].
  by eapply retired_not_current in E.
Qed.

(** saving a session's provider and model and loading the row back restores
    the pair exactly, for every coherent pair and any case mapping that acts on
    ASCII as documented. *)
Theorem persisted_selection_roundtrip `{UnicodeCaseLaws} (self : AgentSelection) :
  coherent self →
  parse_persisted_session_agent_model
    (Some (AgentKind_name (kind self))) (AgentModel_as_str (model self)) = self.
Proof.
  intros Hc. unfold parse_persisted_session_agent_model. simpl.
  rewrite decide_False by (by destruct (kind self)). rewrite AgentKind_read_write.
  unfold parse_model_for_persisted_agent, parse_model. rewrite read_write, Hc. simpl.
  rewrite AgentSelection_new_id by done. by destruct self.
Qed.

Lemma persisted_selection_roundtrip_witness :
  parse_persisted_session_agent_model (Some (L"claude")) (L"claude-opus-5")
  = mkAgentSelection Claude ClaudeOpus5.
Proof. apply (persisted_selection_roundtrip (mkAgentSelection Claude ClaudeOpus5)). reflexivity. Defined.

(** a model setting resolves to a model some available provider runs
    whenever any provider is available, keeps a supported model, prefers the
    fallback otherwise, and is the fallback when no provider is available. *)
Theorem resolve_model_spec (m fallback : AgentModel) (kinds : list AgentKind) :
  let r := resolve_model_for_available_agent_kinds m kinds fallback in
  (kinds ≠ [] → ∃ k, k ∈ kinds ∧ supports_model k r = true) ∧
  ((∃ k, k ∈ kinds ∧ supports_model k m = true) → r = m) ∧
  ((∀ k, k ∈ kinds → supports_model k m = false) →
   (∃ k, k ∈ kinds ∧ supports_model k fallback = true) → r = fallback) ∧
  (kinds = [] → r = fallback).
Proof.
  simpl. unfold resolve_model_for_available_agent_kinds.
  destruct (existsb (λ k, supports_model k m) kinds) eqn:E1.
  { apply existsb_true in E1 as H1. split_and!; [naive_solver|done| |by intros ->].
    intros H2. destruct H1 as (k & Hk & H1). rewrite H2 in H1; done. }
  rewrite existsb_false in E1.
  destruct (existsb (λ k, supports_model k fallback) kinds) eqn:E2.
  { apply existsb_true in E2. split_and!; [done| |done|done].
    intros (k & Hk & H2). rewrite E1 in H2; done. }
  rewrite existsb_false in E2. destruct kinds as [|k ks]; simpl.
  - split_and!; [done| |done|done]. set_solver.
  - split_and!; [intros _; exists k; split; [by left|apply supports_default_model]| | |done].
    + intros (k' & Hk & H2). rewrite E1 in H2; done.
    + intros _ (k' & Hk & H2). rewrite E2 in H2; done.
Qed.

Lemma selectable_fold ms acc m :
  NoDup acc →
  NoDup (fold_left push_unique ms acc) ∧
  (m ∈ fold_left push_unique ms acc ↔ m ∈ acc ∨ m ∈ ms).
Proof.
  revert acc. induction ms as [|x ms IH]; intros acc Hnd; simpl; [set_solver|].
  unfold push_unique at 2 4. case_decide.
  - destruct (IH acc Hnd) as [? Hm]. split; [done|]. rewrite Hm. set_solver.
  - destruct (IH (acc ++ [x])) as [? Hm].
    { apply NoDup_app. split_and!; [done|set_solver|apply NoDup_singleton]. }
    split; [done|]. rewrite Hm. set_solver.
Qed.

(** The model menu lists each model of the installed providers exactly once. *)
Lemma selectable_models_spec kinds m :
  NoDup (selectable_models_for_agent_kinds kinds) ∧
  (m ∈ selectable_models_for_agent_kinds kinds ↔ ∃ k, k ∈ kinds ∧ supports_model k m = true).
Proof.
  unfold selectable_models_for_agent_kinds. destruct (selectable_fold (kinds ≫= models) [] m) as [? Hm].
  { constructor. }
  split; [done|]. rewrite Hm, list_elem_of_bind. unfold supports_model.
  setoid_rewrite bool_decide_eq_true. set_solver.
Qed.
