(* ===== verification/Lifecycle.v ===== *)
(** * Session lifecycle (crates/ag-session/src/model.rs, crates/ag-forge/src/model.rs)

    Session identity, role and status, the transition relation of the status
    machine with its reachability theorems, the branch name and day key
    derived from a session, and the forge families and review-request states
    a session links to. *)
From S2P Require Import Prelude Contracts Agent.

(** A session identifier is an immutable text ([Arc<str>]). *)
Definition SessionId : Type := str.

#[global] Instance SessionId_eq_dec : EqDecision SessionId := list_eq_dec.
#[global] Instance SessionId_countable : Countable SessionId := list_countable.

(** ** [SessionRole] *)

Inductive SessionRole := Worker | OrchestrationWorker | OrchestrationResearcher | Orchestrator.

#[global] Instance SessionRole_eq_dec : EqDecision SessionRole.
Proof. solve_decision. Defined.

Definition SessionRole_owns_branch_changes (self : SessionRole) : bool :=
  match self with Worker | OrchestrationWorker => true | _ => false end.

Definition SessionRole_tracks_worktree_changes (self : SessionRole) : bool :=
  negb match self with Orchestrator => true | _ => false end.

Definition SessionRole_is_managed (self : SessionRole) : bool :=
  match self with OrchestrationWorker | OrchestrationResearcher => true | _ => false end.

Definition SessionRole_accepts_user_turns (self : SessionRole) : bool :=
  negb (SessionRole_is_managed self).

Definition SessionRole_display (self : SessionRole) : str :=
  match self with
  | Worker => L"Worker"
  | OrchestrationWorker => L"OrchestrationWorker"
  | OrchestrationResearcher => L"OrchestrationResearcher"
  | Orchestrator => L"Orchestrator"
  end.

Definition SessionRole_from_str (value : str) : result SessionRole str :=
  match_str_or value
    [(L"Worker", Worker); (L"OrchestrationWorker", OrchestrationWorker);
     (L"OrchestrationResearcher", OrchestrationResearcher); (L"Orchestrator", Orchestrator)]
    (L"Unknown role: " ++ value).

(** ** [SessionStatus] *)

Inductive SessionStatus :=
| Draft | InProgress | Review | AgentReview | Question | Queued
| Rebasing | Merging | Merged | Done | Canceled.

#[global] Instance SessionStatus_eq_dec : EqDecision SessionStatus.
Proof. solve_decision. Defined.

Definition SessionStatus_ALL : list SessionStatus :=
  [Draft; InProgress; Review; AgentReview; Question; Queued; Rebasing; Merging; Merged; Done;
   Canceled].

Definition allows_review_actions (self : SessionStatus) : bool :=
  match self with Review | AgentReview => true | _ => false end.

Definition allows_session_actions (self : SessionStatus) : bool :=
  allows_review_actions self || match self with Draft | Question => true | _ => false end.

Definition allows_chat_composer (self : SessionStatus) : bool :=
  allows_session_actions self || match self with InProgress | Rebasing => true | _ => false end.

Definition SessionStatus_is_read_only (self : SessionStatus) : bool :=
  match self with Merged => true | _ => false end.

Definition allows_diff_view (self : SessionStatus) : bool :=
  allows_review_actions self || SessionStatus_is_read_only self.

Definition allows_rebase_action (self : SessionStatus) : bool :=
  allows_review_actions self || bool_decide (self = InProgress).

Definition SessionStatus_allows_terminal_continuation (self : SessionStatus) : bool :=
  match self with Done | Canceled => true | _ => false end.

Definition allows_stacked_child_start (self : SessionStatus) : bool := allows_review_actions self.

Definition is_stack_branch_mutating (self : SessionStatus) : bool :=
  match self with
  | InProgress | Question | Queued | Rebasing | Merging | Merged => true
  | _ => false
  end.

Definition SessionStatus_can_transition_to (self next : SessionStatus) : bool :=
  if bool_decide (self = next) then true
  else if bool_decide (self = Merged) then bool_decide (next = Done)
  else match self, next with
       | Draft, (InProgress | Canceled) => true
       | (Draft | InProgress), Rebasing => true
       | (InProgress | Queued | Rebasing | Merging), Canceled => true
       | Review, AgentReview => true
       | AgentReview, Review => true
       | (Review | AgentReview), (Merged | Done) => true
       | (Review | AgentReview | Question),
         (InProgress | Queued | Rebasing | Merging | Canceled) => true
       | Queued, (Merging | Review | AgentReview) => true
       | (InProgress | Rebasing), (Review | AgentReview | Question) => true
       | Merging, (Done | Review | AgentReview) => true
       | _, _ => false
       end.

Definition SessionStatus_display (self : SessionStatus) : str :=
  match self with
  | Draft => L"Draft" | InProgress => L"InProgress" | Review => L"Review"
  | AgentReview => L"AgentReview" | Question => L"Question" | Queued => L"Queued"
  | Rebasing => L"Rebasing" | Merging => L"Merging" | Merged => L"Merged"
  | Done => L"Done" | Canceled => L"Canceled"
  end.

Definition SessionStatus_from_str (value : str) : result SessionStatus str :=
  match_str_or value
    [(L"Draft", Draft); (L"InProgress", InProgress); (L"Committing", InProgress);
     (L"Review", Review); (L"AgentReview", AgentReview); (L"Question", Question);
     (L"Queued", Queued); (L"Rebasing", Rebasing); (L"Merging", Merging); (L"Merged", Merged);
     (L"Done", Done); (L"Canceled", Canceled)]
    (L"Unknown status: " ++ value).

(** ** Derived names *)

Definition SESSION_BRANCH_PREFIX : str := L"wt/".

(** The slice [&session_id[..n]] panics ([None]) inside a character. *)
Definition session_branch (session_id : str) : option str :=
  let prefix_length := byte_len session_id `min` 8 in
  '(prefix, _) ← split_at_byte session_id prefix_length;
  Some (SESSION_BRANCH_PREFIX ++ prefix).

Definition SECONDS_PER_DAY : Z := 86400.

(** [div_euclid] by a positive divisor is the floor division of [Z]. *)
Definition activity_day_key_with_offset (timestamp_seconds utc_offset_seconds : Z) : Z :=
  (i64_saturating_add timestamp_seconds utc_offset_seconds / SECONDS_PER_DAY)%Z.

(** ** Forge families and review requests (ag-forge/src/model.rs) *)

Inductive ForgeKind := GitHub | GitLab.

#[global] Instance ForgeKind_eq_dec : EqDecision ForgeKind.
Proof. solve_decision. Defined.

Definition ForgeKind_display_name (self : ForgeKind) : str :=
  match self with GitHub => L"GitHub" | GitLab => L"GitLab" end.
Definition ForgeKind_cli_name (self : ForgeKind) : str :=
  match self with GitHub => L"gh" | GitLab => L"glab" end.
Definition ForgeKind_auth_login_command (self : ForgeKind) : str :=
  match self with GitHub => L"gh auth login" | GitLab => L"glab auth login" end.
Definition ForgeKind_as_str (self : ForgeKind) : str :=
  match self with GitHub => L"GitHub" | GitLab => L"GitLab" end.
Definition ForgeKind_review_request_name (self : ForgeKind) : str :=
  match self with GitHub => L"pull request" | GitLab => L"merge request" end.
Definition ForgeKind_review_request_display_name (self : ForgeKind) : str :=
  ForgeKind_display_name self ++ L" " ++ ForgeKind_review_request_name self.
Definition ForgeKind_review_request_short_name (self : ForgeKind) : str :=
  match self with GitHub => L"PR" | GitLab => L"MR" end.
Definition ForgeKind_from_str (value : str) : result ForgeKind str :=
  match_str_or value [(L"GitHub", GitHub); (L"GitLab", GitLab)]
    (L"Unknown review-request forge: " ++ value).

Definition is_gitlab_host (host : str) : bool :=
  str_eqb host (L"gitlab.com") || ends_with host (L".gitlab.com")
  || starts_with host (L"gitlab.") || str_contains host (L".gitlab.").

Inductive ReviewRequestState := RequestOpen | RequestMerged | RequestClosed.

#[global] Instance ReviewRequestState_eq_dec : EqDecision ReviewRequestState.
Proof. solve_decision. Defined.

Definition ReviewRequestState_as_str (self : ReviewRequestState) : str :=
  match self with
  | RequestOpen => L"Open" | RequestMerged => L"Merged" | RequestClosed => L"Closed"
  end.

Definition ReviewRequestState_from_str (value : str) : result ReviewRequestState str :=
  match_str_or value
    [(L"Open", RequestOpen); (L"Merged", RequestMerged); (L"Closed", RequestClosed)]
    (L"Unknown review-request state: " ++ value).

Record ReviewRequestSummary := mkReviewRequestSummary {
  display_id : str;
  forge_kind : ForgeKind;
  source_branch : str;
  request_state : ReviewRequestState;
  status_summary : option str;
  target_branch : str;
  request_title : str;
  web_url : str
}.

#[global] Instance ReviewRequestSummary_eq_dec : EqDecision ReviewRequestSummary.
Proof. solve_decision. Defined.

Record ReviewRequest := mkReviewRequest {
  last_refreshed_at : Z;
  summary : ReviewRequestSummary
}.

#[global] Instance ReviewRequest_eq_dec : EqDecision ReviewRequest.
Proof. solve_decision. Defined.

(** ** Laws *)

#[global] Instance SessionRole_persisted : Persisted SessionRole SessionRole_display SessionRole_from_str.
Proof. solve_persisted. Qed.
#[global] Instance SessionRole_exact : PersistedExact SessionRole SessionRole_display SessionRole_from_str.
Proof. solve_exact. Qed.
#[global] Instance SessionStatus_persisted :
  Persisted SessionStatus SessionStatus_display SessionStatus_from_str.
Proof. solve_persisted. Qed.
#[global] Instance ForgeKind_persisted : Persisted ForgeKind ForgeKind_as_str ForgeKind_from_str.
Proof. solve_persisted. Qed.
#[global] Instance ForgeKind_exact : PersistedExact ForgeKind ForgeKind_as_str ForgeKind_from_str.
Proof. solve_exact. Qed.
#[global] Instance ReviewRequestState_persisted :
  Persisted ReviewRequestState ReviewRequestState_as_str ReviewRequestState_from_str.
Proof. solve_persisted. Qed.
#[global] Instance ReviewRequestState_exact :
  PersistedExact ReviewRequestState ReviewRequestState_as_str ReviewRequestState_from_str.
Proof. solve_exact. Qed.

(** The only text read as a status beside the status's own is the retired
    [Committing], read as [InProgress]. *)
Lemma SessionStatus_from_str_inv s st :
  SessionStatus_from_str s = Ok st →
  s = SessionStatus_display st ∨ s = L"Committing" ∧ st = InProgress.
Proof.
  unfold SessionStatus_from_str, match_str_or.
  destruct (match_str _ _) as [x|] eqn:E; [|done]. intros [= ->].
  apply match_str_Some in E. rewrite list_elem_of_In in E. simpl in E. naive_solver.
Qed.

(** One step of the status machine, and its runs. *)
Definition status_step (s t : SessionStatus) : Prop := SessionStatus_can_transition_to s t = true.
Abbreviation status_run := (rtc status_step).

(** The terminal statuses. *)
Definition is_terminal (s : SessionStatus) : bool :=
  match s with Done | Canceled => true | _ => false end.

Lemma terminal_step s t : is_terminal s = true → status_step s t → t = s.
Proof. by destruct s, t. Qed.

Lemma merged_step t : status_step Merged t → t = Merged ∨ t = Done.
Proof. destruct t; try done; auto. Qed.

Lemma draft_step s : status_step s Draft → s = Draft.
Proof. by destruct s. Qed.

Lemma status_run_invariant (P : SessionStatus → Prop) s t :
  (∀ a b, P a → status_step a b → P b) → P s → status_run s t → P t.
Proof. intros Hstep Hs Hrun. revert Hs. induction Hrun; eauto. Qed.

(** Runs of several steps are found by evaluation. *)
Fixpoint follow (s : SessionStatus) (path : list SessionStatus) : bool :=
  match path with
  | [] => true
  | t :: path' => SessionStatus_can_transition_to s t && follow t path'
  end.

Lemma follow_run s path : follow s path = true → status_run s (default s (last path)).
Proof.
  revert s. induction path as [|t path IH]; intros s; simpl; [constructor|].
  intros [Hst H]%andb_prop. econstructor; [exact Hst|].
  apply IH in H. rewrite last_cons. by destruct (last path).
Qed.

(** the life of a session is governed by its status machine: a finished or
    canceled session never changes again, a remotely merged one can only become
    done, no session returns to draft, every session that is not canceled can
    still finish, and every session that is neither merged nor done can still
    be canceled. *)
Theorem session_lifecycle (s t : SessionStatus) :
  (is_terminal s = true → status_run s t → t = s) ∧
  (status_run Merged t → t = Merged ∨ t = Done) ∧
  (status_run s Draft → s = Draft) ∧
  (s ≠ Canceled → status_run s Done) ∧
  (s ≠ Merged → s ≠ Done → status_run s Canceled).
Proof.
  split_and!.
  - intros Hs. apply (status_run_invariant (λ t, t = s)); [|done].
    intros a b -> Hb. by apply terminal_step.
  - apply (status_run_invariant (λ t, t = Merged ∨ t = Done)); [|by left].
    intros a b [-> | ->] Hb; [by apply merged_step|]. right. by apply terminal_step in Hb.
  - intros Hrun. remember Draft as d. induction Hrun; subst; [done|].
    rewrite IHHrun in H by done. by apply draft_step.
  - intros Hs. destruct s; try done;
      solve [ apply (follow_run _ [Done]); reflexivity
            | apply (follow_run _ [Review; Done]); reflexivity
            | apply (follow_run _ [InProgress; Review; Done]); reflexivity ].
  - intros ? ?. destruct s; try done;
      solve [ constructor | apply (follow_run _ [Canceled]); reflexivity ].
Qed.

(** the permissions a status grants never overlap with its exclusive uses: a
    branch-mutating status never offers review actions, a stacked child can
    only start over a status that is not branch-mutating, a terminal status
    offers no composer, diff or rebase, and only terminal statuses seed a
    follow-on session. *)
Theorem status_policy (s : SessionStatus) :
  (is_stack_branch_mutating s = true → allows_review_actions s = false) ∧
  (allows_stacked_child_start s = true → is_stack_branch_mutating s = false) ∧
  (is_terminal s = true → allows_chat_composer s = false ∧ allows_diff_view s = false ∧
     allows_rebase_action s = false ∧ is_stack_branch_mutating s = false) ∧
  (SessionStatus_allows_terminal_continuation s = is_terminal s) ∧
  (allows_session_actions s = true → allows_chat_composer s = true).
Proof. destruct s; vm_compute; intuition done. Qed.

Lemma session_branch_boundary id pre post :
  id = pre ++ post → byte_len id `min` 8 = byte_len pre →
  session_branch id = Some (SESSION_BRANCH_PREFIX ++ pre).
Proof. intros -> Hlen. unfold session_branch. rewrite Hlen. by rewrite split_at_byte_app. Qed.

Lemma byte_len_ascii s : forallb is_ascii s = true → byte_len s = length s.
Proof.
  induction s as [|c s IH]; [done|]. simpl. intros [Hc Hs]%andb_prop.
  rewrite byte_len_cons, IH by done. unfold len_utf8. unfold is_ascii in Hc. by rewrite Hc.
Qed.

(** An ASCII identifier (every generated one) names the branch of its first
    eight characters; the slice cannot panic. *)
Lemma session_branch_ascii id :
  forallb is_ascii id = true → session_branch id = Some (SESSION_BRANCH_PREFIX ++ take 8 id).
Proof.
  intros Hid. apply session_branch_boundary with (post := drop 8 id); [by rewrite take_drop|].
  assert (Ht : forallb is_ascii (take 8 id) = true).
  { rewrite <- (take_drop 8 id), forallb_app in Hid. by apply andb_prop in Hid as [? _]. }
  rewrite !byte_len_ascii by done. rewrite length_take. lia.
Qed.

(** the activity day of a timestamp is the calendar day it falls in: away
    from the integer range's ends the day key brackets the shifted timestamp,
    before the epoch included, and a later timestamp never gets an earlier day. *)
Theorem activity_day_key_spec (t t' offset : Z) :
  (i64_min <= t + offset <= i64_max)%Z →
  (SECONDS_PER_DAY * activity_day_key_with_offset t offset <= t + offset
     < SECONDS_PER_DAY * (activity_day_key_with_offset t offset + 1))%Z ∧
  (t <= t' → activity_day_key_with_offset t offset <= activity_day_key_with_offset t' offset)%Z.
Proof.
  intros Hr. unfold activity_day_key_with_offset, i64_saturating_add, i64_clamp, SECONDS_PER_DAY.
  split.
  - replace (Z.max i64_min (Z.min (t + offset) i64_max)) with (t + offset)%Z by lia.
    pose proof (Z.mod_pos_bound (t + offset) 86400). pose proof (Z.div_mod (t + offset) 86400). lia.
  - intros Ht. apply Z.div_le_mono; lia.
Qed.

Lemma activity_day_key_witness :
  (i64_min <= -1 + 0 <= i64_max)%Z ∧ activity_day_key_with_offset (-1) 0 = (-1)%Z.
Proof.
  split; [vm_compute; split; discriminate|].
  destruct (activity_day_key_spec (-1) (-1) 0) as [H _]; [vm_compute; split; discriminate|].
  unfold SECONDS_PER_DAY in H. lia.
Defined.
