(* ===== verification/Orchestration.v ===== *)
(** * Orchestration campaigns (crates/ag-session/src/orchestration.rs)

    The states of a controller's plan and of its tasks, the task transition
    relation, the pure scheduling policy of the coordinator and the validation
    of a proposed subtask set. *)
From S2P Require Import Prelude Contracts Agent Lifecycle.

Definition MAX_AUTOMATED_REVIEW_ITERATIONS : Z := 3.

(** ** [OrchestrationTaskKind] *)

Inductive OrchestrationTaskKind := Implementation | Research.

#[global] Instance OrchestrationTaskKind_eq_dec : EqDecision OrchestrationTaskKind.
Proof. solve_decision. Defined.

Definition OrchestrationTaskKind_display (self : OrchestrationTaskKind) : str :=
  match self with Implementation => L"Implementation" | Research => L"Research" end.

Definition OrchestrationTaskKind_from_str (value : str) : result OrchestrationTaskKind str :=
  match_str_or value [(L"Implementation", Implementation); (L"Research", Research)]
    (L"Unknown orchestration task kind: " ++ value).

(** ** [OrchestrationStatus] *)

Inductive OrchestrationStatus :=
| OrchAwaitingApproval | OrchRunning | OrchCanceling | OrchVerifying
| OrchAwaitingIntegration | OrchIntegrating | OrchDone | OrchCanceled.

#[global] Instance OrchestrationStatus_eq_dec : EqDecision OrchestrationStatus.
Proof. solve_decision. Defined.

Definition OrchestrationStatus_is_active (self : OrchestrationStatus) : bool :=
  match self with
  | OrchAwaitingApproval | OrchRunning | OrchCanceling | OrchVerifying
  | OrchAwaitingIntegration | OrchIntegrating => true
  | _ => false
  end.

Definition OrchestrationStatus_display (self : OrchestrationStatus) : str :=
  match self with
  | OrchAwaitingApproval => L"AwaitingApproval"
  | OrchRunning => L"Running"
  | OrchCanceling => L"Canceling"
  | OrchVerifying => L"Verifying"
  | OrchAwaitingIntegration => L"AwaitingIntegration"
  | OrchIntegrating => L"Integrating"
  | OrchDone => L"Done"
  | OrchCanceled => L"Canceled"
  end.

Definition OrchestrationStatus_from_str (value : str) : result OrchestrationStatus str :=
  match_str_or value
    [(L"AwaitingApproval", OrchAwaitingApproval); (L"Running", OrchRunning);
     (L"Canceling", OrchCanceling); (L"Verifying", OrchVerifying);
     (L"AwaitingIntegration", OrchAwaitingIntegration); (L"Integrating", OrchIntegrating);
     (L"Done", OrchDone); (L"Canceled", OrchCanceled)]
    (L"Unknown orchestration status: " ++ value).

(** ** [IntegrationApproach] *)

Inductive IntegrationApproach := LocalMerge | ApproachReviewRequest.

#[global] Instance IntegrationApproach_eq_dec : EqDecision IntegrationApproach.
Proof. solve_decision. Defined.

Definition IntegrationApproach_display (self : IntegrationApproach) : str :=
  match self with LocalMerge => L"LocalMerge" | ApproachReviewRequest => L"ReviewRequest" end.

Definition IntegrationApproach_from_str (value : str) : result IntegrationApproach str :=
  match_str_or value [(L"LocalMerge", LocalMerge); (L"ReviewRequest", ApproachReviewRequest)]
    (L"Unknown integration approach: " ++ value).

(** ** [OrchestrationTaskStatus] *)

Inductive OrchestrationTaskStatus :=
| TaskProposed | TaskPlanned | TaskCreating | TaskRunning | TaskReviewing | TaskReviewApplying
| TaskWaitingForInput | TaskReady | TaskReported | TaskContinuationPending
| TaskAwaitingIntegration | TaskMerging | TaskIntegrated | TaskReviewRequested
| TaskIntegrationFailed | TaskDetached | TaskFailed | TaskCanceled.

#[global] Instance OrchestrationTaskStatus_eq_dec : EqDecision OrchestrationTaskStatus.
Proof. solve_decision. Defined.

Definition from_child_status (status : SessionStatus) : OrchestrationTaskStatus :=
  match status with
  | Draft | InProgress | Queued | Rebasing | Merging => TaskRunning
  | Question => TaskWaitingForInput
  | Review | AgentReview => TaskReviewing
  | Merged | Done => TaskReady
  | Canceled => TaskFailed
  end.

Definition is_settled (self : OrchestrationTaskStatus) : bool :=
  match self with
  | TaskReady | TaskReported | TaskIntegrated | TaskReviewRequested | TaskIntegrationFailed
  | TaskFailed | TaskCanceled | TaskDetached => true
  | _ => false
  end.

Definition occupies_parallelism_slot (self : OrchestrationTaskStatus) : bool :=
  match self with
  | TaskCreating | TaskRunning | TaskReviewing | TaskReviewApplying | TaskWaitingForInput
  | TaskContinuationPending | TaskMerging => true
  | _ => false
  end.

Definition TaskStatus_can_transition_to (self next : OrchestrationTaskStatus) : bool :=
  if bool_decide (self = next) then true
  else match self, next with
  | TaskProposed, TaskPlanned => true
  | (TaskPlanned | TaskReady | TaskFailed | TaskCanceled | TaskIntegrationFailed),
    TaskCreating => true
  | (TaskCreating | TaskWaitingForInput), TaskRunning => true
  | TaskRunning, (TaskReviewing | TaskWaitingForInput) => true
  | (TaskRunning | TaskReviewing | TaskWaitingForInput), (TaskReady | TaskReported) => true
  | TaskReviewing, TaskReviewApplying => true
  | TaskReviewApplying, (TaskReviewing | TaskWaitingForInput) => true
  | TaskReady, (TaskAwaitingIntegration | TaskContinuationPending | TaskDetached) => true
  | TaskAwaitingIntegration, (TaskMerging | TaskContinuationPending | TaskDetached) => true
  | TaskIntegrationFailed, (TaskContinuationPending | TaskDetached) => true
  | TaskContinuationPending, (TaskReady | TaskWaitingForInput | TaskFailed) => true
  | TaskMerging, (TaskIntegrated | TaskReviewRequested | TaskIntegrationFailed) => true
  | TaskReviewRequested, (TaskIntegrated | TaskIntegrationFailed) => true
  | (TaskPlanned | TaskCreating | TaskRunning | TaskReviewing | TaskReviewApplying
     | TaskWaitingForInput), (TaskFailed | TaskCanceled) => true
  | _, _ => false
  end.

Definition is_integration_settled (self : OrchestrationTaskStatus) : bool :=
  match self with
  | TaskIntegrated | TaskDetached | TaskCanceled | TaskFailed => true
  | _ => false
  end.

Definition TaskStatus_labels (self : OrchestrationTaskStatus) : str * str :=
  match self with
  | TaskProposed => (L"Proposed", L"awaiting approval")
  | TaskPlanned => (L"Planned", L"waiting")
  | TaskCreating => (L"Creating", L"starting")
  | TaskRunning => (L"Running", L"running")
  | TaskReviewing => (L"Reviewing", L"reviewing")
  | TaskReviewApplying => (L"ReviewApplying", L"applying review")
  | TaskWaitingForInput => (L"WaitingForInput", L"waiting on you")
  | TaskReady => (L"Ready", L"ready")
  | TaskReported => (L"Reported", L"reported")
  | TaskContinuationPending => (L"ContinuationPending", L"continuing")
  | TaskAwaitingIntegration => (L"AwaitingIntegration", L"awaiting integration")
  | TaskMerging => (L"Merging", L"integrating")
  | TaskIntegrated => (L"Integrated", L"integrated")
  | TaskReviewRequested => (L"ReviewRequested", L"review requested")
  | TaskIntegrationFailed => (L"IntegrationFailed", L"integration failed")
  | TaskDetached => (L"Detached", L"detached")
  | TaskFailed => (L"Failed", L"failed")
  | TaskCanceled => (L"Canceled", L"canceled")
  end.

Definition TaskStatus_display (self : OrchestrationTaskStatus) : str := (TaskStatus_labels self).1.
Definition campaign_label (self : OrchestrationTaskStatus) : str := (TaskStatus_labels self).2.

Definition TaskStatus_from_str (value : str) : result OrchestrationTaskStatus str :=
  match_str_or value
    [(L"Proposed", TaskProposed); (L"Planned", TaskPlanned); (L"Creating", TaskCreating);
     (L"Running", TaskRunning); (L"Reviewing", TaskReviewing);
     (L"ReviewApplying", TaskReviewApplying); (L"WaitingForInput", TaskWaitingForInput);
     (L"Ready", TaskReady); (L"Reported", TaskReported);
     (L"ContinuationPending", TaskContinuationPending);
     (L"AwaitingIntegration", TaskAwaitingIntegration); (L"Merging", TaskMerging);
     (L"Integrated", TaskIntegrated); (L"ReviewRequested", TaskReviewRequested);
     (L"IntegrationFailed", TaskIntegrationFailed); (L"Detached", TaskDetached);
     (L"Failed", TaskFailed); (L"Canceled", TaskCanceled)]
    (L"Unknown orchestration task status: " ++ value).

(** ** [OrchestrationPolicy::schedule] *)

Record OrchestrationScheduleDecision := mkScheduleDecision {
  should_submit : bool;
  spawn_count : nat
}.

Definition status_is (p : OrchestrationTaskStatus → bool) (s : option OrchestrationTaskStatus)
  : bool :=
  match s with Some st => p st | None => false end.

Definition occupied_slots (task_statuses : list (option OrchestrationTaskStatus)) : nat :=
  length (List.filter (status_is occupies_parallelism_slot) task_statuses).

Definition planned_tasks (task_statuses : list (option OrchestrationTaskStatus)) : nat :=
  length (List.filter (λ s, bool_decide (s = Some TaskPlanned)) task_statuses).

Definition schedule (max_parallelism : nat) (task_statuses : list (option OrchestrationTaskStatus))
  : OrchestrationScheduleDecision :=
  {| should_submit :=
       negb (is_empty task_statuses) && forallb (status_is is_settled) task_statuses;
     spawn_count := (max_parallelism - occupied_slots task_statuses) `min` planned_tasks task_statuses |}.

(** ** Plan validation *)

Record OrchestrationPlanTask := mkPlanTask {
  acceptance_criteria : list str;
  task_kind : OrchestrationTaskKind;
  task_prompt : str;
  task_key : str;
  task_title : str;
  touched_areas : list str
}.

Definition is_kebab_case_task_key (key : str) : bool :=
  negb (is_empty key) &&
  forallb (λ segment, negb (is_empty segment) &&
             forallb (λ byte, is_ascii_lowercase byte || is_ascii_digit byte) segment)
          (split_char 45%N key).

(** [trim_start_matches("./")]: the prefix is removed as long as it is there.
    Each round drops two characters, so the length is fuel enough. *)
Fixpoint trim_dot_slash (fuel : nat) (s : str) : str :=
  match fuel with
  | 0 => s
  | S fuel' => match strip_prefix (L"./") s with
               | Some rest => trim_dot_slash fuel' rest
               | None => s
               end
  end.

Definition normalized_scope (area : str) : result str str :=
  let trimmed := trim area in
  let normalized :=
    trim_end_matches (N.eqb slash) (trim_dot_slash (length trimmed) trimmed) in
  if is_empty normalized || starts_with normalized [slash]
     || existsb (λ part, str_eqb part (L"..")) (split_char slash normalized)
  then Err (L"use a non-empty repository-relative path")
  else if existsb (λ c, bool_decide (c ∈ L"*?[]{}")) normalized
  then Err (L"use a literal file or directory path; wildcard patterns are not supported")
  else Ok normalized.

Definition is_blank (text : str) : bool := is_empty (trim text).

(** The first touched area that is refused ends the loop with its error. *)
Fixpoint check_areas (key : str) (areas : list str) : result unit str :=
  match areas with
  | [] => Ok tt
  | area :: areas' =>
      match normalized_scope area with
      | Ok _ => check_areas key areas'
      | Err reason => Err (L"subtask `" ++ key ++ L"` has invalid touched area `" ++ area
                           ++ L"`: " ++ reason ++ L".")
      end
  end.

Definition check_subtask (task : OrchestrationPlanTask) : result unit str :=
  if is_blank (task_prompt task) || is_blank (task_title task)
     || forallb is_blank (acceptance_criteria task)
  then Err (L"subtask `" ++ task_key task
            ++ L"` needs a title, standalone prompt, and acceptance criteria.")
  else check_areas (task_key task)
         (if bool_decide (task_kind task = Implementation) then touched_areas task else []).

(** The loop over the subtasks, with the keys already seen. *)
Fixpoint check_subtasks (task_keys : list str) (subtasks : list OrchestrationPlanTask)
  : result unit str :=
  match subtasks with
  | [] => Ok tt
  | task :: rest =>
      if negb (is_kebab_case_task_key (task_key task)) || bool_decide (task_key task ∈ task_keys)
      then Err (L"every subtask needs a unique kebab-case task key.")
      else match check_subtask task with
           | Ok _ => check_subtasks (task_key task :: task_keys) rest
           | Err e => Err e
           end
  end.

Definition is_research (task : OrchestrationPlanTask) : bool :=
  bool_decide (task_kind task = Research).

Definition validate_subtasks (subtasks : list OrchestrationPlanTask) (is_retry : bool)
  : result unit str :=
  let is_research_wave := negb (is_empty subtasks) && forallb is_research subtasks in
  let has_research := existsb is_research subtasks in
  if has_research && negb is_research_wave
  then Err (L"research and implementation tasks must be proposed in separate waves.")
  else if bool_decide (length subtasks < 2) && negb is_retry && negb is_research_wave
  then Err (L"a meaningful orchestration requires at least two subtasks.")
  else check_subtasks [] subtasks.

(** ** Laws *)

#[global] Instance OrchestrationTaskKind_persisted :
  Persisted OrchestrationTaskKind OrchestrationTaskKind_display OrchestrationTaskKind_from_str.
Proof. solve_persisted. Qed.
#[global] Instance OrchestrationTaskKind_exact :
  PersistedExact OrchestrationTaskKind OrchestrationTaskKind_display OrchestrationTaskKind_from_str.
Proof. solve_exact. Qed.
#[global] Instance OrchestrationStatus_persisted :
  Persisted OrchestrationStatus OrchestrationStatus_display OrchestrationStatus_from_str.
Proof. solve_persisted. Qed.
#[global] Instance OrchestrationStatus_exact :
  PersistedExact OrchestrationStatus OrchestrationStatus_display OrchestrationStatus_from_str.
Proof. solve_exact. Qed.
#[global] Instance IntegrationApproach_persisted :
  Persisted IntegrationApproach IntegrationApproach_display IntegrationApproach_from_str.
Proof. solve_persisted. Qed.
#[global] Instance IntegrationApproach_exact :
  PersistedExact IntegrationApproach IntegrationApproach_display IntegrationApproach_from_str.
Proof. solve_exact. Qed.
#[global] Instance TaskStatus_persisted :
  Persisted OrchestrationTaskStatus TaskStatus_display TaskStatus_from_str.
Proof. solve_persisted. Qed.
#[global] Instance TaskStatus_exact :
  PersistedExact OrchestrationTaskStatus TaskStatus_display TaskStatus_from_str.
Proof. solve_exact. Qed.

(** every enumeration the database stores as text is read back as it was
    written, and all but the session status (which also accepts a retired
    spelling) accept no other text, so an unknown row is an error and never a
    silently different value. *)
Theorem persisted_enumerations :
  (Persisted SessionRole SessionRole_display SessionRole_from_str ∧
   Persisted SessionStatus SessionStatus_display SessionStatus_from_str ∧
   Persisted OrchestrationTaskKind OrchestrationTaskKind_display OrchestrationTaskKind_from_str ∧
   Persisted OrchestrationStatus OrchestrationStatus_display OrchestrationStatus_from_str ∧
   Persisted OrchestrationTaskStatus TaskStatus_display TaskStatus_from_str ∧
   Persisted IntegrationApproach IntegrationApproach_display IntegrationApproach_from_str ∧
   Persisted PermissionMode PermissionMode_label PermissionMode_from_str ∧
   Persisted ReasoningLevel ReasoningLevel_as_str ReasoningLevel_from_str ∧
   Persisted ResponseStyle ResponseStyle_as_str ResponseStyle_from_str ∧
   Persisted SpeedMode SpeedMode_as_str SpeedMode_from_str ∧
   Persisted ForgeKind ForgeKind_as_str ForgeKind_from_str ∧
   Persisted ReviewRequestState ReviewRequestState_as_str ReviewRequestState_from_str) ∧
  (PersistedExact SessionRole SessionRole_display SessionRole_from_str ∧
   PersistedExact OrchestrationTaskKind OrchestrationTaskKind_display OrchestrationTaskKind_from_str ∧
   PersistedExact OrchestrationStatus OrchestrationStatus_display OrchestrationStatus_from_str ∧
   PersistedExact OrchestrationTaskStatus TaskStatus_display TaskStatus_from_str ∧
   PersistedExact IntegrationApproach IntegrationApproach_display IntegrationApproach_from_str ∧
   PersistedExact PermissionMode PermissionMode_label PermissionMode_from_str ∧
   PersistedExact ReasoningLevel ReasoningLevel_as_str ReasoningLevel_from_str ∧
   PersistedExact ResponseStyle ResponseStyle_as_str ResponseStyle_from_str ∧
   PersistedExact SpeedMode SpeedMode_as_str SpeedMode_from_str ∧
   PersistedExact ForgeKind ForgeKind_as_str ForgeKind_from_str ∧
   PersistedExact ReviewRequestState ReviewRequestState_as_str ReviewRequestState_from_str) ∧
  (∀ s st, SessionStatus_from_str s = Ok st →
     s = SessionStatus_display st ∨ s = L"Committing" ∧ st = InProgress).
Proof. split_and!; try apply _. apply SessionStatus_from_str_inv. Qed.

(** *** Scheduling *)

Lemma filter_nil_length {A} (p : A → bool) l :
  (∀ x, x ∈ l → p x = false) → length (List.filter p l) = 0.
Proof.
  induction l as [|x l IH]; simpl; [done|]. intros H. rewrite (H x) by (by left).
  apply IH. intros. apply H. by right.
Qed.

(** the coordinator's fan-out decision never exceeds the parallelism limit
    nor the planned tasks, never leaves a planned task waiting beside a free
    slot, and asks for the roll-up exactly when there are tasks and all are
    settled, in which case nothing is running and nothing is started. *)
Theorem schedule_spec (max_parallelism : nat) (tasks : list (option OrchestrationTaskStatus)) :
  let d := schedule max_parallelism tasks in
  occupied_slots tasks + spawn_count d <= max_parallelism `max` occupied_slots tasks ∧
  spawn_count d <= planned_tasks tasks ∧
  (spawn_count d = planned_tasks tasks ∨ max_parallelism <= occupied_slots tasks + spawn_count d) ∧
  (should_submit d = true ↔
     tasks ≠ [] ∧ ∀ t, t ∈ tasks → ∃ s, t = Some s ∧ is_settled s = true) ∧
  (should_submit d = true → occupied_slots tasks = 0 ∧ spawn_count d = 0).
Proof.
  assert (Hsub : should_submit (schedule max_parallelism tasks) = true ↔
     tasks ≠ [] ∧ ∀ t, t ∈ tasks → ∃ s, t = Some s ∧ is_settled s = true).
  { simpl. rewrite andb_true_iff, negb_true_iff, is_empty_false, forallb_true.
    unfold status_is. split; intros [? H]; (split; [done|]); intros t Ht; specialize (H t Ht).
    - destruct t; [eauto|done].
    - destruct H as (s & -> & ?). done. }
  simpl. split_and!; [lia|lia|lia|exact Hsub|].
  intros Hs. apply Hsub in Hs as [_ Hall].
  assert (occupied_slots tasks = 0 ∧ planned_tasks tasks = 0) as [-> ->]; [|lia].
  split; apply filter_nil_length; intros t Ht; destruct (Hall t Ht) as (s & -> & Hs);
    by destruct s.
Qed.

(** *** The integration gate *)

Fixpoint task_follow (s : OrchestrationTaskStatus) (path : list OrchestrationTaskStatus) : bool :=
  match path with
  | [] => true
  | t :: path' => TaskStatus_can_transition_to s t && task_follow t path'
  end.

(** A path that ends up in [Q] entered it by a step from outside. *)
Lemma task_follow_entry (Q : OrchestrationTaskStatus → bool) s path j t :
  task_follow s path = true → Q s = false → path !! j = Some t → Q t = true →
  ∃ k prev u, k <= j ∧ (s :: path) !! k = Some prev ∧ path !! k = Some u ∧
    Q prev = false ∧ Q u = true ∧ TaskStatus_can_transition_to prev u = true.
Proof.
  revert s j. induction path as [|u path IH]; intros s j Hf Hs Hj Ht; [done|].
  simpl in Hf. apply andb_prop in Hf as [Hsu Hf]. destruct (Q u) eqn:Hu.
  - exists 0, s, u. split_and!; auto with lia.
  - destruct j as [|j]; [simplify_eq/=; congruence|]. simpl in Hj.
    destruct (IH u j Hf Hu Hj Ht) as (k & prev & v & Hk & Hp & Hv & HQ).
    exists (S k), prev, v. split_and!; [lia|done|done|apply HQ..].
Qed.

Definition past_merge (s : OrchestrationTaskStatus) : bool :=
  match s with TaskIntegrated | TaskReviewRequested => true | _ => false end.

Lemma enter_integrated prev u :
  past_merge prev = false → past_merge u = true →
  TaskStatus_can_transition_to prev u = true → prev = TaskMerging.
Proof. by destruct prev, u. Qed.

Definition is_merging (s : OrchestrationTaskStatus) : bool :=
  match s with TaskMerging => true | _ => false end.

Lemma enter_merging prev u :
  is_merging prev = false → is_merging u = true →
  TaskStatus_can_transition_to prev u = true → prev = TaskAwaitingIntegration.
Proof. by destruct prev, u. Qed.

Lemma absorbing_task s t :
  s = TaskIntegrated ∨ s = TaskDetached ∨ s = TaskReported →
  TaskStatus_can_transition_to s t = true → t = s.
Proof. intros [-> |[-> | ->]]; by destruct t. Qed.

(** no task's branch is integrated past its gates: on every sequence of
    valid transitions of a proposed task that reaches integration, the task
    waited for integration approval and then merged before; integrated,
    detached and reported tasks never change again. *)
Theorem integration_gate (path : list OrchestrationTaskStatus) (j : nat) :
  (task_follow TaskProposed path = true → path !! j = Some TaskIntegrated →
   ∃ i k, i < k < j ∧ path !! i = Some TaskAwaitingIntegration ∧ path !! k = Some TaskMerging) ∧
  (∀ s t, s = TaskIntegrated ∨ s = TaskDetached ∨ s = TaskReported →
     TaskStatus_can_transition_to s t = true → t = s).
Proof.
  split; [|apply absorbing_task]. intros Hf Hj.
  destruct (task_follow_entry past_merge TaskProposed path j TaskIntegrated Hf eq_refl Hj eq_refl)
    as (k & prev & u & Hk & Hprev & Hu & HQp & HQu & Hstep).
  apply (enter_integrated prev u HQp HQu) in Hstep as ->.
  destruct k as [|k]; simplify_eq/=.
  destruct (task_follow_entry is_merging TaskProposed path k TaskMerging
              Hf eq_refl Hprev eq_refl) as (i & prev' & u' & Hi & Hp' & Hu' & HQ' & HQu' & Hstep').
  apply (enter_merging prev' u' HQ' HQu') in Hstep' as ->.
  destruct i as [|i]; simplify_eq/=. exists i, k. split_and!; [lia|lia|done|done].
Qed.

(** *** Plan validation *)

Lemma check_areas_Ok key areas :
  check_areas key areas = Ok tt ↔ ∀ a, a ∈ areas → ∃ n, normalized_scope a = Ok n.
Proof.
  induction areas as [|a areas IH]; simpl; [set_solver|].
  destruct (normalized_scope a) eqn:E.
  - rewrite IH. split; [intros H b [->|Hb]%elem_of_cons; eauto|intros H b Hb; apply H; by right].
  - split; [done|]. intros H. destruct (H a) as [n Hn]; [by left|]. congruence.
Qed.

(** A subtask is complete: prompt, title and some criterion are not blank, and
    an implementation task names only repository-relative literal paths. *)
Definition complete_subtask (task : OrchestrationPlanTask) : Prop :=
  trim (task_prompt task) ≠ [] ∧ trim (task_title task) ≠ [] ∧
  (∃ c, c ∈ acceptance_criteria task ∧ trim c ≠ []) ∧
  (task_kind task = Implementation →
   ∀ a, a ∈ touched_areas task → ∃ n, normalized_scope a = Ok n).

Lemma is_blank_false text : is_blank text = false ↔ trim text ≠ [].
Proof. apply is_empty_false. Qed.

Lemma check_subtask_Ok task : check_subtask task = Ok tt ↔ complete_subtask task.
Proof.
  unfold check_subtask, complete_subtask. rewrite <- !is_blank_false.
  assert (Hc : forallb is_blank (acceptance_criteria task) = false ↔
    ∃ c, c ∈ acceptance_criteria task ∧ trim c ≠ []).
  { rewrite <- not_true_iff_false, forallb_true. setoid_rewrite <- is_blank_false. split.
    - intros H. destruct (existsb (λ c, negb (is_blank c)) (acceptance_criteria task)) eqn:E.
      + apply existsb_true in E as (c & ? & ?). exists c. by rewrite <- negb_true_iff.
      + exfalso. apply H. intros c Hin. rewrite existsb_false in E.
        specialize (E c Hin). by apply negb_false_iff in E.
    - intros (c & Hin & Hb) H. rewrite H in Hb; done. }
  rewrite <- Hc.
  destruct (is_blank (task_prompt task)), (is_blank (task_title task)),
    (forallb is_blank (acceptance_criteria task)); simpl; try naive_solver.
  rewrite check_areas_Ok. case_bool_decide; set_solver.
Qed.

Lemma check_subtasks_Ok keys tasks :
  check_subtasks keys tasks = Ok tt ↔
  NoDup (task_key <$> tasks) ∧
  (∀ t, t ∈ tasks → (task_key t ∉ keys) ∧ is_kebab_case_task_key (task_key t) = true ∧
     complete_subtask t).
Proof.
  revert keys. induction tasks as [|t tasks IH]; intros keys; simpl.
  { split; [|done]. intros _. split; [constructor|set_solver]. }
  rewrite NoDup_cons.
  destruct (is_kebab_case_task_key (task_key t)) eqn:Ek; simpl.
  2:{ split; [done|]. intros [_ H]. destruct (H t) as (_ & H' & _); [by left|congruence]. }
  case_bool_decide as Hin.
  { split; [done|]. intros [_ H]. destruct (H t) as (H' & _); [by left|done]. }
  destruct (check_subtask t) as [[]|e] eqn:Ec.
  2:{ split; [done|]. intros [_ H]. destruct (H t) as (_ & _ & H'); [by left|].
      apply check_subtask_Ok in H'. congruence. }
  apply check_subtask_Ok in Ec. rewrite IH. clear IH.
  split; intros [Hnd H].
  - split_and!; [|done|].
    + intros (t' & Ht & Hin')%list_elem_of_fmap. destruct (H t' Hin') as [H' _]. set_solver.
    + intros t' [->|Ht']%elem_of_cons; [done|]. destruct (H t' Ht') as (? & ? & ?). set_solver.
  - destruct Hnd as [Hnt Hnd]. split; [done|]. intros t' Ht'.
    destruct (H t') as (? & ? & ?); [by right|]. split_and!; [|done..].
    intros [Heq|]%elem_of_cons; [|done]. apply Hnt. rewrite <- Heq. by apply list_elem_of_fmap_2.
Qed.

(** a proposed subtask set is accepted exactly when it is a well-formed
    plan: research and implementation are not mixed, a first implementation
    wave has at least two tasks, the task keys are distinct kebab-case names,
    and every task is complete. *)
Theorem validate_subtasks_Ok (tasks : list OrchestrationPlanTask) (is_retry : bool) :
  validate_subtasks tasks is_retry = Ok tt ↔
  ((∀ t, t ∈ tasks → task_kind t = Research) ∨ (∀ t, t ∈ tasks → task_kind t = Implementation)) ∧
  (2 <= length tasks ∨ is_retry = true ∨
     (tasks ≠ [] ∧ ∀ t, t ∈ tasks → task_kind t = Research)) ∧
  NoDup (task_key <$> tasks) ∧
  (∀ t, t ∈ tasks → is_kebab_case_task_key (task_key t) = true ∧ complete_subtask t).
Proof.
  assert (Hall : forallb is_research tasks = true ↔ ∀ t, t ∈ tasks → task_kind t = Research).
  { rewrite forallb_true. unfold is_research. by setoid_rewrite bool_decide_eq_true. }
  assert (Hnone : existsb is_research tasks = false ↔ ∀ t, t ∈ tasks → task_kind t = Implementation).
  { rewrite existsb_false. unfold is_research. setoid_rewrite bool_decide_eq_false.
    split; intros H t Ht; specialize (H t Ht); by destruct (task_kind t). }
  unfold validate_subtasks. rewrite <- Hall, <- Hnone, <- is_empty_false.
  assert (Hlen : bool_decide (length tasks < 2) = false ↔ 2 <= length tasks).
  { rewrite bool_decide_eq_false. lia. }
  rewrite <- Hlen.
  assert (Hcs : check_subtasks [] tasks = Ok tt ↔ NoDup (task_key <$> tasks) ∧
    (∀ t, t ∈ tasks → is_kebab_case_task_key (task_key t) = true ∧ complete_subtask t)).
  { rewrite check_subtasks_Ok. set_solver. }
  rewrite <- Hcs. clear.
  destruct (existsb is_research tasks) eqn:E1, (forallb is_research tasks) eqn:E2, (is_empty tasks) eqn:E3;
    destruct (bool_decide (length tasks < 2)), is_retry; simpl; try (intuition congruence).
  all: apply is_empty_true in E3; subst; done.
Qed.

(** An accepted touched area is a non-empty relative path that stays inside the
    repository and has no wildcard and no trailing separator. *)
Lemma normalized_scope_Ok area n :
  normalized_scope area = Ok n →
  n ≠ [] ∧ starts_with n [slash] = false ∧ (L".." ∉ split_char slash n) ∧
  (∀ c, c ∈ L"*?[]{}" → c ∉ n) ∧ trim_end_matches (N.eqb slash) n = n.
Proof.
  unfold normalized_scope. set (m := trim_end_matches _ _). intros H.
  destruct (is_empty m || _ || _) eqn:E1; [done|].
  destruct (existsb (λ c, bool_decide (c ∈ _)) m) eqn:E2; [done|]. injection H as <-.
  apply orb_false_elim in E1 as [[E1 E3]%orb_false_elim E4].
  rewrite existsb_false in E2. rewrite existsb_false in E4. apply is_empty_false in E1. split_and!; try done.
  - intros Hin. specialize (E4 _ Hin). by rewrite str_eqb_refl in E4.
  - intros c Hc Hin. specialize (E2 c Hin). by apply bool_decide_eq_false in E2.
  - apply trim_end_matches_idem.
Qed.
