(* ===== verification/Input.v ===== *)
(** * Text input with bounded undo history (crates/agentty/src/domain/input.rs)

    [InputState]: the text, a cursor counted in characters, and the undo and
    redo stacks of snapshots.  Operations that index characters or byte offsets
    return [None] where the Rust code would panic.  The second half relates the
    history to an abstract timeline, and proves that no command panics on a
    well-formed input. *)
From S2P Require Import Prelude.

Definition INPUT_HISTORY_LIMIT : nat := 100.

Inductive InputCommand :=
| DeleteBackward | DeleteCurrentLine | DeleteForward | DeleteToLineEnd | DeleteWordBackward
| Insert (character : char)
| InsertNewline
| InsertText (text : str)
| MoveDown | MoveEnd | MoveHome | MoveLeft | MoveLineEnd | MoveLineStart | MoveRight | MoveUp
| MoveWordLeft | MoveWordRight
| Redo
| ReplaceRange (start stop : nat) (text : str)
| Undo.

Inductive InputEffect := CursorMoved | TextChanged | Unchanged.

#[global] Instance InputEffect_eq_dec : EqDecision InputEffect.
Proof. solve_decision. Defined.

Record InputSnapshot := mkSnapshot { snap_cursor : nat; snap_revision : Z; snap_text : str }.

#[global] Instance InputSnapshot_eq_dec : EqDecision InputSnapshot.
Proof. solve_decision. Defined.

Record InputHistory := mkHistory {
  next_revision : Z;
  redo_stack : list InputSnapshot;
  hist_revision : Z;
  undo_stack : list InputSnapshot
}.

Record InputState := mkInput { cursor : nat; history : InputHistory; text : str }.

Definition InputHistory_default : InputHistory :=
  {| next_revision := 0; redo_stack := []; hist_revision := 0; undo_stack := [] |}.

Definition InputState_default : InputState :=
  {| cursor := 0; history := InputHistory_default; text := [] |}.

(** ** Construction and access *)

Definition with_text (t : str) : InputState :=
  {| cursor := length t; history := InputHistory_default; text := t |}.

Definition revision (self : InputState) : Z := hist_revision (history self).

Definition retains_revision (self : InputState) (r : Z) : bool :=
  (hist_revision (history self) =? r)%Z
  || existsb (λ s, (snap_revision s =? r)%Z)
       (undo_stack (history self) ++ redo_stack (history self)).

(** The history of [reset_text] and [take_text]: emptied, with a new revision. *)
Definition fresh_history (h : InputHistory) : InputHistory :=
  let next := u64_saturating_add (next_revision h) 1 in
  {| next_revision := next; redo_stack := []; hist_revision := next; undo_stack := [] |}.

Definition reset_text (self : InputState) (t : str) : InputState :=
  {| cursor := length t; history := fresh_history (history self); text := t |}.

Definition take_text (self : InputState) : str * InputState :=
  (text self, {| cursor := 0; history := fresh_history (history self); text := [] |}).

Definition input_is_empty (self : InputState) : bool := is_empty (text self).

(** ** Snapshots *)

Definition snapshot (self : InputState) : InputSnapshot :=
  {| snap_cursor := cursor self; snap_revision := revision self; snap_text := text self |}.

Definition push_bounded (stack : list InputSnapshot) (s : InputSnapshot) : list InputSnapshot :=
  (if decide (length stack = INPUT_HISTORY_LIMIT) then tail stack else stack) ++ [s].

Definition restore (self : InputState) (s : InputSnapshot) : InputState :=
  {| cursor := snap_cursor s;
     history := {| next_revision := next_revision (history self);
                   redo_stack := redo_stack (history self);
                   hist_revision := snap_revision s;
                   undo_stack := undo_stack (history self) |};
     text := snap_text s |}.

Definition record_text_change (self : InputState) (s : InputSnapshot) : InputState :=
  if decide (text self = snap_text s) then self
  else
    let next := u64_saturating_add (next_revision (history self)) 1 in
    {| cursor := cursor self;
       history := {| next_revision := next;
                     redo_stack := [];
                     hist_revision := next;
                     undo_stack := push_bounded (undo_stack (history self)) s |};
       text := text self |}.

(** Writes the text and the cursor, leaving the history. *)
Definition set_text_cursor (self : InputState) (t : str) (c : nat) : InputState :=
  {| cursor := c; history := history self; text := t |}.

Definition set_cursor (self : InputState) (c : nat) : InputState :=
  {| cursor := c; history := history self; text := text self |}.

(** ** Byte offsets *)

Definition byte_offset_at (self : InputState) (char_index : nat) : nat :=
  match char_indices (text self) !! char_index with
  | Some (index, _) => index
  | None => byte_len (text self)
  end.

Definition byte_offset (self : InputState) : nat := byte_offset_at self (cursor self).

(** ** Line and word characters *)

Definition not_newline (c : char) : bool := negb (c =? newline)%N.
Definition not_whitespace (c : char) : bool := negb (is_whitespace c).

(** ** Editing *)

Definition insert_char (self : InputState) (ch : char) : option InputState :=
  let s := snapshot self in
  t ← insert_str_at (text self) (byte_offset self) [ch];
  Some (record_text_change (set_text_cursor self t (cursor self + 1)) s).

Definition insert_text (self : InputState) (added : str) : option InputState :=
  if is_empty added then Some self
  else
    let s := snapshot self in
    t ← insert_str_at (text self) (byte_offset self) added;
    Some (record_text_change (set_text_cursor self t (cursor self + length added)) s).

Definition insert_newline (self : InputState) : option InputState := insert_char self newline.

Definition delete_backward (self : InputState) : option InputState :=
  if decide (cursor self = 0) then Some self
  else
    let s := snapshot self in
    let start := byte_offset_at self (cursor self - 1) in
    let stop := byte_offset self in
    t ← replace_byte_range (text self) start stop [];
    Some (record_text_change (set_text_cursor self t (cursor self - 1)) s).

Definition replace_range (self : InputState) (start_char end_char : nat) (replacement : str)
  : option InputState :=
  let s := snapshot self in
  let start_byte := byte_offset_at self start_char in
  let end_byte := byte_offset_at self end_char in
  t ← replace_byte_range (text self) start_byte end_byte replacement;
  Some (record_text_change (set_text_cursor self t (start_char + length replacement)) s).

(** The bounds of the line to delete, with one adjacent newline. *)
Definition line_delete_range (characters : str) (cursor_pos : nat) : option (nat * nat) :=
  line_start ← scan_back not_newline characters cursor_pos;
  let line_end := scan_forward not_newline characters cursor_pos in
  Some (if decide (0 < line_start) then (line_start - 1, line_end)
        else if decide (line_end < length characters) then (line_start, line_end + 1)
        else (line_start, line_end)).

Definition delete_current_line (self : InputState) : option InputState :=
  let characters := text self in
  let cursor_pos := cursor self `min` length characters in
  '(delete_start, delete_end) ← line_delete_range characters cursor_pos;
  replace_range self delete_start delete_end [].

Definition delete_forward (self : InputState) : option InputState :=
  if decide (length (text self) <= cursor self) then Some self
  else
    let s := snapshot self in
    let start := byte_offset self in
    let stop := byte_offset_at self (cursor self + 1) in
    t ← replace_byte_range (text self) start stop [];
    Some (record_text_change (set_text_cursor self t (cursor self)) s).

(** [Ok(None)]-like: the outer [option] is the panic, the inner the result. *)
Definition word_delete_range (self : InputState) : option (option (nat * nat)) :=
  if decide (cursor self = 0) then Some None
  else
    start1 ← scan_back is_whitespace (text self) (cursor self);
    start2 ← scan_back not_whitespace (text self) start1;
    start3 ← scan_back is_whitespace (text self) start2;
    Some (Some (start3, cursor self)).

Definition delete_word_backward (self : InputState) : option InputState :=
  range ← word_delete_range self;
  match range with
  | None => Some self
  | Some (start, stop) => replace_range self start stop []
  end.

Definition line_end_delete_range (self : InputState) : option (nat * nat) :=
  let line_end := scan_forward not_newline (text self) (cursor self) in
  if decide (cursor self < line_end) then Some (cursor self, line_end) else None.

Definition delete_to_line_end (self : InputState) : option InputState :=
  let line_end := scan_forward not_newline (text self) (cursor self) in
  if decide (cursor self < line_end) then
    let s := snapshot self in
    let start_byte := byte_offset self in
    let end_byte := byte_offset_at self line_end in
    t ← replace_byte_range (text self) start_byte end_byte [];
    Some (record_text_change (set_text_cursor self t (cursor self)) s)
  else Some self.

(** ** Cursor movement *)

Definition move_left (self : InputState) : InputState := set_cursor self (cursor self - 1).

Definition move_right (self : InputState) : InputState :=
  if decide (cursor self < length (text self)) then set_cursor self (cursor self + 1) else self.

(** The loop of [line_column]: [break] when the index reaches the cursor. *)
Fixpoint line_column_loop (s : str) (index stop line column : nat) : nat * nat :=
  match s with
  | [] => (line, column)
  | ch :: s' =>
      if decide (index = stop) then (line, column)
      else if (ch =? newline)%N then line_column_loop s' (S index) stop (S line) 0
      else line_column_loop s' (S index) stop line (S column)
  end.

Definition line_column (self : InputState) : nat * nat :=
  line_column_loop (text self) 0 (cursor self) 0 0.

(** The loop of [move_up]: the start of line [target]. *)
Fixpoint line_start_loop (s : str) (char_index current_line line_start target : nat) : nat :=
  match s with
  | [] => line_start
  | ch :: s' =>
      if decide (current_line = target) then line_start
      else if (ch =? newline)%N
      then line_start_loop s' (S char_index) (S current_line) (S char_index) target
      else line_start_loop s' (S char_index) current_line line_start target
  end.

Definition move_up (self : InputState) : InputState :=
  let '(line, column) := line_column self in
  if decide (line = 0) then set_cursor self 0
  else
    let prev_line_start := line_start_loop (text self) 0 0 0 (line - 1) in
    let prev_line_len := count_while not_newline (drop prev_line_start (text self)) in
    set_cursor self (prev_line_start + column `min` prev_line_len).

(** The loop of [move_down]: the index after the newline that starts line [target]. *)
Fixpoint next_line_loop (s : str) (char_index current_line target : nat) : nat :=
  match s with
  | [] => char_index
  | ch :: s' =>
      if (ch =? newline)%N then
        if decide (S current_line = target) then S char_index
        else next_line_loop s' (S char_index) (S current_line) target
      else next_line_loop s' (S char_index) current_line target
  end.

Definition move_down (self : InputState) : InputState :=
  let '(line, column) := line_column self in
  let line_count := length (List.filter (N.eqb newline) (text self)) + 1 in
  if decide (line_count - 1 <= line) then set_cursor self (length (text self))
  else
    let next_line_start := next_line_loop (text self) 0 0 (line + 1) in
    let next_line_len := count_while not_newline (drop next_line_start (text self)) in
    set_cursor self (next_line_start + column `min` next_line_len).

Definition move_home (self : InputState) : InputState := set_cursor self 0.
Definition move_end (self : InputState) : InputState := set_cursor self (length (text self)).

Definition move_word_left (self : InputState) : option InputState :=
  if decide (cursor self = 0) then Some self
  else
    c1 ← scan_back is_whitespace (text self) (cursor self);
    c2 ← scan_back not_whitespace (text self) c1;
    Some (set_cursor self c2).

Definition move_word_right (self : InputState) : InputState :=
  let c1 := scan_forward not_whitespace (text self) (cursor self) in
  set_cursor self (scan_forward is_whitespace (text self) c1).

Definition move_line_start (self : InputState) : option InputState :=
  c ← scan_back not_newline (text self) (cursor self); Some (set_cursor self c).

Definition move_line_end (self : InputState) : InputState :=
  set_cursor self (scan_forward not_newline (text self) (cursor self)).

(** ** Undo and redo *)

Definition set_stacks (self : InputState) (undo redo : list InputSnapshot) : InputState :=
  {| cursor := cursor self;
     history := {| next_revision := next_revision (history self); redo_stack := redo;
                   hist_revision := hist_revision (history self); undo_stack := undo |};
     text := text self |}.

Definition undo (self : InputState) : InputState :=
  match pop_back (undo_stack (history self)) with
  | None => self
  | Some (s, rest) =>
      restore (set_stacks self rest (push_bounded (redo_stack (history self)) (snapshot self))) s
  end.

Definition redo (self : InputState) : InputState :=
  match pop_back (redo_stack (history self)) with
  | None => self
  | Some (s, rest) =>
      restore (set_stacks self (push_bounded (undo_stack (history self)) (snapshot self)) rest) s
  end.

(** ** [apply] *)

Definition run_command (self : InputState) (command : InputCommand) : option InputState :=
  match command with
  | DeleteBackward => delete_backward self
  | DeleteCurrentLine => delete_current_line self
  | DeleteForward => delete_forward self
  | DeleteToLineEnd => delete_to_line_end self
  | DeleteWordBackward => delete_word_backward self
  | Insert character => insert_char self character
  | InsertNewline => insert_newline self
  | InsertText t => insert_text self t
  | MoveDown => Some (move_down self)
  | MoveEnd => Some (move_end self)
  | MoveHome => Some (move_home self)
  | MoveLeft => Some (move_left self)
  | MoveLineEnd => Some (move_line_end self)
  | MoveLineStart => move_line_start self
  | MoveRight => Some (move_right self)
  | MoveUp => Some (move_up self)
  | MoveWordLeft => move_word_left self
  | MoveWordRight => Some (move_word_right self)
  | Redo => Some (redo self)
  | ReplaceRange start stop t => replace_range self start stop t
  | Undo => Some (undo self)
  end.

Definition apply_command (self : InputState) (command : InputCommand)
  : option (InputState * InputEffect) :=
  self' ← run_command self command;
  Some (self',
    if negb (revision self' =? revision self)%Z then TextChanged
    else if decide (cursor self' = cursor self) then Unchanged else CursorMoved).

(** ** [@]-mentions *)

Definition is_at_mention_opening_delimiter (ch : char) : bool := bool_decide (ch ∈ L"([{").

Definition is_at_mention_query_character `{UnicodeAlnum} (ch : char) : bool :=
  is_alphanumeric ch || bool_decide (ch ∈ L"/._-").

Definition is_at_mention_boundary (previous_character : option char) : bool :=
  match previous_character with
  | None => true
  | Some ch => is_whitespace ch || is_at_mention_opening_delimiter ch
  end.

(** The scan from the cursor to the left; [scan.wrapping_sub(1)] at position 0
    is out of range, so the previous character is [None] there.  A cursor past
    the end makes [chars.get(scan)] fail, which returns [None]. *)
Fixpoint at_mention_scan (chars : str) (stop scan : nat) : option (nat * str) :=
  match scan with
  | 0 => None
  | S scan' =>
      match chars !! scan' with
      | None => None
      | Some ch =>
          if (ch =? 64)%N then
            if is_at_mention_boundary (match scan' with 0 => None | S j => chars !! j end)
            then Some (scan', take (stop - S scan') (drop (S scan') chars))
            else None
          else if is_whitespace ch then None
          else at_mention_scan chars stop scan'
      end
  end.

Definition extract_at_mention_query (t : str) (cursor_index : nat) : option (nat * str) :=
  if decide (cursor_index = 0) then None else at_mention_scan t cursor_index cursor_index.

Definition at_mention_query (self : InputState) : option (nat * str) :=
  extract_at_mention_query (text self) (cursor self).

(** ** Well-formed inputs *)

Definition snapshot_ok (s : InputSnapshot) : Prop := snap_cursor s <= length (snap_text s).

(** The cursor and every retained snapshot lie inside their text, and undo and
    redo together stay within the history limit. *)
Record wf_input (self : InputState) : Prop := {
  wf_cursor : cursor self <= length (text self);
  wf_undo : Forall snapshot_ok (undo_stack (history self));
  wf_redo : Forall snapshot_ok (redo_stack (history self));
  wf_limit : length (undo_stack (history self)) + length (redo_stack (history self))
             <= INPUT_HISTORY_LIMIT
}.

(** The arguments [ReplaceRange] may be given. *)
Definition command_ok (self : InputState) (command : InputCommand) : Prop :=
  match command with
  | ReplaceRange start stop _ => start <= stop ∧ start <= length (text self)
  | _ => True
  end.

(** The history read as one timeline of snapshots, oldest first. *)
Definition timeline (self : InputState) : list InputSnapshot :=
  undo_stack (history self) ++ [snapshot self] ++ rev (redo_stack (history self)).

Fixpoint linked {A} (R : A → A → Prop) (l : list A) : Prop :=
  match l with
  | a :: ((b :: _) as l') => R a b ∧ linked R l'
  | _ => True
  end.

(** A step of the timeline: a later revision with another text. *)
Definition edit_link (a b : InputSnapshot) : Prop :=
  (snap_revision a < snap_revision b)%Z ∧ snap_text a ≠ snap_text b.

(** Revisions grow along the timeline and stay within the last one given. *)
Definition revisions_ok (self : InputState) : Prop :=
  linked edit_link (timeline self)
  ∧ Forall (λ s, (0 <= snap_revision s <= next_revision (history self))%Z) (timeline self).

(** ** Character-level behaviour of the byte-level edits *)

Lemma byte_offset_at_take self i : byte_offset_at self i = byte_len (take i (text self)).
Proof.
  unfold byte_offset_at, char_indices. rewrite char_indices_from_lookup.
  destruct (text self !! i) as [c|] eqn:E; simpl; [done|].
  apply lookup_ge_None in E. by rewrite take_ge.
Qed.

(** The state after an edit that replaces characters [i..j] by [t]. *)
Definition spliced (self : InputState) (i j : nat) (t : str) (c : nat) : InputState :=
  record_text_change (set_text_cursor self (take i (text self) ++ t ++ drop j (text self)) c)
    (snapshot self).

Lemma replace_range_spliced self i j t :
  i <= j → replace_range self i j t = Some (spliced self i j t (i + length t)).
Proof.
  intros. unfold replace_range. rewrite !byte_offset_at_take, replace_byte_range_take by done. done.
Qed.

Lemma insert_char_spliced self ch :
  insert_char self ch = Some (spliced self (cursor self) (cursor self) [ch] (cursor self + 1)).
Proof.
  unfold insert_char, byte_offset. by rewrite byte_offset_at_take, insert_str_at_take.
Qed.

Lemma insert_text_spliced self t :
  insert_text self t
  = Some (if is_empty t then self
          else spliced self (cursor self) (cursor self) t (cursor self + length t)).
Proof.
  unfold insert_text, byte_offset. destruct (is_empty t); [done|].
  by rewrite byte_offset_at_take, insert_str_at_take.
Qed.

Lemma delete_backward_spliced self :
  delete_backward self
  = Some (if decide (cursor self = 0) then self
          else spliced self (cursor self - 1) (cursor self) [] (cursor self - 1)).
Proof.
  unfold delete_backward, byte_offset. case_decide; [done|].
  rewrite !byte_offset_at_take, replace_byte_range_take by lia. done.
Qed.

Lemma delete_forward_spliced self :
  delete_forward self
  = Some (if decide (length (text self) <= cursor self) then self
          else spliced self (cursor self) (cursor self + 1) [] (cursor self)).
Proof.
  unfold delete_forward, byte_offset. case_decide; [done|].
  rewrite !byte_offset_at_take, replace_byte_range_take by lia. done.
Qed.

Lemma delete_to_line_end_spliced self :
  delete_to_line_end self
  = Some (match line_end_delete_range self with
          | Some (i, j) => spliced self i j [] i
          | None => self
          end).
Proof.
  unfold delete_to_line_end, line_end_delete_range, byte_offset. case_decide; [|done].
  rewrite !byte_offset_at_take, replace_byte_range_take by lia. done.
Qed.

(** ** Lines

    [split_char newline] is the sequence of lines; [line_offset] is the index
    of the first character of a line. *)

Definition lines_view (s : str) : list str := split_char newline s.

Fixpoint line_offset (ls : list str) (line : nat) {struct line} : nat :=
  match line, ls with
  | S line', l :: ls' => S (length l) + line_offset ls' line'
  | _, _ => 0
  end.

(** A position as a line, its text and a column inside it. *)
Definition at_position (s : str) (line : nat) (l : str) (column : nat) : Prop :=
  lines_view s !! line = Some l ∧ column <= length l.

Lemma lines_view_newline s : lines_view (newline :: s) = [] :: lines_view s.
Proof.
  unfold lines_view. simpl. pose proof (split_char_not_nil newline s).
  by destruct (split_char newline s).
Qed.

Lemma lines_view_other c s :
  c ≠ newline → ∃ l ls, lines_view s = l :: ls ∧ lines_view (c :: s) = (c :: l) :: ls.
Proof.
  intros Hc. unfold lines_view. simpl. pose proof (split_char_not_nil newline s).
  destruct (split_char newline s) as [|l ls]; [done|]. exists l, ls. split; [done|].
  apply N.eqb_neq in Hc. by rewrite Hc.
Qed.

(** Case analysis on the first character: a newline or a character of the line. *)
Ltac line_cases c s :=
  destruct (decide (c = newline)) as [->|?Hc];
  [ rewrite lines_view_newline in *
  | let l := fresh "l0" in let ls := fresh "ls" in let E := fresh "Els" in let E' := fresh "Els'" in
    destruct (lines_view_other c s Hc) as (l & ls & E & E'); rewrite E' in *; rewrite E in * ].

Lemma at_position_exists s i :
  i <= length s →
  ∃ line l column, at_position s line l column ∧ i = line_offset (lines_view s) line + column.
Proof.
  unfold at_position. revert i. induction s as [|c s IH]; intros i Hi; simpl in Hi.
  - exists 0, [], 0. simpl. split; [done|lia].
  - destruct i as [|i].
    { line_cases c s; [exists 0, [], 0 | exists 0, (c :: l0), 0]; simpl; (split; [split; [done|lia]|lia]). }
    destruct (IH i) as (line & l & column & [Hl Hcol] & ->); [lia|].
    line_cases c s.
    + exists (S line), l, column. simpl. split; [done|lia].
    + destruct line as [|line]; simplify_eq/=.
      * exists 0, (c :: l), (S column). simpl. split; [split; [done|lia]|lia].
      * exists (S line), l, column. simpl. split; [done|lia].
Qed.

Lemma line_column_loop_at s line l column index k j :
  at_position s line l column →
  line_column_loop s index (index + (line_offset (lines_view s) line + column)) k j
  = (if decide (line = 0) then (k, j + column) else (k + line, column)).
Proof.
  unfold at_position. revert line l column index k j.
  induction s as [|c s IH]; intros line l column index k j [Hl Hcol].
  - destruct line; simplify_eq/=. assert (column = 0) as -> by (simpl in Hcol; lia).
    by rewrite Nat.add_0_r.
  - cbn [line_column_loop]. line_cases c s.
    + destruct line as [|line]; simplify_eq/=.
      { rewrite decide_True by lia. f_equal; lia. }
      rewrite decide_False by lia.
      replace (index + S (line_offset (lines_view s) line + column))
        with (S index + (line_offset (lines_view s) line + column)) by lia.
      rewrite (IH line l column) by done. case_decide; subst; f_equal; lia.
    + rewrite (proj2 (N.eqb_neq _ _) Hc). destruct line as [|line]; simplify_eq/=.
      * destruct column as [|column]; [rewrite decide_True by lia; f_equal; lia|].
        rewrite decide_False by lia.
        replace (index + S column) with (S index + (line_offset (l0 :: ls) 0 + column)) by (simpl; lia).
        rewrite (IH 0 l0 column); [|split; [done|lia]]. rewrite decide_True by done. f_equal; lia.
      * rewrite decide_False by lia.
        replace (index + S (S (length l0 + line_offset ls line + column)))
          with (S index + (S (length l0 + line_offset ls line) + column)) by lia.
        rewrite (IH (S line) l column) by done. by rewrite !decide_False by lia.
Qed.

Lemma line_column_at self line l column :
  at_position (text self) line l column →
  cursor self = line_offset (lines_view (text self)) line + column →
  line_column self = (line, column).
Proof.
  intros H Hc. unfold line_column. rewrite Hc.
  rewrite <- (Nat.add_0_l (_ + column)), (line_column_loop_at _ _ l) by done.
  case_decide; subst; f_equal; lia.
Qed.

Lemma line_start_loop_at s line i k ls0 :
  line < length (lines_view s) →
  line_start_loop s i k ls0 (k + line)
  = (if decide (line = 0) then ls0 else i + line_offset (lines_view s) line).
Proof.
  revert line i k ls0. induction s as [|c s IH]; intros line i k ls0 Hl.
  - simpl in *. by rewrite decide_True by lia.
  - cbn [line_start_loop]. destruct (decide (line = 0)) as [->|Hn].
    { by rewrite decide_True by lia. }
    rewrite decide_False by lia. destruct line as [|line]; [done|]. line_cases c s; simpl in Hl.
    + rewrite N.eqb_refl. replace (k + S line) with (S k + line) by lia. rewrite IH by lia.
      simpl. case_decide; subst; simpl; lia.
    + rewrite (proj2 (N.eqb_neq _ _) Hc). rewrite IH by (simpl; lia). rewrite decide_False by done. simpl. lia.
Qed.

Lemma next_line_loop_at s line i k :
  S line < length (lines_view s) →
  next_line_loop s i k (k + S line) = i + line_offset (lines_view s) (S line).
Proof.
  revert line i k. induction s as [|c s IH]; intros line i k Hl; [simpl in *; lia|].
  cbn [next_line_loop]. line_cases c s; simpl in Hl.
  - rewrite N.eqb_refl. case_decide as Hk.
    + assert (line = 0) as -> by lia. simpl. destruct (lines_view s); simpl; lia.
    + destruct line as [|line]; [lia|]. replace (k + S (S line)) with (S k + S line) by lia.
      rewrite IH by lia. simpl. lia.
  - rewrite (proj2 (N.eqb_neq _ _) Hc), IH by (simpl; lia). simpl. lia.
Qed.

Lemma count_while_line s line l :
  lines_view s !! line = Some l →
  count_while not_newline (drop (line_offset (lines_view s) line) s) = length l.
Proof.
  revert line l. induction s as [|c s IH]; intros line l Hl.
  - destruct line; simplify_eq/=. done.
  - line_cases c s.
    + destruct line as [|line]; simplify_eq/=; [done|]. by apply IH.
    + assert (Hn : not_newline c = true).
      { unfold not_newline. by rewrite (proj2 (N.eqb_neq _ _) Hc). }
      destruct line as [|line]; simplify_eq/=.
      * rewrite Hn. f_equal. apply (IH 0 l0 eq_refl).
      * apply (IH (S line) l Hl).
Qed.

Lemma newline_count s : length (List.filter (N.eqb newline) s) + 1 = length (lines_view s).
Proof.
  induction s as [|c s IH]; [done|]. cbn [List.filter]. line_cases c s.
  - rewrite N.eqb_refl. simpl. lia.
  - rewrite (N.eqb_sym newline c), (proj2 (N.eqb_neq _ _) Hc). simpl in *. lia.
Qed.

Lemma lines_view_length s : line_offset (lines_view s) (length (lines_view s)) = S (length s).
Proof.
  induction s as [|c s IH]; [done|]. line_cases c s; simpl in *; lia.
Qed.

Lemma lines_view_no_newline s : Forall (λ l, forallb not_newline l = true) (lines_view s).
Proof.
  induction s as [|c s IH]; [by repeat constructor|]. line_cases c s; [by constructor|].
  apply Forall_cons in IH as [Hl Hls]. constructor; [|done]. simpl. rewrite Hl.
  unfold not_newline. by rewrite (proj2 (N.eqb_neq _ _) Hc).
Qed.

Lemma lines_view_line l : forallb not_newline l = true → lines_view l = [l].
Proof.
  induction l as [|c l IH]; simpl; [done|]. intros [Hc Hl]%andb_prop.
  unfold not_newline in Hc. bool_split. destruct (lines_view_other c l Hc) as (l0 & ls & E & ->).
  rewrite (IH Hl) in E. by simplify_eq.
Qed.

Lemma lines_view_snoc_line l s :
  forallb not_newline l = true → lines_view (l ++ newline :: s) = l :: lines_view s.
Proof.
  induction l as [|c l IH]; simpl; [intros _; apply lines_view_newline|]. intros [Hc Hl]%andb_prop.
  unfold not_newline in Hc. bool_split.
  destruct (lines_view_other c (l ++ newline :: s) Hc) as (l0 & ls & E & ->).
  rewrite (IH Hl) in E. by simplify_eq.
Qed.

(** Joining lines and reading them back. *)
Lemma lines_view_join ls :
  ls ≠ [] → Forall (λ l, forallb not_newline l = true) ls → lines_view (join [newline] ls) = ls.
Proof.
  induction ls as [|l ls IH]; [done|]. intros _ [Hl Hls]%Forall_cons.
  destruct ls as [|l' ls]; [by apply lines_view_line|].
  change (join _ _) with (l ++ newline :: join [newline] (l' :: ls)).
  by rewrite lines_view_snoc_line, IH.
Qed.

Lemma line_offset_join ls line :
  0 < line <= length ls → line_offset ls line = S (length (join [newline] (take line ls))).
Proof.
  revert line. induction ls as [|l ls IH]; intros [|line] Hl; simpl in *; try lia.
  destruct line as [|line]; [simpl; lia|].
  rewrite IH by lia. destruct ls as [|l' ls]; [simpl in *; lia|].
  cbn [take join]. rewrite !length_app. simpl. lia.
Qed.

(** The text around one of its lines. *)
Lemma line_decompose s line l :
  lines_view s !! line = Some l →
  ∃ pre post, s = pre ++ l ++ post ∧ length pre = line_offset (lines_view s) line
    ∧ forallb not_newline l = true
    ∧ (line = 0 ∧ pre = []
       ∨ line ≠ 0 ∧ pre = join [newline] (take line (lines_view s)) ++ [newline])
    ∧ (length (lines_view s) = S line ∧ post = []
       ∨ S line < length (lines_view s)
         ∧ post = newline :: join [newline] (drop (S line) (lines_view s))).
Proof.
  intros Hl. pose proof (lookup_lt_Some _ _ _ Hl) as Hlt.
  pose proof (take_drop_middle _ _ _ Hl) as Hmid.
  exists (if decide (line = 0) then [] else join [newline] (take line (lines_view s)) ++ [newline]),
    (if decide (length (lines_view s) = S line) then []
     else newline :: join [newline] (drop (S line) (lines_view s))).
  assert (Hno : forallb not_newline l = true).
  { pose proof (lines_view_no_newline s) as Hall. by apply (Forall_lookup_1 _ _ _ _ Hall Hl). }
  split_and!; [| |done|case_decide; auto|case_decide; [left; done|right; split; [lia|done]]].
  - rewrite <- (join_split_char newline s) at 1. fold (lines_view s). rewrite <- Hmid at 1.
    assert (Hrest : join [newline] (l :: drop (S line) (lines_view s))
      = l ++ (if decide (length (lines_view s) = S line) then []
              else newline :: join [newline] (drop (S line) (lines_view s)))).
    { case_decide; [rewrite drop_ge by lia; by rewrite app_nil_r|].
      destruct (drop (S line) (lines_view s)) eqn:E; [|done].
      apply (f_equal length) in E. rewrite length_drop in E. simpl in E. lia. }
    destruct (decide (line = 0)) as [->|Hne]; [by rewrite <- Hrest|].
    rewrite join_app, Hrest, <- app_assoc; [done| |done].
    intros E. apply (f_equal length) in E. rewrite length_take in E. simpl in E. lia.
  - case_decide; subst; [done|]. rewrite line_offset_join, length_app by lia. simpl. lia.
Qed.

(** The two scans from a position inside a line reach the line's ends. *)
Lemma line_scans s line l column :
  at_position s line l column →
  scan_back not_newline s (line_offset (lines_view s) line + column)
    = Some (line_offset (lines_view s) line)
  ∧ scan_forward not_newline s (line_offset (lines_view s) line + column)
    = line_offset (lines_view s) line + length l.
Proof.
  intros [Hl Hcol]. destruct (line_decompose s line l Hl) as (pre & post & Hs & Hpre & Hno & Hbefore & Hafter).
  rewrite <- Hpre. clear Hl. split.
  - apply scan_back_unique; [subst s; rewrite !length_app; lia|lia| |].
    + intros k c Hk Hc. rewrite Hs, lookup_app_r, lookup_app_l in Hc by lia.
      rewrite forallb_true in Hno. apply Hno. by eapply list_elem_of_lookup_2.
    + intros Hne. exists newline. split; [|done]. rewrite Hs.
      destruct Hbefore as [[_ ->]|[_ ->]]; [done|]. rewrite length_app. simpl.
      rewrite lookup_app_l, lookup_app_r by (rewrite ?length_app; simpl; lia).
      by replace (_ - _) with 0 by lia.
  - unfold scan_forward. rewrite Hs, drop_app_add, drop_app_le by done.
    rewrite count_while_app, length_drop.
    + destruct Hafter as [[_ ->]|[_ ->]]; simpl; lia.
    + apply forallb_true. intros c Hc. rewrite forallb_true in Hno. apply Hno.
      rewrite <- (take_drop column l). set_solver.
Qed.

(** ** Bounded history *)

Lemma push_bounded_room stack s :
  length stack < INPUT_HISTORY_LIMIT → push_bounded stack s = stack ++ [s].
Proof. intros. unfold push_bounded. by rewrite decide_False by lia. Qed.

Lemma push_bounded_ok stack s :
  length stack <= INPUT_HISTORY_LIMIT → Forall snapshot_ok stack → snapshot_ok s →
  length (push_bounded stack s) <= INPUT_HISTORY_LIMIT ∧ Forall snapshot_ok (push_bounded stack s).
Proof.
  intros Hlen Hall Hs. unfold push_bounded. rewrite length_app, Forall_app, Forall_singleton.
  case_decide as E; [|repeat split; [simpl; lia|done..]].
  destruct stack as [|x stack]; [done|]. apply Forall_cons in Hall as [? ?]. simpl in *.
  repeat split; [lia|done..].
Qed.

Lemma undo_eq self s rest :
  wf_input self → undo_stack (history self) = rest ++ [s] →
  undo self = restore (set_stacks self rest (redo_stack (history self) ++ [snapshot self])) s.
Proof.
  intros [_ _ _ Hlim] Hu. unfold undo. rewrite (proj2 (pop_back_Some _ _ _) Hu).
  rewrite push_bounded_room; [done|]. rewrite Hu, length_app in Hlim. simpl in Hlim. lia.
Qed.

Lemma redo_eq self s rest :
  wf_input self → redo_stack (history self) = rest ++ [s] →
  redo self = restore (set_stacks self (undo_stack (history self) ++ [snapshot self]) rest) s.
Proof.
  intros [_ _ _ Hlim] Hr. unfold redo. rewrite (proj2 (pop_back_Some _ _ _) Hr).
  rewrite push_bounded_room; [done|]. rewrite Hr, length_app in Hlim. simpl in Hlim. lia.
Qed.

Lemma snoc_cases {A} (l : list A) : l = [] ∨ ∃ r x, l = r ++ [x].
Proof. destruct l as [|x r _] using rev_ind; eauto. Qed.

Lemma wf_set_cursor self c : wf_input self → c <= length (text self) → wf_input (set_cursor self c).
Proof. intros [] ?. by split. Qed.

Lemma wf_spliced self i j t c :
  wf_input self → c <= length (take i (text self) ++ t ++ drop j (text self)) →
  wf_input (spliced self i j t c).
Proof.
  intros [Hc Hu Hr Hlim] Hc'. unfold spliced, record_text_change. simpl.
  case_decide; [by split|].
  destruct (push_bounded_ok (undo_stack (history self)) (snapshot self)) as [? ?]; [lia|done..|].
  split; simpl; [done..|lia].
Qed.

Lemma wf_undo_preserved self : wf_input self → wf_input (undo self).
Proof.
  intros Hwf. destruct (snoc_cases (undo_stack (history self))) as [E|(rest & s & E)].
  - unfold undo. by rewrite (proj2 (pop_back_None _) E).
  - rewrite (undo_eq self s rest) by done. destruct Hwf as [Hc Hu Hr Hlim]. rewrite E in Hu, Hlim.
    apply Forall_app in Hu as [Hu Hs]; rewrite Forall_singleton in Hs. rewrite length_app in Hlim. simpl in Hlim.
    split; simpl; [done..| |]; [|rewrite length_app; simpl; lia]. by apply Forall_app; split; [|constructor].
Qed.

Lemma wf_redo_preserved self : wf_input self → wf_input (redo self).
Proof.
  intros Hwf. destruct (snoc_cases (redo_stack (history self))) as [E|(rest & s & E)].
  - unfold redo. by rewrite (proj2 (pop_back_None _) E).
  - rewrite (redo_eq self s rest) by done. destruct Hwf as [Hc Hu Hr Hlim]. rewrite E in Hr, Hlim.
    apply Forall_app in Hr as [Hr Hs]; rewrite Forall_singleton in Hs. rewrite length_app in Hlim. simpl in Hlim.
    split; simpl; [done| |done|]; [|rewrite length_app; simpl; lia]. by apply Forall_app; split; [|constructor].
Qed.

(** ** Vertical movement *)

Lemma line_bound s line l column :
  at_position s line l column → line_offset (lines_view s) line + column <= length s.
Proof.
  intros [Hl Hcol]. destruct (line_decompose s line l Hl) as (pre & post & Hs & Hpre & _).
  rewrite <- Hpre, Hs, !length_app. lia.
Qed.

Lemma move_up_at self line l column :
  at_position (text self) line l column →
  cursor self = line_offset (lines_view (text self)) line + column →
  ∃ l', lines_view (text self) !! (line - 1) = Some l' ∧
  move_up self = set_cursor self
    (if decide (line = 0) then 0
     else line_offset (lines_view (text self)) (line - 1) + column `min` length l').
Proof.
  intros Hat Hc. unfold move_up. rewrite (line_column_at self line l column) by done.
  destruct Hat as [Hl _]. pose proof (lookup_lt_Some _ _ _ Hl).
  destruct (lookup_lt_is_Some_2 (lines_view (text self)) (line - 1)) as [l' Hl']; [lia|].
  exists l'. split; [done|]. case_decide; [done|].
  assert (Hstart : line_start_loop (text self) 0 0 0 (line - 1)
    = line_offset (lines_view (text self)) (line - 1)).
  { etransitivity; [apply (line_start_loop_at (text self) (line - 1) 0 0 0); lia|].
    case_decide as E; [by rewrite E|done]. }
  rewrite Hstart, (count_while_line _ _ l') by done. done.
Qed.

Lemma move_down_at self line l column :
  at_position (text self) line l column →
  cursor self = line_offset (lines_view (text self)) line + column →
  move_down self = set_cursor self
    (match lines_view (text self) !! S line with
     | None => length (text self)
     | Some l' => line_offset (lines_view (text self)) (S line) + column `min` length l'
     end).
Proof.
  intros Hat Hc. unfold move_down. rewrite (line_column_at self line l column) by done.
  rewrite newline_count. destruct Hat as [Hl _]. pose proof (lookup_lt_Some _ _ _ Hl).
  case_decide.
  - by rewrite lookup_ge_None_2 by lia.
  - destruct (lookup_lt_is_Some_2 (lines_view (text self)) (S line)) as [l' Hl']; [lia|]. rewrite Hl'.
    assert (Hstart : next_line_loop (text self) 0 0 (line + 1)
      = line_offset (lines_view (text self)) (S line)).
    { replace (line + 1) with (S line) by lia. apply (next_line_loop_at (text self) line 0 0). lia. }
    rewrite Hstart, (count_while_line _ _ l') by done. done.
Qed.

(** The range [delete_current_line] removes, in line coordinates. *)
Lemma delete_current_line_at self line l column :
  at_position (text self) line l column →
  cursor self = line_offset (lines_view (text self)) line + column →
  let off := line_offset (lines_view (text self)) line in
  delete_current_line self = Some
    (if decide (line = 0)
     then spliced self 0 (if decide (length (lines_view (text self)) = 1)
                          then length l else length l + 1) [] 0
     else spliced self (off - 1) (off + length l) [] (off - 1)).
Proof.
  intros Hat Hc off. unfold delete_current_line, line_delete_range.
  pose proof (line_bound _ _ _ _ Hat) as Hb. rewrite Nat.min_l, Hc by lia.
  destruct (line_scans _ _ _ _ Hat) as [-> ->]. simpl. fold off.
  destruct Hat as [Hl _]. pose proof (lookup_lt_Some _ _ _ Hl) as Hlt.
  destruct (line_decompose _ _ _ Hl) as (pre & post & Hs & Hpre & _ & Hbefore & Hafter).
  assert (Htotal : length (text self) = off + length l + length post).
  { rewrite Hs, !length_app. unfold off. lia. }
  destruct (decide (line = 0)) as [->|Hne].
  - assert (off = 0) as -> by done. rewrite decide_False by lia. simpl.
    destruct Hafter as [[Hn ->]|[Hn ->]]; simpl in Htotal.
    + rewrite Hn, decide_False, decide_True by lia. simpl. by rewrite replace_range_spliced by lia.
    + rewrite decide_True, (decide_False (P := _ = 1)) by lia. simpl.
      by rewrite replace_range_spliced by lia.
  - assert (0 < off).
    { destruct Hbefore as [[? _]|[_ ->]]; [done|]. unfold off. rewrite <- Hpre, length_app. simpl. lia. }
    rewrite decide_True by done. rewrite replace_range_spliced by lia. simpl.
    by rewrite Nat.add_0_r.
Qed.

Lemma text_spliced self i j t c :
  text (spliced self i j t c) = take i (text self) ++ t ++ drop j (text self).
Proof. unfold spliced, record_text_change. by case_decide. Qed.

Lemma cursor_spliced self i j t c : cursor (spliced self i j t c) = c.
Proof. unfold spliced, record_text_change. by case_decide. Qed.

(** Deleting the current line removes it from the sequence of lines. *)
Lemma delete_current_line_lines self line l column :
  at_position (text self) line l column →
  cursor self = line_offset (lines_view (text self)) line + column →
  ∃ self', delete_current_line self = Some self'
    ∧ lines_view (text self') = (if decide (length (lines_view (text self)) = 1) then [[]]
                                 else remove_nth line (lines_view (text self)))
    ∧ cursor self' = line_offset (lines_view (text self)) line - 1.
Proof.
  intros Hat Hc. eexists. split; [by apply (delete_current_line_at self line l column)|].
  destruct Hat as [Hl _]. pose proof (lookup_lt_Some _ _ _ Hl) as Hlt.
  destruct (line_decompose _ _ _ Hl) as (pre & post & Hs & Hpre & _ & Hbefore & Hafter).
  pose proof (lines_view_no_newline (text self)) as Hno.
  split; [|case_decide; subst; by rewrite cursor_spliced].
  assert (Hlast : S line < length (lines_view (text self)) → drop (S line) (lines_view (text self)) ≠ []).
  { intros ? E%(f_equal length). rewrite length_drop in E. simpl in E. lia. }
  destruct (decide (line = 0)) as [->|Hne]; rewrite text_spliced; simpl;
    set (ls := lines_view (text self)) in *; clearbody ls; rewrite Hs.
  - destruct Hbefore as [[_ ->]|[? _]]; [|done]. simpl in *. unfold remove_nth. simpl.
    destruct Hafter as [[Hn ->]|[Hn ->]].
    + rewrite !decide_True by done. by rewrite app_nil_r, drop_all.
    + rewrite !(decide_False (P := _ = 1)) by lia. rewrite drop_app_add. simpl.
      rewrite drop_0, lines_view_join; [done|auto|by apply Forall_drop].
  - destruct Hbefore as [[? _]|[_ Hb]]; [done|]. rewrite <- Hpre.
    rewrite (decide_False (P := _ = 1)) by lia. unfold remove_nth.
    rewrite (app_assoc pre l post), drop_app_length' by (rewrite length_app; lia).
    rewrite <- app_assoc, Hb, length_app, Nat.add_sub, <- app_assoc, take_app_length.
    assert (Htake : take line ls ≠ []).
    { intros E%(f_equal length). rewrite length_take in E. simpl in E. lia. }
    destruct Hafter as [[Hn ->]|[Hn ->]].
    + rewrite app_nil_r, (drop_ge _ (S line)), app_nil_r by lia.
      apply lines_view_join; [done|by apply Forall_take].
    + change (newline :: ?x) with ([newline] ++ x). rewrite <- join_app; [|done|auto].
      apply lines_view_join; [destruct (take line _); done|].
      apply Forall_app; split; [by apply Forall_take|by apply Forall_drop].
Qed.

(** ** Commands as four kinds of step *)

(** Every command moves the cursor inside the text, splices the text, or steps
    along the history. *)
Inductive command_step (self : InputState) : InputCommand → InputState → Prop :=
| step_move command c :
    c <= length (text self) → command_step self command (set_cursor self c)
| step_edit command i j t c :
    c <= length (take i (text self) ++ t ++ drop j (text self)) →
    command_step self command (spliced self i j t c)
| step_undo : command_step self Undo (undo self)
| step_redo : command_step self Redo (redo self).

Lemma set_cursor_same self : set_cursor self (cursor self) = self.
Proof. by destruct self. Qed.

Lemma step_same self command : wf_input self → command_step self command self.
Proof. intros []. rewrite <- (set_cursor_same self) at 2. by apply step_move. Qed.

Lemma step_splice self command i j t c :
  i <= j → i <= length (text self) → c <= i + length t →
  command_step self command (spliced self i j t c).
Proof. intros. apply step_edit. rewrite !length_app, length_take, length_drop. lia. Qed.

#[local] Hint Resolve step_same : rust.
#[local] Hint Constructors command_step : rust.

(** Closes the branches of [run_command_step]. *)
Ltac step_goal :=
  eexists; split; [reflexivity|]; try case_decide; try case_match; auto with rust;
  first [apply step_splice; simpl; lia | apply step_move; lia].

Lemma run_command_step self command :
  wf_input self → command_ok self command →
  ∃ self', run_command self command = Some self' ∧ command_step self command self'.
Proof.
  intros Hwf Hok. pose proof (wf_cursor _ Hwf) as Hc.
  destruct (at_position_exists (text self) (cursor self) Hc) as (line & l & column & Hat & Hpos).
  destruct command; simpl in *.
  - rewrite delete_backward_spliced. step_goal.
  - rewrite (delete_current_line_at self line l column) by done.
    pose proof (line_bound _ _ _ _ Hat). eexists; split; [reflexivity|].
    case_decide; apply step_splice; simpl; lia.
  - rewrite delete_forward_spliced. step_goal.
  - rewrite delete_to_line_end_spliced. unfold line_end_delete_range. case_decide; step_goal.
  - unfold delete_word_backward, word_delete_range. case_decide; [simpl; eauto with rust|].
    destruct (scan_back_total is_whitespace (text self) (cursor self)) as (a & -> & ?); [lia|]. simpl.
    destruct (scan_back_total not_whitespace (text self) a) as (b & -> & ?); [lia|]. simpl.
    destruct (scan_back_total is_whitespace (text self) b) as (d & -> & ?); [lia|]. simpl.
    rewrite replace_range_spliced by lia. eexists; split; [reflexivity|]. apply step_splice; simpl; lia.
  - rewrite insert_char_spliced. step_goal.
  - unfold insert_newline. rewrite insert_char_spliced. step_goal.
  - rewrite insert_text_spliced. step_goal.
  - rewrite (move_down_at self line l column) by done. eexists; split; [reflexivity|].
    apply step_move. case_match; [|done]. apply (line_bound _ _ l0). split; [done|lia].
  - step_goal.
  - step_goal.
  - step_goal.
  - unfold move_line_end. pose proof (scan_forward_bounds not_newline (text self) (cursor self) Hc). step_goal.
  - unfold move_line_start. destruct (line_scans _ _ _ _ Hat) as [Hs _]. rewrite Hpos, Hs. simpl.
    step_goal.
  - unfold move_right. step_goal.
  - destruct (move_up_at self line l column) as (l' & Hl' & ->); [done..|].
    eexists; split; [reflexivity|]. apply step_move. case_decide; [lia|].
    apply (line_bound _ _ l'). split; [done|lia].
  - unfold move_word_left. case_decide; [simpl; eauto with rust|].
    destruct (scan_back_total is_whitespace (text self) (cursor self)) as (a & -> & ?); [lia|]. simpl.
    destruct (scan_back_total not_whitespace (text self) a) as (b & -> & ?); [lia|]. simpl. step_goal.
  - unfold move_word_right.
    pose proof (scan_forward_bounds not_whitespace (text self) (cursor self) Hc) as Ha.
    pose proof (scan_forward_bounds is_whitespace (text self) _ (proj2 Ha)). step_goal.
  - eauto with rust.
  - destruct Hok. rewrite replace_range_spliced by lia. eexists; split; [reflexivity|].
    apply step_splice; simpl; lia.
  - eauto with rust.
Qed.

Lemma command_step_wf self command self' :
  wf_input self → command_step self command self' → wf_input self'.
Proof.
  intros Hwf []; auto using wf_set_cursor, wf_spliced, wf_undo_preserved, wf_redo_preserved.
Qed.

(** ** The timeline *)

Lemma linked_app {A} (R : A → A → Prop) l a r :
  linked R (l ++ a :: r) ↔ linked R (l ++ [a]) ∧ linked R (a :: r).
Proof.
  induction l as [|x l IH]; [simpl; tauto|].
  destruct l as [|y l]; [simpl; tauto|]. simpl in *. rewrite IH. tauto.
Qed.

Lemma linked_tail {A} (R : A → A → Prop) a l : linked R (a :: l) → linked R l.
Proof. destruct l; [done|]. by intros [_ ?]. Qed.

Lemma linked_snoc {A} (R : A → A → Prop) l a b : linked R (l ++ [a]) → R a b → linked R ((l ++ [a]) ++ [b]).
Proof. intros. rewrite <- app_assoc. simpl. rewrite linked_app. simpl. tauto. Qed.

Lemma timeline_undo self : wf_input self → timeline (undo self) = timeline self.
Proof.
  intros Hwf. destruct (snoc_cases (undo_stack (history self))) as [E|(rest & s & E)].
  - unfold undo. by rewrite (proj2 (pop_back_None _) E).
  - rewrite (undo_eq self s rest) by done. unfold timeline. simpl. rewrite E.
    rewrite rev_app_distr, <- app_assoc. by destruct s.
Qed.

Lemma timeline_redo self : wf_input self → timeline (redo self) = timeline self.
Proof.
  intros Hwf. destruct (snoc_cases (redo_stack (history self))) as [E|(rest & s & E)].
  - unfold redo. by rewrite (proj2 (pop_back_None _) E).
  - rewrite (redo_eq self s rest) by done. unfold timeline. simpl. rewrite E.
    rewrite rev_app_distr, <- app_assoc. by destruct s.
Qed.

Lemma next_revision_undo self : next_revision (history (undo self)) = next_revision (history self).
Proof. unfold undo. by repeat case_match. Qed.

Lemma next_revision_redo self : next_revision (history (redo self)) = next_revision (history self).
Proof. unfold redo. by repeat case_match. Qed.

Lemma redo_undo self : wf_input self → undo_stack (history self) ≠ [] → redo (undo self) = self.
Proof.
  intros Hwf Hne. destruct (snoc_cases (undo_stack (history self))) as [E|(rest & s & E)]; [done|].
  pose proof (wf_undo_preserved self Hwf) as Hwf'. rewrite (undo_eq self s rest) in * by done.
  rewrite (redo_eq _ (snapshot self) (redo_stack (history self))) by done.
  destruct self as [c [n r h u] t]. simpl in *. subst u. by destruct s.
Qed.

Lemma undo_redo self : wf_input self → redo_stack (history self) ≠ [] → undo (redo self) = self.
Proof.
  intros Hwf Hne. destruct (snoc_cases (redo_stack (history self))) as [E|(rest & s & E)]; [done|].
  pose proof (wf_redo_preserved self Hwf) as Hwf'. rewrite (redo_eq self s rest) in * by done.
  rewrite (undo_eq _ (snapshot self) (undo_stack (history self))) by done.
  destruct self as [c [n r h u] t]. simpl in *. subst r. by destruct s.
Qed.

(** An edit appends the current snapshot to the undo stack and drops the redone ones. *)
Lemma undo_stack_spliced self i j t c :
  text (spliced self i j t c) ≠ text self →
  ∃ kept, undo_stack (history (spliced self i j t c)) = kept ++ [snapshot self]
    ∧ kept `suffix_of` undo_stack (history self).
Proof.
  rewrite text_spliced. intros Hne. unfold spliced, record_text_change. simpl.
  rewrite decide_False by done. simpl. unfold push_bounded. case_decide; eexists; split; try done.
  destruct (undo_stack (history self)) as [|x l]; [done|]. by exists [x].
Qed.

Lemma spliced_same self i j t c :
  text (spliced self i j t c) = text self → spliced self i j t c = set_cursor self c.
Proof.
  rewrite text_spliced. intros E. unfold spliced, record_text_change. simpl.
  rewrite decide_True by done. unfold set_text_cursor, set_cursor. by rewrite E.
Qed.

Lemma revisions_set_cursor self c : revisions_ok self → revisions_ok (set_cursor self c).
Proof.
  unfold revisions_ok, timeline. simpl. rewrite !Forall_app, !Forall_cons. intros [Hl Hf].
  split; [|done]. clear Hf. destruct (history self) as [n r h u]. simpl in *.
  apply linked_app in Hl as [Hu Hr]. apply linked_app. split; [clear Hr|clear Hu; by destruct (rev r)].
  destruct u as [|x u _] using rev_ind; [done|]. rewrite <- app_assoc in *. simpl in *.
  apply linked_app in Hu as [? ?]. apply linked_app. by split.
Qed.

Lemma revisions_spliced self i j t c :
  revisions_ok self → (next_revision (history self) < u64_max)%Z →
  text (spliced self i j t c) ≠ text self → revisions_ok (spliced self i j t c).
Proof.
  intros [Hl Hf] Hnext Hne. destruct (undo_stack_spliced self i j t c Hne) as (kept & Hkept & [k Hk]).
  revert Hkept Hne. rewrite text_spliced. intros Hkept Hne.
  unfold revisions_ok, timeline in *. rewrite Hkept. revert Hkept.
  unfold spliced, record_text_change. simpl. rewrite decide_False by done. simpl. intros _.
  rewrite u64_saturating_add_lt by done. rewrite Hk in Hl, Hf. simpl in Hl, Hf. rewrite linked_app in Hl.
  destruct Hl as [Hl _]. rewrite !Forall_app, !Forall_cons in Hf. destruct Hf as ((_ & Hf) & Hs & _).
  split.
  - apply linked_snoc; [|split; simpl in *; [unfold revision in *; simpl; lia|done]].
    clear Hk Hf. induction k as [|x k IH]; [done|]. apply IH, (linked_tail _ x), Hl.
  - rewrite !Forall_app, !Forall_cons. simpl in *. unfold revision in *. simpl.
    split_and!; try lia; try done.
    eapply Forall_impl; [exact Hf|]. simpl. lia.
Qed.

Lemma linked_strong l :
  linked edit_link l → StronglySorted (λ a b, (snap_revision a < snap_revision b)%Z) l.
Proof.
  induction l as [|a l IH]; [constructor|]. intros H. pose proof (IH (linked_tail _ _ _ H)) as Hl.
  constructor; [done|]. destruct l as [|b l]; [constructor|]. destruct H as [[Hab _] _].
  apply StronglySorted_inv in Hl as [_ Hb]. constructor; [done|].
  eapply Forall_impl; [exact Hb|]. simpl. lia.
Qed.

Lemma sorted_revision_inj l a b :
  StronglySorted (λ a b, (snap_revision a < snap_revision b)%Z) l →
  a ∈ l → b ∈ l → snap_revision a = snap_revision b → a = b.
Proof.
  induction 1 as [|x l Hl IH Hx]; [set_solver|]. rewrite Forall_forall in Hx.
  intros [->|Ha]%elem_of_cons [->|Hb]%elem_of_cons E; auto.
  - specialize (Hx _ Hb). lia.
  - specialize (Hx _ Ha). lia.
Qed.

(** In a state with sound revisions, the current one tells the text apart. *)
Lemma undo_text_revision self :
  wf_input self → revisions_ok self →
  revision (undo self) = revision self ↔ text (undo self) = text self.
Proof.
  intros Hwf [Hl _]. destruct (snoc_cases (undo_stack (history self))) as [E|(rest & s & E)].
  - unfold undo. by rewrite (proj2 (pop_back_None _) E).
  - rewrite (undo_eq self s rest) by done. unfold revision. simpl.
    unfold timeline in Hl. rewrite E, <- app_assoc in Hl. simpl in Hl. apply linked_app in Hl as [_ Hl].
    destruct Hl as [[Hlt Hne] _]. simpl in *. unfold revision in *. split; [lia|congruence].
Qed.

Lemma redo_text_revision self :
  wf_input self → revisions_ok self →
  revision (redo self) = revision self ↔ text (redo self) = text self.
Proof.
  intros Hwf [Hl _]. destruct (snoc_cases (redo_stack (history self))) as [E|(rest & s & E)].
  - unfold redo. by rewrite (proj2 (pop_back_None _) E).
  - rewrite (redo_eq self s rest) by done. unfold revision. simpl.
    unfold timeline in Hl. simpl in Hl. rewrite E, rev_app_distr in Hl. simpl in Hl. apply linked_app in Hl as [_ Hl].
    destruct Hl as [[Hlt Hne] _]. simpl in *. unfold revision in *. split; [lia|congruence].
Qed.

Lemma command_step_revisions self command self' :
  wf_input self → revisions_ok self → (next_revision (history self) < u64_max)%Z →
  command_step self command self' →
  revisions_ok self' ∧ (revision self' = revision self ↔ text self' = text self).
Proof.
  intros Hwf Hr Hnext Hstep. destruct Hstep as [command c Hc|command i j t c Hc| |].
  - split; [by apply revisions_set_cursor|done].
  - destruct (decide (text (spliced self i j t c) = text self)) as [E|E].
    + rewrite (spliced_same _ _ _ _ _ E). split; [by apply revisions_set_cursor|done].
    + split; [by apply revisions_spliced|]. split; [|done]. revert E. rewrite text_spliced. intros E.
      unfold revision, spliced, record_text_change. simpl. rewrite decide_False by done. simpl.
      rewrite u64_saturating_add_lt by done. destruct Hr as [_ Hf]. unfold timeline in Hf.
      rewrite !Forall_app, Forall_singleton in Hf. destruct Hf as (_ & Hf & _). simpl in Hf.
      unfold revision in Hf. lia.
  - split; [|by apply undo_text_revision].
    unfold revisions_ok. by rewrite timeline_undo, next_revision_undo.
  - split; [|by apply redo_text_revision].
    unfold revisions_ok. by rewrite timeline_redo, next_revision_redo.
Qed.

(** ** [@]-mentions *)

Definition at_sign : char := 64%N.

Definition previous_char (t : str) (i : nat) : option char :=
  match i with 0 => None | S j => t !! j end.

Lemma at_mention_scan_spec t stop scan i q :
  scan <= stop → stop <= length t →
  at_mention_scan t stop scan = Some (i, q) ↔
    i < scan ∧ t !! i = Some at_sign
    ∧ is_at_mention_boundary (previous_char t i) = true
    ∧ q = take (stop - S i) (drop (S i) t)
    ∧ (∀ k c, i < k < scan → t !! k = Some c → c ≠ at_sign ∧ is_whitespace c = false).
Proof.
  intros Hs Hlen. induction scan as [|scan IH]; simpl; [split; [done|lia]|].
  destruct (lookup_lt_is_Some_2 t scan) as [ch Hch]; [lia|]. rewrite Hch.
  change 64%N with at_sign. destruct (N.eqb_spec ch at_sign) as [->|Hat].
  - fold (previous_char t scan). split.
    + case_match; [|done]. intros [= <- <-]. repeat split; try done; try lia.
    + intros (Hi & Hati & Hb & -> & Hall). destruct (decide (i = scan)) as [->|]; [by rewrite Hb|].
      destruct (Hall scan at_sign); [lia|done|done].
  - destruct (is_whitespace ch) eqn:Hw.
    + split; [done|]. intros (Hi & Hati & _ & _ & Hall).
      destruct (decide (i = scan)) as [->|]; [congruence|].
      destruct (Hall scan ch) as [_ ?]; [lia|done|congruence].
    + rewrite IH by lia. split; intros (Hi & Hati & Hb & -> & Hall); repeat split; try done; try lia.
      * destruct (decide (k = scan)) as [->|]; [congruence|]. apply (Hall k c); [lia|done].
      * destruct (decide (k = scan)) as [->|]; [congruence|]. apply (Hall k c); [lia|done].
      * destruct (decide (i = scan)) as [->|]; [congruence|lia].
      * apply (Hall k c); [lia|done].
      * apply (Hall k c); [lia|done].
Qed.

(** ** Properties *)

(** no editing command panics on a well-formed input, and each keeps it
    well formed: the cursor and every retained snapshot stay inside their
    text, and undo and redo together keep at most [INPUT_HISTORY_LIMIT]
    snapshots. *)
Theorem apply_command_total self command :
  wf_input self → command_ok self command →
  ∃ self' effect, apply_command self command = Some (self', effect) ∧ wf_input self'.
Proof.
  intros Hwf Hok. destruct (run_command_step self command Hwf Hok) as (self' & E & Hstep).
  unfold apply_command. rewrite E. simpl. do 2 eexists. split; [reflexivity|].
  by eapply command_step_wf.
Qed.

(** while revisions have not saturated, the reported effect is exact
    ([TextChanged] if and only if the text changed, otherwise [CursorMoved] if
    and only if the cursor moved), revisions stay increasing along the undo
    and redo timeline, and so a revision identifies one retained snapshot. *)
Theorem apply_command_effect self command self' effect :
  wf_input self → command_ok self command → revisions_ok self →
  (next_revision (history self) < u64_max)%Z →
  apply_command self command = Some (self', effect) →
  revisions_ok self'
  ∧ (effect = TextChanged ↔ text self' ≠ text self)
  ∧ (effect = CursorMoved ↔ text self' = text self ∧ cursor self' ≠ cursor self)
  ∧ (∀ a b, a ∈ timeline self' → b ∈ timeline self' → snap_revision a = snap_revision b → a = b).
Proof.
  intros Hwf Hok Hr Hnext Happ. destruct (run_command_step self command Hwf Hok) as (s1 & E & Hstep).
  unfold apply_command in Happ. rewrite E in Happ. simplify_eq/=.
  destruct (command_step_revisions _ _ _ Hwf Hr Hnext Hstep) as [Hr' Hiff].
  split; [done|]. split; [|split].
  - destruct (Z.eqb_spec (revision self') (revision self)) as [Hrev|Hrev]; simpl; rewrite <- Hiff;
      [case_decide; naive_solver|naive_solver].
  - destruct (Z.eqb_spec (revision self') (revision self)) as [Hrev|Hrev]; simpl; rewrite <- Hiff;
      [case_decide; naive_solver|naive_solver].
  - intros a b. apply sorted_revision_inj, linked_strong, Hr'.
Qed.

(** undo and redo are inverse steps along one timeline of snapshots, which
    they leave as it is; and undoing any editing command that changed the text
    gives back exactly the text, cursor and revision before it, from where
    redo gives the edited state again. *)
Theorem undo_redo_timeline self :
  wf_input self →
  timeline (undo self) = timeline self ∧ timeline (redo self) = timeline self
  ∧ (undo_stack (history self) ≠ [] → redo (undo self) = self)
  ∧ (redo_stack (history self) ≠ [] → undo (redo self) = self)
  ∧ (∀ command self', command_ok self command → command ≠ Undo → command ≠ Redo →
       run_command self command = Some self' → text self' ≠ text self →
       snapshot (undo self') = snapshot self ∧ redo (undo self') = self'
       ∧ redo_stack (history self') = []).
Proof.
  intros Hwf. split_and!; auto using timeline_undo, timeline_redo, redo_undo, undo_redo.
  intros command self' Hok Hu Hr Hrun Hne.
  destruct (run_command_step self command Hwf Hok) as (s1 & E & Hstep). simplify_eq.
  pose proof (command_step_wf _ _ _ Hwf Hstep) as Hwf'.
  destruct Hstep as [command c Hc|command i j t c Hc| |]; [done| |done..].
  destruct (undo_stack_spliced self i j t c Hne) as (kept & Hkept & _). split_and!.
  - rewrite (undo_eq _ _ _ Hwf' Hkept). by destruct self.
  - apply redo_undo; [done|]. rewrite Hkept. by destruct kept.
  - rewrite text_spliced in Hne. unfold spliced, record_text_change. simpl. by rewrite decide_False.
Qed.

(** in line and column coordinates, up and down move one line and keep the
    column up to the length of the line reached (to the ends of the buffer
    from the first and last line), line start and end move inside the line,
    and deleting the current line removes exactly that line. *)
Theorem line_commands self line column :
  wf_input self → line_column self = (line, column) →
  let ls := lines_view (text self) in
  let width := λ l, length (ls !!! l) in
  line < length ls ∧ column <= width line
  ∧ line_column (move_up self)
      = (if decide (line = 0) then (0, 0) else (line - 1, column `min` width (line - 1)))
  ∧ line_column (move_down self)
      = (if decide (S line < length ls) then (S line, column `min` width (S line))
         else (line, width line))
  ∧ (∃ self', move_line_start self = Some self' ∧ line_column self' = (line, 0))
  ∧ line_column (move_line_end self) = (line, width line)
  ∧ (∃ self', delete_current_line self = Some self'
       ∧ lines_view (text self') = (if decide (length ls = 1) then [[]] else remove_nth line ls)
       ∧ cursor self' = line_offset ls line - 1).
Proof.
  intros Hwf Hlc ls width.
  destruct (at_position_exists (text self) (cursor self) (wf_cursor _ Hwf))
    as (line' & l & column' & Hat & Hpos).
  pose proof (line_column_at self line' l column' Hat Hpos) as E. rewrite Hlc in E. simplify_eq.
  rename line' into line, column' into column.
  assert (Hw : ∀ k l', ls !! k = Some l' → width k = length l').
  { intros k l' Hk. unfold width. by rewrite (list_lookup_total_correct _ _ _ Hk). }
  pose proof Hat as [Hl Hcol]. pose proof (lookup_lt_Some _ _ _ Hl) as Hlt.
  assert (Hat' : ∀ k l' c, ls !! k = Some l' → c <= length l' →
    line_column (set_cursor self (line_offset ls k + c)) = (k, c)).
  { intros k l' c Hk Hc. by apply (line_column_at (set_cursor self _) k l' c). }
  assert (H0 : ∃ l0, ls !! 0 = Some l0) by (apply lookup_lt_is_Some_2; fold ls in Hlt; lia).
  destruct H0 as [l0 H0]. rewrite (Hw line l Hl).
  split_and!; [done|done| | | | |].
  - destruct (move_up_at self line l column) as (l' & Hl' & ->); [done..|]. rewrite (Hw _ l' Hl').
    case_decide; [apply (Hat' 0 l0 0); [done|lia]|apply (Hat' (line - 1) l'); [done|lia]].
  - rewrite (move_down_at self line l column) by done. fold ls.
    case_match eqn:Hn; [|].
    + rewrite decide_True, (Hw _ _ Hn) by (by eapply lookup_lt_Some). apply (Hat' (S line) l1); [done|lia].
    + apply lookup_ge_None in Hn. fold ls in Hlt. rewrite decide_False by lia.
      destruct (line_decompose _ _ _ Hl) as (pre & post & Hs & Hpre & _ & _ & Hafter). fold ls in Hpre, Hafter.
      destruct Hafter as [[_ ->]|[? _]]; [|lia].
      replace (length (text self)) with (line_offset ls line + length l); [by apply (Hat' line l)|].
      rewrite Hs, app_nil_r, length_app. lia.
  - unfold move_line_start. destruct (line_scans _ _ _ _ Hat) as [Hs _]. rewrite Hpos, Hs. simpl.
    eexists; split; [reflexivity|]. fold ls. rewrite <- (Nat.add_0_r (line_offset ls line)).
    apply (Hat' line l); [done|lia].
  - unfold move_line_end. destruct (line_scans _ _ _ _ Hat) as [_ Hs]. rewrite Hpos, Hs.
    by apply (Hat' line l).
  - by apply (delete_current_line_lines self line l column).
Qed.

(** an [@]-mention is reported exactly when an at sign at a lookup boundary
    lies before the cursor with no at sign and no whitespace in between; the
    query is the text from the at sign to the cursor. *)
Theorem at_mention_query_spec self i q :
  wf_input self →
  at_mention_query self = Some (i, q) ↔
    i < cursor self ∧ text self !! i = Some at_sign
    ∧ is_at_mention_boundary (previous_char (text self) i) = true
    ∧ q = take (cursor self - S i) (drop (S i) (text self))
    ∧ (∀ k c, i < k < cursor self → text self !! k = Some c → c ≠ at_sign ∧ is_whitespace c = false).
Proof.
  intros [Hc _ _ _]. unfold at_mention_query, extract_at_mention_query.
  case_decide as E; [rewrite E; split; [done|lia]|]. by apply at_mention_scan_spec.
Qed.

(** ** Witnesses *)

Definition sample_input : InputState :=
  {| cursor := 4;
     history := {| next_revision := 1; redo_stack := []; hist_revision := 1;
                   undo_stack := [mkSnapshot 0 0 []] |};
     text := L"a" ++ [newline] ++ L"@b" |}.

Lemma sample_input_wf : wf_input sample_input.
Proof. split; repeat constructor. Qed.

Lemma sample_input_revisions : revisions_ok sample_input.
Proof. split; vm_compute; repeat constructor; done. Qed.

Lemma apply_command_total_witness :
  ∃ self' effect, apply_command sample_input DeleteCurrentLine = Some (self', effect) ∧ wf_input self'.
Proof. apply (apply_command_total sample_input DeleteCurrentLine); [apply sample_input_wf|exact I]. Defined.

Lemma apply_command_effect_witness :
  ∃ self', apply_command sample_input DeleteBackward = Some (self', TextChanged)
    ∧ text self' ≠ text sample_input.
Proof.
  eexists. split; [vm_compute; reflexivity|].
  refine (proj1 (proj1 (proj2 (apply_command_effect sample_input DeleteBackward _ TextChanged
    sample_input_wf I sample_input_revisions _ _))) eq_refl); vm_compute; reflexivity.
Defined.

Lemma undo_redo_timeline_witness :
  text (undo sample_input) = [] ∧ redo (undo sample_input) = sample_input.
Proof.
  split; [vm_compute; reflexivity|].
  apply (proj1 (proj2 (proj2 (undo_redo_timeline sample_input sample_input_wf)))). done.
Defined.

Lemma line_commands_witness : line_column (move_up sample_input) = (0, 1).
Proof.
  exact (proj1 (proj2 (proj2 (line_commands sample_input 1 2 sample_input_wf eq_refl)))).
Defined.

Lemma at_mention_query_witness : at_mention_query sample_input = Some (2, L"b").
Proof.
  apply (at_mention_query_spec sample_input 2 (L"b") sample_input_wf).
  split_and!; try (vm_compute; reflexivity); [vm_compute; lia|].
  intros k c Hk Hc. assert (k = 3) as -> by (simpl in Hk; lia). vm_compute in Hc. by simplify_eq.
Defined.
