(* ===== verification/Transcript.v ===== *)
(** * Session transcripts (crates/ag-session/src/message.rs)

    Transcript messages, their storage normalization, the transcript aggregate
    with its cached content identity and length, and the display text that
    replays it.  [None] results of the display functions are panics. *)
From S2P Require Import Prelude.

(** ** [SessionMessageKind] *)

Inductive SessionMessageKind := UserPrompt | AgentPrompt | AssistantAnswer | WorkflowNotice.

#[global] Instance SessionMessageKind_eq_dec : EqDecision SessionMessageKind.
Proof. solve_decision. Defined.

Definition SessionMessageKind_as_str (self : SessionMessageKind) : str :=
  match self with
  | UserPrompt => L"user_prompt" | AgentPrompt => L"agent_prompt"
  | AssistantAnswer => L"assistant_answer" | WorkflowNotice => L"workflow_notice"
  end.

Definition is_conversation_message (self : SessionMessageKind) : bool :=
  match self with UserPrompt | AgentPrompt | AssistantAnswer => true | WorkflowNotice => false end.

Definition is_prompt (self : SessionMessageKind) : bool :=
  match self with UserPrompt | AgentPrompt => true | _ => false end.

(** The error is the [Display] text of [SessionMessageKindParseError]. *)
Definition SessionMessageKind_from_str (value : str) : result SessionMessageKind str :=
  match_str_or value
    [(L"user_prompt", UserPrompt); (L"agent_prompt", AgentPrompt);
     (L"assistant_answer", AssistantAnswer); (L"workflow_notice", WorkflowNotice)]
    (L"unknown session message kind `" ++ value ++ L"`").

#[global] Instance SessionMessageKind_persisted :
  Persisted SessionMessageKind SessionMessageKind_as_str SessionMessageKind_from_str.
Proof. solve_persisted. Qed.

#[global] Instance SessionMessageKind_exact :
  PersistedExact SessionMessageKind SessionMessageKind_as_str SessionMessageKind_from_str.
Proof. solve_exact. Qed.

(** ** Storage normalization *)

Definition normalized_message_content (content : str) : str := trim content.

Definition is_line_break (c : char) : bool := (c =? carriage_return)%N || (c =? newline)%N.

Definition normalized_user_prompt_content (content : str) : str :=
  trim_start_matches is_line_break (trim_end content).

Definition stored_message_content (kind : SessionMessageKind) (content : str) : str :=
  match kind with
  | UserPrompt | AgentPrompt => normalized_user_prompt_content content
  | AssistantAnswer => normalized_message_content content
  | WorkflowNotice => content
  end.

(** ** [SessionMessage] *)

Record SessionMessage := mkMessage {
  content : str;
  msg_kind : SessionMessageKind;
  msg_position : Z
}.

#[global] Instance SessionMessage_eq_dec : EqDecision SessionMessage.
Proof. solve_decision. Defined.

Definition SessionMessage_new (position : Z) (k : SessionMessageKind) (c : str) : SessionMessage :=
  {| content := c; msg_kind := k; msg_position := position |}.

Definition SessionMessage_conversation (position : Z) (k : SessionMessageKind) (c : str)
  : SessionMessage :=
  {| content := stored_message_content k c; msg_kind := k; msg_position := position |}.

Definition CLARIFICATION_HEADER : str := L"Clarifications:".
Definition USER_PROMPT_CONTINUATION_PREFIX : str := L"   ".
Definition USER_PROMPT_PREFIX : str := L" › ".

(** [split_at] takes a byte offset; it is a character count of digits here. *)
Definition is_clarification_question_line (line : str) : option bool :=
  let trimmed_line := trim_start line in
  let digit_count := count_while is_ascii_digit trimmed_line in
  if decide (digit_count = 0) then Some false
  else
    '(_, suffix) ← split_at_byte trimmed_line digit_count;
    Some (starts_with suffix (L". Q: ")).

(** The loop over the lines of a prompt, from line [line_index] on. *)
Fixpoint append_prompt_lines (is_clarification_prompt : bool) (line_index : nat)
    (output : str) (lines : list str) : option str :=
  match lines with
  | [] => Some output
  | prompt_line :: rest =>
      is_question ←
        (if is_clarification_prompt && (0 <? line_index)
         then is_clarification_question_line prompt_line else Some false);
      let output := if (is_question : bool)
                    then output ++ USER_PROMPT_CONTINUATION_PREFIX ++ [newline] else output in
      let output := output ++ (if decide (line_index = 0) then USER_PROMPT_PREFIX
                               else USER_PROMPT_CONTINUATION_PREFIX) in
      append_prompt_lines is_clarification_prompt (S line_index)
        (output ++ prompt_line ++ [newline]) rest
  end.

Definition append_user_prompt_display_text (output c : str) : option str :=
  let c := normalized_user_prompt_content c in
  if is_empty (trim c) then Some output
  else
    let output := if is_empty output then output else output ++ [newline] in
    let is_clarification_prompt :=
      match str_lines c with
      | line :: _ => str_eqb (trim line) CLARIFICATION_HEADER
      | [] => false
      end in
    output ← append_prompt_lines is_clarification_prompt 0 output (split_char newline c);
    Some (output ++ [newline]).

Definition append_assistant_answer_display_text (output c : str) : str :=
  let c := trim c in
  if is_empty c then output else output ++ c ++ [newline; newline].

Definition append_display_text (self : SessionMessage) (output : str) : option str :=
  match msg_kind self with
  | UserPrompt | AgentPrompt => append_user_prompt_display_text output (content self)
  | AssistantAnswer => Some (append_assistant_answer_display_text output (content self))
  | WorkflowNotice => Some (output ++ content self)
  end.

(** ** [SessionTranscript] *)

Record SessionTranscript := mkTranscript {
  content_hash : Z;
  messages : list SessionMessage;
  total_content_len : Z
}.

#[global] Instance SessionTranscript_eq_dec : EqDecision SessionTranscript.
Proof. solve_decision. Defined.

(** The writes of one message into the hasher. *)
Definition message_writes (m : SessionMessage) : list HashWrite :=
  [WriteI64 (msg_position m); WriteBytes (as_bytes (SessionMessageKind_as_str (msg_kind m)));
   WriteU8 255; WriteBytes (as_bytes (content m)); WriteU8 254].

Definition content_hash_for_messages `{FxHasher} (ms : list SessionMessage) : Z :=
  fx_finish (flat_map message_writes ms).

Definition content_len (m : SessionMessage) : Z := Z.of_nat (byte_len (content m)).

Fixpoint sum_content_len (ms : list SessionMessage) : Z :=
  match ms with [] => 0 | m :: ms' => content_len m + sum_content_len ms' end.

Definition SessionTranscript_new `{FxHasher} (ms : list SessionMessage) : SessionTranscript :=
  let ms := sort_by_key msg_position ms in
  {| content_hash := content_hash_for_messages ms;
     messages := ms;
     total_content_len := sum_content_len ms |}.

Definition SessionTranscript_default : SessionTranscript :=
  {| content_hash := 0; messages := []; total_content_len := 0 |}.

Definition SessionTranscript_is_empty (self : SessionTranscript) : bool := is_empty (messages self).

Definition append_message `{FxHasher} (self : SessionTranscript) (k : SessionMessageKind) (c : str)
  : SessionTranscript :=
  let c := stored_message_content k c in
  if is_empty (trim c) then self
  else
    let position := match last (messages self) with
                    | None => 0%Z
                    | Some m => i64_saturating_add (msg_position m) 1
                    end in
    let ms := messages self ++ [SessionMessage_new position k c] in
    {| content_hash := content_hash_for_messages ms;
       messages := ms;
       total_content_len :=
         usize_saturating_add (total_content_len self) (Z.of_nat (byte_len c)) |}.

Fixpoint append_messages_text (output : str) (ms : list SessionMessage) : option str :=
  match ms with
  | [] => Some output
  | m :: rest => output ← append_display_text m output; append_messages_text output rest
  end.

Definition display_text_for_messages (ms : list SessionMessage) : option str :=
  append_messages_text [] ms.

Definition non_blank (output : str) : option str :=
  if is_empty (trim output) then None else Some output.

Definition replay_text (self : SessionTranscript) : option (option str) :=
  non_blank <$> display_text_for_messages (messages self).

Definition conversation_replay_text (self : SessionTranscript) : option (option str) :=
  non_blank <$>
    display_text_for_messages (List.filter (λ m, is_conversation_message (msg_kind m)) (messages self)).

(** ** Normalization lemmas *)

Lemma is_line_break_whitespace c : is_line_break c = true → is_whitespace c = true.
Proof. unfold is_line_break. intros [E|E]%orb_true_iff; bool_split; by subst. Qed.

Lemma stored_message_content_idem k c :
  stored_message_content k (stored_message_content k c) = stored_message_content k c.
Proof.
  destruct k; simpl; try done; [| |apply trim_idem];
    unfold normalized_user_prompt_content, trim_start_matches, trim_end;
    rewrite skip_while_keeps_end by apply trim_end_matches_idem; apply skip_while_idem.
Qed.

(** Normalization neither adds nor removes visible content. *)
Lemma stored_message_content_blank k c : trim (stored_message_content k c) = [] ↔ trim c = [].
Proof.
  rewrite !trim_nil. destruct k; simpl; try done;
    unfold normalized_user_prompt_content, normalized_message_content, trim, trim_start, trim_end,
      trim_start_matches;
    rewrite ?forallb_trim_end_matches, ?forallb_skip_while, ?forallb_trim_end_matches;
    done || apply is_line_break_whitespace.
Qed.

(** ** Transcript lemmas *)

Section transcript.
Context `{FxHasher}.

(** A transcript whose cached fields are those of its messages, in order. *)
Definition canonical (t : SessionTranscript) : Prop := t = SessionTranscript_new (messages t).

Lemma sum_content_len_app xs ys :
  sum_content_len (xs ++ ys) = (sum_content_len xs + sum_content_len ys)%Z.
Proof. induction xs as [|m xs IH]; simpl; [done|]. rewrite IH. lia. Qed.

Lemma sort_by_key_sorted_id ms :
  StronglySorted (λ a b, (msg_position a <=? msg_position b)%Z = true) ms →
  sort_by_key msg_position ms = ms.
Proof. apply sort_by_id. Qed.

Lemma SessionTranscript_new_canonical ms : canonical (SessionTranscript_new ms).
Proof.
  unfold canonical, SessionTranscript_new at 2. simpl.
  rewrite (sort_by_key_sorted_id (sort_by_key msg_position ms)); [done|]. apply sort_by_key_sorted.
Qed.

Lemma canonical_sorted t :
  canonical t → StronglySorted (λ a b, (msg_position a <=? msg_position b)%Z = true) (messages t).
Proof. intros Ht. rewrite Ht. simpl. apply sort_by_key_sorted. Qed.

Lemma canonical_len t : canonical t → total_content_len t = sum_content_len (messages t).
Proof. intros Ht. by rewrite Ht. Qed.

Lemma canonical_intro t :
  StronglySorted (λ a b, (msg_position a <=? msg_position b)%Z = true) (messages t) →
  content_hash t = content_hash_for_messages (messages t) →
  total_content_len t = sum_content_len (messages t) → canonical t.
Proof.
  intros Hs Hh Hl. unfold canonical, SessionTranscript_new.
  rewrite sort_by_key_sorted_id by done. destruct t; simpl in *. by subst.
Qed.

Lemma sorted_last_max ms m x :
  StronglySorted (λ a b, (msg_position a <=? msg_position b)%Z = true) ms →
  last ms = Some m → x ∈ ms → (msg_position x <= msg_position m)%Z.
Proof.
  intros Hs Hlast Hx. apply last_Some in Hlast as [l ->].
  apply elem_of_app in Hx as [Hx|Hx]; [|apply list_elem_of_singleton in Hx; subst; lia].
  apply Z.leb_le. eapply (StronglySorted_app_1_elem_of _ _ _ x m Hs Hx). by left.
Qed.

Definition in_i64 (m : SessionMessage) : Prop := (i64_min <= msg_position m <= i64_max)%Z.

(** Appending a visible message is reconstructing the transcript with it. *)
Lemma append_message_eq t k c :
  canonical t → Forall in_i64 (messages t) →
  (sum_content_len (messages t) + Z.of_nat (byte_len (stored_message_content k c)) <= usize_max)%Z →
  trim (stored_message_content k c) ≠ [] →
  ∃ p, messages (append_message t k c)
         = messages t ++ [SessionMessage_new p k (stored_message_content k c)]
    ∧ canonical (append_message t k c)
    ∧ (∀ m, m ∈ messages t →
         (msg_position m <= p)%Z ∧ (msg_position m < i64_max → msg_position m < p)%Z).
Proof.
  intros Ht Hi Hlen Hne. unfold append_message. rewrite (proj2 (is_empty_false _)) by done.
  set (p := match last (messages t) with None => 0%Z | Some m => _ end). exists p.
  pose proof (canonical_sorted t Ht) as Hs.
  assert (Hp : ∀ m, m ∈ messages t →
    (msg_position m <= p)%Z ∧ (msg_position m < i64_max → msg_position m < p)%Z).
  { intros m Hm. unfold p. destruct (last (messages t)) as [l|] eqn:El.
    - pose proof (sorted_last_max _ l m Hs El Hm).
      assert (l ∈ messages t) as Hl by (apply last_Some in El as [? ->]; set_solver).
      rewrite Forall_forall in Hi. pose proof (Hi l Hl) as Hb. unfold in_i64 in Hb.
      unfold i64_saturating_add, i64_clamp. lia.
    - apply last_None in El. rewrite El in Hm. set_solver. }
  split; [done|]. split; [|done]. apply canonical_intro; simpl.
  - apply StronglySorted_app_2; [|done|repeat constructor].
    intros x y Hx Hy%list_elem_of_singleton. subst y. apply Z.leb_le. simpl. by apply Hp.
  - done.
  - rewrite sum_content_len_app. simpl. unfold content_len, usize_saturating_add. simpl.
    rewrite (canonical_len t Ht). lia.
Qed.
End transcript.

(** ** Display text *)

Lemma is_clarification_question_line_total line : is_Some (is_clarification_question_line line).
Proof.
  unfold is_clarification_question_line. case_decide; [done|].
  set (t := trim_start line). set (n := count_while is_ascii_digit t).
  assert (Hn : byte_len (take n t) = n).
  { unfold n. clear. induction t as [|c t IH]; simpl; [done|]. destruct (is_ascii_digit c) eqn:E; simpl; [|done].
    rewrite byte_len_cons, IH. f_equal. unfold is_ascii_digit in E. bool_split. unfold len_utf8.
    rewrite (proj2 (N.ltb_lt c 128)); [done|]. lia. }
  pose proof (split_at_byte_take n t) as Hs. rewrite Hn in Hs. rewrite Hs. done.
Qed.

Lemma append_prompt_lines_total b i out lines :
  ∃ d, append_prompt_lines b i out lines = Some (out ++ d).
Proof.
  revert i out. induction lines as [|l lines IH]; intros i out; simpl.
  { exists []. by rewrite app_nil_r. }
  destruct (is_clarification_question_line_total l) as [q Hq].
  assert (Hif : ∃ q', (if b && (0 <? i) then is_clarification_question_line l else Some false) = Some q')
    by (case_match; eauto). destruct Hif as [q' ->]. simpl.
  edestruct IH as [d ->]. destruct q'; rewrite <- !app_assoc; eauto.
Qed.

Lemma append_prompt_first_line b out l lines :
  ∃ d, append_prompt_lines b 0 out (l :: lines) = Some (out ++ USER_PROMPT_PREFIX ++ d).
Proof.
  cbn [append_prompt_lines]. rewrite andb_false_r. cbn [mbind option_bind decide].
  edestruct (append_prompt_lines_total b 1) as [d ->]. rewrite decide_True by done.
  rewrite <- !app_assoc. eauto.
Qed.

(** Displaying a message never fails, only extends the output, and what it
    adds is blank exactly for blank content. *)
Lemma append_display_text_total m out :
  ∃ d, append_display_text m out = Some (out ++ d)
    ∧ (forallb is_whitespace d = true ↔ trim (content m) = []).
Proof.
  assert (Hnil : out = out ++ []) by (by rewrite app_nil_r).
  destruct m as [c k p]. unfold append_display_text. simpl.
  assert (Hprompt : ∃ d, append_user_prompt_display_text out c = Some (out ++ d)
    ∧ (forallb is_whitespace d = true ↔ trim c = [])).
  { unfold append_user_prompt_display_text. pose proof (stored_message_content_blank UserPrompt c) as Hb.
    simpl in Hb. destruct (is_empty (trim (normalized_user_prompt_content c))) eqn:E.
    - apply is_empty_true in E. exists []. split; [by rewrite <- Hnil|]. by rewrite <- Hb, E.
    - apply is_empty_false in E.
      pose proof (split_char_not_nil newline (normalized_user_prompt_content c)).
      destruct (split_char newline (normalized_user_prompt_content c)) as [|l ls]; [done|].
      edestruct append_prompt_first_line as [d ->]. simpl.
      assert (Hv : ∀ pre post, forallb is_whitespace (pre ++ USER_PROMPT_PREFIX ++ post) = false).
      { intros pre post. rewrite !forallb_app. apply andb_false_intro2, andb_false_intro1. done. }
      destruct (is_empty out).
      + exists ([] ++ USER_PROMPT_PREFIX ++ d ++ [newline]). rewrite Hv, <- !app_assoc. split; [done|].
        rewrite <- Hb. split; [done|naive_solver].
      + exists ([newline] ++ USER_PROMPT_PREFIX ++ d ++ [newline]). rewrite Hv, <- !app_assoc.
        split; [done|]. rewrite <- Hb. split; [done|naive_solver]. }
  destruct k; [done|done| |exists c; by rewrite trim_nil].
  unfold append_assistant_answer_display_text. destruct (is_empty (trim c)) eqn:E.
  - apply is_empty_true in E. exists []. split; [by rewrite <- Hnil|]. by rewrite E.
  - eexists. split; [reflexivity|]. rewrite forallb_app, andb_true_r, <- trim_nil, trim_idem. done.
Qed.

Lemma append_messages_text_total ms out :
  ∃ d, append_messages_text out ms = Some (out ++ d)
    ∧ (forallb is_whitespace d = true ↔ ∀ m, m ∈ ms → trim (content m) = []).
Proof.
  revert out. induction ms as [|m ms IH]; intros out; simpl.
  { exists []. rewrite app_nil_r. split; [done|]. split; [set_solver|done]. }
  destruct (append_display_text_total m out) as (d & -> & Hd). simpl.
  destruct (IH (out ++ d)) as (d' & -> & Hd'). exists (d ++ d'). rewrite app_assoc. split; [done|].
  rewrite forallb_app, andb_true_iff, Hd, Hd'. setoid_rewrite elem_of_cons. naive_solver.
Qed.

(** ** Properties *)

(** storage normalization is idempotent for every message kind, and a
    message is blank after it exactly when it was blank before. *)
Theorem stored_content_normal k c :
  stored_message_content k (stored_message_content k c) = stored_message_content k c
  ∧ (trim (stored_message_content k c) = [] ↔ trim c = []).
Proof. split; [apply stored_message_content_idem|apply stored_message_content_blank]. Qed.

(** a transcript holds its messages in stable position order with the cached
    hash and length of exactly those messages; appending keeps that: a blank
    message changes nothing, any other one is added after all others under its
    normalized content at a position no smaller (strictly larger until the
    position saturates), and the result is the transcript rebuilt from its
    messages. *)
Theorem append_message_reconstructs `{FxHasher} ms k c :
  let t := SessionTranscript_new ms in
  let t' := append_message t k c in
  Forall in_i64 ms →
  (sum_content_len ms + Z.of_nat (byte_len (stored_message_content k c)) <= usize_max)%Z →
  (messages t ≡ₚ ms ∧ ∀ p, List.filter (λ m, msg_position m =? p)%Z (messages t)
                            = List.filter (λ m, msg_position m =? p)%Z ms)
  ∧ t' = SessionTranscript_new (messages t')
  ∧ (trim c = [] → t' = t)
  ∧ (trim c ≠ [] → ∃ p,
       messages t' = messages t ++ [SessionMessage_new p k (stored_message_content k c)]
       ∧ ∀ m, m ∈ ms → (msg_position m <= p)%Z ∧ (msg_position m < i64_max → msg_position m < p)%Z).
Proof.
  intros t t' Hi Hlen. pose proof (SessionTranscript_new_canonical ms) as Ht. fold t in Ht.
  assert (Hperm : messages t ≡ₚ ms) by apply sort_by_key_perm.
  assert (Hsum : sum_content_len (messages t) = sum_content_len ms).
  { clear -Hperm. induction Hperm; simpl in *; lia. }
  split; [split; [done|]|split; [|split]].
  - intros p. apply sort_by_stable. intros x y. rewrite !Z.eqb_eq, Z.leb_le. lia.
  - destruct (decide (trim (stored_message_content k c) = [])) as [E|E].
    + unfold t', append_message. by rewrite E.
    + edestruct (append_message_eq t k c) as (p & _ & Hc & _); try done; [by rewrite Hperm|lia].
  - rewrite <- (stored_message_content_blank k c). intros E. unfold t', append_message. by rewrite E.
  - rewrite <- (stored_message_content_blank k c). intros E.
    edestruct (append_message_eq t k c) as (p & Hm & _ & Hp); try done; [by rewrite Hperm|lia|].
    exists p. split; [done|]. intros m Hin. apply Hp. by rewrite Hperm.
Qed.

(** replaying a transcript never panics, and there is a replay text exactly
    when some message (for the conversation replay: some conversation message)
    has visible content. *)
Theorem replay_text_visible (t : SessionTranscript) :
  (∃ r, replay_text t = Some r
     ∧ (r = None ↔ ∀ m, m ∈ messages t → trim (content m) = []))
  ∧ (∃ r, conversation_replay_text t = Some r
     ∧ (r = None ↔ ∀ m, m ∈ messages t → is_conversation_message (msg_kind m) = true →
                        trim (content m) = [])).
Proof.
  unfold replay_text, conversation_replay_text, display_text_for_messages, non_blank. split.
  - destruct (append_messages_text_total (messages t) []) as (d & -> & Hd). simpl.
    eexists; split; [reflexivity|]. rewrite <- Hd, <- trim_nil, <- is_empty_true. by case_match.
  - destruct (append_messages_text_total
      (List.filter (λ m, is_conversation_message (msg_kind m)) (messages t)) []) as (d & -> & Hd). simpl.
    eexists; split; [reflexivity|]. transitivity (trim d = []).
    + rewrite <- is_empty_true. by case_match.
    + rewrite trim_nil, Hd. setoid_rewrite elem_of_filter_b. naive_solver.
Qed.

(** ** Witnesses *)

Definition sample_messages : list SessionMessage :=
  [mkMessage (L"done") AssistantAnswer 1; mkMessage (L"fix it") UserPrompt 0].

Lemma append_message_reconstructs_witness :
  let t' := append_message (SessionTranscript_new sample_messages) UserPrompt (L" next ") in
  t' = SessionTranscript_new (messages t')
  ∧ (msg_position <$> messages t') = [0; 1; 2]%Z.
Proof.
  split; [|vm_compute; reflexivity].
  apply (append_message_reconstructs sample_messages UserPrompt (L" next ")).
  - repeat constructor; vm_compute; discriminate.
  - vm_compute. discriminate.
Defined.
