(* ===== verification/Transient.v ===== *)
(** * Transient session messages (crates/agentty/src/domain/transient_message.rs)

    The per-session store of replaceable output slots, its content version and
    its content fingerprint.  The invariant is that slots are unique and that
    the fingerprint is the one of the current messages. *)
From S2P Require Import Prelude.

Inductive TransientMessageSlot :=
| WorkspacePreparation | SlotReview | ReviewCommentResolution | SlotWorkflowNotice
| SlotOrchestration | BranchPublish | SyncQueue | PublishedBranchSync.

#[global] Instance TransientMessageSlot_eq_dec : EqDecision TransientMessageSlot.
Proof. solve_decision. Defined.

Inductive TransientMessageAnchor := AfterCompletedTurn | AfterActiveTurn | Tail.

#[global] Instance TransientMessageAnchor_eq_dec : EqDecision TransientMessageAnchor.
Proof. solve_decision. Defined.

Definition TRANSIENT_MESSAGE_ANCHOR_ORDER : list TransientMessageAnchor :=
  [AfterCompletedTurn; AfterActiveTurn; Tail].

Inductive TransientMessageLifecycle := ClearOnNewTurn | UntilResolved.

#[global] Instance TransientMessageLifecycle_eq_dec : EqDecision TransientMessageLifecycle.
Proof. solve_decision. Defined.

Record QueuedAction := mkQueuedAction { action_order : Z; action_text : str }.

#[global] Instance QueuedAction_eq_dec : EqDecision QueuedAction.
Proof. solve_decision. Defined.

Inductive TransientMessageBody :=
| Markdown (text : str) | Plain (text : str) | Loading (text : str)
| QueuedBody (action : QueuedAction).

#[global] Instance TransientMessageBody_eq_dec : EqDecision TransientMessageBody.
Proof. solve_decision. Defined.

Definition body_text (self : TransientMessageBody) : str :=
  match self with
  | Markdown text | Plain text | Loading text => text
  | QueuedBody action => action_text action
  end.

Definition is_pending_indicator (self : TransientMessageBody) : bool :=
  match self with Loading _ | QueuedBody _ => true | _ => false end.

Record TransientMessage := mkTransient {
  anchor : TransientMessageAnchor;
  body : TransientMessageBody;
  lifecycle : TransientMessageLifecycle;
  slot : TransientMessageSlot;
  turn_position : option Z
}.

#[global] Instance TransientMessage_eq_dec : EqDecision TransientMessage.
Proof. solve_decision. Defined.

(** ** Derived [Hash]: the writes of each value, in field order *)

Definition slot_index (s : TransientMessageSlot) : nat :=
  match s with
  | WorkspacePreparation => 0 | SlotReview => 1 | ReviewCommentResolution => 2
  | SlotWorkflowNotice => 3 | SlotOrchestration => 4 | BranchPublish => 5 | SyncQueue => 6
  | PublishedBranchSync => 7
  end.

Definition anchor_index (a : TransientMessageAnchor) : nat :=
  match a with AfterCompletedTurn => 0 | AfterActiveTurn => 1 | Tail => 2 end.

Definition lifecycle_index (l : TransientMessageLifecycle) : nat :=
  match l with ClearOnNewTurn => 0 | UntilResolved => 1 end.

Definition hash_body (b : TransientMessageBody) : list HashWrite :=
  match b with
  | Markdown text => [WriteDiscriminant 0; WriteStr text]
  | Plain text => [WriteDiscriminant 1; WriteStr text]
  | Loading text => [WriteDiscriminant 2; WriteStr text]
  | QueuedBody action =>
      [WriteDiscriminant 3; WriteU64 (action_order action); WriteStr (action_text action)]
  end.

Definition hash_turn_position (p : option Z) : list HashWrite :=
  match p with
  | None => [WriteDiscriminant 0]
  | Some position => [WriteDiscriminant 1; WriteI64 position]
  end.

Definition hash_message (m : TransientMessage) : list HashWrite :=
  [WriteDiscriminant (anchor_index (anchor m))] ++ hash_body (body m)
  ++ [WriteDiscriminant (lifecycle_index (lifecycle m))]
  ++ [WriteDiscriminant (slot_index (slot m))] ++ hash_turn_position (turn_position m).

(** ** [TransientMessageStore] *)

Record TransientMessageStore := mkStore {
  fingerprint : Z;
  store_messages : list TransientMessage;
  version : Z
}.

#[global] Instance TransientMessageStore_eq_dec : EqDecision TransientMessageStore.
Proof. solve_decision. Defined.

(** The messages of one anchor, in store order. *)
Definition anchored (ms : list TransientMessage) (a : TransientMessageAnchor)
  : list TransientMessage := List.filter (λ m, bool_decide (anchor m = a)) ms.

Definition fingerprint_writes (ms : list TransientMessage) : list HashWrite :=
  flat_map (λ a, WriteDiscriminant (anchor_index a) :: flat_map hash_message (anchored ms a))
    TRANSIENT_MESSAGE_ANCHOR_ORDER.

Definition calculate_fingerprint `{FxHasher} (ms : list TransientMessage) : Z :=
  fx_finish (fingerprint_writes ms).

Definition TransientMessageStore_default `{FxHasher} : TransientMessageStore :=
  {| fingerprint := calculate_fingerprint []; store_messages := []; version := 0 |}.

Definition has_slot (s : TransientMessageSlot) (m : TransientMessage) : bool :=
  bool_decide (slot m = s).

Definition store_get (self : TransientMessageStore) (s : TransientMessageSlot)
  : option TransientMessage := list_find_b (has_slot s) (store_messages self).

(** [bump_version] on a store whose messages have been replaced by [ms]. *)
Definition bump_version `{FxHasher} (self : TransientMessageStore) (ms : list TransientMessage)
  : TransientMessageStore :=
  {| fingerprint := calculate_fingerprint ms; store_messages := ms;
     version := u64_wrapping_add (version self) 1 |}.

Definition upsert `{FxHasher} (self : TransientMessageStore) (message : TransientMessage)
  : TransientMessageStore :=
  match position (has_slot (slot message)) (store_messages self) with
  | Some i =>
      if bool_decide (store_messages self !! i = Some message) then self
      else bump_version self (<[i := message]> (store_messages self))
  | None => bump_version self (store_messages self ++ [message])
  end.

Definition retract `{FxHasher} (self : TransientMessageStore) (s : TransientMessageSlot)
  : option TransientMessage * TransientMessageStore :=
  match position (has_slot s) (store_messages self) with
  | None => (None, self)
  | Some i =>
      (store_messages self !! i, bump_version self (remove_nth i (store_messages self)))
  end.

(** The messages [clear_for_new_turn] retains. *)
Definition survives_new_turn (active_turn_position : Z) (m : TransientMessage) : bool :=
  negb (bool_decide (lifecycle m = ClearOnNewTurn))
  || match turn_position m with
     | Some p => (active_turn_position <=? p)%Z
     | None => false
     end.

Definition clear_for_new_turn `{FxHasher} (self : TransientMessageStore) (active_turn_position : Z)
  : TransientMessageStore :=
  let ms := List.filter (survives_new_turn active_turn_position) (store_messages self) in
  if decide (length ms = length (store_messages self)) then self else bump_version self ms.

(** ** Lemmas *)

Section store.
Context `{FxHasher}.

Record wf_store (self : TransientMessageStore) : Prop := {
  wf_slots : NoDup (slot <$> store_messages self);
  wf_fingerprint : fingerprint self = calculate_fingerprint (store_messages self)
}.

(** A store operation changed nothing, or the messages and then the version. *)
Definition tracked (self self' : TransientMessageStore) : Prop :=
  self' = self
  ∨ store_messages self' ≠ store_messages self
    ∧ version self' = u64_wrapping_add (version self) 1.

Lemma slot_lookup_inj (ms : list TransientMessage) (i j : nat) a b :
  NoDup (slot <$> ms) → ms !! i = Some a → ms !! j = Some b → slot a = slot b → i = j.
Proof.
  intros Hnd Ha Hb Hs. apply (NoDup_lookup (slot <$> ms) i j (slot a)); [done| |];
    rewrite list_lookup_fmap; [by rewrite Ha|by rewrite Hb, Hs].
Qed.

Lemma has_slot_true s m : has_slot s m = true ↔ slot m = s.
Proof. apply bool_decide_eq_true. Qed.

Lemma list_find_b_unique ms s m :
  NoDup (slot <$> ms) → m ∈ ms → slot m = s → list_find_b (has_slot s) ms = Some m.
Proof.
  intros Hnd Hm Hs. destruct (list_find_b_is_Some (has_slot s) ms m) as [x Hx]; [done|by apply has_slot_true|].
  rewrite Hx. f_equal. apply list_find_b_Some in Hx as [Hx Hxs%has_slot_true].
  apply list_elem_of_lookup in Hx as [i Hi]. apply list_elem_of_lookup in Hm as [j Hj].
  assert (i = j) as -> by (eapply slot_lookup_inj; eauto; congruence). congruence.
Qed.

Lemma store_get_elem self s m :
  wf_store self → store_get self s = Some m ↔ m ∈ store_messages self ∧ slot m = s.
Proof.
  intros [Hnd _]. split.
  - intros [? ?%has_slot_true]%list_find_b_Some. done.
  - intros [? ?]. by apply list_find_b_unique.
Qed.

Lemma insert_same_slot (ms : list TransientMessage) (i : nat) old m :
  ms !! i = Some old → slot old = slot m → slot <$> <[i := m]> ms = slot <$> ms.
Proof.
  intros Hi Hs. rewrite list_fmap_insert, list_insert_id; [done|].
  rewrite list_lookup_fmap, Hi. simpl. by rewrite Hs.
Qed.

(** The three shapes of [upsert]. *)
Lemma upsert_cases self m :
  (m ∈ store_messages self ∧ upsert self m = self)
  ∨ (∃ i old, store_messages self !! i = Some old ∧ slot old = slot m ∧ old ≠ m
       ∧ upsert self m = bump_version self (<[i := m]> (store_messages self)))
  ∨ ((slot m ∉ slot <$> store_messages self)
       ∧ upsert self m = bump_version self (store_messages self ++ [m])).
Proof.
  unfold upsert. destruct (position _ _) as [i|] eqn:E.
  - apply position_Some in E as (old & Hi & Hs%has_slot_true & _). rewrite Hi.
    case_bool_decide as Hb.
    + simplify_eq. left. split; [by eapply list_elem_of_lookup_2|done].
    + right; left. exists i, old. split_and!; try done. congruence.
  - right; right. split; [|done]. apply position_None in E. rewrite list_elem_of_fmap.
    intros (x & Hx & Hin). rewrite Forall_forall in E. specialize (E x Hin).
    apply bool_decide_eq_false in E. congruence.
Qed.

Lemma retract_cases self s :
  (store_get self s = None ∧ retract self s = (None, self))
  ∨ (∃ i m, store_messages self !! i = Some m ∧ slot m = s
       ∧ retract self s = (Some m, bump_version self (remove_nth i (store_messages self)))).
Proof.
  unfold retract, store_get. destruct (position _ _) as [i|] eqn:E.
  - apply position_Some in E as (m & Hi & Hs%has_slot_true & _). right. exists i, m. by rewrite Hi.
  - left. split; [|done]. apply position_None in E. apply list_find_b_None.
    by rewrite Forall_forall in E.
Qed.

Lemma filter_length_id {A} (p : A → bool) l :
  length (List.filter p l) = length l → List.filter p l = l.
Proof.
  induction l as [|x l IH]; simpl; [done|]. pose proof (List.filter_length_le p l).
  destruct (p x); simpl; [|lia]. intros [=]. f_equal. auto.
Qed.

Lemma NoDup_filter_slots p ms : NoDup (slot <$> ms) → NoDup (slot <$> List.filter p ms).
Proof.
  induction ms as [|m ms IH]; simpl; [done|]. rewrite NoDup_cons. intros [Hm Hms].
  destruct (p m); [|auto]. simpl. apply NoDup_cons. split; [|auto].
  rewrite list_elem_of_fmap in *. intros (x & ? & Hx%elem_of_filter_b). naive_solver.
Qed.

Lemma remove_nth_slots i ms : NoDup (slot <$> ms) → NoDup (slot <$> remove_nth i ms).
Proof.
  unfold remove_nth. intros Hnd. destruct (decide (i < length ms)) as [Hlt|].
  - destruct (lookup_lt_is_Some_2 _ _ Hlt) as [m Hm]. rewrite <- (take_drop_middle _ _ _ Hm) in Hnd.
    rewrite !fmap_app, fmap_cons in *. apply NoDup_app in Hnd as (H1 & H2 & H3%NoDup_cons).
    apply NoDup_app. split_and!; [done|set_solver|naive_solver].
  - by rewrite take_ge, drop_ge, app_nil_r by lia.
Qed.

Lemma length_remove_nth {A} i (l : list A) : i < length l → length (remove_nth i l) < length l.
Proof. intros. unfold remove_nth. rewrite length_app, length_take, length_drop. lia. Qed.

Lemma tracked_bump self ms :
  ms ≠ store_messages self → tracked self (bump_version self ms).
Proof. intros. right. done. Qed.

Lemma upsert_wf self m : wf_store self → wf_store (upsert self m) ∧ tracked self (upsert self m).
Proof.
  intros Hwf. pose proof (wf_slots _ Hwf) as Hnd.
  destruct (upsert_cases self m) as [[_ ->]|[(i & old & Hi & Hs & Hne & ->)|[Hnew ->]]].
  - split; [done|by left].
  - split; [split; [|done]; simpl; by rewrite (insert_same_slot _ _ _ _ Hi Hs)|].
    apply tracked_bump. intros E. apply (f_equal (lookup i)) in E.
    rewrite list_lookup_insert_eq, Hi in E by (by eapply lookup_lt_Some). congruence.
  - split; [split; [|done]; simpl|].
    + rewrite fmap_app. apply NoDup_app. split_and!; [done|set_solver|apply NoDup_singleton].
    + apply tracked_bump. intros E%(f_equal length). rewrite length_app in E. simpl in E. lia.
Qed.

Lemma retract_wf self s :
  wf_store self → wf_store (retract self s).2 ∧ tracked self (retract self s).2.
Proof.
  intros Hwf. pose proof (wf_slots _ Hwf) as Hnd.
  destruct (retract_cases self s) as [[_ ->]|(i & m & Hi & Hs & ->)]; simpl; [split; [done|by left]|].
  split; [split; [by apply remove_nth_slots|done]|]. apply tracked_bump.
  intros E%(f_equal length). pose proof (length_remove_nth i (store_messages self) (lookup_lt_Some _ _ _ Hi)). lia.
Qed.

Lemma clear_for_new_turn_messages self p :
  store_messages (clear_for_new_turn self p)
  = List.filter (survives_new_turn p) (store_messages self).
Proof. unfold clear_for_new_turn. case_decide as E; [|done]. by rewrite (filter_length_id _ _ E). Qed.

Lemma clear_for_new_turn_wf self p :
  wf_store self → wf_store (clear_for_new_turn self p) ∧ tracked self (clear_for_new_turn self p).
Proof.
  intros Hwf. pose proof (wf_slots _ Hwf). unfold clear_for_new_turn. case_decide; [split; [done|by left]|].
  split; [split; [by apply NoDup_filter_slots|done]|]. apply tracked_bump. congruence.
Qed.

Lemma upsert_elem self m x :
  wf_store self →
  x ∈ store_messages (upsert self m) ↔ x = m ∨ x ∈ store_messages self ∧ slot x ≠ slot m.
Proof.
  intros Hwf. pose proof (wf_slots _ Hwf) as Hnd.
  destruct (upsert_cases self m) as [[Hm ->]|[(i & old & Hi & Hs & Hne & ->)|[Hnew ->]]]; simpl.
  - apply list_elem_of_lookup in Hm as [j Hj]. split.
    + intros Hx. destruct (decide (x = m)) as [|Hxm]; [by left|right]. split; [done|]. intros Hs.
      apply list_elem_of_lookup in Hx as [k Hk].
      assert (k = j) as -> by (by eapply slot_lookup_inj). congruence.
    + intros [->|[? _]]; [by eapply list_elem_of_lookup_2|done].
  - rewrite list_elem_of_lookup. split.
    + intros [j Hj]. destruct (decide (j = i)) as [->|Hji].
      * rewrite list_lookup_insert_eq in Hj by (by eapply lookup_lt_Some). left. congruence.
      * rewrite list_lookup_insert_ne in Hj by done. right. split; [by eapply list_elem_of_lookup_2|].
        intros Hsx. apply Hji. eapply slot_lookup_inj; eauto. congruence.
    + intros [->|[Hx Hsx]].
      * exists i. by rewrite list_lookup_insert_eq by (by eapply lookup_lt_Some).
      * apply list_elem_of_lookup in Hx as [j Hj]. exists j. rewrite list_lookup_insert_ne; [done|].
        intros ->. rewrite Hi in Hj. congruence.
  - rewrite elem_of_app, list_elem_of_singleton. split; [|naive_solver]. intros [Hx| ->]; [right|by left].
    split; [done|]. intros E. apply Hnew. rewrite <- E. by apply list_elem_of_fmap_2.
Qed.

Lemma retract_elem self s x :
  wf_store self →
  x ∈ store_messages (retract self s).2 ↔ x ∈ store_messages self ∧ slot x ≠ s.
Proof.
  intros Hwf. pose proof (wf_slots _ Hwf) as Hnd.
  destruct (retract_cases self s) as [[Hget ->]|(i & m & Hi & Hs & ->)]; simpl.
  - split; [|naive_solver]. intros Hx. split; [done|]. intros E.
    assert (Hf : has_slot s x = false) by (apply (proj1 (list_find_b_None _ _) Hget x Hx)).
    by rewrite (proj2 (has_slot_true s x) E) in Hf.
  - unfold remove_nth.
    rewrite <- (take_drop_middle _ _ _ Hi), fmap_app, fmap_cons in Hnd.
    apply NoDup_app in Hnd as (_ & H2 & [H3 _]%NoDup_cons).
    set (l1 := take i (store_messages self)) in *. set (l2 := drop (S i) (store_messages self)) in *.
    assert (Hsplit : store_messages self = l1 ++ m :: l2) by (symmetry; by apply take_drop_middle).
    rewrite Hsplit, !elem_of_app, elem_of_cons. split.
    + intros [Hx|Hx]; (split; [tauto|]); intros E.
      * apply (H2 (slot x)); [by apply list_elem_of_fmap_2|]. apply elem_of_cons; left; congruence.
      * apply H3. rewrite Hs, <- E. by apply list_elem_of_fmap_2.
    + intros [[?|[->|?]] ?]; [tauto|done|tauto].
Qed.

Lemma store_get_upsert self m s :
  wf_store self → store_get (upsert self m) s = if decide (slot m = s) then Some m else store_get self s.
Proof.
  intros Hwf. destruct (upsert_wf self m Hwf) as [Hwf' _]. apply option_eq. intros x.
  rewrite store_get_elem, upsert_elem by done. case_decide as E; [naive_solver congruence|].
  rewrite store_get_elem by done. naive_solver congruence.
Qed.

Lemma store_get_retract self s s' :
  wf_store self → store_get (retract self s).2 s' = if decide (s = s') then None else store_get self s'.
Proof.
  intros Hwf. destruct (retract_wf self s Hwf) as [Hwf' _]. apply option_eq. intros x.
  rewrite store_get_elem, retract_elem by done. case_decide as E; [naive_solver congruence|].
  rewrite store_get_elem by done. naive_solver congruence.
Qed.

Lemma retract_result self s : wf_store self → (retract self s).1 = store_get self s.
Proof.
  intros Hwf. destruct (retract_cases self s) as [[Hget ->]|(i & m & Hi & Hs & ->)]; simpl; [done|].
  symmetry. apply store_get_elem; [done|]. split; [by eapply list_elem_of_lookup_2|done].
Qed.
End store.

(** ** Properties *)

(** every store operation keeps slots unique and the fingerprint current,
    and bumps the (wrapping) version exactly when the messages change; posting
    and retracting act on their own slot only, and replacing a slot keeps the
    display order. *)
Theorem store_operations `{FxHasher} self :
  wf_store self →
  (∀ m, let self' := upsert self m in
     wf_store self' ∧ tracked self self'
     ∧ (∀ s, store_get self' s = if decide (slot m = s) then Some m else store_get self s)
     ∧ slot <$> store_messages self'
       = (slot <$> store_messages self)
         ++ (if decide (store_get self (slot m) = None) then [slot m] else []))
  ∧ (∀ s, let self' := (retract self s).2 in
     wf_store self' ∧ tracked self self' ∧ (retract self s).1 = store_get self s
     ∧ (∀ s', store_get self' s' = if decide (s = s') then None else store_get self s'))
  ∧ (∀ p, let self' := clear_for_new_turn self p in
     wf_store self' ∧ tracked self self'
     ∧ store_messages self' = List.filter (survives_new_turn p) (store_messages self)).
Proof.
  intros Hwf. split_and!.
  - intros m self'. destruct (upsert_wf self m Hwf) as [? ?]. split_and!; [done..| |].
    + intros s. by apply store_get_upsert.
    + unfold self'. destruct (upsert_cases self m) as [[Hm ->]|[(i & old & Hi & Hs & _ & ->)|[Hnew ->]]]; simpl.
      * rewrite decide_False, app_nil_r; [done|]. by rewrite (proj2 (store_get_elem _ _ m Hwf)).
      * rewrite (insert_same_slot _ _ _ _ Hi Hs), decide_False, app_nil_r; [done|].
        rewrite (proj2 (store_get_elem _ _ old Hwf)); [done|]. split; [by eapply list_elem_of_lookup_2|done].
      * rewrite fmap_app, decide_True; [done|]. destruct (store_get self (slot m)) as [x|] eqn:E; [|done].
        apply store_get_elem in E as [Hx Hs]; [|done]. exfalso. apply Hnew. rewrite <- Hs.
        by apply list_elem_of_fmap_2.
  - intros s self'. destruct (retract_wf self s Hwf) as [? ?].
    split_and!; [done..|by apply retract_result|]. intros s'. by apply store_get_retract.
  - intros p self'. destruct (clear_for_new_turn_wf self p Hwf). split_and!; [done..|].
    apply clear_for_new_turn_messages.
Qed.

(** the fingerprint identifies what is displayed: stores that show the same
    messages in the same order under each anchor have the same fingerprint,
    however the anchors interleave and whatever their version. *)
Theorem fingerprint_display_identity `{FxHasher} self self' :
  wf_store self → wf_store self' →
  (∀ a, anchored (store_messages self) a = anchored (store_messages self') a) →
  fingerprint self = fingerprint self'.
Proof.
  intros [_ ->] [_ ->] E. unfold calculate_fingerprint, fingerprint_writes. simpl. by rewrite !E.
Qed.

(** ** Witnesses *)

Definition sample_notice (a : TransientMessageAnchor) (s : TransientMessageSlot) : TransientMessage :=
  {| anchor := a; body := Plain (L"note"); lifecycle := ClearOnNewTurn; slot := s;
     turn_position := Some 1%Z |}.

Lemma default_store_wf : wf_store TransientMessageStore_default.
Proof. split; [constructor|done]. Qed.

Lemma store_operations_witness :
  let m := sample_notice Tail BranchPublish in
  store_get (upsert TransientMessageStore_default m) BranchPublish = Some m.
Proof.
  exact (proj1 (proj2 (proj2
    (proj1 (store_operations TransientMessageStore_default default_store_wf)
       (sample_notice Tail BranchPublish)))) BranchPublish).
Defined.

Lemma fingerprint_display_witness :
  let a := sample_notice Tail BranchPublish in
  let b := sample_notice AfterActiveTurn SyncQueue in
  fingerprint (upsert (upsert TransientMessageStore_default a) b)
  = fingerprint (upsert (upsert TransientMessageStore_default b) a).
Proof.
  apply fingerprint_display_identity.
  - apply upsert_wf, upsert_wf, default_store_wf.
  - apply upsert_wf, upsert_wf, default_store_wf.
  - intros []; vm_compute; reflexivity.
Defined.
