(* ===== verification/Prompt.v ===== *)
(** * Turn prompts (crates/ag-protocol/src/prompt.rs)

    The prompt payload with its image attachments, the rewriting of [@path]
    lookups for the agent, the split into transport parts and the transcript
    text.  String slices that would panic give [None]. *)
From S2P Require Import Prelude.

(** ** Data *)

(** [PathBuf] is kept as its text. *)
Record TurnPromptAttachment := mkAttachment { local_image_path : str; placeholder : str }.

#[global] Instance TurnPromptAttachment_eq_dec : EqDecision TurnPromptAttachment.
Proof. solve_decision. Defined.

Inductive TurnPromptTextSource := SourceUserPrompt | SourceAgentData.

#[global] Instance TurnPromptTextSource_eq_dec : EqDecision TurnPromptTextSource.
Proof. solve_decision. Defined.

Definition TurnPromptTextSource_default : TurnPromptTextSource := SourceUserPrompt.

Record TurnPrompt := mkPrompt {
  attachments : list TurnPromptAttachment;
  prompt_text : str;
  text_source : TurnPromptTextSource
}.

#[global] Instance TurnPrompt_eq_dec : EqDecision TurnPrompt.
Proof. solve_decision. Defined.

Inductive TurnPromptContentPart :=
| PartAttachment (attachment : TurnPromptAttachment)
| PartOrphanAttachment (attachment : TurnPromptAttachment)
| PartText (text : str).

Definition TurnPrompt_from_text (t : str) : TurnPrompt :=
  {| attachments := []; prompt_text := t; text_source := SourceUserPrompt |}.

Definition TurnPrompt_from_agent_data (t : str) : TurnPrompt :=
  {| attachments := []; prompt_text := t; text_source := SourceAgentData |}.

Definition TurnPrompt_is_empty (self : TurnPrompt) : bool :=
  is_empty (prompt_text self) && is_empty (attachments self).

Definition TurnPrompt_has_attachments (self : TurnPrompt) : bool := negb (is_empty (attachments self)).

Definition local_image_paths (self : TurnPrompt) : list str :=
  local_image_path <$> attachments self.

Definition TurnPrompt_contains (self : TurnPrompt) (needle : str) : bool :=
  str_contains (prompt_text self) needle.

Definition TurnPrompt_ends_with (self : TurnPrompt) (suffix : str) : bool :=
  ends_with (prompt_text self) suffix.

(** ** Lookups for the agent *)

Definition prompt_at_sign : char := 64%N.
Definition double_quote : char := 34%N.

Definition is_mention_opening_delimiter (ch : char) : bool := bool_decide (ch ∈ L"([{").

Definition is_mention_query_character `{UnicodeAlnum} (ch : char) : bool :=
  is_alphanumeric ch || bool_decide (ch ∈ L"/._-").

Definition is_mention_boundary (previous_character : option char) : bool :=
  match previous_character with
  | None => true
  | Some ch => is_whitespace ch || is_mention_opening_delimiter ch
  end.

(** [characters.get(index.wrapping_sub(1))]. *)
Definition char_before (characters : str) (index : nat) : option char :=
  match index with 0 => None | S j => characters !! j end.

Fixpoint render_prompt_loop `{UnicodeAlnum} (fuel : nat) (characters : str) (index : nat)
    (output : str) : str :=
  match fuel with
  | 0 => output
  | S fuel =>
      match characters !! index with
      | None => output
      | Some character =>
          if negb (character =? prompt_at_sign)%N
             || negb (is_mention_boundary (char_before characters index))
             || bool_decide (length characters <= index + 1)
          then render_prompt_loop fuel characters (index + 1) (output ++ [character])
          else
            let scan_index := scan_forward is_mention_query_character characters (index + 1) in
            if decide (scan_index = index + 1)
            then render_prompt_loop fuel characters (index + 1) (output ++ [character])
            else render_prompt_loop fuel characters scan_index
                   (output ++ [double_quote]
                    ++ take (scan_index - (index + 1)) (drop (index + 1) characters)
                    ++ [double_quote])
      end
  end.

(** The index grows in every round, so the length of the text is enough fuel. *)
Definition render_prompt_text_for_agent `{UnicodeAlnum} (t : str) : str :=
  render_prompt_loop (length t) t 0 [].

Definition agent_text `{UnicodeAlnum} (self : TurnPrompt) : str :=
  match text_source self with
  | SourceUserPrompt => render_prompt_text_for_agent (prompt_text self)
  | SourceAgentData => prompt_text self
  end.

(** ** Transport parts *)

Definition placeholder_key (t : str) (a : TurnPromptAttachment) : Z :=
  match str_find t (placeholder a) with
  | Some offset => Z.of_nat offset
  | None => usize_max
  end.

(** The loop over the ordered attachments: the parts so far, the orphans so
    far and the remaining text. *)
Fixpoint split_parts_loop (ordered : list TurnPromptAttachment)
    (parts : list TurnPromptContentPart) (orphans : list TurnPromptAttachment)
    (remaining_text : str)
  : option (list TurnPromptContentPart * list TurnPromptAttachment * str) :=
  match ordered with
  | [] => Some (parts, orphans, remaining_text)
  | a :: rest =>
      match str_find remaining_text (placeholder a) with
      | Some placeholder_index =>
          '(before, after) ← split_at_byte remaining_text placeholder_index;
          let parts := if is_empty before then parts else parts ++ [PartText before] in
          '(_, remaining) ← split_at_byte after (byte_len (placeholder a));
          split_parts_loop rest (parts ++ [PartAttachment a]) orphans remaining
      | None => split_parts_loop rest parts (orphans ++ [a]) remaining_text
      end
  end.

Definition split_turn_prompt_content (t : str) (atts : list TurnPromptAttachment)
  : option (list TurnPromptContentPart) :=
  if is_empty atts then Some [PartText t]
  else
    '(parts, orphans, remaining_text) ←
      split_parts_loop (sort_by_key (placeholder_key t) atts) [] [] t;
    let parts := if is_empty remaining_text then parts else parts ++ [PartText remaining_text] in
    Some (parts ++ (PartOrphanAttachment <$> orphans)).

Definition content_parts (self : TurnPrompt) : option (list TurnPromptContentPart) :=
  split_turn_prompt_content (prompt_text self) (attachments self).

(** ** Transcript text *)

Definition missing_placeholders (self : TurnPrompt) : list str :=
  placeholder <$>
    List.filter (λ a, negb (str_contains (prompt_text self) (placeholder a))) (attachments self).

Definition transcript_text (self : TurnPrompt) : str :=
  let missing := missing_placeholders self in
  if is_empty missing then prompt_text self
  else
    let t := match last (prompt_text self) with
             | Some c => if is_whitespace c then prompt_text self else prompt_text self ++ [space]
             | None => prompt_text self
             end in
    t ++ join [space] missing.

(** ** Lemmas *)

Section rendering.
Context `{UnicodeAlnum}.

(** The rewriting, as a relation on the previous character and the rest of the
    text: a lookup is an at sign at a boundary with its longest non-empty run
    of path characters; everything else is kept. *)
Inductive Renders : option char → str → str → Prop :=
| renders_nil prev : Renders prev [] []
| renders_lookup prev q rest out :
    is_mention_boundary prev = true → q ≠ [] → forallb is_mention_query_character q = true →
    count_while is_mention_query_character rest = 0 →
    Renders (last q) rest out →
    Renders prev (prompt_at_sign :: q ++ rest) ([double_quote] ++ q ++ [double_quote] ++ out)
| renders_char prev c rest out :
    ¬ (c = prompt_at_sign ∧ is_mention_boundary prev = true
       ∧ count_while is_mention_query_character rest ≠ 0) →
    Renders (Some c) rest out → Renders prev (c :: rest) (c :: out).

Lemma count_while_take p s : forallb p (take (count_while p s) s) = true.
Proof. induction s as [|c s IH]; simpl; [done|]. case_match eqn:E; [|done]. simpl. by rewrite E. Qed.

Lemma count_while_drop p s : count_while p (drop (count_while p s) s) = 0.
Proof. induction s as [|c s IH]; simpl; [done|]. case_match eqn:E; [done|]. simpl. by rewrite E. Qed.

Lemma render_loop_renders fuel cs i output :
  i <= length cs → length cs - i <= fuel →
  ∃ out, render_prompt_loop fuel cs i output = output ++ out
    ∧ Renders (char_before cs i) (drop i cs) out.
Proof.
  revert i output. induction fuel as [|fuel IH]; intros i output Hi Hf.
  { exists []. rewrite app_nil_r, drop_ge by lia. split; [done|constructor]. }
  simpl. destruct (cs !! i) as [c|] eqn:Hc.
  2:{ apply lookup_ge_None in Hc. exists []. rewrite app_nil_r, drop_ge by lia.
      split; [done|constructor]. }
  pose proof (lookup_lt_Some _ _ _ Hc) as Hlt. rewrite (drop_S cs c i Hc).
  assert (Hkeep : ¬ (c = prompt_at_sign ∧ is_mention_boundary (char_before cs i) = true
      ∧ count_while is_mention_query_character (drop (S i) cs) ≠ 0) →
    ∃ out, render_prompt_loop fuel cs (i + 1) (output ++ [c]) = output ++ out
      ∧ Renders (char_before cs i) (c :: drop (S i) cs) out).
  { intros Hno. destruct (IH (i + 1) (output ++ [c])) as (out & -> & Hr); [lia..|].
    exists (c :: out). rewrite <- app_assoc. split; [done|]. apply renders_char; [done|].
    replace (i + 1) with (S i) in Hr by lia. simpl in Hr. by rewrite Hc in Hr. }
  destruct (N.eqb_spec c prompt_at_sign) as [->|Hne]; simpl; [|apply Hkeep; tauto].
  destruct (is_mention_boundary (char_before cs i)) eqn:Hb; simpl; [|apply Hkeep; naive_solver].
  case_bool_decide as Hend.
  { apply Hkeep. rewrite drop_ge by lia. simpl. tauto. }
  unfold scan_forward. replace (i + 1) with (S i) by lia.
  set (n := count_while is_mention_query_character (drop (S i) cs)).
  case_decide as Hn; [replace (i + 1) with (S i) in Hkeep by lia; apply Hkeep; fold n; lia|].
  replace (S i + n - S i) with n by lia. set (q := take n (drop (S i) cs)).
  assert (Hnlen : n <= length (drop (S i) cs)) by apply count_while_le.
  rewrite length_drop in Hnlen.
  destruct (IH (S i + n) (output ++ [double_quote] ++ q ++ [double_quote])) as (out & Eout & Hr); [lia..|].
  exists ([double_quote] ++ q ++ [double_quote] ++ out).
  split; [etransitivity; [exact Eout|by rewrite <- !app_assoc]|].
  rewrite <- (take_drop n (drop (S i) cs)). apply renders_lookup; try done.
  - unfold q. intros E%(f_equal length). rewrite length_take, length_drop in E. simpl in E. lia.
  - apply count_while_take.
  - apply count_while_drop.
  - rewrite drop_drop. replace (last q) with (char_before cs (S i + n)); [done|].
    destruct n as [|m] eqn:En; [lia|]. replace (S i + S m) with (S (S i + m)) by lia. simpl.
    unfold q. rewrite last_lookup, length_take, length_drop.
    replace (pred (S m `min` (length cs - S i))) with m by lia.
    rewrite lookup_take_lt, lookup_drop by lia. done.
Qed.

(** A lookup and a kept at sign exclude each other. *)
Lemma lookup_not_kept q rest (prev : option char) :
  is_mention_boundary prev = true → q ≠ [] → forallb is_mention_query_character q = true →
  ¬ ¬ (prompt_at_sign = prompt_at_sign ∧ is_mention_boundary prev = true
       ∧ count_while is_mention_query_character (q ++ rest) ≠ 0).
Proof.
  intros Hb Hq Hall Hno. apply Hno. split_and!; try done. rewrite count_while_app by done.
  destruct q; [done|simpl; lia].
Qed.

(** The run of path characters of a lookup is determined by the text. *)
Lemma lookup_run_unique q rest q' rest' :
  forallb is_mention_query_character q = true → forallb is_mention_query_character q' = true →
  count_while is_mention_query_character rest = 0 →
  count_while is_mention_query_character rest' = 0 →
  q ++ rest = q' ++ rest' → q = q' ∧ rest = rest'.
Proof.
  intros Hq Hq' Hr Hr' E.
  pose proof (count_while_app is_mention_query_character q rest Hq) as H1.
  pose proof (count_while_app is_mention_query_character q' rest' Hq') as H2.
  rewrite E in H1. apply app_inj_1; [lia|done].
Qed.

Lemma Renders_det prev s o1 o2 : Renders prev s o1 → Renders prev s o2 → o1 = o2.
Proof.
  intros H1. revert o2.
  induction H1 as [prev|prev q rest out Hb Hq Hall Hstop Hr IH|prev c rest out Hno Hr IH];
    intros o2 H2; inversion H2; subst; try done.
  - match goal with E : ?q' ++ ?r' = q ++ rest |- _ =>
      destruct (lookup_run_unique q' r' q rest) as [-> ->]; [done..|] end.
    do 3 f_equal. by apply IH.
  - exfalso. by eapply (lookup_not_kept q).
  - exfalso. by eapply (lookup_not_kept q).
  - f_equal. by apply IH.
Qed.
End rendering.

(** What a part contributes to the text, and the attachment it carries. *)
Definition part_text (p : TurnPromptContentPart) : str :=
  match p with
  | PartAttachment a => placeholder a
  | PartOrphanAttachment _ => []
  | PartText t => t
  end.

Definition part_attachment (p : TurnPromptContentPart) : list TurnPromptAttachment :=
  match p with PartAttachment a | PartOrphanAttachment a => [a] | PartText _ => [] end.

Lemma flat_map_snoc {A B} (f : A → list B) l x : flat_map f (l ++ [x]) = flat_map f l ++ f x.
Proof. rewrite flat_map_app. simpl. by rewrite app_nil_r. Qed.

(** The inline parts of [parts] and the text not yet consumed. *)
Lemma split_parts_loop_spec ordered parts orphans rem :
  Forall (λ p, part_text p ≠ [] ∨ part_attachment p ≠ []) parts →
  ∃ parts' orphans' rem',
    split_parts_loop ordered parts orphans rem = Some (parts', orphans', rem')
    ∧ flat_map part_text parts' ++ rem' = flat_map part_text parts ++ rem
    ∧ flat_map part_attachment parts' ++ orphans'
        ≡ₚ flat_map part_attachment parts ++ orphans ++ ordered
    ∧ Forall (λ p, part_text p ≠ [] ∨ part_attachment p ≠ []) parts'
    ∧ (Forall (λ p, ¬ ∃ a, p = PartOrphanAttachment a) parts →
       Forall (λ p, ¬ ∃ a, p = PartOrphanAttachment a) parts').
Proof.
  revert parts orphans rem. induction ordered as [|a ordered IH]; intros parts orphans rem Hne; simpl.
  { exists parts, orphans, rem. by rewrite app_nil_r. }
  destruct (str_find rem (placeholder a)) as [k|] eqn:E.
  - apply str_find_Some in E as (pre & post & -> & <-). rewrite split_at_byte_app. simpl.
    rewrite split_at_byte_app. simpl.
    set (parts1 := if is_empty pre then parts else parts ++ [PartText pre]).
    assert (Ht : flat_map part_text parts1 = flat_map part_text parts ++ pre).
    { unfold parts1. destruct pre; simpl; [by rewrite app_nil_r|by rewrite flat_map_snoc]. }
    assert (Ha : flat_map part_attachment parts1 = flat_map part_attachment parts).
    { unfold parts1. destruct pre; simpl; [done|]. by rewrite flat_map_snoc, app_nil_r. }
    destruct (IH (parts1 ++ [PartAttachment a]) orphans post) as (p' & o' & r' & -> & Htext & Hperm & Hf & Ho).
    { apply Forall_app. split; [|rewrite Forall_singleton; by right]. unfold parts1.
      destruct pre; [done|]. apply Forall_app; split; [done|rewrite Forall_singleton; by left]. }
    exists p', o', r'. split_and!; [done| | |done|].
    + rewrite Htext, flat_map_snoc, Ht. by rewrite <- !app_assoc.
    + rewrite Hperm, flat_map_snoc, Ha. simpl. rewrite <- !app_assoc. apply Permutation_app_head.
      simpl. by rewrite Permutation_middle.
    + intros Hno. apply Ho, Forall_app. split; [|rewrite Forall_singleton; naive_solver]. unfold parts1.
      destruct pre; [done|]. apply Forall_app; split; [done|rewrite Forall_singleton; naive_solver].
  - destruct (IH parts (orphans ++ [a]) rem Hne) as (p' & o' & r' & -> & Htext & Hperm & Hf & Ho).
    exists p', o', r'. split_and!; try done. rewrite Hperm. by rewrite <- !app_assoc.
Qed.

Lemma flat_map_elem {A} (f : A → str) l x :
  x ∈ l → ∃ pre post, flat_map f l = pre ++ f x ++ post.
Proof.
  intros (l1 & l2 & ->)%list_elem_of_split. exists (flat_map f l1), (flat_map f l2).
  by rewrite flat_map_app.
Qed.

Lemma join_elem sep (parts : list str) p : p ∈ parts → ∃ pre post, join sep parts = pre ++ p ++ post.
Proof.
  induction parts as [|q parts IH]; [set_solver|]. intros [->|Hp]%elem_of_cons.
  - exists []. destruct parts; [exists []; by rewrite app_nil_r|]. simpl. eauto.
  - destruct parts as [|r parts]; [set_solver|]. destruct (IH Hp) as (pre & post & E).
    exists (q ++ sep ++ pre), post. cbn [join] in *. rewrite E. by rewrite <- !app_assoc.
Qed.

(** ** Properties *)

(** the index loop that prepares a prompt for the agent computes the lookup
    rewriting, and nothing else: a quoted path for every at sign at a boundary
    followed by path characters, every other character kept; text the
    application generated is passed unchanged. *)
Theorem agent_text_rewrites `{UnicodeAlnum} (self : TurnPrompt) (out : str) :
  agent_text self = out ↔
    match text_source self with
    | SourceUserPrompt => Renders None (prompt_text self) out
    | SourceAgentData => out = prompt_text self
    end.
Proof.
  unfold agent_text. destruct (text_source self); [|split; by intros ->].
  destruct (render_loop_renders (length (prompt_text self)) (prompt_text self) 0 [])
    as (o & E & Hr); [lia..|].
  unfold render_prompt_text_for_agent. rewrite E. simpl in *. split; [by intros <-|].
  intros H2. by eapply Renders_det.
Qed.

(** splitting a prompt for transport never panics and loses nothing: the
    parts spell the text, every attachment is carried exactly once, and one
    whose placeholder is not in the text comes as an orphan. *)
Theorem content_parts_complete (self : TurnPrompt) :
  ∃ parts, content_parts self = Some parts
    ∧ flat_map part_text parts = prompt_text self
    ∧ flat_map part_attachment parts ≡ₚ attachments self
    ∧ (∀ a, a ∈ attachments self → str_contains (prompt_text self) (placeholder a) = false →
         PartOrphanAttachment a ∈ parts)
    ∧ (attachments self ≠ [] → PartText [] ∉ parts).
Proof.
  unfold content_parts, split_turn_prompt_content. set (t := prompt_text self).
  destruct (is_empty (attachments self)) eqn:E.
  { apply is_empty_true in E. eexists. split; [reflexivity|]. rewrite E. simpl. rewrite app_nil_r.
    split_and!; [done..|set_solver|done]. }
  destruct (split_parts_loop_spec (sort_by_key (placeholder_key t) (attachments self)) [] [] t)
    as (parts & orphans & rem & -> & Htext & Hperm & Hne & Hno); [constructor|]. simpl in *.
  specialize (Hno (Forall_nil_2 _)). eexists. split; [reflexivity|].
  rewrite sort_by_key_perm in Hperm.
  set (parts1 := if is_empty rem then parts else parts ++ [PartText rem]).
  assert (Ho : flat_map part_text (PartOrphanAttachment <$> orphans) = [])
    by (clear; induction orphans as [|o os IHo]; [done|]; exact IHo).
  assert (Ho' : flat_map part_attachment (PartOrphanAttachment <$> orphans) = orphans)
    by (clear; induction orphans as [|o os IHo]; [done|]; exact (f_equal (cons o) IHo)).
  assert (H1 : flat_map part_text parts1 = t ∧ flat_map part_attachment parts1 = flat_map part_attachment parts
    ∧ Forall (λ p, part_text p ≠ [] ∨ part_attachment p ≠ []) parts1).
  { unfold parts1. destruct rem; simpl.
    { rewrite app_nil_r in Htext. by split_and!. }
    rewrite !flat_map_snoc, app_nil_r, <- Htext. split_and!; [done..|].
    apply Forall_app; split; [done|rewrite Forall_singleton; by left]. }
  destruct H1 as (Ht1 & Ha1 & Hf1). rewrite !flat_map_app, Ho, Ho', Ht1, Ha1, app_nil_r.
  split_and!; [done|done| |].
  - intros a Ha Hc. rewrite <- Hperm in Ha. apply elem_of_app. right. apply list_elem_of_fmap.
    exists a. split; [done|]. apply elem_of_app in Ha as [Ha|Ha]; [exfalso|done].
    apply list_elem_of_In, in_flat_map in Ha as (p & Hp%list_elem_of_In & Hpa).
    apply not_true_iff_false in Hc. apply Hc, str_contains_true.
    destruct p as [b|b|]; simpl in Hpa; [|rewrite Forall_forall in Hno; exfalso; eapply Hno; eauto|done].
    destruct Hpa as [->|[]]. destruct (flat_map_elem part_text parts _ Hp) as (pre & post & Ep).
    exists pre, (post ++ rem). rewrite <- Htext, Ep. by rewrite <- !app_assoc.
  - intros _. rewrite elem_of_app, list_elem_of_fmap. intros [Hin|(? & ? & _)]; [|done].
    rewrite Forall_forall in Hf1. by destruct (Hf1 _ Hin).
Qed.

(** the transcript text of a prompt starts with its text, shows the
    placeholder of every attachment, and is the text itself when none is
    missing. *)
Theorem transcript_text_complete (self : TurnPrompt) :
  (∃ added, transcript_text self = prompt_text self ++ added)
  ∧ (∀ a, a ∈ attachments self → str_contains (transcript_text self) (placeholder a) = true)
  ∧ ((∀ a, a ∈ attachments self → str_contains (prompt_text self) (placeholder a) = true) →
       transcript_text self = prompt_text self).
Proof.
  assert (Hshape : missing_placeholders self = [] ∧ transcript_text self = prompt_text self
    ∨ ∃ sep, transcript_text self = prompt_text self ++ sep ++ join [space] (missing_placeholders self)).
  { unfold transcript_text. destruct (is_empty (missing_placeholders self)) eqn:E.
    - left. by apply is_empty_true in E.
    - right. repeat case_match; try (exists []; done). exists [space]. by rewrite <- app_assoc. }
  split_and!.
  - destruct Hshape as [[_ ->]|[sep ->]]; eauto. exists []. by rewrite app_nil_r.
  - intros a Ha. apply str_contains_true. destruct (str_contains (prompt_text self) (placeholder a)) eqn:Ec.
    + apply str_contains_true in Ec as (pre & post & E). destruct Hshape as [[_ ->]|[sep ->]]; [eauto|].
      rewrite E, <- !app_assoc. eauto.
    + assert (Hm : placeholder a ∈ missing_placeholders self).
      { apply list_elem_of_fmap_2, elem_of_filter_b. by rewrite Ec. }
      destruct Hshape as [[E _]|[sep ->]]; [rewrite E in Hm; set_solver|].
      destruct (join_elem [space] _ _ Hm) as (pre & post & ->).
      exists (prompt_text self ++ sep ++ pre), post. by rewrite <- !app_assoc.
  - intros Hall. destruct Hshape as [[_ ->]|_]; [done|].
    unfold transcript_text, missing_placeholders. replace (List.filter _ _) with (@nil TurnPromptAttachment); [done|].
    symmetry. induction (attachments self) as [|a l IH]; [done|]. simpl. rewrite (Hall a) by (by left). simpl.
    apply IH. intros. apply Hall. by right.
Qed.
