(* ===== verification/Json.v ===== *)
(** * JSON values

    The values of [serde_json] as a tree.  Its maps have unique keys; whether
    they keep the keys sorted or in insertion order depends on how the crate is
    built, so [Map::insert] and [Map::remove] are parameters with the laws both
    builds satisfy. *)
From S2P Require Import Prelude.

Inductive Value :=
| VNull
| VBool (b : bool)
| VNumber (text : str)
| VString (text : str)
| VArray (items : list Value)
| VObject (fields : list (str * Value)).

Definition Map : Type := list (str * Value).

(** Induction with the hypothesis on every item and every field. *)
Fixpoint Value_rect' (P : Value → Prop) (HN : P VNull) (HB : ∀ b, P (VBool b))
    (HD : ∀ t, P (VNumber t)) (HS : ∀ t, P (VString t))
    (HA : ∀ l, Forall P l → P (VArray l))
    (HO : ∀ m, Forall (λ kv, P kv.2) m → P (VObject m)) (v : Value) {struct v} : P v :=
  let rec := Value_rect' P HN HB HD HS HA HO in
  match v with
  | VNull => HN
  | VBool b => HB b
  | VNumber t => HD t
  | VString t => HS t
  | VArray l =>
      HA l ((fix go l := match l return Forall P l with
                         | [] => Forall_nil_2 P
                         | x :: l' => Forall_cons_2 P x l' (rec x) (go l')
                         end) l)
  | VObject m =>
      HO m ((fix go m := match m return Forall (λ kv, P kv.2) m with
                         | [] => Forall_nil_2 _
                         | kv :: m' => Forall_cons_2 _ kv m' (rec kv.2) (go m')
                         end) m)
  end.

(** ** Reading *)

Definition has_key (k : str) (kv : str * Value) : bool := str_eqb kv.1 k.

(** [Map::get], [contains_key], [keys]. *)
Definition map_get (k : str) (m : Map) : option Value := snd <$> list_find_b (has_key k) m.
Definition contains_key (k : str) (m : Map) : bool := bool_decide (is_Some (map_get k m)).
Definition map_keys (m : Map) : list str := m.*1.

Definition as_object (v : Value) : option Map := match v with VObject m => Some m | _ => None end.
Definition as_array (v : Value) : option (list Value) := match v with VArray l => Some l | _ => None end.
Definition as_str (v : Value) : option str := match v with VString s => Some s | _ => None end.

(** ** Writing *)

(** [values_mut] and a change of the value behind one key, in place. *)
Definition map_values (f : Value → Value) (m : Map) : Map := prod_map id f <$> m.
Definition map_alter (k : str) (f : Value → Value) (m : Map) : Map :=
  (λ kv, if has_key k kv then (kv.1, f kv.2) else kv) <$> m.

Class JsonMap := {
  map_insert : str → Value → Map → Map;
  map_remove : str → Map → Map
}.

Definition without (k : str) (m : Map) : Map := List.filter (λ kv, negb (has_key k kv)) m.

Class JsonMapLaws `{JsonMap} : Prop := {
  map_insert_new k v m : map_get k m = None → map_insert k v m ≡ₚ (k, v) :: m;
  map_insert_old k v m : is_Some (map_get k m) → map_insert k v m = map_alter k (λ _, v) m;
  map_remove_perm k m : map_remove k m ≡ₚ without k m;
  map_remove_none k m : map_get k m = None → map_remove k m = m
}.

(** [entry(k).or_insert_with(..)] followed by a change of the entry. *)
Definition map_upsert `{JsonMap} (k : str) (initial : Value) (f : Value → Value) (m : Map) : Map :=
  map_alter k f (if contains_key k m then m else map_insert k initial m).

(** Every object of a value has unique keys. *)
Inductive json_wf : Value → Prop :=
| wf_null : json_wf VNull
| wf_bool b : json_wf (VBool b)
| wf_number t : json_wf (VNumber t)
| wf_string t : json_wf (VString t)
| wf_array l : Forall json_wf l → json_wf (VArray l)
| wf_object m : NoDup (map_keys m) → Forall (λ kv, json_wf kv.2) m → json_wf (VObject m).

(** ** Laws *)

Lemma has_key_true k kv : has_key k kv = true ↔ kv.1 = k.
Proof. apply str_eqb_true. Qed.

Lemma has_key_false k kv : has_key k kv = false ↔ kv.1 ≠ k.
Proof. rewrite <- has_key_true. destruct (has_key k kv); naive_solver. Qed.

Lemma map_get_Some k m v : NoDup (map_keys m) → map_get k m = Some v ↔ (k, v) ∈ m.
Proof.
  unfold map_get, map_keys. induction m as [|[k' v'] m IH]; cbn; [set_solver|].
  rewrite NoDup_cons. intros [N ND]. unfold has_key at 1. cbn.
  destruct (str_eqb k' k) eqn:E.
  - apply str_eqb_true in E as ->. cbn. split; [intros [= ->]; by left|].
    intros [[= ->]|H]%elem_of_cons; [done|]. exfalso. apply N.
    by apply (list_elem_of_fmap_2 fst) in H.
  - rewrite IH by done. split; [by right|]. intros [[= -> ->]|H]%elem_of_cons; [|done].
    by rewrite str_eqb_refl in E.
Qed.

Lemma map_get_None k m : map_get k m = None ↔ k ∉ map_keys m.
Proof.
  unfold map_get, map_keys. induction m as [|[k' v'] m IH]; cbn; [set_solver|].
  unfold has_key at 1. cbn. destruct (str_eqb k' k) eqn:E; cbn.
  - apply str_eqb_true in E as ->. set_solver.
  - rewrite IH, not_elem_of_cons. split; [|naive_solver]. intros H. split; [|done].
    intros ->. by rewrite str_eqb_refl in E.
Qed.

Lemma contains_key_true k m : contains_key k m = true ↔ k ∈ map_keys m.
Proof.
  unfold contains_key. rewrite bool_decide_eq_true, <- not_eq_None_Some, map_get_None.
  destruct (decide (k ∈ map_keys m)); naive_solver.
Qed.

Lemma contains_key_false k m : contains_key k m = false ↔ map_get k m = None.
Proof. unfold contains_key. rewrite bool_decide_eq_false, <- not_eq_None_Some. destruct (map_get k m); naive_solver. Qed.

Lemma map_keys_values f m : map_keys (map_values f m) = map_keys m.
Proof. unfold map_keys, map_values. rewrite <- list_fmap_compose. by apply list_fmap_ext. Qed.

Lemma map_keys_alter k f m : map_keys (map_alter k f m) = map_keys m.
Proof.
  unfold map_keys, map_alter. rewrite <- list_fmap_compose. apply list_fmap_ext.
  intros i kv _. cbn. by destruct (has_key k kv).
Qed.

Lemma map_get_values k f m : map_get k (map_values f m) = f <$> map_get k m.
Proof.
  unfold map_get, map_values. induction m as [|[k' v'] m IH]; [done|]. cbn.
  unfold has_key. cbn. by destruct (str_eqb k' k).
Qed.

Lemma map_get_cons k kv m : map_get k (kv :: m) = if has_key k kv then Some kv.2 else map_get k m.
Proof. unfold map_get. cbn. by destruct (has_key k kv). Qed.

Lemma map_alter_cons k f kv m :
  map_alter k f (kv :: m) = (if has_key k kv then (kv.1, f kv.2) else kv) :: map_alter k f m.
Proof. done. Qed.

Lemma map_get_alter k f m : map_get k (map_alter k f m) = f <$> map_get k m.
Proof.
  induction m as [|kv m IH]; [done|]. rewrite map_alter_cons, !map_get_cons.
  destruct (has_key k kv) eqn:E; [|rewrite E; exact IH].
  change (has_key k (kv.1, f kv.2)) with (has_key k kv). by rewrite E.
Qed.

Lemma map_get_alter_ne k k' f m : k ≠ k' → map_get k (map_alter k' f m) = map_get k m.
Proof.
  intros Hk. induction m as [|kv m IH]; [done|]. rewrite map_alter_cons, !map_get_cons.
  destruct (has_key k' kv) eqn:E; [|by rewrite IH].
  change (has_key k (kv.1, f kv.2)) with (has_key k kv).
  destruct (has_key k kv) eqn:E2; [|exact IH].
  apply has_key_true in E, E2. congruence.
Qed.

(** A field of an altered map is an old field or the altered one. *)
Lemma elem_of_alter k f m kv :
  kv ∈ map_alter k f m → (kv ∈ m ∧ kv.1 ≠ k) ∨ ∃ v, (k, v) ∈ m ∧ kv = (k, f v).
Proof.
  intros (x & -> & Hx)%list_elem_of_fmap. destruct (has_key k x) eqn:E.
  - right. apply has_key_true in E. destruct x as [k1 v1]. cbn in *. subst. eauto.
  - left. split; [done|]. by apply has_key_false.
Qed.

Lemma map_get_perm k m m' : NoDup (map_keys m) → m ≡ₚ m' → map_get k m = map_get k m'.
Proof.
  intros ND HP. assert (NoDup (map_keys m')) as ND' by (unfold map_keys; by rewrite <- HP).
  destruct (map_get k m) as [v|] eqn:E.
  - symmetry. apply map_get_Some; [done|]. rewrite <- HP. by apply map_get_Some.
  - symmetry. apply map_get_None. apply map_get_None in E. unfold map_keys in *. by rewrite <- HP.
Qed.

Lemma without_keys k m : map_keys (without k m) = List.filter (λ x, negb (str_eqb x k)) (map_keys m).
Proof.
  unfold without, map_keys. induction m as [|[k' v'] m IH]; [done|]. cbn. unfold has_key at 1. cbn.
  destruct (str_eqb k' k); cbn; by rewrite IH.
Qed.

Lemma map_get_without k k' m : k ≠ k' → map_get k (without k' m) = map_get k m.
Proof.
  intros Hk. induction m as [|kv m IH]; [done|].
  change (without k' (kv :: m)) with (if negb (has_key k' kv) then kv :: without k' m else without k' m).
  rewrite map_get_cons. destruct (has_key k' kv) eqn:E; cbn [negb].
  - rewrite IH. destruct (has_key k kv) eqn:E2; [|done]. apply has_key_true in E, E2. congruence.
  - by rewrite map_get_cons, IH.
Qed.

Lemma map_get_without_eq k m : map_get k (without k m) = None.
Proof.
  apply map_get_None. rewrite without_keys. intros [H _]%elem_of_filter_b.
  by rewrite str_eqb_refl in H.
Qed.

Section laws.
Context `{JsonMapLaws}.

Lemma map_get_remove k k' m :
  NoDup (map_keys m) → map_get k (map_remove k' m) = if str_eqb k k' then None else map_get k m.
Proof.
  intros ND. rewrite (map_get_perm k (map_remove k' m) (without k' m)).
  - destruct (str_eqb k k') eqn:E; [apply str_eqb_true in E as ->; apply map_get_without_eq|].
    apply map_get_without. intros ->. by rewrite str_eqb_refl in E.
  - unfold map_keys. rewrite map_remove_perm. change (NoDup (map_keys (without k' m))).
    rewrite without_keys. by apply NoDup_ListNoDup, List.NoDup_filter, NoDup_ListNoDup.
  - apply map_remove_perm.
Qed.

Lemma map_remove_nodup k m : NoDup (map_keys m) → NoDup (map_keys (map_remove k m)).
Proof.
  intros ND. unfold map_keys. rewrite map_remove_perm. change (NoDup (map_keys (without k m))).
  rewrite without_keys. by apply NoDup_ListNoDup, List.NoDup_filter, NoDup_ListNoDup.
Qed.

Lemma map_insert_nodup k v m : NoDup (map_keys m) → NoDup (map_keys (map_insert k v m)).
Proof.
  intros ND. destruct (map_get k m) as [w|] eqn:E.
  - rewrite map_insert_old by eauto. by rewrite map_keys_alter.
  - unfold map_keys. rewrite map_insert_new by done. cbn. apply NoDup_cons. split; [|done].
    by apply map_get_None in E.
Qed.

Lemma map_get_insert k k' v m :
  NoDup (map_keys m) → map_get k (map_insert k' v m) = if str_eqb k k' then Some v else map_get k m.
Proof.
  intros ND. destruct (str_eqb k k') eqn:E.
  - apply str_eqb_true in E as ->. destruct (map_get k' m) as [w|] eqn:G.
    + rewrite map_insert_old by eauto. by rewrite map_get_alter, G.
    + rewrite (map_get_perm k' _ ((k', v) :: m)); [|by apply map_insert_nodup|by apply map_insert_new].
      unfold map_get. cbn. unfold has_key at 1. cbn. by rewrite str_eqb_refl.
  - assert (k ≠ k') as Hk by (intros ->; by rewrite str_eqb_refl in E).
    destruct (map_get k' m) as [w|] eqn:G.
    + rewrite map_insert_old by eauto. by apply map_get_alter_ne.
    + rewrite (map_get_perm k _ ((k', v) :: m)); [|by apply map_insert_nodup|by apply map_insert_new].
      unfold map_get. cbn. unfold has_key at 1. cbn.
      destruct (str_eqb k' k) eqn:E2; [by apply str_eqb_true in E2|done].
Qed.

(** The fields after an insertion. *)
Lemma elem_of_insert k v m kv : kv ∈ map_insert k v m → kv = (k, v) ∨ kv ∈ m.
Proof.
  destruct (map_get k m) as [w|] eqn:G.
  - rewrite map_insert_old by eauto. intros [[H1 _]|(u & _ & ->)]%elem_of_alter; auto.
  - rewrite map_insert_new by done. rewrite elem_of_cons. naive_solver.
Qed.

Lemma elem_of_remove k m kv : kv ∈ map_remove k m → kv ∈ m.
Proof. rewrite map_remove_perm. unfold without. by intros [_ H1]%elem_of_filter_b. Qed.
End laws.

(** ** Strings *)

(** The length in bytes, and [&s[..s.floor_char_boundary(offset)]]: the longest
    prefix of at most [offset] bytes. *)
Definition blen (s : str) : Z := Z.of_nat (byte_len s).

Fixpoint floor_prefix (s : str) (offset : Z) : str :=
  match s with
  | [] => []
  | c :: s' =>
      if (Z.of_nat (len_utf8 c) <=? offset)%Z
      then c :: floor_prefix s' (offset - Z.of_nat (len_utf8 c)) else []
  end.

(** The escape of one character inside a string.  It never shortens the
    character, takes at most six bytes for each of its bytes, and leaves
    printable ASCII but the quote and the backslash as it is. *)
Class JsonEscape := json_escape : char → str.

Definition plain_char (c : char) : bool :=
  ((32 <=? c) && (c <? 127) && negb (c =? 34) && negb (c =? 92))%N.

Class JsonEscapeLaws `{JsonEscape} : Prop := {
  json_escape_min c : len_utf8 c <= byte_len (json_escape c);
  json_escape_max c : byte_len (json_escape c) <= 6 * len_utf8 c;
  json_escape_plain c : plain_char c = true → json_escape c = [c]
}.

Definition json_string `{JsonEscape} (s : str) : str := [34%N] ++ flat_map json_escape s ++ [34%N].

Lemma blen_app a b : blen (a ++ b) = (blen a + blen b)%Z.
Proof. unfold blen. rewrite byte_len_app. lia. Qed.

Lemma blen_cons c s : blen (c :: s) = (Z.of_nat (len_utf8 c) + blen s)%Z.
Proof. unfold blen. rewrite byte_len_cons. lia. Qed.

Lemma floor_prefix_app s m m' :
  (m <= m')%Z → ∃ rest, floor_prefix s m' = floor_prefix s m ++ rest.
Proof.
  revert m m'. induction s as [|c s IH]; intros m m' Hm; cbn; [by exists []|].
  destruct (Z.leb_spec (Z.of_nat (len_utf8 c)) m) as [L1|L1]; [|by eexists].
  destruct (Z.leb_spec (Z.of_nat (len_utf8 c)) m') as [L2|L2]; [|lia].
  destruct (IH (m - Z.of_nat (len_utf8 c))%Z (m' - Z.of_nat (len_utf8 c))%Z) as [rest ->]; [lia|].
  by exists rest.
Qed.

Lemma floor_prefix_zero s : floor_prefix s 0 = [].
Proof.
  destruct s as [|c s]; [done|]. cbn. assert (0 < len_utf8 c).
  { unfold len_utf8. repeat case_match; lia. }
  destruct (Z.leb_spec (Z.of_nat (len_utf8 c)) 0); [lia|done].
Qed.

Lemma floor_prefix_whole s m : (blen s <= m)%Z → floor_prefix s m = s.
Proof.
  revert m. induction s as [|c s IH]; intros m Hm; [done|]. cbn.
  change (c :: s) with ([c] ++ s) in Hm. rewrite blen_app in Hm.
  assert (blen [c] = Z.of_nat (len_utf8 c)) as E by (unfold blen, byte_len; cbn; lia).
  assert (0 <= blen s)%Z by (unfold blen; lia).
  destruct (Z.leb_spec (Z.of_nat (len_utf8 c)) m); [|lia]. rewrite IH by lia. done.
Qed.

(** A prefix is cut at the end of its own bytes as well. *)
Lemma floor_prefix_idem s m : floor_prefix s (blen (floor_prefix s m)) = floor_prefix s m.
Proof.
  revert m. induction s as [|c s IH]; intros m; [done|]. cbn.
  destruct (Z.leb_spec (Z.of_nat (len_utf8 c)) m) as [L1|L1].
  - rewrite blen_cons. assert (0 <= blen (floor_prefix s (m - Z.of_nat (len_utf8 c))))%Z by (unfold blen; lia).
    destruct (Z.leb_spec (Z.of_nat (len_utf8 c))
      (Z.of_nat (len_utf8 c) + blen (floor_prefix s (m - Z.of_nat (len_utf8 c))))) as [L2|L2]; [|lia].
    rewrite Z.add_simpl_l, IH. done.
  - change (blen []) with 0%Z. pose proof (floor_prefix_zero (c :: s)) as E. exact E.
Qed.

Lemma floor_prefix_le s m m' : (m <= m')%Z → (blen (floor_prefix s m) <= blen (floor_prefix s m'))%Z.
Proof.
  intros [rest ->]%(floor_prefix_app s). rewrite blen_app. assert (0 <= blen rest)%Z by (unfold blen; lia). lia.
Qed.

Lemma floor_prefix_cut s m : ∃ rest, s = floor_prefix s m ++ rest.
Proof.
  revert m. induction s as [|c s IH]; intros m; [by exists []|]. cbn.
  destruct (_ <=? _)%Z; [|by eexists]. destruct (IH (m - Z.of_nat (len_utf8 c))%Z) as [rest E].
  exists rest. cbn. by rewrite <- E.
Qed.

Lemma floor_prefix_full s m : blen (floor_prefix s m) = blen s → floor_prefix s m = s.
Proof.
  intros E. destruct (floor_prefix_cut s m) as [rest ER]. rewrite ER in E at 2. rewrite blen_app in E.
  assert (rest = []) as -> by (apply byte_len_nil_inv; unfold blen in E; lia).
  rewrite ER at 2. by rewrite app_nil_r.
Qed.

Section escapes.
Context `{JsonEscapeLaws}.

Lemma flat_map_blen s : (blen s <= blen (flat_map json_escape s) <= 6 * blen s)%Z.
Proof.
  induction s as [|c s IH]; [done|]. cbn [flat_map]. rewrite blen_cons, blen_app.
  pose proof (json_escape_min c). pose proof (json_escape_max c). unfold blen in *. lia.
Qed.

Lemma json_string_blen s : blen (json_string s) = (2 + blen (flat_map json_escape s))%Z.
Proof. unfold json_string. rewrite !blen_app. change (blen [34%N]) with 1%Z. lia. Qed.

(** Bytes beyond the quotes bound what fits from both sides. *)
Lemma json_string_lower s : (blen s + 2 <= blen (json_string s))%Z.
Proof. rewrite json_string_blen. pose proof (flat_map_blen s). lia. Qed.

Lemma json_plain s : forallb plain_char s = true → flat_map json_escape s = s.
Proof.
  induction s as [|c s IH]; cbn; [done|]. intros [H1 H2]%andb_true_iff.
  by rewrite json_escape_plain, IH.
Qed.
End escapes.

(** Insertion order with removal that keeps it, for concrete values. *)
Module InsertionOrder.
#[export] Instance insertion_map : JsonMap := {|
  map_insert k v m := if contains_key k m then map_alter k (λ _, v) m else m ++ [(k, v)];
  map_remove := without
|}.

Lemma without_none k m : map_get k m = None → without k m = m.
Proof.
  rewrite map_get_None. unfold without, map_keys. induction m as [|[k' v'] m IH]; cbn; [done|].
  rewrite not_elem_of_cons. intros [N1 N2]. destruct (has_key k (k', v')) eqn:E; cbn.
  - apply has_key_true in E. by subst.
  - by rewrite IH.
Qed.

#[export] Instance insertion_map_laws : JsonMapLaws.
Proof.
  split; intros; cbn.
  - rewrite (proj2 (contains_key_false _ _)) by done. by rewrite Permutation_app_comm.
  - unfold contains_key. by rewrite bool_decide_true.
  - done.
  - by apply without_none.
Qed.
End InsertionOrder.
