(* ===== verification/Session.v ===== *)
(** * Session snapshots (crates/agentty/src/domain/session.rs)

    The in-memory session record with its predicates and labels, the diff size
    buckets, queued messages and the shared handles of a running worker.  The
    stack policies over a list of sessions are in [Stack]. *)
From S2P Require Import Prelude Contracts Agent Lifecycle Transcript Transient Prompt Input.

Definition SESSION_DATA_DIR : str := L".agentty".
Definition MAX_STACK_DEPTH : nat := 5.
Definition COMMITTING_PROGRESS_LABEL : str := L"Committing...".
Definition TERMINAL_CONTINUATION_PROMPT_INTRO : str :=
  L"Continue the work from this previous Agentty session.".

(** ** [SessionSize] *)

Inductive SessionSize := SizeXs | SizeS | SizeM | SizeL | SizeXl | SizeXxl.

#[global] Instance SessionSize_eq_dec : EqDecision SessionSize.
Proof. solve_decision. Defined.

Definition SessionSize_ALL : list SessionSize := [SizeXs; SizeS; SizeM; SizeL; SizeXl; SizeXxl].

Definition from_changed_line_count (changed_line_count : Z) : SessionSize :=
  (if changed_line_count <=? 10 then SizeXs
   else if changed_line_count <=? 30 then SizeS
   else if changed_line_count <=? 80 then SizeM
   else if changed_line_count <=? 200 then SizeL
   else if changed_line_count <=? 500 then SizeXl
   else SizeXxl)%Z.

(** [usize::try_from] succeeds on the 64-bit targets. *)
Definition SessionSize_from_diff (diff : str) : SessionSize :=
  let '(added_lines, deleted_lines) := line_change_counts diff in
  from_changed_line_count (u64_saturating_add added_lines deleted_lines).

Definition SessionSize_label (self : SessionSize) : str :=
  match self with
  | SizeXs => L"XS" | SizeS => L"S" | SizeM => L"M" | SizeL => L"L" | SizeXl => L"XL"
  | SizeXxl => L"XXL"
  end.

Definition SessionSize_from_str (s : str) : result SessionSize str :=
  match_str_or s
    [(L"XS", SizeXs); (L"Xs", SizeXs); (L"xs", SizeXs); (L"S", SizeS); (L"s", SizeS);
     (L"M", SizeM); (L"m", SizeM); (L"L", SizeL); (L"l", SizeL);
     (L"XL", SizeXl); (L"Xl", SizeXl); (L"xl", SizeXl);
     (L"XXL", SizeXxl); (L"Xxl", SizeXxl); (L"xxl", SizeXxl)]
    (L"Unknown session size: " ++ s).

#[global] Instance SessionSize_persisted : Persisted SessionSize SessionSize_label SessionSize_from_str.
Proof. solve_persisted. Qed.

(** ** [SessionDiffStats] *)

Inductive SessionDiffStats :=
| DiffStatsKnown (known_added_lines known_deleted_lines : Z) (has_diff : bool)
                 (session_size : SessionSize)
| DiffStatsUnknown.

Definition SessionDiffStats_from_diff (diff : str) : SessionDiffStats :=
  let '(added_lines, deleted_lines) := line_change_counts diff in
  DiffStatsKnown added_lines deleted_lines (negb (is_empty (trim diff)))
    (SessionSize_from_diff diff).

Definition diff_state (self : SessionDiffStats) : SessionDiffState :=
  match self with
  | DiffStatsKnown _ _ true _ => DiffPresent
  | DiffStatsKnown _ _ false _ => DiffEmpty
  | DiffStatsUnknown => DiffUnknown
  end.

(** ** Session actions and follow-up tasks *)

Inductive PublishBranchAction := Push | PublishPullRequest.
Inductive FollowUpTaskAction := Launch | OpenTask.
Inductive PublishedBranchSyncStatus := SyncIdle | SyncInProgress | SyncSucceeded | SyncFailed.

Record DailyActivity := mkDailyActivity { day_key : Z; session_count : Z }.

Record SessionFollowUpTask := mkFollowUpTask {
  task_id : Z;
  launched_session_id : option SessionId;
  task_position : nat;
  task_text : str
}.

Definition follow_up_action (self : SessionFollowUpTask) : FollowUpTaskAction :=
  match launched_session_id self with Some _ => OpenTask | None => Launch end.

(** ** Clarification questions (ag-protocol/src/question.rs, ag-session/src/question.rs,
    domain/question.rs) *)

Record QuestionItem := mkQuestion { options : list str; question_text : str }.

Definition QuestionItem_new (t : str) : QuestionItem := {| options := []; question_text := t |}.

Definition QuestionItem_with_options (t : str) (opts : list str) : QuestionItem :=
  {| options := opts; question_text := t |}.

Definition default_option_index (questions : list QuestionItem) (question_index : nat) : option nat :=
  item ← questions !! question_index;
  if negb (is_empty (options item)) then Some 0 else None.

Record QuestionProgress := mkProgress {
  current_index : nat;
  progress_input : InputState;
  responses : list str;
  selected_option_index : option nat
}.

(** [questions[self.current_index]] is reached only inside the bounds. *)
Definition applies_to (self : QuestionProgress) (questions : list QuestionItem) : bool :=
  if negb (length (responses self) =? current_index self)
     || (length questions <=? current_index self)
  then false
  else match selected_option_index self with
       | Some option_index =>
           match questions !! current_index self with
           | Some item => option_index <? length (options item)
           | None => false
           end
       | None => true
       end.

(** ** Queued messages *)

Record QueuedMessage := mkQueuedMessage {
  queued_order : Z;
  queued_prompt : TurnPrompt;
  queued_transcript_text : str
}.

Definition QueuedMessage_new (order : Z) (prompt : TurnPrompt) : QueuedMessage :=
  {| queued_order := order; queued_prompt := prompt;
     queued_transcript_text := transcript_text prompt |}.

(** ** [Session] *)

Record Session := mkSession {
  agent : AgentSelection;
  base_branch : str;
  controller_session_id : option SessionId;
  created_at : Z;
  draft_attachments : list TurnPromptAttachment;
  folder : str;
  follow_up_tasks : list SessionFollowUpTask;
  id : SessionId;
  in_progress_started_at : option Z;
  in_progress_total_seconds : Z;
  is_draft : bool;
  orchestration_progress : option str;
  parent_session_id : option SessionId;
  permission_mode : PermissionMode;
  personality_id : option str;
  project_name : str;
  prompt : str;
  published_upstream_ref : option str;
  questions : list QuestionItem;
  queued_messages : list QueuedMessage;
  reasoning_level_override : option ReasoningLevel;
  response_style : ResponseStyle;
  review_request : option ReviewRequest;
  role : SessionRole;
  size : SessionSize;
  speed_mode : SpeedMode;
  stats : SessionStats;
  status : SessionStatus;
  title : option str;
  transcript : option SessionTranscript;
  updated_at : Z;
  transient_messages : TransientMessageStore
}.

(** Field updates of the reducers: the status, the parent and the transient
    store of a snapshot. *)
Definition set_status (self : Session) (st : SessionStatus) : Session :=
  mkSession (agent self) (base_branch self) (controller_session_id self) (created_at self)
    (draft_attachments self) (folder self) (follow_up_tasks self) (id self)
    (in_progress_started_at self) (in_progress_total_seconds self) (is_draft self)
    (orchestration_progress self) (parent_session_id self) (permission_mode self)
    (personality_id self) (project_name self) (prompt self) (published_upstream_ref self)
    (questions self) (queued_messages self) (reasoning_level_override self)
    (response_style self) (review_request self) (role self) (size self) (speed_mode self)
    (stats self) st (title self) (transcript self) (updated_at self) (transient_messages self).

Definition set_parent (self : Session) (parent : option SessionId) : Session :=
  mkSession (agent self) (base_branch self) (controller_session_id self) (created_at self)
    (draft_attachments self) (folder self) (follow_up_tasks self) (id self)
    (in_progress_started_at self) (in_progress_total_seconds self) (is_draft self)
    (orchestration_progress self) parent (permission_mode self)
    (personality_id self) (project_name self) (prompt self) (published_upstream_ref self)
    (questions self) (queued_messages self) (reasoning_level_override self)
    (response_style self) (review_request self) (role self) (size self) (speed_mode self)
    (stats self) (status self) (title self) (transcript self) (updated_at self)
    (transient_messages self).

Definition set_transient_messages (self : Session) (store : TransientMessageStore) : Session :=
  mkSession (agent self) (base_branch self) (controller_session_id self) (created_at self)
    (draft_attachments self) (folder self) (follow_up_tasks self) (id self)
    (in_progress_started_at self) (in_progress_total_seconds self) (is_draft self)
    (orchestration_progress self) (parent_session_id self) (permission_mode self)
    (personality_id self) (project_name self) (prompt self) (published_upstream_ref self)
    (questions self) (queued_messages self) (reasoning_level_override self)
    (response_style self) (review_request self) (role self) (size self) (speed_mode self)
    (stats self) (status self) (title self) (transcript self) (updated_at self) store.

(** [messages().iter().rev().find_map(...)]. *)
Definition latest_user_prompt_position (self : Session) : option Z :=
  t ← transcript self;
  msg_position <$> list_find_b (λ m, is_prompt (msg_kind m)) (rev (messages t)).

Definition reconcile_transient_messages `{FxHasher} (self : Session) : Session :=
  match status self with
  | InProgress | Queued =>
      match latest_user_prompt_position self with
      | Some active_turn_position =>
          set_transient_messages self
            (clear_for_new_turn (transient_messages self) active_turn_position)
      | None => self
      end
  | _ => self
  end.

Definition reconcile_status_transition `{FxHasher} (self : Session) (previous_status : SessionStatus)
  : Session :=
  let self :=
    if bool_decide (previous_status = InProgress) && negb (bool_decide (status self = InProgress))
    then set_transient_messages self (retract (transient_messages self) ReviewCommentResolution).2
    else self in
  reconcile_transient_messages self.

Definition display_title (self : Session) : str := default (L"No title") (title self).
Definition is_draft_session (self : Session) : bool := is_draft self.
Definition owns_branch_changes (self : Session) : bool := SessionRole_owns_branch_changes (role self).
Definition accepts_user_turns (self : Session) : bool := SessionRole_accepts_user_turns (role self).
Definition is_managed (self : Session) : bool := SessionRole_is_managed (role self).
Definition is_stacked_child (self : Session) : bool := bool_decide (is_Some (parent_session_id self)).
Definition is_status (self : Session) (st : SessionStatus) : bool := bool_decide (status self = st).
Definition has_parent (self : Session) : bool :=
  match parent_session_id self with Some _ => true | None => false end.

Definition has_staged_drafts (self : Session) : bool :=
  is_draft_session self && is_status self Draft && negb (is_empty (prompt self)).

Definition allows_stacked_child_creation (self : Session) : bool :=
  if is_draft_session self && is_status self Draft && negb (has_parent self) then false
  else negb match status self with Merged | Done | Canceled => true | _ => false end.

Definition has_review_request (self : Session) : bool :=
  match review_request self with Some _ => true | None => false end.

Definition allows_stack_append (self : Session) : bool :=
  accepts_user_turns self && owns_branch_changes self && negb (has_parent self)
  && negb (has_review_request self) && allows_review_actions (status self).

Definition allows_fork_action (self : Session) : bool :=
  accepts_user_turns self && SessionRole_owns_branch_changes (role self) && negb (has_parent self)
  && negb (is_draft_session self) && allows_review_actions (status self).

Definition allows_review_comment_reply (self : Session) : bool :=
  accepts_user_turns self && SessionRole_owns_branch_changes (role self)
  && (allows_review_actions (status self) || is_status self Question).

Definition allows_worktree_open_action (self : Session) : bool :=
  allows_session_actions (status self)
  && (accepts_user_turns self
      || bool_decide (role self = OrchestrationWorker) && is_status self Review).

Definition can_start_staged_session (self : Session) : bool :=
  is_draft_session self && is_status self Draft && has_staged_drafts self.

Definition store_has (self : Session) (s : TransientMessageSlot) : bool :=
  match store_get (transient_messages self) s with Some _ => true | None => false end.

Definition allows_cancel_action (self : Session) : bool :=
  accepts_user_turns self
  && (is_status self InProgress
      || allows_review_actions (status self)
      || is_status self Draft
         && (is_draft_session self || bool_decide (role self = Orchestrator)
             || store_has self WorkspacePreparation)).

Definition allows_terminal_continuation (self : Session) : bool :=
  bool_decide (role self = Worker) && SessionStatus_allows_terminal_continuation (status self).

Definition trimmed_non_empty_text (value : str) : option str :=
  let trimmed := trim value in if is_empty trimmed then None else Some trimmed.

Definition non_empty_prompt (self : Session) : option str := trimmed_non_empty_text (prompt self).

(** The outer [option] is the panic of [replay_text]. *)
Definition non_empty_transcript (self : Session) : option (option str) :=
  match transcript self with
  | None => Some None
  | Some t => r ← replay_text t; Some (r ≫= trimmed_non_empty_text)
  end.

Definition continuation_context (self : Session) : option (option (str * str)) :=
  t ← non_empty_transcript self;
  Some match t with
       | Some t => Some (L"Previous session transcript", t)
       | None => (λ p, (L"Previous session prompt", p)) <$> non_empty_prompt self
       end.

Definition continuation_prompt_seed (self : Session) : option (option str) :=
  if negb (allows_terminal_continuation self) then Some None
  else
    context ← continuation_context self;
    Some (option_map (λ '(label, body),
      TERMINAL_CONTINUATION_PROMPT_INTRO ++ [newline; newline] ++ L"Previous session: "
      ++ display_title self ++ [newline] ++ L"Project: " ++ project_name self ++ [newline]
      ++ L"Status: " ++ SessionStatus_display (status self) ++ [newline; newline]
      ++ label ++ L":" ++ [newline] ++ body ++ [newline]) context).

Definition has_in_progress_timer (self : Session) : bool :=
  (0 <? in_progress_total_seconds self)%Z
  || match in_progress_started_at self with Some _ => true | None => false end.

Definition effective_reasoning_level (self : Session) : ReasoningLevel :=
  default ReasoningLevel_default (reasoning_level_override self).

Definition in_progress_duration_seconds (self : Session) (wall_clock_unix_seconds : Z) : Z :=
  let open_interval_seconds :=
    match in_progress_started_at self with
    | Some started_at => Z.max (i64_saturating_sub wall_clock_unix_seconds started_at) 0
    | None => 0%Z
    end in
  i64_saturating_add (in_progress_total_seconds self) open_interval_seconds.

Definition forge_indicator (self : Session) : str :=
  match review_request self with
  | Some request =>
      match request_state (summary request) with
      | RequestOpen => L"⊙ " ++ display_id (summary request)
      | RequestMerged => L"✓ " ++ display_id (summary request)
      | RequestClosed => L"✗ " ++ display_id (summary request)
      end
  | None => match published_upstream_ref self with Some _ => L"↑" | None => [] end
  end.

Definition can_sync_review_request (self : Session) : bool :=
  let has_forge_context :=
    match published_upstream_ref self with Some _ => true | None => false end
    || has_review_request self in
  has_forge_context && match status self with Review | AgentReview => true | _ => false end.

Definition publish_pull_request_action (self : Session) : option PublishBranchAction :=
  let is_publish_active :=
    match store_get (transient_messages self) BranchPublish with
    | Some message => is_pending_indicator (body message)
    | None => false
    end in
  if accepts_user_turns self && owns_branch_changes self
     && (allows_review_actions (status self)
         || match status self with InProgress | Rebasing => true | _ => false end)
     && negb is_publish_active
  then Some PublishPullRequest else None.

Definition follow_up_task (self : Session) (pos : nat) : option SessionFollowUpTask :=
  list_find_b (λ task, task_position task =? pos) (follow_up_tasks self).

(** ** [SessionHandles]

    The shared worker state behind its locks, which are not poisoned; each
    definition is one critical section.  The cancellation token, the child
    process id and the branch lock have no operation here. *)

Record SessionHandles := mkHandles {
  handles_queued_actions : TransientMessageStore;
  handles_queued_messages : list QueuedMessage;
  queued_work_sequence : Z;
  handles_status : SessionStatus;
  handles_transcript : SessionTranscript;
  transcript_is_hydrated : bool
}.

Definition SessionHandles_new `{FxHasher} (st : SessionStatus) : SessionHandles :=
  {| handles_queued_actions := TransientMessageStore_default; handles_queued_messages := [];
     queued_work_sequence := 0; handles_status := st;
     handles_transcript := SessionTranscript_default; transcript_is_hydrated := true |}.

Definition SessionHandles_new_unloaded `{FxHasher} (st : SessionStatus) : SessionHandles :=
  {| handles_queued_actions := TransientMessageStore_default; handles_queued_messages := [];
     queued_work_sequence := 0; handles_status := st;
     handles_transcript := SessionTranscript_default; transcript_is_hydrated := false |}.

Definition SessionHandles_new_with_transcript `{FxHasher} (st : SessionStatus)
    (t : SessionTranscript) : SessionHandles :=
  {| handles_queued_actions := TransientMessageStore_default; handles_queued_messages := [];
     queued_work_sequence := 0; handles_status := st;
     handles_transcript := t; transcript_is_hydrated := true |}.

(** One iteration of the loop of [merge_unloaded_transcript]. *)
Definition merge_live_message (ms : list SessionMessage) (live : SessionMessage)
  : list SessionMessage :=
  match list_find_b (λ m, msg_position m =? msg_position live)%Z ms with
  | Some loaded =>
      if bool_decide (loaded = live) then ms
      else
        let next_position := match last ms with
                             | None => 0%Z
                             | Some m => i64_saturating_add (msg_position m) 1
                             end in
        ms ++ [mkMessage (content live) (msg_kind live) next_position]
  | None => ms ++ [live]
  end.

Definition merge_unloaded_transcript `{FxHasher} (loaded live : SessionTranscript)
  : SessionTranscript :=
  SessionTranscript_new (fold_left merge_live_message (messages live) (messages loaded)).

Definition transcript_snapshot_with_loaded `{FxHasher} (self : SessionHandles)
    (loaded : option SessionTranscript) : option SessionTranscript * SessionHandles :=
  let self :=
    match transcript_is_hydrated self, loaded with
    | false, Some loaded =>
        {| handles_queued_actions := handles_queued_actions self;
           handles_queued_messages := handles_queued_messages self;
           queued_work_sequence := queued_work_sequence self;
           handles_status := handles_status self;
           handles_transcript := merge_unloaded_transcript loaded (handles_transcript self);
           transcript_is_hydrated := true |}
    | _, _ => self
    end in
  (if SessionTranscript_is_empty (handles_transcript self) then None
   else Some (handles_transcript self), self).

(** [AtomicU64::fetch_add] returns the old value and wraps around. *)
Definition next_queued_work_order (self : SessionHandles) : Z * SessionHandles :=
  (queued_work_sequence self,
   {| handles_queued_actions := handles_queued_actions self;
      handles_queued_messages := handles_queued_messages self;
      queued_work_sequence := u64_wrapping_add (queued_work_sequence self) 1;
      handles_status := handles_status self;
      handles_transcript := handles_transcript self;
      transcript_is_hydrated := transcript_is_hydrated self |}).

Definition queued_message_snapshot (self : SessionHandles) : list QueuedMessage :=
  handles_queued_messages self.

Definition set_queued_actions (self : SessionHandles) (store : TransientMessageStore)
  : SessionHandles :=
  {| handles_queued_actions := store;
     handles_queued_messages := handles_queued_messages self;
     queued_work_sequence := queued_work_sequence self;
     handles_status := handles_status self;
     handles_transcript := handles_transcript self;
     transcript_is_hydrated := transcript_is_hydrated self |}.

Definition upsert_queued_action `{FxHasher} (self : SessionHandles) (message : TransientMessage)
  : SessionHandles := set_queued_actions self (upsert (handles_queued_actions self) message).

Definition resolve_queued_action `{FxHasher} (self : SessionHandles) (s : TransientMessageSlot)
  : SessionHandles := set_queued_actions self (retract (handles_queued_actions self) s).2.

Definition clear_queued_actions `{FxHasher} (self : SessionHandles) : SessionHandles :=
  set_queued_actions self TransientMessageStore_default.

Definition queued_action_snapshot (self : SessionHandles) : list TransientMessage :=
  store_messages (handles_queued_actions self).

(** ** Lemmas *)

Section session.
Context `{FxHasher}.

Lemma reconcile_transient_store self :
  transient_messages (reconcile_transient_messages self)
  = match status self, latest_user_prompt_position self with
    | (InProgress | Queued), Some p => clear_for_new_turn (transient_messages self) p
    | _, _ => transient_messages self
    end.
Proof. unfold reconcile_transient_messages. by repeat case_match. Qed.

Lemma reconcile_transient_wf self :
  wf_store (transient_messages self) → wf_store (transient_messages (reconcile_transient_messages self)).
Proof.
  intros Hwf. rewrite reconcile_transient_store. repeat case_match; try done; by apply clear_for_new_turn_wf.
Qed.

(** Positions [0, 1, ..., n - 1] in order. *)
Definition contiguous (ms : list SessionMessage) : Prop :=
  msg_position <$> ms = Z.of_nat <$> seq 0 (length ms).

Lemma contiguous_lookup (ms : list SessionMessage) (i : nat) m :
  contiguous ms → ms !! i = Some m → msg_position m = Z.of_nat i.
Proof.
  intros Hc Hi. pose proof (lookup_lt_Some _ _ _ Hi) as Hlt.
  apply (f_equal (λ l, l !! i)) in Hc. rewrite !list_lookup_fmap, Hi, lookup_seq_lt in Hc by done.
  by simplify_eq/=.
Qed.

Lemma contiguous_snoc ms m :
  contiguous (ms ++ [m]) ↔ contiguous ms ∧ msg_position m = Z.of_nat (length ms).
Proof.
  unfold contiguous. rewrite length_app, seq_app, !fmap_app. simpl. split.
  - intros [? E]%app_inj_2; [|done]. by simplify_eq.
  - intros [-> ->]. done.
Qed.

Lemma contiguous_sorted ms :
  contiguous ms → StronglySorted (λ a b, (msg_position a <=? msg_position b)%Z = true) ms.
Proof.
  induction ms as [|m ms IH] using rev_ind; [constructor|]. intros [Hms Hm]%contiguous_snoc.
  apply StronglySorted_app_2; [|auto|repeat constructor].
  intros x y Hx Hy%list_elem_of_singleton. subst y. apply list_elem_of_lookup in Hx as [i Hi].
  apply Z.leb_le. rewrite (contiguous_lookup _ _ _ Hms Hi), Hm. apply lookup_lt_Some in Hi. lia.
Qed.

(** One merge step on contiguous messages: found equal, or appended at the end. *)
Lemma merge_live_message_step (ms : list SessionMessage) live :
  contiguous ms → (Z.of_nat (length ms) <= i64_max)%Z →
  (0 <= msg_position live <= Z.of_nat (length ms))%Z →
  (merge_live_message ms live = ms ∧ live ∈ ms)
  ∨ ∃ m, merge_live_message ms live = ms ++ [m] ∧ contiguous (ms ++ [m])
      ∧ content m = content live ∧ msg_kind m = msg_kind live.
Proof.
  intros Hc Hmax Hp. unfold merge_live_message. destruct (list_find_b _ ms) as [x|] eqn:E.
  - apply list_find_b_Some in E as [Hx _]. case_bool_decide; [left; by subst|right].
    eexists. split; [done|]. split; [|done]. apply contiguous_snoc. split; [done|]. simpl.
    destruct ms as [|y ms _] using rev_ind; [set_solver|]. rewrite last_snoc.
    apply contiguous_snoc in Hc as [_ Hy]. rewrite Hy. rewrite length_app in *. simpl in *.
    unfold i64_saturating_add, i64_clamp, i64_min, i64_max in *. lia.
  - right. exists live. split; [done|]. split; [|done]. apply contiguous_snoc. split; [done|].
    destruct (decide (msg_position live < Z.of_nat (length ms))%Z) as [Hlt|]; [exfalso|lia].
    destruct (lookup_lt_is_Some_2 ms (Z.to_nat (msg_position live))) as [m Hm]; [lia|].
    rewrite list_find_b_None in E. specialize (E m (list_elem_of_lookup_2 _ _ _ Hm)).
    apply Z.eqb_neq in E. apply E. rewrite (contiguous_lookup _ _ _ Hc Hm). lia.
Qed.

(** The loop, with the live messages numbered from [i]. *)
Lemma merge_loop lives i ms :
  contiguous ms → i <= length ms → (Z.of_nat (length ms + length lives) <= i64_max)%Z →
  msg_position <$> lives = Z.of_nat <$> seq i (length lives) →
  ∃ added, fold_left merge_live_message lives ms = ms ++ added ∧ contiguous (ms ++ added)
    ∧ length added <= length lives
    ∧ (∀ live, live ∈ lives → ∃ m, m ∈ ms ++ added ∧ content m = content live ∧ msg_kind m = msg_kind live)
    ∧ (∀ m, m ∈ added → ∃ live, live ∈ lives ∧ content m = content live ∧ msg_kind m = msg_kind live).
Proof.
  revert i ms. induction lives as [|live lives IH]; intros i ms Hc Hi Hmax Hseq; simpl in *.
  { exists []. rewrite app_nil_r. split_and!; [done..|simpl; lia|set_solver|set_solver]. }
  injection Hseq as Hpos Hseq.
  destruct (merge_live_message_step ms live) as [[E Hin]|(m & E & Hc' & Hm & Hk)]; [done|lia|lia| |]; rewrite E.
  - destruct (IH (S i) ms) as (added & -> & Hca & Hlen & H1 & H2); [done| |lia|done|].
    { apply list_elem_of_lookup in Hin as [j Hj]. rewrite (contiguous_lookup _ _ _ Hc Hj) in Hpos.
      apply lookup_lt_Some in Hj. lia. }
    exists added. split_and!; [done|done|lia| |].
    + intros l [->|Hl]%elem_of_cons; [exists live; set_solver|auto].
    + intros x (l & ? & ?)%H2. exists l. set_solver.
  - destruct (IH (S i) (ms ++ [m])) as (added & -> & Hca & Hlen & H1 & H2);
      [done|rewrite length_app; simpl; lia|rewrite length_app; simpl; lia|done|].
    exists (m :: added). rewrite <- app_assoc in *. simpl in *. split_and!; [done|done|lia| |].
    + intros l [->|Hl]%elem_of_cons; [exists m; set_solver|]. by apply H1.
    + intros x [->|Hx]%elem_of_cons; [exists live; set_solver|].
      destruct (H2 x Hx) as (l & ? & ?). exists l. set_solver.
Qed.
End session.

(** ** Properties *)

(** reconciling a session snapshot keeps its transient store well formed
    and keeps the display order of what remains: leaving an active turn drops
    the review-comment resolution, and while a turn is active or queued every
    turn-scoped message older than the latest prompt (or with no turn) is
    dropped; nothing else is. *)
Theorem reconcile_status_transition_spec `{FxHasher} self previous :
  wf_store (transient_messages self) →
  let self' := reconcile_status_transition self previous in
  let kept := λ m, bool_decide (previous = InProgress) && negb (is_status self InProgress)
                   && has_slot ReviewCommentResolution m = false
                   ∧ match status self, latest_user_prompt_position self with
                     | (InProgress | Queued), Some p => survives_new_turn p m = true
                     | _, _ => True
                     end in
  wf_store (transient_messages self')
  ∧ (∀ m, m ∈ store_messages (transient_messages self') ↔
          m ∈ store_messages (transient_messages self) ∧ kept m)
  ∧ status self' = status self ∧ transcript self' = transcript self.
Proof.
  intros Hwf self' kept. unfold self', kept, reconcile_status_transition, is_status.
  set (left_turn := bool_decide (previous = InProgress) && negb (bool_decide (status self = InProgress))).
  set (mid := if left_turn then _ else self).
  assert (Hmid : wf_store (transient_messages mid) ∧ status mid = status self
    ∧ transcript mid = transcript self
    ∧ ∀ m, m ∈ store_messages (transient_messages mid) ↔
           m ∈ store_messages (transient_messages self)
           ∧ left_turn && has_slot ReviewCommentResolution m = false).
  { unfold mid. destruct left_turn; simpl; [|naive_solver].
    split_and!; [by apply retract_wf|done..|]. intros m. rewrite retract_elem by done.
    unfold has_slot. by rewrite bool_decide_eq_false. }
  destruct Hmid as (Hwf' & Hst & Htr & Hin). split_and!.
  - by apply reconcile_transient_wf.
  - intros m. rewrite reconcile_transient_store. unfold latest_user_prompt_position. rewrite Hst, Htr.
    destruct (status self); try (rewrite Hin; tauto);
      (case_match; [rewrite clear_for_new_turn_messages, elem_of_filter_b|]; rewrite Hin; tauto).
  - rewrite <- Hst. unfold reconcile_transient_messages. by repeat case_match.
  - rewrite <- Htr. unfold reconcile_transient_messages. by repeat case_match.
Qed.

(** hydrating a handle whose transcript was not loaded keeps every loaded
    message at its position and adds the live messages the snapshot lacks after
    them, at the next free positions: every live message's text and kind is
    in the result, nothing else is added, and positions stay contiguous. *)
Theorem hydration_merges `{FxHasher} (self : SessionHandles) (loaded : SessionTranscript) :
  transcript_is_hydrated self = false →
  contiguous (messages loaded) → contiguous (messages (handles_transcript self)) →
  (Z.of_nat (length (messages loaded) + length (messages (handles_transcript self))) <= i64_max)%Z →
  let '(snapshot, self') := transcript_snapshot_with_loaded self (Some loaded) in
  transcript_is_hydrated self' = true
  ∧ snapshot = (if is_empty (messages loaded ++ messages (handles_transcript self)) then None
                else Some (handles_transcript self'))
  ∧ ∃ added, messages (handles_transcript self') = messages loaded ++ added
    ∧ contiguous (messages (handles_transcript self'))
    ∧ (∀ live, live ∈ messages (handles_transcript self) →
         ∃ m, m ∈ messages loaded ++ added ∧ content m = content live ∧ msg_kind m = msg_kind live)
    ∧ (∀ m, m ∈ added → ∃ live, live ∈ messages (handles_transcript self)
         ∧ content m = content live ∧ msg_kind m = msg_kind live).
Proof.
  intros Hh Hl Hlive Hmax. unfold transcript_snapshot_with_loaded. rewrite Hh. simpl.
  destruct (merge_loop (messages (handles_transcript self)) 0 (messages loaded))
    as (added & E & Hc & Hlen & H1 & H2); [done|lia|done|done|].
  unfold merge_unloaded_transcript, SessionTranscript_is_empty. rewrite E. simpl.
  rewrite (sort_by_key_sorted_id _ (contiguous_sorted _ Hc)).
  split_and!; [done| |exists added; by split_and!].
  destruct (messages loaded) as [|x l]; [|done]. simpl in *.
  destruct (messages (handles_transcript self)) as [|y ls]; simpl in *.
  - destruct added; [done|simpl in *; lia].
  - destruct (H1 y) as (m & Hm & _); [by left|]. destruct added; [set_solver|done].
Qed.

(** a session offers a continuation prompt exactly when it is a finished
    worker session with visible transcript or prompt text, and computing it
    never panics. *)
Theorem continuation_prompt_seed_spec (self : Session) :
  ∃ seed, continuation_prompt_seed self = Some seed
    ∧ (is_Some seed ↔
         role self = Worker ∧ (status self = Done ∨ status self = Canceled)
         ∧ (trim (prompt self) ≠ []
            ∨ ∃ t m, transcript self = Some t ∧ m ∈ messages t ∧ trim (content m) ≠ [])).
Proof.
  unfold continuation_prompt_seed, allows_terminal_continuation.
  case_bool_decide as Hrole; simpl; [|eexists; split; [done|]; split; [by intros []|naive_solver]].
  destruct (SessionStatus_allows_terminal_continuation (status self)) eqn:Hst; simpl.
  2:{ eexists; split; [done|]. split; [by intros []|]. intros (_ & [E|E] & _); by rewrite E in Hst. }
  assert (Hst' : status self = Done ∨ status self = Canceled)
    by (destruct (status self); simpl in Hst; auto; discriminate).
  assert (Ht : ∃ r, non_empty_transcript self = Some r
    ∧ (is_Some r ↔ ∃ t m, transcript self = Some t ∧ m ∈ messages t ∧ trim (content m) ≠ [])).
  { unfold non_empty_transcript. destruct (transcript self) as [t|].
    2:{ eexists; split; [done|]. split; [by intros []|naive_solver]. }
    unfold replay_text, display_text_for_messages.
    destruct (append_messages_text_total (messages t) []) as (d & -> & Hd). simpl.
    eexists; split; [done|]. rewrite <- trim_nil in Hd. unfold non_blank.
    destruct (is_empty (trim d)) eqn:Ed; simpl.
    - apply is_empty_true in Ed. rewrite Hd in Ed. split; [by intros []|naive_solver].
    - unfold trimmed_non_empty_text. rewrite Ed. split; [intros _|done]. apply is_empty_false in Ed.
      rewrite Hd in Ed. exists t.
      destruct (decide (Exists (λ m, trim (content m) ≠ []) (messages t))) as [Hex|Hno].
      + apply Exists_exists in Hex as (m & ? & ?). by exists m.
      + exfalso. apply Ed. intros m Hm. destruct (decide (trim (content m) = [])) as [|Hne]; [done|].
        exfalso. apply Hno, Exists_exists. by exists m. }
  destruct Ht as (r & Hr & Hiff). unfold continuation_context. rewrite Hr. simpl.
  eexists; split; [done|]. rewrite <- Hiff. destruct r as [r|]; simpl; [naive_solver|].
  unfold non_empty_prompt, trimmed_non_empty_text.
  destruct (is_empty (trim (prompt self))) eqn:Ep; simpl.
  - apply is_empty_true in Ep. split; [by intros []|]. intros (_ & _ & [?|[]]); done.
  - apply is_empty_false in Ep. naive_solver.
Qed.

(** ** Witnesses *)

Definition sample_session (i : SessionId) (parent : option SessionId) (st : SessionStatus) : Session :=
  {| agent := AgentSelection_new Codex Gpt56Sol; base_branch := L"main"; controller_session_id := None;
     created_at := 0; draft_attachments := []; folder := L"/tmp/w"; follow_up_tasks := []; id := i;
     in_progress_started_at := None; in_progress_total_seconds := 0; is_draft := false;
     orchestration_progress := None; parent_session_id := parent; permission_mode := AutoEdit;
     personality_id := None; project_name := L"p"; prompt := L"fix"; published_upstream_ref := None;
     questions := []; queued_messages := []; reasoning_level_override := None;
     response_style := Balanced; review_request := None; role := Worker; size := SizeXs;
     speed_mode := Normal; stats := SessionStats_default; status := st; title := None;
     transcript := None; updated_at := 0; transient_messages := TransientMessageStore_default |}.

Lemma reconcile_status_transition_witness :
  let self := set_transient_messages (sample_session (L"a") None Review)
                (upsert TransientMessageStore_default (sample_notice Tail ReviewCommentResolution)) in
  store_messages (transient_messages (reconcile_status_transition self InProgress)) = []
  ∧ wf_store (transient_messages (reconcile_status_transition self InProgress)).
Proof.
  intros self. split; [vm_compute; reflexivity|].
  apply (reconcile_status_transition_spec self InProgress). apply upsert_wf, default_store_wf.
Defined.

Lemma hydration_merges_witness :
  let self := {| handles_queued_actions := TransientMessageStore_default;
                 handles_queued_messages := []; queued_work_sequence := 0;
                 handles_status := InProgress;
                 handles_transcript :=
                   SessionTranscript_new [mkMessage (L"notice") WorkflowNotice 0];
                 transcript_is_hydrated := false |} in
  let loaded := SessionTranscript_new [mkMessage (L"fix it") UserPrompt 0] in
  contiguous (messages (handles_transcript (transcript_snapshot_with_loaded self (Some loaded)).2)).
Proof.
  intros self loaded.
  assert (Hc : contiguous (messages loaded)) by (vm_compute; reflexivity).
  assert (Hs : contiguous (messages (handles_transcript self))) by (vm_compute; reflexivity).
  assert (Hm : (Z.of_nat (length (messages loaded) + length (messages (handles_transcript self)))
                <= i64_max)%Z) by (vm_compute; discriminate).
  pose proof (hydration_merges self loaded eq_refl Hc Hs Hm) as Hspec.
  destruct (transcript_snapshot_with_loaded self (Some loaded)) as [snap self'].
  destruct Hspec as (_ & _ & added & _ & Hcont & _). exact Hcont.
Defined.
