(* ===== verification/Protocol.v ===== *)
(** * Structured responses (crates/ag-protocol/src/model.rs, subtask.rs, verification.rs, review.rs)

    The response an agent returns for a turn, with the caps on what is taken
    from it, its display texts, and the Markdown of a focused review. *)
From S2P Require Import Prelude Prompt Session Review.

(** ** Response parts *)

Inductive ProtocolRequestProfile := ProfileFocusedReview | ProfileReviewMetadata | SessionTurn | UtilityPrompt.

Record UtilityResponse := mkUtilityResponse { utility_answer : str }.

Record ReviewMetadata := mkReviewMetadata {
  description : str;
  is_title_change_significant : bool;
  metadata_title : str
}.

Inductive ReviewCommentResolution := Fixed | NoChangeNeeded.

Record ReviewCommentOutcome := mkCommentOutcome {
  reply : str;
  resolution : ReviewCommentResolution;
  thread_id : str
}.

Inductive SubtaskKind := SubtaskImplementation | SubtaskResearch.

#[global] Instance SubtaskKind_eq_dec : EqDecision SubtaskKind.
Proof. solve_decision. Defined.

Record SubtaskItem := mkSubtask {
  sub_criteria : list str;
  sub_kind : SubtaskKind;
  sub_prompt : str;
  sub_key : str;
  sub_title : str;
  sub_areas : list str
}.

#[global] Instance SubtaskItem_eq_dec : EqDecision SubtaskItem.
Proof. solve_decision. Defined.

Inductive VerificationVerdict := Pass | Flag.

#[global] Instance VerificationVerdict_eq_dec : EqDecision VerificationVerdict.
Proof. solve_decision. Defined.

Record VerificationVerdictItem := mkVerdictItem {
  verdict_reason : str;
  verdict_key : str;
  verdict : VerificationVerdict
}.

(** ** [AgentResponse] *)

Record AgentResponse := mkAgentResponse {
  answer : str;
  response_questions : list QuestionItem;
  review_comment_outcomes : list ReviewCommentOutcome;
  subtasks : list SubtaskItem;
  verification_verdicts : list VerificationVerdictItem
}.

Definition AgentResponse_plain (text : str) : AgentResponse := mkAgentResponse text [] [] [] [].

Definition MAX_QUESTIONS : nat := 5.
Definition MAX_SUBTASKS : nat := 8.

(** [push_display_message] and [push_question_display_messages]. *)
Definition push_display_message (display_messages : list str) (t : str) : list str :=
  if is_empty (trim t) then display_messages else display_messages ++ [t].

Definition push_question_display_messages (display_messages : list str) (qs : list QuestionItem)
  : list str := fold_left push_display_message (question_text <$> qs) display_messages.

Definition blank_line : str := [newline; newline].

Definition to_display_text (self : AgentResponse) : str :=
  join blank_line (push_question_display_messages (push_display_message [] (answer self))
                     (response_questions self)).

Definition to_answer_display_text (self : AgentResponse) : str :=
  join blank_line (push_display_message [] (answer self)).

Definition answers (self : AgentResponse) : list str :=
  let a := to_answer_display_text self in if is_empty a then [] else [a].

Definition question_items (self : AgentResponse) : list QuestionItem :=
  take MAX_QUESTIONS (response_questions self).
Definition subtask_items (self : AgentResponse) : list SubtaskItem :=
  take MAX_SUBTASKS (subtasks self).
Definition verification_verdict_items (self : AgentResponse) : list VerificationVerdictItem :=
  take MAX_SUBTASKS (verification_verdicts self).

(** [response.subtasks.clear()], and the same with one question in their place. *)
Definition clear_subtasks (self : AgentResponse) : AgentResponse :=
  mkAgentResponse (answer self) (response_questions self) (review_comment_outcomes self) []
    (verification_verdicts self).
Definition ask_instead (question : QuestionItem) (self : AgentResponse) : AgentResponse :=
  mkAgentResponse (answer self) [question] (review_comment_outcomes self) []
    (verification_verdicts self).

Inductive AgentResponseParseError := ResponseEmpty | ResponseInvalidFormat (reason : str).

Definition AgentResponseParseError_display (self : AgentResponseParseError) : str :=
  match self with
  | ResponseEmpty => L"response is empty"
  | ResponseInvalidFormat reason => L"response is not valid protocol JSON: " ++ reason
  end.

(** ** Focused reviews *)

Inductive FocusedReviewSeverity := High | Medium.

Definition FocusedReviewSeverity_display (self : FocusedReviewSeverity) : str :=
  match self with High => L"High" | Medium => L"Medium" end.

Record FocusedReviewSuggestion := mkSuggestion {
  details : str;
  severity : FocusedReviewSeverity
}.

Record FocusedReview := mkFocusedReview {
  project_impact : list str;
  suggestions : list FocusedReviewSuggestion
}.

Definition markdown_bullets (items : list str) : str :=
  if is_empty items then L"- None" else join [newline] ((λ item, L"- " ++ trim item) <$> items).

Definition suggestion_line (s : FocusedReviewSuggestion) : str :=
  L"- [" ++ FocusedReviewSeverity_display (severity s) ++ L"]: " ++ trim (details s).

Definition to_markdown (self : FocusedReview) : str :=
  L"## Review" ++ blank_line ++ L"### Project Impact" ++ blank_line ++
  markdown_bullets (project_impact self) ++ blank_line ++ L"### Suggestions" ++ blank_line ++
  (if is_empty (suggestions self) then L"- None"
   else join [newline] (suggestion_line <$> suggestions self)).
