(* ===== verification/Schema.v ===== *)
(** * Response schemas (crates/ag-protocol/src/schema.rs, model.rs)

    The JSON Schema of a response as it is shown to a model, and its
    normalization for providers that enforce it.  The schema a type derives is a
    parameter. *)
From S2P Require Import Prelude Json Review Protocol.

(** ** Field descriptions *)

(** [str::split_whitespace]. *)
Fixpoint words (current s : str) : list str :=
  match s with
  | [] => if is_empty current then [] else [current]
  | c :: s' =>
      if is_whitespace c then (if is_empty current then words [] s' else current :: words [] s')
      else words (current ++ [c]) s'
  end.

Definition collapse_whitespace (text : str) : str := join [space] (words [] text).

(** The loop over the spans; a round removes a span, so [length] rounds do. *)
Fixpoint render_spans (fuel : nat) (rendered remaining : str) : str :=
  match fuel with
  | 0 => rendered ++ remaining
  | S fuel' =>
      match split_once remaining (L"{{") with
      | None => rendered ++ remaining
      | Some (before, after) =>
          match split_once (L"{{" ++ after) (L"}}") with
          | None => rendered ++ remaining
          | Some (inside, remaining') =>
              render_spans fuel' (rendered ++ before ++ collapse_whitespace (inside ++ L"}}")) remaining'
          end
      end
  end.

Definition render_field_description_template (template placeholder : str) (value : nat) : str :=
  let text := trim_end template in
  str_replace (render_spans (length text) [] text) placeholder (display_nat value).

Definition QUESTIONS_FIELD_DESCRIPTION_TEMPLATE : str :=
  join [newline]
    [L"Ordered clarification questions for this turn. Emit at most {{ max_questions }} items.";
     L"Emit an empty array when no input is required. The field defaults to an empty array when";
     L"omitted. Ask only to resolve a genuinely ambiguous requirement or blocking design";
     L"decision. Never request permission for agreed work (for example, " ++ [34%N] ++ L"Should I commit the";
     L"changes?" ++ [34%N] ++ L", " ++ [34%N] ++ L"Want me to push?" ++ [34%N] ++ L", " ++ [34%N] ++ L"Should I proceed?" ++ [34%N] ++ L", " ++ [34%N] ++ L"Ready for me to apply the fix?" ++ [34%N] ++ L"),";
     L"ask for satisfaction or sign-off (for example, " ++ [34%N] ++ L"Are you satisfied with the changes?" ++ [34%N] ++ L",";
     [34%N] ++ L"Does this look good?" ++ [34%N] ++ L", " ++ [34%N] ++ L"Anything else you want me to adjust?" ++ [34%N] ++ L"), or seek rhetorical";
     L"status confirmation. Execute agreed work and report it in `answer`.";
     []].

Definition SUBTASKS_FIELD_DESCRIPTION_TEMPLATE : str :=
  join [newline]
    [L"Child-session subtasks proposed only for an orchestrator planning turn. Emit at most {{";
     L"max_subtasks }} items. Emit an empty array when no decomposition was requested. The";
     L"field defaults to an empty array when omitted. Ordinary session and utility turns must";
     L"leave it empty, and emitted subtasks there have no effect. Each subtask runs unattended";
     L"in its own worktree from the same base branch and must be independently completable. Set";
     L"`kind` to `research` for temporary, read-only investigation whose report informs a later";
     L"planning wave; otherwise use `implementation`. For implementation tasks, `touched_areas`";
     L"is optional, best-effort guidance: when predictable, list literal repository-relative";
     L"file or directory paths without wildcards. Areas may overlap, and workers may modify";
     L"other files as required. A focused research wave may contain one task. If implementation";
     L"work has fewer than two independent subtasks, return an empty array and recommend a";
     L"regular single session in `answer` instead of one ceremonial implementation subtask.";
     []].

Definition questions_field_description : str :=
  render_field_description_template QUESTIONS_FIELD_DESCRIPTION_TEMPLATE (L"{{ max_questions }}")
    MAX_QUESTIONS.
Definition subtasks_field_description : str :=
  render_field_description_template SUBTASKS_FIELD_DESCRIPTION_TEMPLATE (L"{{ max_subtasks }}")
    MAX_SUBTASKS.

(** ** Schemas *)

Inductive SchemaRequiredPolicy := AllProperties | MinimumProtocolKeys.

#[global] Instance SchemaRequiredPolicy_eq_dec : EqDecision SchemaRequiredPolicy.
Proof. solve_decision. Defined.

(** [schemars::schema_for!] of the response type of a profile, and
    [serde_json::to_string_pretty]. *)
Class SchemaSource := {
  schema_for : ProtocolRequestProfile → Value;
  to_string_pretty : Value → str
}.

Section schemas.
Context `{JsonMap}.

(** One round of the loop over the described fields. *)
Definition describe_property (name description : str) (properties : Map) : Map :=
  match map_get name properties with
  | Some (VObject property) =>
      map_alter name (λ _, VObject (map_insert (L"description") (VString description) property)) properties
  | _ => properties
  end.

Definition inject_dynamic_schema_guidance (schema : Value) : Value :=
  match schema with
  | VObject m =>
      match map_get (L"properties") m with
      | Some (VObject properties) =>
          VObject (map_alter (L"properties") (λ _,
            VObject (describe_property (L"subtasks") subtasks_field_description
              (describe_property (L"questions") questions_field_description properties))) m)
      | _ => schema
      end
  | _ => schema
  end.

(** The inserted [false] has no values of its own, so the insertion may follow
    the loop over the values. *)
Fixpoint inject_additional_properties_false (value : Value) : Value :=
  match value with
  | VObject m =>
      let m' := map_values inject_additional_properties_false m in
      VObject
        (if contains_key (L"properties") m && negb (contains_key (L"additionalProperties") m)
         then map_insert (L"additionalProperties") (VBool false) m' else m')
  | VArray l => VArray (inject_additional_properties_false <$> l)
  | _ => value
  end.

(** [if !already_listed { push }]. *)
Definition list_key (required : list Value) (key : str) : list Value :=
  if existsb (λ v, bool_decide (as_str v = Some key)) required then required
  else required ++ [VString key].

Definition inject_minimum_required_protocol_key (schema : Value) : Value :=
  match schema with
  | VObject m =>
      VObject (map_upsert (L"required") (VArray [])
        (λ v, match v with VArray required => VArray (list_key required (L"answer")) | _ => v end) m)
  | _ => schema
  end.

(** *** Normalization *)

Definition normalize_ref_object_for_codex (m : Map) : Map :=
  match map_get (L"$ref") m with
  | Some reference => map_insert (L"$ref") reference []
  | None => m
  end.

Definition normalize_required_for_codex (m : Map) : Map :=
  match map_get (L"properties") m with
  | Some (VObject properties) =>
      if is_empty (map_keys properties) then m
      else map_upsert (L"required") (VArray [])
             (λ v, match v with
                   | VArray required => VArray (fold_left list_key (map_keys properties) required)
                   | _ => v
                   end) m
  | _ => m
  end.

(** The constants of a [oneOf] whose objects all carry one. *)
Definition one_of_values (m : Map) : option (list str) :=
  items ← map_get (L"oneOf") m ≫= as_array;
  mapM (λ item, map_get (L"const") item ≫= as_str) (omap as_object items).

Definition normalize_object (required_policy : SchemaRequiredPolicy) (m : Map) : Map :=
  let m := normalize_ref_object_for_codex m in
  let m := if bool_decide (required_policy = AllProperties) then normalize_required_for_codex m else m in
  match one_of_values m with
  | Some enum_variants =>
      map_insert (L"enum") (VArray (VString <$> enum_variants))
        (map_insert (L"type") (VString (L"string")) (map_remove (L"oneOf") m))
  | None => m
  end.

(** The value behind a removed [$schema] goes with it, so the removal may
    follow the loop over the values. *)
Fixpoint normalize_schema_for_transport (required_policy : SchemaRequiredPolicy) (value : Value) : Value :=
  match value with
  | VObject m =>
      VObject (normalize_object required_policy
        (map_remove (L"$schema") (map_values (normalize_schema_for_transport required_policy) m)))
  | VArray l => VArray (normalize_schema_for_transport required_policy <$> l)
  | _ => value
  end.

(** *** Schemas of a profile *)

Context `{SchemaSource}.

Definition focused_review_json_schema : Value :=
  inject_additional_properties_false (schema_for ProfileFocusedReview).

Definition agent_response_json_schema : Value :=
  inject_minimum_required_protocol_key
    (inject_additional_properties_false (inject_dynamic_schema_guidance (schema_for SessionTurn))).

Definition protocol_schema (profile : ProtocolRequestProfile) : Value :=
  match profile with
  | ProfileFocusedReview => focused_review_json_schema
  | SessionTurn => agent_response_json_schema
  | UtilityPrompt | ProfileReviewMetadata => schema_for profile
  end.

Definition agent_response_output_schema (required_policy : SchemaRequiredPolicy) : Value :=
  normalize_schema_for_transport required_policy agent_response_json_schema.
Definition focused_review_output_schema : Value :=
  normalize_schema_for_transport AllProperties focused_review_json_schema.
Definition protocol_output_schema (profile : ProtocolRequestProfile)
    (required_policy : SchemaRequiredPolicy) : Value :=
  normalize_schema_for_transport required_policy (protocol_schema profile).

Definition stringify_schema_json (schema : Value) : str := to_string_pretty schema.
Definition agent_response_json_schema_json : str := stringify_schema_json agent_response_json_schema.
Definition agent_response_output_schema_json (required_policy : SchemaRequiredPolicy) : str :=
  stringify_schema_json (agent_response_output_schema required_policy).
Definition focused_review_json_schema_json : str := stringify_schema_json focused_review_json_schema.
Definition protocol_json_schema_json (profile : ProtocolRequestProfile) : str :=
  stringify_schema_json (protocol_schema profile).
End schemas.

(** ** Laws *)

#[local] Arguments lit : simpl never.

(** Every object of a value satisfies [P]. *)
Inductive everywhere (P : Map → Prop) : Value → Prop :=
| everywhere_leaf v : as_object v = None → as_array v = None → everywhere P v
| everywhere_array l : Forall (everywhere P) l → everywhere P (VArray l)
| everywhere_object m : P m → Forall (λ kv, everywhere P kv.2) m → everywhere P (VObject m).

(** What providers ask of one object of a schema. *)
Record transport_ready (policy : SchemaRequiredPolicy) (m : Map) : Prop := mkTransportReady {
  ready_no_schema : map_get (L"$schema") m = None;
  ready_ref : ∀ r, map_get (L"$ref") m = Some r → m = [(L"$ref", r)];
  ready_required : policy = AllProperties → ∀ properties,
    map_get (L"properties") m = Some (VObject properties) → properties ≠ [] →
    contains_key (L"required") m = true ∧
    ∀ required, map_get (L"required") m = Some (VArray required) →
      ∀ k, k ∈ map_keys properties → VString k ∈ required;
  ready_one_of : one_of_values m = None
}.

Definition closed_object (m : Map) : Prop :=
  contains_key (L"properties") m = true → contains_key (L"additionalProperties") m = true.

(** *** Lists of required keys *)

Lemma list_key_app required key :
  ∃ ks, list_key required key = required ++ (VString <$> ks) ∧ VString key ∈ list_key required key.
Proof.
  unfold list_key. destruct (existsb _ required) eqn:E.
  - exists []. rewrite app_nil_r. split; [done|]. apply existsb_true in E as (v & Hv & E).
    apply bool_decide_eq_true in E. destruct v; simplify_eq/=. done.
  - exists [key]. split; [done|]. apply elem_of_app. right. by left.
Qed.

Lemma list_key_id required key : VString key ∈ required → list_key required key = required.
Proof.
  intros Hk. unfold list_key. destruct (existsb _ required) eqn:E; [done|].
  rewrite existsb_false in E. specialize (E _ Hk). by rewrite bool_decide_true in E.
Qed.

Lemma list_keys_app keys required :
  ∃ ks, fold_left list_key keys required = required ++ (VString <$> ks) ∧
    ∀ k, k ∈ keys → VString k ∈ fold_left list_key keys required.
Proof.
  revert required. induction keys as [|key keys IH]; intros required; cbn.
  { exists []. rewrite app_nil_r. split; [done|]. set_solver. }
  destruct (list_key_app required key) as (ks1 & E1 & H1).
  destruct (IH (list_key required key)) as (ks2 & E2 & H2). exists (ks1 ++ ks2).
  rewrite fmap_app, app_assoc, <- E1. split; [done|].
  intros k [->|Hk]%elem_of_cons; [|by apply H2]. rewrite E2. apply elem_of_app. by left.
Qed.

Lemma list_keys_id keys required :
  (∀ k, k ∈ keys → VString k ∈ required) → fold_left list_key keys required = required.
Proof.
  induction keys as [|key keys IH]; cbn; [done|]. intros HK.
  rewrite list_key_id by (apply HK; by left). apply IH. intros k Hk. apply HK. by right.
Qed.

Section normalization.
Context `{JsonMapLaws}.

(** Decides keys written as literals. *)
Local Ltac keys := repeat (change (str_eqb _ _) with false || change (str_eqb _ _) with true); cbn iota.

Lemma map_insert_empty k v : map_insert k v [] = [(k, v)].
Proof. apply Permutation_singleton_r. by apply map_insert_new. Qed.

Lemma map_alter_same k f m : (∀ v, (k, v) ∈ m → f v = v) → map_alter k f m = m.
Proof.
  intros HF. unfold map_alter. rewrite <- (list_fmap_id m) at 2. apply list_fmap_ext.
  intros i [k' v'] Hi. destruct (has_key k (k', v')) eqn:E; [|done]. apply has_key_true in E.
  cbn in *. subst. rewrite HF; [done|]. by apply list_elem_of_lookup_2 in Hi.
Qed.

(** An entry after an upsert. *)
Lemma map_get_upsert k k' initial f m :
  NoDup (map_keys m) →
  map_get k (map_upsert k' initial f m) =
    if str_eqb k k' then Some (f (default initial (map_get k m))) else map_get k m.
Proof.
  intros ND. unfold map_upsert. destruct (str_eqb k k') eqn:E.
  - apply str_eqb_true in E as ->. rewrite map_get_alter. destruct (contains_key k' m) eqn:C.
    + apply bool_decide_eq_true in C as [v G]. by rewrite G.
    + apply contains_key_false in C. rewrite map_get_insert, str_eqb_refl, C by done. done.
  - assert (k ≠ k') as Hk by (intros ->; by rewrite str_eqb_refl in E).
    rewrite map_get_alter_ne by done. destruct (contains_key k' m); [done|].
    by rewrite map_get_insert, E.
Qed.

Lemma map_upsert_nodup k initial f m : NoDup (map_keys m) → NoDup (map_keys (map_upsert k initial f m)).
Proof.
  intros ND. unfold map_upsert. rewrite map_keys_alter.
  destruct (contains_key k m); [done|by apply map_insert_nodup].
Qed.

(** A field after an upsert is an old one or the changed entry. *)
Lemma elem_of_upsert k initial f m kv :
  kv ∈ map_upsert k initial f m → kv ∈ m ∨ ∃ v, ((k, v) ∈ m ∨ v = initial) ∧ kv = (k, f v).
Proof.
  unfold map_upsert. intros [[Hkv Hk]|(v & Hv & ->)]%elem_of_alter.
  - destruct (contains_key k m); [by left|]. apply elem_of_insert in Hkv as [->|Hkv]; [done|by left].
  - right. exists v. split; [|done]. destruct (contains_key k m); [by left|].
    apply elem_of_insert in Hv as [[= ->]|Hv]; [by right|by left].
Qed.

(** *** One object *)

Lemma ref_step m :
  NoDup (map_keys m) → map_get (L"$schema") m = None →
  let m1 := normalize_ref_object_for_codex m in
  NoDup (map_keys m1) ∧ map_get (L"$schema") m1 = None ∧
  (∀ r, map_get (L"$ref") m1 = Some r → m1 = [(L"$ref", r)]) ∧ (∀ kv, kv ∈ m1 → kv ∈ m).
Proof.
  intros ND NS m1. unfold m1, normalize_ref_object_for_codex.
  destruct (map_get (L"$ref") m) as [r|] eqn:E; [|split_and!; auto; congruence].
  rewrite map_insert_empty. split_and!.
  - apply NoDup_singleton.
  - done.
  - intros r' E'. by injection E' as ->.
  - intros kv ->%list_elem_of_singleton. by apply map_get_Some.
Qed.

(** Keys other than [required] are as before, and the keys of the properties
    are listed. *)
Lemma required_step m :
  NoDup (map_keys m) →
  let m2 := normalize_required_for_codex m in
  NoDup (map_keys m2) ∧ (∀ k, str_eqb k (L"required") = false → map_get k m2 = map_get k m) ∧
  (∀ properties, map_get (L"properties") m = Some (VObject properties) → properties ≠ [] →
     contains_key (L"required") m2 = true ∧
     ∀ required, map_get (L"required") m2 = Some (VArray required) →
       ∀ k, k ∈ map_keys properties → VString k ∈ required) ∧
  (map_get (L"properties") m = None → m2 = m) ∧
  (∀ kv, kv ∈ m2 → kv ∈ m ∨ ∃ l ks, (l = [] ∨ ∃ k, (k, VArray l) ∈ m) ∧
     kv.2 = VArray (l ++ (VString <$> ks))).
Proof.
  intros ND m2. unfold m2, normalize_required_for_codex.
  destruct (map_get (L"properties") m) as [[| | | | |properties]|] eqn:E;
    try by (split_and!; [done|done|intros ? [=]|done|by left]).
  destruct (is_empty (map_keys properties)) eqn:EE.
  { split_and!; [done|done| |done|by left]. intros ps [= ->] HP. apply is_empty_true in EE.
    by apply fmap_nil_inv in EE. }
  split_and!.
  - by apply map_upsert_nodup.
  - intros k Hk. by rewrite map_get_upsert, Hk.
  - intros ps [= ->] _. assert (map_get (L"required") (map_upsert (L"required") (VArray [])
      (λ v, match v with VArray required => VArray (fold_left list_key (map_keys ps) required) | _ => v end) m)
      = Some (match default (VArray []) (map_get (L"required") m) with
              | VArray required => VArray (fold_left list_key (map_keys ps) required) | v => v end)) as G
      by (rewrite map_get_upsert, str_eqb_refl by done; by destruct (default _ _)).
    split; [apply bool_decide_eq_true; eauto|]. intros required. rewrite G.
    destruct (default _ _) as [| | | |l|]; [done..| |done]. intros [= <-] k Hk.
    destruct (list_keys_app (map_keys ps) l) as (_ & _ & HL). by apply HL.
  - done.
  - intros kv [Hkv|(v & Hv & ->)]%elem_of_upsert; [by left|]. cbn.
    destruct v as [| | | |l|]; try by (destruct Hv as [Hv|[=]]; left).
    right. destruct (list_keys_app (map_keys properties) l) as (ks & EK & _). exists l, ks.
    split; [|by f_equal]. destruct Hv as [Hv|[= ->]]; eauto.
Qed.

Lemma contains_key_get k m m' : map_get k m = map_get k m' → contains_key k m = contains_key k m'.
Proof. unfold contains_key. by intros ->. Qed.

(** The rewritten [oneOf] leaves the keys the other rules look at. *)
Lemma enum_step m variants :
  NoDup (map_keys m) →
  let m3 := map_insert (L"enum") variants
              (map_insert (L"type") (VString (L"string")) (map_remove (L"oneOf") m)) in
  NoDup (map_keys m3) ∧ map_get (L"oneOf") m3 = None ∧
  (∀ k, existsb (str_eqb k) [L"enum"; L"type"; L"oneOf"] = false → map_get k m3 = map_get k m) ∧
  (∀ kv, kv ∈ m3 → kv ∈ m ∨ kv.2 = variants ∨ kv.2 = VString (L"string")).
Proof.
  intros ND m3. assert (NoDup (map_keys (map_remove (L"oneOf") m))) as N1 by by apply map_remove_nodup.
  assert (NoDup (map_keys (map_insert (L"type") (VString (L"string")) (map_remove (L"oneOf") m)))) as N2
    by by apply map_insert_nodup. split_and!.
  - by apply map_insert_nodup.
  - unfold m3. rewrite !map_get_insert, map_get_remove, str_eqb_refl by done. done.
  - intros k Hk. cbn [existsb] in Hk. unfold m3. rewrite !map_get_insert, map_get_remove by done.
    destruct (str_eqb k (L"enum")), (str_eqb k (L"type")), (str_eqb k (L"oneOf")); done.
  - intros kv [->|[->|Hkv%elem_of_remove]%elem_of_insert]%elem_of_insert; auto.
Qed.

Lemma one_of_values_None m : map_get (L"oneOf") m = None → one_of_values m = None.
Proof. unfold one_of_values. by intros ->. Qed.

(** The object with its required keys listed, before [oneOf] is rewritten. *)
Definition listed (policy : SchemaRequiredPolicy) (m : Map) : Map :=
  let m := normalize_ref_object_for_codex m in
  if bool_decide (policy = AllProperties) then normalize_required_for_codex m else m.

Lemma listed_ready policy m :
  NoDup (map_keys m) → map_get (L"$schema") m = None →
  let m2 := listed policy m in
  NoDup (map_keys m2) ∧
  (one_of_values m2 = None → transport_ready policy m2) ∧ map_get (L"$schema") m2 = None ∧
  (is_Some (map_get (L"oneOf") m2) → map_get (L"$ref") m2 = None) ∧
  (policy = AllProperties → ∀ properties,
    map_get (L"properties") m2 = Some (VObject properties) → properties ≠ [] →
    contains_key (L"required") m2 = true ∧
    ∀ required, map_get (L"required") m2 = Some (VArray required) →
      ∀ k, k ∈ map_keys properties → VString k ∈ required) ∧
  (∀ kv, kv ∈ m2 → kv ∈ m ∨ ∃ l ks, (l = [] ∨ ∃ k, (k, VArray l) ∈ m) ∧
     kv.2 = VArray (l ++ (VString <$> ks))).
Proof.
  intros ND NS m2. destruct (ref_step m ND NS) as (N1 & S1 & R1 & F1).
  destruct (required_step _ N1) as (N2 & G2 & L2 & K2 & F2). unfold m2, listed.
  set (m1 := normalize_ref_object_for_codex m) in *.
  assert (∀ r, map_get (L"$ref") m1 = Some r → normalize_required_for_codex m1 = m1) as HR.
  { intros r E. apply K2. by rewrite (R1 r E). }
  assert (is_Some (map_get (L"oneOf") m1) → map_get (L"$ref") m1 = None) as HO.
  { intros [v Hv]. destruct (map_get (L"$ref") m1) as [r|] eqn:E; [|done]. by rewrite (R1 r eq_refl) in Hv. }
  case_bool_decide as P; cbn zeta.
  - split_and!; [done| | | |intros _; by rewrite (G2 (L"properties")) by done|].
    + intros O. split; [by rewrite G2| | |done].
      * intros r E. rewrite G2 in E by done. rewrite (HR r E). by apply R1.
      * intros _ ps E. rewrite G2 in E by done. by apply L2.
    + by rewrite G2.
    + by rewrite !G2.
    + intros kv [Hkv|(l & ks & Hl & E)]%F2; [left; by apply F1|]. right. exists l, ks.
      split; [|done]. destruct Hl as [->|[k Hk]]; [by left|right; exists k; by apply F1].
  - split_and!; [done| |done|done|done|intros kv Hkv; left; by apply F1].
    intros O. split; [done|done|done|done].
Qed.

Lemma normalize_object_ready policy m :
  NoDup (map_keys m) → map_get (L"$schema") m = None →
  let m' := normalize_object policy m in
  NoDup (map_keys m') ∧ transport_ready policy m' ∧
  (∀ kv, kv ∈ m' → kv ∈ m ∨ kv.2 = VString (L"string") ∨ ∃ l ks, (l = [] ∨ ∃ k, (k, VArray l) ∈ m) ∧
     kv.2 = VArray (l ++ (VString <$> ks))).
Proof.
  intros ND NS m'. unfold m', normalize_object. cbv zeta. fold (listed policy m).
  destruct (listed_ready policy m ND NS) as (N2 & T2 & S2 & O2 & L2 & F2).
  set (m2 := listed policy m) in *. destruct (one_of_values m2) as [variants|] eqn:O.
  2:{ split_and!; [done|by apply T2|]. intros kv [Hkv|Hkv]%F2; auto. }
  destruct (enum_step m2 (VArray (VString <$> variants)) N2) as (N3 & G3 & K3 & F3).
  assert (map_get (L"$ref") m2 = None) as NR.
  { apply O2. unfold one_of_values in O. destruct (map_get (L"oneOf") m2); [done|discriminate]. }
  split_and!; [done| |].
  - split; [by rewrite K3| | |by apply one_of_values_None].
    + intros r. by rewrite K3, NR.
    + intros P ps. rewrite (K3 (L"properties")) by done.
      rewrite (contains_key_get (L"required") _ m2), (K3 (L"required")) by (try apply K3; done).
      by apply L2.
  - intros kv [Hkv|[E|E]]%F3; [apply F2 in Hkv as [Hkv|Hkv]; auto| |auto].
    right. right. exists [], variants. split; [by left|done].
Qed.

(** *** Whole schemas *)

Lemma normalize_fields (Q : Value → Prop) policy m :
  (∀ t, Q (VString t)) → Q (VArray []) → (∀ l ks, Q (VArray l) → Q (VArray (l ++ (VString <$> ks)))) →
  NoDup (map_keys m) → map_get (L"$schema") m = None →
  Forall (λ kv, Q kv.2) m → Forall (λ kv, Q kv.2) (normalize_object policy m).
Proof.
  intros QS QN QA ND NS HQ. rewrite Forall_forall in *. intros kv Hkv.
  destruct (normalize_object_ready policy m ND NS) as (_ & _ & HF).
  apply HF in Hkv as [Hkv|[->|(l & ks & Hl & ->)]]; [by apply HQ|apply QS|]. apply QA.
  destruct Hl as [->|[k Hk]]; [done|]. exact (HQ _ Hk).
Qed.

(** The object a node is normalized from. *)
Lemma normalized_input policy m :
  NoDup (map_keys m) →
  let m0 := map_remove (L"$schema") (map_values (normalize_schema_for_transport policy) m) in
  NoDup (map_keys m0) ∧ map_get (L"$schema") m0 = None ∧
  ∀ Q : Value → Prop, Forall (λ kv, Q (normalize_schema_for_transport policy kv.2)) m →
    Forall (λ kv, Q kv.2) m0.
Proof.
  intros ND m0. assert (NoDup (map_keys (map_values (normalize_schema_for_transport policy) m))) as N1
    by by rewrite map_keys_values.
  split_and!.
  - by apply map_remove_nodup.
  - unfold m0. rewrite map_get_remove, str_eqb_refl by done. done.
  - intros Q HQ. rewrite Forall_forall in *. intros kv Hkv%elem_of_remove.
    apply list_elem_of_fmap in Hkv as (x & -> & Hx). by apply HQ.
Qed.

Lemma wf_append l ks : json_wf (VArray l) → json_wf (VArray (l ++ (VString <$> ks))).
Proof.
  intros W. inversion W as [| | | |l' HF|]; subst. constructor. apply Forall_app. split; [done|].
  apply Forall_fmap, Forall_true. intros k. apply wf_string.
Qed.

Lemma everywhere_append P l ks :
  everywhere P (VArray l) → everywhere P (VArray (l ++ (VString <$> ks))).
Proof.
  intros W. apply everywhere_array. apply Forall_app. split.
  - by inversion W as [v E1 E2|l' HF|]; subst.
  - apply Forall_fmap, Forall_true. intros k. by apply everywhere_leaf.
Qed.

Lemma normalized_ready policy v :
  json_wf v →
  json_wf (normalize_schema_for_transport policy v) ∧
  everywhere (transport_ready policy) (normalize_schema_for_transport policy v).
Proof.
  induction v as [|b|t|t|l IH|m IH] using Value_rect'; intros W; cbn;
    try by (split; [constructor|by apply everywhere_leaf]).
  - inversion W as [| | | |l' HF|]; subst.
    assert (Forall (λ x, json_wf (normalize_schema_for_transport policy x) ∧
      everywhere (transport_ready policy) (normalize_schema_for_transport policy x)) l) as HA
      by (rewrite Forall_forall in *; auto).
    split; [constructor|apply everywhere_array]; apply Forall_fmap; (eapply Forall_impl; [exact HA|]); naive_solver.
  - inversion W as [| | | | |m' ND HF]; subst.
    destruct (normalized_input policy m ND) as (N0 & S0 & F0).
    set (m0 := map_remove _ _) in *.
    destruct (normalize_object_ready policy m0 N0 S0) as (N1 & R1 & _).
    assert (Forall (λ kv, json_wf (normalize_schema_for_transport policy kv.2) ∧
      everywhere (transport_ready policy) (normalize_schema_for_transport policy kv.2)) m) as HA
      by (rewrite Forall_forall in *; auto).
    split; [apply wf_object|apply everywhere_object]; try done.
    + apply normalize_fields; auto using wf_string, wf_append; [by constructor|].
      apply (F0 json_wf). eapply Forall_impl; [exact HA|]. naive_solver.
    + apply normalize_fields; auto using everywhere_append; [by intros; apply everywhere_leaf| |].
      { by apply everywhere_array. }
      apply (F0 (everywhere (transport_ready policy))). eapply Forall_impl; [exact HA|]. naive_solver.
Qed.

Lemma ready_object policy m :
  NoDup (map_keys m) → transport_ready policy m → normalize_object policy m = m.
Proof.
  intros ND [NS RR RL RO]. unfold normalize_object. cbv zeta.
  assert (normalize_ref_object_for_codex m = m) as E1.
  { unfold normalize_ref_object_for_codex. destruct (map_get (L"$ref") m) as [r|] eqn:E; [|done].
    rewrite map_insert_empty. by rewrite (RR r). }
  rewrite E1. assert ((if bool_decide (policy = AllProperties)
    then normalize_required_for_codex m else m) = m) as E2; [|by rewrite E2, RO].
  case_bool_decide as P; [|done]. unfold normalize_required_for_codex.
  destruct (map_get (L"properties") m) as [[| | | | |ps]|] eqn:E; try done.
  destruct (is_empty (map_keys ps)) eqn:EE; [done|].
  destruct (RL P ps eq_refl) as [RC RK]; [by intros ->|]. unfold map_upsert. rewrite RC.
  apply map_alter_same. intros v Hv. destruct v as [| | | |l|]; try done. f_equal.
  apply list_keys_id, RK. by apply map_get_Some.
Qed.

Lemma ready_fixed policy v :
  json_wf v → everywhere (transport_ready policy) v → normalize_schema_for_transport policy v = v.
Proof.
  induction v as [|b|t|t|l IH|m IH] using Value_rect'; intros W R; cbn; try done.
  - inversion W as [| | | |l' HW|]; subst. inversion R as [v E1 E2|l' HR|]; subst; [done|].
    f_equal. rewrite <- (list_fmap_id l) at 2. apply list_fmap_ext. intros i x Hx.
    apply list_elem_of_lookup_2 in Hx. rewrite Forall_forall in *. by apply IH; auto.
  - inversion W as [| | | | |m' ND HW]; subst. inversion R as [v E1 E2| |m' HT HR]; subst; [done|].
    f_equal. assert (map_values (normalize_schema_for_transport policy) m = m) as E.
    { unfold map_values. rewrite <- (list_fmap_id m) at 2. apply list_fmap_ext. intros i [k x] Hx.
      apply list_elem_of_lookup_2 in Hx. rewrite Forall_forall in *. cbn. unfold id. f_equal.
      exact (IH _ Hx (HW _ Hx) (HR _ Hx)). }
    rewrite E, map_remove_none by apply HT. by apply ready_object.
Qed.

(** *** Keys that stay *)

Lemma normalize_object_get policy m k :
  NoDup (map_keys m) → map_get (L"$ref") m = None →
  existsb (str_eqb k) [L"required"; L"enum"; L"type"; L"oneOf"] = false →
  map_get k (normalize_object policy m) = map_get k m.
Proof.
  intros ND NR Hk. cbn [existsb] in Hk. apply orb_false_iff in Hk as [Hk1 Hk2].
  unfold normalize_object. cbv zeta. unfold normalize_ref_object_for_codex. rewrite NR.
  destruct (required_step m ND) as (N2 & G2 & _).
  set (m2 := if bool_decide _ then _ else m).
  assert (NoDup (map_keys m2) ∧ map_get k m2 = map_get k m) as [ND2 E2]
    by (unfold m2; case_bool_decide; auto).
  destruct (one_of_values m2) as [variants|]; [|done].
  destruct (enum_step m2 (VArray (VString <$> variants)) ND2) as (_ & _ & K3 & _).
  by rewrite K3.
Qed.

Lemma normalize_object_required policy m l :
  NoDup (map_keys m) → map_get (L"$ref") m = None → map_get (L"required") m = Some (VArray l) →
  ∃ ks, map_get (L"required") (normalize_object policy m) = Some (VArray (l ++ (VString <$> ks))).
Proof.
  intros ND NR E. unfold normalize_object. cbv zeta. unfold normalize_ref_object_for_codex. rewrite NR.
  destruct (required_step m ND) as (N2 & _). set (m2 := if bool_decide _ then _ else m).
  assert (NoDup (map_keys m2) ∧ ∃ ks, map_get (L"required") m2 = Some (VArray (l ++ (VString <$> ks))))
    as [ND2 [ks E2]].
  { unfold m2. case_bool_decide; [split; [done|]|split; [done|exists []; by rewrite app_nil_r]].
    unfold normalize_required_for_codex.
    destruct (map_get (L"properties") m) as [[| | | | |ps]|]; try by (exists []; rewrite app_nil_r).
    destruct (is_empty (map_keys ps)); [by exists []; rewrite app_nil_r|].
    rewrite map_get_upsert, str_eqb_refl, E by done. cbn.
    destruct (list_keys_app (map_keys ps) l) as (ks & -> & _). by exists ks. }
  exists ks. destruct (one_of_values m2) as [variants|]; [|done].
  destruct (enum_step m2 (VArray (VString <$> variants)) ND2) as (_ & _ & K3 & _). by rewrite K3.
Qed.

Lemma normalized_input_get policy m k :
  NoDup (map_keys m) → str_eqb k (L"$schema") = false →
  map_get k (map_remove (L"$schema") (map_values (normalize_schema_for_transport policy) m)) =
  normalize_schema_for_transport policy <$> map_get k m.
Proof.
  intros ND Hk. rewrite map_get_remove, Hk by by rewrite map_keys_values. apply map_get_values.
Qed.

Lemma contains_key_fmap {f : Value → Value} k m m' :
  map_get k m' = f <$> map_get k m → contains_key k m' = contains_key k m.
Proof. unfold contains_key. intros ->. by destruct (map_get k m). Qed.

Lemma normalize_closed_object policy m :
  NoDup (map_keys m) → closed_object m →
  closed_object (normalize_object policy
    (map_remove (L"$schema") (map_values (normalize_schema_for_transport policy) m))).
Proof.
  intros ND HC. destruct (normalized_input policy m ND) as (N0 & S0 & _).
  pose proof (normalized_input_get policy m (L"properties") ND eq_refl) as GP.
  pose proof (normalized_input_get policy m (L"additionalProperties") ND eq_refl) as GA.
  set (m0 := map_remove _ _) in *. unfold closed_object.
  destruct (map_get (L"$ref") m0) as [r|] eqn:NR.
  - destruct (ref_step m0 N0 S0) as (_ & _ & R1 & _).
    intros HP. exfalso. revert HP. unfold normalize_object. cbv zeta.
    unfold normalize_ref_object_for_codex. rewrite NR, map_insert_empty.
    replace (if bool_decide (policy = AllProperties) then _ else _) with [(L"$ref", r)]
      by by case_bool_decide. done.
  - rewrite (contains_key_get (L"properties") _ m0), (contains_key_get (L"additionalProperties") _ m0)
      by by apply normalize_object_get.
    rewrite (contains_key_fmap _ _ _ GP), (contains_key_fmap _ _ _ GA). exact HC.
Qed.

Lemma normalized_closed policy v :
  json_wf v → everywhere closed_object v →
  everywhere closed_object (normalize_schema_for_transport policy v).
Proof.
  induction v as [|b|t|t|l IH|m IH] using Value_rect'; intros W C; cbn; try by apply everywhere_leaf.
  - inversion W as [| | | |l' HW|]; subst. inversion C as [v E1 E2|l' HC|]; subst; [done|].
    apply everywhere_array, Forall_fmap. rewrite Forall_forall in *. cbn. auto.
  - inversion W as [| | | | |m' ND HW]; subst. inversion C as [v E1 E2| |m' HT HC]; subst; [done|].
    destruct (normalized_input policy m ND) as (N0 & S0 & F0).
    apply everywhere_object; [by apply normalize_closed_object|].
    apply normalize_fields; auto using everywhere_append; [by intros; apply everywhere_leaf| |].
    { by apply everywhere_array. }
    apply (F0 (everywhere closed_object)). rewrite Forall_forall in *. auto.
Qed.

(** *** Schemas shown to models *)

Lemma inject_closed v :
  json_wf v → json_wf (inject_additional_properties_false v) ∧
  everywhere closed_object (inject_additional_properties_false v).
Proof.
  induction v as [|b|t|t|l IH|m IH] using Value_rect'; intros W;
    [split; [constructor|by apply everywhere_leaf]..| |]; cbn [inject_additional_properties_false].
  - inversion W as [| | | |l' HW|]; subst. rewrite Forall_forall in *.
    split; [constructor|apply everywhere_array]; apply Forall_fmap, Forall_forall; intros x Hx; by apply IH; auto.
  - inversion W as [| | | | |m' ND HW]; subst.
    set (m1 := map_values inject_additional_properties_false m).
    set (m2 := if contains_key (L"properties") m && negb (contains_key (L"additionalProperties") m)
               then map_insert (L"additionalProperties") (VBool false) m1 else m1).
    assert (NoDup (map_keys m1)) as N1 by (unfold m1; by rewrite map_keys_values).
    assert (∀ Q : Value → Prop, Q (VBool false) →
      Forall (λ kv, Q (inject_additional_properties_false kv.2)) m → Forall (λ kv, Q kv.2) m2) as HF.
    { intros Q Q0 HQ. rewrite Forall_forall in *. intros kv Hkv.
      assert (kv = (L"additionalProperties", VBool false) ∨ kv ∈ m1) as [->|Hkv']
        by (unfold m2 in Hkv; destruct (_ && _); [by apply elem_of_insert in Hkv|by right]); [done|].
      apply list_elem_of_fmap in Hkv' as (x & -> & Hx). by apply HQ. }
    split; [apply wf_object|apply everywhere_object].
    + unfold m2. destruct (_ && _); [by apply map_insert_nodup|done].
    + apply (HF json_wf); [constructor|]. rewrite Forall_forall in *. intros kv Hkv. by apply IH; auto.
    + unfold closed_object, m2.
      assert (contains_key (L"properties") m1 = contains_key (L"properties") m) as E1
        by (eapply contains_key_fmap; apply map_get_values).
      assert (contains_key (L"additionalProperties") m1 = contains_key (L"additionalProperties") m) as E2
        by (eapply contains_key_fmap; apply map_get_values).
      destruct (contains_key (L"properties") m) eqn:EP; cbn [andb].
      2:{ rewrite E1. discriminate. }
      destruct (contains_key (L"additionalProperties") m) eqn:EA; cbn [negb]; [intros _; by rewrite E2|].
      intros _. apply bool_decide_eq_true. rewrite map_get_insert, str_eqb_refl by done. eauto.
    + apply (HF (everywhere closed_object)); [by apply everywhere_leaf|].
      rewrite Forall_forall in *. intros kv Hkv. by apply IH; auto.
Qed.

Lemma wf_fields m : json_wf (VObject m) → NoDup (map_keys m) ∧ ∀ k v, map_get k m = Some v → json_wf v.
Proof.
  intros W. inversion W as [| | | | |m' ND HW]; subst. split; [done|]. intros k v G.
  apply map_get_Some in G; [|done]. rewrite Forall_forall in HW. exact (HW _ G).
Qed.

Lemma wf_alter k f m :
  json_wf (VObject m) → (∀ v, json_wf v → json_wf (f v)) → json_wf (VObject (map_alter k f m)).
Proof.
  intros W HF. inversion W as [| | | | |m' ND HW]; subst. apply wf_object; [by rewrite map_keys_alter|].
  rewrite Forall_forall in *. intros kv [[Hkv _]|(v & Hv & ->)]%elem_of_alter; [by apply HW|].
  apply HF. exact (HW _ Hv).
Qed.

Lemma wf_insert k v m : json_wf (VObject m) → json_wf v → json_wf (VObject (map_insert k v m)).
Proof.
  intros W WV. inversion W as [| | | | |m' ND HW]; subst. apply wf_object; [by apply map_insert_nodup|].
  rewrite Forall_forall in *. intros kv [->|Hkv]%elem_of_insert; [done|by apply HW].
Qed.

Lemma wf_describe name text m : json_wf (VObject m) → json_wf (VObject (describe_property name text m)).
Proof.
  intros W. unfold describe_property. destruct (map_get name m) as [[| | | | |p]|] eqn:E; try done.
  apply wf_alter; [done|]. intros _ _. apply wf_insert; [|apply wf_string].
  by apply (proj2 (wf_fields m W) name).
Qed.

(** Guidance changes the value of [properties] only. *)
Lemma guidance_object m :
  json_wf (VObject m) → ∃ m', inject_dynamic_schema_guidance (VObject m) = VObject m' ∧
    json_wf (VObject m') ∧ ∀ k, str_eqb k (L"properties") = false → map_get k m' = map_get k m.
Proof.
  intros W. unfold inject_dynamic_schema_guidance.
  destruct (map_get (L"properties") m) as [[| | | | |ps]|] eqn:E; try by (exists m).
  eexists. split; [done|]. split.
  - apply wf_alter; [done|]. intros _ _. do 2 apply wf_describe. by apply (proj2 (wf_fields m W) (L"properties")).
  - intros k Hk. apply map_get_alter_ne. intros ->. by rewrite str_eqb_refl in Hk.
Qed.

Lemma minimum_required_object m :
  json_wf (VObject m) → everywhere closed_object (VObject m) →
  let required := λ v : Value, match v with VArray l => VArray (list_key l (L"answer")) | _ => v end in
  json_wf (VObject (map_upsert (L"required") (VArray []) required m)) ∧
  everywhere closed_object (VObject (map_upsert (L"required") (VArray []) required m)).
Proof.
  intros W C required. inversion W as [| | | | |m' ND HW]; subst.
  inversion C as [v E1 E2| |m' HT HC]; subst; [done|].
  assert (∀ Q : Value → Prop, Q (VArray []) → (∀ l ks, Q (VArray l) → Q (VArray (l ++ (VString <$> ks)))) →
    Forall (λ kv, Q kv.2) m → Forall (λ kv, Q kv.2) (map_upsert (L"required") (VArray []) required m)) as HF.
  { intros Q Q0 QA HQ. rewrite Forall_forall in *. intros kv [Hkv|(v & Hv & ->)]%elem_of_upsert; [by apply HQ|].
    assert (Q v) as QV by (destruct Hv as [Hv| ->]; [exact (HQ _ Hv)|done]).
    destruct v as [| | | |l|]; try done. cbn. destruct (list_key_app l (L"answer")) as (ks & -> & _).
    by apply QA. }
  split; [apply wf_object|apply everywhere_object].
  - by apply map_upsert_nodup.
  - apply (HF json_wf); auto using wf_append. by constructor.
  - unfold closed_object. rewrite !(contains_key_get _ (map_upsert _ _ _ m) m); [done|..];
      by rewrite map_get_upsert.
  - apply (HF (everywhere closed_object)); auto using everywhere_append. by apply everywhere_array.
Qed.

(** What the derived schema of [AgentResponse] is: an object with unique keys,
    not a reference, whose required keys, if it has any, are a list. *)
Definition response_schema_shape (schema : Value) : Prop :=
  json_wf schema ∧ ∃ m, schema = VObject m ∧ map_get (L"$ref") m = None ∧
    ∀ v, map_get (L"required") m = Some v → ∃ l, v = VArray l.

Context `{SchemaSource}.

Lemma response_schema_object :
  response_schema_shape (schema_for SessionTurn) →
  ∃ m required, agent_response_json_schema = VObject m ∧ json_wf (VObject m) ∧
    everywhere closed_object (VObject m) ∧ map_get (L"$ref") m = None ∧
    map_get (L"required") m = Some (VArray required) ∧ VString (L"answer") ∈ required.
Proof.
  intros (W & m & E & NR & RA). unfold agent_response_json_schema. rewrite E in W |- *.
  destruct (guidance_object m W) as (m1 & -> & W1 & G1).
  destruct (inject_closed (VObject m1) W1) as [W2 C2].
  cbn [inject_additional_properties_false] in W2, C2 |- *.
  set (m2 := if contains_key (L"properties") m1 && negb (contains_key (L"additionalProperties") m1)
             then map_insert (L"additionalProperties") (VBool false)
                    (map_values inject_additional_properties_false m1)
             else map_values inject_additional_properties_false m1) in W2, C2 |- *.
  destruct (minimum_required_object m2 W2 C2) as [W3 C3].
  destruct (wf_fields m2 W2) as [N2 _]. destruct (wf_fields m1 W1) as [N1 _].
  assert (∀ k, str_eqb k (L"properties") = false → str_eqb k (L"additionalProperties") = false →
    map_get k m2 = inject_additional_properties_false <$> map_get k m) as G2.
  { intros k Hk1 Hk2. rewrite <- (G1 k Hk1), <- map_get_values. unfold m2. destruct (_ && _); [|done].
    rewrite map_get_insert, Hk2 by by rewrite map_keys_values. done. }
  cbn [inject_minimum_required_protocol_key]. eexists _, (list_key (match map_get (L"required") m with
    | Some (VArray l) => inject_additional_properties_false <$> l | _ => [] end) (L"answer")).
  split; [done|]. split_and!; [exact W3|exact C3| | |].
  - by rewrite map_get_upsert, G2, NR.
  - rewrite map_get_upsert, str_eqb_refl, G2 by done.
    destruct (map_get (L"required") m) as [v|] eqn:ER; cbn; [|done].
    destruct (RA v eq_refl) as [l ->]. done.
  - destruct (list_key_app (match map_get (L"required") m with
      | Some (VArray l) => inject_additional_properties_false <$> l | _ => [] end) (L"answer")) as (_ & _ & HA).
    exact HA.
Qed.

(** The schema sent to a provider that enforces it, for either policy.
    Nowhere does it name a meta-schema; an object with a reference has no
    other keyword; no alternative of string constants is left as a oneOf; every
    object with properties is closed to further ones; and when all properties
    must be required, each object lists all of its own.  At the top the answer
    is required.  Normalizing it again changes nothing. *)
Theorem output_schema_accepted policy :
  response_schema_shape (schema_for SessionTurn) →
  let schema := agent_response_output_schema policy in
  everywhere (transport_ready policy) schema ∧ everywhere closed_object schema ∧
  normalize_schema_for_transport policy schema = schema ∧
  ∃ m required, schema = VObject m ∧ map_get (L"required") m = Some (VArray required) ∧
    VString (L"answer") ∈ required.
Proof.
  intros HS schema. destruct (response_schema_object HS) as (m & required & E & W & C & NR & R & A).
  unfold schema, agent_response_output_schema. rewrite E.
  destruct (normalized_ready policy (VObject m) W) as [W' R'].
  split_and!; [done|by apply normalized_closed|by apply ready_fixed|].
  destruct (wf_fields m W) as [ND _]. destruct (normalized_input policy m ND) as (N0 & S0 & _).
  pose proof (normalized_input_get policy m (L"$ref") ND eq_refl) as G1. rewrite NR in G1.
  pose proof (normalized_input_get policy m (L"required") ND eq_refl) as G2. rewrite R in G2.
  destruct (normalize_object_required policy _ _ N0 G1 G2) as [ks GR].
  eexists _, _. split; [done|]. split; [exact GR|]. apply elem_of_app. left.
  apply list_elem_of_fmap. by exists (VString (L"answer")).
Qed.
End normalization.

(** ** A concrete schema *)

Module SchemaDemo.
Import InsertionOrder.

(** A response with a text, a list by reference and an enumeration. *)
Definition demo_schema : Value :=
  VObject
    [(L"$schema", VString (L"https://json-schema.org/draft/2020-12/schema"));
     (L"type", VString (L"object"));
     (L"properties", VObject
        [(L"answer", VObject [(L"type", VString (L"string"))]);
         (L"questions", VObject
            [(L"$ref", VString (L"#/$defs/Questions")); (L"title", VString (L"questions"))])]);
     (L"$defs", VObject
        [(L"Kind", VObject
            [(L"oneOf", VArray [VObject [(L"const", VString (L"a"))]; VObject [(L"const", VString (L"b"))]])])])].

#[export] Instance demo_source : SchemaSource := {|
  schema_for _ := demo_schema;
  to_string_pretty _ := []
|}.

Lemma output_schema_accepted_witness :
  everywhere (transport_ready AllProperties) (agent_response_output_schema AllProperties).
Proof.
  apply output_schema_accepted. split.
  - change (json_wf demo_schema). unfold demo_schema.
    repeat first [apply wf_string|apply wf_array|apply Forall_nil_2|apply Forall_cons_2
                 |apply wf_object; [refine (bool_decide_unpack _ _); vm_compute; exact I|]].
  - eexists. split; [reflexivity|]. split; [vm_compute; reflexivity|]. intros v E.
    vm_compute in E. discriminate.
Defined.
End SchemaDemo.
