(* ===== verification/Envelope.v ===== *)
(** * Prompt envelopes (crates/ag-protocol/src/envelope.rs)

    The protocol instructions around a prompt and the repair prompt for a
    response that does not parse.  The rendered templates are a parameter. *)
From S2P Require Import Prelude Json Review Protocol Schema.

Definition REPAIR_PAYLOAD_MAX_BYTES : Z := 128 * 1024.
Definition REPAIR_PARSE_ERROR_MAX_BYTES : Z := 4 * 1024.

Inductive ProtocolSchemaInstructionMode := PromptSchema | TransportSchema.

Definition includes_response_json_schema (self : ProtocolSchemaInstructionMode) : bool :=
  match self with PromptSchema => true | TransportSchema => false end.

(** [askama]: the templates by the fields they take; an error is a failed rendering. *)
Class ProtocolTemplates := {
  instruction_policy_template : str → str → str → result str str;
  instruction_template : str → str → str → str → result str str;
  workspace_policy_template : str → result str str;
  refresh_template : str → str → str → result str str;
  repair_template : str → str → result str str;
  session_turn_usage_template : result str str;
  utility_prompt_usage_template : result str str;
  focused_review_usage_template : result str str;
  refresh_session_turn_template : result str str;
  refresh_utility_prompt_template : result str str
}.

Definition render_template (template_name : str) (rendered : result str str) : str :=
  trim_end (match rendered with
            | Ok text => text
            | Err error => L"Failed to render `" ++ template_name ++ L"`: " ++ error
            end).

Section envelopes.
Context `{JsonMap} `{SchemaSource} `{JsonEscape} `{ProtocolTemplates}.

(** The path is given as its lossy text. *)
Definition workspace_root_json (workspace_root : str) : str :=
  str_replace (json_string workspace_root) [backtick] (L"\u0060").

Definition workspace_instructions (workspace_root : str) : str :=
  render_template (L"workspace_policy_prompt.md")
    (workspace_policy_template (workspace_root_json workspace_root)).

Definition metadata_instructions : str :=
  L"Return the direct review metadata object with title, description, and is_title_change_significant. Do not nest it inside answer.".

Definition render_protocol_usage_instructions (profile : ProtocolRequestProfile) : str :=
  match profile with
  | ProfileReviewMetadata => metadata_instructions
  | ProfileFocusedReview =>
      render_template (L"protocol_instruction_focused_review_usage.md") focused_review_usage_template
  | SessionTurn =>
      render_template (L"protocol_instruction_session_turn_usage.md") session_turn_usage_template
  | UtilityPrompt =>
      render_template (L"protocol_instruction_utility_prompt_usage.md") utility_prompt_usage_template
  end.

Definition render_protocol_refresh_instructions (profile : ProtocolRequestProfile) : str :=
  match profile with
  | ProfileReviewMetadata => metadata_instructions
  | ProfileFocusedReview =>
      render_template (L"protocol_instruction_focused_review_usage.md") focused_review_usage_template
  | SessionTurn =>
      render_template (L"protocol_refresh_session_turn_instruction.md") refresh_session_turn_template
  | UtilityPrompt =>
      render_template (L"protocol_refresh_utility_prompt_instruction.md") refresh_utility_prompt_template
  end.

Definition prepend_protocol_instructions (prompt : str) (profile : ProtocolRequestProfile)
    (schema_instruction_mode : ProtocolSchemaInstructionMode) (workspace_root : str) : str :=
  let usage := render_protocol_usage_instructions profile in
  let policy := workspace_instructions workspace_root in
  if negb (includes_response_json_schema schema_instruction_mode)
  then render_template (L"protocol_instruction_policy_prompt.md")
         (instruction_policy_template prompt usage policy)
  else render_template (L"protocol_instruction_prompt.md")
         (instruction_template prompt usage (protocol_json_schema_json profile) policy).

Definition prepend_protocol_refresh_reminder (prompt : str) (profile : ProtocolRequestProfile)
    (workspace_root : str) : str :=
  render_template (L"protocol_refresh_prompt.md")
    (refresh_template prompt (render_protocol_refresh_instructions profile)
       (workspace_root_json workspace_root)).

(** ** Repair *)

Definition NOTICE : str := L" [diagnostic truncated]".

Definition encode_repair_parse_error (parse_error : str) : str :=
  let head := floor_prefix parse_error (Z.min (blen parse_error) REPAIR_PARSE_ERROR_MAX_BYTES) in
  let encoded := json_string head in
  if (blen head =? blen parse_error)%Z && (blen encoded <=? REPAIR_PARSE_ERROR_MAX_BYTES)%Z then encoded
  else
    let prefix_bytes := ((REPAIR_PARSE_ERROR_MAX_BYTES - blen NOTICE - 2) / 6)%Z in
    json_string (floor_prefix parse_error (Z.min (blen parse_error) prefix_bytes) ++ NOTICE).

Definition repair_skipped (what : str) (bytes : Z) : str :=
  L"Protocol repair skipped: " ++ what ++ L" the " ++ display_Z REPAIR_PAYLOAD_MAX_BYTES ++
  L"-byte lossless repair limit (" ++ display_Z bytes ++ L" bytes)".

Definition build_protocol_repair_prompt (parse_error malformed_response : str) : result str str :=
  if (REPAIR_PAYLOAD_MAX_BYTES <? blen malformed_response)%Z
  then Err (repair_skipped (L"response exceeds") (blen malformed_response))
  else
    let response := json_string malformed_response in
    if (REPAIR_PAYLOAD_MAX_BYTES <? blen response)%Z
    then Err (repair_skipped (L"JSON-encoded response exceeds") (blen response))
    else
      let error := encode_repair_parse_error parse_error in
      let payload_bytes := (blen response + blen error)%Z in
      if (REPAIR_PAYLOAD_MAX_BYTES <? payload_bytes)%Z
      then Err (repair_skipped (L"combined JSON-encoded response and diagnostic exceed") payload_bytes)
      else Ok (render_template (L"protocol_repair_prompt.md") (repair_template response error)).
End envelopes.

(** ** Laws *)

Section repair.
Context `{JsonEscapeLaws} `{ProtocolTemplates}.

#[local] Opaque NOTICE REPAIR_PAYLOAD_MAX_BYTES.

Lemma notice_blen : blen NOTICE = 23%Z.
Proof. reflexivity. Qed.

Lemma notice_plain : flat_map json_escape NOTICE = NOTICE.
Proof. apply json_plain. reflexivity. Qed.

Lemma floor_prefix_blen s m : (0 <= m)%Z → (blen (floor_prefix s m) <= m)%Z.
Proof.
  revert m. induction s as [|c s IH]; intros m Hm; cbn; [change (blen []) with 0%Z; lia|].
  destruct (Z.leb_spec (Z.of_nat (len_utf8 c)) m); [|change (blen []) with 0%Z; lia].
  rewrite blen_cons. specialize (IH (m - Z.of_nat (len_utf8 c))%Z). lia.
Qed.

(** The diagnostic is whole when its encoding fits, and otherwise cut. *)
Lemma encoded_diagnostic e :
  (blen (encode_repair_parse_error e) <= REPAIR_PARSE_ERROR_MAX_BYTES)%Z ∧
  (if (blen (json_string e) <=? REPAIR_PARSE_ERROR_MAX_BYTES)%Z
   then encode_repair_parse_error e = json_string e
   else ∃ m, encode_repair_parse_error e = json_string (floor_prefix e m ++ NOTICE)).
Proof.
  pose proof (json_string_lower e) as HL. unfold encode_repair_parse_error. cbv zeta.
  set (head := floor_prefix e (Z.min (blen e) REPAIR_PARSE_ERROR_MAX_BYTES)).
  set (cut := floor_prefix e (Z.min (blen e) _)).
  assert (blen (json_string (cut ++ NOTICE)) <= REPAIR_PARSE_ERROR_MAX_BYTES)%Z as HC.
  { rewrite json_string_blen, flat_map_app, blen_app, notice_plain, notice_blen.
    pose proof (flat_map_blen cut) as HF.
    assert (blen cut <= 678)%Z; [|unfold REPAIR_PARSE_ERROR_MAX_BYTES; lia].
    unfold cut. rewrite notice_blen. assert (0 <= blen e)%Z by (unfold blen; lia).
    change ((REPAIR_PARSE_ERROR_MAX_BYTES - 23 - 2) / 6)%Z with 678%Z.
    etransitivity; [apply floor_prefix_blen|]; lia. }
  destruct (Z.leb_spec (blen (json_string e)) REPAIR_PARSE_ERROR_MAX_BYTES) as [LE|GT].
  - assert (head = e) as -> by (apply floor_prefix_whole; lia).
    rewrite Z.eqb_refl, (proj2 (Z.leb_le _ _) LE). auto.
  - destruct ((_ =? _)%Z && _) eqn:B; [|split; [done|by eexists]].
    apply andb_true_iff in B as [B1%Z.eqb_eq B2%Z.leb_le].
    unfold head in B1, B2. rewrite (floor_prefix_full _ _ B1) in B2. lia.
Qed.

(** A repair prompt is built exactly when the encoded response and the
    encoded diagnostic together stay within 128 KiB.  It then carries the whole
    response, and the diagnostic, which takes at most 4 KiB, whole when it fits
    and as a prefix with a notice otherwise.  In every other case the repair is
    refused, never the response cut. *)
Theorem repair_prompt_is_lossless (parse_error response : str) :
  let error := encode_repair_parse_error parse_error in
  let bytes := (blen (json_string response) + blen error)%Z in
  (blen error <= REPAIR_PARSE_ERROR_MAX_BYTES)%Z ∧
  (if (blen (json_string parse_error) <=? REPAIR_PARSE_ERROR_MAX_BYTES)%Z
   then error = json_string parse_error
   else ∃ m, error = json_string (floor_prefix parse_error m ++ NOTICE)) ∧
  (if (bytes <=? REPAIR_PAYLOAD_MAX_BYTES)%Z
   then build_protocol_repair_prompt parse_error response =
          Ok (render_template (L"protocol_repair_prompt.md") (repair_template (json_string response) error))
   else ∃ refusal, build_protocol_repair_prompt parse_error response = Err refusal).
Proof.
  intros error bytes. destruct (encoded_diagnostic parse_error) as [HB HW]. split_and!; [done|done|].
  pose proof (json_string_lower response) as HL. unfold build_protocol_repair_prompt. cbv zeta.
  fold error. fold bytes. assert (0 <= blen error)%Z by (unfold blen; lia).
  assert (0 <= blen response)%Z by (unfold blen; lia).
  destruct (Z.leb_spec bytes REPAIR_PAYLOAD_MAX_BYTES) as [LE|GT].
  - rewrite !(proj2 (Z.ltb_ge _ _)) by (unfold bytes in *; lia). done.
  - destruct (_ <? blen response)%Z; [by eexists|]. destruct (_ <? blen (json_string response))%Z; [by eexists|].
    rewrite (proj2 (Z.ltb_lt _ _)) by done. by eexists.
Qed.
End repair.

(** ** A concrete repair *)

Module RepairDemo.
#[export] Instance plain_escape : JsonEscape := λ c, [c].

#[export] Instance plain_escape_laws : JsonEscapeLaws.
Proof.
  split; [intros c; unfold json_escape, plain_escape; rewrite byte_len_cons;
          change (byte_len []) with 0; lia..|done].
Qed.

#[export] Instance joining_templates : ProtocolTemplates := {|
  instruction_policy_template a b c := Ok (a ++ b ++ c);
  instruction_template a b c d := Ok (a ++ b ++ c ++ d);
  workspace_policy_template a := Ok a;
  refresh_template a b c := Ok (a ++ b ++ c);
  repair_template a b := Ok (b ++ [newline] ++ a);
  session_turn_usage_template := Ok [];
  utility_prompt_usage_template := Ok [];
  focused_review_usage_template := Ok [];
  refresh_session_turn_template := Ok [];
  refresh_utility_prompt_template := Ok []
|}.

Lemma repair_prompt_is_lossless_witness :
  build_protocol_repair_prompt (L"invalid JSON") (L"{oops") =
  Ok (render_template (L"protocol_repair_prompt.md")
        (repair_template (json_string (L"{oops")) (json_string (L"invalid JSON")))).
Proof.
  pose proof (repair_prompt_is_lossless (L"invalid JSON") (L"{oops")) as (_ & _ & HB).
  vm_compute in HB. vm_compute. exact HB.
Defined.
End RepairDemo.
