(* ===== verification/ResponseParse.v ===== *)
(** * Response parsing (crates/ag-protocol/src/parse.rs)

    The final message of an agent as a structured response: parsed as it is, or
    recovered from a Markdown fence or from prose before it.  The JSON parser
    and the deserialization of the wire types are parameters. *)
From S2P Require Import Prelude Prompt Json Review Session Protocol Schema.

(** ** [serde_json] *)

Inductive JsonCategory := CategoryIo | CategorySyntax | CategoryData | CategoryEof.

Record JsonError := mkJsonError {
  error_display : str;
  error_category : JsonCategory;
  error_line : nat;
  error_column : nat
}.

(** [from_str::<Value>]; the first value of [Deserializer::into_iter] with the
    text from its byte offset on; [to_string]; the deserialization of the wire
    types; and the [Debug] text of a character. *)
Class SerdeJson := {
  json_from_str : str → result Value JsonError;
  json_stream : str → option (Value * str);
  json_to_string : Value → str;
  response_from_value : Value → result AgentResponse JsonError;
  utility_from_value : Value → result UtilityResponse JsonError;
  metadata_from_str : str → result ReviewMetadata JsonError;
  metadata_value : ReviewMetadata → Value;
  review_from_str : str → result FocusedReview JsonError;
  debug_char : char → str
}.

(** No JSON text begins or ends with a backtick, and a text that is one value
    is a stream whose first value leaves only white space. *)
Class SerdeJsonLaws `{SerdeJson} : Prop := {
  json_no_leading_backtick s : ∃ e, json_from_str (backtick :: s) = Err e;
  json_no_trailing_backtick s : ∃ e, json_from_str (s ++ [backtick]) = Err e;
  json_stream_whole s v : json_from_str s = Ok v → ∃ rest, json_stream s = Some (v, rest) ∧ trim rest = []
}.

Definition PROTOCOL_KEYS : list str :=
  [L"answer"; L"questions"; L"review_comment_outcomes"; L"subtasks"; L"verification_verdicts"].

Definition fence : str := [backtick; backtick; backtick].

(** The text after the first line feed. *)
Definition after_newline (s : str) : option str := snd <$> split_once s [newline].

Definition strip_suffix (suffix s : str) : option str :=
  (λ r, rev r) <$> strip_prefix (rev suffix) (rev s).

(** ** Fences *)

Definition strip_markdown_code_fence (trimmed : str) : option str :=
  rest ← strip_prefix fence trimmed;
  body ← after_newline rest;
  inner ← strip_suffix fence body;
  let inner := trim inner in
  if is_empty inner then None else Some inner.

(** [rfind] and the slices around it are [rsplit_once]. *)
Definition find_embedded_code_fence_content (raw : str) : option str :=
  '(before, _) ← rsplit_once raw fence;
  '(_, after_opening) ← rsplit_once (trim_end before) fence;
  inner ← after_newline after_opening;
  let trimmed := trim inner in
  if is_empty trimmed then None else Some trimmed.

(** ** Values *)

Definition value_has_recognized_protocol_key (value : Value) : bool :=
  match as_object value with
  | Some m => existsb (λ key, contains_key key m) PROTOCOL_KEYS
  | None => false
  end.

(** The suffixes that start at an opening brace, the last first. *)
Fixpoint brace_suffixes (s : str) : list str :=
  match s with
  | [] => []
  | c :: s' => brace_suffixes s' ++ (if (c =? 123)%N then [s] else [])
  end.

Section parsing.
Context `{SerdeJson}.

(** The value of a candidate that only white space follows. *)
Definition complete_value (candidate : str) : option Value :=
  '(value, trailing_text) ← json_stream candidate;
  if is_empty (trim trailing_text) then Some value else None.

Fixpoint first_complete (candidates : list str) : option Value :=
  match candidates with
  | [] => None
  | candidate :: rest =>
      match complete_value candidate with Some value => Some value | None => first_complete rest end
  end.

Definition find_last_embedded_json_value (raw : str) : option Value := first_complete (brace_suffixes raw).

Definition parse_structured_json_response_with_reason (raw : str)
  : result AgentResponse AgentResponseParseError :=
  match json_from_str (trim raw) with
  | Err error => Err (ResponseInvalidFormat (L"invalid JSON (" ++ error_display error ++ L")"))
  | Ok value =>
      if negb (value_has_recognized_protocol_key value)
      then Err (ResponseInvalidFormat
             (L"json object is missing all protocol keys (" ++ join (L", ") PROTOCOL_KEYS ++ L")"))
      else match response_from_value value with
           | Ok response => Ok response
           | Err error =>
               Err (ResponseInvalidFormat (L"schema validation failed (" ++ error_display error ++ L")"))
           end
  end.

Definition ok {A E} (r : result A E) : option A := match r with Ok a => Some a | Err _ => None end.

Definition parse_structured_json_response (raw : str) : option AgentResponse :=
  ok (parse_structured_json_response_with_reason raw).

Definition recover_embedded_structured_json_response (raw : str) : option AgentResponse :=
  value ← find_last_embedded_json_value raw;
  if negb (value_has_recognized_protocol_key value) then None else ok (response_from_value value).

Definition parse_structured_json_response_with_recovery (raw : str) : option AgentResponse :=
  match parse_structured_json_response raw with
  | Some response => Some response
  | None => recover_embedded_structured_json_response raw
  end.

(** ** Session turns *)

Definition parse_agent_response_strict (raw : str) : result AgentResponse AgentResponseParseError :=
  let trimmed := trim raw in
  if is_empty trimmed then Err ResponseEmpty
  else match parse_structured_json_response_with_reason trimmed with
  | Ok response => Ok response
  | Err direct_parse_error =>
      match strip_markdown_code_fence trimmed with
      | Some inner =>
          match parse_structured_json_response_with_recovery inner with
          | Some response => Ok response
          | None =>
              let fence_parse_error :=
                match parse_structured_json_response_with_reason inner with
                | Err error => AgentResponseParseError_display error
                | Ok _ => L"no protocol payload found in markdown code fence"
                end in
              Err (ResponseInvalidFormat
                     (L"markdown code fence extraction failed (" ++ fence_parse_error ++ L")"))
          end
      | None =>
          match inner ← find_embedded_code_fence_content trimmed;
                parse_structured_json_response_with_recovery inner with
          | Some response => Ok response
          | None =>
              match recover_embedded_structured_json_response trimmed with
              | Some response => Ok response
              | None =>
                  Err (ResponseInvalidFormat
                         (L"direct parse failed (" ++ AgentResponseParseError_display direct_parse_error ++
                          L"); no markdown wrapper/embedded protocol object found"))
              end
          end
      end
  end.

(** ** Other profiles *)

Definition parse_utility_response (raw : str) : result UtilityResponse JsonError :=
  let candidate :=
    match strip_markdown_code_fence raw with
    | Some inner => inner
    | None => default raw (find_embedded_code_fence_content raw)
    end in
  match json_from_str candidate with
  | Ok value => utility_from_value value
  | Err error =>
      match find_last_embedded_json_value candidate with
      | Some value => utility_from_value value
      | None => Err error
      end
  end.

Context `{JsonMap}.

(** [collect] into a map. *)
Definition object_of (fields : list (str * Value)) : Value :=
  VObject (fold_left (λ m kv, map_insert kv.1 kv.2 m) fields []).

Definition severity_text (severity : FocusedReviewSeverity) : str :=
  match severity with High => L"high" | Medium => L"medium" end.

Definition focused_review_answer (review : FocusedReview) : str :=
  json_to_string (object_of
    [(L"project_impact", VArray (VString <$> project_impact review));
     (L"suggestions", VArray ((λ s, object_of
        [(L"details", VString (details s)); (L"severity", VString (severity_text (severity s)))])
        <$> suggestions review))]).

Definition invalid_format (what : str) (error : JsonError) : AgentResponseParseError :=
  ResponseInvalidFormat (what ++ L" parse failed (" ++ error_display error ++ L")").

Definition parse_protocol_response_strict (raw : str) (profile : ProtocolRequestProfile)
  : result AgentResponse AgentResponseParseError :=
  match profile with
  | SessionTurn => parse_agent_response_strict raw
  | _ =>
      let trimmed := trim raw in
      if is_empty trimmed then Err ResponseEmpty
      else match profile with
      | UtilityPrompt =>
          match parse_utility_response trimmed with
          | Ok response => Ok (AgentResponse_plain (utility_answer response))
          | Err error => Err (invalid_format (L"utility") error)
          end
      | ProfileReviewMetadata =>
          match metadata_from_str trimmed with
          | Ok response => Ok (AgentResponse_plain (json_to_string (metadata_value response)))
          | Err error => Err (invalid_format (L"review metadata") error)
          end
      | _ =>
          match review_from_str trimmed with
          | Ok review => Ok (AgentResponse_plain (focused_review_answer review))
          | Err error => Err (invalid_format (L"focused review") error)
          end
      end
  end.

(** ** Diagnostics *)

Definition describe_json_type (value : Value) : str :=
  match value with
  | VNull => L"null"
  | VBool _ => L"boolean"
  | VNumber _ => L"number"
  | VString _ => L"string"
  | VArray _ => L"array"
  | VObject _ => L"object"
  end.

Definition format_debug_list (items : list str) : str :=
  if is_empty items then L"(none)" else join (L", ") items.

Definition describe_json_error_category (error : JsonError) : str :=
  match error_category error with
  | CategoryIo => L"io"
  | CategorySyntax => L"syntax"
  | CategoryData => L"data"
  | CategoryEof => L"eof"
  end.

Definition json_value_debug_lines (label : str) (value : Value) : list str :=
  [label ++ L"_type: " ++ describe_json_type value] ++
  match as_object value with
  | Some m =>
      [label ++ L"_keys: " ++ format_debug_list (sort_by str_leb (map_keys m));
       label ++ L"_recognized_protocol_keys: " ++
         format_debug_list (List.filter (λ key, contains_key key m) PROTOCOL_KEYS);
       label ++ L"_missing_protocol_keys: " ++
         format_debug_list (List.filter (λ key, negb (contains_key key m)) PROTOCOL_KEYS)]
  | None => []
  end.

Definition json_debug_lines (label raw : str) : list str :=
  match json_from_str raw with
  | Ok value => json_value_debug_lines label value
  | Err error =>
      [label ++ L"_error: " ++ error_display error;
       label ++ L"_error_category: " ++ describe_json_error_category error;
       label ++ L"_error_location: line " ++ display_nat (error_line error) ++ L", column " ++
         display_nat (error_column error)]
  end.

Definition character_boundary_debug_lines (trimmed : str) : list str :=
  match head trimmed with
  | Some c => [L"first_non_whitespace_char: " ++ debug_char c] | None => [] end ++
  match last trimmed with
  | Some c => [L"last_non_whitespace_char: " ++ debug_char c] | None => [] end.

Definition display_bool (b : bool) : str := if b then L"true" else L"false".

Definition format_protocol_parse_debug_details (raw : str) : str :=
  let trimmed := trim raw in
  let fenced := strip_markdown_code_fence trimmed in
  let sizes :=
    [L"response_len: " ++ display_nat (length raw) ++ L" chars";
     L"response_lines: " ++ display_nat (length (str_lines raw));
     L"trimmed_len: " ++ display_nat (length trimmed) ++ L" chars";
     L"wrapped_in_markdown_fence: " ++ display_bool (bool_decide (is_Some fenced))] in
  join [newline]
    (if is_empty trimmed then sizes
     else
       sizes ++ character_boundary_debug_lines trimmed ++ json_debug_lines (L"direct_json") trimmed ++
       match fenced with
       | Some inner =>
           (L"code_fence_inner_len: " ++ display_nat (length inner) ++ L" chars") ::
           json_debug_lines (L"code_fence_json") inner
       | None => []
       end ++
       match find_last_embedded_json_value trimmed with
       | Some value =>
           L"embedded_json_candidate: found" :: json_value_debug_lines (L"embedded_json") value
       | None => [L"embedded_json_candidate: none"]
       end).
End parsing.

(** ** Laws *)

#[local] Arguments lit : simpl never.

(** [s] is a contiguous part of [t]. *)
Definition part_of (s t : str) : Prop := ∃ a b, t = a ++ s ++ b.

Lemma part_of_refl s : part_of s s.
Proof. exists [], []. by rewrite app_nil_r. Qed.

Lemma part_of_trans s t u : part_of s t → part_of t u → part_of s u.
Proof. intros (a & b & ->) (c & d & ->). exists (c ++ a), (b ++ d). by rewrite <- !app_assoc. Qed.

Lemma part_of_left a s t : part_of s t → part_of s (a ++ t).
Proof. intros H. eapply part_of_trans; [done|]. exists a, []. by rewrite app_nil_r. Qed.

Lemma part_of_right s t b : part_of s t → part_of s (t ++ b).
Proof. intros H. eapply part_of_trans; [done|]. by exists [], b. Qed.

(** *** White space around a text *)

Lemma skip_while_app_true p a b : forallb p a = true → skip_while p (a ++ b) = skip_while p b.
Proof. induction a as [|c a IH]; cbn; [done|]. intros [-> H]%andb_true_iff. auto. Qed.

Lemma skip_while_app_some p a b : forallb p a = false → skip_while p (a ++ b) = skip_while p a ++ b.
Proof.
  induction a as [|c a IH]; cbn; [done|]. destruct (p c); cbn; [exact IH|done].
Qed.

Lemma trim_end_app_true p a b :
  forallb p b = true → trim_end_matches p (a ++ b) = trim_end_matches p a.
Proof. intros H. unfold trim_end_matches. by rewrite rev_app_distr, skip_while_app_true by by rewrite forallb_rev. Qed.

Lemma trim_end_snoc p a c : p c = false → trim_end_matches p (a ++ [c]) = a ++ [c].
Proof. intros H. unfold trim_end_matches. rewrite rev_app_distr. cbn. rewrite H. cbn. by rewrite rev_involutive. Qed.

Lemma forallb_count_while p l : forallb p (take (count_while p l) l) = true.
Proof. induction l as [|c l IH]; cbn; [done|]. destruct (p c) eqn:E; cbn; [by rewrite E|done]. Qed.

Lemma trim_end_split p s : ∃ b, s = trim_end_matches p s ++ b ∧ forallb p b = true.
Proof.
  exists (rev (take (count_while p (rev s)) (rev s))). rewrite forallb_rev. split; [|apply forallb_count_while].
  unfold trim_end_matches. by rewrite skip_while_drop, <- rev_app_distr, take_drop, rev_involutive.
Qed.

Lemma trim_around a s b :
  forallb is_whitespace a = true → forallb is_whitespace b = true → trim (a ++ s ++ b) = trim s.
Proof.
  intros HA HB. unfold trim, trim_start, trim_end, trim_start_matches. rewrite skip_while_app_true by done.
  destruct (forallb is_whitespace s) eqn:E.
  - rewrite skip_while_app_true by done. apply skip_while_nil in E, HB. by rewrite E, HB.
  - rewrite skip_while_app_some by done. by apply trim_end_app_true.
Qed.

Lemma trimmed_last s : trim s = s → s ≠ [] → ∃ s0 c, s = s0 ++ [c] ∧ is_whitespace c = false.
Proof.
  intros E N. unfold trim, trim_end, trim_end_matches in E. apply (f_equal (λ l, rev l)) in E.
  rewrite rev_involutive in E. destruct (rev s) as [|c r] eqn:ER.
  - apply (f_equal (λ l, rev l)) in ER. by rewrite rev_involutive in ER.
  - exists (rev r), c. split; [|by eapply skip_while_head].
    apply (f_equal (λ l, rev l)) in ER. by rewrite rev_involutive in ER.
Qed.

Lemma trimmed_head s : trim s = s → s ≠ [] → ∃ c s', s = c :: s' ∧ is_whitespace c = false.
Proof.
  intros E N. destruct s as [|c s']; [done|]. exists c, s'. split; [done|].
  unfold trim in E. destruct (trim_end_matches_prefix is_whitespace (trim_start (c :: s'))) as [k Hk].
  unfold trim_end in E. rewrite E in Hk. unfold trim_start, trim_start_matches in Hk.
  eapply (skip_while_head is_whitespace (c :: s')). exact Hk.
Qed.

Lemma trim_part s : part_of (trim s) s.
Proof.
  unfold trim, trim_start, trim_start_matches. rewrite skip_while_drop.
  set (n := count_while is_whitespace s).
  destruct (trim_end_matches_prefix is_whitespace (drop n s)) as [k Hk].
  exists (take n s), k. unfold trim_end. by rewrite <- Hk, take_drop.
Qed.

(** *** Splits *)

Lemma rsplit_once_Some s needle a b : rsplit_once s needle = Some (a, b) → s = a ++ needle ++ b.
Proof.
  revert a. induction s as [|c s IH]; intros a; cbn.
  - destruct (strip_prefix needle []) as [rest|] eqn:E; [|done]. intros [= <- ->].
    by apply strip_prefix_Some in E.
  - destruct (rsplit_once s needle) as [[a' b']|] eqn:ES; [intros [= <- ->]; cbn; f_equal; by apply IH|].
    destruct (strip_prefix needle (c :: s)) as [rest|] eqn:E; [|done].
    intros [= <- ->]. by apply strip_prefix_Some in E.
Qed.

Lemma rsplit_once_None s needle : (∀ a b, s ≠ a ++ needle ++ b) → rsplit_once s needle = None.
Proof. intros HN. destruct (rsplit_once s needle) as [[a b]|] eqn:E; [|done]. by apply rsplit_once_Some, HN in E. Qed.

(** The last occurrence is found. *)
Lemma rsplit_once_last x c needle y :
  (∀ a b, needle ++ y ≠ a ++ (c :: needle) ++ b) →
  rsplit_once (x ++ (c :: needle) ++ y) (c :: needle) = Some (x, y).
Proof.
  intros HN. induction x as [|d x IH].
  - cbn [app rsplit_once]. rewrite rsplit_once_None by done.
    rewrite (proj2 (strip_prefix_Some _ _ y)); done.
  - change ((d :: x) ++ (c :: needle) ++ y) with (d :: x ++ (c :: needle) ++ y). cbn [rsplit_once].
    by rewrite IH.
Qed.

Lemma rsplit_fence_last x y :
  ¬ part_of fence ([backtick; backtick] ++ y) → rsplit_once (x ++ fence ++ y) fence = Some (x, y).
Proof.
  intros HN. apply (rsplit_once_last x backtick [backtick; backtick] y).
  intros a b E. apply HN. by exists a, b.
Qed.

Lemma strip_suffix_app s suffix : strip_suffix suffix (s ++ suffix) = Some s.
Proof.
  unfold strip_suffix. rewrite rev_app_distr, (proj2 (strip_prefix_Some _ _ (rev s))) by done.
  cbn. by rewrite rev_involutive.
Qed.

Lemma strip_suffix_Some suffix s t : strip_suffix suffix s = Some t → s = t ++ suffix.
Proof.
  unfold strip_suffix. destruct (strip_prefix (rev suffix) (rev s)) as [r|] eqn:E; [|done].
  intros [= <-]. apply strip_prefix_Some, (f_equal (λ l, rev l)) in E.
  by rewrite rev_involutive, rev_app_distr, rev_involutive in E.
Qed.

(** *** Texts without a fence *)

Definition has_fence (s : str) : Prop := part_of fence s.

Lemma has_fence_cons c s : has_fence (c :: s) → (∃ b, c :: s = fence ++ b) ∨ has_fence s.
Proof.
  intros ([|d a] & b & E); [left; by exists b|]. right. injection E as _ ->. by exists a, b.
Qed.

Lemma no_fence_app u s : backtick ∉ u → ¬ has_fence s → ¬ has_fence (u ++ s).
Proof.
  intros HU HS. induction u as [|c u IH]; [done|]. apply not_elem_of_cons in HU as [HC HU].
  intros [[b E]|HF]%has_fence_cons; [|by apply (IH HU)]. injection E as E _. by subst.
Qed.

Lemma no_fence_opening c s : c ≠ backtick → ¬ has_fence (c :: s) → ¬ has_fence (backtick :: backtick :: c :: s).
Proof.
  intros HC HS [[b E]|[[b E]|HF]%has_fence_cons]%has_fence_cons; [| |done];
    injection E as E; subst; congruence.
Qed.

Lemma whitespace_no_backtick a : forallb is_whitespace a = true → backtick ∉ a.
Proof. intros HA HB. rewrite forallb_true in HA. by apply HA in HB. Qed.

(** *** Fenced payloads *)

Section payloads.
Variables (info a b p : str).
Hypotheses (HI : newline ∉ info) (HA : forallb is_whitespace a = true) (HB : forallb is_whitespace b = true)
  (HP : trim p = p) (NP : p ≠ []).

Lemma strip_fenced :
  strip_markdown_code_fence (fence ++ info ++ newline :: a ++ p ++ b ++ fence) = Some p.
Proof.
  unfold strip_markdown_code_fence, after_newline.
  rewrite (proj2 (strip_prefix_Some fence _ _) eq_refl). cbn [mbind option_bind].
  rewrite split_once_char by done. cbn [fmap option_fmap option_map snd mbind option_bind].
  replace (a ++ p ++ b ++ fence) with ((a ++ p ++ b) ++ fence) by by rewrite <- !app_assoc.
  rewrite strip_suffix_app. cbn [mbind option_bind]. rewrite trim_around, HP by done.
  cbv zeta. by rewrite (proj2 (is_empty_false p)).
Qed.

Lemma find_embedded x :
  backtick ∉ info → ¬ has_fence p →
  find_embedded_code_fence_content (x ++ fence ++ info ++ newline :: a ++ p ++ b ++ fence) = Some p.
Proof.
  intros HK NF. unfold find_embedded_code_fence_content, after_newline.
  replace (x ++ fence ++ info ++ newline :: a ++ p ++ b ++ fence)
    with ((x ++ fence ++ info ++ newline :: a ++ p ++ b) ++ fence ++ [])
    by (rewrite app_nil_r, <- !app_assoc; cbn; by rewrite <- !app_assoc).
  rewrite rsplit_fence_last.
  2:{ intros (u & v & E). apply (f_equal length) in E. rewrite !length_app in E. cbn in E. lia. }
  cbn [mbind option_bind]. destruct (trimmed_last p HP NP) as (p0 & c & EP & HC).
  assert (trim_end (x ++ fence ++ info ++ newline :: a ++ p ++ b) = x ++ fence ++ info ++ newline :: a ++ p) as ->.
  { replace (x ++ fence ++ info ++ newline :: a ++ p ++ b)
      with ((x ++ fence ++ info ++ newline :: a ++ p) ++ b) by (rewrite <- !app_assoc; cbn; by rewrite <- !app_assoc).
    unfold trim_end. rewrite trim_end_app_true by done. rewrite EP.
    replace (x ++ fence ++ info ++ newline :: a ++ p0 ++ [c])
      with ((x ++ fence ++ info ++ newline :: a ++ p0) ++ [c]) by (rewrite <- !app_assoc; cbn; by rewrite <- !app_assoc).
    by apply trim_end_snoc. }
  rewrite rsplit_fence_last.
  2:{ assert (¬ has_fence (newline :: a ++ p)) as N1.
      { change (newline :: a ++ p) with ([newline] ++ a ++ p). apply no_fence_app; [set_solver|].
        apply no_fence_app; [by apply whitespace_no_backtick|done]. }
      destruct info as [|d info']; [by apply no_fence_opening|].
      apply not_elem_of_cons in HK as [HD HK]. apply no_fence_opening; [done|].
      apply (no_fence_app (d :: info')); [by apply not_elem_of_cons|done]. }
  cbn [mbind option_bind]. rewrite split_once_char by done.
  cbn [fmap option_fmap option_map snd mbind option_bind].
  rewrite <- (app_nil_r (a ++ p)), <- app_assoc, trim_around, HP by done.
  cbv zeta. by rewrite (proj2 (is_empty_false p)).
Qed.
End payloads.

(** ** Recovery *)

Section recovery.
Context `{SerdeJsonLaws}.

(** The payload [p] is a response by itself. *)
Definition accepts (p : str) (r : AgentResponse) : Prop :=
  ∃ v, json_from_str p = Ok v ∧ value_has_recognized_protocol_key v = true ∧ response_from_value v = Ok r.

Lemma accepts_parse p r : trim p = p → accepts p r → parse_structured_json_response_with_reason p = Ok r.
Proof.
  intros HP (v & E1 & E2 & E3). unfold parse_structured_json_response_with_reason.
  by rewrite HP, E1, E2, E3.
Qed.

Lemma accepts_recovery p r :
  trim p = p → accepts p r → parse_structured_json_response_with_recovery p = Some r.
Proof.
  intros HP HA. unfold parse_structured_json_response_with_recovery, parse_structured_json_response.
  by rewrite (accepts_parse p r).
Qed.

Lemma unparsed s :
  (∃ e, json_from_str (trim s) = Err e) → ∃ e, parse_structured_json_response_with_reason s = Err e.
Proof. intros [e E]. unfold parse_structured_json_response_with_reason. rewrite E. eauto. Qed.

(** A text that ends with a fence. *)
Lemma trim_fenced s c : is_whitespace c = false → trim (c :: s ++ fence) = c :: s ++ fence.
Proof.
  intros HC. unfold trim, trim_start, trim_end, trim_start_matches. cbn [skip_while]. rewrite HC.
  replace (c :: s ++ fence) with ((c :: s ++ [backtick; backtick]) ++ [backtick])
    by (cbn; by rewrite <- app_assoc).
  by apply trim_end_snoc.
Qed.

Lemma fenced_unparsed c s :
  is_whitespace c = false → ∃ e, parse_structured_json_response_with_reason (c :: s ++ fence) = Err e.
Proof.
  intros HC. apply unparsed. rewrite trim_fenced by done.
  replace (c :: s ++ fence) with ((c :: s ++ [backtick; backtick]) ++ [backtick])
    by (cbn; by rewrite <- app_assoc).
  apply json_no_trailing_backtick.
Qed.

(** The last complete value is the payload at the end. *)
Lemma find_last_complete x p v :
  complete_value (123%N :: p) = Some v → (∀ q, q ∈ brace_suffixes p → complete_value q = None) →
  find_last_embedded_json_value (x ++ 123%N :: p) = Some v.
Proof.
  intros HV HN. unfold find_last_embedded_json_value.
  assert (∀ l l', (∀ q, q ∈ l → complete_value q = None) →
    first_complete (l ++ l') = first_complete l') as HS.
  { induction l as [|q l IH]; intros l' HL; cbn; [done|]. rewrite HL by by left. apply IH.
    intros q' Hq. apply HL. by right. }
  induction x as [|c x IH].
  - cbn [app brace_suffixes]. rewrite HS by done. cbn. by rewrite HV.
  - cbn [app brace_suffixes]. revert IH. generalize (brace_suffixes (x ++ 123%N :: p)). intros l IH.
    clear HS. induction l as [|q l IHl]; [done|]. cbn in *. destruct (complete_value q); [done|]. by apply IHl.
Qed.

Lemma strict_direct raw p r :
  trim raw = p → p ≠ [] → trim p = p → accepts p r → parse_agent_response_strict raw = Ok r.
Proof.
  intros E N HP HA. unfold parse_agent_response_strict. rewrite E. cbv zeta.
  rewrite (proj2 (is_empty_false p)) by done. by rewrite (accepts_parse p r).
Qed.

(** The later stages run on a trimmed text that is no payload by itself. *)
Lemma strict_stages raw t e :
  trim raw = t → t ≠ [] → parse_structured_json_response_with_reason t = Err e →
  (∀ inner r, strip_markdown_code_fence t = Some inner →
     parse_structured_json_response_with_recovery inner = Some r → parse_agent_response_strict raw = Ok r) ∧
  (∀ inner r, strip_markdown_code_fence t = None → find_embedded_code_fence_content t = Some inner →
     parse_structured_json_response_with_recovery inner = Some r → parse_agent_response_strict raw = Ok r) ∧
  (∀ r, strip_markdown_code_fence t = None → find_embedded_code_fence_content t = None →
     recover_embedded_structured_json_response t = Some r → parse_agent_response_strict raw = Ok r).
Proof.
  intros E N HE. unfold parse_agent_response_strict. rewrite E. cbv zeta.
  rewrite (proj2 (is_empty_false t)) by done. rewrite HE. split_and!.
  - intros inner r -> E1. by rewrite E1.
  - intros inner r -> -> E1. cbn [mbind option_bind]. by rewrite E1.
  - intros r -> -> E1. cbn [mbind option_bind]. by rewrite E1.
Qed.

Lemma strip_fence_None t : ¬ (∃ t', t = fence ++ t') → strip_markdown_code_fence t = None.
Proof.
  intros HN. unfold strip_markdown_code_fence. destruct (strip_prefix fence t) as [t'|] eqn:E; [|done].
  apply strip_prefix_Some in E. destruct HN. by exists t'.
Qed.

Lemma embedded_None t : ¬ has_fence t → find_embedded_code_fence_content t = None.
Proof.
  intros HN. unfold find_embedded_code_fence_content. rewrite rsplit_once_None; [done|].
  intros a b E. apply HN. by exists a, b.
Qed.

(** Prose before a trimmed payload, trimmed. *)
Lemma trim_prose prose p :
  trim p = p → p ≠ [] → ∃ x, trim (prose ++ p) = x ++ p ∧ part_of (x ++ p) (prose ++ p).
Proof.
  intros HP NP. destruct (trimmed_last p HP NP) as (p0 & c & -> & HC).
  assert (∀ y, trim_end (y ++ p0 ++ [c]) = y ++ p0 ++ [c]) as HE.
  { intros y. rewrite app_assoc. by apply trim_end_snoc. }
  unfold trim, trim_start, trim_start_matches. destruct (forallb is_whitespace prose) eqn:E.
  - exists []. split; [|by exists prose, []; rewrite app_nil_r].
    rewrite skip_while_app_true by done. exact HP.
  - exists (skip_while is_whitespace prose). rewrite skip_while_app_some by done. split; [apply HE|].
    rewrite skip_while_drop. exists (take (count_while is_whitespace prose) prose), [].
    by rewrite app_nil_r, (app_assoc (take _ _)), take_drop.
Qed.

(** A payload that is a response by itself is recovered from the ways
    agents wrap it: with white space around it; in a Markdown fence with any
    information string, whatever the payload contains; in a fence after prose,
    when neither the information string nor the payload has a fence of its own;
    and at the end of prose, when no text from a later brace on is a complete
    value.  Prose never becomes part of the response. *)
Theorem wrapped_response_is_recovered (p : str) (r : AgentResponse) (info pre post a b prose : str) :
  accepts p r → trim p = p → p ≠ [] → newline ∉ info →
  forallb is_whitespace pre = true → forallb is_whitespace post = true →
  forallb is_whitespace a = true → forallb is_whitespace b = true →
  parse_agent_response_strict (pre ++ p ++ post) = Ok r ∧
  parse_agent_response_strict (pre ++ (fence ++ info ++ newline :: a ++ p ++ b ++ fence) ++ post) = Ok r ∧
  (∀ c rest, prose = c :: rest → is_whitespace c = false → c ≠ backtick → backtick ∉ info → ¬ has_fence p →
     parse_agent_response_strict (pre ++ (prose ++ fence ++ info ++ newline :: a ++ p ++ b ++ fence) ++ post)
     = Ok r) ∧
  (∀ q, p = 123%N :: q → (∀ s, s ∈ brace_suffixes q → complete_value s = None) →
     ¬ has_fence (prose ++ p) → (∃ e, json_from_str (trim (prose ++ p)) = Err e) →
     parse_agent_response_strict (prose ++ p ++ post) = Ok r).
Proof.
  intros HR HP NP HI Wpre Wpost Wa Wb. split_and!.
  - by apply (strict_direct _ p); [rewrite trim_around|..].
  - set (body := info ++ newline :: a ++ p ++ b).
    assert (fence ++ info ++ newline :: a ++ p ++ b ++ fence = backtick :: ([backtick; backtick] ++ body) ++ fence)
      as EB by (unfold body; cbn; rewrite <- !app_assoc; cbn; by rewrite <- !app_assoc).
    destruct (fenced_unparsed backtick ([backtick; backtick] ++ body)) as [e He]; [done|].
    destruct (strict_stages (pre ++ (fence ++ info ++ newline :: a ++ p ++ b ++ fence) ++ post)
      (fence ++ info ++ newline :: a ++ p ++ b ++ fence) e) as [S1 _]; [|done|by rewrite EB|].
    { rewrite trim_around, EB by done. by apply trim_fenced. }
    eapply S1; [by apply strip_fenced|by apply accepts_recovery].
  - intros c rest -> HC HK HI2 NF. set (body := fence ++ info ++ newline :: a ++ p ++ b).
    assert ((c :: rest) ++ fence ++ info ++ newline :: a ++ p ++ b ++ fence = c :: (rest ++ body) ++ fence)
      as EB by (unfold body; cbn; rewrite <- !app_assoc; cbn; rewrite <- !app_assoc; cbn; by rewrite <- !app_assoc).
    destruct (fenced_unparsed c (rest ++ body)) as [e He]; [done|].
    destruct (strict_stages (pre ++ ((c :: rest) ++ fence ++ info ++ newline :: a ++ p ++ b ++ fence) ++ post)
      ((c :: rest) ++ fence ++ info ++ newline :: a ++ p ++ b ++ fence) e) as (_ & S2 & _); [|done|by rewrite EB|].
    { rewrite trim_around, EB by done. by apply trim_fenced. }
    eapply S2; [|by apply find_embedded|by apply accepts_recovery].
    apply strip_fence_None. intros [t' Et]. injection Et as Ec _. by subst.
  - intros q EP HN NF HE. destruct (trim_prose prose p HP NP) as (x & Ex & HX).
    assert (trim (prose ++ p ++ post) = x ++ p) as ET.
    { rewrite <- Ex. change (prose ++ p ++ post) with ([] ++ prose ++ p ++ post).
      rewrite (app_assoc prose). by rewrite trim_around. }
    destruct (unparsed (x ++ p)) as [e He]; [rewrite <- Ex, trim_idem; exact HE|].
    assert (¬ has_fence (x ++ p)) as NX by (intros HF; apply NF; by eapply part_of_trans).
    destruct (strict_stages (prose ++ p ++ post) (x ++ p) e ET) as (_ & _ & S3); [by destruct x; [|]|done|].
    apply S3; [|by apply embedded_None|].
    { apply strip_fence_None. intros [t' Et]. apply NX. rewrite Et. by exists [], t'. }
    destruct HR as (v & E1 & E2 & E3). unfold recover_embedded_structured_json_response. rewrite EP.
    destruct (json_stream_whole p v E1) as (rest & ES & Erest).
    rewrite (find_last_complete x q v); [cbn; by rewrite E2, E3| |done].
    rewrite <- EP. unfold complete_value. rewrite ES. cbn. by rewrite Erest.
Qed.

(** *** What is accepted *)

(** The value [v] is read from a part of [raw]. *)
Definition read_from (raw : str) (v : Value) : Prop :=
  ∃ t, part_of t raw ∧ (json_from_str t = Ok v ∨ complete_value t = Some v).

Lemma read_from_part s raw v : part_of s raw → read_from s v → read_from raw v.
Proof. intros HS (t & HT & E). exists t. split; [by eapply part_of_trans|done]. Qed.

Lemma brace_suffixes_part q s : q ∈ brace_suffixes s → part_of q s.
Proof.
  induction s as [|c s IH]; cbn; [set_solver|]. rewrite elem_of_app. intros [HQ|HQ].
  - by apply (part_of_left [c]), IH.
  - destruct (c =? 123)%N; [|set_solver]. apply list_elem_of_singleton in HQ as ->. apply part_of_refl.
Qed.

Lemma first_complete_Some l v : first_complete l = Some v → ∃ q, q ∈ l ∧ complete_value q = Some v.
Proof.
  induction l as [|q l IH]; cbn; [done|]. destruct (complete_value q) eqn:E.
  - intros [= <-]. exists q. split; [by left|done].
  - intros (q' & Hq & E')%IH. exists q'. split; [by right|done].
Qed.

Definition sound_response (raw : str) (r : AgentResponse) : Prop :=
  ∃ v, read_from raw v ∧ value_has_recognized_protocol_key v = true ∧ response_from_value v = Ok r.

Lemma sound_response_part s raw r : part_of s raw → sound_response s r → sound_response raw r.
Proof. intros HS (v & HV & E). exists v. split; [by eapply read_from_part|done]. Qed.

Lemma reason_sound s r : parse_structured_json_response_with_reason s = Ok r → sound_response s r.
Proof.
  unfold parse_structured_json_response_with_reason.
  destruct (json_from_str (trim s)) as [v|] eqn:E; [|discriminate].
  destruct (value_has_recognized_protocol_key v) eqn:K; cbn [negb]; [|discriminate].
  destruct (response_from_value v) as [r'|] eqn:R; [|discriminate]. intros [= <-].
  exists v. split; [|done]. exists (trim s). split; [apply trim_part|by left].
Qed.

Lemma recover_sound s r : recover_embedded_structured_json_response s = Some r → sound_response s r.
Proof.
  unfold recover_embedded_structured_json_response.
  destruct (find_last_embedded_json_value s) as [v|] eqn:E; cbn; [|done].
  destruct (value_has_recognized_protocol_key v) eqn:K; cbn; [|done].
  destruct (response_from_value v) as [r'|] eqn:R; cbn; [|done]. intros [= <-].
  apply first_complete_Some in E as (q & Hq & E). exists v. split; [|done].
  exists q. split; [by apply brace_suffixes_part|by right].
Qed.

Lemma recovery_sound s r : parse_structured_json_response_with_recovery s = Some r → sound_response s r.
Proof.
  unfold parse_structured_json_response_with_recovery, parse_structured_json_response.
  destruct (parse_structured_json_response_with_reason s) as [r'|] eqn:E; cbn.
  - intros [= <-]. by apply reason_sound.
  - apply recover_sound.
Qed.

Lemma after_newline_part s t : after_newline s = Some t → part_of t s.
Proof.
  unfold after_newline. destruct (split_once s [newline]) as [[x y]|] eqn:E; [|done].
  intros [= <-]. apply split_once_Some in E as ->. apply part_of_left, part_of_left, part_of_refl.
Qed.

Lemma trimmed_inner (s t : str) : (if is_empty (trim s) then None else Some (trim s)) = Some t → t = trim s.
Proof. destruct (is_empty (trim s)); congruence. Qed.

Lemma strip_part t inner : strip_markdown_code_fence t = Some inner → part_of inner t.
Proof.
  unfold strip_markdown_code_fence. destruct (strip_prefix fence t) as [rest|] eqn:E1; [|done].
  cbn [mbind option_bind]. destruct (after_newline rest) as [body|] eqn:E2; [|done].
  cbn [mbind option_bind]. destruct (strip_suffix fence body) as [u|] eqn:E3; [|done].
  cbn [mbind option_bind]. cbv zeta. intros ->%trimmed_inner.
  apply strip_prefix_Some in E1 as ->. apply part_of_left. apply after_newline_part in E2.
  eapply part_of_trans; [|exact E2]. apply strip_suffix_Some in E3 as ->. apply part_of_right, trim_part.
Qed.

Lemma embedded_part t inner : find_embedded_code_fence_content t = Some inner → part_of inner t.
Proof.
  unfold find_embedded_code_fence_content. destruct (rsplit_once t fence) as [[before z]|] eqn:E1; [|done].
  cbn [mbind option_bind]. destruct (rsplit_once (trim_end before) fence) as [[y u]|] eqn:E2; [|done].
  cbn [mbind option_bind]. destruct (after_newline u) as [w|] eqn:E3; [|done].
  cbn [mbind option_bind]. cbv zeta. intros ->%trimmed_inner.
  apply rsplit_once_Some in E1 as ->. apply part_of_right. apply rsplit_once_Some in E2.
  destruct (trim_end_matches_prefix is_whitespace before) as [k Hk]. fold (trim_end before) in Hk.
  rewrite Hk, E2. apply part_of_right. do 2 apply part_of_left.
  eapply part_of_trans; [apply trim_part|by apply after_newline_part].
Qed.

(** Whatever the raw message, an accepted response is the decoding of one
    JSON value that stands in the message as a contiguous text and has at least
    one protocol key; only a blank message is reported as empty. *)
Theorem accepted_response_stands_in_message (raw : str) :
  (∀ r, parse_agent_response_strict raw = Ok r → sound_response raw r) ∧
  (parse_agent_response_strict raw = Err ResponseEmpty ↔ forallb is_whitespace raw = true).
Proof.
  rewrite <- trim_nil. split.
  - intros r. unfold parse_agent_response_strict. cbv zeta. intros HR.
    apply (sound_response_part (trim raw)); [apply trim_part|]. revert HR. generalize (trim raw). intros t.
    destruct (is_empty t); [discriminate|].
    destruct (parse_structured_json_response_with_reason t) as [r'|e] eqn:E1.
    { intros [= <-]. by apply reason_sound. }
    destruct (strip_markdown_code_fence t) as [inner|] eqn:E2.
    { destruct (parse_structured_json_response_with_recovery inner) as [r'|] eqn:E3; [|discriminate].
      intros [= <-]. eapply sound_response_part; [by apply strip_part|by apply recovery_sound]. }
    destruct (find_embedded_code_fence_content t) as [inner|] eqn:E3; cbn [mbind option_bind].
    + destruct (parse_structured_json_response_with_recovery inner) as [r'|] eqn:E4.
      { intros [= <-]. eapply sound_response_part; [by apply embedded_part|by apply recovery_sound]. }
      destruct (recover_embedded_structured_json_response t) as [r'|] eqn:E5; [|discriminate].
      intros [= <-]. by apply recover_sound.
    + destruct (recover_embedded_structured_json_response t) as [r'|] eqn:E5; [|discriminate].
      intros [= <-]. by apply recover_sound.
  - unfold parse_agent_response_strict. cbv zeta. rewrite <- is_empty_true.
    destruct (is_empty (trim raw)); [done|]. split; [|discriminate].
    destruct (parse_structured_json_response_with_reason (trim raw)); [done|].
    repeat case_match; done.
Qed.
End recovery.

(** ** Concrete messages *)

Module ParseDemo.
Definition quote : str := [34%N].

(** The payload of an answer without escapes, and its value. *)
Definition payload (text : str) : str :=
  L"{" ++ quote ++ L"answer" ++ quote ++ L":" ++ quote ++ text ++ quote ++ L"}".
Definition payload_value (text : str) : Value := VObject [(L"answer", VString text)].

Definition demo_error : JsonError := mkJsonError (L"expected value") CategorySyntax 1 1.

(** A parser that knows one payload. *)
Definition one_payload (text : str) : SerdeJson := {|
  json_from_str s := if str_eqb (trim s) (payload text) then Ok (payload_value text) else Err demo_error;
  json_stream s :=
    match strip_prefix (payload text) (trim_start s) with
    | Some rest => Some (payload_value text, rest) | None => None end;
  json_to_string _ := [];
  response_from_value v :=
    match v with
    | VObject [(_, VString t)] => Ok (AgentResponse_plain t) | _ => Err demo_error end;
  utility_from_value _ := Err demo_error;
  metadata_from_str _ := Err demo_error;
  metadata_value _ := VNull;
  review_from_str _ := Err demo_error;
  debug_char c := [c]
|}.

Lemma trim_leading_backtick s : ∃ s', trim (backtick :: s) = backtick :: s'.
Proof.
  unfold trim, trim_start, trim_start_matches. cbn [skip_while].
  change (is_whitespace backtick) with false. cbn iota.
  pose proof (trim_end_keeps_start is_whitespace is_whitespace (backtick :: s) eq_refl) as E.
  destruct (trim_end_matches_prefix is_whitespace (backtick :: s)) as [k Hk]. fold trim_end in *.
  destruct (trim_end (backtick :: s)) as [|c s'] eqn:ET.
  - apply trim_end_matches_nil in ET. discriminate.
  - unfold trim_end in ET. rewrite ET in Hk. injection Hk as <- _. by exists s'.
Qed.

Lemma trim_trailing_backtick s : ∃ s', trim (s ++ [backtick]) = s' ++ [backtick].
Proof. destruct (trim_prose s [backtick]) as (x & -> & _); [done|done|]. by exists x. Qed.

Lemma payload_last text : ∃ s, payload text = s ++ [125%N].
Proof. eexists. unfold payload. rewrite !app_assoc. reflexivity. Qed.

#[export] Instance one_payload_laws text : @SerdeJsonLaws (one_payload text).
Proof.
  split; cbn [json_from_str json_stream one_payload].
  - intros s. exists demo_error. destruct (trim_leading_backtick s) as [s' ->].
    destruct (str_eqb _ _) eqn:E; [|done]. apply str_eqb_true in E. discriminate.
  - intros s. exists demo_error. destruct (trim_trailing_backtick s) as [s' ->].
    destruct (str_eqb _ _) eqn:E; [|done]. apply str_eqb_true in E.
    destruct (payload_last text) as [t Et]. rewrite Et in E. apply app_inj_tail in E as [_ E]. discriminate.
  - intros s v. destruct (str_eqb (trim s) (payload text)) eqn:E; [|discriminate].
    intros [= <-]. apply str_eqb_true in E. unfold trim in E.
    destruct (trim_end_split is_whitespace (trim_start s)) as (k & Hk & HW). fold (trim_end (trim_start s)) in Hk.
    rewrite E in Hk. exists k. rewrite (proj2 (strip_prefix_Some _ _ k)) by done. split; [done|by apply trim_nil].
Qed.

Definition hello : str := payload (L"Hi").

Lemma accepts_payload text :
  @accepts (one_payload text) (payload text) (AgentResponse_plain text).
Proof.
  exists (payload_value text). split_and!; [|done|done]. cbn [json_from_str one_payload].
  assert (trim (payload text) = payload text) as ->; [|by rewrite str_eqb_refl].
  unfold payload. destruct (trim_prose (L"{" ++ quote ++ L"answer" ++ quote ++ L":" ++ quote ++ text ++ quote) (L"}"))
    as (x & E & _); [done|done|]. unfold trim, trim_start, trim_start_matches.
  change (skip_while is_whitespace _) with (payload text). unfold payload.
  rewrite !app_assoc. by apply trim_end_snoc.
Qed.

Lemma wrapped_response_is_recovered_witness :
  @parse_agent_response_strict (one_payload (L"Hi"))
    (L"Done:" ++ [newline] ++ fence ++ L"json" ++ [newline] ++ hello ++ [newline] ++ fence ++ [newline]) =
  Ok (AgentResponse_plain (L"Hi")).
Proof.
  destruct (@wrapped_response_is_recovered (one_payload (L"Hi")) _ hello (AgentResponse_plain (L"Hi")) (L"json")
    [] [newline] [] [newline] (L"Done:" ++ [newline])) as (_ & _ & H3 & _).
  - apply accepts_payload.
  - vm_compute. reflexivity.
  - vm_compute. discriminate.
  - apply (bool_decide_unpack _). vm_compute. exact I.
  - reflexivity.
  - reflexivity.
  - reflexivity.
  - reflexivity.
  - refine (H3 _ _ eq_refl eq_refl _ _ _).
    + vm_compute. discriminate.
    + apply (bool_decide_unpack _). vm_compute. exact I.
    + intros HF. apply str_contains_true in HF. vm_compute in HF. discriminate.
Defined.

Lemma accepted_response_stands_in_message_witness :
  @sound_response (one_payload (L"Hi")) hello (AgentResponse_plain (L"Hi")).
Proof.
  apply (@accepted_response_stands_in_message (one_payload (L"Hi")) _ hello). vm_compute. reflexivity.
Defined.

(** A fenced payload after prose is lost when its answer quotes code in a
    fence of its own, although the same payload is accepted without the prose. *)
Definition fenced_answer : str := L"Run " ++ fence ++ L"make" ++ fence ++ L" first".
Definition fenced_message : str :=
  fence ++ L"json" ++ [newline] ++ payload fenced_answer ++ [newline] ++ fence.

Lemma fence_in_answer_blocks_recovery :
  @parse_agent_response_strict (one_payload fenced_answer) fenced_message =
    Ok (AgentResponse_plain fenced_answer) ∧
  ∃ e, @parse_agent_response_strict (one_payload fenced_answer) (L"Done:" ++ [newline] ++ fenced_message) = Err e.
Proof. split; [vm_compute; reflexivity|]. eexists. vm_compute. reflexivity. Qed.
End ParseDemo.
