(* ===== verification/SessionState.v ===== *)
(** * Loaded sessions (crates/agentty/src/app/session/state.rs)

    The snapshots of the active project in list order, with an index from
    session identifiers to positions, the live handles of the workers, and the
    caches shown beside the list.  Time stamps of the refresh loop are left out. *)
From stdpp Require Import gmap.
From S2P Require Import Prelude Contracts Agent Lifecycle Transcript Transient Prompt Input Session.

(** ** Assignments to one field of a snapshot *)

Definition set_agent (self : Session) (x : AgentSelection) : Session :=
  mkSession x (base_branch self) (controller_session_id self) (created_at self) (draft_attachments self)
    (folder self) (follow_up_tasks self) (id self) (in_progress_started_at self)
    (in_progress_total_seconds self) (is_draft self) (orchestration_progress self) (parent_session_id self)
    (permission_mode self) (personality_id self) (project_name self) (prompt self) (published_upstream_ref self)
    (questions self) (queued_messages self) (reasoning_level_override self) (response_style self)
    (review_request self) (role self) (size self) (speed_mode self) (stats self) (status self) (title self)
    (transcript self) (updated_at self) (transient_messages self).

Definition set_follow_up_tasks (self : Session) (x : list SessionFollowUpTask) : Session :=
  mkSession (agent self) (base_branch self) (controller_session_id self) (created_at self)
    (draft_attachments self) (folder self) x (id self) (in_progress_started_at self)
    (in_progress_total_seconds self) (is_draft self) (orchestration_progress self) (parent_session_id self)
    (permission_mode self) (personality_id self) (project_name self) (prompt self) (published_upstream_ref self)
    (questions self) (queued_messages self) (reasoning_level_override self) (response_style self)
    (review_request self) (role self) (size self) (speed_mode self) (stats self) (status self) (title self)
    (transcript self) (updated_at self) (transient_messages self).

Definition set_orchestration_progress (self : Session) (x : option str) : Session :=
  mkSession (agent self) (base_branch self) (controller_session_id self) (created_at self)
    (draft_attachments self) (folder self) (follow_up_tasks self) (id self) (in_progress_started_at self)
    (in_progress_total_seconds self) (is_draft self) x (parent_session_id self) (permission_mode self)
    (personality_id self) (project_name self) (prompt self) (published_upstream_ref self) (questions self)
    (queued_messages self) (reasoning_level_override self) (response_style self) (review_request self)
    (role self) (size self) (speed_mode self) (stats self) (status self) (title self) (transcript self)
    (updated_at self) (transient_messages self).

Definition set_permission_mode (self : Session) (x : PermissionMode) : Session :=
  mkSession (agent self) (base_branch self) (controller_session_id self) (created_at self)
    (draft_attachments self) (folder self) (follow_up_tasks self) (id self) (in_progress_started_at self)
    (in_progress_total_seconds self) (is_draft self) (orchestration_progress self) (parent_session_id self) x
    (personality_id self) (project_name self) (prompt self) (published_upstream_ref self) (questions self)
    (queued_messages self) (reasoning_level_override self) (response_style self) (review_request self)
    (role self) (size self) (speed_mode self) (stats self) (status self) (title self) (transcript self)
    (updated_at self) (transient_messages self).

Definition set_personality_id (self : Session) (x : option str) : Session :=
  mkSession (agent self) (base_branch self) (controller_session_id self) (created_at self)
    (draft_attachments self) (folder self) (follow_up_tasks self) (id self) (in_progress_started_at self)
    (in_progress_total_seconds self) (is_draft self) (orchestration_progress self) (parent_session_id self)
    (permission_mode self) x (project_name self) (prompt self) (published_upstream_ref self) (questions self)
    (queued_messages self) (reasoning_level_override self) (response_style self) (review_request self)
    (role self) (size self) (speed_mode self) (stats self) (status self) (title self) (transcript self)
    (updated_at self) (transient_messages self).

Definition set_published_upstream_ref (self : Session) (x : option str) : Session :=
  mkSession (agent self) (base_branch self) (controller_session_id self) (created_at self)
    (draft_attachments self) (folder self) (follow_up_tasks self) (id self) (in_progress_started_at self)
    (in_progress_total_seconds self) (is_draft self) (orchestration_progress self) (parent_session_id self)
    (permission_mode self) (personality_id self) (project_name self) (prompt self) x (questions self)
    (queued_messages self) (reasoning_level_override self) (response_style self) (review_request self)
    (role self) (size self) (speed_mode self) (stats self) (status self) (title self) (transcript self)
    (updated_at self) (transient_messages self).

Definition set_questions (self : Session) (x : list QuestionItem) : Session :=
  mkSession (agent self) (base_branch self) (controller_session_id self) (created_at self)
    (draft_attachments self) (folder self) (follow_up_tasks self) (id self) (in_progress_started_at self)
    (in_progress_total_seconds self) (is_draft self) (orchestration_progress self) (parent_session_id self)
    (permission_mode self) (personality_id self) (project_name self) (prompt self) (published_upstream_ref self)
    x (queued_messages self) (reasoning_level_override self) (response_style self) (review_request self)
    (role self) (size self) (speed_mode self) (stats self) (status self) (title self) (transcript self)
    (updated_at self) (transient_messages self).

Definition set_queued_messages (self : Session) (x : list QueuedMessage) : Session :=
  mkSession (agent self) (base_branch self) (controller_session_id self) (created_at self)
    (draft_attachments self) (folder self) (follow_up_tasks self) (id self) (in_progress_started_at self)
    (in_progress_total_seconds self) (is_draft self) (orchestration_progress self) (parent_session_id self)
    (permission_mode self) (personality_id self) (project_name self) (prompt self) (published_upstream_ref self)
    (questions self) x (reasoning_level_override self) (response_style self) (review_request self) (role self)
    (size self) (speed_mode self) (stats self) (status self) (title self) (transcript self) (updated_at self)
    (transient_messages self).

Definition set_reasoning_level_override (self : Session) (x : option ReasoningLevel) : Session :=
  mkSession (agent self) (base_branch self) (controller_session_id self) (created_at self)
    (draft_attachments self) (folder self) (follow_up_tasks self) (id self) (in_progress_started_at self)
    (in_progress_total_seconds self) (is_draft self) (orchestration_progress self) (parent_session_id self)
    (permission_mode self) (personality_id self) (project_name self) (prompt self) (published_upstream_ref self)
    (questions self) (queued_messages self) x (response_style self) (review_request self) (role self)
    (size self) (speed_mode self) (stats self) (status self) (title self) (transcript self) (updated_at self)
    (transient_messages self).

Definition set_response_style (self : Session) (x : ResponseStyle) : Session :=
  mkSession (agent self) (base_branch self) (controller_session_id self) (created_at self)
    (draft_attachments self) (folder self) (follow_up_tasks self) (id self) (in_progress_started_at self)
    (in_progress_total_seconds self) (is_draft self) (orchestration_progress self) (parent_session_id self)
    (permission_mode self) (personality_id self) (project_name self) (prompt self) (published_upstream_ref self)
    (questions self) (queued_messages self) (reasoning_level_override self) x (review_request self) (role self)
    (size self) (speed_mode self) (stats self) (status self) (title self) (transcript self) (updated_at self)
    (transient_messages self).

Definition set_review_request (self : Session) (x : option ReviewRequest) : Session :=
  mkSession (agent self) (base_branch self) (controller_session_id self) (created_at self)
    (draft_attachments self) (folder self) (follow_up_tasks self) (id self) (in_progress_started_at self)
    (in_progress_total_seconds self) (is_draft self) (orchestration_progress self) (parent_session_id self)
    (permission_mode self) (personality_id self) (project_name self) (prompt self) (published_upstream_ref self)
    (questions self) (queued_messages self) (reasoning_level_override self) (response_style self) x (role self)
    (size self) (speed_mode self) (stats self) (status self) (title self) (transcript self) (updated_at self)
    (transient_messages self).

Definition set_size (self : Session) (x : SessionSize) : Session :=
  mkSession (agent self) (base_branch self) (controller_session_id self) (created_at self)
    (draft_attachments self) (folder self) (follow_up_tasks self) (id self) (in_progress_started_at self)
    (in_progress_total_seconds self) (is_draft self) (orchestration_progress self) (parent_session_id self)
    (permission_mode self) (personality_id self) (project_name self) (prompt self) (published_upstream_ref self)
    (questions self) (queued_messages self) (reasoning_level_override self) (response_style self)
    (review_request self) (role self) x (speed_mode self) (stats self) (status self) (title self)
    (transcript self) (updated_at self) (transient_messages self).

Definition set_speed_mode (self : Session) (x : SpeedMode) : Session :=
  mkSession (agent self) (base_branch self) (controller_session_id self) (created_at self)
    (draft_attachments self) (folder self) (follow_up_tasks self) (id self) (in_progress_started_at self)
    (in_progress_total_seconds self) (is_draft self) (orchestration_progress self) (parent_session_id self)
    (permission_mode self) (personality_id self) (project_name self) (prompt self) (published_upstream_ref self)
    (questions self) (queued_messages self) (reasoning_level_override self) (response_style self)
    (review_request self) (role self) (size self) x (stats self) (status self) (title self) (transcript self)
    (updated_at self) (transient_messages self).

Definition set_stats (self : Session) (x : SessionStats) : Session :=
  mkSession (agent self) (base_branch self) (controller_session_id self) (created_at self)
    (draft_attachments self) (folder self) (follow_up_tasks self) (id self) (in_progress_started_at self)
    (in_progress_total_seconds self) (is_draft self) (orchestration_progress self) (parent_session_id self)
    (permission_mode self) (personality_id self) (project_name self) (prompt self) (published_upstream_ref self)
    (questions self) (queued_messages self) (reasoning_level_override self) (response_style self)
    (review_request self) (role self) (size self) (speed_mode self) x (status self) (title self)
    (transcript self) (updated_at self) (transient_messages self).

Definition set_transcript (self : Session) (x : option SessionTranscript) : Session :=
  mkSession (agent self) (base_branch self) (controller_session_id self) (created_at self)
    (draft_attachments self) (folder self) (follow_up_tasks self) (id self) (in_progress_started_at self)
    (in_progress_total_seconds self) (is_draft self) (orchestration_progress self) (parent_session_id self)
    (permission_mode self) (personality_id self) (project_name self) (prompt self) (published_upstream_ref self)
    (questions self) (queued_messages self) (reasoning_level_override self) (response_style self)
    (review_request self) (role self) (size self) (speed_mode self) (stats self) (status self) (title self) x
    (updated_at self) (transient_messages self).

(** ** The state *)

Record SessionGitStatus := mkGitStatus {
  base_status : option (Z * Z);
  has_merge_conflict : option bool;
  remote_status : option (Z * Z)
}.

(** [selected] is the selection of the list. *)
Record SessionState := mkSessionState {
  follow_up_task_positions : gmap SessionId nat;
  row_count : Z;
  session_branch_names : gmap SessionId str;
  session_git_statuses : gmap SessionId SessionGitStatus;
  session_index_by_id : gmap SessionId nat;
  session_worktree_availability : gmap SessionId bool;
  sessions : list Session;
  selected : option nat;
  updated_at_max : Z;
  handles : gmap SessionId SessionHandles
}.

Definition set_sessions (self : SessionState) (ss : list Session) : SessionState :=
  mkSessionState (follow_up_task_positions self) (row_count self) (session_branch_names self)
    (session_git_statuses self) (session_index_by_id self) (session_worktree_availability self) ss
    (selected self) (updated_at_max self) (handles self).

Definition set_index (self : SessionState) (index : gmap SessionId nat) : SessionState :=
  mkSessionState (follow_up_task_positions self) (row_count self) (session_branch_names self)
    (session_git_statuses self) index (session_worktree_availability self) (sessions self)
    (selected self) (updated_at_max self) (handles self).

Definition set_handles (self : SessionState) (hs : gmap SessionId SessionHandles) : SessionState :=
  mkSessionState (follow_up_task_positions self) (row_count self) (session_branch_names self)
    (session_git_statuses self) (session_index_by_id self) (session_worktree_availability self) (sessions self)
    (selected self) (updated_at_max self) hs.

Definition set_positions (self : SessionState) (positions : gmap SessionId nat) : SessionState :=
  mkSessionState positions (row_count self) (session_branch_names self)
    (session_git_statuses self) (session_index_by_id self) (session_worktree_availability self) (sessions self)
    (selected self) (updated_at_max self) (handles self).

Definition replace_session_git_statuses (self : SessionState) (m : gmap SessionId SessionGitStatus) : SessionState :=
  mkSessionState (follow_up_task_positions self) (row_count self) (session_branch_names self) m
    (session_index_by_id self) (session_worktree_availability self) (sessions self)
    (selected self) (updated_at_max self) (handles self).

Definition replace_session_worktree_availability (self : SessionState) (m : gmap SessionId bool) : SessionState :=
  mkSessionState (follow_up_task_positions self) (row_count self) (session_branch_names self)
    (session_git_statuses self) (session_index_by_id self) m (sessions self)
    (selected self) (updated_at_max self) (handles self).

Definition replace_session_branch_names (self : SessionState) (m : gmap SessionId str) : SessionState :=
  mkSessionState (follow_up_task_positions self) (row_count self) m
    (session_git_statuses self) (session_index_by_id self) (session_worktree_availability self) (sessions self)
    (selected self) (updated_at_max self) (handles self).

(** ** Lookup *)

(** Later snapshots win in a map collected from pairs. *)
Definition build_session_index_by_id (ss : list Session) : gmap SessionId nat :=
  fold_left (λ m '(i, s), <[id s := i]> m) (imap pair ss) ∅.

Definition session_index_for_id (self : SessionState) (session_id : SessionId) : option nat :=
  session_index_by_id self !! session_id.

Definition session_for_id (self : SessionState) (session_id : SessionId) : option Session :=
  i ← session_index_for_id self session_id; sessions self !! i.

(** [session_mut_for_id] followed by a change of the snapshot. *)
Definition update_for_id (self : SessionState) (session_id : SessionId) (f : Session → Session) : SessionState :=
  match session_index_for_id self session_id with
  | Some i => set_sessions self (alter f i (sessions self))
  | None => self
  end.

(** [sessions.iter_mut().find(...)] followed by a change of the snapshot. *)
Fixpoint update_first (session_id : SessionId) (f : Session → Session) (ss : list Session) : list Session :=
  match ss with
  | [] => []
  | s :: rest => if bool_decide (id s = session_id) then f s :: rest else s :: update_first session_id f rest
  end.

Definition update_found (self : SessionState) (session_id : SessionId) (f : Session → Session) : SessionState :=
  set_sessions self (update_first session_id f (sessions self)).

Definition find_session (self : SessionState) (session_id : SessionId) : option Session :=
  list_find_b (λ s, bool_decide (id s = session_id)) (sessions self).

Definition handle (self : SessionState) (session_id : SessionId) : option SessionHandles :=
  handles self !! session_id.

Definition remove_handle (self : SessionState) (session_id : SessionId) : SessionState :=
  set_handles self (delete session_id (handles self)).

(** A change behind the locks of a live handle. *)
Definition update_handle (self : SessionState) (session_id : SessionId) (f : SessionHandles → SessionHandles)
  : SessionState := set_handles self (alter f session_id (handles self)).

(** ** Changes of the list *)

Definition push_session (self : SessionState) (s : Session) : SessionState :=
  set_sessions (set_index self (<[id s := length (sessions self)]> (session_index_by_id self)))
    (sessions self ++ [s]).

Definition SessionState_new (hs : gmap SessionId SessionHandles) (ss : list Session) (selected : option nat)
    (row_count updated_at_max : Z) : SessionState :=
  fold_left push_session ss (mkSessionState ∅ row_count ∅ ∅ ∅ ∅ [] selected updated_at_max hs).

Definition remove_session_at (self : SessionState) (i : nat) : option Session * SessionState :=
  match sessions self !! i with
  | None => (None, self)
  | Some s =>
      let ss := remove_nth i (sessions self) in
      (Some s, set_index (set_sessions self ss) (build_session_index_by_id ss))
  end.

Section state.
Context `{FxHasher}.

(** The transient output of a session that stays loaded; the preparation slot
    comes from the new snapshot. *)
Definition carry_transient (previous : SessionState) (s : Session) : Session :=
  match last (List.filter (λ p, bool_decide (id p = id s)) (sessions previous)) with
  | None => s
  | Some p =>
      let preparation := store_get (transient_messages s) WorkspacePreparation in
      let store := (retract (transient_messages p) WorkspacePreparation).2 in
      let store := match preparation with Some m => upsert store m | None => store end in
      reconcile_status_transition (set_transient_messages s store) (status p)
  end.

Definition replace_sessions (self : SessionState) (ss : list Session) : SessionState :=
  let ss := carry_transient self <$> ss in
  set_sessions (set_index self (build_session_index_by_id ss)) ss.

(** ** Handles *)

Definition set_handle_status (h : SessionHandles) (st : SessionStatus) : SessionHandles :=
  {| handles_queued_actions := handles_queued_actions h; handles_queued_messages := handles_queued_messages h;
     queued_work_sequence := queued_work_sequence h; handles_status := st;
     handles_transcript := handles_transcript h; transcript_is_hydrated := transcript_is_hydrated h |}.

Definition transition_status_if_current (self : SessionState) (session_id : SessionId)
    (current_status next_status : SessionStatus) : SessionState :=
  let self := update_for_id self session_id (λ s,
    if bool_decide (status s = current_status) then set_status s next_status else s) in
  update_handle self session_id (λ h,
    if bool_decide (handles_status h = current_status) then set_handle_status h next_status else h).

Definition sync_session_with_handles (s : Session) (h : SessionHandles) : Session :=
  let s := set_status s (handles_status h) in
  let s := set_transcript s (if SessionTranscript_is_empty (handles_transcript h) then None
                             else Some (handles_transcript h)) in
  let s := set_queued_messages s (queued_message_snapshot h) in
  set_transient_messages s (fold_left upsert (queued_action_snapshot h) (transient_messages s)).

Definition synced (h : SessionHandles) (s : Session) : Session :=
  reconcile_status_transition (sync_session_with_handles s h) (status s).

Definition sync_session_from_handle (self : SessionState) (session_id : SessionId) : SessionState :=
  match session_index_for_id self session_id with
  | None => self
  | Some i =>
      match handle self session_id with
      | None => self
      | Some h => set_sessions self (alter (synced h) i (sessions self))
      end
  end.

Definition sync_from_handles (self : SessionState) : SessionState :=
  set_sessions self
    ((λ s, match handles self !! id s with Some h => synced h s | None => s end) <$> sessions self).

Definition state_upsert_queued_action (self : SessionState) (session_id : SessionId) (message : TransientMessage)
  : SessionState :=
  let self := update_handle self session_id (λ h, upsert_queued_action h message) in
  update_for_id self session_id (λ s, set_transient_messages s (upsert (transient_messages s) message)).

Definition state_resolve_queued_action (self : SessionState) (session_id : SessionId) (slot : TransientMessageSlot)
  : SessionState :=
  let self := update_handle self session_id (λ h, resolve_queued_action h slot) in
  update_for_id self session_id (λ s, set_transient_messages s (retract (transient_messages s) slot).2).

Definition with_diff_stats (diff_stats : SessionDiffStats) (s : Session) : Session :=
  let st := stats s in
  match diff_stats with
  | DiffStatsKnown added deleted _ session_size =>
      set_size (set_stats s (mkSessionStats added deleted (diff_state diff_stats) (input_tokens st) (output_tokens st)))
        session_size
  | DiffStatsUnknown =>
      set_stats s (mkSessionStats (added_lines st) (deleted_lines st) (diff_state diff_stats) (input_tokens st)
                     (output_tokens st))
  end.

Definition apply_session_diff_stats_updated (self : SessionState) (session_id : SessionId)
    (diff_stats : SessionDiffStats) : SessionState :=
  update_for_id self session_id (with_diff_stats diff_stats).

(** ** Follow-up tasks *)

Definition selected_follow_up_task_position (self : SessionState) (session_id : SessionId) : option nat :=
  s ← session_for_id self session_id;
  if is_empty (follow_up_tasks s) then None
  else Some (default 0 (follow_up_task_positions self !! session_id) `min` (length (follow_up_tasks s) - 1)).

Definition advance_follow_up_task_selection (self : SessionState) (session_id : SessionId) (move_forward : bool)
  : SessionState :=
  match session_for_id self session_id with
  | None => self
  | Some s =>
      let count := length (follow_up_tasks s) in
      if count <=? 1 then
        if count =? 1 then set_positions self (<[session_id := 0]> (follow_up_task_positions self)) else self
      else
        let next_position :=
          match selected_follow_up_task_position self session_id with
          | Some current => if move_forward then (current + 1) mod count
                            else if current =? 0 then count - 1 else current - 1
          | None => 0
          end in
        set_positions self (<[session_id := next_position]> (follow_up_task_positions self))
  end.

Definition select_next_follow_up_task (self : SessionState) (session_id : SessionId) : SessionState :=
  advance_follow_up_task_selection self session_id true.

Definition select_previous_follow_up_task (self : SessionState) (session_id : SessionId) : SessionState :=
  advance_follow_up_task_selection self session_id false.

Fixpoint update_task (position : nat) (launched : option SessionId) (tasks : list SessionFollowUpTask)
  : list SessionFollowUpTask :=
  match tasks with
  | [] => []
  | t :: rest =>
      if task_position t =? position then mkFollowUpTask (task_id t) launched (task_position t) (task_text t) :: rest
      else t :: update_task position launched rest
  end.

Definition set_follow_up_task_launched_session_id (self : SessionState) (session_id : SessionId) (position : nat)
    (launched : option SessionId) : SessionState :=
  update_for_id self session_id (λ s, set_follow_up_tasks s (update_task position launched (follow_up_tasks s))).

(** ** Caches beside the list *)

Definition set_session_worktree_available (self : SessionState) (session_id : SessionId) (b : bool) : SessionState :=
  replace_session_worktree_availability self (<[session_id := b]> (session_worktree_availability self)).

Definition remove_session_worktree_availability (self : SessionState) (session_id : SessionId) : SessionState :=
  replace_session_worktree_availability self (delete session_id (session_worktree_availability self)).

Definition retain_session_branch_names (self : SessionState) (active : gset SessionId) : SessionState :=
  replace_session_branch_names self (filter (λ kv, kv.1 ∈ active) (session_branch_names self)).

Definition retain_session_git_statuses (self : SessionState) (active : gset SessionId) : SessionState :=
  replace_session_git_statuses self (filter (λ kv, kv.1 ∈ active) (session_git_statuses self)).

(** The number of follow-up tasks per loaded session; later snapshots win. *)
Definition follow_up_task_counts (self : SessionState) : gmap SessionId nat :=
  fold_left (λ m s, <[id s := length (follow_up_tasks s)]> m) (sessions self) ∅.

Definition retain_follow_up_task_positions (self : SessionState) (active : gset SessionId) : SessionState :=
  set_positions self (map_imap (λ session_id position,
    if bool_decide (session_id ∈ active) then
      match follow_up_task_counts self !! session_id with
      | Some (S n) => Some (position `min` n)
      | _ => None
      end
    else None) (follow_up_task_positions self)).
End state.

(** ** Laws *)

Section laws.
Context `{FxHasher}.

(** The index names exactly the positions of the snapshots. *)
Record wf_state (self : SessionState) : Prop := {
  wf_ids : NoDup (id <$> sessions self);
  wf_index k i : session_index_by_id self !! k = Some i ↔ ∃ s, sessions self !! i = Some s ∧ id s = k
}.

Lemma build_index_lookup ss (m : gmap SessionId nat) k i n :
  NoDup (id <$> ss) →
  fold_left (λ m '(i, s), <[id s := i]> m) (imap (λ i s, (n + i, s)) ss) m !! k = Some i ↔
  (∃ j s, ss !! j = Some s ∧ id s = k ∧ i = n + j) ∨ (k ∉ id <$> ss) ∧ m !! k = Some i.
Proof.
  revert m n. induction ss as [|s ss IH]; intros m n HN.
  { cbn. split; [|by intros [(? & ? & ? & _)|[_ ?]]]. intros HM. right. split; [apply not_elem_of_nil|done]. }
  cbn [imap fold_left fmap list_fmap]. apply NoDup_cons in HN as [HI HN].
  rewrite (imap_ext _ (λ i s, (S n + i, s))) by (intros; cbn; f_equal; lia). rewrite IH by done. rewrite not_elem_of_cons. split.
  - intros [(j & t & HJ & <- & ->)|[HK HM]].
    + left. exists (S j), t. split_and!; [done|done|lia].
    + destruct (decide (id s = k)) as [<-|HE].
      * rewrite lookup_insert_eq in HM. injection HM as <-. left. exists 0, s. split_and!; [done|done|lia].
      * rewrite lookup_insert_ne in HM by done. right. done.
  - intros [([|j] & t & HJ & <- & ->)|[[HE HK] HM]].
    + injection HJ as <-. right. split; [done|]. by rewrite lookup_insert_eq, Nat.add_0_r.
    + left. exists j, t. split_and!; [done|done|lia].
    + right. split; [done|]. by rewrite lookup_insert_ne.
Qed.

Lemma build_index_wf ss k i :
  NoDup (id <$> ss) → build_session_index_by_id ss !! k = Some i ↔ ∃ s, ss !! i = Some s ∧ id s = k.
Proof.
  intros HN. unfold build_session_index_by_id. pose proof (build_index_lookup ss ∅ k i 0 HN) as HB. cbn [Nat.add] in HB.
  rewrite HB. split.
  - intros [(j & s & HJ & HK & ->)|[_ HM]]; [eauto|]. by rewrite lookup_empty in HM.
  - intros (s & HS & HK). left. eauto.
Qed.

Lemma find_session_lookup self s i k :
  NoDup (id <$> sessions self) → sessions self !! i = Some s → id s = k → find_session self k = Some s.
Proof.
  unfold find_session. intros HN HS <-. revert i HS HN. induction (sessions self) as [|t ss IH]; [done|].
  intros [|i] HS; cbn [lookup list_lookup] in HS; cbn [fmap list_fmap list_find_b]; intros [HI HN]%NoDup_cons.
  - injection HS as <-. by rewrite bool_decide_true.
  - rewrite bool_decide_false; [by eapply IH|]. intros HE. apply HI. rewrite HE.
    apply list_elem_of_fmap. exists s. split; [done|]. by eapply list_elem_of_lookup_2.
Qed.

Lemma find_session_Some self s k : find_session self k = Some s → s ∈ sessions self ∧ id s = k.
Proof. intros HF. apply list_find_b_Some in HF as (HI & HE). split; [done|]. by apply bool_decide_eq_true in HE. Qed.

(** The index and the search through the list find the same snapshot. *)
Lemma session_for_id_find self k : wf_state self → session_for_id self k = find_session self k.
Proof.
  intros [HN HI]. unfold session_for_id, session_index_for_id. destruct (session_index_by_id self !! k) as [i|] eqn:EI; cbn [mbind option_bind].
  - apply HI in EI as (s & HS & HK). rewrite HS. symmetry. by eapply find_session_lookup.
  - destruct (find_session self k) as [s|] eqn:EF; [|done]. apply find_session_Some in EF as [HS HK].
    apply list_elem_of_lookup in HS as [i HS]. assert (session_index_by_id self !! k = Some i) as HX by (apply HI; eauto). congruence.
Qed.

(** ** Operations keep the index *)

Lemma wf_same_sessions self self' :
  sessions self' = sessions self → session_index_by_id self' = session_index_by_id self → wf_state self → wf_state self'.
Proof. intros ES EI [HN HI]. split; rewrite ES; [done|]. intros k i. by rewrite EI. Qed.

Lemma wf_map_sessions self (ss : list Session) :
  wf_state self → id <$> ss = id <$> sessions self → wf_state (set_sessions self ss).
Proof.
  intros [HN HI] HE. split; cbn [sessions session_index_by_id set_sessions]; [by rewrite HE|].
  intros k i. rewrite HI. assert (∀ l : list Session, (∃ s, l !! i = Some s ∧ id s = k) ↔ (id <$> l) !! i = Some k) as HX.
  { intros l. rewrite list_lookup_fmap, fmap_Some. split; intros (s & HS & HK); exists s; by rewrite HS. }
  by rewrite !HX, HE.
Qed.

Lemma ids_alter f i (ss : list Session) : (∀ s, id (f s) = id s) → id <$> alter f i ss = id <$> ss.
Proof.
  intros HF. revert i. induction ss as [|s ss IH]; intros [|i]; cbn; [done|done|by rewrite HF|]. f_equal. apply IH.
Qed.

Lemma update_for_id_wf self k f : (∀ s, id (f s) = id s) → wf_state self → wf_state (update_for_id self k f).
Proof.
  intros HF HW. unfold update_for_id. destruct (session_index_for_id self k); [|done].
  by apply wf_map_sessions; [|apply ids_alter].
Qed.

Lemma update_first_ids k f ss : (∀ s, id (f s) = id s) → id <$> update_first k f ss = id <$> ss.
Proof.
  intros HF. induction ss as [|s ss IH]; [done|]. cbn [update_first fmap list_fmap].
  case_bool_decide; cbn [fmap list_fmap]; [by rewrite HF|by rewrite IH].
Qed.

Lemma update_found_wf self k f : (∀ s, id (f s) = id s) → wf_state self → wf_state (update_found self k f).
Proof. intros HF HW. by apply wf_map_sessions; [|apply update_first_ids]. Qed.

Lemma push_session_wf self s : wf_state self → id s ∉ id <$> sessions self → wf_state (push_session self s).
Proof.
  intros [HN HI] HS. split; cbn [push_session sessions set_sessions set_index session_index_by_id].
  - rewrite fmap_app. apply NoDup_app. split_and!; [done| |apply NoDup_singleton]. cbn.
    intros x HX ->%list_elem_of_singleton. done.
  - intros k i. destruct (decide (id s = k)) as [<-|HE].
    + rewrite lookup_insert_eq. split.
      * intros [= <-]. exists s. by rewrite list_lookup_middle.
      * intros (t & [HT|[HL HT]]%lookup_app_Some & HK).
        -- exfalso. apply HS. rewrite <- HK. apply list_elem_of_fmap_2. by eapply list_elem_of_lookup_2.
        -- apply list_lookup_singleton_Some in HT as [HZ _]. f_equal. lia.
    + rewrite lookup_insert_ne, HI by done. split.
      * intros (t & HT & HK). exists t. split; [by apply lookup_app_l_Some|done].
      * intros (t & [HT|[HL HT]]%lookup_app_Some & HK); [eauto|].
        apply list_lookup_singleton_Some in HT as [_ <-]. done.
Qed.

Lemma rebuilt_wf self ss : NoDup (id <$> ss) → wf_state (set_sessions (set_index self (build_session_index_by_id ss)) ss).
Proof. intros HN. split; [done|]. intros k i. cbn [set_sessions set_index session_index_by_id sessions]. by apply build_index_wf. Qed.

Lemma remove_nth_ids i (ss : list Session) : NoDup (id <$> ss) → NoDup (id <$> remove_nth i ss).
Proof.
  intros HN. eapply sublist_NoDup; [exact HN|]. apply fmap_sublist. clear HN. revert i.
  induction ss as [|s ss IH]; intros [|i]; [done|done|by apply sublist_cons|apply sublist_skip, IH].
Qed.

Lemma reconcile_status_transition_id s st : id (reconcile_status_transition s st) = id s.
Proof. unfold reconcile_status_transition, reconcile_transient_messages. by repeat case_match. Qed.

Lemma synced_id h s : id (synced h s) = id s.
Proof. unfold synced. by rewrite reconcile_status_transition_id. Qed.

Lemma carry_transient_id previous s : id (carry_transient previous s) = id s.
Proof. unfold carry_transient. destruct (last _); [|done]. by rewrite reconcile_status_transition_id. Qed.

(** The operations of the reducers; a refresh brings distinct sessions. *)
Inductive state_step : SessionState → SessionState → Prop :=
| step_push self s : id s ∉ id <$> sessions self → state_step self (push_session self s)
| step_remove self i : state_step self (remove_session_at self i).2
| step_replace self ss : NoDup (id <$> ss) → state_step self (replace_sessions self ss)
| step_transition self k current next : state_step self (transition_status_if_current self k current next)
| step_sync self k : state_step self (sync_session_from_handle self k)
| step_sync_all self : state_step self (sync_from_handles self)
| step_upsert_action self k m : state_step self (state_upsert_queued_action self k m)
| step_resolve_action self k slot : state_step self (state_resolve_queued_action self k slot)
| step_diff_stats self k d : state_step self (apply_session_diff_stats_updated self k d)
| step_launched self k position launched :
    state_step self (set_follow_up_task_launched_session_id self k position launched)
| step_select self k forward : state_step self (advance_follow_up_task_selection self k forward)
| step_retain_positions self active : state_step self (retain_follow_up_task_positions self active)
| step_remove_handle self k : state_step self (remove_handle self k)
| step_worktree self k b : state_step self (set_session_worktree_available self k b)
| step_branch_names self active : state_step self (retain_session_branch_names self active)
| step_git_statuses self active : state_step self (retain_session_git_statuses self active).

Lemma state_step_wf self self' : state_step self self' → wf_state self → wf_state self'.
Proof.
  intros HS HW. destruct HS; try (by eapply wf_same_sessions; [| |exact HW]).
  - by apply push_session_wf.
  - unfold remove_session_at. destruct (sessions self !! i); [|done]. apply rebuilt_wf, remove_nth_ids, HW.
  - apply rebuilt_wf. rewrite <- list_fmap_compose, (list_fmap_ext _ id); [done|]. intros j s _. apply carry_transient_id.
  - apply (wf_same_sessions (update_for_id self k (λ s, if bool_decide (status s = current) then set_status s next else s)));
      [done|done|]. apply update_for_id_wf; [|done]. intros s. by case_bool_decide.
  - unfold sync_session_from_handle. destruct (session_index_for_id self k), (handle self k); try done.
    apply wf_map_sessions; [done|]. apply ids_alter, synced_id.
  - apply wf_map_sessions; [done|]. rewrite <- list_fmap_compose. apply list_fmap_ext. intros j s _. cbn.
    destruct (handles self !! id s); [apply synced_id|done].
  - apply update_for_id_wf; [done|]. by eapply wf_same_sessions; [| |exact HW].
  - apply update_for_id_wf; [done|]. by eapply wf_same_sessions; [| |exact HW].
  - apply update_for_id_wf; [|done]. intros s. by destruct d.
  - by apply update_for_id_wf.
  - unfold advance_follow_up_task_selection. repeat case_match; try done; by eapply wf_same_sessions; [| |exact HW].
Qed.

(** The changed snapshot is the same whichever way it is found. *)
Lemma update_for_id_found self k f : wf_state self → update_for_id self k f = update_found self k f.
Proof.
  intros [HN HI]. unfold update_for_id, update_found, session_index_for_id.
  destruct (session_index_by_id self !! k) as [i|] eqn:EI.
  - apply HI in EI as (s & HS & HK). f_equal. clear HI. revert i HS HN. induction (sessions self) as [|t ss IH]; [done|].
    intros [|i] HS HN; cbn in HS; cbn [update_first]; apply NoDup_cons in HN as [HX HN].
    + injection HS as <-. by rewrite bool_decide_true.
    + rewrite bool_decide_false; [cbn; f_equal; by apply IH|]. intros HE. apply HX. rewrite HE, <- HK.
      apply list_elem_of_fmap_2. by eapply list_elem_of_lookup_2.
  - assert (update_first k f (sessions self) = sessions self) as ->; [|by destruct self].
    assert (k ∉ id <$> sessions self) as HK.
    { intros (s & -> & HS)%list_elem_of_fmap. apply list_elem_of_lookup in HS as [i HS].
      assert (session_index_by_id self !! id s = Some i) by (apply HI; eauto). congruence. }
    clear -HK. induction (sessions self) as [|t ss IH]; [done|]. cbn [update_first]. apply not_elem_of_cons in HK as [HE HK].
    rewrite bool_decide_false by done. f_equal. by apply IH.
Qed.

(** C31: The index of the loaded sessions never goes stale: after any sequence of the operations on the session
    state, a lookup by identifier finds precisely the session with that identifier, and a change made through
    the index is the change made through a search of the list. *)
Theorem session_index_stays_exact self self' k f :
  rtc state_step self self' → wf_state self →
  session_for_id self' k = find_session self' k ∧ update_for_id self' k f = update_found self' k f ∧
  ∀ i, session_index_for_id self' k = Some i ↔ ∃ s, sessions self' !! i = Some s ∧ id s = k.
Proof.
  intros HR HW. assert (wf_state self') as HW'.
  { induction HR as [|x y z HS _ IH]; [done|]. apply IH. by eapply state_step_wf. }
  split_and!; [by apply session_for_id_find|by apply update_for_id_found|]. intros i. apply HW'.
Qed.

(** ** Follow-up tasks *)

Lemma selected_position_set self k s x :
  session_for_id self k = Some s → x < length (follow_up_tasks s) →
  selected_follow_up_task_position (set_positions self (<[k := x]> (follow_up_task_positions self))) k = Some x.
Proof.
  intros HS HX. unfold selected_follow_up_task_position.
  change (session_for_id (set_positions self (<[k := x]> (follow_up_task_positions self))) k) with (session_for_id self k).
  rewrite HS. cbn [mbind option_bind follow_up_task_positions set_positions]. rewrite lookup_insert_eq. change (default 0 (Some x)) with x.
  destruct (follow_up_tasks s); [cbn in HX; lia|]. cbn [is_empty]. f_equal. cbn [length] in *. lia.
Qed.

Lemma advance_selection self k s p forward :
  session_for_id self k = Some s → selected_follow_up_task_position self k = Some p → p < length (follow_up_tasks s) →
  selected_follow_up_task_position (advance_follow_up_task_selection self k forward) k =
  Some (let n := length (follow_up_tasks s) in
        if forward then (p + 1) mod n else if p =? 0 then n - 1 else p - 1).
Proof.
  intros HS HP HL. unfold advance_follow_up_task_selection. rewrite HS. cbv zeta. set (n := length (follow_up_tasks s)) in *.
  destruct (Nat.leb_spec n 1) as [H1|H1].
  - assert (n = 1) as HN by lia. assert (p = 0) as -> by lia. rewrite HN. cbn [Nat.eqb]. rewrite (selected_position_set _ _ s) by (done || lia).
    by destruct forward.
  - rewrite HP. apply (selected_position_set _ _ s); [done|]. fold n. destruct forward; [apply Nat.mod_upper_bound; lia|].
    destruct (Nat.eqb_spec p 0); lia.
Qed.

Lemma advance_session_for_id self k forward j :
  session_for_id (advance_follow_up_task_selection self k forward) j = session_for_id self j.
Proof. unfold advance_follow_up_task_selection. by repeat case_match. Qed.

(** The selection of a follow-up task stays on a task and wraps around: it is always a valid position, the
    next one is its successor or the first, and moving forward and back returns to it. *)
Theorem follow_up_selection_cycles self k s :
  session_for_id self k = Some s → follow_up_tasks s ≠ [] →
  ∃ p, selected_follow_up_task_position self k = Some p ∧ p < length (follow_up_tasks s) ∧
    selected_follow_up_task_position (select_next_follow_up_task self k) k = Some ((p + 1) mod length (follow_up_tasks s)) ∧
    selected_follow_up_task_position (select_previous_follow_up_task (select_next_follow_up_task self k) k) k = Some p.
Proof.
  intros HS HN. set (n := length (follow_up_tasks s)).
  assert (0 < n) as HP by (subst n; destruct (follow_up_tasks s); [done|cbn; lia]).
  assert (∃ p, selected_follow_up_task_position self k = Some p ∧ p < n) as (p & HSel & HL).
  { unfold selected_follow_up_task_position. rewrite HS. cbn [mbind option_bind]. fold n. destruct (follow_up_tasks s); [done|].
    cbn [is_empty]. eexists. split; [done|]. lia. }
  exists p. assert ((p + 1) mod n < n) as HM by (apply Nat.mod_upper_bound; lia).
  pose proof (advance_selection self k s p true HS HSel HL) as H1. cbv zeta in H1. fold n in H1.
  split_and!; [done|done|exact H1|]. unfold select_previous_follow_up_task, select_next_follow_up_task.
  rewrite (advance_selection _ k s ((p + 1) mod n) false); [|by rewrite advance_session_for_id|done|done]. cbv zeta. fold n. f_equal.
  destruct (decide (S p = n)) as [HE|HE].
  - rewrite Nat.add_1_r, HE, Nat.Div0.mod_same. cbn [Nat.eqb]. lia.
  - rewrite Nat.mod_small by lia. destruct (Nat.eqb_spec (p + 1) 0); lia.
Qed.
End laws.

Module StateDemo.
Definition two : SessionState :=
  SessionState_new ∅ [set_follow_up_tasks (sample_session (L"a") None Review)
                        [mkFollowUpTask 1 None 0 (L"x"); mkFollowUpTask 2 None 1 (L"y")];
                      sample_session (L"b") None Review] None 2 0.

Lemma two_wf : wf_state two.
Proof.
  unfold two, SessionState_new. cbn [fold_left]. repeat apply push_session_wf;
    [|apply not_elem_of_nil|intros HX; vm_compute in HX; by apply list_elem_of_singleton in HX].
  split; [constructor|]. intros k i. cbn [session_index_by_id sessions]. rewrite lookup_empty.
  split; [done|]. by intros (s & ? & _).
Defined.

Lemma session_index_stays_exact_witness :
  id <$> session_for_id (remove_session_at two 0).2 (L"b") = Some (L"b").
Proof.
  assert (rtc state_step two (remove_session_at two 0).2) as HR by (eapply rtc_once, step_remove).
  destruct (session_index_stays_exact two _ (L"b") (λ s, s) HR two_wf) as [-> _]. vm_compute. reflexivity.
Defined.

Lemma follow_up_selection_cycles_witness :
  selected_follow_up_task_position (select_previous_follow_up_task (select_next_follow_up_task two (L"a")) (L"a")) (L"a") = Some 0.
Proof.
  destruct (session_for_id two (L"a")) as [s|] eqn:ES; [|vm_compute in ES; discriminate].
  assert (follow_up_tasks s ≠ []) as HN by (vm_compute in ES; injection ES as <-; discriminate).
  destruct (follow_up_selection_cycles two (L"a") s ES HN) as (p & HP & _ & _ & HB). rewrite HB, <- HP.
  vm_compute. reflexivity.
Defined.
End StateDemo.
