(* ===== verification/Stack.v ===== *)
(** * Stacked sessions (crates/agentty/src/domain/session.rs, stack policies)

    The parent graph over the loaded sessions: depth, root and members of a
    stack, and the gates that decide which session may start branch work, be
    appended to a stack or get a stacked child.  The loops follow parent links
    with explicit fuel; the lemmas show when the fuel is enough. *)
From S2P Require Import Prelude Contracts Agent Lifecycle Transcript Transient Prompt Input Session.

Definition has_id (i : str) (s : Session) : bool := str_eqb (id s) i.

Definition find_session (sessions : list Session) (session_id : str) : option Session :=
  list_find_b (has_id session_id) sessions.

Definition id_visited (i : SessionId) (visited : list SessionId) : bool := bool_decide (i ∈ visited).

(** The [while let] of [session_stack_depth]; [None] is exhausted fuel,
    [Some None] the early [return None]. *)
Fixpoint stack_depth_loop (fuel : nat) (sessions : list Session) (current_session : Session)
    (visited_session_ids : list SessionId) (depth : nat) : option (option nat) :=
  match parent_session_id current_session with
  | None =>
      Some (if id_visited (id current_session) visited_session_ids then None else Some depth)
  | Some parent_id =>
      if id_visited (id current_session) visited_session_ids then Some None
      else match fuel with
           | 0 => None
           | S fuel =>
               match find_session sessions parent_id with
               | None => Some None
               | Some parent =>
                   stack_depth_loop fuel sessions parent
                     (visited_session_ids ++ [id current_session]) (S depth)
               end
           end
  end.

(** Every round visits a new loaded id, so the number of sessions is enough fuel. *)
Definition session_stack_depth (sessions : list Session) (session_id : str) : option nat :=
  current_session ← find_session sessions session_id;
  r ← stack_depth_loop (length sessions) sessions current_session [] 0;
  r.

(** [for _ in 0..depth]: one parent step per round. *)
Fixpoint parent_steps (sessions : list Session) (n : nat) (s : Session) : option Session :=
  match n with
  | 0 => Some s
  | S n =>
      parent_id ← parent_session_id s;
      t ← find_session sessions parent_id;
      parent_steps sessions n t
  end.

Definition stack_root_session (sessions : list Session) (session : Session) : option Session :=
  depth ← session_stack_depth sessions (id session);
  parent_steps sessions depth session.

Definition session_stack_root_id (sessions : list Session) (session : Session) : option SessionId :=
  id <$> stack_root_session sessions session.

Record SessionStack := mkStack { members : list Session; requested_session : Session }.

Definition SessionStack_for_session (sessions : list Session) (session_id : str)
  : option SessionStack :=
  requested ← find_session sessions session_id;
  root ← stack_root_session sessions requested;
  Some {| members := List.filter
            (λ s, bool_decide (session_stack_root_id sessions s = Some (id root))) sessions;
          requested_session := requested |}.

Definition has_branch_mutating_member_except (self : SessionStack) (ignored_session_id : str) : bool :=
  existsb (λ s, is_stack_branch_mutating (status s))
    (List.filter (λ s, negb (has_id ignored_session_id s)) (members self)).

(** The parent walk of [session_is_descendant_of], which keeps no visited set:
    [None] is a walk that does not end within the fuel. *)
Fixpoint descendant_loop (fuel : nat) (ms : list Session) (current_session : Session)
    (ancestor_session_id : str) : option bool :=
  match parent_session_id current_session with
  | None => Some false
  | Some parent_id =>
      if str_eqb parent_id ancestor_session_id then Some true
      else match find_session ms parent_id with
           | None => Some false
           | Some parent =>
               match fuel with
               | 0 => None
               | S fuel => descendant_loop fuel ms parent ancestor_session_id
               end
           end
  end.

Definition session_is_descendant_of (ms : list Session) (session : Session)
    (ancestor_session_id : str) : option bool :=
  descendant_loop (length ms) ms session ancestor_session_id.

Definition is_materialized (st : SessionStatus) : bool :=
  negb match st with Draft | Merged | Done | Canceled => true | _ => false end.

(** [iter().any(p)] where [p] may not return. *)
Fixpoint option_any {A} (p : A → option bool) (l : list A) : option bool :=
  match l with
  | [] => Some false
  | x :: l' => b ← p x; if (b : bool) then Some true else option_any p l'
  end.

Definition has_materialized_descendant (self : SessionStack) : option bool :=
  option_any (λ s,
    if has_id (id (requested_session self)) s then Some false
    else
      d ← session_is_descendant_of (members self) s (id (requested_session self));
      Some (d && is_materialized (status s)))
    (members self).

Definition parent_allows_stacked_child_start (self : SessionStack) : bool :=
  match parent_session_id (requested_session self) with
  | None => false
  | Some parent_id =>
      existsb (λ s, has_id parent_id s && allows_stacked_child_start (status s)) (members self)
  end.

(** ** Gates *)

Definition can_create_stacked_child (sessions : list Session) (parent_id : str) : bool :=
  match find_session sessions parent_id with
  | None => false
  | Some parent =>
      allows_stacked_child_creation parent
      && match session_stack_depth sessions parent_id with
         | Some depth => depth <? MAX_STACK_DEPTH
         | None => false
         end
  end.

Definition can_rebase_session_branch_in_stack (sessions : list Session) (session_id : str) : bool :=
  match SessionStack_for_session sessions session_id with
  | None => false
  | Some stack => negb (has_branch_mutating_member_except stack session_id)
  end.

Definition is_child_of (parent_id : str) (s : Session) : bool :=
  match parent_session_id s with Some p => str_eqb p parent_id | None => false end.

Definition can_append_session_to_stack (sessions : list Session) (session_id parent_id : str) : bool :=
  if str_eqb session_id parent_id then false
  else
    match find_session sessions session_id with
    | None => false
    | Some session =>
        match find_session sessions parent_id with
        | None => false
        | Some parent =>
            allows_stack_append session
            && negb (existsb (is_child_of session_id) sessions)
            && accepts_user_turns parent
            && owns_branch_changes parent
            && allows_review_actions (status parent)
            && can_create_stacked_child sessions parent_id
            && can_rebase_session_branch_in_stack sessions parent_id
        end
    end.

Definition can_start_staged_session_in_stack (sessions : list Session) (session_id : str) : bool :=
  match SessionStack_for_session sessions session_id with
  | None => false
  | Some stack =>
      let session := requested_session stack in
      if negb (can_start_staged_session session) then false
      else if negb (has_parent session) then true
      else if negb (parent_allows_stacked_child_start stack) then false
      else negb (has_branch_mutating_member_except stack session_id)
  end.

(** The outer [option] is a descendant walk that does not end. *)
Definition can_mutate_session_branch_in_stack (sessions : list Session) (session_id : str)
  : option bool :=
  match SessionStack_for_session sessions session_id with
  | None => Some false
  | Some stack =>
      if has_branch_mutating_member_except stack session_id then Some false
      else
        d ← has_materialized_descendant stack;
        Some (if (d : bool) then false else true)
  end.

Definition can_merge_session_branch_in_stack (sessions : list Session) (session_id : str) : bool :=
  match SessionStack_for_session sessions session_id with
  | None => false
  | Some stack =>
      negb (has_review_request (requested_session stack))
      && negb (has_branch_mutating_member_except stack session_id)
  end.

Definition can_reply_to_session_in_stack (sessions : list Session) (session_id : str) : bool :=
  match SessionStack_for_session sessions session_id with
  | None => false
  | Some stack => negb (has_branch_mutating_member_except stack session_id)
  end.

(** The caller's [is_reserved] is a pure predicate. *)
Definition has_reserved_branch_work_in_stack (sessions : list Session) (session_id : str)
    (is_reserved : str → bool) : bool :=
  match SessionStack_for_session sessions session_id with
  | None => true
  | Some stack => existsb (λ m, is_reserved (id m)) (members stack)
  end.

(** ** The parent graph *)

(** [chain n s r]: [r] is reached from [s] by [n] loaded parent links. *)
Inductive chain (sessions : list Session) : nat → Session → Session → Prop :=
| chain_0 s : chain sessions 0 s s
| chain_S n s p t r :
    parent_session_id s = Some p → find_session sessions p = Some t →
    chain sessions n t r → chain sessions (S n) s r.

(** A complete parent chain: it ends at a session without parent. *)
Definition root_chain (sessions : list Session) (n : nat) (s r : Session) : Prop :=
  chain sessions n s r ∧ parent_session_id r = None.

(** A session that looking up its own id gives back. *)
Definition loaded (sessions : list Session) (s : Session) : Prop :=
  find_session sessions (id s) = Some s.

Lemma has_id_true i s : has_id i s = true ↔ id s = i.
Proof. apply str_eqb_true. Qed.

Lemma stack_find_session_Some sessions i s :
  find_session sessions i = Some s → s ∈ sessions ∧ id s = i.
Proof. intros [? ?%has_id_true]%list_find_b_Some. done. Qed.

Lemma find_session_loaded sessions i s : find_session sessions i = Some s → loaded sessions s.
Proof. intros H. unfold loaded. by rewrite (proj2 (stack_find_session_Some _ _ _ H)). Qed.

Lemma unique_loaded sessions s : NoDup (id <$> sessions) → s ∈ sessions → loaded sessions s.
Proof.
  intros Hnd Hs. unfold loaded, find_session.
  destruct (list_find_b_is_Some (has_id (id s)) sessions s) as [t Ht]; [done|by apply has_id_true|].
  rewrite Ht. f_equal. apply list_find_b_Some in Ht as [Ht Hid%has_id_true].
  apply list_elem_of_lookup in Hs as [i Hi], Ht as [j Hj].
  assert (i = j) as ->; [|congruence].
  apply (NoDup_lookup _ _ _ (id s) Hnd); rewrite list_lookup_fmap; [by rewrite Hi|].
  by rewrite Hj, <- Hid.
Qed.

Lemma chain_end_loaded sessions n s r : chain sessions n s r → loaded sessions s → loaded sessions r.
Proof. induction 1; eauto using find_session_loaded. Qed.

Lemma chain_trans sessions n m s t r :
  chain sessions n s t → chain sessions m t r → chain sessions (n + m) s r.
Proof. induction 1; simpl; eauto using chain. Qed.

Lemma chain_det sessions n s r r' : chain sessions n s r → chain sessions n s r' → r = r'.
Proof.
  intros H1. revert r'. induction H1; intros r' H2; inversion H2; subst; [done|]. simplify_eq. auto.
Qed.

(** Complete chains from one session have one length and one root. *)
Lemma root_chain_det sessions n m s r r' :
  root_chain sessions n s r → root_chain sessions m s r' → n = m ∧ r = r'.
Proof.
  intros [H1 Hr]. revert m. induction H1 as [s|n s p t r Hp Ht H1 IH]; intros m [H2 Hr'].
  - inversion H2; subst; [done|]. congruence.
  - inversion H2; subst; [congruence|]. simplify_eq. destruct (IH Hr n0) as [-> ->]; [by split|done].
Qed.

Lemma root_chain_step sessions n s p t r :
  parent_session_id s = Some p → find_session sessions p = Some t →
  root_chain sessions (S n) s r ↔ root_chain sessions n t r.
Proof.
  intros Hp Ht. split; intros [Hc Hr]; (split; [|done]).
  - inversion Hc; subst. congruence.
  - by econstructor.
Qed.

(** Going up a complete chain, no id comes back. *)
Lemma root_chain_acyclic sessions n s r k t :
  root_chain sessions n s r → loaded sessions s → chain sessions (S k) s t → id t ≠ id s.
Proof.
  intros Hroot Hs Hc E. assert (t = s) as ->.
  { pose proof (chain_end_loaded _ _ _ _ Hc Hs) as Ht. unfold loaded in *. rewrite E in Ht. congruence. }
  destruct (root_chain_det sessions n (S k + n) s r r) as [? _]; [done| |lia].
  destruct Hroot. split; [by eapply chain_trans|done].
Qed.

(** ** Depth *)

(** The ids met on the way up are not in [visited]. *)
Definition fresh_above (sessions : list Session) (s : Session) (visited : list SessionId) : Prop :=
  ∀ k t, chain sessions k s t → id t ∉ visited.

Lemma depth_loop_complete sessions fuel s visited d n r x :
  root_chain sessions n s r → loaded sessions s → fresh_above sessions s visited →
  stack_depth_loop fuel sessions s visited d = Some x → x = Some (d + n).
Proof.
  revert s visited d n. induction fuel as [|fuel IH]; intros s visited d n Hroot Hs Hfresh; simpl.
  all: assert (Hv : id_visited (id s) visited = false)
    by (apply bool_decide_eq_false; apply (Hfresh 0); constructor); rewrite Hv.
  all: destruct (parent_session_id s) as [p|] eqn:Hp.
  2, 4: intros [= <-]; destruct Hroot as [Hc _]; inversion Hc; subst; [f_equal; lia|congruence].
  - done.
  - destruct Hroot as [Hc Hr]. inversion Hc as [|n' ? p' t ? Hp' Ht Hc']; subst; [congruence|].
    assert (p' = p) as -> by congruence. rewrite Ht. intros E.
    assert (x = Some (S d + n')) as ->; [|f_equal; lia].
    eapply (IH t); [by split|by eapply find_session_loaded| |exact E].
    intros k u Hu [Hin|Hin]%elem_of_app.
    + apply (Hfresh (S k) u); [by econstructor|done].
    + apply list_elem_of_singleton in Hin.
      eapply (root_chain_acyclic sessions (S n') s r k u); [by split|done|by econstructor|done].
Qed.

Lemma depth_loop_sound sessions fuel s visited d k :
  stack_depth_loop fuel sessions s visited d = Some (Some k) →
  ∃ n r, root_chain sessions n s r ∧ k = d + n.
Proof.
  revert s visited d. induction fuel as [|fuel IH]; intros s visited d; simpl.
  all: destruct (parent_session_id s) as [p|] eqn:Hp; case_match; try done.
  1, 3: intros [= <-]; exists 0, s; (split; [split; [constructor|done]|lia]).
  case_match eqn:Ht; [|done]. intros (n & r & Hroot & ->)%IH.
  exists (S n), r. split; [by eapply root_chain_step|lia].
Qed.

(** The fuel: every round adds a loaded id that was not visited. *)
Lemma depth_loop_fuel sessions fuel s visited d :
  loaded sessions s → NoDup visited → visited ⊆ (id <$> sessions) →
  length sessions <= fuel + length visited →
  is_Some (stack_depth_loop fuel sessions s visited d).
Proof.
  revert s visited d. induction fuel as [|fuel IH]; intros s visited d Hs Hnd Hsub Hlen; simpl.
  all: destruct (parent_session_id s) as [p|]; [|done].
  all: destruct (id_visited (id s) visited) eqn:Hv; [done|]; apply bool_decide_eq_false in Hv.
  all: assert (Hin : id s ∈ id <$> sessions)
    by (apply list_elem_of_fmap_2; by apply (stack_find_session_Some sessions (id s))).
  all: assert (Hnd' : NoDup (visited ++ [id s]))
    by (apply NoDup_app; split_and!; [done|set_solver|apply NoDup_singleton]).
  - assert (Hle : length (visited ++ [id s]) <= length (id <$> sessions))
      by (apply submseteq_length, NoDup_submseteq; [done|set_solver]).
    rewrite length_app, length_fmap in Hle. simpl in Hle. lia.
  - case_match eqn:Ht; [|done]. apply IH; [by eapply find_session_loaded|done|set_solver|].
    rewrite length_app. simpl. lia.
Qed.

Lemma session_stack_depth_Some sessions i n :
  session_stack_depth sessions i = Some n ↔
  ∃ s r, find_session sessions i = Some s ∧ root_chain sessions n s r.
Proof.
  unfold session_stack_depth. destruct (find_session sessions i) as [s|] eqn:Hi; simpl; [|naive_solver].
  pose proof (find_session_loaded _ _ _ Hi) as Hs.
  destruct (depth_loop_fuel sessions (length sessions) s [] 0) as [x Hx];
    [done|constructor|set_solver|simpl; lia|]. rewrite Hx. simpl. split.
  - intros ->. apply depth_loop_sound in Hx as (m & r & ? & ->). eauto.
  - intros (s' & r & [= <-] & Hroot).
    by apply (depth_loop_complete _ _ _ _ _ n r _ Hroot Hs) in Hx as ->; [|intros ?? _ ?%elem_of_nil].
Qed.

(** ** Roots and members *)

Lemma parent_steps_chain sessions n s r : parent_steps sessions n s = Some r ↔ chain sessions n s r.
Proof.
  revert s. induction n as [|n IH]; intros s; simpl.
  - split; [intros [= ->]; constructor|]. inversion 1; by subst.
  - split.
    + destruct (parent_session_id s) as [p|] eqn:Hp; simpl; [|done].
      destruct (find_session sessions p) as [t|] eqn:Ht; simpl; [|done].
      rewrite IH. by econstructor.
    + inversion 1 as [|? ? p t ? Hp Ht Hc]; subst. rewrite Hp. simpl. rewrite Ht. simpl. by apply IH.
Qed.

Lemma stack_root_session_Some sessions s r :
  loaded sessions s →
  stack_root_session sessions s = Some r ↔ ∃ n, root_chain sessions n s r.
Proof.
  intros Hs. unfold stack_root_session. split.
  - destruct (session_stack_depth sessions (id s)) as [n|] eqn:Hn; simpl; [|done].
    apply session_stack_depth_Some in Hn as (s' & r' & Hs' & Hroot). rewrite Hs in Hs'. simplify_eq.
    intros Hc%parent_steps_chain. exists n. destruct Hroot as [Hc' Hr'].
    by rewrite (chain_det _ _ _ _ _ Hc Hc').
  - intros [n Hroot]. rewrite (proj2 (session_stack_depth_Some sessions (id s) n)) by eauto.
    simpl. apply parent_steps_chain, Hroot.
Qed.

Lemma stack_root_id_Some sessions s i :
  loaded sessions s →
  session_stack_root_id sessions s = Some i ↔ ∃ n r, root_chain sessions n s r ∧ id r = i.
Proof.
  intros Hs. unfold session_stack_root_id. rewrite fmap_Some. setoid_rewrite stack_root_session_Some; [|done].
  naive_solver.
Qed.

(** A session and its loaded parent have the same root. *)
Lemma stack_root_id_parent sessions s p t :
  loaded sessions s → parent_session_id s = Some p → find_session sessions p = Some t →
  session_stack_root_id sessions s = session_stack_root_id sessions t.
Proof.
  intros Hs Hp Ht. pose proof (find_session_loaded _ _ _ Ht) as Htl. apply option_eq. intros i.
  rewrite !stack_root_id_Some by done. split.
  - intros ([|n] & r & Hroot & Hi).
    + destruct Hroot as [Hc Hr]. inversion Hc; subst. congruence.
    + exists n, r. split; [by eapply root_chain_step|done].
  - intros (n & r & Hroot & Hi). exists (S n), r. split; [by eapply root_chain_step|done].
Qed.

Section unique_ids.
Context (sessions : list Session) (Hnd : NoDup (id <$> sessions)).

(** The stack of a session: the loaded sessions with its root. *)
Lemma for_session_Some i stack :
  SessionStack_for_session sessions i = Some stack ↔
  ∃ s root, find_session sessions i = Some s ∧ session_stack_root_id sessions s = Some root
    ∧ requested_session stack = s
    ∧ members stack = List.filter
        (λ t, bool_decide (session_stack_root_id sessions t = Some root)) sessions.
Proof.
  unfold SessionStack_for_session. split.
  - destruct (find_session sessions i) as [s|] eqn:Hi; simpl; [|done].
    destruct (stack_root_session sessions s) as [r|] eqn:Hr; simpl; [|done]. intros [= <-].
    exists s, (id r). split_and!; try done. unfold session_stack_root_id. by rewrite Hr.
  - intros (s & root & Hi & Hroot & Hreq & Hm). rewrite Hi. simpl. unfold session_stack_root_id in Hroot.
    destruct (stack_root_session sessions s) as [r|] eqn:Hr; simplify_eq/=. f_equal.
    destruct stack; simpl in *. by subst.
Qed.

Lemma mutating_member_except_false stack i :
  SessionStack_for_session sessions i = Some stack →
  has_branch_mutating_member_except stack i = false →
  ∀ s t, find_session sessions i = Some s → t ∈ sessions → id t ≠ i →
    session_stack_root_id sessions t = session_stack_root_id sessions s →
    is_stack_branch_mutating (status t) = false.
Proof.
  intros (s & root & Hi & Hroot & _ & Hm)%for_session_Some Hno s' t Hi' Ht Hid Heq. simplify_eq.
  unfold has_branch_mutating_member_except in Hno. rewrite existsb_false in Hno. apply Hno.
  rewrite elem_of_filter_b. split.
  - apply negb_true_iff, not_true_iff_false. by rewrite has_id_true.
  - rewrite Hm, elem_of_filter_b. split; [|done]. apply bool_decide_eq_true. congruence.
Qed.
End unique_ids.

(** ** Updates that keep the parent graph *)

Definition update_session (i : SessionId) (f : Session → Session) (sessions : list Session)
  : list Session := map (λ s, if has_id i s then f s else s) sessions.

Lemma find_session_map (g : Session → Session) sessions i :
  (∀ s, id (g s) = id s) → find_session (map g sessions) i = g <$> find_session sessions i.
Proof.
  intros Hid. unfold find_session. induction sessions as [|s ss IH]; [done|]. simpl.
  replace (has_id i (g s)) with (has_id i s) by (unfold has_id; by rewrite Hid).
  by destruct (has_id i s).
Qed.

Section same_graph.
Context (g : Session → Session).
Context (Hid : ∀ s, id (g s) = id s) (Hpar : ∀ s, parent_session_id (g s) = parent_session_id s).

Lemma chain_map sessions n s r : chain sessions n s r → chain (map g sessions) n (g s) (g r).
Proof.
  induction 1 as [|n s p t r Hp Ht Hc IH]; [constructor|].
  apply (chain_S _ _ _ p (g t)); [by rewrite Hpar| |done]. by rewrite find_session_map, Ht.
Qed.

Lemma chain_map_inv sessions n s x :
  chain (map g sessions) n (g s) x → ∃ r, x = g r ∧ chain sessions n s r.
Proof.
  revert s. induction n as [|n IH]; intros s Hc; inversion Hc as [|? ? p t ? Hp Ht Hc']; subst.
  - exists s. split; [done|constructor].
  - rewrite Hpar in Hp. rewrite find_session_map in Ht by done.
    destruct (find_session sessions p) as [u|] eqn:Hu; simplify_eq/=.
    destruct (IH u Hc') as (r & -> & Hr). exists r. split; [done|by econstructor].
Qed.

Lemma root_id_map sessions s :
  loaded sessions s →
  session_stack_root_id (map g sessions) (g s) = session_stack_root_id sessions s.
Proof.
  intros Hs. assert (Hs' : loaded (map g sessions) (g s))
    by (unfold loaded in *; by rewrite Hid, find_session_map, Hs).
  apply option_eq. intros i. rewrite !stack_root_id_Some by done. split.
  - intros (n & x & [Hc Hx] & Hi). apply chain_map_inv in Hc as (r & -> & Hc).
    rewrite Hpar in Hx. rewrite Hid in Hi. exists n, r. by split.
  - intros (n & r & [Hc Hr] & Hi). exists n, (g r). split; [split; [by apply chain_map|by rewrite Hpar]|].
    by rewrite Hid.
Qed.

End same_graph.

(** At most one session of each stack is doing or reserving branch work. *)
Definition single_mutator (sessions : list Session) : Prop :=
  ∀ a b, a ∈ sessions → b ∈ sessions →
    is_stack_branch_mutating (status a) = true → is_stack_branch_mutating (status b) = true →
    session_stack_root_id sessions a = session_stack_root_id sessions b →
    is_Some (session_stack_root_id sessions a) → id a = id b.

Definition with_status (i : SessionId) (st : SessionStatus) (sessions : list Session)
  : list Session := update_session i (λ s, set_status s st) sessions.

(** When no other member of the stack of [i] is mutating, [i] may become so. *)
Lemma single_mutator_update sessions i st stack :
  NoDup (id <$> sessions) → single_mutator sessions →
  SessionStack_for_session sessions i = Some stack →
  has_branch_mutating_member_except stack i = false →
  single_mutator (with_status i st sessions).
Proof.
  intros Hnd Hinv Hstack Hno. unfold with_status, update_session.
  set (g := λ s, if has_id i s then set_status s st else s).
  assert (Hid : ∀ s, id (g s) = id s) by (intros s; unfold g; by case_match).
  assert (Hpar : ∀ s, parent_session_id (g s) = parent_session_id s) by (intros s; unfold g; by case_match).
  pose proof Hstack as (s & root & Hi & Hroot & _)%for_session_Some.
  assert (Hother : ∀ t, t ∈ sessions → id t ≠ i → status (g t) = status t).
  { intros t _ Ht. unfold g. destruct (has_id i t) eqn:E; [|done]. by apply has_id_true in E. }
  assert (Hquiet : ∀ t, t ∈ sessions → id t ≠ i →
    session_stack_root_id sessions t = session_stack_root_id sessions s →
    is_stack_branch_mutating (status (g t)) = false).
  { intros t Ht Hti Heq. rewrite Hother by done. by eapply mutating_member_except_false. }
  assert (Hi_root : ∀ t, t ∈ sessions → id t = i → t = s).
  { intros t Ht <-. pose proof (unique_loaded _ _ Hnd Ht) as Hl. unfold loaded in Hl. congruence. }
  intros a' b' [a [<- Ha]]%list_elem_of_In%in_map_iff [b [<- Hb]]%list_elem_of_In%in_map_iff.
  apply list_elem_of_In in Ha, Hb.
  rewrite !root_id_map, !Hid by (done || by apply unique_loaded). intros Hma Hmb Heq Hsome.
  destruct (decide (id a = i)) as [Hai|Hai], (decide (id b = i)) as [Hbi|Hbi].
  - congruence.
  - rewrite (Hi_root a) in Heq by done. by rewrite (Hquiet b) in Hmb.
  - rewrite (Hi_root b) in Heq by done. by rewrite (Hquiet a) in Hma.
  - rewrite Hother in Hma, Hmb by done. by apply Hinv.
Qed.

(** ** Descendants *)

(** [s] lies strictly below the session with id [a]. *)
Definition below (sessions : list Session) (s : Session) (a : SessionId) : Prop :=
  ∃ k t, chain sessions k s t ∧ parent_session_id t = Some a.

Lemma option_any_total {A} (p : A → option bool) (P : A → Prop) l :
  (∀ x, x ∈ l → ∃ b, p x = Some b ∧ (b = true ↔ P x)) →
  ∃ b, option_any p l = Some b ∧ (b = true ↔ ∃ x, x ∈ l ∧ P x).
Proof.
  induction l as [|x l IH]; intros Hp; simpl.
  { exists false. split; [done|]. split; [done|set_solver]. }
  destruct (Hp x) as (b & -> & Hb); [by left|]. simpl. destruct b.
  - exists true. split; [done|]. split; [intros _|done]. exists x. split; [by left|by apply Hb].
  - destruct IH as (b & Hb' & Hiff); [intros; apply Hp; by right|]. exists b. split; [done|].
    rewrite Hiff. split; intros (y & Hy & HP); exists y; (split; [|done]).
    + by right.
    + apply elem_of_cons in Hy as [->|]; [|done]. by apply Hb in HP.
Qed.

Section members.
Context (sessions ms : list Session) (root : SessionId).
Context (Hnd : NoDup (id <$> sessions)).
Context (elem_members : ∀ t, t ∈ ms ↔
  t ∈ sessions ∧ session_stack_root_id sessions t = Some root).

Lemma members_loaded t : t ∈ ms → loaded sessions t.
Proof. intros [? _]%elem_members. by apply unique_loaded. Qed.

Lemma members_root_chain t : t ∈ ms → ∃ n r, root_chain sessions n t r.
Proof.
  intros Ht. pose proof (members_loaded t Ht) as Hl. apply elem_members in Ht as [_ Hr].
  apply stack_root_id_Some in Hr as (n & r & ? & _); eauto.
Qed.

(** The parent of a member is loaded, and a member. *)
Lemma members_parent s p :
  s ∈ ms → parent_session_id s = Some p →
  ∃ t, find_session sessions p = Some t ∧ find_session ms p = Some t ∧ t ∈ ms.
Proof.
  intros Hs Hp. pose proof (members_loaded s Hs) as Hl.
  destruct (members_root_chain s Hs) as (n & r & Hc & Hr).
  inversion Hc as [|? ? p' t ? Hp' Ht _]; subst; [congruence|]. assert (p' = p) as -> by congruence.
  exists t. assert (Htm : t ∈ ms).
  { apply elem_members. split; [by apply (stack_find_session_Some _ _ _ Ht)|].
    rewrite <- (stack_root_id_parent sessions s p t) by done. by apply elem_members. }
  split_and!; [done| |done]. unfold find_session.
  destruct (list_find_b_is_Some (has_id p) ms t) as [u Hu];
    [done|by apply has_id_true, (stack_find_session_Some _ _ _ Ht)|].
  rewrite Hu. apply list_find_b_Some in Hu as [Hu Hup%has_id_true].
  pose proof (members_loaded u Hu) as Hul. unfold loaded in Hul. rewrite Hup in Hul. congruence.
Qed.

Lemma chain_below_step s p t a :
  parent_session_id s = Some p → find_session sessions p = Some t → p ≠ a →
  below sessions s a ↔ below sessions t a.
Proof.
  intros Hp Ht Hne. split; intros (k & u & Hc & Hu).
  - inversion Hc as [|k' ? p' t' ? Hp' Ht' Hc']; subst; [congruence|]. exists k', u. split; [congruence|done].
  - exists (S k), u. split; [by econstructor|done].
Qed.

Lemma descendant_loop_spec fuel s a n r :
  s ∈ ms → root_chain sessions n s r → n <= fuel →
  ∃ b, descendant_loop fuel ms s a = Some b ∧ (b = true ↔ below sessions s a).
Proof.
  revert s n. induction fuel as [|fuel IH]; intros s n Hs Hroot Hn; simpl.
  all: destruct (parent_session_id s) as [p|] eqn:Hp.
  2, 4: exists false; (split; [done|]); (split; [done|]); intros (k & t & Hc & Ht);
    inversion Hc; subst; congruence.
  - destruct Hroot as [Hc Hr]. assert (n = 0) as -> by lia. inversion Hc; subst. congruence.
  - destruct (str_eqb p a) eqn:E.
    + apply str_eqb_true in E as ->. exists true. split; [done|]. split; [intros _|done].
      exists 0, s. split; [constructor|done].
    + destruct (members_parent s p Hs Hp) as (t & Ht & -> & Htm).
      assert (Hne : p ≠ a) by (intros ->; by rewrite str_eqb_refl in E).
      destruct n as [|n]; [destruct Hroot as [Hc Hr]; inversion Hc; subst; congruence|].
      destruct (IH t n) as (b & -> & Hb); [done|by eapply root_chain_step|lia|].
      exists b. split; [done|]. rewrite Hb. symmetry. by eapply chain_below_step.
Qed.

(** A complete chain inside the members visits each of them at most once. *)
Lemma members_chain_length n s r visited :
  root_chain sessions n s r → s ∈ ms → NoDup visited → visited ⊆ (id <$> ms) →
  fresh_above sessions s visited → S n + length visited <= length ms.
Proof.
  revert s visited. induction n as [|n IH]; intros s visited Hroot Hs Hv Hsub Hfresh.
  all: assert (Hnew : id s ∉ visited) by (apply (Hfresh 0); constructor).
  all: assert (Hv' : NoDup (visited ++ [id s]))
    by (apply NoDup_app; split_and!; [done|set_solver|apply NoDup_singleton]).
  all: assert (Hsub' : visited ++ [id s] ⊆ (id <$> ms))
    by (pose proof (list_elem_of_fmap_2 id _ _ Hs); set_solver).
  - assert (Hle : length (visited ++ [id s]) <= length (id <$> ms))
      by (by apply submseteq_length, NoDup_submseteq).
    rewrite length_app, length_fmap in Hle. simpl in *. lia.
  - destruct Hroot as [Hc Hr]. inversion Hc as [|? ? p t ? Hp Ht Hc']; subst.
    destruct (members_parent s p Hs Hp) as (t' & Ht' & _ & Htm). simplify_eq.
    specialize (IH t (visited ++ [id s])). rewrite length_app in IH. simpl in IH.
    enough (S n + (length visited + 1) <= length ms) by lia. apply IH; try done.
    intros k u Hu [Hin|Hin]%elem_of_app; [apply (Hfresh (S k) u); [by econstructor|done]|].
    apply list_elem_of_singleton in Hin.
    eapply (root_chain_acyclic sessions (S n) s r k u); [by split|by apply members_loaded|by econstructor|done].
Qed.

Lemma session_is_descendant_of_total s a :
  s ∈ ms → ∃ b, session_is_descendant_of ms s a = Some b ∧ (b = true ↔ below sessions s a).
Proof.
  intros Hs. destruct (members_root_chain s Hs) as (n & r & Hroot).
  apply (descendant_loop_spec _ _ _ n r); [done..|].
  pose proof (members_chain_length n s r [] Hroot Hs) as Hlen. simpl in Hlen.
  enough (S (n + 0) <= length ms) by lia.
  apply Hlen; [constructor|set_solver|]. intros ?? _ ?%elem_of_nil. done.
Qed.
End members.

Lemma has_materialized_descendant_total sessions i stack :
  NoDup (id <$> sessions) → SessionStack_for_session sessions i = Some stack →
  ∃ b, has_materialized_descendant stack = Some b
    ∧ (b = true ↔ ∃ t, t ∈ members stack ∧ id t ≠ i ∧ below sessions t i
                       ∧ is_materialized (status t) = true).
Proof.
  intros Hnd (s & root & Hi & _ & Hreq & Hm)%for_session_Some.
  unfold has_materialized_descendant. apply option_any_total. intros x Hx.
  rewrite Hreq. destruct (stack_find_session_Some _ _ _ Hi) as [_ ->].
  destruct (has_id i x) eqn:E.
  - apply has_id_true in E. exists false. naive_solver.
  - assert (id x ≠ i) by (intros F%has_id_true; congruence).
    assert (Hel : ∀ t, t ∈ members stack ↔
      t ∈ sessions ∧ session_stack_root_id sessions t = Some root)
      by (intros t; rewrite Hm, elem_of_filter_b, bool_decide_eq_true; tauto).
    destruct (session_is_descendant_of_total sessions (members stack) root Hnd Hel x i Hx) as (b & -> & Hb).
    simpl. eexists. split; [done|]. rewrite andb_true_iff, Hb. naive_solver.
Qed.

(** ** Appending and creating stacked sessions *)

(** Every session has a complete parent chain within the depth limit. *)
Definition stacks_ok (sessions : list Session) : Prop :=
  ∀ s, s ∈ sessions → ∃ n, session_stack_depth sessions (id s) = Some n ∧ n <= MAX_STACK_DEPTH.

Definition append_to_stack (i p : SessionId) (sessions : list Session) : list Session :=
  update_session i (λ s, set_parent s (Some p)) sessions.

Section append.
Context (sessions : list Session) (i : SessionId) (p : SessionId).
Context (Hchildless : ∀ s, s ∈ sessions → parent_session_id s ≠ Some i).

Let g : Session → Session := λ s, if has_id i s then set_parent s (Some p) else s.

Lemma append_g_id s : id (g s) = id s.
Proof. unfold g. by case_match. Qed.

Lemma append_g_other s : id s ≠ i → g s = s.
Proof. intros Hne. unfold g. destruct (has_id i s) eqn:E; [|done]. by apply has_id_true in E. Qed.

(** Chains of other sessions do not meet the moved one. *)
Lemma append_chain n s r :
  s ∈ sessions → id s ≠ i → chain sessions n s r → chain (map g sessions) n s r ∧ id r ≠ i.
Proof.
  intros Hs Hne Hc. induction Hc as [|n s q t r Hq Ht Hc IH]; [split; [constructor|done]|].
  destruct (stack_find_session_Some _ _ _ Ht) as [Htin Htid].
  assert (Hti : id t ≠ i) by (intros E; apply (Hchildless s Hs); congruence).
  destruct (IH Htin Hti) as [Hc' ?]. split; [|done]. apply (chain_S _ _ _ q t); [done| |done].
  rewrite find_session_map, Ht by apply append_g_id. simpl. by rewrite append_g_other.
Qed.

Lemma append_depth_other j n :
  j ≠ i → session_stack_depth sessions j = Some n → session_stack_depth (map g sessions) j = Some n.
Proof.
  intros Hj (s & r & Hs & Hc & Hr)%session_stack_depth_Some. apply session_stack_depth_Some.
  destruct (stack_find_session_Some _ _ _ Hs) as [Hin Hid]. exists s, r.
  destruct (append_chain n s r) as [Hc' ?]; [done|congruence|done|]. split; [|by split].
  rewrite find_session_map, Hs by apply append_g_id. simpl. rewrite append_g_other; congruence.
Qed.

Lemma append_depth_moved s n :
  p ≠ i → find_session sessions i = Some s → session_stack_depth sessions p = Some n →
  session_stack_depth (map g sessions) i = Some (S n).
Proof.
  intros Hpi Hs Hp. apply append_depth_other in Hp; [|done].
  apply session_stack_depth_Some in Hp as (t & r & Ht & Hroot). apply session_stack_depth_Some.
  exists (g s), r. destruct (stack_find_session_Some _ _ _ Hs) as [_ Hid]. split.
  - by rewrite find_session_map, Hs by apply append_g_id.
  - eapply (root_chain_step _ _ _ p t); [|done|done]. unfold g.
    by rewrite (proj2 (has_id_true i s) Hid).
Qed.
End append.

Lemma can_create_stacked_child_depth sessions p :
  can_create_stacked_child sessions p = true →
  ∃ n, session_stack_depth sessions p = Some n ∧ n < MAX_STACK_DEPTH.
Proof.
  unfold can_create_stacked_child. intros H. repeat case_match; simplify_eq/=; bool_split; try done.
  exists n. split; [done|]. by apply Nat.ltb_lt.
Qed.

(** Loading one more session does not change the chains of the others. *)
Lemma chain_snoc sessions child n s r :
  chain sessions n s r → chain (sessions ++ [child]) n s r.
Proof.
  induction 1 as [|n s q t r Hq Ht Hc IH]; [constructor|]. econstructor; [done| |done].
  clear -Ht. unfold find_session in *. induction sessions as [|x ss IH]; simpl in *; [done|].
  by case_match; [|apply IH].
Qed.

Lemma find_session_snoc sessions child j s :
  find_session sessions j = Some s → find_session (sessions ++ [child]) j = Some s.
Proof.
  unfold find_session. induction sessions as [|x ss IH]; simpl; [done|]. by case_match.
Qed.

Lemma find_session_snoc_new sessions child :
  (id child ∉ id <$> sessions) → find_session (sessions ++ [child]) (id child) = Some child.
Proof.
  unfold find_session. induction sessions as [|x ss IH]; simpl; intros Hnew.
  - by rewrite (proj2 (has_id_true _ _) eq_refl).
  - rewrite not_elem_of_cons in Hnew. destruct Hnew as [Hx Hnew].
    destruct (has_id (id child) x) eqn:E; [apply has_id_true in E; congruence|]. by apply IH.
Qed.

Lemma depth_snoc sessions child j n :
  session_stack_depth sessions j = Some n → session_stack_depth (sessions ++ [child]) j = Some n.
Proof.
  rewrite !session_stack_depth_Some. intros (s & r & Hs & Hc & Hr). exists s, r.
  split; [by apply find_session_snoc|]. split; [by apply chain_snoc|done].
Qed.

(** ** Properties *)

(** the depth of a session is [n] exactly when following loaded parent
    links from it reaches a session without parent after [n] steps; missing
    parents and cycles give none.  The loop always ends within as many rounds
    as there are sessions, whatever the parent graph. *)
Theorem session_stack_depth_spec sessions i n :
  (session_stack_depth sessions i = Some n ↔
     ∃ s r, find_session sessions i = Some s ∧ chain sessions n s r ∧ parent_session_id r = None)
  ∧ (∀ s, find_session sessions i = Some s →
       is_Some (stack_depth_loop (length sessions) sessions s [] 0)).
Proof.
  split; [apply session_stack_depth_Some|]. intros s Hs.
  apply depth_loop_fuel; [by eapply find_session_loaded|constructor|set_solver|simpl; lia].
Qed.

(** appending a session to a stack under its gate keeps the parent graph
    acyclic and every chain within [MAX_STACK_DEPTH]: the moved session sits
    one below its new parent and all other depths are unchanged. *)
Theorem append_to_stack_keeps_depth sessions i p :
  NoDup (id <$> sessions) → stacks_ok sessions →
  can_append_session_to_stack sessions i p = true →
  let sessions' := append_to_stack i p sessions in
  stacks_ok sessions'
  ∧ (∃ n, session_stack_depth sessions p = Some n ∧ session_stack_depth sessions' i = Some (S n)
          ∧ S n <= MAX_STACK_DEPTH)
  ∧ (∀ j n, j ≠ i → session_stack_depth sessions j = Some n →
            session_stack_depth sessions' j = Some n).
Proof.
  intros Hnd Hok Hgate sessions'. unfold can_append_session_to_stack in Hgate.
  destruct (str_eqb i p) eqn:Eip; [done|].
  assert (Hpi : p ≠ i) by (intros ->; by rewrite str_eqb_refl in Eip).
  destruct (find_session sessions i) as [s|] eqn:Hi; [|done].
  destruct (find_session sessions p) as [t|] eqn:Hp; [|done]. bool_split.
  destruct (can_create_stacked_child_depth sessions p) as (n & Hn & Hlt); [done|].
  assert (Hchildless : ∀ s, s ∈ sessions → parent_session_id s ≠ Some i).
  { intros x Hx E. match goal with H : existsb _ _ = false |- _ => rewrite existsb_false in H;
      specialize (H x Hx) end. unfold is_child_of in *. rewrite E, str_eqb_refl in *. done. }
  assert (Hmoved : session_stack_depth sessions' i = Some (S n)) by (by eapply append_depth_moved).
  assert (Hother : ∀ j n, j ≠ i → session_stack_depth sessions j = Some n →
    session_stack_depth sessions' j = Some n) by (intros; by apply append_depth_other).
  split_and!; [|exists n; split_and!; [done|done|lia]|done].
  intros x' [x [<- Hx]]%list_elem_of_In%in_map_iff. apply list_elem_of_In in Hx.
  rewrite append_g_id. destruct (decide (id x = i)) as [->|Hne].
  - exists (S n). split; [done|lia].
  - destruct (Hok x Hx) as (m & Hm & Hle). exists m. split; [by apply Hother|done].
Qed.

(** creating a stacked child under its gate keeps every chain complete and
    within [MAX_STACK_DEPTH]. *)
Theorem create_stacked_child_keeps_depth sessions child p :
  stacks_ok sessions → (id child ∉ id <$> sessions) → parent_session_id child = Some p →
  can_create_stacked_child sessions p = true →
  stacks_ok (sessions ++ [child])
  ∧ (∀ j n, session_stack_depth sessions j = Some n →
            session_stack_depth (sessions ++ [child]) j = Some n).
Proof.
  intros Hok Hnew Hpar Hgate. split; [|intros j n; apply depth_snoc].
  destruct (can_create_stacked_child_depth sessions p Hgate) as (n & Hn & Hlt).
  intros s [Hs|Hs]%elem_of_app.
  - destruct (Hok s Hs) as (m & Hm & ?). exists m. split; [by apply depth_snoc|done].
  - apply list_elem_of_singleton in Hs as ->. exists (S n). split; [|lia].
    apply (depth_snoc _ child) in Hn. apply session_stack_depth_Some in Hn as (t & r & Ht & Hroot).
    apply session_stack_depth_Some. exists child, r. split; [by apply find_session_snoc_new|].
    by eapply root_chain_step.
Qed.

(** C8: one branch worker per stack: if at most one session of each stack does
    or reserves branch work, then after any of the gates lets a session start
    (to any status), that is still so.  A root draft starts without this check. *)
Theorem gates_keep_single_mutator sessions i st :
  NoDup (id <$> sessions) → single_mutator sessions →
  can_rebase_session_branch_in_stack sessions i = true
  ∨ can_merge_session_branch_in_stack sessions i = true
  ∨ can_reply_to_session_in_stack sessions i = true
  ∨ can_mutate_session_branch_in_stack sessions i = Some true
  ∨ can_start_staged_session_in_stack sessions i = true
    ∧ (∃ s, find_session sessions i = Some s ∧ has_parent s = true) →
  single_mutator (with_status i st sessions).
Proof.
  intros Hnd Hinv Hgate.
  enough (∃ stack, SessionStack_for_session sessions i = Some stack
    ∧ has_branch_mutating_member_except stack i = false) as (stack & ? & ?)
    by (by eapply single_mutator_update).
  destruct Hgate as [H|[H|[H|[H|[H (s & Hs & Hpar)]]]]]; revert H.
  - unfold can_rebase_session_branch_in_stack. case_match; [|done]. intros; bool_split; eauto.
  - unfold can_merge_session_branch_in_stack. case_match; [|done]. intros; bool_split; eauto.
  - unfold can_reply_to_session_in_stack. case_match; [|done]. intros; bool_split; eauto.
  - unfold can_mutate_session_branch_in_stack. case_match; [|done]. case_match; [done|]. eauto.
  - unfold can_start_staged_session_in_stack. case_match eqn:E; [|done].
    pose proof E as (s' & root & Hs' & _ & Hreq & _)%for_session_Some.
    rewrite Hs in Hs'. injection Hs' as <-. rewrite Hreq, Hpar. simpl. repeat case_match; try done.
    intros; bool_split. eauto.
Qed.

(** with unique session ids the branch-mutation gate always returns (its
    descendant walk keeps no visited set), and it opens exactly when no other
    member of the stack does branch work and no started, unfinished session is
    stacked below. *)
Theorem can_mutate_branch_spec sessions i :
  NoDup (id <$> sessions) →
  ∃ b, can_mutate_session_branch_in_stack sessions i = Some b
    ∧ (b = true ↔ ∃ stack, SessionStack_for_session sessions i = Some stack
         ∧ (∀ t, t ∈ members stack → id t ≠ i → is_stack_branch_mutating (status t) = false)
         ∧ (∀ t, t ∈ members stack → id t ≠ i → below sessions t i →
                 is_materialized (status t) = false)).
Proof.
  intros Hnd. unfold can_mutate_session_branch_in_stack.
  destruct (SessionStack_for_session sessions i) as [stack|] eqn:Hs; [|exists false; naive_solver].
  assert (Hmut : has_branch_mutating_member_except stack i = false ↔
    ∀ t, t ∈ members stack → id t ≠ i → is_stack_branch_mutating (status t) = false).
  { assert (Hne : ∀ t, negb (has_id i t) = true ↔ id t ≠ i)
      by (intros t; by rewrite negb_true_iff, <- not_true_iff_false, has_id_true).
    unfold has_branch_mutating_member_except. rewrite existsb_false. setoid_rewrite elem_of_filter_b.
    setoid_rewrite Hne. naive_solver. }
  destruct (has_branch_mutating_member_except stack i) eqn:Hm.
  - exists false. split; [done|]. split; [done|]. intros (stack' & [= <-] & Hno & _).
    by apply Hmut in Hno.
  - destruct (has_materialized_descendant_total sessions i stack Hnd Hs) as (b & -> & Hb). simpl.
    eexists. split; [done|]. destruct b; split; try done.
    + intros (stack' & [= <-] & _ & Hno). destruct (proj1 Hb eq_refl) as (t & Ht & Hti & Hbel & Hmat).
      by rewrite (Hno t Ht Hti Hbel) in Hmat.
    + intros _. exists stack. split; [done|]. split; [by apply Hmut|]. intros t Ht Hti Hbel.
      apply not_true_iff_false. intros Hmat. assert (false = true) by (apply Hb; eauto). done.
Qed.

(** ** Witnesses *)

Definition sample_stack : list Session :=
  [sample_session (L"root") None Review;
   sample_session (L"child") (Some (L"root")) Review;
   sample_session (L"solo") None Review].

Lemma sample_stack_unique : NoDup (id <$> sample_stack).
Proof. apply (bool_decide_unpack _). vm_compute. exact I. Qed.

Lemma sample_stack_ok : stacks_ok sample_stack.
Proof.
  intros s Hs. unfold sample_stack in Hs. rewrite !elem_of_cons, elem_of_nil in Hs.
  destruct Hs as [->|[->|[->|[]]]]; eexists; (split; [vm_compute; reflexivity|]); unfold MAX_STACK_DEPTH; lia.
Qed.

Lemma append_to_stack_witness :
  session_stack_depth (append_to_stack (L"solo") (L"child") sample_stack) (L"solo") = Some 2
  ∧ stacks_ok (append_to_stack (L"solo") (L"child") sample_stack).
Proof.
  split; [vm_compute; reflexivity|].
  apply (append_to_stack_keeps_depth sample_stack (L"solo") (L"child"));
    [apply sample_stack_unique|apply sample_stack_ok|vm_compute; reflexivity].
Defined.

Lemma create_stacked_child_witness :
  stacks_ok (sample_stack ++ [sample_session (L"new") (Some (L"child")) Draft]).
Proof.
  apply (create_stacked_child_keeps_depth sample_stack
    (sample_session (L"new") (Some (L"child")) Draft) (L"child"));
    [apply sample_stack_ok| |reflexivity|vm_compute; reflexivity].
  apply (bool_decide_unpack _). vm_compute. exact I.
Defined.

Lemma sample_stack_single : single_mutator sample_stack.
Proof.
  intros a b Ha _ Hm. unfold sample_stack in Ha. rewrite !elem_of_cons, elem_of_nil in Ha.
  destruct Ha as [->|[->|[->|[]]]]; discriminate.
Qed.

Lemma gates_keep_single_mutator_witness :
  single_mutator (with_status (L"child") Rebasing sample_stack).
Proof.
  apply (gates_keep_single_mutator sample_stack (L"child") Rebasing);
    [apply sample_stack_unique|apply sample_stack_single|left; vm_compute; reflexivity].
Defined.

Lemma can_mutate_branch_witness :
  can_mutate_session_branch_in_stack sample_stack (L"root") = Some false
  ∧ ∃ b, can_mutate_session_branch_in_stack sample_stack (L"child") = Some b.
Proof.
  split; [vm_compute; reflexivity|].
  destruct (can_mutate_branch_spec sample_stack (L"child") sample_stack_unique) as (b & E & _).
  exists b. exact E.
Defined.
