(* ===== verification/SessionOrder.v ===== *)
(** * Grouped session order (crates/agentty/src/domain/session_order.rs)

    The rows of the session list: three groups, each a forest of sessions
    nested under the display parent (the stack parent, else the orchestration
    controller).  The child recursion has explicit fuel, shown to be enough. *)
From S2P Require Import Prelude Contracts Agent Lifecycle Transcript Transient Prompt Input Session.

Inductive SessionGroup := GroupActive | GroupArchive | GroupMergeQueue.

#[global] Instance SessionGroup_eq_dec : EqDecision SessionGroup.
Proof. solve_decision. Defined.

Inductive SessionTreePosition := TreeRoot | TreeChild (depth : nat) (is_last : bool).

Inductive GroupedSessionRow :=
| GroupLabel (group : SessionGroup)
| SessionRow (index : nat) (session : Session) (tree_position : SessionTreePosition).

Definition session_group (session : Session) : SessionGroup :=
  match status session with
  | Queued | Merging => GroupMergeQueue
  | Done | Canceled => GroupArchive
  | _ => GroupActive
  end.

Definition in_group (group : SessionGroup) (session : Session) : bool :=
  bool_decide (session_group session = group).

(** [iter().enumerate()]. *)
Definition enumerate {A} (l : list A) : list (nat * A) := zip (seq 0 (length l)) l.

Definition sessions_for_group (sessions : list Session) (group : SessionGroup)
  : list (nat * Session) :=
  List.filter (λ row, in_group group row.2) (enumerate sessions).

(** [parent_session_id.or(controller_session_id)]. *)
Definition display_parent (session : Session) : option SessionId :=
  match parent_session_id session with
  | Some p => Some p
  | None => controller_session_id session
  end.

(** The [HashMap] of children by display parent; the entries keep list order. *)
Abbreviation StackedChildIndex := (gmap SessionId (list (nat * Session))).

Definition add_child (children_by_parent : StackedChildIndex) (row : nat * Session)
  : StackedChildIndex :=
  match display_parent row.2 with
  | Some parent_id =>
      <[parent_id := default [] (children_by_parent !! parent_id) ++ [row]]> children_by_parent
  | None => children_by_parent
  end.

Definition stacked_child_index (sessions : list Session) : StackedChildIndex :=
  fold_left add_child (enumerate sessions) ∅.

Definition has_loaded_parent_session_in_group (sessions : list Session) (session : Session)
    (group : SessionGroup) : bool :=
  match display_parent session with
  | Some parent_id =>
      existsb (λ candidate, str_eqb (id candidate) parent_id && in_group group candidate) sessions
  | None => false
  end.

(** The children of one parent row, in its group. *)
Definition group_children (stacked_children : StackedChildIndex) (parent_id : SessionId)
    (group : SessionGroup) : list (nat * Session) :=
  match stacked_children !! parent_id with
  | None => []
  | Some children => List.filter (λ row, in_group group row.2) children
  end.

(** The [for] loop over the children of one parent, each with its position. *)
Fixpoint append_child_rows (recurse : SessionId → option (list GroupedSessionRow))
    (depth child_count child_position : nat) (children : list (nat * Session))
  : option (list GroupedSessionRow) :=
  match children with
  | [] => Some []
  | (index, session) :: rest =>
      below ← recurse (id session);
      after ← append_child_rows recurse depth child_count (S child_position) rest;
      Some (SessionRow index session
              (TreeChild depth (child_position + 1 =? child_count)) :: below ++ after)
  end.

(** The rows [append_stacked_child_rows] pushes; [None] is exhausted fuel. *)
Fixpoint append_stacked_child_rows (fuel : nat) (stacked_children : StackedChildIndex)
    (group : SessionGroup) (depth : nat) (parent_id : SessionId)
  : option (list GroupedSessionRow) :=
  match fuel with
  | 0 => None
  | S fuel =>
      let children := group_children stacked_children parent_id group in
      append_child_rows
        (append_stacked_child_rows fuel stacked_children group (S depth))
        depth (length children) 0 children
  end.

(** The rows of the roots of one group, without its label. *)
Fixpoint append_root_rows (fuel : nat) (sessions : list Session)
    (stacked_children : StackedChildIndex) (group : SessionGroup) (rows : list (nat * Session))
  : option (list GroupedSessionRow) :=
  match rows with
  | [] => Some []
  | (index, session) :: rest =>
      if has_loaded_parent_session_in_group sessions session group
      then append_root_rows fuel sessions stacked_children group rest
      else
        below ← append_stacked_child_rows fuel stacked_children group 1 (id session);
        after ← append_root_rows fuel sessions stacked_children group rest;
        Some (SessionRow index session TreeRoot :: below ++ after)
  end.

(** The label is pushed before the first root row. *)
Definition append_group_rows (sessions : list Session) (stacked_children : StackedChildIndex)
    (group : SessionGroup) : option (list GroupedSessionRow) :=
  rows ← append_root_rows (S (length sessions)) sessions stacked_children group
           (sessions_for_group sessions group);
  Some (if is_empty rows then [] else GroupLabel group :: rows).

Definition grouped_session_rows (sessions : list Session) : option (list GroupedSessionRow) :=
  let stacked_children := stacked_child_index sessions in
  merge_queue ← append_group_rows sessions stacked_children GroupMergeQueue;
  active ← append_group_rows sessions stacked_children GroupActive;
  archive ← append_group_rows sessions stacked_children GroupArchive;
  Some (merge_queue ++ active ++ archive).

Definition row_index (row : GroupedSessionRow) : list nat :=
  match row with SessionRow index _ _ => [index] | GroupLabel _ => [] end.

Definition selectable_session_indexes (sessions : list Session) : option (list nat) :=
  rows ← grouped_session_rows sessions; Some (flat_map row_index rows).

(** Selection: the outer [option] is an order that does not return, or the
    panic of [indexes[position]]. *)
Definition selected_position (indexes : list nat) (selected_index : option nat) : option nat :=
  selected ← selected_index; position (Nat.eqb selected) indexes.

Definition next_position (indexes : list nat) (pos : option nat) : nat :=
  match pos with
  | Some p => if decide (length indexes - 1 <= p) then 0 else p + 1
  | None => 0
  end.

Definition previous_position (indexes : list nat) (pos : option nat) : nat :=
  match pos with
  | Some 0 => length indexes - 1
  | Some p => p - 1
  | None => 0
  end.

Definition next_selectable_session_index (sessions : list Session) (selected_index : option nat)
  : option (option nat) :=
  indexes ← selectable_session_indexes sessions;
  if is_empty indexes then Some None
  else
    index ← indexes !! next_position indexes (selected_position indexes selected_index);
    Some (Some index).

Definition previous_selectable_session_index (sessions : list Session) (selected_index : option nat)
  : option (option nat) :=
  indexes ← selectable_session_indexes sessions;
  if is_empty indexes then Some None
  else
    index ← indexes !! previous_position indexes (selected_position indexes selected_index);
    Some (Some index).

Definition preferred_initial_session_index (sessions : list Session) : option (option nat) :=
  match sessions_for_group sessions GroupActive with
  | (index, _) :: _ => Some (Some index)
  | [] => indexes ← selectable_session_indexes sessions; Some (head indexes)
  end.

(** ** Enumerated rows *)

Lemma elem_of_enumerate {A} (l : list A) i x : (i, x) ∈ enumerate l ↔ l !! i = Some x.
Proof.
  unfold enumerate. rewrite list_elem_of_lookup. setoid_rewrite lookup_zip_Some. split.
  - intros (j & [Hj ?]%lookup_seq & ?). simpl in Hj. by subst.
  - intros Hi. exists i. split; [|done]. apply lookup_seq. split; [done|]. by eapply lookup_lt_Some.
Qed.

Lemma enumerate_NoDup {A} (l : list A) : NoDup (enumerate l).
Proof.
  apply (NoDup_fmap_1 fst). unfold enumerate. rewrite fst_zip; [apply NoDup_seq|].
  by rewrite length_seq.
Qed.

Lemma NoDup_filter_b {A} (p : A → bool) (l : list A) : NoDup l → NoDup (List.filter p l).
Proof. intros H. apply NoDup_ListNoDup, List.NoDup_filter. by apply NoDup_ListNoDup. Qed.

(** The index gives, for each display parent, its children in list order. *)
Lemma fold_add_child rows acc p :
  (fold_left add_child rows acc) !! p
  = match List.filter (λ row, bool_decide (display_parent row.2 = Some p)) rows with
    | [] => acc !! p
    | children => Some (default [] (acc !! p) ++ children)
    end.
Proof.
  revert acc. induction rows as [|row rows IH]; intros acc; simpl; [done|]. rewrite IH. clear IH.
  unfold add_child. destruct (display_parent row.2) as [q|]; [destruct (decide (q = p)) as [->|Hne]|].
  - rewrite bool_decide_true by done. rewrite lookup_insert_eq. simpl.
    destruct (List.filter _ rows); simpl; by rewrite <- ?app_assoc.
  - rewrite bool_decide_false by congruence. by rewrite lookup_insert_ne by done.
  - by rewrite bool_decide_false by done.
Qed.

Lemma filter_andb {A} (p q : A → bool) l :
  List.filter p (List.filter q l) = List.filter (λ x, q x && p x) l.
Proof. induction l as [|x l IH]; simpl; [done|]. destruct (q x); simpl; [|done]. by rewrite IH. Qed.

Lemma group_children_eq sessions p g :
  group_children (stacked_child_index sessions) p g
  = List.filter (λ row, bool_decide (display_parent row.2 = Some p) && in_group g row.2)
      (enumerate sessions).
Proof.
  unfold group_children, stacked_child_index. rewrite fold_add_child, lookup_empty.
  rewrite <- filter_andb. by destruct (List.filter _ (enumerate sessions)).
Qed.

(** ** Paths from a row up to its root row *)

Definition is_root_row (sessions : list Session) (g : SessionGroup) (s : Session) : Prop :=
  has_loaded_parent_session_in_group sessions s g = false.

(** [row_path g (s :: path)]: [s] is shown in group [g] under [path]. *)
Inductive row_path (sessions : list Session) (g : SessionGroup) : list Session → Prop :=
| row_path_root r :
    r ∈ sessions → in_group g r = true → is_root_row sessions g r → row_path sessions g [r]
| row_path_child c p path :
    c ∈ sessions → in_group g c = true → display_parent c = Some (id p) →
    row_path sessions g (p :: path) → row_path sessions g (c :: p :: path).

Lemma row_path_head sessions g c path :
  row_path sessions g (c :: path) → c ∈ sessions ∧ in_group g c = true.
Proof. by inversion 1. Qed.

Lemma row_path_suffix sessions g q c path :
  row_path sessions g (q ++ c :: path) → row_path sessions g (c :: path).
Proof.
  induction q as [|x q IH]; [done|]. simpl. intros H. apply IH.
  inversion H as [? ? ? ? E|]; subst; [|congruence]. by destruct q.
Qed.

Section paths.
Context (sessions : list Session) (g : SessionGroup) (Hnd : NoDup (id <$> sessions)).

Lemma session_unique s t : s ∈ sessions → t ∈ sessions → id s = id t → s = t.
Proof.
  intros [i Hi]%list_elem_of_lookup [j Hj]%list_elem_of_lookup E.
  assert (i = j) as ->; [|congruence].
  apply (NoDup_lookup _ _ _ (id s) Hnd); rewrite list_lookup_fmap; [by rewrite Hi|by rewrite Hj, E].
Qed.

Lemma root_row_no_parent r p path :
  is_root_row sessions g r → row_path sessions g (p :: path) → display_parent r ≠ Some (id p).
Proof.
  intros Hr [Hp Hg]%row_path_head E. unfold is_root_row, has_loaded_parent_session_in_group in Hr.
  rewrite E, existsb_false in Hr. specialize (Hr p Hp). by rewrite str_eqb_refl, Hg in Hr.
Qed.

(** A session has at most one path. *)
Lemma row_path_unique c path c' path' :
  row_path sessions g (c :: path) → row_path sessions g (c' :: path') → id c = id c' →
  c :: path = c' :: path'.
Proof.
  intros H1. remember (c :: path) as l eqn:El. revert c path El c' path'.
  induction H1 as [r Hr Hg Hroot|x p l Hx Hg Hpar Hl IH]; intros c path [= <- <-] c' path' H2 Hid.
  - inversion H2 as [r' Hr'|? p' path'' Hc' Hg' Hpar' Hp']; subst.
    + by rewrite (session_unique r c').
    + rewrite (session_unique c' r) in Hpar' by done. by eapply root_row_no_parent in Hpar'.
  - inversion H2 as [r' Hr' Hg' Hroot'|? p' path'' Hc' Hg' Hpar' Hp']; subst.
    + rewrite (session_unique x c') in Hpar by done. by eapply root_row_no_parent in Hpar.
    + assert (x = c') as -> by (by apply session_unique). f_equal.
      apply (IH p l eq_refl p' path'' Hp'). congruence.
Qed.

Lemma row_path_NoDup path : row_path sessions g path → NoDup (id <$> path).
Proof.
  induction 1 as [r|c p path Hc Hg Hpar Hp IH]; [apply NoDup_singleton|].
  rewrite fmap_cons, NoDup_cons. split; [|done]. intros (x & Hid & Hx)%list_elem_of_fmap.
  apply list_elem_of_split in Hx as (l1 & l2 & E). rewrite E in Hp.
  pose proof (row_path_suffix _ _ _ _ _ Hp) as Hx.
  assert (Hc' : row_path sessions g (c :: p :: path)) by (rewrite <- E in Hp; by constructor).
  pose proof (row_path_unique _ _ _ _ Hc' Hx Hid) as Heq. apply (f_equal length) in Heq, E.
  rewrite length_app in E. simpl in *. lia.
Qed.

Lemma row_path_elem path s : row_path sessions g path → s ∈ path → s ∈ sessions.
Proof. induction 1; set_solver. Qed.

Lemma row_path_length path : row_path sessions g path → length path <= length sessions.
Proof.
  intros Hp. pose proof (row_path_NoDup _ Hp) as Hn.
  assert (Hle : length (id <$> path) <= length (id <$> sessions)).
  { apply submseteq_length, NoDup_submseteq; [done|].
    intros i (s & -> & Hs)%list_elem_of_fmap. apply list_elem_of_fmap_2. by eapply row_path_elem. }
  by rewrite !length_fmap in Hle.
Qed.
End paths.

(** ** The rows of a group *)

Definition row_entry (row : GroupedSessionRow) : list (nat * Session) :=
  match row with SessionRow index session _ => [(index, session)] | GroupLabel _ => [] end.

Definition entries (rows : list GroupedSessionRow) : list (nat * Session) := flat_map row_entry rows.

Lemma entries_app r1 r2 : entries (r1 ++ r2) = entries r1 ++ entries r2.
Proof. apply flat_map_app. Qed.

Lemma row_index_entries rows : flat_map row_index rows = (entries rows).*1.
Proof.
  induction rows as [|row rows IH]; [done|]. change (entries (row :: rows)) with (row_entry row ++ entries rows).
  rewrite fmap_app, <- IH. by destruct row.
Qed.

(** A loop that lists every element with what lies below it. *)
Lemma tree_loop (T : nat * Session → nat * Session → Prop) recurse depth n k children :
  (∀ r, r ∈ children → ∃ rs, recurse (id r.2) = Some rs ∧ NoDup (entries rs)
     ∧ ∀ e, e ∈ entries rs ↔ T r e) →
  NoDup children → (∀ r, r ∈ children → ¬ T r r) →
  (∀ r r' e, r ∈ children → r' ∈ children → e = r ∨ T r e → e = r' ∨ T r' e → r = r') →
  ∃ rs, append_child_rows recurse depth n k children = Some rs ∧ NoDup (entries rs)
    ∧ ∀ e, e ∈ entries rs ↔ ∃ r, r ∈ children ∧ (e = r ∨ T r e).
Proof.
  revert k. induction children as [|[i s] children IH]; intros k Hrec Hnd Hirr Hdisj; simpl.
  { exists []. split; [done|]. split; [constructor|set_solver]. }
  apply NoDup_cons in Hnd as [Hnew Hnd].
  destruct (Hrec (i, s)) as (below & Hb & Hbn & Hbe); [by left|]. simpl in Hb. rewrite Hb. simpl.
  destruct (IH (S k)) as (after & -> & Han & Hae);
    [intros; apply Hrec; by right|done|intros; apply Hirr; by right|
     intros; eapply Hdisj; eauto; by right|]. simpl.
  eexists. split; [reflexivity|]. change (entries (?r :: ?l)) with (row_entry r ++ entries l).
  rewrite entries_app. simpl. split.
  - apply NoDup_cons. split.
    + intros [Hin|Hin]%elem_of_app; [apply Hbe in Hin; by apply (Hirr (i, s)) in Hin; [|left]|].
      apply Hae in Hin as (r & Hr & Her). apply Hnew.
      rewrite (Hdisj (i, s) r (i, s)); [done|by left|by right|by left|done].
    + apply NoDup_app. split_and!; [done| |done]. intros e He Hea. apply Hbe in He.
      apply Hae in Hea as (r & Hr & Her). apply Hnew.
      rewrite (Hdisj (i, s) r e); [done|by left|by right|by right|done].
  - intros e. rewrite elem_of_cons, elem_of_app, Hbe, Hae. setoid_rewrite elem_of_cons. naive_solver.
Qed.

Section group.
Context (sessions : list Session) (g : SessionGroup) (Hnd : NoDup (id <$> sessions)).
Let rows := enumerate sessions.

(** [e] is shown strictly below the head of [path]. *)
Definition below_path (path : list Session) (e : nat * Session) : Prop :=
  e ∈ enumerate sessions ∧ ∃ q, row_path sessions g (e.2 :: q ++ path).

Lemma row_unique (r r' : nat * Session) : r ∈ rows → r' ∈ rows → r.2 = r'.2 → r = r'.
Proof.
  destruct r as [i s], r' as [j t]. simpl. intros Hr%elem_of_enumerate Hr'%elem_of_enumerate ->.
  f_equal. apply (NoDup_lookup (id <$> sessions) i j (id t)); [done| |];
    rewrite list_lookup_fmap; [by rewrite Hr|by rewrite Hr'].
Qed.

Lemma elem_of_row_session r : r ∈ rows → r.2 ∈ sessions.
Proof. destruct r as [i s]. intros ?%elem_of_enumerate. by eapply list_elem_of_lookup_2. Qed.

Lemma app_same_tail {A} (q1 q2 : list A) x y l : q1 ++ x :: l = q2 ++ y :: l → x = y.
Proof.
  intros E. assert (Hlen : length q1 = length q2).
  { apply (f_equal length) in E. rewrite !length_app in E. simpl in E. lia. }
  apply app_inj_1 in E as [_ E]; [by simplify_eq|done].
Qed.

(** What is at or below a child determines the child. *)
Lemma below_disjoint path r r' e :
  r ∈ rows → r' ∈ rows →
  row_path sessions g (r.2 :: path) → row_path sessions g (r'.2 :: path) →
  e = r ∨ below_path (r.2 :: path) e → e = r' ∨ below_path (r'.2 :: path) e → r = r'.
Proof.
  intros Hr Hr' Hp Hp' He He'. apply row_unique; [done..|].
  assert (Hpath : ∀ x, row_path sessions g (x.2 :: path) → e = x ∨ below_path (x.2 :: path) e →
    ∃ q, row_path sessions g (q ++ x.2 :: path) ∧ head (q ++ x.2 :: path) = Some e.2).
  { intros x Hx [->|[_ [q Hq]]]; [by exists []|by exists (e.2 :: q)]. }
  destruct (Hpath r Hp He) as (q & Hq & Hhead), (Hpath r' Hp' He') as (q' & Hq' & Hhead').
  destruct (q ++ r.2 :: path) as [|x l] eqn:E; [done|].
  destruct (q' ++ r'.2 :: path) as [|x' l'] eqn:E'; [done|]. simplify_eq/=.
  rewrite (row_path_unique sessions g Hnd _ _ _ _ Hq Hq' eq_refl) in E. rewrite <- E' in E.
  by apply app_same_tail in E.
Qed.

Lemma below_irrefl path r :
  row_path sessions g (r.2 :: path) → ¬ below_path (r.2 :: path) r.
Proof.
  intros _ [_ [q Hq]]. apply row_path_NoDup in Hq; [|done]. rewrite fmap_cons, fmap_app, fmap_cons in Hq.
  apply NoDup_cons in Hq as [Hq _]. apply Hq. set_solver.
Qed.

(** Being strictly below [c] is being at or below one of its children. *)
Lemma below_children c path e :
  row_path sessions g (c :: path) →
  below_path (c :: path) e ↔
  ∃ r, r ∈ group_children (stacked_child_index sessions) (id c) g
       ∧ (e = r ∨ below_path (r.2 :: c :: path) e).
Proof.
  intros Hc. rewrite group_children_eq. setoid_rewrite elem_of_filter_b. split.
  - intros [He [q Hq]]. destruct q as [|x q _] using rev_ind.
    + exists e. simpl in Hq. inversion Hq; subst. split; [|by left]. split; [|done].
      apply andb_true_iff. split; [by apply bool_decide_eq_true|done].
    + rewrite <- app_assoc in Hq. simpl in Hq.
      pose proof (row_path_suffix sessions g (e.2 :: q) x (c :: path) Hq) as Hx.
      inversion Hx as [|? ? ? Hin Hg Hpar Hrest]; subst.
      apply list_elem_of_lookup in Hin as [i Hi]. exists (i, x). split; [split|].
      * apply andb_true_iff. split; [by apply bool_decide_eq_true|done].
      * by apply elem_of_enumerate.
      * right. split; [done|]. by exists q.
  - intros (r & [[Hpar%bool_decide_eq_true Hg]%andb_true_iff Hr] & [->|[He [q Hq]]]).
    + split; [done|]. exists []. constructor; [by apply elem_of_row_session|done..].
    + split; [done|]. exists (q ++ [r.2]). by rewrite <- app_assoc.
Qed.

(** Enough fuel: a path cannot be longer than the list of sessions. *)
Lemma append_stacked_child_rows_spec fuel depth c path :
  row_path sessions g (c :: path) → length sessions < fuel + length (c :: path) →
  ∃ rs, append_stacked_child_rows fuel (stacked_child_index sessions) g depth (id c) = Some rs
    ∧ NoDup (entries rs) ∧ ∀ e, e ∈ entries rs ↔ below_path (c :: path) e.
Proof.
  revert depth c path. induction fuel as [|fuel IH]; intros depth c path Hc Hf.
  { pose proof (row_path_length sessions g Hnd _ Hc). lia. }
  simpl. set (children := group_children _ _ _).
  assert (Hchild : ∀ r, r ∈ children → r ∈ rows ∧ row_path sessions g (r.2 :: c :: path)).
  { unfold children. rewrite group_children_eq.
    intros r [[Hpar%bool_decide_eq_true Hg]%andb_true_iff Hr]%elem_of_filter_b.
    split; [done|]. constructor; [by apply elem_of_row_session|done..]. }
  destruct (tree_loop (λ r, below_path (r.2 :: c :: path))
    (append_stacked_child_rows fuel (stacked_child_index sessions) g (S depth))
    depth (length children) 0 children) as (rs & Hrs & Hn & He).
  - intros r Hr. apply IH; [by apply Hchild|]. simpl in *. lia.
  - unfold children. rewrite group_children_eq. apply NoDup_filter_b, enumerate_NoDup.
  - intros r Hr. by apply below_irrefl, Hchild.
  - intros r r' e Hr Hr'. destruct (Hchild r Hr), (Hchild r' Hr'). by apply below_disjoint.
  - exists rs. split_and!; [done..|]. intros e. rewrite He. symmetry. by apply below_children.
Qed.

Lemma append_root_rows_loop fuel l k rs :
  append_child_rows (append_stacked_child_rows fuel (stacked_child_index sessions) g 1) 0 0 k
    (List.filter (λ r, negb (has_loaded_parent_session_in_group sessions r.2 g)) l) = Some rs →
  ∃ rs', append_root_rows fuel sessions (stacked_child_index sessions) g l = Some rs'
    ∧ entries rs' = entries rs.
Proof.
  revert k rs. induction l as [|[i s] l IH]; intros k rs; simpl.
  { intros [= <-]. by exists []. }
  destruct (has_loaded_parent_session_in_group sessions s g); simpl; [apply IH|].
  destruct (append_stacked_child_rows fuel (stacked_child_index sessions) g 1 (id s)) as [below|];
    simpl; [|done].
  destruct (append_child_rows _ 0 0 (S k) _) as [after|] eqn:E; simpl; [|done]. intros [= <-].
  destruct (IH _ _ E) as (rs' & -> & Hent). eexists. split; [reflexivity|].
  change (entries (?r :: ?l)) with (row_entry r ++ entries l). by rewrite !entries_app, Hent.
Qed.

(** The rows of one group: every session with a path, once. *)
Lemma append_group_rows_spec :
  ∃ rs, append_group_rows sessions (stacked_child_index sessions) g = Some rs
    ∧ NoDup (entries rs) ∧ ∀ e, e ∈ entries rs ↔ e ∈ rows ∧ ∃ q, row_path sessions g (e.2 :: q).
Proof.
  set (roots := List.filter (λ r, negb (has_loaded_parent_session_in_group sessions r.2 g))
    (sessions_for_group sessions g)).
  assert (Hroots : ∀ r, r ∈ roots ↔ r ∈ rows ∧ row_path sessions g [r.2]).
  { intros r. unfold roots, sessions_for_group. rewrite !elem_of_filter_b, negb_true_iff. split.
    - intros (Hr & Hg & Hin). split; [done|]. constructor; [by apply elem_of_row_session|done..].
    - intros [Hin Hp]. inversion Hp; subst. by split_and!. }
  destruct (tree_loop (λ r, below_path [r.2])
    (append_stacked_child_rows (S (length sessions)) (stacked_child_index sessions) g 1) 0 0 0 roots)
    as (rs & Hrs & Hn & He).
  - intros r [_ Hp]%Hroots. apply append_stacked_child_rows_spec; [done|simpl; lia].
  - apply NoDup_filter_b, NoDup_filter_b, enumerate_NoDup.
  - intros r [_ Hp]%Hroots. by apply below_irrefl.
  - intros r r' e [Hr Hp]%Hroots [Hr' Hp']%Hroots. by apply below_disjoint.
  - destruct (append_root_rows_loop _ _ _ _ Hrs) as (rs' & Hrs' & Hent).
    unfold append_group_rows. rewrite Hrs'. simpl.
    assert (Hlab : entries (if is_empty rs' then [] else GroupLabel g :: rs') = entries rs)
      by (rewrite <- Hent; by destruct rs').
    eexists. split; [reflexivity|]. rewrite Hlab. split; [done|]. intros e. rewrite He. split.
    + intros (r & [Hr Hp]%Hroots & [->|[Hin [q Hq]]]); [by split; [|exists []]|]. eauto.
    + intros [Hin [q Hq]]. destruct q as [|x q _] using rev_ind.
      * exists e. split; [by apply Hroots|by left].
      * pose proof (row_path_suffix sessions g (e.2 :: q) x [] Hq) as Hx.
        destruct (row_path_head _ _ _ _ Hx) as [Hxin _].
        apply list_elem_of_lookup in Hxin as [i Hi]. exists (i, x). split.
        -- apply Hroots. split; [by apply elem_of_enumerate|done].
        -- right. split; [done|]. by exists q.
Qed.
End group.

(** Following display parents never goes around: some rank decreases. *)
Definition acyclic_display (sessions : list Session) : Prop :=
  ∃ rank : Session → nat, ∀ s t, s ∈ sessions → t ∈ sessions →
    display_parent s = Some (id t) → rank t < rank s.

Lemma acyclic_row_path sessions s :
  acyclic_display sessions → s ∈ sessions → ∃ q, row_path sessions (session_group s) (s :: q).
Proof.
  intros [rank Hrank]. remember (rank s) as n eqn:En. revert s En.
  induction (lt_wf n) as [n _ IH]; intros s -> Hs.
  assert (Hg : ∀ x, in_group (session_group x) x = true) by (intros; by apply bool_decide_eq_true).
  destruct (has_loaded_parent_session_in_group sessions s (session_group s)) eqn:E.
  2:{ exists []. by constructor. }
  unfold has_loaded_parent_session_in_group in E. destruct (display_parent s) as [p|] eqn:Hp; [|done].
  apply existsb_true in E as (t & Ht & [<-%str_eqb_true Hgt]%andb_true_iff).
  apply bool_decide_eq_true in Hgt.
  destruct (IH (rank t)) with (s := t) as [q Hq]; [by apply Hrank|done..|].
  rewrite Hgt in Hq. exists (t :: q). by constructor.
Qed.

Lemma session_group_unique sessions g s q :
  row_path sessions g (s :: q) → g = session_group s.
Proof. intros [_ Hg]%row_path_head. by apply bool_decide_eq_true in Hg. Qed.

(** The whole list: entries without repetition, exactly the sessions with a path. *)
Lemma grouped_session_rows_spec sessions :
  NoDup (id <$> sessions) →
  ∃ rs, grouped_session_rows sessions = Some rs ∧ NoDup (entries rs)
    ∧ ∀ e, e ∈ entries rs ↔
        e ∈ enumerate sessions ∧ ∃ q, row_path sessions (session_group e.2) (e.2 :: q).
Proof.
  intros Hnd. unfold grouped_session_rows.
  destruct (append_group_rows_spec sessions GroupMergeQueue Hnd) as (r1 & -> & Hn1 & He1). simpl.
  destruct (append_group_rows_spec sessions GroupActive Hnd) as (r2 & -> & Hn2 & He2). simpl.
  destruct (append_group_rows_spec sessions GroupArchive Hnd) as (r3 & -> & Hn3 & He3). simpl.
  eexists. split; [reflexivity|]. rewrite !entries_app. split.
  - assert (Hdis : ∀ g g' rs rs', g ≠ g' →
      (∀ e, e ∈ entries rs ↔ e ∈ enumerate sessions ∧ ∃ q, row_path sessions g (e.2 :: q)) →
      (∀ e, e ∈ entries rs' ↔ e ∈ enumerate sessions ∧ ∃ q, row_path sessions g' (e.2 :: q)) →
      ∀ e, e ∈ entries rs → e ∉ entries rs').
    { intros g g' rs rs' Hne H H' e [_ [q Hq]]%H [_ [q' Hq']]%H'. apply Hne.
      by rewrite (session_group_unique _ _ _ _ Hq), (session_group_unique _ _ _ _ Hq'). }
    pose proof (Hdis GroupMergeQueue GroupActive r1 r2 ltac:(discriminate) He1 He2) as H12.
    pose proof (Hdis GroupMergeQueue GroupArchive r1 r3 ltac:(discriminate) He1 He3) as H13.
    pose proof (Hdis GroupActive GroupArchive r2 r3 ltac:(discriminate) He2 He3) as H23.
    apply NoDup_app. split_and!; [done| |apply NoDup_app; by split_and!].
    intros e He. apply not_elem_of_app. split; auto.
  - intros e. rewrite !elem_of_app, He1, He2, He3. split.
    + intros [[Hin [q Hq]]|[[Hin [q Hq]]|[Hin [q Hq]]]]; (split; [done|]); exists q;
        by rewrite <- (session_group_unique _ _ _ _ Hq).
    + intros [Hin [q Hq]]. destruct (session_group e.2) eqn:Eg; eauto.
Qed.

Lemma position_eqb_lookup (l : list nat) (k i : nat) :
  NoDup l → l !! k = Some i → position (Nat.eqb i) l = Some k.
Proof.
  intros Hnd Hk. destruct (position (Nat.eqb i) l) as [j|] eqn:E.
  - apply position_Some in E as (x & Hj & Hx%Nat.eqb_eq & _). subst x. f_equal.
    by eapply NoDup_lookup.
  - apply position_None in E. rewrite Forall_forall in E.
    specialize (E i (list_elem_of_lookup_2 _ _ _ Hk)). by rewrite Nat.eqb_refl in E.
Qed.

Lemma selectable_indexes_eq sessions :
  NoDup (id <$> sessions) →
  ∃ rs, selectable_session_indexes sessions = Some (entries rs).*1 ∧ NoDup (entries rs).*1
    ∧ ∀ e, e ∈ entries rs ↔
        e ∈ enumerate sessions ∧ ∃ q, row_path sessions (session_group e.2) (e.2 :: q).
Proof.
  intros Hnd. destruct (grouped_session_rows_spec sessions Hnd) as (rs & Hrs & Hn & He).
  exists rs. unfold selectable_session_indexes. rewrite Hrs. simpl. rewrite row_index_entries.
  split_and!; [done| |done]. apply NoDup_fmap_2_strong; [|done].
  intros [i s] [j t] [Hi%elem_of_enumerate _]%He [Hj%elem_of_enumerate _]%He E.
  simpl in E. subst j. congruence.
Qed.

(** ** Properties *)

(** with unique session ids the grouped list is always built, shows no
    session twice, and shows every session of an acyclic parent graph, so the
    selectable indexes are a reordering of all session indexes. *)
Theorem selectable_indexes_complete sessions :
  NoDup (id <$> sessions) →
  ∃ indexes, selectable_session_indexes sessions = Some indexes ∧ NoDup indexes
    ∧ (∀ i, i ∈ indexes → i < length sessions)
    ∧ (acyclic_display sessions → indexes ≡ₚ seq 0 (length sessions)).
Proof.
  intros Hnd. destruct (selectable_indexes_eq sessions Hnd) as (rs & Hrs & Hn & He).
  exists (entries rs).*1.
  assert (Hlt : ∀ i, i ∈ (entries rs).*1 → i < length sessions).
  { intros i ([j s] & -> & Hin)%list_elem_of_fmap. apply He in Hin as [Hin%elem_of_enumerate _].
    by eapply lookup_lt_Some. }
  split_and!; [done..|]. intros Hac. apply NoDup_Permutation; [done|apply NoDup_seq|]. intros i.
  rewrite elem_of_seq. split; [intros ?%Hlt; lia|]. intros [_ Hi].
  destruct (lookup_lt_is_Some_2 sessions i Hi) as [s Hs]. apply list_elem_of_fmap. exists (i, s).
  split; [done|]. apply He. split; [by apply elem_of_enumerate|].
  apply acyclic_row_path; [done|]. by eapply list_elem_of_lookup_2.
Qed.

(** next and previous step through the grouped order and around its ends;
    with no selection, or one that is not shown, both go to the first row. *)
Theorem selection_cycles sessions indexes k i :
  NoDup (id <$> sessions) →
  selectable_session_indexes sessions = Some indexes → indexes !! k = Some i →
  let n := length indexes in
  next_selectable_session_index sessions (Some i) = Some (indexes !! ((k + 1) mod n))
  ∧ previous_selectable_session_index sessions (Some i) = Some (indexes !! ((k + n - 1) mod n))
  ∧ (∀ sel, (∀ j, sel = Some j → j ∉ indexes) →
       next_selectable_session_index sessions sel = Some (indexes !! 0)
       ∧ previous_selectable_session_index sessions sel = Some (indexes !! 0)).
Proof.
  intros Hnd Hidx Hk n. destruct (selectable_indexes_eq sessions Hnd) as (rs & Hrs & Hn & _).
  rewrite Hidx in Hrs. injection Hrs as ->. set (l := (entries rs).*1) in *.
  pose proof (lookup_lt_Some _ _ _ Hk) as Hlt. fold n in Hlt.
  assert (Hne : is_empty l = false) by (apply is_empty_false; intros E; by rewrite E in Hk).
  unfold next_selectable_session_index, previous_selectable_session_index. rewrite Hidx. simpl.
  rewrite Hne. unfold selected_position. simpl. rewrite (position_eqb_lookup l k i) by done.
  assert (Hget : ∀ m, m < n → (index ← l !! m; Some (Some index)) = Some (l !! m)).
  { intros m Hm. by destruct (lookup_lt_is_Some_2 l m Hm) as [x ->]. }
  assert (H0 : 0 < n) by lia.
  split_and!.
  - simpl. case_decide as E; rewrite Hget by lia.
    + replace (k + 1) with n by lia. by rewrite Nat.Div0.mod_same.
    + by rewrite Nat.mod_small by lia.
  - unfold previous_position. destruct k as [|k]; rewrite Hget by lia.
    + by rewrite Nat.mod_small by lia.
    + replace (S k + n - 1) with (k + 1 * n) by lia.
      rewrite Nat.Div0.mod_add, Nat.mod_small by lia. by replace (S k - 1) with k by lia.
  - intros sel Hsel. assert (Hpos : (selected ← sel; position (Nat.eqb selected) l) = None).
    { destruct sel as [j|]; simpl; [|done]. apply position_None, Forall_forall. intros x Hx.
      apply Nat.eqb_neq. intros ->. by apply (Hsel x). }
    rewrite Hpos. simpl. by rewrite Hget.
Qed.

(** ** Witnesses *)

Definition sample_list : list Session :=
  [sample_session (L"a") None Done; sample_session (L"b") (Some (L"c")) Review;
   sample_session (L"c") None Review].

Lemma sample_list_unique : NoDup (id <$> sample_list).
Proof. apply (bool_decide_unpack _). vm_compute. exact I. Qed.

Lemma selectable_indexes_complete_witness :
  selectable_session_indexes sample_list = Some [2; 1; 0]
  ∧ ∃ indexes, selectable_session_indexes sample_list = Some indexes ∧ NoDup indexes.
Proof.
  split; [vm_compute; reflexivity|].
  destruct (selectable_indexes_complete sample_list sample_list_unique) as (l & H & Hn & _).
  exists l. split; [exact H|exact Hn].
Defined.

Lemma selection_cycles_witness :
  next_selectable_session_index sample_list (Some 0) = Some (Some 2).
Proof.
  assert (H : selectable_session_indexes sample_list = Some [2; 1; 0]) by (vm_compute; reflexivity).
  exact (proj1 (selection_cycles sample_list [2; 1; 0] 2 0 sample_list_unique H eq_refl)).
Defined.
