(* ===== verification/MergeQueue.v ===== *)
(** * Merge queue (crates/agentty/src/app/merge_queue.rs, app/core/state.rs)

    The FIFO merge queue with its active merge, and the three application
    operations that drive it: requesting a merge, starting the next one, and
    progressing after status updates.  What the session services answer
    (checkout available, request valid, status marked, merge started) is an
    argument of the driver definitions. *)
From S2P Require Import Prelude Contracts Agent Lifecycle.

Inductive MergeQueueProgress := NoAction | StartNext.

#[global] Instance MergeQueueProgress_eq_dec : EqDecision MergeQueueProgress.
Proof. solve_decision. Defined.

Record MergeQueue := mkMergeQueue {
  active_session_id : option SessionId;
  queued_session_ids : list SessionId
}.

Definition MergeQueue_default : MergeQueue :=
  {| active_session_id := None; queued_session_ids := [] |}.

Definition is_queued_or_active (self : MergeQueue) (session_id : SessionId) : bool :=
  if bool_decide (active_session_id self = Some session_id) then true
  else existsb (λ queued, str_eqb queued session_id) (queued_session_ids self).

Definition enqueue (self : MergeQueue) (session_id : SessionId) : MergeQueue :=
  {| active_session_id := active_session_id self;
     queued_session_ids := queued_session_ids self ++ [session_id] |}.

Definition has_active (self : MergeQueue) : bool :=
  match active_session_id self with Some _ => true | None => false end.

Definition has_work (self : MergeQueue) : bool :=
  has_active self || negb (is_empty (queued_session_ids self)).

Definition pop_next (self : MergeQueue) : option SessionId * MergeQueue :=
  match queued_session_ids self with
  | [] => (None, self)
  | next :: rest =>
      (Some next, {| active_session_id := active_session_id self; queued_session_ids := rest |})
  end.

Definition set_active (self : MergeQueue) (session_id : SessionId) : MergeQueue :=
  {| active_session_id := Some session_id; queued_session_ids := queued_session_ids self |}.

Definition clear_active (self : MergeQueue) : MergeQueue :=
  {| active_session_id := None; queued_session_ids := queued_session_ids self |}.

Definition progress_from_status_updates (self : MergeQueue)
    (current_active_status : option SessionStatus) (session_ids : gset SessionId)
    (previous_session_states : gmap SessionId SessionStatus)
  : MergeQueueProgress * MergeQueue :=
  match active_session_id self with
  | None => (NoAction, self)
  | Some active =>
      if negb (bool_decide (active ∈ session_ids)) then
        match current_active_status with
        | None => (StartNext, clear_active self)
        | Some _ => (NoAction, self)
        end
      else if negb (bool_decide (previous_session_states !! active = Some Merging)) then
        if negb (bool_decide (current_active_status = Some Merging))
        then (StartNext, clear_active self) else (NoAction, self)
      else if bool_decide (current_active_status = Some Merging) then (NoAction, self)
      else (StartNext, clear_active self)
  end.

(** ** Driving the queue (app/core/state.rs) *)

(** The [while let] loop: [start] is the answer of the session manager's
    [merge_session] for each id; the ids that failed are collected. *)
Fixpoint start_next_loop (start : SessionId → result unit str) (stop_on_failure : bool)
    (active : option SessionId) (queued : list SessionId)
  : result unit str * MergeQueue * list SessionId :=
  match queued with
  | [] => (Ok (), {| active_session_id := active; queued_session_ids := [] |}, [])
  | next :: rest =>
      match start next with
      | Ok _ => (Ok (), {| active_session_id := Some next; queued_session_ids := rest |}, [])
      | Err error =>
          if stop_on_failure
          then (Err error, {| active_session_id := active; queued_session_ids := rest |}, [next])
          else
            let '(r, q, failed) := start_next_loop start stop_on_failure active rest in
            (r, q, next :: failed)
      end
  end.

Definition start_next_merge_from_queue (checkout_available : bool)
    (start : SessionId → result unit str) (stop_on_failure : bool) (self : MergeQueue)
  : result unit str * MergeQueue * list SessionId :=
  if has_active self then (Ok (), self, [])
  else if negb checkout_available then (Ok (), self, [])
  else start_next_loop start stop_on_failure (active_session_id self) (queued_session_ids self).

(** [merge_session]: [checkout], [valid] and [marked] are the results of the
    checkout check, of the request validation and of the status transition. *)
Definition merge_session (checkout valid marked : result unit str)
    (start : SessionId → result unit str) (self : MergeQueue) (session_id : SessionId)
  : result unit str * MergeQueue * list SessionId :=
  match checkout with
  | Err error => (Err error, self, [])
  | Ok _ =>
      if is_queued_or_active self session_id then (Ok (), self, [])
      else
        match valid with
        | Err error => (Err error, self, [])
        | Ok _ =>
            if has_active self then
              match marked with
              | Err error => (Err error, self, [])
              | Ok _ => (Ok (), enqueue self session_id, [])
              end
            else start_next_merge_from_queue true start true (enqueue self session_id)
        end
  end.

(** ** Lemmas *)

(** The sessions of the queue in the order they are served. *)
Definition queue_order (self : MergeQueue) : list SessionId :=
  option_list (active_session_id self) ++ queued_session_ids self.

Definition wf_queue (self : MergeQueue) : Prop := NoDup (queue_order self).

Lemma is_queued_or_active_true self i : is_queued_or_active self i = true ↔ i ∈ queue_order self.
Proof.
  unfold is_queued_or_active, queue_order. case_bool_decide as E.
  - rewrite E. split; [intros _; set_solver|done].
  - rewrite existsb_true, elem_of_app. split.
    + intros (x & Hx & <-%str_eqb_true). by right.
    + intros [Hi|Hi]; [|exists i; split; [done|apply str_eqb_refl]].
      destruct (active_session_id self); simpl in Hi; set_solver.
Qed.

Lemma start_next_loop_spec start stop_on_failure queued r q failed :
  start_next_loop start stop_on_failure None queued = (r, q, failed) →
  ∃ served, queued = failed ++ served ∧ queue_order q = served
    ∧ Forall (λ i, ∃ e, start i = Err e) failed
    ∧ (∀ i, active_session_id q = Some i → start i = Ok ())
    ∧ (stop_on_failure = false → has_active q = false → queued_session_ids q = [])
    ∧ (has_active q = true → r = Ok ()).
Proof.
  revert r q failed. induction queued as [|i queued IH]; intros r q failed; simpl.
  { intros [= <- <- <-]. exists []. by split_and!. }
  destruct (start i) as [[]|e] eqn:Es.
  { intros [= <- <- <-]. exists (i :: queued). split_and!; try done. by intros j [= <-]. }
  destruct stop_on_failure.
  { intros [= <- <- <-]. exists queued. split_and!; try done. by constructor; [exists e|constructor]. }
  destruct (start_next_loop start false None queued) as [[r' q'] failed'] eqn:El.
  intros [= <- <- <-]. destruct (IH _ _ _ eq_refl) as (served & -> & Ho & Hf & Ha & He & Hr).
  exists served. split_and!; try done. constructor; [by exists e|done].
Qed.

Lemma progress_cases self cur ids prev :
  progress_from_status_updates self cur ids prev = (NoAction, self)
  ∨ (∃ i, active_session_id self = Some i)
    ∧ progress_from_status_updates self cur ids prev = (StartNext, clear_active self).
Proof.
  unfold progress_from_status_updates. destruct (active_session_id self) as [i|] eqn:E; [|by left].
  repeat case_match; first [by left | by right; split; [exists i|]].
Qed.

(** ** Properties *)

(** requesting a merge keeps the queue free of duplicates and in request
    order: a session that waits or merges is not queued again, a valid request
    goes to the end behind an active merge, and otherwise the next merge is
    started, failed starts being dropped from the front only. *)
Theorem merge_session_fifo checkout valid marked start self i r q failed :
  wf_queue self → merge_session checkout valid marked start self i = (r, q, failed) →
  wf_queue q
  ∧ (i ∈ queue_order self → queue_order q = queue_order self ∧ failed = [])
  ∧ (∃ added, (added = [] ∨ added = [i]) ∧ queue_order self ++ added = failed ++ queue_order q)
  ∧ (has_active self = true →
       q = self ∨ r = Ok () ∧ q = enqueue self i ∧ valid = Ok () ∧ marked = Ok ()).
Proof.
  unfold wf_queue, merge_session. intros Hwf.
  assert (Hsame : ∀ e, (e, self, []) = (r, q, failed) →
    NoDup (queue_order q) ∧ (i ∈ queue_order self → queue_order q = queue_order self ∧ failed = [])
    ∧ (∃ added, (added = [] ∨ added = [i]) ∧ queue_order self ++ added = failed ++ queue_order q)
    ∧ (has_active self = true → q = self ∨ r = Ok () ∧ q = enqueue self i ∧ valid = Ok () ∧ marked = Ok ())).
  { intros e [= <- <- <-]. split_and!; try done; [|by left]. exists []. rewrite app_nil_r. by split; [left|]. }
  destruct checkout as [[]|e]; [|apply Hsame].
  destruct (is_queued_or_active self i) eqn:Ei; [apply Hsame|].
  assert (Hnew : i ∉ queue_order self) by (intros F%is_queued_or_active_true; congruence).
  assert (Henq : queue_order (enqueue self i) = queue_order self ++ [i])
    by (unfold queue_order; simpl; by rewrite app_assoc).
  assert (Hnd : NoDup (queue_order self ++ [i]))
    by (apply NoDup_app; split_and!; [done|set_solver|apply NoDup_singleton]).
  destruct valid as [[]|e]; [|apply Hsame]. destruct (has_active self) eqn:Ha.
  - destruct marked as [[]|e]; [|apply Hsame]. intros [= <- <- <-]. rewrite Henq.
    split_and!; [done|done| |by right]. exists [i]. by split; [right|].
  - unfold start_next_merge_from_queue. simpl. unfold has_active in *. simpl.
    destruct (active_session_id self) eqn:Eact; [done|].
    intros (served & E & Ho & _)%start_next_loop_spec.
    assert (Horder : queue_order self ++ [i] = failed ++ queue_order q).
    { unfold queue_order at 1. rewrite Eact. simpl. by rewrite E, Ho. }
    split_and!; [|done| |done].
    + rewrite Horder in Hnd. by apply NoDup_app in Hnd as (_ & _ & ?).
    + exists [i]. by split; [right|].
Qed.

(** the queue moves on exactly when the active merge is over: it has left
    the session list, or it was touched by the update batch and is not
    [Merging] any more.  Then the next request that starts becomes active, and
    with failures skipped none is left waiting without an active merge. *)
Theorem queue_progress self cur ids prev start r q failed :
  wf_queue self →
  let '(progress, self') := progress_from_status_updates self cur ids prev in
  (progress = StartNext ↔ ∃ i, active_session_id self = Some i
     ∧ ((i ∈ ids ∧ cur ≠ Some Merging) ∨ ((i ∉ ids) ∧ cur = None)))
  ∧ (progress = NoAction → self' = self)
  ∧ (progress = StartNext →
       start_next_merge_from_queue true start false self' = (r, q, failed) →
       wf_queue q ∧ queued_session_ids self = failed ++ queue_order q
       ∧ (has_active q = false → queue_order q = [])
       ∧ (∀ i, active_session_id q = Some i → start i = Ok ())).
Proof.
  intros Hwf. destruct (progress_from_status_updates self cur ids prev) as [progress self'] eqn:E.
  split_and!.
  - revert E. unfold progress_from_status_updates. destruct (active_session_id self) as [i|]; [|naive_solver].
    repeat (case_match || case_bool_decide); simpl in *; bool_split; naive_solver.
  - intros ->. destruct (progress_cases self cur ids prev) as [H|[_ H]]; congruence.
  - intros ->. destruct (progress_cases self cur ids prev) as [H|[[i Hi] H]]; [congruence|].
    assert (self' = clear_active self) as -> by congruence.
    unfold start_next_merge_from_queue. simpl.
    intros (served & Eq & Ho & _ & Ha & He & _)%start_next_loop_spec.
    unfold wf_queue, queue_order in Hwf. rewrite Hi in Hwf. simpl in Hwf, Eq.
    apply NoDup_cons in Hwf as [_ Hwf]. rewrite Eq in Hwf. apply NoDup_app in Hwf as (_ & _ & Hwf).
    split_and!; [unfold wf_queue; by rewrite Ho|by rewrite Ho| |done].
    intros Hno. unfold queue_order. rewrite (He eq_refl Hno).
    unfold has_active in Hno. by destruct (active_session_id q).
Qed.

(** ** Witnesses *)

Definition sample_queue : MergeQueue :=
  {| active_session_id := Some (L"a"); queued_session_ids := [L"b"; L"c"] |}.

Lemma sample_queue_wf : wf_queue sample_queue.
Proof. apply (bool_decide_unpack _). vm_compute. exact I. Qed.

Lemma merge_session_fifo_witness :
  wf_queue (merge_session (Ok ()) (Ok ()) (Ok ()) (λ _, Ok ()) sample_queue (L"d")).1.2.
Proof.
  refine (proj1 (merge_session_fifo (Ok ()) (Ok ()) (Ok ()) (λ _, Ok ()) sample_queue (L"d")
    (Ok ()) _ [] sample_queue_wf _)). vm_compute. reflexivity.
Defined.

Lemma queue_progress_witness :
  (progress_from_status_updates sample_queue (Some Done) {[ L"a" ]} {[ L"a" := Merging ]}).1 = StartNext.
Proof.
  pose proof (queue_progress sample_queue (Some Done) {[ L"a" ]} {[ L"a" := Merging ]}
    (λ _, Ok ()) (Ok ()) sample_queue [] sample_queue_wf) as H.
  destruct (progress_from_status_updates sample_queue (Some Done) {[ L"a" ]} {[ L"a" := Merging ]})
    as [p q] eqn:E.
  apply (proj1 H). exists (L"a"). split; [reflexivity|]. left. split; [set_solver|discriminate].
Defined.
