(* ===== verification/FileEntry.v ===== *)
(** * File mentions (crates/agentty/src/domain/file_entry.rs)

    Fuzzy filtering and ranking of file entries for [@]-mentions.  Scores are
    kept in [Z]; the score theorem bounds them, so that the [i32] of the code
    does not overflow. *)
From S2P Require Import Prelude.

Definition at_mention_lookup_root (project_working_dir : str) (session_folder : option str)
    (has_session_folder : bool) : str :=
  match has_session_folder, session_folder with
  | true, Some folder => folder
  | _, _ => project_working_dir
  end.

Record FileEntry := mkFileEntry { is_dir : bool; path : str }.

#[global] Instance FileEntry_eq_dec : EqDecision FileEntry.
Proof. solve_decision. Defined.

(** ** Scoring *)

Record FuzzyScoreState := mkFuzzy {
  prev_matched : bool;
  prev_path_char : option char;
  query_index : nat;
  score : Z
}.

Definition FuzzyScoreState_new : FuzzyScoreState :=
  {| prev_matched := false; prev_path_char := None; query_index := 0; score := 0 |}.

Definition is_segment_boundary (path_char : char) : bool := bool_decide (path_char ∈ L"/._-").

Definition query_is_complete (self : FuzzyScoreState) (query_chars : list char) : bool :=
  length query_chars <=? query_index self.

Definition consecutive_match_bonus (self : FuzzyScoreState) : Z := if prev_matched self then 3 else 0.

Definition segment_start_bonus (self : FuzzyScoreState) : Z :=
  match prev_path_char self with
  | None => 5
  | Some c => if is_segment_boundary c then 5 else 0
  end.

(** The query is not complete here, so [query_chars[self.query_index]] exists. *)
Definition score_lowercase_character (self : FuzzyScoreState) (path_char : char)
    (query_chars : list char) : bool * FuzzyScoreState :=
  if bool_decide (query_chars !! query_index self = Some path_char) then
    (true,
     {| prev_matched := true; prev_path_char := prev_path_char self;
        query_index := query_index self + 1;
        score := score self + 1 + consecutive_match_bonus self + segment_start_bonus self |})
  else
    (false,
     {| prev_matched := false; prev_path_char := prev_path_char self;
        query_index := query_index self; score := score self |}).

(** The loop over the lowercase expansion of one character. *)
Fixpoint score_lowercase_loop (self : FuzzyScoreState) (matched : bool) (lowered : list char)
    (query_chars : list char) : bool * FuzzyScoreState :=
  match lowered with
  | [] => (matched, self)
  | path_char :: rest =>
      if query_is_complete self query_chars then (matched, self)
      else
        let '(matched, self) := score_lowercase_character self path_char query_chars in
        score_lowercase_loop self matched rest query_chars
  end.

Definition score_path_character `{UnicodeCase} (self : FuzzyScoreState) (path_char_orig : char)
    (query_chars : list char) : FuzzyScoreState :=
  let '(matched, self) :=
    score_lowercase_loop self false (char_to_lowercase path_char_orig) query_chars in
  {| prev_matched := matched; prev_path_char := Some path_char_orig;
     query_index := query_index self; score := score self |}.

Fixpoint score_path_loop `{UnicodeCase} (self : FuzzyScoreState) (path_chars : list char)
    (query_chars : list char) : FuzzyScoreState :=
  match path_chars with
  | [] => self
  | c :: rest =>
      if query_is_complete self query_chars then self
      else score_path_loop (score_path_character self c query_chars) rest query_chars
  end.

Definition contains_char (c : char) (s : str) : bool := existsb (N.eqb c) s.

(** [rsplit('/').next()] and [split('.').next()]. *)
Definition basename_of (normalized_path : str) : str :=
  default normalized_path (last (split_char slash normalized_path)).

Definition stem_of (basename : str) : str := default [] (head (split_char 46%N basename)).

Definition basename_match_bonus `{UnicodeCase} (p query : str) : Z :=
  if is_empty query || contains_char slash query then 0
  else
    let basename_lower := str_to_lowercase (basename_of (trim_end_matches (N.eqb slash) p)) in
    let basename_stem := stem_of basename_lower in
    if str_eqb basename_stem query then 60
    else if starts_with basename_lower query then 45
    else if str_contains basename_lower query then 30
    else 0.

(** The characters scored: the path, with a final [/] for a directory. *)
Definition scored_chars (p : str) (append_trailing_slash : bool) : list char :=
  if append_trailing_slash then p ++ [slash] else p.

Definition fuzzy_score `{UnicodeCase} (p : str) (query_chars : list char) (query_lower : str)
    (append_trailing_slash : bool) : option Z :=
  let state :=
    score_path_loop FuzzyScoreState_new (scored_chars p append_trailing_slash) query_chars in
  if query_is_complete state query_chars
  then Some (score state + basename_match_bonus p query_lower)%Z else None.

Definition fuzzy_score_for_entry `{UnicodeCase} (entry : FileEntry) (query_chars : list char)
    (query_lower : str) : option Z :=
  fuzzy_score (path entry) query_chars query_lower (is_dir entry).

(** ** Ranking *)

Record ScoredEntry := mkScored {
  scored_depth : nat;
  scored_entry : FileEntry;
  path_len : nat;
  scored_score : Z
}.

Definition path_depth (p : str) : nat := length (List.filter (N.eqb slash) (as_bytes p)).

(** [str::cmp]: the order of the bytes is the order of the scalar values. *)
Fixpoint str_compare (a b : str) : comparison :=
  match a, b with
  | [], [] => Eq
  | [], _ => Lt
  | _, [] => Gt
  | x :: a', y :: b' =>
      match (x ?= y)%N with Eq => str_compare a' b' | c => c end
  end.

(** [Ordering::then]. *)
Definition then_cmp (c d : comparison) : comparison := match c with Eq => d | _ => c end.

Definition compare_scored_entries (first second : ScoredEntry) : comparison :=
  then_cmp (scored_score second ?= scored_score first)%Z
    (then_cmp (scored_depth first ?= scored_depth second)
       (then_cmp (path_len first ?= path_len second)
          (str_compare (path (scored_entry first)) (path (scored_entry second))))).

Definition scored_leb (a b : ScoredEntry) : bool :=
  match compare_scored_entries a b with Gt => false | _ => true end.

Definition score_entry `{UnicodeCase} (query_chars : list char) (query_lower : str)
    (entry : FileEntry) : list ScoredEntry :=
  match fuzzy_score_for_entry entry query_chars query_lower with
  | Some s => [{| scored_depth := path_depth (path entry); scored_entry := entry;
                  path_len := byte_len (path entry); scored_score := s |}]
  | None => []
  end.

Definition prioritize_directories_for_trailing_slash (entries : list FileEntry) (query : str)
  : list FileEntry :=
  if ends_with query [slash]
  then sort_by_key (λ entry, if is_dir entry then 0%Z else 1%Z) entries
  else entries.

Definition filter_entries `{UnicodeCase} (entries : list FileEntry) (query : str)
  : list FileEntry :=
  if is_empty query then entries
  else
    let query_lower := str_to_lowercase query in
    let query_chars := query_lower in
    let scored := sort_by scored_leb (flat_map (score_entry query_chars query_lower) entries) in
    prioritize_directories_for_trailing_slash (scored_entry <$> scored) query.

(** ** Matching *)

Section matching.
Context `{UnicodeCase}.

(** The query left to match in a scoring state. *)
Definition query_left (self : FuzzyScoreState) (query : list char) : list char :=
  drop (query_index self) query.

Lemma complete_left self query : query_is_complete self query = true ↔ query_left self query = [].
Proof.
  unfold query_is_complete, query_left. rewrite Nat.leb_le. split; [apply drop_ge|].
  intros E%(f_equal length). rewrite length_drop in E. simpl in E. lia.
Qed.

(** What a state owes to the query so far: at most nine points a character. *)
Definition score_ok (self : FuzzyScoreState) (query : list char) : Prop :=
  query_index self <= length query ∧ (0 <= score self <= 9 * Z.of_nat (query_index self))%Z.

Lemma score_lowercase_character_spec self c query :
  query_is_complete self query = false → score_ok self query →
  let self' := (score_lowercase_character self c query).2 in
  query_left self' query = greedy (query_left self query) [c] ∧ score_ok self' query.
Proof.
  intros Hc [Hi Hs]. unfold score_lowercase_character, query_left, score_ok.
  apply Nat.leb_gt in Hc. destruct (lookup_lt_is_Some_2 query (query_index self) Hc) as [x Hx].
  rewrite (drop_S _ _ _ Hx), Hx. simpl. case_bool_decide as E; simpl.
  - simplify_eq. rewrite decide_True by done. rewrite Nat.add_1_r. split; [done|].
    unfold consecutive_match_bonus, segment_start_bonus. repeat case_match; lia.
  - rewrite decide_False by congruence. rewrite (drop_S _ _ _ Hx). split; [done|lia].
Qed.

Lemma score_lowercase_loop_spec lowered self matched query :
  score_ok self query →
  let self' := (score_lowercase_loop self matched lowered query).2 in
  query_left self' query = greedy (query_left self query) lowered ∧ score_ok self' query.
Proof.
  revert self matched. induction lowered as [|c lowered IH]; intros self matched Hok; [done|].
  cbn [score_lowercase_loop]. destruct (query_is_complete self query) eqn:E.
  - apply complete_left in E. by rewrite E.
  - destruct (score_lowercase_character_spec self c query E Hok) as [Hl Hok'].
    destruct (score_lowercase_character self c query) as [m self'] eqn:Es. cbn [snd] in *.
    destruct (IH self' m Hok') as [Hl' ?]. split; [|done].
    rewrite Hl', Hl. symmetry. exact (greedy_app _ [c] lowered).
Qed.

Lemma score_path_loop_spec cs self query :
  score_ok self query →
  let self' := score_path_loop self cs query in
  query_left self' query = greedy (query_left self query) (flat_map char_to_lowercase cs)
  ∧ score_ok self' query.
Proof.
  revert self. induction cs as [|c cs IH]; intros self Hok; [done|].
  simpl. destruct (query_is_complete self query) eqn:E.
  - apply complete_left in E. rewrite E. by rewrite greedy_nil.
  - destruct (score_lowercase_loop_spec (char_to_lowercase c) self false query Hok) as [Hl Hok'].
    unfold score_path_character.
    destruct (score_lowercase_loop self false (char_to_lowercase c) query) as [m self'].
    destruct (IH {| prev_matched := m; prev_path_char := Some c; query_index := query_index self';
                    score := score self' |} Hok') as [Hl' ?]. split; [|done].
    rewrite Hl', greedy_app. f_equal. exact Hl.
Qed.

(** An entry matches when the query is a subsequence of its lowercase path. *)
Definition entry_matches (query_lower : str) (e : FileEntry) : Prop :=
  query_lower `sublist_of` flat_map char_to_lowercase (scored_chars (path e) (is_dir e)).

Lemma basename_match_bonus_range p q : (0 <= basename_match_bonus p q <= 60)%Z.
Proof. unfold basename_match_bonus. repeat case_match; lia. Qed.

Lemma fuzzy_score_for_entry_spec e query :
  match fuzzy_score_for_entry e query query with
  | Some s => entry_matches query e ∧ (0 <= s <= 9 * Z.of_nat (length query) + 60)%Z
  | None => ¬ entry_matches query e
  end.
Proof.
  unfold fuzzy_score_for_entry, fuzzy_score, entry_matches.
  destruct (score_path_loop_spec (scored_chars (path e) (is_dir e)) FuzzyScoreState_new query)
    as [Hl [Hi Hs]]; [unfold score_ok; simpl; lia|]. unfold query_left at 2 in Hl. simpl in Hl.
  rewrite drop_0 in Hl.
  destruct (query_is_complete (score_path_loop _ _ query) query) eqn:E.
  - apply complete_left in E. rewrite Hl in E. apply greedy_sublist in E. split; [done|].
    pose proof (basename_match_bonus_range (path e) query). lia.
  - intros Hsub. apply greedy_sublist in Hsub. rewrite <- Hl in Hsub.
    apply complete_left in Hsub. congruence.
Qed.
End matching.

(** ** The ranking order *)

Lemma str_compare_refl a : str_compare a a = Eq.
Proof. induction a as [|x a IH]; simpl; [done|]. by rewrite N.compare_refl. Qed.

Lemma str_compare_Eq a b : str_compare a b = Eq → a = b.
Proof.
  revert b. induction a as [|x a IH]; intros [|y b]; simpl; try done.
  destruct (N.compare_spec x y) as [->| |]; try done. intros E. f_equal. auto.
Qed.

Lemma str_compare_antisym a b : str_compare b a = CompOpp (str_compare a b).
Proof.
  revert b. induction a as [|x a IH]; intros [|y b]; simpl; try done.
  rewrite (N.compare_antisym x y). destruct (x ?= y)%N; simpl; auto.
Qed.

Lemma str_compare_Lt_trans a b c : str_compare a b = Lt → str_compare b c = Lt → str_compare a c = Lt.
Proof.
  revert b c. induction a as [|x a IH]; intros [|y b] [|z c]; simpl; try done.
  destruct (N.compare_spec x y) as [->|Hxy|]; try done.
  - destruct (y ?= z)%N; try done. apply IH.
  - intros _. destruct (N.compare_spec y z) as [->|Hyz|]; try done.
    + by rewrite (proj2 (N.compare_lt_iff x z)).
    + intros _. by rewrite (proj2 (N.compare_lt_iff x z)) by lia.
Qed.

(** The ranking as a lexicographic order on integers and texts. *)
Definition scored_before (a b : ScoredEntry) : Prop :=
  (scored_score b < scored_score a)%Z
  ∨ scored_score a = scored_score b
    ∧ (scored_depth a < scored_depth b
       ∨ scored_depth a = scored_depth b
         ∧ (path_len a < path_len b
            ∨ path_len a = path_len b
              ∧ str_compare (path (scored_entry a)) (path (scored_entry b)) ≠ Gt)).

Lemma scored_leb_true a b : scored_leb a b = true ↔ scored_before a b.
Proof.
  unfold scored_leb, compare_scored_entries, scored_before, then_cmp.
  destruct (Z.compare_spec (scored_score b) (scored_score a));
    [|split; [left; lia|done]|split; [done|lia]].
  destruct (Nat.compare_spec (scored_depth a) (scored_depth b));
    [|split; [right; split; [lia|left; lia]|done]|split; [done|lia]].
  destruct (Nat.compare_spec (path_len a) (path_len b));
    [|split; [do 2 (right; split; [lia|]); left; lia|done]|split; [done|lia]].
  destruct (str_compare _ _) eqn:E; split; intros Hx; try done;
    try (do 3 (right; split; [lia|]); done).
  destruct Hx as [?|[_ [?|[_ [?|[_ ?]]]]]]; first [lia | done].
Qed.

Lemma scored_leb_total a b : scored_leb a b = true ∨ scored_leb b a = true.
Proof.
  rewrite !scored_leb_true. unfold scored_before.
  pose proof (str_compare_antisym (path (scored_entry a)) (path (scored_entry b))) as Hanti.
  destruct (str_compare (path (scored_entry a)) (path (scored_entry b))), (str_compare (path (scored_entry b)) (path (scored_entry a))); try done;
  destruct (Z.lt_trichotomy (scored_score a) (scored_score b)) as [|[|]],
    (lt_eq_lt_dec (scored_depth a) (scored_depth b)) as [[|]|],
    (lt_eq_lt_dec (path_len a) (path_len b)) as [[|]|]; auto 10.
Qed.

Lemma str_compare_le_trans a b c :
  str_compare a b ≠ Gt → str_compare b c ≠ Gt → str_compare a c ≠ Gt.
Proof.
  destruct (str_compare a b) eqn:E1; try done.
  - by apply str_compare_Eq in E1 as ->.
  - destruct (str_compare b c) eqn:E2; try done.
    + apply str_compare_Eq in E2 as ->. by rewrite E1.
    + by rewrite (str_compare_Lt_trans a b c).
Qed.

Lemma scored_leb_trans a b c : scored_leb a b = true → scored_leb b c = true → scored_leb a c = true.
Proof.
  rewrite !scored_leb_true. unfold scored_before.
  intros [?|[? [?|[? [?|[? Hab]]]]]] [?|[? [?|[? [?|[? Hbc]]]]]];
    first [left; lia | right; split; [lia|]];
    first [left; lia | right; split; [lia|]];
    first [left; lia | right; split; [lia|]]. by eapply str_compare_le_trans.
Qed.

(** ** Ranked results *)

Lemma flat_map_score_entry `{UnicodeCase} q entries :
  scored_entry <$> flat_map (score_entry q q) entries
  = List.filter (λ e, match fuzzy_score_for_entry e q q with Some _ => true | None => false end) entries.
Proof.
  induction entries as [|e entries IH]; [done|]. simpl. rewrite fmap_app, IH. unfold score_entry.
  by destruct (fuzzy_score_for_entry e q q).
Qed.

Lemma scored_elem `{UnicodeCase} q entries x :
  x ∈ flat_map (score_entry q q) entries →
  fuzzy_score_for_entry (scored_entry x) q q = Some (scored_score x)
  ∧ scored_depth x = path_depth (path (scored_entry x))
  ∧ path_len x = byte_len (path (scored_entry x)).
Proof.
  intros Hx. apply list_elem_of_In, in_flat_map in Hx as (e & _ & He). unfold score_entry in He.
  destruct (fuzzy_score_for_entry e q q) eqn:E; [|done]. destruct He as [<-|[]]. done.
Qed.

(** [a] ranks no lower than [b]: score, then depth, then length, then name. *)
Definition ranked_before `{UnicodeCase} (q : str) (a b : FileEntry) : Prop :=
  ∃ sa sb, fuzzy_score_for_entry a q q = Some sa ∧ fuzzy_score_for_entry b q q = Some sb
    ∧ compare_scored_entries
        {| scored_depth := path_depth (path a); scored_entry := a; path_len := byte_len (path a);
           scored_score := sa |}
        {| scored_depth := path_depth (path b); scored_entry := b; path_len := byte_len (path b);
           scored_score := sb |} ≠ Gt.

Lemma StronglySorted_fmap_elem {A B} (f : A → B) (R : A → A → Prop) (S : B → B → Prop) (l : list A) :
  (∀ x y, x ∈ l → y ∈ l → R x y → S (f x) (f y)) → StronglySorted R l → StronglySorted S (f <$> l).
Proof.
  intros HRS. induction 1 as [|x l Hl IH Hx]; [constructor|]. rewrite fmap_cons. constructor.
  - apply IH. intros; apply HRS; [by right|by right|done].
  - rewrite Forall_fmap. rewrite Forall_forall in Hx |- *. intros y Hy.
    apply HRS; [by left|by right|by apply Hx].
Qed.

Lemma StronglySorted_filter_b {A} (R : A → A → Prop) (p : A → bool) (l : list A) :
  StronglySorted R l → StronglySorted R (List.filter p l).
Proof.
  induction 1 as [|x l Hl IH Hx]; [constructor|]. simpl. destruct (p x); [|done].
  constructor; [done|]. rewrite Forall_forall in Hx |- *. intros y [_ Hy]%elem_of_filter_b. auto.
Qed.

Lemma insert_after {A} (leb : A → A → bool) x a b :
  Forall (λ y, leb x y = false) a → insert_by leb x (a ++ b) = a ++ insert_by leb x b.
Proof. induction 1 as [|y a Hy _ IH]; simpl; [done|]. by rewrite Hy, IH. Qed.

(** A stable sort on two classes is a partition. *)
Lemma sort_two_classes {A} (p : A → bool) (l : list A) :
  sort_by_key (λ x, if p x then 0%Z else 1%Z) l
  = List.filter p l ++ List.filter (λ x, negb (p x)) l.
Proof.
  unfold sort_by_key. induction l as [|x l IH]; [done|]. cbn [sort_by List.filter]. rewrite IH.
  destruct (p x) eqn:Hp; simpl.
  - destruct (List.filter p l ++ _) as [|y r]; simpl; [done|]. rewrite Hp. by destruct (p y).
  - rewrite insert_after.
    + f_equal. destruct (List.filter (λ x, negb (p x)) l) as [|y r] eqn:E; simpl; [done|]. rewrite Hp.
      assert (Hy : y ∈ List.filter (λ x, negb (p x)) l) by (rewrite E; by left).
      apply elem_of_filter_b in Hy as [Hy%negb_true_iff _]. by rewrite Hy.
    + apply Forall_forall. intros y [Hy _]%elem_of_filter_b. by rewrite Hp, Hy.
Qed.

Lemma filter_sublist {A} (p : A → bool) (l : list A) : List.filter p l `sublist_of` l.
Proof. induction l as [|x l IH]; simpl; [done|]. destruct (p x); by constructor. Qed.

Lemma matching_filter `{UnicodeCase} q entries e :
  e ∈ List.filter (λ e, match fuzzy_score_for_entry e q q with Some _ => true | None => false end) entries
  ↔ e ∈ entries ∧ entry_matches q e.
Proof.
  rewrite elem_of_filter_b. pose proof (fuzzy_score_for_entry_spec e q).
  destruct (fuzzy_score_for_entry e q q); naive_solver.
Qed.

Lemma ranked_sorted `{UnicodeCase} q entries :
  StronglySorted (ranked_before q)
    (scored_entry <$> sort_by scored_leb (flat_map (score_entry q q) entries)).
Proof.
  eapply StronglySorted_fmap_elem; [|apply (sort_by_sorted scored_leb scored_leb_total scored_leb_trans)].
  intros x y Hx%sort_by_elem Hy%sort_by_elem Hle.
  destruct (scored_elem q entries x Hx) as (Hsx & Hdx & Hlx).
  destruct (scored_elem q entries y Hy) as (Hsy & Hdy & Hly).
  exists (scored_score x), (scored_score y). split_and!; [done..|].
  rewrite <- Hdx, <- Hlx, <- Hdy, <- Hly. intros E. destruct x, y. unfold scored_leb in Hle.
  simpl in *. by rewrite E in Hle.
Qed.

(** ** Properties *)

(** filtering file entries returns exactly the entries whose lowercase path
    (with a final slash for directories) contains the lowercase query as a
    subsequence, each once, ranked by score, depth, length and name; a query
    ending in a slash puts the directories first and keeps the ranking among
    directories and among files; an empty query keeps the list.  Scores are
    between 0 and nine a query character plus 60. *)
Theorem filter_entries_spec `{UnicodeCase} entries query :
  let q := str_to_lowercase query in
  (query = [] → filter_entries entries query = entries)
  ∧ (query ≠ [] →
     let found := filter_entries entries query in
     (∃ found0, found ≡ₚ found0 ∧ found0 `sublist_of` entries
        ∧ ∀ e, e ∈ found0 ↔ e ∈ entries ∧ entry_matches q e)
     ∧ (ends_with query [slash] = false → StronglySorted (ranked_before q) found)
     ∧ (ends_with query [slash] = true →
          ∃ dirs files, found = dirs ++ files
            ∧ Forall (λ e, is_dir e = true) dirs ∧ Forall (λ e, is_dir e = false) files
            ∧ StronglySorted (ranked_before q) dirs ∧ StronglySorted (ranked_before q) files))
  ∧ (∀ e s, fuzzy_score_for_entry e q q = Some s →
       (0 <= s <= 9 * Z.of_nat (length q) + 60)%Z).
Proof.
  intros q. split_and!.
  - intros ->. done.
  - intros Hne found. assert (Hfound : found = prioritize_directories_for_trailing_slash
      (scored_entry <$> sort_by scored_leb (flat_map (score_entry q q) entries)) query).
    { unfold found, filter_entries. by rewrite (proj2 (is_empty_false query)). }
    pose proof (ranked_sorted q entries) as Hsorted.
    set (ranked := scored_entry <$> sort_by scored_leb (flat_map (score_entry q q) entries)) in *.
    assert (Hranked : ranked ≡ₚ List.filter (λ e, match fuzzy_score_for_entry e q q with
      Some _ => true | None => false end) entries)
      by (unfold ranked; by rewrite sort_by_perm, flat_map_score_entry).
    unfold prioritize_directories_for_trailing_slash in Hfound. split_and!.
    + eexists. split_and!; [|apply filter_sublist|intros e; apply matching_filter].
      rewrite <- Hranked, Hfound. case_match; [apply sort_by_key_perm|done].
    + intros E. by rewrite E in Hfound; subst found; rewrite Hfound.
    + intros E. rewrite E, sort_two_classes in Hfound.
      exists (List.filter is_dir ranked), (List.filter (λ e, negb (is_dir e)) ranked).
      split_and!; [done|apply Forall_forall; by intros e [? _]%elem_of_filter_b| |
        by apply StronglySorted_filter_b..].
      apply Forall_forall. intros e [He _]%elem_of_filter_b. by apply negb_true_iff.
  - intros e sc E. pose proof (fuzzy_score_for_entry_spec e q) as Hspec. rewrite E in Hspec. tauto.
Qed.

(** ** Evaluation *)

Example filter_entries_example :
  path <$> filter_entries
    [mkFileEntry false (L"src/main.rs"); mkFileEntry true (L"src"); mkFileEntry false (L"README.md")]
    (L"src/")
  = [L"src"; L"src/main.rs"].
Proof. vm_compute. reflexivity. Qed.
