(* ===== verification/SessionManager.v ===== *)
(** * The session manager (crates/agentty/src/app/session/core.rs, workflow/review.rs,
    crates/ag-session/src/transcript_notice.rs)

    The operations by which the reducer changes loaded sessions: selected
    agents and modes, queued and running branch actions, notices, the result of
    a completed turn, tracked title generations and file indexes.  Join handles
    and the clock are arguments. *)
From stdpp Require Import gmap.
From S2P Require Import Prelude Contracts Agent Lifecycle Transcript Transient Prompt Input Session SessionState FileEntry.

(** ** Notices *)

Inductive TranscriptNotice :=
| NoticeApply | NoticeBranchPush | NoticeBranchPushError | NoticeCommit | NoticeCommitAssist | NoticeCommitError
| NoticeCommitWarning | NoticeContinueError | NoticeError | NoticeForkError | NoticeFollowUpTaskError | NoticeMerge
| NoticeMergeError | NoticeMainCheckoutWarning | NoticePasteImageError | NoticePersonality | NoticeQueueError
| NoticeRebase | NoticeRebaseAssist | NoticeRebaseError | NoticeReplyError | NoticeReviewRequest
| NoticeReviewComments | NoticeReviewCommentsWarning | NoticeReviewRequestSyncWarning | NoticeStartError
| NoticeTurnMetadataError.

Definition prefix (self : TranscriptNotice) : str :=
  match self with
  | NoticeApply => L"[Apply]"
  | NoticeBranchPush => L"[Branch Push]"
  | NoticeBranchPushError => L"[Branch Push Error]"
  | NoticeCommit => L"[Commit]"
  | NoticeCommitAssist => L"[Commit Assist]"
  | NoticeCommitError => L"[Commit Error]"
  | NoticeCommitWarning => L"[Commit Warning]"
  | NoticeContinueError => L"[Continue Error]"
  | NoticeError => L"[Error]"
  | NoticeForkError => L"[Fork Error]"
  | NoticeFollowUpTaskError => L"[Follow-Up Task Error]"
  | NoticeMerge => L"[Merge]"
  | NoticeMergeError => L"[Merge Error]"
  | NoticeMainCheckoutWarning => L"[Main Checkout Warning]"
  | NoticePasteImageError => L"[Paste Image Error]"
  | NoticePersonality => L"[Personality]"
  | NoticeQueueError => L"[Queue Error]"
  | NoticeRebase => L"[Sync]"
  | NoticeRebaseAssist => L"[Sync Assist]"
  | NoticeRebaseError => L"[Sync Error]"
  | NoticeReplyError => L"[Reply Error]"
  | NoticeReviewRequest => L"[Review Request]"
  | NoticeReviewComments => L"[Review Comments]"
  | NoticeReviewCommentsWarning => L"[Review Comments Warning]"
  | NoticeReviewRequestSyncWarning => L"[Review Request Sync Warning]"
  | NoticeStartError => L"[Start Error]"
  | NoticeTurnMetadataError => L"[Turn Metadata Error]"
  end.

Definition format_line (self : TranscriptNotice) (detail : str) : str := prefix self ++ L" " ++ detail.
Definition format_notice (self : TranscriptNotice) (detail : str) : str :=
  [newline] ++ format_line self detail ++ [newline].

(** ** Creation purposes *)

Inductive SessionCreationKind :=
| CreateWorker | CreateOrchestrator | CreateOrchestrationChild (task : Z) | CreateOrchestrationResearch (task : Z).

Definition creation_role (self : SessionCreationKind) : SessionRole :=
  match self with
  | CreateWorker => Worker
  | CreateOrchestrationChild _ => OrchestrationWorker
  | CreateOrchestrationResearch _ => OrchestrationResearcher
  | CreateOrchestrator => Orchestrator
  end.

Definition orchestration_task_id (self : SessionCreationKind) : option Z :=
  match self with
  | CreateWorker | CreateOrchestrator => None
  | CreateOrchestrationChild task | CreateOrchestrationResearch task => Some task
  end.

(** ** Completed turns *)

Record TurnAppliedState := mkTurnApplied {
  applied_follow_up_tasks : list SessionFollowUpTask;
  applied_questions : list QuestionItem;
  token_usage_delta : SessionStats
}.

Definition add_tokens (s delta : SessionStats) : SessionStats :=
  mkSessionStats (added_lines s) (deleted_lines s) (Contracts.diff_state s)
    (u64_saturating_add (input_tokens s) (input_tokens delta))
    (u64_saturating_add (output_tokens s) (output_tokens delta)).

Definition merge_newer (self newer : TurnAppliedState) : TurnAppliedState :=
  mkTurnApplied (applied_follow_up_tasks newer) (applied_questions newer)
    (add_tokens (token_usage_delta self) (token_usage_delta newer)).

(** ** The manager *)

(** A task with its generation; [task_finished] is [JoinHandle::is_finished]. *)
Record TitleGenerationTask := mkTitleTask { title_generation : Z; title_task : Z }.

Record AtMentionIndex := mkAtMentionIndex { index_created_at : Z; index_entries : list FileEntry }.

(** [aborted] collects the tasks that were stopped; the agent model of new
    sessions and the services have no state here. *)
Record SessionManager := mkManager {
  active_prompt_outputs : gmap SessionId str;
  manager_state : SessionState;
  pending_history_replay : gset SessionId;
  published_branch_sync_operations : gmap SessionId str;
  title_generation_tasks : gmap SessionId TitleGenerationTask;
  at_mention_indexes : gmap str AtMentionIndex;
  aborted : list Z
}.

Definition startup_history_replay_set (ss : list Session) : gset SessionId :=
  list_to_set (id <$> List.filter (λ s, allows_review_actions (status s)) ss).

Definition SessionManager_new (state : SessionState) : SessionManager :=
  mkManager ∅ state (startup_history_replay_set (sessions state)) ∅ ∅ ∅ [].

Definition on_state (f : SessionState → SessionState) (self : SessionManager) : SessionManager :=
  mkManager (active_prompt_outputs self) (f (manager_state self)) (pending_history_replay self)
    (published_branch_sync_operations self) (title_generation_tasks self) (at_mention_indexes self) (aborted self).

Definition set_prompt_outputs (self : SessionManager) (m : gmap SessionId str) : SessionManager :=
  mkManager m (manager_state self) (pending_history_replay self) (published_branch_sync_operations self)
    (title_generation_tasks self) (at_mention_indexes self) (aborted self).

Definition set_replay (self : SessionManager) (ids : gset SessionId) : SessionManager :=
  mkManager (active_prompt_outputs self) (manager_state self) ids (published_branch_sync_operations self)
    (title_generation_tasks self) (at_mention_indexes self) (aborted self).

Definition set_sync_operations (self : SessionManager) (m : gmap SessionId str) : SessionManager :=
  mkManager (active_prompt_outputs self) (manager_state self) (pending_history_replay self) m
    (title_generation_tasks self) (at_mention_indexes self) (aborted self).

Definition set_title_tasks (self : SessionManager) (m : gmap SessionId TitleGenerationTask) (more : list Z)
  : SessionManager :=
  mkManager (active_prompt_outputs self) (manager_state self) (pending_history_replay self)
    (published_branch_sync_operations self) m (at_mention_indexes self) (aborted self ++ more).

Definition set_indexes (self : SessionManager) (m : gmap str AtMentionIndex) : SessionManager :=
  mkManager (active_prompt_outputs self) (manager_state self) (pending_history_replay self)
    (published_branch_sync_operations self) (title_generation_tasks self) m (aborted self).

(** ** History replay *)

Definition mark_history_replay_pending (self : SessionManager) (k : SessionId) : SessionManager :=
  set_replay self ({[k]} ∪ pending_history_replay self).
Definition clear_history_replay_pending (self : SessionManager) (k : SessionId) : SessionManager :=
  set_replay self (pending_history_replay self ∖ {[k]}).
Definition should_replay_history (self : SessionManager) (k : SessionId) : bool :=
  bool_decide (k ∈ pending_history_replay self).

(** ** Title generation *)

Definition abort_title_generation_task (self : SessionManager) (finished : Z → bool) (k : SessionId) : SessionManager :=
  match title_generation_tasks self !! k with
  | None => self
  | Some t => set_title_tasks self (delete k (title_generation_tasks self))
                (if finished (title_task t) then [] else [title_task t])
  end.

Definition replace_title_generation_task (self : SessionManager) (finished : Z → bool) (k : SessionId)
    (generation task : Z) : SessionManager :=
  let self := abort_title_generation_task self finished k in
  set_title_tasks self (<[k := mkTitleTask generation task]> (title_generation_tasks self)) [].

Definition next_title_generation_task_generation (self : SessionManager) (k : SessionId) : Z :=
  match title_generation_tasks self !! k with
  | None => 1%Z
  | Some t => u64_saturating_add (title_generation t) 1
  end.

Definition clear_title_generation_task_if_matches (self : SessionManager) (k : SessionId) (generation : Z)
  : SessionManager :=
  match title_generation_tasks self !! k with
  | Some t => if (title_generation t =? generation)%Z then set_title_tasks self (delete k (title_generation_tasks self)) []
              else self
  | None => self
  end.

Section manager.
Context `{FxHasher}.

(** ** Persisted selections *)

Definition apply_session_model_updated (self : SessionManager) (k : SessionId) (x : AgentSelection) : SessionManager :=
  on_state (λ st, update_found st k (λ s, set_agent s x)) self.
Definition apply_session_reasoning_level_updated (self : SessionManager) (k : SessionId) (x : ReasoningLevel)
  : SessionManager := on_state (λ st, update_found st k (λ s, set_reasoning_level_override s (Some x))) self.
Definition apply_session_response_style_updated (self : SessionManager) (k : SessionId) (x : ResponseStyle)
  : SessionManager := on_state (λ st, update_found st k (λ s, set_response_style s x)) self.
Definition apply_session_permission_mode_updated (self : SessionManager) (k : SessionId) (x : PermissionMode)
  : SessionManager := on_state (λ st, update_found st k (λ s, set_permission_mode s x)) self.
Definition apply_session_speed_mode_updated (self : SessionManager) (k : SessionId) (x : SpeedMode)
  : SessionManager := on_state (λ st, update_found st k (λ s, set_speed_mode s x)) self.
Definition apply_session_personality_updated (self : SessionManager) (k : SessionId) (x : option str)
  : SessionManager := on_state (λ st, update_found st k (λ s, set_personality_id s x)) self.
Definition apply_published_upstream_ref (self : SessionManager) (k : SessionId) (x : str) : SessionManager :=
  on_state (λ st, update_found st k (λ s, set_published_upstream_ref s (Some x))) self.
Definition apply_review_request (self : SessionManager) (k : SessionId) (x : ReviewRequest) : SessionManager :=
  on_state (λ st, update_found st k (λ s, set_review_request s (Some x))) self.

(** ** Branch actions *)

Definition post (anchor : TransientMessageAnchor) (body : TransientMessageBody) (lifecycle : TransientMessageLifecycle)
    (slot : TransientMessageSlot) (s : Session) : Session :=
  set_transient_messages s
    (upsert (transient_messages s) (mkTransient anchor body lifecycle slot (latest_user_prompt_position s))).

Definition retracted (slot : TransientMessageSlot) (s : Session) : Session :=
  set_transient_messages s (retract (transient_messages s) slot).2.

Definition start_branch_publish (self : SessionManager) (k : SessionId) (loading_label : str) : SessionManager :=
  on_state (λ st, update_found (state_resolve_queued_action st k BranchPublish) k
                    (post Tail (Loading loading_label) UntilResolved BranchPublish)) self.

Definition prompt_position (st : SessionState) (k : SessionId) : option Z :=
  session_for_id st k ≫= latest_user_prompt_position.

Definition queue_branch_publish (self : SessionManager) (k : SessionId) (order : Z) (queued_label : str)
  : SessionManager :=
  on_state (λ st, state_upsert_queued_action st k
                    (mkTransient Tail (QueuedBody (mkQueuedAction order queued_label)) UntilResolved BranchPublish
                       (prompt_position st k))) self.

Definition resolve_queued_branch_publish (self : SessionManager) (k : SessionId) : SessionManager :=
  on_state (λ st, state_resolve_queued_action st k BranchPublish) self.

Definition SYNC_QUEUE_LABEL : str := L"sync — rebase onto the base branch after this turn".

Definition queue_session_sync (self : SessionManager) (k : SessionId) (order : Z) : SessionManager :=
  on_state (λ st, state_upsert_queued_action st k
                    (mkTransient Tail (QueuedBody (mkQueuedAction order SYNC_QUEUE_LABEL)) UntilResolved SyncQueue
                       (prompt_position st k))) self.

Definition resolve_queued_session_sync (self : SessionManager) (k : SessionId) : SessionManager :=
  on_state (λ st, state_resolve_queued_action st k SyncQueue) self.

Definition append_to_handle (h : SessionHandles) (notice : str) : SessionHandles :=
  {| handles_queued_actions := handles_queued_actions h; handles_queued_messages := handles_queued_messages h;
     queued_work_sequence := queued_work_sequence h; handles_status := handles_status h;
     handles_transcript := append_message (handles_transcript h) WorkflowNotice notice;
     transcript_is_hydrated := transcript_is_hydrated h |}.

(** Whether there was a handle to append to. *)
Definition append_workflow_notice_to_handle (self : SessionManager) (k : SessionId) (notice : str)
  : bool * SessionManager :=
  match handle (manager_state self) k with
  | None => (false, self)
  | Some _ => (true, on_state (λ st, update_handle st k (λ h, append_to_handle h notice)) self)
  end.

Definition finish_branch_publish (self : SessionManager) (k : SessionId) (body : TransientMessageBody)
  : option str * SessionManager :=
  let self := resolve_queued_branch_publish self k in
  let notice := body_text body in
  match find_session (manager_state self) k with
  | Some _ =>
      (None, on_state (λ st, update_found st k (post AfterCompletedTurn body ClearOnNewTurn BranchPublish)) self)
  | None =>
      let '(appended, self) := append_workflow_notice_to_handle self k notice in
      (if appended then Some notice else None, self)
  end.

Definition append_to_transcript (notice : str) (s : Session) : Session :=
  set_transcript s (Some (append_message (default SessionTranscript_default (transcript s)) WorkflowNotice notice)).

Definition place_completed_review_before_new_workflow_notice (s : Session) : Session :=
  match store_get (transient_messages s) SlotReview with
  | Some m =>
      match body m with
      | Markdown _ | Plain _ =>
          set_transient_messages s
            (upsert (transient_messages s)
               (mkTransient AfterCompletedTurn (body m) (lifecycle m) (slot m) (turn_position m)))
      | _ => s
      end
  | None => s
  end.

Definition finish_review_request_publish (self : SessionManager) (k : SessionId) (notice : str)
  : bool * SessionManager :=
  let self := resolve_queued_branch_publish self k in
  let '(appended, self) := append_workflow_notice_to_handle self k notice in
  let self := if appended then on_state (λ st, sync_session_from_handle st k) self else self in
  match find_session (manager_state self) k with
  | None => (appended, self)
  | Some _ =>
      (true, on_state (λ st, update_found st k (λ s,
        let s := if appended then s else append_to_transcript notice s in
        retracted BranchPublish (place_completed_review_before_new_workflow_notice s))) self)
  end.

(** ** Published branches *)

Definition AUTO_PUSH_LABEL : str := L"Auto-pushing published branch after completed turn...".

Definition start_published_branch_sync (self : SessionManager) (k : SessionId) (operation : str) : SessionManager :=
  let self := set_sync_operations self (<[k := operation]> (published_branch_sync_operations self)) in
  on_state (λ st, update_found st k (post Tail (Loading AUTO_PUSH_LABEL) UntilResolved PublishedBranchSync)) self.

Definition finish_published_branch_sync (self : SessionManager) (k : SessionId) (operation : str)
    (notice : option str) : bool * SessionManager :=
  match published_branch_sync_operations self !! k with
  | None => (false, self)
  | Some current =>
      if negb (str_eqb current operation) then (false, self)
      else
        let self := set_sync_operations self (delete k (published_branch_sync_operations self)) in
        let '(appended, self) :=
          match notice with
          | Some notice => append_workflow_notice_to_handle self k notice
          | None => (false, self)
          end in
        let self := if appended then on_state (λ st, sync_session_from_handle st k) self else self in
        match find_session (manager_state self) k with
        | None => (appended, self)
        | Some _ =>
            (true, on_state (λ st, update_found st k (λ s,
              let s := match appended, notice with
                       | false, Some notice => append_to_transcript notice s
                       | _, _ => s
                       end in
              retracted PublishedBranchSync s)) self)
        end
  end.

(** ** Notices and progress *)

Definition noticed (notice : str) (s : Session) : Session :=
  let notice := match store_get (transient_messages s) SlotWorkflowNotice with
                | Some m => body_text (body m) ++ [newline; newline] ++ notice
                | None => notice
                end in
  let anchor := match status s with InProgress | Queued => AfterActiveTurn | _ => AfterCompletedTurn end in
  post anchor (Markdown notice) ClearOnNewTurn SlotWorkflowNotice s.

Definition append_workflow_notice (self : SessionManager) (k : SessionId) (notice : str) : SessionManager :=
  on_state (λ st, update_found st k (noticed notice)) self.

Definition append_stacked_rebase_failure_notices (self : SessionManager) (failures : list (SessionId * str))
    (failure_context : str) : SessionManager :=
  fold_left (λ m '(k, error), append_workflow_notice m k
    (format_line NoticeRebaseError (failure_context ++ L": " ++ error))) failures self.

Definition update_orchestration_progress (self : SessionManager) (k : SessionId) (progress : option str)
  : SessionManager :=
  on_state (λ st, update_found st k (λ s, retracted SlotOrchestration (set_orchestration_progress s progress))) self.

Definition with_turn_applied (t : TurnAppliedState) (s : Session) : Session :=
  let s := set_questions (set_follow_up_tasks s (applied_follow_up_tasks t)) (applied_questions t) in
  let s := retracted ReviewCommentResolution s in
  set_stats s (add_tokens (stats s) (token_usage_delta t)).

Definition apply_turn_applied_state (self : SessionManager) (k : SessionId) (t : TurnAppliedState) : SessionManager :=
  match find_session (manager_state self) k with
  | None => self
  | Some _ =>
      let self := on_state (λ st, update_found st k (with_turn_applied t)) self in
      set_prompt_outputs self (delete k (active_prompt_outputs self))
  end.

(** ** Caches *)

Definition set_active_prompt_output (self : SessionManager) (k : SessionId) (output : str) : SessionManager :=
  set_prompt_outputs self (<[k := output]> (active_prompt_outputs self)).

(** In milliseconds. *)
Definition AT_MENTION_INDEX_TTL : Z := 30000.

Definition is_expired (now : Z) (index : AtMentionIndex) : bool :=
  (AT_MENTION_INDEX_TTL <? Z.max 0 (now - index_created_at index))%Z.

Definition at_mention_index_for_root (self : SessionManager) (now : Z) (root : str)
  : option (list FileEntry) * SessionManager :=
  match at_mention_indexes self !! root with
  | None => (None, self)
  | Some index =>
      if is_expired now index then (None, set_indexes self (delete root (at_mention_indexes self)))
      else (Some (index_entries index), self)
  end.

Definition set_at_mention_index_for_root (self : SessionManager) (now : Z) (root : str) (entries : list FileEntry)
  : SessionManager := set_indexes self (<[root := mkAtMentionIndex now entries]> (at_mention_indexes self)).

Definition remove_at_mention_index_for_root (self : SessionManager) (root : str) : SessionManager :=
  set_indexes self (delete root (at_mention_indexes self)).

Definition prune_expired_at_mention_indexes (self : SessionManager) (now : Z) : SessionManager :=
  set_indexes self (filter (λ kv, is_expired now kv.2 = false) (at_mention_indexes self)).

Definition runs_turn (st : SessionState) (k : SessionId) : bool :=
  match find_session st k with
  | Some s => match status s with InProgress | Queued | Rebasing | Merging => true | _ => false end
  | None => false
  end.

Definition retain_active_prompt_outputs (self : SessionManager) (now : Z) : SessionManager :=
  prune_expired_at_mention_indexes
    (set_prompt_outputs self (filter (λ kv, runs_turn (manager_state self) kv.1 = true) (active_prompt_outputs self)))
    now.

(** ** Selected follow-up tasks *)

Definition selected_follow_up_task_action (self : SessionManager) (k : SessionId) : option FollowUpTaskAction :=
  position ← selected_follow_up_task_position (manager_state self) k;
  s ← find_session (manager_state self) k;
  task ← follow_up_task s position;
  if SessionStatus_is_read_only (status s) && bool_decide (launched_session_id task = None) then None
  else Some (follow_up_action task).

Definition has_multiple_follow_up_tasks (self : SessionManager) (k : SessionId) : bool :=
  match find_session (manager_state self) k with
  | Some s => 1 <? length (follow_up_tasks s)
  | None => false
  end.
End manager.

(** ** Names *)

(** [None] is a slice off a character boundary. *)
Definition session_folder (base : str) (session_id : str) : option str :=
  '(prefix, _) ← split_at_byte session_id (byte_len session_id `min` 8);
  Some (base ++ (if ends_with base [47%N] then [] else [47%N]) ++ prefix).

Definition remote_branch_name_from_upstream_ref (upstream_ref : str) : str :=
  match split_once upstream_ref (L"/") with Some (_, branch_name) => branch_name | None => upstream_ref end.

(** The seconds since the epoch; earlier times and overflow give zero. *)
Definition unix_timestamp_from_system_time (seconds : Z) : Z :=
  if (seconds <? 0)%Z || (i64_max <? seconds)%Z then 0%Z else seconds.
