(* ===== verification/ReviewCache.v ===== *)
(** * Focused-review cache (crates/agentty/src/app/review.rs)

    The state of the focused review of every session: the entry of the cache,
    its display in the session output, and the updates that reviews report when
    they finish.  An update counts only for the generation that is loading.
    Invocation tokens are numbers. *)
From stdpp Require Import gmap.
From S2P Require Import Prelude Contracts Agent Lifecycle Transcript Transient Prompt Input Review Session SessionState SessionManager.

(** ** Entries *)

Definition ReviewAgent : Type := AgentSelection * ReasoningLevel * SpeedMode.

Inductive ReviewProgress := SummarizingHistory | Batches (completed total : Z) | CrossFile | Reducing.

Inductive ReviewCacheEntry :=
| CacheLoading (request_id diff_hash : Z) (review_agent : ReviewAgent) (progress : option ReviewProgress)
| CacheReady (request_id diff_hash : Z) (text : str)
| CacheFailed (request_id diff_hash : Z) (error : str)
| CacheSuppressed.

Definition ReviewCache : Type := gmap SessionId ReviewCacheEntry.

Definition entry_diff_hash (self : ReviewCacheEntry) : option Z :=
  match self with
  | CacheLoading _ h _ _ | CacheReady _ h _ | CacheFailed _ h _ => Some h
  | CacheSuppressed => None
  end.

Definition entry_request_id (self : ReviewCacheEntry) : option Z :=
  match self with
  | CacheLoading r _ _ _ | CacheReady r _ _ | CacheFailed r _ _ => Some r
  | CacheSuppressed => None
  end.

Definition is_loading (self : ReviewCacheEntry) : bool :=
  match self with CacheLoading _ _ _ _ => true | _ => false end.

Record ReviewUpdate := mkReviewUpdate { update_diff_hash : Z; update_request_id : Z; update_result : result str str }.

Record FocusedReviewPersistence := mkPersistence {
  persisted_diff_hash : option Z;
  persisted_request_id : Z;
  persisted_session_id : SessionId;
  persisted_status : FocusedReviewStatus;
  persisted_text : option str
}.

#[global] Instance FocusedReviewPersistence_eq_dec : EqDecision FocusedReviewPersistence.
Proof. solve_decision. Defined.

Definition matches_persistence (self : ReviewCacheEntry) (update : FocusedReviewPersistence) : bool :=
  match (match self with
         | CacheLoading _ _ _ _ => Some ReviewPending
         | CacheReady _ _ text => Some (for_text text)
         | CacheFailed _ _ _ => Some ReviewFailed
         | CacheSuppressed => None
         end) with
  | None => false
  | Some status =>
      bool_decide (status = persisted_status update) &&
      bool_decide (entry_diff_hash self = persisted_diff_hash update) &&
      bool_decide (entry_request_id self = Some (persisted_request_id update))
  end.

Definition from_result (diff_hash request_id : Z) (r : result str str) : ReviewCacheEntry :=
  match r with
  | Ok review_text => CacheReady request_id diff_hash review_text
  | Err error => CacheFailed request_id diff_hash error
  end.

(** ** Bounded writes *)

Definition MAX_FOCUSED_REVIEW_PERSISTENCE_RETRIES : Z := 3.

Record FocusedReviewPersistenceRetry := mkRetry { attempt : Z; persistence_update : FocusedReviewPersistence }.

Definition retry_initial (u : FocusedReviewPersistence) : FocusedReviewPersistenceRetry := mkRetry 0 u.

Definition retry_next (self : FocusedReviewPersistenceRetry) : option FocusedReviewPersistenceRetry :=
  if (attempt self <? MAX_FOCUSED_REVIEW_PERSISTENCE_RETRIES)%Z
  then Some (mkRetry (Z.min (attempt self + 1) 255) (persistence_update self)) else None.

(** ** Messages *)

Definition REVIEW_LOADING_MESSAGE : str := L"Reviewing changes".
Definition REVIEW_NO_DIFF_MESSAGE : str := L"No diff changes found for review.".

Definition normalize_review_agent (review_agent : ReviewAgent) : ReviewAgent :=
  let '(review_selection, reasoning_level, speed_mode) := review_agent in
  let speed_mode := if supports_speed_mode (kind review_selection) then speed_mode else Normal in
  (compatible_with_speed_mode review_selection speed_mode, reasoning_level, speed_mode).

Definition review_agent_kind_label (agent_kind : AgentKind) : str :=
  match agent_kind with
  | Antigravity => L"Antigravity" | Gemini => L"Gemini" | Claude => L"Claude" | Codex => L"Codex"
  end.

Definition review_reasoning_label (reasoning_level : ReasoningLevel) : str :=
  match reasoning_level with
  | Contracts.Low => L"Low reasoning"
  | Medium => L"Medium reasoning"
  | High => L"High reasoning"
  | XHigh => L"Extra-high reasoning"
  | Max => L"Maximum reasoning"
  end.

Definition review_loading_message (review_agent : ReviewAgent) : str :=
  let '(review_selection, reasoning_level, speed_mode) := normalize_review_agent review_agent in
  REVIEW_LOADING_MESSAGE ++ [newline] ++
  join (L" · ") [review_agent_kind_label (kind review_selection); AgentModel_as_str (model review_selection);
                 review_reasoning_label reasoning_level; SpeedMode_name speed_mode].

Definition review_progress_message (review_agent : ReviewAgent) (progress : option ReviewProgress) : str :=
  let message := review_loading_message review_agent in
  match progress with
  | None => message
  | Some p =>
      message ++ [newline] ++
      match p with
      | SummarizingHistory => L"Summarizing session history"
      | Batches completed total => display_Z completed ++ L"/" ++ display_Z total ++ L" batches complete"
      | CrossFile => L"Checking cross-file interactions"
      | Reducing => L"Consolidating review findings"
      end
  end.

Definition review_failure_message (error : str) : str := L"Review assist unavailable: " ++ trim error.

(** 64-bit FNV-1a over the bytes. *)
Definition FNV_OFFSET_BASIS : Z := 0xcbf29ce484222325.
Definition FNV_PRIME : Z := 0x100000001b3.

Definition diff_content_hash (diff : str) : Z :=
  fold_left (λ hash byte, (Z.lxor hash (Z.of_N byte) * FNV_PRIME) mod 2 ^ 64)%Z (as_bytes diff) FNV_OFFSET_BASIS.

Definition review_view_text (review_cache : ReviewCache) (k : SessionId) : option str :=
  match review_cache !! k with Some (CacheReady _ _ text) => Some text | _ => None end.

Section cache.
Context `{FxHasher}.

(** ** Display *)

Definition focused_review_result_anchor (s : Session) : TransientMessageAnchor :=
  match store_get (transient_messages s) SlotReview with
  | Some message => anchor message
  | None => AfterCompletedTurn
  end.

Definition hydrate_session_review_transient (review_cache : ReviewCache) (s : Session) : Session :=
  match status s with
  | Lifecycle.Review | Question | AgentReview =>
      match review_cache !! id s with
      | None | Some CacheSuppressed => retracted SlotReview s
      | Some (CacheLoading _ _ review_agent progress) =>
          post Tail (Loading (review_progress_message review_agent progress)) ClearOnNewTurn SlotReview s
      | Some (CacheReady _ _ text) =>
          post (focused_review_result_anchor s) (Markdown text) ClearOnNewTurn SlotReview s
      | Some (CacheFailed _ _ error) =>
          post (focused_review_result_anchor s) (Plain (review_failure_message error)) ClearOnNewTurn SlotReview s
      end
  | _ => retracted SlotReview s
  end.

Definition hydrate_review_transients (review_cache : ReviewCache) (st : SessionState) : SessionState :=
  set_sessions st (hydrate_session_review_transient review_cache <$> sessions st).

Definition hydrate_review_transient (review_cache : ReviewCache) (st : SessionState) (k : SessionId) : SessionState :=
  update_for_id st k (hydrate_session_review_transient review_cache).

(** ** Lifetime of entries *)

Definition prune_review_cache (review_cache : ReviewCache)
    (pending_persistence : gmap SessionId FocusedReviewPersistence) (st : SessionState) : ReviewCache :=
  filter (λ kv, (existsb (λ s, str_eqb (id s) kv.1) (sessions st) || is_loading kv.2
                 || bool_decide (is_Some (pending_persistence !! kv.1))) = true) review_cache.

(** A persisted row: session, hash text and review text; tokens are fresh. *)
Record SessionFocusedReviewRow := mkReviewRow { row_session_id : str; row_diff_hash : str; row_text : str }.

Definition review_cache_from_rows (rows : list SessionFocusedReviewRow) (next_token : Z) : ReviewCache * Z :=
  fold_left (λ '(cache, token) row,
    match parse_usize (row_diff_hash row) with
    | None => (cache, token)
    | Some diff_hash => (<[row_session_id row := CacheReady token diff_hash (row_text row)]> cache, (token + 1)%Z)
    end) rows (∅, next_token).

(** ** Updates *)

Definition mark_session_agent_review (st : SessionState) (k : SessionId) : SessionState :=
  transition_status_if_current st k Lifecycle.Review AgentReview.

Definition restore_session_review_status (st : SessionState) (k : SessionId) : SessionState :=
  transition_status_if_current st k AgentReview Lifecycle.Review.

(** The generation that is loading under this token and hash. *)
Definition is_current_generation (review_cache : ReviewCache) (k : SessionId) (request_id diff_hash : Z) : bool :=
  match review_cache !! k with
  | Some (CacheLoading r h _ _) => (h =? diff_hash)%Z && (r =? request_id)%Z
  | _ => false
  end.

Definition apply_review_update (review_cache : ReviewCache) (st : SessionState) (k : SessionId)
    (update : ReviewUpdate) : option FocusedReviewPersistence * ReviewCache * SessionState :=
  let '(mkReviewUpdate diff_hash request_id r) := update in
  if negb (is_current_generation review_cache k request_id diff_hash) then (None, review_cache, st)
  else
    let persistence := mkPersistence (Some diff_hash) request_id k
                         (match r with Ok text => for_text text | Err _ => ReviewFailed end)
                         (match r with Ok text => Some text | Err _ => None end) in
    let review_cache := <[k := from_result diff_hash request_id r]> review_cache in
    let st := update_found st k (λ s,
      post (focused_review_result_anchor s)
        (match r with Ok text => Markdown text | Err error => Plain (review_failure_message error) end)
        ClearOnNewTurn SlotReview s) in
    (Some persistence, review_cache, restore_session_review_status st k).

Fixpoint apply_review_updates (review_cache : ReviewCache) (st : SessionState)
    (updates : list (SessionId * ReviewUpdate)) : list FocusedReviewPersistence * ReviewCache * SessionState :=
  match updates with
  | [] => ([], review_cache, st)
  | (k, update) :: rest =>
      let '(p, review_cache, st) := apply_review_update review_cache st k update in
      let '(ps, review_cache, st) := apply_review_updates review_cache st rest in
      (match p with Some p => p :: ps | None => ps end, review_cache, st)
  end.

Definition fail_review_preparation (review_cache : ReviewCache) (st : SessionState) (k : SessionId) (token : Z)
    (error : str) : FocusedReviewPersistence * ReviewCache * SessionState :=
  let diff_hash := diff_content_hash [] in
  let review_cache := <[k := CacheFailed token diff_hash error]> review_cache in
  (mkPersistence (Some diff_hash) token k ReviewFailed None, review_cache, hydrate_review_transient review_cache st k).
End cache.
