(* ===== verification/FocusedReview.v ===== *)
(** * Focused reviews of sessions (crates/agentty/src/app/session_diff.rs, core/state.rs, core/event.rs,
    prompt_intent.rs)

    The foreground side of focused reviews: a diff is loaded in the background,
    a review is started for it when the diff changed, its result is stored and
    persisted with bounded retries, and its suggestions are applied by a turn
    when the review is still current.  Answers of the database, of background
    tasks and of the session worker come from an environment; calls are noted in
    a trace.  Review comments of a forge are left out. *)
From stdpp Require Import gmap.
From S2P Require Import Prelude Contracts Agent Lifecycle Transcript Transient Prompt Input Review Session SessionState SessionManager ReviewCache.

(** ** Requests *)

Definition MAX_DEFERRED_AUTO_REVIEW_PERSISTENCE_RETRIES : Z := 3.
Definition MAX_AUTO_ADDRESS_REVIEW_ITERATIONS : Z := 3.

Record DeferredAutoReviewPersistenceRetry := mkDeferredRetry { deferred_attempt : Z; deferred_session_id : SessionId }.

Definition deferred_initial (k : SessionId) : DeferredAutoReviewPersistenceRetry := mkDeferredRetry 0 k.

Definition deferred_next (self : DeferredAutoReviewPersistenceRetry) : option DeferredAutoReviewPersistenceRetry :=
  if (deferred_attempt self <? MAX_DEFERRED_AUTO_REVIEW_PERSISTENCE_RETRIES)%Z
  then Some (mkDeferredRetry (Z.min (deferred_attempt self + 1) 255) (deferred_session_id self)) else None.

Record SessionDiffUpdate := mkDiffUpdate {
  diff_request_id : Z;
  diff_result : result str str;
  diff_session_id : SessionId
}.

Record FocusedReviewTarget := mkTarget { target_folder : str; target_review_agent : ReviewAgent }.

Inductive SessionDiffPurpose :=
| ApplyFocusedReview (auto_address : bool) (cached_diff_hash : Z) (suggestions : str)
| OpenDiff (allow_empty : bool)
| ReviewDiff (cached_diff_hash : option Z) (is_manual : bool) (target : FocusedReviewTarget).

Record PendingSessionDiffRequest := mkPending { purpose : SessionDiffPurpose; pending_session_id : SessionId }.

Definition is_apply_focused_review (self : SessionDiffPurpose) : bool :=
  match self with ApplyFocusedReview _ _ _ => true | _ => false end.

Definition is_review (self : SessionDiffPurpose) : bool :=
  match self with ReviewDiff _ _ _ => true | _ => false end.

Definition is_review_action (self : SessionDiffPurpose) : bool :=
  is_apply_focused_review self || is_review self.

Inductive SessionDiffTaskSource := ArchivedDiff | WorktreeDiff (archived_fallback : bool) (base_branch : str).

(** The columns of a session row that are read here. *)
Record ReviewSessionRow := mkReviewSessionRow {
  row_status : str;
  row_role : option str;
  row_project_id : option Z;
  row_base_branch : str
}.

(** ** Modes *)

(** The modes that show a diff, with the mode they return to.  The snapshots of
    the composer and of the questions and all other modes are opaque texts. *)
Inductive DiffRestoreTarget := RestorePrompt (snapshot : str) | RestoreQuestion (snapshot : str).

Inductive AppMode :=
| ModeList
| ModeView (scroll_offset : option Z) (session_id : SessionId)
| ModePrompt (snapshot : str)
| ModeQuestion (snapshot : str)
| ModeDiffLoading (fallback_view_scroll_offset : option Z) (request_id : Z) (restore : option DiffRestoreTarget)
    (session_id : SessionId)
| ModeDiff (diff : str) (line_comments : list str) (restore : option DiffRestoreTarget) (session_id : SessionId)
| ModeHelpDiff (line_comments : list str) (session_id : SessionId)
| ModeOther (name : str).

Definition into_mode (self : DiffRestoreTarget) : AppMode :=
  match self with RestorePrompt s => ModePrompt s | RestoreQuestion s => ModeQuestion s end.

(** ** Calls and answers *)

Inductive AppEffect :=
| DidDefer (k : SessionId) (answer : result bool str)
| DidPersistReview (k : SessionId) (status : option FocusedReviewStatus) (diff_hash text : option str)
    (answer : result unit str)
| DidLoadDiffHash (k : SessionId) (answer : result (option str) str)
| DidStoreDiffHash (k : SessionId) (diff_hash : str) (claim : bool) (answer : result unit str)
| DidLoadSession (k : SessionId) (answer : result (option ReviewSessionRow) str)
| DidQueuePreparation (k : SessionId) (answer : result bool str)
| DidReply (k : SessionId) (prompt : TurnPrompt) (answer : bool)
| DidStatusLine (k : SessionId) (notice : TranscriptNotice) (text : str)
| SpawnedDiff (request_id : Z) (k : SessionId) (folder : str) (source : SessionDiffTaskSource)
| SpawnedReview (request_id : Z) (k : SessionId) (folder : str) (diff_hash : Z) (diff : str) (agent : ReviewAgent)
| SpawnedReviewRetry (retry : FocusedReviewPersistenceRetry)
| SpawnedDeferRetry (retry : DeferredAutoReviewPersistenceRetry).

Class AppEnvironment := {
  env_defer : nat → SessionId → result bool str;
  env_persist_review : nat → SessionId → option FocusedReviewStatus → option str → option str → result unit str;
  env_load_diff_hash : nat → SessionId → result (option str) str;
  env_store_diff_hash : nat → SessionId → str → bool → result unit str;
  env_load_session : nat → SessionId → result (option ReviewSessionRow) str;
  env_queue_preparation : nat → SessionId → result bool str;
  env_reply : nat → SessionId → TurnPrompt → bool;
  env_review_agent : nat → ReviewAgent;
  env_project_review_agent : nat → Z → ReviewAgent;
  env_base_path : str
}.

(** ** The state *)

Record App := mkApp {
  app_sessions : SessionManager;
  review_cache : ReviewCache;
  review_diff_hashes : gmap SessionId Z;
  pending_session_diff_requests : gmap Z PendingSessionDiffRequest;
  deferred_auto_review_session_ids : gset SessionId;
  pending_focused_review_persistence : gmap SessionId FocusedReviewPersistence;
  auto_address_review_iterations : gmap SessionId Z;
  diff_comment_progress : gmap SessionId (list str);
  app_mode : AppMode;
  next_token : Z;
  next_diff_request_id : Z;
  app_trace : list AppEffect
}.

Definition Am (A : Type) : Type := App → A * App.
#[global] Instance Am_ret : MRet Am := λ A a w, (a, w).
#[global] Instance Am_bind : MBind Am := λ A B f m w, let '(a, w') := m w in f a w'.

Definition get : Am App := λ w, (w, w).
Definition modify (f : App → App) : Am unit := λ w, (tt, f w).

Definition with_sessions (f : SessionManager → SessionManager) (w : App) : App :=
  mkApp (f (app_sessions w)) (review_cache w) (review_diff_hashes w) (pending_session_diff_requests w)
    (deferred_auto_review_session_ids w) (pending_focused_review_persistence w) (auto_address_review_iterations w)
    (diff_comment_progress w) (app_mode w) (next_token w) (next_diff_request_id w) (app_trace w).
Definition with_cache (f : ReviewCache → ReviewCache) (w : App) : App :=
  mkApp (app_sessions w) (f (review_cache w)) (review_diff_hashes w) (pending_session_diff_requests w)
    (deferred_auto_review_session_ids w) (pending_focused_review_persistence w) (auto_address_review_iterations w)
    (diff_comment_progress w) (app_mode w) (next_token w) (next_diff_request_id w) (app_trace w).
Definition with_hashes (f : gmap SessionId Z → gmap SessionId Z) (w : App) : App :=
  mkApp (app_sessions w) (review_cache w) (f (review_diff_hashes w)) (pending_session_diff_requests w)
    (deferred_auto_review_session_ids w) (pending_focused_review_persistence w) (auto_address_review_iterations w)
    (diff_comment_progress w) (app_mode w) (next_token w) (next_diff_request_id w) (app_trace w).
Definition with_requests (f : gmap Z PendingSessionDiffRequest → gmap Z PendingSessionDiffRequest) (w : App) : App :=
  mkApp (app_sessions w) (review_cache w) (review_diff_hashes w) (f (pending_session_diff_requests w))
    (deferred_auto_review_session_ids w) (pending_focused_review_persistence w) (auto_address_review_iterations w)
    (diff_comment_progress w) (app_mode w) (next_token w) (next_diff_request_id w) (app_trace w).
Definition with_deferred (f : gset SessionId → gset SessionId) (w : App) : App :=
  mkApp (app_sessions w) (review_cache w) (review_diff_hashes w) (pending_session_diff_requests w)
    (f (deferred_auto_review_session_ids w)) (pending_focused_review_persistence w) (auto_address_review_iterations w)
    (diff_comment_progress w) (app_mode w) (next_token w) (next_diff_request_id w) (app_trace w).
Definition with_persistence (f : gmap SessionId FocusedReviewPersistence → gmap SessionId FocusedReviewPersistence)
    (w : App) : App :=
  mkApp (app_sessions w) (review_cache w) (review_diff_hashes w) (pending_session_diff_requests w)
    (deferred_auto_review_session_ids w) (f (pending_focused_review_persistence w)) (auto_address_review_iterations w)
    (diff_comment_progress w) (app_mode w) (next_token w) (next_diff_request_id w) (app_trace w).
Definition with_iterations (f : gmap SessionId Z → gmap SessionId Z) (w : App) : App :=
  mkApp (app_sessions w) (review_cache w) (review_diff_hashes w) (pending_session_diff_requests w)
    (deferred_auto_review_session_ids w) (pending_focused_review_persistence w) (f (auto_address_review_iterations w))
    (diff_comment_progress w) (app_mode w) (next_token w) (next_diff_request_id w) (app_trace w).
Definition with_comments (f : gmap SessionId (list str) → gmap SessionId (list str)) (w : App) : App :=
  mkApp (app_sessions w) (review_cache w) (review_diff_hashes w) (pending_session_diff_requests w)
    (deferred_auto_review_session_ids w) (pending_focused_review_persistence w) (auto_address_review_iterations w)
    (f (diff_comment_progress w)) (app_mode w) (next_token w) (next_diff_request_id w) (app_trace w).
Definition with_mode (m : AppMode) (w : App) : App :=
  mkApp (app_sessions w) (review_cache w) (review_diff_hashes w) (pending_session_diff_requests w)
    (deferred_auto_review_session_ids w) (pending_focused_review_persistence w) (auto_address_review_iterations w)
    (diff_comment_progress w) m (next_token w) (next_diff_request_id w) (app_trace w).

Definition note (e : AppEffect) : Am unit := modify (λ w,
  mkApp (app_sessions w) (review_cache w) (review_diff_hashes w) (pending_session_diff_requests w)
    (deferred_auto_review_session_ids w) (pending_focused_review_persistence w) (auto_address_review_iterations w)
    (diff_comment_progress w) (app_mode w) (next_token w) (next_diff_request_id w) (app_trace w ++ [e])).

Definition ask {A} (answer : nat → A) (e : A → AppEffect) : Am A :=
  w ← get; let a := answer (length (app_trace w)) in _ ← note (e a); mret a.

(** [Uuid::new_v4]: a token that was never used. *)
Definition new_token : Am Z := λ w,
  (next_token w,
   mkApp (app_sessions w) (review_cache w) (review_diff_hashes w) (pending_session_diff_requests w)
    (deferred_auto_review_session_ids w) (pending_focused_review_persistence w) (auto_address_review_iterations w)
    (diff_comment_progress w) (app_mode w) (next_token w + 1) (next_diff_request_id w) (app_trace w)).

(** The process-wide request counter. *)
Definition fetch_request_id : Am Z := λ w,
  (next_diff_request_id w,
   mkApp (app_sessions w) (review_cache w) (review_diff_hashes w) (pending_session_diff_requests w)
    (deferred_auto_review_session_ids w) (pending_focused_review_persistence w) (auto_address_review_iterations w)
    (diff_comment_progress w) (app_mode w) (next_token w) (u64_wrapping_add (next_diff_request_id w) 1) (app_trace w)).

Fixpoint for_each {A} (f : A → Am unit) (l : list A) : Am unit :=
  match l with [] => mret tt | x :: rest => _ ← f x; for_each f rest end.

Section reviews.
Context `{FxHasher} `{!AppEnvironment}.

(** ** Output of a review *)

Definition on_session_state (f : SessionState → SessionState) : Am unit := modify (with_sessions (on_state f)).

(** Requests of other sessions and of other purposes stay. *)
Definition discard_requests (drops : SessionDiffPurpose → bool) (k : SessionId) : Am unit :=
  modify (with_requests (filter (λ kv,
    (negb (str_eqb (pending_session_id kv.2) k) || negb (drops (purpose kv.2))) = true))).

Definition discard_pending_apply_review_diff_loads : SessionId → Am unit := discard_requests is_apply_focused_review.
Definition discard_pending_review_action_diff_loads : SessionId → Am unit := discard_requests is_review_action.

Definition clear_review_output (k : SessionId) : Am unit :=
  _ ← discard_pending_apply_review_diff_loads k;
  w ← get;
  _ ← modify (with_cache (delete k));
  _ ← match review_cache w !! k ≫= entry_diff_hash with
      | Some diff_hash =>
          modify (with_hashes (λ m, match m !! k with Some _ => m | None => <[k := diff_hash]> m end))
      | None => mret tt
      end;
  on_session_state (λ st, update_for_id st k (retracted SlotReview)).

Definition set_review_ready_output (k : SessionId) (diff_hash : Z) (text : str) : Am Z :=
  request_id ← new_token;
  _ ← modify (with_cache (<[k := CacheReady request_id diff_hash text]>));
  _ ← on_session_state (λ st, update_for_id st k (λ s,
        post (focused_review_result_anchor s) (Markdown text) ClearOnNewTurn SlotReview s));
  mret request_id.

Definition suppress_review_output (k : SessionId) : Am unit :=
  _ ← modify (with_cache (<[k := CacheSuppressed]>));
  on_session_state (λ st, update_for_id st k (retracted SlotReview)).

Definition restore_review_output (k : SessionId) : Am unit :=
  w ← get; on_session_state (λ st, hydrate_review_transient (review_cache w) st k).

Definition review_is_loading (w : App) (k : SessionId) : bool :=
  match review_cache w !! k with Some e => is_loading e | None => false end.

(** ** Persistence of reviews (core/event.rs) *)

Definition remove_current_focused_review_persistence (u : FocusedReviewPersistence) : Am unit :=
  modify (with_persistence (λ m,
    if bool_decide (m !! persisted_session_id u = Some u) then delete (persisted_session_id u) m else m)).

(** Whether another attempt was scheduled. *)
Definition handle_focused_review_persistence_result (retry : FocusedReviewPersistenceRetry) (r : result unit str)
  : Am bool :=
  match r with
  | Ok _ => mret false
  | Err _ =>
      match retry_next retry with
      | None => mret false
      | Some retry => _ ← note (SpawnedReviewRetry retry); mret true
      end
  end.

Definition persist_one (retry : FocusedReviewPersistenceRetry) : Am unit :=
  let u := persistence_update retry in
  let k := persisted_session_id u in
  w ← get;
  if negb (bool_decide (pending_focused_review_persistence w !! k = Some u)) ||
     negb (match review_cache w !! k with Some e => matches_persistence e u | None => false end)
  then remove_current_focused_review_persistence u
  else
    let diff_hash := display_Z <$> persisted_diff_hash u in
    r ← ask (λ n, env_persist_review n k (Some (persisted_status u)) diff_hash (persisted_text u))
          (DidPersistReview k (Some (persisted_status u)) diff_hash (persisted_text u));
    scheduled ← handle_focused_review_persistence_result retry r;
    if (scheduled : bool) then mret tt else remove_current_focused_review_persistence u.

Definition persist_focused_review_retries (retries : list FocusedReviewPersistenceRetry) : Am unit :=
  _ ← for_each persist_one retries;
  modify (λ w, with_cache (λ cache,
    prune_review_cache cache (pending_focused_review_persistence w) (manager_state (app_sessions w))) w).

Definition persist_focused_review_updates (updates : list FocusedReviewPersistence) : Am unit :=
  _ ← for_each (λ u, modify (with_persistence (<[persisted_session_id u := u]>))) updates;
  persist_focused_review_retries (retry_initial <$> updates).

(** ** Deferred automatic reviews *)

Definition handle_deferred_auto_review_persistence_result (retry : DeferredAutoReviewPersistenceRetry)
    (r : result bool str) : Am bool :=
  let k := deferred_session_id retry in
  match r with
  | Ok true => _ ← modify (with_deferred (λ s, {[k]} ∪ s)); mret false
  | Ok false => _ ← modify (with_deferred (λ s, s ∖ {[k]})); mret false
  | Err _ =>
      _ ← modify (with_deferred (λ s, {[k]} ∪ s));
      match deferred_next retry with
      | None => mret false
      | Some retry => _ ← note (SpawnedDeferRetry retry); mret true
      end
  end.

Definition persist_deferred_auto_review (retry : DeferredAutoReviewPersistenceRetry) : Am unit :=
  let k := deferred_session_id retry in
  r ← ask (λ n, env_defer n k) (DidDefer k);
  _ ← handle_deferred_auto_review_persistence_result retry r;
  mret tt.

Definition defer_auto_review_session (k : SessionId) : Am unit := persist_deferred_auto_review (deferred_initial k).

Definition persist_deferred_auto_review_retries (retries : list DeferredAutoReviewPersistenceRetry) : Am unit :=
  for_each (λ retry, w ← get;
    if bool_decide (deferred_session_id retry ∈ deferred_auto_review_session_ids w)
    then persist_deferred_auto_review retry else mret tt) retries.

(** ** Loading diffs *)

Definition session_diff_task_target (s : Session) : str * SessionDiffTaskSource :=
  let archived := is_managed s &&
    (is_status s Done || bool_decide (role s = OrchestrationResearcher) && is_status s Canceled) in
  (folder s, if archived then ArchivedDiff else WorktreeDiff (is_managed s && is_status s Merging) (base_branch s)).

Definition spawn_session_diff_request_for_target (k : SessionId) (p : SessionDiffPurpose) (folder : str)
    (source : SessionDiffTaskSource) : Am Z :=
  request_id ← fetch_request_id;
  _ ← note (SpawnedDiff request_id k folder source);
  _ ← modify (with_requests (<[request_id := mkPending p k]>));
  mret request_id.

Definition loaded_session (w : App) (k : SessionId) : option Session := session_for_id (manager_state (app_sessions w)) k.

Definition spawn_session_diff_request (k : SessionId) (p : SessionDiffPurpose) : Am (option Z) :=
  w ← get;
  match loaded_session w k with
  | None => mret None
  | Some s =>
      let '(folder, source) := session_diff_task_target s in
      request_id ← spawn_session_diff_request_for_target k p folder source; mret (Some request_id)
  end.

Definition has_request (w : App) (wanted : SessionDiffPurpose → bool) (k : SessionId) : bool :=
  existsb (λ kv, str_eqb (pending_session_id kv.2) k && wanted (purpose kv.2))
    (map_to_list (pending_session_diff_requests w)).

Definition start_diff_view_load (k : SessionId) (restore : option DiffRestoreTarget) (allow_empty : bool) : Am bool :=
  w ← get;
  let fallback := match app_mode w with ModeView scroll k' => if str_eqb k' k then scroll else None | _ => None end in
  r ← spawn_session_diff_request k (OpenDiff allow_empty);
  match r with
  | None => _ ← match restore with Some m => modify (with_mode (into_mode m)) | None => mret tt end; mret false
  | Some request_id => _ ← modify (with_mode (ModeDiffLoading fallback request_id restore k)); mret true
  end.

Definition restored_mode (fallback : option Z) (restore : option DiffRestoreTarget) (k : SessionId) : AppMode :=
  match restore with Some m => into_mode m | None => ModeView fallback k end.

Definition cancel_diff_view_load : Am unit :=
  w ← get;
  match app_mode w with
  | ModeDiffLoading fallback request_id restore k =>
      _ ← modify (with_requests (delete request_id));
      modify (with_mode (restored_mode fallback restore k))
  | _ => mret tt
  end.

Definition discard_deleted_session_diff_state (k : SessionId) : Am unit :=
  _ ← modify (with_iterations (delete k));
  _ ← modify (with_hashes (delete k));
  _ ← modify (with_comments (delete k));
  _ ← modify (with_requests (filter (λ kv, str_eqb (pending_session_id kv.2) k = false)));
  modify (with_deferred (λ s, s ∖ {[k]})).

Definition save_diff_comment_progress (k : SessionId) (comments : list str) : Am unit :=
  modify (with_comments (if is_empty comments then delete k else <[k := comments]>)).

Definition clear_diff_comment_progress (k : SessionId) : Am unit :=
  _ ← modify (with_comments (delete k));
  w ← get;
  match app_mode w with
  | ModeDiff diff _ restore k' => if str_eqb k' k then modify (with_mode (ModeDiff diff [] restore k')) else mret tt
  | ModeHelpDiff _ k' => if str_eqb k' k then modify (with_mode (ModeHelpDiff [] k')) else mret tt
  | _ => mret tt
  end.

(** ** Starting reviews *)

Definition start_review_diff_load_for_target (k : SessionId) (is_manual : bool) (target : FocusedReviewTarget)
    (folder : str) (source : SessionDiffTaskSource) : Am bool :=
  w ← get;
  if has_request w is_review k then mret false
  else
    let cached_diff_hash := review_cache w !! k ≫= entry_diff_hash in
    _ ← spawn_session_diff_request_for_target k (ReviewDiff cached_diff_hash is_manual target) folder source;
    _ ← (if is_manual && bool_decide (cached_diff_hash = None) then
           let agent := target_review_agent target in
           token ← new_token;
           _ ← modify (with_cache (<[k := CacheLoading token (diff_content_hash []) agent None]>));
           _ ← on_session_state (λ st, mark_session_agent_review st k);
           on_session_state (λ st, update_for_id st k
             (post Tail (Loading (review_loading_message agent)) ClearOnNewTurn SlotReview))
         else mret tt);
    mret true.

Definition start_review_diff_load (k : SessionId) (is_manual : bool) : Am bool :=
  w ← get;
  let agent := normalize_review_agent (env_review_agent (length (app_trace w))) in
  match loaded_session w k with
  | None => mret false
  | Some s =>
      let '(folder, source) := session_diff_task_target s in
      start_review_diff_load_for_target k is_manual (mkTarget folder agent) folder source
  end.

Definition start_manual_review_diff_load (k : SessionId) : Am bool := start_review_diff_load k true.

Definition start_apply_review_diff_load_with_mode (k : SessionId) (cached_diff_hash : Z) (suggestions : str)
    (auto_address : bool) : Am bool :=
  w ← get;
  if has_request w is_apply_focused_review k then mret false
  else
    r ← spawn_session_diff_request k (ApplyFocusedReview auto_address cached_diff_hash suggestions);
    mret (bool_decide (is_Some r)).

Definition start_apply_review_diff_load (k : SessionId) (cached_diff_hash : Z) (suggestions : str) : Am bool :=
  start_apply_review_diff_load_with_mode k cached_diff_hash suggestions false.

Definition start_auto_apply_review_diff_load (k : SessionId) (cached_diff_hash : Z) (suggestions : str) : Am bool :=
  start_apply_review_diff_load_with_mode k cached_diff_hash suggestions true.

Definition loading_or_suppressed (e : option ReviewCacheEntry) : bool :=
  match e with Some (CacheLoading _ _ _ _) | Some CacheSuppressed => true | _ => false end.

Definition start_auto_review_diff_loads (ks : list SessionId) : Am unit :=
  for_each (λ k,
    w ← get;
    match loaded_session w k with
    | None => mret tt
    | Some s =>
        if is_status s InProgress then
          _ ← discard_pending_review_action_diff_loads k; clear_review_output k
        else if bool_decide (role s = Orchestrator)
                || negb (is_status s Lifecycle.Review || is_status s AgentReview)
                || loading_or_suppressed (review_cache w !! k)
        then mret tt
        else _ ← start_review_diff_load k false; mret tt
    end) ks.

Definition ok_option {A} (r : result A str) : option A := match r with Ok a => Some a | Err _ => None end.

Definition start_inactive_auto_review_diff_load (k : SessionId) : Am bool :=
  w ← get;
  if has_request w is_review k || loading_or_suppressed (review_cache w !! k) then mret true
  else
    r ← ask (λ n, env_load_session n k) (DidLoadSession k);
    match r with
    | Ok (Some row) =>
        let status := ok_option (SessionStatus_from_str (row_status row)) in
        let role := default Worker (row_role row ≫= λ v, ok_option (SessionRole_from_str v)) in
        if bool_decide (role = Orchestrator)
           || negb (bool_decide (status = Some Lifecycle.Review) || bool_decide (status = Some AgentReview))
        then mret false
        else
          match row_project_id row with
          | None => mret false
          | Some project_id =>
              w ← get;
              let agent := env_project_review_agent (length (app_trace w)) project_id in
              match session_folder env_base_path k with
              | None => mret false
              | Some folder =>
                  _ ← defer_auto_review_session k;
                  start_review_diff_load_for_target k false (mkTarget folder agent) folder
                    (WorktreeDiff false (row_base_branch row))
              end
          end
    | _ => mret false
    end.

Definition supersede_review_diff_loads (ks : list SessionId) : Am unit :=
  for_each (λ k,
    _ ← discard_pending_review_action_diff_loads k;
    _ ← clear_review_output k;
    on_session_state (λ st, restore_session_review_status st k)) ks.

Definition start_or_defer_auto_reviews (ks : list SessionId) : Am unit :=
  loaded ← (fix go (ks : list SessionId) : Am (list SessionId) :=
    match ks with
    | [] => mret []
    | k :: rest =>
        w ← get;
        here ← (match loaded_session w k with
                | Some s =>
                    if is_status s InProgress then _ ← defer_auto_review_session k; mret []
                    else _ ← modify (with_deferred (λ d, d ∖ {[k]})); mret [k]
                | None =>
                    started ← start_inactive_auto_review_diff_load k;
                    _ ← (if (started : bool) then mret tt else defer_auto_review_session k); mret []
                end);
        later ← go rest;
        mret (here ++ later)
    end) ks;
  start_auto_review_diff_loads loaded.

Definition resume_deferred_auto_reviews (persisted : list SessionId) : Am unit :=
  _ ← modify (with_deferred (λ d, d ∪ list_to_set persisted));
  w ← get;
  let loaded := List.filter (λ k, bool_decide (is_Some (loaded_session w k)))
                  (elements (deferred_auto_review_session_ids w)) in
  _ ← for_each (λ k, modify (with_deferred (λ d, d ∖ {[k]}))) loaded;
  start_auto_review_diff_loads loaded.

(** The review task starts under a fresh token (core/state.rs, review.rs). *)
Definition start_review_assist (k : SessionId) (folder : str) (diff_hash : Z) (diff : str) (agent : ReviewAgent)
  : Am unit :=
  let agent := normalize_review_agent agent in
  _ ← on_session_state (λ st, mark_session_agent_review st k);
  _ ← on_session_state (λ st, update_for_id st k
        (post Tail (Loading (review_loading_message agent)) ClearOnNewTurn SlotReview));
  request_id ← new_token;
  _ ← note (SpawnedReview request_id k folder diff_hash diff agent);
  modify (with_cache (<[k := CacheLoading request_id diff_hash agent None]>)).

(** ** Results of diff loads *)

Definition fail_preparation (k : SessionId) (error : str) : Am unit :=
  token ← new_token;
  w ← get;
  let '(persistence, cache, st) :=
    fail_review_preparation (review_cache w) (manager_state (app_sessions w)) k token error in
  _ ← modify (with_cache (λ _, cache));
  _ ← on_session_state (λ _, st);
  _ ← persist_focused_review_updates [persistence];
  on_session_state (λ st, restore_session_review_status st k).

(** The claim of a review is stored with the hash of the diff. *)
Definition prepare_review_diff (k : SessionId) (diff_hash : Z) (review_allowed is_manual : bool)
  : Am (result bool str) :=
  r ← ask (λ n, env_load_diff_hash n k) (DidLoadDiffHash k);
  match r with
  | Err e => mret (Err e)
  | Ok persisted =>
      w ← get;
      let previous := match review_diff_hashes w !! k with Some h => Some h | None => persisted ≫= parse_usize end in
      let should_start := review_allowed && (is_manual || negb (bool_decide (previous = Some diff_hash))) in
      stored ← ask (λ n, env_store_diff_hash n k (display_Z diff_hash) should_start)
                 (DidStoreDiffHash k (display_Z diff_hash) should_start);
      match stored with
      | Err e => mret (Err e)
      | Ok _ => _ ← modify (with_hashes (<[k := diff_hash]>)); mret (Ok should_start)
      end
  end.

Definition clear_persisted_review (k : SessionId) : Am unit :=
  _ ← ask (λ n, env_persist_review n k None None None) (DidPersistReview k None None None); mret tt.

Definition is_blank (text : str) : bool := is_empty (trim text).

Definition apply_review_diff_update (update : SessionDiffUpdate) (cached_diff_hash : option Z) (is_manual : bool)
    (target : FocusedReviewTarget) : Am unit :=
  let k := diff_session_id update in
  w ← get;
  status ← (match loaded_session w k with
            | Some s => mret (Some (status s))
            | None =>
                r ← ask (λ n, env_load_session n k) (DidLoadSession k);
                mret (row ← ok_option r ≫= (λ o, o); ok_option (SessionStatus_from_str (row_status row)))
            end);
  if negb (bool_decide (status = Some Lifecycle.Review) || bool_decide (status = Some AgentReview)) then
    if bool_decide (cached_diff_hash = None) then clear_review_output k else mret tt
  else
    _ ← modify (with_deferred (λ d, d ∖ {[k]}));
    match (match diff_result update with
           | Ok diff => if starts_with diff (L"Failed to run git diff:") then Err diff else Ok diff
           | Err e => Err e
           end) with
    | Err error => fail_preparation k error
    | Ok diff =>
        let diff_hash := diff_content_hash diff in
        prepared ← prepare_review_diff k diff_hash
                     (negb (is_blank diff) && negb (bool_decide (cached_diff_hash = Some diff_hash))) is_manual;
        match prepared with
        | Err error => fail_preparation k (L"Failed to claim focused review: " ++ error)
        | Ok true => start_review_assist k (target_folder target) diff_hash diff (target_review_agent target)
        | Ok false =>
            _ ← (if is_manual && is_blank diff then
                   _ ← clear_persisted_review k;
                   _ ← set_review_ready_output k diff_hash REVIEW_NO_DIFF_MESSAGE; mret tt
                 else if negb is_manual && bool_decide (cached_diff_hash = None) then
                   _ ← clear_persisted_review k; clear_review_output k
                 else mret tt);
            on_session_state (λ st, restore_session_review_status st k)
        end
    end.

(** A follow-up prompt (core/state.rs). *)
Definition reply (k : SessionId) (prompt : TurnPrompt) : Am bool :=
  prepared ← ask (λ n, env_queue_preparation n k) (DidQueuePreparation k);
  match prepared with
  | Ok true => mret true
  | Err _ => mret false
  | Ok false =>
      w ← get;
      if match loaded_session w k with Some s => SessionStatus_is_read_only (status s) | None => false end
      then mret false
      else
        _ ← clear_review_output k;
        _ ← clear_persisted_review k;
        enqueued ← ask (λ n, env_reply n k prompt) (DidReply k prompt);
        _ ← (if (enqueued : bool) then clear_diff_comment_progress k else mret tt);
        mret enqueued
  end.

Definition APPLY_STALE_TEXT : str :=
  L"Review is stale; the worktree changed since it was generated. Run focused review again (f key).".

Definition apply_focused_review_diff_update (k : SessionId) (auto_address : bool) (cached_diff_hash : Z)
    (suggestions : str) (r : result str str) : Am unit :=
  w ← get;
  match review_cache w !! k with
  | Some (CacheReady _ diff_hash text) =>
      if negb (diff_hash =? cached_diff_hash)%Z
         || negb (match loaded_session w k with Some s => is_status s Lifecycle.Review | None => false end)
      then mret tt
      else
        match r with
        | Err error =>
            note (DidStatusLine k NoticeApply
                    (L"Failed to read worktree diff: " ++ error ++ L". Review cache preserved; try /apply again."))
        | Ok current_diff =>
            if negb (diff_content_hash current_diff =? cached_diff_hash)%Z then
              _ ← clear_review_output k; note (DidStatusLine k NoticeApply APPLY_STALE_TEXT)
            else
              let prompt := build_apply_review_prompt suggestions in
              if auto_address then
                let mode_is_current :=
                  match loaded_session w k with
                  | Some s => bool_decide (permission_mode s = AutoEditAddressComments)
                  | None => false
                  end in
                let completed := default 0%Z (auto_address_review_iterations w !! k) in
                if negb mode_is_current || (MAX_AUTO_ADDRESS_REVIEW_ITERATIONS <=? completed)%Z then mret tt
                else
                  accepted ← reply k prompt;
                  if (accepted : bool) then modify (with_iterations (<[k := Z.min (completed + 1) 255]>))
                  else
                    request_id ← set_review_ready_output k cached_diff_hash text;
                    persist_focused_review_updates
                      [mkPersistence (Some cached_diff_hash) request_id k ReviewReady (Some text)]
              else _ ← reply k prompt; mret tt
        end
  | _ => mret tt
  end.

Definition apply_open_diff_update (update : SessionDiffUpdate) (allow_empty : bool) : Am unit :=
  w ← get;
  match app_mode w with
  | ModeDiffLoading fallback request_id restore k =>
      if negb (request_id =? diff_request_id update)%Z || negb (str_eqb k (diff_session_id update)) then mret tt
      else
        match diff_result update with
        | Err error =>
            _ ← modify (with_mode (restored_mode fallback restore k));
            modify (with_sessions (λ m, append_workflow_notice m k
                      (format_line NoticeError (L"Unable to load diff: " ++ error))))
        | Ok diff =>
            if is_blank diff && negb allow_empty then modify (with_mode (restored_mode fallback restore k))
            else
              let comments := default [] (diff_comment_progress w !! k) in
              _ ← modify (with_comments (delete k));
              modify (with_mode (ModeDiff diff comments restore k))
        end
  | _ => mret tt
  end.

Definition apply_session_diff_update (update : SessionDiffUpdate) : Am unit :=
  w ← get;
  match pending_session_diff_requests w !! diff_request_id update with
  | None => mret tt
  | Some request =>
      if negb (str_eqb (pending_session_id request) (diff_session_id update)) then mret tt
      else
        _ ← modify (with_requests (delete (diff_request_id update)));
        match purpose request with
        | ApplyFocusedReview auto_address cached_diff_hash suggestions =>
            apply_focused_review_diff_update (diff_session_id update) auto_address cached_diff_hash suggestions
              (diff_result update)
        | OpenDiff allow_empty => apply_open_diff_update update allow_empty
        | ReviewDiff cached_diff_hash is_manual target =>
            apply_review_diff_update update cached_diff_hash is_manual target
        end
  end.

(** ** Applying suggestions automatically (prompt_intent.rs) *)

(** A slice off a character boundary, which [review_suggestions] excludes, would panic. *)
Definition auto_address_one (k : SessionId) : Am unit :=
  w ← get;
  match find_session (manager_state (app_sessions w)) k with
  | None => mret tt
  | Some s =>
      if negb (bool_decide (permission_mode s = AutoEditAddressComments))
         || (MAX_AUTO_ADDRESS_REVIEW_ITERATIONS <=? default 0 (auto_address_review_iterations w !! k))%Z
      then mret tt
      else
        match review_cache w !! k with
        | Some (CacheReady _ diff_hash text) =>
            match review_suggestions text with
            | Some (Some suggestions) => _ ← start_auto_apply_review_diff_load k diff_hash suggestions; mret tt
            | _ => mret tt
            end
        | _ => mret tt
        end
  end.

Definition auto_address_focused_reviews (ks : list SessionId) : Am unit := for_each auto_address_one ks.

(** A prompt of the user starts the count anew. *)
Definition reset_auto_address (k : SessionId) : Am unit := modify (with_iterations (delete k)).

(** ** Results of reviews (core/event.rs) *)

Definition apply_review_results (updates : list (SessionId * ReviewUpdate)) : Am unit :=
  w ← get;
  let '(persistence, cache, st) := apply_review_updates (review_cache w) (manager_state (app_sessions w)) updates in
  _ ← modify (with_cache (λ _, cache));
  _ ← on_session_state (λ _, st);
  let ready := persisted_session_id <$> List.filter (λ u, bool_decide (persisted_status u = ReviewReady)) persistence in
  _ ← persist_focused_review_updates persistence;
  auto_address_focused_reviews ready.

Definition apply_review_progress (k : SessionId) (diff_hash request_id : Z) (progress : ReviewProgress) : Am unit :=
  w ← get;
  match review_cache w !! k with
  | Some (CacheLoading r h agent _) =>
      if (h =? diff_hash)%Z && (r =? request_id)%Z then
        _ ← modify (with_cache (<[k := CacheLoading r h agent (Some progress)]>)); restore_review_output k
      else mret tt
  | _ => mret tt
  end.

(** ** Commands of the user *)

(** The [f] key opens a review (runtime/mode/session_view.rs). *)
Definition open_review_output_mode (k : SessionId) : Am unit :=
  w ← get;
  match review_cache w !! k with
  | Some (CacheLoading _ _ _ _) | Some (CacheReady _ _ _) | Some (CacheFailed _ _ _) => mret tt
  | _ => match find_session (manager_state (app_sessions w)) k with
         | None => mret tt
         | Some _ => _ ← start_manual_review_diff_load k; mret tt
         end
  end.

(** A confirmed regeneration (runtime/key_handler.rs). *)
Definition regenerate_review (k : SessionId) : Am unit :=
  _ ← clear_review_output k;
  w ← get;
  match find_session (manager_state (app_sessions w)) k with
  | None => mret tt
  | Some _ => _ ← start_manual_review_diff_load k; mret tt
  end.

(** ** The list of sessions (core/state.rs) *)

Definition refresh_reviews : Am unit :=
  modify (λ w,
    let cache := prune_review_cache (review_cache w) (pending_focused_review_persistence w)
                   (manager_state (app_sessions w)) in
    with_sessions (on_state (hydrate_review_transients cache)) (with_cache (λ _, cache) w)).

Definition delete_session_reviews (k : SessionId) : Am unit :=
  _ ← discard_deleted_session_diff_state k;
  modify (with_cache (delete k)).

(** Reviews of a project that is opened; entries that are known stay. *)
Definition load_persisted_reviews (rows : list SessionFocusedReviewRow) : Am unit :=
  modify (λ w,
    let '(loaded, token) := review_cache_from_rows rows (next_token w) in
    mkApp (app_sessions w) (review_cache w ∪ loaded) (review_diff_hashes w) (pending_session_diff_requests w)
      (deferred_auto_review_session_ids w) (pending_focused_review_persistence w) (auto_address_review_iterations w)
      (diff_comment_progress w) (app_mode w) token (next_diff_request_id w) (app_trace w)).
End reviews.
