(* ===== verification/FocusedReviewLaws.v ===== *)
(** * Laws of focused reviews

    Every command of the user and every event of a background task keeps the
    bookkeeping of reviews consistent: a session has at most one pending load of
    each purpose, a review that is shown as loading has work that will end it, an
    automatic answer to a review is given at most three times, and the result of
    a review counts once. *)
From stdpp Require Import gmap.
From S2P Require Import Prelude Contracts Agent Lifecycle Transcript Transient Prompt Input Review Session SessionState SessionManager ReviewCache FocusedReview.

(** ** Laws *)

Lemma cache_insert_eq (cache : ReviewCache) k e : <[k := e]> cache !! k = Some e.
Proof. exact (lookup_insert_eq cache k e). Qed.

Lemma cache_insert_ne (cache : ReviewCache) k k' e : k ≠ k' → <[k := e]> cache !! k' = cache !! k'.
Proof. exact (lookup_insert_ne cache k k' e). Qed.

(** *** Results count once *)

Section results.
Context `{FxHasher}.

Lemma update_current cache st k u :
  is_current_generation cache k (update_request_id u) (update_diff_hash u) = true →
  ∃ st', apply_review_update cache st k u =
    (Some (mkPersistence (Some (update_diff_hash u)) (update_request_id u) k
             (match update_result u with Ok text => for_text text | Err _ => ReviewFailed end)
             (match update_result u with Ok text => Some text | Err _ => None end)),
     <[k := from_result (update_diff_hash u) (update_request_id u) (update_result u)]> cache, st').
Proof.
  destruct u as [h r res]. cbn [update_diff_hash update_request_id update_result]. intros HC.
  unfold apply_review_update. rewrite HC. cbn [negb]. eexists. reflexivity.
Qed.

Lemma update_stale cache st k u :
  is_current_generation cache k (update_request_id u) (update_diff_hash u) = false →
  apply_review_update cache st k u = (None, cache, st).
Proof.
  destruct u as [h r res]. cbn [update_diff_hash update_request_id]. intros HC.
  unfold apply_review_update. by rewrite HC.
Qed.

(** Results end generations, they never start one. *)
Definition no_new_generation (cache cache' : ReviewCache) : Prop :=
  ∀ k r h, is_current_generation cache' k r h = true → is_current_generation cache k r h = true.

#[local] Instance no_new_generation_preorder : PreOrder no_new_generation.
Proof. split; [by intros c k r h|]. intros c1 c2 c3 H1 H2 k r h HG. by apply H1, H2. Qed.

Lemma from_result_ends h r res k (cache : ReviewCache) r' h' :
  is_current_generation (<[k := from_result h r res]> cache) k r' h' = false.
Proof. unfold is_current_generation. rewrite cache_insert_eq. by destruct res. Qed.

Lemma ended_generation h r res k (cache : ReviewCache) :
  no_new_generation cache (<[k := from_result h r res]> cache).
Proof.
  intros k' r' h'. destruct (decide (k = k')) as [->|HN]; [by rewrite from_result_ends|].
  unfold is_current_generation. by rewrite cache_insert_ne.
Qed.

Lemma apply_review_update_ends cache st k u :
  let c' := (apply_review_update cache st k u).1.2 in
  no_new_generation cache c' ∧ is_current_generation c' k (update_request_id u) (update_diff_hash u) = false.
Proof.
  destruct (is_current_generation cache k (update_request_id u) (update_diff_hash u)) eqn:E.
  - destruct (update_current cache st k u E) as (st' & ->). cbn [fst snd]. split; [apply ended_generation|apply from_result_ends].
  - rewrite update_stale by done. done.
Qed.

Lemma stale_after cache cache' k r h :
  no_new_generation cache cache' → is_current_generation cache k r h = false → is_current_generation cache' k r h = false.
Proof. intros HN HF. destruct (is_current_generation cache' k r h) eqn:E; [|done]. apply HN in E. congruence. Qed.

Lemma apply_review_updates_cons cache st k u us :
  apply_review_updates cache st ((k, u) :: us) =
  let a := apply_review_update cache st k u in
  let b := apply_review_updates a.1.2 a.2 us in
  (match a.1.1 with Some p => p :: b.1.1 | None => b.1.1 end, b.1.2, b.2).
Proof.
  cbn [apply_review_updates]. destruct (apply_review_update cache st k u) as [[p c] s]. cbn [fst snd].
  by destruct (apply_review_updates c s us) as [[ps c'] s'].
Qed.

Lemma apply_review_updates_end us cache st :
  let c' := (apply_review_updates cache st us).1.2 in
  no_new_generation cache c' ∧
  ∀ k u, (k, u) ∈ us → is_current_generation c' k (update_request_id u) (update_diff_hash u) = false.
Proof.
  revert cache st. induction us as [|[k u] us IH]; intros cache st; cbn zeta.
  { split; [done|]. intros ? ? HI. by apply not_elem_of_nil in HI. }
  rewrite apply_review_updates_cons. cbn zeta. cbn [fst snd].
  destruct (apply_review_update_ends cache st k u) as [HA HB].
  destruct (IH (apply_review_update cache st k u).1.2 (apply_review_update cache st k u).2) as [HC HD]. split.
  - etrans; [exact HA|exact HC].
  - intros k' u' [HE|HI]%elem_of_cons; [|by apply HD]. injection HE as -> ->. by eapply stale_after.
Qed.

Lemma apply_review_updates_stale us cache st :
  (∀ k u, (k, u) ∈ us → is_current_generation cache k (update_request_id u) (update_diff_hash u) = false) →
  apply_review_updates cache st us = ([], cache, st).
Proof.
  induction us as [|[k u] us IH]; intros HS; [done|]. rewrite apply_review_updates_cons. cbn zeta.
  rewrite update_stale by (apply HS, elem_of_cons; by left). cbn [fst snd].
  by rewrite IH by (intros; apply HS, elem_of_cons; by right).
Qed.

(** A review result counts once and for the review that asked for it.  After a batch of results, in any order and
    with any number of duplicates, no result of the batch belongs to a generation that is still loading, so the batch
    delivered again changes neither the cache nor the sessions and writes nothing; and a result whose token or diff
    hash is not that of the loading generation does nothing at all. *)
Theorem review_results_count_once us cache st :
  let '(_, cache', st') := apply_review_updates cache st us in
  apply_review_updates cache' st' us = ([], cache', st') ∧
  ∀ k u, is_current_generation cache k (update_request_id u) (update_diff_hash u) = false →
    apply_review_updates cache st ((k, u) :: us) = apply_review_updates cache st us.
Proof.
  pose proof (apply_review_updates_end us cache st) as [_ HE].
  destruct (apply_review_updates cache st us) as [[ps cache'] st'] eqn:EU. cbn [fst snd] in HE. split.
  - by apply apply_review_updates_stale.
  - intros k u HF. rewrite apply_review_updates_cons. cbn zeta. rewrite update_stale by done. cbn [fst snd].
    rewrite EU. done.
Qed.
End results.

(** *** Commands and events *)

Section run.
Context `{FxHasher} `{!AppEnvironment}.

Definition is_diff_load (m : AppMode) : bool :=
  match m with ModeDiffLoading _ _ _ _ => true | _ => false end.

(** One command of the user, one event of a background task or one change of the
    sessions by another part of the program. *)
Inductive app_step : App → App → Prop :=
| step_diff_result w u : app_step w (apply_session_diff_update u w).2
| step_review_results w us : app_step w (apply_review_results us w).2
| step_review_progress w k h r p : app_step w (apply_review_progress k h r p w).2
| step_review_retries w rs : app_step w (persist_focused_review_retries rs w).2
| step_deferred_retries w rs : app_step w (persist_deferred_auto_review_retries rs w).2
| step_auto_reviews w ks : app_step w (start_or_defer_auto_reviews ks w).2
| step_resume w ks : app_step w (resume_deferred_auto_reviews ks w).2
| step_supersede w ks : app_step w (supersede_review_diff_loads ks w).2
| step_open_review w k : app_step w (open_review_output_mode k w).2
| step_regenerate w k : app_step w (regenerate_review k w).2
| step_apply w k h suggestions : app_step w (start_apply_review_diff_load k h suggestions w).2
| step_open_diff w k restore allow_empty : app_step w (start_diff_view_load k restore allow_empty w).2
| step_cancel_diff w : app_step w (cancel_diff_view_load w).2
| step_comments w k cs : app_step w (save_diff_comment_progress k cs w).2
| step_reply w k prompt : app_step w (reply k prompt w).2
| step_prompt w k : app_step w (reset_auto_address k w).2
| step_suppress w k : app_step w (suppress_review_output k w).2
| step_restore w k : app_step w (restore_review_output k w).2
| step_refresh w : app_step w (refresh_reviews w).2
| step_delete w k : app_step w (delete_session_reviews k w).2
| step_load_reviews w rows : app_step w (load_persisted_reviews rows w).2
| step_sessions w f : app_step w (with_sessions f w)
| step_mode w m : is_diff_load m = false → app_step w (with_mode m w).

Record app_initial (w : App) : Prop := {
  initial_requests : pending_session_diff_requests w = ∅;
  initial_iterations : auto_address_review_iterations w = ∅;
  initial_cache : ∀ k e, review_cache w !! k = Some e → is_loading e = false;
  initial_request_id : next_diff_request_id w = 1%Z;
  initial_mode : is_diff_load (app_mode w) = false
}.

(** *** The invariant *)

Definition one_request (wanted : SessionDiffPurpose → bool) (w : App) : Prop :=
  ∀ i j p q, pending_session_diff_requests w !! i = Some p → pending_session_diff_requests w !! j = Some q →
    wanted (purpose p) = true → wanted (purpose q) = true → pending_session_id p = pending_session_id q → i = j.

Definition manual_load (k : SessionId) (p : PendingSessionDiffRequest) : Prop :=
  ∃ target, p = mkPending (ReviewDiff None true target) k.

(** Work that ends the review shown as loading: the review itself, or the load of the diff that starts it. *)
Definition has_work (w : App) (k : SessionId) (r h : Z) (agent : ReviewAgent) : Prop :=
  (∃ folder diff, SpawnedReview r k folder h diff agent ∈ app_trace w) ∨
  (∃ i p, pending_session_diff_requests w !! i = Some p ∧ manual_load k p).

(** The counter of requests has not wrapped around. *)
Definition in_range (w : App) : Prop := (Z.of_nat (length (app_trace w)) < 2 ^ 64 - 1)%Z.

Record fresh_requests (w : App) : Prop := {
  fresh_counter : (1 ≤ next_diff_request_id w ≤ 1 + Z.of_nat (length (app_trace w)))%Z;
  fresh_ids i p : pending_session_diff_requests w !! i = Some p → (i < next_diff_request_id w)%Z;
  fresh_spawned i p : pending_session_diff_requests w !! i = Some p →
    ∃ folder source, SpawnedDiff i (pending_session_id p) folder source ∈ app_trace w
}.

(** A page that waits for a diff waits for a request of its own. *)
Definition wf_mode (w : App) : Prop :=
  match app_mode w with
  | ModeDiffLoading _ i _ _ => (i < next_diff_request_id w)%Z ∧
      ∀ p, pending_session_diff_requests w !! i = Some p → ∃ allow_empty, purpose p = OpenDiff allow_empty
  | _ => True
  end.

(** [x] is a session whose request was just taken away. *)
Record reviews_wf (x : option SessionId) (w : App) : Prop := {
  wf_review : one_request is_review w;
  wf_apply : one_request is_apply_focused_review w;
  wf_iterations k n : auto_address_review_iterations w !! k = Some n → (0 < n ≤ MAX_AUTO_ADDRESS_REVIEW_ITERATIONS)%Z;
  wf_fresh : in_range w → fresh_requests w;
  wf_page : in_range w → wf_mode w;
  wf_work : in_range w → ∀ k r h agent p, x ≠ Some k →
    review_cache w !! k = Some (CacheLoading r h agent p) → has_work w k r h agent
}.

Definition keeps {A} (m : Am A) : Prop := ∀ w, reviews_wf None w → reviews_wf None (m w).2.

Lemma initial_wf w : app_initial w → reviews_wf None w.
Proof.
  intros [HR HI HC HN HM]. split.
  - intros i j p q HP. by rewrite HR, lookup_empty in HP.
  - intros i j p q HP. by rewrite HR, lookup_empty in HP.
  - intros k n HK. by rewrite HI, lookup_empty in HK.
  - intros _. split; [lia|intros i p HP; by rewrite HR, lookup_empty in HP..].
  - intros _. unfold wf_mode. by destruct (app_mode w).
  - intros _ k r h agent p _ HK. by apply HC in HK.
Qed.

(** *** Rules *)

Lemma review_keeps_ret {A} (a : A) : keeps (mret a).
Proof. intros w HW. exact HW. Qed.

Lemma review_keeps_bind {A B} (m : Am A) (f : A → Am B) : keeps m → (∀ a, keeps (f a)) → keeps (m ≫= f).
Proof.
  intros HM HF w HW. unfold mbind, Am_bind. specialize (HM w HW). destruct (m w) as [a w']. by apply HF.
Qed.

Lemma keeps_get {B} (f : App → Am B) : (∀ w, reviews_wf None w → reviews_wf None (f w w).2) → keeps (get ≫= f).
Proof. intros HF w HW. by apply HF. Qed.

Lemma keeps_for_each {A} (f : A → Am unit) l : (∀ a, keeps (f a)) → keeps (for_each f l).
Proof. intros HF. induction l as [|a l IH]; cbn [for_each]; [apply review_keeps_ret|]. apply review_keeps_bind; [apply HF|by intros []]. Qed.

(** Fields the invariant does not read. *)
Lemma wf_same x w w' :
  pending_session_diff_requests w' = pending_session_diff_requests w →
  auto_address_review_iterations w' = auto_address_review_iterations w →
  review_cache w' = review_cache w → next_diff_request_id w' = next_diff_request_id w →
  app_trace w' = app_trace w → app_mode w' = app_mode w → reviews_wf x w → reviews_wf x w'.
Proof.
  intros HR HI HC HN HT HM [H1 H2 H3 H4 H6 H5].
  split; unfold one_request, in_range, has_work, wf_mode in *; rewrite ?HR, ?HI, ?HC, ?HN, ?HT, ?HM; try done.
  intros HL. destruct (H4 HL) as [HA HB HD]. split; rewrite ?HR, ?HN, ?HT; done.
Qed.

Lemma wf_note x e w : reviews_wf x w → reviews_wf x (note e w).2.
Proof.
  intros [H1 H2 H3 H4 H6 H5].
  assert (in_range (note e w).2 → in_range w) as HL.
  { unfold in_range. cbn [note modify snd app_trace]. rewrite length_app. lia. }
  split; [done|done|done| |by intros HX; apply H6, HL|].
  - intros HX. destruct (H4 (HL HX)) as [HA HB HD]. split; cbn [note modify snd app_trace next_diff_request_id pending_session_diff_requests].
    + rewrite length_app. lia.
    + done.
    + intros i p HP. destruct (HD i p HP) as (f & s & HI). exists f, s. apply elem_of_app. by left.
  - intros HX k r h agent p HN HK. destruct (H5 (HL HX) k r h agent p HN HK) as [(f & d & HI)|HI]; [left|by right].
    exists f, d. cbn [note modify snd app_trace]. apply elem_of_app. by left.
Qed.

Lemma keeps_ask {A} (answer : nat → A) e : keeps (ask answer e).
Proof. intros w HW. exact (wf_note None _ w HW). Qed.

(** The cache may change where the new entries are not loading or have work. *)
Lemma wf_cache x y f w :
  reviews_wf x w →
  (∀ k r h agent p, y ≠ Some k → f (review_cache w) !! k = Some (CacheLoading r h agent p) →
    x ≠ Some k ∧ (∃ p', review_cache w !! k = Some (CacheLoading r h agent p')) ∨ has_work w k r h agent) →
  reviews_wf y (with_cache f w).
Proof.
  intros [H1 H2 H3 H4 H6 H5] HF. split; [done|done|done| |exact H6|].
  - intros HX. destruct (H4 HX) as [HA HB HD]. by split.
  - intros HX k r h agent p HN HK. destruct (HF k r h agent p HN HK) as [[HN' (p' & HK')]|HK']; [|exact HK'].
    exact (H5 HX k r h agent p' HN' HK').
Qed.

Lemma wf_drop x y f w :
  reviews_wf y w → (y = None ∨ y = x) →
  (∀ i p, f (pending_session_diff_requests w) !! i = Some p → pending_session_diff_requests w !! i = Some p) →
  (∀ k i p, in_range w → x ≠ Some k → manual_load k p → pending_session_diff_requests w !! i = Some p →
    f (pending_session_diff_requests w) !! i = Some p) →
  reviews_wf x (with_requests f w).
Proof.
  intros [H1 H2 H3 H4 H6 H5] HY HS HK. split.
  - intros i j p q HP HQ. exact (H1 i j p q (HS i p HP) (HS j q HQ)).
  - intros i j p q HP HQ. exact (H2 i j p q (HS i p HP) (HS j q HQ)).
  - done.
  - intros HX. destruct (H4 HX) as [HA HB HD]. split; [done| |].
    + intros i p HP. exact (HB i p (HS i p HP)).
    + intros i p HP. exact (HD i p (HS i p HP)).
  - intros HX. specialize (H6 HX). unfold wf_mode in *. cbn [with_requests app_mode pending_session_diff_requests next_diff_request_id].
    destruct (app_mode w); try done. destruct H6 as [HI HJ]. split; [done|]. intros p HP. by apply HJ, HS.
  - intros HX k r h agent p HN HC. assert (y ≠ Some k) as HYK by (by destruct HY as [->| ->]).
    destruct (H5 HX k r h agent p HYK HC) as [HI|(i & q & HI & HM)]; [by left|].
    right. exists i, q. split; [by eapply HK|done].
Qed.

Lemma wf_iterate x f w :
  reviews_wf x w →
  (∀ k n, f (auto_address_review_iterations w) !! k = Some n → (0 < n ≤ MAX_AUTO_ADDRESS_REVIEW_ITERATIONS)%Z) →
  reviews_wf x (with_iterations f w).
Proof. intros [H1 H2 H3 H4 H6 H5] HF. split; [done|done|done| |exact H6|done]. intros HX. destruct (H4 HX). by split. Qed.

Lemma has_request_false w wanted k i p :
  has_request w wanted k = false → pending_session_diff_requests w !! i = Some p → pending_session_id p = k →
  wanted (purpose p) = true → False.
Proof.
  intros HF HP HK HW. unfold has_request in HF. rewrite existsb_false in HF.
  specialize (HF (i, p) ltac:(by apply elem_of_map_to_list)). cbn [fst snd] in HF.
  rewrite HW, andb_true_r in HF. by rewrite HK, str_eqb_refl in HF.
Qed.

Lemma one_request_insert wanted w k p i w' :
  one_request wanted w → (wanted p = true → has_request w wanted k = false) →
  pending_session_diff_requests w' = <[i := mkPending p k]> (pending_session_diff_requests w) → one_request wanted w'.
Proof.
  intros HO HN HE i1 i2 p1 p2 H1 H2 W1 W2 HS. rewrite HE in H1, H2.
  destruct (decide (i = i1)) as [E1|N1], (decide (i = i2)) as [E2|N2]; subst; [done| | |].
  - rewrite lookup_insert_eq in H1. rewrite lookup_insert_ne in H2 by done. injection H1 as <-. cbn in W1, HS.
    exfalso. by eapply (has_request_false w wanted k i2 p2); [apply HN| | |].
  - rewrite lookup_insert_eq in H2. rewrite lookup_insert_ne in H1 by done. injection H2 as <-. cbn in W2, HS.
    exfalso. by eapply (has_request_false w wanted k i1 p1); [apply HN| | |].
  - rewrite lookup_insert_ne in H1, H2 by done. by eapply HO.
Qed.

(** A new request. *)
Lemma wf_spawn k p folder source w :
  reviews_wf None w → (is_review p = true → has_request w is_review k = false) →
  (is_apply_focused_review p = true → has_request w is_apply_focused_review k = false) →
  let s := spawn_session_diff_request_for_target k p folder source w in
  reviews_wf None s.2 ∧ review_cache s.2 = review_cache w ∧
  pending_session_diff_requests s.2 !! s.1 = Some (mkPending p k).
Proof.
  intros [H1 H2 H3 H4 H6 H5] HR HA s. split_and!; [|reflexivity|exact (lookup_insert_eq _ (next_diff_request_id w) _)].
  set (w' := s.2).
  assert (app_trace w' = app_trace w ++ [SpawnedDiff (next_diff_request_id w) k folder source]) as HT by reflexivity.
  assert (in_range w' → in_range w) as HL.
  { unfold in_range. rewrite HT, length_app. lia. }
  assert (pending_session_diff_requests w' = <[next_diff_request_id w := mkPending p k]> (pending_session_diff_requests w)) as HE by reflexivity.
  assert (in_range w' → next_diff_request_id w' = next_diff_request_id w + 1)%Z as HN.
  { intros HX. destruct (H4 (HL HX)) as [HB _ _]. change (u64_wrapping_add (next_diff_request_id w) 1 = next_diff_request_id w + 1)%Z.
    unfold u64_wrapping_add. apply Z.mod_small. unfold in_range in HX. rewrite HT, length_app in HX. cbn in HX. lia. }
  split.
  - by eapply one_request_insert.
  - by eapply one_request_insert.
  - exact H3.
  - intros HX. specialize (HN HX). destruct (H4 (HL HX)) as [HB HC HD]. split.
    + rewrite HN, HT, length_app. cbn. lia.
    + intros i q HQ. rewrite HN. rewrite HE in HQ. destruct (decide (next_diff_request_id w = i)) as [<-|NI]; [lia|].
      rewrite lookup_insert_ne in HQ by done. apply HC in HQ. lia.
    + intros i q HQ. rewrite HE in HQ. rewrite HT. destruct (decide (next_diff_request_id w = i)) as [<-|NI].
      * rewrite lookup_insert_eq in HQ. injection HQ as <-. exists folder, source. apply elem_of_app. right. by apply list_elem_of_singleton.
      * rewrite lookup_insert_ne in HQ by done. destruct (HD i q HQ) as (f & s' & HI). exists f, s'. apply elem_of_app. by left.
  - intros HX. specialize (HN HX). specialize (H6 (HL HX)). unfold wf_mode in *.
    change (app_mode w') with (app_mode w). rewrite HN, HE. destruct (app_mode w); try done.
    destruct H6 as [HI HJ]. split; [lia|]. intros q HQ. rewrite lookup_insert_ne in HQ by lia. by apply HJ.
  - intros HX k' r h agent q HQ HK. destruct (H4 (HL HX)) as [_ HC _].
    destruct (H5 (HL HX) k' r h agent q HQ HK) as [(f & d & HI)|(i & p' & HI & HM)].
    + left. exists f, d. rewrite HT. apply elem_of_app. by left.
    + right. exists i, p'. split; [|done]. rewrite HE, lookup_insert_ne; [done|]. intros <-. apply HC in HI. lia.
Qed.

Lemma keeps_at {A} (m : Am A) w : keeps m → reviews_wf None w → reviews_wf None (m w).2.
Proof. intros HM. apply HM. Qed.

Lemma keeps_note e : keeps (note e).
Proof. intros w. apply wf_note. Qed.

(** Changes of a field the invariant does not read. *)
Definition frames (f : App → App) : Prop :=
  ∀ w, pending_session_diff_requests (f w) = pending_session_diff_requests w ∧
    auto_address_review_iterations (f w) = auto_address_review_iterations w ∧ review_cache (f w) = review_cache w ∧
    next_diff_request_id (f w) = next_diff_request_id w ∧ app_trace (f w) = app_trace w ∧ app_mode (f w) = app_mode w.

Lemma wf_frame x f w : frames f → reviews_wf x w → reviews_wf x (f w).
Proof. intros HF. destruct (HF w) as (? & ? & ? & ? & ? & ?). by apply wf_same. Qed.

Lemma keeps_frame f : frames f → keeps (modify f).
Proof. intros HF w. by apply wf_frame. Qed.

Lemma frames_sessions f : frames (with_sessions f). Proof. done. Qed.
Lemma frames_hashes f : frames (with_hashes f). Proof. done. Qed.
Lemma frames_deferred f : frames (with_deferred f). Proof. done. Qed.
Lemma frames_persistence f : frames (with_persistence f). Proof. done. Qed.
Lemma frames_comments f : frames (with_comments f). Proof. done. Qed.

Lemma keeps_mode m : is_diff_load m = false → keeps (modify (with_mode m)).
Proof.
  intros HM w [H1 H2 H3 H4 H6 H5]. split; [done|done|done| |by destruct m|done].
  intros HX. destruct (H4 HX). by split.
Qed.

Lemma restored_mode_plain fallback restore k : is_diff_load (restored_mode fallback restore k) = false.
Proof. by destruct restore as [[]|]. Qed.

Lemma keeps_on_session_state f : keeps (on_session_state f).
Proof. apply keeps_frame, frames_sessions. Qed.

Lemma keeps_new_token : keeps new_token.
Proof. intros w. by apply wf_same. Qed.
End run.

Create HintDb reviews.
#[export] Hint Resolve review_keeps_ret keeps_note keeps_ask keeps_on_session_state keeps_new_token frames_sessions
  frames_hashes frames_deferred frames_persistence frames_comments restored_mode_plain : reviews.

(** Walks through the body of an operation. *)
Ltac keep_step :=
  match goal with
  | |- keeps (get ≫= _) => apply keeps_get; intros ?w ?HW; cbn beta
  | |- keeps (_ ≫= _) => apply review_keeps_bind; [|intros ?; cbn beta]
  | |- keeps (for_each _ _) => apply keeps_for_each; intros ?; cbn beta
  | |- keeps (modify (with_mode _)) => apply keeps_mode; solve [reflexivity|auto with reviews]
  | |- keeps (modify _) => apply keeps_frame; solve [auto with reviews]
  | |- keeps (match ?x with _ => _ end) => destruct x eqn:?
  | HW : reviews_wf None ?w |- reviews_wf None (_ ?w).2 => apply keeps_at; [|exact HW]
  | |- keeps _ => solve [auto with reviews]
  end.
Ltac keep := repeat keep_step.

Section operations.
Context `{FxHasher} `{!AppEnvironment}.

(** *** Changes of the cache *)

(** The entry of [k] is replaced by one that is not loading. *)
Lemma wf_settle x k e w :
  reviews_wf x w → is_loading e = false → x = None ∨ x = Some k → reviews_wf None (with_cache (<[k := e]>) w).
Proof.
  intros HW HE HX. apply (wf_cache x); [done|]. intros k' r h agent p _ HK. left.
  destruct (decide (k = k')) as [<-|HN].
  - rewrite cache_insert_eq in HK. injection HK as ->. discriminate HE.
  - rewrite cache_insert_ne in HK by done. split; [|eauto]. destruct HX as [->| ->]; congruence.
Qed.

(** Entries are removed. *)
Lemma wf_shrink x f w :
  reviews_wf x w → (∀ k e, f (review_cache w) !! k = Some e → review_cache w !! k = Some e ∧ x ≠ Some k) →
  reviews_wf None (with_cache f w).
Proof. intros HW HF. apply (wf_cache x); [done|]. intros k r h agent p _ HK. left. destruct (HF _ _ HK). eauto. Qed.

Lemma lookup_delete_cache (cache : ReviewCache) k k' e : delete k cache !! k' = Some e → k ≠ k' ∧ cache !! k' = Some e.
Proof. intros HD. by apply (lookup_delete_Some (M:=gmap SessionId)) in HD. Qed.

Lemma wf_forget x k w : reviews_wf x w → x = None ∨ x = Some k → reviews_wf None (with_cache (delete k) w).
Proof.
  intros HW HX. apply (wf_shrink x); [done|]. intros k' e [HN HK]%lookup_delete_cache. split; [done|].
  destruct HX as [->| ->]; congruence.
Qed.

Lemma keeps_prune g : keeps (modify (λ w, with_cache (λ cache, prune_review_cache cache (g w) (manager_state (app_sessions w))) w)).
Proof.
  intros w HW. apply (wf_shrink None); [done|]. intros k e HK. split; [|done].
  by apply (map_lookup_filter_Some_1_1 (M:=gmap SessionId)) in HK.
Qed.

(** *** Requests that are dropped *)

Lemma discard_lookup drops k w i p :
  pending_session_diff_requests (discard_requests drops k w).2 !! i = Some p ↔
  pending_session_diff_requests w !! i = Some p ∧ (pending_session_id p = k → drops (purpose p) = false).
Proof.
  unfold discard_requests. cbn [modify snd with_requests pending_session_diff_requests].
  rewrite map_lookup_filter_Some. cbn [fst snd]. rewrite orb_true_iff, !negb_true_iff.
  apply and_iff_compat_l. destruct (str_eqb (pending_session_id p) k) eqn:E.
  - apply str_eqb_true in E. naive_solver.
  - split; [|by left]. intros _ HE. rewrite HE, str_eqb_refl in E. done.
Qed.

Lemma wf_discard drops k w : reviews_wf None w → reviews_wf (Some k) (discard_requests drops k w).2.
Proof.
  intros HW. apply (wf_drop _ None); [done|by left| |].
  - intros i p HP. by apply discard_lookup in HP as [? _].
  - intros k' i p _ HN [target ->] HP. apply (discard_lookup drops k w). split; [done|]. cbn. congruence.
Qed.

Lemma wf_discard_apply x k w :
  reviews_wf x w → reviews_wf x (discard_pending_apply_review_diff_loads k w).2.
Proof.
  intros HW. apply (wf_drop _ x); [done|by right| |].
  - intros i p HP. by apply discard_lookup in HP as [? _].
  - intros k' i p _ HN [target ->] HP. by apply (discard_lookup is_apply_focused_review k w).
Qed.

(** *** The operations *)

(** Clearing the output also ends a review whose request was taken away. *)
Lemma wf_clear x k w : reviews_wf x w → x = None ∨ x = Some k → reviews_wf None (clear_review_output k w).2.
Proof.
  intros HW HX. unfold clear_review_output.
  apply (wf_discard_apply x k), (wf_forget x k) in HW; [|done].
  set (w1 := (discard_pending_apply_review_diff_loads k w).2) in *.
  change (reviews_wf None
    ((_ ← match review_cache w1 !! k ≫= entry_diff_hash with
          | Some diff_hash => modify (with_hashes (λ m, match m !! k with Some _ => m | None => <[k := diff_hash]> m end))
          | None => mret tt end;
      on_session_state (λ st, update_for_id st k (retracted SlotReview))) (with_cache (delete k) w1)).2).
  revert HW. apply keeps_at. keep.
Qed.

Lemma keeps_clear k : keeps (clear_review_output k).
Proof. intros w HW. apply (wf_clear None); auto. Qed.

Lemma keeps_supersede_one k : keeps (_ ← discard_pending_review_action_diff_loads k; clear_review_output k).
Proof.
  intros w HW. change (reviews_wf None (clear_review_output k (discard_pending_review_action_diff_loads k w).2).2).
  apply (wf_clear (Some k)); [by apply wf_discard|by right].
Qed.

Lemma wf_set_ready x k h text w :
  reviews_wf x w → x = None ∨ x = Some k → reviews_wf None (set_review_ready_output k h text w).2.
Proof.
  intros HW HX. unfold set_review_ready_output.
  pose proof (wf_same x w (new_token w).2 eq_refl eq_refl eq_refl eq_refl eq_refl eq_refl HW) as HT.
  by eapply (wf_same None _ _), (wf_settle x k (CacheReady (next_token w) h text) _ HT eq_refl HX).
Qed.

Lemma keeps_set_ready k h text : keeps (set_review_ready_output k h text).
Proof. intros w HW. apply (wf_set_ready None); auto. Qed.

Lemma keeps_suppress k : keeps (suppress_review_output k).
Proof. intros w HW. by eapply (wf_same None), (wf_settle None k CacheSuppressed w HW); [..|by left]. Qed.

Lemma keeps_restore k : keeps (restore_review_output k).
Proof. unfold restore_review_output. keep. Qed.

Lemma keeps_remove_persistence u : keeps (remove_current_focused_review_persistence u).
Proof. unfold remove_current_focused_review_persistence. keep. Qed.
#[local] Hint Resolve keeps_clear keeps_set_ready keeps_remove_persistence keeps_prune : reviews.

Lemma keeps_persist_one retry : keeps (persist_one retry).
Proof. unfold persist_one, handle_focused_review_persistence_result. keep. Qed.

Lemma keeps_persist_retries rs : keeps (persist_focused_review_retries rs).
Proof. unfold persist_focused_review_retries. apply review_keeps_bind; [|intros _; apply keeps_prune]. keep. apply keeps_persist_one. Qed.

Lemma keeps_persist_updates us : keeps (persist_focused_review_updates us).
Proof. unfold persist_focused_review_updates. keep. apply keeps_persist_retries. Qed.

Lemma keeps_defer k : keeps (defer_auto_review_session k).
Proof. unfold defer_auto_review_session, persist_deferred_auto_review, handle_deferred_auto_review_persistence_result. keep. Qed.

Lemma keeps_deferred_retries rs : keeps (persist_deferred_auto_review_retries rs).
Proof.
  unfold persist_deferred_auto_review_retries, persist_deferred_auto_review,
    handle_deferred_auto_review_persistence_result. keep.
Qed.

Lemma keeps_clear_comments k : keeps (clear_diff_comment_progress k).
Proof. unfold clear_diff_comment_progress. keep. Qed.
#[local] Hint Resolve keeps_persist_updates keeps_defer keeps_clear_comments : reviews.

Lemma keeps_clear_persisted k : keeps (clear_persisted_review k).
Proof. unfold clear_persisted_review. keep. Qed.
#[local] Hint Resolve keeps_clear_persisted : reviews.

Lemma keeps_reply k prompt : keeps (reply k prompt).
Proof. unfold reply. keep. Qed.
#[local] Hint Resolve keeps_reply : reviews.

(** *** Loads that start *)

Lemma wf_loading_page fallback restore k allow_empty i w :
  reviews_wf None w → pending_session_diff_requests w !! i = Some (mkPending (OpenDiff allow_empty) k) →
  reviews_wf None (with_mode (ModeDiffLoading fallback i restore k) w).
Proof.
  intros [H1 H2 H3 H4 H6 H5] HI. split; [done|done|done| | |done].
  - intros HX. destruct (H4 HX). by split.
  - intros HX. destruct (H4 HX) as [_ HF _]. split; [exact (HF i _ HI)|]. intros p HP.
    cbn [with_mode pending_session_diff_requests] in HP. rewrite HI in HP. injection HP as <-. by eexists.
Qed.

Lemma keeps_start_diff_view k restore allow_empty : keeps (start_diff_view_load k restore allow_empty).
Proof.
  unfold start_diff_view_load. apply keeps_get. intros w HW. cbn beta. unfold spawn_session_diff_request, loaded_session, mbind, Am_bind, get.
  destruct (session_for_id (manager_state (app_sessions w)) k) as [s|].
  - destruct (session_diff_task_target s) as [folder source].
    pose proof (wf_spawn k (OpenDiff allow_empty) folder source w HW ltac:(done) ltac:(done)) as (HS & _ & HI).
    destruct (spawn_session_diff_request_for_target _ _ _ _ w) as [i w'].
    exact (wf_loading_page _ restore k allow_empty i w' HS HI).
  - destruct restore as [[s|s]|]; [| |exact HW].
    + exact (keeps_mode (ModePrompt s) eq_refl w HW).
    + exact (keeps_mode (ModeQuestion s) eq_refl w HW).
Qed.

Lemma keeps_start_apply k h suggestions auto_address :
  keeps (start_apply_review_diff_load_with_mode k h suggestions auto_address).
Proof.
  unfold start_apply_review_diff_load_with_mode. apply keeps_get. intros w HW. cbn beta.
  destruct (has_request w is_apply_focused_review k) eqn:EH; [exact HW|].
  unfold spawn_session_diff_request, loaded_session. unfold mbind, Am_bind, get. 
  destruct (session_for_id (manager_state (app_sessions w)) k) as [s|]; [|exact HW].
  destruct (session_diff_task_target s) as [folder source].
  pose proof (wf_spawn k (ApplyFocusedReview auto_address h suggestions) folder source w HW ltac:(done) ltac:(done)) as [HS _].
  by destruct (spawn_session_diff_request_for_target _ _ _ _ w) as [i w'].
Qed.

(** A loading placeholder appears together with the load that ends it. *)
Lemma keeps_start_review_target k is_manual target folder source :
  keeps (start_review_diff_load_for_target k is_manual target folder source).
Proof.
  unfold start_review_diff_load_for_target. apply keeps_get. intros w HW. cbn beta.
  destruct (has_request w is_review k) eqn:EH; [exact HW|].
  set (c := review_cache w !! k ≫= entry_diff_hash).
  pose proof (wf_spawn k (ReviewDiff c is_manual target) folder source w HW ltac:(done) ltac:(done)) as (HS & HC & HI).
  unfold mbind, Am_bind. destruct (spawn_session_diff_request_for_target _ _ _ _ w) as [i w']. cbn [fst snd] in HS, HC, HI.
  destruct is_manual; [|exact HS]. destruct (bool_decide (c = None)) eqn:EC; [|exact HS]. cbn [andb].
  apply bool_decide_eq_true in EC. rewrite EC in HI.
  set (agent := target_review_agent target).
  assert (reviews_wf None (with_cache (<[k := CacheLoading (next_token w') (diff_content_hash []) agent None]>) (new_token w').2)) as HK.
  { apply (wf_cache None); [by apply (wf_same None w')|]. intros k' r h a p _ HL. destruct (decide (k = k')) as [<-|HN].
    - right. right. exists i, (mkPending (ReviewDiff None true target) k). split; [exact HI|]. by exists target.
    - left. split; [done|]. exists p. symmetry. rewrite <-HL. by rewrite cache_insert_ne. }
  by eapply (wf_same None), HK.
Qed.
#[local] Hint Resolve keeps_start_review_target : reviews.

Lemma keeps_start_review k is_manual : keeps (start_review_diff_load k is_manual).
Proof. unfold start_review_diff_load. keep. Qed.

Lemma keeps_start_manual k : keeps (start_manual_review_diff_load k).
Proof. apply keeps_start_review. Qed.
#[local] Hint Resolve keeps_start_review keeps_start_manual keeps_supersede_one : reviews.

Lemma keeps_start_auto ks : keeps (start_auto_review_diff_loads ks).
Proof. unfold start_auto_review_diff_loads. keep_step. keep_step. destruct (loaded_session w a); [|keep]. destruct (is_status _ _); [apply keeps_at; auto with reviews|keep]. Qed.

Lemma keeps_start_inactive k : keeps (start_inactive_auto_review_diff_load k).
Proof. unfold start_inactive_auto_review_diff_load. keep. Qed.
#[local] Hint Resolve keeps_start_auto keeps_start_inactive : reviews.

Lemma keeps_supersede ks : keeps (supersede_review_diff_loads ks).
Proof.
  unfold supersede_review_diff_loads. keep_step.
  intros w HW. apply (wf_discard is_review_action a) in HW.
  apply (wf_clear (Some a) a) in HW; [|by right].
  change (reviews_wf None ((_ ← clear_review_output a; on_session_state (λ st, restore_session_review_status st a))
    (discard_requests is_review_action a w).2).2).
  unfold mbind, Am_bind. destruct (clear_review_output a _) as [[] w']. exact (keeps_on_session_state _ w' HW).
Qed.

Lemma keeps_start_or_defer ks : keeps (start_or_defer_auto_reviews ks).
Proof.
  unfold start_or_defer_auto_reviews. keep_step; [|auto with reviews].
  induction ks as [|k ks IH]; [apply review_keeps_ret|]. keep_step. keep_step. keep_step; [keep|]. keep_step; [exact IH|keep].
Qed.

Lemma keeps_resume ks : keeps (resume_deferred_auto_reviews ks).
Proof. unfold resume_deferred_auto_reviews. keep. Qed.

(** *** Results that arrive *)

(** The review starts, whatever took its request away. *)
Lemma wf_start_assist x k folder h diff agent w :
  reviews_wf x w → x = None ∨ x = Some k → reviews_wf None (start_review_assist k folder h diff agent w).2.
Proof.
  intros HW HX. set (a := normalize_review_agent agent).
  pose proof (wf_note x (SpawnedReview (next_token w) k folder h diff a) w HW) as HN.
  eapply (wf_same None (with_cache (<[k := CacheLoading (next_token w) h a None]>) (note (SpawnedReview (next_token w) k folder h diff a) w).2));
    [reflexivity..|].
  apply (wf_cache x); [done|]. intros k' r' h' a' p _ HL. destruct (decide (k = k')) as [<-|HK].
  - rewrite cache_insert_eq in HL. injection HL as <- <- <- <-. right. left. exists folder, diff.
    apply elem_of_app. right. by apply list_elem_of_singleton.
  - rewrite cache_insert_ne in HL by done. left. split; [|eauto]. destruct HX as [->| ->]; congruence.
Qed.

Lemma wf_fail_preparation x k error w :
  reviews_wf x w → x = None ∨ x = Some k → reviews_wf None (fail_preparation k error w).2.
Proof.
  intros HW HX.
  set (e := CacheFailed (next_token w) (diff_content_hash []) error).
  set (st := hydrate_review_transient (<[k := e]> (review_cache w)) (manager_state (app_sessions w)) k).
  set (w1 := with_sessions (on_state (λ _, st)) (with_cache (λ _, <[k := e]> (review_cache w)) (new_token w).2)).
  change (reviews_wf None ((_ ← persist_focused_review_updates
      [mkPersistence (Some (diff_content_hash [])) (next_token w) k ReviewFailed None];
    on_session_state (λ st, restore_session_review_status st k)) w1).2).
  apply keeps_at; [keep|].
  eapply (wf_same None), (wf_settle x k e w HW eq_refl HX); reflexivity.
Qed.

Lemma bind_ask {A B} (answer : nat → A) e (f : A → Am B) w :
  (ask answer e ≫= f) w = f (answer (length (app_trace w))) (note (e (answer (length (app_trace w)))) w).2.
Proof. reflexivity. Qed.

Lemma bind_get {B} (f : App → Am B) w : (get ≫= f) w = f w w.
Proof. reflexivity. Qed.

Lemma prepare_wf x k h allowed is_manual w :
  reviews_wf x w →
  let r := prepare_review_diff k h allowed is_manual w in
  reviews_wf x r.2 ∧ (is_manual = true → ∀ b, r.1 = Ok b → b = allowed).
Proof.
  intros HW. unfold prepare_review_diff. rewrite bind_ask. pose proof (wf_note x (DidLoadDiffHash k (env_load_diff_hash (length (app_trace w)) k)) w HW) as H1.
  destruct (env_load_diff_hash (length (app_trace w)) k) as [persisted|e]; [|split; [exact H1|discriminate 2]].
  set (w1 := (note _ w).2) in *. clearbody w1. rewrite bind_get. set (start := allowed && _). rewrite bind_ask.
  pose proof (wf_note x (DidStoreDiffHash k (display_Z h) start (env_store_diff_hash (length (app_trace w1)) k (display_Z h) start)) w1 H1) as H2.
  destruct (env_store_diff_hash (length (app_trace w1)) k (display_Z h) start) as [u|e]; [|split; [exact H2|discriminate 2]].
  split; [by apply (wf_frame x (with_hashes (<[k:=h]>)))|].
  intros HM b HB. injection HB as <-. unfold start. by rewrite HM, andb_true_r.
Qed.

(** The state a request leaves behind is settled by its result. *)
Definition awaits (x : option SessionId) (k : SessionId) (cached : option Z) (is_manual : bool) : Prop :=
  x = None ∨ x = Some k ∧ cached = None ∧ is_manual = true.

Lemma awaits_mine x k cached is_manual : awaits x k cached is_manual → x = None ∨ x = Some k.
Proof. intros [?|(? & _)]; auto. Qed.
#[local] Hint Resolve awaits_mine : reviews.

Lemma wf_review_diff_refused x u cached is_manual w :
  reviews_wf x w → awaits x (diff_session_id u) cached is_manual →
  reviews_wf None ((if bool_decide (cached = None) then clear_review_output (diff_session_id u) else mret tt) w).2.
Proof.
  intros HW HA. destruct (bool_decide _) eqn:E; [apply (wf_clear x); eauto with reviews|].
  destruct HA as [->|(_ & -> & _)]; [exact HW|discriminate E].
Qed.

Lemma wf_review_diff_unchanged x u cached is_manual h diff w :
  reviews_wf x w → awaits x (diff_session_id u) cached is_manual →
  (is_manual = true → is_blank diff = false → cached ≠ None) →
  reviews_wf None ((_ ← (if is_manual && is_blank diff then
                   _ ← clear_persisted_review (diff_session_id u);
                   _ ← set_review_ready_output (diff_session_id u) h REVIEW_NO_DIFF_MESSAGE; mret tt
                 else if negb is_manual && bool_decide (cached = None) then
                   _ ← clear_persisted_review (diff_session_id u); clear_review_output (diff_session_id u)
                 else mret tt);
            on_session_state (λ st, restore_session_review_status st (diff_session_id u))) w).2.
Proof.
  intros HW [->|(-> & HC & HM)] HB; [revert HW; apply keeps_at; keep|].
  rewrite HM. destruct (is_blank diff) eqn:EB; [|by destruct (HB HM eq_refl HC)]. cbn [andb].
  change (reviews_wf None ((_ ← (_ ← set_review_ready_output (diff_session_id u) h REVIEW_NO_DIFF_MESSAGE; mret tt);
    on_session_state (λ st, restore_session_review_status st (diff_session_id u)))
    (clear_persisted_review (diff_session_id u) w).2).2).
  pose proof (wf_set_ready (Some (diff_session_id u)) (diff_session_id u) h REVIEW_NO_DIFF_MESSAGE
    (clear_persisted_review (diff_session_id u) w).2 (wf_note _ _ w HW) ltac:(by right)) as HS.
  unfold mbind at 1 2, Am_bind at 1 2. destruct (set_review_ready_output _ _ _ _) as [i w']. exact (keeps_on_session_state _ w' HS).
Qed.

Lemma wf_review_diff x u cached is_manual target w :
  reviews_wf x w → awaits x (diff_session_id u) cached is_manual →
  reviews_wf None (apply_review_diff_update u cached is_manual target w).2.
Proof.
  intros HW HA. unfold apply_review_diff_update. set (k := diff_session_id u) in *. rewrite bind_get.
  match goal with |- reviews_wf None ((?m ≫= ?f) w).2 => set (m0 := m); set (f0 := f) end.
  assert (reviews_wf x (m0 w).2) as HM by (unfold m0; destruct (loaded_session w k); [exact HW|exact (wf_note x _ w HW)]).
  unfold mbind, Am_bind. clearbody m0. destruct (m0 w) as [status w1]. cbn [snd] in HM. clear HW. unfold f0. clear f0.
  destruct (negb _); [by eapply wf_review_diff_refused|].
  apply (wf_frame x (with_deferred (λ d, d ∖ {[k]}))) in HM; [|done].
  match goal with |- reviews_wf None ((modify ?g ≫= ?f) w1).2 => change (reviews_wf None (f tt (with_deferred (λ d, d ∖ {[k]}) w1)).2) end.
  cbn beta. set (w2 := with_deferred _ w1) in *. clearbody w2.
  destruct (match diff_result u with Ok diff => _ | Err e => _ end) as [diff|error]; [|apply (wf_fail_preparation x); eauto with reviews].
  set (allowed := negb (is_blank diff) && _).
  pose proof (prepare_wf x k (diff_content_hash diff) allowed is_manual w2 HM) as [HP HB].
  unfold mbind at 1, Am_bind at 1.
  destruct (prepare_review_diff k (diff_content_hash diff) allowed is_manual w2) as [r w3]. cbn [fst snd] in HP, HB.
  destruct r as [[]|error].
  - apply (wf_start_assist x); eauto with reviews.
  - apply (wf_review_diff_unchanged x u cached is_manual); [done|done|]. intros HI HE HC.
    specialize (HB HI false eq_refl). unfold allowed in HB. by rewrite HE, HC in HB.
  - apply (wf_fail_preparation x); eauto with reviews.
Qed.

Lemma wf_count_iteration k n w :
  reviews_wf None w → (0 ≤ n < MAX_AUTO_ADDRESS_REVIEW_ITERATIONS)%Z →
  reviews_wf None (with_iterations (<[k := Z.min (n + 1) 255]>) w).
Proof.
  intros HW HN. apply wf_iterate; [done|]. intros k' m HM. destruct (decide (k = k')) as [<-|HK].
  - rewrite lookup_insert_eq in HM. injection HM as <-. unfold MAX_AUTO_ADDRESS_REVIEW_ITERATIONS in *. lia.
  - rewrite lookup_insert_ne in HM by done. by eapply wf_iterations.
Qed.

Lemma keeps_apply_focused k auto_address h suggestions r :
  keeps (apply_focused_review_diff_update k auto_address h suggestions r).
Proof.
  unfold apply_focused_review_diff_update. apply keeps_get. intros w HW. cbn beta.
  destruct (review_cache w !! k) as [[| | |]|]; try exact HW. destruct (_ || _); [exact HW|].
  destruct r as [diff|error]; [|exact (wf_note _ _ w HW)]. destruct (negb _); [revert HW; apply keeps_at; keep|].
  destruct auto_address; [|revert HW; apply keeps_at; keep].
  set (completed := default 0%Z (auto_address_review_iterations w !! k)).
  destruct (negb _ || _) eqn:EC; [exact HW|]. apply orb_false_iff in EC as [_ EC]. apply Z.leb_gt in EC.
  assert (0 ≤ completed)%Z as HC.
  { unfold completed. destruct (auto_address_review_iterations w !! k) as [n|] eqn:EN; [|done].
    apply (wf_iterations _ _ HW) in EN. cbn. lia. }
  revert HW. apply keeps_at. keep_step; [auto with reviews|]. destruct a; [|keep].
  intros w' HW'. exact (wf_count_iteration k completed w' HW' ltac:(done)).
Qed.

Lemma keeps_apply_open u allow_empty : keeps (apply_open_diff_update u allow_empty).
Proof. unfold apply_open_diff_update. keep. Qed.

Lemma keeps_diff_result u : keeps (apply_session_diff_update u).
Proof.
  unfold apply_session_diff_update. apply keeps_get. intros w HW. cbn beta.
  destruct (pending_session_diff_requests w !! diff_request_id u) as [[p k]|] eqn:EP; [|exact HW].
  cbn [pending_session_id purpose]. destruct (str_eqb k (diff_session_id u)) eqn:EK; [|exact HW]. cbn [negb].
  apply str_eqb_true in EK as ->.
  match goal with |- reviews_wf None ((_ ≫= ?f) w).2 => change (reviews_wf None (f tt (with_requests (delete (diff_request_id u)) w)).2) end.
  assert (∀ x, (∀ k, x ≠ Some k → ¬ manual_load k (mkPending p (diff_session_id u))) →
    reviews_wf x (with_requests (delete (diff_request_id u)) w)) as HD.
  { intros x HX. apply (wf_drop x None); [done|by left| |].
    - intros i q [_ HQ]%lookup_delete_Some. done.
    - intros k i q _ HK HQ HI. rewrite lookup_delete_ne; [done|]. intros <-. rewrite EP in HI. injection HI as <-. by eapply HX. }
  cbn beta. destruct p as [auto_address h suggestions|allow_empty|cached is_manual target].
  - apply keeps_apply_focused, HD. intros k _ [t HT]. discriminate HT.
  - apply keeps_apply_open, HD. intros k _ [t HT]. discriminate HT.
  - destruct cached as [c|]; [|destruct is_manual].
    + apply (wf_review_diff None); [|by left]. apply HD. intros k _ [t HT]. discriminate HT.
    + apply (wf_review_diff (Some (diff_session_id u))); [|by right]. apply HD. intros k HK [t HT]. congruence.
    + apply (wf_review_diff None); [|by left]. apply HD. intros k _ [t HT]. discriminate HT.
Qed.

Lemma updates_keep_loading us cache st k r h agent p :
  (apply_review_updates cache st us).1.2 !! k = Some (CacheLoading r h agent p) →
  cache !! k = Some (CacheLoading r h agent p).
Proof.
  revert cache st. induction us as [|[k' u] us IH]; intros cache st; [done|].
  rewrite apply_review_updates_cons. cbn zeta. cbn [fst snd]. intros HK%IH. revert HK.
  destruct (is_current_generation cache k' (update_request_id u) (update_diff_hash u)) eqn:E.
  - destruct (update_current cache st k' u E) as (st' & ->). cbn [fst snd]. destruct (decide (k' = k)) as [<-|HN].
    + rewrite cache_insert_eq. by destruct (update_result u).
    + by rewrite cache_insert_ne.
  - by rewrite update_stale.
Qed.

Lemma keeps_auto_address ks : keeps (auto_address_focused_reviews ks).
Proof.
  unfold auto_address_focused_reviews. keep_step. unfold auto_address_one, start_auto_apply_review_diff_load.
  keep. apply keeps_start_apply.
Qed.
#[local] Hint Resolve keeps_auto_address : reviews.

Lemma keeps_review_results us : keeps (apply_review_results us).
Proof.
  unfold apply_review_results. apply keeps_get. intros w HW. cbn beta.
  pose proof (updates_keep_loading us (review_cache w) (manager_state (app_sessions w))) as HL.
  destruct (apply_review_updates _ _ us) as [[ps cache] st]. cbn [fst snd] in HL.
  match goal with |- reviews_wf None ((_ ≫= ?f) w).2 => change (reviews_wf None (f tt (with_cache (λ _, cache) w)).2) end.
  cbn beta. apply keeps_at; [keep|]. apply (wf_cache None); [done|]. intros k r h agent p _ HK. left. split; [done|].
  exists p. by apply HL.
Qed.

Lemma keeps_review_progress k h r p : keeps (apply_review_progress k h r p).
Proof.
  unfold apply_review_progress. apply keeps_get. intros w HW. cbn beta.
  destruct (review_cache w !! k) as [[r' h' agent q| | |]|] eqn:EK; try exact HW. destruct (_ && _); [|exact HW].
  match goal with |- reviews_wf None ((_ ≫= ?f) w).2 =>
    change (reviews_wf None (f tt (with_cache (<[k := CacheLoading r' h' agent (Some p)]>) w)).2) end.
  cbn beta. apply keeps_restore, (wf_cache None); [done|]. intros k' r2 h2 a2 p2 _ HK. left. split; [done|].
  destruct (decide (k = k')) as [<-|HN].
  - rewrite cache_insert_eq in HK. injection HK as <- <- <- <-. eauto.
  - rewrite cache_insert_ne in HK by done. eauto.
Qed.

(** A page that is left gives up its own request only. *)
Lemma keeps_cancel_diff : keeps cancel_diff_view_load.
Proof.
  unfold cancel_diff_view_load. apply keeps_get. intros w HW. cbn beta.
  destruct (app_mode w) as [| | | |fallback i restore k| | |] eqn:EM; try exact HW.
  change (reviews_wf None (modify (with_mode (restored_mode fallback restore k)) (with_requests (delete i) w)).2).
  apply keeps_mode; [apply restored_mode_plain|].
  apply (wf_drop None None); [done|by left| |].
  - by intros j q [_ HQ]%lookup_delete_Some.
  - intros k' j q HX _ [t ->] HI. rewrite lookup_delete_ne; [done|]. intros <-.
    pose proof (wf_page _ _ HW HX) as HM. unfold wf_mode in HM. rewrite EM in HM. destruct HM as [_ HM].
    destruct (HM _ HI) as [a HA]. discriminate HA.
Qed.

Lemma keeps_refresh : keeps refresh_reviews.
Proof.
  intros w HW. eapply (wf_same None), (keeps_prune pending_focused_review_persistence w HW); reflexivity.
Qed.

Lemma review_keeps_delete k : keeps (delete_session_reviews k).
Proof.
  intros w HW. unfold delete_session_reviews, discard_deleted_session_diff_state.
  assert (reviews_wf (Some k) (with_requests (filter (λ kv, str_eqb (pending_session_id kv.2) k = false)) w)) as HR.
  { apply (wf_drop _ None); [done|by left| |].
    - by intros i q [HQ _]%map_lookup_filter_Some.
    - intros k' i q _ HN [t ->] HI. apply map_lookup_filter_Some. split; [done|]. cbn.
      destruct (str_eqb k' k) eqn:E; [|done]. apply str_eqb_true in E. congruence. }
  apply (wf_forget (Some k) k) in HR; [|by right].
  apply (wf_iterate None (delete k)) in HR.
  - eapply (wf_same None), HR; reflexivity.
  - intros k' n [_ HN]%lookup_delete_Some. by apply (wf_iterations _ _ HW) in HN.
Qed.

Lemma rows_not_loading rows (cache : ReviewCache) token k e :
  (∀ k e, cache !! k = Some e → is_loading e = false) →
  (fold_left (λ '(cache, token) row,
    match parse_usize (row_diff_hash row) with
    | None => (cache, token)
    | Some diff_hash => (<[row_session_id row := CacheReady token diff_hash (row_text row)]> cache, (token + 1)%Z)
    end) rows (cache, token)).1 !! k = Some e → is_loading e = false.
Proof.
  revert cache token. induction rows as [|row rows IH]; intros cache token HC; [apply HC|].
  cbn [fold_left]. destruct (parse_usize (row_diff_hash row)) as [h|]; [|by apply IH].
  apply IH. intros k' e'. destruct (decide (row_session_id row = k')) as [<-|HN].
  - rewrite cache_insert_eq. by intros [= <-].
  - rewrite cache_insert_ne by done. apply HC.
Qed.

Lemma keeps_load_reviews rows : keeps (load_persisted_reviews rows).
Proof.
  intros w HW. unfold load_persisted_reviews. cbn [modify snd].
  pose proof (rows_not_loading rows ∅ (next_token w)) as HL. fold (review_cache_from_rows rows (next_token w)) in HL.
  destruct (review_cache_from_rows rows (next_token w)) as [loaded token]. cbn [fst] in HL.
  eapply (wf_same None (with_cache (λ c, c ∪ loaded) w)); [reflexivity..|]. apply (wf_cache None); [done|].
  intros k r h agent p _ HK. apply (lookup_union_Some_raw (M:=gmap SessionId)) in HK as [HK|[_ HK]].
  - left. split; [done|]. by exists p.
  - apply HL in HK; [discriminate HK|]. intros k' e' HE. discriminate HE.
Qed.

Lemma keeps_open_review k : keeps (open_review_output_mode k).
Proof. unfold open_review_output_mode. keep. Qed.

Lemma keeps_regenerate k : keeps (regenerate_review k).
Proof. unfold regenerate_review. keep. Qed.

Lemma app_step_wf w w' : app_step w w' → reviews_wf None w → reviews_wf None w'.
Proof.
  intros HS HW. destruct HS.
  - by apply keeps_diff_result.
  - by apply keeps_review_results.
  - by apply keeps_review_progress.
  - by apply keeps_persist_retries.
  - by apply keeps_deferred_retries.
  - by apply keeps_start_or_defer.
  - by apply keeps_resume.
  - by apply keeps_supersede.
  - by apply keeps_open_review.
  - by apply keeps_regenerate.
  - by apply keeps_start_apply.
  - by apply keeps_start_diff_view.
  - by apply keeps_cancel_diff.
  - by apply (wf_frame None).
  - by apply keeps_reply.
  - apply (wf_iterate None); [done|]. intros k' n [_ HN]%lookup_delete_Some. by apply (wf_iterations _ _ HW) in HN.
  - by apply keeps_suppress.
  - by apply keeps_restore.
  - by apply keeps_refresh.
  - by apply review_keeps_delete.
  - by apply keeps_load_reviews.
  - by apply (wf_frame None).
  - by apply keeps_mode.
Qed.

Lemma reachable_wf w0 w : app_initial w0 → rtc app_step w0 w → reviews_wf None w.
Proof.
  intros HI HR. apply initial_wf in HI. induction HR as [|w1 w2 w3 HS _ IH]; [done|]. apply IH. by eapply app_step_wf.
Qed.

(** A review that is shown as loading always has work that ends it.  Whatever commands and events came before, in
    any order, the loading entry of a session belongs either to a review task that was started under its token, hash
    and agent, or to a manual load of the session's diff that was started and whose answer is still awaited; no entry
    is left loading with nothing behind it.  (Fewer than 2^64 - 1 calls were made, so the request counter did not wrap.) *)
Theorem loading_reviews_have_work w0 w k r h agent p :
  app_initial w0 → rtc app_step w0 w → (Z.of_nat (length (app_trace w)) < 2 ^ 64 - 1)%Z →
  review_cache w !! k = Some (CacheLoading r h agent p) →
  (∃ folder diff, SpawnedReview r k folder h diff agent ∈ app_trace w) ∨
  (∃ i target folder source,
    pending_session_diff_requests w !! i = Some (mkPending (ReviewDiff None true target) k) ∧
    SpawnedDiff i k folder source ∈ app_trace w).
Proof.
  intros HI HR HL HK. pose proof (reachable_wf w0 w HI HR) as HW.
  destruct (wf_work _ _ HW HL k r h agent p ltac:(done) HK) as [?|(i & q & HQ & target & ->)]; [by left|]. right.
  destruct (fresh_spawned _ (wf_fresh _ _ HW HL) i _ HQ) as (folder & source & HS). by exists i, target, folder, source.
Qed.

(** The foreground does bounded work for a session.  In every reachable state a session has at most one pending
    load that may start a review and at most one that may apply its suggestions, and the automatic answers since the
    last prompt of the user were at most MAX_AUTO_ADDRESS_REVIEW_ITERATIONS. *)
Theorem review_work_is_bounded w0 w :
  app_initial w0 → rtc app_step w0 w →
  (∀ wanted, wanted = is_review ∨ wanted = is_apply_focused_review → ∀ i j p q,
    pending_session_diff_requests w !! i = Some p → pending_session_diff_requests w !! j = Some q →
    wanted (purpose p) = true → wanted (purpose q) = true → pending_session_id p = pending_session_id q → i = j) ∧
  (∀ k n, auto_address_review_iterations w !! k = Some n → (0 < n ≤ MAX_AUTO_ADDRESS_REVIEW_ITERATIONS)%Z).
Proof.
  intros HI HR. destruct (reachable_wf w0 w HI HR) as [H1 H2 H3 _ _ _]. split; [|done]. by intros wanted [->| ->].
Qed.
End operations.

(** *** Writes *)

Section writes.
Context `{FxHasher} `{!AppEnvironment}.

(** What one write or one scheduled attempt must be, judged in the state [w]. *)
Definition current_write (rs : list FocusedReviewPersistenceRetry) (w : App) (e : AppEffect) : Prop :=
  match e with
  | DidPersistReview k status diff_hash text _ => ∃ u entry,
      pending_focused_review_persistence w !! k = Some u ∧ review_cache w !! k = Some entry ∧
      matches_persistence entry u = true ∧ status = Some (persisted_status u) ∧
      diff_hash = display_Z <$> persisted_diff_hash u ∧ text = persisted_text u
  | SpawnedReviewRetry later => ∃ earlier, earlier ∈ rs ∧ persistence_update later = persistence_update earlier ∧
      (attempt earlier < MAX_FOCUSED_REVIEW_PERSISTENCE_RETRIES)%Z ∧
      (attempt later = Z.min (attempt earlier + 1) 255)%Z
  | _ => False
  end.

Definition wrote (rs : list FocusedReviewPersistenceRetry) (w w' : App) : Prop :=
  review_cache w' = review_cache w ∧
  pending_focused_review_persistence w' ⊆ pending_focused_review_persistence w ∧
  ∃ es, app_trace w' = app_trace w ++ es ∧ Forall (current_write rs w) es.

Lemma remove_persistence_sub u w :
  pending_focused_review_persistence (remove_current_focused_review_persistence u w).2 ⊆ pending_focused_review_persistence w.
Proof.
  unfold remove_current_focused_review_persistence. cbn [modify snd with_persistence pending_focused_review_persistence].
  destruct (bool_decide _); [apply delete_subseteq|done].
Qed.

Lemma persist_one_wrote rs retry w : retry ∈ rs → wrote rs w (persist_one retry w).2.
Proof.
  intros HI. set (u := persistence_update retry). set (k := persisted_session_id u).
  assert (∀ w', wrote rs w w' → wrote rs w (remove_current_focused_review_persistence u w').2) as HD.
  { intros w' (HC & HP & HT). split_and!; [done| |done]. etrans; [apply remove_persistence_sub|done]. }
  unfold persist_one. fold u. fold k. rewrite bind_get. destruct (_ || _) eqn:EG.
  { apply HD. split_and!; [done|done|]. exists []. by rewrite app_nil_r. }
  apply orb_false_iff in EG as [EP%negb_false_iff EM%negb_false_iff]. apply bool_decide_eq_true in EP.
  destruct (review_cache w !! k) as [entry|] eqn:EK; [|discriminate EM]. rewrite bind_ask.
  set (r := env_persist_review _ _ _ _ _). set (write := DidPersistReview k _ _ _ r). set (w1 := (note write w).2).
  assert (current_write rs w write) as HWR by (by exists u, entry).
  assert (wrote rs w w1) as H1 by (split_and!; [done|done|exists [write]; split; [done|by constructor]]).
  unfold handle_focused_review_persistence_result. destruct r as [[]|error]; [by apply HD|].
  destruct (retry_next retry) as [later|] eqn:EN; [|by apply HD].
  split_and!; [done|done|]. exists [write; SpawnedReviewRetry later]. split; [exact (eq_sym (app_assoc (app_trace w) [write] [SpawnedReviewRetry later]))|].
  repeat constructor; [done|]. exists retry. unfold retry_next in EN. destruct (_ <? _)%Z eqn:EL; [|discriminate EN].
  injection EN as <-. apply Z.ltb_lt in EL. done.
Qed.

Lemma wrote_then rs w1 w2 w3 : wrote rs w1 w2 → wrote rs w2 w3 → wrote rs w1 w3.
Proof.
  intros (HC & HP & es & HT & HE) (HC' & HP' & es' & HT' & HE'). split_and!; [congruence|by etrans|].
  exists (es ++ es'). split; [by rewrite HT', HT, app_assoc|]. apply Forall_app. split; [done|].
  eapply Forall_impl; [exact HE'|]. intros [] HX; try done. destruct HX as (u & entry & HU & HK & HX).
  exists u, entry. rewrite <-HC. split_and!; [by eapply lookup_weaken|done|apply HX..].
Qed.

Lemma for_each_wrote rs l w : l ⊆ rs → wrote rs w (for_each persist_one l w).2.
Proof.
  revert w. induction l as [|a l IH]; intros w HL; cbn [for_each].
  - split_and!; [done|done|]. exists []. by rewrite app_nil_r.
  - eapply wrote_then; [apply (persist_one_wrote rs a w), HL, elem_of_cons; by left|].
    unfold mbind, Am_bind. destruct (persist_one a w) as [[] w']. apply IH. set_solver.
Qed.

(** Only the current review of a session is written, and a write is tried a bounded number of times.  Whatever
    attempts are delivered, late, twice or for reviews that were replaced in the meantime, each write that is made
    stores the status, hash and text of the pending generation, which is the one in the cache at that time; each
    further attempt continues a delivered one with the same content, and only below the limit. *)
Theorem review_writes_are_current rs w :
  ∃ es, app_trace (persist_focused_review_retries rs w).2 = app_trace w ++ es ∧
    Forall (λ e, match e with
      | DidPersistReview k status diff_hash text _ => ∃ u entry,
          pending_focused_review_persistence w !! k = Some u ∧ review_cache w !! k = Some entry ∧
          matches_persistence entry u = true ∧ status = Some (persisted_status u) ∧
          diff_hash = display_Z <$> persisted_diff_hash u ∧ text = persisted_text u
      | SpawnedReviewRetry later => ∃ earlier, earlier ∈ rs ∧ persistence_update later = persistence_update earlier ∧
          (attempt earlier < MAX_FOCUSED_REVIEW_PERSISTENCE_RETRIES)%Z ∧
          (attempt later = Z.min (attempt earlier + 1) 255)%Z
      | _ => False
      end) es.
Proof.
  destruct (for_each_wrote rs rs w) as (_ & _ & es & HT & HE); [done|]. exists es. split; [|exact HE].
  unfold persist_focused_review_retries, mbind, Am_bind. by destruct (for_each persist_one rs w) as [[] w'].
Qed.
End writes.

(** ** A run *)

Module ReviewDemo.

(** Every call succeeds; nothing is stored yet. *)
#[local] Instance calm : AppEnvironment := {|
  env_defer _ _ := Ok true; env_persist_review _ _ _ _ _ := Ok tt; env_load_diff_hash _ _ := Ok None;
  env_store_diff_hash _ _ _ _ := Ok tt; env_load_session _ _ := Ok None; env_queue_preparation _ _ := Ok false;
  env_reply _ _ _ := true; env_review_agent _ := (mkAgentSelection Codex Gpt56Sol, Medium, Normal);
  env_project_review_agent _ _ := (mkAgentSelection Codex Gpt56Sol, Medium, Normal); env_base_path := L"/home"
|}.

Definition key : SessionId := L"a".

Definition start : App :=
  mkApp (mkManager ∅ (SessionState_new ∅ [sample_session key None Lifecycle.Review] None 1 0) ∅ ∅ ∅ ∅ [])
    ∅ ∅ ∅ ∅ ∅ ∅ ∅ ModeList 10 1 [].

Lemma start_initial : app_initial start.
Proof. split; try reflexivity. intros k e HK. discriminate HK. Defined.

Definition opened : App := (open_review_output_mode key start).2.

Lemma opened_reachable : rtc app_step start opened.
Proof. apply rtc_once. exact (step_open_review start key). Defined.

Lemma loading_reviews_have_work_witness :
  pending_session_id <$> pending_session_diff_requests opened !! 1%Z = Some key ∧
  ∃ e, e ∈ app_trace opened ∧ match e with SpawnedDiff _ k _ _ | SpawnedReview _ k _ _ _ _ => k = key | _ => False end.
Proof.
  split; [vm_compute; reflexivity|].
  destruct (loading_reviews_have_work start opened key 10 (diff_content_hash [])
    (mkAgentSelection Codex Gpt56Sol, Medium, Normal) None start_initial opened_reachable)
    as [(f & d & HI)|(i & t & f & src & _ & HI)]; [vm_compute; reflexivity|vm_compute; reflexivity|by eexists|by eexists].
Defined.

Lemma review_work_is_bounded_witness :
  length (map_to_list (pending_session_diff_requests opened)) = 1 ∧
  ∀ i p, pending_session_diff_requests opened !! i = Some p → is_review (purpose p) = true →
    pending_session_id p = key → i = 1%Z.
Proof.
  split; [vm_compute; reflexivity|]. intros i p HP HR HK.
  destruct (review_work_is_bounded start opened start_initial opened_reachable) as [HU _].
  assert (∃ q, pending_session_diff_requests opened !! 1%Z = Some q ∧ is_review (purpose q) = true ∧ pending_session_id q = key) as (q & HQ & HW & HS)
    by (eexists; split_and!; [vm_compute; reflexivity|reflexivity|reflexivity]).
  eapply (HU is_review); [by left|done|done|done|done|congruence].
Defined.

(** *** A regeneration that is lost *)

(** An automatic check of the unchanged diff is pending when the user asks for a
    new review: the old review is dropped, no load is started for the new one,
    and the answer of the check starts nothing. *)
Definition reviewed : App :=
  with_cache (λ _, {[ key := CacheReady 5 (diff_content_hash (L"diff")) (L"fine") ]}) start.

Definition lost : App :=
  let w := (start_or_defer_auto_reviews [key] reviewed).2 in
  let w := (regenerate_review key w).2 in
  (apply_session_diff_update (mkDiffUpdate 1 (Ok (L"diff")) key) w).2.

Lemma regeneration_is_lost :
  review_cache lost !! key = None ∧ map_to_list (pending_session_diff_requests lost) = [] ∧
  existsb (λ e, match e with SpawnedReview _ _ _ _ _ _ => true | _ => false end) (app_trace lost) = false.
Proof. vm_compute. done. Qed.

(** Without the pending check the same request starts a review. *)
Lemma regeneration_alone_starts :
  existsb (λ e, match e with SpawnedReview _ _ _ _ _ _ => true | _ => false end)
    (app_trace (apply_session_diff_update (mkDiffUpdate 1 (Ok (L"diff")) key) (regenerate_review key reviewed).2).2) = true.
Proof. vm_compute. done. Qed.
End ReviewDemo.
