(* ===== verification/Slash.v ===== *)
(** * Slash commands of the prompt composer (crates/agentty/src/domain/composer.rs)

    The slash-menu state, the rows shown for each stage and the action behind
    the highlighted row. *)
From S2P Require Import Prelude Contracts Agent.

Record PromptSuggestionItem := mkSuggestion {
  badge : option str;
  detail : option str;
  label : str;
  metadata : option str
}.

Record PromptSuggestionList := mkSuggestionList {
  items : list PromptSuggestionItem;
  list_selected_index : nat;
  list_title : str
}.

(** [PersonalitySummary] (ag-session/src/personality.rs). *)
Record PersonalitySummary := mkPersonality {
  personality_description : str;
  personality_summary_id : str;
  personality_name : str
}.

Inductive PromptSuggestionSelection :=
| SelectCommand (command : str)
| SelectAgent (k : AgentKind)
| SelectModel (selection : AgentSelection)
| SelectMode (mode : PermissionMode)
| SelectPersonality (personality : option PersonalitySummary)
| SelectReasoning (level : ReasoningLevel)
| SelectStyle (style : ResponseStyle)
| SelectSpeed (speed : SpeedMode).

Inductive PromptSlashStage :=
| StageAgent | StageCommand | StageModel | StageMode | StagePersonality | StageReasoning
| StageStyle | StageSpeed.

#[global] Instance PromptSlashStage_eq_dec : EqDecision PromptSlashStage.
Proof. solve_decision. Defined.

Record PromptSlashState := mkSlash {
  available_agent_kinds : list AgentKind;
  personalities : list PersonalitySummary;
  selected_agent : option AgentKind;
  slash_selected_index : nat;
  stage : PromptSlashStage
}.

Definition with_available_agent_kinds (kinds : list AgentKind) : PromptSlashState :=
  {| available_agent_kinds := kinds; personalities := []; selected_agent := None;
     slash_selected_index := 0; stage := StageCommand |}.

Definition PromptSlashState_default : PromptSlashState := with_available_agent_kinds AgentKind_ALL.

Definition replace_available_agent_kinds (self : PromptSlashState) (kinds : list AgentKind)
  : PromptSlashState :=
  let stale := match selected_agent self with
               | Some k => negb (bool_decide (k ∈ kinds))
               | None => false
               end in
  if stale then
    {| available_agent_kinds := kinds; personalities := personalities self;
       selected_agent := None; slash_selected_index := 0;
       stage := match stage self with StageModel => StageAgent | s => s end |}
  else
    {| available_agent_kinds := kinds; personalities := personalities self;
       selected_agent := selected_agent self; slash_selected_index := slash_selected_index self;
       stage := stage self |}.

Definition PromptSlashState_reset (self : PromptSlashState) : PromptSlashState :=
  {| available_agent_kinds := available_agent_kinds self; personalities := [];
     selected_agent := None; slash_selected_index := 0; stage := StageCommand |}.

(** ** Matching commands *)

Definition command_description (command : str) : str :=
  default (L"Prompt slash command.")
    (match_str command
      [(L"/apply", L"Verify focused-review suggestions, then apply the correct ones.");
       (L"/mode", L"Choose editing permissions and focused-review automation.");
       (L"/model", L"Choose an agent and model for this session.");
       (L"/personality", L"List: .agents/agents/. Choose a personality for this session.");
       (L"/reasoning", L"Override the reasoning level for this session.");
       (L"/style", L"Control how concise or detailed responses are.");
       (L"/speed", L"Choose normal or fast responses for this session.")]).

Record SubsequenceScan := mkScan {
  gap_count : nat;
  first_match_index : option nat;
  last_match_index : option nat
}.

(** The loop of the subsequence match: the rest of the query and the gaps. *)
Fixpoint subsequence_scan (command_name : str) (command_index : nat) (query : str)
    (scan : SubsequenceScan) : str * SubsequenceScan :=
  match command_name with
  | [] => (query, scan)
  | command_char :: rest =>
      match query with
      | [] => ([], scan)
      | query_char :: query' =>
          if (command_char =? query_char)%N then
            subsequence_scan rest (S command_index) query'
              {| gap_count := gap_count scan
                   + match last_match_index scan with
                     | Some previous => command_index - (previous + 1)
                     | None => 0
                     end;
                 first_match_index := match first_match_index scan with
                                      | Some i => Some i
                                      | None => Some command_index
                                      end;
                 last_match_index := Some command_index |}
          else subsequence_scan rest (S command_index) query scan
      end
  end.

Definition slash_command_fuzzy_score (command lowered_query : str) : option nat :=
  let command_name := trim_start_matches (N.eqb slash) command in
  let query := trim_start_matches (N.eqb slash) lowered_query in
  if is_empty query then Some 0
  else if str_eqb command_name query then Some 0
  else if starts_with command_name query then Some 1
  else match str_find command_name query with
       | Some match_start => Some (100 + match_start)
       | None =>
           let '(left_over, scan) := subsequence_scan command_name 0 query (mkScan 0 None None) in
           if is_empty left_over
           then Some (200 + default 0 (first_match_index scan) * 2 + gap_count scan)
           else None
       end.

Definition SLASH_COMMANDS : list str :=
  [L"/apply"; L"/mode"; L"/model"; L"/personality"; L"/reasoning"; L"/style"; L"/speed"].

(** [!command.eq("/apply")] and [!command.eq("/speed")] guards of [retain]. *)
Definition command_enabled (session_agent_kind : AgentKind) (allow_apply_command : bool)
    (command : str) : bool :=
  (allow_apply_command || negb (str_eqb command (L"/apply")))
  && (supports_speed_mode session_agent_kind || negb (str_eqb command (L"/speed"))).

Definition command_matches (lowered command : str) : bool :=
  match slash_command_fuzzy_score command lowered with Some _ => true | None => false end.

Definition command_score (lowered command : str) : Z :=
  Z.of_nat (default 0 (slash_command_fuzzy_score command lowered)).

Definition prompt_slash_commands `{UnicodeCase} (input : str) (session_agent_kind : AgentKind)
    (allow_apply_command : bool) : list str :=
  let lowered := str_to_lowercase input in
  let commands := List.filter (command_enabled session_agent_kind allow_apply_command) SLASH_COMMANDS in
  let commands := List.filter (command_matches lowered) commands in
  sort_by_key (command_score lowered) commands.

(** ** Rows and actions *)

Definition suggestion (d : option str) (l : str) : PromptSuggestionItem :=
  {| badge := None; detail := d; label := l; metadata := None |}.

Definition reasoning_suggestion_items : list PromptSuggestionItem :=
  (λ l, suggestion (Some (ReasoningLevel_description l)) (ReasoningLevel_as_str l)) <$> ReasoningLevel_ALL.

Definition response_style_suggestion_items : list PromptSuggestionItem :=
  (λ s, suggestion (Some (ResponseStyle_description s)) (ResponseStyle_name s)) <$> ResponseStyle_ALL.

Definition speed_suggestion_items : list PromptSuggestionItem :=
  (λ s, suggestion (Some (SpeedMode_description s)) (SpeedMode_name s)) <$> SpeedMode_ALL.

Definition permission_mode_suggestion_items : list PromptSuggestionItem :=
  (λ m, suggestion (Some (PermissionMode_description m)) (PermissionMode_display_label m))
    <$> PermissionMode_ALL.

Definition personality_suggestion_items (ps : list PersonalitySummary) : list PromptSuggestionItem :=
  if is_empty ps then [suggestion None (L"No personalities found in `.agents/agents`.")]
  else
    suggestion (Some (L"Use the agent's default behavior.")) (L"None (default)")
    :: ((λ p, suggestion (Some (personality_description p)) (personality_name p)) <$> ps).

Definition clamp_selected_index (selected_index option_count : nat) : nat :=
  selected_index `min` (option_count - 1).

Definition resolve_model_stage_agent (session_agent_kind : AgentKind) (kinds : list AgentKind)
    (selected : option AgentKind) : option AgentKind :=
  match selected with
  | Some k => Some k
  | None => resolve_prompt_model_agent_kind session_agent_kind kinds
  end.

Definition stage_rows `{UnicodeCase} (input : str) (slash_state : PromptSlashState)
    (session_agent_kind : AgentKind) (allow_apply_command : bool)
  : option (str * list PromptSuggestionItem) :=
  match stage slash_state with
  | StageCommand =>
      Some (L"Slash Command (j/k move, Enter select)",
            (λ c, suggestion (Some (command_description c)) c)
              <$> prompt_slash_commands input session_agent_kind allow_apply_command)
  | StageAgent =>
      Some (L"/model Agent (j/k move, Enter select)",
            (λ k, suggestion (Some (AgentKind_description k)) (AgentKind_name k))
              <$> available_agent_kinds slash_state)
  | StageModel =>
      k ← resolve_model_stage_agent session_agent_kind (available_agent_kinds slash_state)
            (selected_agent slash_state);
      Some (L"/model Model (j/k move, Enter select)",
            (λ m, suggestion (Some (AgentModel_description m)) (AgentModel_provider_model_str m))
              <$> models k)
  | StageMode => Some (L"/mode (j/k move, Enter select)", permission_mode_suggestion_items)
  | StagePersonality =>
      Some (L"/personality (j/k move, Enter select)",
            personality_suggestion_items (personalities slash_state))
  | StageReasoning => Some (L"/reasoning Level (j/k move, Enter select)", reasoning_suggestion_items)
  | StageStyle =>
      Some (L"/style Response style (j/k move, Enter select)", response_style_suggestion_items)
  | StageSpeed => Some (L"/speed Mode (j/k move, Enter select)", speed_suggestion_items)
  end.

Definition build_slash_suggestion_list `{UnicodeCase} (input : str) (slash_state : PromptSlashState)
    (session_agent_kind : AgentKind) (allow_apply_command : bool) : option PromptSuggestionList :=
  if negb (starts_with input [slash]) then None
  else
    '(title, rows) ← stage_rows input slash_state session_agent_kind allow_apply_command;
    if is_empty rows then None
    else
      let max_index := length rows - 1 in
      Some {| items := rows; list_selected_index := slash_selected_index slash_state `min` max_index;
              list_title := title |}.

Definition selected_slash_action `{UnicodeCase} (input : str) (slash_state : PromptSlashState)
    (session_agent_kind : AgentKind) (allow_apply_command : bool)
  : option PromptSuggestionSelection :=
  let index := slash_selected_index slash_state in
  match stage slash_state with
  | StageCommand =>
      let commands := prompt_slash_commands input session_agent_kind allow_apply_command in
      SelectCommand <$> commands !! clamp_selected_index index (length commands)
  | StageAgent =>
      SelectAgent <$> available_agent_kinds slash_state
                        !! clamp_selected_index index (length (available_agent_kinds slash_state))
  | StageModel =>
      k ← resolve_model_stage_agent session_agent_kind (available_agent_kinds slash_state)
            (selected_agent slash_state);
      m ← models k !! clamp_selected_index index (length (models k));
      Some (SelectModel (AgentSelection_new k m))
  | StageMode =>
      SelectMode <$> PermissionMode_ALL !! clamp_selected_index index (length PermissionMode_ALL)
  | StagePersonality =>
      if is_empty (personalities slash_state) then None
      else if decide (index = 0) then Some (SelectPersonality None)
      else (λ p, SelectPersonality (Some p))
             <$> personalities slash_state
                   !! clamp_selected_index (index - 1) (length (personalities slash_state))
  | StageReasoning =>
      SelectReasoning <$> ReasoningLevel_ALL !! clamp_selected_index index (length ReasoningLevel_ALL)
  | StageStyle =>
      SelectStyle <$> ResponseStyle_ALL !! clamp_selected_index index (length ResponseStyle_ALL)
  | StageSpeed =>
      SelectSpeed <$> SpeedMode_ALL !! clamp_selected_index index (length SpeedMode_ALL)
  end.

Definition prompt_slash_option_count `{UnicodeCase} (input : str) (s : PromptSlashStage)
    (selected : option AgentKind) (kinds : list AgentKind) (ps : list PersonalitySummary)
    (session_agent_kind : AgentKind) (allow_apply_command : bool) : nat :=
  match build_slash_suggestion_list input
          {| available_agent_kinds := kinds; personalities := ps; selected_agent := selected;
             slash_selected_index := 0; stage := s |}
          session_agent_kind allow_apply_command with
  | Some suggestions => length (items suggestions)
  | None => 0
  end.

(** ** Lemmas *)

Lemma subsequence_scan_left name i query scan :
  (subsequence_scan name i query scan).1 = greedy query name.
Proof.
  revert i query scan. induction name as [|c name IH]; intros i query scan; [done|]. simpl.
  destruct query as [|x query]; [done|]. destruct (N.eqb_spec c x) as [->|Hne].
  - by rewrite decide_True, IH.
  - by rewrite decide_False, IH by congruence.
Qed.

Lemma sublist_infix {A} (q pre post : list A) : q `sublist_of` pre ++ q ++ post.
Proof. apply sublist_inserts_l, sublist_inserts_r. done. Qed.

(** A command matches when the query is a subsequence of its name. *)
Lemma slash_command_fuzzy_score_Some command query :
  is_Some (slash_command_fuzzy_score command query) ↔
  trim_start_matches (N.eqb slash) query `sublist_of` trim_start_matches (N.eqb slash) command.
Proof.
  unfold slash_command_fuzzy_score. set (name := trim_start_matches _ command).
  set (q := trim_start_matches _ query).
  destruct (is_empty q) eqn:E1.
  { apply is_empty_true in E1 as ->. split; [intros; apply sublist_nil_l|by eauto]. }
  destruct (str_eqb name q) eqn:E2; [apply str_eqb_true in E2 as ->; by split; [|eauto]|].
  destruct (starts_with name q) eqn:E3.
  { apply starts_with_true in E3 as [post ->]. split; [|by eauto]. intros _. apply (sublist_infix q []). }
  destruct (str_find name q) as [k|] eqn:E4.
  { apply str_find_Some in E4 as (pre & post & -> & _). split; [|by eauto]. intros _. apply sublist_infix. }
  pose proof (subsequence_scan_left name 0 q (mkScan 0 None None)) as Hleft.
  destruct (subsequence_scan name 0 q _) as [left_over scan]. simpl in Hleft. subst left_over.
  rewrite <- greedy_sublist. destruct (greedy q name); simpl; [by split; [|eauto]|].
  split; [by intros []|done].
Qed.

Lemma clamp_lookup {A} (l : list A) i :
  l ≠ [] → ∃ x, l !! clamp_selected_index i (length l) = Some x.
Proof.
  intros Hne. apply lookup_lt_is_Some_2. unfold clamp_selected_index. destruct l; [done|]. simpl. lia.
Qed.

(** The row shown for an action. *)
Definition selection_label (a : PromptSuggestionSelection) : str :=
  match a with
  | SelectCommand c => c
  | SelectAgent k => AgentKind_name k
  | SelectModel s => AgentModel_provider_model_str (model s)
  | SelectMode m => PermissionMode_display_label m
  | SelectPersonality None => L"None (default)"
  | SelectPersonality (Some p) => personality_name p
  | SelectReasoning l => ReasoningLevel_as_str l
  | SelectStyle s => ResponseStyle_name s
  | SelectSpeed s => SpeedMode_name s
  end.

(** A mapped menu: the clamped row and the clamped element belong together. *)
Lemma menu_row {A} (f : A → PromptSuggestionItem) (g : A → PromptSuggestionSelection) (l : list A) i :
  (∀ x, x ∈ l → selection_label (g x) = label (f x)) → f <$> l ≠ [] →
  ∃ a row, g <$> l !! clamp_selected_index i (length l) = Some a
    ∧ (f <$> l) !! (i `min` (length (f <$> l) - 1)) = Some row ∧ label row = selection_label a.
Proof.
  intros Hlabel Hne. destruct (clamp_lookup l i) as [x Hx]; [by intros ->|].
  exists (g x), (f x). rewrite Hx, length_fmap, list_lookup_fmap.
  unfold clamp_selected_index in Hx. rewrite Hx. split_and!; [done..|].
  symmetry. apply Hlabel. by eapply list_elem_of_lookup_2.
Qed.

(** The personality menu is a menu over an optional personality. *)
Definition personality_row (p : option PersonalitySummary) : PromptSuggestionItem :=
  match p with
  | None => suggestion (Some (L"Use the agent's default behavior.")) (L"None (default)")
  | Some p => suggestion (Some (personality_description p)) (personality_name p)
  end.

Lemma personality_rows p ps :
  personality_suggestion_items (p :: ps) = personality_row <$> (None :: (Some <$> (p :: ps))).
Proof. unfold personality_suggestion_items. simpl. do 2 f_equal. by rewrite <- list_fmap_compose. Qed.

Lemma personality_action p ps i :
  (if decide (i = 0) then Some (SelectPersonality None)
   else (λ p, SelectPersonality (Some p)) <$> (p :: ps) !! clamp_selected_index (i - 1) (length (p :: ps)))
  = SelectPersonality <$> (None :: (Some <$> (p :: ps)))
      !! clamp_selected_index i (length (None :: (Some <$> (p :: ps)))).
Proof.
  unfold clamp_selected_index. destruct i as [|i]; [done|]. rewrite decide_False by done.
  replace (S i `min` (length (None :: (Some <$> (p :: ps))) - 1))
    with (S ((S i - 1) `min` (length (p :: ps) - 1))).
  2:{ simpl. rewrite length_fmap. lia. }
  change ((None :: ?l) !! S ?n) with (l !! n). rewrite list_lookup_fmap.
  by destruct ((p :: ps) !! _).
Qed.

Lemma supports_model_models k m : m ∈ models k → model (AgentSelection_new k m) = m.
Proof.
  intros Hm. unfold AgentSelection_new. simpl. assert (E : supports_model k m = true); [|by rewrite E].
  unfold supports_model. by apply bool_decide_eq_true.
Qed.

(** ** Properties *)

(** the slash menu lists exactly the enabled commands whose name contains
    the lowercase query as a subsequence, without repetition and in the order
    of their match score. *)
Theorem prompt_slash_commands_spec `{UnicodeCase} input k allow_apply :
  let q := trim_start_matches (N.eqb slash) (str_to_lowercase input) in
  let commands := prompt_slash_commands input k allow_apply in
  (∀ c, c ∈ commands ↔ c ∈ SLASH_COMMANDS ∧ command_enabled k allow_apply c = true
        ∧ q `sublist_of` trim_start_matches (N.eqb slash) c)
  ∧ NoDup commands
  ∧ StronglySorted (λ a b, (command_score (str_to_lowercase input) a
                            <=? command_score (str_to_lowercase input) b)%Z = true) commands.
Proof.
  intros q commands. unfold commands, prompt_slash_commands. split_and!.
  - intros c. unfold sort_by_key. rewrite sort_by_elem, !elem_of_filter_b.
    assert (Hm : command_matches (str_to_lowercase input) c = true ↔
      q `sublist_of` trim_start_matches (N.eqb slash) c).
    { unfold q. rewrite <- slash_command_fuzzy_score_Some. unfold command_matches. destruct (slash_command_fuzzy_score _ _); split; eauto; [discriminate|by intros []]. }
    rewrite Hm. tauto.
  - rewrite sort_by_key_perm. apply NoDup_ListNoDup, List.NoDup_filter, List.NoDup_filter, NoDup_ListNoDup.
    apply (bool_decide_unpack _). vm_compute. exact I.
  - apply sort_by_key_sorted.
Qed.

(** submitting acts on the highlighted row: whenever the slash menu is
    shown, the highlighted index is inside it (however stale the stored
    selection is), and the resolved action is the one that row names; only the
    notice shown for an empty personality list has no action. *)
Theorem slash_selection_aligned `{UnicodeCase} input s k allow_apply suggestions :
  build_slash_suggestion_list input s k allow_apply = Some suggestions →
  ∃ row, items suggestions !! list_selected_index suggestions = Some row
    ∧ ((stage s = StagePersonality ∧ personalities s = []
        ∧ selected_slash_action input s k allow_apply = None)
       ∨ ∃ a, selected_slash_action input s k allow_apply = Some a ∧ label row = selection_label a).
Proof.
  unfold build_slash_suggestion_list, stage_rows, selected_slash_action.
  destruct (starts_with input [slash]); simpl; [|done].
  assert (Hmenu : ∀ A (f : A → PromptSuggestionItem) g (l : list A) title,
    (if is_empty (f <$> l) then None
     else Some {| items := f <$> l;
                  list_selected_index := slash_selected_index s `min` (length (f <$> l) - 1);
                  list_title := title |}) = Some suggestions →
    (∀ x, x ∈ l → selection_label (g x) = label (f x)) →
    ∃ row, items suggestions !! list_selected_index suggestions = Some row
      ∧ ∃ a, g <$> l !! clamp_selected_index (slash_selected_index s) (length l) = Some a
             ∧ label row = selection_label a).
  { intros A f g l title. destruct (is_empty (f <$> l)) eqn:E; [done|]. intros [= <-] Hlabel. simpl.
    apply is_empty_false in E. destruct (menu_row f g l (slash_selected_index s)) as (a & row & ? & ? & ?); eauto. }
  unfold permission_mode_suggestion_items, reasoning_suggestion_items,
    response_style_suggestion_items, speed_suggestion_items.
  destruct (stage s); cbn [mbind option_bind].
  - intros H1. apply Hmenu with (g := SelectAgent) in H1 as (row & ? & ?); [eauto|done].
  - intros H1. apply Hmenu with (g := SelectCommand) in H1 as (row & ? & ?); [eauto|done].
  - destruct (resolve_model_stage_agent _ _ _) as [k'|]; cbn [mbind option_bind]; [|done]. intros H1.
    apply Hmenu with (g := λ m, SelectModel (AgentSelection_new k' m)) in H1
      as (row & Hrow & a & Ha & Hl); [|intros x Hx; exact (f_equal AgentModel_provider_model_str (supports_model_models k' x Hx))].
    exists row. split; [done|]. right. exists a. split; [|done].
    destruct (models k' !! _); simpl in *; by simplify_eq.
  - intros H1. apply Hmenu with (g := SelectMode) in H1 as (row & ? & ?); [eauto|done].
  - destruct (personalities s) as [|p ps] eqn:Ep.
    + intros [= <-]. simpl. rewrite Nat.min_0_r. simpl. eauto 8.
    + rewrite personality_rows. intros H1.
      apply Hmenu with (g := SelectPersonality) in H1 as (row & ? & a & Ha & ?); [|by intros []].
      exists row. split; [done|]. right. exists a. split; [|done]. by rewrite <- personality_action in Ha.
  - intros H1. apply Hmenu with (g := SelectReasoning) in H1 as (row & ? & ?); [eauto|done].
  - intros H1. apply Hmenu with (g := SelectStyle) in H1 as (row & ? & ?); [eauto|done].
  - intros H1. apply Hmenu with (g := SelectSpeed) in H1 as (row & ? & ?); [eauto|done].
Qed.

(** ** Witnesses *)

Lemma slash_selection_aligned_witness :
  let s := {| available_agent_kinds := AgentKind_ALL; personalities := []; selected_agent := None;
              slash_selected_index := 40; stage := StageSpeed |} in
  ∃ suggestions, build_slash_suggestion_list (L"/speed") s Claude true = Some suggestions
    ∧ ∃ row, items suggestions !! list_selected_index suggestions = Some row.
Proof.
  intros s. eexists. split; [vm_compute; reflexivity|].
  edestruct (slash_selection_aligned (L"/speed") s Claude true) as (row & Hrow & _);
    [vm_compute; reflexivity|]. exists row. exact Hrow.
Defined.
