(* ===== verification/Composer.v ===== *)
(** * Prompt composer (crates/agentty/src/domain/composer.rs, runtime/mode/prompt.rs)

    Pasted-image attachments tied to inline placeholders of the input text,
    deletion by whole placeholders, submission, and the prompt-mode handlers
    that keep attachments and text together across edits, undo, redo and
    prompt-history navigation.  [None] results are panics of the source. *)
From S2P Require Import Prelude Contracts Agent Prompt Input Slash.

(** ** Attachments *)

Record AttachmentRevision := mkLocation { loc_revision : Z; loc_start : nat }.

#[global] Instance AttachmentRevision_eq_dec : EqDecision AttachmentRevision.
Proof. solve_decision. Defined.

Record PromptAttachment := mkPromptAttachment {
  attachment_number : nat;
  attachment_path : str;
  attachment_placeholder : str;
  current_start : option nat;
  valid_locations : list AttachmentRevision
}.

#[global] Instance PromptAttachment_eq_dec : EqDecision PromptAttachment.
Proof. solve_decision. Defined.

Definition placeholder_for (n : nat) : str := L"[Image #" ++ display_nat n ++ L"]".

Definition PromptAttachment_new (n : nat) (p : str) : PromptAttachment :=
  {| attachment_number := n; attachment_path := p; attachment_placeholder := placeholder_for n;
     current_start := None; valid_locations := [] |}.

Definition set_start (self : PromptAttachment) (start : option nat) : PromptAttachment :=
  {| attachment_number := attachment_number self; attachment_path := attachment_path self;
     attachment_placeholder := attachment_placeholder self; current_start := start;
     valid_locations := valid_locations self |}.

Definition set_locations (self : PromptAttachment) (locations : list AttachmentRevision)
  : PromptAttachment :=
  {| attachment_number := attachment_number self; attachment_path := attachment_path self;
     attachment_placeholder := attachment_placeholder self; current_start := current_start self;
     valid_locations := locations |}.

Definition at_revision (r : Z) (location : AttachmentRevision) : bool := (loc_revision location =? r)%Z.

Definition remember_revision (self : PromptAttachment) (r : Z) : PromptAttachment :=
  match current_start self with
  | None => self
  | Some start =>
      if negb (existsb (at_revision r) (valid_locations self))
      then set_locations self (valid_locations self ++ [mkLocation r start])
      else self
  end.

Definition restore_revision (self : PromptAttachment) (r : Z) : PromptAttachment :=
  set_start self (loc_start <$> list_find_b (at_revision r) (valid_locations self)).

(** The subtractions are of ordered positions: [old_start <= old_end] and
    [old_start <= new_end]. *)
Definition apply_edit (self : PromptAttachment) (old_start old_end new_end : nat) : PromptAttachment :=
  match current_start self with
  | None => self
  | Some start =>
      let current_end := start + length (attachment_placeholder self) in
      if decide (old_end <= start) then
        let removed_length := old_end - old_start in
        let inserted_length := new_end - old_start in
        set_start self (Some (if decide (removed_length <= inserted_length)
                              then start + inserted_length - removed_length
                              else start - (removed_length - inserted_length)))
      else if decide (old_start < current_end) then set_start self None
      else self
  end.

Definition is_active (a : PromptAttachment) : bool :=
  match current_start a with Some _ => true | None => false end.

Definition number_key (a : PromptAttachment) : Z := Z.of_nat (attachment_number a).

(** ** [PromptAttachmentState] *)

Record PromptAttachmentState := mkAttachmentState {
  archived_attachments : list PromptAttachment;
  active_attachments : list PromptAttachment;
  next_attachment_number : nat
}.

Definition PromptAttachmentState_default : PromptAttachmentState :=
  {| archived_attachments := []; active_attachments := []; next_attachment_number := 1 |}.

Definition max_number (l : list PromptAttachment) : nat :=
  fold_right (λ a m, attachment_number a `max` m) 0 l.

(** [saturating_add] on [usize] counts attachments; it does not saturate. *)
Definition refresh_next_attachment_number (self : PromptAttachmentState) : PromptAttachmentState :=
  {| archived_attachments := archived_attachments self;
     active_attachments := active_attachments self;
     next_attachment_number :=
       max_number (active_attachments self ++ archived_attachments self) + 1 |}.

Definition register_local_image (self : PromptAttachmentState) (p : str) (placeholder_start : nat)
  : PromptAttachmentState :=
  let attachment := set_start (PromptAttachment_new (next_attachment_number self) p)
                      (Some placeholder_start) in
  refresh_next_attachment_number
    {| archived_attachments := archived_attachments self;
       active_attachments := active_attachments self ++ [attachment];
       next_attachment_number := next_attachment_number self |}.

Definition attachment_for_placeholder (self : PromptAttachmentState) (ph : str)
  : option PromptAttachment :=
  list_find_b (λ a, str_eqb (attachment_placeholder a) ph) (active_attachments self).

Definition remember_current_revision (self : PromptAttachmentState) (input : InputState)
  : PromptAttachmentState :=
  {| archived_attachments := archived_attachments self;
     active_attachments :=
       (λ a, remember_revision a (revision input)) <$> active_attachments self;
     next_attachment_number := next_attachment_number self |}.

Definition sync_after_edit (self : PromptAttachmentState) (input : InputState)
    (old_start old_end new_end : nat) : PromptAttachmentState :=
  let edited := (λ a, apply_edit a old_start old_end new_end) <$> active_attachments self in
  let '(active, removed) := partition_by is_active edited in
  {| archived_attachments := sort_by_key number_key (archived_attachments self ++ removed);
     active_attachments := (λ a, remember_revision a (revision input)) <$> active;
     next_attachment_number := next_attachment_number self |}.

Definition tracked_attachments (self : PromptAttachmentState) : list PromptAttachment :=
  sort_by_key number_key (active_attachments self ++ archived_attachments self).

(** The partition of all tracked attachments after a revision change. *)
Definition repartition (self : PromptAttachmentState) (f : PromptAttachment → PromptAttachment)
  : PromptAttachmentState :=
  let '(active, archived) := partition_by is_active (f <$> tracked_attachments self) in
  {| archived_attachments := archived; active_attachments := active;
     next_attachment_number := next_attachment_number self |}.

Definition sync_after_history_restore (self : PromptAttachmentState) (input : InputState)
  : PromptAttachmentState := repartition self (λ a, restore_revision a (revision input)).

Definition archive_current (self : PromptAttachmentState) : PromptAttachmentState :=
  {| archived_attachments :=
       sort_by_key number_key
         (archived_attachments self ++ ((λ a, set_start a None) <$> active_attachments self));
     active_attachments := [];
     next_attachment_number := next_attachment_number self |}.

Definition restore_draft_revision (self : PromptAttachmentState) (draft_revision : Z)
    (input : InputState) : PromptAttachmentState :=
  repartition self (λ a, remember_revision (restore_revision a draft_revision) (revision input)).

(** The locations that [retain] keeps. *)
Definition prune_locations (input : InputState) (a : PromptAttachment) : PromptAttachment :=
  set_locations a (List.filter (λ l, retains_revision input (loc_revision l)) (valid_locations a)).

Definition prune_unreachable (self : PromptAttachmentState) (input : InputState)
  : list PromptAttachment * PromptAttachmentState :=
  let archived := prune_locations input <$> archived_attachments self in
  let '(retained, unreachable) :=
    partition_by (λ a, negb (is_empty (valid_locations a))) archived in
  (unreachable,
   {| archived_attachments := retained;
      active_attachments := prune_locations input <$> active_attachments self;
      next_attachment_number := next_attachment_number self |}).

(** ** History navigation and composer state *)

Record PromptHistoryState := mkPromptHistory {
  draft_input_revision : option Z;
  draft_text : option str;
  history_entries : list str;
  history_selected_index : option nat
}.

Definition PromptHistoryState_new (entries : list str) : PromptHistoryState :=
  {| draft_input_revision := None; draft_text := None; history_entries := entries;
     history_selected_index := None |}.

Definition reset_navigation (self : PromptHistoryState) : PromptHistoryState :=
  PromptHistoryState_new (history_entries self).

Record PromptComposerState := mkComposer {
  attachment_state : PromptAttachmentState;
  history_state : PromptHistoryState;
  input : InputState;
  slash_state : PromptSlashState
}.

Definition with_input_and_history (i : InputState) (kinds : list AgentKind) (entries : list str)
  : PromptComposerState :=
  {| attachment_state := PromptAttachmentState_default;
     history_state := PromptHistoryState_new entries;
     input := i; slash_state := with_available_agent_kinds kinds |}.

Definition PromptComposerState_new (kinds : list AgentKind) : PromptComposerState :=
  with_input_and_history InputState_default kinds [].

Definition is_slash_command (self : PromptComposerState) : bool :=
  starts_with (text (input self)) [slash].

(** Navigation and slash selection reset, as after every text mutation. *)
Definition reset_transient (self : PromptComposerState) (atts : PromptAttachmentState) (i : InputState)
  : PromptComposerState :=
  {| attachment_state := atts; history_state := reset_navigation (history_state self);
     input := i; slash_state := PromptSlashState_reset (slash_state self) |}.

(** ** Image tokens *)

Definition image_prefix : str := L"[Image #".
Definition closing_bracket : char := 93%N.

(** The scan behind the prefix: digits, at least one, then the bracket. *)
Fixpoint image_token_scan (rest : str) (scan_index : nat) (saw_digit : bool) : option nat :=
  match rest with
  | [] => None
  | c :: rest' =>
      if is_ascii_digit c then image_token_scan rest' (S scan_index) true
      else if (c =? closing_bracket)%N && saw_digit then Some (S scan_index)
      else None
  end.

Definition image_token_end_index (characters : str) (start_index : nat) : option nat :=
  let token_body := drop start_index characters in
  if (length token_body <? 10) || negb (bool_decide (head token_body = Some 91%N)) then None
  else if negb (starts_with token_body image_prefix) then None
  else image_token_scan (drop (start_index + length image_prefix) characters)
         (start_index + length image_prefix) false.

Fixpoint image_token_loop (fuel : nat) (characters : str) (index : nat) : list (nat * nat * str) :=
  match fuel with
  | 0 => []
  | S fuel =>
      if decide (index < length characters) then
        match image_token_end_index characters index with
        | Some end_index =>
            (index, end_index, take (end_index - index) (drop index characters))
            :: image_token_loop fuel characters end_index
        | None => image_token_loop fuel characters (index + 1)
        end
      else []
  end.

(** The index grows in every round, so the length of the text is enough fuel. *)
Definition image_token_ranges (t : str) : list (nat * nat * str) :=
  image_token_loop (length t) t 0.

Definition expand_step (range : nat * nat) (token : nat * nat * str) : nat * nat :=
  let '(expanded_start, expanded_end) := range in
  let '(token_start, token_end, _) := token in
  if decide (token_start < expanded_end ∧ expanded_start < token_end)
  then (expanded_start `min` token_start, expanded_end `max` token_end)
  else range.

Definition expand_delete_range_to_image_tokens (t : str) (start stop : nat) : nat * nat :=
  fold_left expand_step (image_token_ranges t) (start, stop).

Definition current_line_delete_range (i : InputState) : option (option (nat * nat)) :=
  if is_empty (text i) then Some None
  else
    '(delete_start, delete_end) ←
      line_delete_range (text i) (cursor i `min` length (text i));
    Some (if decide (delete_start = delete_end) then None else Some (delete_start, delete_end)).

(** ** Mutations *)

Definition composer_insert_text (self : PromptComposerState) (t : str) : option PromptComposerState :=
  let atts := remember_current_revision (attachment_state self) (input self) in
  let insert_start := cursor (input self) in
  i ← insert_text (input self) t;
  Some (reset_transient self (sync_after_edit atts i insert_start insert_start (cursor i)) i).

Definition composer_insert_char (self : PromptComposerState) (c : char) : option PromptComposerState :=
  let atts := remember_current_revision (attachment_state self) (input self) in
  let insert_start := cursor (input self) in
  i ← insert_char (input self) c;
  Some (reset_transient self (sync_after_edit atts i insert_start insert_start (cursor i)) i).

Definition insert_local_image (self : PromptComposerState) (p : str) : option PromptComposerState :=
  let atts := remember_current_revision (attachment_state self) (input self) in
  let placeholder_start := cursor (input self) in
  let ph := placeholder_for (next_attachment_number atts) in
  i ← insert_text (input self) ph;
  let atts := sync_after_edit atts i placeholder_start placeholder_start (cursor i) in
  let atts := register_local_image atts p placeholder_start in
  let atts := remember_current_revision atts i in
  Some (reset_transient self atts i).

Definition apply_prompt_delete_range (self : PromptComposerState) (start stop : nat)
  : option PromptComposerState :=
  let '(delete_start, delete_end) :=
    expand_delete_range_to_image_tokens (text (input self)) start stop in
  if decide (delete_end <= delete_start) then Some self
  else
    let atts := remember_current_revision (attachment_state self) (input self) in
    i ← replace_range (input self) delete_start delete_end [];
    Some (reset_transient self (sync_after_edit atts i delete_start delete_end delete_start) i).

Record PromptComposerSubmission := mkSubmission {
  submitted_attachments : list PromptAttachment;
  submitted_text : str
}.

Definition submission_is_empty (self : PromptComposerSubmission) : bool :=
  is_empty (trim (submitted_text self)) && is_empty (submitted_attachments self).

Definition start_key (a : PromptAttachment) : Z :=
  match current_start a with Some s => Z.of_nat s | None => usize_max end.

Definition drain_prompt_submission (self : PromptComposerState)
  : PromptComposerSubmission * PromptComposerState :=
  let '(t, i) := take_text (input self) in
  let atts := sort_by_key start_key
                (List.filter is_active (active_attachments (attachment_state self))) in
  ({| submitted_attachments := atts; submitted_text := t |},
   {| attachment_state := PromptAttachmentState_default; history_state := history_state self;
      input := i; slash_state := slash_state self |}).

(** ** Prompt-mode handlers (runtime/mode/prompt.rs) *)

Definition prompt_command_delete_range (i : InputState) (command : InputCommand)
  : option (option (nat * nat)) :=
  match command with
  | DeleteBackward => Some (if decide (0 < cursor i) then Some (cursor i - 1, cursor i) else None)
  | DeleteCurrentLine => current_line_delete_range i
  | DeleteForward =>
      Some (if decide (cursor i < length (text i)) then Some (cursor i, cursor i + 1) else None)
  | DeleteToLineEnd => Some (line_end_delete_range i)
  | DeleteWordBackward => word_delete_range i
  | _ => Some None
  end.

Definition prompt_command_edit_span (i : InputState) (command : InputCommand)
  : option (nat * nat * nat) :=
  match command with
  | Insert _ | InsertNewline => Some (cursor i, cursor i, cursor i + 1)
  | InsertText t => Some (cursor i, cursor i, cursor i + length t)
  | ReplaceRange start stop t => Some (start, stop, start + length t)
  | _ => None
  end.

Definition is_history_restore (command : InputCommand) : bool :=
  match command with Undo | Redo => true | _ => false end.

(** The prompt state after [prune_unreachable], with the pruned attachments. *)
Definition with_pruned (self : PromptComposerState) : list PromptAttachment * PromptComposerState :=
  let '(unreachable, atts) := prune_unreachable (attachment_state self) (input self) in
  (unreachable,
   {| attachment_state := atts; history_state := history_state self; input := input self;
      slash_state := slash_state self |}).

(** [apply_prompt_input_command], up to the file cleanup of the returned
    attachments and the mention lookup. *)
Definition apply_prompt_input_command (self : PromptComposerState) (command : InputCommand)
  : option (list PromptAttachment * PromptComposerState) :=
  delete_range ← prompt_command_delete_range (input self) command;
  match delete_range with
  | Some (start, stop) =>
      self ← apply_prompt_delete_range self start stop; Some (with_pruned self)
  | None =>
      let atts := remember_current_revision (attachment_state self) (input self) in
      let edit_span := prompt_command_edit_span (input self) command in
      '(i, effect) ← apply_command (input self) command;
      Some (if bool_decide (effect = TextChanged) then
              let atts :=
                if is_history_restore command then sync_after_history_restore atts i
                else match edit_span with
                     | Some (old_start, old_end, new_end) =>
                         sync_after_edit atts i old_start old_end new_end
                     | None => atts
                     end in
              with_pruned (reset_transient self atts i)
            else
              ([], {| attachment_state := atts; history_state := history_state self; input := i;
                      slash_state := slash_state self |}))
  end.

Definition insert_pasted_image_placeholder (self : PromptComposerState) (p : str)
  : option (list PromptAttachment * PromptComposerState) :=
  self ← insert_local_image self p; Some (with_pruned self).

(** Moves to another history entry: attachments archived, input reset. *)
Definition show_history_entry (self : PromptComposerState) (atts : PromptAttachmentState)
    (h : PromptHistoryState) (index : nat) : option PromptComposerState :=
  entry ← history_entries h !! index;
  Some {| attachment_state := archive_current atts;
          history_state := {| draft_input_revision := draft_input_revision h;
                              draft_text := draft_text h;
                              history_entries := history_entries h;
                              history_selected_index := Some index |};
          input := reset_text (input self) entry;
          slash_state := slash_state self |}.

Definition navigate_prompt_history_up (self : PromptComposerState) : option PromptComposerState :=
  let h := history_state self in
  if is_empty (history_entries h) then Some self
  else
    match history_selected_index h with
    | Some selected_index =>
        show_history_entry self (attachment_state self) h (selected_index - 1)
    | None =>
        show_history_entry self
          (remember_current_revision (attachment_state self) (input self))
          {| draft_input_revision := Some (revision (input self));
             draft_text := Some (text (input self));
             history_entries := history_entries h; history_selected_index := None |}
          (length (history_entries h) - 1)
    end.

Definition navigate_prompt_history_down (self : PromptComposerState) : option PromptComposerState :=
  let h := history_state self in
  match history_selected_index h with
  | None => Some self
  | Some selected_index =>
      if decide (selected_index + 1 < length (history_entries h))
      then show_history_entry self (attachment_state self) h (selected_index + 1)
      else
        let i := reset_text (input self) (default [] (draft_text h)) in
        Some {| attachment_state :=
                  match draft_input_revision h with
                  | Some draft_revision =>
                      restore_draft_revision (attachment_state self) draft_revision i
                  | None => archive_current (attachment_state self)
                  end;
                history_state := reset_navigation h;
                input := i;
                slash_state := slash_state self |}
  end.

(** The payload handed to the application on submit, and the archived
    attachments whose files are cleaned up. *)
Definition take_submitted_turn_prompt (self : PromptComposerState)
  : TurnPrompt * list PromptAttachment * PromptComposerState :=
  let archived := archived_attachments (attachment_state self) in
  let '(submission, self) := drain_prompt_submission self in
  ({| attachments := (λ a, mkAttachment (attachment_path a) (attachment_placeholder a))
                       <$> submitted_attachments submission;
      prompt_text := submitted_text submission;
      text_source := SourceUserPrompt |}, archived, self).

(** ** Ownership of placeholders *)

(** The placeholder [ph] stands at [s] in the text. *)
Definition owns (t : str) (s : nat) (ph : str) : Prop := take (length ph) (drop s t) = ph.

(** One tracked attachment against the input: it owns its placeholder now, and
    in every retained revision it has a location for; it has one location per
    revision, and its start is the one of the current revision. *)
Record attachment_ok (i : InputState) (a : PromptAttachment) : Prop := {
  ok_placeholder : attachment_placeholder a = placeholder_for (attachment_number a);
  ok_start : ∀ s, current_start a = Some s → owns (text i) s (attachment_placeholder a);
  ok_bound : ∀ l, l ∈ valid_locations a → (loc_revision l <= next_revision (history i))%Z;
  ok_locations : ∀ l snap, l ∈ valid_locations a → snap ∈ timeline i →
    snap_revision snap = loc_revision l →
    owns (snap_text snap) (loc_start l) (attachment_placeholder a);
  ok_current : ∀ l, l ∈ valid_locations a → loc_revision l = revision i →
    current_start a = Some (loc_start l);
  ok_distinct : NoDup (loc_revision <$> valid_locations a)
}.

Definition tracked_list (st : PromptAttachmentState) : list PromptAttachment :=
  active_attachments st ++ archived_attachments st.

Record attachments_ok (i : InputState) (st : PromptAttachmentState) : Prop := {
  ok_each : Forall (attachment_ok i) (tracked_list st);
  ok_active : Forall (λ a, is_active a = true) (active_attachments st);
  ok_archived : Forall (λ a, is_active a = false) (archived_attachments st);
  ok_unique : NoDup (attachment_number <$> tracked_list st);
  ok_next : Forall (λ a, attachment_number a < next_attachment_number st) (tracked_list st)
}.

(** The draft kept during history navigation: its locations fit its text. *)
Definition draft_ok (h : PromptHistoryState) (i : InputState) (st : PromptAttachmentState) : Prop :=
  ∀ r, draft_input_revision h = Some r →
    (r < revision i)%Z
    ∧ ∃ t, draft_text h = Some t
        ∧ ∀ a l, a ∈ tracked_list st → l ∈ valid_locations a → loc_revision l = r →
            owns t (loc_start l) (attachment_placeholder a).

Record composer_ok (c : PromptComposerState) : Prop := {
  ok_input : wf_input (input c);
  ok_revisions : revisions_ok (input c);
  ok_attachments : attachments_ok (input c) (attachment_state c);
  ok_draft : draft_ok (history_state c) (input c) (attachment_state c);
  ok_selected : ∀ k, history_selected_index (history_state c) = Some k →
    k < length (history_entries (history_state c))
}.

(** The first half of an edit keeps what lies before it. *)
Lemma owns_before t i j new s ph :
  i <= length t → s + length ph <= i → owns t s ph → owns (take i t ++ new ++ drop j t) s ph.
Proof.
  unfold owns. intros Hi Hs Ho.
  rewrite drop_app_le, take_app_le by (rewrite ?length_drop, length_take; lia).
  rewrite <- Ho at 2. rewrite <- (take_drop i t) at 2.
  by rewrite drop_app_le, take_app_le by (rewrite ?length_drop, length_take; lia).
Qed.

(** What lies behind an edit moves with it. *)
Lemma owns_after t i j new s ph :
  i <= j → i <= length t → j <= s → owns t s ph →
  owns (take i t ++ new ++ drop j t) (s - j + i + length new) ph.
Proof.
  unfold owns. intros Hij Hi Hj Ho.
  transitivity (take (length ph) (drop s t)); [f_equal|exact Ho].
  replace (s - j + i + length new) with (length (take i t ++ new) + (s - j))
    by (rewrite length_app, length_take; lia).
  rewrite app_assoc, drop_app_add, drop_drop. f_equal. lia.
Qed.

Lemma apply_edit_owns a t i j new s :
  i <= j → i <= length t →
  (∀ s, current_start a = Some s → owns t s (attachment_placeholder a)) →
  current_start (apply_edit a i j (i + length new)) = Some s →
  owns (take i t ++ new ++ drop j t) s (attachment_placeholder a).
Proof.
  intros Hij Hi Ho. unfold apply_edit. destruct (current_start a) as [s0|] eqn:Es; [|by rewrite Es].
  specialize (Ho s0 eq_refl). case_decide.
  - simpl. intros [= <-]. replace (if decide _ then _ else _) with (s0 - j + i + length new)
      by (case_decide; lia).
    by apply owns_after.
  - case_decide; [done|]. rewrite Es. intros [= <-]. apply owns_before; [done|lia|done].
Qed.

(** The parts of an attachment that edits leave alone. *)
Lemma apply_edit_fields a x y z :
  attachment_number (apply_edit a x y z) = attachment_number a
  ∧ attachment_placeholder (apply_edit a x y z) = attachment_placeholder a
  ∧ valid_locations (apply_edit a x y z) = valid_locations a
  ∧ attachment_path (apply_edit a x y z) = attachment_path a.
Proof. unfold apply_edit. by repeat case_match. Qed.

Lemma remember_revision_fields a r :
  attachment_number (remember_revision a r) = attachment_number a
  ∧ attachment_placeholder (remember_revision a r) = attachment_placeholder a
  ∧ current_start (remember_revision a r) = current_start a
  ∧ attachment_path (remember_revision a r) = attachment_path a.
Proof. unfold remember_revision. by repeat case_match. Qed.

Lemma remember_revision_locations a r l :
  l ∈ valid_locations (remember_revision a r) →
  l ∈ valid_locations a ∨ ∃ s, current_start a = Some s ∧ l = mkLocation r s.
Proof.
  unfold remember_revision. repeat case_match; simpl; rewrite ?elem_of_app, ?list_elem_of_singleton;
    naive_solver.
Qed.

Lemma is_active_remember a r : is_active (remember_revision a r) = is_active a.
Proof. unfold is_active. by rewrite (proj1 (proj2 (proj2 (remember_revision_fields a r)))). Qed.

(** ** One attachment across the steps of the input *)

Lemma current_in_timeline i : snapshot i ∈ timeline i.
Proof. unfold timeline. set_solver. Qed.

Lemma current_revision_bound i : revisions_ok i → (revision i <= next_revision (history i))%Z.
Proof. intros [_ Hf]. rewrite Forall_forall in Hf. apply (Hf _ (current_in_timeline i)). Qed.

Lemma same_revision_text i snap :
  revisions_ok i → snap ∈ timeline i → snap_revision snap = revision i → snap_text snap = text i.
Proof.
  intros [Hl _] Hin Hr.
  by rewrite (sorted_revision_inj _ snap (snapshot i) (linked_strong _ Hl) Hin (current_in_timeline i) Hr).
Qed.

Lemma remember_distinct a r :
  NoDup (loc_revision <$> valid_locations a) →
  NoDup (loc_revision <$> valid_locations (remember_revision a r)).
Proof.
  unfold remember_revision. intros Hd. repeat case_match; try done. simpl.
  apply negb_true_iff in H0. rewrite fmap_app. apply NoDup_app. split_and!; [done| |].
  - intros x (l & -> & Hin)%list_elem_of_fmap Hx%list_elem_of_singleton.
    pose proof (proj1 (existsb_false _ _) H0 l Hin) as Hf. unfold at_revision in Hf.
    apply Z.eqb_neq in Hf. done.
  - repeat constructor. set_solver.
Qed.

Lemma remember_ok i a :
  revisions_ok i → attachment_ok i a → attachment_ok i (remember_revision a (revision i)).
Proof.
  intros Hr [Hp Hs Hb Hl Hc Hd].
  destruct (remember_revision_fields a (revision i)) as (Hn & Hph & Hst & _). split.
  - by rewrite Hph, Hn.
  - rewrite Hst, Hph. done.
  - intros l [Hin|(s & _ & ->)]%remember_revision_locations; [auto|]. by apply current_revision_bound.
  - rewrite Hph. intros l snap [Hin|(s & Hcs & ->)]%remember_revision_locations Hsnap Heq; [eauto|].
    simpl in *. rewrite (same_revision_text i snap) by done. auto.
  - rewrite Hst. intros l [Hin|(s & Hcs & ->)]%remember_revision_locations; [auto|done].
  - by apply remember_distinct.
Qed.

Lemma distinct_location a l l' :
  NoDup (loc_revision <$> valid_locations a) → l ∈ valid_locations a → l' ∈ valid_locations a →
  loc_revision l = loc_revision l' → l = l'.
Proof.
  intros Hd [n Hn]%list_elem_of_lookup [n' Hn']%list_elem_of_lookup E.
  assert (n = n') as ->; [|congruence].
  apply (NoDup_lookup _ _ _ (loc_revision l) Hd); rewrite list_lookup_fmap, ?Hn, ?Hn'; simpl; congruence.
Qed.

(** The start a revision restores is that of its one location. *)
Lemma restore_start a r s :
  NoDup (loc_revision <$> valid_locations a) →
  current_start (restore_revision a r) = Some s ↔ mkLocation r s ∈ valid_locations a.
Proof.
  intros Hd. unfold restore_revision. simpl.
  destruct (list_find_b (at_revision r) (valid_locations a)) as [l|] eqn:E; simpl.
  - apply list_find_b_Some in E as [Hin Hr%Z.eqb_eq]. destruct l as [r0 s0]. simpl in *. subst.
    split; [by intros [= <-]|]. intros Hin'.
    by pose proof (distinct_location a _ _ Hd Hin Hin' eq_refl) as [= ->].
  - split; [done|]. intros Hin. rewrite list_find_b_None in E.
    specialize (E _ Hin). unfold at_revision in E. simpl in E. by rewrite Z.eqb_refl in E.
Qed.

(** A step along the history restores the starts of the revision it reaches. *)
Lemma restore_ok i i' a :
  timeline i' = timeline i → next_revision (history i') = next_revision (history i) →
  attachment_ok i a → attachment_ok i' (restore_revision a (revision i')).
Proof.
  intros Ht Hn [Hp Hs Hb Hl Hc Hd]. split; simpl; try done.
  - intros s Hfind. apply restore_start in Hfind; [|done].
    apply (Hl _ (snapshot i') Hfind); [|done]. rewrite <- Ht. apply current_in_timeline.
  - by rewrite Hn.
  - by rewrite Ht.
  - intros [r s] Hin. simpl. intros ->. by apply restore_start.
Qed.

Lemma prune_ok i a : attachment_ok i a → attachment_ok i (prune_locations i a).
Proof.
  intros [Hp Hs Hb Hl Hc Hd]. split; simpl; try done.
  - intros l [_ Hin]%elem_of_filter_b. auto.
  - intros l snap [_ Hin]%elem_of_filter_b. eauto.
  - intros l [_ Hin]%elem_of_filter_b. auto.
  - by apply NoDup_fmap_filter.
Qed.

Lemma set_cursor_ok i c a : attachment_ok i a → attachment_ok (set_cursor i c) a.
Proof.
  intros [Hp Hs Hb Hl Hc Hd]. split; try done. intros l snap Hin Hsnap Hr.
  unfold timeline in *. simpl in *. rewrite !elem_of_app, elem_of_cons in *.
  destruct Hsnap as [H|[->|H]]; [|apply (Hl l (snapshot i)); [done|set_solver|done]|];
    apply (Hl l snap); set_solver.
Qed.

(** An input whose current revision is new and whose other snapshots are those
    of [i] or newer. *)
Definition extends_input (i i' : InputState) : Prop :=
  (next_revision (history i) <= next_revision (history i'))%Z
  ∧ (next_revision (history i) < revision i')%Z
  ∧ ∀ snap, snap ∈ timeline i' →
      snap ∈ timeline i ∨ (next_revision (history i) < snap_revision snap)%Z.

(** Locations survive such a step; the start is judged on the new text. *)
Lemma extend_ok i i' a a' :
  extends_input i i' → attachment_ok i a →
  attachment_number a' = attachment_number a →
  attachment_placeholder a' = attachment_placeholder a →
  valid_locations a' = valid_locations a →
  (∀ s, current_start a' = Some s → owns (text i') s (attachment_placeholder a)) →
  attachment_ok i' a'.
Proof.
  intros (Hn & Hrev & Hsnap) [Hp _ Hb Hl Hc Hd] En Ep El Hs.
  split; rewrite ?En, ?Ep, ?El; [done|done| | | |done].
  - intros l Hin. specialize (Hb l Hin). lia.
  - intros l snap Hin Hs' Hr. destruct (Hsnap snap Hs') as [Hin0|Hnew].
    + by apply (Hl l snap).
    + specialize (Hb l Hin). lia.
  - intros l Hin. specialize (Hb l Hin). lia.
Qed.

Lemma extends_spliced i x y t c :
  (next_revision (history i) < u64_max)%Z → text (spliced i x y t c) ≠ text i →
  extends_input i (spliced i x y t c).
Proof.
  intros Hn E. destruct (undo_stack_spliced i x y t c E) as (kept & Hk & [pre Hpre]).
  revert E Hk. rewrite text_spliced. unfold extends_input, timeline, revision.
  unfold spliced, record_text_change. simpl. intros E. rewrite decide_False by done. simpl. intros Hk.
  rewrite u64_saturating_add_lt by done. split_and!; [lia|lia|]. rewrite Hk.
  intros snap [[Hin|Hin]%elem_of_app|Hin]%elem_of_app.
  - left. rewrite Hpre. set_solver.
  - apply list_elem_of_singleton in Hin as ->. left. set_solver.
  - apply list_elem_of_singleton in Hin as ->. right. simpl. unfold revision. simpl. lia.
Qed.

Lemma extends_reset i t : (next_revision (history i) < u64_max)%Z → extends_input i (reset_text i t).
Proof.
  intros Hn. unfold extends_input, reset_text, fresh_history, timeline, revision. simpl.
  rewrite u64_saturating_add_lt by done. split_and!; [lia|lia|]. intros snap Hin%list_elem_of_singleton.
  subst. right. unfold snapshot, revision. simpl. lia.
Qed.

Lemma max_number_ge l a : a ∈ l → attachment_number a <= max_number l.
Proof. induction l as [|b l IH]; simpl; [set_solver|]. intros [->|?%IH]%elem_of_cons; lia. Qed.

(** ** The attachment state across its operations *)

(** Every operation maps the tracked attachments one by one, keeps their
    numbers and may forget some. *)
Lemma attachments_ok_rebuild i i' st st' f :
  attachments_ok i st →
  tracked_list st' ⊆+ f <$> tracked_list st →
  (∀ a, attachment_number (f a) = attachment_number a) →
  (∀ a, a ∈ tracked_list st → attachment_ok i a → attachment_ok i' (f a)) →
  Forall (λ a, is_active a = true) (active_attachments st') →
  Forall (λ a, is_active a = false) (archived_attachments st') →
  next_attachment_number st <= next_attachment_number st' →
  attachments_ok i' st'.
Proof.
  intros [He Ha Hr Hu Hn] Hsub Hnum Hf Ha' Hr' Hle.
  rewrite Forall_forall in He. rewrite Forall_forall in Hn.
  assert (Hin : ∀ a', a' ∈ tracked_list st' → ∃ a, a' = f a ∧ a ∈ tracked_list st).
  { intros a' Hin. apply list_elem_of_fmap. by eapply elem_of_submseteq. }
  split; try done.
  - apply Forall_forall. intros a' (a & -> & Hin')%Hin. auto.
  - apply (fmap_submseteq attachment_number) in Hsub. apply submseteq_Permutation in Hsub as [k Hk].
    rewrite <- list_fmap_compose in Hk.
    rewrite (list_fmap_ext _ attachment_number) in Hk by (intros; apply Hnum).
    rewrite Hk in Hu. by apply NoDup_app in Hu as [? _].
  - apply Forall_forall. intros a' (a & -> & Hin')%Hin. rewrite Hnum. specialize (Hn a Hin'). lia.
Qed.

Lemma fmap_inactive (f : PromptAttachment → PromptAttachment) l :
  (∀ a, is_active a = false → f a = a) → Forall (λ a, is_active a = false) l → f <$> l = l.
Proof. intros Hf. induction 1; csimpl; [done|]. rewrite Hf by done. by f_equal. Qed.

Lemma is_active_false a : is_active a = false ↔ current_start a = None.
Proof. unfold is_active. by destruct (current_start a). Qed.

Lemma remember_inactive a r : is_active a = false → remember_revision a r = a.
Proof. unfold remember_revision. intros ->%is_active_false. done. Qed.

Lemma apply_edit_inactive a x y z : is_active a = false → apply_edit a x y z = a.
Proof. unfold apply_edit. intros ->%is_active_false. done. Qed.

Lemma set_start_inactive a : is_active a = false → set_start a None = a.
Proof. rewrite is_active_false. destruct a; simpl. by intros ->. Qed.


Lemma tracked_remember i st :
  Forall (λ a, is_active a = false) (archived_attachments st) →
  tracked_list (remember_current_revision st i)
  = (λ a, remember_revision a (revision i)) <$> tracked_list st.
Proof.
  intros Ha. unfold tracked_list. simpl. rewrite fmap_app.
  rewrite (fmap_inactive _ (archived_attachments st)); [done| |done].
  intros. by apply remember_inactive.
Qed.

Lemma tracked_sync i st x y z :
  Forall (λ a, is_active a = false) (archived_attachments st) →
  tracked_list (sync_after_edit st i x y z)
  ≡ₚ (λ a, remember_revision (apply_edit a x y z) (revision i)) <$> tracked_list st.
Proof.
  intros Ha. unfold sync_after_edit, tracked_list. simpl. set (g := λ a, apply_edit a x y z).
  pose proof (partition_by_perm is_active (g <$> active_attachments st)) as Hp. simpl in Hp.
  pose proof (partition_by_Forall is_active (g <$> active_attachments st)) as [_ Hin]. simpl in Hin.
  set (act := List.filter is_active (g <$> active_attachments st)) in *.
  set (rem := List.filter (λ a, negb (is_active a)) (g <$> active_attachments st)) in *.
  clearbody act rem. rewrite sort_by_key_perm, fmap_app.
  change (λ a, remember_revision (apply_edit a x y z) (revision i))
    with ((λ a, remember_revision a (revision i)) ∘ g).
  rewrite !list_fmap_compose, <- Hp, fmap_app.
  rewrite (fmap_inactive _ _ (λ a, remember_inactive a (revision i)) Hin).
  rewrite (fmap_inactive g (archived_attachments st)); [|intros; by apply apply_edit_inactive|done].
  rewrite (fmap_inactive _ _ (λ a, remember_inactive a (revision i)) Ha).
  rewrite <- app_assoc. by rewrite (Permutation_app_comm (archived_attachments st)).
Qed.

Lemma tracked_repartition st f : tracked_list (repartition st f) ≡ₚ f <$> tracked_list st.
Proof.
  unfold repartition, tracked_list at 1.
  etransitivity; [apply (partition_by_perm is_active)|].
  unfold tracked_attachments. by rewrite sort_by_key_perm.
Qed.

Lemma tracked_archive st :
  Forall (λ a, is_active a = false) (archived_attachments st) →
  tracked_list (archive_current st) ≡ₚ (λ a, set_start a None) <$> tracked_list st.
Proof.
  intros Ha. unfold tracked_list. simpl. rewrite sort_by_key_perm, fmap_app, Permutation_app_comm.
  rewrite (fmap_inactive _ (archived_attachments st)); [done|apply set_start_inactive|done].
Qed.

Lemma remember_current_ok i st :
  revisions_ok i → attachments_ok i st → attachments_ok i (remember_current_revision st i).
Proof.
  intros Hr Hok. apply (attachments_ok_rebuild i i st _ (λ a, remember_revision a (revision i)));
    simpl; try done.
  - by rewrite tracked_remember by apply Hok.
  - intros. apply remember_revision_fields.
  - intros. by apply remember_ok.
  - apply Forall_fmap. eapply Forall_impl; [apply Hok|]. intros a. simpl. by rewrite is_active_remember.
  - apply Hok.
Qed.

Lemma sync_after_edit_ok i st x y t c :
  x <= y → x <= length (text i) → (next_revision (history i) < u64_max)%Z →
  text (spliced i x y t c) ≠ text i →
  revisions_ok (spliced i x y t c) → attachments_ok i st →
  attachments_ok (spliced i x y t c) (sync_after_edit st (spliced i x y t c) x y (x + length t)).
Proof.
  intros Hxy Hx Hn Hne Hr Hok. set (i' := spliced i x y t c) in *.
  apply (attachments_ok_rebuild i i' st _
           (λ a, remember_revision (apply_edit a x y (x + length t)) (revision i'))).
  - done.
  - by rewrite tracked_sync by apply Hok.
  - intros a. rewrite (proj1 (remember_revision_fields _ _)). apply apply_edit_fields.
  - intros a _ Ha. apply remember_ok; [done|].
    destruct (apply_edit_fields a x y (x + length t)) as (En & Ep & El & _).
    apply (extend_ok i _ a); [by apply extends_spliced|done..|].
    intros s Hs. unfold i'. rewrite text_spliced. by apply (apply_edit_owns a); [done|done|apply Ha|].
  - simpl. apply Forall_fmap. eapply Forall_impl; [apply (partition_by_Forall is_active)|].
    intros a. simpl. by rewrite is_active_remember.
  - simpl. rewrite sort_by_key_perm. apply Forall_app; split; [apply Hok|].
    apply (partition_by_Forall is_active).
  - done.
Qed.

(** A repartition after the input moved to [i']. *)
Lemma repartition_ok i i' st f :
  attachments_ok i st →
  (∀ a, attachment_number (f a) = attachment_number a) →
  (∀ a, a ∈ tracked_list st → attachment_ok i a → attachment_ok i' (f a)) →
  attachments_ok i' (repartition st f).
Proof.
  intros Hok Hn Hf. apply (attachments_ok_rebuild i i' st _ f); try done.
  - by rewrite tracked_repartition.
  - apply (partition_by_Forall is_active).
  - apply (partition_by_Forall is_active).
Qed.

Lemma archive_ok i i' st :
  extends_input i i' → attachments_ok i st → attachments_ok i' (archive_current st).
Proof.
  intros He Hok. apply (attachments_ok_rebuild i i' st _ (λ a, set_start a None)); try done.
  - by rewrite tracked_archive by apply Hok.
  - intros a _ Ha. by apply (extend_ok i i' a).
  - simpl. rewrite sort_by_key_perm. apply Forall_app; split; [apply Hok|].
    apply Forall_fmap, Forall_true. done.
Qed.

Lemma prune_state_ok i st :
  attachments_ok i st → attachments_ok i (prune_unreachable st i).2.
Proof.
  intros Hok. apply (attachments_ok_rebuild i i st _ (prune_locations i)); try done.
  - unfold tracked_list. simpl. rewrite fmap_app. apply submseteq_app; [done|].
    apply sublist_submseteq, sublist_filter_b.
  - intros. by apply prune_ok.
  - simpl. apply Forall_fmap. eapply Forall_impl; [apply Hok|]. done.
  - simpl. apply Forall_forall. intros a [_ Ha]%elem_of_filter_b.
    apply list_elem_of_fmap in Ha as (a0 & -> & Ha).
    pose proof (ok_archived _ _ Hok) as Hf. rewrite Forall_forall in Hf. by apply (Hf a0).
Qed.

Lemma register_ok i st p s :
  revisions_ok i → attachments_ok i st →
  owns (text i) s (placeholder_for (next_attachment_number st)) →
  attachments_ok i (register_local_image st p s).
Proof.
  intros Hr [He Ha Hc Hu Hn] Hs. set (a := set_start (PromptAttachment_new (next_attachment_number st) p) (Some s)).
  assert (Ht : tracked_list (register_local_image st p s) ≡ₚ a :: tracked_list st).
  { unfold tracked_list. simpl. fold a. rewrite <- app_assoc. simpl. by rewrite <- Permutation_middle. }
  split.
  - rewrite Ht. apply Forall_cons; split; [|done]. split; simpl; try done;
      [by intros ? [= <-]|set_solver..|constructor].
  - simpl. apply Forall_app. split; [done|]. by repeat constructor.
  - done.
  - rewrite Ht. csimpl. constructor; [|done]. intros (b & Hb & Hin)%list_elem_of_fmap.
    rewrite Forall_forall in Hn. specialize (Hn b Hin). simpl in Hb. lia.
  - apply Forall_forall. intros b Hb. simpl. fold a.
    change (_ ++ archived_attachments st) with (tracked_list (register_local_image st p s)).
    pose proof (max_number_ge _ _ Hb). lia.
Qed.

Lemma max_number_le l n : Forall (λ a, attachment_number a <= n) l → max_number l <= n.
Proof. induction 1; cbn [max_number fold_right]; [lia|]. fold (max_number l). lia. Qed.

(** Registering takes the next number and counts on from it. *)
Lemma register_next i st p s :
  attachments_ok i st → next_attachment_number (register_local_image st p s) = S (next_attachment_number st).
Proof.
  intros [_ _ _ _ Hn]. simpl. set (a := set_start _ _).
  assert (a ∈ (active_attachments st ++ [a]) ++ archived_attachments st) as Ha by set_solver.
  pose proof (max_number_ge _ _ Ha) as H1. change (attachment_number a) with (next_attachment_number st) in H1.
  assert (Forall (λ b, attachment_number b <= next_attachment_number st)
            ((active_attachments st ++ [a]) ++ archived_attachments st)) as HF; [|apply max_number_le in HF; lia].
  unfold tracked_list in Hn. rewrite !Forall_app in *. destruct Hn as [H2 H3].
  split_and!; [|by repeat constructor|]; (eapply Forall_impl; [eassumption|]); simpl; lia.
Qed.

(** ** Image tokens *)

(** A text of the form [[Image #<digits>]]. *)
Definition is_token (tok : str) : Prop :=
  ∃ digits, digits ≠ [] ∧ forallb is_ascii_digit digits = true
    ∧ tok = image_prefix ++ digits ++ [closing_bracket].

Lemma owns_drop t k s : owns t k s ↔ ∃ rest, drop k t = s ++ rest.
Proof.
  unfold owns. split.
  - intros E. exists (drop (length s) (drop k t)). rewrite <- E at 1. by rewrite take_drop.
  - intros [rest ->]. by rewrite take_app_length.
Qed.

Lemma owns_length t k s : owns t k s → s ≠ [] → k + length s <= length t.
Proof.
  intros [rest E]%owns_drop Hne. apply (f_equal length) in E. rewrite length_drop, length_app in E.
  destruct s; simpl in *; [done|lia].
Qed.

Lemma owns_lookup t k s j c : owns t k s → s !! j = Some c → t !! (k + j) = Some c.
Proof.
  intros [rest E]%owns_drop Hj. rewrite <- lookup_drop, E, lookup_app_l; [done|].
  by eapply lookup_lt_Some.
Qed.

Lemma image_token_scan_Some rest k saw e :
  image_token_scan rest k saw = Some e ↔
  ∃ digits rest', rest = digits ++ closing_bracket :: rest'
    ∧ forallb is_ascii_digit digits = true ∧ (saw = true ∨ digits ≠ []) ∧ e = k + length digits + 1.
Proof.
  revert k saw. induction rest as [|c rest IH]; intros k saw; simpl.
  { split; [done|]. intros ([] & ? & ? & _); done. }
  destruct (is_ascii_digit c) eqn:Ec.
  - rewrite IH. split.
    + intros (ds & r & -> & Hd & _ & ->). exists (c :: ds), r. simpl. rewrite Ec.
      split_and!; [done|done|by right|lia].
    + intros ([|d ds] & r & [= -> ->] & Hd & _ & ->); [done|]. simpl in *.
      apply andb_true_iff in Hd as [_ Hd]. exists ds, r. split_and!; [done|done|by left|lia].
  - split.
    + destruct (N.eqb_spec c closing_bracket) as [->|]; destruct saw; simpl; [|done..].
      intros [= <-]. exists [], rest. simpl. split_and!; [done|done|by left|lia].
    + intros ([|d ds] & r & [= -> ->] & Hd & Hs & ->); simpl in *; [|by rewrite Ec in Hd].
      destruct Hs as [->|]; [|done]. simpl. f_equal. lia.
Qed.

Lemma is_token_length tok : is_token tok → 10 <= length tok.
Proof.
  intros (ds & Hne & _ & ->). rewrite !length_app. simpl. destruct ds; [done|simpl; lia].
Qed.

Lemma token_fits t k tok : is_token tok → owns t k tok → k + 10 <= length t.
Proof.
  intros Ht Ho. pose proof (is_token_length _ Ht). apply owns_length in Ho; [lia|].
  intros ->. simpl in *. lia.
Qed.

Lemma image_token_end_index_Some t k e :
  image_token_end_index t k = Some e ↔ ∃ tok, is_token tok ∧ owns t k tok ∧ e = k + length tok.
Proof.
  unfold image_token_end_index. split.
  - case_match eqn:E1; [done|]. destruct (starts_with (drop k t) image_prefix) eqn:E2; simpl; [|done].
    apply starts_with_true in E2 as [r Hr].
    intros (ds & r' & Hs & Hd & [?|Hne] & ->)%image_token_scan_Some; [done|].
    rewrite <- drop_drop, Hr, (drop_app_length' image_prefix) in Hs by done.
    exists (image_prefix ++ ds ++ [closing_bracket]). split; [by exists ds|]. split.
    + apply owns_drop. exists r'. rewrite Hr, Hs. by rewrite <- !app_assoc.
    + rewrite !length_app. simpl. lia.
  - intros (tok & Htok & Ho & ->). pose proof (is_token_length tok Htok) as Hlen.
    destruct Htok as (ds & Hne & Hd & ->). apply owns_drop in Ho as [r Hr].
    rewrite Hr. replace (_ || _) with false; cycle 1.
    { symmetry. apply orb_false_iff. split; [|done].
      apply Nat.ltb_ge. rewrite length_app. lia. }
    replace (starts_with _ _) with true; cycle 1.
    { symmetry. apply starts_with_true. rewrite <- app_assoc. by eexists. }
    simpl. apply image_token_scan_Some. exists ds, r. rewrite <- drop_drop, Hr, <- !app_assoc.
    rewrite (drop_app_length' image_prefix) by done.
    split_and!; [done|done|by right|]. rewrite !length_app. simpl. lia.
Qed.

(** A token opens only at its first character. *)
Lemma is_token_bracket tok j : is_token tok → tok !! j = Some 91%N → j = 0.
Proof.
  intros (ds & _ & Hd & ->) Hj. destruct (decide (j < 8)) as [Hlt|Hge].
  - do 8 (destruct j as [|j]; [done|]). lia.
  - rewrite lookup_app_r in Hj by (simpl; lia). apply list_elem_of_lookup_2 in Hj.
    apply elem_of_app in Hj as [Hj|Hj%list_elem_of_singleton]; [|done].
    apply (proj1 (forallb_true _ _) Hd) in Hj. done.
Qed.

Lemma is_token_head tok : is_token tok → tok !! 0 = Some 91%N.
Proof. by intros (ds & _ & _ & ->). Qed.

(** Two tokens of a text are the same or apart. *)
Lemma tokens_apart t k tok k' tok' :
  is_token tok → owns t k tok → is_token tok' → owns t k' tok' → k < k' → k + length tok <= k'.
Proof.
  intros Ht Ho Ht' Ho' Hlt. destruct (decide (k + length tok <= k')) as [|Hge]; [done|].
  destruct (lookup_lt_is_Some_2 tok (k' - k)) as [c Hc]; [lia|].
  pose proof (owns_lookup _ _ _ _ _ Ho Hc) as H1. replace (k + (k' - k)) with (k' + 0) in H1 by lia.
  rewrite (owns_lookup _ _ _ _ _ Ho' (is_token_head _ Ht')) in H1. simplify_eq.
  apply (is_token_bracket tok) in Hc; [lia|done].
Qed.

(** [(k, e, tok)] is an image token of [t]. *)
Definition token_at (t : str) (token : nat * nat * str) : Prop :=
  let '(k, e, tok) := token in is_token tok ∧ owns t k tok ∧ e = k + length tok.

Lemma token_at_unique t k e tok e' tok' :
  token_at t (k, e, tok) → token_at t (k, e', tok') → e = e' ∧ tok = tok'.
Proof.
  intros (Ht & Ho & ->) (Ht' & Ho' & ->).
  pose proof (proj2 (image_token_end_index_Some t k _) (ex_intro _ tok (conj Ht (conj Ho eq_refl)))) as H1.
  pose proof (proj2 (image_token_end_index_Some t k _) (ex_intro _ tok' (conj Ht' (conj Ho' eq_refl)))) as H2.
  assert (E : length tok = length tok') by (rewrite H1 in H2; simplify_eq; lia).
  unfold owns in *. split; congruence.
Qed.

Lemma image_token_loop_spec fuel t index k e tok :
  length t <= fuel + index →
  (k, e, tok) ∈ image_token_loop fuel t index ↔ index <= k ∧ token_at t (k, e, tok).
Proof.
  revert index. induction fuel as [|fuel IH]; intros index Hf; simpl.
  { split; [set_solver|]. intros (Hk & Ht & Ho & _). pose proof (token_fits _ _ _ Ht Ho). lia. }
  case_decide as Hlt; cycle 1.
  { split; [set_solver|]. intros (Hk & Ht & Ho & _). pose proof (token_fits _ _ _ Ht Ho). lia. }
  destruct (image_token_end_index t index) as [e0|] eqn:E.
  - apply image_token_end_index_Some in E as (tok0 & Ht0 & Ho0 & ->).
    pose proof (is_token_length _ Ht0). rewrite elem_of_cons, IH by lia.
    replace (index + length tok0 - index) with (length tok0) by lia.
    rewrite Ho0. split.
    + intros [[= -> -> ->]|[Hk Ht]]; [|split; [lia|done]]. done.
    + intros [Hk Htok]. destruct (decide (k = index)) as [->|Hne]; [left|right].
      * destruct (token_at_unique t index (index + length tok0) tok0 e tok) as [-> ->]; done.
      * split; [|done]. destruct Htok as (Ht & Ho & _).
        apply (tokens_apart t index tok0 k tok); [done..|lia].
  - rewrite IH by lia. split; [intros [? ?]; split; [lia|done]|].
    intros [Hk Htok]. split; [|done]. destruct (decide (k = index)) as [->|]; [|lia].
    destruct Htok as (Ht & Ho & ->).
    rewrite (proj2 (image_token_end_index_Some t index _) (ex_intro _ tok (conj Ht (conj Ho eq_refl)))) in E.
    done.
Qed.

Lemma image_token_ranges_spec t token : token ∈ image_token_ranges t ↔ token_at t token.
Proof.
  destruct token as [[k e] tok]. unfold image_token_ranges.
  rewrite image_token_loop_spec by lia. split; [tauto|]. split; [lia|done].
Qed.

(** A token lies before another. *)
Definition token_before (a b : nat * nat * str) : Prop := a.1.2 <= b.1.1.

Lemma image_token_loop_sorted fuel t index :
  StronglySorted token_before (image_token_loop fuel t index)
  ∧ Forall (λ token, index <= token.1.1 ∧ token.1.1 < token.1.2) (image_token_loop fuel t index).
Proof.
  revert index. induction fuel as [|fuel IH]; intros index; simpl; [by repeat constructor|].
  case_decide; [|by repeat constructor].
  destruct (image_token_end_index t index) as [e0|] eqn:E.
  - apply image_token_end_index_Some in E as (tok0 & Ht0 & _ & ->). pose proof (is_token_length _ Ht0).
    destruct (IH (index + length tok0)) as [Hs Hf]. split; constructor; simpl; [done| |lia|];
      (eapply Forall_impl; [exact Hf|]); unfold token_before; simpl; lia.
  - destruct (IH (index + 1)) as [Hs Hf]. split; [done|]. eapply Forall_impl; [exact Hf|]. simpl. lia.
Qed.

(** Expansion along an ordered list of tokens: nothing is cut, and nothing
    but the cut tokens is added. *)
Lemma expand_fold l s e :
  StronglySorted token_before l → Forall (λ token, token.1.1 < token.1.2) l → s < e →
  let '(s', e') := fold_left expand_step l (s, e) in
  s' <= s ∧ e <= e'
  ∧ (∀ k j w, (k, j, w) ∈ l → j <= s' ∨ e' <= k ∨ (s' <= k ∧ j <= e'))
  ∧ (s' = s ∨ ∃ k j w, (k, j, w) ∈ l ∧ s' = k ∧ k < s < j)
  ∧ (e' = e ∨ ∃ k j w, (k, j, w) ∈ l ∧ e' = j ∧ k < e < j).
Proof.
  revert s e. induction l as [|[[a b] w0] l IH]; intros s e Hs Hp Hse; cbn [fold_left].
  { split_and!; [lia|lia|set_solver|by left|by left]. }
  apply StronglySorted_inv in Hs as [Hs Hall]. apply Forall_cons in Hp as [Hab Hp]. simpl in Hab.
  rewrite Forall_forall in Hall. cbn [expand_step]. case_decide as Hov.
  - specialize (IH (s `min` a) (e `max` b) Hs Hp ltac:(lia)).
    destruct (fold_left expand_step l _) as [s' e']. destruct IH as (H1 & H2 & H3 & H4 & H5).
    assert (s' = s `min` a) as ->.
    { destruct H4 as [|(k & j & w & Hin & -> & ?)]; [done|]. apply Hall in Hin.
      unfold token_before in Hin. simpl in Hin. lia. }
    split_and!; [lia|lia| | |].
    + intros k j w [[= -> -> ->]|Hin]%elem_of_cons; [right; right; lia|eauto].
    + destruct (decide (s <= a)); [left; lia|]. right. exists a, b, w0. split; [set_solver|lia].
    + destruct H5 as [->|(k & j & w & Hin & -> & ?)].
      * destruct (decide (b <= e)); [left; lia|]. right. exists a, b, w0. split; [set_solver|lia].
      * right. exists k, j, w. split; [set_solver|]. apply Hall in Hin.
        unfold token_before in Hin. simpl in Hin. lia.
  - specialize (IH s e Hs Hp Hse).
    destruct (fold_left expand_step l _) as [s' e']. destruct IH as (H1 & H2 & H3 & H4 & H5).
    split_and!; [done|done| | |].
    + intros k j w [[= -> -> ->]|Hin]%elem_of_cons; [|eauto].
      destruct (decide (b <= s)) as [Hb|Hb].
      * left. destruct H4 as [->|(k & j & w & Hin & -> & ?)]; [done|]. apply Hall in Hin. done.
      * right; left. destruct H5 as [->|(k & j & w & Hin & -> & ?)]; [lia|]. apply Hall in Hin.
        unfold token_before in Hin. simpl in Hin. lia.
    + destruct H4 as [|(k & j & w & Hin & ?)]; [by left|]. right. exists k, j, w. split; [set_solver|done].
    + destruct H5 as [|(k & j & w & Hin & ?)]; [by left|]. right. exists k, j, w. split; [set_solver|done].
Qed.

(** ** The composer across its operations *)

Lemma composer_edit_ok self x y t c :
  composer_ok self → x <= y → x <= length (text (input self)) → c <= x + length t →
  (next_revision (history (input self)) < u64_max)%Z →
  let i' := spliced (input self) x y t c in
  text i' ≠ text (input self) →
  composer_ok (reset_transient self
    (sync_after_edit (remember_current_revision (attachment_state self) (input self)) i' x y
       (x + length t)) i').
Proof.
  intros [Hwf Hr Ha Hd Hs] Hxy Hx Hc Hn i' Hne.
  pose proof (step_splice (input self) InsertNewline x y t c Hxy Hx Hc) as Hstep. fold i' in Hstep.
  destruct (command_step_revisions _ _ _ Hwf Hr Hn Hstep) as [Hr' _]. split; simpl.
  - by eapply command_step_wf.
  - done.
  - apply sync_after_edit_ok; try done. by apply remember_current_ok.
  - intros r. done.
  - done.
Qed.

Lemma with_pruned_ok self : composer_ok self → composer_ok (with_pruned self).2.
Proof.
  intros [Hwf Hr Ha Hd Hs]. split; simpl; try done; [by apply prune_state_ok|].
  intros r Er. destruct (Hd r Er) as (Hlt & t & Et & Hown). split; [done|]. exists t. split; [done|].
  unfold tracked_list. simpl. intros a l Hin Hl Hrev.
  assert (∃ a0, a0 ∈ tracked_list (attachment_state self) ∧ a = prune_locations (input self) a0)
    as (a0 & Ha0 & ->).
  { unfold tracked_list. apply elem_of_app in Hin as [Hin|[_ Hin]%elem_of_filter_b];
      apply list_elem_of_fmap in Hin as (a0 & -> & Hin); set_solver. }
  simpl in Hl. apply elem_of_filter_b in Hl as [_ Hl]. by apply (Hown a0).
Qed.

(** A command that leaves the text as it is moves the cursor at most. *)
Lemma step_same_text i command i' :
  wf_input i → revisions_ok i → command_step i command i' → text i' = text i →
  ∃ c, i' = set_cursor i c.
Proof.
  intros Hwf Hr Hstep E. destruct Hstep as [command c Hc|command x y t c Hc| |].
  - eauto.
  - exists c. by apply spliced_same.
  - apply (undo_text_revision i Hwf Hr) in E. exists (cursor i). rewrite set_cursor_same.
    destruct (snoc_cases (undo_stack (history i))) as [Eu|(rest & s & Eu)].
    + unfold undo. by rewrite (proj2 (pop_back_None _) Eu).
    + apply (undo_text_revision i Hwf Hr) in E. destruct Hr as [Hl _].
      rewrite (undo_eq i s rest) in E by done. simpl in E.
      unfold timeline in Hl. rewrite Eu, <- app_assoc in Hl. simpl in Hl.
      apply linked_app in Hl as [_ [[_ Hne] _]]. done.
  - exists (cursor i). rewrite set_cursor_same.
    destruct (snoc_cases (redo_stack (history i))) as [Eu|(rest & s & Eu)].
    + unfold redo. by rewrite (proj2 (pop_back_None _) Eu).
    + destruct Hr as [Hl _]. rewrite (redo_eq i s rest) in E by done. simpl in E.
      unfold timeline in Hl. simpl in Hl. rewrite Eu, rev_app_distr in Hl. simpl in Hl.
      apply linked_app in Hl as [_ [[_ Hne] _]]. by destruct Hne.
Qed.

(** Without a deletion range, a command that is no history step changes the
    text only through its edit span. *)
Lemma plain_command_cases i command :
  wf_input i → command_ok i command → prompt_command_delete_range i command = Some None →
  is_history_restore command = false →
  ∃ i', run_command i command = Some i'
    ∧ (text i' = text i
       ∨ ∃ x y t c, prompt_command_edit_span i command = Some (x, y, x + length t)
           ∧ x <= y ∧ x <= length (text i) ∧ c <= x + length t ∧ i' = spliced i x y t c).
Proof.
  intros Hwf Hok Hdel Hhist. destruct (run_command_step i command Hwf Hok) as (i' & Hrun & _).
  exists i'. split; [done|]. pose proof (wf_cursor _ Hwf) as Hcur.
  destruct command as [| | | | |character| |added| | | | | | | | | | | |start stop added|]; simpl in Hrun, Hdel, Hhist; try done;
    try (left; unfold move_down, move_end, move_home, move_left, move_line_end, move_right, move_up,
           move_word_right in Hrun; repeat case_match; simplify_eq/=; done).
  - left. rewrite delete_backward_spliced in Hrun. repeat case_decide; simplify_eq; first [done|lia].
  - left. unfold delete_current_line in Hrun. unfold current_line_delete_range in Hdel.
    destruct (line_delete_range _ _) as [[ds de]|] eqn:El; [|done]. simpl in *.
    destruct (is_empty (text i)) eqn:Ee.
    + apply is_empty_true in Ee. unfold line_delete_range in El. rewrite Ee in El.
      replace (cursor i `min` length []) with 0 in El by (simpl; lia). simpl in El. simplify_eq.
      rewrite replace_range_spliced in Hrun by lia. simplify_eq. rewrite text_spliced.
      by rewrite Ee.
    + case_decide; [|done]. subst. rewrite replace_range_spliced in Hrun by lia. simplify_eq.
      rewrite text_spliced. simpl. by rewrite take_drop.
  - left. rewrite delete_forward_spliced in Hrun. repeat case_decide; simplify_eq; first [done|lia].
  - left. rewrite delete_to_line_end_spliced in Hrun. injection Hdel as Hdel. rewrite Hdel in Hrun.
    by simplify_eq.
  - left. unfold delete_word_backward in Hrun. rewrite Hdel in Hrun. simpl in Hrun. by simplify_eq.
  - right. rewrite insert_char_spliced in Hrun. simplify_eq.
    exists (cursor i), (cursor i), [character], (cursor i + 1). simpl. split_and!; try done; lia.
  - right. unfold insert_newline in Hrun. rewrite insert_char_spliced in Hrun. simplify_eq.
    exists (cursor i), (cursor i), [newline], (cursor i + 1). simpl. split_and!; try done; lia.
  - rewrite insert_text_spliced in Hrun. destruct (is_empty added); simplify_eq; [by left|right].
    exists (cursor i), (cursor i), added, (cursor i + length added). simpl. split_and!; try done; lia.
  - left. unfold move_line_start in Hrun. by destruct (scan_back _ _ _); simplify_eq/=.
  - left. unfold move_word_left in Hrun. repeat (case_decide || case_match || simplify_eq/=); try done.
    repeat match goal with H : mbind _ ?x = Some _ |- _ => destruct x; simplify_eq/= end. done.
  - right. destruct Hok as [H1 H2]. rewrite replace_range_spliced in Hrun by done. simplify_eq.
    exists start, stop, added, (start + length added). simpl. split_and!; try done; lia.
Qed.

(** ** Attachment numbers are conserved *)

Definition numbers (st : PromptAttachmentState) : list nat := attachment_number <$> tracked_list st.

Lemma numbers_perm st st' f :
  (∀ a, attachment_number (f a) = attachment_number a) →
  tracked_list st' ≡ₚ f <$> tracked_list st → numbers st' ≡ₚ numbers st.
Proof.
  intros Hf Hp. unfold numbers. rewrite Hp, <- list_fmap_compose.
  by rewrite (list_fmap_ext _ attachment_number) by (intros; apply Hf).
Qed.

Lemma numbers_remember i st :
  Forall (λ a, is_active a = false) (archived_attachments st) →
  numbers (remember_current_revision st i) ≡ₚ numbers st.
Proof.
  intros Ha. eapply numbers_perm; [|by rewrite tracked_remember].
  intros. apply remember_revision_fields.
Qed.

Lemma numbers_sync i st x y z :
  Forall (λ a, is_active a = false) (archived_attachments st) →
  numbers (sync_after_edit st i x y z) ≡ₚ numbers st.
Proof.
  intros Ha. eapply numbers_perm; [|by rewrite tracked_sync].
  intros a. simpl. rewrite (proj1 (remember_revision_fields _ _)). apply apply_edit_fields.
Qed.

Lemma numbers_repartition st f :
  (∀ a, attachment_number (f a) = attachment_number a) →
  numbers (repartition st f) ≡ₚ numbers st.
Proof. intros Hf. by apply (numbers_perm _ _ f), tracked_repartition. Qed.

Lemma numbers_archive st :
  Forall (λ a, is_active a = false) (archived_attachments st) →
  numbers (archive_current st) ≡ₚ numbers st.
Proof. intros Ha. eapply numbers_perm; [|by rewrite tracked_archive]. done. Qed.

(** Every attachment stays, with its number, its path and every location it remembers. *)
Definition keeps_each (st st' : PromptAttachmentState) : Prop :=
  ∀ a, a ∈ tracked_list st → ∃ a', a' ∈ tracked_list st'
    ∧ attachment_number a' = attachment_number a ∧ attachment_path a' = attachment_path a
    ∧ valid_locations a ⊆ valid_locations a'.

(** The same, and no number is taken or freed. *)
Record carried (st st' : PromptAttachmentState) : Prop := {
  carried_numbers : numbers st' ≡ₚ numbers st;
  carried_next : next_attachment_number st' = next_attachment_number st;
  carried_each : keeps_each st st'
}.

Lemma carried_refl st : carried st st.
Proof. split; [done|done|]. intros a Ha. by exists a. Qed.

Lemma carried_trans st1 st2 st3 : carried st1 st2 → carried st2 st3 → carried st1 st3.
Proof.
  intros [N1 X1 E1] [N2 X2 E2]. split; [by rewrite N2|by rewrite X2|]. intros a Ha.
  destruct (E1 a Ha) as (b & Hb & Nb & Pb & Lb). destruct (E2 b Hb) as (c & Hc & Nc & Pc & Lc).
  exists c. split_and!; [done|congruence|congruence|set_solver].
Qed.

Lemma carried_perm st st' f :
  (∀ a, attachment_number (f a) = attachment_number a ∧ attachment_path (f a) = attachment_path a
     ∧ valid_locations a ⊆ valid_locations (f a)) →
  next_attachment_number st' = next_attachment_number st →
  tracked_list st' ≡ₚ f <$> tracked_list st → carried st st'.
Proof.
  intros Hf Hx Hp. split; [apply (numbers_perm _ _ f); [apply Hf|done]|done|].
  intros a Ha. exists (f a). split; [|apply Hf]. rewrite Hp. by apply list_elem_of_fmap_2.
Qed.

Lemma remember_revision_keeps a r : valid_locations a ⊆ valid_locations (remember_revision a r).
Proof. unfold remember_revision. repeat case_match; simpl; set_solver. Qed.

Lemma remember_revision_carries a b r :
  attachment_number a = attachment_number b ∧ attachment_path a = attachment_path b
    ∧ valid_locations b ⊆ valid_locations a →
  attachment_number (remember_revision a r) = attachment_number b
    ∧ attachment_path (remember_revision a r) = attachment_path b
    ∧ valid_locations b ⊆ valid_locations (remember_revision a r).
Proof.
  intros (Hn & Hp & Hl). destruct (remember_revision_fields a r) as (-> & _ & _ & ->).
  split_and!; [done|done|]. etransitivity; [exact Hl|apply remember_revision_keeps].
Qed.

Lemma carried_remember i st :
  Forall (λ a, is_active a = false) (archived_attachments st) → carried st (remember_current_revision st i).
Proof.
  intros Ha. eapply carried_perm; [|done|by rewrite tracked_remember]. intros a. by apply remember_revision_carries.
Qed.

Lemma carried_sync i st x y z :
  Forall (λ a, is_active a = false) (archived_attachments st) → carried st (sync_after_edit st i x y z).
Proof.
  intros Ha. eapply carried_perm; [|done|by apply tracked_sync]. intros a. apply remember_revision_carries.
  by destruct (apply_edit_fields a x y z) as (-> & _ & -> & ->).
Qed.

Lemma carried_repartition st f :
  (∀ a, attachment_number (f a) = attachment_number a ∧ attachment_path (f a) = attachment_path a
     ∧ valid_locations a ⊆ valid_locations (f a)) →
  carried st (repartition st f).
Proof. intros Hf. by apply (carried_perm _ _ f), tracked_repartition. Qed.

Lemma carried_archive st :
  Forall (λ a, is_active a = false) (archived_attachments st) → carried st (archive_current st).
Proof. intros Ha. by eapply carried_perm; [|done|apply tracked_archive]. Qed.

(** What pruning returns and what it keeps make up the tracked attachments, and
    what it returns has no location left. *)
Lemma with_pruned_numbers self :
  numbers (attachment_state (with_pruned self).2) ++ (attachment_number <$> (with_pruned self).1)
  ≡ₚ numbers (attachment_state self).
Proof.
  unfold numbers, tracked_list, with_pruned, prune_unreachable. simpl.
  set (f := prune_locations (input self)).
  pose proof (partition_by_perm (λ a, negb (is_empty (valid_locations a)))
                (f <$> archived_attachments (attachment_state self))) as Hp. simpl in Hp.
  rewrite <- fmap_app, <- app_assoc, Hp, <- fmap_app, <- list_fmap_compose.
  by rewrite (list_fmap_ext _ attachment_number) by done.
Qed.

(** Every location of a retained revision is still remembered. *)
Definition remembers (st : PromptAttachmentState) (c : PromptComposerState) : Prop :=
  ∀ a l, a ∈ tracked_list st → l ∈ valid_locations a → retains_revision (input c) (loc_revision l) = true →
    ∃ a', a' ∈ tracked_list (attachment_state c) ∧ attachment_number a' = attachment_number a
      ∧ attachment_path a' = attachment_path a ∧ l ∈ valid_locations a'.

Lemma carried_remembers st c : carried st (attachment_state c) → remembers st c.
Proof.
  intros [_ _ He] a l Ha Hl _. destruct (He a Ha) as (a' & Hin & Hn & Hp & Hs). exists a'. split_and!; auto.
Qed.

Lemma with_pruned_remembers st self : keeps_each st (attachment_state self) → remembers st (with_pruned self).2.
Proof.
  intros He a l Ha Hl Hr. destruct (He a Ha) as (a' & Hin & Hn & Hp & Hs).
  exists (prune_locations (input self) a'). split_and!; [|done|done|].
  - assert (l ∈ valid_locations (prune_locations (input self) a')) as Hl'
      by (apply elem_of_filter_b; split; [exact Hr|by apply Hs]).
    unfold with_pruned, prune_unreachable, tracked_list. simpl. apply elem_of_app in Hin as [Hin|Hin].
    + apply elem_of_app. left. by apply list_elem_of_fmap_2.
    + apply elem_of_app. right. apply elem_of_filter_b. split; [|by apply list_elem_of_fmap_2].
      destruct (valid_locations (prune_locations (input self) a')); [by apply not_elem_of_nil in Hl'|done].
  - apply elem_of_filter_b. split; [exact Hr|by apply Hs].
Qed.

Lemma with_pruned_removed self :
  composer_ok self →
  Forall (λ a, current_start a = None ∧ valid_locations a = []) (with_pruned self).1.
Proof.
  intros Hok. apply Forall_forall. intros a. unfold with_pruned, prune_unreachable. simpl.
  intros [He (a0 & -> & Hin)%list_elem_of_fmap]%elem_of_filter_b.
  pose proof (ok_archived _ _ (ok_attachments _ Hok)) as Ha. rewrite Forall_forall in Ha.
  split; [by apply is_active_false, (Ha a0)|]. apply is_empty_true.
  by destruct (is_empty _).
Qed.

(** ** The deletion ranges *)

Lemma word_range i :
  wf_input i → ∃ r, word_delete_range i = Some r
    ∧ ∀ s e, r = Some (s, e) → s < e ∧ s < length (text i).
Proof.
  intros [Hc _ _ _]. unfold word_delete_range. case_decide as H0; [by eexists|].
  destruct (scan_back_spec is_whitespace (text i) (cursor i) Hc) as (a & -> & Ha & _ & Hstop). simpl.
  destruct (scan_back_spec not_whitespace (text i) a) as (b & -> & Hb & _ & Hstop'); [lia|]. simpl.
  destruct (scan_back_spec is_whitespace (text i) b) as (d & -> & Hd & _); [lia|]. simpl.
  eexists. split; [reflexivity|]. intros s e [= <- <-].
  assert (d < cursor i); [|lia]. destruct (decide (d = cursor i)) as [->|]; [exfalso|lia].
  assert (a = cursor i) as -> by lia. assert (b = cursor i) as -> by lia.
  destruct (lookup_lt_is_Some_2 (text i) (cursor i - 1)) as [c Hlk]; [lia|].
  specialize (Hstop c H0 Hlk). specialize (Hstop' c H0 Hlk). unfold not_whitespace in Hstop'.
  by rewrite Hstop in Hstop'.
Qed.

Lemma current_line_range i :
  wf_input i → ∃ r, current_line_delete_range i = Some r
    ∧ ∀ s e, r = Some (s, e) → s < e ∧ s < length (text i).
Proof.
  intros [Hc _ _ _]. unfold current_line_delete_range. destruct (is_empty (text i)); [by eexists|].
  rewrite Nat.min_l by done. unfold line_delete_range.
  destruct (scan_back_spec not_newline (text i) (cursor i) Hc) as (a & -> & Ha & _). simpl.
  pose proof (scan_forward_bounds not_newline (text i) (cursor i) Hc) as Hf.
  set (b := scan_forward not_newline (text i) (cursor i)) in *. clearbody b.
  do 2 (try case_decide); simpl; eexists; (split; [reflexivity|]); intros s e E;
    repeat case_decide; simplify_eq; lia.
Qed.

Lemma delete_range_bounds i command :
  wf_input i → ∃ r, prompt_command_delete_range i command = Some r
    ∧ ∀ s e, r = Some (s, e) → s < e ∧ s < length (text i).
Proof.
  intros Hwf. pose proof (wf_cursor _ Hwf) as Hc.
  pose proof (scan_forward_bounds not_newline (text i) (cursor i) Hc) as Hf.
  destruct command; simpl; try (eexists; split; [reflexivity|done]);
    [|by apply current_line_range| | |by apply word_range];
    (eexists; split; [reflexivity|]); unfold line_end_delete_range; intros s e E;
    case_decide; simplify_eq; lia.
Qed.

Lemma expand_bounds t s e :
  s < e → let '(s', e') := expand_delete_range_to_image_tokens t s e in
  s' <= s ∧ e <= e'.
Proof.
  intros Hse. unfold expand_delete_range_to_image_tokens.
  destruct (image_token_loop_sorted (length t) t 0) as [Hs Hf].
  pose proof (expand_fold (image_token_ranges t) s e Hs) as H.
  destruct (fold_left expand_step (image_token_ranges t) (s, e)) as [s' e'].
  destruct H as (? & ? & _); [|done|done]. eapply Forall_impl; [exact Hf|]. simpl. lia.
Qed.

Lemma composer_delete_ok self s e :
  composer_ok self → s < e → s < length (text (input self)) →
  (next_revision (history (input self)) < u64_max)%Z →
  ∃ x y, x <= s ∧ e <= y
    ∧ expand_delete_range_to_image_tokens (text (input self)) s e = (x, y)
    ∧ let i' := spliced (input self) x y [] x in
      let self' := reset_transient self
        (sync_after_edit (remember_current_revision (attachment_state self) (input self)) i' x y x) i' in
      apply_prompt_delete_range self s e = Some self' ∧ composer_ok self'
      ∧ text i' ≠ text (input self).
Proof.
  intros Hok Hse Hs Hn. pose proof (expand_bounds (text (input self)) s e Hse) as Hb.
  unfold apply_prompt_delete_range.
  destruct (expand_delete_range_to_image_tokens (text (input self)) s e) as [x y] eqn:E.
  destruct Hb as [Hx Hy]. exists x, y. do 3 (split; [done|]).
  rewrite decide_False by lia. rewrite replace_range_spliced by lia. simpl. rewrite Nat.add_0_r.
  assert (Hne : text (spliced (input self) x y [] x) ≠ text (input self)).
  { rewrite text_spliced. intros El%(f_equal length). simpl in El.
    rewrite length_app, length_take, length_drop in El. lia. }
  split_and!; [done| |done].
  pose proof (composer_edit_ok self x y [] x Hok) as Hedit. simpl in Hedit. rewrite Nat.add_0_r in Hedit.
  apply Hedit; try done; lia.
Qed.

(** ** Commands on the composer *)

Lemma draft_remember h i st :
  Forall (λ a, is_active a = false) (archived_attachments st) →
  draft_ok h i st → draft_ok h i (remember_current_revision st i).
Proof.
  intros Ha Hd r Er. destruct (Hd r Er) as (Hlt & t & Et & Hown). split; [done|]. exists t.
  split; [done|]. intros a l. rewrite tracked_remember by done.
  intros (a0 & -> & Hin)%list_elem_of_fmap Hl Hrev.
  destruct (remember_revision_fields a0 (revision i)) as (_ & -> & _).
  apply remember_revision_locations in Hl as [Hl|(s & _ & ->)]; [by apply (Hown a0)|].
  simpl in Hrev. lia.
Qed.

Lemma attachments_set_cursor_ok i c st : attachments_ok i st → attachments_ok (set_cursor i c) st.
Proof.
  intros [He Ha Hr Hu Hn]. split; try done. eapply Forall_impl; [exact He|].
  intros a. apply set_cursor_ok.
Qed.

(** The state left by a command that does not change the text. *)
Lemma composer_moved_ok self c :
  composer_ok self → c <= length (text (input self)) →
  composer_ok {| attachment_state := remember_current_revision (attachment_state self) (input self);
                 history_state := history_state self; input := set_cursor (input self) c;
                 slash_state := slash_state self |}.
Proof.
  intros [Hwf Hr Ha Hd Hs] Hc. split; simpl; try done.
  - by apply wf_set_cursor.
  - by apply revisions_set_cursor.
  - by apply attachments_set_cursor_ok, remember_current_ok.
  - intros r Er. apply (draft_remember _ (input self)); [apply Ha|done|done].
Qed.

(** The state left by undo and redo, before pruning. *)
Lemma composer_restored_ok self i' :
  composer_ok self → wf_input i' → revisions_ok i' →
  timeline i' = timeline (input self) →
  next_revision (history i') = next_revision (history (input self)) →
  composer_ok (reset_transient self
    (sync_after_history_restore
       (remember_current_revision (attachment_state self) (input self)) i') i').
Proof.
  intros [Hwf Hr Ha Hd Hs] Hwf' Hr' Ht Hn. split; simpl; try done.
  apply (repartition_ok (input self)); [by apply remember_current_ok|done|].
  intros a _ Hok. by apply (restore_ok (input self)).
Qed.

(** What a prompt command guarantees: no panic, the invariant, and that the
    tracked attachments are those before less the pruned ones. *)
Definition prompt_result (self : PromptComposerState)
    (result : list PromptAttachment * PromptComposerState) : Prop :=
  composer_ok result.2
  ∧ numbers (attachment_state result.2) ++ (attachment_number <$> result.1)
    ≡ₚ numbers (attachment_state self)
  ∧ next_attachment_number (attachment_state result.2) = next_attachment_number (attachment_state self)
  ∧ remembers (attachment_state self) result.2
  ∧ Forall (λ a, current_start a = None ∧ valid_locations a = []) result.1.

Lemma prompt_result_pruned self self1 :
  composer_ok self1 → carried (attachment_state self) (attachment_state self1) →
  prompt_result self (with_pruned self1).
Proof.
  intros Hok Hp. split_and!;
    [by apply with_pruned_ok| |apply Hp|apply with_pruned_remembers, Hp|by apply with_pruned_removed].
  rewrite with_pruned_numbers. apply Hp.
Qed.

Lemma carried_edit self i i' x y z :
  composer_ok self → carried (attachment_state self) (sync_after_edit (remember_current_revision (attachment_state self) i) i' x y z).
Proof.
  intros Hok. pose proof (ok_archived _ _ (ok_attachments _ Hok)) as Ha.
  eapply carried_trans; [by apply carried_remember|by apply carried_sync].
Qed.

Lemma archived_inactive self :
  composer_ok self → Forall (λ a, is_active a = false) (archived_attachments (attachment_state self)).
Proof. intros Hok. apply (ok_archived _ _ (ok_attachments _ Hok)). Qed.

Lemma step_timeline self command i' :
  wf_input self → is_history_restore command = true → run_command self command = Some i' →
  timeline i' = timeline self ∧ next_revision (history i') = next_revision (history self).
Proof.
  intros Hwf. destruct command; simpl; try done; intros _ [= <-];
    auto using timeline_undo, timeline_redo, next_revision_undo, next_revision_redo.
Qed.

Lemma apply_prompt_ok self command :
  composer_ok self → command_ok (input self) command →
  (next_revision (history (input self)) < u64_max)%Z →
  ∃ result, apply_prompt_input_command self command = Some result ∧ prompt_result self result.
Proof.
  intros Hok Hcmd Hn. pose proof (ok_input _ Hok) as Hwf. pose proof (ok_revisions _ Hok) as Hr.
  pose proof (archived_inactive _ Hok) as Ha.
  unfold apply_prompt_input_command.
  destruct (delete_range_bounds (input self) command Hwf) as (r & Hdel & Hb). rewrite Hdel. simpl.
  destruct r as [[s e]|].
  { destruct (Hb s e eq_refl) as [H1 H2].
    destruct (composer_delete_ok self s e Hok H1 H2 Hn) as (x & y & _ & _ & _ & Hdo & Hok' & _).
    rewrite Hdo. simpl. eexists. split; [reflexivity|]. apply prompt_result_pruned; [done|].
    by apply carried_edit. }
  destruct (run_command_step (input self) command Hwf Hcmd) as (i' & Hrun & Hstep).
  destruct (command_step_revisions _ _ _ Hwf Hr Hn Hstep) as [Hr' Hiff].
  pose proof (command_step_wf _ _ _ Hwf Hstep) as Hwf'.
  unfold apply_command. rewrite Hrun. simpl. eexists. split; [reflexivity|].
  destruct (Z.eqb_spec (revision i') (revision (input self))) as [Erev|Erev]; simpl.
  - rewrite bool_decide_false by (by case_decide). apply Hiff in Erev.
    destruct (step_same_text _ _ _ Hwf Hr Hstep Erev) as [c ->].
    pose proof (carried_remember (input self) (attachment_state self) Ha) as Hca.
    split_and!; [|simpl; rewrite app_nil_r; apply Hca|done|by apply carried_remembers|constructor].
    apply composer_moved_ok; [done|apply (wf_cursor _ Hwf')].
  - destruct (is_history_restore command) eqn:Eh.
    + destruct (step_timeline _ _ _ Hwf Eh Hrun) as [Ht Hnext].
      apply prompt_result_pruned; [by apply composer_restored_ok|]. simpl.
      eapply carried_trans; [by apply carried_remember|by apply carried_repartition].
    + destruct (plain_command_cases _ _ Hwf Hcmd Hdel Eh) as (i1 & Hrun1 & Hcase). simplify_eq.
      destruct Hcase as [Esame|(x & y & t & c & Hspan & Hxy & Hx & Hc & ->)];
        [by apply Hiff in Esame|].
      rewrite Hspan. apply prompt_result_pruned.
      * apply composer_edit_ok; try done. intros E. by apply Hiff in E.
      * by apply carried_edit.
Qed.

(** ** History navigation on the composer *)

Lemma reset_text_ok i t :
  revisions_ok i → (next_revision (history i) < u64_max)%Z →
  wf_input (reset_text i t) ∧ revisions_ok (reset_text i t).
Proof.
  intros Hr Hn. pose proof (current_revision_bound i Hr) as Hb.
  destruct Hr as [_ Hf]. rewrite Forall_forall in Hf. specialize (Hf _ (current_in_timeline i)).
  simpl in Hf. split.
  - split; simpl; [done|constructor|constructor|unfold INPUT_HISTORY_LIMIT; lia].
  - unfold revisions_ok, timeline, reset_text, fresh_history. simpl.
    rewrite u64_saturating_add_lt by done. split; [done|]. apply Forall_singleton. simpl.
    unfold revision in *. simpl. lia.
Qed.

(** The kept draft against attachments that may still change its revision. *)
Definition draft_kept (h : PromptHistoryState) (i : InputState) (st : PromptAttachmentState) : Prop :=
  ∀ r, draft_input_revision h = Some r →
    (r <= revision i)%Z
    ∧ ∃ t, draft_text h = Some t
        ∧ ∀ a l, a ∈ tracked_list st → l ∈ valid_locations a → loc_revision l = r →
            owns t (loc_start l) (attachment_placeholder a).

Lemma show_history_ok self st h index :
  index < length (history_entries h) → revisions_ok (input self) →
  attachments_ok (input self) st → draft_kept h (input self) st →
  (next_revision (history (input self)) < u64_max)%Z →
  ∃ self', show_history_entry self st h index = Some self' ∧ composer_ok self'
    ∧ carried st (attachment_state self')
    ∧ history_entries h !! index = Some (text (input self')).
Proof.
  intros Hi Hr Ha Hd Hn. destruct (lookup_lt_is_Some_2 _ _ Hi) as [entry E].
  unfold show_history_entry. rewrite E. simpl. eexists. split; [reflexivity|].
  destruct (reset_text_ok (input self) entry Hr Hn) as [Hwf' Hr'].
  pose proof (extends_reset (input self) entry Hn) as Hext. split_and!; [|by apply carried_archive, Ha|done].
  split; simpl; try done.
  - by apply (archive_ok (input self)).
  - intros r Er. destruct (Hd r Er) as (Hle & t & Et & Hown). split.
    { destruct Hext as (_ & Hlt & _). pose proof (current_revision_bound _ Hr). lia. }
    exists t. split; [done|]. intros a l Hin Hl Hrev.
    rewrite (tracked_archive st (ok_archived _ _ Ha)) in Hin.
    apply list_elem_of_fmap in Hin as (a0 & -> & Hin). by apply (Hown a0).
  - by intros k [= <-].
Qed.

Lemma draft_ok_kept h i st : draft_ok h i st → draft_kept h i st.
Proof. intros Hd r Er. destruct (Hd r Er) as [Hlt ?]. split; [lia|done]. Qed.

Lemma navigate_up_ok self :
  composer_ok self → (next_revision (history (input self)) < u64_max)%Z →
  ∃ self', navigate_prompt_history_up self = Some self' ∧ composer_ok self'
    ∧ carried (attachment_state self) (attachment_state self').
Proof.
  intros Hok Hn. pose proof Hok as [Hwf Hr Ha Hd Hs]. unfold navigate_prompt_history_up.
  destruct (is_empty (history_entries (history_state self))) eqn:Ee; [by eexists; split_and!; [| |apply carried_refl]|].
  apply is_empty_false in Ee. destruct (history_entries (history_state self)) as [|e0 es] eqn:Eh; [done|].
  destruct (history_selected_index (history_state self)) as [k|] eqn:Ek.
  - destruct (show_history_ok self (attachment_state self) (history_state self) (k - 1))
      as (self' & ? & ? & ? & _); [|done|done|by apply draft_ok_kept|done|by eexists].
    specialize (Hs k eq_refl). rewrite Eh. simpl in *. lia.
  - edestruct (show_history_ok self (remember_current_revision (attachment_state self) (input self)))
      as (self' & Hshow & Hok' & Hp & _); [..|exists self'; split; [exact Hshow|split; [done|]]].
    + simpl. lia.
    + done.
    + by apply remember_current_ok.
    + intros r [= <-]. split; [done|]. simpl. eexists. split; [done|].
      pose proof (remember_current_ok _ _ Hr Ha) as [He _ _ _ _]. rewrite Forall_forall in He.
      intros a l Hin Hl Hrev. apply (ok_locations _ _ (He a Hin) l (snapshot (input self))); try done.
      apply current_in_timeline.
    + done.
    + eapply carried_trans; [by apply carried_remember, Ha|exact Hp].
Qed.

Lemma number_restored a r r' :
  attachment_number (remember_revision (restore_revision a r) r') = attachment_number a.
Proof. by rewrite (proj1 (remember_revision_fields _ _)). Qed.

Lemma restore_draft_ok self r t :
  composer_ok self → (next_revision (history (input self)) < u64_max)%Z →
  draft_input_revision (history_state self) = Some r → draft_text (history_state self) = Some t →
  attachments_ok (reset_text (input self) t)
    (restore_draft_revision (attachment_state self) r (reset_text (input self) t)).
Proof.
  intros Hok Hn Er Et. destruct Hok as [Hwf Hr Ha Hd Hs].
  destruct (Hd r Er) as (_ & t' & Et' & Hown). simplify_eq.
  destruct (reset_text_ok (input self) t Hr Hn) as [_ Hr'].
  apply (repartition_ok (input self)); [done|intros; apply number_restored|].
  intros a Hin Hok. apply remember_ok; [done|].
  apply (extend_ok (input self) _ a); try done; [by apply extends_reset|].
  intros s Hs'. apply restore_start in Hs'; [|apply Hok]. apply (Hown a _ Hin Hs' eq_refl).
Qed.

Lemma navigate_down_ok self :
  composer_ok self → (next_revision (history (input self)) < u64_max)%Z →
  ∃ self', navigate_prompt_history_down self = Some self' ∧ composer_ok self'
    ∧ carried (attachment_state self) (attachment_state self').
Proof.
  intros Hok Hn. pose proof Hok as [Hwf Hr Ha Hd Hs]. unfold navigate_prompt_history_down.
  destruct (history_selected_index (history_state self)) as [k|] eqn:Ek; [|by eexists; split_and!; [| |apply carried_refl]].
  case_decide as Hk.
  - destruct (show_history_ok self (attachment_state self) (history_state self) (k + 1))
      as (self' & ? & ? & ? & _); [done|done|done|by apply draft_ok_kept|done|by eexists].
  - eexists. split; [reflexivity|]. simpl.
    destruct (draft_input_revision (history_state self)) as [r|] eqn:Er.
    + destruct (Hd r Er) as (_ & t & Et & _). rewrite Et. simpl.
      destruct (reset_text_ok (input self) t Hr Hn) as [Hwf' Hr']. split.
      * split; simpl; try done. by apply restore_draft_ok.
      * apply carried_repartition. intros. by apply remember_revision_carries.
    + destruct (reset_text_ok (input self) (default [] (draft_text (history_state self))) Hr Hn) as [Hwf' Hr'].
      split; [|by apply carried_archive, Ha]. split; simpl; try done.
      apply (archive_ok (input self)); [by apply extends_reset|done].
Qed.

(** ** Pasted images on the composer *)

Lemma insert_local_image_ok self p :
  composer_ok self → (next_revision (history (input self)) < u64_max)%Z →
  let n := next_attachment_number (attachment_state self) in
  ∃ self', insert_local_image self p = Some self' ∧ composer_ok self'
    ∧ numbers (attachment_state self') ≡ₚ n :: numbers (attachment_state self)
    ∧ next_attachment_number (attachment_state self') = S n
    ∧ keeps_each (attachment_state self) (attachment_state self')
    ∧ text (input self') = take (cursor (input self)) (text (input self)) ++ placeholder_for n
                           ++ drop (cursor (input self)) (text (input self)).
Proof.
  intros Hok Hn n. pose proof Hok as [Hwf Hr Ha Hd Hs]. unfold insert_local_image.
  change (next_attachment_number (remember_current_revision _ _)) with n. cbv zeta.
  assert (Hph : is_empty (placeholder_for n) = false) by done.
  assert (Hlen : 0 < length (placeholder_for n)) by (unfold placeholder_for; simpl; lia).
  remember (placeholder_for n) as ph eqn:Eph. rewrite insert_text_spliced, Hph. cbn [mbind option_bind].
  pose proof (wf_cursor _ Hwf) as Hc. set (c := cursor (input self)) in *.
  set (i' := spliced (input self) c c ph (c + length ph)). 
  replace (cursor i') with (c + length ph) by (symmetry; apply cursor_spliced).
  eexists. split; [reflexivity|].
  assert (Ht : text i' = take c (text (input self)) ++ ph ++ drop c (text (input self)))
    by apply text_spliced.
  assert (Hne : text i' ≠ text (input self)).
  { rewrite Ht. intros E%(f_equal length). rewrite !length_app, length_take, length_drop in E. lia. }
  destruct (composer_edit_ok self c c ph (c + length ph) Hok) as [Hwf' Hr' Ha' _ _]; [done..|].
  cbn [input attachment_state reset_transient] in *. fold i' in Hwf', Hr', Ha'.
  match type of Ha' with attachments_ok _ ?x => set (st := x) in * end.
  assert (Hreg : attachments_ok i' (register_local_image st p c)).
  { apply register_ok; [done|done|]. change (next_attachment_number st) with n. rewrite <- Eph, Ht.
    apply owns_drop. rewrite drop_app_length' by (rewrite length_take; lia). by eexists. }
  pose proof (carried_edit self (input self) i' c c (c + length ph) Hok) as Hca. fold st in Hca.
  pose proof (carried_remember i' _ (ok_archived _ _ Hreg)) as Hcr.
  split_and!; [| | | |done].
  - split; [done|done|by apply remember_current_ok|done|done].
  - rewrite numbers_remember by apply Hreg. unfold numbers, tracked_list. simpl.
    change (next_attachment_number st) with n.
    rewrite <- app_assoc, fmap_app, fmap_app. simpl. rewrite <- Permutation_middle, <- fmap_app.
    constructor. change (numbers st ≡ₚ numbers (attachment_state self)). unfold st.
    rewrite numbers_sync, numbers_remember; [done|apply Ha|apply Ha].
  - rewrite (carried_next _ _ Hcr), (register_next i'), (carried_next _ _ Hca) by done. done.
  - intros a Hin. destruct (carried_each _ _ Hca a Hin) as (a1 & Hin1 & Hn1 & Hp1 & Hl1).
    destruct (carried_each _ _ Hcr a1) as (a2 & Hin2 & Hn2 & Hp2 & Hl2).
    { unfold tracked_list in *. simpl. set_solver. }
    exists a2. split_and!; [done|congruence|congruence|set_solver].
Qed.

(** ** Attachments shown by a revision *)

Abbreviation view := (nat * str * str * nat)%type.

(** What the composer shows of an attachment: number, path, placeholder, start. *)
Definition view_at (a : PromptAttachment) (s : nat) : view :=
  (attachment_number a, attachment_path a, attachment_placeholder a, s).

Definition current_view (a : PromptAttachment) : option view := view_at a <$> current_start a.

Definition shown (st : PromptAttachmentState) : list view := omap current_view (tracked_list st).

(** The same for the location of a revision. *)
Definition view_of_revision (r : Z) (a : PromptAttachment) : option view :=
  (λ l, view_at a (loc_start l)) <$> list_find_b (at_revision r) (valid_locations a).

Lemma view_restore r a : current_view (restore_revision a r) = view_of_revision r a.
Proof. unfold current_view, view_of_revision. simpl. by destruct (list_find_b _ _). Qed.

Lemma view_remember_other r r' a : r ≠ r' → view_of_revision r (remember_revision a r') = view_of_revision r a.
Proof.
  intros Hne. unfold view_of_revision, remember_revision. repeat case_match; try done. simpl.
  rewrite list_find_b_app; [done|]. simpl. unfold at_revision. simpl.
  rewrite orb_false_r. apply Z.eqb_neq. done.
Qed.

Lemma view_remember_current i a :
  attachment_ok i a → view_of_revision (revision i) (remember_revision a (revision i)) = current_view a.
Proof.
  intros Hok. unfold view_of_revision, remember_revision, current_view.
  destruct (current_start a) as [s|] eqn:Es; simpl.
  - destruct (existsb (at_revision (revision i)) (valid_locations a)) eqn:Ee; simpl.
    + destruct (list_find_b _ _) as [l|] eqn:El; simpl.
      * apply list_find_b_Some in El as [Hin Hr%Z.eqb_eq].
        rewrite (ok_current _ _ Hok l Hin Hr) in Es. by simplify_eq.
      * apply existsb_true in Ee as (l & Hin & Hr). rewrite list_find_b_None in El.
        by rewrite (El l Hin) in Hr.
    + assert (El : list_find_b (at_revision (revision i)) (valid_locations a ++ [mkLocation (revision i) s])
        = Some (mkLocation (revision i) s)); [|by rewrite El].
      clear Hok. induction (valid_locations a) as [|l ls IH]; simpl in *.
      * unfold at_revision. simpl. by rewrite Z.eqb_refl.
      * apply orb_false_iff in Ee as [-> Ee]. by apply IH.
  - destruct (list_find_b _ _) as [l|] eqn:El; simpl; [|done].
    apply list_find_b_Some in El as [Hin Hr%Z.eqb_eq].
    rewrite (ok_current _ _ Hok l Hin Hr) in Es. done.
Qed.

Lemma view_prune i r a : retains_revision i r = true → view_of_revision r (prune_locations i a) = view_of_revision r a.
Proof.
  intros Hr. unfold view_of_revision, prune_locations. simpl.
  rewrite list_find_b_filter; [done|]. intros l Hl. apply Z.eqb_eq in Hl. by rewrite Hl.
Qed.

Lemma view_apply_edit r a x y z : view_of_revision r (apply_edit a x y z) = view_of_revision r a.
Proof. unfold view_of_revision, apply_edit. by repeat case_match. Qed.

(** Pruning keeps what is shown now, and what a retained revision shows. *)
Lemma shown_pruned i st :
  Forall (λ a, is_active a = false) (archived_attachments st) →
  shown (prune_unreachable st i).2 = shown st.
Proof.
  intros Ha. unfold shown, tracked_list. simpl. rewrite !omap_app, omap_fmap. f_equal.
  rewrite omap_filter_None, omap_fmap; [done|].
  intros a (a0 & -> & Hin)%list_elem_of_fmap _. rewrite Forall_forall in Ha.
  unfold current_view. simpl. by rewrite (proj1 (is_active_false a0) (Ha a0 Hin)).
Qed.

Lemma revision_shown_pruned i st r :
  retains_revision i r = true →
  omap (view_of_revision r) (tracked_list (prune_unreachable st i).2)
  = omap (view_of_revision r) (tracked_list st).
Proof.
  intros Hr. unfold tracked_list. simpl. rewrite !omap_app. f_equal.
  - rewrite omap_fmap. apply omap_eq. intros. by apply view_prune.
  - rewrite omap_filter_None, omap_fmap.
    + apply omap_eq. intros. by apply view_prune.
    + intros a _ He. apply negb_false_iff, is_empty_true in He. unfold view_of_revision. by rewrite He.
Qed.

(** The state after an edit of the text, before pruning. *)
Definition edited (self : PromptComposerState) (x y z : nat) (i' : InputState) : PromptComposerState :=
  reset_transient self
    (sync_after_edit (remember_current_revision (attachment_state self) (input self)) i' x y z) i'.

Lemma apply_prompt_edit_shape self command result :
  composer_ok self → command_ok (input self) command →
  (next_revision (history (input self)) < u64_max)%Z → is_history_restore command = false →
  apply_prompt_input_command self command = Some result →
  text (input result.2) ≠ text (input self) →
  ∃ x y z t c, result = with_pruned (edited self x y z (spliced (input self) x y t c)).
Proof.
  intros Hok Hcmd Hn Hh Happ Hne. pose proof (ok_input _ Hok) as Hwf.
  unfold apply_prompt_input_command in Happ.
  destruct (delete_range_bounds (input self) command Hwf) as (r & Hdel & Hb). rewrite Hdel in Happ.
  cbn [mbind option_bind] in Happ. destruct r as [[s e]|].
  { destruct (Hb s e eq_refl) as [H1 H2].
    destruct (composer_delete_ok self s e Hok H1 H2 Hn) as (x & y & _ & _ & _ & Hdo & _).
    rewrite Hdo in Happ. injection Happ as <-. by exists x, y, x, [], x. }
  destruct (plain_command_cases _ _ Hwf Hcmd Hdel Hh) as (i1 & Hrun & Hcase).
  unfold apply_command in Happ. rewrite Hrun in Happ. cbn [mbind option_bind] in Happ.
  rewrite Hh in Happ. destruct (Z.eqb_spec (revision i1) (revision (input self))) as [Er|Er]; simpl in Happ.
  - rewrite bool_decide_false in Happ by (by case_decide). injection Happ as <-. simpl in Hne.
    destruct Hcase as [?|(x & y & t & c & _ & Hxy & Hx & Hc & ->)]; [done|].
    pose proof (step_splice (input self) InsertNewline x y t c Hxy Hx Hc) as Hstep.
    destruct (command_step_revisions _ _ _ Hwf (ok_revisions _ Hok) Hn Hstep) as [_ Hiff].
    by apply Hiff in Er.
  - destruct Hcase as [E|(x & y & t & c & Hspan & _ & _ & _ & ->)].
    + injection Happ as <-. done.
    + rewrite Hspan in Happ. injection Happ as <-. by exists x, y, (x + length t), t, c.
Qed.

(** What an edit leaves of the views of a revision before it. *)
Lemma edited_views self x y z i' :
  composer_ok self → revision i' ≠ revision (input self) →
  retains_revision i' (revision (input self)) = true →
  omap (view_of_revision (revision (input self)))
    (tracked_list (attachment_state (with_pruned (edited self x y z i')).2))
  ≡ₚ shown (attachment_state self).
Proof.
  intros Hok Hne Hret. pose proof (ok_attachments _ Hok) as Ha. pose proof (archived_inactive _ Hok) as Hi.
  change (attachment_state (with_pruned (edited self x y z i')).2)
    with (prune_unreachable (attachment_state (edited self x y z i')) i').2.
  rewrite revision_shown_pruned by done.
  change (attachment_state (edited self x y z i'))
    with (sync_after_edit (remember_current_revision (attachment_state self) (input self)) i' x y z).
  rewrite tracked_sync by done. rewrite tracked_remember by done. rewrite !omap_fmap.
  unfold shown. erewrite omap_eq; [done|]. intros a Hin. simpl.
  rewrite view_remember_other by done. rewrite view_apply_edit. apply view_remember_current.
  pose proof (ok_each _ _ Ha) as He. rewrite Forall_forall in He. auto.
Qed.

(** Undo on the composer shows what the revision it reaches showed. *)
Lemma apply_prompt_undo self result :
  composer_ok self → apply_prompt_input_command self Undo = Some result →
  revision (undo (input self)) ≠ revision (input self) →
  input result.2 = undo (input self)
  ∧ shown (attachment_state result.2)
    ≡ₚ omap (view_of_revision (revision (undo (input self)))) (tracked_list (attachment_state self)).
Proof.
  intros Hok Happ Hne. pose proof (archived_inactive _ Hok) as Hi.
  unfold apply_prompt_input_command, apply_command in Happ. cbn [run_command mbind option_bind prompt_command_delete_range] in Happ.
  apply Z.eqb_neq in Hne as Hb. rewrite Hb in Happ. simpl in Happ. injection Happ as <-.
  split; [done|]. set (i' := undo (input self)) in *.
  match goal with |- shown (attachment_state ?x.2) ≡ₚ _ => change (attachment_state x.2) with
    (prune_unreachable (sync_after_history_restore
      (remember_current_revision (attachment_state self) (input self)) i') i').2 end.
  rewrite shown_pruned by apply (partition_by_Forall is_active).
  unfold shown, sync_after_history_restore. rewrite tracked_repartition, tracked_remember by done.
  rewrite !omap_fmap. erewrite omap_eq; [done|]. intros a _. simpl. rewrite view_restore.
  by apply view_remember_other.
Qed.

Lemma undo_after_edit i x y t c :
  wf_input (spliced i x y t c) → text (spliced i x y t c) ≠ text i →
  snapshot (undo (spliced i x y t c)) = snapshot i
  ∧ retains_revision (spliced i x y t c) (revision i) = true.
Proof.
  intros Hwf Hne. destruct (undo_stack_spliced i x y t c Hne) as (kept & Hk & _). split.
  - rewrite (undo_eq _ _ _ Hwf Hk). by destruct i.
  - unfold retains_revision. rewrite Hk. apply orb_true_iff. right. apply existsb_true.
    exists (snapshot i). split; [set_solver|]. apply Z.eqb_refl.
Qed.

(** ** Submission *)

Lemma placeholder_is_token n : is_token (placeholder_for n).
Proof.
  exists (display_nat n). split_and!; [apply display_nat_not_nil|apply display_nat_digits|done].
Qed.

Lemma placeholder_for_inj n m : placeholder_for n = placeholder_for m → n = m.
Proof.
  unfold placeholder_for. intros E%app_inv_head. apply app_inv_tail in E. by apply display_nat_inj.
Qed.

(** [a] stands before [b] in the text. *)
Definition stands_before (a b : PromptAttachment) : Prop :=
  ∃ s s', current_start a = Some s ∧ current_start b = Some s'
    ∧ s + length (attachment_placeholder a) <= s'.

(** Two active attachments stand apart. *)
Lemma active_apart i st a b :
  attachments_ok i st → a ∈ active_attachments st → b ∈ active_attachments st →
  attachment_number a ≠ attachment_number b → (start_key a <= start_key b)%Z → stands_before a b.
Proof.
  intros [He Hact _ _ _] Ha Hb Hne Hle. rewrite Forall_forall in He. rewrite Forall_forall in Hact.
  assert (Hoka : attachment_ok i a) by (apply He; unfold tracked_list; set_solver).
  assert (Hokb : attachment_ok i b) by (apply He; unfold tracked_list; set_solver).
  pose proof (Hact a Ha) as Ea. pose proof (Hact b Hb) as Eb. unfold is_active, start_key in *.
  destruct (current_start a) as [s|] eqn:Es; [|done]. destruct (current_start b) as [s'|] eqn:Es'; [|done].
  exists s, s'. split_and!; [done|done|].
  pose proof (ok_start _ _ Hoka s Es) as Hoa. pose proof (ok_start _ _ Hokb s' Es') as Hob.
  pose proof (placeholder_is_token (attachment_number a)) as Ta.
  pose proof (placeholder_is_token (attachment_number b)) as Tb.
  rewrite (ok_placeholder _ _ Hoka) in *. rewrite (ok_placeholder _ _ Hokb) in *.
  destruct (decide (s = s')) as [<-|]; [|by apply (tokens_apart _ _ _ _ _ Ta Hoa Tb Hob); lia].
  destruct (token_at_unique (text i) s _ _ _ _ (conj Ta (conj Hoa eq_refl)) (conj Tb (conj Hob eq_refl)))
    as [_ E]. by apply placeholder_for_inj in E.
Qed.

Lemma sorted_apart i st l :
  attachments_ok i st → (∀ a, a ∈ l → a ∈ active_attachments st) →
  NoDup (attachment_number <$> l) →
  StronglySorted (λ a b, (start_key a <=? start_key b)%Z = true) l → StronglySorted stands_before l.
Proof.
  intros Hok Hin Hd Hs. induction Hs as [|a l Hs IH Hall]; [constructor|]. csimpl in Hd.
  apply NoDup_cons in Hd as [Ha Hd]. constructor; [apply IH; [set_solver|done]|].
  apply Forall_forall. intros b Hb. rewrite Forall_forall in Hall. specialize (Hall b Hb).
  apply (active_apart i st); [done|set_solver|set_solver| |by apply Z.leb_le].
  intros E. apply Ha. rewrite E. by apply list_elem_of_fmap_2.
Qed.

Lemma filter_active l : Forall (λ a, is_active a = true) l → List.filter is_active l = l.
Proof. induction 1 as [|a l Ha _ IH]; simpl; [done|]. by rewrite Ha, IH. Qed.

(** ** Properties *)

(** undo takes back an edit of the prompt together with its attachments:
    after a command that changed the text, undo gives the text, cursor and
    revision before it and shows the same attachments at the same positions. *)
Lemma undo_restores_attachments self command result result' :
  composer_ok self → command_ok (input self) command →
  (next_revision (history (input self)) < u64_max)%Z → is_history_restore command = false →
  apply_prompt_input_command self command = Some result →
  text (input result.2) ≠ text (input self) →
  apply_prompt_input_command result.2 Undo = Some result' →
  snapshot (input result'.2) = snapshot (input self)
  ∧ shown (attachment_state result'.2) ≡ₚ shown (attachment_state self).
Proof.
  intros Hok Hcmd Hn Hh Happ Hne Hundo.
  destruct (apply_prompt_ok self command Hok Hcmd Hn) as (r0 & E & Hok' & _).
  rewrite Happ in E. simplify_eq.
  destruct (apply_prompt_edit_shape self command r0 Hok Hcmd Hn Hh Happ Hne)
    as (x & y & z & t & c & ->).
  change (input (with_pruned ?s).2) with (input s) in Hne. simpl in Hne.
  pose proof (ok_input _ Hok') as Hwf'. simpl in Hwf'.
  destruct (undo_after_edit _ _ _ _ _ Hwf' Hne) as [Hsnap Hret].
  set (i' := spliced (input self) x y t c) in *.
  assert (Erev : revision (undo i') = revision (input self)) by apply (f_equal snap_revision Hsnap).
  assert (Hdiff : revision i' ≠ revision (input self)).
  { pose proof (current_revision_bound _ (ok_revisions _ Hok)).
    destruct (extends_spliced _ _ _ _ _ Hn Hne) as (_ & Hlt & _). unfold i'. lia. }
  destruct (apply_prompt_undo _ result' Hok' Hundo) as [-> Hs]; [simpl; fold i'; congruence|].
  split; [done|]. rewrite Hs.
  change (input (with_pruned (edited self x y z i')).2) with i'. rewrite Erev.
  by apply edited_views.
Qed.

(** C7: the composer never panics and keeps its attachments consistent.  Every
    editing command, image paste and history step of a consistent composer gives
    a state in which each active attachment owns its placeholder at its recorded
    position and each remembered location holds in its retained revision.
    Attachment numbers are never reused: every tracked number is below the next
    one, a paste takes exactly that next number and advances it, and nothing
    else changes it.  Nothing that a retained revision still locates is
    forgotten: commands and pastes keep every location of every retained
    revision, history steps keep all of them, and an attachment is given up for
    cleanup only when it is inactive and no retained revision locates it.  And
    undo after a command that changed the text gives back the text, cursor and
    revision before it and shows the same attachments at the same positions.
    (The revision counter has not reached its width, and a replacement is given
    a range of the text.) *)
Theorem composer_invariant self :
  composer_ok self → (next_revision (history (input self)) < u64_max)%Z →
  (∀ command, command_ok (input self) command →
     ∃ result, apply_prompt_input_command self command = Some result ∧ prompt_result self result)
  ∧ (∀ p, let n := next_attachment_number (attachment_state self) in
       ∃ result, insert_pasted_image_placeholder self p = Some result ∧ composer_ok result.2
       ∧ n ∉ numbers (attachment_state self)
       ∧ numbers (attachment_state result.2) ++ (attachment_number <$> result.1) ≡ₚ n :: numbers (attachment_state self)
       ∧ next_attachment_number (attachment_state result.2) = S n
       ∧ remembers (attachment_state self) result.2)
  ∧ (∃ self', navigate_prompt_history_up self = Some self' ∧ composer_ok self'
       ∧ carried (attachment_state self) (attachment_state self'))
  ∧ (∃ self', navigate_prompt_history_down self = Some self' ∧ composer_ok self'
       ∧ carried (attachment_state self) (attachment_state self'))
  ∧ (∀ command result result', command_ok (input self) command → is_history_restore command = false →
       apply_prompt_input_command self command = Some result →
       text (input result.2) ≠ text (input self) →
       apply_prompt_input_command result.2 Undo = Some result' →
       snapshot (input result'.2) = snapshot (input self)
       ∧ shown (attachment_state result'.2) ≡ₚ shown (attachment_state self)).
Proof.
  intros Hok Hn. split_and!; auto using apply_prompt_ok, navigate_up_ok, navigate_down_ok.
  - intros p n. destruct (insert_local_image_ok self p Hok Hn) as (self1 & Hins & Hok1 & Hp & Hx & He & _).
    unfold insert_pasted_image_placeholder. rewrite Hins. eexists. split; [reflexivity|].
    split_and!; [by apply with_pruned_ok| |by rewrite with_pruned_numbers|exact Hx|].
    + intros (a & Ea & Ha)%list_elem_of_fmap. pose proof (ok_next _ _ (ok_attachments _ Hok)) as Hl.
      rewrite Forall_forall in Hl. specialize (Hl a Ha). unfold n in Ea. lia.
    + by apply with_pruned_remembers.
  - intros. by eapply undo_restores_attachments.
Qed.

(** a deletion takes image placeholders whole: the expanded range covers the
    requested one, every [[Image #<digits>]] of the text lies inside it or
    apart from it, and a bound moves only to the bound of a token it would
    have cut. *)
Theorem expand_delete_range_spec t start stop :
  start < stop →
  let '(s, e) := expand_delete_range_to_image_tokens t start stop in
  s <= start ∧ stop <= e
  ∧ (∀ k tok, is_token tok → owns t k tok →
       k + length tok <= s ∨ e <= k ∨ (s <= k ∧ k + length tok <= e))
  ∧ (s ≠ start → ∃ tok, is_token tok ∧ owns t s tok ∧ s < start < s + length tok)
  ∧ (e ≠ stop → ∃ k tok, is_token tok ∧ owns t k tok ∧ e = k + length tok ∧ k < stop < e).
Proof.
  intros Hse. unfold expand_delete_range_to_image_tokens.
  destruct (image_token_loop_sorted (length t) t 0) as [Hs Hf].
  pose proof (expand_fold (image_token_ranges t) start stop Hs) as H.
  destruct (fold_left expand_step (image_token_ranges t) (start, stop)) as [s e].
  destruct H as (H1 & H2 & H3 & H4 & H5); [eapply Forall_impl; [exact Hf|]; simpl; lia|done|].
  split_and!; [done|done| | |].
  - intros k tok Htok Ho. apply (H3 k (k + length tok) tok). by apply image_token_ranges_spec.
  - intros Hne. destruct H4 as [|(k & j & w & Hin & -> & ?)]; [done|].
    apply image_token_ranges_spec in Hin as (Htok & Ho & ->). eauto.
  - intros Hne. destruct H5 as [|(k & j & w & Hin & -> & ?)]; [done|].
    apply image_token_ranges_spec in Hin as (Htok & Ho & ->). eauto 10.
Qed.

(** a submission carries the whole prompt: the text, and every active
    attachment once, in the order of its placeholders, which stand apart in
    the text; so the transcript shows the text as it was typed. The composer is
    left with an empty text and no attachment, and the attachments it no longer
    shows, none of which is submitted, are returned for cleanup. *)
Theorem take_submitted_turn_prompt_spec self :
  composer_ok self →
  ∃ submitted,
    submitted ≡ₚ active_attachments (attachment_state self)
    ∧ StronglySorted stands_before submitted
    ∧ let '(prompt, cleanup, self') := take_submitted_turn_prompt self in
      attachments prompt
      = ((λ a, mkAttachment (attachment_path a) (attachment_placeholder a)) <$> submitted)
      ∧ prompt_text prompt = text (input self)
      ∧ transcript_text prompt = text (input self)
      ∧ text (input self') = [] ∧ tracked_list (attachment_state self') = []
      ∧ submitted ++ cleanup ≡ₚ tracked_list (attachment_state self)
      ∧ Forall (λ a, current_start a = None) cleanup.
Proof.
  intros Hok. pose proof (ok_attachments _ Hok) as Ha.
  pose proof (filter_active _ (ok_active _ _ Ha)) as Ef.
  exists (sort_by_key start_key (active_attachments (attachment_state self))).
  split; [apply sort_by_key_perm|]. split.
  - apply (sorted_apart (input self) (attachment_state self)); [done| | |apply sort_by_key_sorted].
    + intros a. apply sort_by_elem.
    + rewrite sort_by_key_perm. pose proof (ok_unique _ _ Ha) as Hu. unfold tracked_list in Hu.
      rewrite fmap_app in Hu. by apply NoDup_app in Hu as [? _].
  - unfold take_submitted_turn_prompt, drain_prompt_submission. simpl. rewrite Ef.
    split_and!; try done; cycle 1.
    { unfold tracked_list. by rewrite sort_by_key_perm. }
    { eapply Forall_impl; [apply (ok_archived _ _ Ha)|]. intros a. apply is_active_false. }
    unfold transcript_text, missing_placeholders. simpl.
    match goal with |- context [List.filter ?p ?l] => replace (List.filter p l) with (@nil TurnPromptAttachment) end;
      [done|]. symmetry. apply filter_none. intros b (a & -> & Hin)%list_elem_of_fmap.
    apply sort_by_elem in Hin. simpl. apply negb_false_iff, str_contains_true.
    pose proof (ok_each _ _ Ha) as He. rewrite Forall_forall in He.
    pose proof (He a ltac:(unfold tracked_list; set_solver)) as Hoka.
    pose proof (ok_active _ _ Ha) as Hact. rewrite Forall_forall in Hact. specialize (Hact a Hin).
    unfold is_active in Hact. destruct (current_start a) as [s|] eqn:Es; [|done].
    destruct (proj1 (owns_drop _ _ _) (ok_start _ _ Hoka s Es)) as [rest Hr].
    exists (take s (text (input self))), rest. rewrite <- Hr. by rewrite take_drop.
Qed.

(** ** Witnesses *)

Lemma new_composer_ok kinds entries :
  composer_ok (with_input_and_history InputState_default kinds entries).
Proof.
  split; simpl; try done.
  - split; simpl; try done; try constructor. unfold INPUT_HISTORY_LIMIT. lia.
  - split; simpl; [done|]. by repeat constructor.
  - split; simpl; try done; constructor.
Qed.

(** A prompt into which an image was pasted. *)
Definition pasted_composer : PromptComposerState :=
  default (PromptComposerState_new [])
    (insert_local_image (with_input_and_history InputState_default [] [L"old"]) L"a.png").

Lemma pasted_composer_ok : composer_ok pasted_composer.
Proof.
  destruct (insert_local_image_ok (with_input_and_history InputState_default [] [L"old"]) L"a.png")
    as (self' & E & Hok & _); [apply new_composer_ok|vm_compute; reflexivity|].
  unfold pasted_composer. rewrite E. exact Hok.
Qed.

Lemma composer_invariant_witness :
  ∃ result, apply_prompt_input_command pasted_composer DeleteBackward = Some result
    ∧ prompt_result pasted_composer result.
Proof.
  assert (Hn : (next_revision (history (input pasted_composer)) < u64_max)%Z) by (vm_compute; reflexivity).
  exact (proj1 (composer_invariant pasted_composer pasted_composer_ok Hn) DeleteBackward I).
Defined.

Lemma expand_delete_range_witness :
  expand_delete_range_to_image_tokens L"a[Image #1]b" 10 11 = (1, 11)
  ∧ 1 <= 10 ∧ 11 <= 11.
Proof.
  split; [reflexivity|].
  assert (H : 10 < 11) by lia. pose proof (expand_delete_range_spec L"a[Image #1]b" 10 11 H) as Hs.
  change (expand_delete_range_to_image_tokens L"a[Image #1]b" 10 11) with (1, 11) in Hs.
  split; apply Hs.
Defined.

Definition after_delete : list PromptAttachment * PromptComposerState :=
  default ([], pasted_composer) (apply_prompt_input_command pasted_composer DeleteBackward).

Definition after_undo : list PromptAttachment * PromptComposerState :=
  default ([], pasted_composer) (apply_prompt_input_command after_delete.2 Undo).

Lemma undo_restores_attachments_witness :
  text (input after_delete.2) = [] ∧ active_attachments (attachment_state after_delete.2) = []
  ∧ shown (attachment_state after_undo.2) ≡ₚ shown (attachment_state pasted_composer).
Proof.
  split; [vm_compute; reflexivity|]. split; [vm_compute; reflexivity|].
  assert (Hn : (next_revision (history (input pasted_composer)) < u64_max)%Z) by (vm_compute; reflexivity).
  assert (H1 : apply_prompt_input_command pasted_composer DeleteBackward = Some after_delete)
    by (vm_compute; reflexivity).
  assert (H2 : apply_prompt_input_command after_delete.2 Undo = Some after_undo)
    by (vm_compute; reflexivity).
  assert (Hne : text (input after_delete.2) ≠ text (input pasted_composer))
    by (vm_compute; discriminate).
  exact (proj2 (undo_restores_attachments pasted_composer DeleteBackward after_delete after_undo
           pasted_composer_ok I Hn eq_refl H1 Hne H2)).
Defined.

Lemma take_submitted_turn_prompt_witness :
  prompt_text (take_submitted_turn_prompt pasted_composer).1.1 = L"[Image #1]"
  ∧ transcript_text (take_submitted_turn_prompt pasted_composer).1.1 = text (input pasted_composer).
Proof.
  split; [reflexivity|].
  destruct (take_submitted_turn_prompt_spec pasted_composer pasted_composer_ok) as (l & _ & _ & H).
  destruct (take_submitted_turn_prompt pasted_composer) as [[prompt cleanup] self']. apply H.
Defined.

(** ** An insertion of nothing *)

(** The prompt with the cursor inside its placeholder. *)
Definition inside_composer : PromptComposerState :=
  {| attachment_state := attachment_state pasted_composer;
     history_state := history_state pasted_composer;
     input := set_cursor (input pasted_composer) 3;
     slash_state := slash_state pasted_composer |}.

(** Inserting the empty text inside a placeholder leaves the text alone and
    still takes the attachment away, so that a submission shows its placeholder
    without the image. *)
Lemma empty_insert_drops_attachment :
  shown (attachment_state inside_composer) = [(1, L"a.png", L"[Image #1]", 0)]
  ∧ ∃ self', composer_insert_text inside_composer [] = Some self'
      ∧ text (input self') = text (input inside_composer)
      ∧ shown (attachment_state self') = []
      ∧ prompt_text (take_submitted_turn_prompt self').1.1 = L"[Image #1]"
      ∧ attachments (take_submitted_turn_prompt self').1.1 = [].
Proof.
  split; [vm_compute; reflexivity|]. eexists.
  split; [vm_compute; reflexivity|]. split_and!; vm_compute; reflexivity.
Qed.
