(* ===== verification/Scheduler.v ===== *)
(** * Session worker (crates/ag-worker/src/scheduler.rs, mailbox.rs)

    Selection of the next work item from workflow commands and queued
    messages, the serial run loop with its mailbox, pauses and retirement, and
    the application's own queue (crates/agentty/src/app/session/workflow/worker.rs). *)
From S2P Require Import Prelude Contracts Agent Lifecycle Prompt Session.

(** ** The host interfaces *)

Class ScheduledCommand (C : Type) := {
  command_order : C → option Z;
  can_run_while_paused : C → bool
}.

Inductive ScheduledWork (C M : Type) :=
| WorkCommand (command : C)
| WorkMessage (message : M).
Arguments WorkCommand {C M} _.
Arguments WorkMessage {C M} _.

(** The queue of a host with state [H]. *)
Class WorkQueue (H M : Type) := {
  host_paused : H → bool;
  message_order : H → option Z;
  pop_message : H → option (M * H)
}.

(** What the scheduler relies on: the host keeps an ordered queue of messages,
    announces the order of its front and pops from its front. *)
Class WorkQueueLaws (H M : Type) `{!WorkQueue H M} := {
  pending : H → list M;
  order_of : M → Z;
  message_order_front h : message_order h = order_of <$> head (pending h);
  pop_message_front h :
    match pop_message h with
    | Some (m, h') => pending h = m :: pending h' ∧ host_paused h' = host_paused h
    | None => pending h = []
    end
}.

Section scheduler.
Context {C H M : Type} `{!ScheduledCommand C} `{!WorkQueue H M}.

(** [order <= message], with an absent message after every command. *)
Definition command_first (order : Z) (message : option Z) : bool :=
  match message with None => true | Some m => (order <=? m)%Z end.

Definition take_message (host : H) (commands : list C) : option (ScheduledWork C M * H * list C) :=
  match pop_message host with
  | Some (m, host) => Some (WorkMessage m, host, commands)
  | None => None
  end.

Definition next_work (host : H) (commands : list C) : option (ScheduledWork C M * H * list C) :=
  if host_paused host then
    index ← position can_run_while_paused commands;
    command ← commands !! index;
    Some (WorkCommand command, host, remove_nth index commands)
  else
    match commands with
    | [] => take_message host commands
    | command :: rest =>
        match command_order command with
        | None => Some (WorkCommand command, host, rest)
        | Some order =>
            if command_first order (message_order host)
            then Some (WorkCommand command, host, rest)
            else take_message host commands
        end
    end.

Definition MAILBOX_DRAIN_BATCH_SIZE : nat := 64.

(** ** The run loop *)

(** Who holds the execution mutex. *)
Inductive Holder := Free | HeldByWorker | HeldByPause.

#[global] Instance Holder_eq_dec : EqDecision Holder.
Proof using. solve_decision. Defined.

Inductive Event :=
| Executed (work : ScheduledWork C M)
| Abandoned (work : ScheduledWork C M)
| ShutDown.

(** Where the worker stands in [run_until_stopped]. *)
Inductive Pc :=
| Locking                               (* execution.lock().await *)
| Draining (drained : nat)              (* while drained < MAILBOX_DRAIN_BATCH_SIZE *)
| Checking (drained : nat)              (* if stop.is_cancelled() *)
| Selecting (drained : nat)             (* next_work *)
| Executing (work : ScheduledWork C M)  (* host.execute(work).await *)
| Waiting                               (* tokio::select! *)
| Closing                               (* receiver.close() *)
| Flushing                              (* while let Ok(command) = receiver.try_recv() *)
| Settling                              (* execution.lock().await *)
| AbandoningCommands                    (* for command in commands *)
| AbandoningMessages                    (* while let Some(message) = host.pop_message() *)
| Releasing                             (* host.shutdown().await *)
| Returned.

(** The worker, its mailbox and what its handles share with it; [accepted]
    records the commands [submit] took, [log] the effects on the host. *)
Record World := mkWorld {
  pc : Pc;
  host : H;
  buffer : list C;
  mailbox : list C;
  receiver_open : bool;
  senders : bool;
  stop : bool;
  wakeup : bool;
  execution : Holder;
  accepted : list C;
  log : list Event
}.

Definition goto (w : World) (next : Pc) : World :=
  mkWorld next (host w) (buffer w) (mailbox w) (receiver_open w) (senders w) (stop w) (wakeup w)
    (execution w) (accepted w) (log w).

Definition set_execution (w : World) (holder : Holder) : World :=
  mkWorld (pc w) (host w) (buffer w) (mailbox w) (receiver_open w) (senders w) (stop w) (wakeup w)
    holder (accepted w) (log w).

Definition set_queues (w : World) (h : H) (commands incoming : list C) : World :=
  mkWorld (pc w) h commands incoming (receiver_open w) (senders w) (stop w) (wakeup w)
    (execution w) (accepted w) (log w).

Definition set_wakeup (w : World) (permit : bool) : World :=
  mkWorld (pc w) (host w) (buffer w) (mailbox w) (receiver_open w) (senders w) (stop w) permit
    (execution w) (accepted w) (log w).

Definition set_stop (w : World) : World :=
  mkWorld (pc w) (host w) (buffer w) (mailbox w) (receiver_open w) (senders w) true (wakeup w)
    (execution w) (accepted w) (log w).

Definition close_receiver (w : World) : World :=
  mkWorld (pc w) (host w) (buffer w) (mailbox w) false (senders w) (stop w) (wakeup w)
    (execution w) (accepted w) (log w).

Definition record (w : World) (event : Event) : World :=
  mkWorld (pc w) (host w) (buffer w) (mailbox w) (receiver_open w) (senders w) (stop w) (wakeup w)
    (execution w) (accepted w) (log w ++ [event]).

(** [try_recv] into the buffer: the state after it, when a command was there. *)
Definition receive (w : World) : option World :=
  match mailbox w with
  | [] => None
  | command :: rest => Some (set_queues w (host w) (buffer w ++ [command]) rest)
  end.

(** Awaits the execution mutex; [None] while another holder has it. *)
Definition lock_execution (w : World) (next : Pc) : option World :=
  match execution w with
  | Free => Some (goto (set_execution w HeldByWorker) next)
  | _ => None
  end.

Definition unlock_to (w : World) (next : Pc) : World := goto (set_execution w Free) next.

(** The branches of the biased [select!], in its order; [None] while none is
    ready. *)
Definition select_step (w : World) : option World :=
  if stop w then Some (goto w Closing)
  else
    match receive w with
    | Some w' => Some (goto w' Locking)
    | None =>
        if negb (senders w) then Some (goto w Closing)
        else if wakeup w then Some (goto (set_wakeup w false) Locking)
        else None
    end.

(** One step of the worker's task; [None] when it waits or has returned. *)
Definition worker_step (w : World) : option World :=
  match pc w with
  | Locking => lock_execution w (Draining 0)
  | Draining drained =>
      if (drained <? MAILBOX_DRAIN_BATCH_SIZE) && negb (stop w) then
        match receive w with
        | Some w' => Some (goto w' (Draining (drained + 1)))
        | None => Some (goto w (Checking drained))
        end
      else Some (goto w (Checking drained))
  | Checking drained =>
      if stop w then Some (unlock_to w Closing) else Some (goto w (Selecting drained))
  | Selecting drained =>
      match next_work (host w) (buffer w) with
      | Some (work, h, commands) =>
          Some (goto (set_queues w h commands (mailbox w)) (Executing work))
      | None =>
          Some (unlock_to w (if drained =? MAILBOX_DRAIN_BATCH_SIZE then Locking else Waiting))
      end
  | Executing work => Some (unlock_to (record w (Executed work)) Locking)
  | Waiting => select_step w
  | Closing => Some (goto (close_receiver w) Flushing)
  | Flushing =>
      match receive w with
      | Some w' => Some (goto w' Flushing)
      | None => Some (goto w Settling)
      end
  | Settling => lock_execution w AbandoningCommands
  | AbandoningCommands =>
      match buffer w with
      | command :: rest =>
          Some (record (set_queues w (host w) rest (mailbox w)) (Abandoned (WorkCommand command)))
      | [] => Some (goto w AbandoningMessages)
      end
  | AbandoningMessages =>
      match pop_message (host w) with
      | Some (message, h) =>
          Some (record (set_queues w h (buffer w) (mailbox w)) (Abandoned (WorkMessage message)))
      | None => Some (goto w Releasing)
      end
  | Releasing => Some (unlock_to (record w ShutDown) Returned)
  | Returned => None
  end.

(** ** Handles *)

(** [submit]: [inl] the state after an accepted command, [inr] the returned
    command. *)
Definition submit (w : World) (command : C) : World + C :=
  if stop w then inr command
  else if receiver_open w
  then inl (mkWorld (pc w) (host w) (buffer w) (mailbox w ++ [command]) (receiver_open w) (senders w)
              (stop w) (wakeup w) (execution w) (accepted w ++ [command]) (log w))
  else inr command.

(** [pause] once the mutex is free; [None] while it waits for it. *)
Definition pause (w : World) : option World :=
  match execution w with Free => Some (set_execution w HeldByPause) | _ => None end.

Definition drop_pause (w : World) : World :=
  match execution w with HeldByPause => set_execution w Free | _ => w end.

(** [shutdown] on a handle, up to its wait for completion. *)
Definition handle_shutdown (w : World) : World := set_stop w.

(** [shutdown] on a pause, up to its wait for completion. *)
Definition pause_shutdown (w : World) : World := drop_pause (set_stop w).

Definition drop_senders (w : World) : World :=
  mkWorld (pc w) (host w) (buffer w) (mailbox w) (receiver_open w) false (stop w) (wakeup w)
    (execution w) (accepted w) (log w).

Definition wake (w : World) : World := set_wakeup w true.

(** The shared counter hands out its value and wraps around. *)
Definition next_queued_work_order (sequence : Z) : Z * Z :=
  (sequence, u64_wrapping_add sequence 1).

(** [spawn]. *)
Definition spawn (h : H) : World :=
  mkWorld Locking h [] [] true true false false Free [] [].

(** The worker and its handles interleave; the application changes the host's
    pause state and messages at any time. *)
Inductive step : World → World → Prop :=
| step_worker w w' : worker_step w = Some w' → step w w'
| step_submit w command w' : senders w = true → submit w command = inl w' → step w w'
| step_pause w w' : pause w = Some w' → step w w'
| step_drop_pause w : step w (drop_pause w)
| step_shutdown w : step w (handle_shutdown w)
| step_pause_shutdown w : execution w = HeldByPause → step w (pause_shutdown w)
| step_drop_senders w : step w (drop_senders w)
| step_wake w : step w (wake w)
| step_host w h : step w (set_queues w h (buffer w) (mailbox w)).

(** ** Observations *)

Definition work_command (work : ScheduledWork C M) : list C :=
  match work with WorkCommand c => [c] | WorkMessage _ => [] end.

Definition event_command (event : Event) : list C :=
  match event with Executed work | Abandoned work => work_command work | ShutDown => [] end.

(** The commands executed or abandoned so far, in that order. *)
Definition settled (w : World) : list C := flat_map event_command (log w).

Definition in_flight (at_ : Pc) : list C :=
  match at_ with Executing work => work_command work | _ => [] end.

(** The accepted commands still to be settled. *)
Definition unsettled (w : World) : list C := in_flight (pc w) ++ buffer w ++ mailbox w.

(** The work given to [execute] so far. *)
Definition executed (w : World) : list (ScheduledWork C M) :=
  flat_map (λ e, match e with Executed work => [work] | _ => [] end) (log w).

Definition holds_execution (at_ : Pc) : bool :=
  match at_ with
  | Draining _ | Checking _ | Selecting _ | Executing _
  | AbandoningCommands | AbandoningMessages | Releasing => true
  | _ => false
  end.

(** Past the loop: the receiver is closed, and emptied before settling. *)
Definition receiver_closed_at (at_ : Pc) : bool :=
  match at_ with
  | Flushing | Settling | AbandoningCommands | AbandoningMessages | Releasing | Returned => true
  | _ => false
  end.

Definition mailbox_empty_at (at_ : Pc) : bool :=
  match at_ with
  | Settling | AbandoningCommands | AbandoningMessages | Releasing | Returned => true
  | _ => false
  end.

Definition buffer_empty_at (at_ : Pc) : bool :=
  match at_ with AbandoningMessages | Releasing | Returned => true | _ => false end.

(** Runs the worker alone for at most [fuel] steps. *)
Fixpoint run_worker (fuel : nat) (w : World) : World :=
  match fuel with
  | 0 => w
  | S fuel => match worker_step w with Some w' => run_worker fuel w' | None => w end
  end.

(** Repeated selection from a host that stays as it is. *)
Fixpoint drain_work (fuel : nat) (h : H) (commands : list C) : list (ScheduledWork C M) :=
  match fuel with
  | 0 => []
  | S fuel =>
      match next_work h commands with
      | Some (work, h, commands) => work :: drain_work fuel h commands
      | None => []
      end
  end.

(** ** Selection *)

(** A paused selection takes out the first command that may run. *)
Lemma next_work_paused h commands :
  host_paused h = true →
  (next_work h commands = None ∧ Forall (λ c, can_run_while_paused c = false) commands)
  ∨ ∃ before command after,
      commands = before ++ command :: after ∧ can_run_while_paused command = true
      ∧ Forall (λ c, can_run_while_paused c = false) before
      ∧ next_work h commands = Some (WorkCommand command, h, before ++ after).
Proof using.
  intros Hp. unfold next_work. rewrite Hp.
  destruct (position can_run_while_paused commands) as [i|] eqn:E; simpl.
  - right. apply position_Some in E as (c & Hc & Hrun & Hbefore). rewrite Hc. simpl.
    exists (take i commands), c, (drop (S i) commands).
    split_and!; [by rewrite take_drop_middle|done| |].
    + apply Forall_forall. intros x (j & Hj)%list_elem_of_lookup.
      apply lookup_take_Some in Hj as [Hj Hlt]. by apply (Hbefore j).
    + done.
  - left. split; [done|]. by apply position_None.
Qed.

(** Selection keeps the order of the commands that may run while paused, and
    that of the others. *)
Lemma next_work_keeps_order h commands work h' commands' p :
  next_work h commands = Some (work, h', commands') →
  (∀ c, p c = can_run_while_paused c) ∨ (∀ c, p c = negb (can_run_while_paused c)) →
  List.filter p (work_command work ++ commands') = List.filter p commands.
Proof using.
  intros Hw Hp. destruct (host_paused h) eqn:Eh.
  - destruct (next_work_paused h commands Eh) as [[E _]|(b & c & a & -> & Hc & Hb & E)];
      rewrite E in Hw; simplify_eq. simpl. rewrite !List.filter_app. simpl.
    destruct Hp as [Hp|Hp]; rewrite (Hp c), Hc; simpl; [|done].
    rewrite (filter_none p b); [done|]. intros x Hx. rewrite Hp. rewrite Forall_forall in Hb. auto.
  - unfold next_work, take_message in Hw. rewrite Eh in Hw.
    repeat (case_match; simplify_eq/=); done.
Qed.

(** ** The invariant of the run loop *)

(** The commands of one class, accepted and accounted for. *)
Definition accounted (p : C → bool) (w : World) : Prop :=
  List.filter p (settled w ++ unsettled w) = List.filter p (accepted w).

Record world_ok (w : World) : Prop := {
  ok_runnable : accounted can_run_while_paused w;
  ok_ordinary : accounted (λ c, negb (can_run_while_paused c)) w;
  ok_holder : holds_execution (pc w) = true ↔ execution w = HeldByWorker;
  ok_receiver : receiver_closed_at (pc w) = true → receiver_open w = false;
  ok_mailbox : mailbox_empty_at (pc w) = true → mailbox w = [];
  ok_buffer : buffer_empty_at (pc w) = true → buffer w = [];
  ok_log : match pc w with
           | Returned => ∃ l, log w = l ++ [ShutDown] ∧ ShutDown ∉ l
           | _ => ShutDown ∉ log w
           end
}.

Lemma spawn_ok h : world_ok (spawn h).
Proof using. split; try done; simpl; set_solver. Qed.

(** What the settled and unsettled commands become in a worker step. *)
Lemma worker_step_accounted p w w' :
  (∀ c, p c = can_run_while_paused c) ∨ (∀ c, p c = negb (can_run_while_paused c)) →
  worker_step w = Some w' → accounted p w → accounted p w'.
Proof using.
  intros Hp Hs. unfold accounted, settled, unsettled. intros Hacc.
  destruct (pc w) eqn:Epc; unfold worker_step in Hs; rewrite Epc in Hs; simpl in Hacc;
    unfold lock_execution, select_step, receive in Hs.
  all: try (repeat case_match; simplify_eq/=; rewrite ?Epc, <- ?app_assoc; simpl;
            first [exact Hacc | rewrite <- Hacc; congruence]).
  - destruct (next_work (host w) (buffer w)) as [[[work h] commands]|] eqn:E; simplify_eq/=;
      [|by case_match].
    rewrite <- Hacc, !List.filter_app. f_equal. rewrite app_assoc, <- !List.filter_app.
    rewrite !(List.filter_app _ _ (mailbox w)). f_equal.
    by apply (next_work_keeps_order (host w) _ _ h).
  - simplify_eq/=. rewrite flat_map_app. simpl. by rewrite app_nil_r, <- app_assoc.
  - destruct (buffer w) as [|c rest] eqn:Eb; simplify_eq/=; [by rewrite Eb|].
    rewrite flat_map_app, Epc. simpl. by rewrite <- app_assoc.
  - destruct (pop_message (host w)) as [[m h]|]; simplify_eq/=; [|done].
    rewrite flat_map_app, Epc. simpl. by rewrite app_nil_r.
  - simplify_eq/=. rewrite flat_map_app. simpl. by rewrite app_nil_r.
Qed.

Lemma worker_step_ok w w' : worker_step w = Some w' → world_ok w → world_ok w'.
Proof using.
  intros Hs [H1 H2 Hh Hr Hm Hb Hl].
  pose proof (worker_step_accounted can_run_while_paused w w' ltac:(by left) Hs H1) as H1'.
  pose proof (worker_step_accounted (λ c, negb (can_run_while_paused c)) w w' ltac:(by right) Hs H2) as H2'.
  unfold worker_step, lock_execution, select_step, receive, unlock_to in Hs.
  destruct (pc w) eqn:Epc; simpl in Hh, Hr, Hm, Hb, Hl.
  all: repeat case_match; simplify_eq/=; split; try assumption; simpl; rewrite ?Epc; simpl;
    try done; try tauto; try (split; naive_solver).
  all: try (rewrite elem_of_app, list_elem_of_singleton; naive_solver).
  by exists (log w).
Qed.

Lemma accounted_submit p w command w' :
  submit w command = inl w' → accounted p w → accounted p w'.
Proof using.
  unfold submit, accounted, settled, unsettled. intros Hs Hacc.
  repeat case_match; simplify_eq/=. rewrite (List.filter_app p (accepted w)), <- Hacc, <- List.filter_app.
  by rewrite <- !app_assoc.
Qed.

Lemma step_ok w w' : step w w' → world_ok w → world_ok w'.
Proof using.
  intros Hstep Hok. destruct Hstep as [w w' Hs|w command w' _ Hs|w w' Hs|w|w|w He|w|w|w h].
  - by eapply worker_step_ok.
  - destruct Hok as [H1 H2 Hh Hr Hm Hb Hl].
    pose proof (accounted_submit _ _ _ _ Hs H1) as H1'. pose proof (accounted_submit _ _ _ _ Hs H2) as H2'.
    unfold submit in Hs. destruct (stop w) eqn:?, (receiver_open w) eqn:?; simplify_eq/=.
    split; try assumption; simpl.
    intros Hm'. assert (receiver_closed_at (pc w) = true) as ?%Hr; [by destruct (pc w)|]. congruence.
  - unfold pause in Hs. destruct (execution w) eqn:E; simplify_eq. destruct Hok as [H1 H2 Hh Hr Hm Hb Hl].
    split; try assumption. simpl. rewrite Hh, E. done.
  - unfold drop_pause. destruct (execution w) eqn:E; [done|done|]. destruct Hok as [H1 H2 Hh Hr Hm Hb Hl].
    split; try assumption. simpl. rewrite Hh, E. done.
  - by destruct Hok; split.
  - destruct Hok as [H1 H2 Hh Hr Hm Hb Hl]. unfold pause_shutdown, drop_pause. simpl. rewrite He.
    split; try assumption. simpl. rewrite Hh, He. done.
  - by destruct Hok; split.
  - by destruct Hok; split.
  - by destruct Hok; split.
Qed.

Lemma steps_ok w w' : rtc step w w' → world_ok w → world_ok w'.
Proof using. induction 1; eauto using step_ok. Qed.

(** ** Retirement *)

(** The worker can still start one item: it is past the stop check. *)
Definition past_check (at_ : Pc) : bool :=
  match at_ with Selecting _ | Executing _ => true | _ => false end.

Lemma executed_record w event :
  executed (record w event)
  = executed w ++ match event with Executed work => [work] | _ => [] end.
Proof using. unfold executed. simpl. rewrite flat_map_app. simpl. by destruct event; rewrite ?app_nil_r. Qed.

Lemma worker_step_stopped w w' :
  stop w = true → worker_step w = Some w' →
  stop w' = true
  ∧ ((past_check (pc w') = true → past_check (pc w) = true) ∧ executed w' = executed w
     ∨ ∃ work, pc w = Executing work ∧ executed w' = executed w ++ [work] ∧ past_check (pc w') = false).
Proof using.
  intros Hstop Hs. unfold worker_step, lock_execution, select_step, receive, unlock_to in Hs.
  destruct (pc w) eqn:Epc; rewrite ?Hstop, ?andb_false_r in Hs;
    repeat case_match; simplify_eq/=; split; try done; try (left; rewrite ?Epc; split; done).
  all: try (left; rewrite ?Epc; split; [done|]; by rewrite executed_record, app_nil_r).
  - right. exists work. split_and!; [done|apply (executed_record w (Executed work))|done].
  - left. split; [done|]. etransitivity; [apply (executed_record w ShutDown)|by rewrite app_nil_r].
Qed.

Lemma step_stopped w w' :
  stop w = true → step w w' →
  stop w' = true
  ∧ ((past_check (pc w') = true → past_check (pc w) = true) ∧ executed w' = executed w
     ∨ ∃ work, pc w = Executing work ∧ executed w' = executed w ++ [work] ∧ past_check (pc w') = false).
Proof using.
  intros Hstop Hstep. destruct Hstep as [w w' Hs|w command w' _ Hs|w w' Hs|w|w|w He|w|w|w h].
  - by apply worker_step_stopped.
  - unfold submit in Hs. by rewrite Hstop in Hs.
  - unfold pause in Hs. destruct (execution w); simplify_eq. auto.
  - unfold drop_pause. destruct (execution w); auto.
  - auto.
  - unfold pause_shutdown, drop_pause. simpl. destruct (execution w); auto.
  - auto.
  - auto.
  - auto.
Qed.

Lemma stopped_executions w w' :
  rtc step w w' → stop w = true →
  ∃ l, executed w' = executed w ++ l ∧ length l <= (if past_check (pc w) then 1 else 0).
Proof using.
  induction 1 as [w|w w1 w' Hstep _ IH]; intros Hstop.
  { exists []. rewrite app_nil_r. simpl. split; [done|lia]. }
  destruct (step_stopped _ _ Hstop Hstep) as [Hstop1 Hcase]. destruct (IH Hstop1) as (l & -> & Hl).
  destruct Hcase as [[Hpast ->]|(work & Hpc & -> & Hpast)].
  - exists l. split; [done|]. destruct (past_check (pc w1)); [by rewrite Hpast|].
    destruct (past_check (pc w)); lia.
  - rewrite Hpast in Hl. destruct l; simpl in Hl; [|lia]. exists [work]. rewrite Hpc, app_nil_r.
    by split.
Qed.

Context `{!WorkQueueLaws H M}.

(** Steps a stopped worker has left: each takes one unit. *)
Definition phase (at_ : Pc) : nat :=
  match at_ with
  | Selecting _ => 13 | Executing _ => 12 | Locking => 10 | Draining _ => 9 | Checking _ => 8
  | Waiting => 7 | Closing => 6 | Flushing => 5 | Settling => 4 | AbandoningCommands => 3
  | AbandoningMessages => 2 | Releasing => 1 | Returned => 0
  end.

Definition work_left (w : World) : nat :=
  phase (pc w) + 2 * length (mailbox w) + length (buffer w) + length (pending (host w)).

Lemma next_work_left h commands work h' commands' :
  next_work h commands = Some (work, h', commands') →
  length commands' + length (pending h') <= length commands + length (pending h).
Proof using.
  intros Hw. destruct (host_paused h) eqn:Eh.
  - destruct (next_work_paused h commands Eh) as [[E _]|(b & c & a & -> & _ & _ & E)];
      rewrite E in Hw; simplify_eq. rewrite !length_app. simpl. lia.
  - unfold next_work, take_message in Hw. rewrite Eh in Hw.
    pose proof (pop_message_front h) as Hpop.
    repeat (case_match; simplify_eq/=); try lia; destruct Hpop as [-> _]; simpl; lia.
Qed.

(** Closes a step of [stopped_worker_step]; [Epc] gives its place. *)
Ltac stepped Epc :=
  eexists; split; [reflexivity|]; simpl; rewrite ?Epc; simpl; split_and!; try done; simpl; try lia.

(** A stopped worker never waits for anything but a pause. *)
Lemma stopped_worker_step w :
  world_ok w → stop w = true → execution w ≠ HeldByPause → pc w ≠ Returned →
  ∃ w', worker_step w = Some w' ∧ stop w' = true ∧ execution w' ≠ HeldByPause
    ∧ work_left w' < work_left w.
Proof using.
  intros Hok Hstop Hfree Hdone. pose proof (ok_holder _ Hok) as Hh.
  unfold worker_step, lock_execution, select_step, receive, unlock_to, work_left.
  destruct (pc w) eqn:Epc; simpl in Hh.
  all: rewrite ?Hstop, ?andb_false_r.
  all: try solve [repeat case_match; stepped Epc].
  - assert (execution w = Free) as -> by (destruct (execution w); naive_solver). stepped Epc.
  - destruct (next_work (host w) (buffer w)) as [[[work h] commands]|] eqn:E.
    + pose proof (next_work_left _ _ _ _ _ E). stepped Epc.
    + case_match; stepped Epc.
  - destruct (mailbox w) eqn:Em; [stepped Epc; rewrite Em; simpl; lia|].
    eexists; split; [reflexivity|]. simpl. rewrite length_app. simpl. split_and!; [done|done|lia].
  - assert (execution w = Free) as -> by (destruct (execution w); naive_solver). stepped Epc.
  - destruct (buffer w) eqn:Eb; stepped Epc. rewrite Eb. simpl. lia.
  - pose proof (pop_message_front (host w)) as Hpop.
    destruct (pop_message (host w)) as [[m h]|]; [destruct Hpop as [Hpop _]; rewrite Hpop|]; stepped Epc.
  - done.
Qed.

Lemma worker_step_accepted w w' : worker_step w = Some w' → accepted w' = accepted w.
Proof using.
  intros Hs. unfold worker_step, lock_execution, select_step, receive, unlock_to in Hs.
  by repeat case_match; simplify_eq/=.
Qed.

Lemma run_worker_ok fuel w :
  world_ok w → world_ok (run_worker fuel w) ∧ accepted (run_worker fuel w) = accepted w.
Proof using.
  revert w. induction fuel as [|fuel IH]; intros w Hok; simpl; [done|].
  destruct (worker_step w) as [w'|] eqn:E; [|done].
  destruct (IH w' (worker_step_ok _ _ E Hok)) as [? ->]. split; [done|].
  by apply worker_step_accepted.
Qed.

Lemma run_worker_steps fuel w : rtc step w (run_worker fuel w).
Proof using.
  revert w. induction fuel as [|fuel IH]; intros w; simpl; [done|].
  destruct (worker_step w) as [w'|] eqn:E; [|done]. eapply rtc_l; [by apply step_worker|apply IH].
Qed.

(** Left alone, a stopped worker returns. *)
Lemma stopped_worker_done fuel w :
  world_ok w → stop w = true → execution w ≠ HeldByPause → work_left w <= fuel →
  pc (run_worker fuel w) = Returned.
Proof using.
  revert w. induction fuel as [|fuel IH]; intros w Hok Hstop Hfree Hle.
  - unfold work_left in Hle. simpl. destruct (pc w); simpl in Hle; done || lia.
  - assert (pc w = Returned ∨ pc w ≠ Returned) as [E|E] by (destruct (pc w); first [by left|by right]); cycle 1.
    + destruct (stopped_worker_step w Hok Hstop Hfree E) as (w' & Hs & Hstop' & Hfree' & Hlt).
      simpl. rewrite Hs. apply IH; [by eapply worker_step_ok|done|done|lia].
    + simpl. unfold worker_step. by rewrite E.
Qed.

(** ** Submission order *)

Definition work_order (work : ScheduledWork C M) : Z :=
  match work with
  | WorkCommand c => default 0%Z (command_order c)
  | WorkMessage m => order_of m
  end.

Definition earlier (a b : ScheduledWork C M) : Prop := (work_order a <= work_order b)%Z.

(** All work that waits: the buffered commands and the host's messages. *)
Definition waiting (h : H) (commands : list C) : list (ScheduledWork C M) :=
  (WorkCommand <$> commands) ++ (WorkMessage <$> pending h).

(** An unpaused selection takes the earliest of ordered work. *)
Lemma next_work_earliest h commands :
  host_paused h = false → Forall (λ c, is_Some (command_order c)) commands →
  StronglySorted earlier (WorkCommand <$> commands) →
  StronglySorted earlier (WorkMessage <$> pending h) →
  (next_work h commands = None ∧ waiting h commands = [])
  ∨ ∃ work h' commands', next_work h commands = Some (work, h', commands')
      ∧ waiting h commands ≡ₚ work :: waiting h' commands'
      ∧ Forall (earlier work) (waiting h' commands')
      ∧ host_paused h' = false ∧ commands' `suffix_of` commands ∧ pending h' `suffix_of` pending h.
Proof using.
  intros Hp Ho Hc Hm. unfold next_work. rewrite Hp.
  pose proof (message_order_front h) as Hfront. pose proof (pop_message_front h) as Hpop.
  unfold take_message, waiting.
  destruct commands as [|c rest].
  { destruct (pop_message h) as [[m h']|]; [right|left; by rewrite Hpop].
    destruct Hpop as [Hpop Hp']. rewrite Hpop in *. csimpl in Hm. apply StronglySorted_inv in Hm as [_ Hm].
    exists (WorkMessage m), h', []. split_and!; try done; [congruence|by exists [m]]. }
  apply Forall_cons in Ho as [[o Eo] Ho]. rewrite Eo. csimpl in Hc. apply StronglySorted_inv in Hc as [_ Hc].
  right. destruct (command_first o (message_order h)) eqn:Ef.
  - exists (WorkCommand c), h, rest. split_and!; try done; [|by exists [c]].
    apply Forall_app; split; [done|]. destruct (pending h) as [|m ms]; [constructor|].
    rewrite Hfront in Ef. simpl in Ef. apply Z.leb_le in Ef. csimpl in *.
    apply StronglySorted_inv in Hm as [_ Hm].
    assert (Hcm : earlier (WorkCommand c) (WorkMessage m)) by (unfold earlier; simpl; by rewrite Eo).
    constructor; [done|]. eapply Forall_impl; [exact Hm|]. unfold earlier in *. lia.
  - destruct (pop_message h) as [[m h']|]; cycle 1.
    { rewrite Hfront, Hpop in Ef. done. }
    destruct Hpop as [Hpop Hp']. rewrite Hpop in *. rewrite Hfront in Ef. simpl in Ef. apply Z.leb_gt in Ef.
    csimpl in Hm. apply StronglySorted_inv in Hm as [_ Hm].
    exists (WorkMessage m), h', (c :: rest).
    split_and!; [done|rewrite (fmap_cons WorkMessage); by rewrite <- Permutation_middle| |congruence|done|by exists [m]].
    assert (Hmc : earlier (WorkMessage m) (WorkCommand c)) by (unfold earlier; simpl; rewrite Eo; simpl; lia).
    apply Forall_app; split; [|done]. csimpl. constructor; [done|].
    eapply Forall_impl; [exact Hc|]. unfold earlier in *. lia.
Qed.

Lemma sorted_suffix {A} (R : A → A → Prop) l k : k `suffix_of` l → StronglySorted R l → StronglySorted R k.
Proof using. intros [p ->]. induction p as [|x p IH]; [done|]. intros [Hs _]%StronglySorted_inv. auto. Qed.

Lemma fmap_suffix {A B} (f : A → B) l k : k `suffix_of` l → (f <$> k) `suffix_of` (f <$> l).
Proof using. intros [p ->]. rewrite fmap_app. by eexists. Qed.

Lemma drain_work_ordered fuel h commands :
  host_paused h = false → Forall (λ c, is_Some (command_order c)) commands →
  StronglySorted earlier (WorkCommand <$> commands) →
  StronglySorted earlier (WorkMessage <$> pending h) →
  length (waiting h commands) <= fuel →
  drain_work fuel h commands ≡ₚ waiting h commands
  ∧ StronglySorted earlier (drain_work fuel h commands).
Proof using.
  revert h commands. induction fuel as [|fuel IH]; intros h commands Hp Ho Hc Hm Hf.
  { destruct (waiting h commands); simpl in *; [by repeat constructor|lia]. }
  simpl. destruct (next_work_earliest h commands Hp Ho Hc Hm)
    as [[-> ->]|(work & h' & commands' & -> & Hw & He & Hp' & Hsc & Hsm)]; [by repeat constructor|].
  rewrite Hw in Hf. simpl in Hf.
  destruct (IH h' commands') as [Hperm Hsorted]; [done| | | |lia|].
  - destruct Hsc as [p ->]. by apply Forall_app in Ho as [_ ?].
  - eapply sorted_suffix; [|exact Hc]. by apply fmap_suffix.
  - eapply sorted_suffix; [|exact Hm]. by apply fmap_suffix.
  - split; [by rewrite Hperm, Hw|]. constructor; [done|]. by rewrite Hperm.
Qed.

(** Two filters on complementary classes determine the multiset. *)
Lemma filter_classes {A} (p : A → bool) l k :
  List.filter p l = List.filter p k →
  List.filter (λ x, negb (p x)) l = List.filter (λ x, negb (p x)) k → l ≡ₚ k.
Proof using.
  intros H1 H2. rewrite <- (partition_by_perm p l), <- (partition_by_perm p k). simpl.
  by rewrite H1, H2.
Qed.

(** ** Properties *)

(** selection follows the pause policy: a paused host runs only the first
    command that may run while paused, and never a message; otherwise an
    immediate command at the front goes first, and nothing is selected only
    when nothing waits. *)
Theorem next_work_policy (h : H) (commands : list C) :
  (host_paused h = true →
     (next_work h commands = None ∧ Forall (λ c, can_run_while_paused c = false) commands)
     ∨ ∃ before command after,
         commands = before ++ command :: after ∧ can_run_while_paused command = true
         ∧ Forall (λ c, can_run_while_paused c = false) before
         ∧ next_work h commands = Some (WorkCommand command, h, before ++ after))
  ∧ (∀ command rest, host_paused h = false → commands = command :: rest →
       command_order command = None → next_work h commands = Some (WorkCommand command, h, rest))
  ∧ (host_paused h = false → next_work h commands = None ↔ commands = [] ∧ pending h = []).
Proof using.
  split_and!.
  - apply next_work_paused.
  - intros command rest Hp -> Ho. unfold next_work. by rewrite Hp, Ho.
  - intros Hp. unfold next_work, take_message. rewrite Hp. pose proof (pop_message_front h) as Hpop.
    pose proof (message_order_front h) as Hfront. destruct commands as [|c rest].
    + destruct (pop_message h) as [[m h']|]; [destruct Hpop as [-> _]|]; naive_solver.
    + split; [|by intros [? _]]. destruct (command_order c) as [o|]; [|done].
      destruct (command_first o (message_order h)) eqn:Ef; [done|].
      destruct (pop_message h) as [[m h']|]; [done|]. rewrite Hfront, Hpop in Ef. done.
Qed.

(** an unpaused worker takes commands and queued messages in the order they
    were submitted: from ordered queues, repeated selection yields all waiting
    work exactly once, earliest first. *)
Theorem work_in_submission_order (h : H) (commands : list C) :
  host_paused h = false → Forall (λ c, is_Some (command_order c)) commands →
  StronglySorted earlier (WorkCommand <$> commands) →
  StronglySorted earlier (WorkMessage <$> pending h) →
  let work := drain_work (length commands + length (pending h)) h commands in
  work ≡ₚ waiting h commands ∧ StronglySorted earlier work.
Proof using.
  intros Hp Ho Hc Hm. apply drain_work_ordered; try done.
  unfold waiting. by rewrite length_app, !length_fmap.
Qed.

(** C6: no accepted command is lost, duplicated or overtaken within its class:
    in every interleaving of the worker, its handles and the host, the settled
    and the waiting commands together are the accepted ones, in submission
    order for the commands that may run while paused and for the others; the
    worker executes only while it holds the execution lock; and when it has
    returned, every accepted command was executed or abandoned, and the host
    was shut down once, last. *)
Theorem worker_accounts_commands (h : H) (w : World) :
  rtc step (spawn h) w →
  settled w ++ unsettled w ≡ₚ accepted w
  ∧ accounted can_run_while_paused w ∧ accounted (λ c, negb (can_run_while_paused c)) w
  ∧ (∀ work, pc w = Executing work → execution w = HeldByWorker)
  ∧ (pc w = Returned → settled w ≡ₚ accepted w ∧ ∃ l, log w = l ++ [ShutDown] ∧ ShutDown ∉ l).
Proof using.
  intros Hreach. destruct (steps_ok _ _ Hreach (spawn_ok h)) as [H1 H2 Hh Hr Hm Hb Hl].
  assert (Hperm : settled w ++ unsettled w ≡ₚ accepted w) by (by apply (filter_classes can_run_while_paused)).
  split_and!; try done.
  - intros work Epc. apply Hh. by rewrite Epc.
  - intros Epc. rewrite Epc in *. split; [|done]. rewrite <- Hperm. unfold unsettled.
    rewrite Epc, (Hm eq_refl), (Hb eq_refl). simpl. by rewrite app_nil_r.
Qed.

(** once stop is requested no further command is accepted and at most the
    item the worker was already past checking for runs; a retirement requested
    under a pause lets nothing start. *)
Theorem stopped_worker_starts_nothing (h : H) (w w' : World) :
  rtc step (spawn h) w → stop w = true → rtc step w w' →
  (∃ l, executed w' = executed w ++ l ∧ length l <= 1)
  ∧ (execution w = HeldByPause → executed w' = executed w)
  ∧ (∀ command, submit w' command = inr command).
Proof using.
  intros Hreach Hstop Hsteps. destruct (stopped_executions _ _ Hsteps Hstop) as (l & Hl & Hlen).
  split_and!.
  - exists l. split; [done|]. destruct (past_check (pc w)); lia.
  - intros He. pose proof (ok_holder _ (steps_ok _ _ Hreach (spawn_ok h))) as Hh.
    assert (past_check (pc w) = false) as E.
    { destruct (past_check (pc w)) eqn:E; [|done]. rewrite He in Hh.
      destruct (pc w); simpl in *; try done; by destruct Hh as [Hh _]; specialize (Hh eq_refl). }
    rewrite E in Hlen. destruct l; simpl in Hlen; [by rewrite app_nil_r in Hl|lia].
  - intros command. unfold submit. assert (stop w' = true) as ->; [|done].
    clear Hreach Hl Hlen. induction Hsteps as [|w w1 w' Hs _ IH]; [done|].
    apply IH. by apply (step_stopped w).
Qed.

(** a retirement completes: left alone, a stopped worker that no pause
    holds returns within [work_left] steps, after it settled every accepted
    command. *)
Theorem retirement_completes (h : H) (w : World) :
  rtc step (spawn h) w → stop w = true → execution w ≠ HeldByPause →
  let w' := run_worker (work_left w) w in
  pc w' = Returned ∧ settled w' ≡ₚ accepted w' ∧ accepted w' = accepted w.
Proof using.
  intros Hreach Hstop Hfree. pose proof (steps_ok _ _ Hreach (spawn_ok h)) as Hok. simpl.
  pose proof (stopped_worker_done _ w Hok Hstop Hfree (le_n _)) as Hdone.
  destruct (run_worker_ok (work_left w) w Hok) as [[H1 H2 _ _ Hm Hb _] Hacc].
  split_and!; [done| |done].
  transitivity (settled (run_worker (work_left w) w) ++ unsettled (run_worker (work_left w) w));
    [|by apply (filter_classes can_run_while_paused)].
  rewrite Hdone in Hm, Hb. unfold unsettled. rewrite Hdone, (Hm eq_refl), (Hb eq_refl). simpl.
  by rewrite app_nil_r.
Qed.

End scheduler.

(** ** The application's commands and queue (app/session/workflow/worker.rs) *)

Inductive AgentRequestKind :=
| FocusedReview | ReviewMetadata | SessionStart | SessionResume | UtilityPrompt | AccountRead.

Definition is_resume (self : AgentRequestKind) : bool :=
  match self with SessionResume => true | _ => false end.

Record TurnMetadata := mkTurnMetadata {
  turn_published_upstream_ref : option str;
  review_comment_thread_ids : list str;
  turn_session_agent : AgentSelection
}.

Definition CREATE_REVIEW_REQUEST_OPERATION_KIND : str := L"create_review_request".
Definition REBASE_OPERATION_KIND : str := L"rebase".

Section session_commands.
(** The publish snapshot of a session and the completion slot of a caller. *)
Context {Snapshot Response : Type}.

Inductive SessionCommand :=
| CreateReviewRequest (branch_publish_session : Snapshot) (operation_id : str)
    (remote_branch_name : option str) (response : option Response)
| Rebase (base_branch : str) (operation_id : str)
| Run (operation_id : str) (request_kind : AgentRequestKind) (replay_transcript : option str)
    (prompt : TurnPrompt) (turn_metadata : TurnMetadata).

Definition operation_id (self : SessionCommand) : str :=
  match self with
  | CreateReviewRequest _ operation_id _ _ => operation_id
  | Rebase _ operation_id => operation_id
  | Run operation_id _ _ _ _ => operation_id
  end.

Definition is_preparation_prompt (self : SessionCommand) (session_id : str) : bool :=
  str_eqb (operation_id self) (L"workspace:" ++ session_id).

Definition SessionCommand_kind (self : SessionCommand) : str :=
  match self with
  | CreateReviewRequest _ _ _ _ => CREATE_REVIEW_REQUEST_OPERATION_KIND
  | Rebase _ _ => REBASE_OPERATION_KIND
  | Run _ SessionStart _ _ _ => L"start_prompt"
  | Run _ SessionResume _ _ _ => L"reply"
  | Run _ FocusedReview _ _ _ => L"focused_review"
  | Run _ ReviewMetadata _ _ _ => L"review_metadata"
  | Run _ UtilityPrompt _ _ _ => L"utility_prompt"
  | Run _ AccountRead _ _ _ => L"account_read"
  end.

(** [preparation_reservation] and [ready_rx] are kept as their presence. *)
Record ScheduledSessionCommand := mkScheduledCommand {
  scheduled_command : SessionCommand;
  preparation_reservation : option unit;
  scheduled_order : option Z;
  ready_rx : option unit
}.

Definition can_run_while_question (self : ScheduledSessionCommand) : bool :=
  match scheduled_order self with
  | None => true
  | Some _ => match scheduled_command self with Run _ _ _ _ _ => true | _ => false end
  end.

Definition immediate (command : SessionCommand) : ScheduledSessionCommand :=
  mkScheduledCommand command None None None.

Definition queued (command : SessionCommand) (order : Z) : ScheduledSessionCommand :=
  mkScheduledCommand command None (Some order) None.

#[global] Instance ScheduledSessionCommand_scheduled : ScheduledCommand ScheduledSessionCommand := {|
  command_order := scheduled_order;
  can_run_while_paused := can_run_while_question
|}.

End session_commands.
Arguments SessionCommand : clear implicits.
Arguments ScheduledSessionCommand : clear implicits.

(** The queue part of the worker context; [None] is a poisoned mutex. *)
Record SessionWorkerContext := mkWorkerContext {
  context_queued_messages : option (list QueuedMessage);
  context_status : option SessionStatus
}.

Definition next_queued_message_order (self : SessionWorkerContext) : option Z :=
  match context_queued_messages self with
  | Some (message :: _) => Some (Session.queued_order message)
  | _ => None
  end.

Definition pop_queued_message (self : SessionWorkerContext)
  : option (QueuedMessage * SessionWorkerContext) :=
  match context_queued_messages self with
  | Some (message :: rest) => Some (message, mkWorkerContext (Some rest) (context_status self))
  | _ => None
  end.

Definition clear_queued_messages (self : SessionWorkerContext) : SessionWorkerContext :=
  match context_queued_messages self with
  | Some _ => mkWorkerContext (Some []) (context_status self)
  | None => self
  end.

Definition current_status (self : SessionWorkerContext) : SessionStatus :=
  default Review (context_status self).

#[global] Instance SessionWorkerContext_queue : WorkQueue SessionWorkerContext QueuedMessage := {|
  host_paused self := bool_decide (current_status self = Question);
  message_order := next_queued_message_order;
  pop_message := pop_queued_message
|}.

(** The application's queue fulfils what the scheduler relies on. *)
#[global, refine] Instance SessionWorkerContext_laws : WorkQueueLaws SessionWorkerContext QueuedMessage := {|
  pending self := default [] (context_queued_messages self);
  order_of := Session.queued_order
|}.
Proof.
  - intros self. simpl. unfold next_queued_message_order.
    by destruct (context_queued_messages self) as [[|m ms]|].
  - intros self. simpl. unfold pop_queued_message.
    by destruct (context_queued_messages self) as [[|m ms]|].
Defined.

(** ** Witnesses *)

Abbreviation Scheduled := (ScheduledSessionCommand unit unit).

Definition sample_message (order : Z) : QueuedMessage :=
  QueuedMessage_new order (TurnPrompt_from_text L"next").

Definition sample_context (status : SessionStatus) (orders : list Z) : SessionWorkerContext :=
  mkWorkerContext (Some (sample_message <$> orders)) (Some status).

Definition sample_rebase (order : Z) : Scheduled := queued (Rebase L"main" L"op") order.

Lemma work_in_submission_order_witness :
  work_order <$> drain_work 3 (sample_context Review [2%Z]) [sample_rebase 1; sample_rebase 3]
  = [1; 2; 3]%Z
  ∧ StronglySorted earlier
      (drain_work 3 (sample_context Review [2%Z]) [sample_rebase 1; sample_rebase 3]).
Proof.
  split; [reflexivity|].
  assert (H1 : StronglySorted (earlier (C := Scheduled) (H := SessionWorkerContext))
    (WorkCommand <$> [sample_rebase 1; sample_rebase 3])).
  { repeat constructor; vm_compute; discriminate. }
  assert (H2 : StronglySorted (earlier (C := Scheduled) (H := SessionWorkerContext))
    (WorkMessage <$> pending (sample_context Review [2%Z]))) by repeat constructor.
  assert (H3 : Forall (λ c : Scheduled, is_Some (command_order c)) [sample_rebase 1; sample_rebase 3])
    by (repeat constructor; eexists; reflexivity).
  exact (proj2 (work_in_submission_order (sample_context Review [2%Z])
                  [sample_rebase 1; sample_rebase 3] eq_refl H3 H1 H2)).
Defined.

(** A worker with a message and a submitted rebase. *)
Definition sample_world : World (C := Scheduled) (M := QueuedMessage) :=
  match submit (spawn (sample_context Review [2%Z])) (sample_rebase 1) with
  | inl w => w
  | inr _ => spawn (sample_context Review [])
  end.

Lemma sample_world_reachable : rtc step (spawn (sample_context Review [2%Z])) sample_world.
Proof.
  apply rtc_once, (step_submit _ (sample_rebase 1)); reflexivity.
Qed.

(** The same worker after its handles went away and it drained its work. *)
Definition drained_world : World (C := Scheduled) (M := QueuedMessage) :=
  run_worker 40 (drop_senders sample_world).

Lemma worker_accounts_commands_witness :
  pc drained_world = Returned ∧ settled drained_world ≡ₚ accepted drained_world.
Proof.
  split; [vm_compute; reflexivity|].
  assert (Hreach : rtc step (spawn (sample_context Review [2%Z])) drained_world).
  { etransitivity; [apply sample_world_reachable|]. eapply rtc_l; [apply step_drop_senders|].
    apply run_worker_steps. }
  assert (Hpc : pc drained_world = Returned) by (vm_compute; reflexivity).
  destruct (worker_accounts_commands _ _ Hreach) as (_ & _ & _ & _ & H). exact (proj1 (H Hpc)).
Defined.

(** The worker paused at the lock, then retired under the pause. *)
Definition retired_world : World (C := Scheduled) (M := QueuedMessage) :=
  set_stop (set_execution sample_world HeldByPause).

Lemma retired_world_reachable : rtc step (spawn (sample_context Review [2%Z])) retired_world.
Proof.
  etransitivity; [apply sample_world_reachable|].
  eapply rtc_l; [by apply (step_pause _ (set_execution sample_world HeldByPause))|].
  apply rtc_once, step_shutdown.
Qed.

Lemma stopped_worker_starts_nothing_witness :
  executed (run_worker 40 (pause_shutdown retired_world)) = [].
Proof.
  assert (Hsteps : rtc step retired_world (run_worker 40 (pause_shutdown retired_world))).
  { eapply rtc_l; [by apply step_pause_shutdown|apply run_worker_steps]. }
  destruct (stopped_worker_starts_nothing _ _ _ retired_world_reachable eq_refl Hsteps) as (_ & H & _).
  exact (H eq_refl).
Defined.

Lemma retirement_completes_witness :
  pc (run_worker (work_left (pause_shutdown retired_world)) (pause_shutdown retired_world)) = Returned.
Proof.
  assert (Hreach : rtc step (spawn (sample_context Review [2%Z])) (pause_shutdown retired_world)).
  { etransitivity; [apply retired_world_reachable|]. by apply rtc_once, step_pause_shutdown. }
  assert (Hfree : execution (pause_shutdown retired_world) ≠ HeldByPause) by discriminate.
  exact (proj1 (retirement_completes _ _ Hreach eq_refl Hfree)).
Defined.

Lemma next_work_policy_witness :
  next_work (sample_context Question [2%Z]) [sample_rebase 1; immediate (Rebase L"main" L"op2")]
  = Some (WorkCommand (immediate (Rebase L"main" L"op2")), sample_context Question [2%Z], [sample_rebase 1])
  ∧ (next_work (C := Scheduled) (sample_context Review []) [] = None
     ↔ @nil Scheduled = [] ∧ pending (sample_context Review []) = []).
Proof.
  split; [reflexivity|].
  destruct (next_work_policy (C := Scheduled) (sample_context Review []) []) as (_ & _ & H).
  exact (H eq_refl).
Defined.
