(* ===== verification/HarnessModel.v ===== *)
(** * Harness turn input and messages (crates/ag-harness/src/input.rs, model.rs, tool.rs)

    Bounded text and image input of a turn, provider-neutral messages with
    their retained size, and the checks that fence a model switch
    (session_model.rs, recovery.rs).  Sizes are [usize] values in [Z] with
    saturating addition. *)
From S2P Require Import Prelude.

Definition usize_len {A} (l : list A) : Z := Z.of_nat (length l).
Definition str_len (s : str) : Z := Z.of_nat (byte_len s).

(** ** Errors of persistent sessions: the cases the store and its checks raise *)

Inductive SessionError :=
| StaleModel (id : str)
| UnsupportedModelHistory (reason : str)
| HostTurnConflict
| AlreadyExists (id : str)
| Busy (id : str)
| InvalidData (reason : str)
| NotFound (id : str)
| OwnershipLost (id : str) (turn_position : Z)
| SchemaError (reason : str).

#[global] Instance SessionError_eq_dec : EqDecision SessionError.
Proof. solve_decision. Defined.

(** ** Images *)

Inductive ImageMediaType := Jpeg | Png.

#[global] Instance ImageMediaType_eq_dec : EqDecision ImageMediaType.
Proof. solve_decision. Defined.

Definition ImageMediaType_as_str (self : ImageMediaType) : str :=
  match self with Jpeg => L"image/jpeg" | Png => L"image/png" end.

Definition from_media_type (media_type : str) : option ImageMediaType :=
  match_str media_type [(L"image/jpeg", Jpeg); (L"image/png", Png)].

Definition signature (self : ImageMediaType) : list N :=
  match self with
  | Jpeg => [255; 216; 255]
  | Png => [137; 80; 78; 71; 13; 10; 26; 10]
  end%N.

Definition matches_signature (self : ImageMediaType) (bytes : list N) : bool :=
  starts_with bytes (signature self).

Inductive TurnInputError :=
| EmptyImage
| EncodedInputTooLarge (limit : Z)
| ImageTooLarge (limit : Z)
| ImagesTooLarge (limit : Z)
| SignatureMismatch (media_type : str)
| TooManyImages (limit : Z).

Record ImageContent := mkImage { image_bytes : list N; image_media_type : ImageMediaType }.

#[global] Instance ImageContent_eq_dec : EqDecision ImageContent.
Proof. solve_decision. Defined.

Definition MAX_BYTES : Z := 10 * 1024 * 1024.

Definition from_persisted (media_type : ImageMediaType) (bytes : list N)
  : result ImageContent TurnInputError :=
  if is_empty bytes then Err EmptyImage
  else if negb (matches_signature media_type bytes)
  then Err (SignatureMismatch (ImageMediaType_as_str media_type))
  else Ok (mkImage bytes media_type).

Definition ImageContent_new (media_type : ImageMediaType) (bytes : list N)
  : result ImageContent TurnInputError :=
  if (MAX_BYTES <? usize_len bytes)%Z then Err (ImageTooLarge MAX_BYTES)
  else from_persisted media_type bytes.

Definition DATA_URL_PREFIX : str := L"data:".
Definition DATA_URL_SEPARATOR : str := L";base64,".
Definition TEXT_BLOCK_SEPARATOR : str := [newline; newline].

Definition base64_len (bytes : Z) : Z := Z.min ((bytes + 2) / 3 * 4) usize_max.

Definition encoded_data_url_bytes (self : ImageContent) : Z :=
  usize_saturating_add
    (usize_saturating_add
       (usize_saturating_add (str_len DATA_URL_PREFIX)
          (str_len (ImageMediaType_as_str (image_media_type self))))
       (str_len DATA_URL_SEPARATOR))
    (base64_len (usize_len (image_bytes self))).

(** ** Turn input *)

Inductive InputBlock :=
| BlockImage (image : ImageContent)
| BlockText (text : str).

#[global] Instance InputBlock_eq_dec : EqDecision InputBlock.
Proof. solve_decision. Defined.

Record TurnInput := mkTurnInput { blocks : list InputBlock }.

#[global] Instance TurnInput_eq_dec : EqDecision TurnInput.
Proof. solve_decision. Defined.

Definition MAX_ENCODED_BYTES : Z := 48 * 1024 * 1024.
Definition MAX_IMAGES : Z := 8.
Definition MAX_TOTAL_IMAGE_BYTES : Z := 32 * 1024 * 1024.

Definition is_image (block : InputBlock) : bool :=
  match block with BlockImage _ => true | BlockText _ => false end.

Definition block_bytes (block : InputBlock) : Z :=
  match block with
  | BlockImage image => encoded_data_url_bytes image
  | BlockText text => str_len text
  end.

Definition TurnInput_retained_bytes (self : TurnInput) : Z :=
  fold_left (λ total block, usize_saturating_add total (block_bytes block)) (blocks self) 0%Z.

Definition TurnInput_text (text : str) : TurnInput := mkTurnInput [BlockText text].

(** The loop over the blocks with the image bytes seen so far. *)
Fixpoint check_image_bytes (bs : list InputBlock) (image_bytes_ : Z) : result unit TurnInputError :=
  match bs with
  | [] => Ok tt
  | block :: rest =>
      let total := match block with
                   | BlockImage image => usize_saturating_add image_bytes_ (usize_len (image_bytes image))
                   | BlockText _ => image_bytes_
                   end in
      if (MAX_TOTAL_IMAGE_BYTES <? total)%Z then Err (ImagesTooLarge MAX_TOTAL_IMAGE_BYTES)
      else check_image_bytes rest total
  end.

Definition from_blocks (bs : list InputBlock) : result TurnInput TurnInputError :=
  if (MAX_IMAGES <? usize_len (List.filter is_image bs))%Z then Err (TooManyImages MAX_IMAGES)
  else
    match check_image_bytes bs 0 with
    | Err e => Err e
    | Ok _ =>
        let input := mkTurnInput bs in
        if (MAX_ENCODED_BYTES <? TurnInput_retained_bytes input)%Z
        then Err (EncodedInputTooLarge MAX_ENCODED_BYTES)
        else Ok input
    end.

Definition has_images (self : TurnInput) : bool := existsb is_image (blocks self).

Definition join_block (joined : str) (block : InputBlock) : str :=
  match block with
  | BlockText text => (if is_empty joined then joined else joined ++ TEXT_BLOCK_SEPARATOR) ++ text
  | BlockImage _ => joined
  end.

Definition joined_text (self : TurnInput) : str := fold_left join_block (blocks self) [].

(** ** Tool calls and messages *)

(** Arguments of the built-in tools and their JSON text, from serde. *)
Class ToolArgumentTypes := {
  ReadArguments : Type;
  WriteArguments : Type;
  read_json : ReadArguments → option str;
  write_json : WriteArguments → option str
}.

Section messages.
Context `{ToolArgumentTypes}.

Inductive ToolArguments :=
| ToolRead (arguments : ReadArguments)
| ToolWrite (arguments : WriteArguments).

Record ToolCall := mkToolCall {
  tool_arguments : ToolArguments;
  tool_call_id : str;
  tool_reasoning_content : option str
}.

Definition READ_NAME : str := L"read".
Definition WRITE_NAME : str := L"write".

Definition ToolCall_name (self : ToolCall) : str :=
  match tool_arguments self with ToolRead _ => READ_NAME | ToolWrite _ => WRITE_NAME end.

Definition arguments_json (self : ToolCall) : option str :=
  match tool_arguments self with ToolRead a => read_json a | ToolWrite a => write_json a end.

Inductive ModelMessage :=
| Assistant (content : str)
| AssistantReasoning (content reasoning_content : str)
| AssistantToolCall (call : ToolCall)
| AssistantToolCalls (calls : list ToolCall)
| MessageSystem (content : str)
| ToolResult (call_id content name : str)
| MessageUser (content : str)
| UserInput (input : TurnInput).

Definition call_bytes (start : Z) (call : ToolCall) : Z :=
  let arguments := match arguments_json call with Some s => str_len s | None => usize_max end in
  let reasoning := match tool_reasoning_content call with Some s => str_len s | None => 0%Z end in
  usize_saturating_add
    (usize_saturating_add
       (usize_saturating_add (usize_saturating_add start (str_len (tool_call_id call)))
          (str_len (ToolCall_name call)))
       arguments)
    reasoning.

Definition retained_bytes (self : ModelMessage) : Z :=
  match self with
  | Assistant content | MessageSystem content | MessageUser content => str_len content
  | AssistantReasoning content reasoning => usize_saturating_add (str_len content) (str_len reasoning)
  | AssistantToolCall call => call_bytes 0 call
  | AssistantToolCalls calls => fold_left call_bytes calls 0%Z
  | ToolResult call_id content name =>
      usize_saturating_add (usize_saturating_add (str_len call_id) (str_len content)) (str_len name)
  | UserInput input => TurnInput_retained_bytes input
  end.

Definition into_user_message (self : TurnInput) : ModelMessage :=
  if has_images self then UserInput self else MessageUser (joined_text self).

(** ** Model switching (session_model.rs, model_registry.rs) *)

Record ModelCapabilities := mkCapabilities {
  image_input : bool;
  native_continuation : bool;
  tool_calls : bool
}.

Definition no_tool_history : str := L"target does not support tool history".
Definition no_reasoning : str :=
  L"provider reasoning cannot be transferred between model selections".
Definition no_image_history : str := L"target does not support image history".

Definition has_reasoning (call : ToolCall) : bool :=
  match tool_reasoning_content call with Some _ => true | None => false end.

(** The arms of the match, in order. *)
Definition check_message (capabilities : ModelCapabilities) (message : ModelMessage) : option str :=
  match message with
  | AssistantToolCall call =>
      if negb (tool_calls capabilities) then Some no_tool_history
      else if has_reasoning call then Some no_reasoning else None
  | AssistantToolCalls calls =>
      if negb (tool_calls capabilities) then Some no_tool_history
      else if existsb has_reasoning calls then Some no_reasoning else None
  | ToolResult _ _ _ => if negb (tool_calls capabilities) then Some no_tool_history else None
  | AssistantReasoning _ _ => Some no_reasoning
  | UserInput input =>
      if has_images input && negb (image_input capabilities) then Some no_image_history else None
  | _ => None
  end.

Fixpoint check_history (messages : list ModelMessage) (capabilities : ModelCapabilities)
  : result unit SessionError :=
  match messages with
  | [] => Ok tt
  | message :: rest =>
      match check_message capabilities message with
      | Some reason => Err (UnsupportedModelHistory reason)
      | None => check_history rest capabilities
      end
  end.

End messages.

Definition check_generation (id : str) (actual expected : Z) : result unit SessionError :=
  if (actual =? expected)%Z then Ok tt else Err (StaleModel id).

Definition invalid_snapshot : SessionError := InvalidData L"invalid model selection snapshot".

Definition i64_checked_add (a b : Z) : option Z :=
  if decide (i64_min <= a + b <= i64_max)%Z then Some (a + b)%Z else None.

Definition next_generation (generation : Z) : result Z SessionError :=
  match i64_checked_add generation 1 with Some n => Ok n | None => Err invalid_snapshot end.

(** ** Identities and host requests (recovery.rs) *)

Definition validate_identifier (id : str) : result unit SessionError :=
  if is_empty (trim id) || (256 <? byte_len id)
  then Err (InvalidData L"host identity must contain 1–256 bytes and not be blank")
  else Ok tt.

Record ExecutionIdentity := mkExecutionIdentity { identity_key : str; identity_revision : str }.

#[global] Instance ExecutionIdentity_eq_dec : EqDecision ExecutionIdentity.
Proof. solve_decision. Defined.

Definition ExecutionIdentity_new (key revision : str) : result ExecutionIdentity SessionError :=
  match validate_identifier key with
  | Err e => Err e
  | Ok _ =>
      match validate_identifier revision with
      | Err e => Err e
      | Ok _ => Ok (mkExecutionIdentity key revision)
      end
  end.

Record HostRequest := mkHostRequest { request_fingerprint : str; request_id : str }.

#[global] Instance HostRequest_eq_dec : EqDecision HostRequest.
Proof. solve_decision. Defined.

Record RecordedModel := mkRecordedModel {
  recorded_generation : Z;
  recorded_model_name : option str;
  recorded_provider : option str;
  recorded_registration : option ExecutionIdentity
}.

(** ** Write journal (write_journal.rs) *)

(** SHA-256 of file content, in hexadecimal. *)
Class ContentHash := content_hash : list N → str.

Inductive WriteStatus := WritePending | WriteApplied | WriteFailed.

#[global] Instance WriteStatus_eq_dec : EqDecision WriteStatus.
Proof. solve_decision. Defined.

Record WriteRecord := mkWriteRecord {
  write_call_id : str;
  write_expected_hash : option str;
  write_id : Z;
  write_path : str;
  write_repository_root : str;
  write_resulting_hash : str;
  write_status : WriteStatus;
  write_turn_position : Z
}.

#[global] Instance WriteRecord_eq_dec : EqDecision WriteRecord.
Proof. solve_decision. Defined.

(** ** Laws

    The exact sizes, without saturation. *)

Definition image_total (bs : list InputBlock) : Z :=
  foldr (λ block total,
    match block with BlockImage image => usize_len (image_bytes image) | BlockText _ => 0 end + total)%Z
    0%Z bs.

Definition exact_block_bytes (block : InputBlock) : Z :=
  match block with
  | BlockImage image =>
      str_len DATA_URL_PREFIX + str_len (ImageMediaType_as_str (image_media_type image)) +
      str_len DATA_URL_SEPARATOR + (usize_len (image_bytes image) + 2) / 3 * 4
  | BlockText text => str_len text
  end%Z.

Definition exact_total (bs : list InputBlock) : Z :=
  foldr (λ block total, exact_block_bytes block + total)%Z 0%Z bs.

Lemma usize_max_limits : (MAX_ENCODED_BYTES < usize_max ∧ MAX_TOTAL_IMAGE_BYTES < usize_max)%Z.
Proof. by vm_compute. Qed.

Lemma image_total_nonneg bs : (0 <= image_total bs)%Z.
Proof. induction bs as [|[] bs IH]; simpl; unfold usize_len; lia. Qed.

Lemma check_image_bytes_Ok bs seen :
  (0 <= seen <= MAX_TOTAL_IMAGE_BYTES)%Z →
  check_image_bytes bs seen = Ok tt ↔ (seen + image_total bs <= MAX_TOTAL_IMAGE_BYTES)%Z.
Proof.
  pose proof usize_max_limits as [_ Hm]. revert seen.
  induction bs as [|b bs IH]; intros seen Hs; simpl; [intuition lia|].
  pose proof (image_total_nonneg bs) as Hn.
  set (n := match b with BlockImage image => usize_len (image_bytes image) | BlockText _ => 0%Z end).
  assert (0 <= n)%Z by (unfold n, usize_len; destruct b; lia).
  assert (Ht : match b with BlockImage image => usize_saturating_add seen (usize_len (image_bytes image))
                          | BlockText _ => seen end = Z.min (seen + n) usize_max)
    by (unfold n, usize_saturating_add; destruct b; lia).
  rewrite Ht. clearbody n. destruct (Z.ltb_spec MAX_TOTAL_IMAGE_BYTES (Z.min (seen + n) usize_max)).
  - split; [done|lia].
  - rewrite IH by lia. lia.
Qed.

Lemma exact_block_nonneg b : (0 <= exact_block_bytes b)%Z.
Proof.
  destruct b; unfold exact_block_bytes, str_len; [|lia].
  pose proof (Z.div_pos (usize_len (image_bytes image) + 2) 3) as Hd. unfold usize_len in *. lia.
Qed.

Lemma exact_total_nonneg bs : (0 <= exact_total bs)%Z.
Proof. induction bs as [|b bs IH]; simpl; [lia|]. pose proof (exact_block_nonneg b). lia. Qed.

Lemma block_bytes_exact b : (0 <= block_bytes b)%Z ∧
  Z.min (block_bytes b) usize_max = Z.min (exact_block_bytes b) usize_max.
Proof.
  pose proof (exact_block_nonneg b) as Hn.
  destruct b as [image|text]; unfold block_bytes, exact_block_bytes, encoded_data_url_bytes in *;
    [|by unfold str_len in *; split; [lia|]].
  pose proof (Z.div_pos (usize_len (image_bytes image) + 2) 3) as Hd.
  unfold base64_len, usize_saturating_add, str_len, usize_len in *.
  assert (0 < usize_max)%Z by (by vm_compute). lia.
Qed.

Lemma retained_bytes_exact bs : TurnInput_retained_bytes (mkTurnInput bs) = Z.min (exact_total bs) usize_max.
Proof.
  unfold TurnInput_retained_bytes. cbn [blocks].
  enough (Hgen : ∀ seen, (0 <= seen)%Z →
    Z.min (fold_left (λ total block, usize_saturating_add total (block_bytes block)) bs (Z.min seen usize_max)) usize_max
    = Z.min (seen + exact_total bs) usize_max ∧
    (fold_left (λ total block, usize_saturating_add total (block_bytes block)) bs (Z.min seen usize_max) <= usize_max)%Z).
  { destruct (Hgen 0%Z) as [He Hle]; [lia|].
    replace (Z.min 0 usize_max) with 0%Z in * by (by vm_compute). lia. }
  induction bs as [|b bs IH]; intros seen Hs; simpl; [lia|].
  pose proof (exact_block_nonneg b). destruct (block_bytes_exact b) as [Hb0 Hb].
  replace (usize_saturating_add (Z.min seen usize_max) (block_bytes b))
    with (Z.min (seen + exact_block_bytes b) usize_max) by (unfold usize_saturating_add; lia).
  destruct (IH (seen + exact_block_bytes b)%Z) as [He Hle]; [lia|]. split; [rewrite He; f_equal; lia|done].
Qed.

(** Input is accepted exactly within its three bounds, counted without
    saturation: at most 8 images, 32 MiB of image bytes and 48 MiB as sent, with
    images at data-URL length; accepted blocks are kept as they are. *)
Theorem from_blocks_bounds bs input :
  from_blocks bs = Ok input ↔
  input = mkTurnInput bs ∧ (usize_len (List.filter is_image bs) <= MAX_IMAGES)%Z ∧
  (image_total bs <= MAX_TOTAL_IMAGE_BYTES)%Z ∧ (exact_total bs <= MAX_ENCODED_BYTES)%Z.
Proof.
  pose proof usize_max_limits as [Hm _]. pose proof (exact_total_nonneg bs).
  unfold from_blocks. destruct (Z.ltb_spec MAX_IMAGES (usize_len (List.filter is_image bs))); [intuition (lia || done)|].
  pose proof (check_image_bytes_Ok bs 0) as Hc. rewrite Z.add_0_l in Hc.
  destruct (check_image_bytes bs 0) as [[]|e].
  - rewrite retained_bytes_exact. assert (image_total bs <= MAX_TOTAL_IMAGE_BYTES)%Z by (apply Hc; [by vm_compute|done]).
    destruct (Z.ltb_spec MAX_ENCODED_BYTES (Z.min (exact_total bs) usize_max)).
    + split; [done|]. lia.
    + split; [intros [= <-]|intros (-> & _); done]. repeat split; lia.
  - split; [done|]. intros (_ & _ & Hi & _). apply Hc in Hi; [done|by vm_compute].
Qed.
