(* ===== verification/Patch.v ===== *)
(** * Unified diffs of the write tool (crates/ag-harness/src/write.rs, schema_contract.rs)

    The patch a model sends to the write tool: parsing, the checks of its
    headers, and its application to the bytes of a file.  Positions and counts
    are [usize] values in [Z]. *)
From S2P Require Import Prelude HarnessModel.

(** ** Errors *)

Definition DIAGNOSTIC_LIMIT_CHARS : nat := 512.

Definition bounded_diagnostic (reason : str) : str :=
  take DIAGNOSTIC_LIMIT_CHARS reason ++
  (if is_empty (drop DIAGNOSTIC_LIMIT_CHARS reason) then [] else L" ...").

(** [io::ErrorKind] as far as it is looked at. *)
Inductive IoErrorKind := IoNotFound | IoAlreadyExists | IoInvalidData | IoOther.
Record IoError := mkIoError { io_kind : IoErrorKind; io_text : str }.

Inductive WriteError :=
| BinaryTarget (path : str)
| EncodeFailed (reason : str)
| NoChange (path : str)
| PatchInvalid (reason : str)
| PathMismatch (path : str)
| ReadTarget (path : str) (source : IoError)
| RepositoryRoot (path : str) (source : IoError)
| TargetTooLarge (limit : Z) (path : str)
| Unsupported (reason : str)
| WriteTarget (path : str) (source : IoError).

Definition is_model_correctable (self : WriteError) : bool :=
  match self with
  | BinaryTarget _ | NoChange _ | PatchInvalid _ | PathMismatch _ | TargetTooLarge _ _ | Unsupported _ => true
  | WriteTarget _ source => match io_kind source with IoAlreadyExists | IoInvalidData => true | _ => false end
  | EncodeFailed _ | ReadTarget _ _ | RepositoryRoot _ _ => false
  end.

Definition patch_error (reason : str) : WriteError := PatchInvalid (bounded_diagnostic reason).

(** ** Patches *)

Record TextLine := mkTextLine { content : str; has_newline : bool }.

Inductive PatchLineKind := Addition | ContextLine | Removal.

#[global] Instance PatchLineKind_eq_dec : EqDecision PatchLineKind.
Proof. solve_decision. Defined.

Record PatchLine := mkPatchLine { kind : PatchLineKind; line_text : TextLine }.

Record Hunk := mkHunk {
  hunk_lines : list PatchLine;
  new_count : Z;
  new_start : Z;
  old_count : Z;
  old_start : Z
}.

Record UnifiedDiff := mkDiff {
  hunks : list Hunk;
  modified_path : str;
  original_path : str
}.

Record PatchTermination := mkTermination { new_side : bool; old_side : bool }.

(** *** Parsing *)

(** [strip_suffix('\n').unwrap_or(line)]. *)
Definition strip_patch_newline (line : str) : str :=
  match rev line with
  | c :: r => if (c =? newline)%N then rev r else line
  | [] => line
  end.

Definition ends_with_newline (line : str) : bool :=
  match rev line with c :: _ => (c =? newline)%N | [] => false end.

(** The last line loses its newline. *)
Definition drop_newline (line : PatchLine) : PatchLine :=
  mkPatchLine (kind line) (mkTextLine (content (line_text line)) false).

Definition apply_marker (self : PatchTermination) (lines : list PatchLine) (marker_repeated : bool)
  : result (PatchTermination * list PatchLine) WriteError :=
  if marker_repeated then Err (patch_error (L"newline marker cannot be repeated"))
  else match rev lines with
       | [] => Err (patch_error (L"newline marker has no preceding patch line"))
       | previous :: before =>
           Ok (match kind previous with
               | Addition => mkTermination true (old_side self)
               | ContextLine => mkTermination true true
               | Removal => mkTermination (new_side self) true
               end, rev before ++ [drop_newline previous])
       end.

Definition validate_line (self : PatchTermination) (k : PatchLineKind) : result unit WriteError :=
  if (old_side self && negb (bool_decide (k = Addition))) || (new_side self && negb (bool_decide (k = Removal)))
  then Err (patch_error (L"newline marker must terminate its affected file side")) else Ok tt.

(** [split_at_checked(1)]: [None] when the first character takes more than one
    byte, or none is there; both are reported alike. *)
Definition parse_patch_line (line : str) : result PatchLine WriteError :=
  match line with
  | c :: rest =>
      if len_utf8 c =? 1 then
        if (c =? 43)%N then Ok (mkPatchLine Addition (mkTextLine rest true))
        else if (c =? 32)%N then Ok (mkPatchLine ContextLine (mkTextLine rest true))
        else if (c =? 45)%N then Ok (mkPatchLine Removal (mkTextLine rest true))
        else Err (patch_error (L"hunk line must start with space, `+`, or `-`"))
      else Err (patch_error (L"hunk contains an empty patch line"))
  | [] => Err (patch_error (L"hunk contains an empty patch line"))
  end.

Definition NO_NEWLINE_MARKER : str := L"\ No newline at end of file".

(** [while let Some(line) = lines.next_if(..)]: the lines of the hunk, the
    termination and the lines left. *)
Fixpoint parse_hunk_lines (lines : list str) (termination : PatchTermination) (acc : list PatchLine)
    (previous_line_had_marker : bool)
  : result (list PatchLine * PatchTermination * list str) WriteError :=
  match lines with
  | [] => Ok (acc, termination, [])
  | line :: rest =>
      if starts_with line (L"@@ ") then Ok (acc, termination, lines)
      else
        let line := strip_patch_newline line in
        if str_eqb line NO_NEWLINE_MARKER then
          let? (termination, acc) := apply_marker termination acc previous_line_had_marker in
          parse_hunk_lines rest termination acc true
        else
          let? patch_line := parse_patch_line line in
          let? _ := validate_line termination (kind patch_line) in
          parse_hunk_lines rest termination (acc ++ [patch_line]) false
  end.

Definition is_old (line : PatchLine) : bool := negb (bool_decide (kind line = Addition)).
Definition is_new (line : PatchLine) : bool := negb (bool_decide (kind line = Removal)).

Definition validate_hunk_line_counts (lines : list PatchLine) (old_count new_count : Z)
  : result unit WriteError :=
  if negb (usize_len (List.filter is_old lines) =? old_count)%Z ||
     negb (usize_len (List.filter is_new lines) =? new_count)%Z
  then Err (patch_error (L"hunk line counts do not match its header")) else Ok tt.

Definition ok_or {A} (o : option A) (reason : str) : result A WriteError :=
  match o with Some a => Ok a | None => Err (patch_error reason) end.

Definition parse_range (range : str) : result (Z * Z) WriteError :=
  let '(start, count) := default (range, L"1") (split_once range [44%N]) in
  let? start := ok_or (parse_usize start) (L"hunk range start is not a valid integer") in
  let? count := ok_or (parse_usize count) (L"hunk range count is not a valid integer") in
  Ok (start, count).

Definition parse_hunk_header (header : str) : result (Z * Z * Z * Z) WriteError :=
  let? ranges := ok_or (rest ← strip_prefix (L"@@ -") header; fst <$> split_once rest (L" @@"))
              (L"invalid unified diff hunk header") in
  let? (old_range, new_range) := ok_or (split_once ranges (L" +")) (L"invalid unified diff hunk ranges") in
  let? (old_start, old_count) := parse_range old_range in
  let? (new_start, new_count) := parse_range new_range in
  Ok (old_start, old_count, new_start, new_count).

Definition parse_header (line : option str) (prefix : str) : result str WriteError :=
  let? line := ok_or line (L"patch is missing file headers") in
  let? rest := ok_or (strip_prefix prefix (strip_patch_newline line))
            (L"patch must start with `---` and `+++` file headers") in
  let path := default [] (head (split_char 9%N rest)) in
  if is_empty path then Err (patch_error (L"patch file header path must not be empty")) else Ok path.

(** The loop over the hunks; every round takes its header, so [length] rounds do. *)
Fixpoint parse_hunks (fuel : nat) (lines : list str) (termination : PatchTermination) (acc : list Hunk)
  : result (list Hunk) WriteError :=
  match fuel, lines with
  | S fuel', header :: rest =>
      let? (old_start, old_count, new_start, new_count) := parse_hunk_header (strip_patch_newline header) in
      let? (hunk_lines, termination, rest) := parse_hunk_lines rest termination [] false in
      let? _ := validate_hunk_line_counts hunk_lines old_count new_count in
      parse_hunks fuel' rest termination (acc ++ [mkHunk hunk_lines new_count new_start old_count old_start])
  | _, _ => Ok acc
  end.

Definition parse_unified_diff (patch : str) : result UnifiedDiff WriteError :=
  let normalized := str_replace patch [carriage_return; newline] [newline] in
  if existsb (N.eqb carriage_return) normalized
  then Err (patch_error (L"patch contains unsupported carriage returns"))
  else
    let lines := split_inclusive normalized in
    let? original_path := parse_header (head lines) (L"--- ") in
    let? modified_path := parse_header (head (drop 1 lines)) (L"+++ ") in
    let? hunks := parse_hunks (length lines) (drop 2 lines) (mkTermination false false) [] in
    Ok (mkDiff hunks modified_path original_path).

(** *** Headers *)

Definition header_path (path : str) : str :=
  match strip_prefix (L"a/") path with
  | Some rest => rest
  | None => default path (strip_prefix (L"b/") path)
  end.

Definition validate_headers (path : str) (exists_ : bool) (diff : UnifiedDiff) : result unit WriteError :=
  if str_eqb (modified_path diff) (L"/dev/null") then Err (Unsupported (L"file deletion is not supported"))
  else if negb (str_eqb (header_path (modified_path diff)) path) then Err (PathMismatch path)
  else if exists_ then
    if str_eqb (original_path diff) (L"/dev/null")
    then Err (Unsupported (L"create patch targets an existing file"))
    else if negb (str_eqb (header_path (original_path diff)) path)
    then Err (Unsupported (L"file rename is not supported"))
    else Ok tt
  else if negb (str_eqb (original_path diff) (L"/dev/null"))
  then Err (Unsupported (L"new files require `/dev/null` as the original path"))
  else Ok tt.

(** ** Application *)

Record HunkApplier := mkApplier {
  new_side_terminated : bool;
  output : str;
  output_index : Z;
  previous_original_end : option Z;
  source_index : Z;
  source_lines : list str
}.

Definition HunkApplier_new (current : str) : HunkApplier :=
  mkApplier false [] 0 None 0 (split_inclusive current).

Definition hunk_start (start count : Z) (side : str) : result Z WriteError :=
  if (count =? 0)%Z then Ok start
  else if (start =? 0)%Z
  then Err (patch_error (L"non-empty hunk cannot start at " ++ side ++ L" line zero"))
  else Ok (start - 1)%Z.

Definition source_line_matches (source : str) (expected : TextLine) : bool :=
  eqb (ends_with_newline source) (has_newline expected) &&
  str_eqb (strip_patch_newline source) (content expected).

(** [push_text_line]: the text of a line. *)
Definition text_of (line : TextLine) : str :=
  content line ++ (if has_newline line then [newline] else []).

Definition termination_error : WriteError :=
  patch_error (L"newline marker must terminate its affected file side").

Definition validate_original_range (self : HunkApplier) (original_index old_count : Z)
  : result HunkApplier WriteError :=
  if match previous_original_end self with Some e => (original_index <? e)%Z | None => false end
  then Err (patch_error (L"hunks must use ascending, non-overlapping original ranges"))
  else if (usize_max <? original_index + old_count)%Z
  then Err (patch_error (L"hunk original range overflowed"))
  else Ok (mkApplier (new_side_terminated self) (output self) (output_index self)
             (Some (original_index + old_count)%Z) (source_index self) (source_lines self)).

(** A line of the source that is copied. *)
Definition copy_line (self : HunkApplier) (line : str) (rest : list str) : HunkApplier :=
  mkApplier (new_side_terminated self) (output self ++ line) (output_index self + 1)
    (previous_original_end self) (source_index self + 1) rest.

(** Every round takes a line, so the loop is a recursion over the lines. *)
Fixpoint copy_source_loop (lines : list str) (self : HunkApplier) (original_index : Z)
  : result HunkApplier WriteError :=
  if (source_index self <? original_index)%Z then
    if new_side_terminated self then Err termination_error
    else match lines with
         | [] => Err (patch_error (L"hunk starts beyond the end of the target"))
         | line :: rest => copy_source_loop rest (copy_line self line rest) original_index
         end
  else Ok self.

Definition copy_source_until (self : HunkApplier) (original_index : Z) : result HunkApplier WriteError :=
  copy_source_loop (source_lines self) self original_index.

Definition next_matching_source_line (self : HunkApplier) (expected : TextLine) (mismatch : str)
  : result (str * list str) WriteError :=
  match source_lines self with
  | [] => Err (patch_error mismatch)
  | line :: rest => if source_line_matches line expected then Ok (line, rest) else Err (patch_error mismatch)
  end.

Definition apply_line (self : HunkApplier) (line : PatchLine) : result HunkApplier WriteError :=
  let terminated := negb (has_newline (line_text line)) in
  match kind line with
  | Addition =>
      Ok (mkApplier terminated (output self ++ text_of (line_text line)) (output_index self + 1)
            (previous_original_end self) (source_index self) (source_lines self))
  | ContextLine =>
      let? (source, rest) := next_matching_source_line self (line_text line)
                           (L"hunk context does not match the target") in
      Ok (mkApplier terminated (output self ++ source) (output_index self + 1)
            (previous_original_end self) (source_index self + 1) rest)
  | Removal =>
      let? (_, rest) := next_matching_source_line self (line_text line)
                      (L"hunk removal does not match the target") in
      Ok (mkApplier (new_side_terminated self) (output self) (output_index self)
            (previous_original_end self) (source_index self + 1) rest)
  end.

Fixpoint apply_lines (self : HunkApplier) (lines : list PatchLine) : result HunkApplier WriteError :=
  match lines with
  | [] => Ok self
  | line :: rest => let? self := apply_line self line in apply_lines self rest
  end.

Definition apply_hunk (self : HunkApplier) (hunk : Hunk) : result HunkApplier WriteError :=
  let? original_index := hunk_start (old_start hunk) (old_count hunk) (L"original") in
  let? modified_index := hunk_start (new_start hunk) (new_count hunk) (L"modified") in
  let? self := validate_original_range self original_index (old_count hunk) in
  let? self := copy_source_until self original_index in
  if negb (modified_index =? output_index self)%Z
  then Err (patch_error (L"hunk modified range does not match its original range"))
  else apply_lines self (hunk_lines hunk).

Definition finish (self : HunkApplier) : result str WriteError :=
  if new_side_terminated self && negb (is_empty (source_lines self)) then Err termination_error
  else Ok (output self ++ concat (source_lines self)).

Fixpoint apply_hunk_list (self : HunkApplier) (hunks : list Hunk) : result HunkApplier WriteError :=
  match hunks with
  | [] => Ok self
  | hunk :: rest => let? self := apply_hunk self hunk in apply_hunk_list self rest
  end.

Definition apply_hunks (current : str) (hunks : list Hunk) : result str WriteError :=
  let? applier := apply_hunk_list (HunkApplier_new current) hunks in finish applier.

(** ** Files *)

Definition BYTE_ORDER_MARK : list N := [239; 187; 191]%N.
Definition MAX_FILE_BYTES : Z := 2 * 1024 * 1024.

(** [std::str::from_utf8]: one character from its bytes; overlong forms,
    surrogates and values past the last code point are refused. *)
Definition continuation (b : N) : option N :=
  if ((128 <=? b) && (b <? 192))%N then Some (b - 128)%N else None.

Definition scalar (c : N) (low : N) : option char :=
  if ((low <=? c) && (c <? 1114112) && negb ((55296 <=? c) && (c <? 57344)))%N then Some c else None.

Fixpoint from_utf8_loop (fuel : nat) (bytes : list N) : option str :=
  match fuel with
  | 0 => match bytes with [] => Some [] | _ => None end
  | S fuel' =>
      match bytes with
      | [] => Some []
      | b0 :: rest =>
          if (b0 <? 128)%N then cons b0 <$> from_utf8_loop fuel' rest
          else if ((192 <=? b0) && (b0 <? 224))%N then
            match rest with
            | b1 :: rest =>
                x1 ← continuation b1; c ← scalar ((b0 - 192) * 64 + x1)%N 128;
                cons c <$> from_utf8_loop fuel' rest
            | _ => None
            end
          else if ((224 <=? b0) && (b0 <? 240))%N then
            match rest with
            | b1 :: b2 :: rest =>
                x1 ← continuation b1; x2 ← continuation b2;
                c ← scalar ((b0 - 224) * 4096 + x1 * 64 + x2)%N 2048;
                cons c <$> from_utf8_loop fuel' rest
            | _ => None
            end
          else if ((240 <=? b0) && (b0 <? 248))%N then
            match rest with
            | b1 :: b2 :: b3 :: rest =>
                x1 ← continuation b1; x2 ← continuation b2; x3 ← continuation b3;
                c ← scalar ((b0 - 240) * 262144 + x1 * 4096 + x2 * 64 + x3)%N 65536;
                cons c <$> from_utf8_loop fuel' rest
            | _ => None
            end
          else None
      end
  end.

Definition from_utf8 (bytes : list N) : option str := from_utf8_loop (length bytes) bytes.

Definition decode_text (path : str) (bytes : list N) : result (list N * str) WriteError :=
  let '(bom, text) := match strip_prefix BYTE_ORDER_MARK bytes with
                      | Some text => (BYTE_ORDER_MARK, text) | None => ([], bytes) end in
  match from_utf8 text with
  | Some text => Ok (bom, text)
  | None => Err (BinaryTarget path)
  end.

(** The line endings of a text: the bytes 13 and 10 are characters of their
    own in UTF-8, so the scans run over the characters. *)
Fixpoint has_pair (s : str) : bool :=
  match s with
  | c :: ((d :: _) as rest) => ((c =? carriage_return) && (d =? newline))%N || has_pair rest
  | _ => false
  end.

Fixpoint has_bare_lf (previous : option char) (s : str) : bool :=
  match s with
  | [] => false
  | c :: rest =>
      (c =? newline)%N && negb (bool_decide (previous = Some carriage_return)) || has_bare_lf (Some c) rest
  end.

Fixpoint has_lone_cr (s : str) : bool :=
  match s with
  | [] => false
  | c :: rest => (c =? carriage_return)%N && negb (bool_decide (head rest = Some newline)) || has_lone_cr rest
  end.

Inductive LineEnding := CrLf | Lf.

Definition normalize_line_endings (path text : str) : result (LineEnding * str) WriteError :=
  if has_lone_cr text || (has_pair text && has_bare_lf None text)
  then Err (Unsupported (L"mixed or unsupported line endings in `" ++ path ++ L"`"))
  else if has_pair text then Ok (CrLf, str_replace text [carriage_return; newline] [newline])
  else Ok (Lf, text).

Definition apply_unified_diff (requested_path : str) (current : option (list N)) (unified_patch : str)
  : result (list N) WriteError :=
  let? diff := parse_unified_diff unified_patch in
  let? _ := validate_headers requested_path (bool_decide (is_Some current)) diff in
  let? (bom, text) := decode_text requested_path (default [] current) in
  let? (line_ending, normalized) := normalize_line_endings requested_path text in
  let? output := apply_hunks normalized (hunks diff) in
  let output := match line_ending with
                | CrLf => str_replace output [newline] [carriage_return; newline] | Lf => output end in
  Ok (bom ++ as_bytes output).
