(* ===== verification/PatchLaws.v ===== *)
(** * Laws of the write tool's patches

    A patch is applied exactly as its hunks say: outside of them the file is
    copied, and inside the old lines give way to the new ones.  A parsed patch
    can be taken back, and a printed patch parses as it was. *)
From S2P Require Import Prelude HarnessModel Patch.

#[local] Arguments lit : simpl never.

(** ** Lines of a file *)

(** Lines as a file has them: each ends with its line feed, the last may not. *)
Inductive file_lines : list str → Prop :=
| file_lines_nil : file_lines []
| file_lines_last x : x ≠ [] → newline ∉ x → file_lines [x]
| file_lines_cons x ls : newline ∉ x → file_lines ls → file_lines ((x ++ [newline]) :: ls).

Lemma concat_split_inclusive s : concat (split_inclusive s) = s.
Proof.
  induction s as [|c s IH]; cbn; [done|]. destruct (c =? newline)%N; cbn; [by rewrite IH|].
  destruct (split_inclusive s) as [|l ls]; cbn in *; by rewrite <- IH.
Qed.

Lemma file_lines_split s : file_lines (split_inclusive s).
Proof.
  induction s as [|c s IH]; cbn; [constructor|].
  destruct (N.eqb_spec c newline) as [->|Hc].
  { apply (file_lines_cons [] _); [set_solver|done]. }
  destruct (split_inclusive s) as [|l ls].
  - apply file_lines_last; [done|]. by apply not_elem_of_cons; split; [|set_solver].
  - inversion IH as [|x Hx N|x ls' N HL]; subst.
    + apply file_lines_last; [done|]. by apply not_elem_of_cons.
    + rewrite app_comm_cons. apply file_lines_cons; [by apply not_elem_of_cons|done].
Qed.

Lemma split_inclusive_app x s : newline ∉ x → split_inclusive (x ++ newline :: s) = (x ++ [newline]) :: split_inclusive s.
Proof.
  induction x as [|c x IH]; intros HN; [done|]. apply not_elem_of_cons in HN as [HC HN]. cbn.
  destruct (N.eqb_spec c newline); [done|]. by rewrite IH.
Qed.

Lemma split_inclusive_last x : x ≠ [] → newline ∉ x → split_inclusive x = [x].
Proof.
  induction x as [|c x IH]; intros HX HN; [done|]. apply not_elem_of_cons in HN as [HC HN]. cbn.
  destruct (N.eqb_spec c newline); [done|]. destruct x as [|d x]; [done|]. by rewrite IH.
Qed.

Lemma split_file_lines ls : file_lines ls → split_inclusive (concat ls) = ls.
Proof.
  induction 1 as [|x HX HN|x ls HN HL IH]; cbn; [done| |].
  - by rewrite app_nil_r, split_inclusive_last.
  - rewrite <- app_assoc. cbn [app]. by rewrite split_inclusive_app, IH.
Qed.

Lemma ends_with_newline_snoc x : ends_with_newline (x ++ [newline]) = true.
Proof. unfold ends_with_newline. by rewrite rev_app_distr. Qed.

Lemma strip_newline_snoc x : strip_patch_newline (x ++ [newline]) = x.
Proof. unfold strip_patch_newline. rewrite rev_app_distr. cbn. by rewrite rev_involutive. Qed.

Lemma ends_with_newline_true s : ends_with_newline s = true → s = strip_patch_newline s ++ [newline].
Proof.
  unfold ends_with_newline, strip_patch_newline. destruct (rev s) as [|c r] eqn:E; [done|].
  intros H. rewrite H. apply N.eqb_eq in H as ->. apply (f_equal (λ l, rev l)) in E.
  by rewrite rev_involutive in E.
Qed.

Lemma ends_with_newline_false s : ends_with_newline s = false → strip_patch_newline s = s.
Proof. unfold ends_with_newline, strip_patch_newline. destruct (rev s); [done|]. by intros ->. Qed.

Lemma no_newline_end s : newline ∉ s → ends_with_newline s = false.
Proof.
  intros HN. destruct (ends_with_newline s) eqn:E; [|done]. apply ends_with_newline_true in E.
  rewrite E in HN. set_solver.
Qed.

(** ** Sides of a hunk *)

Definition line_ok (line : PatchLine) : Prop := newline ∉ content (line_text line).

Lemma source_line_matches_true src t :
  newline ∉ content t → source_line_matches src t = true ↔ src = text_of t.
Proof.
  intros HN. unfold source_line_matches, text_of. rewrite andb_true_iff, eqb_true_iff, str_eqb_true. split.
  - intros [E1 E2]. destruct (has_newline t).
    + apply ends_with_newline_true in E1. by rewrite E1, E2.
    + apply ends_with_newline_false in E1. by rewrite app_nil_r, <- E2.
  - intros ->. destruct (has_newline t); [by rewrite ends_with_newline_snoc, strip_newline_snoc|].
    rewrite app_nil_r, no_newline_end by done. split; [done|]. apply ends_with_newline_false. by apply no_newline_end.
Qed.

Definition texts (select : PatchLine → bool) (lines : list PatchLine) : list str :=
  (λ l, text_of (line_text l)) <$> List.filter select lines.

Definition old_lines (h : Hunk) : list str := texts is_old (hunk_lines h).
Definition new_lines (h : Hunk) : list str := texts is_new (hunk_lines h).

Definition line_terminates (t : bool) (l : PatchLine) : bool :=
  match kind l with Removal => t | _ => negb (has_newline (line_text l)) end.

(** Whether the new side is terminated after some lines. *)
Definition term_after (t : bool) (lines : list PatchLine) : bool := fold_left line_terminates lines t.

Definition zlen {A} (l : list A) : Z := Z.of_nat (length l).

Lemma zlen_app {A} (l l' : list A) : zlen (l ++ l') = (zlen l + zlen l')%Z.
Proof. unfold zlen. rewrite length_app. lia. Qed.

Lemma zlen_cons {A} (x : A) l : zlen (x :: l) = (1 + zlen l)%Z.
Proof. unfold zlen. cbn [length]. lia. Qed.

(** ** Application of one hunk *)

Definition side (select : PatchLine → bool) (l : PatchLine) : list str :=
  if select l then [text_of (line_text l)] else [].

Lemma texts_cons select l lines : texts select (l :: lines) = side select l ++ texts select lines.
Proof. unfold texts, side. cbn. by destruct (select l). Qed.

Lemma side_old l : side is_old l = match kind l with Addition => [] | _ => [text_of (line_text l)] end.
Proof. unfold side, is_old. by destruct (kind l). Qed.

Lemma side_new l : side is_new l = match kind l with Removal => [] | _ => [text_of (line_text l)] end.
Proof. unfold side, is_new. by destruct (kind l). Qed.

Lemma next_matching_spec self t why line rest :
  newline ∉ content t →
  next_matching_source_line self t why = Ok (line, rest) ↔ source_lines self = line :: rest ∧ line = text_of t.
Proof.
  intros HN. unfold next_matching_source_line. destruct (source_lines self) as [|x r]; [by split; [|intros []]|].
  destruct (source_line_matches x t) eqn:E.
  - apply source_line_matches_true in E as ->; [|done]. split; [by intros [= <- <-]|by intros [[= -> ->] _]].
  - split; [done|]. intros [[= -> ->] Hx]. apply source_line_matches_true in Hx; [congruence|done].
Qed.

Lemma apply_line_spec l self self' :
  line_ok l →
  apply_line self l = Ok self' ↔
  ∃ rest, source_lines self = side is_old l ++ rest ∧
    self' = mkApplier (line_terminates (new_side_terminated self) l) (output self ++ concat (side is_new l))
              (output_index self + zlen (side is_new l)) (previous_original_end self)
              (source_index self + zlen (side is_old l)) rest.
Proof.
  intros HL. rewrite side_old, side_new. unfold apply_line, line_terminates, zlen.
  destruct self as [t o oi p si src], (kind l) eqn:K; cbn.
  - rewrite app_nil_r, Z.add_0_r. split; [intros [= <-]; by exists src|by intros (r & -> & ->)].
  - rewrite and_then_Ok, app_nil_r. split.
    + intros ([line rest] & [E ->]%next_matching_spec & [= <-]); [|done]. exists rest. split; [exact E|done].
    + intros (rest & E & ->). exists (text_of (line_text l), rest). split; [by apply next_matching_spec|done].
  - rewrite and_then_Ok, app_nil_r, Z.add_0_r. split.
    + intros ([line rest] & [E ->]%next_matching_spec & [= <-]); [|done]. exists rest. split; [exact E|done].
    + intros (rest & E & ->). exists (text_of (line_text l), rest). split; [by apply next_matching_spec|done].
Qed.

Lemma apply_lines_spec lines self self' :
  Forall line_ok lines →
  apply_lines self lines = Ok self' ↔
  ∃ rest, source_lines self = texts is_old lines ++ rest ∧
    self' = mkApplier (term_after (new_side_terminated self) lines) (output self ++ concat (texts is_new lines))
              (output_index self + zlen (texts is_new lines)) (previous_original_end self)
              (source_index self + zlen (texts is_old lines)) rest.
Proof.
  revert self. induction lines as [|l lines IH]; intros self HL; cbn [apply_lines].
  { destruct self. cbn. rewrite app_nil_r, !Z.add_0_r. split; [intros [= <-]; by eexists|by intros (rest & -> & ->)]. }
  apply Forall_cons in HL as [Hl HL]. rewrite !texts_cons, and_then_Ok, !zlen_app, concat_app, !Z.add_assoc.
  split.
  - intros (mid & (r1 & E1 & ->)%apply_line_spec & (r2 & E2 & ->)%IH); [|done..]. cbn in E2. subst r1.
    exists r2. split; [by rewrite E1, app_assoc|]. cbn. by rewrite app_assoc.
  - intros (rest & E & ->). eexists. split; [apply apply_line_spec; [done|]|apply IH; [done|]].
    + exists (texts is_old lines ++ rest). split; [by rewrite E, <- app_assoc|reflexivity].
    + exists rest. split; [done|]. cbn. by rewrite !app_assoc.
Qed.

(** ** Application of a list of hunks *)

(** A hunk whose header fits its lines. *)
Record hunk_ok (h : Hunk) : Prop := {
  hunk_lines_ok : Forall line_ok (hunk_lines h);
  hunk_old_count : old_count h = zlen (old_lines h);
  hunk_new_count : new_count h = zlen (new_lines h);
  hunk_old_start : (0 <= old_start h)%Z;
  hunk_new_start : (0 <= new_start h)%Z
}.

(** The header's line number of a range that begins after [i] lines: an empty
    range names the line before it. *)
Definition starts_at (start count i : Z) : Prop := start = (i + if (count =? 0)%Z then 0 else 1)%Z.

(** What a patch says: [patched t i o src hs out] when the hunks [hs] turn the
    lines [src] into the lines [out]; [i] lines of the source and [o] lines of
    the result stand before them, and [t] says that the result has ended
    without a newline. *)
Inductive patched : bool → Z → Z → list str → list Hunk → list str → Prop :=
| patched_end t i o src : (t = true → src = []) → patched t i o src [] src
| patched_hunk t i o gap h rest hs out :
    starts_at (old_start h) (old_count h) (i + zlen gap) →
    starts_at (new_start h) (new_count h) (o + zlen gap) →
    (t = true → gap = []) →
    patched (term_after t (hunk_lines h)) (i + zlen gap + zlen (old_lines h)) (o + zlen gap + zlen (new_lines h))
      rest hs out →
    patched t i o (gap ++ old_lines h ++ rest) (h :: hs) (gap ++ new_lines h ++ out).

Lemma zlen_nonneg {A} (l : list A) : (0 <= zlen l)%Z.
Proof. unfold zlen. lia. Qed.

Lemma zlen_nil {A} : zlen (@nil A) = 0%Z.
Proof. done. Qed.

Lemma zlen_zero {A} (l : list A) : zlen l = 0%Z → l = [].
Proof. destruct l; [done|]. rewrite zlen_cons. pose proof (zlen_nonneg l). lia. Qed.

Lemma hunk_start_spec start count who i :
  (0 <= start)%Z → hunk_start start count who = Ok i ↔ (0 <= i)%Z ∧ starts_at start count i.
Proof.
  intros HS. unfold hunk_start, starts_at. destruct (count =? 0)%Z.
  - split; [intros [= <-]; lia|]. intros [_ ->]. by rewrite Z.add_0_r.
  - destruct (Z.eqb_spec start 0) as [->|]; [split; [discriminate|lia]|].
    split; [intros [= <-]; lia|]. intros [_ ->]. f_equal. lia.
Qed.

Lemma copy_source_spec self target self' :
  (source_index self <= target)%Z →
  copy_source_until self target = Ok self' ↔
  ∃ gap rest, source_lines self = gap ++ rest ∧ (source_index self + zlen gap)%Z = target ∧
    (new_side_terminated self = true → gap = []) ∧
    self' = mkApplier (new_side_terminated self) (output self ++ concat gap) (output_index self + zlen gap)
              (previous_original_end self) target rest.
Proof.
  unfold copy_source_until. destruct self as [t o oi p si src]. cbn [source_lines]. revert o oi si.
  induction src as [|x src IH]; intros o oi si HT; cbn [source_index new_side_terminated output output_index previous_original_end] in *;
    cbn [copy_source_loop source_index new_side_terminated]; destruct (Z.ltb_spec si target) as [HLt|HGe].
  - split; [by destruct t|]. intros (gap & rest & [-> ->]%symmetry%app_nil & E & _). rewrite zlen_nil in E. lia.
  - assert (si = target) as <- by lia. split.
    + intros [= <-]. exists [], []. cbn. by rewrite app_nil_r, !Z.add_0_r.
    + intros (gap & rest & [-> ->]%symmetry%app_nil & _ & _ & ->). cbn. by rewrite app_nil_r, !Z.add_0_r.
  - destruct t.
    { split; [done|]. intros (gap & rest & _ & E & H & _). rewrite (H eq_refl), zlen_nil in E. lia. }
    unfold copy_line. cbn. rewrite IH by (cbn; lia). cbn. split.
    + intros (gap & rest & -> & E & _ & ->). exists (x :: gap), rest. rewrite zlen_cons, Z.add_assoc. cbn.
      rewrite <- app_assoc. split_and!; [done|lia|done|]. f_equal. lia.
    + intros ([|y gap] & rest & E & HL & _ & ->); [rewrite zlen_nil in HL; lia|]. rewrite zlen_cons in *. injection E as -> ->.
      exists gap, rest. cbn. rewrite <- app_assoc. split_and!; [done|lia|done|]. f_equal. lia.
  - assert (si = target) as <- by lia. split.
    + intros [= <-]. exists [], (x :: src). cbn. by rewrite app_nil_r, !Z.add_0_r.
    + intros (gap & rest & E & HL & _ & ->). assert (gap = []) as -> by (apply zlen_zero; lia). cbn in *. subst.
      by rewrite app_nil_r, !Z.add_0_r.
Qed.

(** Between two hunks the applier stands at the end of the last range. *)
Record between_hunks (self : HunkApplier) : Prop := {
  at_range_end : source_index self = default 0%Z (previous_original_end self);
  source_index_nonneg : (0 <= source_index self)%Z;
  output_index_nonneg : (0 <= output_index self)%Z;
  source_bounded : (source_index self + zlen (source_lines self) <= usize_max)%Z
}.

Lemma validate_original_range_spec self i n self' :
  between_hunks self → (0 <= i)%Z →
  validate_original_range self i n = Ok self' ↔
  (source_index self <= i)%Z ∧ (i + n <= usize_max)%Z ∧
  self' = mkApplier (new_side_terminated self) (output self) (output_index self) (Some (i + n)%Z)
            (source_index self) (source_lines self).
Proof.
  intros [HE HN _ _] HI. unfold validate_original_range.
  destruct (previous_original_end self) as [e|]; cbn in HE.
  - destruct (Z.ltb_spec i e); [split; [discriminate|lia]|].
    destruct (Z.ltb_spec usize_max (i + n)); [split; [discriminate|lia]|].
    split; [intros [= <-]; repeat split; lia|by intros (_ & _ & ->)].
  - destruct (Z.ltb_spec usize_max (i + n)); [split; [discriminate|lia]|].
    split; [intros [= <-]; repeat split; lia|by intros (_ & _ & ->)].
Qed.

Lemma apply_hunk_spec self h self' :
  between_hunks self → hunk_ok h →
  apply_hunk self h = Ok self' ↔
  ∃ gap rest, source_lines self = gap ++ old_lines h ++ rest ∧
    starts_at (old_start h) (old_count h) (source_index self + zlen gap) ∧
    starts_at (new_start h) (new_count h) (output_index self + zlen gap) ∧
    (new_side_terminated self = true → gap = []) ∧
    self' = mkApplier (term_after (new_side_terminated self) (hunk_lines h))
              (output self ++ concat gap ++ concat (new_lines h))
              (output_index self + zlen gap + zlen (new_lines h))
              (Some (source_index self + zlen gap + zlen (old_lines h))%Z)
              (source_index self + zlen gap + zlen (old_lines h)) rest.
Proof.
  intros HB [HL HO HN HS1 HS2]. unfold apply_hunk. rewrite and_then_Ok. split.
  - intros (i & [HI Hi]%hunk_start_spec & (j & [HJ Hj]%hunk_start_spec & (m1 & (HLe & _ & ->)%validate_original_range_spec &
      (m2 & (gap & rest & E & HG & HT & ->)%copy_source_spec & H)%and_then_Ok)%and_then_Ok)%and_then_Ok); [|done..].
    cbn in *. destruct (Z.eqb_spec j (output_index self + zlen gap)) as [->|]; [|discriminate]. subst i.
    apply apply_lines_spec in H as (rest' & E' & ->); [|done]. cbn in *. subst rest.
    exists gap, rest'. split_and!; [done..|]. by rewrite HO, <- app_assoc.
  - intros (gap & rest & E & H1 & H2 & HT & ->). pose proof (zlen_nonneg gap). pose proof HB as [_ HB1 HB2 HB3].
    rewrite E, !zlen_app in HB3. pose proof (zlen_nonneg rest).
    exists (source_index self + zlen gap)%Z. split; [apply hunk_start_spec; [done|split; [lia|done]]|].
    apply and_then_Ok. exists (output_index self + zlen gap)%Z. split; [apply hunk_start_spec; [done|split; [lia|done]]|].
    apply and_then_Ok. eexists. split; [apply validate_original_range_spec; [done|lia|split_and!; [lia|lia|done]]|].
    apply and_then_Ok. eexists. split; [apply copy_source_spec; [cbn; lia|]; eexists gap, _; cbn; split_and!; done|].
    cbn. rewrite Z.eqb_refl. cbn. apply apply_lines_spec; [done|]. exists rest. cbn.
    by rewrite HO, <- app_assoc.
Qed.

Lemma between_after self gap h rest :
  between_hunks self → source_lines self = gap ++ old_lines h ++ rest →
  between_hunks (mkApplier (term_after (new_side_terminated self) (hunk_lines h))
              (output self ++ concat gap ++ concat (new_lines h))
              (output_index self + zlen gap + zlen (new_lines h))
              (Some (source_index self + zlen gap + zlen (old_lines h))%Z)
              (source_index self + zlen gap + zlen (old_lines h)) rest).
Proof.
  intros [_ H1 H2 H3] E. rewrite E, !zlen_app in H3.
  pose proof (zlen_nonneg gap). pose proof (zlen_nonneg (old_lines h)). pose proof (zlen_nonneg (new_lines h)).
  split; cbn; [done|lia..].
Qed.

Lemma apply_hunk_list_spec hs self out :
  between_hunks self → Forall hunk_ok hs →
  (let? self := apply_hunk_list self hs in finish self) = Ok out ↔
  ∃ ls, patched (new_side_terminated self) (source_index self) (output_index self) (source_lines self) hs ls ∧
    out = output self ++ concat ls.
Proof.
  revert self. induction hs as [|h hs IH]; intros self HB HH; cbn [apply_hunk_list].
  { cbn. unfold finish. split.
    - destruct (new_side_terminated self && negb (is_empty (source_lines self))) eqn:E; [discriminate|].
      intros [= <-]. exists (source_lines self). split; [|done]. constructor. intros HT. rewrite HT in E. by destruct (source_lines self).
    - intros (ls & HP & ->). inversion HP as [t i o src HE|]; subst. destruct (new_side_terminated self); [|done].
      by rewrite (HE eq_refl). }
  apply Forall_cons in HH as [Hh HH]. split.
  - intros (s & (m & Hh' & Hm)%and_then_Ok & HF)%and_then_Ok.
    apply apply_hunk_spec in Hh' as (gap & rest & E & H1 & H2 & HT & ->); [|done..].
    edestruct (IH _ (between_after _ _ _ _ HB E) HH) as [H _]. destruct H as (ls & HP & ->).
    { apply and_then_Ok. eauto. }
    exists (gap ++ new_lines h ++ ls). cbn in *. rewrite E, !concat_app, <- !app_assoc. split; [|done]. by constructor.
  - intros (ls & HP & ->). inversion HP as [|t i o gap h' rest hs' ls' H1 H2 HT HP' Et Ei Eo E]; subst.
    edestruct (IH _ (between_after _ gap h rest HB (eq_sym E)) HH) as [_ H].
    destruct (proj1 (and_then_Ok _ _ _) (H ltac:(exists ls'; split; [exact HP'|cbn; by rewrite !concat_app, <- !app_assoc])))
      as (s & Hs & HF).
    apply and_then_Ok. exists s. split; [|exact HF]. apply and_then_Ok. eexists.
    split; [apply apply_hunk_spec; [done..|]; by exists gap, rest|exact Hs].
Qed.

Lemma apply_hunks_patched current hs out :
  (zlen (split_inclusive current) <= usize_max)%Z → Forall hunk_ok hs →
  apply_hunks current hs = Ok out ↔ ∃ ls, patched false 0 0 (split_inclusive current) hs ls ∧ out = concat ls.
Proof. intros HZ HH. apply (apply_hunk_list_spec hs (HunkApplier_new current)); [by split|done]. Qed.

(** ** Parsed hunks *)

(** Nothing follows on the new side once it has ended. *)
Fixpoint closed (t : bool) (lines : list PatchLine) : Prop :=
  match lines with
  | [] => True
  | l :: rest => (t = true → is_new l = false) ∧ closed (line_terminates t l) rest
  end.

Lemma closed_app t a b : closed t (a ++ b) ↔ closed t a ∧ closed (term_after t a) b.
Proof. revert t. induction a as [|l a IH]; intros t; cbn; [naive_solver|]. rewrite IH. naive_solver. Qed.

Lemma term_after_app t a b : term_after t (a ++ b) = term_after (term_after t a) b.
Proof. apply fold_left_app. Qed.

Definition all_lines (hs : list Hunk) : list PatchLine := concat (hunk_lines <$> hs).

Lemma all_lines_snoc hs h : all_lines (hs ++ [h]) = all_lines hs ++ hunk_lines h.
Proof. unfold all_lines. rewrite fmap_app, concat_app. cbn. by rewrite app_nil_r. Qed.

(** The parser's flag for the new side is the state of the lines read so far. *)
Definition parsed_so_far (t : PatchTermination) (lines : list PatchLine) : Prop :=
  closed false lines ∧ term_after false lines = new_side t.

Lemma apply_marker_parsed pre t acc again t' acc' :
  apply_marker t acc again = Ok (t', acc') → Forall line_ok acc → parsed_so_far t (pre ++ acc) →
  parsed_so_far t' (pre ++ acc') ∧ Forall line_ok acc'.
Proof.
  unfold apply_marker, parsed_so_far. destruct again; [discriminate|]. destruct (rev acc) as [|l before] eqn:E; [discriminate|].
  intros [= <- <-] HL [HC HT]. apply (f_equal (@rev _)) in E. rewrite rev_involutive in E. cbn in E. subst acc.
  apply Forall_app in HL as [HB [HL _]%Forall_cons].
  rewrite app_assoc in *. generalize dependent (pre ++ rev before). intros all HT HC.
  rewrite closed_app in *. rewrite term_after_app in *. cbn in *. unfold line_terminates, is_new in *. cbn in *.
  destruct HC as (HC & HN & _). split; [|apply Forall_app; split; [done|]; constructor; [exact HL|done]].
  destruct (kind l); cbn in *; split_and!; done.
Qed.

Lemma parse_patch_line_ok line l :
  parse_patch_line line = Ok l → newline ∉ line → line_ok l ∧ has_newline (line_text l) = true.
Proof.
  unfold parse_patch_line, line_ok. destruct line as [|c rest]; [discriminate|]. intros H [_ HN]%not_elem_of_cons.
  repeat case_match; simplify_eq; by split.
Qed.

Lemma validate_line_ok t k u : validate_line t k = Ok u → new_side t = true → k = Removal.
Proof. unfold validate_line. intros H HN. rewrite HN in H. by destruct k, (old_side t). Qed.

Definition stripped_ok (line : str) : Prop := newline ∉ strip_patch_newline line.

Lemma parse_hunk_lines_parsed pre lines t acc again acc' t' rest :
  parse_hunk_lines lines t acc again = Ok (acc', t', rest) →
  Forall stripped_ok lines → Forall line_ok acc → parsed_so_far t (pre ++ acc) →
  parsed_so_far t' (pre ++ acc') ∧ Forall line_ok acc' ∧ Forall stripped_ok rest.
Proof.
  revert t acc again. induction lines as [|x lines IH]; intros t acc again; cbn [parse_hunk_lines].
  { by intros [= <- <- <-]. }
  destruct (starts_with x _); [by intros [= <- <- <-]|]. intros HP [Hx HS]%Forall_cons HA HI.
  destruct (str_eqb _ _).
  - apply and_then_Ok in HP as ([t1 acc1] & HM & HP). destruct (apply_marker_parsed _ _ _ _ _ _ HM HA HI). by eapply IH.
  - apply and_then_Ok in HP as (l & Hl & (u & HV & HP)%and_then_Ok).
    destruct (parse_patch_line_ok _ _ Hl Hx) as [HL HN]. eapply IH; [done..| |].
    + by apply Forall_app; split; [|apply Forall_singleton].
    + destruct HI as [HC HT]. pose proof (validate_line_ok _ _ _ HV) as HR. unfold parsed_so_far.
      rewrite app_assoc. generalize dependent (pre ++ acc). intros all HC HT.
      rewrite closed_app, term_after_app, HT. cbn. unfold line_terminates, is_new. rewrite HN.
      destruct (new_side t); [rewrite HR by done; by split_and!|]. destruct (kind l); by split_and!.
Qed.

Lemma parse_digits_nonneg s acc z : (0 <= acc)%Z → parse_digits acc s = Some z → (0 <= z)%Z.
Proof.
  revert acc. induction s as [|c s IH]; intros acc HA; cbn; [by intros [= <-]|].
  unfold parse_digit. destruct (is_ascii_digit c) eqn:E; cbn; [|discriminate]. apply IH.
  unfold is_ascii_digit in E. apply andb_true_iff in E as [E%N.leb_le _]. lia.
Qed.

Lemma parse_range_nonneg r start count : parse_range r = Ok (start, count) → (0 <= start)%Z.
Proof.
  unfold parse_range. destruct (default _ _) as [a b]. intros (z & Hz & (n & _ & [= -> _])%and_then_Ok)%and_then_Ok.
  unfold ok_or in Hz. destruct (parse_usize a) as [z'|] eqn:E; [|discriminate]. injection Hz as ->.
  unfold parse_usize in E. destruct (is_empty _); [discriminate|].
  destruct (parse_digits 0 _) as [z'|] eqn:D; [|discriminate]. cbn in E. destruct (_ <=? _)%Z; [|discriminate].
  injection E as ->. by apply parse_digits_nonneg in D.
Qed.

Lemma parse_hunk_header_nonneg header a b c d :
  parse_hunk_header header = Ok (a, b, c, d) → (0 <= a)%Z ∧ (0 <= c)%Z.
Proof.
  unfold parse_hunk_header. intros (r & _ & ([o n] & _ & ([? ?] & H1 & ([? ?] & H2 & H3)%and_then_Ok)%and_then_Ok)%and_then_Ok)%and_then_Ok.
  injection H3 as -> -> -> ->. split; by eapply parse_range_nonneg.
Qed.

Lemma parse_hunks_parsed fuel lines t acc hs :
  parse_hunks fuel lines t acc = Ok hs → Forall stripped_ok lines → Forall hunk_ok acc →
  parsed_so_far t (all_lines acc) → Forall hunk_ok hs ∧ closed false (all_lines hs).
Proof.
  revert lines t acc. induction fuel as [|fuel IH]; intros lines t acc; cbn [parse_hunks]; [by intros [= <-] _ ? []|].
  destruct lines as [|header lines]; [by intros [= <-] _ ? []|].
  intros ([[[os oc] ns] nc] & HH & ([[ls t'] rest] & HL & (u & HV & HP)%and_then_Ok)%and_then_Ok)%and_then_Ok.
  intros [_ HS]%Forall_cons HA HI. apply parse_hunk_header_nonneg in HH as [H1 H2].
  eapply (parse_hunk_lines_parsed (all_lines acc)) in HL as (HI' & HL' & HS'); [|done|done|by rewrite app_nil_r].
  eapply IH; [exact HP|done| |by rewrite all_lines_snoc].
  apply Forall_app; split; [done|]. apply Forall_singleton. unfold validate_hunk_line_counts in HV.
  destruct (Z.eqb_spec (usize_len (List.filter is_old ls)) oc) as [<-|]; [|discriminate].
  destruct (Z.eqb_spec (usize_len (List.filter is_new ls)) nc) as [<-|]; [|discriminate].
  split; [done| | |done..]; unfold old_lines, new_lines, texts, zlen, usize_len; cbn; by rewrite length_fmap.
Qed.

Lemma split_stripped s : Forall stripped_ok (split_inclusive s).
Proof.
  induction (file_lines_split s) as [|x HX HN|x ls HN HL IH]; constructor; [|done| |done]; unfold stripped_ok.
  - by rewrite ends_with_newline_false by (by apply no_newline_end).
  - by rewrite strip_newline_snoc.
Qed.

Lemma parsed_hunks_ok patch d :
  parse_unified_diff patch = Ok d → Forall hunk_ok (hunks d) ∧ closed false (all_lines (hunks d)).
Proof.
  unfold parse_unified_diff. destruct (existsb _ _); [discriminate|].
  intros (o & _ & (m & _ & (hs & H & [= <-])%and_then_Ok)%and_then_Ok)%and_then_Ok. cbn.
  eapply parse_hunks_parsed; [exact H| |done|done]. apply Forall_drop, split_stripped.
Qed.

(** ** Taking a patch back *)

Definition flip (l : PatchLine) : PatchLine :=
  mkPatchLine (match kind l with Addition => Removal | ContextLine => ContextLine | Removal => Addition end)
    (line_text l).

(** The hunk that takes another back. *)
Definition reverse (h : Hunk) : Hunk :=
  mkHunk (flip <$> hunk_lines h) (old_count h) (old_start h) (new_count h) (new_start h).

(** A line without newline holds something: the last line of a text is not empty. *)
Definition line_real (l : PatchLine) : bool := has_newline (line_text l) || negb (is_empty (content (line_text l))).

Definition real_lines (hs : list Hunk) : bool := forallb line_real (all_lines hs).

Lemma side_flip l : side is_old (flip l) = side is_new l ∧ side is_new (flip l) = side is_old l.
Proof. rewrite !side_old, !side_new. cbn. by destruct (kind l). Qed.

Lemma texts_flip lines :
  texts is_old (flip <$> lines) = texts is_new lines ∧ texts is_new (flip <$> lines) = texts is_old lines.
Proof.
  induction lines as [|l lines [IH1 IH2]]; [done|]. cbn [fmap list_fmap]. rewrite !texts_cons.
  destruct (side_flip l) as [-> ->]. by rewrite <- IH1, <- IH2.
Qed.

Lemma reverse_lines h : old_lines (reverse h) = new_lines h ∧ new_lines (reverse h) = old_lines h.
Proof. apply texts_flip. Qed.

Lemma reverse_ok h : hunk_ok h → hunk_ok (reverse h).
Proof.
  intros [H1 H2 H3 H4 H5]. destruct (reverse_lines h) as [HO HN].
  split; [|by rewrite HO|by rewrite HN|done..].
  apply Forall_fmap. eapply Forall_impl; [exact H1|done].
Qed.

(** Once a file's side has ended, nothing of the file is left. *)
Lemma old_side_ends lines t rest :
  Forall line_ok lines → file_lines (texts is_old lines ++ rest) →
  (t = true → texts is_old lines ++ rest = []) →
  file_lines rest ∧ (term_after t (flip <$> lines) = true → rest = []).
Proof.
  revert t. induction lines as [|l lines IH]; intros t; [done|]. intros [Hl HL]%Forall_cons.
  rewrite texts_cons, side_old, <- app_assoc. cbn [fmap list_fmap]. unfold term_after. cbn [fold_left].
  unfold line_terminates at 2. cbn [flip kind line_text]. intros HF HT. apply IH; [done| |].
  - destruct (kind l); [done| |]; by inversion HF; subst; try constructor.
  - destruct (kind l); cbn in *; [done| |]; unfold text_of in HF; destruct (has_newline _); try done;
      intros _; rewrite app_nil_r in HF; inversion HF as [|x HX HN|x ls HN HF' E]; subst; try done;
      unfold line_ok in Hl; rewrite <- E in Hl; set_solver.
Qed.

(** The new side of a well-formed hunk reads as lines of a file. *)
Lemma new_side_lines lines t rest :
  Forall line_ok lines → forallb line_real lines = true → closed t lines → file_lines rest →
  (term_after t lines = true → rest = []) →
  file_lines (texts is_new lines ++ rest) ∧ (t = true → texts is_new lines ++ rest = []).
Proof.
  revert t. induction lines as [|l lines IH]; intros t; [done|]. intros [Hl HL]%Forall_cons. cbn [forallb closed].
  intros [Rl RL]%andb_true_iff [HC1 HC2] HF HT. destruct (IH _ HL RL HC2 HF HT) as [IH1 IH2].
  rewrite texts_cons, side_new, <- app_assoc. unfold is_new, line_terminates in *. destruct (kind l); cbn in *; [..|done];
    (split; [|intros E; by specialize (HC1 E)]); unfold text_of, line_real in *; destruct (has_newline _);
    (rewrite ?app_nil_r; cbn in *); try (by apply file_lines_cons); rewrite (IH2 eq_refl);
    apply file_lines_last; [by destruct (content _)|done|by destruct (content _)|done].
Qed.

Lemma file_lines_suffix gap x : file_lines (gap ++ x) → file_lines x.
Proof.
  induction gap as [|g gap IH]; [done|]. cbn. intros HF. apply IH.
  inversion HF; subst; [constructor|done].
Qed.

Lemma patched_reverse t i o src hs out t' :
  patched t i o src hs out → Forall hunk_ok hs → file_lines src → (t' = true → src = []) →
  patched t' o i out (reverse <$> hs) src.
Proof.
  intros HP. revert t'. induction HP as [t i o src HT|t i o gap h rest hs out H1 H2 HT HP IH];
    intros t' HH HF HT'; [by constructor|]. apply Forall_cons in HH as [Hh HH].
  apply file_lines_suffix in HF. destruct (old_side_ends _ t' _ (hunk_lines_ok _ Hh) HF) as [HF' HE].
  { intros E. apply HT', app_nil in E. tauto. }
  destruct (reverse_lines h) as [HO HN]. cbn [fmap list_fmap]. rewrite <- HN, <- HO.
  constructor; [done..| |].
  - intros E. apply HT', app_nil in E. tauto.
  - rewrite HO, HN. by apply IH.
Qed.

Lemma file_lines_app gap x y :
  file_lines (gap ++ x) → x ≠ [] ∨ Forall (λ g, ends_with_newline g = true) gap → file_lines y → file_lines (gap ++ y).
Proof.
  intros HF HC HY. induction gap as [|g gap IH]; [done|]. cbn in *. inversion HF as [|z HX HN|z ls HN HF' E]; subst.
  - destruct HC as [HC|[HC _]%Forall_cons]; [by destruct gap|]. by rewrite no_newline_end in HC.
  - apply file_lines_cons; [done|]. apply IH; [done|]. rewrite Forall_cons in HC. tauto.
Qed.

Definition anchored (src : list str) (hs : list Hunk) : Prop :=
  Forall (λ h, old_count h ≠ 0%Z) hs ∨ Forall (λ x, ends_with_newline x = true) src.

Lemma patched_file_lines t i o src hs out :
  patched t i o src hs out → Forall hunk_ok hs → real_lines hs = true → closed t (all_lines hs) →
  file_lines src → anchored src hs → file_lines out ∧ (t = true → out = []).
Proof.
  unfold real_lines, all_lines.
  induction 1 as [t i o src HT|t i o gap h rest hs out H1 H2 HT HP IH]; intros HH HR HC HF HA; [done|].
  apply Forall_cons in HH as [Hh HH]. cbn in HR, HC. rewrite forallb_app in HR. apply andb_true_iff in HR as [HR1 HR2].
  apply closed_app in HC as [HC1 HC2]. pose proof (file_lines_suffix _ _ HF) as HF1.
  destruct (old_side_ends (hunk_lines h) false rest (hunk_lines_ok _ Hh) HF1) as [HF2 _]; [done|].
  destruct IH as [HO HO']; [done..| |].
  { destruct HA as [[_ ?]%Forall_cons|HA]; [by left|]. rewrite !Forall_app in HA. right. tauto. }
  destruct (new_side_lines (hunk_lines h) t out) as [HN HN']; [apply Hh|done..|]. split.
  - apply (file_lines_app gap (old_lines h ++ rest)); [done| |done].
    destruct HA as [[HA _]%Forall_cons|HA]; [left|right; rewrite Forall_app in HA; tauto].
    rewrite (hunk_old_count _ Hh) in HA. intros [E _]%app_nil. by rewrite E in HA.
  - intros E. rewrite (HT E). exact (HN' E).
Qed.

Lemma newline_ended_lines ls :
  file_lines ls → ends_with_newline (concat ls) = true → Forall (λ x, ends_with_newline x = true) ls.
Proof.
  induction 1 as [|x HX HN|x ls HN HF IH]; cbn; [by constructor|rewrite app_nil_r; by constructor|].
  intros HE. constructor; [apply ends_with_newline_snoc|]. destruct ls as [|y ls]; [constructor|]. apply IH.
  destruct (exists_last (l := concat (y :: ls))) as (z & c & E).
  { cbn. inversion HF; subst; [by rewrite app_nil_r|]. by destruct x0. }
  cbn [concat] in *. rewrite E in HE |- *. unfold ends_with_newline in *. rewrite !rev_app_distr in *. exact HE.
Qed.

(** C36: A patch does what its hunks say, and nothing else: a parsed diff applies to a text exactly when
    each hunk's old lines stand at the line its header gives, the new lines come out at the line the
    header gives for them, nothing follows a new side that is marked as lacking its newline, and the result is
    the text with the old lines of every hunk replaced by its new lines and all else copied. *)
Theorem parsed_patch_applies_as_written patch d current out :
  parse_unified_diff patch = Ok d → (zlen (split_inclusive current) <= usize_max)%Z →
  apply_hunks current (hunks d) = Ok out ↔
  ∃ ls, patched false 0 0 (split_inclusive current) (hunks d) ls ∧ out = concat ls.
Proof. intros [HH _]%parsed_hunks_ok HZ. by apply apply_hunks_patched. Qed.

(** C37: A patch can be taken back, under the conditions stated here: when a parsed diff applies to a text, the
    diff with the roles of its two sides exchanged applies to the result and gives the text again, provided that
    the text is empty or ends with a newline, or else no hunk of the diff only inserts (its old side is never
    empty, wherever it stands); that the diff has no empty line marked as lacking its newline; and that neither
    text has more lines than a machine word counts.  Nothing is claimed of a text without a final newline and a
    diff with a hunk that only inserts. *)
Theorem reverse_patch_restores patch d current out :
  parse_unified_diff patch = Ok d → real_lines (hunks d) = true →
  is_empty current || ends_with_newline current || forallb (λ h, negb (old_count h =? 0)%Z) (hunks d) = true →
  (zlen (split_inclusive current) <= usize_max)%Z → (zlen (split_inclusive out) <= usize_max)%Z →
  apply_hunks current (hunks d) = Ok out → apply_hunks out (reverse <$> hunks d) = Ok current.
Proof.
  intros [HH HC]%parsed_hunks_ok HR HA HZ HZ' H. apply apply_hunks_patched in H as (ls & HP & ->); [|done..].
  pose proof (file_lines_split current) as HF.
  destruct (patched_file_lines _ _ _ _ _ _ HP) as [HF' _]; [done..| |].
  { destruct (is_empty current) eqn:E; [apply is_empty_true in E as ->; by right|].
    destruct (ends_with_newline current) eqn:E2; [right|left].
    - apply newline_ended_lines; [done|]. by rewrite concat_split_inclusive.
    - apply Forall_forall. intros h Hh. eapply forallb_true in HA; [|exact Hh].
      by apply negb_true_iff, Z.eqb_neq in HA. }
  apply apply_hunks_patched; [done| |].
  - apply Forall_fmap. eapply Forall_impl; [exact HH|]. intros h. apply reverse_ok.
  - exists (split_inclusive current). rewrite split_file_lines, concat_split_inclusive by done. split; [|done].
    by apply (patched_reverse false).
Qed.

(** ** Files as bytes *)

(** A Unicode scalar value, which is what a [char] holds. *)
Definition is_scalar (c : char) : Prop := (c < 1114112 ∧ ¬ (55296 <= c ∧ c < 57344))%N.

#[global] Instance is_scalar_dec c : Decision (is_scalar c).
Proof. unfold is_scalar. apply _. Defined.

Lemma continuation_byte x : (x < 64)%N → continuation (128 + x) = Some x.
Proof.
  intros H. unfold continuation. destruct (N.leb_spec 128 (128 + x)); [|lia].
  destruct (N.ltb_spec (128 + x) 192); [|lia]. cbn. f_equal. lia.
Qed.

Lemma scalar_char c low : is_scalar c → (low <= c)%N → scalar c low = Some c.
Proof.
  intros [H1 H2] HL. unfold scalar. destruct (N.leb_spec low c); [|lia]. destruct (N.ltb_spec c 1114112); [|lia].
  destruct (N.leb_spec 55296 c); [|done]. by destruct (N.ltb_spec c 57344); [lia|].
Qed.

(** A comparison of concrete bounds with a number that [lia] can place. *)
Ltac place := repeat first
  [ match goal with |- context [(?a <? ?b)%N] => destruct (N.ltb_spec a b); [try lia|try lia] end
  | match goal with |- context [(?a <=? ?b)%N] => destruct (N.leb_spec a b); [try lia|try lia] end ]; cbn [andb].

Lemma mod64 c : (c mod 64 < 64)%N.
Proof. by apply N.mod_lt. Qed.

Lemma split64 c : (c = 64 * (c / 64) + c mod 64)%N.
Proof. by apply N.div_mod. Qed.

Lemma div64_64 c : (c / 4096 = c / 64 / 64 ∧ c / 262144 = c / 64 / 64 / 64)%N.
Proof. by rewrite !N.Div0.div_div. Qed.

Lemma from_utf8_char c rest fuel : is_scalar c →
  from_utf8_loop (S fuel) (encode_utf8 c ++ rest) = cons c <$> from_utf8_loop fuel rest.
Proof.
  intros HC. pose proof HC as [HM _]. unfold encode_utf8. destruct (div64_64 c) as [-> ->].
  pose proof (split64 c) as E1. pose proof (split64 (c / 64)) as E2. pose proof (split64 (c / 64 / 64)) as E3.
  pose proof (mod64 c) as M1. pose proof (mod64 (c / 64)) as M2. pose proof (mod64 (c / 64 / 64)) as M3.
  set (r1 := (c mod 64)%N) in *. set (r2 := (c / 64 mod 64)%N) in *. set (r3 := (c / 64 / 64 mod 64)%N) in *.
  set (q1 := (c / 64)%N) in *. set (q2 := (q1 / 64)%N) in *. set (q3 := (q2 / 64)%N) in *. clearbody r1 r2 r3 q3.
  destruct (N.ltb_spec c 128) as [L1|L1]; [|destruct (N.ltb_spec c 2048) as [L2|L2]; [|destruct (N.ltb_spec c 65536) as [L3|L3]]];
    cbn [app from_utf8_loop]; place; rewrite ?continuation_byte by done; cbn [mbind option_bind]; [done|..].
  - replace ((192 + q1 - 192) * 64 + r1)%N with c by lia. by rewrite scalar_char by (done || lia).
  - replace ((224 + q2 - 224) * 4096 + r2 * 64 + r1)%N with c by lia. by rewrite scalar_char by (done || lia).
  - replace ((240 + q3 - 240) * 262144 + r3 * 4096 + r2 * 64 + r1)%N with c by lia. by rewrite scalar_char by (done || lia).
Qed.

Lemma encode_utf8_nonempty c : 1 <= length (encode_utf8 c).
Proof. unfold encode_utf8. repeat case_match; cbn; lia. Qed.

Lemma from_utf8_as_bytes s : Forall is_scalar s → from_utf8 (as_bytes s) = Some s.
Proof.
  intros HS. unfold from_utf8. generalize (le_n (length (as_bytes s))). generalize (length (as_bytes s)) at 2 3 as fuel.
  induction HS as [|c s Hc HS IH]; intros fuel; [by destruct fuel|]. cbn [as_bytes flat_map]. rewrite length_app.
  fold (as_bytes s). pose proof (encode_utf8_nonempty c). intros HF. destruct fuel as [|fuel]; [lia|].
  rewrite from_utf8_char, IH by (done || lia). done.
Qed.

Lemma bom_is_a_character c s rest :
  is_scalar c → as_bytes (c :: s) = BYTE_ORDER_MARK ++ rest → c = 65279%N.
Proof.
  intros [HM _]. cbn [as_bytes flat_map]. unfold encode_utf8, BYTE_ORDER_MARK.
  pose proof (split64 c) as E1. pose proof (split64 (c / 64)) as E2. destruct (div64_64 c) as [-> ->].
  generalize dependent (c / 64 / 64 / 64)%N. intros q. destruct (N.ltb_spec c 128); [|destruct (N.ltb_spec c 2048); [|destruct (N.ltb_spec c 65536)]]; cbn [app];
    intros E; injection E; intros; lia.
Qed.

(** How a text is stored with carriage returns. *)
Definition crlf_char (c : char) : str := if (c =? newline)%N then [carriage_return; newline] else [c].

Lemma crlf_newline : crlf_char newline = [carriage_return; newline].
Proof. done. Qed.

Lemma crlf_other c : c ≠ newline → crlf_char c = [c].
Proof. unfold crlf_char. by destruct (N.eqb_spec c newline). Qed.

Lemma replace_newlines text : str_replace text [newline] [carriage_return; newline] = flat_map crlf_char text.
Proof.
  unfold str_replace. generalize (le_n (S (length text))). generalize (S (length text)) at 2 3 as fuel.
  intros fuel. revert text. induction fuel as [|fuel IH]; intros text HF; [lia|]. cbn [str_replace_loop].
  destruct text as [|c text]; [done|]. cbn [strip_prefix flat_map length] in *.
  destruct (N.eqb_spec newline c) as [<-|]; [rewrite crlf_newline|rewrite crlf_other by done];
    cbn [app]; by rewrite IH by lia.
Qed.

Lemma replace_pairs text :
  carriage_return ∉ text → str_replace (flat_map crlf_char text) [carriage_return; newline] [newline] = text.
Proof.
  unfold str_replace. generalize (le_n (S (length (flat_map crlf_char text)))).
  generalize (S (length (flat_map crlf_char text))) at 2 3 as fuel.
  intros fuel. revert text. induction fuel as [|fuel IH]; intros text HF HN; [lia|]. cbn [str_replace_loop].
  destruct text as [|c text]; [done|]. apply not_elem_of_cons in HN as [HC HN]. cbn [flat_map] in *.
  rewrite length_app in HF. destruct (N.eq_dec c newline) as [->|HD].
  - rewrite crlf_newline in *. cbn [app strip_prefix length] in *. rewrite !N.eqb_refl. by rewrite IH by (done || lia).
  - rewrite crlf_other in * by done. cbn [app strip_prefix length] in *.
    destruct (N.eqb_spec carriage_return c); [done|]. by rewrite IH by (done || lia).
Qed.

Lemma lone_cr_crlf text : carriage_return ∉ text → has_lone_cr (flat_map crlf_char text) = false.
Proof.
  induction text as [|c text IH]; intros HN; [done|]. apply not_elem_of_cons in HN as [HC HN]. cbn [flat_map].
  destruct (N.eq_dec c newline) as [->|HD].
  - rewrite crlf_newline. cbn. by rewrite IH.
  - rewrite crlf_other by done. cbn. rewrite IH by done. by destruct (N.eqb_spec c carriage_return).
Qed.

Lemma bare_lf_crlf text p : has_bare_lf p (flat_map crlf_char text) = false.
Proof.
  revert p. induction text as [|c text IH]; intros p; [done|]. cbn [flat_map].
  destruct (N.eq_dec c newline) as [->|HD].
  - rewrite crlf_newline. cbn. by rewrite IH.
  - rewrite crlf_other by done. cbn. by destruct (N.eqb_spec c newline); [|rewrite IH].
Qed.

Lemma pair_crlf text : carriage_return ∉ text → newline ∈ text → has_pair (flat_map crlf_char text) = true.
Proof.
  induction text as [|c text IH]; intros HN HI; [by apply not_elem_of_nil in HI|]. apply not_elem_of_cons in HN as [HC HN].
  cbn [flat_map]. destruct (N.eq_dec c newline) as [->|HD]; [by rewrite crlf_newline|].
  rewrite crlf_other by done. apply elem_of_cons in HI as [?|HI]; [done|]. cbn.
  specialize (IH HN HI). destruct (flat_map crlf_char text); [done|]. rewrite IH. by rewrite orb_true_r.
Qed.

Lemma no_cr_scan text : carriage_return ∉ text → has_lone_cr text = false ∧ has_pair text = false.
Proof.
  induction text as [|c text IH]; intros HN; [done|]. apply not_elem_of_cons in HN as [HC HN].
  destruct (IH HN) as [IH1 IH2]. cbn. destruct (N.eqb_spec c carriage_return); [done|]. by destruct text.
Qed.

(** The bytes of a file: a byte order mark or none, and the text with the line ending the file uses. *)
Definition stored (bom : bool) (ending : LineEnding) (text : str) : list N :=
  (if bom then BYTE_ORDER_MARK else []) ++
  as_bytes (match ending with CrLf => flat_map crlf_char text | Lf => text end).

(** A text that a file can hold: scalar values, no carriage return of its own,
    no byte order mark at its head, and a line when its lines end with CRLF. *)
Definition storable (ending : LineEnding) (text : str) : Prop :=
  Forall is_scalar text ∧ carriage_return ∉ text ∧ head text ≠ Some 65279%N ∧ (ending = CrLf → newline ∈ text).

Lemma decode_stored path bom ending text :
  storable ending text →
  decode_text path (stored bom ending text) =
    Ok (if bom then BYTE_ORDER_MARK else [], match ending with CrLf => flat_map crlf_char text | Lf => text end).
Proof.
  intros (HS & HN & HB & HE). unfold decode_text, stored.
  set (t := match ending with CrLf => flat_map crlf_char text | Lf => text end).
  assert (Forall is_scalar t ∧ head t ≠ Some 65279%N) as [HS' HB'].
  { subst t. destruct ending; [|done]. clear HE. split.
    - clear HB. induction HS as [|c s Hc HS IH]; [done|]. apply not_elem_of_cons in HN as [_ HN]. cbn.
      apply Forall_app; split; [|by apply IH]. unfold crlf_char. destruct (_ =? _)%N; [|by constructor].
      by apply (bool_decide_unpack (Forall _ _)).
    - destruct text as [|c s]; [done|]. cbn in *. unfold crlf_char at 1. by destruct (_ =? _)%N. }
  destruct bom.
  - rewrite (proj2 (strip_prefix_Some _ _ (as_bytes t))) by done. by rewrite from_utf8_as_bytes.
  - cbn [app]. destruct (strip_prefix BYTE_ORDER_MARK (as_bytes t)) as [rest|] eqn:E; [|by rewrite from_utf8_as_bytes].
    apply strip_prefix_Some in E. exfalso. destruct t as [|c s]; [done|].
    apply Forall_cons in HS' as [Hc _]. by rewrite (bom_is_a_character _ _ _ Hc E) in HB'.
Qed.

Lemma normalize_stored path ending text :
  storable ending text →
  normalize_line_endings path (match ending with CrLf => flat_map crlf_char text | Lf => text end) = Ok (ending, text).
Proof.
  intros (HS & HN & HB & HE). unfold normalize_line_endings. destruct ending.
  - by rewrite lone_cr_crlf, bare_lf_crlf, pair_crlf, replace_pairs by auto.
  - destruct (no_cr_scan text HN) as [-> ->]. done.
Qed.

(** A patched file keeps its encoding: the diff is applied to the text of the file, whatever byte
    order mark and line ending the file is stored with, and the result is stored with the same. *)
Theorem patched_file_keeps_encoding path patch bom ending text :
  storable ending text →
  apply_unified_diff path (Some (stored bom ending text)) patch =
    (let? diff := parse_unified_diff patch in
     let? _ := validate_headers path true diff in
     let? out := apply_hunks text (hunks diff) in
     Ok (stored bom ending out)).
Proof.
  intros HT. unfold apply_unified_diff. destruct (parse_unified_diff patch) as [d|e]; [|done]. cbn [and_then].
  rewrite (bool_decide_true (is_Some _)) by done. destruct (validate_headers _ _ _); [|done]. cbn [and_then from_option id].
  rewrite decode_stored by done. cbn [and_then]. rewrite normalize_stored by done. cbn [and_then].
  destruct (apply_hunks text (hunks d)) as [out|e]; [|done]. cbn [and_then]. unfold stored.
  destruct ending; [by rewrite replace_newlines|done].
Qed.

(** ** Witnesses *)

Module PatchDemo.
Definition nl (s : str) : str := s ++ [newline].
(** A change of the second line, and a line added at the end. *)
Definition patch : str :=
  nl (L"--- a/x") ++ nl (L"+++ b/x") ++ nl (L"@@ -1,2 +1,2 @@") ++ nl (L" a") ++ nl (L"-b") ++ nl (L"+B") ++
  nl (L"@@ -3 +3,2 @@") ++ nl (L" c") ++ nl (L"+d").
Definition text : str := nl (L"a") ++ nl (L"b") ++ nl (L"c").
Definition patched_text : str := nl (L"a") ++ nl (L"B") ++ nl (L"c") ++ nl (L"d").
Definition diff : UnifiedDiff :=
  match parse_unified_diff patch with Ok d => d | Err _ => mkDiff [] [] [] end.

Lemma parsed_patch_applies_as_written_witness :
  parse_unified_diff patch = Ok diff ∧ (zlen (split_inclusive text) <= usize_max)%Z ∧
  ∃ ls, patched false 0 0 (split_inclusive text) (hunks diff) ls ∧ patched_text = concat ls.
Proof.
  assert (parse_unified_diff patch = Ok diff) as E by (vm_compute; reflexivity).
  split_and!; [exact E|vm_compute; discriminate|].
  apply (parsed_patch_applies_as_written patch diff text patched_text E); vm_compute; [discriminate|reflexivity].
Defined.

Lemma reverse_patch_restores_witness :
  apply_hunks text (hunks diff) = Ok patched_text ∧ apply_hunks patched_text (reverse <$> hunks diff) = Ok text.
Proof.
  split; [vm_compute; reflexivity|].
  apply (reverse_patch_restores patch diff text patched_text); vm_compute; first [reflexivity|discriminate].
Defined.

Lemma patched_file_keeps_encoding_witness :
  storable CrLf text ∧
  apply_unified_diff (L"x") (Some (stored true CrLf text)) patch = Ok (stored true CrLf patched_text).
Proof.
  assert (storable CrLf text) as HS.
  { split_and!; [by apply (bool_decide_unpack (Forall _ _))| |discriminate|intros _];
      by apply (bool_decide_unpack _). }
  split; [exact HS|]. rewrite (patched_file_keeps_encoding (L"x") patch true CrLf text HS).
  vm_compute; reflexivity.
Defined.

(** A last line without newline is copied without a mark that the new side has
    ended: lines inserted after it run into it. *)
Definition insertion : str :=
  nl (L"--- a/x") ++ nl (L"+++ b/x") ++ nl (L"@@ -1,0 +2 @@") ++ nl (L"+b").

Lemma insertion_joins_last_line :
  apply_unified_diff (L"x") (Some (as_bytes (L"a"))) insertion = Ok (as_bytes (nl (L"ab"))).
Proof. vm_compute; reflexivity. Qed.
End PatchDemo.
