(* ===== verification/ToolCalls.v ===== *)
(** * Tool calls (crates/ag-harness/src/tool.rs)

    The arguments of the built-in read and write tools as a model sends them,
    the checks that admit a path, a query and a number, and the decoding of a
    call.  The JSON reader gives the members of the argument object; numbers
    come as their text. *)
From S2P Require Import Prelude Json HarnessModel Patch.

Definition MAX_PATCH_BYTES : Z := 1024 * 1024.
Definition MAX_PATH_BYTES : Z := 4 * 1024.
Definition MAX_QUERY_BYTES : Z := 4 * 1024.
Definition MAX_TOOL_CALL_ID_BYTES : Z := 1024.
Definition MAX_TOOL_RESULT_BYTES : Z := 64 * 1024.
Definition RESPONSE_CONTENT_LIMIT_BYTES : Z := 2 * 1024 * 1024.

(** ** Arguments *)

Inductive ReadAction := ActionDiff | ActionFile | ActionList | ActionSearch | ActionShow.

#[global] Instance ReadAction_eq_dec : EqDecision ReadAction.
Proof. solve_decision. Defined.

Definition ReadAction_default : ReadAction := ActionFile.

Definition ReadAction_as_str (self : ReadAction) : str :=
  match self with
  | ActionDiff => L"diff"
  | ActionFile => L"file"
  | ActionList => L"list"
  | ActionSearch => L"search"
  | ActionShow => L"show"
  end.

Inductive ReadSide := SideBase | SideHead.

#[global] Instance ReadSide_eq_dec : EqDecision ReadSide.
Proof. solve_decision. Defined.

Definition ReadSide_as_str (self : ReadSide) : str :=
  match self with SideBase => L"base" | SideHead => L"head" end.

Record ReadArguments := mkReadArguments {
  action : ReadAction;
  limit : option Z;
  offset : option Z;
  read_path : option str;
  query : option str;
  side_ : option ReadSide;
  validation_error : option str
}.

Definition path (self : ReadArguments) : str := default [] (read_path self).
Definition path_filter (self : ReadArguments) : option str := read_path self.

Record WriteArguments := mkWriteArguments { write_patch : str; write_path_ : str }.

(** ** Checks of the members *)

Definition nul : char := 0%N.
Definition backslash : char := 92%N.
Definition has_char (c : char) (s : str) : bool := existsb (N.eqb c) s.

Definition eq_ignore_ascii_case (a b : str) : bool := str_eqb (map ascii_lower a) (map ascii_lower b).

Definition validate_repository_path (path : str) : result str str :=
  if is_empty path then Err (L"path must not be empty")
  else if (MAX_PATH_BYTES <? str_len path)%Z then Err (L"path exceeds the byte limit")
  else if starts_with path [slash] || has_char backslash path
  then Err (L"path must be repository-relative")
  else if has_char nul path then Err (L"path must not contain NUL")
  else if existsb (λ component, is_empty component || str_eqb component (L".") || str_eqb component (L".."))
            (split_char slash path)
  then Err (L"path must not contain empty, current-directory, or parent-directory components")
  else if existsb (λ component, eq_ignore_ascii_case component (L".git")) (split_char slash path)
  then Err (L"path must not access Git administrative state")
  else Ok path.

Definition validate_query (query : str) : result str str :=
  if is_empty query then Err (L"query must not be empty")
  else if (MAX_QUERY_BYTES <? str_len query)%Z then Err (L"query exceeds the byte limit")
  else if has_char nul query then Err (L"query must not contain NUL")
  else Ok query.

Definition deserialize_bounded_patch (patch : str) : result str str :=
  if is_empty patch then Err (L"patch must not be empty")
  else if (MAX_PATCH_BYTES <? str_len patch)%Z then Err (L"patch exceeds the byte limit")
  else Ok patch.

(** [split_once(['e', 'E'])]. *)
Definition is_exponent_mark (c : char) : bool := ((c =? 101) || (c =? 69))%N.

Fixpoint split_exponent (s : str) : option (str * str) :=
  match s with
  | [] => None
  | c :: rest =>
      if is_exponent_mark c then Some ([], rest)
      else match split_exponent rest with Some (a, b) => Some (c :: a, b) | None => None end
  end.

(** [try_fold] with [checked_mul(10)]. *)
Fixpoint append_zeros (zeros : nat) (value : Z) : option Z :=
  match zeros with
  | 0 => Some value
  | S zeros' => if (value * 10 <=? u64_max)%Z then append_zeros zeros' (value * 10) else None
  end.

Definition zero_digit : char := 48%N.

(** The digits without the fraction that a negative scale removes, and the zeros
    that a positive one appends. *)
Definition apply_scale (digits : str) (scale : Z) : option (str * Z) :=
  if (scale <? 0)%Z then
    let removed_digits := (- scale)%Z in
    if (usize_len digits <=? removed_digits)%Z ||
       negb (forallb (N.eqb zero_digit) (drop (Z.to_nat (usize_len digits - removed_digits)) digits))
    then None
    else Some (take (Z.to_nat (usize_len digits - removed_digits)) digits, 0%Z)
  else Some (digits, scale).

(** The text is that of a JSON number, so bytes are characters. *)
Definition parse_positive_json_integer (number : str) : option Z :=
  '(mantissa, exponent) ←
    match split_exponent number with
    | Some (mantissa, exponent) => e ← parse_i64 exponent; Some (mantissa, e)
    | None => Some (number, 0%Z)
    end;
  if starts_with mantissa (L"-") then None
  else
    let '(whole, fraction) := default (mantissa, []) (split_once mantissa (L".")) in
    fraction_len ← i64_of (usize_len fraction);
    scale ← i64_of (exponent - fraction_len);
    '(digits, appended_zeros) ← apply_scale (whole ++ fraction) scale;
    let digits := trim_start_matches (N.eqb zero_digit) digits in
    if is_empty digits || (20 <? usize_len digits + appended_zeros)%Z then None
    else value ← parse_usize digits; append_zeros (Z.to_nat appended_zeros) value.

Definition INTEGER_ERROR : str := L"number must be an integer from 1 through u64::MAX".

(** [NonZeroU64::new]. *)
Definition non_zero (z : Z) : option Z := if (z =? 0)%Z then None else Some z.

(** [map(f).transpose()]. *)
Definition transpose {A B} (f : A → result B str) (o : option A) : result (option B) str :=
  match o with None => Ok None | Some x => let? y := f x in Ok (Some y) end.

Definition deserialize_optional_positive_integer (number : option str) : result (option Z) str :=
  transpose (λ text, match n ← parse_positive_json_integer text; non_zero n with
                     | Some n => Ok n | None => Err INTEGER_ERROR end) number.

(** ** Decoding *)

(** The members as they stand in the JSON object. *)
Record ReadArgumentsWire := mkReadWire {
  wire_action : ReadAction;
  wire_limit : option str;
  wire_offset : option str;
  wire_path : option str;
  wire_query : option str;
  wire_side : option ReadSide
}.

Record WriteArgumentsWire := mkWriteWire { wire_patch : str; wire_write_path : str }.

Definition is_none {A} (o : option A) : bool := match o with None => true | Some _ => false end.
Definition is_some {A} (o : option A) : bool := negb (is_none o).

Definition action_error (action : ReadAction) (limit offset : option Z) (path query : option str)
    (side : option ReadSide) : option str :=
  match action with
  | ActionDiff =>
      if is_none limit && is_none offset && is_none query && is_none side then None
      else Some (L"diff accepts only an optional path")
  | ActionFile =>
      if is_some path && is_none query && is_none side then None
      else Some (L"file requires a path and accepts only offset and limit")
  | ActionList =>
      if is_none offset && is_none query && is_none side then None
      else Some (L"list accepts only an optional path and limit")
  | ActionSearch =>
      if is_some query && is_none offset && is_none side then None
      else Some (L"search requires a query and accepts only an optional path and limit")
  | ActionShow =>
      if is_some path && is_some side && is_none query then None
      else Some (L"show requires a path and side and accepts only offset and limit")
  end.

Definition ReadArguments_deserialize (wire : ReadArgumentsWire) : result ReadArguments str :=
  let? limit := deserialize_optional_positive_integer (wire_limit wire) in
  let? offset := deserialize_optional_positive_integer (wire_offset wire) in
  let? path := transpose validate_repository_path (wire_path wire) in
  let? query := transpose validate_query (wire_query wire) in
  Ok (mkReadArguments (wire_action wire) limit offset path query (wire_side wire)
        (action_error (wire_action wire) limit offset path query (wire_side wire))).

Definition WriteArguments_deserialize (wire : WriteArgumentsWire) : result WriteArguments str :=
  let? patch := deserialize_bounded_patch (wire_patch wire) in
  let? path := validate_repository_path (wire_write_path wire) in
  Ok (mkWriteArguments patch path).

(** ** Encoding *)

Section encoding.
Context `{JsonEscape}.

(** A member of the object, [skip_serializing_if]. *)
Definition member (name : str) (value : option str) : list str :=
  match value with Some v => [json_string name ++ L":" ++ v] | None => [] end.

Definition json_object (members : list (list str)) : str :=
  L"{" ++ join (L",") (concat members) ++ L"}".

Definition ReadArguments_json (self : ReadArguments) : option str :=
  Some (json_object
    [member (L"action") (if bool_decide (action self = ReadAction_default) then None
                         else Some (json_string (ReadAction_as_str (action self))));
     member (L"limit") (display_Z <$> limit self);
     member (L"offset") (display_Z <$> offset self);
     member (L"path") (json_string <$> read_path self);
     member (L"query") (json_string <$> query self);
     member (L"side") (json_string ∘ ReadSide_as_str <$> side_ self)]).

Definition WriteArguments_json (self : WriteArguments) : option str :=
  Some (json_object [member (L"patch") (Some (json_string (write_patch self)));
                     member (L"path") (Some (json_string (write_path_ self)))]).

(** The calls of the messages of a turn carry these arguments. *)
#[export] Instance tool_argument_types : ToolArgumentTypes := {|
  HarnessModel.ReadArguments := ReadArguments;
  HarnessModel.WriteArguments := WriteArguments;
  read_json := ReadArguments_json;
  write_json := WriteArguments_json
|}.
End encoding.

(** ** Errors of a model *)

(** A failed request with its classification, if it has one: [Request] boxes
    any error; [ProviderRequestError] and [ClassifiedRequestError] are looked
    for inside. *)
Inductive ModelErrorType :=
| TypeRequest | TypeTransport | TypeProvider | TypeInvalidProviderResponse | TypeInvalidResponse
| TypeUnsupportedOutput | TypeUnsupportedInput | TypeResponseTooLarge | TypeInvalidOutput
| TypeInvalidToolCall.

#[global] Instance ModelErrorType_eq_dec : EqDecision ModelErrorType.
Proof. solve_decision. Defined.

Inductive RequestError :=
| ProviderRequestError (status : Z) (text : str)
| ClassifiedRequestError (error_type : ModelErrorType) (http_status : option Z) (text : str)
| OtherRequestError (text : str).

Inductive ModelError :=
| Request (source : RequestError)
| InvalidResponse
| ResumeUnavailable
| IncompleteResponse (reason : str)
| ResponseBodyTooLarge
| UnsupportedOutputSchema (reason : str)
| UnsupportedImageInput (reason : str)
| ResponseContentTooLarge
| InvalidJson (reason : str)
| SchemaViolation (path reason : str)
| MissingToolCall
| InvalidToolCallId
| MultipleToolCalls
| DuplicateToolCallId (id : str)
| TerminalResponseWithToolCalls
| UnsupportedToolType (kind : str)
| UnsupportedToolName (name : str)
| InvalidToolArguments (reason : str).

Definition error_type (self : ModelError) : ModelErrorType :=
  match self with
  | Request (ProviderRequestError _ _) => TypeProvider
  | Request (ClassifiedRequestError t _ _) => t
  | Request (OtherRequestError _) => TypeRequest
  | InvalidResponse | IncompleteResponse _ => TypeInvalidResponse
  | ResumeUnavailable => TypeProvider
  | ResponseBodyTooLarge | ResponseContentTooLarge => TypeResponseTooLarge
  | UnsupportedOutputSchema _ => TypeUnsupportedOutput
  | UnsupportedImageInput _ => TypeUnsupportedInput
  | InvalidJson _ | SchemaViolation _ _ => TypeInvalidOutput
  | MissingToolCall | InvalidToolCallId | MultipleToolCalls | DuplicateToolCallId _
  | TerminalResponseWithToolCalls | UnsupportedToolType _ | UnsupportedToolName _
  | InvalidToolArguments _ => TypeInvalidToolCall
  end.

Definition http_status (self : ModelError) : option Z :=
  match self with
  | Request (ProviderRequestError status _) => Some status
  | Request (ClassifiedRequestError _ status _) => status
  | _ => None
  end.

(** ** Decoding a call *)

(** [serde_json::from_str] of the argument objects, and the text of an error
    that a check of a member raises in a given argument text. *)
Class ToolSerde := {
  read_wire : str → result ReadArgumentsWire str;
  write_wire : str → result WriteArgumentsWire str;
  member_error : str → str → str
}.

Definition ensure_content_size (output : str) : result unit ModelError :=
  if (RESPONSE_CONTENT_LIMIT_BYTES <? str_len output)%Z then Err ResponseContentTooLarge else Ok tt.

Definition map_err {A E F} (f : E → F) (r : result A E) : result A F :=
  match r with Ok a => Ok a | Err e => Err (f e) end.

Section decoding.
Context `{JsonEscape} `{ToolSerde}.

Definition ToolCall_from_json (id name arguments : str) (reasoning_content : option str)
  : result ToolCall ModelError :=
  if (MAX_TOOL_CALL_ID_BYTES <? str_len id)%Z || is_empty (trim id) then Err InvalidToolCallId
  else
    let? _ := ensure_content_size arguments in
    let? _ := match reasoning_content with Some r => ensure_content_size r | None => Ok tt end in
    let? decoded :=
      (if str_eqb name READ_NAME then
         map_err (λ e, InvalidToolArguments (bounded_diagnostic e))
           (let? wire := read_wire arguments in
            let? a := map_err (member_error arguments) (ReadArguments_deserialize wire) in
            Ok (ToolRead a))
       else if str_eqb name WRITE_NAME then
         map_err (λ e, InvalidToolArguments (bounded_diagnostic e))
           (let? wire := write_wire arguments in
            let? a := map_err (member_error arguments) (WriteArguments_deserialize wire) in
            Ok (ToolWrite a))
       else Err (UnsupportedToolName (bounded_diagnostic name))) in
    Ok (mkToolCall decoded id reasoning_content).

(** The first identifier that was seen before, in the order of the calls. *)
Fixpoint ensure_unique_loop (seen : list str) (calls : list ToolCall) : result unit ModelError :=
  match calls with
  | [] => Ok tt
  | call :: rest =>
      if existsb (str_eqb (tool_call_id call)) seen
      then Err (DuplicateToolCallId (bounded_diagnostic (tool_call_id call)))
      else ensure_unique_loop (tool_call_id call :: seen) rest
  end.

Definition ensure_unique_tool_call_ids (calls : list ToolCall) : result unit ModelError :=
  ensure_unique_loop [] calls.
End decoding.

(** ** Laws *)

(** *** Paths *)

(** What a file system makes of a relative path: [.] and empty components stay,
    [..] goes up, an absolute path leaves the root. *)
Definition step_into (at_ : list str) (component : str) : list str :=
  if is_empty component || str_eqb component (L".") then at_
  else if str_eqb component (L"..") then removelast at_
  else at_ ++ [component].

Definition resolve (root : list str) (path : str) : list str :=
  fold_left step_into (split_char slash path) (if starts_with path [slash] then [] else root).

Definition ordinary (component : str) : bool :=
  negb (is_empty component || str_eqb component (L".") || str_eqb component (L"..")).

Lemma step_into_length at_ c : length (step_into at_ c) <= S (length at_) ∧
  (length (step_into at_ c) = S (length at_) → ordinary c = true ∧ step_into at_ c = at_ ++ [c]).
Proof.
  unfold step_into, ordinary. destruct (is_empty c || str_eqb c (L".")); cbn [orb negb]; [split; [lia|lia]|].
  destruct (str_eqb c (L"..")); cbn [negb].
  - assert (length (removelast at_) <= length at_); [|split; [lia|intros ?; exfalso; lia]]. rewrite removelast_firstn_len, firstn_length. lia.
  - rewrite length_app. cbn [length]. split; [lia|by split].
Qed.

Lemma fold_step_length components at_ :
  length (fold_left step_into components at_) <= length at_ + length components.
Proof.
  revert at_. induction components as [|c cs IH]; intros at_; cbn; [lia|].
  destruct (step_into_length at_ c) as [HL _]. specialize (IH (step_into at_ c)). lia.
Qed.

Lemma fold_step_ordinary components at_ :
  forallb ordinary components = true ↔ fold_left step_into components at_ = at_ ++ components.
Proof.
  revert at_. induction components as [|c cs IH]; intros at_; cbn; [by rewrite app_nil_r|].
  rewrite andb_true_iff. split.
  - intros [Hc HF]. assert (step_into at_ c = at_ ++ [c]) as ->.
    { unfold step_into, ordinary in *. apply negb_true_iff in Hc. apply orb_false_iff in Hc as [-> ->]. done. }
    rewrite (proj1 (IH _) HF). by rewrite <- app_assoc.
  - intros HE. pose proof (fold_step_length cs (step_into at_ c)) as HL. rewrite HE, length_app in HL. cbn in HL.
    destruct (step_into_length at_ c) as [HU HO]. destruct HO as [Hc Ec]; [lia|]. split; [done|].
    apply (IH (at_ ++ [c])). by rewrite <- Ec, HE, Ec, <- app_assoc.
Qed.

Lemma str_len_nil : str_len [] = 0%Z.
Proof. done. Qed.

Lemma has_char_false c s : has_char c s = false ↔ c ∉ s.
Proof.
  unfold has_char. rewrite existsb_false. split.
  - intros HN HI. specialize (HN c HI). by rewrite N.eqb_refl in HN.
  - intros HN x HX. apply N.eqb_neq. by intros ->.
Qed.

Lemma resolve_contained path :
  (∀ root, resolve root path = root ++ split_char slash path) ↔
  starts_with path [slash] = false ∧ forallb ordinary (split_char slash path) = true.
Proof.
  unfold resolve. split.
  - intros HR. destruct (starts_with path [slash]) eqn:E.
    + specialize (HR [[]]). pose proof (fold_step_length (split_char slash path) []) as HL.
      rewrite HR in HL. cbn in HL. lia.
    + split; [done|]. by apply (fold_step_ordinary _ []).
  - intros [-> HO] root. by apply fold_step_ordinary.
Qed.

Lemma existsb_not_ordinary components :
  existsb (λ component, is_empty component || str_eqb component (L".") || str_eqb component (L"..")) components = false
  ↔ forallb ordinary components = true.
Proof.
  rewrite existsb_false, forallb_true. unfold ordinary. split; intros HH x HX; specialize (HH x HX);
    [by rewrite HH|by apply negb_true_iff].
Qed.

(** C38: A tool can only name what lies below the repository root and outside of Git's own directory: a path
    is admitted exactly when it is short enough, has no NUL and no backslash, resolves below every root to the
    root followed by its own components, and none of these is [.git] in any letter case. *)
Theorem admitted_path_stays_in_repository path p :
  validate_repository_path path = Ok p ↔
  p = path ∧ (0 < str_len path <= MAX_PATH_BYTES)%Z ∧ nul ∉ path ∧ backslash ∉ path ∧
  (∀ root, resolve root path = root ++ split_char slash path) ∧
  (∀ component, component ∈ split_char slash path → eq_ignore_ascii_case component (L".git") = false).
Proof.
  rewrite resolve_contained, <- (existsb_not_ordinary (split_char slash path)), <- !has_char_false.
  rewrite <- (existsb_false (λ component, eq_ignore_ascii_case component (L".git"))).
  unfold validate_repository_path. destruct path as [|c path]; [split; [discriminate|intros (_ & HL & _); rewrite str_len_nil in HL; lia]|].
  assert (0 < str_len (c :: path))%Z as HP.
  { unfold str_len. rewrite byte_len_cons. pose proof (len_utf8_pos c). lia. }
  generalize dependent (c :: path). intros s HP. cbn [is_empty]. destruct (is_empty s) eqn:HE.
  { apply is_empty_true in HE as ->. rewrite str_len_nil in HP. lia. }
  destruct (Z.ltb_spec MAX_PATH_BYTES (str_len s)); [split; [discriminate|lia]|].
  destruct (starts_with s [slash]); [split; [discriminate|by intros (_ & _ & _ & _ & [? _] & _)]|].
  destruct (has_char backslash s); [split; [discriminate|by intros (_ & _ & _ & ? & _)]|]. cbn [orb].
  destruct (has_char nul s); [split; [discriminate|by intros (_ & _ & ? & _)]|].
  destruct (existsb _ _); [split; [discriminate|by intros (_ & _ & _ & _ & [_ ?] & _)]|].
  destruct (existsb _ _); [split; [discriminate|by intros (_ & _ & _ & _ & _ & ?)]|].
  split; [intros [= <-]; by split_and!|by intros (-> & _)].
Qed.

(** *** Numbers *)

(** The value of decimal digits. *)
Definition dec_from (acc : Z) (s : str) : Z := fold_left (λ a c, a * 10 + (Z.of_N c - 48))%Z s acc.
Definition dec (s : str) : Z := dec_from 0 s.

Definition digits (s : str) : Prop := forallb is_ascii_digit s = true.

Lemma digits_app a b : digits (a ++ b) ↔ digits a ∧ digits b.
Proof. unfold digits. by rewrite forallb_app, andb_true_iff. Qed.

Lemma digit_range c : is_ascii_digit c = true → (0 <= Z.of_N c - 48 <= 9)%Z.
Proof. unfold is_ascii_digit. rewrite andb_true_iff, !N.leb_le. lia. Qed.

Lemma dec_from_eq acc s : dec_from acc s = (acc * 10 ^ usize_len s + dec s)%Z.
Proof.
  unfold dec. revert acc. induction s as [|c s IH]; intros acc; [change (acc = acc * 10 ^ 0 + 0)%Z; lia|]. cbn [dec_from fold_left].
  fold (dec_from (acc * 10 + (Z.of_N c - 48)) s). fold (dec_from (0 * 10 + (Z.of_N c - 48)) s).
  rewrite (IH (acc * 10 + (Z.of_N c - 48))%Z), (IH (0 * 10 + (Z.of_N c - 48))%Z).
  unfold usize_len. cbn [length]. rewrite Nat2Z.inj_succ, Z.pow_succ_r by lia. ring.
Qed.

Lemma dec_app a b : dec (a ++ b) = (dec a * 10 ^ usize_len b + dec b)%Z.
Proof. unfold dec at 1, dec_from at 1. rewrite fold_left_app. apply dec_from_eq. Qed.

Lemma dec_cons c s : dec (c :: s) = ((Z.of_N c - 48) * 10 ^ usize_len s + dec s)%Z.
Proof. change (c :: s) with ([c] ++ s). rewrite dec_app. f_equal. Qed.

Lemma pow10_pos n : (0 <= n)%Z → (0 < 10 ^ n)%Z.
Proof. intros ?. by apply Z.pow_pos_nonneg. Qed.

Lemma usize_len_nonneg {A} (l : list A) : (0 <= usize_len l)%Z.
Proof. unfold usize_len. lia. Qed.

Lemma usize_len_cons {A} (x : A) l : usize_len (x :: l) = (1 + usize_len l)%Z.
Proof. unfold usize_len. cbn [length]. lia. Qed.

Lemma dec_bounds s : digits s → (0 <= dec s < 10 ^ usize_len s)%Z.
Proof.
  induction s as [|c s IH]; [intros _; change (0 <= 0 < 1)%Z; lia|]. intros [Hc HS]%andb_true_iff. specialize (IH HS). rewrite dec_cons, usize_len_cons.
  pose proof (digit_range c Hc). rewrite Z.pow_add_r, Z.pow_1_r by (pose proof (usize_len_nonneg s); lia). nia.
Qed.

Lemma dec_zeros s : forallb (N.eqb zero_digit) s = true → dec s = 0%Z.
Proof.
  induction s as [|c s IH]; [done|]. cbn [forallb]. intros [<-%N.eqb_eq HS]%andb_true_iff. by rewrite dec_cons, IH.
Qed.

Lemma dec_zero_inv s : digits s → dec s = 0%Z → forallb (N.eqb zero_digit) s = true.
Proof.
  induction s as [|c s IH]; [done|]. intros [Hc HS]%andb_true_iff. rewrite dec_cons. intros HZ.
  pose proof (digit_range c Hc). pose proof (dec_bounds s HS). pose proof (pow10_pos _ (usize_len_nonneg s)).
  assert (Z.of_N c - 48 = 0)%Z as HC by nia. cbn [forallb]. rewrite IH by (done || nia). rewrite andb_true_r.
  apply N.eqb_eq. unfold zero_digit. lia.
Qed.

Lemma parse_digits_dec acc s : digits s → parse_digits acc s = Some (dec_from acc s).
Proof.
  revert acc. induction s as [|c s IH]; intros acc; [done|]. intros [Hc HS]%andb_true_iff. cbn.
  unfold parse_digit. rewrite Hc. cbn. by rewrite IH.
Qed.

Lemma skip_zeros s :
  digits s → digits (trim_start_matches (N.eqb zero_digit) s) ∧ dec (trim_start_matches (N.eqb zero_digit) s) = dec s.
Proof.
  unfold trim_start_matches. induction s as [|c s IH]; [done|]. intros HD. cbn [skip_while].
  destruct (N.eqb_spec zero_digit c) as [<-|]; [|done]. apply andb_true_iff in HD as [_ HS].
  destruct (IH HS) as [H1 H2]. split; [done|]. by rewrite H2, dec_cons.
Qed.

Lemma dec_no_leading_zero c s :
  digits (c :: s) → zero_digit ≠ c → (10 ^ usize_len s <= dec (c :: s))%Z.
Proof.
  intros [Hc HS]%andb_true_iff HN. rewrite dec_cons. pose proof (digit_range c Hc). pose proof (dec_bounds s HS).
  assert (1 <= Z.of_N c - 48)%Z by (unfold zero_digit in HN; lia). nia.
Qed.

Lemma append_zeros_spec zeros value n :
  (0 < value)%Z → append_zeros zeros value = Some n ↔ n = (value * 10 ^ Z.of_nat zeros)%Z ∧ ((0 < zeros)%nat → n <= u64_max)%Z.
Proof.
  revert value. induction zeros as [|zeros IH]; intros value HV; cbn [append_zeros].
  { rewrite Z.pow_0_r, Z.mul_1_r. split; [by intros [= <-]; split; [|lia]|by intros [-> _]]. }
  rewrite Nat2Z.inj_succ, Z.pow_succ_r by lia. pose proof (pow10_pos (Z.of_nat zeros)).
  destruct (Z.leb_spec (value * 10) u64_max) as [HL|HL].
  - rewrite IH by lia. split; intros [-> HU]; (split; [ring|]); intros _; [|intros; apply HU; lia].
    destruct zeros as [|zeros]; [cbn; lia|apply HU; lia].
  - split; [discriminate|]. intros [-> HU]. specialize (HU ltac:(lia)). nia.
Qed.

(** [n] is the value of the digits scaled by a power of ten. *)
Definition scaled (s : str) (scale n : Z) : Prop := (n * 10 ^ Z.max 0 (- scale) = dec s * 10 ^ Z.max 0 scale)%Z.

Lemma take_drop_len {A} (s : list A) r :
  (0 <= r <= usize_len s)%Z → usize_len (drop (Z.to_nat (usize_len s - r)) s) = r.
Proof. unfold usize_len. rewrite length_drop. lia. Qed.

Lemma apply_scale_spec s scale n :
  digits s → (1 <= n)%Z →
  scaled s scale n ↔ ∃ s' zeros, apply_scale s scale = Some (s', zeros) ∧ digits s' ∧ (0 <= zeros)%Z ∧
    n = (dec s' * 10 ^ zeros)%Z.
Proof.
  intros HD HN. unfold scaled, apply_scale. destruct (Z.ltb_spec scale 0) as [HS|HS].
  2: { rewrite Z.max_l, Z.max_r, Z.pow_0_r, Z.mul_1_r by lia. split; [by eauto 6|]. by intros (s' & z & [= <- <-] & _ & _ & ->). }
  rewrite Z.max_r, Z.max_l, Z.pow_0_r, Z.mul_1_r by lia. set (r := (- scale)%Z) in *. assert (0 < r)%Z as HR by lia.
  pose proof (pow10_pos r ltac:(lia)) as HP. destruct (Z.leb_spec (usize_len s) r) as [HL|HL]; cbn [orb].
  { split; [|by intros (? & ? & ? & _)]. intros HE. pose proof (dec_bounds s HD) as HB.
    assert (10 ^ usize_len s <= 10 ^ r)%Z by (apply Z.pow_le_mono_r; lia). nia. }
  set (k := Z.to_nat (usize_len s - r)). assert (usize_len (drop k s) = r) as HK by (apply take_drop_len; lia).
  pose proof HD as HD'. rewrite <- (take_drop k s) in HD'. apply digits_app in HD' as [HD1 HD2].
  assert (dec s = dec (take k s) * 10 ^ r + dec (drop k s))%Z as HE.
  { rewrite <- (take_drop k s) at 1. by rewrite dec_app, HK. }
  pose proof (dec_bounds _ HD2) as HB. rewrite HK in HB.
  destruct (forallb (N.eqb zero_digit) (drop k s)) eqn:HZ; cbn [negb].
  - rewrite HE, (dec_zeros _ HZ). split.
    + intros HM. exists (take k s), 0%Z. split_and!; [done|done|lia|]. apply (Z.mul_reg_r _ _ (10 ^ r)); lia.
    + intros (s' & z & [= <- <-] & _ & _ & ->). rewrite Z.pow_0_r. lia.
  - split; [|by intros (? & ? & ? & _)]. intros HM. exfalso.
    assert (dec (drop k s) = 0)%Z as HZ'.
    { rewrite HE in HM. destruct (Z.lt_trichotomy n (dec (take k s))) as [|[->|]]; nia. }
    by rewrite (dec_zero_inv _ HD2 HZ') in HZ.
Qed.

(** The digits left are read exactly. *)
Lemma read_digits_spec s zeros n :
  digits s → (0 <= zeros)%Z → (1 <= n)%Z →
  (let t := trim_start_matches (N.eqb zero_digit) s in
   if is_empty t || (20 <? usize_len t + zeros)%Z then None
   else value ← parse_usize t; append_zeros (Z.to_nat zeros) value) = Some n ↔
  (n <= u64_max)%Z ∧ n = (dec s * 10 ^ zeros)%Z.
Proof.
  intros HD HZ HN. destruct (skip_zeros s HD) as [HT <-]. cbv zeta.
  pose proof (pow10_pos zeros HZ) as HP.
  destruct (trim_start_matches (N.eqb zero_digit) s) as [|c t] eqn:ET; [split; [done|]; intros [_ ->]; unfold dec, dec_from in HN; cbn in HN; lia|].
  assert (zero_digit ≠ c) as HC.
  { apply skip_while_head in ET. by apply N.eqb_neq in ET. }
  cbn [is_empty orb]. pose proof (dec_no_leading_zero c t HT HC) as HL. pose proof (usize_len_nonneg t) as HU.
  rewrite usize_len_cons. destruct (Z.ltb_spec 20 (1 + usize_len t + zeros)) as [HB|HB].
  { split; [done|]. intros [HM ->]. exfalso.
    assert (10 ^ 20 <= 10 ^ (usize_len t + zeros))%Z as H1 by (apply Z.pow_le_mono_r; lia).
    rewrite Z.pow_add_r in H1 by lia. assert (u64_max < 10 ^ 20)%Z by (vm_compute; done). nia. }
  assert (parse_usize (c :: t) = if (dec (c :: t) <=? usize_max)%Z then Some (dec (c :: t)) else None) as ->.
  { unfold parse_usize. assert ((c =? 43)%N = false) as ->.
    { apply andb_true_iff in HT as [HT _]. apply digit_range in HT. apply N.eqb_neq. lia. }
    cbn [is_empty]. rewrite parse_digits_dec by done. done. }
  assert (0 < dec (c :: t))%Z as HV by (pose proof (pow10_pos _ HU); lia).
  unfold usize_max. destruct (Z.leb_spec (dec (c :: t)) u64_max) as [HM|HM]; cbn [mbind option_bind].
  - rewrite append_zeros_spec, Z2Nat.id by done. split.
    + intros [-> HX]. split; [|done]. destruct (decide (zeros = 0)%Z) as [->|]; [rewrite Z.pow_0_r; lia|apply HX; lia].
    + by intros [HX ->].
  - split; [done|]. intros [HX ->]. nia.
Qed.

(** *** Texts of numbers *)

(** The text of a JSON number that is not negative. *)
Definition number_text (whole : str) (fraction : option str) (exponent : option (char * str)) : str :=
  whole ++ match fraction with Some f => 46%N :: f | None => [] end ++
  match exponent with Some (mark, e) => mark :: e | None => [] end.

Lemma split_exponent_none s : forallb (negb ∘ is_exponent_mark) s = true → split_exponent s = None.
Proof. induction s as [|c s IH]; [done|]. cbn. intros [Hc HS]%andb_true_iff. apply negb_true_iff in Hc. by rewrite Hc, IH. Qed.

Lemma split_exponent_app a mark b :
  forallb (negb ∘ is_exponent_mark) a = true → is_exponent_mark mark = true → split_exponent (a ++ mark :: b) = Some (a, b).
Proof.
  intros HA HM. induction a as [|c a IH]; cbn; [by rewrite HM|]. cbn in HA. apply andb_true_iff in HA as [Hc HA].
  apply negb_true_iff in Hc. by rewrite Hc, IH.
Qed.

Lemma digit_not c d : is_ascii_digit c = true → (d < 48 ∨ 57 < d)%N → c ≠ d.
Proof. intros HC HD ->. apply digit_range in HC. lia. Qed.

Lemma digits_no_mark s : digits s → forallb (negb ∘ is_exponent_mark) s = true.
Proof.
  unfold digits. rewrite !forallb_true. intros HD c HC. specialize (HD c HC). cbn. unfold is_exponent_mark.
  destruct (N.eqb_spec c 101); [by apply (digit_not c 101) in HD; [|lia]|].
  by destruct (N.eqb_spec c 69); [apply (digit_not c 69) in HD; [|lia]|].
Qed.

Lemma digits_notin s d : digits s → (d < 48 ∨ 57 < d)%N → d ∉ s.
Proof. unfold digits. rewrite forallb_true. intros HD HR HI. by apply (digit_not d d (HD d HI)). Qed.

Lemma split_once_none s c : c ∉ s → split_once s [c] = None.
Proof.
  induction s as [|d s IH]; [done|]. intros [HC HN]%not_elem_of_cons. cbn.
  destruct (N.eqb_spec c d); [done|]. by rewrite IH.
Qed.

Definition mantissa_text (whole : str) (fraction : option str) : str :=
  whole ++ match fraction with Some f => 46%N :: f | None => [] end.

Lemma mantissa_split whole fraction :
  digits whole → default (mantissa_text whole fraction, []) (split_once (mantissa_text whole fraction) (L".")) =
  (whole, default [] fraction).
Proof.
  intros HW. unfold mantissa_text. change (L".") with [46%N]. destruct fraction as [f|].
  - rewrite split_once_char; [done|]. by apply digits_notin; [|lia].
  - rewrite app_nil_r, split_once_none; [done|]. by apply digits_notin; [|lia].
Qed.

(** The numbers in tool arguments are read exactly: of the text of a JSON number with any fraction and
    exponent, the reader accepts precisely those whose value is an integer from 1 to the largest 64-bit
    number, and returns that value; every other number is refused. *)
Theorem json_integer_is_exact whole fraction exponent e n :
  digits whole → whole ≠ [] → digits (default [] fraction) →
  match exponent with Some (mark, t) => is_exponent_mark mark = true ∧ parse_i64 t = Some e | None => e = 0%Z end →
  (usize_len (default [] fraction) <= i64_max)%Z → (i64_min <= e - usize_len (default [] fraction) <= i64_max)%Z →
  (1 <= n)%Z →
  parse_positive_json_integer (number_text whole fraction exponent) = Some n ↔
  (n <= u64_max)%Z ∧ scaled (whole ++ default [] fraction) (e - usize_len (default [] fraction)) n.
Proof.
  intros HW HW0 HF HE HL1 HL2 HN.
  assert (number_text whole fraction exponent =
    mantissa_text whole fraction ++ match exponent with Some (m, t) => m :: t | None => [] end) as ->.
  { unfold number_text, mantissa_text. by rewrite app_assoc. }
  assert (forallb (negb ∘ is_exponent_mark) (mantissa_text whole fraction) = true) as HM.
  { unfold mantissa_text. rewrite forallb_app, digits_no_mark by done.
    destruct fraction as [f|]; [|done]. cbn in HF. cbn. by apply digits_no_mark. }
  unfold parse_positive_json_integer.
  assert (match split_exponent (mantissa_text whole fraction ++ match exponent with Some (m, t) => m :: t | None => [] end) with
          | Some (mantissa, exponent) => e ← parse_i64 exponent; Some (mantissa, e)
          | None => Some (mantissa_text whole fraction ++ match exponent with Some (m, t) => m :: t | None => [] end, 0%Z)
          end = Some (mantissa_text whole fraction, e)) as ->.
  { destruct exponent as [[m t]|]; [destruct HE as [HE1 HE2]; rewrite (split_exponent_app _ _ _ HM HE1); cbv beta iota; by rewrite HE2|].
    subst e. by rewrite app_nil_r, split_exponent_none. }
  cbn [mbind option_bind]. assert (starts_with (mantissa_text whole fraction) (L"-") = false) as ->.
  { destruct whole as [|c w]; [done|]. apply andb_true_iff in HW as [HC _]. apply (digit_not c 45) in HC; [|lia].
    unfold starts_with, mantissa_text. change (L"-") with [45%N]. cbn [app strip_prefix].
    by destruct (N.eqb_spec 45 c). }
  rewrite mantissa_split by done. unfold i64_of. pose proof (usize_len_nonneg (default [] fraction)).
  assert (i64_min <= 0)%Z by (vm_compute; done).
  rewrite !(proj2 (Z.leb_le _ _)) by lia. cbn [andb mbind option_bind].
  rewrite !(proj2 (Z.leb_le _ _)) by lia. cbn [andb mbind option_bind].
  rewrite apply_scale_spec by (done || by apply digits_app).
  destruct (apply_scale _ _) as [[s z]|] eqn:ES; cbn [mbind option_bind].
  - assert (digits s ∧ (0 <= z)%Z) as [HS HZ].
    { revert ES. unfold apply_scale. destruct (Z.ltb_spec (e - usize_len (default [] fraction)) 0).
      - destruct (_ || _); [done|]. intros [= <- <-]. split; [|lia].
        assert (digits (whole ++ default [] fraction)) as HD by by apply digits_app.
        rewrite <- (take_drop (Z.to_nat (usize_len (whole ++ default [] fraction) - - (e - usize_len (default [] fraction)))) (whole ++ default [] fraction)) in HD.
        by apply digits_app in HD as [HD _].
      - intros [= <- <-]. split; [by apply digits_app|lia]. }
    rewrite read_digits_spec by done. split.
    + intros [HU ->]. split; [done|]. by exists s, z.
    + intros [HU (s' & z' & [= <- <-] & _ & _ & ->)]. done.
  - split; [done|]. by intros [_ (? & ? & ? & _)].
Qed.

(** *** Batches *)

Section batches.
Context `{JsonEscape}.

Lemma ensure_unique_loop_Ok seen calls :
  ensure_unique_loop seen calls = Ok tt ↔
  NoDup (tool_call_id <$> calls) ∧ ∀ c, c ∈ calls → tool_call_id c ∉ seen.
Proof.
  revert seen. induction calls as [|c calls IH]; intros seen; cbn [ensure_unique_loop fmap list_fmap].
  { split; [|done]. intros _. split; [constructor|]. intros c HC. by apply not_elem_of_nil in HC. }
  destruct (existsb (str_eqb (tool_call_id c)) seen) eqn:E.
  - split; [discriminate|]. intros [_ HN]. apply existsb_true in E as (x & HX & <-%str_eqb_true).
    exfalso. apply (HN c); [by left|done].
  - rewrite IH, NoDup_cons. assert (tool_call_id c ∉ seen) as HC.
    { intros HI. rewrite existsb_false in E. specialize (E _ HI). by rewrite str_eqb_refl in E. }
    split.
    + intros [HD HS]. split_and!; [|done|].
      * intros (d & Ed & HI)%list_elem_of_fmap. apply (HS d HI). rewrite Ed. by left.
      * intros d [->|HI]%elem_of_cons; [done|]. specialize (HS d HI). set_solver.
    + intros [[HI HD] HS]. split; [done|]. intros d HI'. apply not_elem_of_cons. split; [|by apply HS; right].
      intros Ed. apply HI. rewrite <- Ed. by apply list_elem_of_fmap_2.
Qed.

Lemma ensure_unique_Ok calls : ensure_unique_tool_call_ids calls = Ok tt ↔ NoDup (tool_call_id <$> calls).
Proof.
  unfold ensure_unique_tool_call_ids. rewrite ensure_unique_loop_Ok. split; [by intros []|].
  intros HD. split; [done|]. intros c _. apply not_elem_of_nil.
Qed.
End batches.

Module ToolDemo.
(** [1.50e1] is fifteen. *)
Lemma json_integer_is_exact_witness :
  parse_positive_json_integer (number_text (L"1") (Some (L"50")) (Some (101%N, L"1"))) = Some 15%Z.
Proof.
  apply (json_integer_is_exact (L"1") (Some (L"50")) (Some (101%N, L"1")) 1 15); try (vm_compute; done).
Defined.
End ToolDemo.
