(* ===== verification/Forge.v ===== *)
(** * Forge clients (crates/ag-forge/src: remote.rs, model.rs, command.rs, adapter_common.rs, client.rs)

    Remotes of repositories, the commands that are run for them, the shared flow
    of the provider adapters and the client that authenticates before every
    operation.  Processes are answered by an environment and noted in a trace;
    JSON decoding is a parameter of the adapters. *)
From S2P Require Import Prelude Contracts Agent Lifecycle ToolCalls.

(** ** Remotes (model.rs, remote.rs) *)

Record ForgeRemote := mkRemote {
  command_working_directory : option str;
  remote_forge_kind : ForgeKind;
  host : str;
  namespace : str;
  project : str;
  repo_url : str;
  remote_web_url : str
}.

Definition with_command_working_directory (self : ForgeRemote) (working_directory : str) : ForgeRemote :=
  mkRemote (Some working_directory) (remote_forge_kind self) (host self) (namespace self) (project self)
    (repo_url self) (remote_web_url self).

Definition project_path (self : ForgeRemote) : str := namespace self ++ L"/" ++ project self.

Inductive ReviewRequestError :=
| CliNotInstalled (kind : ForgeKind)
| AuthenticationRequired (kind : ForgeKind) (host : str) (detail : option str)
| HostResolutionFailed (kind : ForgeKind) (host : str)
| UnsupportedRemote (repo_url : str)
| OperationFailed (kind : ForgeKind) (message : str).

#[global] Instance ReviewRequestError_eq_dec : EqDecision ReviewRequestError.
Proof. solve_decision. Defined.

Definition non_empty_detail (detail : option str) : option str :=
  match detail with
  | Some detail => let trimmed_detail := trim detail in if is_empty trimmed_detail then None else Some trimmed_detail
  | None => None
  end.

Definition authentication_required_message (kind : ForgeKind) (host : str) (detail : option str) : str :=
  let message := ForgeKind_display_name kind ++ L" review requests require local CLI authentication for `" ++ host
    ++ L"`." ++ [newline] ++ L"Run `" ++ ForgeKind_auth_login_command kind ++ L"` and retry." in
  match non_empty_detail detail with
  | Some detail =>
      message ++ [newline; newline] ++ L"Original `" ++ ForgeKind_cli_name kind ++ L"` error:" ++ [newline]
        ++ L"```text" ++ [newline] ++ detail ++ (if ends_with detail [newline] then [] else [newline]) ++ L"```"
  | None => message
  end.

Definition error_detail_message (self : ReviewRequestError) : str :=
  match self with
  | CliNotInstalled kind =>
      ForgeKind_display_name kind ++ L" review requests require the `" ++ ForgeKind_cli_name kind ++ L"` CLI."
        ++ [newline] ++ L"Install `" ++ ForgeKind_cli_name kind ++ L"` and run `"
        ++ ForgeKind_auth_login_command kind ++ L"`, then retry."
  | AuthenticationRequired kind host detail => authentication_required_message kind host detail
  | HostResolutionFailed kind host =>
      ForgeKind_display_name kind ++ L" review requests could not reach `" ++ host ++ L"`." ++ [newline]
        ++ L"Check the repository remote host and your network or DNS setup, then retry."
  | UnsupportedRemote url =>
      L"Review requests are only supported for GitHub and GitLab remotes." ++ [newline]
        ++ L"This repository remote is not supported: `" ++ url ++ L"`."
  | OperationFailed kind message => ForgeKind_display_name kind ++ L" review-request operation failed: " ++ message
  end.

Definition strip_userinfo (authority : str) : str :=
  match rsplit_once authority (L"@") with Some (_, host) => host | None => authority end.

Definition strip_port (host : str) : str :=
  match split_char 58%N host with first :: _ => first | [] => host end.

Definition display_safe_remote_url (url : str) : str :=
  let trimmed_url := trim url in
  match split_once trimmed_url (L"://") with
  | None =>
      match split_once trimmed_url (L":") with
      | Some (authority, suffix) =>
          if str_contains authority (L"@") then strip_userinfo authority ++ L":" ++ suffix else trimmed_url
      | None => trimmed_url
      end
  | Some (scheme, scheme_rest) =>
      let '(authority, suffix) := default (scheme_rest, []) (split_once scheme_rest (L"/")) in
      let authority := strip_userinfo authority in
      if is_empty suffix then scheme ++ L"://" ++ authority
      else scheme ++ L"://" ++ authority ++ L"/" ++ suffix
  end.

Definition is_slash : char → bool := N.eqb slash.

(** [trim_end_matches] of a text: the suffix is dropped as often as it occurs. *)
Fixpoint trim_end_text (fuel : nat) (suffix s : str) : str :=
  match fuel with
  | O => s
  | S fuel =>
      match strip_prefix (rev suffix) (rev s) with
      | Some rest => trim_end_text fuel suffix (rev rest)
      | None => s
      end
  end.

Definition trim_matches (p : char → bool) (s : str) : str := trim_end_matches p (trim_start_matches p s).

Record ParsedRemote := mkParsed {
  parsed_host : str;
  parsed_namespace : str;
  parsed_project : str;
  parsed_repo_url : str;
  parsed_web_url : str
}.

Definition into_forge_remote (self : ParsedRemote) (kind : ForgeKind) : ForgeRemote :=
  mkRemote None kind (parsed_host self) (parsed_namespace self) (parsed_project self) (parsed_repo_url self)
    (parsed_web_url self).

Definition ParsedRemote_from_parts (url host path : str) (strip_transport_port : bool) : option ParsedRemote :=
  let host := map ascii_lower (trim_matches is_slash (trim host)) in
  let host := if strip_transport_port then strip_port host else host in
  let path := trim_matches is_slash (trim path) in
  let path := trim_end_text (length path) (L".git") path in
  if is_empty host || is_empty path then None
  else
    '(namespace, project) ← rsplit_once path (L"/");
    if is_empty namespace || is_empty project then None
    else Some (mkParsed host namespace project (display_safe_remote_url url) (L"https://" ++ host ++ L"/" ++ path)).

Definition parse_remote_url (url : str) : option ParsedRemote :=
  let trimmed_url := trim_end_matches is_slash (trim url) in
  if is_empty trimmed_url then None
  else
    let scp :=
      match split_once trimmed_url (L":") with
      | Some (authority, path) => if str_contains authority (L"@") then Some (authority, path) else None
      | None => None
      end in
    match scp with
    | Some (authority, path) => ParsedRemote_from_parts trimmed_url (strip_userinfo authority) path true
    | None =>
        '(scheme, scheme_rest) ← split_once trimmed_url (L"://");
        let scheme_rest := default scheme_rest (strip_prefix (L"git@") scheme_rest) in
        '(authority, path) ← split_once scheme_rest (L"/");
        ParsedRemote_from_parts trimmed_url (strip_userinfo authority) path (eq_ignore_ascii_case scheme (L"ssh"))
    end.

Definition github_detect_remote (url : str) : option ForgeRemote :=
  parsed ← parse_remote_url url;
  if str_eqb (strip_port (parsed_host parsed)) (L"github.com") then Some (into_forge_remote parsed GitHub) else None.

Definition gitlab_detect_remote (url : str) : option ForgeRemote :=
  parsed ← parse_remote_url url;
  if is_gitlab_host (strip_port (parsed_host parsed)) then Some (into_forge_remote parsed GitLab) else None.

Definition detect_remote (url : str) : result ForgeRemote ReviewRequestError :=
  match github_detect_remote url with
  | Some remote => Ok remote
  | None =>
      match gitlab_detect_remote url with
      | Some remote => Ok remote
      | None => Err (UnsupportedRemote (display_safe_remote_url url))
      end
  end.

(** ** Comments (model.rs) *)

Definition AGENTTY_REVIEW_REPLY_MARKER_PREFIX : str := L"<!-- agentty review resolution:".

Record ReviewComment := mkComment { author : str; authored_by_current_user : bool; comment_body : str }.

Definition is_ascii_hexdigit (c : N) : bool :=
  is_ascii_digit c || ((65 <=? c) && (c <=? 70))%N || ((97 <=? c) && (c <=? 102))%N.

Definition GROUP_LENGTHS : list nat := [8; 4; 4; 4; 12].

Definition is_uuid_like (value : str) : bool :=
  forallb (λ '(group, expected_length),
      let group := as_bytes group in
      bool_decide (length group = expected_length) && forallb is_ascii_hexdigit group)
    (zip (split_char 45%N value) GROUP_LENGTHS)
  && bool_decide (length (List.filter (N.eqb 45%N) value) = length GROUP_LENGTHS - 1).

Definition is_agentty_reply (self : ReviewComment) : bool :=
  if negb (authored_by_current_user self) then false
  else
    match rsplit_once (comment_body self) AGENTTY_REVIEW_REPLY_MARKER_PREFIX with
    | None => false
    | Some (reply, marker) =>
        match strip_prefix (rev (L" -->")) (rev marker) with
        | None => false
        | Some token => ends_with reply [newline; newline] && is_uuid_like (rev token)
        end
    end.

Inductive ReviewCommentAnchorSide := SideFile | SideNew | SideOld.

Record ReviewCommentThread := mkThread {
  anchor_side : ReviewCommentAnchorSide;
  comments : list ReviewComment;
  thread_id : str;
  is_outdated : option bool;
  is_resolved : bool;
  line : option Z;
  thread_path : str;
  start_line : option Z
}.

Definition is_addressed_by_agentty (self : ReviewCommentThread) : bool :=
  negb (is_resolved self) && match last (comments self) with Some c => is_agentty_reply c | None => false end.

Definition is_actionable (self : ReviewCommentThread) : bool :=
  negb (is_resolved self) && negb (is_addressed_by_agentty self).

Record ReviewCommentSnapshot := mkSnapshot {
  pr_level_comments : list ReviewComment;
  threads : list ReviewCommentThread
}.

Record CreateReviewRequestInput := mkCreateInput {
  input_body : option str;
  input_source_branch : str;
  input_target_branch : str;
  input_title : str
}.

Record ReviewRequestMetadata := mkMetadata { metadata_body : str; metadata_title : str }.
Record ReviewRequestMetadataFieldUpdate := mkFieldUpdate { current : str; desired : str }.
Record UpdateReviewRequestInput := mkUpdateInput {
  update_body : option ReviewRequestMetadataFieldUpdate;
  update_title : option ReviewRequestMetadataFieldUpdate
}.

(** The identity marker of a reply (session/workflow/published_branch.rs). *)
Definition review_comment_reply_body (reply reply_token : str) : str :=
  reply ++ [newline; newline] ++ AGENTTY_REVIEW_REPLY_MARKER_PREFIX ++ reply_token ++ L" -->".

(** ** Commands (command.rs) *)

Definition FORGE_COMMAND_TIMEOUT : Z := 30.

Record ForgeCommand := mkCommand {
  arguments : list str;
  environment : list (str * str);
  executable : str;
  working_directory : option str
}.

Definition ForgeCommand_new (executable : str) (arguments : list str) : ForgeCommand :=
  mkCommand arguments [] executable None.

Definition with_environment (self : ForgeCommand) (key value : str) : ForgeCommand :=
  mkCommand (arguments self) (environment self ++ [(key, value)]) (executable self) (working_directory self).

Definition with_optional_working_directory (self : ForgeCommand) (dir : option str) : ForgeCommand :=
  match dir with
  | Some dir => mkCommand (arguments self) (environment self) (executable self) (Some dir)
  | None => self
  end.

Record ForgeCommandOutput := mkOutput { exit_code : option Z; stderr : str; stdout : str }.

Definition success (self : ForgeCommandOutput) : bool := bool_decide (exit_code self = Some 0%Z).

Inductive ForgeCommandError :=
| ExecutableNotFound (executable : str)
| SpawnFailed (executable message : str)
| TimedOut (executable : str) (timeout : Z).

Definition command_output_detail (output : ForgeCommandOutput) : str :=
  let stderr_text := trim (stderr output) in
  if negb (is_empty stderr_text) then stderr_text
  else
    let stdout_text := trim (stdout output) in
    if negb (is_empty stdout_text) then stdout_text else L"Unknown forge CLI error".

(** ** Running commands *)

(** The answer of the [n]th process. *)
Class ForgeRuntime := run_process : nat → ForgeCommand → result ForgeCommandOutput ForgeCommandError.

Definition Ran : Type := ForgeCommand * result ForgeCommandOutput ForgeCommandError.

(** Results with the trace of processes. *)
Definition Fm (A : Type) : Type := list Ran → result A ReviewRequestError * list Ran.
#[global] Instance Fm_ret : MRet Fm := λ A a t, (Ok a, t).
#[global] Instance Fm_bind : MBind Fm := λ A B f m t,
  match m t with (Ok a, t') => f a t' | (Err e, t') => (Err e, t') end.

Definition lift {A} (r : result A ReviewRequestError) : Fm A := λ t, (r, t).

Section operations.
Context `{!ForgeRuntime}.

Definition run (command : ForgeCommand) : Fm (result ForgeCommandOutput ForgeCommandError) := λ t,
  let answer := run_process (length t) command in (Ok answer, t ++ [(command, answer)]).

(** ** The shared flow (adapter_common.rs) *)

Definition operation_failed (kind : ForgeKind) (message : str) : ReviewRequestError := OperationFailed kind message.

Definition map_parse_error {A} (kind : ForgeKind) (r : result A str) : result A ReviewRequestError :=
  map_err (operation_failed kind) r.

Definition contains_any (text : str) (needles : list str) : bool := existsb (str_contains text) needles.

Definition looks_like_host_resolution_failure (detail : str) : bool :=
  contains_any (map ascii_lower detail)
    [L"no such host"; L"name or service not known"; L"temporary failure in name resolution";
     L"could not resolve host"; L"lookup "].

Definition looks_like_authentication_failure (detail : str) (kind : ForgeKind) : bool :=
  contains_any (map ascii_lower detail)
    [ForgeKind_cli_name kind ++ L" auth login"; L"not logged in"; L"authentication failed";
     L"authentication required"; L"http 401"].

Definition map_spawn_error (remote : ForgeRemote) (error : ForgeCommandError) : ReviewRequestError :=
  let kind := remote_forge_kind remote in
  match error with
  | ExecutableNotFound _ => CliNotInstalled kind
  | SpawnFailed _ message =>
      if looks_like_host_resolution_failure message then HostResolutionFailed kind (host remote)
      else OperationFailed kind (L"failed to execute `" ++ ForgeKind_cli_name kind ++ L"`: " ++ message)
  | TimedOut executable timeout =>
      OperationFailed kind (L"`" ++ executable ++ L"` timed out after " ++ display_Z timeout
                              ++ L" seconds while contacting " ++ host remote)
  end.

Definition ensure_authenticated_with (remote : ForgeRemote) (command : ForgeCommand) : Fm unit :=
  answer ← run command;
  match answer with
  | Err error => lift (Err (map_spawn_error remote error))
  | Ok output =>
      if success output then mret tt
      else
        let detail := command_output_detail output in
        if looks_like_host_resolution_failure detail
        then lift (Err (HostResolutionFailed (remote_forge_kind remote) (host remote)))
        else lift (Err (AuthenticationRequired (remote_forge_kind remote) (host remote) (Some detail)))
  end.

Definition run_review_command (remote : ForgeRemote) (command : ForgeCommand) (operation : str)
  : Fm ForgeCommandOutput :=
  answer ← run command;
  match answer with
  | Err error => lift (Err (map_spawn_error remote error))
  | Ok output =>
      if success output then mret output
      else
        let detail := command_output_detail output in
        if looks_like_host_resolution_failure detail
        then lift (Err (HostResolutionFailed (remote_forge_kind remote) (host remote)))
        else if looks_like_authentication_failure detail (remote_forge_kind remote)
        then lift (Err (AuthenticationRequired (remote_forge_kind remote) (host remote) (Some detail)))
        else lift (Err (operation_failed (remote_forge_kind remote) (operation ++ L": " ++ detail)))
  end.

Record ReviewRequestMetadataEdit := mkEdit { edit_body : option str; edit_title : option str }.

(** A field is edited when the remote still has the value that was reconciled. *)
Definition field_edit (remote_value : str) (field : option ReviewRequestMetadataFieldUpdate) : option str :=
  match field with
  | Some f => if str_eqb remote_value (current f) && negb (str_eqb remote_value (desired f))
              then Some (desired f) else None
  | None => None
  end.

Definition ReviewRequestMetadataPlan_new (metadata : ReviewRequestMetadata) (input : UpdateReviewRequestInput)
  : ReviewRequestMetadataEdit :=
  mkEdit (field_edit (metadata_body metadata) (update_body input))
    (field_edit (metadata_title metadata) (update_title input)).

Definition requires_edit (edit : ReviewRequestMetadataEdit) : bool :=
  is_some (edit_body edit) || is_some (edit_title edit).

Record SyncReviewRequestMetadataConfig := mkConfig {
  edit_metadata_command : ForgeRemote → str → ReviewRequestMetadataEdit → ForgeCommand;
  edit_operation : str;
  config_parse_display_id : str → result str ReviewRequestError;
  config_parse_metadata_response : str → result ReviewRequestMetadata str;
  view_metadata_command : ForgeRemote → str → ForgeCommand;
  view_operation : str
}.

Definition find_by_source_branch_future (remote : ForgeRemote) (source_branch : str)
    (lookup_command : ForgeRemote → str → ForgeCommand) (operation : str)
    (parse_lookup_display_id : str → result (option str) str)
    (refresh : ForgeRemote → str → Fm ReviewRequestSummary) : Fm (option ReviewRequestSummary) :=
  output ← run_review_command remote (lookup_command remote source_branch) operation;
  display_id ← lift (map_parse_error (remote_forge_kind remote) (parse_lookup_display_id (stdout output)));
  match display_id with
  | None => mret None
  | Some display_id => summary ← refresh remote display_id; mret (Some summary)
  end.

Definition refresh_review_request_future (remote : ForgeRemote) (display_id : str)
    (parse_display_id : str → result str ReviewRequestError) (view_command : ForgeRemote → str → ForgeCommand)
    (operation : str) (parse_view_response : str → result ReviewRequestSummary str) : Fm ReviewRequestSummary :=
  command_display_id ← lift (parse_display_id display_id);
  output ← run_review_command remote (view_command remote command_display_id) operation;
  lift (map_parse_error (remote_forge_kind remote) (parse_view_response (stdout output))).

Definition review_request_metadata_future (remote : ForgeRemote) (display_id : str)
    (config : SyncReviewRequestMetadataConfig) : Fm ReviewRequestMetadata :=
  command_display_id ← lift (config_parse_display_id config display_id);
  output ← run_review_command remote (view_metadata_command config remote command_display_id) (view_operation config);
  lift (map_parse_error (remote_forge_kind remote) (config_parse_metadata_response config (stdout output))).

Definition sync_review_request_metadata_future (remote : ForgeRemote) (display_id : str)
    (input : UpdateReviewRequestInput) (config : SyncReviewRequestMetadataConfig)
    (refresh : ForgeRemote → str → Fm ReviewRequestSummary) : Fm ReviewRequestSummary :=
  command_display_id ← lift (config_parse_display_id config display_id);
  output ← run_review_command remote (view_metadata_command config remote command_display_id) (view_operation config);
  metadata ← lift (map_parse_error (remote_forge_kind remote) (config_parse_metadata_response config (stdout output)));
  let plan := ReviewRequestMetadataPlan_new metadata input in
  _ ← (if requires_edit plan then
         _ ← run_review_command remote (edit_metadata_command config remote command_display_id plan)
               (edit_operation config); mret tt
       else mret tt);
  refresh remote display_id.
End operations.

Definition status_summary_parts (parts : list str) : option str :=
  if is_empty parts then None else Some (join (L", ") parts).

(** [char::to_uppercase], a table of the standard library. *)
Class UnicodeUpper := char_to_uppercase : char → str.

Definition normalize_provider_label `{UnicodeUpper} (label : str) : str :=
  match map ascii_lower (str_replace label (L"_") (L" ")) with
  | [] => []
  | first_character :: characters => char_to_uppercase first_character ++ characters
  end.

(** ** The adapter interface and the client (client.rs) *)

Record ReviewRequestAdapter := mkAdapter {
  ensure_authenticated : ForgeRemote → Fm unit;
  find_authenticated_by_source_branch : ForgeRemote → str → Fm (option ReviewRequestSummary);
  create_authenticated_review_request : ForgeRemote → CreateReviewRequestInput → Fm ReviewRequestSummary;
  refresh_authenticated_review_request : ForgeRemote → str → Fm ReviewRequestSummary;
  authenticated_review_request_metadata : ForgeRemote → str → Fm ReviewRequestMetadata;
  sync_authenticated_review_request_metadata : ForgeRemote → str → UpdateReviewRequestInput → Fm ReviewRequestSummary;
  fetch_authenticated_review_comment_snapshot : ForgeRemote → str → Fm ReviewCommentSnapshot;
  reply_to_authenticated_thread : ForgeRemote → str → str → str → Fm unit;
  resolve_authenticated_thread : ForgeRemote → str → str → Fm unit
}.

(** What a user of the client asks for. *)
Inductive ForgeRequest :=
| FindBySourceBranch (source_branch : str)
| CreateRequest (input : CreateReviewRequestInput)
| RefreshRequest (display_id : str)
| RequestMetadata (display_id : str)
| SyncMetadata (display_id : str) (input : UpdateReviewRequestInput)
| FetchComments (display_id : str)
| ReplyToThread (display_id thread_id body : str)
| ResolveThread (display_id thread_id : str).

Inductive ForgeAnswer :=
| AnswerFound (summary : option ReviewRequestSummary)
| AnswerSummary (summary : ReviewRequestSummary)
| AnswerMetadata (metadata : ReviewRequestMetadata)
| AnswerComments (snapshot : ReviewCommentSnapshot)
| AnswerDone.

Definition fm_map {A B} (f : A → B) (m : Fm A) : Fm B := a ← m; mret (f a).

Definition perform (adapter : ReviewRequestAdapter) (remote : ForgeRemote) (request : ForgeRequest) : Fm ForgeAnswer :=
  match request with
  | FindBySourceBranch b => fm_map AnswerFound (find_authenticated_by_source_branch adapter remote b)
  | CreateRequest input => fm_map AnswerSummary (create_authenticated_review_request adapter remote input)
  | RefreshRequest i => fm_map AnswerSummary (refresh_authenticated_review_request adapter remote i)
  | RequestMetadata i => fm_map AnswerMetadata (authenticated_review_request_metadata adapter remote i)
  | SyncMetadata i input => fm_map AnswerSummary (sync_authenticated_review_request_metadata adapter remote i input)
  | FetchComments i => fm_map AnswerComments (fetch_authenticated_review_comment_snapshot adapter remote i)
  | ReplyToThread i t b => fm_map (λ _, AnswerDone) (reply_to_authenticated_thread adapter remote i t b)
  | ResolveThread i t => fm_map (λ _, AnswerDone) (resolve_authenticated_thread adapter remote i t)
  end.

Section client.
Context (adapter_for : ForgeKind → ReviewRequestAdapter).

Definition call_with_authenticated_adapter {A} (remote : ForgeRemote) (call : ReviewRequestAdapter → ForgeRemote → Fm A)
  : Fm A :=
  let adapter := adapter_for (remote_forge_kind remote) in
  _ ← ensure_authenticated adapter remote;
  call adapter remote.

Definition call_client (remote : ForgeRemote) (request : ForgeRequest) : Fm ForgeAnswer :=
  call_with_authenticated_adapter remote (λ adapter remote, perform adapter remote request).
End client.

Definition review_request_web_url (summary : ReviewRequestSummary) : result str ReviewRequestError :=
  if is_empty (trim (web_url summary))
  then Err (OperationFailed (forge_kind summary) (L"review request summary is missing a web URL"))
  else Ok (web_url summary).
