(* ===== verification/ForgeGithub.v ===== *)
(** * The GitHub adapter (crates/ag-forge/src/github.rs)

    The commands [gh] is given, the payloads it answers with and the normalised
    results.  Decoding JSON is the library's and is a parameter. *)
From S2P Require Import Prelude Contracts Agent Lifecycle ToolCalls Forge.


(** ** Queries *)

Definition REVIEW_THREADS_QUERY : str :=
  L"query($owner: String!, $repo: String!, $number: Int!, $endCursor: String) { repository(owner: $owner, name: $repo) { pullRequest(number: $number) { reviewThreads(first: 100, after: $endCursor) { nodes { id diffSide isOutdated isResolved line path startLine subjectType comments(first: 100) { nodes { author { login } body viewerDidAuthor } pageInfo { hasNextPage endCursor } } } pageInfo { hasNextPage endCursor } } } } }".

Definition PULL_REQUEST_COMMENTS_QUERY : str :=
  L"query($owner: String!, $repo: String!, $number: Int!, $endCursor: String) { repository(owner: $owner, name: $repo) { pullRequest(number: $number) { comments(first: 100, after: $endCursor) { nodes { author { login } body viewerDidAuthor } pageInfo { hasNextPage endCursor } } } } }".

Definition THREAD_COMMENTS_QUERY : str :=
  L"query($threadId: ID!, $endCursor: String) { node(id: $threadId) { ... on PullRequestReviewThread { comments(first: 100, after: $endCursor) { nodes { author { login } body viewerDidAuthor } pageInfo { hasNextPage endCursor } } } } }".

Definition REPLY_TO_THREAD_MUTATION : str :=
  L"mutation($threadId: ID!, $body: String!) { addPullRequestReviewThreadReply(input: { pullRequestReviewThreadId: $threadId, body: $body }) { comment { id } } }".

Definition RESOLVE_THREAD_MUTATION : str :=
  L"mutation($threadId: ID!) { resolveReviewThread(input: { threadId: $threadId }) { thread { id isResolved } } }".

(** ** Payloads *)

Record GitHubReviewCommentNode := mkCommentNode {
  node_author : option str;
  node_body : str;
  viewer_did_author : bool
}.

Record GitHubReviewCommentsConnection := mkConnection {
  nodes : list GitHubReviewCommentNode;
  has_next_page : bool
}.

Record GitHubReviewThreadNode := mkThreadNode {
  node_comments : GitHubReviewCommentsConnection;
  diff_side : str;
  node_id : str;
  node_is_outdated : bool;
  node_is_resolved : bool;
  node_line : option Z;
  node_path : str;
  node_start_line : option Z;
  subject_type : str
}.

(** [data], [repository] and [pullRequest] may each be absent. *)
Definition GitHubReviewThreadsEnvelope : Type := option (option (option (list GitHubReviewThreadNode))).
Definition GitHubPullRequestCommentsEnvelope : Type := option (option (option GitHubReviewCommentsConnection)).
Definition GitHubThreadCommentsEnvelope : Type := option (option GitHubReviewCommentsConnection).

Record GitHubViewResponse := mkView {
  base_ref_name : str;
  head_ref_name : str;
  is_draft : bool;
  merge_state_status : option str;
  merged_at : option str;
  number : Z;
  review_decision : option str;
  view_state : str;
  view_title : str;
  view_url : str
}.

(** [serde_json::from_str] at the payload types. *)
Class GitHubSerde := {
  decode_lookup : str → result (list Z) str;
  decode_threads : str → result (list GitHubReviewThreadsEnvelope) str;
  decode_comments : str → result (list GitHubPullRequestCommentsEnvelope) str;
  decode_thread_comments : str → result (list GitHubThreadCommentsEnvelope) str;
  decode_view : str → result GitHubViewResponse str;
  decode_metadata : str → result ReviewRequestMetadata str
}.

(** ** Commands *)

Definition github_command (remote : ForgeRemote) (arguments : list str) : ForgeCommand :=
  with_optional_working_directory
    (with_environment (with_environment (ForgeCommand_new (L"gh") arguments) (L"CLICOLOR") (L"0")) (L"NO_COLOR") (L"1"))
    (command_working_directory remote).

Definition auth_status_command (remote : ForgeRemote) : ForgeCommand :=
  github_command remote [L"auth"; L"status"; L"--hostname"; host remote].

Definition lookup_command (remote : ForgeRemote) (source_branch : str) : ForgeCommand :=
  github_command remote
    [L"api"; L"--hostname"; host remote; L"--method"; L"GET";
     L"repos/" ++ namespace remote ++ L"/" ++ project remote ++ L"/pulls";
     L"-f"; L"head=" ++ namespace remote ++ L":" ++ source_branch;
     L"-f"; L"state=open"; L"-f"; L"sort=created"; L"-f"; L"direction=desc"; L"-f"; L"per_page=1"].

Definition create_command (remote : ForgeRemote) (input : CreateReviewRequestInput) : ForgeCommand :=
  github_command remote
    [L"pr"; L"create"; L"--draft"; L"--repo"; project_path remote; L"--head"; input_source_branch input;
     L"--base"; input_target_branch input; L"--title"; input_title input; L"--body"; default [] (input_body input)].

Definition view_command (remote : ForgeRemote) (pull_request_number : str) : ForgeCommand :=
  github_command remote
    [L"pr"; L"view"; pull_request_number; L"--repo"; project_path remote; L"--json";
     L"number,title,state,url,baseRefName,headRefName,isDraft,mergeStateStatus,reviewDecision,mergedAt"].

Definition view_metadata_command (remote : ForgeRemote) (pull_request_number : str) : ForgeCommand :=
  github_command remote
    [L"pr"; L"view"; pull_request_number; L"--repo"; project_path remote; L"--json"; L"title,body"].

Definition edit_metadata_command (remote : ForgeRemote) (pull_request_number : str) (edit : ReviewRequestMetadataEdit)
  : ForgeCommand :=
  github_command remote
    ([L"pr"; L"edit"; pull_request_number; L"--repo"; project_path remote]
     ++ match edit_title edit with Some title => [L"--title"; title] | None => [] end
     ++ match edit_body edit with Some body => [L"--body"; body] | None => [] end).

Definition paginated_graphql_command (remote : ForgeRemote) (query : str) (variables : list str) : ForgeCommand :=
  github_command remote
    ([L"api"; L"--hostname"; host remote; L"graphql"; L"--paginate"; L"--slurp"; L"-f"; L"query=" ++ query]
     ++ flat_map (λ variable, [L"-F"; variable]) variables).

Definition pull_request_variables (remote : ForgeRemote) (pull_request_number : str) : list str :=
  [L"owner=" ++ namespace remote; L"repo=" ++ project remote; L"number=" ++ pull_request_number].

Definition review_threads_command (remote : ForgeRemote) (pull_request_number : str) : ForgeCommand :=
  paginated_graphql_command remote REVIEW_THREADS_QUERY (pull_request_variables remote pull_request_number).

Definition pull_request_comments_command (remote : ForgeRemote) (pull_request_number : str) : ForgeCommand :=
  paginated_graphql_command remote PULL_REQUEST_COMMENTS_QUERY (pull_request_variables remote pull_request_number).

Definition thread_comments_command (remote : ForgeRemote) (thread : str) : ForgeCommand :=
  paginated_graphql_command remote THREAD_COMMENTS_QUERY [L"threadId=" ++ thread].

Definition reply_to_thread_command (remote : ForgeRemote) (thread body : str) : ForgeCommand :=
  github_command remote
    [L"api"; L"--hostname"; host remote; L"graphql"; L"-f"; L"query=" ++ REPLY_TO_THREAD_MUTATION;
     L"-f"; L"threadId=" ++ thread; L"-f"; L"body=" ++ body].

Definition resolve_thread_command (remote : ForgeRemote) (thread : str) : ForgeCommand :=
  github_command remote
    [L"api"; L"--hostname"; host remote; L"graphql"; L"-f"; L"query=" ++ RESOLVE_THREAD_MUTATION;
     L"-f"; L"threadId=" ++ thread].

(** ** Answers *)

Definition number_sign : char → bool := N.eqb 35%N.

Definition parse_display_id (display_id : str) : result str ReviewRequestError :=
  let trimmed := trim_start_matches number_sign (trim display_id) in
  if is_empty trimmed || negb (forallb is_ascii_digit trimmed)
  then Err (OperationFailed GitHub (L"invalid GitHub pull-request display id: `" ++ display_id ++ L"`"))
  else Ok trimmed.

Definition review_request_state (self : GitHubViewResponse) : ReviewRequestState :=
  if is_some (merged_at self) || str_eqb (view_state self) (L"MERGED") then RequestMerged
  else if str_eqb (view_state self) (L"CLOSED") then RequestClosed
  else RequestOpen.

Definition review_comment_from_node (node : GitHubReviewCommentNode) : ReviewComment :=
  mkComment (default (L"ghost") (node_author node)) (viewer_did_author node) (node_body node).

Definition github_anchor_side (node : GitHubReviewThreadNode) : ReviewCommentAnchorSide :=
  if str_eqb (subject_type node) (L"FILE") || is_none (node_line node) then SideFile
  else if str_eqb (diff_side node) (L"LEFT") then SideOld else SideNew.

Definition review_comment_thread_from_node (node : GitHubReviewThreadNode) : ReviewCommentThread :=
  mkThread (github_anchor_side node) (review_comment_from_node <$> nodes (node_comments node)) (node_id node)
    (Some (node_is_outdated node)) (node_is_resolved node)
    (if str_eqb (subject_type node) (L"FILE") then None else node_line node) (node_path node) (node_start_line node).

(** Pages are combined in order; one that lacks its payload fails the whole. *)
Fixpoint combine_pages {P A} (payload : P → result (list A) str) (pages : list P) : result (list A) str :=
  match pages with
  | [] => Ok []
  | page :: rest =>
      match payload page with
      | Err e => Err e
      | Ok items => match combine_pages payload rest with Ok more => Ok (items ++ more) | Err e => Err e end
      end
  end.

Section adapter.
Context `{!ForgeRuntime} `{!GitHubSerde} `{!UnicodeUpper}.

Definition parse_lookup_display_id (text : str) : result (option str) str :=
  match decode_lookup text with
  | Err error => Err (L"invalid GitHub pull-request lookup response: " ++ error)
  | Ok pull_requests => Ok ((λ n, L"#" ++ display_Z n) <$> head pull_requests)
  end.

Definition review_decision_summary (decision : option str) : option str :=
  match decision with
  | None => None
  | Some decision =>
      Some (default (normalize_provider_label decision)
        (match_str decision [(L"APPROVED", L"Approved"); (L"CHANGES_REQUESTED", L"Changes requested");
                             (L"REVIEW_REQUIRED", L"Review required")]))
  end.

Definition merge_state_summary (status : option str) : option str :=
  match status with
  | None => None
  | Some status =>
      if str_eqb status (L"UNKNOWN") then None
      else Some (default (normalize_provider_label status)
        (match_str status [(L"BLOCKED", L"Blocked"); (L"CLEAN", L"Mergeable"); (L"DIRTY", L"Conflicts");
                           (L"HAS_HOOKS", L"Hooks pending"); (L"UNSTABLE", L"Checks pending")]))
  end.

Definition view_status_summary (self : GitHubViewResponse) : option str :=
  status_summary_parts
    ((if is_draft self then [L"Draft"] else [])
     ++ option_list (review_decision_summary (review_decision self))
     ++ option_list (merge_state_summary (merge_state_status self))).

Definition parse_view_response (text : str) : result ReviewRequestSummary str :=
  match decode_view text with
  | Err error => Err (L"invalid GitHub pull-request view response: " ++ error)
  | Ok v =>
      Ok (mkReviewRequestSummary (L"#" ++ display_Z (number v)) GitHub (head_ref_name v) (review_request_state v)
            (view_status_summary v) (base_ref_name v) (view_title v) (view_url v))
  end.

Definition parse_metadata_response (text : str) : result ReviewRequestMetadata str :=
  map_err (λ error, L"invalid GitHub pull-request metadata response: " ++ error) (decode_metadata text).

Definition parse_review_thread_pages (text : str) : result (list GitHubReviewThreadNode) str :=
  match decode_threads text with
  | Err error => Err (L"invalid GitHub review-threads response: " ++ error)
  | Ok responses =>
      combine_pages (λ response : GitHubReviewThreadsEnvelope,
        match response with
        | None => Err (L"GitHub review-threads response is missing a data payload")
        | Some (Some (Some thread_nodes)) => Ok thread_nodes
        | Some _ => Err (L"GitHub review-threads response is missing a pull request")
        end) responses
  end.

Definition parse_pull_request_comment_pages (text : str) : result (list ReviewComment) str :=
  match decode_comments text with
  | Err error => Err (L"invalid GitHub pull-request comments response: " ++ error)
  | Ok responses =>
      combine_pages (λ response : GitHubPullRequestCommentsEnvelope,
        match response with
        | None => Err (L"GitHub pull-request comments response is missing a data payload")
        | Some (Some (Some connection)) => Ok (review_comment_from_node <$> nodes connection)
        | Some _ => Err (L"GitHub pull-request comments response is missing a pull request")
        end) responses
  end.

Definition parse_thread_comment_pages (text : str) : result (list GitHubReviewCommentNode) str :=
  match decode_thread_comments text with
  | Err error => Err (L"invalid GitHub review-thread comments response: " ++ error)
  | Ok responses =>
      combine_pages (λ response : GitHubThreadCommentsEnvelope,
        match response with
        | None => Err (L"GitHub review-thread comments response is missing a data payload")
        | Some None => Err (L"GitHub review-thread comments response is missing a thread")
        | Some (Some connection) => Ok (nodes connection)
        end) responses
  end.

(** ** Operations *)

Definition metadata_sync_config : SyncReviewRequestMetadataConfig :=
  mkConfig edit_metadata_command (L"update pull-request metadata") parse_display_id parse_metadata_response
    view_metadata_command (L"view pull-request metadata").

Definition refresh (remote : ForgeRemote) (display_id : str) : Fm ReviewRequestSummary :=
  refresh_review_request_future remote display_id parse_display_id view_command (L"refresh pull request")
    parse_view_response.

Definition find (remote : ForgeRemote) (source_branch : str) : Fm (option ReviewRequestSummary) :=
  find_by_source_branch_future remote source_branch lookup_command (L"find pull request") parse_lookup_display_id
    refresh.

Definition create (remote : ForgeRemote) (input : CreateReviewRequestInput) : Fm ReviewRequestSummary :=
  _ ← run_review_command remote (create_command remote input) (L"create pull request");
  found ← find remote (input_source_branch input);
  match found with
  | Some summary => mret summary
  | None => lift (Err (operation_failed GitHub (L"GitHub pull request was created but could not be reloaded")))
  end.

Fixpoint complete_threads (remote : ForgeRemote) (thread_nodes : list GitHubReviewThreadNode)
  : Fm (list GitHubReviewThreadNode) :=
  match thread_nodes with
  | [] => mret []
  | node :: rest =>
      node ← (if negb (has_next_page (node_comments node)) then mret node
              else
                output ← run_review_command remote (thread_comments_command remote (node_id node))
                           (L"fetch review-thread comments");
                all ← lift (map_parse_error GitHub (parse_thread_comment_pages (stdout output)));
                mret (mkThreadNode (mkConnection all (has_next_page (node_comments node))) (diff_side node)
                        (node_id node) (node_is_outdated node) (node_is_resolved node) (node_line node)
                        (node_path node) (node_start_line node) (subject_type node)));
      rest ← complete_threads remote rest;
      mret (node :: rest)
  end.

Definition fetch_comments (remote : ForgeRemote) (display_id : str) : Fm ReviewCommentSnapshot :=
  pull_request_number ← lift (parse_display_id display_id);
  threads_output ← run_review_command remote (review_threads_command remote pull_request_number)
                     (L"fetch pull-request review threads");
  thread_nodes ← lift (map_parse_error GitHub (parse_review_thread_pages (stdout threads_output)));
  comments_output ← run_review_command remote (pull_request_comments_command remote pull_request_number)
                      (L"fetch pull-request conversation comments");
  pr_level_comments ← lift (map_parse_error GitHub (parse_pull_request_comment_pages (stdout comments_output)));
  thread_nodes ← complete_threads remote thread_nodes;
  mret (mkSnapshot pr_level_comments (review_comment_thread_from_node <$> thread_nodes)).

Definition reply (remote : ForgeRemote) (display_id thread body : str) : Fm unit :=
  _ ← lift (parse_display_id display_id);
  _ ← run_review_command remote (reply_to_thread_command remote thread body) (L"reply to pull-request review thread");
  mret tt.

Definition resolve (remote : ForgeRemote) (display_id thread : str) : Fm unit :=
  _ ← lift (parse_display_id display_id);
  _ ← run_review_command remote (resolve_thread_command remote thread) (L"resolve pull-request review thread");
  mret tt.

Definition adapter : ReviewRequestAdapter :=
  mkAdapter (λ remote, ensure_authenticated_with remote (auth_status_command remote)) find create refresh
    (λ remote i, review_request_metadata_future remote i metadata_sync_config)
    (λ remote i input, sync_review_request_metadata_future remote i input metadata_sync_config refresh)
    fetch_comments reply resolve.
End adapter.
