(* ===== verification/ForgeGitlab.v ===== *)
(** * The GitLab adapter (crates/ag-forge/src/gitlab.rs) and the choice of an adapter (client.rs)

    The commands [glab] is given, the payloads it answers with and the
    normalised results.  Decoding JSON, parsing URLs and percent encoding are the
    libraries' and are parameters. *)
From S2P Require Import Prelude Contracts Agent Lifecycle ToolCalls Forge ForgeGithub.


(** ** Payloads *)

Record GitLabViewResponse := mkView {
  detailed_merge_status : option str;
  draft : bool;
  iid : Z;
  merge_status : option str;
  merged_at : option str;
  view_source_branch : str;
  view_state : str;
  view_target_branch : str;
  view_title : str;
  view_web_url : str
}.

Record GitLabDiscussionAuthor := mkAuthor { author_id : option Z; author_name : option str; username : option str }.

Record GitLabDiscussionPosition := mkPosition {
  new_line : option Z;
  new_path : option str;
  old_line : option Z;
  old_path : option str
}.

Record GitLabDiscussionNote := mkNote {
  note_author : GitLabDiscussionAuthor;
  note_body : str;
  note_type : option str;
  note_position : option GitLabDiscussionPosition;
  resolved : bool;
  system : bool
}.

Record GitLabDiscussion := mkDiscussion { discussion_id : str; notes : list GitLabDiscussionNote }.

(** [serde_json::from_str] at the payload types, [Url::parse] with
    [path_segments], and [form_urlencoded::byte_serialize]. *)
Class GitLabSerde := {
  decode_lookup : str → result (list Z) str;
  decode_view : str → result GitLabViewResponse str;
  decode_metadata : str → result ReviewRequestMetadata str;
  decode_user : str → result Z str;
  decode_discussions : str → result (list GitLabDiscussion) str;
  url_path_segments : str → result (option (list str)) str;
  byte_serialize : str → str
}.

(** ** Commands *)

Definition gitlab_command (remote : ForgeRemote) (executable : str) (arguments : list str) : ForgeCommand :=
  with_optional_working_directory
    (with_environment
       (with_environment (with_environment (ForgeCommand_new executable arguments) (L"CLICOLOR") (L"0"))
          (L"NO_COLOR") (L"1"))
       (L"GITLAB_HOST") (host remote))
    (command_working_directory remote).

Definition auth_status_command (remote : ForgeRemote) : ForgeCommand :=
  gitlab_command remote (L"glab") [L"auth"; L"status"; L"--hostname"; host remote].

Definition lookup_command (remote : ForgeRemote) (source_branch : str) : ForgeCommand :=
  gitlab_command remote (L"glab")
    [L"mr"; L"list"; L"--repo"; remote_web_url remote; L"--source-branch"; source_branch; L"--order"; L"created_at";
     L"--sort"; L"desc"; L"--per-page"; L"1"; L"--output"; L"json"].

Definition create_command (remote : ForgeRemote) (input : CreateReviewRequestInput) : ForgeCommand :=
  gitlab_command remote (L"glab")
    [L"mr"; L"create"; L"--repo"; remote_web_url remote; L"--draft"; L"--source-branch"; input_source_branch input;
     L"--target-branch"; input_target_branch input; L"--title"; input_title input; L"--description";
     default [] (input_body input); L"--yes"].

Definition view_command (remote : ForgeRemote) (merge_request_iid : str) : ForgeCommand :=
  gitlab_command remote (L"glab")
    [L"mr"; L"view"; merge_request_iid; L"--repo"; remote_web_url remote; L"--output"; L"json"].

Definition update_metadata_command (remote : ForgeRemote) (merge_request_iid : str) (edit : ReviewRequestMetadataEdit)
  : ForgeCommand :=
  gitlab_command remote (L"glab")
    ([L"mr"; L"update"; merge_request_iid; L"--repo"; remote_web_url remote]
     ++ match edit_title edit with Some title => [L"--title"; title] | None => [] end
     ++ match edit_body edit with Some body => [L"--description"; body] | None => [] end
     ++ [L"--yes"]).

Definition current_user_command (remote : ForgeRemote) : ForgeCommand :=
  gitlab_command remote (L"glab") [L"api"; L"--hostname"; host remote; L"/user"].

(** ** Answers *)

Definition exclamation_mark : char → bool := N.eqb 33%N.

Definition parse_display_id_value (display_id : str) : result str str :=
  let trimmed := trim_start_matches exclamation_mark (trim display_id) in
  if is_empty trimmed || negb (forallb is_ascii_digit trimmed)
  then Err (L"invalid GitLab merge-request display id: `" ++ display_id ++ L"`")
  else Ok trimmed.

Definition parse_display_id (display_id : str) : result str ReviewRequestError :=
  map_err (OperationFailed GitLab) (parse_display_id_value display_id).

Definition review_request_state (self : GitLabViewResponse) : ReviewRequestState :=
  if is_some (merged_at self) || eq_ignore_ascii_case (view_state self) (L"merged") then RequestMerged
  else if str_eqb (view_state self) (L"closed") || str_eqb (view_state self) (L"locked") then RequestClosed
  else RequestOpen.

Definition or_else {A} (a b : option A) : option A := match a with Some _ => a | None => b end.

Definition gitlab_anchor_from_position (position : GitLabDiscussionPosition)
  : ReviewCommentAnchorSide * str * option Z :=
  match new_line position with
  | Some line => (SideNew, default [] (or_else (new_path position) (old_path position)), Some line)
  | None =>
      match old_line position with
      | Some line => (SideOld, default [] (or_else (old_path position) (new_path position)), Some line)
      | None => (SideFile, default [] (or_else (new_path position) (old_path position)), None)
      end
  end.

Definition review_comment_from_note (current_user_id : Z) (note : GitLabDiscussionNote) : ReviewComment :=
  mkComment (default [] (or_else (username (note_author note)) (author_name (note_author note))))
    (bool_decide (author_id (note_author note) = Some current_user_id)) (note_body note).

Definition review_comment_thread_from_discussion (discussion_id : str) (notes : list GitLabDiscussionNote)
    (current_user_id : Z) : option ReviewCommentThread :=
  anchor_note ← list_find_b (λ note,
    bool_decide (note_type note = Some (L"DiffNote")) && is_some (note_position note)) notes;
  position ← note_position anchor_note;
  let '(side, path, line) := gitlab_anchor_from_position position in
  Some (mkThread side (review_comment_from_note current_user_id <$> notes) discussion_id None (resolved anchor_note)
          line path None).

Definition add_discussion (current_user_id : Z) (acc : ReviewCommentSnapshot) (discussion : GitLabDiscussion)
  : ReviewCommentSnapshot :=
  let notes := List.filter (λ note, negb (system note)) (notes discussion) in
  if is_empty notes then acc
  else
    match review_comment_thread_from_discussion (discussion_id discussion) notes current_user_id with
    | Some thread => mkSnapshot (pr_level_comments acc) (threads acc ++ [thread])
    | None => mkSnapshot (pr_level_comments acc ++ (review_comment_from_note current_user_id <$> notes)) (threads acc)
    end.

Section adapter.
Context `{!ForgeRuntime} `{!GitLabSerde} `{!UnicodeUpper}.

Definition discussions_command (remote : ForgeRemote) (merge_request_iid : str) : ForgeCommand :=
  gitlab_command remote (L"glab")
    [L"api"; L"--hostname"; host remote; L"--paginate";
     L"/projects/" ++ byte_serialize (project_path remote) ++ L"/merge_requests/" ++ merge_request_iid
       ++ L"/discussions?per_page=100"].

Definition discussion_endpoint (remote : ForgeRemote) (merge_request_iid thread : str) (child_resource : option str)
  : str :=
  L"/projects/" ++ byte_serialize (project_path remote) ++ L"/merge_requests/" ++ merge_request_iid
    ++ L"/discussions/" ++ byte_serialize thread
    ++ match child_resource with Some child => L"/" ++ child | None => [] end.

Definition reply_to_thread_command (remote : ForgeRemote) (merge_request_iid thread body : str) : ForgeCommand :=
  gitlab_command remote (L"glab")
    [L"api"; L"--hostname"; host remote; L"--method"; L"POST"; L"--raw-field"; L"body=" ++ body;
     discussion_endpoint remote merge_request_iid thread (Some (L"notes"))].

Definition resolve_thread_command (remote : ForgeRemote) (merge_request_iid thread : str) : ForgeCommand :=
  gitlab_command remote (L"glab")
    [L"api"; L"--hostname"; host remote; L"--method"; L"PUT"; L"--field"; L"resolved=true";
     discussion_endpoint remote merge_request_iid thread None].

Definition parse_lookup_display_id (text : str) : result (option str) str :=
  match decode_lookup text with
  | Err error => Err (L"invalid GitLab merge-request lookup response: " ++ error)
  | Ok merge_requests => Ok ((λ n, L"!" ++ display_Z n) <$> head merge_requests)
  end.

(** The segment behind the last [merge_requests]. *)
Fixpoint after_last (segment : str) (segments : list str) : option (list str) :=
  match segments with
  | [] => None
  | s :: rest =>
      match after_last segment rest with
      | Some found => Some found
      | None => if str_eqb s segment then Some rest else None
      end
  end.

Definition parse_create_display_id (text : str) : result str str :=
  match list_find_b (λ line, negb (is_empty line)) (trim <$> str_lines text) with
  | None => Err (L"missing GitLab merge-request URL in create response")
  | Some created_url =>
      match url_path_segments created_url with
      | Err error => Err (L"invalid GitLab merge-request create response URL: " ++ error)
      | Ok None => Err (L"invalid GitLab merge-request create response URL path")
      | Ok (Some segments) =>
          match after_last (L"merge_requests") segments with
          | None => Err (L"missing merge request path segment in create response URL")
          | Some [] => Err (L"missing merge request iid in create response URL")
          | Some (merge_request_iid :: _) =>
              let display_id := L"!" ++ merge_request_iid in
              match parse_display_id_value display_id with Err e => Err e | Ok _ => Ok display_id end
          end
      end
  end.

Definition merge_status_summary (merge_status detailed_merge_status : option str) : option str :=
  status ← or_else detailed_merge_status merge_status;
  match match_str status
    [(L"can_be_merged", Some (L"Mergeable")); (L"mergeable", Some (L"Mergeable"));
     (L"cannot_be_merged", Some (L"Conflicts")); (L"cannot_be_merged_recheck", Some (L"Checking"));
     (L"checking", Some (L"Checking")); (L"unchecked", Some (L"Checking"));
     (L"ci_still_running", Some (L"Checks pending")); (L"commits_status", Some (L"Checks pending"));
     (L"ci_must_pass", Some (L"Checks required")); (L"discussions_not_resolved", Some (L"Discussions unresolved"));
     (L"draft_status", None); (L"not_open", None)] with
  | Some known => known
  | None => Some (normalize_provider_label status)
  end.

Definition view_status_summary (self : GitLabViewResponse) : option str :=
  status_summary_parts
    ((if draft self then [L"Draft"] else [])
     ++ option_list (merge_status_summary (merge_status self) (detailed_merge_status self))).

Definition parse_view_response (text : str) : result ReviewRequestSummary str :=
  match decode_view text with
  | Err error => Err (L"invalid GitLab merge-request view response: " ++ error)
  | Ok v =>
      Ok (mkReviewRequestSummary (L"!" ++ display_Z (iid v)) GitLab (view_source_branch v) (review_request_state v)
            (view_status_summary v) (view_target_branch v) (view_title v) (view_web_url v))
  end.

Definition parse_metadata_response (text : str) : result ReviewRequestMetadata str :=
  map_err (λ error, L"invalid GitLab merge-request metadata response: " ++ error) (decode_metadata text).

Definition parse_current_user_response (text : str) : result Z str :=
  map_err (λ error, L"invalid GitLab current-user response: " ++ error) (decode_user text).

Definition parse_review_comment_snapshot_response (text : str) (current_user_id : Z)
  : result ReviewCommentSnapshot str :=
  match decode_discussions text with
  | Err error => Err (L"invalid GitLab merge-request discussions response: " ++ error)
  | Ok discussions => Ok (fold_left (add_discussion current_user_id) discussions (mkSnapshot [] []))
  end.

(** ** Operations *)

Definition metadata_sync_config : SyncReviewRequestMetadataConfig :=
  mkConfig update_metadata_command (L"update merge-request metadata") parse_display_id parse_metadata_response
    view_command (L"view merge-request metadata").

Definition refresh (remote : ForgeRemote) (display_id : str) : Fm ReviewRequestSummary :=
  refresh_review_request_future remote display_id parse_display_id view_command (L"refresh merge request")
    parse_view_response.

Definition find (remote : ForgeRemote) (source_branch : str) : Fm (option ReviewRequestSummary) :=
  find_by_source_branch_future remote source_branch lookup_command (L"find merge request") parse_lookup_display_id
    refresh.

Definition create (remote : ForgeRemote) (input : CreateReviewRequestInput) : Fm ReviewRequestSummary :=
  output ← run_review_command remote (create_command remote input) (L"create merge request");
  display_id ← lift (map_parse_error (remote_forge_kind remote) (parse_create_display_id (stdout output)));
  refresh remote display_id.

Definition fetch_comments (remote : ForgeRemote) (display_id : str) : Fm ReviewCommentSnapshot :=
  merge_request_iid ← lift (parse_display_id display_id);
  current_user_output ← run_review_command remote (current_user_command remote) (L"fetch authenticated GitLab user");
  current_user ← lift (map_parse_error GitLab (parse_current_user_response (stdout current_user_output)));
  discussions_output ← run_review_command remote (discussions_command remote merge_request_iid)
                         (L"fetch merge-request discussions");
  lift (map_parse_error GitLab (parse_review_comment_snapshot_response (stdout discussions_output) current_user)).

Definition reply (remote : ForgeRemote) (display_id thread body : str) : Fm unit :=
  merge_request_iid ← lift (parse_display_id display_id);
  _ ← run_review_command remote (reply_to_thread_command remote merge_request_iid thread body)
        (L"reply to merge-request discussion");
  mret tt.

Definition resolve (remote : ForgeRemote) (display_id thread : str) : Fm unit :=
  merge_request_iid ← lift (parse_display_id display_id);
  _ ← run_review_command remote (resolve_thread_command remote merge_request_iid thread)
        (L"resolve merge-request discussion");
  mret tt.

Definition adapter : ReviewRequestAdapter :=
  mkAdapter (λ remote, ensure_authenticated_with remote (auth_status_command remote)) find create refresh
    (λ remote i, review_request_metadata_future remote i metadata_sync_config)
    (λ remote i input, sync_review_request_metadata_future remote i input metadata_sync_config refresh)
    fetch_comments reply resolve.
End adapter.


(** ** Choice of the adapter (client.rs) *)

Definition adapter_for `{!ForgeRuntime} `{!ForgeGithub.GitHubSerde} `{!GitLabSerde} `{!UnicodeUpper}
    (kind : ForgeKind) : ReviewRequestAdapter :=
  match kind with GitHub => ForgeGithub.adapter | GitLab => adapter end.
