(* ===== verification/Flow.v ===== *)
(** * Session workflows: calls, errors, status and commits
    (crates/agentty/src/app/assist.rs, app/session/error.rs,
    app/session/workflow/task.rs)

    The workflows that change branches talk to Git, the database, the file
    system and agents.  What they call is a family of calls indexed by the type
    of the answer; a host answers each call by the number of calls made so far,
    and a run is the list of calls with their answers.  The in-memory status of
    the session is shared with other tasks: [host_status] is what they made of
    it since the last step. *)
From stdpp Require Import gmap.
From S2P Require Import Prelude Contracts Agent Lifecycle Transcript Transient Prompt Input Review Session SessionState FileEntry SessionManager.

(** ** Errors *)

(** Failures of Git (ag-git/src/error.rs). *)
Inductive GitFailure :=
| CommandFailed (command stderr : str)
| CommandTimedOut (command timeout : str)
| OutputParse (detail : str)
| RepositoryUnavailable (detail : str)
| GitIo (detail : str)
| PreCommitHookMissing (config_file : str)
| GitJoin (detail : str).

Definition GitFailure_display (self : GitFailure) : str :=
  match self with
  | CommandFailed command stderr => command ++ L": " ++ stderr
  | CommandTimedOut command timeout => command ++ L" timed out after " ++ timeout
  | OutputParse detail | RepositoryUnavailable detail | GitIo detail => detail
  | PreCommitHookMissing config_file =>
      L"pre-commit validation is configured by `" ++ config_file
        ++ L"`, but the Git pre-commit hook is not installed or executable. Install it with one of these commands:"
        ++ [newline; newline] ++ L"  prek install" ++ [newline] ++ L"  pre-commit install" ++ [newline; newline]
        ++ L"Agentty will continue for now, but missing configured hooks will become an error in a future release."
  | GitJoin detail => L"Join error: " ++ detail
  end.

Definition is_git_index_lock_error (detail : str) : bool :=
  let normalized := map ascii_lower detail in
  str_contains normalized (L"index.lock")
  && (str_contains normalized (L"file exists") || str_contains normalized (L"another git process")).

Definition is_index_locked (self : GitFailure) : bool :=
  match self with CommandFailed _ stderr => is_git_index_lock_error stderr | _ => false end.

Inductive SessionError :=
| NotFound
| HandlesNotFound
| GitError (failure : GitFailure)
| OneShotError (message : str)
| DbError (message : str)
| FsError (message : str)
| Workflow (message : str)
| StoppedByUser (message : str).

Definition SessionError_display (self : SessionError) : str :=
  match self with
  | NotFound => L"Session not found"
  | HandlesNotFound => L"Session handles not found"
  | GitError f => GitFailure_display f
  | OneShotError m | DbError m | FsError m | Workflow m | StoppedByUser m => m
  end.

Definition with_context (self : SessionError) (context : str) : SessionError :=
  match self with
  | Workflow m => Workflow (context ++ L": " ++ m)
  | StoppedByUser m => StoppedByUser (context ++ L": " ++ m)
  | other => other
  end.

(** ** Repeated failures (assist.rs) *)

Record AssistPolicy := mkPolicy { max_attempts : nat; policy_max_streak : nat }.

Record FailureTracker := mkTracker {
  max_identical_failure_streak : nat;
  previous_fingerprint : str;
  streak : nat
}.

Definition FailureTracker_new (max_streak : nat) : FailureTracker := mkTracker max_streak [] 0.

Definition observe (self : FailureTracker) (fingerprint : str) : bool * FailureTracker :=
  let normalized := map ascii_lower (trim fingerprint) in
  if is_empty normalized then (false, mkTracker (max_identical_failure_streak self) [] 0)
  else
    let next := if str_eqb (previous_fingerprint self) normalized then S (streak self) else 1 in
    (bool_decide (max_identical_failure_streak self < next),
     mkTracker (max_identical_failure_streak self) normalized next).

Definition format_detail_lines (detail : str) : str :=
  join [newline] ((λ line, L"- " ++ line) <$> List.filter (λ line, negb (is_empty line)) (trim <$> str_lines detail)).

(** ** Git results *)

Inductive RebaseStepResult := StepCompleted | StepConflict (detail : str).
Inductive SquashMergeOutcome := Committed | AlreadyPresentInTarget.
Inductive PullRebaseResult := PullCompleted | PullConflict (detail : str).

(** ** Calls *)

(** Identity and display context of one explicit project sync (app/sync.rs). *)
Record ProjectSyncContext := mkSyncContext {
  default_branch : str;
  sync_operation_id : Z;
  sync_project_id : Z;
  sync_project_name : str
}.

Inductive FlowEvent :=
| SessionUpdated (k : SessionId) (version : Z)
| RefreshSessions
| RefreshProjects
| RefreshGitStatus
| SessionWorkflowNoticeUpdated (notice : str) (k : SessionId)
| SessionProgressUpdated (progress_message : option str) (k : SessionId)
| SessionQueuedSyncResolved (k : SessionId)
| StackedParentMergeCompleted (children : list SessionId)
| StackedParentSyncCompleted (k : SessionId)
| PublishedBranchSyncUpdated (notice : option str) (k : SessionId) (operation : str) (s : PublishedBranchSyncStatus)
| SyncMainConflictResolutionStarted (conflicted_files : list str) (operation : ProjectSyncContext).

(** What an assistance prompt is submitted through. *)
Inductive AssistRoute := RouteExistingSession | RouteOneShot | RouteSync.

(** What the prompt of a commit message is rendered from: the cumulative diff, or
    the changed file names with the transcript when the diff is too large. *)
Inductive CommitInput := InputDiff (diff : str) | InputFallback (changed_files : list str).

Inductive Call : Set → Type :=
(* Git *)
| GitFindRepoRoot (dir : str) : Call (option str)
| GitMainRepoRoot (dir : str) : Call (result str GitFailure)
| GitIsWorktreeClean (dir : str) : Call (result bool GitFailure)
| GitIsRebaseInProgress (dir : str) : Call (result bool GitFailure)
| GitRebaseStart (dir target : str) : Call (result RebaseStepResult GitFailure)
| GitRebaseOntoStart (dir new_base old_base : str) : Call (result RebaseStepResult GitFailure)
| GitRebaseContinue (dir : str) : Call (result RebaseStepResult GitFailure)
| GitAbortRebase (dir : str) : Call (result unit GitFailure)
| GitListConflictedFiles (dir : str) : Call (result (list str) GitFailure)
| GitListStagedMarkerFiles (dir : str) (files : list str) : Call (result (list str) GitFailure)
| GitStageAll (dir : str) : Call (result unit GitFailure)
| GitHasUnmergedPaths (dir : str) : Call (result bool GitFailure)
| GitRunPreCommitHook (dir : str) : Call (result unit GitFailure)
| GitHeadHash (dir : str) : Call (result str GitFailure)
| GitHeadShortHash (dir : str) : Call (result str GitFailure)
| GitHeadCommitMessage (dir : str) : Call (result (option str) GitFailure)
| GitRefHash (dir ref : str) : Call (result str GitFailure)
| GitSquashMergeDiff (root source base : str) : Call (result str GitFailure)
| GitSquashMerge (root source base message : str) : Call (result SquashMergeOutcome GitFailure)
| GitRemoveWorktree (dir : str) : Call (result unit GitFailure)
| GitDeleteBranch (root branch : str) : Call (result unit GitFailure)
| GitFetchRemote (dir : str) : Call (result unit GitFailure)
| GitAheadBehind (dir : str) : Call (result (Z * Z) GitFailure)
| GitUpstreamTitles (dir : str) : Call (result (list str) GitFailure)
| GitLocalTitles (dir : str) : Call (result (list str) GitFailure)
| GitPullRebase (dir : str) : Call (result PullRebaseResult GitFailure)
| GitPushCurrentBranch (dir : str) : Call (result unit GitFailure)
| GitDiff (dir base : str) : Call (result str GitFailure)
| GitHasCommitsSince (dir base : str) : Call (result bool GitFailure)
| GitDiffChangedFiles (dir base : str) : Call (result (list str) GitFailure)
| GitCommitAll (dir base message : str) : Call (result unit GitFailure)
| GitCheckPreCommitHook (dir : str) : Call (result unit GitFailure)
(* files *)
| ReadFile (path : str) : Call (result str str)
| RemoveDirAll (path : str) : Call (result unit str)
(* database *)
| DbBaseBranch (k : SessionId) : Call (result (option str) str)
| DbPublishedUpstream (k : SessionId) : Call (result (option str) str)
| DbStackBase (k : SessionId) : Call (result (option str) str)
| DbSetStackBase (k : SessionId) (h : option str) : Call (result unit str)
| DbParent (k : SessionId) : Call (result (option str) str)
| DbSessionProject (k : SessionId) : Call (result (option Z) str)
| DbCoauthorSetting (project : Z) : Call (result (option str) str)
| DbClearFocusedReview (k : SessionId) : Call (result unit str)
| DbSetTitle (k : SessionId) (title : str) : Call (result unit str)
| DbSetMergedHash (k : SessionId) (h : str) : Call (result unit str)
| DbArchiveDiff (k : SessionId) (diff : str) : Call (result unit str)
| DbPersistStatus (k : SessionId) (status : SessionStatus) : Call (result unit str)
| DbRestackChildren (k : SessionId) (base : str) (tip : option str) : Call (result (list str) str)
| DbUnfinishedRebase (k : SessionId) : Call (result bool str)
| LiveNotices (k : SessionId) : Call (list str)
| AppendNotice (k : SessionId) (message : str) : Call (result unit str)
(* agents and workers *)
| AgentAssist (route : AssistRoute) (prompt : str) : Call (result unit SessionError)
| AgentCommitAnswer (dir : str) (input : CommitInput) (current : option str) : Call (result str SessionError)
| EnqueueRebase (k : SessionId) (base : str) : Call (result unit SessionError)
| EnqueueExistingRebase (k : SessionId) (base : str) : Call (result Z SessionError)
(* the application *)
| NextUpdateVersion (k : SessionId) : Call Z
| NewOperationId : Call str
| Emit (e : FlowEvent) : Call unit
| LockBranch (k : SessionId) : Call unit
| UnlockBranch (k : SessionId) : Call unit
| SpawnMergeTask (k : SessionId) (base root : str) : Call unit
| SpawnAutoPush (k : SessionId) (upstream operation : str) : Call unit.

Inductive Effect : Type := Did (A : Set) (c : Call A) (a : A).

Record World := mkWorld { effects : list Effect; live_status : SessionStatus }.

Class FlowHost := {
  host_answer : ∀ A : Set, nat → Call A → A;
  host_status : nat → SessionStatus → SessionStatus
}.

(** The texts of the prompt templates. *)
Class FlowTemplates := {
  render_rebase_assist : str → str → str → result str str;
  rebase_hook_repair_prompt : str;
  render_auto_commit_assist : str → result str str
}.

(** ** Results with a run *)

(** A failure, or the panic of a slice inside a character. *)
Inductive FlowStop := Failed (e : SessionError) | Panicked.

Definition Flow (A : Type) : Type := World → result A FlowStop * World.
#[global] Instance Flow_ret : MRet Flow := λ A a w, (Ok a, w).
#[global] Instance Flow_bind : MBind Flow := λ A B f m w,
  match m w with (Ok a, w') => f a w' | (Err e, w') => (Err e, w') end.

Definition fail {A} (e : SessionError) : Flow A := λ w, (Err (Failed e), w).
Definition expect {A} (o : option A) : Flow A := λ w, (match o with Some a => Ok a | None => Err Panicked end, w).
Definition or_fail {A E} (r : result A E) (f : E → SessionError) : Flow A :=
  match r with Ok a => mret a | Err e => fail (f e) end.

(** [if let Err(error) = ...]: an error is a value, a panic is not. *)
Definition attempt {A} (m : Flow A) : Flow (result A SessionError) := λ w,
  match m w with
  | (Ok a, w') => (Ok (Ok a), w')
  | (Err (Failed e), w') => (Ok (Err e), w')
  | (Err Panicked, w') => (Err Panicked, w')
  end.

Definition ok {A E} (r : result A E) : option A := match r with Ok a => Some a | Err _ => None end.

Section flow.
Context `{!FlowHost}.

Definition call {A : Set} (c : Call A) : Flow A := λ w,
  let a := host_answer A (length (effects w)) c in (Ok a, mkWorld (effects w ++ [Did A c a]) (live_status w)).

Definition git {A : Set} (c : Call (result A GitFailure)) : Flow A := r ← call c; or_fail r GitError.
Definition db {A : Set} (c : Call (result A str)) : Flow A := r ← call c; or_fail r DbError.
Definition best_effort {A : Set} (c : Call A) : Flow unit := _ ← call c; mret tt.
Definition emit (e : FlowEvent) : Flow unit := call (Emit e).

(** ** Status transitions (task.rs) *)

Definition emit_session_updated (k : SessionId) : Flow unit :=
  version ← call (NextUpdateVersion k); emit (SessionUpdated k version).

Definition status_requires_full_refresh (s : SessionStatus) : bool :=
  match s with InProgress | Review | Merging | Merged | Done | Canceled => true | _ => false end.

Definition send_session_and_project_refresh_events : Flow unit := _ ← emit RefreshSessions; emit RefreshProjects.

(** The transition under the lock of the status. *)
Definition try_transition (new : SessionStatus) : Flow bool := λ w,
  let current := host_status (length (effects w)) (live_status w) in
  if SessionStatus_can_transition_to current new then (Ok true, mkWorld (effects w) new)
  else (Ok false, mkWorld (effects w) current).

Definition update_status (k : SessionId) (new : SessionStatus) : Flow bool :=
  should_update ← try_transition new;
  if (should_update : bool) then
    _ ← call (DbPersistStatus k new);
    _ ← emit_session_updated k;
    _ ← (if status_requires_full_refresh new then send_session_and_project_refresh_events else mret tt);
    mret true
  else mret false.

Definition apply_or_invalid_transition (k : SessionId) (new : SessionStatus) : Flow unit :=
  applied ← update_status k new;
  if (applied : bool) then mret tt
  else fail (Workflow (L"Invalid status transition to " ++ SessionStatus_display new)).

(** ** Notices *)

Definition append_workflow_notice (k : SessionId) (message : str) : Flow unit :=
  _ ← call (AppendNotice k message); emit_session_updated k.

Definition emit_session_workflow_notice (k : SessionId) (message : str) : Flow unit :=
  emit (SessionWorkflowNoticeUpdated message k).

Definition request_git_status_refresh : Flow unit := emit RefreshGitStatus.

Definition set_session_progress (k : SessionId) (progress_message : option str) : Flow unit :=
  emit (SessionProgressUpdated progress_message k).

Definition clear_session_progress (k : SessionId) : Flow unit := set_session_progress k None.

Definition append_assist_header (k : SessionId) (notice : TranscriptNotice) (assist_attempt max_assist_attempts : nat)
    (assist_action detail : str) : Flow unit :=
  append_workflow_notice k (format_notice notice
    (L"Attempt " ++ display_nat assist_attempt ++ L"/" ++ display_nat max_assist_attempts ++ L". " ++ assist_action
       ++ [newline] ++ detail)).
End flow.
