(* ===== verification/Commits.v ===== *)
(** * Commits of session work (crates/agentty/src/app/session/workflow/task.rs,
    app/session/workflow/merge.rs)

    A session keeps one commit whose message an agent writes; a failing commit is
    repaired by an agent for a bounded number of attempts.  The prompts of the
    commit message and the agent that answers are the host's. *)
From stdpp Require Import gmap.
From S2P Require Import Prelude Contracts Agent Lifecycle Transcript Transient Prompt Input Review Json Session SessionState FileEntry SessionManager Flow.

(** ** Messages *)

Definition INPUT_SIZE_SIGNATURES : list str :=
  [L"contextwindowexceeded"; L"context_window_exceeded"; L"context window exceeded";
   L"input exceeds the maximum length"; L"maximum context length"; L"prompt is too long"].

(** [ag_contracts::is_input_size_error]. *)
Definition is_input_size_text (message : str) : bool :=
  existsb (str_contains (map ascii_lower message)) INPUT_SIZE_SIGNATURES.

Definition is_input_size_error (error : SessionError) : bool :=
  match error with
  | OneShotError m | Workflow m => is_input_size_text m
  | _ => false
  end.

Definition COAUTHOR_TRAILER : str := L"Co-Authored-By: [Agentty](https://github.com/agentty-xyz/agentty)".
Definition DEFAULT_TITLE : str := L"Apply session updates".

Definition is_trailer (line : str) : bool := str_eqb (trim line) COAUTHOR_TRAILER.

Definition strip_agentty_coauthor_trailer (commit_message : str) : str :=
  join [newline] (List.filter (λ line, negb (is_trailer line)) (str_lines commit_message)).

Definition first_line (text : str) : str :=
  default DEFAULT_TITLE (list_find_b (λ line, negb (is_empty line)) (trim <$> str_lines text)).

Definition fallback_session_commit_message (current_commit_message : option str) : str :=
  let stripped := default [] (strip_agentty_coauthor_trailer <$> current_commit_message) in
  if is_empty (trim stripped) then DEFAULT_TITLE else first_line stripped.

Definition validate_generated_commit_message (commit_message : str) : result unit SessionError :=
  if existsb is_trailer (str_lines commit_message)
  then Err (Workflow (L"Session commit message model must not emit the Agentty coauthor trailer"))
  else Ok tt.

Definition append_agentty_coauthor_trailer (commit_message : str) (include : bool) : str :=
  let trimmed := trim commit_message in
  if negb include || is_empty trimmed then trimmed
  else trimmed ++ [newline; newline] ++ COAUTHOR_TRAILER.

Definition session_title_from_commit_message (commit_message : str) : str :=
  let trimmed := trim commit_message in
  if is_empty trimmed then DEFAULT_TITLE else first_line trimmed.

Definition AUTO_COMMIT_ERROR_TRUNCATION_LIMIT : N := 20000.
Definition TRUNCATED_SECTION_MARKER : str := L"[Commit error was truncated to fit context window]".

Definition compact_commit_error_for_assist (commit_error : str) : str :=
  if negb (is_input_size_text commit_error) then commit_error
  else if (N.of_nat (length commit_error) <=? AUTO_COMMIT_ERROR_TRUNCATION_LIMIT)%N then commit_error
  else
    let half_limit := N.to_nat (AUTO_COMMIT_ERROR_TRUNCATION_LIMIT / 2) in
    take half_limit commit_error ++ [newline; newline] ++ TRUNCATED_SECTION_MARKER ++ [newline; newline]
      ++ rev (take half_limit (rev commit_error)).

Record SessionCommitOutcome := mkCommitOutcome { commit_hash : str; commit_message : str }.

Inductive AutoCommitOutcome := AutoCommitted (outcome : SessionCommitOutcome) | NoChanges | AutoCommitFailed.

Definition AUTO_COMMIT_ASSIST_POLICY : AssistPolicy := mkPolicy 10 3.
Definition COMMITTING_PROGRESS_LABEL : str := L"Committing...".

Section commits.
Context `{!FlowHost, !FlowTemplates, !JsonEscape}.

(** ** Committing *)

Definition load_include_coauthored_by_agentty_setting (k : SessionId) : Flow bool :=
  project ← call (DbSessionProject k);
  match project with
  | Ok (Some p) =>
      value ← call (DbCoauthorSetting p);
      mret match value with Ok (Some v) => str_eqb v (L"true") | _ => false end
  | _ => mret false
  end.

Definition generate_session_commit_message (dir : str) (input : CommitInput) (current_commit_message : option str)
    (include : bool) : Flow str :=
  answer ← call (AgentCommitAnswer dir input current_commit_message);
  answer_text ← or_fail answer (λ e, e);
  let trimmed := trim answer_text in
  let message := if is_empty trimmed then fallback_session_commit_message current_commit_message else trimmed in
  _ ← or_fail (validate_generated_commit_message message) (λ e, e);
  mret (append_agentty_coauthor_trailer message include).

Definition commit_session_changes (dir base_branch : str) (include : bool) : Flow SessionCommitOutcome :=
  clean ← git (GitIsWorktreeClean dir);
  if (clean : bool) then fail (Workflow (L"Nothing to commit: no changes detected"))
  else
    diff ← git (GitDiff dir base_branch);
    has_session_commit ← git (GitHasCommitsSince dir base_branch);
    current_commit_message ← (if (has_session_commit : bool) then git (GitHeadCommitMessage dir) else mret None);
    generated ← attempt (generate_session_commit_message dir (InputDiff diff) current_commit_message include);
    message ← (match generated with
      | Err e =>
          if is_input_size_error e then
            changed_files ← git (GitDiffChangedFiles dir base_branch);
            generate_session_commit_message dir (InputFallback changed_files) current_commit_message include
          else fail e
      | Ok message => mret message
      end);
    _ ← git (GitCommitAll dir base_branch message);
    h ← git (GitHeadShortHash dir);
    mret (mkCommitOutcome h message).

Definition commit_changes_with_git_client (k : SessionId) (dir : str) : Flow SessionCommitOutcome :=
  base ← db (DbBaseBranch k);
  match base with
  | None => fail (Workflow (L"Missing session base branch for auto-commit"))
  | Some base_branch =>
      include ← load_include_coauthored_by_agentty_setting k;
      commit_session_changes dir base_branch include
  end.

Definition update_session_title_from_commit_message (k : SessionId) (message : str) : Flow unit :=
  _ ← call (DbSetTitle k (session_title_from_commit_message message));
  emit RefreshSessions.

(** ** Repairing a failing commit *)

Definition run_commit_assist_for_error (commit_error : str) : Flow unit :=
  match render_auto_commit_assist (json_string (trim (compact_commit_error_for_assist commit_error))) with
  | Err error => fail (Workflow (L"Failed to render `auto_commit_assist_prompt.md`: " ++ error))
  | Ok prompt =>
      r ← call (AgentAssist RouteOneShot prompt);
      or_fail r (λ e, with_context e (L"Commit assistance failed"))
  end.

Definition index_lock_message (error : GitFailure) : str :=
  L"Auto-commit blocked by a Git index lock after retries. Wait for any active Git operation to finish, then retry. If the lock persists, have the repository owner confirm it is stale before removing it. Linked-worktree locks may be outside the session workspace. Agentty left the lock and your changes intact; commit assistance cannot repair this failure."
    ++ [newline; newline] ++ GitFailure_display error.

Definition NOTHING_TO_COMMIT : str := L"Nothing to commit".

(** What an attempt that failed with [e] leads to: an end or a repair. *)
Inductive CommitVerdict := CommitEnds (r : result (option SessionCommitOutcome) SessionError) | CommitRepairs (error : str).

Definition judge_commit_error (tracker : FailureTracker) (assist_attempt : nat) (e : SessionError)
  : CommitVerdict * FailureTracker :=
  let text := SessionError_display e in
  let assisted :=
    let '(repeated, tracker) := observe tracker text in
    if (repeated : bool) then
      (CommitEnds (Err (Workflow (L"Auto-commit assistance made no progress: repeated identical commit failure. Last error: " ++ text))), tracker)
    else if bool_decide (max_attempts AUTO_COMMIT_ASSIST_POLICY < assist_attempt)
    then (CommitEnds (Err e), tracker) else (CommitRepairs text, tracker) in
  if str_contains text NOTHING_TO_COMMIT then (CommitEnds (Ok None), tracker)
  else
    match e with
    | GitError f => if is_index_locked f then (CommitEnds (Err (Workflow (index_lock_message f))), tracker) else assisted
    | _ => if is_input_size_error e then (CommitEnds (Err e), tracker) else assisted
    end.

(** The attempts [assist_attempt], [assist_attempt] + 1, ... of which [remaining] are left. *)
Fixpoint commit_attempts (k : SessionId) (dir : str) (remaining assist_attempt : nat) (tracker : FailureTracker)
  : Flow (option SessionCommitOutcome) :=
  match remaining with
  | O => fail (Workflow (L"Failed to auto-commit after assistance attempts"))
  | S remaining =>
      committed ← attempt (commit_changes_with_git_client k dir);
      match committed with
      | Ok outcome => mret (Some outcome)
      | Err e =>
          let '(verdict, tracker) := judge_commit_error tracker assist_attempt e in
          match verdict with
          | CommitEnds (Ok r) => mret r
          | CommitEnds (Err e) => fail e
          | CommitRepairs text =>
              _ ← append_assist_header k NoticeCommitAssist assist_attempt (max_attempts AUTO_COMMIT_ASSIST_POLICY)
                    (L"Resolving auto-commit failure:") (format_detail_lines text);
              _ ← run_commit_assist_for_error text;
              commit_attempts k dir remaining (S assist_attempt) tracker
          end
      end
  end.

Definition commit_changes_with_assist (k : SessionId) (dir : str) : Flow (option SessionCommitOutcome) :=
  commit_attempts k dir (S (max_attempts AUTO_COMMIT_ASSIST_POLICY)) 1
    (FailureTracker_new (policy_max_streak AUTO_COMMIT_ASSIST_POLICY)).

(** ** The automatic commit of a turn *)

Definition append_pre_commit_hook_warning (k : SessionId) (dir : str) : Flow unit :=
  ready ← call (GitCheckPreCommitHook dir);
  match ready with
  | Err (PreCommitHookMissing c) =>
      let message := format_notice NoticeCommitWarning (GitFailure_display (PreCommitHookMissing c)) in
      notices ← call (LiveNotices k);
      if existsb (str_eqb message) notices then mret tt else append_workflow_notice k message
  | _ => mret tt
  end.

Definition committed_notice (outcome : SessionCommitOutcome) : str :=
  format_line NoticeCommit (L"committed with hash `" ++ commit_hash outcome ++ L"`").

Definition handle_auto_commit (k : SessionId) (dir : str) : Flow AutoCommitOutcome :=
  _ ← set_session_progress k (Some COMMITTING_PROGRESS_LABEL);
  committed ← attempt (commit_changes_with_assist k dir);
  outcome ← (match committed with
    | Ok (Some outcome) =>
        _ ← append_pre_commit_hook_warning k dir;
        _ ← update_session_title_from_commit_message k (commit_message outcome);
        _ ← emit_session_workflow_notice k (committed_notice outcome);
        _ ← request_git_status_refresh;
        mret (AutoCommitted outcome)
    | Ok None =>
        _ ← emit_session_workflow_notice k (format_line NoticeCommit (L"No changes to commit."));
        mret NoChanges
    | Err e =>
        _ ← append_workflow_notice k (format_notice NoticeCommitError (SessionError_display e));
        mret AutoCommitFailed
    end);
  _ ← clear_session_progress k;
  mret outcome.
End commits.
