(* ===== verification/RebaseFlow.v ===== *)
(** * Assisted rebases (crates/agentty/src/app/session/workflow/merge.rs)

    A session branch is rebased onto its base, a project branch onto its
    upstream.  Conflicts and rejections of the pre-commit hook go to an agent for
    a bounded number of attempts; whatever fails, the rebase is aborted. *)
From stdpp Require Import gmap.
From S2P Require Import Prelude Contracts Agent Lifecycle Transcript Transient Prompt Input Review Json Session SessionState FileEntry SessionManager Flow Commits.

Definition REBASE_ASSIST_POLICY : AssistPolicy := mkPolicy 3 3.

(** ** Inputs *)

Inductive RebaseAssistWorkspace := SessionWorktree | MainCheckout.

Definition note (self : RebaseAssistWorkspace) : str :=
  match self with
  | SessionWorktree =>
      L"You are working inside the session's isolated git worktree; keep every change inside this worktree and never touch the repository's main checkout."
  | MainCheckout =>
      L"You are working inside the user's main repository checkout for a user-approved sync; change only the conflicted files listed below."
  end.

Inductive RebaseAssistMode := ExistingSession | OneShot.

Inductive RebasePlan := Target (target : str) | Onto (new_base old_base : str).

Definition target_label (self : RebasePlan) : str := match self with Target t => t | Onto new_base _ => new_base end.
Definition plan_old_base (self : RebasePlan) : option str :=
  match self with Target _ => None | Onto _ old_base => Some old_base end.

Record RebaseAssistInput := mkRebaseInput {
  assist_mode : RebaseAssistMode;
  assist_folder : str;
  assist_id : SessionId;
  rebase_plan : RebasePlan
}.

Record SyncRebaseAssistInput := mkSyncInput {
  sync_base_branch : str;
  event_context : option ProjectSyncContext;
  sync_folder : str
}.

Inductive RebaseAssistLoopInput := SessionInput (i : RebaseAssistInput) | ProjectInput (i : SyncRebaseAssistInput).

Definition input_folder (self : RebaseAssistLoopInput) : str :=
  match self with SessionInput i => assist_folder i | ProjectInput i => sync_folder i end.

(** ** Error texts *)

Definition sync_prefix (self : RebaseAssistLoopInput) (session project : str) : str :=
  match self with SessionInput _ => session | ProjectInput _ => project end.

Definition repeated_conflict_state_error (self : RebaseAssistLoopInput) (detail : str) : str :=
  sync_prefix self (L"Rebase") (L"Sync rebase")
    ++ L" assistance made no progress: repeated identical conflict state. Last detail: " ++ detail.

Definition unchanged_conflict_files_error (self : RebaseAssistLoopInput) : str :=
  sync_prefix self (L"Rebase") (L"Sync rebase") ++ L" assistance made no progress: conflicted files did not change".

Definition still_conflicted_error (self : RebaseAssistLoopInput) (detail : str) : str :=
  sync_prefix self (L"Rebase") (L"Sync rebase") ++ L" still has conflicts after assistance: " ++ detail.

Definition exhausted_error (self : RebaseAssistLoopInput) : str :=
  sync_prefix self (L"Failed to complete assisted rebase") (L"Failed to complete assisted sync rebase").

(** ** Conflicted files *)

Definition sort_texts (files : list str) : list str :=
  sort_by str_leb files.

Definition has_text (file : str) (files : list str) : bool := existsb (str_eqb file) files.

Definition push_missing (files : list str) (file : str) : list str :=
  if has_text file files then files else files ++ [file].

Definition extend_resolved_conflict_files (resolved conflict_files : list str) : list str :=
  sort_texts (fold_left push_missing conflict_files resolved).

Definition format_conflicted_file_list (conflicted_files : list str) : str :=
  format_detail_lines (join [newline] conflicted_files).

(** [Path::join]. *)
Definition join_path (folder file : str) : str :=
  if starts_with file (L"/") then file
  else if is_empty folder || ends_with folder (L"/") then folder ++ file else folder ++ L"/" ++ file.

(** [DefaultHasher] over the sorted paths with the contents that could be read. *)
Class ContentHasher := content_hash : list (str * option str) → Z.

Definition hex_digit (z : Z) : char := Z.to_N (if (z <? 10)%Z then 48 + z else 87 + z)%Z.

Fixpoint hex_digits (width : nat) (z : Z) : str :=
  match width with
  | O => []
  | S width => hex_digits width (z / 16)%Z ++ [hex_digit (z mod 16)%Z]
  end.

Definition is_stale_rebase_state_error (error : str) : bool :=
  let normalized := map ascii_lower error in
  str_contains normalized (L"already a rebase-merge directory")
  || str_contains normalized (L"already a rebase-apply directory")
  || str_contains normalized (L"middle of another rebase").

Inductive RebaseAssistAttemptOutcome := AttemptContinue | AttemptCompleted.

(** What the attempts carry along: the tracker, the files that were resolved and
    the files of the attempt before. *)
Record AssistState := mkAssist {
  failure_tracker : FailureTracker;
  resolved_conflict_files : list str;
  previous_conflict_files : list str
}.

Section rebase.
Context `{!FlowHost, !FlowTemplates, !JsonEscape, !ContentHasher}.

Definition load_rebase_conflicted_files (dir : str) (previous : list str) : Flow (list str) :=
  conflicted ← git (GitListConflictedFiles dir);
  staged_with_markers ← git (GitListStagedMarkerFiles dir previous);
  mret (sort_texts (fold_left push_missing staged_with_markers conflicted)).

Fixpoint read_contents (dir : str) (files : list str) : Flow (list (str * option str)) :=
  match files with
  | [] => mret []
  | file :: rest =>
      content ← call (ReadFile (join_path dir file));
      others ← read_contents dir rest;
      mret ((file, ok content) :: others)
  end.

Definition conflicted_file_fingerprint (dir : str) (conflicted_files : list str) : Flow str :=
  contents ← read_contents dir (sort_texts conflicted_files);
  mret (hex_digits 16 (content_hash contents)).

(** ** Assistance *)

Definition rebase_assist_prompt (base_branch : str) (conflicted_files : list str) (workspace : RebaseAssistWorkspace)
  : Flow str :=
  or_fail (render_rebase_assist base_branch (format_conflicted_file_list conflicted_files) (note workspace))
    (λ error, Workflow (L"Failed to render `rebase_assist_prompt.md`: " ++ error)).

Definition assist_route (mode : RebaseAssistMode) : AssistRoute :=
  match mode with ExistingSession => RouteExistingSession | OneShot => RouteOneShot end.

Definition run_rebase_assist_prompt (i : RebaseAssistInput) (prompt : str) : Flow unit :=
  r ← call (AgentAssist (assist_route (assist_mode i)) prompt);
  or_fail r (λ e, with_context e (L"Rebase assistance failed")).

Definition run_rebase_assist_agent (i : RebaseAssistInput) (conflicted_files : list str) : Flow unit :=
  prompt ← rebase_assist_prompt (target_label (rebase_plan i)) conflicted_files SessionWorktree;
  run_rebase_assist_prompt i prompt.

Definition run_sync_rebase_assist_agent (i : SyncRebaseAssistInput) (conflicted_files : list str) : Flow unit :=
  prompt ← rebase_assist_prompt (sync_base_branch i) conflicted_files MainCheckout;
  r ← call (AgentAssist RouteSync prompt);
  or_fail r (λ e, with_context e (L"Sync rebase assistance failed")).

Definition append_rebase_assist_header (i : RebaseAssistInput) (assist_attempt : nat) (conflicted_files : list str)
  : Flow unit :=
  append_assist_header (assist_id i) NoticeRebaseAssist assist_attempt (max_attempts REBASE_ASSIST_POLICY)
    (L"Resolving conflicts in:") (format_conflicted_file_list conflicted_files).

Definition emit_sync_rebase_conflict_status (i : SyncRebaseAssistInput) (conflicted_files : list str) : Flow unit :=
  match event_context i with
  | None => mret tt
  | Some operation => emit (SyncMainConflictResolutionStarted conflicted_files operation)
  end.

Definition run_assist_attempt (self : RebaseAssistLoopInput) (assist_attempt : nat) (conflicted_files : list str)
  : Flow unit :=
  match self with
  | SessionInput i =>
      _ ← append_rebase_assist_header i assist_attempt conflicted_files; run_rebase_assist_agent i conflicted_files
  | ProjectInput i =>
      _ ← emit_sync_rebase_conflict_status i conflicted_files; run_sync_rebase_assist_agent i conflicted_files
  end.

Definition stage_and_check_rebase_conflicts (dir : str) (conflict_files : list str) : Flow bool :=
  _ ← git (GitStageAll dir);
  unmerged ← git (GitHasUnmergedPaths dir);
  if (unmerged : bool) then mret true
  else
    staged_with_markers ← git (GitListStagedMarkerFiles dir conflict_files);
    mret (negb (is_empty staged_with_markers)).

(** ** The pre-commit hook *)

Definition repair_pre_commit_failure (self : RebaseAssistLoopInput) (detail : str) (repair_attempt : nat) : Flow unit :=
  let prompt := rebase_hook_repair_prompt ++ [newline] ++ detail in
  match self with
  | SessionInput i =>
      _ ← append_assist_header (assist_id i) NoticeRebaseAssist repair_attempt (max_attempts REBASE_ASSIST_POLICY)
            (L"Repairing pre-commit hook failure:") detail;
      run_rebase_assist_prompt i prompt
  | ProjectInput _ =>
      r ← call (AgentAssist RouteSync prompt);
      or_fail r (λ e, with_context e (L"Sync rebase hook repair failed"))
  end.

(** The loop with [repairs] repairs left of which [repair_attempt] were made. *)
Fixpoint hook_loop (self : RebaseAssistLoopInput) (repairs repair_attempt : nat) : Flow unit :=
  r ← call (GitRunPreCommitHook (input_folder self));
  match r with
  | Ok _ => mret tt
  | Err error =>
      let detail := L"Pre-commit hook rejected resolved rebase conflicts: " ++ GitFailure_display error in
      match repairs with
      | O => fail (Workflow detail)
      | S repairs =>
          _ ← repair_pre_commit_failure self detail (S repair_attempt);
          _ ← git (GitStageAll (input_folder self));
          hook_loop self repairs (S repair_attempt)
      end
  end.

Definition run_pre_commit_hook (self : RebaseAssistLoopInput) : Flow unit :=
  hook_loop self (max_attempts REBASE_ASSIST_POLICY) 0.

(** ** One attempt *)

Definition record_rebase_conflict_detail (self : RebaseAssistLoopInput) (st : AssistState) (assist_attempt : nat)
    (detail : str) : Flow AssistState :=
  let '(repeated, tracker) := observe (failure_tracker st) detail in
  if (repeated : bool) then fail (Workflow (repeated_conflict_state_error self detail))
  else if assist_attempt =? max_attempts REBASE_ASSIST_POLICY then fail (Workflow (still_conflicted_error self detail))
  else mret (mkAssist tracker (resolved_conflict_files st) (previous_conflict_files st)).

Definition evaluate_rebase_continue_step (self : RebaseAssistLoopInput) (st : AssistState) (assist_attempt : nat)
    (step : RebaseStepResult) : Flow (RebaseAssistAttemptOutcome * AssistState) :=
  match step with
  | StepCompleted => mret (AttemptCompleted, st)
  | StepConflict detail =>
      st ← record_rebase_conflict_detail self st assist_attempt detail;
      mret (AttemptContinue, st)
  end.

Definition continue_rebase_after_assist_attempt (self : RebaseAssistLoopInput) (st : AssistState) (assist_attempt : nat)
  : Flow (RebaseAssistAttemptOutcome * AssistState) :=
  _ ← run_pre_commit_hook self;
  step ← git (GitRebaseContinue (input_folder self));
  evaluate_rebase_continue_step self st assist_attempt step.

Definition evaluate_remaining_assist_conflicts (st : AssistState) (assist_attempt : nat)
  : Flow (RebaseAssistAttemptOutcome * AssistState) :=
  if assist_attempt =? max_attempts REBASE_ASSIST_POLICY
  then fail (Workflow (L"Conflicts remain unresolved after maximum assistance attempts"))
  else mret (AttemptContinue, st).

Definition record_conflicted_file_fingerprint (self : RebaseAssistLoopInput) (st : AssistState)
    (conflicted_files : list str) : Flow AssistState :=
  fingerprint ← conflicted_file_fingerprint (input_folder self) conflicted_files;
  let '(repeated, tracker) := observe (failure_tracker st) fingerprint in
  if (repeated : bool) then fail (Workflow (unchanged_conflict_files_error self))
  else mret (mkAssist tracker (resolved_conflict_files st) (previous_conflict_files st)).

Definition resolve_conflicted_files_with_assist (self : RebaseAssistLoopInput) (st : AssistState)
    (assist_attempt : nat) (conflicted_files : list str) : Flow (RebaseAssistAttemptOutcome * AssistState) :=
  st ← record_conflicted_file_fingerprint self st conflicted_files;
  let resolved := extend_resolved_conflict_files (resolved_conflict_files st) conflicted_files in
  _ ← run_assist_attempt self assist_attempt conflicted_files;
  still_has_conflicts ← stage_and_check_rebase_conflicts (input_folder self) conflicted_files;
  let st := mkAssist (failure_tracker st) resolved conflicted_files in
  if (still_has_conflicts : bool) then evaluate_remaining_assist_conflicts st assist_attempt
  else continue_rebase_after_assist_attempt self st assist_attempt.

Definition run_rebase_assist_attempt (self : RebaseAssistLoopInput) (st : AssistState) (assist_attempt : nat)
  : Flow (RebaseAssistAttemptOutcome * AssistState) :=
  conflicted_files ← load_rebase_conflicted_files (input_folder self) (previous_conflict_files st);
  if is_empty conflicted_files then continue_rebase_after_assist_attempt self st assist_attempt
  else resolve_conflicted_files_with_assist self st assist_attempt conflicted_files.

(** ** The loop *)

Definition rebase_failure_tracker_with_initial_detail (initial_conflict_detail : option str) : FailureTracker :=
  let tracker := FailureTracker_new (policy_max_streak REBASE_ASSIST_POLICY) in
  match initial_conflict_detail with Some detail => (observe tracker detail).2 | None => tracker end.

(** The attempts from [assist_attempt] on, [remaining] in number. *)
Fixpoint assist_attempts (self : RebaseAssistLoopInput) (remaining assist_attempt : nat) (st : AssistState)
  : Flow (list str) :=
  match remaining with
  | O => fail (Workflow (exhausted_error self))
  | S remaining =>
      attempted ← run_rebase_assist_attempt self st assist_attempt;
      let '(outcome, st) := attempted in
      match outcome with
      | AttemptCompleted => mret (resolved_conflict_files st)
      | AttemptContinue => assist_attempts self remaining (S assist_attempt) st
      end
  end.

Definition run_rebase_assist_attempts (self : RebaseAssistLoopInput) (initial_conflict_detail : option str)
  : Flow (list str) :=
  assist_attempts self (max_attempts REBASE_ASSIST_POLICY) 1
    (mkAssist (rebase_failure_tracker_with_initial_detail initial_conflict_detail) [] []).

Definition abort_rebase_after_assist_failure (dir : str) : Flow unit := best_effort (GitAbortRebase dir).

Definition run_rebase_assist_loop_core (self : RebaseAssistLoopInput) (initial_conflict_detail : option str)
  : Flow (list str) :=
  assisted ← attempt (run_rebase_assist_attempts self initial_conflict_detail);
  match assisted with
  | Ok files => mret files
  | Err error => _ ← abort_rebase_after_assist_failure (input_folder self); fail error
  end.

(** ** Rebasing a session *)

Definition start_git_rebase (dir : str) (plan : RebasePlan) : Flow (result RebaseStepResult GitFailure) :=
  match plan with
  | Target target => call (GitRebaseStart dir target)
  | Onto new_base old_base => call (GitRebaseOntoStart dir new_base old_base)
  end.

Definition recover_from_stale_rebase_start_error (dir start_error : str) : Flow unit :=
  r ← call (GitAbortRebase dir);
  or_fail r (λ abort_error, Workflow
    (L"Detected stale rebase metadata after failed rebase start: " ++ start_error
       ++ L". Cleanup with `git rebase --abort` failed: " ++ GitFailure_display abort_error)).

Definition run_rebase_start (i : RebaseAssistInput) : Flow RebaseStepResult :=
  started ← start_git_rebase (assist_folder i) (rebase_plan i);
  match started with
  | Ok step => mret step
  | Err error =>
      let error_string := GitFailure_display error in
      if negb (is_stale_rebase_state_error error_string) then fail (Workflow error_string)
      else
        _ ← recover_from_stale_rebase_start_error (assist_folder i) error_string;
        again ← start_git_rebase (assist_folder i) (rebase_plan i);
        or_fail again GitError
  end.

Definition run_rebase_assist_loop (i : RebaseAssistInput) : Flow unit :=
  in_progress ← git (GitIsRebaseInProgress (assist_folder i));
  if (in_progress : bool) then _ ← run_rebase_assist_loop_core (SessionInput i) None; mret tt
  else
    step ← run_rebase_start i;
    match step with
    | StepCompleted => mret tt
    | StepConflict detail => _ ← run_rebase_assist_loop_core (SessionInput i) (Some detail); mret tt
    end.

Definition persist_stack_base_after_successful_rebase (i : RebaseAssistInput) : Flow unit :=
  parent ← db (DbParent (assist_id i));
  match parent with
  | Some _ =>
      target_hash ← git (GitRefHash (assist_folder i) (target_label (rebase_plan i)));
      db (DbSetStackBase (assist_id i) (Some target_hash))
  | None =>
      match plan_old_base (rebase_plan i) with
      | Some _ => db (DbSetStackBase (assist_id i) None)
      | None => mret tt
      end
  end.

(** The commit of pending changes before a rebase. *)
Definition commit_pending_changes (i : RebaseAssistInput) : Flow unit :=
  include ← load_include_coauthored_by_agentty_setting (assist_id i);
  committed ← attempt (commit_session_changes (assist_folder i) (target_label (rebase_plan i)) include);
  match committed with
  | Ok outcome =>
      _ ← update_session_title_from_commit_message (assist_id i) (commit_message outcome);
      _ ← emit_session_workflow_notice (assist_id i) (committed_notice outcome);
      request_git_status_refresh
  | Err error =>
      if str_contains (SessionError_display error) NOTHING_TO_COMMIT then
        emit_session_workflow_notice (assist_id i) (format_line NoticeCommit (L"No changes to commit."))
      else fail (Workflow (L"Failed to commit pending changes before sync: " ++ SessionError_display error))
  end.

Definition execute_rebase_workflow (i : RebaseAssistInput) : Flow str :=
  _ ← commit_pending_changes i;
  rebased ← attempt (run_rebase_assist_loop i);
  match rebased with
  | Err error =>
      _ ← abort_rebase_after_assist_failure (assist_folder i);
      fail (Workflow (L"Failed to sync: " ++ SessionError_display error))
  | Ok _ =>
      _ ← persist_stack_base_after_successful_rebase i;
      source_branch ← expect (session_branch (assist_id i));
      mret (L"Successfully synced " ++ source_branch ++ L" onto " ++ target_label (rebase_plan i))
  end.

(** ** The rebase command of a worker *)

Definition resolve_session_rebase_target (dir : str) (k : SessionId) (base_branch : str) : Flow str :=
  upstream ← db (DbPublishedUpstream k);
  match upstream ≫= λ ref, split_once ref (L"/") with
  | None => mret base_branch
  | Some (remote_name, _) =>
      r ← call (GitFetchRemote dir);
      _ ← or_fail r (λ error, Workflow
            (L"Failed to fetch `" ++ remote_name ++ L"` before rebasing published session branch: "
               ++ GitFailure_display error));
      mret (remote_name ++ L"/" ++ base_branch)
  end.

Definition resolve_session_rebase_plan (dir : str) (k : SessionId) (base_branch : str) : Flow RebasePlan :=
  rebase_target ← resolve_session_rebase_target dir k base_branch;
  stack_base ← db (DbStackBase k);
  mret match stack_base with Some old_base => Onto rebase_target old_base | None => Target rebase_target end.

(** The guard of the branch goes to the push, or is dropped here. *)
Definition start_auto_push_after_rebase (k : SessionId) : Flow unit :=
  upstream ← call (DbPublishedUpstream k);
  match ok upstream ≫= λ o, o with
  | None => call (UnlockBranch k)
  | Some published_upstream_ref =>
      operation ← call NewOperationId;
      _ ← emit (PublishedBranchSyncUpdated None k operation SyncInProgress);
      call (SpawnAutoPush k published_upstream_ref operation)
  end.

Definition finalize_rebase_task (k : SessionId) (rebase_result : result str SessionError) : Flow unit :=
  _ ← (match rebase_result with
    | Ok message =>
        _ ← append_workflow_notice k (format_notice NoticeRebase message);
        _ ← request_git_status_refresh;
        start_auto_push_after_rebase k
    | Err error => append_workflow_notice k (format_notice NoticeRebaseError (SessionError_display error))
    end);
  restored ← update_status k Review;
  match rebase_result with
  | Ok _ => if (restored : bool) then emit (StackedParentSyncCompleted k) else mret tt
  | Err _ => call (UnlockBranch k)
  end.

(** The part between the transition and the finalization. *)
Definition rebase_body (mode : RebaseAssistMode) (dir : str) (k : SessionId) (base_branch : str) : Flow str :=
  _ ← db (DbClearFocusedReview k);
  plan ← resolve_session_rebase_plan dir k base_branch;
  execute_rebase_workflow (mkRebaseInput mode dir k plan).

Definition run_rebase_command (mode : RebaseAssistMode) (dir : str) (k : SessionId) (base_branch : str) : Flow unit :=
  _ ← call (LockBranch k);
  applied ← attempt (apply_or_invalid_transition k Rebasing);
  match applied with
  | Err error => _ ← call (UnlockBranch k); fail error
  | Ok _ =>
      _ ← emit (SessionQueuedSyncResolved k);
      rebase_result ← attempt (rebase_body mode dir k base_branch);
      _ ← finalize_rebase_task k rebase_result;
      match rebase_result with
      | Err error => fail (Workflow (SessionError_display error))
      | Ok _ => mret tt
      end
  end.
End rebase.
