(* ===== verification/MergeFlow.v ===== *)
(** * Merges and project syncs (crates/agentty/src/app/session/workflow/merge.rs)

    A merge starts in the foreground with its checks, then a task rebases the
    session branch, squashes it into the base branch, removes the worktree and
    ends the session.  A project sync pulls, resolves and pushes the branch of a
    project.  Stacked children are rebased after their parent. *)
From stdpp Require Import gmap.
From S2P Require Import Prelude Contracts Agent Lifecycle Transcript Transient Prompt Input Review Json Session SessionState Stack FileEntry SessionManager Flow Commits RebaseFlow.

(** ** Inputs and outcomes *)

Record MergeTaskInput := mkMergeInput {
  archive_diff : bool;
  merge_base_branch : str;
  merge_folder : str;
  merge_id : SessionId;
  repo_root : str;
  source_branch : str
}.

Inductive SyncSessionStartError := MainHasUncommittedChanges (branch : str) | SyncOther (detail : str).

Definition sync_detail_message (self : SyncSessionStartError) : str :=
  match self with
  | MainHasUncommittedChanges b =>
      L"Sync cannot run while `" ++ b ++ L"` has uncommitted changes." ++ [newline]
        ++ L"Commit or stash changes in `" ++ b ++ L"`, then try again."
  | SyncOther detail => detail
  end.

Record SyncMainOutcome := mkSyncOutcome {
  outcome_branch : str;
  deferred_merged_session_ids : list SessionId;
  pulled_commit_titles : list str;
  pulled_commits : option Z;
  pushed_commit_titles : list str;
  pushed_commits : option Z;
  outcome_conflict_files : list str
}.

Definition summarize_sync_ahead_behind_counts (before after : option (Z * Z)) : option Z * option Z :=
  (snd <$> before, match after with Some (ahead, _) => Some ahead | None => fst <$> before end).

Definition merge_success_message (source base : str) (o : SquashMergeOutcome) : str :=
  match o with
  | Committed => L"Successfully merged " ++ source ++ L" into " ++ base
  | AlreadyPresentInTarget => L"Session changes from " ++ source ++ L" are already present in " ++ base
  end.

Section merge.
Context `{!FlowHost, !FlowTemplates, !JsonEscape, !ContentHasher}.

(** ** Starting a merge *)

Definition restore_review_status (k : SessionId) : Flow unit := _ ← update_status k Review; mret tt.

Definition load_merge_base_branch (k : SessionId) : Flow str :=
  r ← call (DbBaseBranch k);
  match r with
  | Ok (Some base) => mret base
  | Ok None => _ ← restore_review_status k; fail (Workflow (L"No git worktree for this session"))
  | Err error => _ ← restore_review_status k; fail (DbError error)
  end.

Definition find_merge_repo_root (working_dir : str) (k : SessionId) : Flow str :=
  r ← call (GitFindRepoRoot working_dir);
  match r with
  | Some root => mret root
  | None => _ ← restore_review_status k; fail (Workflow (L"Failed to find git repository root"))
  end.

Definition ensure_merge_target_clean (root base : str) (k : SessionId) : Flow unit :=
  r ← call (GitIsWorktreeClean root);
  match r with
  | Err error =>
      _ ← restore_review_status k;
      fail (Workflow (L"Failed to inspect `" ++ base ++ L"` before merge: " ++ GitFailure_display error))
  | Ok true => mret tt
  | Ok false =>
      _ ← restore_review_status k;
      fail (Workflow (L"Merge cannot run while `" ++ base ++ L"` has uncommitted changes." ++ [newline]
              ++ L"Commit or stash changes in `" ++ base ++ L"`, then try again."))
  end.

(** [SessionMergeService::merge_session]: [competing] is whether another member
    of the stack reserved its branch. *)
Definition start_merge (state : SessionState) (competing : SessionId → bool) (working_dir : str) (k : SessionId)
  : Flow unit :=
  match session_for_id state k with
  | None => fail NotFound
  | Some s =>
      if negb (owns_branch_changes s) then fail (Workflow (L"Orchestrator sessions do not own branch changes"))
      else if negb (allows_review_actions (status s) || bool_decide (status s = Queued))
      then fail (Workflow (L"Session must be in review or queued status"))
      else if negb (can_merge_session_branch_in_stack (sessions state) k && negb (competing k))
      then fail (Workflow (L"Merge cannot run for linked review requests or while another stack session is active"))
      else
        match handle state k with
        | None => fail HandlesNotFound
        | Some _ =>
            _ ← apply_or_invalid_transition k Merging;
            base ← load_merge_base_branch k;
            root ← find_merge_repo_root working_dir k;
            _ ← ensure_merge_target_clean root base k;
            _ ← expect (session_branch k);
            call (SpawnMergeTask k base root)
        end
  end.

(** ** The merge task *)

Definition merge_rebase_input (input : MergeTaskInput) : RebaseAssistInput :=
  mkRebaseInput OneShot (merge_folder input) (merge_id input) (Target (merge_base_branch input)).

Definition load_squash_diff (input : MergeTaskInput) : Flow str :=
  r ← call (GitSquashMergeDiff (repo_root input) (source_branch input) (merge_base_branch input));
  or_fail r (λ error, Workflow (L"Failed to inspect merge diff: " ++ GitFailure_display error)).

Definition load_authoritative_session_commit_message (dir : str) : Flow str :=
  message ← git (GitHeadCommitMessage dir);
  match message with
  | None => fail (Workflow (L"Session branch has no commit message to reuse for merge"))
  | Some m =>
      if is_empty (trim m) then fail (Workflow (L"Session branch has a blank commit message to reuse for merge"))
      else mret (trim m)
  end.

Definition load_merged_commit_hash (root : str) (o : SquashMergeOutcome) : Flow (option str) :=
  match o with
  | Committed => h ← git (GitHeadHash root); mret (Some h)
  | AlreadyPresentInTarget => mret None
  end.

Definition cleanup_merged_session_worktree (dir source : str) (root : option str) : Flow unit :=
  root ← (match root with
    | Some r => mret (Some r)
    | None => r ← call (GitMainRepoRoot dir); mret (ok r)
    end);
  _ ← git (GitRemoveWorktree dir);
  _ ← (match root with Some r => git (GitDeleteBranch r source) | None => mret tt end);
  best_effort (RemoveDirAll dir).

Definition persist_merged_session_metadata (k : SessionId) (message merged_commit_hash : option str) : Flow unit :=
  _ ← (match message with Some m => update_session_title_from_commit_message k m | None => mret tt end);
  match merged_commit_hash with Some h => db (DbSetMergedHash k h) | None => mret tt end.

Definition emit_stacked_parent_merge_completed (children : list str) : Flow unit :=
  if is_empty children then mret tt else emit (StackedParentMergeCompleted children).

Definition complete_successful_merge (input : MergeTaskInput) (message merged_commit_hash : option str)
    (parent_commit_hash : str) : Flow unit :=
  let k := merge_id input in
  _ ← persist_merged_session_metadata k message merged_commit_hash;
  children ← db (A := list str) (DbRestackChildren k (merge_base_branch input) (Some parent_commit_hash));
  _ ← emit_stacked_parent_merge_completed children;
  apply_or_invalid_transition k Done.

(** The squash of the branch; a blank diff needs none. *)
Definition squash_into_base (input : MergeTaskInput) (squash_diff : str) : Flow (option str * SquashMergeOutcome) :=
  if is_empty (trim squash_diff) then mret (None, AlreadyPresentInTarget)
  else
    message ← load_authoritative_session_commit_message (merge_folder input);
    o ← git (GitSquashMerge (repo_root input) (source_branch input) (merge_base_branch input) message);
    mret (Some message, o).

Definition execute_merge_workflow (input : MergeTaskInput) : Flow str :=
  rebased ← attempt (execute_rebase_workflow (merge_rebase_input input));
  match rebased with
  | Err error => fail (Workflow (L"Merge failed during rebase step: " ++ SessionError_display error))
  | Ok _ =>
      parent_commit_hash ← git (GitHeadHash (merge_folder input));
      squash_diff ← load_squash_diff input;
      _ ← (if archive_diff input then db (DbArchiveDiff (merge_id input) squash_diff) else mret tt);
      merged ← squash_into_base input squash_diff;
      let '(message, merge_outcome) := merged in
      merged_commit_hash ← load_merged_commit_hash (repo_root input) merge_outcome;
      cleaned ← attempt (cleanup_merged_session_worktree (merge_folder input) (source_branch input) (Some (repo_root input)));
      _ ← or_fail cleaned (λ error, Workflow
            (L"Merged successfully but failed to remove worktree: " ++ SessionError_display error));
      _ ← complete_successful_merge input message merged_commit_hash parent_commit_hash;
      mret (merge_success_message (source_branch input) (merge_base_branch input) merge_outcome)
  end.

Definition finalize_merge_task (k : SessionId) (r : result str SessionError) : Flow unit :=
  match r with
  | Ok message =>
      _ ← emit_session_workflow_notice k (format_line NoticeMerge message);
      request_git_status_refresh
  | Err error =>
      _ ← append_workflow_notice k (format_notice NoticeMergeError (SessionError_display error));
      _ ← update_status k Review;
      mret tt
  end.

Definition run_merge_task (input : MergeTaskInput) : Flow unit :=
  merge_result ← attempt (execute_merge_workflow input);
  finalize_merge_task (merge_id input) merge_result.

(** ** Rebases of sessions *)

Definition load_rebase_start_context (state : SessionState) (competing : SessionId → bool) (k : SessionId)
  : Flow (str * SessionStatus * SessionId) :=
  match session_for_id state k with
  | None => fail NotFound
  | Some s =>
      if negb (allows_review_actions (status s)) && negb (bool_decide (status s = InProgress))
      then fail (Workflow (L"Session must be in review status or in progress"))
      else if negb (can_rebase_session_branch_in_stack (sessions state) k && negb (competing k))
      then fail (Workflow (L"Stacked sync can only run when no other stack session is active"))
      else
        base ← db (DbBaseBranch (id s));
        match base with
        | None => fail (Workflow (L"No git worktree for this session"))
        | Some b => mret (b, status s, id s)
        end
  end.

Definition enqueue_with_status_rollback (k : SessionId) (base : str) (fallback_status : SessionStatus) : Flow unit :=
  r ← call (EnqueueRebase k base);
  match r with
  | Ok _ => mret tt
  | Err error => _ ← update_status k fallback_status; fail error
  end.

(** The queued order is returned when a running session waits with its sync. *)
Definition rebase_session (state : SessionState) (competing : SessionId → bool) (k : SessionId) : Flow (option Z) :=
  context ← load_rebase_start_context state competing k;
  let '(base, current_status, persisted) := context in
  match handle state k with
  | None => fail HandlesNotFound
  | Some _ =>
      if bool_decide (current_status = InProgress) then
        unfinished ← db (DbUnfinishedRebase persisted);
        if (unfinished : bool) then mret None
        else
          r ← call (EnqueueExistingRebase persisted base);
          order ← or_fail r (λ e, e);
          mret (Some order)
      else
        _ ← apply_or_invalid_transition persisted Rebasing;
        _ ← enqueue_with_status_rollback persisted base current_status;
        mret None
  end.

Definition enqueue_stacked_child_auto_rebase (state : SessionState) (child : SessionId) : Flow unit :=
  match session_for_id state child with
  | None => fail NotFound
  | Some s =>
      base ← db (DbBaseBranch (id s));
      match base with
      | None => fail (Workflow (L"No git worktree for this session"))
      | Some b =>
          match handle state child with
          | None => fail HandlesNotFound
          | Some _ =>
              _ ← apply_or_invalid_transition (id s) Rebasing;
              enqueue_with_status_rollback (id s) b (status s)
          end
      end
  end.

Definition rebaseable_stacked_child_session_ids (state : SessionState) (parent : SessionId) : list SessionId :=
  match SessionState.find_session state parent with
  | None => []
  | Some p =>
      if negb (allows_review_actions (status p)) then []
      else id <$> List.filter (λ s, is_child_of parent s && allows_review_actions (status s)) (sessions state)
  end.

(** ** Syncing a project branch *)

Definition sync_main_for_project (branch : option str) (working_dir : str) (context : option ProjectSyncContext)
  : Flow (result SyncMainOutcome SyncSessionStartError) :=
  match branch with
  | None => mret (Err (SyncOther (L"Active project has no git branch")))
  | Some default_branch =>
      root ← call (GitFindRepoRoot working_dir);
      match root with
      | None => mret (Err (SyncOther (L"Failed to find git repository root")))
      | Some _ =>
          clean ← call (GitIsWorktreeClean working_dir);
          match clean with
          | Err error => mret (Err (SyncOther (GitFailure_display error)))
          | Ok false => mret (Err (MainHasUncommittedChanges default_branch))
          | Ok true =>
              before ← call (GitAheadBehind working_dir);
              pulled_titles ← call (GitUpstreamTitles working_dir);
              pull_result ← call (GitPullRebase working_dir);
              resolved ← (match pull_result with
                | Err error => mret (Err (SyncOther (GitFailure_display error)))
                | Ok PullCompleted => mret (Ok [])
                | Ok (PullConflict detail) =>
                    assisted ← attempt (run_rebase_assist_loop_core
                      (ProjectInput (mkSyncInput default_branch context working_dir)) (Some detail));
                    mret match assisted with
                         | Ok files => Ok files
                         | Err error => Err (SyncOther
                             (L"Sync stopped on rebase conflicts while updating `" ++ default_branch ++ L"`: " ++ detail
                                ++ L". Assisted resolution failed: " ++ SessionError_display error))
                         end
                end);
              match resolved with
              | Err e => mret (Err e)
              | Ok files =>
                  after ← call (GitAheadBehind working_dir);
                  pushed_titles ← call (GitLocalTitles working_dir);
                  pushed ← call (GitPushCurrentBranch working_dir);
                  match pushed with
                  | Err error => mret (Err (SyncOther (GitFailure_display error)))
                  | Ok _ =>
                      let '(pulled, pushed) := summarize_sync_ahead_behind_counts (ok before) (ok after) in
                      mret (Ok (mkSyncOutcome default_branch [] (default [] (ok pulled_titles)) pulled
                                  (default [] (ok pushed_titles)) pushed files))
                  end
              end
          end
      end
  end.
End merge.
