(* ===== verification/FlowLaws.v ===== *)
(** * Laws of the session workflows

    Every call has a kind; a program is described by the kinds of calls it can
    make, whatever the host answers.  On that rest the laws of runs: a worktree is
    removed only when its work is in the base branch, a rebase is not left
    paused, assistance is bounded, and the branch lock covers the Git work. *)
From stdpp Require Import gmap.
From S2P Require Import Prelude Contracts Agent Lifecycle Transcript Transient Prompt Input Review Json Session SessionState Stack FileEntry SessionManager Flow Commits RebaseFlow MergeFlow.

(** ** Kinds of calls *)

Inductive Kind :=
| KRead | KProbe | KNote | KAssist | KMessage | KCommit | KStage | KRebase | KAbort | KSquash | KRemove | KFetch | KPull | KPush
| KClear | KRecord | KQueue | KLock | KRelease | KMerge | KPanic | KStatus.

#[global] Instance Kind_eq_dec : EqDecision Kind.
Proof. solve_decision. Defined.

Definition call_kind {A} (c : Call A) : Kind :=
  match c with
  | GitRebaseStart _ _ | GitRebaseOntoStart _ _ _ | GitRebaseContinue _ => KRebase
  | GitAbortRebase _ => KAbort
  | GitIsRebaseInProgress _ => KProbe
  | GitStageAll _ | GitRunPreCommitHook _ => KStage
  | GitSquashMerge _ _ _ _ => KSquash
  | GitRemoveWorktree _ | GitDeleteBranch _ _ | RemoveDirAll _ => KRemove
  | GitFetchRemote _ => KFetch
  | GitPullRebase _ => KPull
  | GitPushCurrentBranch _ => KPush
  | GitCommitAll _ _ _ => KCommit
  | DbClearFocusedReview _ => KClear
  | DbSetStackBase _ _ | DbSetTitle _ _ | DbSetMergedHash _ _ | DbArchiveDiff _ _ | DbPersistStatus _ _
  | DbRestackChildren _ _ _ => KRecord
  | AppendNotice _ _ | NextUpdateVersion _ | NewOperationId | Emit _ => KNote
  | AgentAssist _ _ => KAssist
  | AgentCommitAnswer _ _ _ => KMessage
  | EnqueueRebase _ _ | EnqueueExistingRebase _ _ => KQueue
  | LockBranch _ => KLock
  | UnlockBranch _ | SpawnAutoPush _ _ _ => KRelease
  | SpawnMergeTask _ _ _ => KMerge
  | _ => KRead
  end.

Definition kind (e : Effect) : Kind := match e with Did _ c _ => call_kind c end.

(** The program adds to the run, and only calls of the kinds [K]; [KPanic] stands
    for a panic and [KStatus] for a step of the session's status. *)
Definition uses {A} (K : Kind → bool) (m : Flow A) : Prop :=
  ∀ w, (∃ new, effects (m w).2 = effects w ++ new ∧ Forall (λ e, K (kind e) = true) new)
       ∧ ((m w).1 = Err Panicked → K KPanic = true)
       ∧ (live_status (m w).2 = live_status w ∨ K KStatus = true).

Definition all_kinds (k : Kind) : bool := true.

Section uses.
Context `{Hhost : FlowHost}.

Lemma uses_none {A} K (m : Flow A) :
  (∀ w, effects (m w).2 = effects w) → (∀ w, (m w).1 = Err Panicked → K KPanic = true) →
  (∀ w, live_status (m w).2 = live_status w ∨ K KStatus = true) → uses K m.
Proof. intros He Hp Hs w. split_and!; [|apply Hp|apply Hs]. exists []. by rewrite He, app_nil_r. Qed.

Lemma uses_ret {A} K (a : A) : uses K (mret a : Flow A).
Proof. apply uses_none; auto; discriminate. Qed.

Lemma uses_fail {A} K e : uses K (fail e : Flow A).
Proof. apply uses_none; auto; discriminate. Qed.

Lemma uses_expect {A} K (o : option A) : K KPanic = true → uses K (expect o).
Proof. intros HK. apply uses_none; auto. Qed.

Lemma uses_or_fail {A E} K (r : result A E) f : uses K (or_fail r f).
Proof. destruct r; [apply uses_ret|apply uses_fail]. Qed.

Lemma uses_bind {A B} K (m : Flow A) (f : A → Flow B) :
  uses K m → (∀ a, uses K (f a)) → uses K (m ≫= f).
Proof.
  intros Hm Hf w. unfold mbind, Flow_bind. destruct (Hm w) as ((n1 & E1 & F1) & P1 & S1).
  destruct (m w) as [[a|e] w'] eqn:E; cbn [fst snd] in *.
  2:{ split_and!; [by exists n1|intros [= ->]; by apply P1|done]. }
  destruct (Hf a w') as ((n2 & E2 & F2) & P2 & S2). split_and!; [|exact P2|].
  - exists (n1 ++ n2). rewrite E2, E1, app_assoc. split; [done|by apply Forall_app].
  - destruct S1 as [<-|S1]; [exact S2|by right].
Qed.

Lemma uses_attempt {A} K (m : Flow A) : uses K m → uses K (attempt m).
Proof.
  intros Hm w. unfold attempt. destruct (Hm w) as ((n & E & F) & P & S).
  destruct (m w) as [[a|[e|]] w']; (split_and!; [by exists n| |exact S]); intros [=]. by apply P.
Qed.

Lemma uses_call {A : Set} K (c : Call A) : K (call_kind c) = true → uses K (call c).
Proof.
  intros H w. split_and!; [|intros [=]|by left]. exists [Did A c (host_answer A (length (effects w)) c)].
  cbn. by split; [|constructor].
Qed.

Lemma uses_git {A : Set} K (c : Call (result A GitFailure)) : K (call_kind c) = true → uses K (git c).
Proof. intros H. apply uses_bind; [by apply uses_call|intros r; apply uses_or_fail]. Qed.

Lemma uses_db {A : Set} K (c : Call (result A str)) : K (call_kind c) = true → uses K (db c).
Proof. intros H. apply uses_bind; [by apply uses_call|intros r; apply uses_or_fail]. Qed.

Lemma uses_transition K new : K KStatus = true → uses K (try_transition new).
Proof. intros HK. apply uses_none; intros w; unfold try_transition; case_match; auto; discriminate. Qed.

Lemma uses_mono {A} (K K' : Kind → bool) (m : Flow A) :
  (∀ k, K k = true → K' k = true) → uses K m → uses K' m.
Proof.
  intros H Hm w. destruct (Hm w) as ((n & E & F) & P & S).
  split_and!; [|intros HP; apply H, P, HP|destruct S as [S|S]; [by left|right; by apply H]]. exists n.
  split; [done|]. eapply Forall_impl; [exact F|]. intros e He. by apply H.
Qed.
End uses.

Create HintDb flow.
#[export] Hint Resolve uses_ret uses_fail uses_expect uses_or_fail uses_transition : flow.
#[export] Hint Extern 0 (_ = true) => reflexivity : flow.

(** Programs are walked through: binds, calls, branches, and the lemmas of the
    programs they call. *)
Ltac uses_walk :=
  repeat first
    [ solve [auto with flow nocore]
    | match goal with
      | |- uses _ (mbind _ _) => apply uses_bind; [|intros ?]
      | |- uses _ (attempt _) => apply uses_attempt
      | |- uses _ (call _) => apply uses_call; first [assumption|reflexivity]
      | |- uses _ (git _) => apply uses_git; first [assumption|reflexivity]
      | |- uses _ (db _) => apply uses_db; first [assumption|reflexivity]
      | |- uses _ (emit _) => apply uses_call; first [assumption|reflexivity]
      | |- uses _ (best_effort _) => unfold best_effort
      | |- uses _ (match ?x with _ => _ end) => destruct x
      | |- uses _ (let _ := _ in _) => cbv zeta
      end ].

Section programs.
Context `{Hhost : FlowHost, Htemplates : FlowTemplates, Hesc : JsonEscape, Hhash : ContentHasher}.
Variable K : Kind → bool.
Hypothesis Kread : K KRead = true.
Hypothesis Knote : K KNote = true.
Hypothesis Krecord : K KRecord = true.

Lemma uses_session_updated k : uses K (emit_session_updated k).
Proof. unfold emit_session_updated. uses_walk. Qed.
#[local] Hint Resolve uses_session_updated : flow.

Lemma uses_notice k m : uses K (append_workflow_notice k m).
Proof. unfold append_workflow_notice. uses_walk. Qed.
#[local] Hint Resolve uses_notice : flow.

Lemma uses_header k n a b c d : uses K (append_assist_header k n a b c d).
Proof. apply uses_notice. Qed.
#[local] Hint Resolve uses_header : flow.

Hypothesis Kstatus : K KStatus = true.

Lemma uses_update_status k new : uses K (update_status k new).
Proof. unfold update_status, send_session_and_project_refresh_events. uses_walk. Qed.
#[local] Hint Resolve uses_update_status : flow.

Lemma uses_apply k new : uses K (apply_or_invalid_transition k new).
Proof. unfold apply_or_invalid_transition. uses_walk. Qed.
#[local] Hint Resolve uses_apply : flow.

Lemma uses_title k m : uses K (update_session_title_from_commit_message k m).
Proof. unfold update_session_title_from_commit_message. uses_walk. Qed.
#[local] Hint Resolve uses_title : flow.

Lemma uses_coauthor k : uses K (load_include_coauthored_by_agentty_setting k).
Proof. unfold load_include_coauthored_by_agentty_setting. uses_walk. Qed.
#[local] Hint Resolve uses_coauthor : flow.

(** *** Commits *)

Section committing.
Hypothesis Kmessage : K KMessage = true.
Hypothesis Kcommit : K KCommit = true.

Lemma uses_generate d i c b : uses K (generate_session_commit_message d i c b).
Proof. unfold generate_session_commit_message. uses_walk. Qed.
#[local] Hint Resolve uses_generate : flow.

Lemma uses_commit d b i : uses K (commit_session_changes d b i).
Proof. unfold commit_session_changes. uses_walk. Qed.
#[local] Hint Resolve uses_commit : flow.

Lemma uses_commit_pending i : uses K (commit_pending_changes i).
Proof.
  unfold commit_pending_changes, emit_session_workflow_notice, request_git_status_refresh. uses_walk.
Qed.
End committing.

(** *** Assisted rebases *)

Lemma uses_conflicted d p : uses K (load_rebase_conflicted_files d p).
Proof. unfold load_rebase_conflicted_files. uses_walk. Qed.
#[local] Hint Resolve uses_conflicted : flow.

Lemma uses_contents d fs : uses K (read_contents d fs).
Proof. induction fs as [|f fs IH]; cbn [read_contents]; uses_walk. Qed.
#[local] Hint Resolve uses_contents : flow.

Lemma uses_fingerprint self st fs : uses K (record_conflicted_file_fingerprint self st fs).
Proof. unfold record_conflicted_file_fingerprint, conflicted_file_fingerprint. uses_walk. Qed.
#[local] Hint Resolve uses_fingerprint : flow.

Lemma uses_evaluate self st n step : uses K (evaluate_rebase_continue_step self st n step).
Proof. unfold evaluate_rebase_continue_step, record_rebase_conflict_detail. uses_walk. Qed.
#[local] Hint Resolve uses_evaluate : flow.

Lemma uses_remaining st n : uses K (evaluate_remaining_assist_conflicts st n).
Proof. unfold evaluate_remaining_assist_conflicts. uses_walk. Qed.
#[local] Hint Resolve uses_remaining : flow.

Section assisting.
Hypothesis Kassist : K KAssist = true.
Hypothesis Kstage : K KStage = true.

Lemma uses_prompt i p : uses K (run_rebase_assist_prompt i p).
Proof. unfold run_rebase_assist_prompt. uses_walk. Qed.
#[local] Hint Resolve uses_prompt : flow.

Lemma uses_assist_attempt self n fs : uses K (run_assist_attempt self n fs).
Proof.
  unfold run_assist_attempt, append_rebase_assist_header, run_rebase_assist_agent, run_sync_rebase_assist_agent,
    emit_sync_rebase_conflict_status, rebase_assist_prompt. uses_walk.
Qed.
#[local] Hint Resolve uses_assist_attempt : flow.

Lemma uses_repair self d n : uses K (repair_pre_commit_failure self d n).
Proof. unfold repair_pre_commit_failure. cbv zeta. uses_walk. Qed.
#[local] Hint Resolve uses_repair : flow.

Lemma uses_hook_loop self n m : uses K (hook_loop self n m).
Proof. revert m. induction n as [|n IH]; intros m; cbn [hook_loop]; uses_walk. Qed.

Lemma uses_hook self : uses K (run_pre_commit_hook self).
Proof. apply uses_hook_loop. Qed.
#[local] Hint Resolve uses_hook : flow.

Lemma uses_stage_check d fs : uses K (stage_and_check_rebase_conflicts d fs).
Proof. unfold stage_and_check_rebase_conflicts. uses_walk. Qed.
#[local] Hint Resolve uses_stage_check : flow.

Section rebasing.
Hypothesis Kprobe : K KProbe = true.
Hypothesis Krebase : K KRebase = true.
Hypothesis Kabort : K KAbort = true.

Lemma uses_continue self st n : uses K (continue_rebase_after_assist_attempt self st n).
Proof. unfold continue_rebase_after_assist_attempt. uses_walk. Qed.
#[local] Hint Resolve uses_continue : flow.

Lemma uses_attempt_once self st n : uses K (run_rebase_assist_attempt self st n).
Proof. unfold run_rebase_assist_attempt, resolve_conflicted_files_with_assist. uses_walk. Qed.
#[local] Hint Resolve uses_attempt_once : flow.

Lemma uses_attempts self r n st : uses K (assist_attempts self r n st).
Proof. revert n st. induction r as [|r IH]; intros n st; cbn [assist_attempts]; uses_walk. Qed.

Lemma uses_core self d : uses K (run_rebase_assist_loop_core self d).
Proof.
  unfold run_rebase_assist_loop_core, run_rebase_assist_attempts, abort_rebase_after_assist_failure.
  pose proof uses_attempts. uses_walk.
Qed.
#[local] Hint Resolve uses_core : flow.

Lemma uses_start i : uses K (run_rebase_start i).
Proof. unfold run_rebase_start, start_git_rebase, recover_from_stale_rebase_start_error. uses_walk. Qed.
#[local] Hint Resolve uses_start : flow.

Lemma uses_loop i : uses K (run_rebase_assist_loop i).
Proof. unfold run_rebase_assist_loop. uses_walk. Qed.
#[local] Hint Resolve uses_loop : flow.

Lemma uses_stack_base i : uses K (persist_stack_base_after_successful_rebase i).
Proof. unfold persist_stack_base_after_successful_rebase. uses_walk. Qed.
#[local] Hint Resolve uses_stack_base : flow.

Hypothesis Kmessage : K KMessage = true.
Hypothesis Kcommit : K KCommit = true.
Hypothesis Kpanic : K KPanic = true.

Lemma uses_rebase_workflow i : uses K (execute_rebase_workflow i).
Proof.
  unfold execute_rebase_workflow, abort_rebase_after_assist_failure. pose proof uses_commit_pending. uses_walk.
Qed.
End rebasing.
End assisting.
End programs.

#[export] Hint Resolve uses_session_updated uses_notice uses_header uses_update_status uses_apply uses_title uses_coauthor uses_generate uses_commit uses_commit_pending uses_conflicted uses_fingerprint uses_evaluate uses_remaining uses_prompt uses_assist_attempt uses_repair uses_hook uses_stage_check uses_continue uses_attempt_once uses_core uses_start uses_loop uses_stack_base uses_rebase_workflow : flow.

(** ** Calls that need a reason *)

(** Every call of a kind in [bad] comes after a run that satisfies [G]. *)
Definition guarded {A} (bad : Kind → bool) (G : list Effect → Prop) (m : Flow A) (w : World) : Prop :=
  ∀ before e after, effects (m w).2 = effects w ++ before ++ e :: after → bad (kind e) = true → G (effects w ++ before).

Definition lasting (G : list Effect → Prop) : Prop := ∀ t t', G t → G (t ++ t').

Lemma lasting_has (P : Effect → Prop) : lasting (λ t, ∃ e, e ∈ t ∧ P e).
Proof. intros t t' (e & H & HP). exists e. split; [|done]. apply elem_of_app. by left. Qed.

Lemma app_split {A} (n1 n2 before after : list A) e :
  n1 ++ n2 = before ++ e :: after →
  (∃ x, n1 = before ++ e :: x) ∨ (∃ y, before = n1 ++ y ∧ n2 = y ++ e :: after).
Proof.
  intros [(k & -> & E)|(k & -> & E)]%app_eq_inv; [|right; by exists k].
  destruct k as [|x k]; cbn in E.
  - right. exists []. rewrite !app_nil_r. by split.
  - injection E as <- _. left. by exists k.
Qed.

Section guarded.
Context (bad : Kind → bool) (G : list Effect → Prop).

Lemma guarded_quiet {A} (m : Flow A) w : uses (λ k, negb (bad k)) m → guarded bad G m w.
Proof.
  intros Hm before e after E Hb. destruct (Hm w) as ((new & E' & F) & _). rewrite E in E'.
  apply app_inv_head in E'. subst new. apply Forall_app in F as [_ F].
  apply Forall_cons in F as [F _]. cbn in F. by rewrite Hb in F.
Qed.

Lemma guarded_from {A} (m : Flow A) w :
  lasting G → uses all_kinds m → G (effects w) → guarded bad G m w.
Proof. intros HG _ H before e after _ _. by apply HG. Qed.

Lemma guarded_bind {A B} (m : Flow A) (f : A → Flow B) w :
  uses all_kinds m → (∀ a, uses all_kinds (f a)) →
  guarded bad G m w → (∀ a w', m w = (Ok a, w') → guarded bad G (f a) w') → guarded bad G (m ≫= f) w.
Proof.
  intros Um Uf Hm Hf before e after E Hb.
  unfold mbind, Flow_bind in E. destruct (m w) as [[a|err] w'] eqn:Em.
  - destruct (Um w) as ((n1 & E1 & _) & _). rewrite Em in E1. cbn [snd] in E1.
    destruct (Uf a w') as ((n2 & E2 & _) & _). rewrite E2, E1, <- app_assoc in E. apply app_inv_head in E.
    destruct (app_split _ _ _ _ _ E) as [(x & ->)|(y & -> & ->)].
    + apply (Hm before e x); [|done]. by rewrite Em.
    + rewrite app_assoc, <- E1. by apply (Hf a w' eq_refl y e after).
  - apply (Hm before e after); [|done]. rewrite Em. exact E.
Qed.

Lemma guarded_attempt {A} (m : Flow A) w : guarded bad G m w → guarded bad G (attempt m) w.
Proof.
  intros Hm before e after E Hb. apply (Hm before e after); [|done]. unfold attempt in E.
  destruct (m w) as [[a|[err|]] w']; exact E.
Qed.
End guarded.

Lemma uses_in {A} K (m : Flow A) w r w' e : uses K m → m w = (r, w') → e ∈ effects w → e ∈ effects w'.
Proof.
  intros Hm E He. destruct (Hm w) as ((n & En & _) & _). rewrite E in En. cbn [snd] in En. rewrite En.
  apply elem_of_app. by left.
Qed.

(** ** The worktree outlives the work that is not merged *)

Definition is_kind (k k' : Kind) : bool := bool_decide (k = k').

(** The changes of the branch are in the base: they were squashed into it, or the
    diff to it was blank. *)
Definition in_base (input : MergeTaskInput) (e : Effect) : Prop :=
  (∃ message o, e = Did _ (GitSquashMerge (repo_root input) (source_branch input) (merge_base_branch input) message) (Ok o))
  ∨ (∃ diff, e = Did _ (GitSquashMergeDiff (repo_root input) (source_branch input) (merge_base_branch input)) (Ok diff)
             ∧ is_empty (trim diff) = true).

Section merging.
Context `{Hhost : FlowHost, Htemplates : FlowTemplates, Hesc : JsonEscape, Hhash : ContentHasher}.

Lemma call_run {A : Set} (c : Call A) w : ∃ w', call c w = (Ok (host_answer A (length (effects w)) c), w')
  ∧ effects w' = effects w ++ [Did A c (host_answer A (length (effects w)) c)].
Proof. eexists. split; reflexivity. Qed.

Lemma git_Ok {A : Set} (c : Call (result A GitFailure)) w a w' :
  git c w = (Ok a, w') → effects w' = effects w ++ [Did _ c (Ok a)].
Proof.
  unfold git, mbind, Flow_bind, call. destruct (host_answer _ _ c) as [x|x]; cbn; intros [= <- <-]; reflexivity.
Qed.

Lemma load_squash_diff_Ok input w d w' :
  load_squash_diff input w = (Ok d, w') →
  effects w' = effects w ++ [Did _ (GitSquashMergeDiff (repo_root input) (source_branch input) (merge_base_branch input)) (Ok d)].
Proof.
  unfold load_squash_diff, mbind, Flow_bind, call.
  destruct (host_answer _ _ _) as [x|x]; unfold or_fail, mret, Flow_ret, fail; [|discriminate].
  intros [= <- <-]. reflexivity.
Qed.

Lemma squash_reaches_base input d w r w' :
  squash_into_base input d w = (Ok r, w') →
  Did _ (GitSquashMergeDiff (repo_root input) (source_branch input) (merge_base_branch input)) (Ok d) ∈ effects w →
  ∃ e, e ∈ effects w' ∧ in_base input e.
Proof.
  unfold squash_into_base. destruct (is_empty (trim d)) eqn:Ed.
  - intros [= <- <-] Hin. eexists. split; [exact Hin|]. right. by exists d.
  - unfold mbind at 1, Flow_bind at 1. destruct (load_authoritative_session_commit_message _ w) as [[m|] w1]; [|discriminate].
    unfold mbind, Flow_bind.
    destruct (git (GitSquashMerge _ _ _ m) w1) as [[o|] w2] eqn:E; [|discriminate].
    intros [= <- <-] _. apply git_Ok in E. exists (Did _ (GitSquashMerge (repo_root input) (source_branch input) (merge_base_branch input) m) (Ok o)).
    split; [rewrite E; apply elem_of_app; right; by apply list_elem_of_singleton|]. left. by exists m, o.
Qed.

Lemma uses_squash_diff K input : K KRead = true → uses K (load_squash_diff input).
Proof. intros HK. unfold load_squash_diff. uses_walk. Qed.

Lemma uses_squash K input d : K KRead = true → K KSquash = true → uses K (squash_into_base input d).
Proof. intros HK HS. unfold squash_into_base, load_authoritative_session_commit_message. uses_walk. Qed.

Lemma uses_merged_hash K root o : K KRead = true → uses K (load_merged_commit_hash root o).
Proof. intros HK. unfold load_merged_commit_hash. uses_walk. Qed.

Lemma uses_cleanup d b r : uses all_kinds (cleanup_merged_session_worktree d b r).
Proof. unfold cleanup_merged_session_worktree. uses_walk. Qed.

Lemma uses_complete K input m h p :
  K KRead = true → K KNote = true → K KRecord = true → K KStatus = true → uses K (complete_successful_merge input m h p).
Proof.
  intros HR HN HC HS. unfold complete_successful_merge, persist_merged_session_metadata, emit_stacked_parent_merge_completed.
  uses_walk.
Qed.

Lemma uses_finalize_merge K k r :
  K KRead = true → K KNote = true → K KRecord = true → K KStatus = true → uses K (finalize_merge_task k r).
Proof.
  intros HR HN HC HS. unfold finalize_merge_task, emit_session_workflow_notice, request_git_status_refresh. uses_walk.
Qed.
#[local] Hint Resolve uses_squash_diff uses_squash uses_merged_hash uses_cleanup uses_complete uses_finalize_merge : flow.

(** The part of a merge behind its rebase. *)
Definition merge_rest (input : MergeTaskInput) : Flow str :=
  parent_commit_hash ← git (GitHeadHash (merge_folder input));
  squash_diff ← load_squash_diff input;
  _ ← (if archive_diff input then db (DbArchiveDiff (merge_id input) squash_diff) else mret tt);
  merged ← squash_into_base input squash_diff;
  let '(message, merge_outcome) := merged in
  merged_commit_hash ← load_merged_commit_hash (repo_root input) merge_outcome;
  cleaned ← attempt (cleanup_merged_session_worktree (merge_folder input) (source_branch input) (Some (repo_root input)));
  _ ← or_fail cleaned (λ error, Workflow
        (L"Merged successfully but failed to remove worktree: " ++ SessionError_display error));
  _ ← complete_successful_merge input message merged_commit_hash parent_commit_hash;
  mret (merge_success_message (source_branch input) (merge_base_branch input) merge_outcome).

Lemma guarded_merge_rest input G w :
  lasting G → (∀ t, (∃ e', e' ∈ t ∧ in_base input e') → G t) → guarded (is_kind KRemove) G (merge_rest input) w.
Proof.
  intros HG HB. unfold merge_rest.
  apply guarded_bind; [uses_walk|intros; uses_walk|apply guarded_quiet; uses_walk|intros parent w1 _].
  apply guarded_bind; [uses_walk|intros; uses_walk|apply guarded_quiet; uses_walk|intros d w2 Ed].
  apply load_squash_diff_Ok in Ed.
  assert (Hd : Did _ (GitSquashMergeDiff (repo_root input) (source_branch input) (merge_base_branch input)) (Ok d) ∈ effects w2).
  { rewrite Ed. apply elem_of_app. right. by apply list_elem_of_singleton. }
  clear Ed.
  assert (Ua : uses (λ k, negb (is_kind KRemove k))
                (if archive_diff input then db (DbArchiveDiff (merge_id input) d) else mret tt)) by uses_walk.
  apply guarded_bind; [uses_walk|intros; uses_walk|by apply guarded_quiet|intros u w3 Ea].
  pose proof (uses_in _ _ _ _ _ _ Ua Ea Hd) as Hd3.
  apply guarded_bind; [uses_walk|intros; uses_walk|apply guarded_quiet; uses_walk|intros [m o] w4 Es].
  apply guarded_from; [done|uses_walk|]. apply HB. exact (squash_reaches_base _ _ _ _ _ Es Hd3).
Qed.

Lemma guarded_run_merge_task input w (G := λ t : list Effect, ∃ e', e' ∈ t ∧ in_base input e') :
  lasting G → guarded (is_kind KRemove) G (run_merge_task input) w.
Proof.
  intros HG. unfold run_merge_task, execute_merge_workflow.
  apply guarded_bind; [uses_walk|intros; uses_walk| |intros r w' _; apply guarded_quiet; uses_walk].
  apply guarded_attempt.
  apply guarded_bind; [uses_walk|intros; uses_walk|apply guarded_quiet; uses_walk|intros [a|e] w1 _].
  - exact (guarded_merge_rest input G w1 HG (λ t H, H)).
  - apply guarded_quiet. uses_walk.
Qed.

(** C3: A merge never loses work: whatever Git, the database and the agents answer,
    the worktree directory is removed and the session branch deleted only after
    Git has squashed that branch into the base branch, or after the diff between
    them was found to be blank; so a merge that ends before either removes
    neither the worktree nor the branch.  (Until then the merge may still commit
    pending changes, rebase the branch and let agents edit it.) *)
Theorem merged_work_is_never_lost input w before e after :
  effects (run_merge_task input w).2 = effects w ++ before ++ e :: after → kind e = KRemove →
  ∃ e', e' ∈ effects w ++ before ∧ in_base input e'.
Proof.
  intros E Hk. revert before e after E Hk. set (G := λ t : list Effect, ∃ e', e' ∈ t ∧ in_base input e').
  assert (HG : lasting G) by apply lasting_has.
  cut (guarded (is_kind KRemove) G (run_merge_task input) w).
  { intros Hg before e after E Hk. apply (Hg before e after E). rewrite Hk. reflexivity. }
  apply guarded_run_merge_task, HG.
Qed.
End merging.

(** ** A rebase is not left paused *)

(** Whether a rebase is in progress after a call, as far as Git told. *)
Definition paused_after (p : bool) (e : Effect) : bool :=
  match e with
  | Did A c a =>
      match c in Call B return B → bool with
      | GitRebaseStart _ _ | GitRebaseOntoStart _ _ _ | GitRebaseContinue _ =>
          λ r, match r with Ok StepCompleted => false | _ => true end
      | GitIsRebaseInProgress _ => λ r, match r with Ok b => b | Err _ => p end
      | GitAbortRebase _ => λ r, match r with Ok _ => false | Err _ => p end
      | GitPullRebase _ => λ r, match r with Ok PullCompleted => false | Ok (PullConflict _) => true | Err _ => p end
      | _ => λ _, p
      end a
  end.

Definition paused (t : list Effect) : bool := fold_left paused_after t false.

(** Kinds that leave a rebase as it is. *)
Definition leaves_rebase (k : Kind) : bool :=
  match k with KRebase | KAbort | KProbe | KPull => false | _ => true end.

Lemma paused_after_leaves p e : leaves_rebase (kind e) = true → paused_after p e = p.
Proof. destruct e as [A c a]. destruct c; cbn; intros H; try discriminate H; reflexivity. Qed.

Lemma paused_snoc t e : paused (t ++ [e]) = paused_after (paused t) e.
Proof. unfold paused. by rewrite fold_left_app. Qed.

Lemma paused_app_leaves t new : Forall (λ e, leaves_rebase (kind e) = true) new → paused (t ++ new) = paused t.
Proof.
  induction new as [|e new IH] using rev_ind; intros F; [by rewrite app_nil_r|].
  apply Forall_app in F as [F Fe]. apply Forall_cons in Fe as [Fe _].
  rewrite app_assoc, paused_snoc, (paused_after_leaves _ _ Fe). exact (IH F).
Qed.

Lemma uses_paused {A} (m : Flow A) w r w' :
  uses leaves_rebase m → m w = (r, w') → paused (effects w') = paused (effects w).
Proof.
  intros Hm E. destruct (Hm w) as ((new & En & F) & _). rewrite E in En. cbn [snd] in En. rewrite En.
  by apply paused_app_leaves.
Qed.

Section pausing.
Context `{Hhost : FlowHost, Htemplates : FlowTemplates, Hesc : JsonEscape, Hhash : ContentHasher}.

Lemma bind_Ok {A B} (m : Flow A) (f : A → Flow B) w b w' :
  (m ≫= f) w = (Ok b, w') → ∃ a w1, m w = (Ok a, w1) ∧ f a w1 = (Ok b, w').
Proof.
  unfold mbind, Flow_bind. destruct (m w) as [[a|e] w1]; [|discriminate]. intros E. by exists a, w1.
Qed.

Lemma continue_completes self st n w st' w' :
  continue_rebase_after_assist_attempt self st n w = (Ok (AttemptCompleted, st'), w') → paused (effects w') = false.
Proof.
  unfold continue_rebase_after_assist_attempt.
  intros (u & w1 & _ & (step & w2 & E2 & E3)%bind_Ok)%bind_Ok. apply git_Ok in E2.
  unfold evaluate_rebase_continue_step in E3. destruct step as [|detail].
  - injection E3 as _ <-. rewrite E2, paused_snoc. reflexivity.
  - apply bind_Ok in E3 as (st1 & w3 & _ & E3). discriminate E3.
Qed.

Lemma attempt_once_completes self st n w st' w' :
  run_rebase_assist_attempt self st n w = (Ok (AttemptCompleted, st'), w') → paused (effects w') = false.
Proof.
  unfold run_rebase_assist_attempt. intros (files & w1 & _ & E)%bind_Ok.
  destruct (is_empty files); [by apply continue_completes in E|].
  unfold resolve_conflicted_files_with_assist in E.
  apply bind_Ok in E as (st1 & w2 & _ & E). cbv zeta in E.
  apply bind_Ok in E as (u & w3 & _ & E). apply bind_Ok in E as (b & w4 & _ & E).
  destruct b; [|by apply continue_completes in E].
  unfold evaluate_remaining_assist_conflicts in E. destruct (_ =? _); discriminate E.
Qed.

Lemma attempts_complete self remaining : ∀ n st w files w',
  assist_attempts self remaining n st w = (Ok files, w') → paused (effects w') = false.
Proof.
  induction remaining as [|remaining IH]; intros n st w files w'; cbn [assist_attempts]; [discriminate|].
  intros ([o st1] & w1 & E1 & E2)%bind_Ok. destruct o; [by apply IH in E2|].
  injection E2 as _ <-. by apply attempt_once_completes in E1.
Qed.

Lemma attempt_cases {A} (m : Flow A) w r w' :
  attempt m w = (r, w') →
  (∃ a, r = Ok (Ok a) ∧ m w = (Ok a, w')) ∨ (∃ e, r = Ok (Err e) ∧ m w = (Err (Failed e), w'))
  ∨ (r = Err Panicked ∧ m w = (Err Panicked, w')).
Proof.
  unfold attempt. destruct (m w) as [[a|[e|]] w1]; intros [= <- <-]; eauto 7.
Qed.

Lemma core_completes self d w files w' :
  run_rebase_assist_loop_core self d w = (Ok files, w') → paused (effects w') = false.
Proof.
  unfold run_rebase_assist_loop_core. intros (r & w1 & E1 & E2)%bind_Ok.
  destruct r as [fs|e].
  - injection E2 as _ <-. apply attempt_cases in E1 as [(a & [= <-] & E)|[(e & [=] & _)|([=] & _)]].
    exact (attempts_complete _ _ _ _ _ _ _ E).
  - apply bind_Ok in E2 as (u & w2 & _ & E2). discriminate E2.
Qed.

Lemma start_completes i w w' : run_rebase_start i w = (Ok StepCompleted, w') → paused (effects w') = false.
Proof.
  unfold run_rebase_start. intros (r & w1 & E1 & E2)%bind_Ok.
  assert (Hs : ∀ v r' v', start_git_rebase (assist_folder i) (rebase_plan i) v = (Ok r', v') →
             r' = Ok StepCompleted → paused (effects v') = false).
  { intros v r' v' E ->. unfold start_git_rebase in E. destruct (rebase_plan i); unfold call in E;
      injection E as E <-; cbn [effects]; rewrite paused_snoc, E; reflexivity. }
  destruct r as [step|f].
  - injection E2 as -> <-. exact (Hs _ _ _ E1 eq_refl).
  - destruct (negb _); [discriminate E2|].
    apply bind_Ok in E2 as (u & w2 & _ & E2). apply bind_Ok in E2 as (again & w3 & E3 & E4).
    destruct again as [step|f']; [|discriminate E4]. injection E4 as -> <-. exact (Hs _ _ _ E3 eq_refl).
Qed.

Lemma loop_completes i w u w' : run_rebase_assist_loop i w = (Ok u, w') → paused (effects w') = false.
Proof.
  unfold run_rebase_assist_loop. intros (b & w1 & _ & E)%bind_Ok. destruct b.
  - apply bind_Ok in E as (fs & w2 & E & [= _ <-]). exact (core_completes _ _ _ _ _ E).
  - apply bind_Ok in E as (step & w2 & E1 & E2). destruct step as [|detail].
    + injection E2 as _ <-. exact (start_completes _ _ _ E1).
    + apply bind_Ok in E2 as (fs & w3 & E & [= _ <-]). exact (core_completes _ _ _ _ _ E).
Qed.

(** C19: No assisted rebase of a session is left half done: whatever Git, the
    database and the agents answer, when the workflow returns, with a result or an
    error, either it did not get past committing the pending changes, or no rebase
    is in progress, or the last thing it did was an abort that Git refused. *)
Theorem rebase_is_never_left_paused i w r w' :
  execute_rebase_workflow i w = (r, w') →
  (∃ new, effects w' = effects w ++ new ∧ Forall (λ e, leaves_rebase (kind e) = true) new)
  ∨ paused (effects w') = false
  ∨ (∃ t failure, effects w' = t ++ [Did _ (GitAbortRebase (assist_folder i)) (Err failure)]).
Proof.
  unfold execute_rebase_workflow. unfold mbind at 1, Flow_bind at 1.
  assert (Uc : uses leaves_rebase (commit_pending_changes i)) by uses_walk.
  destruct (commit_pending_changes i w) as [[u|e] w1] eqn:E1.
  2:{ intros [= <- <-]. left. destruct (Uc w) as ((new & En & F) & _). rewrite E1 in En. by exists new. }
  unfold mbind at 1, Flow_bind at 1. destruct (attempt (run_rebase_assist_loop i) w1) as [a w2] eqn:E2.
  apply attempt_cases in E2 as [(x & -> & E2)|[(e & -> & E2)|(-> & E2)]].
  - intros E3. right. left. apply loop_completes in E2. rewrite <- E2.
    assert (Us : uses leaves_rebase (_ ← persist_stack_base_after_successful_rebase i;
                  source_branch ← expect (session_branch (assist_id i));
                  mret (L"Successfully synced " ++ source_branch ++ L" onto " ++ target_label (rebase_plan i)))) by uses_walk.
    exact (uses_paused _ _ _ _ Us E3).
  - unfold abort_rebase_after_assist_failure, best_effort, mbind, Flow_bind, call, mret, Flow_ret, fail.
    intros [= <- <-]. cbn [effects]. right.
    destruct (host_answer _ (length (effects w2)) (GitAbortRebase (assist_folder i))) as [[]|f] eqn:Ea.
    + left. rewrite paused_snoc. reflexivity.
    + right. by exists (effects w2), f.
  - assert (Ul : uses (λ k, negb (is_kind KPanic k)) (run_rebase_assist_loop i)) by uses_walk.
    destruct (Ul w1) as (_ & P & _). rewrite E2 in P. discriminate (P eq_refl).
Qed.
End pausing.
