(* ===== verification/MergeLaws.v ===== *)
(** * Laws of assisted rebases, merges and syncs

    Assistance is bounded, a merge ends in review or done, a sync pushes only a
    clean branch without a paused rebase, and a rebase invalidates the review of
    the branch before it touches it. *)
From stdpp Require Import gmap.
From S2P Require Import Prelude Contracts Agent Lifecycle Transcript Transient Prompt Input Review Json Session SessionState Stack FileEntry SessionManager Flow Commits RebaseFlow MergeFlow FlowLaws.

(** ** Laws of costs *)

Definition assists (t : list Effect) : nat := length (List.filter (λ e, is_kind KAssist (kind e)) t).

(** The program submits at most [n] assistance prompts. *)
Definition costs {A} (n : nat) (m : Flow A) : Prop :=
  ∀ w, ∃ new, effects (m w).2 = effects w ++ new ∧ assists new <= n.

Lemma assists_app t t' : assists (t ++ t') = assists t + assists t'.
Proof. unfold assists. by rewrite List.filter_app, length_app. Qed.

Lemma costs_free {A} n (m : Flow A) : uses (λ k, negb (is_kind KAssist k)) m → costs n m.
Proof.
  intros Hm w. destruct (Hm w) as ((new & E & F) & _). exists new. split; [done|].
  assert (assists new = 0) as ->; [|lia]. clear E. induction F as [|e new He F IH]; [done|].
  unfold assists in *. cbn. apply negb_true_iff in He. rewrite He. exact IH.
Qed.

Lemma costs_mono {A} n n' (m : Flow A) : n <= n' → costs n m → costs n' m.
Proof. intros Hn Hm w. destruct (Hm w) as (new & E & H). exists new. split; [done|lia]. Qed.

Lemma costs_bind {A B} n n' (m : Flow A) (f : A → Flow B) :
  costs n m → (∀ a, costs n' (f a)) → costs (n + n') (m ≫= f).
Proof.
  intros Hm Hf w. unfold mbind, Flow_bind. destruct (Hm w) as (n1 & E1 & C1).
  destruct (m w) as [[a|e] w']; cbn [snd] in *; [|exists n1; split; [done|lia]].
  destruct (Hf a w') as (n2 & E2 & C2). exists (n1 ++ n2).
  rewrite E2, E1, app_assoc, assists_app. split; [done|lia].
Qed.

Lemma costs_attempt {A} n (m : Flow A) : costs n m → costs n (attempt m).
Proof.
  intros Hm w. destruct (Hm w) as (new & E & C). exists new. unfold attempt.
  destruct (m w) as [[a|[e|]] w']; done.
Qed.

Lemma assists_le t : assists t <= length t.
Proof. unfold assists. induction t as [|e t IH]; cbn; [lia|]. case_match; cbn; lia. Qed.

Section costing.
Context `{Hhost : FlowHost, Htemplates : FlowTemplates, Hesc : JsonEscape, Hhash : ContentHasher}.

Lemma costs_call {A : Set} (c : Call A) : costs 1 (call c).
Proof.
  intros w. exists [Did A c (host_answer A (length (effects w)) c)]. split; [done|].
  etransitivity; [apply assists_le|done].
Qed.

Lemma costs_prompt i p : costs 1 (run_rebase_assist_prompt i p).
Proof. apply (costs_bind 1 0); [apply costs_call|intros ?; apply costs_free; uses_walk]. Qed.

Lemma costs_assist_attempt self n fs : costs 1 (run_assist_attempt self n fs).
Proof.
  unfold run_assist_attempt, run_rebase_assist_agent, run_sync_rebase_assist_agent, append_rebase_assist_header,
    rebase_assist_prompt, emit_sync_rebase_conflict_status.
  destruct self as [i|i]; (apply (costs_bind 0 1); [apply costs_free; uses_walk|intros ?]);
    (apply (costs_bind 0 1); [apply costs_free; uses_walk|intros p]); [apply costs_prompt|].
  apply (costs_bind 1 0); [apply costs_call|intros ?; apply costs_free; uses_walk].
Qed.

Lemma costs_repair self d n : costs 1 (repair_pre_commit_failure self d n).
Proof.
  unfold repair_pre_commit_failure. cbv zeta. destruct self as [i|i].
  - apply (costs_bind 0 1); [apply costs_free; uses_walk|intros ?; apply costs_prompt].
  - apply (costs_bind 1 0); [apply costs_call|intros ?; apply costs_free; uses_walk].
Qed.

Lemma costs_hook self n : ∀ m, costs n (hook_loop self n m).
Proof.
  induction n as [|n IH]; intros m; cbn [hook_loop].
  - apply (costs_bind 0 0); [apply costs_free; uses_walk|intros [u|f]; apply costs_free; uses_walk].
  - apply (costs_bind 0 (S n)); [apply costs_free; uses_walk|intros [u|f]; [apply costs_free; uses_walk|]].
    apply (costs_bind 1 n); [apply costs_repair|intros ?].
    apply (costs_bind 0 n); [apply costs_free; uses_walk|intros ?; apply IH].
Qed.

Lemma costs_continue self st n : costs 3 (continue_rebase_after_assist_attempt self st n).
Proof.
  apply (costs_bind 3 0); [apply costs_hook|intros ?; apply costs_free; uses_walk].
Qed.

Lemma costs_attempt_once self st n : costs 4 (run_rebase_assist_attempt self st n).
Proof.
  apply (costs_bind 0 4); [apply costs_free; uses_walk|intros files].
  destruct (is_empty files); [apply (costs_mono 3); [lia|apply costs_continue]|].
  apply (costs_bind 0 4); [apply costs_free; uses_walk|intros st']. cbv zeta.
  apply (costs_bind 1 3); [apply costs_assist_attempt|intros ?].
  apply (costs_bind 0 3); [apply costs_free; uses_walk|intros b].
  destruct b; [apply costs_free; uses_walk|apply costs_continue].
Qed.

Lemma costs_attempts self r : ∀ n st, costs (4 * r) (assist_attempts self r n st).
Proof.
  induction r as [|r IH]; intros n st; cbn [assist_attempts]; [apply costs_free; uses_walk|].
  replace (4 * S r) with (4 + 4 * r) by lia. apply costs_bind; [apply costs_attempt_once|intros [o st']].
  destruct o; [apply IH|apply costs_free; uses_walk].
Qed.

Lemma costs_core self d : costs 12 (run_rebase_assist_loop_core self d).
Proof.
  apply (costs_bind 12 0).
  - apply costs_attempt. exact (costs_attempts self 3 1 _).
  - intros [fs|e]; apply costs_free; unfold abort_rebase_after_assist_failure; uses_walk.
Qed.

Lemma costs_loop i : costs 12 (run_rebase_assist_loop i).
Proof.
  apply (costs_bind 0 12); [apply costs_free; uses_walk|intros b]. destruct b.
  - apply (costs_bind 12 0); [apply costs_core|intros ?; apply costs_free; uses_walk].
  - apply (costs_bind 0 12); [apply costs_free; uses_walk|intros [|detail]; [apply costs_free; uses_walk|]].
    apply (costs_bind 12 0); [apply costs_core|intros ?; apply costs_free; uses_walk].
Qed.

Lemma costs_rebase_workflow i : costs 12 (execute_rebase_workflow i).
Proof.
  apply (costs_bind 0 12); [apply costs_free; uses_walk|intros _].
  apply (costs_bind 12 0); [apply costs_attempt, costs_loop|intros [u|e]]; apply costs_free;
    unfold abort_rebase_after_assist_failure; uses_walk.
Qed.

Lemma costs_sync b d c : costs 12 (sync_main_for_project b d c).
Proof.
  unfold sync_main_for_project. destruct b as [branch|]; [|apply costs_free; uses_walk].
  apply (costs_bind 0 12); [apply costs_free; uses_walk|intros [root|]; [|apply costs_free; uses_walk]].
  apply (costs_bind 0 12); [apply costs_free; uses_walk|intros [[|]|f]; try (apply costs_free; solve [uses_walk])].
  apply (costs_bind 0 12); [apply costs_free; uses_walk|intros before].
  apply (costs_bind 0 12); [apply costs_free; uses_walk|intros titles].
  apply (costs_bind 0 12); [apply costs_free; uses_walk|intros pulled].
  apply (costs_bind 12 0); [|intros r; apply costs_free; uses_walk].
  destruct pulled as [[|detail]|f]; try (apply costs_free; solve [uses_walk]).
  apply (costs_bind 12 0); [apply costs_attempt, costs_core|intros ?; apply costs_free; uses_walk].
Qed.

(** C21: Agents are asked a bounded number of times: a rebase of a session, with its
    merge or by itself, and a sync of a project branch submit at most twelve
    assistance prompts (three attempts, each with one prompt for the conflicts and
    three for the pre-commit hook), whatever Git and the agents answer. *)
Theorem assistance_is_bounded i b d c w :
  (∃ new, effects (execute_rebase_workflow i w).2 = effects w ++ new ∧ assists new <= 12)
  ∧ (∃ new, effects (sync_main_for_project b d c w).2 = effects w ++ new ∧ assists new <= 12).
Proof. split; [apply costs_rebase_workflow|apply costs_sync]. Qed.
End costing.

(** ** Laws of the status *)

Section status.
Context `{Hhost : FlowHost, Htemplates : FlowTemplates, Hesc : JsonEscape, Hhash : ContentHasher}.

(** No other task changes the status meanwhile. *)
Hypothesis alone : ∀ n s, host_status n s = s.

Definition keeps_status (k : Kind) : bool := negb (is_kind KStatus k).

Lemma status_kept {A} (m : Flow A) w r w' : uses keeps_status m → m w = (r, w') → live_status w' = live_status w.
Proof. intros Hm E. destruct (Hm w) as (_ & _ & [S|S]); [by rewrite E in S|discriminate S]. Qed.

Lemma update_status_run k new w :
  ∃ w', update_status k new w = (Ok (SessionStatus_can_transition_to (live_status w) new), w')
    ∧ live_status w' = if SessionStatus_can_transition_to (live_status w) new then new else live_status w.
Proof using alone.
  unfold update_status. unfold mbind at 1, Flow_bind at 1, try_transition. rewrite alone.
  destruct (SessionStatus_can_transition_to (live_status w) new); [|eexists; split; reflexivity].
  unfold mbind, Flow_bind, emit_session_updated, send_session_and_project_refresh_events, emit, mbind, Flow_bind, call.
  destruct (status_requires_full_refresh new); eexists; split; reflexivity.
Qed.

Lemma apply_Ok k new w w' :
  apply_or_invalid_transition k new w = (Ok tt, w') → live_status w' = new.
Proof using alone.
  unfold apply_or_invalid_transition. intros (b & w1 & E1 & E2)%bind_Ok.
  destruct (update_status_run k new w) as (w2 & E & S). rewrite E in E1. injection E1 as <- <-.
  destruct (SessionStatus_can_transition_to (live_status w) new); [|discriminate E2].
  injection E2 as <-. exact S.
Qed.

Lemma apply_Err k new w e w' :
  apply_or_invalid_transition k new w = (Err e, w') → live_status w' = live_status w.
Proof using alone.
  unfold apply_or_invalid_transition, mbind at 1, Flow_bind at 1.
  destruct (update_status_run k new w) as (w2 & -> & S).
  destruct (SessionStatus_can_transition_to (live_status w) new); [discriminate|]. intros [= _ <-]. exact S.
Qed.

(** What a merge leaves of the status: done with a result, as it was with an error. *)
Definition merge_status (w : World) {A} (r : result A FlowStop) (w' : World) : Prop :=
  match r with Ok _ => live_status w' = Done | Err _ => live_status w' = live_status w end.

Definition settles {A} (m : Flow A) : Prop := ∀ w r w', m w = (r, w') → merge_status w r w'.

Lemma settles_bind {A B} (m : Flow A) (f : A → Flow B) :
  uses keeps_status m → (∀ a, settles (f a)) → settles (m ≫= f).
Proof.
  intros Um Hf w r w'. unfold mbind, Flow_bind. destruct (m w) as [[a|e] w1] eqn:E1;
    pose proof (status_kept m _ _ _ Um E1) as S1.
  - intros E. apply Hf in E. destruct r; [exact E|]. cbn in *. congruence.
  - intros [= <- <-]. exact S1.
Qed.

Lemma settles_ret {A B} (m : Flow A) (b : B) : settles m → settles (_ ← m; mret b).
Proof.
  intros Hm w r w'. unfold mbind, Flow_bind. destruct (m w) as [[a|e] w1] eqn:E1; apply Hm in E1; by intros [= <- <-].
Qed.

Lemma settles_fail {A} e : settles (fail e : Flow A).
Proof. intros w r w' [= <- <-]. reflexivity. Qed.

Lemma settles_apply k : settles (apply_or_invalid_transition k Done).
Proof using alone.
  intros w [[]|e] w' E; cbn; [exact (apply_Ok _ _ _ _ E)|exact (apply_Err _ _ _ _ _ E)].
Qed.

Lemma settles_complete input m h p : settles (complete_successful_merge input m h p).
Proof using alone.
  unfold complete_successful_merge, persist_merged_session_metadata, emit_stacked_parent_merge_completed. cbv zeta.
  do 3 (apply settles_bind; [uses_walk|intros ?]). apply settles_apply.
Qed.

Lemma settles_merge input : settles (execute_merge_workflow input).
Proof using alone.
  unfold execute_merge_workflow. apply settles_bind; [uses_walk|intros [a|e]; [|apply settles_fail]].
  do 4 (apply settles_bind; [unfold load_squash_diff, squash_into_base, load_authoritative_session_commit_message; uses_walk|intros ?]).
  destruct a3 as [message o].
  do 3 (apply settles_bind; [unfold load_merged_commit_hash, cleanup_merged_session_worktree; uses_walk|intros ?]).
  apply settles_ret, settles_complete.
Qed.

(** C18: A merge task always settles its session: when it runs to its end and no
    other task changes the status, a session that was merging is done if the merge
    succeeded and back in review if it failed, never left merging. *)
Theorem merge_settles_session input w w' :
  live_status w = Merging → run_merge_task input w = (Ok tt, w') →
  live_status w' = match (execute_merge_workflow input w).1 with Ok _ => Done | Err _ => Review end.
Proof using alone.
  intros Hs. unfold run_merge_task. intros (r & w1 & E1 & E2)%bind_Ok.
  apply attempt_cases in E1 as [(a & [= ->] & E1)|[(e & [= ->] & E1)|([=] & _)]]; rewrite E1; cbn [fst];
    apply settles_merge in E1; cbn in E1.
  - rewrite <- E1. refine (status_kept _ _ _ _ _ E2).
    unfold finalize_merge_task, emit_session_workflow_notice, request_git_status_refresh. uses_walk.
  - unfold finalize_merge_task in E2. apply bind_Ok in E2 as (u & w2 & E2 & E3).
    assert (S2 : live_status w2 = Merging).
    { rewrite <- Hs, <- E1. refine (status_kept _ _ _ _ _ E2). uses_walk. }
    apply bind_Ok in E3 as (b & w3 & E3 & [= <-]).
    destruct (update_status_run (merge_id input) Review w2) as (w4 & E4 & S4).
    rewrite E4 in E3. injection E3 as _ <-. rewrite S2 in S4. exact S4.
Qed.
End status.

(** ** Laws of pushes *)

Section pushing.
Context `{Hhost : FlowHost, Htemplates : FlowTemplates, Hesc : JsonEscape, Hhash : ContentHasher}.

(** The tracked checkout was found clean. *)
Definition found_clean (dir : str) (t : list Effect) : Prop := Did _ (GitIsWorktreeClean dir) (Ok true) ∈ t.

Definition pushable (dir : str) (t : list Effect) : Prop := found_clean dir t ∧ paused t = false.

(** The part of a sync behind the pull. *)
Definition sync_push (dir branch : str) (before : result (Z * Z) GitFailure) (titles : result (list str) GitFailure)
    (resolved : result (list str) SyncSessionStartError) : Flow (result SyncMainOutcome SyncSessionStartError) :=
  match resolved with
  | Err e => mret (Err e)
  | Ok files =>
      after ← call (GitAheadBehind dir);
      pushed_titles ← call (GitLocalTitles dir);
      pushed ← call (GitPushCurrentBranch dir);
      match pushed with
      | Err error => mret (Err (SyncOther (GitFailure_display error)))
      | Ok _ =>
          let '(pulled, pushed) := summarize_sync_ahead_behind_counts (ok before) (ok after) in
          mret (Ok (mkSyncOutcome branch [] (default [] (ok titles)) pulled (default [] (ok pushed_titles)) pushed files))
      end
  end.

Lemma pushable_app dir t new :
  Forall (λ e, leaves_rebase (kind e) = true) new → pushable dir t → pushable dir (t ++ new).
Proof.
  intros F [Hc Hp]. split; [apply elem_of_app; by left|]. by rewrite paused_app_leaves.
Qed.

Lemma guarded_call {A : Set} bad (G : list Effect → Prop) (c : Call A) w : G (effects w) → guarded bad G (call c) w.
Proof.
  intros HG before e after E Hb. unfold call in E. cbn [snd effects] in E. apply app_inv_head in E.
  destruct before as [|x before]; [by rewrite app_nil_r|]. cbn in E. injection E as _ E. by destruct before.
Qed.

Lemma uses_pushable {A} dir (m : Flow A) w r w' :
  uses leaves_rebase m → m w = (r, w') → pushable dir (effects w) → pushable dir (effects w').
Proof.
  intros Um E HP. destruct (Um w) as ((new & En & F) & _). rewrite E in En. cbn [snd] in En. rewrite En.
  by apply pushable_app.
Qed.

Lemma guarded_sync_push dir branch before titles resolved w :
  pushable dir (effects w) → guarded (is_kind KPush) (pushable dir) (sync_push dir branch before titles resolved) w.
Proof.
  intros HP. unfold sync_push. destruct resolved as [files|e]; [|apply guarded_quiet; uses_walk].
  apply guarded_bind; [uses_walk|intros; uses_walk|apply guarded_quiet; uses_walk|intros a w1 E1].
  assert (H1 : pushable dir (effects w1)) by (refine (uses_pushable dir _ _ _ _ _ E1 HP); uses_walk).
  apply guarded_bind; [uses_walk|intros; uses_walk|apply guarded_quiet; uses_walk|intros t w2 E2].
  assert (H2 : pushable dir (effects w2)) by (refine (uses_pushable dir _ _ _ _ _ E2 H1); uses_walk).
  apply guarded_bind; [uses_walk|intros; uses_walk|by apply guarded_call|intros p w3 E3].
  apply guarded_quiet. uses_walk.
Qed.

(** What the pull and its assistance leave behind. *)
Definition sync_resolve (branch dir : str) (context : option ProjectSyncContext) (pulled : result PullRebaseResult GitFailure)
  : Flow (result (list str) SyncSessionStartError) :=
  match pulled with
  | Err error => mret (Err (SyncOther (GitFailure_display error)))
  | Ok PullCompleted => mret (Ok [])
  | Ok (PullConflict detail) =>
      assisted ← attempt (run_rebase_assist_loop_core (ProjectInput (mkSyncInput branch context dir)) (Some detail));
      mret match assisted with
           | Ok files => Ok files
           | Err error => Err (SyncOther
               (L"Sync stopped on rebase conflicts while updating `" ++ branch ++ L"`: " ++ detail
                  ++ L". Assisted resolution failed: " ++ SessionError_display error))
           end
  end.

Lemma sync_resolve_Ok branch dir context w pulled w1 files w2 :
  call (GitPullRebase dir) w = (Ok pulled, w1) → sync_resolve branch dir context pulled w1 = (Ok (Ok files), w2) →
  paused (effects w2) = false.
Proof.
  intros E1 E2. unfold call in E1. injection E1 as Ep <-. unfold sync_resolve in E2.
  destruct pulled as [[|detail]|f]; [|  |discriminate E2].
  - injection E2 as _ <-. cbn [effects]. rewrite paused_snoc, Ep. reflexivity.
  - apply bind_Ok in E2 as (a & w3 & E3 & E4).
    apply attempt_cases in E3 as [(x & [= ->] & E3)|[(e & [= ->] & E3)|([=] & _)]].
    + injection E4 as _ <-. exact (core_completes _ _ _ _ _ E3).
    + discriminate E4.
Qed.

Lemma uses_sync_resolve K branch dir context pulled :
  K KRead = true → K KNote = true → K KRecord = true → K KAssist = true → K KStage = true → K KRebase = true →
  K KAbort = true → K KProbe = true → uses K (sync_resolve branch dir context pulled).
Proof. intros. unfold sync_resolve. uses_walk. Qed.

Lemma guarded_sync_pull branch dir context before titles w :
  found_clean dir (effects w) →
  guarded (is_kind KPush) (pushable dir)
    (pulled ← call (GitPullRebase dir); resolved ← sync_resolve branch dir context pulled;
     sync_push dir branch before titles resolved) w.
Proof.
  intros Hc. pose proof uses_sync_resolve as Ur.
  apply guarded_bind; [uses_walk|intros; unfold sync_push; uses_walk; apply Ur; reflexivity|apply guarded_quiet; uses_walk|].
  intros pulled w1 E1.
  apply guarded_bind; [apply Ur; reflexivity|intros; unfold sync_push; uses_walk|apply guarded_quiet, Ur; reflexivity|].
  intros resolved w2 E2. destruct resolved as [files|e]; [|apply guarded_quiet; unfold sync_push; uses_walk].
  apply guarded_sync_push. split; [|exact (sync_resolve_Ok _ _ _ _ _ _ _ _ E1 E2)].
  eapply (uses_in all_kinds (sync_resolve branch dir context pulled) w1 _ w2); [apply Ur; reflexivity|exact E2|].
  eapply (uses_in all_kinds (call (GitPullRebase dir)) w _ w1); [uses_walk|exact E1|exact Hc].
Qed.

(** A project sync pushes only what it may push: whatever Git and the agents
    answer, the branch is pushed only after its checkout was found clean and while
    no rebase is in progress, that is after a pull without conflicts or after
    all of its conflicts were resolved. *)
Theorem sync_pushes_resolved_branch branch dir context w before e after :
  effects (sync_main_for_project branch dir context w).2 = effects w ++ before ++ e :: after → kind e = KPush →
  found_clean dir (effects w ++ before) ∧ paused (effects w ++ before) = false.
Proof.
  intros E Hk. revert before e after E Hk.
  cut (guarded (is_kind KPush) (pushable dir) (sync_main_for_project branch dir context) w).
  { intros Hg before e after E Hk. apply (Hg before e after E). rewrite Hk. reflexivity. }
  unfold sync_main_for_project. destruct branch as [branch|]; [|apply guarded_quiet; uses_walk].
  apply guarded_bind; [uses_walk|intros; uses_walk|apply guarded_quiet; uses_walk|intros root w1 _].
  destruct root as [root|]; [|apply guarded_quiet; uses_walk].
  apply guarded_bind; [uses_walk|intros; uses_walk|apply guarded_quiet; uses_walk|intros clean w2 Ec].
  destruct clean as [[|]|f]; try (apply guarded_quiet; solve [uses_walk]).
  assert (Hc : found_clean dir (effects w2)).
  { unfold call in Ec. injection Ec as Ec <-. unfold found_clean. cbn [effects]. rewrite Ec.
    apply elem_of_app. right. by apply list_elem_of_singleton. }
  apply guarded_bind; [uses_walk|intros; uses_walk|apply guarded_quiet; uses_walk|intros b w3 E3].
  apply guarded_bind; [uses_walk|intros; uses_walk|apply guarded_quiet; uses_walk|intros t w4 E4].
  apply (guarded_sync_pull branch dir context b t w4).
  eapply (uses_in all_kinds (call (GitUpstreamTitles dir)) w3 _ w4); [uses_walk|exact E4|].
  eapply (uses_in all_kinds (call (GitAheadBehind dir)) w2 _ w3); [uses_walk|exact E3|exact Hc].
Qed.
End pushing.

(** ** Laws of the rebase command *)

(** Kinds that work on the branch. *)
Definition branch_work (k : Kind) : bool :=
  match k with
  | KCommit | KStage | KRebase | KAbort | KAssist | KMessage | KFetch | KProbe | KSquash | KRemove | KPull | KPush => true
  | _ => false
  end.

Definition lock_free (k : Kind) : bool := negb (is_kind KLock k) && negb (is_kind KRelease k).
Definition lightweight (k : Kind) : bool := lock_free k && negb (branch_work k).

Section command.
Context `{Hhost : FlowHost, Htemplates : FlowTemplates, Hesc : JsonEscape, Hhash : ContentHasher}.

Lemma db_Ok {A : Set} (c : Call (result A str)) w a w' :
  db c w = (Ok a, w') → effects w' = effects w ++ [Did _ c (Ok a)].
Proof.
  unfold db, mbind, Flow_bind, call. destruct (host_answer _ _ c) as [x|x]; cbn; intros [= <- <-]; reflexivity.
Qed.

Lemma uses_plan K dir k base : K KRead = true → K KFetch = true → uses K (resolve_session_rebase_plan dir k base).
Proof. intros. unfold resolve_session_rebase_plan, resolve_session_rebase_target. uses_walk. Qed.
#[local] Hint Resolve uses_plan : flow.

Lemma uses_auto_push K k : K KRead = true → K KNote = true → K KRelease = true → uses K (start_auto_push_after_rebase k).
Proof. intros. unfold start_auto_push_after_rebase. uses_walk. Qed.
#[local] Hint Resolve uses_auto_push : flow.

Lemma uses_finalize_rebase K k r :
  K KRead = true → K KNote = true → K KRecord = true → K KStatus = true → K KRelease = true →
  uses K (finalize_rebase_task k r).
Proof. intros. unfold finalize_rebase_task, request_git_status_refresh. uses_walk. Qed.
#[local] Hint Resolve uses_finalize_rebase : flow.

Lemma uses_rebase_body K mode dir k base :
  K KRead = true → K KNote = true → K KRecord = true → K KClear = true → K KFetch = true → K KAssist = true →
  K KStage = true → K KProbe = true → K KRebase = true → K KAbort = true → K KMessage = true → K KCommit = true →
  K KPanic = true → uses K (rebase_body mode dir k base).
Proof. intros. unfold rebase_body. uses_walk. Qed.
#[local] Hint Resolve uses_rebase_body : flow.

(** The focused review of a branch is invalidated before the branch changes:
    whatever is answered, every commit, staging, fetch, rebase step, abort and
    assistance of a rebase command comes after the database has cleared the review
    of that session; when that fails, the branch is not touched. *)
Theorem review_is_cleared_before_rebase mode dir k base w before e after :
  effects (run_rebase_command mode dir k base w).2 = effects w ++ before ++ e :: after → branch_work (kind e) = true →
  Did _ (DbClearFocusedReview k) (Ok tt) ∈ effects w ++ before.
Proof.
  revert before e after. set (G := λ t : list Effect, Did _ (DbClearFocusedReview k) (Ok tt) ∈ t).
  assert (HG : lasting G) by (intros t t' H; apply elem_of_app; by left).
  change (guarded branch_work G (run_rebase_command mode dir k base) w). unfold run_rebase_command.
  apply guarded_bind; [uses_walk|intros; uses_walk|apply guarded_quiet; uses_walk|intros u w1 _].
  apply guarded_bind; [uses_walk|intros; uses_walk|apply guarded_quiet; uses_walk|intros [a|e] w2 _].
  2:{ apply guarded_quiet. uses_walk. }
  apply guarded_bind; [uses_walk|intros; uses_walk|apply guarded_quiet; uses_walk|intros u' w3 _].
  apply guarded_bind; [uses_walk|intros; uses_walk| |intros r w4 _; apply guarded_quiet; uses_walk].
  apply guarded_attempt. unfold rebase_body.
  apply guarded_bind; [uses_walk|intros; uses_walk|apply guarded_quiet; uses_walk|intros [] w5 E].
  apply guarded_from; [done|uses_walk|]. apply db_Ok in E. unfold G. rewrite E.
  apply elem_of_app. right. by apply list_elem_of_singleton.
Qed.

(** Programs that do not fail, unless they panic. *)
Definition sure {A} (m : Flow A) : Prop := ∀ w, (∃ a, (m w).1 = Ok a) ∨ (m w).1 = Err Panicked.

Lemma sure_ret {A} (a : A) : sure (mret a : Flow A).
Proof. left. by exists a. Qed.

Lemma sure_call {A : Set} (c : Call A) : sure (call c).
Proof. left. eexists. reflexivity. Qed.

Lemma sure_attempt {A} (m : Flow A) : sure (attempt m).
Proof. intros w. unfold attempt. destruct (m w) as [[a|[e|]] w']; [left; eauto|left; eauto|by right]. Qed.

Lemma sure_bind {A B} (m : Flow A) (f : A → Flow B) : sure m → (∀ a, sure (f a)) → sure (m ≫= f).
Proof.
  intros Hm Hf w. unfold mbind, Flow_bind. destruct (Hm w) as [[a E]|E]; destruct (m w) as [r w']; cbn in E; subst r;
    [apply Hf|by right].
Qed.

Lemma sure_notice k m : sure (append_workflow_notice k m).
Proof.
  apply sure_bind; [apply sure_call|intros _]. apply sure_bind; [apply sure_call|intros ?; apply sure_call].
Qed.

Lemma sure_update k s : sure (update_status k s).
Proof.
  unfold update_status. apply sure_bind; [intros w; left; unfold try_transition; case_match; eauto|intros b].
  destruct b; [|apply sure_ret]. apply sure_bind; [apply sure_call|intros _].
  apply sure_bind; [apply sure_bind; [apply sure_call|intros ?; apply sure_call]|intros _].
  apply sure_bind; [|intros _; apply sure_ret]. destruct (status_requires_full_refresh s); [|apply sure_ret].
  apply sure_bind; [apply sure_call|intros _; apply sure_call].
Qed.

(** The lock is given up exactly once, behind all work on the branch. *)
Definition releases {A} (m : Flow A) : Prop :=
  ∀ w, (m w).1 ≠ Err Panicked → ∃ mid rel tail,
    effects (m w).2 = effects w ++ mid ++ rel :: tail ∧ kind rel = KRelease
    ∧ Forall (λ e, lock_free (kind e) = true) mid ∧ Forall (λ e, lightweight (kind e) = true) tail.

Lemma releases_call {A : Set} (c : Call A) : call_kind c = KRelease → releases (call c).
Proof. intros Hk w _. exists [], (Did A c (host_answer A (length (effects w)) c)), []. by split_and!. Qed.

Lemma releases_before {A B} (m : Flow A) (f : A → Flow B) :
  uses lock_free m → sure m → (∀ a, releases (f a)) → releases (m ≫= f).
Proof.
  intros Um Sm Hf w. unfold mbind, Flow_bind. destruct (Um w) as ((n & E & F) & _).
  destruct (Sm w) as [[a Ea]|Ea]; destruct (m w) as [r w'] eqn:Em; cbn [fst snd] in *; subst r; [|by intros []].
  intros Hp. destruct (Hf a w' Hp) as (mid & rel & tail & E' & Hk & F1 & F2).
  exists (n ++ mid), rel, tail. rewrite E', E, <- !app_assoc. split_and!; [done|done|by apply Forall_app|done].
Qed.

Lemma releases_after {A B} (m : Flow A) (f : A → Flow B) :
  releases m → (∀ a, uses lightweight (f a)) → releases (m ≫= f).
Proof.
  intros Hm Uf w. unfold mbind, Flow_bind. destruct (m w) as [[a|e] w'] eqn:Em; cbn [fst snd].
  - intros _. destruct (Hm w) as (mid & rel & tail & E & Hk & F1 & F2); [by rewrite Em|]. rewrite Em in E. cbn [snd] in E.
    destruct (Uf a w') as ((n & En & Fn) & _). exists mid, rel, (tail ++ n).
    rewrite En, E, <- !app_assoc. cbn. split_and!; [done|done|done|by apply Forall_app].
  - intros Hp. destruct (Hm w) as (mid & rel & tail & E & Hk & F1 & F2).
    { rewrite Em. cbn [fst]. intros [= ->]. by apply Hp. }
    rewrite Em in E. by exists mid, rel, tail.
Qed.

Lemma releases_auto_push k : releases (start_auto_push_after_rebase k).
Proof.
  unfold start_auto_push_after_rebase. apply releases_before; [uses_walk|apply sure_call|intros up].
  destruct (ok up ≫= λ o, o); [|by apply releases_call].
  apply releases_before; [uses_walk|apply sure_call|intros op].
  apply releases_before; [uses_walk|apply sure_call|intros _]. by apply releases_call.
Qed.

Lemma releases_finalize k r : releases (finalize_rebase_task k r).
Proof.
  unfold finalize_rebase_task. destruct r as [message|e].
  - apply releases_after; [|intros _; uses_walk].
    apply releases_before; [uses_walk|apply sure_notice|intros _].
    apply releases_before; [apply uses_call; reflexivity|apply sure_call|intros _]. apply releases_auto_push.
  - apply releases_before; [uses_walk|apply sure_notice|intros _].
    apply releases_before; [uses_walk|apply sure_update|intros _]. by apply releases_call.
Qed.

(** C20: The lock of a session branch covers its rebase: a rebase command takes the
    lock first, gives it up exactly once (itself, or by handing it to the push that
    follows), on every path with or without an error, and nothing works on the
    branch after that. *)
Theorem branch_lock_covers_rebase mode dir k base w :
  (run_rebase_command mode dir k base w).1 ≠ Err Panicked →
  ∃ mid rel tail,
    effects (run_rebase_command mode dir k base w).2 = effects w ++ Did _ (LockBranch k) tt :: mid ++ rel :: tail
    ∧ kind rel = KRelease ∧ Forall (λ e, lock_free (kind e) = true) mid
    ∧ Forall (λ e, lightweight (kind e) = true) tail.
Proof.
  set (rest := applied ← attempt (apply_or_invalid_transition k Rebasing);
    match applied with
    | Err error => _ ← call (UnlockBranch k); fail error
    | Ok _ =>
        _ ← emit (SessionQueuedSyncResolved k);
        rebase_result ← attempt (rebase_body mode dir k base);
        _ ← finalize_rebase_task k rebase_result;
        match rebase_result with
        | Err error => fail (Workflow (SessionError_display error))
        | Ok _ => mret tt
        end
    end : Flow unit).
  assert (Hr : releases rest).
  { subst rest. apply releases_before; [uses_walk|apply sure_attempt|intros [u|e]].
    - apply releases_before; [uses_walk|apply sure_call|intros _].
      apply releases_before; [uses_walk|apply sure_attempt|intros r].
      apply releases_after; [apply releases_finalize|intros _; uses_walk].
    - apply releases_after; [by apply releases_call|intros _; uses_walk]. }
  change (run_rebase_command mode dir k base) with (_ ← call (LockBranch k); rest).
  unfold mbind, Flow_bind, call. intros Hp.
  destruct (Hr _ Hp) as (mid & rel & tail & E & H). exists mid, rel, tail. split; [|exact H].
  rewrite E. cbn [effects]. rewrite <- app_assoc. cbn [app]. by destruct (host_answer unit _ _).
Qed.
End command.

(** ** A merge with conflicts *)

Module MergeDemo.
#[local] Instance plain_escape : JsonEscape := λ c, [c].
#[local] Instance constant_hash : ContentHasher := λ _, 7%Z.
#[local] Instance texts : FlowTemplates := {|
  render_rebase_assist := λ base files note, Ok (base ++ files ++ note);
  rebase_hook_repair_prompt := L"Repair the hook.";
  render_auto_commit_assist := λ error, Ok error
|}.

(** Git stops the rebase on a conflict that one prompt resolves; the database
    stores merged hashes when [stores] is set. *)
Definition answer (stores : bool) (A : Set) (n : nat) (c : Call A) : A :=
  match c in Call B return B with
  | GitFindRepoRoot _ => Some (L"/repo")
  | GitMainRepoRoot _ => Ok (L"/repo")
  | GitIsWorktreeClean _ => Ok true
  | GitIsRebaseInProgress _ => Ok false
  | GitRebaseStart _ _ => Ok (StepConflict (L"CONFLICT"))
  | GitRebaseOntoStart _ _ _ => Ok (StepConflict (L"CONFLICT"))
  | GitRebaseContinue _ => Ok StepCompleted
  | GitAbortRebase _ => Ok tt
  | GitListConflictedFiles _ => Ok [L"a.rs"]
  | GitListStagedMarkerFiles _ _ => Ok []
  | GitStageAll _ => Ok tt
  | GitHasUnmergedPaths _ => Ok false
  | GitRunPreCommitHook _ => Ok tt
  | GitHeadHash _ => Ok (L"abc")
  | GitHeadShortHash _ => Ok (L"abc")
  | GitHeadCommitMessage _ => Ok (Some (L"Add a"))
  | GitRefHash _ _ => Ok (L"abc")
  | GitSquashMergeDiff _ _ _ => Ok (L"+a")
  | GitSquashMerge _ _ _ _ => Ok Committed
  | GitRemoveWorktree _ => Ok tt
  | GitDeleteBranch _ _ => Ok tt
  | GitFetchRemote _ => Ok tt
  | GitAheadBehind _ => Ok (1, 1)%Z
  | GitUpstreamTitles _ => Ok []
  | GitLocalTitles _ => Ok []
  | GitPullRebase _ => Ok (PullConflict (L"CONFLICT"))
  | GitPushCurrentBranch _ => Ok tt
  | GitDiff _ _ => Ok (L"+a")
  | GitHasCommitsSince _ _ => Ok true
  | GitDiffChangedFiles _ _ => Ok []
  | GitCommitAll _ _ _ => Ok tt
  | GitCheckPreCommitHook _ => Ok tt
  | ReadFile _ => Ok (L"<<<<<<<")
  | RemoveDirAll _ => Ok tt
  | DbBaseBranch _ => Ok (Some (L"main"))
  | DbPublishedUpstream _ => Ok None
  | DbStackBase _ => Ok None
  | DbSetStackBase _ _ => Ok tt
  | DbParent _ => Ok None
  | DbSessionProject _ => Ok None
  | DbCoauthorSetting _ => Ok None
  | DbClearFocusedReview _ => Ok tt
  | DbSetTitle _ _ => Ok tt
  | DbSetMergedHash _ _ => if stores then Ok tt else Err (L"database is locked")
  | DbArchiveDiff _ _ => Ok tt
  | DbPersistStatus _ _ => Ok tt
  | DbRestackChildren _ _ _ => Ok []
  | DbUnfinishedRebase _ => Ok false
  | LiveNotices _ => []
  | AppendNotice _ _ => Ok tt
  | AgentAssist _ _ => Ok tt
  | AgentCommitAnswer _ _ _ => Ok (L"Add a")
  | EnqueueRebase _ _ => Ok tt
  | EnqueueExistingRebase _ _ => Ok 1%Z
  | NextUpdateVersion _ => Z.of_nat n
  | NewOperationId => L"op"
  | Emit _ => tt
  | LockBranch _ => tt
  | UnlockBranch _ => tt
  | SpawnMergeTask _ _ _ => tt
  | SpawnAutoPush _ _ _ => tt
  end.

#[local] Instance smooth : FlowHost := {| host_answer := answer true; host_status := λ _ s, s |}.

Definition input : MergeTaskInput :=
  mkMergeInput false (L"main") (L"/wt/s") (L"session1") (L"/repo") (L"wt/session1").
Definition start : World := mkWorld [] Merging.
Definition merge_run : list Effect := Eval vm_compute in effects (run_merge_task input start).2.

(** Where the first call of a kind stands. *)
Fixpoint position (k : Kind) (t : list Effect) : nat :=
  match t with [] => 0 | e :: t => if is_kind k (kind e) then 0 else S (position k t) end.

Lemma merged_work_is_never_lost_witness :
  ∃ e', e' ∈ take (position KRemove merge_run) merge_run ∧ in_base input e'.
Proof.
  refine (merged_work_is_never_lost input start (take (position KRemove merge_run) merge_run)
    (Did _ (GitRemoveWorktree (L"/wt/s")) (Ok tt)) (drop (S (position KRemove merge_run)) merge_run) _ _).
  - vm_compute. reflexivity.
  - reflexivity.
Defined.

Definition rebase_input : RebaseAssistInput := merge_rebase_input input.

Lemma rebase_is_never_left_paused_witness :
  (∃ new, effects (execute_rebase_workflow rebase_input start).2 = effects start ++ new
     ∧ Forall (λ e, leaves_rebase (kind e) = true) new)
  ∨ paused (effects (execute_rebase_workflow rebase_input start).2) = false
  ∨ (∃ t failure, effects (execute_rebase_workflow rebase_input start).2
                  = t ++ [Did _ (GitAbortRebase (assist_folder rebase_input)) (Err failure)]).
Proof.
  exact (rebase_is_never_left_paused rebase_input start (execute_rebase_workflow rebase_input start).1
           (execute_rebase_workflow rebase_input start).2 (surjective_pairing _)).
Defined.

Lemma merge_settles_session_witness : live_status (run_merge_task input start).2 = Done.
Proof.
  refine (merge_settles_session (λ _ _, eq_refl) input start (run_merge_task input start).2 eq_refl _).
  vm_compute. reflexivity.
Defined.

Definition sync_run : list Effect :=
  Eval vm_compute in effects (sync_main_for_project (Some (L"main")) (L"/repo") None start).2.

Lemma sync_pushes_resolved_branch_witness :
  found_clean (L"/repo") (take (position KPush sync_run) sync_run)
  ∧ paused (take (position KPush sync_run) sync_run) = false.
Proof.
  refine (sync_pushes_resolved_branch (Some (L"main")) (L"/repo") None start (take (position KPush sync_run) sync_run)
    (Did _ (GitPushCurrentBranch (L"/repo")) (Ok tt)) (drop (S (position KPush sync_run)) sync_run) _ _).
  - vm_compute. reflexivity.
  - reflexivity.
Defined.

Definition waiting : World := mkWorld [] Review.
Definition command_run : list Effect :=
  Eval vm_compute in effects (run_rebase_command OneShot (L"/wt/s") (L"session1") (L"main") waiting).2.

Lemma review_is_cleared_before_rebase_witness :
  Did _ (DbClearFocusedReview (L"session1")) (Ok tt) ∈ take (position KRebase command_run) command_run.
Proof.
  refine (review_is_cleared_before_rebase OneShot (L"/wt/s") (L"session1") (L"main") waiting
    (take (position KRebase command_run) command_run)
    (Did _ (GitRebaseStart (L"/wt/s") (L"main")) (Ok (StepConflict (L"CONFLICT"))))
    (drop (S (position KRebase command_run)) command_run) _ _).
  - vm_compute. reflexivity.
  - reflexivity.
Defined.

Lemma branch_lock_covers_rebase_witness :
  ∃ mid rel tail, command_run = Did _ (LockBranch (L"session1")) tt :: mid ++ rel :: tail
    ∧ kind rel = KRelease ∧ Forall (λ e, lock_free (kind e) = true) mid
    ∧ Forall (λ e, lightweight (kind e) = true) tail.
Proof.
  refine (branch_lock_covers_rebase OneShot (L"/wt/s") (L"session1") (L"main") waiting _).
  vm_compute. discriminate.
Defined.
End MergeDemo.

(** ** A merge whose record is lost *)

(** The database refuses the hash of the merge after the branch is gone. *)
Module MergeRecordDemo.
#[local] Instance plain_escape : JsonEscape := λ c, [c].
#[local] Instance constant_hash : ContentHasher := λ _, 7%Z.
#[local] Instance texts : FlowTemplates := MergeDemo.texts.
#[local] Instance forgetful : FlowHost := {| host_answer := MergeDemo.answer false; host_status := λ _ s, s |}.

Lemma merged_session_returns_to_review :
  let w := (run_merge_task MergeDemo.input MergeDemo.start).2 in
  live_status w = Review
  ∧ Did _ (GitSquashMerge (L"/repo") (L"wt/session1") (L"main") (L"Add a")) (Ok Committed) ∈ effects w
  ∧ Did _ (GitDeleteBranch (L"/repo") (L"wt/session1")) (Ok tt) ∈ effects w.
Proof.
  split_and!; [vm_compute; reflexivity| |]; apply list_elem_of_In; vm_compute; tauto.
Qed.
End MergeRecordDemo.
