(* ===== verification/BranchPublish.v ===== *)
(** * Publishing session branches (crates/agentty/src/app/branch_publish.rs, review_request.rs)

    A session branch is pushed to its remote and, for a review request, linked to
    one on the forge.  The Git client, the forge client and the database answer
    from an environment; what was asked is noted in a trace. *)
From S2P Require Import Prelude Contracts Agent Lifecycle Transcript Transient Prompt Input Review Session SessionState FileEntry SessionManager Schema ToolCalls Forge.

(** ** Data *)

Record BranchPublishTaskSession := mkPublishSession {
  publish_base_branch : str;
  publish_folder : str;
  publish_id : SessionId;
  publish_upstream_ref : option str;
  publish_review_request : option ReviewRequest;
  publish_status : SessionStatus
}.

Definition from_session `{FxHasher} (s : Session) : BranchPublishTaskSession :=
  mkPublishSession (base_branch s) (folder s) (id s) (published_upstream_ref s) (review_request s) (status s).

Record BranchPublishTaskFailure := mkFailure { is_blocked : bool; failure_message : str; failure_title : str }.

Definition failure_blocked (action : PublishBranchAction) (message : str) : BranchPublishTaskFailure :=
  mkFailure true message
    match action with Push => L"Branch push blocked" | PublishPullRequest => L"Review request publish blocked" end.

Definition failure_failed (action : PublishBranchAction) (message : str) : BranchPublishTaskFailure :=
  mkFailure false message
    match action with Push => L"Branch push failed" | PublishPullRequest => L"Review request publish failed" end.

Record ReviewRequestCreationInfo := mkCreationInfo { creation_forge_kind : ForgeKind; creation_web_url : option str }.

Inductive BranchPublishTaskSuccess :=
| Pushed (branch_name : str) (review_request_creation : option ReviewRequestCreationInfo) (upstream_reference : str)
| PullRequestPublished (branch_name : str) (review_request : ReviewRequest) (upstream_reference : str).

Definition BranchPublishTaskResult : Type := result BranchPublishTaskSuccess BranchPublishTaskFailure.

Definition review_request_from_publish_result (r : BranchPublishTaskResult) : result ReviewRequest str :=
  match r with
  | Ok (PullRequestPublished _ review_request _) => Ok review_request
  | Ok (Pushed _ _ _) => Err (L"Review-request publishing completed without a review request")
  | Err failure => Err (failure_message failure)
  end.

(** ** Texts *)

Definition branch_publish_loading_label (action : PublishBranchAction) : str :=
  match action with Push => L"Pushing branch..." | PublishPullRequest => L"Publishing review request..." end.

Definition review_request_queued_label : str := L"review request — publish after this turn".

Definition branch_publish_success_title (action : PublishBranchAction) : str :=
  match action with Push => L"Branch pushed" | PublishPullRequest => L"Review request published" end.

Definition branch_push_success_message (branch_name : str) (creation : option ReviewRequestCreationInfo) : str :=
  let pushed := L"Pushed session branch `" ++ branch_name ++ L"`." ++ [newline; newline] in
  match creation with
  | Some (mkCreationInfo kind (Some url)) =>
      pushed ++ L"Open this link to create the " ++ ForgeKind_review_request_name kind ++ L":" ++ [newline] ++ url
  | Some (mkCreationInfo kind None) =>
      pushed ++ L"Create the " ++ ForgeKind_review_request_name kind ++ L" manually from your forge UI."
  | None => pushed ++ L"Create the review request manually from your forge UI."
  end.

Definition review_request_created_notice (r : ReviewRequest) : str :=
  format_notice NoticeReviewRequest
    (L"Created " ++ ForgeKind_review_request_short_name (forge_kind (summary r)) ++ L" " ++ web_url (summary r)).

Definition has_authentication_error_keywords (normalized_detail : str) : bool :=
  contains_any normalized_detail
    [L"authentication failed"; L"terminal prompts disabled"; L"could not read username"; L"could not read password";
     L"permission denied"; L"access denied"; L"not authorized";
     L"support for password authentication was removed"; L"the requested url returned error: 403";
     L"repository not found"].

Definition is_git_push_authentication_error (detail_message : str) : bool :=
  let normalized_detail := map ascii_lower detail_message in
  let is_push_context :=
    str_contains normalized_detail (L"git push failed")
    || str_contains normalized_detail (L"push")
       && (str_contains normalized_detail (L"remote") || str_contains normalized_detail (L"origin")) in
  is_push_context && has_authentication_error_keywords normalized_detail.

Definition is_github_host (host : str) : bool := str_eqb host (L"github.com") || ends_with host (L".github.com").

(** [trim_start_matches] of a text: the prefix is dropped as often as it occurs. *)
Fixpoint trim_start_text (fuel : nat) (prefix s : str) : str :=
  match fuel with
  | O => s
  | S fuel => match strip_prefix prefix s with Some rest => trim_start_text fuel prefix rest | None => s end
  end.

Definition drop_schemes (schemes : list str) (s : str) : str :=
  fold_left (λ s scheme, trim_start_text (length s) scheme s) schemes s.

Definition first_of (sep : char) (s : str) : str := match split_char sep s with first :: _ => first | [] => s end.

Definition host_punctuation (c : char) : bool := existsb (N.eqb c) [34%N; 39%N; 96%N; 40%N; 41%N; 91%N; 93%N; 123%N; 125%N; 60%N; 62%N; 44%N; 59%N; 58%N].

Definition normalized_host_token (token : str) : str :=
  let token := trim_matches host_punctuation (trim token) in
  let token := drop_schemes [L"https://"; L"http://"; L"ssh://"] token in
  strip_port (first_of slash (strip_userinfo token)).

Definition detected_kind (host : str) : option ForgeKind :=
  if is_github_host host then Some GitHub else if is_gitlab_host host then Some GitLab else None.

Fixpoint detected_in_tokens (tokens : list str) : option ForgeKind :=
  match tokens with
  | [] => None
  | token :: rest =>
      let normalized_host := normalized_host_token token in
      if is_empty normalized_host then detected_in_tokens rest
      else match detected_kind normalized_host with Some kind => Some kind | None => detected_in_tokens rest end
  end.

Definition detected_forge_kind_from_text (detail_message : str) : option ForgeKind :=
  detected_in_tokens (words [] detail_message).

Definition extract_host_from_prompt (detail_message marker : str) : option str :=
  '(_, quoted_host) ← split_once detail_message marker;
  let host := trim_end_matches is_slash (trim (first_of 39%N quoted_host)) in
  let host := drop_schemes [L"https://"; L"http://"] host in
  Some (strip_userinfo (first_of slash host)).

Definition extract_push_auth_prompt_host (detail_message : str) : option str :=
  match extract_host_from_prompt detail_message (L"could not read username for '") with
  | Some host => Some host
  | None => extract_host_from_prompt detail_message (L"could not read password for '")
  end.

Definition detected_forge_kind_from_push_auth_url (detail_message : str) : option ForgeKind :=
  host ← extract_push_auth_prompt_host detail_message;
  if is_empty host then None else detected_kind (strip_port host).

Definition detected_forge_kind_from_git_push_error (detail_message : str) : option ForgeKind :=
  let normalized_detail := map ascii_lower detail_message in
  match detected_forge_kind_from_push_auth_url normalized_detail with
  | Some kind => Some kind
  | None =>
      match detected_forge_kind_from_text detail_message with
      | Some kind => Some kind
      | None =>
          if str_contains normalized_detail (L" gh ") then Some GitHub
          else if str_contains normalized_detail (L" glab ") then Some GitLab
          else None
      end
  end.

Definition retry_action_text (action : PublishBranchAction) : str :=
  match action with Push => L"push the branch again" | PublishPullRequest => L"publish the review request again" end.

Definition git_push_authentication_message (kind : option ForgeKind) (retry_action : str) : str :=
  L"Git push requires authentication for this repository." ++ [newline] ++ L"Authorize git access, then "
    ++ retry_action ++ L"." ++ [newline]
    ++ match kind with
       | Some GitHub => L"Run `gh auth login`, or configure credentials with a PAT/SSH key."
       | Some GitLab => L"Run `glab auth login`, or configure credentials with a PAT/SSH key."
       | None => L"Configure Git credentials with a PAT/SSH key or credential helper."
       end.

(** The first line that is not blank, and the text behind it. *)
Fixpoint title_and_rest (ls : list str) : option (str * list str) :=
  match ls with
  | [] => None
  | l :: rest => if is_empty (trim l) then title_and_rest rest else Some (trim l, rest)
  end.

Record ReviewRequestCommitMessage := mkCommitMessage { commit_body : option str; commit_title : str }.

Definition parse_review_request_commit_message (commit_message : str) : option ReviewRequestCommitMessage :=
  '(title, rest) ← title_and_rest (str_lines commit_message);
  let description := trim (join [newline] rest) in
  Some (mkCommitMessage (if is_empty description then None else Some description) title).

Inductive InProgressGitOperation := CherryPick | GitMerge | GitRebase | GitRevert.

Definition article_name (self : InProgressGitOperation) : str :=
  match self with
  | CherryPick => L"a cherry-pick" | GitMerge => L"a merge" | GitRebase => L"a rebase" | GitRevert => L"a revert"
  end.

Definition operation_name (self : InProgressGitOperation) : str :=
  match self with
  | CherryPick => L"cherry-pick" | GitMerge => L"merge" | GitRebase => L"rebase" | GitRevert => L"revert"
  end.

(** ** Calls and answers *)

Inductive PublishEffect :=
| DidInspectOperation (folder : str) (answer : result (option InProgressGitOperation) str)
| DidDetectBranch (folder : str) (answer : option str)
| DidCheckRemoteBranch (folder branch : str) (answer : result bool str)
| DidPush (folder branch : str) (as_new : bool) (answer : result str str)
| DidPersistUpstream (k : SessionId) (reference : str) (answer : result unit str)
| DidReadRepoUrl (folder : str) (answer : result str str)
| DidReadCommitMessage (folder : str) (answer : result (option str) str)
| DidFindRequest (remote : ForgeRemote) (branch : str)
    (answer : result (option ReviewRequestSummary) ReviewRequestError)
| DidRefreshRequest (remote : ForgeRemote) (display_id : str) (answer : result ReviewRequestSummary ReviewRequestError)
| DidCreateRequest (remote : ForgeRemote) (input : CreateReviewRequestInput)
    (answer : result ReviewRequestSummary ReviewRequestError)
| DidPersistRequest (k : SessionId) (request : ReviewRequest) (answer : result unit str).

Class PublishEnvironment := {
  env_operation : nat → str → result (option InProgressGitOperation) str;
  env_branch : nat → str → option str;
  env_remote_branch : nat → str → str → result bool str;
  env_push : nat → str → str → bool → result str str;
  env_upstream : nat → SessionId → str → result unit str;
  env_repo_url : nat → str → result str str;
  env_commit_message : nat → str → result (option str) str;
  env_find : nat → ForgeRemote → str → result (option ReviewRequestSummary) ReviewRequestError;
  env_refresh : nat → ForgeRemote → str → result ReviewRequestSummary ReviewRequestError;
  env_create : nat → ForgeRemote → CreateReviewRequestInput → result ReviewRequestSummary ReviewRequestError;
  env_store_request : nat → SessionId → ReviewRequest → result unit str;
  env_now : nat → Z;
  creation_url : ForgeRemote → str → str → result str ReviewRequestError
}.

(** A failure, or the panic of a slice inside a character. *)
Inductive PublishStop := Failed (failure : BranchPublishTaskFailure) | Panicked.

Definition Pm (A : Type) : Type := list PublishEffect → result A PublishStop * list PublishEffect.
#[global] Instance Pm_ret : MRet Pm := λ A a t, (Ok a, t).
#[global] Instance Pm_bind : MBind Pm := λ A B f m t,
  match m t with (Ok a, t') => f a t' | (Err e, t') => (Err e, t') end.

Definition fail {A} (failure : BranchPublishTaskFailure) : Pm A := λ t, (Err (Failed failure), t).
Definition expect {A} (o : option A) : Pm A := λ t, (match o with Some a => Ok a | None => Err Panicked end, t).
Definition or_fail {A E} (r : result A E) (f : E → BranchPublishTaskFailure) : Pm A :=
  match r with Ok a => mret a | Err e => fail (f e) end.
Definition call {A} (answer : nat → A) (e : A → PublishEffect) : Pm A := λ t,
  let a := answer (length t) in (Ok a, t ++ [e a]).

Section publish.
Context `{!PublishEnvironment}.

(** ** Pushing *)

Definition ensure_session_branch_push_safe (folder : str) (action : PublishBranchAction) (k : SessionId) : Pm unit :=
  let retry_text := retry_action_text action in
  r ← call (λ n, env_operation n folder) (DidInspectOperation folder);
  in_progress ← or_fail r (λ error, failure_failed action
    (L"Failed to inspect session branch git state in `" ++ folder ++ L"`: " ++ error));
  match in_progress with
  | Some operation =>
      fail (failure_blocked action
        (L"Session branch push is paused because " ++ article_name operation ++ L" is in progress in `" ++ folder
           ++ L"`. Finish or abort the " ++ operation_name operation ++ L", then " ++ retry_text ++ L"."))
  | None =>
      expected_branch ← expect (session_branch k);
      branch ← call (λ n, env_branch n folder) (DidDetectBranch folder);
      match branch with
      | None =>
          fail (failure_failed action
            (L"Failed to detect the current session branch in `" ++ folder ++ L"` before pushing."))
      | Some current_branch =>
          if str_eqb current_branch expected_branch then mret tt
          else fail (failure_blocked action
            (L"Refusing to push session branch because the worktree is on `" ++ current_branch ++ L"` instead of `"
               ++ expected_branch ++ L"`. Return to the session branch, then " ++ retry_text ++ L"."))
      end
  end.

(** The failure of a remote operation: a blocked one when credentials are missing. *)
Definition remote_failure (action : PublishBranchAction) (what error : str) : BranchPublishTaskFailure :=
  if has_authentication_error_keywords (map ascii_lower error)
  then failure_blocked action
         (git_push_authentication_message (detected_forge_kind_from_git_push_error error) (retry_action_text action))
  else failure_failed action (what ++ error).

Definition is_first_named_push (remote_branch_name published_upstream_ref : option str) : bool :=
  is_some remote_branch_name && is_none published_upstream_ref.

Definition ensure_named_branch_is_new (folder : str) (action : PublishBranchAction) (first : bool) (target_branch : str)
  : Pm unit :=
  if first then
    r ← call (λ n, env_remote_branch n folder target_branch) (DidCheckRemoteBranch folder target_branch);
    already_exists ← or_fail r (remote_failure action (L"Failed to check remote branch existence: "));
    if (already_exists : bool)
    then fail (failure_blocked action
           (L"Remote branch `" ++ target_branch
              ++ L"` already exists. Choose a different name or use the default session branch."))
    else mret tt
  else mret tt.

Definition push_session_branch_to_remote (folder : str) (action : PublishBranchAction) (k : SessionId)
    (remote_branch_name published_upstream_ref : option str) : Pm str :=
  target_branch ← (match remote_branch_name with Some name => mret name | None => expect (session_branch k) end);
  _ ← ensure_session_branch_push_safe folder action k;
  _ ← ensure_named_branch_is_new folder action (is_first_named_push remote_branch_name published_upstream_ref)
        target_branch;
  let as_new := is_first_named_push remote_branch_name published_upstream_ref in
  r ← call (λ n, env_push n folder target_branch as_new) (DidPush folder target_branch as_new);
  upstream_reference ← or_fail r (remote_failure action (L"Failed to publish session branch: "));
  stored ← call (λ n, env_upstream n k upstream_reference) (DidPersistUpstream k upstream_reference);
  _ ← or_fail stored (λ error, failure_failed action
        (L"Branch push succeeded, but Agentty could not persist the upstream reference: " ++ error));
  mret upstream_reference.

Definition branch_review_request_creation_info (s : BranchPublishTaskSession) (branch_name : str)
  : Pm (option ReviewRequestCreationInfo) :=
  r ← call (λ n, env_repo_url n (publish_folder s)) (DidReadRepoUrl (publish_folder s));
  match r with
  | Err _ => mret None
  | Ok repo_url =>
      match detect_remote repo_url with
      | Err _ => mret None
      | Ok remote =>
          mret (Some (mkCreationInfo (remote_forge_kind remote)
            match creation_url remote branch_name (publish_base_branch s) with Ok url => Some url | Err _ => None end))
      end
  end.

Definition push_session_branch (action : PublishBranchAction) (s : BranchPublishTaskSession)
    (remote_branch_name : option str) : Pm BranchPublishTaskSuccess :=
  if negb (allows_review_actions (publish_status s))
  then fail (failure_failed action (L"Session must be in review to push the branch."))
  else
    branch_name ← (match remote_branch_name with Some name => mret name | None => expect (session_branch (publish_id s)) end);
    upstream_reference ← push_session_branch_to_remote (publish_folder s) action (publish_id s) remote_branch_name
                           (publish_upstream_ref s);
    creation ← branch_review_request_creation_info s branch_name;
    mret (Pushed branch_name creation upstream_reference).

(** ** Review requests *)

Definition publish_failed (message : str) : BranchPublishTaskFailure := failure_failed PublishPullRequest message.

Definition review_request_remote (s : BranchPublishTaskSession) : Pm ForgeRemote :=
  r ← call (λ n, env_repo_url n (publish_folder s)) (DidReadRepoUrl (publish_folder s));
  repo_url ← or_fail r (λ error, publish_failed (L"Failed to resolve repository remote for review request: " ++ error));
  remote ← or_fail (detect_remote repo_url) (λ e, publish_failed (error_detail_message e));
  mret (with_command_working_directory remote (publish_folder s)).

Definition load_review_request_create_input (s : BranchPublishTaskSession) (source_branch : str)
  : Pm CreateReviewRequestInput :=
  r ← call (λ n, env_commit_message n (publish_folder s)) (DidReadCommitMessage (publish_folder s));
  message ← or_fail r (λ error, publish_failed (L"Failed to load session branch commit message: " ++ error));
  match message with
  | None => fail (publish_failed (L"Session branch has no commit message for review-request publishing."))
  | Some commit_message =>
      match parse_review_request_commit_message commit_message with
      | None => fail (publish_failed
          (L"Session branch commit message must have a non-empty title for review-request publishing."))
      | Some parsed =>
          mret (mkCreateInput (commit_body parsed) source_branch (publish_base_branch s) (commit_title parsed))
      end
  end.

Definition refresh_request (remote : ForgeRemote) (i : str) : Pm ReviewRequestSummary :=
  r ← call (λ n, env_refresh n remote i) (DidRefreshRequest remote i);
  or_fail r (λ e, publish_failed (error_detail_message e)).

Definition create_or_refresh_review_request (s : BranchPublishTaskSession) (remote : ForgeRemote) (source_branch : str)
  : Pm ReviewRequest :=
  found_summary ← (match publish_review_request s with
    | Some linked => refresh_request remote (display_id (summary linked))
    | None =>
        r ← call (λ n, env_find n remote source_branch) (DidFindRequest remote source_branch);
        found ← or_fail r (λ e, publish_failed (error_detail_message e));
        match found with
        | Some existing => refresh_request remote (display_id existing)
        | None =>
            create_input ← load_review_request_create_input s source_branch;
            r ← call (λ n, env_create n remote create_input) (DidCreateRequest remote create_input);
            or_fail r (λ e, publish_failed (error_detail_message e))
        end
    end);
  now ← (λ t, (Ok (env_now (length t)), t));
  let request := mkReviewRequest now found_summary in
  stored ← call (λ n, env_store_request n (publish_id s) request) (DidPersistRequest (publish_id s) request);
  _ ← or_fail stored (λ error, publish_failed
        (L"Review-request publish succeeded, but Agentty could not persist the linked review request: " ++ error));
  mret request.

Definition publish_pull_request (s : BranchPublishTaskSession) (remote_branch_name : option str)
  : Pm BranchPublishTaskSuccess :=
  if negb (allows_review_actions (publish_status s))
  then fail (publish_failed (L"Session must be in review to publish the review request."))
  else
    branch_name ← (match remote_branch_name with Some name => mret name | None => expect (session_branch (publish_id s)) end);
    upstream_reference ← push_session_branch_to_remote (publish_folder s) PublishPullRequest (publish_id s)
                           remote_branch_name (publish_upstream_ref s);
    remote ← review_request_remote s;
    request ← create_or_refresh_review_request s remote branch_name;
    mret (PullRequestPublished branch_name request upstream_reference).

(** The session's branch lock is held for the whole action. *)
Definition run_branch_publish_action (action : PublishBranchAction) (s : BranchPublishTaskSession)
    (remote_branch_name : option str) : Pm BranchPublishTaskSuccess :=
  match action with
  | Push => push_session_branch action s remote_branch_name
  | PublishPullRequest => publish_pull_request s remote_branch_name
  end.
End publish.
