(* ===== verification/PublishLaws.v ===== *)
(** * Laws of publishing

    A branch is pushed only from the session's own branch in a worktree at rest,
    and a branch name the user chose is only ever created, never taken over. *)
From S2P Require Import Prelude Contracts Agent Lifecycle Transcript Transient Prompt Input Review Session SessionState FileEntry SessionManager Schema ToolCalls Forge BranchPublish.

(** ** Laws *)

Section laws.
Context `{!PublishEnvironment}.

Definition is_push (e : PublishEffect) : bool := match e with DidPush _ _ _ _ => true | _ => false end.

(** Operations that push nothing. *)
Definition quiet {A} (m : Pm A) : Prop :=
  ∀ t, ∃ es, (m t).2 = t ++ es ∧ Forall (λ e, is_push e = false) es.

Lemma quiet_ret {A} (a : A) : quiet (mret a).
Proof. intros t. exists []. by rewrite app_nil_r. Qed.

Lemma quiet_fail {A} f : quiet (fail (A:=A) f).
Proof. intros t. exists []. by rewrite app_nil_r. Qed.

Lemma quiet_expect {A} (o : option A) : quiet (expect o).
Proof. intros t. exists []. by rewrite app_nil_r. Qed.

Lemma quiet_or_fail {A E} (r : result A E) f : quiet (or_fail r f).
Proof. destruct r; [apply quiet_ret|apply quiet_fail]. Qed.

Lemma quiet_call {A} (answer : nat → A) e : (∀ a, is_push (e a) = false) → quiet (call answer e).
Proof. intros HE t. exists [e (answer (length t))]. split; [done|]. by constructor. Qed.

Lemma quiet_now {A} (f : list PublishEffect → A) : quiet (λ t, (Ok (f t), t)).
Proof. intros t. exists []. by rewrite app_nil_r. Qed.

Lemma quiet_bind {A B} (m : Pm A) (f : A → Pm B) : quiet m → (∀ a, quiet (f a)) → quiet (m ≫= f).
Proof.
  intros HM HF t. destruct (HM t) as (es & HE & HP). unfold mbind, Pm_bind.
  destruct (m t) as [[a|e] t']; cbn [snd] in HE |- *; subst t'; [|by exists es].
  destruct (HF a (t ++ es)) as (es' & HE' & HP'). exists (es ++ es'). split; [by rewrite HE', app_assoc|].
  by apply Forall_app.
Qed.

Ltac quiet_walk := repeat match goal with
  | |- quiet (_ ≫= _) => apply quiet_bind; [|intros ?; cbn beta]
  | |- quiet (match ?x with _ => _ end) => destruct x
  | |- quiet (call _ _) => apply quiet_call; by intros ?
  | |- quiet (mret _) => apply quiet_ret
  | |- quiet (fail _) => apply quiet_fail
  | |- quiet (expect _) => apply quiet_expect
  | |- quiet (or_fail _ _) => apply quiet_or_fail
  | |- quiet (λ _, (Ok _, _)) => apply quiet_now
  end.

Lemma quiet_creation_info s b : quiet (branch_review_request_creation_info s b).
Proof. unfold branch_review_request_creation_info. quiet_walk. Qed.

Lemma quiet_remote s : quiet (review_request_remote s).
Proof. unfold review_request_remote. quiet_walk. Qed.

Lemma quiet_request s remote b : quiet (create_or_refresh_review_request s remote b).
Proof. unfold create_or_refresh_review_request, refresh_request, load_review_request_create_input. quiet_walk. Qed.

Lemma quiet_safe folder action k : quiet (ensure_session_branch_push_safe folder action k).
Proof. unfold ensure_session_branch_push_safe. quiet_walk. Qed.

(** *** The checks before a push *)

Lemma safe_answers folder action k t es :
  ensure_session_branch_push_safe folder action k t = (Ok tt, t ++ es) →
  ∃ b, session_branch k = Some b ∧ DidInspectOperation folder (Ok None) ∈ es ∧ DidDetectBranch folder (Some b) ∈ es.
Proof.
  unfold ensure_session_branch_push_safe, mbind, Pm_bind, call. cbn beta iota zeta.
  destruct (env_operation (length t) folder) as [[operation|]|error]; cbn [or_fail mret Pm_ret fail]; [discriminate 1| |discriminate 1].
  unfold expect. destruct (session_branch k) as [b|] eqn:EB; [|discriminate 1].
  set (n := length _). destruct (env_branch n folder) as [current|] eqn:EC; cbn [mret Pm_ret fail]; [|discriminate 1].
  destruct (str_eqb current b) eqn:EQ; cbn [mret Pm_ret fail]; [|discriminate 1]. apply str_eqb_true in EQ as ->.
  intros HE. injection HE as HE. rewrite <-!app_assoc in HE. apply app_inv_head in HE as <-. exists b. set_solver.
Qed.

(** What a push in the trace [before ++ push :: after] must have behind it. *)
Definition guarded (folder : str) (k : SessionId) (name upstream : option str) (before : list PublishEffect)
    (folder' branch : str) (as_new : bool) : Prop :=
  folder' = folder ∧ as_new = is_first_named_push name upstream ∧
  (∃ b, session_branch k = Some b ∧ branch = default b name ∧
     DidInspectOperation folder (Ok None) ∈ before ∧ DidDetectBranch folder (Some b) ∈ before) ∧
  (as_new = true → DidCheckRemoteBranch folder branch (Ok false) ∈ before).

Definition pushes_guarded (folder : str) (k : SessionId) (name upstream : option str) (es : list PublishEffect) : Prop :=
  ∀ before folder' branch as_new answer after,
    es = before ++ DidPush folder' branch as_new answer :: after → guarded folder k name upstream before folder' branch as_new.

Lemma quiet_guarded folder k name upstream es :
  Forall (λ e, is_push e = false) es → pushes_guarded folder k name upstream es.
Proof.
  intros HF before folder' branch as_new answer after ->. apply Forall_app in HF as [_ HF].
  apply Forall_cons in HF as [HF _]. discriminate HF.
Qed.

(** Quiet effects around one push determine where it is. *)
Lemma only_push es x rest before y after :
  Forall (λ e, is_push e = false) es → Forall (λ e, is_push e = false) rest → is_push y = true →
  es ++ x :: rest = before ++ y :: after → before = es ∧ y = x.
Proof.
  intros HE HR HY. revert before. induction es as [|e es IH]; intros [|e' before] HX; cbn [app] in HX.
  - by injection HX as -> _.
  - injection HX as _ ->. apply Forall_app in HR as [_ HR]. apply Forall_cons in HR as [HR _]. congruence.
  - injection HX as -> _. apply Forall_cons in HE as [HE _]. congruence.
  - injection HX as <- HX. apply Forall_cons in HE as [_ HE]. by destruct (IH HE before HX) as [-> ->].
Qed.

Lemma one_push_guarded folder k name upstream es f b n a rest :
  Forall (λ e, is_push e = false) es → guarded folder k name upstream es f b n →
  Forall (λ e, is_push e = false) rest → pushes_guarded folder k name upstream (es ++ DidPush f b n a :: rest).
Proof.
  intros HE HG HR before folder' branch as_new answer after HX.
  apply only_push in HX as [-> HP]; [|done..]. by injection HP as -> -> -> _.
Qed.

Lemma guarded_more folder k name upstream before before' f b n :
  before ⊆ before' → guarded folder k name upstream before f b n → guarded folder k name upstream before' f b n.
Proof.
  intros HS (H1 & H2 & (x & H3 & H4 & H5 & H6) & H7). split_and!; [done|done| |intros HN; by apply HS, H7].
  exists x. split_and!; [done|done|by apply HS|by apply HS].
Qed.

(** The check of a chosen name. *)
Lemma name_check_answers folder action (first : bool) target t :
  quiet (ensure_named_branch_is_new folder action first target) ∧
  ∀ es, ensure_named_branch_is_new folder action first target t = (Ok tt, t ++ es) → first = true →
    DidCheckRemoteBranch folder target (Ok false) ∈ es.
Proof.
  unfold ensure_named_branch_is_new. split; [quiet_walk|]. intros es HE ->. revert HE. unfold mbind, Pm_bind, call.
  cbn beta iota zeta.
  destruct (env_remote_branch (length t) folder target) as [[]|error]; cbn [or_fail mret Pm_ret fail]; try discriminate 1.
  intros HE. injection HE as HE. apply app_inv_head in HE as <-. set_solver.
Qed.

(** The push and what follows it. *)
Lemma push_phase folder action k target as_new t :
  ∃ answer rest,
    ((r ← call (λ n, env_push n folder target as_new) (DidPush folder target as_new);
      upstream_reference ← or_fail r (remote_failure action (L"Failed to publish session branch: "));
      stored ← call (λ n, env_upstream n k upstream_reference) (DidPersistUpstream k upstream_reference);
      _ ← or_fail stored (λ error, failure_failed action
            (L"Branch push succeeded, but Agentty could not persist the upstream reference: " ++ error));
      mret upstream_reference) t).2 = t ++ DidPush folder target as_new answer :: rest ∧
    Forall (λ e, is_push e = false) rest.
Proof.
  unfold mbind at 1, Pm_bind at 1, call at 1. cbn beta iota zeta. set (answer := env_push _ _ _ _).
  match goal with |- context [(?m (t ++ [?e])).2] => assert (quiet m) as HQ by quiet_walk; destruct (HQ (t ++ [e])) as (rest & HE & HF) end.
  exists answer, rest. split; [|done]. rewrite HE. by rewrite <-app_assoc.
Qed.

Lemma push_to_remote_guarded folder action k name upstream t :
  ∃ es, (push_session_branch_to_remote folder action k name upstream t).2 = t ++ es ∧
    pushes_guarded folder k name upstream es.
Proof.
  unfold push_session_branch_to_remote. set (first := is_first_named_push name upstream).
  unfold mbind at 1, Pm_bind at 1.
  destruct ((match name with Some name => mret name | None => expect (session_branch k) end : Pm str) t) as [[target|e] t0] eqn:ET.
  2: { exists []. destruct name; [discriminate ET|]. unfold expect in ET. injection ET as _ <-. split; [by rewrite app_nil_r|by apply quiet_guarded]. }
  assert (t0 = t) as -> by (destruct name; [by injection ET|unfold expect in ET; by injection ET]).
  assert (∀ b, session_branch k = Some b → target = default b name) as HT.
  { intros b HB. destruct name; cbn; [by injection ET|]. unfold expect in ET. rewrite HB in ET. by injection ET. }
  clear ET. unfold mbind at 1, Pm_bind at 1.
  destruct (quiet_safe folder action k t) as (e1 & HE1 & HF1). pose proof (safe_answers folder action k t e1) as HA.
  destruct (ensure_session_branch_push_safe folder action k t) as [[[]|e] t1]; cbn [snd] in HE1; subst t1.
  2: { exists e1. split; [done|by apply quiet_guarded]. }
  destruct (HA eq_refl) as (b & HB & HI & HD). clear HA. unfold mbind at 1, Pm_bind at 1.
  destruct (name_check_answers folder action first target (t ++ e1)) as [HQ HC]. destruct (HQ (t ++ e1)) as (e2 & HE2 & HF2).
  specialize (HC e2). destruct (ensure_named_branch_is_new folder action first target (t ++ e1)) as [[[]|e] t2]; cbn [snd] in HE2; subst t2.
  2: { exists (e1 ++ e2). split; [by rewrite app_assoc|]. apply quiet_guarded. by apply Forall_app. }
  specialize (HC eq_refl). destruct (push_phase folder action k target first ((t ++ e1) ++ e2)) as (answer & rest & HP & HR).
  exists ((e1 ++ e2) ++ DidPush folder target first answer :: rest). split; [cbn zeta; rewrite HP; by rewrite <-!app_assoc|].
  apply one_push_guarded; [by apply Forall_app| |done].
  split_and!; [done|done| |].
  - exists b. split_and!; [done|by apply HT|set_solver|set_solver].
  - intros HN. apply elem_of_app. right. by apply HC.
Qed.

Lemma guarded_then folder k name upstream es rest :
  pushes_guarded folder k name upstream es → Forall (λ e, is_push e = false) rest →
  pushes_guarded folder k name upstream (es ++ rest).
Proof.
  intros HG HR before f b n a after HX. apply app_eq_inv in HX as [(mid & -> & HX)|(mid & -> & HX)].
  - destruct mid as [|x mid]; cbn [app] in HX.
    + subst rest. apply Forall_cons in HR as [HR _]. discriminate HR.
    + injection HX as <- _. by eapply HG.
  - subst rest. apply Forall_app in HR as [_ HR]. apply Forall_cons in HR as [HR _]. discriminate HR.
Qed.

(** C26: Nothing is force-pushed by accident.  In every run of a publish action, whatever Git and the forge answer, each
    push goes out of the session's own worktree, for a session under review, after Git reported that no merge, rebase,
    cherry-pick or revert is in progress and that the worktree is on the session's branch; it goes to the name the user
    chose or else to the session's branch; and a chosen name that was not published before is pushed as a new branch
    only after the remote reported that it has no such branch. *)
Theorem pushes_are_guarded action s name before folder branch as_new answer after :
  (run_branch_publish_action action s name []).2 = before ++ DidPush folder branch as_new answer :: after →
  allows_review_actions (publish_status s) = true ∧ folder = publish_folder s ∧
  as_new = is_first_named_push name (publish_upstream_ref s) ∧
  (∃ b, session_branch (publish_id s) = Some b ∧ branch = default b name ∧
     DidInspectOperation folder (Ok None) ∈ before ∧ DidDetectBranch folder (Some b) ∈ before) ∧
  (as_new = true → DidCheckRemoteBranch folder branch (Ok false) ∈ before).
Proof.
  assert (∀ f : str → str → Pm BranchPublishTaskSuccess,
    (∀ b u, quiet (f b u)) → ∀ act,
    ((branch_name ← (match name with Some name => mret name | None => expect (session_branch (publish_id s)) end);
      upstream_reference ← push_session_branch_to_remote (publish_folder s) act (publish_id s) name (publish_upstream_ref s);
      f branch_name upstream_reference) []).2 = before ++ DidPush folder branch as_new answer :: after →
    guarded (publish_folder s) (publish_id s) name (publish_upstream_ref s) before folder branch as_new) as HG.
  { intros f HF act. unfold mbind at 1, Pm_bind at 1.
    destruct ((match name with Some name => mret name | None => expect (session_branch (publish_id s)) end : Pm str) []) as [[bn|e] t0] eqn:ET.
    2: { destruct name; [discriminate ET|]. unfold expect in ET. injection ET as _ <-. cbn [snd]. intros HX. by destruct before. }
    assert (t0 = []) as -> by (destruct name; [by injection ET|unfold expect in ET; by injection ET]).
    unfold mbind at 1, Pm_bind at 1.
    destruct (push_to_remote_guarded (publish_folder s) act (publish_id s) name (publish_upstream_ref s) []) as (es & HE & HP).
    destruct (push_session_branch_to_remote _ _ _ _ _ []) as [[u|e] t1]; cbn [snd app] in HE; subst t1.
    - destruct (HF bn u es) as (rest & -> & HR). intros HX. by eapply (guarded_then _ _ _ _ es rest).
    - cbn [snd]. intros HX. by eapply HP. }
  destruct action; unfold run_branch_publish_action, push_session_branch, publish_pull_request;
    (destruct (allows_review_actions (publish_status s)) eqn:EA; cbn [negb]; [|intros HX; by destruct before]).
  - intros HX. destruct (HG (λ b u, creation ← branch_review_request_creation_info s b; mret (Pushed b creation u))
      ltac:(intros; apply quiet_bind; [apply quiet_creation_info|intros; apply quiet_ret]) Push HX) as (HF & HN & HB & HC). subst folder. done.
  - intros HX. destruct (HG (λ b u, remote ← review_request_remote s;
        request ← create_or_refresh_review_request s remote b; mret (PullRequestPublished b request u))
      ltac:(intros; apply quiet_bind; [apply quiet_remote|intros; apply quiet_bind; [apply quiet_request|intros; apply quiet_ret]])
      PublishPullRequest HX) as (HF & HN & HB & HC). subst folder. done.
Qed.
End laws.

(** ** A run *)

Module PublishDemo.
#[local] Instance calm : PublishEnvironment := {|
  env_operation _ _ := Ok None; env_branch _ _ := Some (L"wt/01234567"); env_remote_branch _ _ _ := Ok false;
  env_push _ _ _ _ := Ok (L"origin/feature"); env_upstream _ _ _ := Ok tt; env_repo_url _ _ := Err [];
  env_commit_message _ _ := Ok None; env_find _ _ _ := Ok None; env_refresh _ _ _ := Err (UnsupportedRemote []);
  env_create _ _ _ := Err (UnsupportedRemote []); env_store_request _ _ _ := Ok tt; env_now _ := 0%Z;
  creation_url _ _ _ := Err (UnsupportedRemote [])
|}.

Definition session : BranchPublishTaskSession :=
  mkPublishSession (L"main") (L"/w") (L"0123456789") None None Lifecycle.Review.

Lemma pushes_are_guarded_witness :
  ∃ before after, (run_branch_publish_action Push session (Some (L"feature")) []).2 =
    before ++ DidPush (L"/w") (L"feature") true (Ok (L"origin/feature")) :: after ∧
  DidCheckRemoteBranch (L"/w") (L"feature") (Ok false) ∈ before.
Proof.
  set (t := (run_branch_publish_action Push session (Some (L"feature")) []).2).
  assert (t = take 3 t ++ DidPush (L"/w") (L"feature") true (Ok (L"origin/feature")) :: drop 4 t) as HT by (vm_compute; reflexivity).
  exists (take 3 t), (drop 4 t). split; [exact HT|].
  destruct (pushes_are_guarded Push session (Some (L"feature")) (take 3 t) _ _ _ _ _ HT) as (_ & _ & _ & _ & HC). by apply HC.
Defined.
End PublishDemo.
