(* ===== verification/SyncPasses.v ===== *)
(** * Background status passes (crates/agentty/src/app/sync.rs)

    One task polls Git and the forge for the active project: tracking statuses of
    branches, states of review requests with a backoff per failing session, and
    the updates of an explicit sync.  Git, the forge and the published context
    answer from an environment by the number of calls made so far. *)
From stdpp Require Import gmap.
From S2P Require Import Prelude Contracts Agent Lifecycle Transcript Transient Prompt Input Review Session SessionState FileEntry SessionManager ToolCalls Forge.

(** ** Constants *)

Definition REVIEW_REQUEST_PASS_TICKS : Z := 2.
Definition REVIEW_SYNC_FAILURE_NOTICE_THRESHOLD : Z := 3.
Definition REVIEW_SYNC_MAX_BACKOFF_PASSES : Z := 7.
Definition u32_max : Z := 4294967295.

(** ** Targets and contexts *)

Record SessionGitStatusTarget := mkGitTarget {
  target_base_branch : str;
  target_branch_name : str;
  git_target_session_id : SessionId
}.

#[global] Instance SessionGitStatusTarget_eq_dec : EqDecision SessionGitStatusTarget.
Proof. solve_decision. Defined.

Record ReviewRequestSyncTarget := mkReviewTarget {
  target_folder : str;
  linked_review_request : option ReviewRequest;
  target_published_upstream_ref : option str;
  review_target_session_id : SessionId
}.

Definition polling_key (self : ReviewRequestSyncTarget)
  : str * str * option str * option (str * ReviewRequestState) :=
  (target_folder self, review_target_session_id self, target_published_upstream_ref self,
   (λ linked, (display_id (summary linked), request_state (summary linked))) <$> linked_review_request self).

Record SyncContext := mkContext {
  generation : Z;
  project_branch_name : option str;
  context_project_id : Z;
  context_project_name : str;
  review_request_sync_targets : list ReviewRequestSyncTarget;
  session_git_status_targets : list SessionGitStatusTarget;
  working_dir : str
}.

Definition same_polling_inputs (self other : SyncContext) : bool :=
  bool_decide (context_project_id self = context_project_id other)
  && bool_decide (project_branch_name self = project_branch_name other)
  && str_eqb (working_dir self) (working_dir other)
  && bool_decide (session_git_status_targets self = session_git_status_targets other)
  && bool_decide (polling_key <$> review_request_sync_targets self = polling_key <$> review_request_sync_targets other).

(** The published cell after a publication. *)
Definition publish_context_with_policy (published context : SyncContext) (force_generation_bump : bool) : SyncContext :=
  let generation :=
    if same_polling_inputs published context && negb force_generation_bump then generation published
    else u64_saturating_add (generation published) 1 in
  mkContext generation (project_branch_name context) (context_project_id context) (context_project_name context)
    (review_request_sync_targets context) (session_git_status_targets context) (working_dir context).

Definition publish_context (published context : SyncContext) : SyncContext :=
  publish_context_with_policy published context false.
Definition publish_refresh_context (published context : SyncContext) : SyncContext :=
  publish_context_with_policy published context true.

(** ** Results *)

Inductive SyncReviewRequestOutcome :=
| OutcomeOpen (display_id : str) (status_summary : option str)
| OutcomeMerged (display_id : str) (session_head_hash : option str)
| OutcomeClosed (display_id : str)
| OutcomeNoReviewRequest.

Record SyncReviewRequestTaskResult := mkTaskResult {
  outcome : SyncReviewRequestOutcome;
  task_summary : option ReviewRequestSummary
}.

Definition sync_task_result_from_summary (s : ReviewRequestSummary) (session_head_hash : option str)
  : SyncReviewRequestTaskResult :=
  mkTaskResult
    match request_state s with
    | RequestOpen => OutcomeOpen (display_id s) (status_summary s)
    | RequestMerged => OutcomeMerged (display_id s) session_head_hash
    | RequestClosed => OutcomeClosed (display_id s)
    end (Some s).

Definition review_request_repo_url (r : ReviewRequest) : option str :=
  let url := trim_end_matches is_slash (web_url (summary r)) in
  match forge_kind (summary r) with
  | GitHub => fst <$> split_once url (L"/pull/")
  | GitLab =>
      match split_once url (L"/-/merge_requests/") with
      | Some (repo, _) => Some repo
      | None => fst <$> split_once url (L"/merge_requests/")
      end
  end.

Definition remote_branch_name_from_upstream_ref (upstream_ref : str) : str :=
  match split_once upstream_ref (L"/") with Some (_, branch_name) => branch_name | None => upstream_ref end.

(** ** Backoff *)

Record ReviewSyncFailureState := mkFailureState { consecutive_failures : Z; retry_after_pass : Z }.

Definition review_sync_backoff_passes (failures : Z) : Z :=
  let exponent := Z.min (Z.max (failures - 1) 0) 3 in
  Z.min (Z.shiftl 1 exponent - 1) REVIEW_SYNC_MAX_BACKOFF_PASSES.

(** ** Answers and events *)

Class SyncEnvironment := {
  env_context : nat → SyncContext;
  env_repo_root : nat → str → option str;
  env_tracking_statuses : nat → str → result (gmap str (option (Z * Z))) str;
  env_ahead_behind : nat → str → str → str → result (Z * Z) str;
  env_merge_conflicts : nat → str → str → str → result bool str;
  env_repo_url : nat → str → result str str;
  env_refresh_request : nat → ForgeRemote → str → result ReviewRequestSummary ReviewRequestError;
  env_find_request : nat → ForgeRemote → str → result (option ReviewRequestSummary) ReviewRequestError;
  env_head_hash : nat → str → result str str
}.

Inductive SyncEvent :=
| GitStatusUpdated (generation : Z) (session_statuses : gmap SessionId SessionGitStatus) (status : option (Z * Z))
| ReviewRequestStatusUpdated (generation : Z) (r : result SyncReviewRequestTaskResult str) (k : SessionId)
| SyncNotice (notice : str) (k : SessionId).

(** ** The orchestrator *)

(** [calls] counts the awaited calls; [emitted] are the events sent. *)
Record SyncOrchestrator := mkOrchestrator {
  review_pass_index : Z;
  review_sync_failures : gmap SessionId ReviewSyncFailureState;
  tick_index : Z;
  calls : nat;
  emitted : list SyncEvent
}.

Definition Om (A : Type) : Type := SyncOrchestrator → A * SyncOrchestrator.
#[global] Instance Om_ret : MRet Om := λ A a w, (a, w).
#[global] Instance Om_bind : MBind Om := λ A B f m w, let '(a, w') := m w in f a w'.

Definition read : Om SyncOrchestrator := λ w, (w, w).
Definition awaited {A} (answer : nat → A) : Om A := λ w,
  (answer (calls w),
   mkOrchestrator (review_pass_index w) (review_sync_failures w) (tick_index w) (S (calls w)) (emitted w)).
Definition emit (e : SyncEvent) : Om unit := λ w,
  (tt, mkOrchestrator (review_pass_index w) (review_sync_failures w) (tick_index w) (calls w) (emitted w ++ [e])).
Definition set_failures (f : gmap SessionId ReviewSyncFailureState → gmap SessionId ReviewSyncFailureState) : Om unit :=
  λ w, (tt, mkOrchestrator (review_pass_index w) (f (review_sync_failures w)) (tick_index w) (calls w) (emitted w)).

Record ReviewRequestPassUpdate := mkPassUpdate {
  pass_result : result SyncReviewRequestTaskResult str;
  pass_target : ReviewRequestSyncTarget
}.

Definition is_target_backed_off (w : SyncOrchestrator) (k : SessionId) (pass_index : Z) : bool :=
  match review_sync_failures w !! k with
  | Some f => (pass_index <? retry_after_pass f)%Z
  | None => false
  end.

Definition failure_notice (failures : Z) (error : str) : str :=
  L"[Review request sync] " ++ display_Z failures
    ++ L" consecutive failures; retrying with backoff. Last error: " ++ error.

Definition next_failure (previous : option ReviewSyncFailureState) (pass_index : Z) : ReviewSyncFailureState :=
  let failures := Z.min (default 0%Z (consecutive_failures <$> previous) + 1) u32_max in
  mkFailureState failures
    (u64_saturating_add (u64_saturating_add pass_index 1) (review_sync_backoff_passes failures)).

Definition record_review_sync_outcome (target : ReviewRequestSyncTarget) (r : result SyncReviewRequestTaskResult str)
    (pass_index : Z) : Om unit :=
  let k := review_target_session_id target in
  match r with
  | Ok _ => set_failures (delete k)
  | Err error =>
      w ← read;
      let failure_state := next_failure (review_sync_failures w !! k) pass_index in
      _ ← set_failures (<[k := failure_state]>);
      if (consecutive_failures failure_state =? REVIEW_SYNC_FAILURE_NOTICE_THRESHOLD)%Z
      then emit (SyncNotice (failure_notice (consecutive_failures failure_state) error) k)
      else mret tt
  end.

Definition retain_active_failure_states (targets : list ReviewRequestSyncTarget) : Om unit :=
  set_failures (filter (λ kv, existsb (λ t, str_eqb (review_target_session_id t) kv.1) targets = true)).

Section passes.
Context `{!SyncEnvironment}.

Definition context_is_stale (context : SyncContext) : Om bool := λ w,
  (negb (generation (env_context (calls w)) =? generation context)%Z, w).

(** ** Git statuses *)

Fixpoint session_git_statuses_of (tracking : gmap str (option (Z * Z))) (repo_root : str)
    (targets : list SessionGitStatusTarget) (statuses : gmap SessionId SessionGitStatus)
  : Om (gmap SessionId SessionGitStatus) :=
  match targets with
  | [] => mret statuses
  | target :: rest =>
      base ← awaited (λ n, env_ahead_behind n repo_root (target_branch_name target) (target_base_branch target));
      let base_status := match base with Ok counts => Some counts | Err _ => None end in
      has_merge_conflict ← (match base_status with
        | Some (ahead, behind) =>
            if ((0 <? ahead) && (0 <? behind))%Z then
              r ← awaited (λ n, env_merge_conflicts n repo_root (target_branch_name target) (target_base_branch target));
              mret match r with Ok b => Some b | Err _ => None end
            else mret (Some false)
        | None => mret None
        end);
      let remote_status := tracking !! target_branch_name target ≫= λ s, s in
      session_git_statuses_of tracking repo_root rest
        (<[git_target_session_id target := mkGitStatus base_status has_merge_conflict remote_status]> statuses)
  end.

Definition run_git_status_pass (context : SyncContext) : Om unit :=
  root ← awaited (λ n, env_repo_root n (working_dir context));
  let repo_root := default (working_dir context) root in
  _ ← awaited (λ _, tt);
  tracked ← awaited (λ n, env_tracking_statuses n repo_root);
  let tracking := match tracked with Ok m => m | Err _ => ∅ end in
  let status := tracking !! default [] (project_branch_name context) ≫= λ s, s in
  session_statuses ← session_git_statuses_of tracking repo_root (session_git_status_targets context) ∅;
  stale ← context_is_stale context;
  if (stale : bool) then mret tt
  else emit (GitStatusUpdated (generation context) session_statuses status).

(** ** Review requests *)

Definition review_request_remote (folder : str) (linked : option ReviewRequest) : Om (result ForgeRemote str) :=
  r ← awaited (λ n, env_repo_url n folder);
  mret match r with
       | Ok url =>
           match detect_remote url with
           | Ok remote => Ok (with_command_working_directory remote folder)
           | Err e => Err (error_detail_message e)
           end
       | Err error =>
           match linked ≫= review_request_repo_url with
           | None => Err (L"Failed to resolve repository remote: " ++ error)
           | Some url =>
               match detect_remote url with Ok remote => Ok remote | Err e => Err (error_detail_message e) end
           end
       end.

Definition session_head_hash_for_summary (folder : str) (s : ReviewRequestSummary) : Om (option str) :=
  if negb (bool_decide (request_state s = RequestMerged)) then mret None
  else r ← awaited (λ n, env_head_hash n folder); mret match r with Ok h => Some h | Err _ => None end.

Definition sync_review_request_status (folder : str) (linked : option ReviewRequest) (upstream : option str)
  : Om (result SyncReviewRequestTaskResult str) :=
  remote ← review_request_remote folder linked;
  match remote with
  | Err e => mret (Err e)
  | Ok remote =>
      match linked with
      | Some review_request =>
          r ← awaited (λ n, env_refresh_request n remote (display_id (summary review_request)));
          match r with
          | Err e => mret (Err (error_detail_message e))
          | Ok refreshed =>
              h ← session_head_hash_for_summary folder refreshed;
              mret (Ok (sync_task_result_from_summary refreshed h))
          end
      | None =>
          match upstream with
          | None => mret (Err (L"Session branch has not been published yet"))
          | Some upstream_ref =>
              r ← awaited (λ n, env_find_request n remote (remote_branch_name_from_upstream_ref upstream_ref));
              match r with
              | Err e => mret (Err (error_detail_message e))
              | Ok (Some found) =>
                  h ← session_head_hash_for_summary folder found;
                  mret (Ok (sync_task_result_from_summary found h))
              | Ok None => mret (Ok (mkTaskResult OutcomeNoReviewRequest None))
              end
          end
      end
  end.

(** The loop over the targets; [None] is the early return of a stale pass. *)
Fixpoint collect_updates (context : SyncContext) (reject_stale_context : bool) (pass_index : Z)
    (targets : list ReviewRequestSyncTarget) (updates : list ReviewRequestPassUpdate)
  : Om (bool * list ReviewRequestPassUpdate) :=
  match targets with
  | [] => mret (true, updates)
  | target :: rest =>
      stale ← context_is_stale context;
      if reject_stale_context && stale then mret (false, updates)
      else
        w ← read;
        if is_target_backed_off w (review_target_session_id target) pass_index
        then collect_updates context reject_stale_context pass_index rest updates
        else
          r ← sync_review_request_status (target_folder target) (linked_review_request target)
                (target_published_upstream_ref target);
          stale ← context_is_stale context;
          if reject_stale_context && stale then mret (false, updates)
          else
            _ ← record_review_sync_outcome target r pass_index;
            collect_updates context reject_stale_context pass_index rest (updates ++ [mkPassUpdate r target])
  end.

Definition next_review_pass : Om Z := λ w,
  (review_pass_index w,
   mkOrchestrator (u64_wrapping_add (review_pass_index w) 1) (review_sync_failures w) (tick_index w) (calls w) (emitted w)).

Definition collect_review_request_pass_updates (context : SyncContext) (reject_stale_context : bool)
  : Om (list ReviewRequestPassUpdate) :=
  pass_index ← next_review_pass;
  collected ← collect_updates context reject_stale_context pass_index (review_request_sync_targets context) [];
  let '(completed, updates) := collected in
  _ ← (if (completed : bool) then retain_active_failure_states (review_request_sync_targets context) else mret tt);
  mret updates.

Fixpoint emit_review_request_pass_updates (context : SyncContext) (updates : list ReviewRequestPassUpdate) : Om unit :=
  match updates with
  | [] => mret tt
  | u :: rest =>
      _ ← emit (ReviewRequestStatusUpdated (generation context) (pass_result u) (review_target_session_id (pass_target u)));
      emit_review_request_pass_updates context rest
  end.

Definition run_review_request_pass (context : SyncContext) : Om unit :=
  updates ← collect_review_request_pass_updates context true;
  emit_review_request_pass_updates context updates.

(** ** The loop *)

Definition run_refresh_pass (include_review_pass : bool) : Om unit :=
  w ← read;
  let context := env_context (calls w) in
  match project_branch_name context with
  | None => mret tt
  | Some _ =>
      _ ← run_git_status_pass context;
      if include_review_pass then run_review_request_pass context else mret tt
  end.

Definition tick : Om unit := λ w,
  let include_review_pass := (tick_index w mod REVIEW_REQUEST_PASS_TICKS =? 0)%Z in
  run_refresh_pass include_review_pass
    (mkOrchestrator (review_pass_index w) (review_sync_failures w) (u64_wrapping_add (tick_index w) 1) (calls w) (emitted w)).

(** The updates an explicit sync carries; [synced] is whether the branch was updated. *)
Definition run_sync_main (context : SyncContext) (synced : bool)
  : Om (list (result SyncReviewRequestTaskResult str * SessionId)) :=
  updates ← collect_review_request_pass_updates context false;
  _ ← awaited (λ _, tt);
  mret (if synced then (λ u, (pass_result u, review_target_session_id (pass_target u))) <$> updates else []).
End passes.
