(* ===== verification/SyncLaws.v ===== *)
(** * Laws of the background status passes

    A session whose review request cannot be polled is skipped for a bounded
    number of passes, its user is told once per run of failures, and what a pass
    reports belongs to the context that was current when it was reported. *)
From stdpp Require Import gmap.
From S2P Require Import Prelude Contracts Agent Lifecycle Transcript Transient Prompt Input Review Session SessionState FileEntry SessionManager ToolCalls Forge SyncPasses.

(** ** Laws of the backoff *)

(** The number of passes that are skipped after [n] failures. *)
Lemma backoff_schedule (n : Z) :
  review_sync_backoff_passes n =
  if (n <=? 1)%Z then 0%Z else if (n =? 2)%Z then 1%Z else if (n =? 3)%Z then 3%Z else 7%Z.
Proof.
  unfold review_sync_backoff_passes, REVIEW_SYNC_MAX_BACKOFF_PASSES.
  destruct (Z.leb_spec n 1) as [H1|H1].
  { replace (Z.max (n - 1) 0) with 0%Z by lia. reflexivity. }
  destruct (Z.eqb_spec n 2) as [->|H2]; [reflexivity|].
  destruct (Z.eqb_spec n 3) as [->|H3]; [reflexivity|].
  replace (Z.min (Z.max (n - 1) 0) 3) with 3%Z by lia. reflexivity.
Qed.

Lemma backoff_bounds (n : Z) : (0 <= review_sync_backoff_passes n <= 7)%Z.
Proof. rewrite backoff_schedule. repeat case_match; lia. Qed.

Definition state_ok (index : Z) (f : ReviewSyncFailureState) : Prop :=
  (1 <= consecutive_failures f <= u32_max)%Z /\
  (retry_after_pass f <= index + review_sync_backoff_passes (consecutive_failures f))%Z.

Definition backoff_ok (w : SyncOrchestrator) : Prop :=
  map_Forall (λ _ f, state_ok (review_pass_index w) f) (review_sync_failures w).

Lemma state_ok_mono (i j : Z) (f : ReviewSyncFailureState) : (i <= j)%Z → state_ok i f → state_ok j f.
Proof. intros ? [? ?]; split; lia. Qed.

Lemma next_failure_ok (previous : option ReviewSyncFailureState) (i p : Z) :
  (0 <= p)%Z → (p < u64_max)%Z →
  (∀ f, previous = Some f → state_ok i f) → state_ok (p + 1) (next_failure previous p).
Proof.
  intros H0 H1 Hp. unfold next_failure, state_ok; cbn [consecutive_failures retry_after_pass].
  set (c := default 0%Z (consecutive_failures <$> previous)).
  assert (0 <= c)%Z.
  { subst c. destruct previous as [f|]; cbn; [|lia]. destruct (Hp f eq_refl) as [? _]; lia. }
  split; [unfold u32_max; lia|].
  unfold u64_saturating_add. pose proof (backoff_bounds (Z.min (c + 1) u32_max)). lia.
Qed.

(** ** Laws of the state during a pass *)

(** During pass [p] the index is already the one of the next pass. *)
Definition during (p : Z) (w : SyncOrchestrator) : Prop := review_pass_index w = (p + 1)%Z /\ backoff_ok w.

Definition keeps {A} (P : SyncOrchestrator → Prop) (m : Om A) : Prop := ∀ w, P w → P (m w).2.

Lemma keeps_bind {A B} P (m : Om A) (f : A → Om B) :
  keeps P m → (∀ a, keeps P (f a)) → keeps P (m ≫= f).
Proof.
  intros Hm Hf w Hw. unfold mbind, Om_bind. destruct (m w) as [a w'] eqn:E.
  apply Hf. specialize (Hm w Hw). rewrite E in Hm. exact Hm.
Qed.

Lemma keeps_ret {A} P (a : A) : keeps P (mret a : Om A).
Proof. intros w Hw; exact Hw. Qed.

Lemma keeps_read P : keeps P read.
Proof. intros w Hw; exact Hw. Qed.

(** Predicates on the index and the failures alone. *)
Definition local (P : SyncOrchestrator → Prop) : Prop :=
  ∀ w w', review_pass_index w' = review_pass_index w → review_sync_failures w' = review_sync_failures w → P w → P w'.

Lemma local_during p : local (during p).
Proof. intros w w' Hi Hf [H1 H2]. unfold during, backoff_ok in *. rewrite Hi, Hf. split; [lia|exact H2]. Qed.

Lemma local_ok : local backoff_ok.
Proof. intros w w' Hi Hf H. unfold backoff_ok in *. rewrite Hi, Hf. exact H. Qed.

Lemma keeps_awaited {A} P (answer : nat → A) : local P → keeps P (awaited answer).
Proof. intros HP w Hw. apply (HP w); [reflexivity|reflexivity|exact Hw]. Qed.

Lemma keeps_emit P e : local P → keeps P (emit e).
Proof. intros HP w Hw. apply (HP w); [reflexivity|reflexivity|exact Hw]. Qed.

Lemma keeps_delete p k : keeps (during p) (set_failures (delete k)).
Proof.
  intros w [H1 H2]. split; [exact H1|]. unfold backoff_ok in *; cbn. intros j f Hj.
  apply lookup_delete_Some in Hj as [_ Hj]. exact (H2 j f Hj).
Qed.

Lemma keeps_record target r p :
  (0 <= p < u64_max)%Z → keeps (during p) (record_review_sync_outcome target r p).
Proof.
  intros Hp. unfold record_review_sync_outcome. destruct r as [a|e]; [apply keeps_delete|].
  intros w [H1 H2]. unfold mbind, Om_bind, read. cbn [fst snd].
  assert (Hn : during p (set_failures
            (<[review_target_session_id target :=
               next_failure (review_sync_failures w !! review_target_session_id target) p]>) w).2).
  { split; [exact H1|]. unfold backoff_ok; cbn. rewrite H1. apply map_Forall_insert_2.
    - apply (next_failure_ok _ (p + 1)); [lia|lia|]. intros f Hf. rewrite <- H1. exact (H2 _ _ Hf).
    - intros j f Hj. rewrite <- H1. exact (H2 _ _ Hj). }
  destruct (set_failures _ w) as [u w'] eqn:E. cbn [snd] in Hn.
  case_match; [|exact Hn]. apply (keeps_emit (during p)); [apply local_during|exact Hn].
Qed.

Lemma keeps_retain p targets : keeps (during p) (retain_active_failure_states targets).
Proof.
  intros w [H1 H2]. split; [exact H1|]. unfold backoff_ok in *; cbn. intros j f Hj.
  apply map_lookup_filter_Some in Hj as [Hj _]. exact (H2 j f Hj).
Qed.

Ltac keep_walk :=
  repeat first
    [ apply keeps_ret | apply keeps_read
    | apply keeps_awaited; solve [apply local_during | apply local_ok | assumption]
    | apply keeps_emit; solve [apply local_during | apply local_ok | assumption]
    | assumption
    | match goal with
      | |- keeps _ (mbind _ _) => apply keeps_bind; [|intros ?]
      | |- keeps _ (match ?x with _ => _ end) => destruct x
      | |- keeps _ (let '(_, _) := ?x in _) => destruct x
      end ].

Section laws.
Context `{!SyncEnvironment}.

Lemma keeps_stale P context : keeps P (context_is_stale context).
Proof. intros w Hw; exact Hw. Qed.

Lemma keeps_statuses P tracking repo_root targets : local P → ∀ statuses,
  keeps P (session_git_statuses_of tracking repo_root targets statuses).
Proof.
  intros HP. induction targets as [|t ts IH]; intros statuses; cbn [session_git_statuses_of]; keep_walk.
  apply IH.
Qed.

Lemma keeps_git_pass P context : local P → keeps P (run_git_status_pass context).
Proof.
  intros HP. unfold run_git_status_pass. keep_walk.
  apply keeps_statuses; assumption.
Qed.

Lemma keeps_status P folder linked upstream : local P → keeps P (sync_review_request_status folder linked upstream).
Proof.
  intros HP. unfold sync_review_request_status, review_request_remote, session_head_hash_for_summary. keep_walk.
Qed.

Lemma keeps_collect p context reject targets :
  (0 <= p < u64_max)%Z → ∀ updates, keeps (during p) (collect_updates context reject p targets updates).
Proof.
  intros Hp. induction targets as [|t ts IH]; intros updates; cbn [collect_updates]; [apply keeps_ret|].
  apply keeps_bind; [apply keeps_stale|intros stale].
  destruct (reject && stale); [apply keeps_ret|].
  apply keeps_bind; [apply keeps_read|intros w]. destruct (is_target_backed_off _ _ _); [apply IH|].
  apply keeps_bind; [apply keeps_status, local_during|intros r].
  apply keeps_bind; [apply keeps_stale|intros stale'].
  destruct (reject && stale'); [apply keeps_ret|].
  apply keeps_bind; [apply keeps_record, Hp|intros _]. apply IH.
Qed.

(** A pass that may poll: the index grows by one. *)
Lemma collect_pass_ok context reject w :
  backoff_ok w → (0 <= review_pass_index w < u64_max)%Z →
  during (review_pass_index w) (collect_review_request_pass_updates context reject w).2.
Proof.
  intros Hw Hi. unfold collect_review_request_pass_updates, mbind, Om_bind, next_review_pass. cbn [fst snd].
  set (p := review_pass_index w) in *.
  assert (H0 : during p (mkOrchestrator (u64_wrapping_add p 1) (review_sync_failures w) (tick_index w) (calls w)
                           (emitted w))).
  { assert (u64_wrapping_add p 1 = p + 1)%Z as Hwrap.
    { unfold u64_wrapping_add. rewrite Z.mod_small; [reflexivity|]. unfold u64_max in Hi. lia. }
    split; cbn; [exact Hwrap|]. unfold backoff_ok; cbn. rewrite Hwrap. intros k f Hk.
    apply (state_ok_mono p); [lia|exact (Hw k f Hk)]. }
  pose proof (keeps_collect p context reject (review_request_sync_targets context) Hi [] _ H0) as Hc.
  destruct (collect_updates _ _ _ _ _ _) as [[completed updates] w'] eqn:E. cbn [snd] in Hc.
  destruct completed; [|exact Hc].
  exact (keeps_retain p _ w' Hc).
Qed.

Lemma emit_updates_local P context updates : local P → keeps P (emit_review_request_pass_updates context updates).
Proof. intros HP. induction updates; cbn [emit_review_request_pass_updates]; keep_walk. Qed.

(** What an orchestrator with a bounded index leads to after one more pass. *)
Definition advances (w w' : SyncOrchestrator) : Prop :=
  backoff_ok w' /\ (review_pass_index w <= review_pass_index w' <= review_pass_index w + 1)%Z.

Lemma refresh_advances include w :
  backoff_ok w → (0 <= review_pass_index w < u64_max)%Z → advances w (run_refresh_pass include w).2.
Proof.
  intros Hw Hi. unfold run_refresh_pass. unfold mbind at 1. unfold Om_bind at 1, read.
  destruct (project_branch_name _); [|split; [exact Hw|cbn; lia]].
  set (context := env_context _). clearbody context.
  unfold mbind, Om_bind.
  pose proof (keeps_git_pass (λ v, review_pass_index v = review_pass_index w /\ backoff_ok v) context) as Hg.
  destruct (run_git_status_pass context w) as [u v] eqn:E.
  assert (review_pass_index v = review_pass_index w /\ backoff_ok v) as [Hv Hok].
  { specialize (Hg ltac:(intros a b Ha Hb [H1 H2]; split; [congruence|exact (local_ok a b Ha Hb H2)]) w (conj eq_refl Hw)).
    rewrite E in Hg. exact Hg. }
  destruct include; [|split; [exact Hok|cbn; lia]].
  unfold run_review_request_pass, mbind, Om_bind.
  pose proof (collect_pass_ok context true v Hok ltac:(lia)) as Hc.
  destruct (collect_review_request_pass_updates context true v) as [updates v'] eqn:E'. cbn [snd] in Hc.
  destruct (emit_updates_local (during (review_pass_index v)) context updates (local_during _) v' Hc) as [H1 H2].
  split; [exact H2|lia].
Qed.

(** ** Laws of runs *)

Definition orchestrator_spawn : SyncOrchestrator := mkOrchestrator 0 ∅ 0 0 [].

(** The steps of the loop: a command or a tick. *)
Inductive polled : nat → SyncOrchestrator → Prop :=
| polled_spawn : polled 0 orchestrator_spawn
| polled_refresh n w : polled n w → polled (S n) (run_refresh_pass true w).2
| polled_sync n w context synced : polled n w → polled (S n) (run_sync_main context synced w).2
| polled_tick n w : polled n w → polled (S n) (tick w).2.

Lemma polled_ok n w :
  polled n w → (Z.of_nat n < u64_max)%Z → backoff_ok w /\ (0 <= review_pass_index w <= Z.of_nat n)%Z.
Proof.
  induction 1 as [|n w Hw IH|n w c b Hw IH|n w Hw IH]; intros Hn.
  - split; [apply map_Forall_empty|cbn; lia].
  - destruct IH as [H1 H2]; [lia|]. destruct (refresh_advances true w H1) as [? ?]; [lia|]. split; [done|lia].
  - destruct IH as [H1 H2]; [lia|]. unfold run_sync_main, mbind, Om_bind.
    pose proof (collect_pass_ok c false w H1 ltac:(lia)) as Hc.
    destruct (collect_review_request_pass_updates c false w) as [updates v] eqn:E. cbn [snd] in Hc.
    pose proof (keeps_awaited _ (λ _, tt) (local_during (review_pass_index w)) v Hc) as [H3 H4].
    split; [exact H4|]. cbn in H3 |- *. lia.
  - destruct IH as [H1 H2]; [lia|]. unfold tick.
    set (v := mkOrchestrator _ _ _ _ _).
    assert (Hv : backoff_ok v) by (exact (local_ok w v eq_refl eq_refl H1)).
    destruct (refresh_advances (tick_index w mod REVIEW_REQUEST_PASS_TICKS =? 0)%Z v Hv) as [? ?]; [cbn; lia|].
    split; [done|]. cbn [review_pass_index v] in *. lia.
Qed.

(** Whatever Git, the forge and the published contexts answer, a session whose
    review request cannot be polled is never left behind: in every reachable
    state (before the pass counter of 64 bits is exhausted) its backoff ends at
    most seven passes after the pass that comes next, and after [n] failures in a
    row it ends at most 0, 1, 3 or 7 passes after it, for [n] = 1, 2, 3 and more. *)
Theorem failing_reviews_are_polled_again (n : nat) (w : SyncOrchestrator) (k : SessionId) (f : ReviewSyncFailureState) :
  polled n w → (Z.of_nat n < u64_max)%Z → review_sync_failures w !! k = Some f →
  let skipped := if (consecutive_failures f <=? 1)%Z then 0%Z else if (consecutive_failures f =? 2)%Z then 1%Z
                 else if (consecutive_failures f =? 3)%Z then 3%Z else 7%Z in
  is_target_backed_off w k (review_pass_index w + skipped) = false.
Proof.
  intros Hw Hn Hk skipped. destruct (polled_ok n w Hw Hn) as [Hok _].
  destruct (Hok k f Hk) as [_ Hr]. rewrite backoff_schedule in Hr.
  unfold is_target_backed_off. rewrite Hk. apply Z.ltb_ge. exact Hr.
Qed.
End laws.

(** ** An unreachable remote *)

Module SyncDemo.
Definition target : ReviewRequestSyncTarget := mkReviewTarget (L"/work/a") None (Some (L"origin/a")) (L"a").
Definition context : SyncContext := mkContext 0 (Some (L"main")) 1 (L"demo") [target] [] (L"/work").

#[local] Instance offline : SyncEnvironment := {|
  env_context := λ _, context;
  env_repo_root := λ _ _, None;
  env_tracking_statuses := λ _ _, Err (L"offline");
  env_ahead_behind := λ _ _ _ _, Err (L"offline");
  env_merge_conflicts := λ _ _ _ _, Err (L"offline");
  env_repo_url := λ _ _, Err (L"offline");
  env_refresh_request := λ _ _ _, Err (CliNotInstalled GitHub);
  env_find_request := λ _ _ _, Err (CliNotInstalled GitHub);
  env_head_hash := λ _ _, Err (L"offline")
|}.

(** Four refreshes: the first two poll, the third is skipped and the fourth polls. *)
Definition after_four : SyncOrchestrator :=
  (run_refresh_pass true (run_refresh_pass true (run_refresh_pass true (run_refresh_pass true orchestrator_spawn).2).2).2).2.

Lemma four_refreshes :
  review_pass_index after_four = 4%Z /\
  review_sync_failures after_four !! L"a" = Some (mkFailureState 3 7) /\
  existsb (λ e, match e with SyncNotice _ _ => true | _ => false end) (emitted after_four) = true.
Proof. vm_compute. auto. Qed.

Lemma failing_reviews_are_polled_again_witness :
  is_target_backed_off after_four (L"a") 6 = true /\ is_target_backed_off after_four (L"a") 7 = false.
Proof.
  split; [vm_compute; reflexivity|].
  refine (failing_reviews_are_polled_again 4 after_four (L"a") (mkFailureState 3 7) _ _ _).
  - exact (polled_refresh _ _ (polled_refresh _ _ (polled_refresh _ _ (polled_refresh _ _ polled_spawn)))).
  - reflexivity.
  - vm_compute. reflexivity.
Defined.
End SyncDemo.
