(* ===== verification/ProjectSync.v ===== *)
(** * Sharing of base checkouts (crates/agentty/src/app/core/state.rs,
    app/core/event.rs, app/sync.rs)

    Merges and explicit syncs change the checkout of a project.  The application
    runs one merge and one sync at a time, queues the others, and resumes them
    when a merge ends or a sync completes.  The session services, the clock and
    the finalization of merged sessions answer from an environment by the number
    of starts made so far. *)
From stdpp Require Import gmap.
From S2P Require Import Prelude Contracts Agent Lifecycle Transcript Transient Prompt Input Review Session SessionState MergeQueue FileEntry SessionManager ToolCalls Forge SyncPasses Json Flow BranchPublish Commits RebaseFlow MergeFlow.

(** ** Status of the explicit sync *)

Inductive ProjectSyncPhase :=
| PhaseRunning
| PhaseResolvingConflicts (conflicted_file_count : Z)
| PhaseComplete (deferred_session_count : Z) (pulled pushed : option Z) (resolved_conflict_count : Z)
| PhaseBlocked (message : str)
| PhaseFailed (message : str).

Record ProjectSyncStatus := mkSyncStatus { status_context : ProjectSyncContext; phase : ProjectSyncPhase }.

Definition is_running (self : ProjectSyncStatus) : bool :=
  match phase self with PhaseRunning | PhaseResolvingConflicts _ => true | _ => false end.

Record SyncMainCompletion := mkCompletion {
  completed_operation : ProjectSyncContext;
  completion_result : result SyncMainOutcome SyncSessionStartError;
  review_request_updates : list (result SyncReviewRequestTaskResult str * SessionId)
}.

Definition PROJECT_SYNC_STATUS_VISIBLE_DURATION : Z := 10000.

Record SyncMainRequest := mkSyncRequest { request_operation : ProjectSyncContext; request_context : SyncContext }.

(** ** The state of the application *)

Inductive CheckoutStart := StartedMerge (k : SessionId) (project : Z) | StartedSync (operation : ProjectSyncContext).

Record Checkouts := mkCheckouts {
  active_project_id : Z;
  loaded : SessionState;
  sync_context : SyncContext;
  merge_queue : MergeQueue;
  project_sync_status : option ProjectSyncStatus;
  project_sync_status_expires_at : option Z;
  pending_project_sync_requests : list SyncMainRequest;
  pending_project_sync_completions : gmap Z SyncMainCompletion;
  latest_project_sync_operation_ids : gmap Z Z;
  next_sync_operation_id : Z;
  starts : list CheckoutStart
}.

Definition with_queue (w : Checkouts) (q : MergeQueue) : Checkouts :=
  mkCheckouts (active_project_id w) (loaded w) (sync_context w) q (project_sync_status w)
    (project_sync_status_expires_at w) (pending_project_sync_requests w) (pending_project_sync_completions w)
    (latest_project_sync_operation_ids w) (next_sync_operation_id w) (starts w).

Definition with_status (w : Checkouts) (s : option ProjectSyncStatus) (expires : option Z) : Checkouts :=
  mkCheckouts (active_project_id w) (loaded w) (sync_context w) (merge_queue w) s expires
    (pending_project_sync_requests w) (pending_project_sync_completions w) (latest_project_sync_operation_ids w)
    (next_sync_operation_id w) (starts w).

Definition with_pending (w : Checkouts) (r : list SyncMainRequest) : Checkouts :=
  mkCheckouts (active_project_id w) (loaded w) (sync_context w) (merge_queue w) (project_sync_status w)
    (project_sync_status_expires_at w) r (pending_project_sync_completions w) (latest_project_sync_operation_ids w)
    (next_sync_operation_id w) (starts w).

Definition with_completions (w : Checkouts) (m : gmap Z SyncMainCompletion) : Checkouts :=
  mkCheckouts (active_project_id w) (loaded w) (sync_context w) (merge_queue w) (project_sync_status w)
    (project_sync_status_expires_at w) (pending_project_sync_requests w) m (latest_project_sync_operation_ids w)
    (next_sync_operation_id w) (starts w).

Definition with_loaded (w : Checkouts) (st : SessionState) : Checkouts :=
  mkCheckouts (active_project_id w) st (sync_context w) (merge_queue w) (project_sync_status w)
    (project_sync_status_expires_at w) (pending_project_sync_requests w) (pending_project_sync_completions w)
    (latest_project_sync_operation_ids w) (next_sync_operation_id w) (starts w).

Definition note_start (w : Checkouts) (s : CheckoutStart) : Checkouts :=
  mkCheckouts (active_project_id w) (loaded w) (sync_context w) (merge_queue w) (project_sync_status w)
    (project_sync_status_expires_at w) (pending_project_sync_requests w) (pending_project_sync_completions w)
    (latest_project_sync_operation_ids w) (next_sync_operation_id w) (starts w ++ [s]).

(** Answers: is a merge request valid, could the session be marked as queued, did
    the merge of a loaded session start, which merged sessions stay deferred. *)
Class CheckoutHost := {
  host_valid : nat → SessionId → result unit str;
  host_mark : nat → SessionId → result unit str;
  host_start_merge : nat → SessionId → result unit str;
  host_now : nat → Z;
  host_deferred : nat → list SessionId
}.

Definition running (w : Checkouts) : bool :=
  match project_sync_status w with Some s => is_running s | None => false end.

Definition sync_failure_message (e : SyncSessionStartError) : str :=
  let detail := sync_detail_message e in
  if negb (is_git_push_authentication_error detail) then detail
  else git_push_authentication_message (detected_forge_kind_from_git_push_error detail) (L"run sync again").

Definition ensure_project_checkout_available (w : Checkouts) (project_id : Z) : result unit str :=
  match project_sync_status w with
  | Some s =>
      if is_running s && (sync_project_id (status_context s) =? project_id)%Z then
        Err (L"Project `" ++ sync_project_name (status_context s) ++ L"` is synchronizing `"
               ++ default_branch (status_context s) ++ L"`; try this base-branch operation again after sync")
      else Ok tt
  | None => Ok tt
  end.

Definition is_ok {A E} (r : result A E) : bool := match r with Ok _ => true | Err _ => false end.

Section checkouts.
Context `{!CheckoutHost}.

(** ** Merges *)

(** The answer of the session manager: a session that is not loaded is not found. *)
Definition merge_starts (w : Checkouts) (k : SessionId) : result unit str :=
  match session_for_id (loaded w) k with
  | None => Err (SessionError_display NotFound)
  | Some _ => host_start_merge (length (starts w)) k
  end.

(** The queue after a driver step; a new active merge was started. *)
Definition take_queue (w : Checkouts) (q : MergeQueue) : Checkouts :=
  let w' := with_queue w q in
  match active_session_id (merge_queue w), active_session_id q with
  | None, Some k => note_start w' (StartedMerge k (active_project_id w))
  | _, _ => w'
  end.

Definition app_start_next_merge (stop_on_failure : bool) (w : Checkouts) : result unit str * Checkouts :=
  let '(r, q, _) :=
    start_next_merge_from_queue (is_ok (ensure_project_checkout_available w (active_project_id w)))
      (merge_starts w) stop_on_failure (merge_queue w) in
  (r, take_queue w q).

Definition app_merge_session (k : SessionId) (w : Checkouts) : result unit str * Checkouts :=
  let n := length (starts w) in
  let '(r, q, _) :=
    merge_session (ensure_project_checkout_available w (active_project_id w)) (host_valid n k) (host_mark n k)
      (merge_starts w) (merge_queue w) k in
  (r, take_queue w q).

(** ** Syncs *)

Definition schedule_project_sync_status_expiry (w : Checkouts) : Checkouts :=
  with_status w (project_sync_status w) (Some (host_now (length (starts w)) + PROJECT_SYNC_STATUS_VISIBLE_DURATION)%Z).

Definition expire_project_sync_status (now : Z) (w : Checkouts) : Checkouts :=
  match project_sync_status_expires_at w with
  | None => w
  | Some expires_at => if (now <? expires_at)%Z then w else with_status w None None
  end.

Definition dispatch_sync_main_request (request : SyncMainRequest) (w : Checkouts) : Checkouts :=
  note_start (with_status w (Some (mkSyncStatus (request_operation request) PhaseRunning)) None)
    (StartedSync (request_operation request)).

Definition new_sync_main_request (c : SyncContext) (w : Checkouts) : SyncMainRequest * Checkouts :=
  let operation_id := next_sync_operation_id w in
  let operation :=
    mkSyncContext (default (L"not detected") (project_branch_name c)) operation_id (context_project_id c)
      (context_project_name c) in
  (mkSyncRequest operation c,
   mkCheckouts (active_project_id w) (loaded w) (sync_context w) (merge_queue w) (project_sync_status w)
     (project_sync_status_expires_at w) (pending_project_sync_requests w)
     (delete (context_project_id c) (pending_project_sync_completions w))
     (<[context_project_id c := operation_id]> (latest_project_sync_operation_ids w))
     (u64_saturating_add operation_id 1) (starts w)).

Definition project_of (r : SyncMainRequest) : Z := sync_project_id (request_operation r).

Definition is_coalesced (c : SyncContext) (w : Checkouts) : bool :=
  match project_sync_status w with
  | Some s => is_running s && (sync_project_id (status_context s) =? context_project_id c)%Z
  | None => false
  end
  || existsb (λ r, (project_of r =? context_project_id c)%Z) (pending_project_sync_requests w).

Definition MERGE_BLOCKS_SYNC : str := L"a merge is active or queued; try again after it finishes".

Definition start_sync_main (w : Checkouts) : Checkouts :=
  let c := sync_context w in
  if is_coalesced c w then w
  else
    let '(request, w) := new_sync_main_request c w in
    if running w then with_pending w (pending_project_sync_requests w ++ [request])
    else if has_work (merge_queue w) then
      schedule_project_sync_status_expiry
        (with_status w (Some (mkSyncStatus (request_operation request) (PhaseBlocked MERGE_BLOCKS_SYNC)))
           (project_sync_status_expires_at w))
    else dispatch_sync_main_request request w.

Definition start_next_project_sync_from_queue (w : Checkouts) : Checkouts :=
  if running w || has_work (merge_queue w) then w
  else
    match pending_project_sync_requests w with
    | [] => w
    | request :: rest => dispatch_sync_main_request request (with_pending w rest)
    end.

Definition resume_base_checkout_work (w : Checkouts) : Checkouts :=
  if running w then w
  else
    let w := if has_work (merge_queue w) then (app_start_next_merge false w).2 else w in
    start_next_project_sync_from_queue w.

(** ** Completions *)

Definition is_latest_project_sync_operation (w : Checkouts) (operation : ProjectSyncContext) : bool :=
  match latest_project_sync_operation_ids w !! sync_project_id operation with
  | None => true
  | Some latest => (latest =? sync_operation_id operation)%Z
  end.

(** Review results are applied and merged sessions finalized; what stays deferred
    is reported. *)
Definition reconcile_project_sync_completion (w : Checkouts) (c : SyncMainCompletion) : SyncMainCompletion :=
  match completion_result c with
  | Err _ => c
  | Ok o =>
      mkCompletion (completed_operation c)
        (Ok (mkSyncOutcome (outcome_branch o) (host_deferred (length (starts w))) (pulled_commit_titles o)
               (pulled_commits o) (pushed_commit_titles o) (pushed_commits o) (outcome_conflict_files o))) []
  end.

Definition terminal_phase (c : SyncMainCompletion) : ProjectSyncPhase :=
  match completion_result c with
  | Ok o => PhaseComplete (Z.of_nat (length (deferred_merged_session_ids o))) (pulled_commits o) (pushed_commits o)
              (Z.of_nat (length (outcome_conflict_files o)))
  | Err (MainHasUncommittedChanges _ as e) => PhaseBlocked (sync_detail_message e)
  | Err (SyncOther _ as e) => PhaseFailed (sync_failure_message e)
  end.

Definition same_operation (a b : ProjectSyncContext) : bool :=
  (sync_operation_id a =? sync_operation_id b)%Z && (sync_project_id a =? sync_project_id b)%Z.

Definition set_project_sync_terminal_status (c : SyncMainCompletion) (w : Checkouts) : Checkouts :=
  let s := default (mkSyncStatus (completed_operation c) PhaseRunning) (project_sync_status w) in
  if negb (same_operation (status_context s) (completed_operation c))
  then with_status w (Some s) (project_sync_status_expires_at w)
  else
    schedule_project_sync_status_expiry
      (with_status w (Some (mkSyncStatus (status_context s) (terminal_phase c))) (project_sync_status_expires_at w)).

Definition apply_sync_main_completion (c : SyncMainCompletion) (w : Checkouts) : Checkouts :=
  if negb (is_latest_project_sync_operation w (completed_operation c)) then w
  else
    let project := sync_project_id (completed_operation c) in
    let w :=
      if (active_project_id w =? project)%Z
      then set_project_sync_terminal_status (reconcile_project_sync_completion w c) w
      else
        let w := set_project_sync_terminal_status c w in
        with_completions w (<[project := c]> (pending_project_sync_completions w)) in
    resume_base_checkout_work w.

Definition apply_pending_project_sync_completion (w : Checkouts) : Checkouts :=
  match pending_project_sync_completions w !! active_project_id w with
  | None => w
  | Some c =>
      let w := with_completions w (delete (active_project_id w) (pending_project_sync_completions w)) in
      if negb (is_latest_project_sync_operation w (completed_operation c)) then w
      else set_project_sync_terminal_status (reconcile_project_sync_completion w c) w
  end.

Definition apply_sync_main_conflict_resolution_started (operation : ProjectSyncContext) (conflicted_files : list str)
    (w : Checkouts) : Checkouts :=
  match project_sync_status w with
  | None => w
  | Some s =>
      if negb (same_operation (status_context s) operation) || negb (is_running s) then w
      else with_status w
             (Some (mkSyncStatus (status_context s) (PhaseResolvingConflicts (Z.of_nat (length conflicted_files)))))
             (project_sync_status_expires_at w)
  end.

(** ** Batches and projects *)

(** The end of a reduced batch: [session_ids] were touched, [previous] are their
    statuses before it. *)
Definition handle_merge_queue_progress (session_ids : gset SessionId) (previous : gmap SessionId SessionStatus)
    (w : Checkouts) : Checkouts :=
  let current := active_session_id (merge_queue w) ≫= λ k, status <$> SessionState.find_session (loaded w) k in
  let '(progress, q) := progress_from_status_updates (merge_queue w) current session_ids previous in
  let w := with_queue w q in
  match progress with StartNext => resume_base_checkout_work w | NoAction => w end.

(** Another project: its sessions replace the loaded ones and its context is
    published; a completion that waited for it is applied. *)
Definition switch_project (project : Z) (state : SessionState) (c : SyncContext) (w : Checkouts) : Checkouts :=
  apply_pending_project_sync_completion
    (mkCheckouts project state c (merge_queue w) (project_sync_status w) (project_sync_status_expires_at w)
       (pending_project_sync_requests w) (pending_project_sync_completions w) (latest_project_sync_operation_ids w)
       (next_sync_operation_id w) (starts w)).
End checkouts.
