(* ===== verification/ProjectSyncLaws.v ===== *)
(** * Laws of the base checkouts

    What holds in every state the application reaches while merges and syncs are
    requested, started, completed and forgotten: waiting work is behind a running
    sync or an active merge and is taken up when that ends, one sync runs at a time and is always told when it ends, and it never
    runs on the project of the active merge.  The last part computes the run in
    which a project switch makes the queue forget a merge that still runs. *)
From stdpp Require Import gmap.
From S2P Require Import Prelude Contracts Agent Lifecycle Transcript Transient Prompt Input Review Session SessionState MergeQueue FileEntry SessionManager ToolCalls Forge SyncPasses Json Flow BranchPublish Commits RebaseFlow MergeFlow ProjectSync.

Section laws.
Context `{Hhost : !CheckoutHost}.
Implicit Types (w : Checkouts) (a : list ProjectSyncContext).

(** ** Reachable states *)

(** A state with the operations whose task has answered.  A started task answers
    once; what else happens is up to the user, the clock and the other tasks. *)
Inductive checkout_step : Checkouts * list ProjectSyncContext → Checkouts * list ProjectSyncContext → Prop :=
| step_merge k w a : checkout_step (w, a) ((app_merge_session k w).2, a)
| step_sync w a : (next_sync_operation_id w < u64_max)%Z → checkout_step (w, a) (start_sync_main w, a)
| step_conflicts op files w a :
    checkout_step (w, a) (apply_sync_main_conflict_resolution_started op files w, a)
| step_complete c w a :
    StartedSync (completed_operation c) ∈ starts w → completed_operation c ∉ a →
    checkout_step (w, a) (apply_sync_main_completion c w, completed_operation c :: a)
| step_expire now w a : checkout_step (w, a) (expire_project_sync_status now w, a)
| step_switch project st c w a : checkout_step (w, a) (switch_project project st c w, a)
| step_progress ids previous w a : checkout_step (w, a) (handle_merge_queue_progress ids previous w, a)
| step_reload st w a : checkout_step (w, a) (with_loaded w st, a).

Definition checkouts_initial w : Prop :=
  running w = false ∧ pending_project_sync_requests w = [] ∧ merge_queue w = MergeQueue_default ∧ starts w = [].

(** ** The invariant *)

Definition sync_in_flight w (op : ProjectSyncContext) : Prop :=
  ∃ s, project_sync_status w = Some s ∧ is_running s = true ∧ status_context s = op.

(** Work that waits. *)
Definition waiting w : Prop := pending_project_sync_requests w ≠ [] ∨ queued_session_ids (merge_queue w) ≠ [].

(** Somebody will resume it. *)
Definition driven w : Prop := running w = true ∨ has_active (merge_queue w) = true.

Definition is_sync_start (s : CheckoutStart) : bool := match s with StartedSync _ => true | _ => false end.

(** The last merge that was started. *)
Definition last_merge w (k : SessionId) (project : Z) : Prop :=
  ∃ before after, starts w = before ++ StartedMerge k project :: after ∧ Forall (λ s, is_sync_start s = true) after.

Lemma last_merge_unique w k k' p p' : last_merge w k p → last_merge w k' p' → p = p'.
Proof.
  intros (b1 & c1 & E1 & F1) (b2 & c2 & E2 & F2). rewrite E1 in E2. clear E1. revert c2 F2 E2.
  induction c1 as [|x c1 IH] using rev_ind; intros c2 F2 E2; destruct c2 as [|y c2 _] using rev_ind.
  - apply app_inj_tail in E2 as [_ [= _ ->]]. done.
  - rewrite app_comm_cons, app_assoc in E2. apply app_inj_tail in E2 as [_ <-]. by apply Forall_app in F2 as [_ [? _]%Forall_cons].
  - rewrite app_comm_cons, app_assoc in E2. apply app_inj_tail in E2 as [_ ->]. by apply Forall_app in F1 as [_ [? _]%Forall_cons].
  - rewrite !app_comm_cons, !app_assoc in E2. apply app_inj_tail in E2 as [E2 _]. apply Forall_app in F1 as [F1 _], F2 as [F2 _].
    by apply (IH F1 c2).
Qed.

Record checkouts_inv w a : Prop := {
  inv_expiry : running w = true → project_sync_status_expires_at w = None;
  inv_started op : StartedSync op ∈ starts w → op ∈ a ∨ sync_in_flight w op;
  inv_flight op : sync_in_flight w op →
    StartedSync op ∈ starts w ∧ op ∉ a ∧
    latest_project_sync_operation_ids w !! sync_project_id op = Some (sync_operation_id op) ∧
    sync_project_id op ∉ project_of <$> pending_project_sync_requests w;
  inv_answered op : op ∈ a → StartedSync op ∈ starts w;
  inv_ids op : StartedSync op ∈ starts w → (sync_operation_id op < next_sync_operation_id w)%Z;
  inv_pending r : r ∈ pending_project_sync_requests w →
    latest_project_sync_operation_ids w !! project_of r = Some (sync_operation_id (request_operation r)) ∧
    (sync_operation_id (request_operation r) < next_sync_operation_id w)%Z ∧
    (∀ op, StartedSync op ∈ starts w → same_operation op (request_operation r) = false);
  inv_distinct : NoDup (project_of <$> pending_project_sync_requests w);
  inv_unique op op' :
    StartedSync op ∈ starts w → StartedSync op' ∈ starts w → same_operation op op' = true → op = op';
  inv_stored p c : pending_project_sync_completions w !! p = Some c → completed_operation c ∈ a;
  inv_merge k : active_session_id (merge_queue w) = Some k →
    ∃ project, last_merge w k project ∧ ∀ op, sync_in_flight w op → sync_project_id op ≠ project
}.

Lemma running_flight w : running w = true ↔ ∃ op, sync_in_flight w op.
Proof.
  unfold running, sync_in_flight. destruct (project_sync_status w) as [s|].
  - split; [intros H; by exists (status_context s), s|]. by intros (op & s' & [= <-] & H & _).
  - split; [done|]. by intros (op & s' & H & _).
Qed.

Lemma not_running w op : running w = false → ¬ sync_in_flight w op.
Proof. intros H F. assert (running w = true) by (apply running_flight; eauto). congruence. Qed.

(** ** Single changes of the state *)

Lemma same_operation_refl op : same_operation op op = true.
Proof. unfold same_operation. by rewrite !Z.eqb_refl. Qed.

Lemma same_operation_sym op op' : same_operation op op' = same_operation op' op.
Proof. unfold same_operation. by rewrite (Z.eqb_sym (sync_operation_id op)), (Z.eqb_sym (sync_project_id op)). Qed.

Lemma flight_status w w' op :
  project_sync_status w' = project_sync_status w → sync_in_flight w' op ↔ sync_in_flight w op.
Proof. intros E. unfold sync_in_flight. by rewrite E. Qed.

(** What a step does not touch. *)
Lemma inv_frame w w' a :
  project_sync_status w' = project_sync_status w →
  project_sync_status_expires_at w' = project_sync_status_expires_at w →
  pending_project_sync_requests w' = pending_project_sync_requests w → merge_queue w' = merge_queue w →
  latest_project_sync_operation_ids w' = latest_project_sync_operation_ids w →
  next_sync_operation_id w' = next_sync_operation_id w → starts w' = starts w →
  (∀ p c, pending_project_sync_completions w' !! p = Some c →
     pending_project_sync_completions w !! p = Some c ∨ completed_operation c ∈ a) →
  checkouts_inv w a → checkouts_inv w' a.
Proof.
  intros E1 E2 E3 E4 E5 E6 E7 E8 [I1 I2 I3 I4 I5 I6 I7 IU IS I8]. split.
  - unfold running. rewrite E1, E2. exact I1.
  - intros op. rewrite E7, (flight_status w w') by done. apply I2.
  - intros op. rewrite E7, E5, E3, (flight_status w w') by done. apply I3.
  - intros op. rewrite E7. apply I4.
  - intros op. rewrite E7, E6. apply I5.
  - intros r. rewrite E3, E5, E6, E7. apply I6.
  - by rewrite E3.
  - rewrite E7. exact IU.
  - intros p c [H|H]%E8; [by apply (IS p)|done].
  - intros k. rewrite E4. intros (p & HL & HF)%I8. exists p. split; [unfold last_merge; by rewrite E7|].
    intros op. rewrite (flight_status w w') by done. apply HF.
Qed.

(** A new state of the queue: no other merge is active, or one was started on a
    project that is not being synchronized. *)
Lemma take_queue_inv w q a :
  (∀ k, active_session_id q = Some k → active_session_id (merge_queue w) = Some k
     ∨ active_session_id (merge_queue w) = None ∧ ∀ op, sync_in_flight w op → sync_project_id op ≠ active_project_id w) →
  checkouts_inv w a → checkouts_inv (take_queue w q) a.
Proof.
  intros HQ [I1 I2 I3 I4 I5 I6 I7 IU IS I8]. unfold take_queue.
  assert (checkouts_inv (with_queue w q) a ∨ active_session_id (merge_queue w) = None ∧ ∃ k, active_session_id q = Some k)
    as HC.
  { destruct (active_session_id (merge_queue w)) as [k0|] eqn:EA; destruct (active_session_id q) as [k|] eqn:EQ;
      [left|left|right; eauto|left]; (split; [exact I1|exact I2|exact I3|exact I4|exact I5|exact I6|exact I7|exact IU|exact IS|]); cbn [with_queue merge_queue]; rewrite EQ; [|done..].
    intros k' [= <-]. destruct (HQ k eq_refl) as [[= ->]|[? _]]; [|done]. exact (I8 _ eq_refl). }
  destruct (active_session_id (merge_queue w)) as [k0|] eqn:EA;
    [destruct HC as [HC|[? _]]; [destruct (active_session_id q); exact HC|done]|].
  destruct (active_session_id q) as [k|] eqn:EQ; [|by destruct HC as [HC|[_ [? ?]]]].
  destruct (HQ k eq_refl) as [?|[_ HP]]; [done|]. split.
  - exact I1.
  - intros op. cbn [note_start with_queue starts]. rewrite elem_of_app, list_elem_of_singleton. intros [H|H]; [by apply I2|done].
  - intros op HF. cbn [note_start with_queue starts]. destruct (I3 op HF) as (H1 & H2). split; [|done]. set_solver.
  - intros op H. apply elem_of_app. left. by apply I4.
  - intros op. cbn [note_start with_queue starts]. rewrite elem_of_app, list_elem_of_singleton. intros [H|H]; [by apply I5|done].
  - intros r H. destruct (I6 r H) as (H1 & H2 & H3). split_and!; [done..|].
    cbn [note_start with_queue starts]. intros op. rewrite elem_of_app, list_elem_of_singleton. intros [?|?]; [by apply H3|done].
  - exact I7.
  - cbn [note_start with_queue starts]. intros op op'. rewrite !elem_of_app, !list_elem_of_singleton.
    intros [H|?] [H'|?]; [by apply IU|done..].
  - exact IS.
  - cbn [note_start with_queue merge_queue]. rewrite EQ. intros k' [= <-]. exists (active_project_id w). split; [|exact HP].
    by exists (starts w), [].
Qed.

(** A sync is dispatched while none runs and no merge is active. *)
Lemma dispatch_inv w r a :
  running w = false → has_active (merge_queue w) = false →
  latest_project_sync_operation_ids w !! project_of r = Some (sync_operation_id (request_operation r)) →
  (sync_operation_id (request_operation r) < next_sync_operation_id w)%Z →
  (∀ op, StartedSync op ∈ starts w → same_operation op (request_operation r) = false) →
  project_of r ∉ project_of <$> pending_project_sync_requests w →
  checkouts_inv w a → checkouts_inv (dispatch_sync_main_request r w) a.
Proof.
  intros HR HA HL HI HN HP [I1 I2 I3 I4 I5 I6 I7 IU IS I8].
  assert (HF : ∀ op, sync_in_flight (dispatch_sync_main_request r w) op ↔ op = request_operation r).
  { intros op. unfold sync_in_flight. cbn. split; [by intros (s & [= <-] & _ & <-)|intros ->]. by eexists. }
  split.
  - done.
  - intros op H. rewrite HF. revert H. cbn. rewrite elem_of_app, list_elem_of_singleton. intros [H|[= ->]]; [|by right].
    destruct (I2 op H) as [?|F]; [by left|]. by apply not_running in F.
  - intros op ->%HF. cbn [dispatch_sync_main_request note_start with_status starts latest_project_sync_operation_ids
      pending_project_sync_requests]. split_and!; [set_solver| |done|done].
    intros H%I4%HN. by rewrite same_operation_refl in H.
  - intros op H. apply elem_of_app. left. by apply I4.
  - intros op. cbn. rewrite elem_of_app, list_elem_of_singleton. intros [H|[= ->]]; [by apply I5|done].
  - intros r' H. destruct (I6 r' H) as (H1 & H2 & H3). split_and!; [done..|]. intros op. cbn.
    rewrite elem_of_app, list_elem_of_singleton. intros [?|[= ->]]; [by apply H3|].
    unfold same_operation. apply andb_false_iff. right. apply Z.eqb_neq. intros E. apply HP.
    apply list_elem_of_fmap. exists r'. by split.
  - exact I7.
  - intros op op'. cbn. rewrite !elem_of_app, !list_elem_of_singleton. intros [H|[= ->]] [H'|[= ->]] HS; try done.
    + by apply IU.
    + by rewrite HN in HS.
    + by rewrite same_operation_sym, HN in HS.
  - exact IS.
  - intros k. cbn. intros E. unfold has_active in HA. by rewrite E in HA.
Qed.

(** The running sync ends. *)
Lemma finish_inv w s expires op a :
  sync_in_flight w op → is_running s = false →
  checkouts_inv w a → checkouts_inv (with_status w (Some s) expires) (op :: a).
Proof.
  intros HF HS [I1 I2 I3 I4 I5 I6 I7 IU IS I8].
  assert (HN : ∀ o, ¬ sync_in_flight (with_status w (Some s) expires) o).
  { intros o (s' & [= <-] & H & _). congruence. }
  split.
  - unfold running. cbn. congruence.
  - intros o H. left. destruct (I2 o H) as [?|F]; [by right|]. destruct HF as (s1 & E1 & _ & <-), F as (s2 & E2 & _ & <-).
    rewrite E1 in E2. injection E2 as ->. by left.
  - intros o F. by apply HN in F.
  - intros o [->|H]%elem_of_cons; [by apply I3|by apply I4].
  - exact I5.
  - exact I6.
  - exact I7.
  - exact IU.
  - intros p c H. right. by apply (IS p).
  - intros k (p & HL & _)%I8. exists p. split; [done|]. intros o F. by apply HN in F.
Qed.

(** A status that names no running sync, while none runs. *)
Lemma status_inv w s expires a :
  running w = false → match s with Some s => is_running s = false | None => True end →
  checkouts_inv w a → checkouts_inv (with_status w s expires) a.
Proof.
  intros HR HS [I1 I2 I3 I4 I5 I6 I7 IU IS I8].
  assert (HN : ∀ o, ¬ sync_in_flight (with_status w s expires) o).
  { intros o (s' & E & H & _). cbn in E. subst s. congruence. }
  split.
  - unfold running. cbn. destruct s; congruence.
  - intros o H. left. destruct (I2 o H) as [?|F]; [done|by apply not_running in F].
  - intros o F. by apply HN in F.
  - exact I4.
  - exact I5.
  - exact I6.
  - exact I7.
  - exact IU.
  - exact IS.
  - intros k (p & HL & _)%I8. exists p. split; [done|]. intros o F. by apply HN in F.
Qed.
(** ** The operations *)

Lemma checkout_available w p :
  ensure_project_checkout_available w p = Ok tt → ∀ op, sync_in_flight w op → sync_project_id op ≠ p.
Proof.
  unfold ensure_project_checkout_available. intros H op (s & E & R & <-). rewrite E, R in H. intros EP.
  rewrite <- EP, Z.eqb_refl in H. done.
Qed.

(** The driver of the queue: what is active was active, or starts on an available
    checkout; without failures to stop for, it leaves nothing waiting. *)
Lemma start_next_spec available start stop self r q failed :
  start_next_merge_from_queue available start stop self = (r, q, failed) →
  (q = self ∧ (has_active self = true ∨ available = false)) ∨
  (available = true ∧ active_session_id self = None ∧
   (stop = false → has_active q = false → queued_session_ids q = [])).
Proof.
  unfold start_next_merge_from_queue. destruct (has_active self) eqn:HA; [intros [= _ <- _]; auto|].
  destruct available; cbn [negb]; [|intros [= _ <- _]; auto].
  unfold has_active in HA. destruct (active_session_id self) eqn:EA; [done|].
  intros (served & _ & _ & _ & _ & HE & _)%start_next_loop_spec. right. auto.
Qed.

Lemma start_next_inv stop w a : checkouts_inv w a → checkouts_inv (app_start_next_merge stop w).2 a.
Proof.
  intros HI. unfold app_start_next_merge.
  destruct (start_next_merge_from_queue _ _ _ _) as [[r q] failed] eqn:E. apply start_next_spec in E.
  apply take_queue_inv; [|done]. intros k HK. destruct E as [[-> _]|(HA & HN & _)]; [by left|]. right. split; [done|].
  apply checkout_available. by destruct (ensure_project_checkout_available w (active_project_id w)) as [[]|].
Qed.

Lemma take_queue_fields w q :
  pending_project_sync_requests (take_queue w q) = pending_project_sync_requests w ∧
  merge_queue (take_queue w q) = q ∧ project_sync_status (take_queue w q) = project_sync_status w.
Proof. unfold take_queue. by repeat case_match. Qed.

Lemma merge_request_spec w k :
  let '(_, q, _) := merge_session (ensure_project_checkout_available w (active_project_id w)) (host_valid (length (starts w)) k)
      (host_mark (length (starts w)) k) (merge_starts w) (merge_queue w) k in
  q = merge_queue w ∨ (active_session_id q = active_session_id (merge_queue w) ∧ has_active q = true) ∨
  (ensure_project_checkout_available w (active_project_id w) = Ok tt ∧ active_session_id (merge_queue w) = None ∧
   (queued_session_ids (merge_queue w) = [] → has_active q = false → queued_session_ids q = [])).
Proof.
  unfold merge_session. destruct (ensure_project_checkout_available w (active_project_id w)) as [[]|e]; [|by left].
  destruct (is_queued_or_active _ _); [by left|]. destruct (host_valid _ _) as [[]|]; [|by left].
  destruct (has_active (merge_queue w)) eqn:HA.
  - destruct (host_mark _ _) as [[]|]; [|by left]. right; left. by split.
  - unfold has_active in HA. destruct (active_session_id (merge_queue w)) eqn:EA; [done|].
    unfold start_next_merge_from_queue, has_active, enqueue. cbn [active_session_id queued_session_ids negb].
    rewrite ?EA. cbn [negb]. destruct (start_next_loop _ _ _ _) as [[r q] failed] eqn:E. right; right. split_and!; [done..|].
    intros EQ HN. rewrite EQ in E. cbn in E. destruct (merge_starts w k) as [[]|e]; injection E as _ <- _; done.
Qed.

Lemma merge_inv k w a : checkouts_inv w a → checkouts_inv (app_merge_session k w).2 a.
Proof.
  intros HI. unfold app_merge_session. pose proof (merge_request_spec w k) as HS.
  destruct (merge_session _ _ _ _ _ _) as [[r q] failed]. apply take_queue_inv; [|done]. intros k' HK.
  destruct HS as [->|[[E _]|(HA & HN & _)]]; [by left|left; congruence|]. right. split; [done|by apply checkout_available].
Qed.

Lemma merge_driven k w : (waiting w → driven w) → waiting (app_merge_session k w).2 → driven (app_merge_session k w).2.
Proof.
  intros HW. unfold app_merge_session. pose proof (merge_request_spec w k) as HS.
  destruct (merge_session _ _ _ _ _ _) as [[r q] failed]. unfold waiting, driven, running in *. cbn [snd].
  destruct (take_queue_fields w q) as (-> & -> & ->).
  destruct HS as [->|[[_ HA]|(_ & HN & HE)]]; [done|by right|]. unfold has_active in HW. rewrite HN in HW. intros H.
  destruct (match project_sync_status w with Some s => is_running s | None => false end) eqn:R; [by left|].
  destruct (queued_session_ids (merge_queue w)) eqn:EQ; [|by destruct HW as [|]; auto].
  destruct (has_active q) eqn:HA; [by right|]. rewrite HE in H by done. destruct HW as [|]; [|done..]. left. by destruct H.
Qed.

(** Resuming the work of the base checkouts. *)
Lemma next_sync_inv w a : checkouts_inv w a → checkouts_inv (start_next_project_sync_from_queue w) a.
Proof.
  intros HI. unfold start_next_project_sync_from_queue. destruct (running w) eqn:HR; [done|].
  destruct (has_work (merge_queue w)) eqn:HK; [done|]. cbn [orb].
  destruct (pending_project_sync_requests w) as [|r rest] eqn:EP; [done|].
  destruct (inv_pending w a HI r) as (HL & HB & HN); [rewrite EP; by left|].
  pose proof (inv_distinct w a HI) as HD. rewrite EP in HD. cbn in HD. apply NoDup_cons in HD as [HD1 HD2].
  apply orb_false_iff in HK as [HA _]. apply dispatch_inv; try done.
  destruct HI as [I1 I2 I3 I4 I5 I6 I7 IU IS I8]. split; try done.
  - intros op F. by apply (not_running w) in F.
  - intros r' H. apply I6. rewrite EP. by right.
Qed.

Lemma resume_spec w a :
  checkouts_inv w a →
  checkouts_inv (resume_base_checkout_work w) a ∧ (waiting (resume_base_checkout_work w) → driven (resume_base_checkout_work w)).
Proof.
  intros HI. unfold resume_base_checkout_work. destruct (running w) eqn:HR; [split; [done|by left]|].
  set (w1 := if has_work (merge_queue w) then _ else _). assert (checkouts_inv w1 a) as HI1.
  { unfold w1. destruct (has_work (merge_queue w)); [by apply start_next_inv|done]. }
  assert (running w1 = false ∧ (has_active (merge_queue w1) = true ∨ has_work (merge_queue w1) = false)) as [HR1 HK].
  { unfold w1. destruct (has_work (merge_queue w)) eqn:HK; [|by auto]. unfold app_start_next_merge.
    destruct (start_next_merge_from_queue _ _ _ _) as [[r q] failed] eqn:E. cbn [snd]. unfold running in *.
    destruct (take_queue_fields w q) as (_ & -> & ->). split; [done|].
    apply start_next_spec in E as [[-> [?|H]]|(_ & _ & HE)]; [by left| |].
    - unfold ensure_project_checkout_available in H. destruct (project_sync_status w) as [s|]; [|done].
      rewrite HR in H. done.
    - unfold has_work. destruct (has_active q); [by left|]. right. by rewrite HE. }
  split; [by apply next_sync_inv|]. unfold start_next_project_sync_from_queue. rewrite HR1. cbn [orb].
  destruct (has_work (merge_queue w1)) eqn:EW.
  - intros _. right. by destruct HK.
  - apply orb_false_iff in EW as [_ HQ]. destruct (pending_project_sync_requests w1) as [|r rest] eqn:EP.
    + intros [H|H]; [done|]. by destruct (queued_session_ids (merge_queue w1)).
    + intros _. by left.
Qed.
(** *** A request *)

Lemma not_coalesced c w :
  is_coalesced c w = false →
  (∀ op, sync_in_flight w op → sync_project_id op ≠ context_project_id c) ∧
  context_project_id c ∉ project_of <$> pending_project_sync_requests w.
Proof.
  unfold is_coalesced. intros [H1 H2]%orb_false_iff. split.
  - intros op (s & E & R & <-) EP. rewrite E, R, EP, Z.eqb_refl in H1. done.
  - intros (r & E & HR)%list_elem_of_fmap. assert (existsb (λ r, (project_of r =? context_project_id c)%Z)
      (pending_project_sync_requests w) = true) as HX; [|congruence].
    apply existsb_true. exists r. split; [done|]. rewrite E. apply Z.eqb_refl.
Qed.

Lemma new_request_inv c w a :
  (next_sync_operation_id w < u64_max)%Z → is_coalesced c w = false → checkouts_inv w a →
  let '(r, w') := new_sync_main_request c w in
  checkouts_inv w' a ∧ project_of r = context_project_id c ∧
  latest_project_sync_operation_ids w' !! project_of r = Some (sync_operation_id (request_operation r)) ∧
  (sync_operation_id (request_operation r) < next_sync_operation_id w')%Z ∧
  ∀ op, StartedSync op ∈ starts w' → same_operation op (request_operation r) = false.
Proof.
  intros HM [HF HP]%not_coalesced [I1 I2 I3 I4 I5 I6 I7 IU IS I8]. unfold new_sync_main_request, project_of.
  cbn [request_operation sync_project_id sync_operation_id latest_project_sync_operation_ids next_sync_operation_id starts].
  rewrite u64_saturating_add_lt by done. split_and!; [|done|by rewrite lookup_insert_eq|lia|].
  - split; try done.
    + intros op H. destruct (I3 op H) as (H1 & H2 & H3 & H4). split_and!; [done..| |done].
      cbn. rewrite lookup_insert_ne by (intros E; by apply (HF op)). done.
    + intros op H. cbn. pose proof (I5 op H). lia.
    + intros r H. destruct (I6 r H) as (H1 & H2 & H3). cbn. split_and!; [|lia|done]. rewrite lookup_insert_ne; [done|]. intros E. apply HP. apply list_elem_of_fmap. eauto.
    + intros p c1. cbn. intros [_ H]%lookup_delete_Some. by apply (IS p).
  - intros op H%I5. unfold same_operation. cbn. apply andb_false_iff. left. apply Z.eqb_neq. lia.
Qed.

Lemma enqueue_inv r w a :
  latest_project_sync_operation_ids w !! project_of r = Some (sync_operation_id (request_operation r)) →
  (sync_operation_id (request_operation r) < next_sync_operation_id w)%Z →
  (∀ op, StartedSync op ∈ starts w → same_operation op (request_operation r) = false) →
  project_of r ∉ project_of <$> pending_project_sync_requests w →
  (∀ op, sync_in_flight w op → sync_project_id op ≠ project_of r) →
  checkouts_inv w a → checkouts_inv (with_pending w (pending_project_sync_requests w ++ [r])) a.
Proof.
  intros HL HI HN HP HF [I1 I2 I3 I4 I5 I6 I7 IU IS I8]. split; try done; cbn.
  - intros op H. destruct (I3 op H) as (H1 & H2 & H3 & H4). split_and!; [done..|]. rewrite fmap_app. cbn.
    pose proof (HF op H). set_solver.
  - intros r'. rewrite elem_of_app, list_elem_of_singleton. intros [H| ->]; [by apply I6|done].
  - rewrite fmap_app. apply NoDup_app. split_and!; [done|set_solver|]. apply NoDup_singleton.
Qed.

Lemma sync_spec w a :
  (next_sync_operation_id w < u64_max)%Z → checkouts_inv w a → (waiting w → driven w) →
  checkouts_inv (start_sync_main w) a ∧ (waiting (start_sync_main w) → driven (start_sync_main w)).
Proof.
  intros HM HI HW. unfold start_sync_main. destruct (is_coalesced (sync_context w) w) eqn:HC; [done|].
  pose proof (new_request_inv _ w a HM HC HI) as HR. apply not_coalesced in HC as [HF HP].
  pose proof (inv_pending w a HI) as HD.
  destruct (new_sync_main_request (sync_context w) w) as [r w'] eqn:E.
  assert (project_sync_status w' = project_sync_status w ∧ merge_queue w' = merge_queue w ∧
    pending_project_sync_requests w' = pending_project_sync_requests w) as (E1 & E2 & E3) by by injection E as _ <-.
  destruct HR as (HI' & EP & HL & HB & HN). destruct (running w') eqn:R.
  - split; [|by left]. apply enqueue_inv; try done; [by rewrite EP, E3|]. intros op. rewrite EP, (flight_status w w' op E1). apply HF.
  - destruct (has_work (merge_queue w')) eqn:K.
    + split; [by repeat apply status_inv|]. unfold driven, waiting, running in *. cbn. rewrite E2, E3.
      intros H. destruct (HW H) as [H1|]; [|by right]. rewrite E1 in R. congruence.
    + split; [|by left]. apply orb_false_iff in K as [K _]. apply dispatch_inv; try done; by rewrite EP, E3.
Qed.

(** *** The end of a sync *)

Lemma terminal_phase_stops c op : is_running (mkSyncStatus op (terminal_phase c)) = false.
Proof. unfold terminal_phase. by destruct (completion_result c) as [|[]]. Qed.

Lemma terminal_inv c w a :
  sync_in_flight w (completed_operation c) → checkouts_inv w a →
  checkouts_inv (set_project_sync_terminal_status c w) (completed_operation c :: a).
Proof.
  intros (s & E & R & EO) HI. unfold set_project_sync_terminal_status. rewrite E. cbn [from_option Datatypes.id]. rewrite EO, same_operation_refl.
  cbn [negb]. unfold schedule_project_sync_status_expiry. cbn [with_status project_sync_status].
  apply (finish_inv w); [by exists s|apply terminal_phase_stops|done].
Qed.

Lemma reconcile_operation w c : completed_operation (reconcile_project_sync_completion w c) = completed_operation c.
Proof. unfold reconcile_project_sync_completion. by destruct (completion_result c). Qed.

(** The completion of the sync that runs is never refused. *)
Lemma flight_is_latest w a op :
  checkouts_inv w a → sync_in_flight w op → is_latest_project_sync_operation w op = true.
Proof.
  intros HI HF. destruct (inv_flight w a HI op HF) as (_ & _ & HL & _). unfold is_latest_project_sync_operation.
  rewrite HL. apply Z.eqb_refl.
Qed.

Lemma complete_spec c w a :
  StartedSync (completed_operation c) ∈ starts w → completed_operation c ∉ a → checkouts_inv w a →
  checkouts_inv (apply_sync_main_completion c w) (completed_operation c :: a) ∧
  (waiting (apply_sync_main_completion c w) → driven (apply_sync_main_completion c w)).
Proof.
  intros HS HA HI. destruct (inv_started w a HI _ HS) as [?|HF]; [done|]. unfold apply_sync_main_completion.
  rewrite (flight_is_latest w a) by done. cbn [negb]. apply resume_spec. case_match.
  - rewrite <- (reconcile_operation w c). apply terminal_inv; [|done]. by rewrite reconcile_operation.
  - apply (inv_frame (set_project_sync_terminal_status c w)); [done..| |by apply terminal_inv].
    cbn [with_completions pending_project_sync_completions].
    intros p c' [[_ <-]|[_ HC]]%lookup_insert_Some; [right; by left|by left].
Qed.

(** A completion that waited for its project: no sync of that operation runs. *)
Lemma late_terminal_inv c w a :
  (∀ s, project_sync_status w = Some s → is_running s = true → same_operation (status_context s) (completed_operation c) = false) →
  checkouts_inv w a → checkouts_inv (set_project_sync_terminal_status c w) a.
Proof.
  intros HD HI. unfold set_project_sync_terminal_status. destruct (project_sync_status w) as [s|] eqn:E; cbn [from_option Datatypes.id status_context].
  - destruct (same_operation (status_context s) (completed_operation c)) eqn:ES; cbn [negb].
    + assert (is_running s = false) as R.
      { destruct (is_running s) eqn:R; [|done]. by rewrite (HD s) in ES. }
      unfold schedule_project_sync_status_expiry. cbn [with_status project_sync_status].
      apply (status_inv w); [unfold running; by rewrite E|apply terminal_phase_stops|done].
    + apply (inv_frame w); rewrite ?E; try done. by left.
  - rewrite same_operation_refl. cbn [negb]. unfold schedule_project_sync_status_expiry. cbn [with_status project_sync_status].
    apply (status_inv w); [unfold running; by rewrite E|apply terminal_phase_stops|done].
Qed.
(** *** Projects, batches and time *)

Lemma switch_spec project st c w a :
  checkouts_inv w a → (waiting w → driven w) →
  checkouts_inv (switch_project project st c w) a ∧
  (waiting (switch_project project st c w) → driven (switch_project project st c w)).
Proof.
  intros HI HW. unfold switch_project. set (w1 := mkCheckouts _ _ _ _ _ _ _ _ _ _ _).
  assert (checkouts_inv w1 a) as HI1 by (apply (inv_frame w); try done; by left).
  unfold apply_pending_project_sync_completion.
  destruct (pending_project_sync_completions w1 !! active_project_id w1) as [c'|] eqn:EC; [|done].
  set (w2 := with_completions w1 _). assert (checkouts_inv w2 a) as HI2.
  { apply (inv_frame w1); try done. cbn [w2 with_completions pending_project_sync_completions].
    intros p c1 [_ HC]%lookup_delete_Some. by left. }
  destruct (negb (is_latest_project_sync_operation w2 (completed_operation c'))); [done|]. pose proof (inv_stored w1 a HI1 _ _ EC) as HA.
  assert (checkouts_inv (set_project_sync_terminal_status (reconcile_project_sync_completion w2 c') w2) a) as HI3.
  { apply late_terminal_inv; [|done]. rewrite reconcile_operation. intros s ES R.
    destruct (same_operation (status_context s) (completed_operation c')) eqn:EO; [|done].
    destruct (inv_flight w2 a HI2 (status_context s)) as (HS & HN & _); [by exists s|].
    rewrite (inv_unique w2 a HI2 _ _ HS (inv_answered w2 a HI2 _ HA) EO) in HN. done. }
  split; [done|]. clear HI3. unfold driven, waiting, running, set_project_sync_terminal_status in *.
  cbn in HW. destruct (project_sync_status w) as [s|] eqn:ES; cbn; rewrite ?ES.
  - cbn. rewrite reconcile_operation. destruct (same_operation (status_context s) (completed_operation c')) eqn:EO; cbn; [|exact HW].
    destruct (is_running s) eqn:R; [|intros H; destruct (HW H); [done|by right]].
    destruct (inv_flight w2 a HI2 (status_context s)) as (HS & HN & _); [by exists s|].
    rewrite (inv_unique w2 a HI2 _ _ HS (inv_answered w2 a HI2 _ HA) EO) in HN. done.
  - cbn. rewrite same_operation_refl. cbn. intros H. destruct (HW H); [done|by right].
Qed.

Lemma clear_active_inv w a : checkouts_inv w a → checkouts_inv (with_queue w (clear_active (merge_queue w))) a.
Proof.
  intros [I1 I2 I3 I4 I5 I6 I7 IU IS I8]. split; [exact I1|exact I2|exact I3|exact I4|exact I5|exact I6|exact I7|exact IU|exact IS|].
  done.
Qed.

Lemma progress_spec ids previous w a :
  checkouts_inv w a → (waiting w → driven w) →
  checkouts_inv (handle_merge_queue_progress ids previous w) a ∧
  (waiting (handle_merge_queue_progress ids previous w) → driven (handle_merge_queue_progress ids previous w)).
Proof.
  intros HI HW. unfold handle_merge_queue_progress.
  destruct (progress_cases (merge_queue w) (active_session_id (merge_queue w) ≫= λ k, status <$> SessionState.find_session (loaded w) k)
    ids previous) as [->|[_ ->]].
  - split; [by apply (inv_frame w); auto|done].
  - by apply resume_spec, clear_active_inv.
Qed.

Lemma expire_spec now w a :
  checkouts_inv w a → (waiting w → driven w) →
  checkouts_inv (expire_project_sync_status now w) a ∧
  (waiting (expire_project_sync_status now w) → driven (expire_project_sync_status now w)).
Proof.
  intros HI HW. unfold expire_project_sync_status. destruct (project_sync_status_expires_at w) as [t|] eqn:E; [|done].
  destruct (now <? t)%Z; [done|].
  assert (running w = false) as R by (destruct (running w) eqn:R; [by rewrite (inv_expiry w a HI R) in E|done]).
  split; [by apply status_inv|]. intros H. destruct (HW H); [congruence|by right].
Qed.

Lemma conflicts_spec op files w a :
  checkouts_inv w a → (waiting w → driven w) →
  checkouts_inv (apply_sync_main_conflict_resolution_started op files w) a ∧
  (waiting (apply_sync_main_conflict_resolution_started op files w) → driven (apply_sync_main_conflict_resolution_started op files w)).
Proof.
  intros HI HW. unfold apply_sync_main_conflict_resolution_started. destruct (project_sync_status w) as [s|] eqn:E; [|done].
  destruct (negb _ || _) eqn:EC; [done|]. apply orb_false_iff in EC as [_ R%negb_false_iff].
  split; [|by left]. set (w' := with_status _ _ _).
  assert (∀ o, sync_in_flight w' o ↔ sync_in_flight w o) as HF.
  { intros o. unfold sync_in_flight. rewrite E. cbn. split; intros (s' & [= <-] & _ & <-); by eexists. }
  destruct HI as [I1 I2 I3 I4 I5 I6 I7 IU IS I8]. split; try done.
  - intros _. cbn. apply I1. unfold running. by rewrite E.
  - intros o. rewrite HF. apply I2.
  - intros o. rewrite HF. apply I3.
  - intros k (p & HL & HP)%I8. exists p. split; [done|]. intros o. rewrite HF. apply HP.
Qed.

(** ** Reachable states satisfy the invariant *)

Lemma reachable_checkouts w0 w a :
  checkouts_initial w0 → pending_project_sync_completions w0 = ∅ → rtc checkout_step (w0, []) (w, a) →
  checkouts_inv w a ∧ (waiting w → driven w).
Proof.
  intros (HR & HP & HQ & HS) HC H.
  assert (∀ x y, rtc checkout_step x y → checkouts_inv x.1 x.2 ∧ (waiting x.1 → driven x.1) →
    checkouts_inv y.1 y.2 ∧ (waiting y.1 → driven y.1)) as HI.
  { clear. intros x y H. induction H as [|x y z HS _ IH]; [done|]. intros [HI HW]. apply IH. clear IH.
    destruct HS; cbn [fst snd] in *.
    - split; [by apply merge_inv|by apply merge_driven].
    - by apply sync_spec.
    - by apply conflicts_spec.
    - by apply complete_spec.
    - by apply expire_spec.
    - by apply switch_spec.
    - by apply progress_spec.
    - split; [|done]. apply (inv_frame w); try done. by left. }
  apply (HI _ _ H). cbn [fst snd]. split.
  - split; rewrite ?HS, ?HP, ?HQ, ?HC; try (intros; set_solver).
    + congruence.
    + intros op F. by apply not_running in F.
    + constructor.
  - unfold waiting. rewrite HP, HQ. by intros [].
Qed.

(** ** The end of a merge or a sync *)

(** What the waiting work becomes: the oldest queued merge that starts becomes the active one, on the opened project,
    and those before it are dropped because they failed to start; if none starts, the oldest pending sync does. *)
Definition resumes w w' : Prop :=
  ∃ failed, Forall (λ k, ∃ e, merge_starts w k = Err e) failed ∧
    ((∃ k rest, queued_session_ids (merge_queue w) = failed ++ k :: rest ∧
        starts w' = starts w ++ [StartedMerge k (active_project_id w)] ∧ merge_queue w' = mkMergeQueue (Some k) rest ∧
        pending_project_sync_requests w' = pending_project_sync_requests w)
     ∨ (queued_session_ids (merge_queue w) = failed ∧ merge_queue w' = MergeQueue_default ∧
        match pending_project_sync_requests w with
        | [] => starts w' = starts w
        | r :: rest => starts w' = starts w ++ [StartedSync (request_operation r)] ∧
            pending_project_sync_requests w' = rest ∧ sync_in_flight w' (request_operation r)
        end)).

(** Only the queue, the pending requests, the opened project and what was started matter. *)
Lemma resumes_from w1 w w' :
  queued_session_ids (merge_queue w1) = queued_session_ids (merge_queue w) → starts w1 = starts w → loaded w1 = loaded w →
  active_project_id w1 = active_project_id w →
  pending_project_sync_requests w1 = pending_project_sync_requests w → resumes w1 w' → resumes w w'.
Proof. unfold resumes, merge_starts. by intros -> -> -> -> ->. Qed.

Lemma next_sync_starts w :
  running w = false → merge_queue w = MergeQueue_default →
  merge_queue (start_next_project_sync_from_queue w) = MergeQueue_default ∧
  match pending_project_sync_requests w with
  | [] => starts (start_next_project_sync_from_queue w) = starts w
  | r :: rest => starts (start_next_project_sync_from_queue w) = starts w ++ [StartedSync (request_operation r)] ∧
      pending_project_sync_requests (start_next_project_sync_from_queue w) = rest ∧
      sync_in_flight (start_next_project_sync_from_queue w) (request_operation r)
  end.
Proof.
  intros HR HQ. unfold start_next_project_sync_from_queue. rewrite HR, HQ. cbn.
  destruct (pending_project_sync_requests w) as [|r rest]; cbn; rewrite HQ; [done|]. split_and!; [done..|]. by eexists.
Qed.

Lemma resume_resumes w :
  running w = false → active_session_id (merge_queue w) = None → resumes w (resume_base_checkout_work w).
Proof.
  intros HR HA. unfold resume_base_checkout_work. rewrite HR.
  destruct (merge_queue w) as [act queued] eqn:EQ. cbn in HA. subst act. unfold has_work, has_active. cbn [active_session_id queued_session_ids].
  destruct (is_empty queued) eqn:EE.
  { assert (queued = []) as -> by (by destruct queued). cbn [negb orb]. exists []. split; [constructor|]. right.
    rewrite EQ. split; [done|]. by apply next_sync_starts. }
  cbn [negb orb]. unfold app_start_next_merge. rewrite EQ.
  assert (is_ok (ensure_project_checkout_available w (active_project_id w)) = true) as ->.
  { unfold ensure_project_checkout_available, running in *. destruct (project_sync_status w) as [s|]; [|done]. by rewrite HR. }
  unfold start_next_merge_from_queue. cbn [has_active active_session_id queued_session_ids negb].
  destruct (start_next_loop (merge_starts w) false None queued) as [[r q] failed] eqn:EL. cbn [snd].
  apply start_next_loop_spec in EL as (served & Es & Eo & HF & _ & HN & _). exists failed. split; [done|].
  unfold queue_order in Eo. unfold take_queue. rewrite EQ. cbn [active_session_id].
  destruct q as [[k|] rest]; cbn [active_session_id queued_session_ids option_list app] in *; subst served.
  - left. exists k, rest. unfold start_next_project_sync_from_queue, has_work, has_active. cbn. rewrite orb_true_r. cbn.
    split_and!; [done..|]. done.
  - right. rewrite (HN eq_refl eq_refl), app_nil_r in *. split; [exact Es|].
    apply (next_sync_starts (with_queue w (mkMergeQueue None []))); [exact HR|done].
Qed.

(** The active merge of the queue has ended, as far as the application can see: its session is not loaded any more, or
    it was updated and is not merging. *)
Definition merge_over w (ids : gset SessionId) (k : SessionId) : Prop :=
  let current := status <$> SessionState.find_session (loaded w) k in
  (k ∈ ids ∧ current ≠ Some Merging) ∨ (k ∉ ids ∧ current = None).

Lemma merge_over_progress w ids previous k :
  active_session_id (merge_queue w) = Some k → merge_over w ids k →
  handle_merge_queue_progress ids previous w = resume_base_checkout_work (with_queue w (clear_active (merge_queue w))).
Proof.
  unfold merge_over, handle_merge_queue_progress, progress_from_status_updates. intros -> HO. cbn [option_bind mbind].
  destruct HO as [[HI HC]|[HI HC]].
  - rewrite (bool_decide_true _ HI). cbn [negb]. rewrite (bool_decide_false _ HC). cbn [negb]. by destruct (negb _).
  - rewrite (bool_decide_false _ HI). cbn [negb]. by rewrite HC.
Qed.

Lemma merge_end_resumes w ids previous k :
  active_session_id (merge_queue w) = Some k → merge_over w ids k →
  if running w then active_session_id (merge_queue (handle_merge_queue_progress ids previous w)) = None
  else resumes w (handle_merge_queue_progress ids previous w).
Proof.
  intros HA HO. rewrite (merge_over_progress w ids previous k) by done. set (w1 := with_queue w _).
  destruct (running w) eqn:HR.
  - unfold resume_base_checkout_work. change (running w1) with (running w). by rewrite HR.
  - apply (resumes_from w1); try done. by apply resume_resumes.
Qed.

Lemma sync_end_resumes w a c :
  checkouts_inv w a → sync_in_flight w (completed_operation c) → active_session_id (merge_queue w) = None →
  resumes w (apply_sync_main_completion c w).
Proof.
  intros HI HF HA. unfold apply_sync_main_completion. rewrite (flight_is_latest w a) by done. cbn [negb].
  assert (∀ c', completed_operation c' = completed_operation c →
    running (set_project_sync_terminal_status c' w) = false ∧
    merge_queue (set_project_sync_terminal_status c' w) = merge_queue w ∧
    starts (set_project_sync_terminal_status c' w) = starts w ∧ loaded (set_project_sync_terminal_status c' w) = loaded w ∧
    active_project_id (set_project_sync_terminal_status c' w) = active_project_id w ∧
    pending_project_sync_requests (set_project_sync_terminal_status c' w) = pending_project_sync_requests w) as HT.
  { intros c' EC. destruct HF as (s & E & _ & EO). unfold set_project_sync_terminal_status, running. rewrite E.
    cbn [from_option Datatypes.id default]. rewrite EO, EC, same_operation_refl. cbn [negb]. split_and!; try done. cbn.
    apply terminal_phase_stops. }
  destruct (HT c eq_refl) as (T1 & T2 & T3 & T4 & T5 & T6).
  destruct (HT (reconcile_project_sync_completion w c) (reconcile_operation w c)) as (U1 & U2 & U3 & U4 & U5 & U6).
  set (w1 := if (_ =? _)%Z then _ else _).
  apply (resumes_from w1); [..|apply resume_resumes];
    unfold w1; case_match; cbn [with_completions merge_queue starts loaded active_project_id pending_project_sync_requests];
    first [congruence|exact T1|exact U1].
Qed.

(** ** Main theorem *)

(** C33: The base checkouts are shared, and the end of one piece of work hands them on.  In every state
    reachable from a start without work: a sync or merge that waits is behind a running sync or a merge that the queue holds as active.  When the application
    sees that merge end it frees the queue, and unless a sync runs it starts the oldest queued merge that can start,
    or else the oldest pending sync; when the running sync completes and no merge is active, the same happens.  At
    most one sync is in flight, it is the one whose status is shown, its completion is accepted, and it never works on
    the project of the merge that the queue holds as active.  (A merge whose session is no longer loaded counts as
    ended for the queue, even while its task still runs; nothing is said of such a merge.) *)
Theorem base_checkouts_are_shared w0 w a :
  checkouts_initial w0 → pending_project_sync_completions w0 = ∅ → rtc checkout_step (w0, []) (w, a) →
  (waiting w → driven w) ∧
  (∀ ids previous k, active_session_id (merge_queue w) = Some k → merge_over w ids k →
     if running w then active_session_id (merge_queue (handle_merge_queue_progress ids previous w)) = None
     else resumes w (handle_merge_queue_progress ids previous w)) ∧
  (∀ c, sync_in_flight w (completed_operation c) → active_session_id (merge_queue w) = None →
     resumes w (apply_sync_main_completion c w)) ∧
  (∀ op, StartedSync op ∈ starts w ∧ op ∉ a ↔ sync_in_flight w op) ∧
  (∀ op, sync_in_flight w op → is_latest_project_sync_operation w op = true ∧
     (∀ op', sync_in_flight w op' → op' = op) ∧
     ∀ k project, active_session_id (merge_queue w) = Some k → last_merge w k project → sync_project_id op ≠ project).
Proof.
  intros H1 H2 H3. destruct (reachable_checkouts w0 w a H1 H2 H3) as [HI HW]. split_and!; [done| | | |].
  - intros. by apply merge_end_resumes with k.
  - intros c. by apply (sync_end_resumes w a).
  - intros op. split.
    + intros [HS HN]. by destruct (inv_started w a HI op HS).
    + intros HF. by destruct (inv_flight w a HI op HF) as (? & ? & _).
  - intros op HF. split_and!; [by apply (flight_is_latest w a)| |].
    + intros op' (s' & E' & _ & <-). destruct HF as (s & E & _ & <-). congruence.
    + intros k p HK HL. destruct (inv_merge w a HI k HK) as (p' & HL' & HP). rewrite (last_merge_unique w k k p p' HL HL').
      by apply HP.
Qed.
End laws.

(** ** Witness and a forgotten merge *)

Module CheckoutDemo.
#[local] Instance answers : CheckoutHost := {|
  host_valid := λ _ _, Ok tt;
  host_mark := λ _ _, Ok tt;
  host_start_merge := λ _ _, Ok tt;
  host_now := λ _, 0%Z;
  host_deferred := λ _, []
|}.

Definition key : SessionId := L"a".
Definition project_context (project : Z) : SyncContext :=
  mkContext 0 (Some (L"main")) project (L"p") [] [] (L"/repo").

(** The sessions of project 1; project 2 has none. *)
Definition first_sessions : SessionState := SessionState_new ∅ [sample_session key None Review] None 1 0.
Definition no_sessions : SessionState := SessionState_new ∅ [] None 0 0.

Definition start : Checkouts :=
  mkCheckouts 1 first_sessions (project_context 1) MergeQueue_default None None [] ∅ ∅ 0 [].

Lemma checkouts_start_initial : checkouts_initial start.
Proof. by split_and!. Qed.

(** A sync of project 1 runs; project 2 is opened, its sync waits. *)
Definition two_syncs : Checkouts :=
  start_sync_main (switch_project 2 no_sessions (project_context 2) (start_sync_main start)).

Lemma base_checkouts_are_shared_witness :
  waiting two_syncs ∧ driven two_syncs.
Proof.
  assert (waiting two_syncs) as HW by (left; vm_compute; discriminate). split; [exact HW|].
  assert (rtc checkout_step (start, []) (two_syncs, [])) as HR.
  { eapply rtc_l; [apply step_sync; vm_compute; reflexivity|].
    eapply rtc_l; [apply (step_switch 2 no_sessions (project_context 2))|].
    apply rtc_once. unfold two_syncs. apply step_sync. vm_compute. reflexivity. }
  apply (base_checkouts_are_shared start two_syncs [] checkouts_start_initial eq_refl HR). exact HW.
Defined.

(** While the merge of a session of project 1 runs, project 2 is opened: the queue
    no longer finds the session and takes its merge for finished.  Back in
    project 1 a sync starts on the checkout the merge still works on; nothing has
    reported the end of that merge. *)
Definition forgotten : Checkouts :=
  let w := (app_merge_session key start).2 in
  let w := handle_merge_queue_progress ∅ ∅ (switch_project 2 no_sessions (project_context 2) w) in
  start_sync_main (switch_project 1 first_sessions (project_context 1) w).

Lemma forgotten_merge_meets_sync :
  starts forgotten = [StartedMerge key 1; StartedSync (mkSyncContext (L"main") 0 1 (L"p"))] ∧
  active_session_id (merge_queue forgotten) = None.
Proof. vm_compute. split; reflexivity. Qed.

(** Without the switch the sync is refused while the merge is active. *)
Lemma active_merge_blocks_sync :
  starts (start_sync_main (app_merge_session key start).2) = [StartedMerge key 1].
Proof. vm_compute. reflexivity. Qed.
End CheckoutDemo.
