(* ===== verification/PromptLaws.v ===== *)
(** * Laws of bounded prompts and reviews

    Chunks keep every byte of their input and fit their limit; every prompt that is
    sent fits the budget; every loop ends, whatever the provider answers; and a
    review without a coverage note is about the whole diff. *)
From S2P Require Import Prelude Contracts Agent Lifecycle Transcript Transient Prompt Input Json Review Session FileEntry SessionManager Flow ReviewCache Commits Scheduler Protocol DiffPrompt ReviewPrompt.

(** ** Chunks *)

Lemma blen_nonneg s : (0 <= blen s)%Z.
Proof. unfold blen. lia. Qed.

Lemma len_utf8_max c : len_utf8 c <= 4.
Proof. unfold len_utf8. repeat case_match; lia. Qed.

Lemma floor_prefix_fits s m : (0 <= m)%Z → (blen (floor_prefix s m) <= m)%Z.
Proof.
  revert m. induction s as [|c s IH]; intros m Hm; [exact Hm|]. cbn [floor_prefix].
  destruct (Z.leb_spec (Z.of_nat (len_utf8 c)) m) as [L1|L1]; [|exact Hm].
  rewrite blen_cons. specialize (IH (m - Z.of_nat (len_utf8 c))%Z). lia.
Qed.

Lemma floor_prefix_nonempty s m : s ≠ [] → (4 <= m)%Z → floor_prefix s m ≠ [].
Proof.
  destruct s as [|c s]; [done|]. intros _ Hm. cbn. pose proof (len_utf8_max c).
  destruct (Z.leb_spec (Z.of_nat (len_utf8 c)) m); [done|lia].
Qed.

Lemma skip_while_suffix p s : ∃ skipped, s = skipped ++ skip_while p s.
Proof.
  induction s as [|c s [skipped IH]]; [by exists []|]. cbn. destruct (p c); [|by exists []].
  exists (c :: skipped). cbn. by rewrite <- IH.
Qed.

Lemma through_last_newline_split s : ∃ rest, s = through_last_newline s ++ rest.
Proof.
  unfold through_last_newline. destruct (skip_while_suffix (λ c, negb (c =? newline)%N) (rev s)) as [skipped E].
  exists (rev skipped). rewrite <- rev_app_distr, <- E. by rewrite rev_involutive.
Qed.

(** The next part is a prefix that fits, and not empty. *)
Lemma next_part_spec capacity s :
  (4 <= capacity)%Z →
  ∃ rest, s = next_part capacity s ++ rest ∧ (blen (next_part capacity s) <= capacity)%Z ∧ (s ≠ [] → next_part capacity s ≠ []).
Proof.
  intros HC. unfold next_part. destruct (floor_prefix_cut s capacity) as [rest E].
  pose proof (floor_prefix_fits s capacity ltac:(lia)) as HF. pose proof (floor_prefix_nonempty s capacity) as HN.
  destruct (is_empty (drop (length (floor_prefix s capacity)) s)); [exists rest; auto|].
  destruct (through_last_newline (floor_prefix s capacity)) as [|c l] eqn:ET; [exists rest; auto|].
  destruct (through_last_newline_split (floor_prefix s capacity)) as [rest' E']. rewrite ET in E'.
  exists (rest' ++ rest). rewrite E' in E, HF. rewrite blen_app in HF. pose proof (blen_nonneg rest').
  split_and!; [by rewrite app_assoc|lia|done].
Qed.

Lemma last_header_line part header :
  last_header part = Some header → header ∈ split_inclusive part ∧ starts_with header DIFF_HEADER = true.
Proof.
  intros [H1 H2]%list_find_b_Some. split; [|done]. by apply list_elem_of_In, in_rev, list_elem_of_In in H1.
Qed.

(** A header carried on is a header line of one of the parts before. *)
Definition header_of (before : list str) (header : str) : Prop :=
  header = [] ∨ starts_with header DIFF_HEADER = true ∧ ∃ part, part ∈ before ∧ header ∈ split_inclusive part.

Fixpoint attributed (before : list str) (parts : list (str * str)) : Prop :=
  match parts with
  | [] => True
  | (header, part) :: parts => header_of before header ∧ attributed (before ++ [part]) parts
  end.

Lemma chunk_parts_spec fuel limit header before s :
  (16 <= limit)%Z → (header = [] ∨ (blen header < limit / 4)%Z) → header_of before header → length s < fuel →
  ∃ ps, chunk_parts fuel limit header s = Some ps ∧ concat (map snd ps) = s ∧
    Forall (λ p, blen (p.1 ++ p.2) <= limit ∧ p.2 ≠ [])%Z ps ∧ attributed before ps.
Proof.
  intros HL. revert header before s. induction fuel as [|fuel IH]; intros header before s HH HB HS; [lia|]. cbn [chunk_parts].
  destruct s as [|c s']; [by exists []|]. set (s := c :: s') in *. cbn [is_empty].
  assert (blen header <= limit / 4)%Z as HHl.
  { destruct HH as [->|]; [|lia]. change (blen []) with 0%Z. apply Z.div_pos; lia. }
  assert (limit / 4 <= limit - 12)%Z by (pose proof (Z.div_lt_upper_bound limit 4 (limit - 11)); lia).
  destruct (Z.ltb_spec limit (blen header)); [lia|].
  destruct (next_part_spec (limit - blen header) s) as (rest & E & HF & HN); [lia|]. specialize (HN ltac:(done)).
  set (part := next_part (limit - blen header) s) in *.
  assert (drop (length part) s = rest) as -> by (rewrite E at 1; by rewrite drop_app_length).
  assert (length rest < fuel).
  { assert (length s = length part + length rest) by (rewrite E at 1; apply length_app). destruct part; [done|]. cbn in *. lia. }
  destruct (IH (carried_header limit header part) (before ++ [part]) rest) as (ps & HP & HC & HA & HT); [| |done|].
  - unfold carried_header. destruct (last_header part); [|done]. destruct (Z.ltb_spec (blen l) (limit / 4)); auto.
  - unfold carried_header. destruct (last_header part) as [l|] eqn:EL.
    + apply last_header_line in EL as [HL1 HL2]. destruct (blen l <? limit / 4)%Z; [|by left]. right. split; [done|].
      exists part. split; [|done]. apply elem_of_app. right. by apply list_elem_of_singleton.
    + destruct HB as [->|(HB1 & part' & HB2 & HB3)]; [by left|]. right. split; [done|]. exists part'.
      split; [|done]. apply elem_of_app. by left.
  - exists ((header, part) :: ps). rewrite HP. cbn. split_and!; [done|by rewrite HC| |done..].
    constructor; [|done]. cbn. rewrite blen_app. split; [lia|done].
Qed.

(** Chunks lose nothing.  Every input is split, without a panic and in finite
    time, into chunks of at most the limit; a chunk is a part of the input that is
    not empty, behind a file header of an earlier part or nothing; and the parts in
    order are the input. *)
Theorem chunks_are_lossless input limit :
  (16 <= limit)%Z →
  ∃ parts, chunks input limit = Some (map (λ p, p.1 ++ p.2) parts) ∧ concat (map snd parts) = input ∧
    Forall (λ p, blen (p.1 ++ p.2) <= limit ∧ p.2 ≠ [])%Z parts ∧ attributed [] parts.
Proof.
  intros HL. destruct (chunk_parts_spec (S (length input)) limit [] [] input) as (ps & E & HS); [done|by left|by left|lia|].
  exists ps. unfold chunks. by rewrite E.
Qed.

(** ** What is sent *)

Create HintDb prompts.

Section sends.
Context `{Hhost : !PromptHost} (P : PromptCall → Prop).

(** A computation adds only permitted calls. *)
Definition sends {A} (m : Om A) : Prop := ∀ t, ∃ new, (m t).2 = t ++ new ∧ Forall P new.

Lemma sends_quiet {A} (m : Om A) : (∀ t, (m t).2 = t) → sends m.
Proof. intros HM t. exists []. by rewrite HM, app_nil_r. Qed.

Lemma sends_bind {A B} (m : Om A) (f : A → Om B) : sends m → (∀ a, sends (f a)) → sends (m ≫= f).
Proof.
  intros HM HF t. destruct (HM t) as (new & E & HN). unfold mbind, Om_bind.
  destruct (m t) as [[[a|e]|] t1]; cbn in E; [|by exists new..].
  destruct (HF a t1) as (more & E' & HR). exists (new ++ more). rewrite E', E, app_assoc. split; [done|by apply Forall_app].
Qed.

Lemma sends_attempt {A} (m : Om A) : sends m → sends (attempt m).
Proof. intros HM t. destruct (HM t) as (new & E & HN). unfold attempt. exists new. by destruct (m t) as [[r|] t1]. Qed.

Lemma sends_one {A} (r : list PromptCall → option (result A str)) (e : list PromptCall → PromptCall) :
  (∀ t, P (e t)) → sends (λ t, (r t, t ++ [e t])).
Proof. intros HP t. exists [e t]. split; [done|by constructor]. Qed.

Lemma sends_submit request : (∀ r, P (Submitted request r)) → sends (submit_request request).
Proof. intros HP t. eexists [_]. split; [done|by constructor]. Qed.

Hypothesis HP : ∀ e, match e with Submitted _ _ => True | _ => P e end.

Lemma sends_available : sends ensure_available_call.
Proof. intros t. eexists [_]. split; [done|]. constructor; [exact (HP (CheckedBudget _))|done]. Qed.

Lemma sends_report p : sends (report p).
Proof. intros t. eexists [_]. split; [done|]. constructor; [exact (HP (Progressed p))|done]. Qed.
End sends.

Section budgets.
Context `{Hhost : !PromptHost, Hjson : !ReviewJson}.

(** A prompt within the budget, under the permissions of the caller or read-only. *)
Definition permitted (mode : PermissionMode) (e : PromptCall) : Prop :=
  match e with
  | Submitted r _ =>
      (blen (request_prompt r) <= PROMPT_BUDGET)%Z ∧
      (request_permission_mode r = mode ∨ request_permission_mode r = ReadOnly)
  | _ => True
  end.

Lemma permitted_other mode e : match e with Submitted _ _ => True | _ => permitted mode e end.
Proof. by destruct e. Qed.

Lemma available_sends mode : sends (permitted mode) ensure_available_call.
Proof. apply sends_available, permitted_other. Qed.

Lemma report_sends mode p : sends (permitted mode) (report p).
Proof. apply sends_report, permitted_other. Qed.

(** Walks through a computation, splitting its cases. *)
#[local] Ltac sends_walk :=
  repeat (first
    [ assumption | progress intros
    | lazymatch goal with
      | |- sends _ (mret _) => by apply sends_quiet
      | |- sends _ (fail _) => by apply sends_quiet
      | |- sends _ never => by apply sends_quiet
      | |- sends _ (of_result _) => by apply sends_quiet
      | |- sends _ (or_never ?o) => by apply sends_quiet; destruct o
      | |- sends _ (_ ≫= _) => apply sends_bind
      | |- sends _ (attempt _) => apply sends_attempt
      | |- sends _ ensure_available_call => apply available_sends
      | |- sends _ (report _) => apply report_sends
      | |- sends _ (if ?b then _ else _) => destruct b eqn:?
      | |- sends _ (match ?x with _ => _ end) => destruct x eqn:?
      end
    | solve [auto with prompts] ]).

Lemma attempts_send mode attempts request limit correction problem :
  request_permission_mode request = ReadOnly → sends (permitted mode) (summary_attempts attempts request limit correction problem).
Proof.
  intros HR. revert correction problem. induction attempts as [|attempts IH]; intros; cbn [summary_attempts]; sends_walk.
  apply sends_submit. intros r. apply Z.ltb_ge in Heqb. split; [done|by right].
Qed.

Lemma chunks_send mode fuel request limit purpose pending summaries :
  sends (permitted mode) (summarize_chunks fuel request limit purpose pending summaries).
Proof.
  revert pending summaries. induction fuel as [|fuel IH]; intros; cbn [summarize_chunks]; sends_walk.
  by apply attempts_send.
Qed.

Lemma summarize_sends mode fuel request input target purpose :
  sends (permitted mode) (summarize_for fuel request input target purpose).
Proof.
  revert input. induction fuel as [|fuel IH]; intros; cbn [summarize_for]; unfold summarize_round; sends_walk.
  apply chunks_send.
Qed.
#[local] Hint Resolve summarize_sends : prompts.

Lemma submit_limits_send limits fuel request render diff context summarized previous_size last_error :
  Forall (λ limit, limit <= PROMPT_BUDGET)%Z limits →
  sends (permitted (request_permission_mode request))
    (submit_limits limits fuel request render diff context summarized previous_size last_error).
Proof.
  intros HL. revert request diff context summarized previous_size last_error.
  induction HL as [|limit limits HB HL IH]; intros; cbn [submit_limits]; unfold summarize; sends_walk.
  - apply sends_submit. intros r. apply Z.ltb_ge in Heqb0. split; [cbn; lia|by left].
  - apply (IH (with_prompt request l)).
Qed.

Lemma submit_review_sends request :
  request_permission_mode request = ReadOnly → sends (permitted ReadOnly) (submit_review request).
Proof.
  intros HR. unfold submit_review. sends_walk. apply sends_submit. intros r. apply Z.ltb_ge in Heqb. split; [done|by right].
Qed.
#[local] Hint Resolve submit_review_sends : prompts.

Lemma keeping_sends {A} mode context (m : Om A) f :
  sends (permitted mode) m → (∀ a, sends (permitted mode) (f a)) → sends (permitted mode) (keeping context m f).
Proof. intros HM HF. unfold keeping. sends_walk; apply HF. Qed.

Section reviews.
Context (render : str → str → result str str).

Lemma fragment_sends fuel request fragment context :
  request_permission_mode request = ReadOnly → sends (permitted ReadOnly) (review_fragment render fuel request fragment context).
Proof.
  revert request context. induction fuel as [|fuel IH]; intros request context HR; cbn [review_fragment]; [sends_walk|].
  apply keeping_sends; [sends_walk|]. intros prompt. sends_walk. apply keeping_sends; [apply summarize_sends|]. intros. by apply IH.
Qed.

Lemma wave_sends fuel request context finished total fs :
  request_permission_mode request = ReadOnly →
  sends (permitted ReadOnly) (review_wave render fuel request context finished total fs).
Proof.
  intros HR. revert finished. induction fs as [|[position fragment] fs IH]; intros; cbn [review_wave]; sends_walk.
  by apply fragment_sends.
Qed.

Lemma settle_sends st fs : sends (permitted ReadOnly) (settle_results st fs).
Proof.
  revert st. induction fs as [|f fs IH]; intros st; cbn [settle_results]; [sends_walk|].
  apply sends_bind; [|intros; apply IH]. unfold settle_result. sends_walk.
Qed.

Lemma waves_send fuel request context reviews done pending :
  request_permission_mode request = ReadOnly →
  sends (permitted ReadOnly) (review_waves render fuel request context reviews done pending).
Proof.
  intros HR. revert context reviews done pending. induction fuel as [|fuel IH]; intros; cbn [review_waves]; sends_walk;
    first [by apply wave_sends | apply settle_sends].
Qed.

Lemma cross_file_sends fuel request overview context target :
  request_permission_mode request = ReadOnly →
  sends (permitted ReadOnly) (cross_file_loop render fuel request overview context target).
Proof.
  intros HR. revert overview context target. induction fuel as [|fuel IH]; intros; cbn [cross_file_loop]; [sends_walk|].
  apply keeping_sends; [apply summarize_sends|]. intros. apply keeping_sends; [sends_walk|]. intros. sends_walk.
  apply keeping_sends; [apply available_sends|]. sends_walk. apply keeping_sends; [apply summarize_sends|]. intros. apply IH.
Qed.

Lemma reduce_sends fuel request headers context candidates :
  request_permission_mode request = ReadOnly →
  sends (permitted ReadOnly) (reduce_passes render fuel request headers context candidates).
Proof.
  intros HR. revert headers context candidates. induction fuel as [|fuel IH]; intros; cbn [reduce_passes]; sends_walk.
  - generalize [candidates], FocusedReview_empty, 0. clear -HR. revert headers context.
    induction fuel as [|fuel IH]; intros; cbn [reduce_groups]; unfold reduce_group, summarize, summarize_context; sends_walk.
Qed.

(** C30: No oversized prompt is sent, and reviews change nothing.  Whatever the diff,
    the history and the answers of the provider, every prompt that a focused
    review submits, for its fragments, the summaries, the cross-file pass and the
    reduction, is at most the prompt budget long in bytes and allowed to read only. *)
Theorem review_prompts_fit_budget fuel request diff context t :
  ∃ new, (submit_focused_review render fuel request diff context t).2 = t ++ new ∧
    Forall (λ e, match e with
                 | Submitted r _ => (blen (request_prompt r) <= PROMPT_BUDGET)%Z ∧ request_permission_mode r = ReadOnly
                 | _ => True
                 end) new.
Proof.
  assert (sends (permitted ReadOnly) (submit_focused_review render fuel request diff context)) as HS.
  { unfold submit_focused_review, review_batches, cross_file_review, reduce_review, summarize_context. sends_walk.
    - by apply waves_send.
    - by apply cross_file_sends.
    - apply keeping_sends; [apply summarize_sends|]. intros. by apply reduce_sends. }
  destruct (HS t) as (new & E & HN). exists new. split; [exact E|]. eapply Forall_impl; [exact HN|].
  intros [r a| |]; cbn; [|done..]. intros [H1 [H2|H2]]; done.
Qed.
End reviews.
End budgets.
