(* ===== verification/PromptEnds.v ===== *)
(** * Termination of bounded prompts and reviews

    Every loop ends, whatever the provider answers: summaries shrink their input
    strictly, rejected chunks and fragments are split below half their size, and
    histories, targets and groups of findings shrink until a rejection is final. *)
From S2P Require Import Prelude Contracts Agent Lifecycle Transcript Transient Prompt Input Json Review Session FileEntry SessionManager Flow ReviewCache Commits Scheduler Protocol DiffPrompt ReviewPrompt PromptLaws.

(** ** Enough fuel *)

(** From some fuel on, the computation has a result, and it is the same one; a
    successful one satisfies [Q]. *)
Definition ends {A} (Q : A → Prop) (m : nat → Om A) : Prop :=
  ∀ t, ∃ n r t', (∀ k, n <= k → m k t = (Some r, t')) ∧ ∀ a, r = Ok a → Q a.

Definition always {A} : A → Prop := λ _, True.

Lemma ends_weaken {A} (Q R : A → Prop) m : (∀ a, Q a → R a) → ends Q m → ends R m.
Proof. intros HQ HM t. destruct (HM t) as (n & r & t' & H1 & H2). exists n, r, t'. eauto. Qed.

Lemma ends_ext {A} (Q : A → Prop) m m' : (∀ k t, m k t = m' k t) → ends Q m → ends Q m'.
Proof. intros HE HM t. destruct (HM t) as (n & r & t' & H1 & H2). exists n, r, t'. split; [|done]. intros k HK. rewrite <- HE. auto. Qed.

Lemma ends_ret {A} (Q : A → Prop) a : Q a → ends Q (λ _, mret a).
Proof. intros HQ t. exists 0, (Ok a), t. split; [done|]. by intros b [= <-]. Qed.

Lemma ends_result {A} (Q : A → Prop) (r : result A str) : (∀ a, r = Ok a → Q a) → ends Q (λ _, of_result r).
Proof. intros HQ t. exists 0, r, t. by split. Qed.

Lemma ends_fail {A} (Q : A → Prop) e : ends Q (λ _, @fail A e).
Proof. intros t. exists 0, (Err e), t. by split. Qed.

Lemma ends_report p : ends always (λ _, report p).
Proof. intros t. eexists 0, _, _. by split. Qed.

Lemma ends_bind {A B} (Q : A → Prop) (R : B → Prop) (m : nat → Om A) (f : nat → A → Om B) :
  ends Q m → (∀ a, Q a → ends R (λ k, f k a)) → ends R (λ k, m k ≫= f k).
Proof.
  intros HM HF t. destruct (HM t) as (n & r & t1 & H1 & H2). destruct r as [a|e].
  - destruct (HF a (H2 a eq_refl) t1) as (n' & r' & t2 & H3 & H4). exists (n + n'), r', t2. split; [|done].
    intros k HK. unfold mbind, Om_bind. rewrite H1 by lia. apply H3. lia.
  - exists n, (Err e), t1. split; [|done]. intros k HK. unfold mbind, Om_bind. by rewrite H1.
Qed.

Lemma ends_attempt {A} (Q : A → Prop) (m : nat → Om A) :
  ends Q m → ends (λ r, ∀ a, r = Ok a → Q a) (λ k, attempt (m k)).
Proof.
  intros HM t. destruct (HM t) as (n & r & t' & H1 & H2). exists n, (Ok r), t'. split.
  - intros k HK. unfold attempt. by rewrite H1.
  - by intros r' [= <-].
Qed.

(** One step of a loop. *)
Lemma ends_step {A} (Q : A → Prop) (m g : nat → Om A) : (∀ k t, m (S k) t = g k t) → ends Q g → ends Q m.
Proof.
  intros HS HG t. destruct (HG t) as (n & r & t' & H1 & H2). exists (S n), r, t'. split; [|done].
  intros [|k] HK; [lia|]. rewrite HS. apply H1. lia.
Qed.

Ltac ends_seq Q := apply (ends_bind Q).

(** ** Summaries *)

Section summaries.
Context `{Hhost : !PromptHost}.

Lemma ends_available : ends always (λ _, ensure_available_call).
Proof. intros t. unfold ensure_available_call. eexists 0, _, _. by split. Qed.

Lemma ends_submit request : ends always (λ _, submit_request request).
Proof. intros t. eexists 0, _, _. by split. Qed.

Lemma attempts_end attempts request limit correction problem :
  ends always (λ _, summary_attempts attempts request limit correction problem).
Proof.
  revert correction problem. induction attempts as [|attempts IH]; intros; cbn [summary_attempts]; [apply ends_fail|].
  case_match; [apply ends_fail|]. ends_seq (@always unit); [apply ends_available|]. intros _ _.
  ends_seq (@always AgentResponse); [apply ends_submit|]. intros response _. case_match; [by apply ends_ret|apply IH].
Qed.

(** Splitting a chunk of more than the minimum. *)
Lemma halves_shrink chunk limit :
  (MIN_CHUNK_BYTES < blen chunk)%Z → (16 <= limit <= blen chunk / 2)%Z →
  ∃ smaller, chunks chunk limit = Some smaller ∧ Forall (λ c, blen c <= blen chunk / 2)%Z smaller ∧
    (Z.of_nat (length smaller) <= blen chunk)%Z.
Proof.
  intros HC [H16 HL]. destruct (chunk_parts_spec (S (length chunk)) limit [] [] chunk) as (ps & E & HS & HF & _);
    [done|by left|by left|lia|].
  eexists. unfold chunks. rewrite E. split; [done|]. split.
  - apply Forall_map. eapply Forall_impl; [exact HF|]. intros p [HP _]. cbn in *. lia.
  - rewrite length_map. rewrite <- HS. clear -HF. induction HF as [|p ps [_ HN] HF IH]; [unfold blen; cbn; lia|].
    cbn. rewrite blen_app. assert (1 <= blen p.2)%Z; [|lia]. destruct p.2 as [|c s]; [done|]. rewrite blen_cons.
    pose proof (blen_nonneg s). assert (0 < len_utf8 c) by (unfold len_utf8; repeat case_match; lia). lia.
Qed.

Lemma min_half chunk : (MIN_CHUNK_BYTES < blen chunk)%Z → (256 <= blen chunk / 2 < blen chunk)%Z.
Proof. intros H. unfold MIN_CHUNK_BYTES in *. split; [apply Z.div_le_lower_bound; lia|apply Z.div_lt; lia]. Qed.

Section chunk_queue.
Context (request : OneShotRequest) (summary_limit : Z) (purpose : SummaryPurpose).

Definition queue_ends (pending : list str) : Prop :=
  ∀ summaries, ends always (λ k, summarize_chunks k request summary_limit purpose pending summaries).

Lemma queue_ends_nil : queue_ends [].
Proof. intros summaries. apply (ends_step _ _ (λ _, mret summaries)); [done|]. by apply ends_ret. Qed.

Lemma queue_ends_cons chunk pending : queue_ends pending → queue_ends (chunk :: pending).
Proof.
  intros HP. assert (∀ n chunk, (blen chunk <= Z.of_nat n)%Z → ∀ pending, queue_ends pending → queue_ends (chunk :: pending)) as HQ.
  2: { apply (HQ (byte_len chunk)); [unfold blen; lia|done]. }
  clear. induction n as [|n IH]; intros chunk HN pending HP summaries.
  - eapply ends_step; [intros k t; cbn [summarize_chunks]; reflexivity|]. cbn beta.
    assert (blen chunk = 0)%Z as HZ by (pose proof (blen_nonneg chunk); lia).
    destruct (Z.leb_spec (blen chunk) (Z.min summary_limit MIN_CHUNK_BYTES)); [apply HP|].
    ends_seq (λ r : result str str, True).
    { eapply ends_weaken; [|apply (ends_attempt always)]; [done|]. case_match; [apply ends_fail|apply attempts_end]. }
    intros [summary|error] _; [apply HP|]. rewrite HZ. rewrite andb_false_r. apply ends_fail.
  - eapply ends_step; [intros k t; cbn [summarize_chunks]; reflexivity|]. cbn beta.
    destruct (blen chunk <=? Z.min summary_limit MIN_CHUNK_BYTES)%Z; [apply HP|].
    ends_seq (λ r : result str str, True).
    { eapply ends_weaken; [|apply (ends_attempt always)]; [done|]. case_match; [apply ends_fail|apply attempts_end]. }
    intros [summary|error] _; [apply HP|]. destruct (is_input_size_text error); [|apply ends_fail]. cbn [andb].
    destruct (Z.ltb_spec MIN_CHUNK_BYTES (blen chunk)) as [HM|]; [|apply ends_fail].
    ends_seq (@always unit); [apply ends_available|]. intros _ _. pose proof (min_half chunk HM).
    destruct (halves_shrink chunk (blen chunk / 2)) as (smaller & -> & HF & _); [done|lia|].
    ends_seq (λ l, l = smaller); [by apply ends_ret|]. intros _ ->.
    enough (queue_ends (smaller ++ pending)) as HE by apply HE. clear -IH HF HP HN H.
    induction HF as [|c smaller HC HF IHF]; [done|]. apply IH; [lia|done].
Qed.

Lemma all_queues_end pending : queue_ends pending.
Proof. induction pending; [apply queue_ends_nil|by apply queue_ends_cons]. Qed.
End chunk_queue.

Lemma round_ends request input target purpose : ends always (λ k, summarize_round k request input target purpose).
Proof.
  unfold summarize_round. destruct (chunks_are_lossless input SUMMARY_CHUNK_BYTES) as (ps & -> & _); [done|].
  ends_seq (@always (list str)); [by apply ends_ret|]. intros. apply all_queues_end.
Qed.

(** A summary fits its target and is not longer than its input. *)
Lemma summarize_ends request input target purpose :
  ends (λ s, blen s <= target ∧ blen s <= blen input)%Z (λ k, summarize_for k request input target purpose).
Proof.
  assert (∀ n input, (blen input <= Z.of_nat n)%Z →
    ends (λ s, blen s <= target ∧ blen s <= blen input)%Z (λ k, summarize_for k request input target purpose)) as HS.
  2: { apply (HS (byte_len input)). unfold blen. lia. }
  clear input. induction n as [|n IH]; intros input HN;
    (eapply ends_step; [intros k t; cbn [summarize_for]; reflexivity|]; cbn beta;
     destruct (Z.leb_spec (blen input) target); [by apply ends_ret|];
     ends_seq (@always (list str)); [apply round_ends|]; intros summaries _).
  - pose proof (blen_nonneg input). pose proof (blen_nonneg (SUMMARIZED_MARK ++ [newline] ++ join [newline] summaries)).
    destruct (Z.leb_spec (blen input) (blen (SUMMARIZED_MARK ++ [newline] ++ join [newline] summaries))); [apply ends_fail|lia].
  - destruct (Z.leb_spec (blen input) (blen (SUMMARIZED_MARK ++ [newline] ++ join [newline] summaries))); [apply ends_fail|].
    eapply ends_weaken; [|apply IH; lia]. intros s [HS1 HS2]. split; lia.
Qed.

(** Half of a text, but not below the minimum. *)
Lemma half_context s : (MIN_CHUNK_BYTES < blen s)%Z → (Z.max (blen s / 2) MIN_CHUNK_BYTES < blen s)%Z.
Proof. intros H. pose proof (min_half s H). lia. Qed.
End summaries.

(** ** Reviews *)

Section reviews.
Context `{Hhost : !PromptHost, Hjson : !ReviewJson} (render : str → str → result str str).

Lemma submit_review_ends request : ends always (λ _, submit_review request).
Proof.
  unfold submit_review. ends_seq (@always unit); [apply ends_available|]. intros _ _.
  destruct (PROMPT_BUDGET <? blen (request_prompt request))%Z; [apply ends_fail|].
  ends_seq (@always AgentResponse); [apply ends_submit|]. intros. by apply ends_result.
Qed.

Lemma ends_tried {A} (Q : A → Prop) (m : nat → Om A) :
  ends Q m → ends (λ r, ∀ a, r = Ok a → Q a) (λ k, attempt (m k)).
Proof. apply ends_attempt. Qed.

Lemma ends_keeping {A} (Q : A → Prop) context (m : nat → Om A) (f : nat → A → Om (str * result FocusedReview str)) :
  ends Q m → (∀ a, Q a → ends always (λ k, f k a)) → ends always (λ k, keeping context (m k) (f k)).
Proof.
  intros HM HF. unfold keeping. ends_seq (λ r : result A str, ∀ a, r = Ok a → Q a); [by apply ends_attempt|].
  intros [a|e] HR; [by apply HF, HR|by apply ends_ret].
Qed.

Lemma fragment_ends request fragment context :
  ends always (λ k, review_fragment render k request fragment context).
Proof.
  assert (∀ n request context, (blen context <= Z.of_nat n)%Z →
    ends always (λ k, review_fragment render k request fragment context)) as HS.
  2: { apply (HS (byte_len context)). unfold blen. lia. }
  clear request context. induction n as [|n IH]; intros request context HN;
    (eapply ends_step; [intros k t; cbn [review_fragment]; reflexivity|]; cbn beta;
     apply (ends_keeping always); [by apply ends_result|]; intros prompt _;
     ends_seq (λ r : result FocusedReview str, True);
       [eapply ends_weaken; [|apply (ends_attempt always), submit_review_ends]; done|]; intros r _).
  - destruct (Z.ltb_spec MIN_CHUNK_BYTES (blen context)); [unfold MIN_CHUNK_BYTES in *; lia|].
    rewrite andb_false_r. by apply ends_ret.
  - destruct (Z.ltb_spec MIN_CHUNK_BYTES (blen context)) as [HC|]; [|rewrite andb_false_r; by apply ends_ret].
    destruct (is_size_rejection r && _ && true); [|by apply ends_ret]. pose proof (half_context context HC).
    apply (ends_keeping _ _ _ _ (summarize_ends _ _ _ _)). intros shorter HL. apply IH. lia.
Qed.

Lemma wave_ends request context finished total fragments :
  ends (λ fs, map fragment_text fs = map snd fragments)
    (λ k, review_wave render k request context finished total fragments).
Proof.
  revert finished. induction fragments as [|[position fragment] rest IH]; intros finished; cbn [review_wave]; [by apply ends_ret|].
  ends_seq (@always (str * result FocusedReview str)); [apply fragment_ends|]. intros [context' r] _.
  ends_seq (@always unit); [destruct r; [apply ends_report|by apply ends_ret]|]. intros _ _.
  ends_seq (λ fs, map fragment_text fs = map snd rest); [apply IH|]. intros others HO. apply ends_ret. cbn. by rewrite HO.
Qed.

(** What is left to review, in a unit that splitting uses up. *)
Section weights.
Context (bound : nat).

Definition weight (s : str) : nat := S bound ^ Nat.log2 (byte_len s).
Definition total_weight (l : list str) : nat := list_sum (map weight l).

Lemma weight_pos s : 0 < weight s.
Proof. unfold weight. pose proof (Nat.pow_nonzero (S bound) (Nat.log2 (byte_len s))). lia. Qed.

Lemma total_weight_app l k : total_weight (l ++ k) = total_weight l + total_weight k.
Proof. unfold total_weight. by rewrite map_app, list_sum_app. Qed.

Lemma half_weight s c : 2 <= byte_len s → 2 * byte_len c <= byte_len s → S bound * weight c <= weight s.
Proof.
  intros HS HC. unfold weight. rewrite <- Nat.pow_succ_r'. apply Nat.pow_le_mono_r; [lia|].
  destruct (decide (byte_len c = 0)) as [->|HZ].
  - change (S (Nat.log2 0)) with (Nat.log2 2). by apply Nat.log2_le_mono.
  - rewrite <- Nat.log2_double by lia. by apply Nat.log2_le_mono.
Qed.

Lemma parts_weight s parts :
  2 <= byte_len s → byte_len s <= bound → length parts <= byte_len s → Forall (λ c, 2 * byte_len c <= byte_len s) parts →
  total_weight parts < weight s.
Proof.
  intros H2 HB HL HF. enough (S bound * total_weight parts <= length parts * weight s) as HE.
  { pose proof (weight_pos s) as HP. assert (length parts * weight s <= bound * weight s) by (apply Nat.mul_le_mono_r; lia).
    rewrite Nat.mul_succ_l in HE. nia. }
  clear HL. induction HF as [|c parts HC HF IH]; [unfold total_weight; cbn; lia|]. cbn [length].
  change (total_weight (c :: parts)) with (weight c + total_weight parts).
  rewrite Nat.mul_add_distr_l, Nat.mul_succ_l. pose proof (half_weight s c H2 HC). lia.
Qed.
End weights.

(** Splitting a rejected fragment. *)
Lemma split_shrinks fragment position :
  (MIN_CHUNK_BYTES < blen fragment)%Z →
  ∃ parts, split_fragment fragment position = Some parts ∧ length parts <= byte_len fragment ∧
    Forall (λ p, 2 * byte_len p.2 <= byte_len fragment) parts.
Proof.
  intros HM. pose proof (min_half fragment HM) as HH.
  destruct (halves_shrink fragment (Z.min (blen fragment / 2) (PROMPT_BUDGET - 12000))) as (parts & HC & HF & HL); [done|unfold PROMPT_BUDGET; lia|].
  unfold split_fragment. rewrite HC. eexists. split; [done|]. split; [rewrite length_imap; unfold blen in *; lia|].
  clear HC HL. apply Forall_lookup_2. intros i p HP. rewrite list_lookup_imap in HP.
  destruct (parts !! i) as [part|] eqn:EP; [|done]. injection HP as <-. cbn [snd].
  rewrite Forall_lookup in HF. specialize (HF i part EP). cbn beta in HF. unfold blen in *.
  assert (Z.of_nat (byte_len fragment) / 2 * 2 <= Z.of_nat (byte_len fragment))%Z by (rewrite Z.mul_comm; apply Z.mul_div_le; lia). lia.
Qed.

Section settling.
Context (bound : nat).

Definition retry_texts (l : list (SourcePosition * str)) : list str := map snd l.

(** Settling some fragments leaves less to review, unless the review stops. *)
Definition settled (texts : list str) (st st' : BatchState) : Prop :=
  (is_Some (failure st) → is_Some (failure st')) ∧
  Forall (λ s, byte_len s <= bound) (retry_texts (retry st')) ∧
  (is_Some (failure st') ∨
   total_weight bound (retry_texts (retry st')) + length texts
     <= total_weight bound (retry_texts (retry st)) + total_weight bound texts).

Lemma settle_ends st f :
  byte_len (fragment_text f) <= bound → Forall (λ s, byte_len s <= bound) (retry_texts (retry st)) →
  ends (settled [fragment_text f] st) (λ _, settle_result st f).
Proof.
  intros HB HR. unfold settle_result. pose proof (weight_pos bound (fragment_text f)) as HP.
  assert (total_weight bound [fragment_text f] = weight bound (fragment_text f)) as HW by (unfold total_weight; cbn; lia).
  destruct (fragment_result f) as [review|error].
  - apply ends_ret. split; [done|]. split; [done|]. right. cbn [retry length]. lia.
  - set (failed := mkBatches _ _ _ _ _). assert (settled [fragment_text f] st failed) as HS.
    { unfold failed. split; [cbn; intros [e ->]; done|]. split; [|left; cbn; destruct (failure st); done].
      cbn [retry]. unfold retry_texts. rewrite map_app. apply Forall_app. by repeat constructor. }
    destruct (is_input_size_text error); [|by apply ends_ret]. cbn [andb].
    destruct (Z.ltb_spec MIN_CHUNK_BYTES (blen (fragment_text f))) as [HM|]; [|by apply ends_ret].
    ends_seq (λ r : result unit str, True); [eapply ends_weaken; [|apply (ends_attempt always), ends_available]; done|].
    intros [u|e] _; [|by apply ends_ret].
    destruct (split_shrinks (fragment_text f) (fragment_position f) HM) as (parts & -> & HL & HF).
    ends_seq (λ l, l = parts); [by apply ends_ret|]. intros _ ->. apply ends_ret.
    assert (2 <= byte_len (fragment_text f)) as H2 by (unfold MIN_CHUNK_BYTES, blen in HM; lia).
    assert (total_weight bound (retry_texts parts) < weight bound (fragment_text f)) as HT.
    { apply parts_weight; [done|done|unfold retry_texts; by rewrite length_map|]. by apply Forall_map. }
    unfold settled. cbn [retry failure]. unfold retry_texts in *. rewrite map_app. split; [done|]. split.
    + apply Forall_app. split; [done|]. apply Forall_map. eapply Forall_impl; [exact HF|]. cbn. intros p HL2. lia.
    + right. rewrite total_weight_app. cbn [length]. lia.
Qed.

Lemma settles_end st fs :
  Forall (λ s, byte_len s <= bound) (map fragment_text fs) → Forall (λ s, byte_len s <= bound) (retry_texts (retry st)) →
  ends (settled (map fragment_text fs) st) (λ _, settle_results st fs).
Proof.
  revert st. induction fs as [|f fs IH]; intros st HF HR; cbn [settle_results map].
  - apply ends_ret. split; [done|]. split; [done|]. right. cbn [length]. unfold total_weight. cbn. lia.
  - apply Forall_cons in HF as [HF HFs]. ends_seq (settled [fragment_text f] st); [by apply settle_ends|].
    intros st1 (HM1 & HB1 & HW1). eapply ends_weaken; [|by apply IH]. intros st2 (HM2 & HB2 & HW2).
    split; [auto|]. split; [done|]. destruct HW2 as [HW2|HW2]; [by left|]. destruct HW1 as [HW1|HW1]; [left; auto|]. right.
    change (fragment_text f :: map fragment_text fs) with ([fragment_text f] ++ map fragment_text fs).
    rewrite total_weight_app, length_app. lia.
Qed.

Lemma waves_end request context reviews done pending :
  Forall (λ s, byte_len s <= bound) (retry_texts pending) →
  ends always (λ k, review_waves render k request context reviews done pending).
Proof.
  assert (∀ n context reviews done pending, total_weight bound (retry_texts pending) < n →
    Forall (λ s, byte_len s <= bound) (retry_texts pending) →
    ends always (λ k, review_waves render k request context reviews done pending)) as HS.
  2: { intros. eapply HS; [apply Nat.lt_succ_diag_r|done]. }
  clear context reviews done pending. induction n as [|n IH]; intros context reviews done pending HW HB; [lia|].
  eapply ends_step; [intros k t; cbn [review_waves]; reflexivity|]. cbn beta.
  destruct pending as [|p pending]; [by apply ends_ret|]. set (P := p :: pending) in *.
  ends_seq (@always unit); [apply ends_report|]. intros _ _.
  rewrite <- (take_drop REVIEW_CONCURRENCY P) in HW, HB. unfold retry_texts in HW, HB. rewrite map_app in HW, HB.
  rewrite total_weight_app in HW. apply Forall_app in HB as [HB1 HB2].
  eapply ends_bind; [apply wave_ends|]. intros fs HT. cbn beta in HT.
  eapply ends_bind; [apply settles_end; [by rewrite HT|constructor]|]. intros st (_ & HR & HD). rewrite HT in HD.
  destruct (failure st) as [error|] eqn:EF; [destruct (completed st =? 0); [apply ends_fail|by apply ends_ret]|].
  destruct HD as [[e HE]|HD]; [done|]. cbn [retry retry_texts map] in HD.
  apply IH; unfold retry_texts in *; rewrite map_app; [|by apply Forall_app]. rewrite total_weight_app.
  assert (1 <= length (map snd (take REVIEW_CONCURRENCY P))); [unfold P, REVIEW_CONCURRENCY; cbn; lia|].
  change (total_weight bound []) with 0 in HD. lia.
Qed.
End settling.

Lemma batches_end request diff context : ends always (λ k, review_batches render k request diff context).
Proof.
  unfold review_batches. eapply ends_bind; [apply (waves_end (byte_len diff)); by repeat constructor|].
  intros [[[context' reviews] done] stopped] _. by apply ends_ret.
Qed.

Lemma cross_ends request review diff context :
  ends always (λ k, cross_file_review render k request review diff context).
Proof.
  unfold cross_file_review.
  assert (∀ n overview context target, (target <= Z.of_nat n)%Z →
    ends always (λ k, cross_file_loop render k request overview context target)) as HS by
  (induction n as [|n IH]; intros overview context' target HT;
    (eapply ends_step; [intros k t; cbn [cross_file_loop]; reflexivity|]; cbn beta;
     apply (ends_keeping _ _ _ _ (summarize_ends _ _ _ _)); intros overview' _;
     apply (ends_keeping always); [by apply ends_result|]; intros rendered _;
     ends_seq (λ r : result FocusedReview str, True);
       [eapply ends_weaken; [|apply (ends_attempt always), submit_review_ends]; done|]; intros r _;
     destruct (is_size_rejection r); [|by apply ends_ret]; cbn [negb];
     apply (ends_keeping _ _ _ _ ends_available); intros _ _;
     destruct (Z.leb_spec target MIN_CHUNK_BYTES) as [|HM]; [by apply ends_ret|];
     unfold MIN_CHUNK_BYTES in HM;
     apply (ends_keeping _ _ _ _ (summarize_ends _ _ _ _)); intros context'' _);
    [lia|apply IH; unfold MIN_CHUNK_BYTES; assert (target / 2 < target)%Z by (apply Z.div_lt; lia); lia]).
  apply (HS (Z.to_nat 12000)). lia.
Qed.

(** Splitting a group makes both parts smaller. *)
Lemma split_candidates_shrink group first second :
  split_candidates group = (first, second) → 1 < findings group →
  findings first < findings group ∧ findings second < findings group.
Proof.
  unfold split_candidates, findings. intros [<- <-]%pair_equal_spec HN. cbn [project_impact suggestions].
  set (a := length (project_impact group)) in *. set (b := length (suggestions group)) in *.
  rewrite !length_take, !length_drop. fold a b. pose proof (Nat.div_lt (a + b) 2 ltac:(lia) ltac:(lia)) as H.
  assert (1 <= Nat.div (a + b) 2) as H0 by (apply Nat.div_le_lower_bound; lia). revert H H0. generalize (Nat.div (a + b) 2). lia.
Qed.

Section groups.
Context (request : OneShotRequest).

Definition groups_end (headers context : str) (pending : list FocusedReview) : Prop :=
  ∀ reduced groups, ends always (λ k, reduce_groups render k request headers context pending reduced groups).

Lemma groups_end_nil headers context : groups_end headers context [].
Proof. intros reduced groups. eapply ends_step; [intros k t; cbn [reduce_groups]; reflexivity|]. by apply ends_ret. Qed.

(** One group, when shorter headers or history make the rest end. *)
Lemma groups_end_cons headers context :
  (∀ headers' context' pending, (blen headers' + blen context' < blen headers + blen context)%Z →
    groups_end headers' context' pending) →
  ∀ n group rest, findings group <= n → groups_end headers context rest → groups_end headers context (group :: rest).
Proof.
  intros HIH. induction n as [|n IHn]; intros group rest HN HR reduced groups;
    (eapply ends_step; [intros k t; cbn [reduce_groups]; reflexivity|]; cbn beta;
     ends_seq (λ r : result FocusedReview str, True);
       [eapply ends_weaken; [|apply (ends_attempt always)]; [done|]; unfold reduce_group;
        ends_seq (@always str); [by apply ends_result|]; intros; apply submit_review_ends|];
     intros [review|error] _; [apply HR|]; destruct (is_input_size_text error); [|by apply ends_ret];
     ends_seq (λ r : result unit str, True); [eapply ends_weaken; [|apply (ends_attempt always), ends_available]; done|];
     intros [u|e] _; [|by apply ends_ret];
     destruct ((MIN_CHUNK_BYTES <? blen headers)%Z || (MIN_CHUNK_BYTES <? blen context)%Z) eqn:EB;
       [eapply ends_bind; [apply ends_attempt, summarize_ends|]; intros [headers'|e] HH; [|by apply ends_ret];
        eapply ends_bind; [apply ends_attempt, summarize_ends|]; intros [context'|e] HC; [|by apply ends_ret];
        apply HIH; specialize (HH _ eq_refl); specialize (HC _ eq_refl); cbn beta in HH, HC;
        pose proof (half_context headers); pose proof (half_context context); apply orb_true_iff in EB; lia|];
     destruct (Nat.ltb_spec 1 (findings group)) as [H1|]; [|by apply ends_ret]).
  - lia.
  - destruct (split_candidates group) as [first second] eqn:ES.
    destruct (split_candidates_shrink _ _ _ ES H1) as [HF1 HF2].
    apply (IHn first); [lia|]. apply (IHn second); [lia|done].
Qed.

Lemma all_groups_end headers context pending : groups_end headers context pending.
Proof.
  assert (∀ n headers context pending, (blen headers + blen context < Z.of_nat n)%Z → groups_end headers context pending) as HS.
  2: { apply (HS (S (byte_len headers + byte_len context))). unfold blen. lia. }
  clear. induction n as [|n IH]; intros headers context pending HN.
  - pose proof (blen_nonneg headers). pose proof (blen_nonneg context). lia.
  - induction pending as [|group rest IHp]; [apply groups_end_nil|].
    eapply groups_end_cons; [|done|done]. intros headers' context' pending' HL. apply IH. lia.
Qed.

Lemma passes_end headers context candidates :
  ends always (λ k, reduce_passes render k request headers context candidates).
Proof.
  assert (∀ n headers context candidates, (blen (to_markdown candidates) < Z.of_nat n)%Z →
    ends always (λ k, reduce_passes render k request headers context candidates)) as HS.
  2: { apply (HS (S (byte_len (to_markdown candidates)))). unfold blen. lia. }
  clear. induction n as [|n IH]; intros headers context candidates HN.
  - pose proof (blen_nonneg (to_markdown candidates)). lia.
  - eapply ends_step; [intros k t; cbn [reduce_passes]; reflexivity|]. cbn beta.
    eapply ends_bind; [apply all_groups_end|]. intros [[headers' context'] [[reduced groups]|error]] _; [|by apply ends_ret].
    destruct (groups =? 1); [by apply ends_ret|].
    destruct (Z.leb_spec (blen (to_markdown candidates)) (blen (to_markdown reduced))); [by apply ends_ret|].
    apply IH. lia.
Qed.
End groups.

Lemma reduction_ends request review diff context :
  ends always (λ k, reduce_review render k request review diff context).
Proof.
  unfold reduce_review. apply (ends_keeping _ _ _ _ (summarize_ends _ _ _ _)). intros headers _. apply passes_end.
Qed.

(** C29: a focused review ends.  Whatever the provider answers, whichever prompts
    it rejects as too large, and whatever else uses the budget, enough fuel gives a
    review or an error, and more fuel gives the same one after the same prompts. *)
Theorem focused_review_ends request diff context t :
  ∃ n r t', ∀ k, n <= k → submit_focused_review render k request diff context t = (Some r, t').
Proof.
  assert (ends always (λ k, submit_focused_review render k request diff context)) as HE.
  2: { destruct (HE t) as (n & r & t' & HK & _). eauto. }
  unfold submit_focused_review. eapply ends_bind; [apply (ends_result always); done|]. intros prompt _.
  ends_seq (@always str).
  { destruct (PROMPT_BUDGET <? blen prompt)%Z; [|by apply ends_ret].
    ends_seq (@always unit); [destruct (7500 <? blen context)%Z; [apply ends_report|by apply ends_ret]|]. intros _ _.
    eapply ends_weaken; [|apply summarize_ends]. done. }
  intros context' _. eapply ends_bind; [apply batches_end|]. intros [[[review done] coverage] context2] _.
  ends_seq (@always (FocusedReview * str * str)).
  { destruct ((1 <? done) && is_empty coverage); [|by apply ends_ret].
    ends_seq (@always unit); [apply ends_report|]. intros _ _.
    eapply ends_bind; [apply cross_ends|]. intros [c r] _. by apply ends_ret. }
  intros [[review2 coverage2] context3] _. ends_seq (@always (FocusedReview * str * str)).
  { destruct ((1 <? done) && is_empty coverage2); [|by apply ends_ret].
    ends_seq (@always unit); [apply ends_report|]. intros _ _.
    eapply ends_bind; [apply reduction_ends|]. intros [c r] _. by apply ends_ret. }
  intros [[review3 coverage3] context4] _. by apply ends_ret.
Qed.
End reviews.
