(* ===== verification/ReviewCoverage.v ===== *)
(** * Coverage of focused reviews

    Whatever is split and retried, the accepted and the remaining fragments tile
    the diff, the accepted reviews are merged in source order, and each of them was
    the provider's answer to a prompt about its fragment. *)
From stdpp Require Import sorting.
From S2P Require Import Prelude Contracts Agent Lifecycle Transcript Transient Prompt Input Json Review Session FileEntry SessionManager Flow ReviewCache Commits Scheduler Protocol DiffPrompt ReviewPrompt PromptLaws.

(** ** Tilings *)

(** Each text is carried headers and its own share, and the shares are the whole. *)
Definition covers (whole : str) (texts : list str) : Prop :=
  ∃ shares, concat shares = whole ∧ Forall2 (λ text share, ∃ carried, text = carried ++ share) texts shares.

Lemma covers_whole s : covers s [s].
Proof. exists [s]. split; [apply app_nil_r|]. repeat constructor. by exists []. Qed.

(** What is left of a tiling after a prefix. *)
Lemma tiling_suffix (parts : list str) (carried share : str) :
  concat parts = carried ++ share →
  ∃ shares, concat shares = share ∧ Forall2 (λ part s : str, ∃ c, part = c ++ s) parts shares.
Proof.
  revert carried share. induction parts as [|part parts IH]; intros carried share E; cbn in E.
  - symmetry in E. apply app_nil in E as [_ ->]. by exists [].
  - apply app_eq_app in E as [l [[-> ->]|[-> E]]].
    + exists (l :: parts). split; [done|]. constructor; [by eauto|]. clear. induction parts as [|p parts IH]; [done|].
      constructor; [by exists []|done].
    + destruct (IH l share E) as (shares & HC & HF). exists ([] :: shares). split; [done|].
      constructor; [|done]. exists part. by rewrite app_nil_r.
Qed.

Lemma split_covers whole l1 text l2 limit parts :
  (16 <= limit)%Z → chunks text limit = Some parts → covers whole (l1 ++ text :: l2) → covers whole (l1 ++ parts ++ l2).
Proof.
  intros HL HC (shares & HS & HF). apply Forall2_app_inv_l in HF as (s1 & s2' & HF1 & HF2 & ->).
  apply Forall2_cons_inv_l in HF2 as (share & s2 & [carried ->] & HF2 & ->).
  destruct (chunk_parts_spec (S (length (carried ++ share))) limit [] [] (carried ++ share)) as (ps & E & HT & _);
    [done|by left|by left|lia|].
  unfold chunks in HC. rewrite E in HC. injection HC as <-. destruct (tiling_suffix (map snd ps) carried share HT) as (ss & HSS & HFS).
  exists (s1 ++ ss ++ s2). split.
  - rewrite <- HS. rewrite !concat_app. cbn. by rewrite HSS.
  - apply Forall2_app; [done|]. apply Forall2_app; [|done]. clear -HFS. remember (map snd ps) as m eqn:EM.
    revert ps EM. induction HFS as [|part s m ss [c ->] HFS IH]; intros [|p ps] EM; [constructor|done..|].
    cbn in EM. injection EM as EP EM. cbn. constructor; [|by apply IH]. exists (p.1 ++ c). by rewrite <- EP, app_assoc.
Qed.

(** ** Positions *)

(** One position is left of another, and stays so when either is extended. *)
Definition stands_left (a b : SourcePosition) : Prop :=
  ∃ common x y a' b', a = common ++ x :: a' ∧ b = common ++ y :: b' ∧ x < y.

Lemma left_compare a b : stands_left a b → position_compare a b = Lt.
Proof.
  intros (common & x & y & a' & b' & -> & -> & HL). induction common as [|z common IH]; cbn.
  - apply Nat.compare_lt_iff in HL. by rewrite HL.
  - by rewrite Nat.compare_refl.
Qed.

Lemma position_compare_antisym a b : position_compare b a = CompOpp (position_compare a b).
Proof.
  revert b. induction a as [|x a IH]; intros [|y b]; try done. cbn. rewrite (Nat.compare_antisym x y).
  destruct (Nat.compare x y) eqn:E; cbn; [apply IH|done..].
Qed.

Lemma left_extend a b c d : stands_left a b → stands_left (a ++ c) (b ++ d).
Proof. intros (p & x & y & a' & b' & -> & -> & HL). exists p, x, y, (a' ++ c), (b' ++ d). by rewrite <- !app_assoc. Qed.

Lemma btree_insert_between {A} k (x : A) l1 l2 :
  Forall (λ e, stands_left e.1 k) l1 → Forall (λ e, stands_left k e.1) l2 → btree_insert k x (l1 ++ l2) = l1 ++ (k, x) :: l2.
Proof.
  intros H1 H2. induction H1 as [|[k' x'] l1 HK H1 IH].
  - destruct H2 as [|[k' x'] l2 HK H2]; [done|]. cbn in *. by rewrite (left_compare _ _ HK).
  - cbn in *. rewrite position_compare_antisym, (left_compare _ _ HK). cbn. by rewrite IH.
Qed.

(** ** Progress of a review *)

Notation entry := (SourcePosition * (str * option FocusedReview))%type.

Definition accepted_of (l : list entry) : list (SourcePosition * (str * FocusedReview)) :=
  omap (λ e, r ← e.2.2; Some (e.1, (e.2.1, r))) l.

Definition remaining_of (l : list entry) : list (SourcePosition * str) :=
  omap (λ e : entry, match e.2.2 with Some _ => None | None => Some (e.1, e.2.1) end) l.

Definition entry_texts (l : list entry) : list str := map (λ e, e.2.1) l.

Lemma accepted_app l k : accepted_of (l ++ k) = accepted_of l ++ accepted_of k.
Proof. apply omap_app. Qed.

Lemma remaining_app l k : remaining_of (l ++ k) = remaining_of l ++ remaining_of k.
Proof. apply omap_app. Qed.

Record progress_of (diff : str) (reviews : list (SourcePosition * (str * FocusedReview)))
    (pending : list (SourcePosition * str)) (l : list entry) : Prop := mkProgress {
  progress_covers : covers diff (entry_texts l);
  progress_sorted : StronglySorted stands_left (map fst l);
  progress_accepted : accepted_of l = reviews;
  progress_remaining : remaining_of l ≡ₚ pending
}.

Definition progress diff reviews pending : Prop := ∃ l, progress_of diff reviews pending l.

Lemma progress_start diff : progress diff [] [([], diff)].
Proof. exists [([], (diff, None))]. split; [apply covers_whole|repeat constructor|done|done]. Qed.

Lemma progress_permute diff reviews pending pending' :
  pending ≡ₚ pending' → progress diff reviews pending → progress diff reviews pending'.
Proof. intros HP [l [H1 H2 H3 H4]]. exists l. split; [done..|]. by rewrite H4. Qed.

(** Where a remaining fragment is. *)
Lemma remaining_split l position text pending :
  remaining_of l ≡ₚ (position, text) :: pending →
  ∃ l1 l2, l = l1 ++ (position, (text, None)) :: l2 ∧ remaining_of l1 ++ remaining_of l2 ≡ₚ pending.
Proof.
  intros HP. assert ((position, text) ∈ remaining_of l) as HE by (rewrite HP; by left).
  unfold remaining_of in HE. apply list_elem_of_omap in HE as ([p [s [r|]]] & HE & HS); [done|].
  injection HS as -> ->. apply list_elem_of_split in HE as (l1 & l2 & ->). exists l1, l2. split; [done|].
  rewrite remaining_app in HP. cbn in HP. rewrite <- Permutation_middle in HP. by apply Permutation_cons_inv in HP.
Qed.

Lemma sorted_around (l1 : list entry) position x (l2 : list entry) :
  StronglySorted stands_left (map fst (l1 ++ (position, x) :: l2)) →
  (∀ e, e ∈ l1 → stands_left e.1 position) ∧ (∀ e, e ∈ l2 → stands_left position e.1) ∧
  StronglySorted stands_left (map fst l1) ∧ StronglySorted stands_left (map fst l2) ∧
  (∀ e e', e ∈ l1 → e' ∈ l2 → stands_left e.1 e'.1).
Proof.
  rewrite map_app. cbn [map fst]. rewrite StronglySorted_app, StronglySorted_cons, Forall_forall. intros (H1 & H2 & H3 & H4).
  assert (∀ (e : entry) l, e ∈ l → e.1 ∈ map fst l) as HM by (intros e l HE; by apply (list_elem_of_fmap_2 fst)).
  split_and!; [|auto|done|done|]; intros e; [intros HE; apply H1; [by apply HM|by left]|].
  intros e' HE HE'. apply H1; [by apply HM|right; by apply HM].
Qed.

Lemma sorted_middle (l1 l2 m : list entry) position x :
  StronglySorted stands_left (map fst (l1 ++ (position, x) :: l2)) →
  StronglySorted stands_left (map fst m) → (∀ e : entry, e ∈ m → ∃ c, e.1 = position ++ c) →
  StronglySorted stands_left (map fst (l1 ++ m ++ l2)).
Proof.
  intros HS HM HP. destruct (sorted_around _ _ _ _ HS) as (H1 & H2 & H3 & H4 & H5). rewrite !map_app.
  apply StronglySorted_app_2; [|done|apply StronglySorted_app_2; [|done..]].
  - intros a b (e & -> & HE)%list_elem_of_fmap [HB|HB]%elem_of_app.
    + apply list_elem_of_fmap in HB as (e' & -> & HE'). destruct (HP _ HE') as [c ->].
      pose proof (left_extend _ _ [] c (H1 _ HE)) as HX. by rewrite app_nil_r in HX.
    + apply list_elem_of_fmap in HB as (e' & -> & HE'). by apply H5.
  - intros a b (e & -> & HE)%list_elem_of_fmap (e' & -> & HE')%list_elem_of_fmap. destruct (HP _ HE) as [c ->].
    pose proof (left_extend _ _ c [] (H2 _ HE')) as HX. by rewrite app_nil_r in HX.
Qed.

Lemma accepted_around (P : SourcePosition → Prop) (l : list entry) :
  (∀ e, e ∈ l → P e.1) → Forall (λ e, P e.1) (accepted_of l).
Proof.
  intros HL. apply Forall_forall. intros e HE. unfold accepted_of in HE.
  apply list_elem_of_omap in HE as ([p [s [r|]]] & HE & HS); [|done]. injection HS as <-. by apply (HL _ HE).
Qed.

(** An accepted review takes its place. *)
Lemma progress_accept diff reviews pending position text review :
  progress diff reviews ((position, text) :: pending) →
  progress diff (btree_insert position (text, review) reviews) pending.
Proof.
  intros [l [H1 H2 H3 H4]]. destruct (remaining_split _ _ _ _ H4) as (l1 & l2 & -> & HR).
  exists (l1 ++ [(position, (text, Some review))] ++ l2). split.
  - unfold entry_texts in *. rewrite !map_app in *. exact H1.
  - eapply sorted_middle; [done|repeat constructor|]. intros e ->%list_elem_of_singleton. exists []. by rewrite app_nil_r.
  - destruct (sorted_around _ _ _ _ H2) as (HL & HG & _). rewrite <- H3, !accepted_app. cbn.
    symmetry. apply btree_insert_between; [by apply (accepted_around (λ p, stands_left p position))|by apply (accepted_around (stands_left position))].
  - rewrite !remaining_app. exact HR.
Qed.

Lemma accept_adds diff reviews pending position text review :
  progress diff reviews ((position, text) :: pending) →
  btree_insert position (text, review) reviews ≡ₚ (position, (text, review)) :: reviews.
Proof.
  intros [l [H1 H2 H3 H4]]. destruct (remaining_split _ _ _ _ H4) as (l1 & l2 & -> & HR).
  destruct (sorted_around _ _ _ _ H2) as (HL & HG & _). rewrite <- H3, !accepted_app. cbn.
  rewrite btree_insert_between; [by rewrite Permutation_middle|by apply (accepted_around (λ p, stands_left p position))|by apply (accepted_around (stands_left position))].
Qed.

(** The entries of the parts of a fragment. *)
Definition split_entries (position : SourcePosition) (parts : list str) : list entry :=
  imap (λ i part, (position ++ [i], (part, None))) parts.

Lemma split_entries_snoc position parts part :
  split_entries position (parts ++ [part]) = split_entries position parts ++ [(position ++ [length parts], (part, None))].
Proof. unfold split_entries. rewrite imap_app. cbn. by rewrite Nat.add_0_r. Qed.

Lemma imap_entries position parts :
  entry_texts (split_entries position parts) = parts ∧ accepted_of (split_entries position parts) = [] ∧
  remaining_of (split_entries position parts) = imap (λ i part, (position ++ [i], part)) parts ∧
  StronglySorted stands_left (map fst (split_entries position parts)) ∧
  (∀ e : entry, e ∈ split_entries position parts → ∃ c, e.1 = position ++ c).
Proof.
  induction parts as [|part parts (H1 & H2 & H3 & H4 & H5)] using rev_ind.
  - split_and!; try done; [constructor|]. by intros e HE%elem_of_nil.
  - rewrite split_entries_snoc, imap_app. unfold entry_texts in *.
    rewrite !map_app, accepted_app, remaining_app, H1, H2, H3.
    split_and!; try done.
    + cbn. by rewrite Nat.add_0_r.
    + apply StronglySorted_app_2; [|done|repeat constructor].
      intros a b (e & -> & HE)%list_elem_of_fmap ->%list_elem_of_singleton. apply list_elem_of_lookup in HE as [i HE].
      unfold split_entries in HE. rewrite list_lookup_imap in HE. destruct (parts !! i) as [q|] eqn:EQ; [|done]. injection HE as <-.
      apply lookup_lt_Some in EQ. by exists position, i, (length parts), [], [].
    + intros e [HE|HE]%elem_of_app; [by apply H5|]. apply list_elem_of_singleton in HE as ->. by eexists [_].
Qed.

(** The parts of a rejected fragment take its place. *)
Lemma progress_split diff reviews pending position text limit parts :
  (16 <= limit)%Z → chunks text limit = Some parts →
  progress diff reviews ((position, text) :: pending) →
  progress diff reviews (imap (λ i part, (position ++ [i], part)) parts ++ pending).
Proof.
  intros HL HC [l [H1 H2 H3 H4]]. destruct (remaining_split _ _ _ _ H4) as (l1 & l2 & -> & HR).
  destruct (imap_entries position parts) as (HT & HA & HN & HW & HP). set (new := split_entries position parts) in *.
  exists (l1 ++ new ++ l2). split.
  - unfold entry_texts in *. rewrite !map_app in *. rewrite HT. by eapply split_covers.
  - by eapply sorted_middle.
  - rewrite !accepted_app, HA in *. exact H3.
  - rewrite !remaining_app, HN. rewrite <- HR. by rewrite app_assoc, (Permutation_app_comm (remaining_of l1)), app_assoc.
Qed.

Lemma entry_texts_split (l : list entry) :
  entry_texts l ≡ₚ map (λ r, r.2.1) (accepted_of l) ++ map snd (remaining_of l).
Proof.
  induction l as [|[p [s [r|]]] l IH]; [done|apply perm_skip, IH|].
  etrans; [apply perm_skip, IH|apply Permutation_middle].
Qed.

Lemma accepted_all (l : list entry) : remaining_of l = [] → map (λ r, r.2.1) (accepted_of l) = entry_texts l.
Proof.
  induction l as [|[p [s [r|]]] l IH]; intros H; [done| |done]. cbn. f_equal. by apply IH.
Qed.

(** ** Runs *)

Section runs.
Context `{Hhost : !PromptHost, Hjson : !ReviewJson} (render : str → str → result str str).

(** A review is the provider's answer to a prompt about a text. *)
Definition reviewed (calls : list PromptCall) (text : str) (review : FocusedReview) : Prop :=
  ∃ request response context,
    Submitted request (Ok response) ∈ calls ∧ render text context = Ok (request_prompt request) ∧
    parse_response response = Ok review.

Lemma reviewed_later calls more text review : reviewed calls text review → reviewed (calls ++ more) text review.
Proof. intros (request & response & context & HE & HR). exists request, response, context. split; [apply elem_of_app; by left|done]. Qed.

(** What a computation gives when it succeeds. *)
Definition gives {A} (Q : list PromptCall → A → Prop) (m : Om A) : Prop :=
  ∀ t a t', m t = (Some (Ok a), t') → Q t' a.

Lemma gives_ret {A} (Q : list PromptCall → A → Prop) a : (∀ t, Q t a) → gives Q (mret a).
Proof. intros HQ t b t' [= <- <-]. apply HQ. Qed.

Lemma gives_fail {A} (Q : list PromptCall → A → Prop) e : gives Q (@fail A e).
Proof. by intros t a t' E. Qed.

Lemma gives_never {A} (Q : list PromptCall → A → Prop) : gives Q (@never A).
Proof. by intros t a t' E. Qed.

Lemma gives_bind {A B} (R : list PromptCall → A → Prop) (Q : list PromptCall → B → Prop) (m : Om A) (f : A → Om B) :
  gives R m → (∀ a t, R t a → ∀ b t', f a t = (Some (Ok b), t') → Q t' b) → gives Q (m ≫= f).
Proof.
  intros HM HF t b t' E. unfold mbind, Om_bind in E. destruct (m t) as [[[a|e]|] t1] eqn:EM; try done.
  eapply HF; [by eapply HM|done].
Qed.

Lemma submit_review_gives request :
  gives (λ t review, ∃ response, Submitted request (Ok response) ∈ t ∧ parse_response response = Ok review)
    (submit_review request).
Proof.
  intros t review t' E. unfold submit_review, ensure_available_call, mbind, Om_bind in E.
  destruct (env_available (length t)); [|done]. destruct (PROMPT_BUDGET <? blen (request_prompt request))%Z; [done|].
  cbn in E. destruct (env_submit _ request) as [response|e] eqn:ER; [|done].
  unfold of_result in E. injection E as EP <-. exists response. split; [|done].
  apply elem_of_app. right. by apply list_elem_of_singleton.
Qed.

Definition reviews_its (fragment : str) (t : list PromptCall) (r : str * result FocusedReview str) : Prop :=
  ∀ review, r.2 = Ok review → reviewed t fragment review.

Lemma keeping_gives {A} fragment context (m : Om A) f :
  (∀ a, gives (reviews_its fragment) (f a)) → gives (reviews_its fragment) (keeping context m f).
Proof.
  intros HF. unfold keeping. apply (gives_bind (λ _ _, True)); [by intros t a t' _|].
  intros [a|e] t _; [by apply HF|]. intros r t' [= <- <-]. by intros review E.
Qed.

Lemma fragment_gives fuel request fragment context :
  gives (reviews_its fragment) (review_fragment render fuel request fragment context).
Proof.
  revert request context. induction fuel as [|fuel IH]; intros request context; cbn [review_fragment]; [apply gives_never|].
  destruct (render fragment context) as [prompt|e] eqn:ER; [|by intros t r t' [= <- <-] review E].
  unfold keeping at 1. cbn -[keeping]. apply (gives_bind (λ _ (r : result str str), r = Ok prompt)); [by intros t a t' [= <- <-]|].
  intros r t -> b t'. revert b t'. enough (∀ m : Om (str * result FocusedReview str), gives (reviews_its fragment) m →
    ∀ b t', m t = (Some (Ok b), t') → reviews_its fragment t' b) as HG; [apply HG|intros m HM b t' E; by eapply HM].
  set (request' := with_prompt request prompt).
  apply (gives_bind (λ t r, ∀ review, r = Ok review → reviewed t fragment review)).
  - intros t0 r t1 E. unfold attempt in E. destruct (submit_review request' t0) as [[r'|] t2] eqn:ES; [|done].
    injection E as <- <-. intros review ->. destruct (submit_review_gives request' t0 review t2 ES) as (response & HE & HP).
    by exists request', response, context.
  - intros r0 t0 HR b t'. destruct (is_size_rejection r0 && _ && _); [|by intros [= <- <-]].
    intros E. eapply keeping_gives; [|exact E]. intros. apply IH.
Qed.

Lemma wave_gives fuel request context finished total fragments :
  request_permission_mode request = ReadOnly →
  gives (λ t fs, map (λ f, (fragment_position f, fragment_text f)) fs = fragments ∧
           Forall (λ f, ∀ review, fragment_result f = Ok review → reviewed t (fragment_text f) review) fs)
    (review_wave render fuel request context finished total fragments).
Proof.
  intros HM. revert finished. induction fragments as [|[position fragment] rest IH]; intros finished; cbn [review_wave];
    [by apply gives_ret|].
  apply (gives_bind (reviews_its fragment)); [apply fragment_gives|]. intros [context' r] t HR fs t' E.
  unfold mbind, Om_bind in E.
  set (reporting := match r with Ok _ => _ | Err _ => _ end) in E.
  assert (∃ more, reporting t = (Some (Ok tt), t ++ more)) as [more HP].
  { unfold reporting. destruct r; [by eexists|exists []; by rewrite app_nil_r]. }
  rewrite HP in E. clear HP. clearbody reporting.
  set (finished' := match r with Ok _ => S finished | Err _ => finished end) in E.
  pose proof (wave_sends render fuel request context finished' total rest HM (t ++ more)) as (new & HN & _).
  destruct (review_wave _ _ _ _ _ _ _ (t ++ more)) as [[[others|e]|] t2] eqn:EO; [|done..]. cbn in HN. subst t2.
  revert E. intros [= <- <-]. destruct (IH _ _ _ _ EO) as [HA HB]. cbn. split; [by rewrite HA|]. constructor; [|done].
  cbn. intros review ->. by apply reviewed_later, reviewed_later, HR.
Qed.

(** The state of the batches after the calls [t]. *)
Record batches_cover (diff : str) (t : list PromptCall) (pending : list (SourcePosition * str))
    (reviews : list (SourcePosition * (str * FocusedReview))) (done : nat) : Prop := mkBatchesCover {
  cover_progress : progress diff reviews pending;
  cover_count : done = length reviews;
  cover_reviews : Forall (λ r, reviewed t r.2.1 r.2.2) reviews
}.

Lemma cover_later diff t more pending pending' reviews done :
  pending ≡ₚ pending' → batches_cover diff t pending reviews done → batches_cover diff (t ++ more) pending' reviews done.
Proof.
  intros HP [H1 H2 H3]. split; [by eapply progress_permute|done|]. eapply Forall_impl; [exact H3|].
  intros. by apply reviewed_later.
Qed.

Lemma cover_accept diff t pending reviews done position text review :
  batches_cover diff t ((position, text) :: pending) reviews done → reviewed t text review →
  batches_cover diff t pending (btree_insert position (text, review) reviews) (S done).
Proof.
  intros [H1 -> H3] HR. pose proof (accept_adds _ _ _ _ _ review H1) as HA. split.
  - by apply progress_accept.
  - by rewrite HA.
  - rewrite HA. by constructor.
Qed.

Lemma settle_covers diff rest st f t st' t' :
  (∀ review, fragment_result f = Ok review → reviewed t (fragment_text f) review) →
  batches_cover diff t ((fragment_position f, fragment_text f) :: retry st ++ rest) (completed_reviews st) (completed st) →
  settle_result st f t = (Some (Ok st'), t') →
  batches_cover diff t' (retry st' ++ rest) (completed_reviews st') (completed st').
Proof.
  intros HR HB. unfold settle_result. destruct (fragment_result f) as [review|error] eqn:ER.
  - intros [= <- <-]. cbn. apply cover_accept; [done|by apply HR].
  - assert (∀ more, batches_cover diff (t ++ more) ((retry st ++ [(fragment_position f, fragment_text f)]) ++ rest)
              (completed_reviews st) (completed st)) as HF.
    { intros more. eapply cover_later; [|done]. rewrite <- app_assoc. cbn. apply Permutation_middle. }
    destruct (is_input_size_text error); [|intros [= <- <-]; specialize (HF []); by rewrite app_nil_r in HF].
    cbn [andb]. destruct (Z.ltb_spec MIN_CHUNK_BYTES (blen (fragment_text f))) as [HM|];
      [|intros [= <- <-]; specialize (HF []); by rewrite app_nil_r in HF].
    unfold attempt, ensure_available_call, mbind, Om_bind. destruct (env_available (length t)); [|intros [= <- <-]; apply HF].
    destruct (split_fragment (fragment_text f) (fragment_position f)) as [parts|] eqn:ES; [|done]. intros [= <- <-]. cbn.
    unfold split_fragment in ES.
    destruct (chunks (fragment_text f) (Z.min (blen (fragment_text f) / 2) (PROMPT_BUDGET - 12000))) as [ps|] eqn:EC; [|done].
    injection ES as <-. eapply (cover_later _ t); [reflexivity|]. destruct HB as [H1 H2 H3]. split; [|done..].
    assert (256 <= blen (fragment_text f) / 2)%Z by (unfold MIN_CHUNK_BYTES in HM; apply Z.div_le_lower_bound; lia).
    assert (16 <= Z.min (blen (fragment_text f) / 2) (PROMPT_BUDGET - 12000))%Z as HL by (unfold PROMPT_BUDGET; lia).
    eapply (progress_split _ _ _ _ _ _ _ HL EC) in H1.
    eapply progress_permute; [|exact H1]. rewrite app_assoc. apply Permutation_app_tail, Permutation_app_comm.
Qed.

Lemma settles_cover diff rest st fs t st' t' :
  Forall (λ f, ∀ review, fragment_result f = Ok review → reviewed t (fragment_text f) review) fs →
  batches_cover diff t (map (λ f, (fragment_position f, fragment_text f)) fs ++ retry st ++ rest)
    (completed_reviews st) (completed st) →
  settle_results st fs t = (Some (Ok st'), t') →
  batches_cover diff t' (retry st' ++ rest) (completed_reviews st') (completed st').
Proof.
  revert st t. induction fs as [|f fs IH]; intros st t HF HB E; cbn [settle_results] in E; [by revert E; intros [= <- <-]|].
  apply Forall_cons in HF as [HF HFs]. unfold mbind, Om_bind in E.
  pose proof (settle_sends st [f] t) as (new & HN & _). cbn [settle_results] in HN. unfold mbind, Om_bind in HN.
  destruct (settle_result st f t) as [[[st1|e]|] t1] eqn:E1; try done. cbn in HN. subst t1.
  eapply (IH st1 (t ++ new)); [| |done].
  - eapply Forall_impl; [exact HFs|]. cbn. intros f' HR review ER. by apply reviewed_later, HR.
  - eapply (cover_later _ _ []) in HB; [|reflexivity]. rewrite app_nil_r in HB.
    set (others := map _ fs) in *. eapply (settle_covers _ (others ++ rest)) in E1; [|done|].
    + rewrite <- (app_nil_r (t ++ new)). eapply cover_later; [|exact E1].
      apply Permutation_app_swap_app.
    + rewrite <- (app_nil_r t). eapply cover_later; [|exact HB]. cbn. constructor.
      apply Permutation_app_swap_app.
Qed.

Lemma waves_cover diff fuel request context reviews count pending t outcome t' :
  request_permission_mode request = ReadOnly →
  batches_cover diff t pending reviews count →
  review_waves render fuel request context reviews count pending t = (Some (Ok outcome), t') →
  let '(context', reviews', count', stopped) := outcome in
  batches_cover diff t' (match stopped with Some (_, remaining) => remaining | None => [] end) reviews' count'.
Proof.
  intros HM. revert context reviews count pending t. induction fuel as [|fuel IH]; intros context reviews count pending t HB E; [done|].
  cbn [review_waves] in E. destruct pending as [|p pending]; [by revert E; intros [= <- <-]|]. set (P := p :: pending) in *.
  unfold mbind, Om_bind in E. unfold report at 1 in E. set (t1 := t ++ _) in E.
  assert (batches_cover diff t1 P reviews count) as HB1 by (unfold t1; by eapply cover_later).
  clearbody t1. clear HB t. set (total := count + length P) in *.
  pose proof (wave_sends render fuel request context count total (take REVIEW_CONCURRENCY P) HM t1) as (new & HN & _).
  destruct (review_wave _ _ _ _ _ _ _ t1) as [[[fs|e]|] t2] eqn:EW; [|done..]. cbn in HN. subst t2.
  destruct (wave_gives _ _ _ _ _ _ HM _ _ _ EW) as [HT HF].
  destruct (settle_results _ fs (t1 ++ new)) as [[[st|e]|] t3] eqn:ES; [|done..].
  eapply (settles_cover diff (drop REVIEW_CONCURRENCY P)) in ES; [|done|].
  2: { cbn [retry completed_reviews completed app]. rewrite HT, take_drop. by eapply cover_later. }
  destruct (failure st) as [error|]; [|exact (IH _ _ _ _ _ ES E)].
  destruct (completed st =? 0); [done|]. by revert E; intros [= <- <-].
Qed.

(** C28: A review is about the whole diff, or says what is missing.  When the batches
    return, each accepted review is the answer of the provider to a prompt about a
    fragment, the review returned is these reviews merged in order, and: without a
    coverage note the fragments, behind carried headers, are in that order the diff;
    with a note, which names the number of batches, the error and the remaining
    fragments, the accepted and the remaining fragments are the diff. *)
Theorem reviews_cover_diff fuel request diff context t review count coverage context' t' :
  request_permission_mode request = ReadOnly →
  review_batches render fuel request diff context t = (Some (Ok (review, count, coverage, context')), t') →
  ∃ reviews, review = merge_all reviews ∧ count = length reviews ∧ Forall (λ r, reviewed t' r.2.1 r.2.2) reviews ∧
    (coverage = [] ∧ covers diff (map (λ r, r.2.1) reviews)
     ∨ ∃ error pending texts, coverage = partial_coverage pending count error ∧
         texts ≡ₚ map (λ r, r.2.1) reviews ++ map snd pending ∧ covers diff texts).
Proof.
  intros HM E. unfold review_batches, mbind, Om_bind in E.
  destruct (review_waves render fuel request context [] 0 [([], diff)] t) as [[[outcome|e]|] t1] eqn:EW; [|done..].
  eapply (waves_cover diff) in EW; [|done|split; [apply progress_start|done|constructor]].
  destruct outcome as [[[context1 reviews] done1] stopped]. revert E. intros [= <- <- <- <- <-].
  destruct EW as [[l [H1 H2 H3 H4]] HD HF]. exists reviews. split_and!; [done..|]. destruct stopped as [[error pending]|].
  - right. exists error, pending, (entry_texts l). split_and!; [done| |done]. rewrite <- H3. rewrite <- H4.
    apply entry_texts_split.
  - left. split; [done|]. symmetry in H4. apply Permutation_nil_l in H4.
    rewrite <- H3. by rewrite accepted_all.
Qed.
End runs.

(** ** A run: the diff is rejected once and reviewed in parts *)

Module ReviewDemo.
Definition demo_response : AgentResponse := AgentResponse_plain (L"fine").

#[export] Instance demo_host : PromptHost := {|
  env_submit := λ n _, if n =? 2 then Err (L"Input exceeds the maximum length") else Ok demo_response;
  env_available := λ _, true;
  instructions := λ _, []
|}.
#[export] Instance demo_json : ReviewJson := λ json, Ok (mkFocusedReview [json] []).

Definition demo_render (diff _context : str) : result str str := Ok diff.
Definition demo_request : OneShotRequest :=
  mkOneShot (L"/repo") (L"codex") (L"gpt") ReadOnly [] Low Scheduler.FocusedReview Contracts.Normal.
Definition demo_diff : str := concat (repeat (L"diff --git a/x b/x" ++ [newline] ++ L"+a line of the change" ++ [newline]) 20).

Definition demo_run := review_batches demo_render 50 demo_request demo_diff (L"history") [].
Definition demo_log : list PromptCall := demo_run.2.
Definition demo_review : FocusedReview := mkFocusedReview [L"fine"] [].

Lemma reviews_cover_diff_witness :
  request_permission_mode demo_request = ReadOnly ∧
  demo_run = (Some (Ok (demo_review, 3, [], L"history")), demo_log) ∧
  ∃ reviews, demo_review = merge_all reviews ∧ 3 = length reviews ∧
    Forall (λ r, reviewed demo_render demo_log r.2.1 r.2.2) reviews ∧
    ([] = @nil N ∧ covers demo_diff (map (λ r, r.2.1) reviews)
     ∨ ∃ error pending texts, [] = partial_coverage pending 3 error ∧
         texts ≡ₚ map (λ r, r.2.1) reviews ++ map snd pending ∧ covers demo_diff texts).
Proof.
  split; [reflexivity|]. split; [vm_compute; reflexivity|].
  apply (reviews_cover_diff demo_render 50 demo_request demo_diff (L"history") [] demo_review 3 [] (L"history") demo_log);
    [reflexivity|]. vm_compute. reflexivity.
Defined.
End ReviewDemo.
