(* ===== verification/SessionTitle.v ===== *)
(** * Session titles (crates/agentty/src/app/session/workflow/lifecycle.rs,
    prompt_context.rs, crates/ag-store/src/session.rs)

    A title is generated by a bounded prompt about the session's requests and
    accepted only if it looks like requested work.  The columns of the session row
    decide between candidates: generations number every write and every claim, and
    only a candidate newer than what was written is stored. *)
From S2P Require Import Prelude Contracts Agent Lifecycle Transcript Transient Prompt Input Json Review Session Protocol FileEntry SessionManager Schema Envelope ResponseParse Scheduler ToolCalls Forge DiffPrompt.

(** ** Bounds *)

Definition GENERATED_SESSION_TITLE_MAX_CHARACTERS : nat := 72.
Definition SESSION_TITLE_CONTEXT_TRUNCATION_MARKER : str := [newline] ++ L"[title context truncated]".
Definition SESSION_TITLE_CURRENT_TITLE_MAX_BYTES : Z := 512.
Definition SESSION_TITLE_GENERATION_MAX_ATTEMPTS : nat := 2.
Definition SESSION_TITLE_GENERATION_PROMPT_MAX_BYTES : Z := 24 * 1024.
Definition SESSION_TITLE_GENERATION_TEMPLATE_BYTES : Z := 2050.
Definition SESSION_TITLE_LATEST_REQUEST_MAX_BYTES : Z := 8 * 1024.
Definition SESSION_TITLE_ORIGINAL_REQUEST_MAX_BYTES : Z := 8 * 1024.

Definition GENERATED_SESSION_TITLE_PROGRESS_PREFIXES : list str :=
  [L"checking "; L"confirming "; L"gathering "; L"inspecting "; L"investigating "; L"reviewing "; L"validating ";
   L"working "].

(** ** Context of a prompt (prompt_context.rs) *)

Section json_context.
Context `{Hescape : !JsonEscape}.

(** The bisection between [start] and [end]. *)
Fixpoint json_prefix_loop (fuel : nat) (value : str) (max_bytes start end_ : Z) : option Z :=
  if (start <? end_)%Z then
    match fuel with
    | O => None
    | S fuel =>
        let middle := (start + (end_ - start + 1) / 2)%Z in
        if (blen (json_string (floor_prefix value middle)) <=? max_bytes)%Z
        then json_prefix_loop fuel value max_bytes middle end_
        else json_prefix_loop fuel value max_bytes start (middle - 1)
    end
  else Some start.

Definition json_prefix (value : str) (max_bytes : Z) : option str :=
  let end_ := Z.min (blen value) (Z.max (max_bytes - 2) 0) in
  start ← json_prefix_loop (Z.to_nat end_) value max_bytes 0 end_;
  Some (floor_prefix value start).

(** What is left of the budget may not underflow. *)
Definition encode_session_title_context (value : str) (max_bytes : Z) : option str :=
  prefix ← json_prefix value max_bytes;
  if (blen prefix =? blen value)%Z then Some (json_string prefix)
  else
    let notice_bytes := (blen (json_string SESSION_TITLE_CONTEXT_TRUNCATION_MARKER) - 2)%Z in
    if (max_bytes <? notice_bytes)%Z then None
    else
      prefix ← json_prefix value (max_bytes - notice_bytes);
      Some (json_string (prefix ++ SESSION_TITLE_CONTEXT_TRUNCATION_MARKER)).
End json_context.

Record SessionTitleGenerationContext := mkTitleContext {
  current_title : str;
  latest_request : str;
  original_request : str
}.

(** The rendered template: its own text with each of its three fields, in place of
    the field's name, once. *)
Class TitleTemplate := render_title_prompt : str → str → str → str.
Class TitleTemplateLaws `{TitleTemplate} : Prop :=
  title_template_size current latest original :
    (blen (render_title_prompt current latest original)
       <= SESSION_TITLE_GENERATION_TEMPLATE_BYTES + blen current + blen latest + blen original)%Z.

Definition session_title_generation_prompt `{JsonEscape, TitleTemplate} (context : SessionTitleGenerationContext)
  : option str :=
  current_title ← encode_session_title_context (current_title context) SESSION_TITLE_CURRENT_TITLE_MAX_BYTES;
  latest_request ← encode_session_title_context (latest_request context) SESSION_TITLE_LATEST_REQUEST_MAX_BYTES;
  original_request ← encode_session_title_context (original_request context) SESSION_TITLE_ORIGINAL_REQUEST_MAX_BYTES;
  Some (render_title_prompt current_title latest_request original_request).

(** ** Candidates *)

(** [split] at every character that does not satisfy [p]. *)
Fixpoint split_at_other (p : char → bool) (s : str) : list str :=
  match s with
  | [] => [[]]
  | c :: s' =>
      if p c then
        match split_at_other p s' with
        | [] => [[c]]
        | segment :: rest => (c :: segment) :: rest
        end
      else [] :: split_at_other p s'
  end.

Section candidates.
Context `{UnicodeCase, UnicodeAlnum}.

Definition normalize_title_comparison_text (value : str) : str :=
  join (L" ") (map str_to_lowercase (List.filter (λ segment, negb (is_empty segment)) (split_at_other is_alphanumeric value))).

Definition is_normalized_title_copy (title request : str) : bool :=
  let normalized_title := normalize_title_comparison_text title in
  if is_empty normalized_title then false
  else
    str_eqb (normalize_title_comparison_text request) normalized_title
    || existsb (λ line, let normalized_line := normalize_title_comparison_text line in
                        negb (is_empty normalized_line) && str_eqb normalized_line normalized_title) (str_lines request).

Definition is_generated_session_title_request_copy (title : str) (context : SessionTitleGenerationContext) : bool :=
  existsb (is_normalized_title_copy title)
    (List.filter (λ request, negb (is_empty (trim request)))
       [current_title context; latest_request context; original_request context]).
End candidates.

Definition first_nonempty_line (content : str) : option str :=
  trim <$> list_find_b (λ line, negb (is_empty (trim line))) (str_lines content).

Definition starts_with_first_person_pronoun (title : str) : bool :=
  match title with
  | c :: d :: _ => ((c =? 73) || (c =? 105))%N && ((d =? 32) || (d =? 39) || (d =? 8217))%N
  | _ => false
  end.

Definition starts_with_progress_prefix (title : str) : bool :=
  existsb (starts_with (map ascii_lower title)) GENERATED_SESSION_TITLE_PROGRESS_PREFIXES.

Definition is_generated_session_title_candidate (title : str) : bool :=
  if GENERATED_SESSION_TITLE_MAX_CHARACTERS <? length title then false
  else if starts_with_first_person_pronoun title then false
  else negb (starts_with_progress_prefix title).

Definition is_quote (c : char) : bool := ((c =? 34) || (c =? 39) || (c =? 96))%N.

Definition without_label (title : str) : str :=
  match split_once title (L":") with
  | Some (prefix, remainder) => if eq_ignore_ascii_case (trim prefix) (L"title") then trim remainder else title
  | None => title
  end.

Definition normalize_generated_session_title (candidate : str) : option str :=
  let title := without_label (trim candidate) in
  let title := trim (trim_matches is_quote title) in
  if is_empty title then None
  else if negb (is_generated_session_title_candidate title) then None
  else Some title.

Definition usable_line (content : str) : option str :=
  first_line ← first_nonempty_line content; normalize_generated_session_title first_line.

Fixpoint first_some {A B} (f : A → option B) (l : list A) : option B :=
  match l with
  | [] => None
  | a :: l => match f a with Some b => Some b | None => first_some f l end
  end.

Definition parse_generated_session_title_from_protocol_response (response : AgentResponse) : option str :=
  first_some usable_line (answers response).

Definition parse_generated_session_title `{SerdeJson} (content : str) : option str :=
  let content := trim content in
  if is_empty content then None
  else match parse_agent_response_strict content with
       | Ok response => parse_generated_session_title_from_protocol_response response
       | Err _ => usable_line content
       end.

(** ** The columns of a session row (ag-store/src/session.rs) *)

Record TitleRow := mkTitleRow {
  row_title : option str;
  is_title_provisional : bool;
  row_title_generation : Z;
  applied_title_generation : Z
}.

Definition update_session_title (title : str) (r : TitleRow) : TitleRow :=
  mkTitleRow (Some title) false (row_title_generation r + 1) (row_title_generation r + 1).

Definition update_session_provisional_title (title : str) (r : TitleRow) : TitleRow :=
  mkTitleRow (Some title) true (row_title_generation r + 1) (row_title_generation r + 1).

Definition begin_session_title_generation (requires_provisional_title : bool) (r : TitleRow) : option Z * TitleRow :=
  if requires_provisional_title && negb (is_title_provisional r) then (None, r)
  else (Some (row_title_generation r + 1)%Z,
        mkTitleRow (row_title r) true (row_title_generation r + 1) (applied_title_generation r)).

Definition update_session_title_for_generation (expected_generation : Z) (title : str) (r : TitleRow) : bool * TitleRow :=
  if ((expected_generation <=? row_title_generation r) && (applied_title_generation r <? expected_generation))%Z
  then (true, mkTitleRow (Some title) false (row_title_generation r) expected_generation)
  else (false, r).

(** ** The task *)

Inductive TitleCall : Set → Type :=
| BeginGeneration (k : SessionId) (requires_provisional_title : bool) : TitleCall (result (option Z) str)
| LoadTitleSession (k : SessionId) : TitleCall (result (option (option str * str)) str)
| SubmitTitlePrompt (request : OneShotRequest) : TitleCall (result AgentResponse str)
| UpdateTitleForGeneration (k : SessionId) (generation : Z) (title : str) : TitleCall (result bool str)
| SendRefreshSessions : TitleCall unit
| SendTitleGenerationFinished (k : SessionId) (generation : Z) : TitleCall unit.

Inductive TitleEffect : Type := TitleDid (A : Set) (c : TitleCall A) (a : A).
Class TitleHost := title_answer : ∀ A : Set, nat → TitleCall A → A.

Definition Tm (A : Type) : Type := list TitleEffect → A * list TitleEffect.
#[global] Instance Tm_ret : MRet Tm := λ A a t, (a, t).
#[global] Instance Tm_bind : MBind Tm := λ A B f m t, let '(a, t') := m t in f a t'.

Record TitleTaskInput := mkTitleInput {
  task_folder : str;
  task_latest_request : str;
  task_reasoning_level : ReasoningLevel;
  requires_provisional_title : bool;
  task_agent : AgentSelection;
  task_session_id : SessionId;
  task_speed_mode : SpeedMode;
  tracked_generation : option Z
}.

Section task.
Context `{Hhost : !TitleHost, Hescape : !JsonEscape, Htemplate : !TitleTemplate, Hserde : !SerdeJson, Hcase : !UnicodeCase,
  Halnum : !UnicodeAlnum}.

Definition tcall {A : Set} (c : TitleCall A) : Tm A := λ t,
  let a := title_answer A (length t) c in (a, t ++ [TitleDid A c a]).

Definition emit_title_generation_finished_event (input : TitleTaskInput) : Tm unit :=
  match tracked_generation input with
  | Some generation => tcall (SendTitleGenerationFinished (task_session_id input) generation)
  | None => mret tt
  end.

Definition title_request (input : TitleTaskInput) (prompt : str) : OneShotRequest :=
  mkOneShot (task_folder input) (AgentKind_name (kind (task_agent input)))
    (AgentModel_as_str (model (task_agent input))) ReadOnly prompt (task_reasoning_level input) Scheduler.UtilityPrompt
    (task_speed_mode input).

Fixpoint run_title_attempts (attempts : nat) (request : OneShotRequest) : Tm (option str) :=
  match attempts with
  | O => mret None
  | S attempts =>
      submission ← tcall (SubmitTitlePrompt request);
      match (submission : result AgentResponse str) with
      | Ok response => mret (Some (to_answer_display_text response))
      | Err _ => run_title_attempts attempts request
      end
  end.

Definition run_title_generation_command (input : TitleTaskInput) (prompt : str) : Tm (option str) :=
  run_title_attempts SESSION_TITLE_GENERATION_MAX_ATTEMPTS (title_request input prompt).

Definition load_session_title_generation_context (input : TitleTaskInput) : Tm (option SessionTitleGenerationContext) :=
  row ← tcall (LoadTitleSession (task_session_id input));
  mret (match row with
        | Ok (Some (title, prompt)) => Some (mkTitleContext (default [] title) (task_latest_request input) prompt)
        | _ => None
        end).

(** The claimed part: what is computed from the answers, then the write. *)
Definition claimed_title (input : TitleTaskInput) : Tm (option str) :=
  context ← load_session_title_generation_context input;
  match context with
  | None => mret None
  | Some context =>
      match session_title_generation_prompt context with
      | None => mret None
      | Some prompt =>
          response ← run_title_generation_command input prompt;
          mret (response ≫= λ response,
                title ← parse_generated_session_title response;
                if is_generated_session_title_request_copy title context then None else Some title)
      end
  end.

Definition run_claimed_session_title_generation_task (input : TitleTaskInput) (generation : Z) : Tm unit :=
  title ← claimed_title input;
  _ ← (match title with
       | None => mret tt
       | Some title =>
           applied ← tcall (UpdateTitleForGeneration (task_session_id input) generation title);
           match applied with
           | Ok true => tcall SendRefreshSessions
           | _ => mret tt
           end
       end);
  emit_title_generation_finished_event input.

(** The claim; the task that follows it runs detached. *)
Definition spawn_session_title_generation_task (input : TitleTaskInput) : Tm (option Z) :=
  claim ← tcall (BeginGeneration (task_session_id input) (requires_provisional_title input));
  match claim with
  | Ok (Some generation) => mret (Some generation)
  | _ => _ ← emit_title_generation_finished_event input; mret None
  end.
End task.
