(* ===== verification/TitleLaws.v ===== *)
(** * Laws of session titles

    The context of a title prompt is the longest that fits, so the prompt fits its
    budget; a generated title is stored only when it looks like requested work and
    nothing newer was written since it was claimed. *)
From S2P Require Import Prelude Contracts Agent Lifecycle Transcript Transient Prompt Input Json Review Session Protocol FileEntry SessionManager Schema Envelope ResponseParse Scheduler ToolCalls Forge DiffPrompt PromptLaws SessionTitle.

(** ** Context *)

Section context.
Context `{Hescape : !JsonEscape, Hlaws : !JsonEscapeLaws}.

Definition escaped_size (s : str) : Z := blen (json_string s).

Lemma escaped_size_app a b : (escaped_size (a ++ b) = escaped_size a + blen (flat_map json_escape b))%Z.
Proof. unfold escaped_size, json_string. rewrite flat_map_app, !blen_app. lia. Qed.

Lemma escaped_size_min s : (2 + blen s <= escaped_size s)%Z.
Proof.
  unfold escaped_size, json_string. rewrite !blen_app. change (blen [34%N]) with 1%Z.
  enough (blen s <= blen (flat_map json_escape s))%Z by lia. induction s as [|c s IH]; [done|]. cbn.
  rewrite blen_cons, blen_app. pose proof (json_escape_min c). unfold blen at 2. lia.
Qed.

Definition fits (value : str) (max_bytes m : Z) : Prop := (escaped_size (floor_prefix value m) <= max_bytes)%Z.

Lemma fits_smaller value max_bytes m m' : (m <= m')%Z → fits value max_bytes m' → fits value max_bytes m.
Proof.
  unfold fits. intros HM. destruct (floor_prefix_app value m m' HM) as [rest ->]. rewrite escaped_size_app.
  pose proof (blen_nonneg (flat_map json_escape rest)). lia.
Qed.

Lemma json_prefix_loop_spec fuel value max_bytes start end_ :
  (0 <= start <= end_)%Z → (end_ - start <= Z.of_nat fuel)%Z → fits value max_bytes start →
  ∃ r, json_prefix_loop fuel value max_bytes start end_ = Some r ∧ (start <= r <= end_)%Z ∧ fits value max_bytes r ∧
    ∀ m, (r < m <= end_)%Z → ¬ fits value max_bytes m.
Proof.
  revert start end_. induction fuel as [|fuel IH]; intros start end_ HS HF HT; cbn [json_prefix_loop];
    destruct (Z.ltb_spec start end_) as [HL|HL]; try lia; try (exists start; split_and!; [done|lia|lia|done|lia]).
  assert (start + 1 <= start + (end_ - start + 1) / 2 <= end_)%Z as HMid.
  { pose proof (Z.div_le_lower_bound (end_ - start + 1) 2 1). pose proof (Z.div_le_upper_bound (end_ - start + 1) 2 (end_ - start)). lia. }
  set (middle := (start + (end_ - start + 1) / 2)%Z) in *. clearbody middle.
  destruct (Z.leb_spec (blen (json_string (floor_prefix value middle))) max_bytes) as [HB|HB].
  - destruct (IH middle end_) as (r & E & HR & HQ & HN); [lia|lia|exact HB|]. exists r. split_and!; [done|lia|lia|done|done].
  - destruct (IH start (middle - 1)%Z) as (r & E & HR & HQ & HN); [lia|lia|done|]. exists r. split_and!; [done|lia|lia|done|].
    intros m HM HX. destruct (Z.le_gt_cases m (middle - 1)) as [HA|HA]; [by apply (HN m); [lia|]|].
    apply (fits_smaller value max_bytes middle) in HX; [|lia]. unfold fits, escaped_size in HX. lia.
Qed.

Lemma prefix_is_floor p rest : floor_prefix (p ++ rest) (blen p) = p.
Proof.
  induction p as [|c p IH]; [apply floor_prefix_zero|]. cbn [app]. rewrite blen_cons. cbn [floor_prefix].
  destruct (Z.leb_spec (Z.of_nat (len_utf8 c)) (Z.of_nat (len_utf8 c) + blen p)); [|pose proof (blen_nonneg p); lia].
  by rewrite Z.add_simpl_l, IH.
Qed.

(** The longest prefix whose JSON text fits. *)
Lemma json_prefix_spec value max_bytes :
  (2 <= max_bytes)%Z →
  ∃ p rest, json_prefix value max_bytes = Some p ∧ value = p ++ rest ∧ (escaped_size p <= max_bytes)%Z ∧
    ∀ p' rest', value = p' ++ rest' → length p < length p' → (max_bytes < escaped_size p')%Z.
Proof.
  intros HM. unfold json_prefix. set (end_ := Z.min (blen value) (Z.max (max_bytes - 2) 0)).
  assert (0 <= end_)%Z by (unfold end_; pose proof (blen_nonneg value); lia).
  destruct (json_prefix_loop_spec (Z.to_nat end_) value max_bytes 0 end_) as (r & -> & HR & HQ & HN); [lia|lia| |].
  { unfold fits. rewrite floor_prefix_zero. change (escaped_size []) with 2%Z. lia. }
  destruct (floor_prefix_cut value r) as [rest E]. exists (floor_prefix value r), rest. split_and!; [done|done|done|].
  intros p' rest' E' HL. rewrite E' in HN, HL. pose proof (escaped_size_min p').
  assert (r < blen p')%Z as HP.
  { apply Z.lt_nge. intros HP. destruct (floor_prefix_app (p' ++ rest') _ _ HP) as [more EM].
    rewrite prefix_is_floor in EM. rewrite EM, length_app in HL. lia. }
  destruct (Z.le_gt_cases (blen p') end_) as [HE|HE].
  - specialize (HN (blen p') ltac:(lia)). unfold fits in HN. rewrite prefix_is_floor in HN. lia.
  - unfold end_ in HE. rewrite E', blen_app in HE. pose proof (blen_nonneg rest'). lia.
Qed.

Lemma marker_size : (2 <= escaped_size SESSION_TITLE_CONTEXT_TRUNCATION_MARKER <= 33)%Z.
Proof.
  unfold escaped_size, json_string, SESSION_TITLE_CONTEXT_TRUNCATION_MARKER. rewrite flat_map_app, !blen_app.
  change (blen [34%N]) with 1%Z. cbn [flat_map]. rewrite app_nil_r.
  assert (flat_map json_escape (L"[title context truncated]") = L"[title context truncated]") as ->.
  { assert (∀ s, forallb plain_char s = true → flat_map json_escape s = s) as HP.
    { induction s as [|c s IH]; [done|]. cbn. intros [HC HS]%andb_true_iff. rewrite json_escape_plain by done. cbn. by rewrite IH. }
    apply HP. vm_compute. reflexivity. }
  change (blen (L"[title context truncated]")) with 25%Z.
  pose proof (json_escape_max newline). change (len_utf8 newline) with 1 in H. unfold blen. lia.
Qed.

(** An encoded value fits its budget, and is whole when it fits whole. *)
Lemma encode_fits value max_bytes :
  (64 <= max_bytes)%Z →
  ∃ e, encode_session_title_context value max_bytes = Some e ∧ (blen e <= max_bytes)%Z ∧
    ((escaped_size value <= max_bytes)%Z → e = json_string value).
Proof.
  intros HM. pose proof marker_size as HK. unfold encode_session_title_context.
  destruct (json_prefix_spec value max_bytes) as (p & rest & -> & EV & HS & HL); [lia|]. cbn [mbind option_bind].
  destruct (Z.eqb_spec (blen p) (blen value)) as [HE|HE].
  - exists (json_string p). assert (rest = []) as ->.
    { rewrite EV, blen_app in HE. destruct rest as [|c rest]; [done|]. rewrite blen_cons in HE. pose proof (blen_nonneg rest).
      assert (0 < len_utf8 c) by (unfold len_utf8; repeat case_match; lia). lia. }
    rewrite app_nil_r in EV. subst p. done.
  - unfold escaped_size in HK. destruct (Z.ltb_spec max_bytes (blen (json_string SESSION_TITLE_CONTEXT_TRUNCATION_MARKER) - 2)); [lia|].
    destruct (json_prefix_spec value (max_bytes - (blen (json_string SESSION_TITLE_CONTEXT_TRUNCATION_MARKER) - 2)))
      as (q & rest' & -> & EQ & HQ & _); [lia|]. cbn [mbind option_bind]. eexists. split; [done|]. split.
    + fold (escaped_size (q ++ SESSION_TITLE_CONTEXT_TRUNCATION_MARKER)). rewrite escaped_size_app.
      assert (blen (json_string SESSION_TITLE_CONTEXT_TRUNCATION_MARKER)
              = 2 + blen (flat_map json_escape SESSION_TITLE_CONTEXT_TRUNCATION_MARKER))%Z as HX.
      { unfold json_string. rewrite !blen_app. change (blen [34%N]) with 1%Z. lia. }
      unfold escaped_size in *. lia.
    + intros HV. exfalso. assert (length p < length value) as HLt.
      { rewrite EV, length_app. destruct rest; [rewrite app_nil_r in EV; by subst p|cbn; lia]. }
      specialize (HL value [] ltac:(by rewrite app_nil_r) HLt). lia.
Qed.

(** Title prompts fit.  Whatever the requests and the title, the prompt is
    built without a panic and within its bound, and a field whose JSON text fits
    its share is in it whole. *)
Theorem title_prompt_fits `{Htemplate : !TitleTemplate, Hsize : !TitleTemplateLaws} context :
  ∃ current latest original,
    session_title_generation_prompt context = Some (render_title_prompt current latest original) ∧
    (blen (render_title_prompt current latest original) <= SESSION_TITLE_GENERATION_PROMPT_MAX_BYTES)%Z ∧
    ((blen (json_string (current_title context)) <= SESSION_TITLE_CURRENT_TITLE_MAX_BYTES)%Z → current = json_string (current_title context)) ∧
    ((blen (json_string (latest_request context)) <= SESSION_TITLE_LATEST_REQUEST_MAX_BYTES)%Z → latest = json_string (latest_request context)) ∧
    ((blen (json_string (original_request context)) <= SESSION_TITLE_ORIGINAL_REQUEST_MAX_BYTES)%Z → original = json_string (original_request context)).
Proof.
  unfold session_title_generation_prompt.
  destruct (encode_fits (current_title context) SESSION_TITLE_CURRENT_TITLE_MAX_BYTES) as (c & -> & HC & HCW); [done|].
  destruct (encode_fits (latest_request context) SESSION_TITLE_LATEST_REQUEST_MAX_BYTES) as (l & -> & HLt & HLW); [done|].
  destruct (encode_fits (original_request context) SESSION_TITLE_ORIGINAL_REQUEST_MAX_BYTES) as (o & -> & HO & HOW); [done|].
  exists c, l, o. split; [done|]. split; [|done]. pose proof (title_template_size c l o).
  unfold SESSION_TITLE_CURRENT_TITLE_MAX_BYTES, SESSION_TITLE_LATEST_REQUEST_MAX_BYTES, SESSION_TITLE_ORIGINAL_REQUEST_MAX_BYTES,
    SESSION_TITLE_GENERATION_TEMPLATE_BYTES, SESSION_TITLE_GENERATION_PROMPT_MAX_BYTES in *. lia.
Qed.
End context.

(** ** Generations *)

Inductive TitleOp :=
| OpSet (title : str)
| OpProvisional (title : str)
| OpBegin (requires_provisional_title : bool)
| OpApply (generation : Z) (title : str).

Definition title_step (r : TitleRow) (op : TitleOp) : TitleRow :=
  match op with
  | OpSet title => update_session_title title r
  | OpProvisional title => update_session_provisional_title title r
  | OpBegin b => (begin_session_title_generation b r).2
  | OpApply g title => (update_session_title_for_generation g title r).2
  end.

Definition title_run (ops : list TitleOp) (r : TitleRow) : TitleRow := fold_left title_step ops r.

(** The operation writes a title that is not older than a claim. *)
Definition writes_since (claim : Z) (r : TitleRow) (op : TitleOp) : Prop :=
  match op with
  | OpSet _ | OpProvisional _ => True
  | OpBegin _ => False
  | OpApply g title => (claim <= g)%Z ∧ (update_session_title_for_generation g title r).1 = true
  end.

Definition wf_row (r : TitleRow) : Prop := (applied_title_generation r <= row_title_generation r)%Z.

Lemma title_step_wf r op : wf_row r → wf_row (title_step r op).
Proof.
  unfold wf_row. destruct op as [t|t|b|g t]; cbn; intros HW; try lia.
  - unfold begin_session_title_generation. destruct (b && _); cbn; lia.
  - unfold update_session_title_for_generation. case_match; cbn; [|lia]. apply andb_true_iff in H as [H1 H2]. lia.
Qed.

Lemma title_step_claim r op claim :
  wf_row r → (claim <= row_title_generation r)%Z →
  (claim <= row_title_generation (title_step r op))%Z ∧
  ((applied_title_generation (title_step r op) < claim)%Z ↔ (applied_title_generation r < claim)%Z ∧ ¬ writes_since claim r op).
Proof.
  unfold wf_row. intros HW HC. destruct op as [t|t|b|g t]; cbn.
  - split; [lia|]. split; [lia|tauto].
  - split; [lia|]. split; [lia|tauto].
  - unfold begin_session_title_generation. destruct (b && _); cbn; (split; [lia|]; tauto).
  - unfold update_session_title_for_generation. destruct ((g <=? _)%Z && _) eqn:E; cbn.
    + apply andb_true_iff in E as [H1 H2]. split; [lia|]. split; [intros; split; [lia|lia]|intros [_ HN]]. lia.
    + split; [lia|]. split; [intros; split; [done|]; by intros []|tauto].
Qed.

(** C35: A generated title is stored exactly when nothing newer was written.  Between
    the claim of a generation and its title any titles are set by the user, kept as
    provisional, claimed and generated; the title is stored if and only if none of
    the writes since was a title of the user, a provisional one, or a generated one
    claimed no earlier; what was claimed but came back unusable does not matter. *)
Theorem title_claim_is_honoured requires r claim r1 ops title :
  wf_row r → begin_session_title_generation requires r = (Some claim, r1) →
  (update_session_title_for_generation claim title (title_run ops r1)).1 = true ↔
  ∀ before op after, ops = before ++ op :: after → ¬ writes_since claim (title_run before r1) op.
Proof.
  intros HW HB. assert (wf_row r1 ∧ (claim <= row_title_generation r1)%Z ∧ (applied_title_generation r1 < claim)%Z) as (HW1 & HC & HA).
  { unfold begin_session_title_generation in HB. destruct (requires && _); [done|]. injection HB as <- <-.
    unfold wf_row in *. cbn. lia. }
  clear HW HB r. assert (wf_row (title_run ops r1) ∧ (claim <= row_title_generation (title_run ops r1))%Z ∧
    ((applied_title_generation (title_run ops r1) < claim)%Z ↔
     ∀ before op after, ops = before ++ op :: after → ¬ writes_since claim (title_run before r1) op)) as (_ & HG & HE).
  { induction ops as [|op ops IH] using rev_ind.
    - split; [done|]. split; [done|]. split; [|done]. intros _ before op after E. by destruct before.
    - destruct IH as (IW & IC & IE). unfold title_run in *. rewrite fold_left_app. cbn [fold_left].
      destruct (title_step_claim _ op claim IW IC) as [H1 H2]. split; [by apply title_step_wf|]. split; [done|].
      rewrite H2, IE. split.
      + intros [HP HN] before op' after E. destruct after as [|x after _] using rev_ind.
        * apply app_inj_tail in E as [<- <-]. done.
        * rewrite app_comm_cons, app_assoc in E. apply app_inj_tail in E as [-> _]. by eapply HP.
      + intros HP. split; [|by apply (HP ops op [])]. intros before op' after ->. eapply (HP before op' (after ++ [op])).
        by rewrite <- app_assoc. }
  unfold update_session_title_for_generation. rewrite <- HE. destruct (Z.leb_spec claim (row_title_generation (title_run ops r1))); [|lia].
  cbn [andb]. destruct (Z.ltb_spec (applied_title_generation (title_run ops r1)) claim); cbn; [tauto|]. split; [done|lia].
Qed.

(** ** Accepted titles *)

Definition looks_like_work (title : str) : Prop :=
  title ≠ [] ∧ length title <= GENERATED_SESSION_TITLE_MAX_CHARACTERS ∧ trim title = title ∧ newline ∉ title ∧
  starts_with_first_person_pronoun title = false ∧
  Forall (λ prefix, starts_with (map ascii_lower title) prefix = false) GENERATED_SESSION_TITLE_PROGRESS_PREFIXES.

Lemma split_char_parts c s : Forall (λ part, c ∉ part) (split_char c s).
Proof.
  induction s as [|d s IH]; cbn; [repeat constructor; by intros ?%elem_of_nil|].
  destruct (split_char c s) as [|p ps] eqn:E; [by apply split_char_not_nil in E|].
  apply Forall_cons in IH as [HP HPs].
  destruct (N.eqb_spec d c) as [->|HN]; repeat constructor; try done; [by intros ?%elem_of_nil|].
  by intros [->|HE]%elem_of_cons.
Qed.

Lemma strip_cr_subset s x : x ∈ strip_cr s → x ∈ s.
Proof.
  unfold strip_cr. destruct (rev s) as [|c r] eqn:E; [done|]. destruct (c =? carriage_return)%N; [|done].
  rewrite <- (rev_involutive s), E. cbn. intros HX. apply elem_of_app. by left.
Qed.

Lemma str_lines_plain s : Forall (λ line, newline ∉ line) (str_lines s).
Proof.
  unfold str_lines. pose proof (split_char_parts newline s) as H. induction H as [|p ps HP HPs IH]; [constructor|].
  destruct p as [|c p], ps as [|q ps]; cbn; try (constructor; [|done]); try done; repeat constructor; try done.
  all: intros HX%strip_cr_subset; done.
Qed.

Lemma rev_elem {A} (l : list A) x : x ∈ rev l ↔ x ∈ l.
Proof. split; intros HX%list_elem_of_In; apply list_elem_of_In; by apply in_rev in HX || (apply in_rev; by rewrite rev_involutive). Qed.

Lemma skipped_subset p s x : x ∈ skip_while p s → x ∈ s.
Proof. destruct (skip_while_suffix p s) as [a E]. rewrite E at 2. intros HX. apply elem_of_app. by right. Qed.

Lemma trimmed_subset p s x : x ∈ trim_matches p s → x ∈ s.
Proof.
  unfold trim_matches, trim_end_matches, trim_start_matches. rewrite rev_elem. intros HX%skipped_subset.
  rewrite rev_elem in HX. by eapply skipped_subset.
Qed.

Lemma trim_subset s x : x ∈ trim s → x ∈ s.
Proof. apply (trimmed_subset is_whitespace). Qed.

Lemma normalized_title_ok candidate title :
  newline ∉ candidate → normalize_generated_session_title candidate = Some title → looks_like_work title.
Proof.
  unfold normalize_generated_session_title. intros HN. set (raw := without_label (trim candidate)).
  assert (newline ∉ raw) as HR.
  { unfold raw, without_label. assert (newline ∉ trim candidate) as HT by (intros HX; by apply HN, trim_subset).
    destruct (split_once (trim candidate) (L":")) as [[prefix remainder]|] eqn:ES; [|done].
    destruct (eq_ignore_ascii_case (trim prefix) (L"title")); [|done].
    apply split_once_Some in ES. intros HX%trim_subset. apply HT. rewrite ES. rewrite !elem_of_app. tauto. }
  clearbody raw. destruct (is_empty (trim (trim_matches is_quote raw))) eqn:EE; [done|].
  destruct (is_generated_session_title_candidate _) eqn:EC; [|done]. cbn [negb]. intros [= <-].
  unfold is_generated_session_title_candidate in EC.
  destruct (Nat.ltb_spec GENERATED_SESSION_TITLE_MAX_CHARACTERS (length (trim (trim_matches is_quote raw)))); [done|].
  destruct (starts_with_first_person_pronoun _) eqn:EP; [done|]. apply negb_true_iff in EC. split_and!.
  - intros HX. by rewrite HX in EE.
  - done.
  - apply trim_idem.
  - intros HX. by apply HR, (trimmed_subset is_quote), trim_subset.
  - done.
  - apply Forall_forall. intros prefix HX. unfold starts_with_progress_prefix in EC.
    destruct (starts_with _ prefix) eqn:EX; [|done]. rewrite <- not_true_iff_false in EC. exfalso. apply EC.
    apply existsb_exists. exists prefix. split; [by apply list_elem_of_In|done].
Qed.

Lemma usable_line_ok content title : usable_line content = Some title → looks_like_work title.
Proof.
  unfold usable_line, first_nonempty_line. destruct (list_find_b _ (str_lines content)) as [line|] eqn:EL; [|done]. cbn.
  apply list_find_b_Some in EL as [HE _]. intros HT. eapply normalized_title_ok; [|exact HT]. intros HX%trim_subset.
  pose proof (str_lines_plain content) as HP. rewrite Forall_forall in HP. by apply (HP line).
Qed.

Lemma first_some_Some {A B} (f : A → option B) l b : first_some f l = Some b → ∃ a, a ∈ l ∧ f a = Some b.
Proof.
  induction l as [|a l IH]; [done|]. cbn. destruct (f a) as [b'|] eqn:E; [intros [= ->]; exists a; split; [by left|done]|].
  intros HE. destruct (IH HE) as (a' & HA & HF). exists a'. split; [by right|done].
Qed.

Lemma parsed_title_ok `{SerdeJson} content title : parse_generated_session_title content = Some title → looks_like_work title.
Proof.
  unfold parse_generated_session_title. destruct (is_empty (trim content)); [done|].
  destruct (parse_agent_response_strict (trim content)) as [response|e]; [|apply usable_line_ok].
  intros (a & _ & HU)%first_some_Some. by eapply usable_line_ok.
Qed.

(** ** The task *)

Definition submission_of (e : TitleEffect) : option (OneShotRequest * result AgentResponse str) :=
  match e with
  | TitleDid A c a =>
      match c in TitleCall A return A → option (OneShotRequest * result AgentResponse str) with
      | SubmitTitlePrompt request => λ a, Some (request, a)
      | _ => λ _, None
      end a
  end.

Definition update_of (e : TitleEffect) : option (SessionId * Z * str) :=
  match e with
  | TitleDid A c _ => match c with UpdateTitleForGeneration k g title => Some (k, g, title) | _ => None end
  end.

Definition finished_of (e : TitleEffect) : option (SessionId * Z) :=
  match e with TitleDid A c _ => match c with SendTitleGenerationFinished k g => Some (k, g) | _ => None end end.

Definition context_of (latest : str) (e : TitleEffect) : option SessionTitleGenerationContext :=
  match e with
  | TitleDid A c a =>
      match c in TitleCall A return A → option SessionTitleGenerationContext with
      | LoadTitleSession _ => λ a : result (option (option str * str)) str,
          match a with Ok (Some (title, prompt)) => Some (mkTitleContext (default [] title) latest prompt) | _ => None end
      | _ => λ _, None
      end a
  end.

Section task.
Context `{Hhost : !TitleHost, Hescape : !JsonEscape, Htemplate : !TitleTemplate, Hserde : !SerdeJson, Hcase : !UnicodeCase,
  Halnum : !UnicodeAlnum}.

(** What led to a title. *)
Definition justified (input : TitleTaskInput) (new : list TitleEffect) (title : str) : Prop :=
  looks_like_work title ∧
  ∃ context request response,
    context ∈ omap (context_of (task_latest_request input)) new ∧ (request, Ok response) ∈ omap submission_of new ∧
    session_title_generation_prompt context = Some (request_prompt request) ∧ request_permission_mode request = ReadOnly ∧
    parse_generated_session_title (to_answer_display_text response) = Some title ∧
    is_generated_session_title_request_copy title context = false.

Lemma justified_more input new more title : justified input new title → justified input (new ++ more) title.
Proof.
  intros [HL (c & request & response & H1 & H2 & H)]. split; [done|]. exists c, request, response.
  rewrite !omap_app, !elem_of_app. split_and!; [by left|by left|apply H..].
Qed.

Lemma attempts_spec attempts request t :
  ∃ new response, run_title_attempts attempts request t = (response, t ++ new) ∧
    length (omap submission_of new) <= attempts ∧ omap update_of new = [] ∧ omap finished_of new = [] ∧
    ∀ text, response = Some text → ∃ r, (request, Ok r) ∈ omap submission_of new ∧ text = to_answer_display_text r.
Proof.
  revert t. induction attempts as [|attempts IH]; intros t; cbn [run_title_attempts].
  - exists [], None. rewrite app_nil_r. split_and!; try done; cbn; lia.
  - unfold mbind at 1, Tm_bind, tcall. set (e := TitleDid _ (SubmitTitlePrompt request) _).
    destruct (title_answer _ (length t) (SubmitTitlePrompt request)) as [r|err] eqn:EA.
    + exists [e], (Some (to_answer_display_text r)). split_and!; [done|cbn; lia|done..|].
      intros text [= <-]. exists r. split; [|done]. apply list_elem_of_singleton. done.
    + destruct (IH (t ++ [e])) as (new & response & HE & HL & HU & HF & HR). exists (e :: new), response.
      rewrite HE, <- app_assoc. split_and!; [done|cbn; lia|done..|]. intros text HT. destruct (HR text HT) as (r & HX & HY).
      exists r. split; [by right|done].
Qed.

Lemma load_spec input t :
  ∃ e context, load_session_title_generation_context input t = (context, t ++ [e]) ∧
    (∀ c, context = Some c → context_of (task_latest_request input) e = Some c) ∧
    submission_of e = None ∧ update_of e = None ∧ finished_of e = None.
Proof.
  unfold load_session_title_generation_context, mbind, Tm_bind, tcall, mret, Tm_ret. eexists _, _. split; [done|]. split; [|done].
  intros c. cbn. by destruct (title_answer _ (length t) (LoadTitleSession (task_session_id input))) as [[[title prompt]|]|err].
Qed.

Lemma claimed_title_spec input t :
  ∃ new title, claimed_title input t = (title, t ++ new) ∧
    length (omap submission_of new) <= SESSION_TITLE_GENERATION_MAX_ATTEMPTS ∧ omap update_of new = [] ∧ omap finished_of new = [] ∧
    ∀ x, title = Some x → justified input new x.
Proof.
  unfold claimed_title, mbind at 1, Tm_bind. destruct (load_spec input t) as (e & context & -> & HC & HE1 & HE2 & HE3).
  assert (∀ more title, length (omap submission_of more) <= SESSION_TITLE_GENERATION_MAX_ATTEMPTS → omap update_of more = [] →
    omap finished_of more = [] → (∀ x, title = Some x → justified input ([e] ++ more) x) →
    ∃ new title', (title, (t ++ [e]) ++ more) = (title', t ++ new) ∧
      length (omap submission_of new) <= SESSION_TITLE_GENERATION_MAX_ATTEMPTS ∧ omap update_of new = [] ∧ omap finished_of new = [] ∧
      ∀ x, title' = Some x → justified input new x) as HD.
  { intros more title H1 H2 H3 H4. exists ([e] ++ more), title. cbn. rewrite HE1, HE2, HE3, <- app_assoc. done. }
  destruct context as [c|]; [|rewrite <- (app_nil_r (t ++ [e])); apply HD; [cbn; lia|done..]].
  destruct (session_title_generation_prompt c) as [prompt|] eqn:EP; [|rewrite <- (app_nil_r (t ++ [e])); apply HD; [cbn; lia|done..]].
  unfold run_title_generation_command, mbind at 1, Tm_bind.
  destruct (attempts_spec SESSION_TITLE_GENERATION_MAX_ATTEMPTS (title_request input prompt) (t ++ [e])) as (more & response & -> & HL & HU & HF & HR).
  apply HD; [done..|]. intros x HX. destruct response as [text|]; [|done].
  destruct (HR text eq_refl) as (r & HS & ->). unfold mbind, option_bind in HX.
  destruct (parse_generated_session_title (to_answer_display_text r)) as [title|] eqn:ET; [|done].
  destruct (is_generated_session_title_request_copy title c) eqn:EK; [done|]. injection HX as ->.
  split; [by eapply parsed_title_ok|]. exists c, (title_request input prompt), r. cbn. rewrite HE1, (HC c eq_refl).
  split_and!; try done. by left.
Qed.

(** Generated titles are about requested work.  A claimed task asks the provider
    at most twice, read-only, and stores at most one title, under the generation it
    claimed: one line of at most 72 characters that is neither about the agent nor
    its progress, that is the answer to a prompt built from the stored requests and
    repeats none of them.  A tracked task reports its end exactly once. *)
Theorem generated_titles_are_requested_work input generation t :
  ∃ new, (run_claimed_session_title_generation_task input generation t).2 = t ++ new ∧
    length (omap submission_of new) <= SESSION_TITLE_GENERATION_MAX_ATTEMPTS ∧
    (omap update_of new = [] ∨
     ∃ title, omap update_of new = [(task_session_id input, generation, title)] ∧ justified input new title) ∧
    omap finished_of new = match tracked_generation input with Some g => [(task_session_id input, g)] | None => [] end.
Proof.
  unfold run_claimed_session_title_generation_task, mbind at 1, Tm_bind.
  destruct (claimed_title_spec input t) as (new & title & -> & HL & HU & HF & HJ). unfold mbind at 1, Tm_bind.
  set (body := match title with Some _ => _ | None => _ end).
  assert (∃ more, body (t ++ new) = (tt, t ++ new ++ more) ∧ omap submission_of more = [] ∧ omap finished_of more = [] ∧
    (omap update_of more = [] ∨ ∃ x, title = Some x ∧ omap update_of more = [(task_session_id input, generation, x)]))
    as (more & -> & HS & HD & HM).
  { unfold body. destruct title as [x|]; [|exists []; rewrite !app_nil_r; split_and!; auto].
    unfold mbind, Tm_bind, tcall. destruct (title_answer _ _ (UpdateTitleForGeneration _ _ _)) as [[|]|err] eqn:EA;
      try destruct (title_answer unit _ SendRefreshSessions); rewrite <- !app_assoc; eexists; (split; [reflexivity|]); split_and!; try done; right; by exists x. }
  clear body. unfold emit_title_generation_finished_event.
  assert (∀ tail, omap submission_of tail = [] → omap update_of tail = [] →
    omap finished_of tail = match tracked_generation input with Some g => [(task_session_id input, g)] | None => [] end →
    ∃ new', (t ++ new ++ more) ++ tail = t ++ new' ∧ length (omap submission_of new') <= SESSION_TITLE_GENERATION_MAX_ATTEMPTS ∧
      (omap update_of new' = [] ∨ ∃ x, omap update_of new' = [(task_session_id input, generation, x)] ∧ justified input new' x) ∧
      omap finished_of new' = match tracked_generation input with Some g => [(task_session_id input, g)] | None => [] end) as HT.
  { intros tail H1 H2 H3. exists (new ++ more ++ tail). rewrite !omap_app, HS, H1, HU, HF, HD, H2, H3, app_nil_r, <- !app_assoc.
    split_and!; [done|done| |done]. cbn [app]. destruct HM as [->|(x & EX & ->)]; [by left|right].
    exists x. split; [done|]. by apply justified_more, HJ. }
  destruct (tracked_generation input) as [g|]; [by apply HT|].
  destruct (HT []) as (new' & E & H); [done..|]. exists new'. rewrite app_nil_r in E. done.
Qed.
End task.

(** ** A claim between other writes *)

Module TitleDemo.
Definition fresh_row : TitleRow := mkTitleRow (Some (L"add a login page")) true 1 1.
Definition claimed_row : TitleRow := mkTitleRow (Some (L"add a login page")) true 2 1.

(** A second claim comes back first with a title; the first claim is then too late,
    a third one is not. *)
Definition later : list TitleOp := [OpBegin true; OpApply 3 (L"Add a login page"); OpBegin false].

Lemma title_claim_is_honoured_witness :
  wf_row fresh_row ∧ begin_session_title_generation true fresh_row = (Some 2%Z, claimed_row) ∧
  ((update_session_title_for_generation 2 (L"Add login") (title_run later claimed_row)).1 = true ↔
   ∀ before op after, later = before ++ op :: after → ¬ writes_since 2 (title_run before claimed_row) op).
Proof.
  split; [unfold wf_row; cbn; lia|]. split; [vm_compute; reflexivity|].
  apply (title_claim_is_honoured true fresh_row 2 claimed_row later (L"Add login")); [unfold wf_row; cbn; lia|vm_compute; reflexivity].
Defined.
End TitleDemo.
