(* ===== verification/SessionCalls.v ===== *)
(** * Calls of the session lifecycle (crates/agentty/src/app/session/workflow)

    The foreground changes the loaded sessions and awaits the database, Git, the
    file system and workers in between.  A run is the list of these calls with
    their answers, chosen by a host that also may change the handles shared with
    worker tasks at every call. *)
From stdpp Require Import gmap.
From S2P Require Import Prelude Contracts Agent Lifecycle Transcript Transient Prompt Input Session SessionState FileEntry SessionManager Flow Scheduler SessionTitle.

(** ** Assignments to one field of a snapshot *)

Definition set_base_branch (self : Session) (x : str) : Session :=
  mkSession (agent self) x (controller_session_id self) (created_at self) (draft_attachments self)
    (folder self) (follow_up_tasks self) (id self) (in_progress_started_at self)
    (in_progress_total_seconds self) (is_draft self) (orchestration_progress self) (parent_session_id self)
    (permission_mode self) (personality_id self) (project_name self) (prompt self)
    (published_upstream_ref self) (questions self) (queued_messages self) (reasoning_level_override self)
    (response_style self) (review_request self) (role self) (size self) (speed_mode self) (stats self)
    (status self) (title self) (transcript self) (updated_at self) (transient_messages self).

Definition set_draft_attachments (self : Session) (x : list TurnPromptAttachment) : Session :=
  mkSession (agent self) (base_branch self) (controller_session_id self) (created_at self) x (folder self)
    (follow_up_tasks self) (id self) (in_progress_started_at self) (in_progress_total_seconds self)
    (is_draft self) (orchestration_progress self) (parent_session_id self) (permission_mode self)
    (personality_id self) (project_name self) (prompt self) (published_upstream_ref self) (questions self)
    (queued_messages self) (reasoning_level_override self) (response_style self) (review_request self)
    (role self) (size self) (speed_mode self) (stats self) (status self) (title self) (transcript self)
    (updated_at self) (transient_messages self).

Definition set_is_draft (self : Session) (x : bool) : Session :=
  mkSession (agent self) (base_branch self) (controller_session_id self) (created_at self)
    (draft_attachments self) (folder self) (follow_up_tasks self) (id self) (in_progress_started_at self)
    (in_progress_total_seconds self) x (orchestration_progress self) (parent_session_id self)
    (permission_mode self) (personality_id self) (project_name self) (prompt self)
    (published_upstream_ref self) (questions self) (queued_messages self) (reasoning_level_override self)
    (response_style self) (review_request self) (role self) (size self) (speed_mode self) (stats self)
    (status self) (title self) (transcript self) (updated_at self) (transient_messages self).

Definition set_prompt (self : Session) (x : str) : Session :=
  mkSession (agent self) (base_branch self) (controller_session_id self) (created_at self)
    (draft_attachments self) (folder self) (follow_up_tasks self) (id self) (in_progress_started_at self)
    (in_progress_total_seconds self) (is_draft self) (orchestration_progress self) (parent_session_id self)
    (permission_mode self) (personality_id self) (project_name self) x (published_upstream_ref self)
    (questions self) (queued_messages self) (reasoning_level_override self) (response_style self)
    (review_request self) (role self) (size self) (speed_mode self) (stats self) (status self) (title self)
    (transcript self) (updated_at self) (transient_messages self).

Definition set_title (self : Session) (x : option str) : Session :=
  mkSession (agent self) (base_branch self) (controller_session_id self) (created_at self)
    (draft_attachments self) (folder self) (follow_up_tasks self) (id self) (in_progress_started_at self)
    (in_progress_total_seconds self) (is_draft self) (orchestration_progress self) (parent_session_id self)
    (permission_mode self) (personality_id self) (project_name self) (prompt self)
    (published_upstream_ref self) (questions self) (queued_messages self) (reasoning_level_override self)
    (response_style self) (review_request self) (role self) (size self) (speed_mode self) (stats self)
    (status self) x (transcript self) (updated_at self) (transient_messages self).

(** ** Persisted records *)

Inductive SessionPreparationState := Preparing | Ready | Failed | PreparationCanceled.

#[global] Instance SessionPreparationState_eq_dec : EqDecision SessionPreparationState.
Proof. solve_decision. Defined.

Record SessionPreparationRow := mkPreparationRow {
  preparation_error : option str;
  preparation_prompt : option str;
  preparation_session_id : str;
  start_ref : str;
  preparation_state : SessionPreparationState
}.

Record SessionCreationSettings := mkCreationSettings {
  creation_agent : AgentSelection;
  creation_permission_mode : PermissionMode;
  creation_personality_id : option str;
  creation_reasoning_level : ReasoningLevel;
  creation_response_style : ResponseStyle;
  settings_role : SessionRole;
  creation_speed_mode : SpeedMode
}.

(** The columns of a new session row. *)
Record PersistedSessionCreation := mkCreation {
  created_session_id : str;
  created_base_branch : str;
  created_is_draft : bool;
  created_orchestration_task_id : option Z;
  created_parent : option str;
  created_project_id : Z;
  created_role : SessionRole;
  created_settings : SessionCreationSettings;
  created_status : SessionStatus
}.

(** What the preparation of a workspace reads of a session row. *)
Record SessionRowView := mkRowView { row_agent : str; row_model : str; row_project_id : option Z; row_parent : option str }.

Inductive SettingUpdate :=
| UpdateReasoningLevel (x : ReasoningLevel)
| UpdateResponseStyle (x : ResponseStyle)
| UpdatePermissionMode (x : PermissionMode)
| UpdateSpeedMode (x : SpeedMode)
| UpdatePersonality (x : option str).

Inductive SettingName :=
| DefaultSmartReasoningLevel | DefaultFastReasoningLevel | DefaultResponseStyle | DefaultSmartSpeedMode
| DefaultFastSpeedMode | LastUsedModelAsDefault.

Inductive LifeEvent :=
| LifeSessionUpdated (k : SessionId)
| LifeRefreshSessionsAndProjects
| LifeSettingUpdated (k : SessionId) (update : SettingUpdate)
| LifeModelUpdated (k : SessionId) (agent : AgentSelection).

Inductive FsFailure := DirectoryNotEmpty (detail : str) | PathNotFound (detail : str) | FsOther (detail : str).
Definition FsFailure_display (e : FsFailure) : str :=
  match e with DirectoryNotEmpty d | PathNotFound d | FsOther d => d end.

(** ** Calls *)

Definition Command : Type := SessionCommand unit unit.

Inductive LifeCall : Set → Type :=
(* identities and time *)
| NewUuid : LifeCall str
| NowSeconds : LifeCall Z
| AgenttyHome : LifeCall str
| BasePath : LifeCall str
(* preparations *)
| LoadPreparation (k : str) : LifeCall (result (option SessionPreparationRow) str)
| UpdatePreparation (k : str) (state : SessionPreparationState) (error : option str) : LifeCall (result bool str)
| CancelPreparation (k : str) : LifeCall (result bool str)
(* session rows *)
| LoadRow (k : str) : LifeCall (result (option SessionRowView) str)
| LoadProjectId (k : str) : LifeCall (result (option Z) str)
| GetProject (p : Z) : LifeCall (result (option str) str)
| InsertSession (c : PersistedSessionCreation) : LifeCall (result unit str)
| ReserveSession (c : PersistedSessionCreation) : LifeCall (result unit str)
| ReserveFork (k source : str) (status : SessionStatus) (start_ref : str) : LifeCall (result unit str)
| DeleteRow (k : str) : LifeCall (result unit str)
| RecordCreation (k : str) (seconds : Z) : LifeCall (result unit str)
| GetStackBase (k : str) : LifeCall (result (option str) str)
| SetStackBase (k : str) (hash : option str) : LifeCall (result unit str)
| SetStackMembership (k : str) (parent : option str) (base : str) (hash : option str) : LifeCall (result unit str)
| ClearDraftFlag (k : str) : LifeCall (result unit str)
| SetPromptColumn (k text : str) : LifeCall (result unit str)
| SetProvisionalTitle (k title : str) : LifeCall (result unit str)
| PersistSetting (k : str) (update : SettingUpdate) : LifeCall (result unit str)
| ApplyAgentModel (k : str) (agent : AgentSelection) (changed : bool) (default_project : option Z) : LifeCall (result unit str)
| PersistReviewRequest (k : str) (r : ReviewRequest) : LifeCall (result unit str)
| PersistStatus (k : str) (s : SessionStatus) : LifeCall (result unit str)
| RequestCancelOperations (k : str) : LifeCall (result unit str)
| AppendMessage (k : str) (message_kind : SessionMessageKind) (content : str) : LifeCall (result unit str)
(* settings *)
| LoadDefaultSmartAgent (p : Z) (fallback : AgentSelection) : LifeCall AgentSelection
| LoadDefaultFastAgent (p : Z) (fallback : AgentSelection) : LifeCall AgentSelection
| LoadReasoningLevel (p : Z) (name : SettingName) : LifeCall (result ReasoningLevel str)
| LoadResponseStyle (p : Z) (name : SettingName) : LifeCall (result ResponseStyle str)
| LoadSpeedMode (p : Z) (name : SettingName) : LifeCall (result SpeedMode str)
| LoadSetting (p : Z) (name : SettingName) : LifeCall (result (option str) str)
| AvailableAgentKinds : LifeCall (list AgentKind)
(* Git *)
| LifeFindRepoRoot (dir : str) : LifeCall (option str)
| LifeMainRepoRoot (dir : str) : LifeCall (result str GitFailure)
| LifeRefHash (root ref : str) : LifeCall (result str GitFailure)
| LifeHeadHash (dir : str) : LifeCall (result str GitFailure)
| LifeCreateWorktree (root folder branch start : str) : LifeCall (result unit GitFailure)
| LifeRemoveWorktree (folder : str) : LifeCall (result unit GitFailure)
| LifeDeleteBranch (root branch : str) : LifeCall (result unit GitFailure)
| LifeDetectBranch (dir : str) : LifeCall (option str)
| LifeMainCheckout (dir : str) : LifeCall (result (option str) GitFailure)
(* files *)
| PathExists (path : str) : LifeCall bool
| PathIsDir (path : str) : LifeCall bool
| Canonicalize (path : str) : LifeCall (result str FsFailure)
| CreateDirAll (path : str) : LifeCall (result unit FsFailure)
| RemoveTree (path : str) : LifeCall (result unit FsFailure)
| RemoveEmptyDir (path : str) : LifeCall (result unit FsFailure)
| RemoveFile (path : str) : LifeCall (result unit FsFailure)
| WriteAttachments (path : str) (attachments : list TurnPromptAttachment) : LifeCall (result unit FsFailure)
(* workers and agents *)
| SetupBackend (kind : AgentKind) (folder : str) : LifeCall (result unit str)
| CancelAgentRuns (k : str) : LifeCall unit
| FinishAgentRuns (k : str) : LifeCall unit
| FireCancelToken (k : str) : LifeCall unit
| Enqueue (k : str) (command : Command) : LifeCall (result unit SessionError)
| EnqueueGated (k : str) (command : Command) : LifeCall (result unit SessionError)
| OpenGate (k : str) : LifeCall unit
| EnqueueIdempotent (k : str) (command : Command) : LifeCall (result bool SessionError)
| EnqueueExisting (k : str) (command : Command) : LifeCall (result Z SessionError)
| PauseWorker (k : str) : LifeCall bool
| ClearWorker (k : str) : LifeCall unit
| ShutdownPausedWorker (k : str) : LifeCall unit
| StartRebase (k : str) : LifeCall (result unit SessionError)
| SpawnTitleTask (input : TitleTaskInput) : LifeCall (option Z)
| TaskFinished (task : Z) : LifeCall bool
| SpawnCleanup (folder branch : str) (has_worktree : bool) (k : str) : LifeCall unit
| ReviewRequestUrl (r : ReviewRequest) : LifeCall (result str str)
| LifeEmit (e : LifeEvent) : LifeCall unit.

Inductive LifeEffect : Type := LifeDid (A : Set) (c : LifeCall A) (a : A).

(** The foreground's own state and the calls made so far. *)
Record Foreground := mkForeground {
  fg_manager : SessionManager;
  default_session_model : AgentModel;
  fg_calls : list LifeEffect
}.

(** [preparation_reserved] is whether a saved first turn owns queued or running
    work; [shared_handles] is what the workers made of the handles. *)
Class LifeHost := {
  life_answer : ∀ A : Set, nat → LifeCall A → A;
  preparation_reserved : nat → SessionId → bool;
  shared_handles : nat → gmap SessionId SessionHandles → gmap SessionId SessionHandles
}.

Definition Lm (A : Type) : Type := Foreground → result A FlowStop * Foreground.
#[global] Instance Lm_ret : MRet Lm := λ A a w, (Ok a, w).
#[global] Instance Lm_bind : MBind Lm := λ A B f m w,
  match m w with (Ok a, w') => f a w' | (Err e, w') => (Err e, w') end.

Definition lfail {A} (e : SessionError) : Lm A := λ w, (Err (Flow.Failed e), w).
Definition lexpect {A} (o : option A) : Lm A := λ w, (match o with Some a => Ok a | None => Err Panicked end, w).
Definition lresult {A E} (r : result A E) (f : E → SessionError) : Lm A :=
  match r with Ok a => mret a | Err e => lfail (f e) end.
Definition lattempt {A} (m : Lm A) : Lm (result A SessionError) := λ w,
  match m w with
  | (Ok a, w') => (Ok (Ok a), w')
  | (Err (Flow.Failed e), w') => (Ok (Err e), w')
  | (Err Panicked, w') => (Err Panicked, w')
  end.

Definition gets {A} (f : SessionManager → A) : Lm A := λ w, (Ok (f (fg_manager w)), w).
Definition modify (f : SessionManager → SessionManager) : Lm unit := λ w,
  (Ok tt, mkForeground (f (fg_manager w)) (default_session_model w) (fg_calls w)).
Definition get_default_model : Lm AgentModel := λ w, (Ok (default_session_model w), w).
Definition set_default_model (m : AgentModel) : Lm unit := λ w, (Ok tt, mkForeground (fg_manager w) m (fg_calls w)).

Section calls.
Context `{Hlife : !LifeHost}.

Definition lcall {A : Set} (c : LifeCall A) : Lm A := λ w,
  let n := length (fg_calls w) in
  let a := life_answer A n c in
  (Ok a, mkForeground (on_state (λ st, set_handles st (shared_handles n (handles st))) (fg_manager w))
           (default_session_model w) (fg_calls w ++ [LifeDid A c a])).

Definition lgit {A : Set} (c : LifeCall (result A GitFailure)) : Lm A := r ← lcall c; lresult r GitError.
Definition ldb {A : Set} (c : LifeCall (result A str)) : Lm A := r ← lcall c; lresult r DbError.
Definition lfs {A : Set} (c : LifeCall (result A FsFailure)) : Lm A := r ← lcall c; lresult r (λ e, FsError (FsFailure_display e)).
Definition ltry {A : Set} (c : LifeCall A) : Lm unit := _ ← lcall c; mret tt.
Definition lemit (e : LifeEvent) : Lm unit := lcall (LifeEmit e).
Definition is_reserved : Lm (SessionId → bool) := λ w, (Ok (preparation_reserved (length (fg_calls w))), w).

(** ** Lookup (access.rs) *)

Definition session_index_or_err (k : SessionId) : Lm nat :=
  i ← gets (λ self, session_index_for_id (manager_state self) k);
  match i with Some i => mret i | None => lfail NotFound end.

Definition session_or_err (k : SessionId) : Lm Session :=
  i ← session_index_or_err k;
  s ← gets (λ self, sessions (manager_state self) !! i);
  match s with Some s => mret s | None => lfail NotFound end.

Definition session_handles_or_err (k : SessionId) : Lm SessionHandles :=
  h ← gets (λ self, handle (manager_state self) k);
  match h with Some h => mret h | None => lfail HandlesNotFound end.

(** [session_at_mut]. *)
Definition update_at (i : nat) (f : Session → Session) : Lm unit :=
  modify (on_state (λ st, set_sessions st (alter f i (sessions st)))).

Definition update_handles_of (k : SessionId) (f : SessionHandles → SessionHandles) : Lm unit :=
  modify (on_state (λ st, update_handle st k f)).

Definition worktree_branch (k : SessionId) : Lm str := lexpect (session_branch k).

Definition session_worktree_folder (k : SessionId) : Lm str :=
  base ← lcall BasePath; lexpect (session_folder base k).

(** The branch of a loaded session. *)
Definition current_branch (k : SessionId) : Lm str :=
  known ← gets (λ self, session_branch_names (manager_state self) !! k);
  match known with Some branch => mret branch | None => worktree_branch k end.

(** ** Status and transcript (task.rs) *)

Definition status_of_handle (k : SessionId) : Lm SessionStatus :=
  h ← session_handles_or_err k; mret (handles_status h).

(** [StatusTransition::apply]. *)
Definition apply_status (k : SessionId) (new : SessionStatus) : Lm bool :=
  current ← status_of_handle k;
  if SessionStatus_can_transition_to current new then
    _ ← update_handles_of k (λ h, set_handle_status h new);
    _ ← ltry (PersistStatus k new);
    _ ← lemit (LifeSessionUpdated k);
    _ ← (if status_requires_full_refresh new then lemit LifeRefreshSessionsAndProjects else mret tt);
    mret true
  else mret false.

Definition append_transcript_message `{FxHasher} (k : SessionId) (kind : SessionMessageKind) (content : str) : Lm unit :=
  _ ← update_handles_of k (λ h,
        mkHandles (handles_queued_actions h) (handles_queued_messages h) (queued_work_sequence h) (handles_status h)
          (append_message (handles_transcript h) kind content) (transcript_is_hydrated h));
  _ ← ltry (AppendMessage k kind content);
  lemit (LifeSessionUpdated k).

Definition append_notice `{FxHasher} (k : SessionId) (message : str) : Lm unit :=
  append_transcript_message k WorkflowNotice message.
End calls.
