(* ===== verification/Workspace.v ===== *)
(** * Session workspaces (crates/agentty/src/app/session/workflow/isolation.rs,
    preparation.rs, lifecycle.rs)

    The worktree of a session: its creation and validation, the background
    preparation of a reserved session, the rollback of a failed creation and the
    removal of a workspace with its temporary files. *)
From stdpp Require Import gmap.
From S2P Require Import Prelude Contracts Agent Lifecycle Transcript Transient Prompt Input Session SessionState FileEntry SessionManager Flow Scheduler SessionTitle SessionCalls.

(** ** Paths *)

(** [Path::join] with a relative component. *)
Definition path_join (base component : str) : str :=
  base ++ (if ends_with base [slash] then [] else [slash]) ++ component.

(** The normal components of a path; [parent] drops the last one. *)
Definition path_components (path : str) : list str := List.filter (λ c, negb (is_empty c)) (split_char slash path).

Definition is_absolute (path : str) : bool := starts_with path [slash].

Definition path_parent (path : list str) : option (list str) :=
  match rev path with [] => None | _ :: r => Some (rev r) end.

Fixpoint list_starts_with (path root : list str) : bool :=
  match root, path with
  | [], _ => true
  | r :: root, p :: path => str_eqb r p && list_starts_with path root
  | _ :: _, [] => false
  end.

(** [Path::ends_with] a single component. *)
Definition list_ends_with (path : list str) (component : str) : bool :=
  match rev path with c :: _ => str_eqb c component | [] => false end.

(** ** Attachments below the managed root *)

(** Absolute paths are their lists of components here. *)
Definition is_managed_prompt_attachment_directory (path root : list str) : bool :=
  list_starts_with path root && list_ends_with path (L"images").

Definition is_managed_prompt_attachment_path (path root : list str) : bool :=
  match path_parent path with
  | Some parent => is_managed_prompt_attachment_directory parent root && list_starts_with path root
  | None => false
  end.

Definition managed_prompt_attachment_directory (paths : list (list str)) (root : list str) : option (list str) :=
  first ← head paths;
  image_directory ← path_parent first;
  if negb (is_managed_prompt_attachment_directory image_directory root) then None
  else if forallb (λ p, bool_decide (path_parent p = Some image_directory) && is_managed_prompt_attachment_path p root) paths
  then Some image_directory else None.

Definition path_text (components : list str) : str := [slash] ++ join [slash] components.

Section workspace.
Context `{Hlife : !LifeHost, Hfx : !FxHasher}.

Definition prompt_attachment_tmp_root : Lm str := home ← lcall AgenttyHome; mret (path_join home (L"tmp")).

Definition session_prompt_temp_directory (k : str) : Lm str :=
  root ← prompt_attachment_tmp_root; mret (path_join root k).

Fixpoint remove_managed_files (root : list str) (paths : list (list str)) : Lm unit :=
  match paths with
  | [] => mret tt
  | p :: paths =>
      _ ← (if is_managed_prompt_attachment_path p root then ltry (RemoveFile (path_text p)) else mret tt);
      remove_managed_files root paths
  end.

Definition cleanup_prompt_attachment_paths_in_root (root : list str) (paths : list (list str)) : Lm unit :=
  match paths with
  | [] => mret tt
  | _ =>
      let image_directory := managed_prompt_attachment_directory paths root in
      _ ← remove_managed_files root paths;
      match image_directory with
      | Some directory => ltry (RemoveEmptyDir (path_text directory))
      | None => mret tt
      end
  end.

Definition cleanup_prompt_attachment_paths (paths : list str) : Lm unit :=
  root ← prompt_attachment_tmp_root;
  cleanup_prompt_attachment_paths_in_root (path_components root) (path_components <$> paths).

Definition cleanup_prompt_attachment_files (prompt : TurnPrompt) : Lm unit :=
  cleanup_prompt_attachment_paths (local_image_paths prompt).

Definition cleanup_session_temp_directory (k : str) : Lm unit :=
  directory ← session_prompt_temp_directory k; ltry (RemoveTree directory).

(** ** Removal *)

Definition noted (prefix detail : str) : list str := [prefix ++ detail].

Definition cleanup_session_worktree_resources (folder branch_name : str) (repo_root : option str)
    (remove_git_resources : bool) : Lm (list str) :=
  git_errors ←
    (if remove_git_resources then
       removed ← lcall (LifeRemoveWorktree folder);
       let errors := match (removed : result unit GitFailure) with
                     | Ok _ => [] | Err e => noted (L"failed to remove worktree: ") (GitFailure_display e) end in
       match repo_root with
       | Some root =>
           deleted ← lcall (LifeDeleteBranch root branch_name);
           mret (errors ++ match (deleted : result unit GitFailure) with
                           | Ok _ => [] | Err e => noted (L"failed to delete branch: ") (GitFailure_display e) end)
       | None => mret errors
       end
     else mret []);
  removed ← lcall (RemoveTree folder);
  mret (git_errors ++ match (removed : result unit FsFailure) with
                      | Ok _ => [] | Err e => noted (L"failed to remove worktree directory: ") (FsFailure_display e) end).

(** The task that [spawn_canceled_session_cleanup] starts. *)
Definition canceled_session_cleanup (folder branch_name : str) (has_worktree : bool) (k : str) : Lm unit :=
  _ ← lcall (FinishAgentRuns k);
  _ ← (if has_worktree then
         root ← lcall (LifeMainRepoRoot folder);
         _ ← cleanup_session_worktree_resources folder branch_name (ok root) true;
         mret tt
       else mret tt);
  cleanup_session_temp_directory k.

Definition spawn_canceled_session_cleanup (folder branch_name : str) (has_worktree : bool) (k : str) : Lm unit :=
  lcall (SpawnCleanup folder branch_name has_worktree k).

Definition rollback_failed_session_creation (folder repo_root k worktree_branch : str) (session_saved has_worktree : bool)
  : Lm unit :=
  _ ← (if session_saved then ltry (DeleteRow k) else mret tt);
  _ ← (if has_worktree then
         _ ← ltry (LifeRemoveWorktree folder); ltry (LifeDeleteBranch repo_root worktree_branch)
       else mret tt);
  _ ← ltry (RemoveTree folder);
  cleanup_session_temp_directory k.

(** ** Isolation (isolation.rs) *)

Definition isolation_error (message : str) : SessionError := Workflow (L"Session isolation violation: " ++ message).

Definition canonicalize_for_isolation (path : str) : Lm str :=
  r ← lcall (Canonicalize path);
  lresult r (λ e, isolation_error (L"failed to canonicalize isolation path `" ++ path ++ L"`: " ++ FsFailure_display e)).

Definition validate_session_worktree (folder k : str) : Lm (option str) :=
  is_dir ← lcall (PathIsDir folder);
  if negb (is_dir : bool) then lfail (isolation_error (L"session worktree folder is missing: " ++ folder))
  else
    expected_branch ← worktree_branch k;
    detected ← lcall (LifeDetectBranch folder);
    match (detected : option str) with
    | None => lfail (isolation_error (L"failed to detect branch for session worktree `" ++ folder ++ L"`"))
    | Some detected_branch =>
        if negb (str_eqb detected_branch expected_branch) then
          lfail (isolation_error (L"session worktree `" ++ folder ++ L"` is on branch `" ++ detected_branch
                                    ++ L"` instead of `" ++ expected_branch ++ L"`"))
        else
          main ← lcall (LifeMainCheckout folder);
          main ← lresult main (λ e, isolation_error (L"failed to resolve main repository checkout: " ++ GitFailure_display e));
          match (main : option str) with
          | None => mret None
          | Some main_repo_root =>
              exists_ ← lcall (PathIsDir main_repo_root);
              if negb (exists_ : bool) then
                lfail (isolation_error (L"main repository checkout is missing: " ++ main_repo_root))
              else
                session_folder ← canonicalize_for_isolation folder;
                main_repo_root ← canonicalize_for_isolation main_repo_root;
                if str_eqb session_folder main_repo_root then
                  lfail (isolation_error (L"session worktree `" ++ folder ++ L"` resolves to the main repository checkout"))
                else mret (Some main_repo_root)
          end
    end.

(** ** Creation *)

Definition SESSION_DATA_DIR : str := L".agentty".

Definition create_session_worktree (k folder repo_root worktree_branch start_ref : str) : Lm unit :=
  created ← lcall (LifeCreateWorktree repo_root folder worktree_branch start_ref);
  _ ← lresult created (λ e, Workflow (L"Failed to create git worktree: " ++ GitFailure_display e));
  data ← lcall (CreateDirAll (path_join folder SESSION_DATA_DIR));
  match (data : result unit FsFailure) with
  | Ok _ => mret tt
  | Err e =>
      _ ← rollback_failed_session_creation folder repo_root k worktree_branch false true;
      lfail (Workflow (L"Failed to create session metadata directory: " ++ FsFailure_display e))
  end.

Definition setup_workspace_backend (kind : AgentKind) (folder : str) : Lm unit :=
  r ← lcall (SetupBackend kind folder); lresult r (λ e, Workflow (L"Failed to setup session backend: " ++ e)).

(** ** Preparation of a reserved session (preparation.rs) *)

Definition prepare_workspace (preparation : SessionPreparationRow) (row : SessionRowView) (kind : AgentKind) : Lm unit :=
  let k := preparation_session_id preparation in
  match row_project_id row with
  | None => lfail NotFound
  | Some project_id =>
      project ← ldb (GetProject project_id);
      match (project : option str) with
      | None => lfail NotFound
      | Some project_path =>
          folder ← session_worktree_folder k;
          exists_ ← lcall (PathExists folder);
          _ ← (if (exists_ : bool) then _ ← validate_session_worktree folder k; mret tt
               else
                 root ← lcall (LifeFindRepoRoot project_path);
                 match (root : option str) with
                 | None => lfail (Workflow (L"Failed to find git repository root"))
                 | Some repo_root =>
                     branch ← worktree_branch k;
                     create_session_worktree k folder repo_root branch (start_ref preparation)
                 end);
          _ ← setup_workspace_backend kind folder;
          match row_parent row with
          | None => mret tt
          | Some _ => hash ← lgit (LifeHeadHash folder); ldb (SetStackBase k (Some hash))
          end
      end
  end.

Definition cleanup_canceled_preparation (k : str) : Lm unit :=
  folder ← session_worktree_folder k;
  has_worktree ← lcall (PathIsDir folder);
  branch ← worktree_branch k;
  spawn_canceled_session_cleanup folder branch has_worktree k.

Definition SETUP_CANCELED : SessionError := Workflow (L"Workspace setup was canceled").

(** The provider of the stored agent and model is parsed first. *)
Definition prepare_reserved_session (k : str) : Lm unit :=
  found ← ldb (LoadPreparation k);
  match (found : option SessionPreparationRow) with
  | None => lfail NotFound
  | Some preparation =>
      match preparation_state preparation with
      | PreparationCanceled => _ ← cleanup_canceled_preparation k; lfail SETUP_CANCELED
      | Preparing =>
          row ← ldb (LoadRow k);
          match (row : option SessionRowView) with
          | None => lfail NotFound
          | Some row =>
              let selection := parse_persisted_session_agent_model (Some (row_agent row)) (row_model row) in
              r ← lattempt (prepare_workspace preparation row (kind selection));
              applied ← ldb (UpdatePreparation k (match r with Ok _ => Ready | Err _ => Failed end)
                               (match r with Ok _ => None | Err e => Some (SessionError_display e) end));
              if (applied : bool) then lresult r (λ e, e)
              else _ ← cleanup_canceled_preparation k; lfail SETUP_CANCELED
          end
      | _ => lfail (Workflow (L"Workspace setup is not active"))
      end
  end.
End workspace.
