(* ===== verification/SessionLifecycle.v ===== *)
(** * The session lifecycle (crates/agentty/src/app/session/workflow/lifecycle.rs)

    Sessions are created, drafted, forked, stacked, started, replied to, changed,
    canceled and deleted by foreground operations on the loaded sessions that await
    the database, Git and the workers in between. *)
From stdpp Require Import gmap.
From S2P Require Import Prelude Contracts Agent Lifecycle Transcript Transient Prompt Input Session SessionState Stack SessionOrder FileEntry SessionManager Flow Scheduler SessionTitle SessionCalls Workspace.

(** ** Policies *)

Inductive ReplyEligibility := EligibleStandard | EligibleQuestionAnswer.

Definition eligibility_allows (self : ReplyEligibility) (st : SessionStatus) (is_first_message : bool) : bool :=
  match self with
  | EligibleStandard =>
      allows_review_actions st || bool_decide (st = Question) || is_first_message && bool_decide (st = Draft)
  | EligibleQuestionAnswer => match st with InProgress | Question => true | _ => false end
  end.

Inductive CancellationCapability := CancelByUser | CancelManaged | CancelDescendant.

Definition capability_allows (self : CancellationCapability) (s : Session) : bool :=
  match self with
  | CancelByUser => allows_cancel_action s
  | CancelManaged =>
      allows_cancel_action s
      || is_managed s && (is_status s Draft || is_status s InProgress || allows_review_actions (status s))
  | CancelDescendant => negb (is_status s Canceled) && SessionStatus_can_transition_to (status s) Canceled
  end.

Inductive ReplyPromptPresentation := PromptVisible | PromptHiddenAgent.

Definition presentation_kind (self : ReplyPromptPresentation) : SessionMessageKind :=
  match self with PromptVisible => UserPrompt | PromptHiddenAgent => AgentPrompt end.
Definition presentation_visible (self : ReplyPromptPresentation) : bool :=
  match self with PromptVisible => true | PromptHiddenAgent => false end.

Record ReplyOptions := mkReplyOptions {
  defer_prompt_until_enqueued : bool;
  eligibility : ReplyEligibility;
  reply_operation_id : option str;
  persist_prompt : bool;
  prompt_presentation : ReplyPromptPresentation;
  requires_existing_worker : bool;
  reply_review_comment_thread_ids : list str
}.

Definition options_standard (threads : list str) : ReplyOptions :=
  mkReplyOptions false EligibleStandard None true PromptVisible false threads.
Definition options_question_answer (requires_existing_worker : bool) : ReplyOptions :=
  mkReplyOptions true EligibleQuestionAnswer None true PromptVisible requires_existing_worker [].
Definition options_coordinator (operation_id : str) (persist_prompt : bool) : ReplyOptions :=
  mkReplyOptions true EligibleStandard (Some operation_id) persist_prompt PromptVisible false [].
Definition options_review_comments (threads : list str) : ReplyOptions :=
  mkReplyOptions false EligibleStandard None true PromptHiddenAgent false threads.

Inductive ReplyEnqueueOutcome := AlreadyAccepted | Enqueued | EnqueueFailed.

(** ** Prompt texts *)

Definition USER_PROMPT_PREFIX : str := L" › ".
Definition USER_PROMPT_CONTINUATION_PREFIX : str := L"   ".

Definition prompt_block (text : str) : str :=
  join [newline] (imap (λ i line, (if i =? 0 then USER_PROMPT_PREFIX else USER_PROMPT_CONTINUATION_PREFIX) ++ line)
                    (split_char newline text)).

Definition formatted_prompt_output (prompt : TurnPrompt) (prepend_newline : bool) : str :=
  (if prepend_newline then [newline] else []) ++ prompt_block (transcript_text prompt) ++ [newline; newline].

Definition replace_first (haystack needle replacement : str) : str :=
  match split_once haystack needle with
  | None => haystack
  | Some (before, after) => before ++ replacement ++ after
  end.

Definition image_placeholder (n : nat) : str := L"[Image #" ++ display_nat n ++ L"]".

Definition renumbered_prompt_text (prompt : TurnPrompt) (next_attachment_number : nat) : str :=
  fold_left (λ text '(offset, a), replace_first text (placeholder a) (image_placeholder (next_attachment_number + offset)))
    (imap pair (attachments prompt)) (prompt_text prompt).

Definition renumbered_attachments (prompt : TurnPrompt) (next_attachment_number : nat) : list TurnPromptAttachment :=
  imap (λ offset a, mkAttachment (local_image_path a) (image_placeholder (next_attachment_number + offset)))
    (attachments prompt).

Definition append_staged_prompt (existing_prompt : str) (prompt : TurnPrompt) (next_attachment_number : nat) : str :=
  let staged_prompt := renumbered_prompt_text prompt next_attachment_number in
  if is_empty existing_prompt then staged_prompt else existing_prompt ++ [newline; newline] ++ staged_prompt.

Definition uses_persistent_session (kind : AgentKind) : bool := match kind with Claude => false | _ => true end.

Definition preparation_operation_id (k : str) : str := L"workspace:" ++ k.

(** ** Descendants *)

Fixpoint descendant_ids_loop (fuel : nat) (ss : list Session) (ancestors descendants : list SessionId)
  : option (list SessionId) :=
  match fuel with
  | O => None
  | S fuel =>
      let next := id <$> List.filter (λ s, match parent_session_id s with
                                          | Some p => bool_decide (p ∈ ancestors) && negb (bool_decide (id s ∈ descendants))
                                          | None => false
                                          end) ss in
      match next with
      | [] => Some descendants
      | _ => descendant_ids_loop fuel ss (ancestors ++ next) (descendants ++ next)
      end
  end.

Definition stacked_descendant_session_ids (ss : list Session) (parent : SessionId) : option (list SessionId) :=
  descendant_ids_loop (S (length ss)) ss [parent] [].

(** The active project. *)
Record ActiveProject := mkActiveProject { git_branch : option str; active_project_id : Z; working_dir : str }.

Section lifecycle.
Context `{Hlife : !LifeHost, Hfx : !FxHasher}.

(** ** Gates *)

Definition has_competing_preparation (ss : list Session) (reserved : SessionId → bool) (k : SessionId) : bool :=
  has_reserved_branch_work_in_stack ss k (λ candidate, negb (str_eqb candidate k) && reserved candidate).

Definition gate (f : list Session → (SessionId → bool) → bool) : Lm bool :=
  ss ← gets (λ self, sessions (manager_state self)); reserved ← is_reserved; mret (f ss reserved).

Definition can_retry_workspace_preparation (k : SessionId) : Lm bool := gate (λ _ reserved, negb (reserved k)).

Definition lifecycle_can_start_staged (k : SessionId) : Lm bool :=
  gate (λ ss reserved, can_start_staged_session_in_stack ss k && negb (reserved k) && negb (has_competing_preparation ss reserved k)).

Definition lifecycle_can_mutate (k : SessionId) : Lm bool :=
  ss ← gets (λ self, sessions (manager_state self)); reserved ← is_reserved;
  allowed ← lexpect (can_mutate_session_branch_in_stack ss k);
  mret ((allowed : bool) && negb (has_competing_preparation ss reserved k)).

Definition lifecycle_can_merge (k : SessionId) : Lm bool :=
  gate (λ ss reserved, can_merge_session_branch_in_stack ss k && negb (has_competing_preparation ss reserved k)).

Definition lifecycle_can_rebase (k : SessionId) : Lm bool :=
  gate (λ ss reserved, can_rebase_session_branch_in_stack ss k && negb (has_competing_preparation ss reserved k)).

Definition lifecycle_can_reply (k : SessionId) : Lm bool :=
  gate (λ ss reserved, can_reply_to_session_in_stack ss k && negb (has_competing_preparation ss reserved k)).

(** ** Selection *)

Definition selected_session (self : SessionManager) : option Session :=
  i ← selected (manager_state self); sessions (manager_state self) !! i.

Definition select (i : option nat) : Lm unit :=
  match i with
  | None => mret tt
  | Some i =>
      modify (on_state (λ st,
        mkSessionState (follow_up_task_positions st) (row_count st) (session_branch_names st) (session_git_statuses st)
          (session_index_by_id st) (session_worktree_availability st) (sessions st) (Some i) (updated_at_max st)
          (handles st)))
  end.

Definition next : Lm unit :=
  st ← gets manager_state; i ← lexpect (next_selectable_session_index (sessions st) (selected st)); select i.

Definition previous : Lm unit :=
  st ← gets manager_state; i ← lexpect (previous_selectable_session_index (sessions st) (selected st)); select i.

Definition review_request_web_url (k : SessionId) : Lm str :=
  s ← session_or_err k;
  match review_request s with
  | None => lfail (Workflow (L"Session has no linked review request"))
  | Some r => url ← lcall (ReviewRequestUrl r); lresult url Workflow
  end.

(** ** Creation *)

Definition project_path_of (project_id : Z) : Lm str :=
  project ← ldb (GetProject project_id);
  match (project : option str) with
  | Some path => mret path
  | None => lfail (Workflow (L"Project with id `" ++ display_Z project_id ++ L"` was not found"))
  end.

Definition required_project_id (k : SessionId) (message : str) : Lm Z :=
  project ← ldb (LoadProjectId k);
  match (project : option Z) with Some p => mret p | None => lfail (Workflow message) end.

Definition load_session_repo_root (k : SessionId) : Lm str :=
  project_id ← required_project_id k (L"Session project is required to create a worktree");
  project_path ← project_path_of project_id;
  root ← lcall (LifeFindRepoRoot project_path);
  match (root : option str) with
  | Some root => mret root
  | None => lfail (Workflow (L"Failed to find git repository root"))
  end.

Definition record_session_creation_activity (k : SessionId) : Lm unit :=
  now ← lcall NowSeconds; ltry (RecordCreation k (unix_timestamp_from_system_time now)).

Definition resolve_default_session_agent (project_id : Z) : Lm AgentSelection :=
  kinds ← lcall AvailableAgentKinds;
  let fallback_agent_kind := default Antigravity (head kinds) in
  default_model ← get_default_model;
  lcall (LoadDefaultSmartAgent project_id (resolve_agent_selection_for_model default_model fallback_agent_kind kinds)).

Definition resolve_session_creation_settings (project_id : Z) (settings : option SessionCreationSettings)
  : Lm SessionCreationSettings :=
  match settings with
  | Some settings => mret settings
  | None =>
      agent ← resolve_default_session_agent project_id;
      reasoning_level ← ldb (LoadReasoningLevel project_id DefaultSmartReasoningLevel);
      response_style ← ldb (LoadResponseStyle project_id DefaultResponseStyle);
      speed_mode ← ldb (LoadSpeedMode project_id DefaultSmartSpeedMode);
      let speed_mode := if supports_speed_mode (kind agent) then speed_mode else Normal in
      let agent := compatible_with_speed_mode agent speed_mode in
      _ ← set_default_model (model agent);
      mret (mkCreationSettings agent AutoEdit None reasoning_level response_style Worker speed_mode)
  end.

Definition folder_exists_error (k : str) : SessionError := Workflow (L"Session folder " ++ k ++ L" already exists").

Definition create_draft_session_for_project_with_parent (project_id : Z) (base_branch : str) (parent : option str)
    (settings : option SessionCreationSettings) : Lm str :=
  settings ← resolve_session_creation_settings project_id settings;
  k ← lcall NewUuid;
  folder ← session_worktree_folder k;
  exists_ ← lcall (PathExists folder);
  if (exists_ : bool) then lfail (folder_exists_error k)
  else
    inserted ← lcall (InsertSession (mkCreation k base_branch true None parent project_id (settings_role settings) settings Draft));
    _ ← lresult inserted (λ e, Workflow (L"Failed to save session metadata: " ++ e));
    _ ← record_session_creation_activity k;
    mret k.

Definition create_draft_session (projects : ActiveProject) : Lm str :=
  match git_branch projects with
  | None => lfail (Workflow (L"Git branch is required to create a session"))
  | Some base_branch => create_draft_session_for_project_with_parent (active_project_id projects) base_branch None None
  end.

Definition create_stacked_draft_session (parent : SessionId) (settings : option SessionCreationSettings) : Lm str :=
  parent_session ← session_or_err parent;
  allowed ← gate (λ ss _, can_create_stacked_child ss parent);
  if negb (allowed : bool) then
    lfail (Workflow (L"Stacked sessions require an active materialized parent below the five-level stack limit"))
  else
    base_branch ← current_branch (id parent_session);
    project_id ← required_project_id (id parent_session)
                   (L"Parent session has no project association for stacked draft creation");
    create_draft_session_for_project_with_parent project_id base_branch (Some (id parent_session)) settings.

Definition reserve_session (project_id : Z) (base_branch : str) (settings : SessionCreationSettings)
    (creation_kind : SessionCreationKind) : Lm str :=
  k ← lcall NewUuid;
  _ ← ldb (ReserveSession (mkCreation k base_branch false (orchestration_task_id creation_kind) None project_id
                             (creation_role creation_kind) settings Draft));
  _ ← record_session_creation_activity k;
  mret k.

(** The shared end of a synchronous creation: prepare, or roll everything back. *)
Definition prepare_or_roll_back (k repo_root : str) (undo : Lm unit) : Lm str :=
  prepared ← lattempt (prepare_reserved_session k);
  match prepared with
  | Ok _ => _ ← lemit LifeRefreshSessionsAndProjects; mret k
  | Err error =>
      folder ← session_worktree_folder k;
      has_worktree ← lcall (PathIsDir folder);
      branch ← worktree_branch k;
      _ ← rollback_failed_session_creation folder repo_root k branch true has_worktree;
      _ ← undo;
      lfail error
  end.

Definition materialize_session (project_id : Z) (base_branch working_dir : str) (settings : SessionCreationSettings)
    (creation_kind : SessionCreationKind) : Lm str :=
  k ← reserve_session project_id base_branch settings creation_kind;
  prepare_or_roll_back k working_dir (mret tt).

Definition create_session_for_project (project_id : Z) (base_branch working_dir : str)
    (settings : option SessionCreationSettings) (creation_kind : SessionCreationKind) : Lm str :=
  settings ← resolve_session_creation_settings project_id settings;
  materialize_session project_id base_branch working_dir settings creation_kind.

Definition create_session (projects : ActiveProject) : Lm str :=
  match git_branch projects with
  | None => lfail (Workflow (L"Git branch is required to create a session"))
  | Some base_branch =>
      create_session_for_project (active_project_id projects) base_branch (working_dir projects) None CreateWorker
  end.

Definition reserve_fork_session_with_repo_root (source : SessionId) : Lm (str * str) :=
  source_session ← session_or_err source;
  if negb (allows_fork_action source_session) then lfail (Workflow (L"Only root review-ready sessions can be forked"))
  else
    source_branch ← current_branch (id source_session);
    _ ← required_project_id source (L"Source session has no project association for session forking");
    repo_root ← load_session_repo_root source;
    k ← lcall NewUuid;
    folder ← session_worktree_folder k;
    exists_ ← lcall (PathExists folder);
    if (exists_ : bool) then lfail (folder_exists_error k)
    else
      start_ref ← lgit (LifeRefHash repo_root source_branch);
      _ ← ldb (ReserveFork k source Review start_ref);
      _ ← record_session_creation_activity k;
      _ ← modify (λ self, mark_history_replay_pending self k);
      mret (k, repo_root).

Definition reserve_fork_session (source : SessionId) : Lm str :=
  reserved ← reserve_fork_session_with_repo_root source; mret (fst reserved).

Definition fork_session (source : SessionId) : Lm str :=
  reserved ← reserve_fork_session_with_repo_root source;
  let '(k, repo_root) := reserved in
  prepare_or_roll_back k repo_root (modify (λ self, clear_history_replay_pending self k)).

(** ** Stacks *)

Definition set_stack_place (k : SessionId) (base : str) (parent : option SessionId) : Lm unit :=
  modify (on_state (λ st, update_found st k (λ s, set_parent (set_base_branch s base) parent))).

Definition append_session_to_stack (k parent : SessionId) : Lm unit :=
  allowed ← gate (λ ss reserved,
    can_append_session_to_stack ss k parent && negb (has_competing_preparation ss reserved k)
    && negb (has_reserved_branch_work_in_stack ss parent reserved));
  if negb (allowed : bool) then
    lfail (Workflow (L"Append to stack requires an independent Review or AgentReview session and an idle review-ready parent"))
  else
    session ← session_or_err k;
    parent_session ← session_or_err parent;
    parent_branch ← current_branch (id parent_session);
    let old_base_branch := base_branch session in
    let old_parent := parent_session_id session in
    old_hash ← ldb (GetStackBase k);
    _ ← ldb (SetStackMembership k (Some parent) parent_branch old_hash);
    _ ← set_stack_place k parent_branch (Some parent);
    rebased ← lcall (StartRebase k);
    match (rebased : result unit SessionError) with
    | Ok _ => lemit LifeRefreshSessionsAndProjects
    | Err error =>
        _ ← ldb (SetStackMembership k old_parent old_base_branch old_hash);
        _ ← set_stack_place k old_base_branch old_parent;
        lfail error
    end.

(** ** Drafts *)

Definition STAGED_DRAFT_ATTACHMENT_FILE : str := L"draft_attachment.json".

Definition store_staged_draft_attachments (k : str) (staged : list TurnPromptAttachment) : Lm unit :=
  base ← lcall BasePath;
  let data_dir := path_join (path_join base k) SESSION_DATA_DIR in
  let attachment_path := path_join data_dir STAGED_DRAFT_ATTACHMENT_FILE in
  match staged with
  | [] =>
      _ ← lfs (RemoveFile attachment_path);
      is_dir ← lcall (PathIsDir data_dir);
      if (is_dir : bool) then lfs (RemoveTree data_dir) else mret tt
  | _ =>
      _ ← lfs (CreateDirAll data_dir);
      lfs (WriteAttachments attachment_path staged)
  end.

Definition persist_staged_draft (k : str) (staged : list TurnPromptAttachment) (staged_prompt : str) (title : option str)
  : Lm unit :=
  _ ← store_staged_draft_attachments k staged;
  _ ← ldb (SetPromptColumn k staged_prompt);
  match title with Some title => ldb (SetProvisionalTitle k title) | None => mret tt end.

Definition draft_title_input (project_id : Z) (session_agent : AgentSelection) (folder k staged_prompt : str)
  : Lm TitleTaskInput :=
  project_dir ← project_path_of project_id;
  agent ← lcall (LoadDefaultFastAgent project_id session_agent);
  reasoning ← ldb (LoadReasoningLevel project_id DefaultFastReasoningLevel);
  speed ← ldb (LoadSpeedMode project_id DefaultFastSpeedMode);
  let speed := if supports_speed_mode (kind agent) then speed else Normal in
  is_dir ← lcall (PathIsDir folder);
  mret (mkTitleInput (if (is_dir : bool) then folder else project_dir) staged_prompt reasoning false
          (compatible_with_speed_mode agent speed) k speed None).

Definition finished_task (task : option Z) : Lm (Z → bool) :=
  match task with
  | Some t => f ← lcall (TaskFinished t); mret (λ _, f)
  | None => mret (λ _, false)
  end.

Definition running_title_task (k : SessionId) : Lm (Z → bool) :=
  t ← gets (λ self, title_task <$> title_generation_tasks self !! k); finished_task t.

Definition track_draft_title_generation_task (k : SessionId) (generation : Z) (task : option Z) : Lm unit :=
  finished ← running_title_task k;
  match task with
  | Some task => modify (λ self, replace_title_generation_task self finished k generation task)
  | None => modify (λ self, abort_title_generation_task self finished k)
  end.

Definition stage_draft_message (k : SessionId) (prompt : TurnPrompt) : Lm unit :=
  i ← session_index_or_err k;
  s ← session_or_err k;
  if negb (is_draft_session s) then lfail (Workflow (L"Only draft sessions can stage drafts"))
  else if negb (is_status s Draft) then lfail (Workflow (L"Only `Draft` sessions can stage drafts"))
  else
    let next_attachment_number := S (length (draft_attachments s)) in
    let staged_prompt := append_staged_prompt (Session.prompt s) prompt next_attachment_number in
    let staged := draft_attachments s ++ renumbered_attachments prompt next_attachment_number in
    let title_to_save := match title s with None => Some (transcript_text prompt) | Some _ => None end in
    project_id ← required_project_id (id s) (L"Session project is required to stage draft prompts");
    input ← draft_title_input project_id (agent s) (folder s) (id s) staged_prompt;
    _ ← persist_staged_draft (id s) staged staged_prompt title_to_save;
    _ ← update_at i (λ s, let s := set_draft_attachments (set_prompt s staged_prompt) staged in
                          match title_to_save with Some t => set_title s (Some t) | None => s end);
    generation ← gets (λ self, next_title_generation_task_generation self (id s));
    task ← lcall (SpawnTitleTask (mkTitleInput (task_folder input) staged_prompt (task_reasoning_level input) false
                                    (task_agent input) (id s) (task_speed_mode input) (Some generation)));
    _ ← track_draft_title_generation_task (id s) generation task;
    lemit (LifeSessionUpdated (id s)).

(** ** Start *)

Definition persist_stack_base (folder : str) (parent : option SessionId) (k : str) : Lm unit :=
  match parent with
  | None => mret tt
  | Some _ => hash ← lgit (LifeHeadHash folder); ldb (SetStackBase k (Some hash))
  end.

Definition worktree_available (k : SessionId) : Lm unit :=
  modify (on_state (λ st, set_session_worktree_available st k true)).

Definition ensure_session_worktree_ready (k : SessionId) : Lm unit :=
  preparation ← ldb (LoadPreparation k);
  match (preparation : option SessionPreparationRow) with
  | Some row =>
      if bool_decide (preparation_state row = Ready) then worktree_available k
      else lfail (Workflow (L"Session workspace is not ready"))
  | None =>
      s ← session_or_err k;
      if negb (is_draft_session s) then mret tt
      else
        branch ← worktree_branch (id s);
        is_dir ← lcall (PathIsDir (folder s));
        if (is_dir : bool) then
          _ ← validate_session_worktree (folder s) (id s);
          _ ← setup_workspace_backend (kind (agent s)) (folder s);
          _ ← persist_stack_base (folder s) (parent_session_id s) (id s);
          worktree_available k
        else
          repo_root ← load_session_repo_root k;
          _ ← create_session_worktree (id s) (folder s) repo_root branch (base_branch s);
          setup ← lcall (SetupBackend (kind (agent s)) (folder s));
          match (setup : result unit str) with
          | Err error =>
              cleanup_errors ← cleanup_session_worktree_resources (folder s) branch (Some repo_root) true;
              lfail (Workflow (L"Failed to setup session backend: " ++ error
                ++ match cleanup_errors with
                   | [] => []
                   | _ => L". Cleanup also failed: " ++ join (L"; ") cleanup_errors
                   end))
          | Ok _ =>
              _ ← persist_stack_base (folder s) (parent_session_id s) (id s);
              worktree_available k
          end
  end.

Definition clear_session_draft_flag (k : SessionId) : Lm unit :=
  s ← session_or_err k;
  if negb (is_draft_session s) then mret tt
  else
    _ ← ldb (ClearDraftFlag k);
    i ← session_index_or_err k;
    update_at i (λ s, set_is_draft s false).

Definition persist_first_message_metadata (k prompt title : str) : Lm unit :=
  _ ← ltry (SetProvisionalTitle k title); ltry (SetPromptColumn k prompt).

Definition start_session (k : SessionId) (prompt : TurnPrompt) : Lm unit :=
  _ ← ensure_session_worktree_ready k;
  i ← session_index_or_err k;
  s ← session_or_err k;
  preparation ← ldb (LoadPreparation k);
  let has_saved_prompt := match preparation with Some row => bool_decide (is_Some (preparation_prompt row)) | None => false end in
  operation_id ← (if has_saved_prompt then mret (preparation_operation_id k) else lcall NewUuid);
  let command := Run operation_id SessionStart None prompt (mkTurnMetadata None [] (agent s)) in
  gated ← lcall (EnqueueGated (id s) command);
  match (gated : result unit SessionError) with
  | Err error =>
      _ ← (if has_saved_prompt then mret tt else cleanup_prompt_attachment_files prompt);
      lfail error
  | Ok _ =>
      _ ← update_at i (λ s, set_title (set_prompt s (prompt_text prompt)) (Some (prompt_text prompt)));
      _ ← session_handles_or_err (id s);
      _ ← persist_first_message_metadata (id s) (prompt_text prompt) (prompt_text prompt);
      _ ← (if has_saved_prompt then mret tt
           else
             _ ← append_transcript_message (id s) UserPrompt (transcript_text prompt);
             _ ← modify (λ self, set_active_prompt_output self (id s) (formatted_prompt_output prompt false));
             _ ← apply_status (id s) InProgress;
             mret tt);
      _ ← (if has_saved_prompt then mret tt else _ ← lattempt (clear_session_draft_flag k); mret tt);
      lcall (OpenGate (id s))
  end.

Definition clear_started_draft_attachments (k : SessionId) : Lm unit :=
  found ← lattempt (session_index_or_err k);
  _ ← (match found with Ok i => update_at i (λ s, set_draft_attachments s []) | Err _ => mret tt end);
  _ ← lattempt (store_staged_draft_attachments k []);
  mret tt.

Definition start_staged_session (k : SessionId) : Lm unit :=
  s ← session_or_err k;
  if negb (is_draft_session s) then lfail (Workflow (L"Only draft sessions can be started from staged drafts"))
  else if negb (is_status s Draft) then lfail (Workflow (L"Only `Draft` sessions can be started from staged drafts"))
  else if is_empty (Session.prompt s) then lfail (Workflow (L"Stage at least one draft before starting the session"))
  else
    allowed ← lifecycle_can_start_staged k;
    if negb (allowed : bool) then
      lfail (Workflow (L"Stacked sessions can only start when their parent is in review and the stack has no other active branch work"))
    else
      _ ← start_session k (mkPrompt (draft_attachments s) (Session.prompt s) SourceUserPrompt);
      clear_started_draft_attachments k.

(** ** Replies *)

Definition append_reply_prompt_line (k : SessionId) (prompt : TurnPrompt) (presentation : ReplyPromptPresentation)
  : Lm unit :=
  _ ← append_transcript_message k (presentation_kind presentation) (transcript_text prompt);
  if presentation_visible presentation
  then modify (λ self, set_active_prompt_output self k (formatted_prompt_output prompt true))
  else mret tt.

Definition append_reply_status_error (k : SessionId) (error : SessionError) : Lm unit :=
  handles ← lattempt (session_handles_or_err k);
  match handles with
  | Ok _ => append_notice k (format_notice NoticeReplyError (SessionError_display error))
  | Err _ => mret tt
  end.

(** The transcript to replay, whether this is the first message, and its title. *)
Definition prepare_reply_context (k : SessionId) (prompt : TurnPrompt) (should_replay : bool)
    (reply_eligibility : ReplyEligibility) : Lm (option str * bool * SessionId * option str) :=
  i ← session_index_or_err k;
  allowed ← lifecycle_can_reply k;
  if negb (allowed : bool) then lfail (Workflow (L"Stacked replies can only run when no other stack session is active"))
  else
    s ← session_or_err k;
    let is_first_message := is_status s Draft && is_empty (Session.prompt s) in
    if negb (eligibility_allows reply_eligibility (status s) is_first_message) then
      lfail (Workflow (L"Session must be in review status"))
    else
      _ ← (if is_first_message
           then update_at i (λ s, set_title (set_prompt s (prompt_text prompt)) (Some (prompt_text prompt)))
           else mret tt);
      replay ← (if negb is_first_message && (should_replay || uses_persistent_session (kind (agent s))) then
                  match transcript s with Some t => lexpect (replay_text t) | None => mret None end
                else mret None);
      mret (replay, is_first_message, id s, if is_first_message then Some (prompt_text prompt) else None).

Definition persist_initial_reply_metadata (k : SessionId) (prompt : str) (title : option str) : Lm unit :=
  match title with
  | None => mret tt
  | Some title =>
      _ ← persist_first_message_metadata k prompt title;
      _ ← apply_status k InProgress;
      mret tt
  end.

Definition build_session_command (operation_id : str) (is_first_message : bool) (prompt : TurnPrompt)
    (published_upstream_ref replay_transcript : option str) (threads : list str) (session_agent : AgentSelection) : Command :=
  Run operation_id (if is_first_message then SessionStart else SessionResume) replay_transcript prompt
    (mkTurnMetadata published_upstream_ref threads session_agent).

Definition enqueue_reply_command (k : SessionId) (prompt : TurnPrompt) (command : Command)
    (idempotent report_failure_in_transcript requires_existing_worker : bool) : Lm ReplyEnqueueOutcome :=
  enqueue_result ←
    (if idempotent then lcall (EnqueueIdempotent k command)
     else if requires_existing_worker then
       r ← lcall (EnqueueExisting k command);
       mret (match (r : result Z SessionError) with Ok _ => Ok true | Err e => Err e end)
     else
       r ← lcall (Enqueue k command);
       mret (match (r : result unit SessionError) with Ok _ => Ok true | Err e => Err e end));
  match (enqueue_result : result bool SessionError) with
  | Ok newly_enqueued => mret (if (newly_enqueued : bool) then Enqueued else AlreadyAccepted)
  | Err error =>
      _ ← (if is_preparation_prompt command k then mret tt else cleanup_prompt_attachment_files prompt);
      _ ← (if report_failure_in_transcript then append_notice k (format_notice NoticeReplyError (SessionError_display error))
           else mret tt);
      mret EnqueueFailed
  end.

Definition is_failed (outcome : ReplyEnqueueOutcome) : bool := match outcome with EnqueueFailed => true | _ => false end.
Definition is_enqueued (outcome : ReplyEnqueueOutcome) : bool := match outcome with Enqueued => true | _ => false end.

(** The reply after its context was accepted. *)
Definition reply_prepared (prompt : TurnPrompt) (session_agent : AgentSelection) (options : ReplyOptions)
    (should_replay : bool) (context : option str * bool * SessionId * option str) : Lm bool :=
  let '(replay_transcript, is_first_message, k, title_to_save) := context in
  handles ← lattempt (session_handles_or_err k);
  match handles with
  | Err _ => mret false
  | Ok _ =>
      _ ← persist_initial_reply_metadata k (prompt_text prompt) title_to_save;
      _ ← (if persist_prompt options && negb (defer_prompt_until_enqueued options)
           then append_reply_prompt_line k prompt (prompt_presentation options) else mret tt);
      upstream ← lattempt (session_or_err k);
      operation_id ← (match reply_operation_id options with Some o => mret o | None => lcall NewUuid end);
      let command := build_session_command operation_id is_first_message prompt
                       (match upstream with Ok s => published_upstream_ref s | Err _ => None end)
                       replay_transcript (reply_review_comment_thread_ids options) session_agent in
      let preparation_owned := is_preparation_prompt command k in
      enqueued ← enqueue_reply_command k prompt command (bool_decide (is_Some (reply_operation_id options)))
                   (negb (defer_prompt_until_enqueued options)) (requires_existing_worker options);
      _ ← (if is_enqueued enqueued && defer_prompt_until_enqueued options && persist_prompt options && negb preparation_owned
           then append_reply_prompt_line k prompt (prompt_presentation options) else mret tt);
      _ ← (if negb (is_failed enqueued) && should_replay then modify (λ self, clear_history_replay_pending self k)
           else mret tt);
      mret (negb (is_failed enqueued))
  end.

Definition reply_impl (k : SessionId) (prompt : TurnPrompt) (session_agent : AgentSelection) (options : ReplyOptions)
  : Lm bool :=
  pending ← gets (λ self, should_replay_history self k);
  let should_replay :=
    pending || match reply_operation_id options with Some o => str_eqb o (preparation_operation_id k) | None => false end in
  context ← lattempt (prepare_reply_context k prompt should_replay (eligibility options));
  match context with
  | Err error => _ ← append_reply_status_error k error; mret false
  | Ok context => reply_prepared prompt session_agent options should_replay context
  end.

(** A reply to a loaded session, unless [blocked]. *)
Definition reply_with (k : SessionId) (prompt : TurnPrompt) (blocked : Session → bool) (options : Session → ReplyOptions)
  : Lm bool :=
  found ← lattempt (session_or_err k);
  match found with
  | Err _ => mret false
  | Ok s => if blocked s then mret false else reply_impl k prompt (agent s) (options s)
  end.

Definition read_only (s : Session) : bool := SessionStatus_is_read_only (status s).

Definition reply (k : SessionId) (prompt : TurnPrompt) : Lm bool :=
  reply_with k prompt read_only (λ _, options_standard []).

Definition reply_to_question_answers (k : SessionId) (prompt : TurnPrompt) : Lm bool :=
  reply_with k prompt (λ _, false) (λ s, options_question_answer (is_status s InProgress)).

Definition reply_to_coordinator_message (k : SessionId) (operation_id : str) (persist : bool) (prompt : TurnPrompt) : Lm bool :=
  reply_with k prompt (λ _, false) (λ _, options_coordinator operation_id persist).

Definition reply_to_review_comments (k : SessionId) (prompt : TurnPrompt) (threads : list str) : Lm bool :=
  reply_with k prompt read_only (λ _, options_review_comments threads).

Definition enqueue_message (k : SessionId) (prompt : TurnPrompt) : Lm unit :=
  if TurnPrompt_is_empty prompt then lfail (Workflow (L"Cannot queue an empty chat message"))
  else
    s ← session_or_err k;
    if read_only s then lfail (Workflow (L"Merged sessions cannot queue chat messages"))
    else
      _ ← session_handles_or_err k;
      _ ← update_handles_of k (λ h,
            let '(order, h) := Session.next_queued_work_order h in
            mkHandles (handles_queued_actions h) (handles_queued_messages h ++ [QueuedMessage_new order prompt])
              (queued_work_sequence h) (handles_status h) (handles_transcript h) (transcript_is_hydrated h));
      _ ← modify (on_state (λ st, sync_session_from_handle st k));
      lemit (LifeSessionUpdated k).

(** ** Settings of a session *)

(** Reasoning level, response style, permission mode, speed mode, personality. *)
Definition set_session_setting (k : SessionId) (update : SettingUpdate) : Lm unit :=
  _ ← session_index_or_err k;
  _ ← ldb (PersistSetting k update);
  lemit (LifeSettingUpdated k update).

Definition parse_bool (s : str) : option bool :=
  if str_eqb s (L"true") then Some true else if str_eqb s (L"false") then Some false else None.

Definition should_persist_last_used_model_as_default (project_id : option Z) : Lm bool :=
  match project_id with
  | None => mret false
  | Some p =>
      setting ← ldb (LoadSetting p LastUsedModelAsDefault);
      mret (match (setting : option str) with Some v => default false (parse_bool v) | None => false end)
  end.

(** The paused worker resumes when the pause is dropped, on every failure. *)
Definition set_session_model_with_default_persistence (k : SessionId) (session_agent : AgentSelection)
    (persist_last_used_model_as_default : bool) : Lm unit :=
  i ← session_index_or_err k;
  s ← gets (λ self, sessions (manager_state self) !! i);
  let agent_changed := match s with Some s => negb (bool_decide (agent s = session_agent)) | None => false end in
  let model_changed := match s with Some s => negb (bool_decide (model (agent s) = model session_agent)) | None => false end in
  paused ← (if agent_changed then lcall (PauseWorker k) else mret false);
  default_project ←
    (if persist_last_used_model_as_default then
       project_id ← ldb (LoadProjectId k);
       persist ← should_persist_last_used_model_as_default project_id;
       mret (if (persist : bool) then project_id else None)
     else mret None);
  _ ← ldb (ApplyAgentModel k session_agent agent_changed default_project);
  _ ← (if (paused : bool) then _ ← lcall (ClearWorker k); lcall (ShutdownPausedWorker k) else mret tt);
  _ ← lemit (LifeModelUpdated k session_agent);
  if agent_changed || model_changed then modify (λ self, mark_history_replay_pending self k) else mret tt.

Definition set_session_model (k : SessionId) (session_agent : AgentSelection) : Lm unit :=
  set_session_model_with_default_persistence k session_agent true.

Definition set_session_model_for_speed_mode (k : SessionId) (session_agent : AgentSelection) : Lm unit :=
  set_session_model_with_default_persistence k session_agent false.

Definition store_review_request (i : nat) (r : ReviewRequest) : Lm ReviewRequest :=
  s ← gets (λ self, sessions (manager_state self) !! i);
  match s with
  | None => lfail NotFound
  | Some s => _ ← ldb (PersistReviewRequest (id s) r); _ ← update_at i (λ s, set_review_request s (Some r)); mret r
  end.

Definition build_review_request (summary : ReviewRequestSummary) : Lm ReviewRequest :=
  now ← lcall NowSeconds; mret (mkReviewRequest (unix_timestamp_from_system_time now) summary).

Definition store_review_request_summary (k : SessionId) (summary : ReviewRequestSummary) : Lm ReviewRequest :=
  i ← session_index_or_err k; r ← build_review_request summary; store_review_request i r.

Definition append_output_for_session (k : SessionId) (output : str) : Lm unit :=
  found ← lattempt (s ← session_or_err k; _ ← session_handles_or_err k; mret s);
  match found with Ok s => append_notice (id s) output | Err _ => mret tt end.

(** ** Cancellation *)

Definition signal_session_cancellation (k : SessionId) : Lm unit :=
  _ ← ltry (RequestCancelOperations k);
  _ ← update_handles_of k (λ h,
        clear_queued_actions (mkHandles (handles_queued_actions h) [] (queued_work_sequence h) (handles_status h)
                                (handles_transcript h) (transcript_is_hydrated h)));
  lcall (FireCancelToken k).

Definition cancel_single_session (k : SessionId) (capability : CancellationCapability) : Lm bool :=
  s ← session_or_err k;
  if negb (capability_allows capability s) then
    match capability with
    | CancelDescendant => mret false
    | _ => lfail (Workflow (L"Session is not cancelable in its current state"))
    end
  else
    branch_name ← worktree_branch (id s);
    _ ← session_handles_or_err k;
    _ ← lcall (CancelAgentRuns k);
    _ ← signal_session_cancellation k;
    status_updated ← apply_status k Canceled;
    preparation_owns_cleanup ← ldb (CancelPreparation k);
    _ ← (if (status_updated : bool) && negb (preparation_owns_cleanup : bool) then
           has_worktree ← lcall (PathIsDir (folder s));
           spawn_canceled_session_cleanup (folder s) branch_name has_worktree k
         else mret tt);
    mret status_updated.

Fixpoint cancel_each (ks : list SessionId) (failures : list str) : Lm (list str) :=
  match ks with
  | [] => mret failures
  | k :: ks =>
      r ← lattempt (cancel_single_session k CancelDescendant);
      cancel_each ks (failures ++ match r with
                                  | Ok _ => []
                                  | Err e => [k ++ L": " ++ SessionError_display e]
                                  end)
  end.

Definition cancel_stacked_child_sessions (parent : SessionId) : Lm unit :=
  ss ← gets (λ self, sessions (manager_state self));
  children ← lexpect (stacked_descendant_session_ids ss parent);
  failures ← cancel_each children [];
  match failures with
  | [] => mret tt
  | _ => lfail (Workflow (L"Failed to cancel stacked descendants: " ++ join (L"; ") failures))
  end.

Definition cancel_with (k : SessionId) (capability : CancellationCapability) : Lm unit :=
  status_updated ← cancel_single_session k capability;
  if (status_updated : bool) then cancel_stacked_child_sessions k else mret tt.

Definition cancel_session (k : SessionId) : Lm unit := cancel_with k CancelByUser.
Definition cancel_managed_session (k : SessionId) : Lm unit := cancel_with k CancelManaged.

(** ** Deletion *)

Record DeletedSessionCleanup := mkDeleted {
  deleted_branch_name : str;
  deleted_folder : str;
  has_git_branch : bool;
  deleted_session_id : SessionId;
  staged_draft_root : str;
  deleted_working_dir : str
}.

(** The foreground forgets a session it removed from the list. *)
Definition forget_session (s : Session) (finished : Z → bool) (self : SessionManager) : SessionManager :=
  let self := on_state (λ st, remove_session_worktree_availability (remove_handle st (id s)) (id s)) self in
  let self := remove_at_mention_index_for_root self (folder s) in
  clear_history_replay_pending (abort_title_generation_task self finished (id s)) (id s).

Definition remove_selected_session_from_state_and_db (projects : ActiveProject) : Lm (option DeletedSessionCleanup) :=
  chosen ← gets selected_session;
  i ← gets (λ self, selected (manager_state self));
  match chosen, i with
  | Some s, Some i =>
      preparation ← lcall (LoadPreparation (id s));
      if match (preparation : result (option SessionPreparationRow) str) with
         | Ok (Some row) => bool_decide (preparation_state row = Preparing) | _ => false end
      then _ ← lattempt (cancel_session (id s)); mret None
      else
        _ ← lcall (FinishAgentRuns (id s));
        removed ← gets (λ self, remove_session_at (manager_state self) i);
        match removed with
        | (None, _) => mret None
        | (Some session, st) =>
            finished ← running_title_task (id session);
            _ ← modify (λ self, forget_session session finished (on_state (λ st, (remove_session_at st i).2) self));
            _ ← ltry (RequestCancelOperations (id session));
            _ ← lcall (ClearWorker (id session));
            _ ← ltry (DeleteRow (id session));
            _ ← lemit LifeRefreshSessionsAndProjects;
            base ← lcall BasePath;
            branch ← worktree_branch (id session);
            mret (Some (mkDeleted branch (folder session) (bool_decide (is_Some (git_branch projects))) (id session)
                          (path_join base (id session)) (working_dir projects)))
        end
  | _, _ => mret None
  end.

Definition cleanup_deleted_session_resources (cleanup : DeletedSessionCleanup) : Lm unit :=
  repo_root ← (if has_git_branch cleanup then lcall (LifeFindRepoRoot (deleted_working_dir cleanup)) else mret None);
  _ ← cleanup_session_worktree_resources (deleted_folder cleanup) (deleted_branch_name cleanup) repo_root (has_git_branch cleanup);
  is_dir ← lcall (PathIsDir (staged_draft_root cleanup));
  _ ← (if (is_dir : bool) then ltry (RemoveTree (staged_draft_root cleanup)) else mret tt);
  cleanup_session_temp_directory (deleted_session_id cleanup).

(** The cleanup that is returned runs in a task of its own. *)
Definition delete_selected_session_deferred_cleanup (projects : ActiveProject) : Lm (option (Lm unit)) :=
  cleanup ← remove_selected_session_from_state_and_db projects;
  mret (cleanup_deleted_session_resources <$> cleanup).

Definition delete_selected_session (projects : ActiveProject) : Lm unit :=
  cleanup ← remove_selected_session_from_state_and_db projects;
  match cleanup with Some cleanup => cleanup_deleted_session_resources cleanup | None => mret tt end.
End lifecycle.
