(* ===== verification/LifecycleLaws.v ===== *)
(** * Laws of the session lifecycle

    First a logic of lifecycle programs: what a program may do in a state, whatever
    the host answers: its result, the calls it adds, and the foreground's own state,
    with the handles that workers share left open at every step.  Then what the
    operations promise: a failed creation asks for the removal of all it made, a
    stack remembers what was persisted, a reply reaches the worker of its session at
    most once, work that cannot be saved is kept, and a cancellation reaches every
    descendant. *)
From stdpp Require Import gmap.
From S2P Require Import Prelude Contracts Agent Lifecycle Transcript Transient Prompt Input Session SessionState Stack FileEntry SessionManager Flow Scheduler SessionTitle SessionCalls Workspace SessionLifecycle.

(** The foreground's state without the shared handles. *)
Definition own_state (self : SessionManager) : SessionManager := on_state (λ st, set_handles st ∅) self.
Definition core (w : Foreground) : SessionManager := own_state (fg_manager w).

Lemma own_handles h m : own_state (on_state (λ st, set_handles st h) m) = own_state m.
Proof. by destruct m as [? [] ? ? ? ? ?]. Qed.

Lemma own_update_handle k f m : own_state (on_state (λ st, update_handle st k f) m) = own_state m.
Proof. by destruct m as [? [] ? ? ? ? ?]. Qed.

Section logic.
Context `{Hlife : !LifeHost, Hfx : !FxHasher}.

Definition wp {A} (m : Lm A) (Q : result A FlowStop → list LifeEffect → SessionManager → Prop) (tr : list LifeEffect)
    (c : SessionManager) : Prop :=
  ∀ w, core w = c → ∃ new, fg_calls (m w).2 = fg_calls w ++ new ∧ Q (m w).1 (tr ++ new) (core (m w).2).

Lemma wp_still {A} (m : Lm A) Q tr c :
  (∀ w, core w = c → (m w).2 = w ∧ Q (m w).1 tr c) → wp m Q tr c.
Proof. intros HM w HW. destruct (HM w HW) as [E HQ]. exists []. rewrite E, !app_nil_r, HW. done. Qed.

Lemma wp_ret {A} (a : A) Q tr c : Q (Ok a) tr c → wp (mret a) Q tr c.
Proof. intros HQ. by apply wp_still. Qed.

Lemma wp_fail {A} e Q tr c : Q (Err (Flow.Failed e)) tr c → wp (@lfail A e) Q tr c.
Proof. intros HQ. by apply wp_still. Qed.

Lemma wp_expect {A} (o : option A) Q tr c :
  match o with Some a => Q (Ok a) tr c | None => Q (Err Panicked) tr c end → wp (lexpect o) Q tr c.
Proof. intros HQ. apply wp_still. intros w _. split; [done|]. by destruct o. Qed.

Lemma wp_result {A E} (r : result A E) f Q tr c :
  match r with Ok a => Q (Ok a) tr c | Err e => Q (Err (Flow.Failed (f e))) tr c end → wp (lresult r f) Q tr c.
Proof. destruct r; [apply wp_ret|apply wp_fail]. Qed.

Lemma wp_bind {A B} (m : Lm A) (f : A → Lm B) Q tr c :
  wp m (λ r tr c, match r with Ok a => wp (f a) Q tr c | Err e => Q (Err e) tr c end) tr c → wp (m ≫= f) Q tr c.
Proof.
  intros HM w HW. destruct (HM w HW) as (new & E & HQ). unfold mbind, Lm_bind. destruct (m w) as [[a|e] w'] eqn:EM; cbn in *.
  - destruct (HQ w' eq_refl) as (more & E' & HR). exists (new ++ more). rewrite E', E, !app_assoc. rewrite <- app_assoc in HR.
    by rewrite app_assoc in HR.
  - by exists new.
Qed.

Lemma wp_attempt {A} (m : Lm A) Q tr c :
  wp m (λ r tr c, match r with
                  | Ok a => Q (Ok (Ok a)) tr c
                  | Err (Flow.Failed e) => Q (Ok (Err e)) tr c
                  | Err Panicked => Q (Err Panicked) tr c
                  end) tr c → wp (lattempt m) Q tr c.
Proof.
  intros HM w HW. destruct (HM w HW) as (new & E & HQ). exists new. unfold lattempt.
  by destruct (m w) as [[a|[e|]] w'].
Qed.

Lemma wp_mono {A} (m : Lm A) (P Q : result A FlowStop → list LifeEffect → SessionManager → Prop) tr c :
  (∀ r tr c, P r tr c → Q r tr c) → wp m P tr c → wp m Q tr c.
Proof. intros HPQ HM w HW. destruct (HM w HW) as (new & E & HP). exists new. auto. Qed.

Lemma wp_call {A : Set} (k : LifeCall A) Q tr c :
  (∀ a n, life_answer A n k = a → Q (Ok a) (tr ++ [LifeDid A k a]) c) → wp (lcall k) Q tr c.
Proof.
  intros HQ w HW. exists [LifeDid A k (life_answer A (length (fg_calls w)) k)]. split; [reflexivity|].
  assert (core (lcall k w).2 = c) as ->; [|by apply (HQ _ (length (fg_calls w)))]. rewrite <- HW. apply own_handles.
Qed.

Lemma wp_gets {A} (f : SessionManager → A) Q tr c :
  (∀ m, f (own_state m) = f m) → Q (Ok (f c)) tr c → wp (gets f) Q tr c.
Proof. intros HF HQ. apply wp_still. intros w HW. split; [done|]. cbn. rewrite <- HF. unfold core in HW. by rewrite HW. Qed.

Lemma wp_modify (f : SessionManager → SessionManager) Q tr c :
  (∀ m, own_state (f (own_state m)) = own_state (f m)) → own_state c = c → Q (Ok tt) tr (own_state (f c)) → wp (modify f) Q tr c.
Proof.
  intros HF HC HQ w HW. exists []. cbn. split; [by rewrite app_nil_r|]. rewrite app_nil_r. unfold core in *. cbn [fg_manager].
  by rewrite <- HF, HW.
Qed.

(** Handles: whatever they are. *)
Lemma wp_handles k Q tr c : (∀ h, Q (Ok h) tr c) → Q (Err (Flow.Failed HandlesNotFound)) tr c → wp (session_handles_or_err k) Q tr c.
Proof.
  intros H1 H2. apply wp_still. intros w HW. unfold session_handles_or_err, mbind, Lm_bind, gets. cbn.
  destruct (handle (manager_state (fg_manager w)) k); split; [done|apply H1|done|apply H2].
Qed.

Lemma wp_update_handles k f Q tr c : Q (Ok tt) tr c → wp (update_handles_of k f) Q tr c.
Proof.
  intros HQ w HW. exists []. assert (core (update_handles_of k f w).2 = c) as HC by (rewrite <- HW; apply own_update_handle).
  rewrite HC, !app_nil_r. split; [done|exact HQ].
Qed.

Lemma wp_reserved Q tr c : (∀ reserved, Q (Ok reserved) tr c) → wp is_reserved Q tr c.
Proof. intros HQ. apply wp_still. intros w _. split; [done|apply HQ]. Qed.

Lemma wp_get_model Q tr c : (∀ m, Q (Ok m) tr c) → wp get_default_model Q tr c.
Proof. intros HQ. apply wp_still. intros w _. split; [done|apply HQ]. Qed.

Lemma wp_set_model m Q tr c : Q (Ok tt) tr c → wp (set_default_model m) Q tr c.
Proof. intros HQ w HW. exists []. rewrite !app_nil_r. split; [done|]. by rewrite <- HW in HQ. Qed.

(** A loaded session. *)
Lemma wp_index k Q tr c :
  match session_index_for_id (manager_state c) k with
  | Some i => Q (Ok i) tr c
  | None => Q (Err (Flow.Failed NotFound)) tr c
  end → wp (session_index_or_err k) Q tr c.
Proof.
  intros HQ. unfold session_index_or_err. apply wp_bind, wp_gets; [done|].
  destruct (session_index_for_id (manager_state c) k); [by apply wp_ret|by apply wp_fail].
Qed.

Lemma wp_session k Q tr c :
  match session_for_id (manager_state c) k with
  | Some s => Q (Ok s) tr c
  | None => Q (Err (Flow.Failed NotFound)) tr c
  end → wp (session_or_err k) Q tr c.
Proof.
  intros HQ. unfold session_or_err. apply wp_bind, wp_index. unfold session_for_id in HQ.
  destruct (session_index_for_id (manager_state c) k) as [i|]; cbn in HQ; [|done].
  apply wp_bind, wp_gets; [done|]. destruct (sessions (manager_state c) !! i); [by apply wp_ret|by apply wp_fail].
Qed.

(** Programs that only add calls of some kind and leave the state alone. *)
Definition quiet {A} (P : LifeEffect → Prop) (m : Lm A) : Prop :=
  ∀ w, ∃ new, fg_calls (m w).2 = fg_calls w ++ new ∧ Forall P new ∧ core (m w).2 = core w.

Lemma wp_quiet {A} P (m : Lm A) Q tr c :
  quiet P m → (∀ r new, Forall P new → Q r (tr ++ new) c) → wp m Q tr c.
Proof. intros HM HQ w <-. destruct (HM w) as (new & E & HP & HC). exists new. rewrite HC. auto. Qed.

Lemma quiet_wp {A} P (m : Lm A) :
  (∀ c, wp m (λ _ new c', Forall P new ∧ c' = c) [] c) → quiet P m.
Proof. intros HM w. destruct (HM (core w) w eq_refl) as (new & E & HP & HC). by exists new. Qed.
End logic.

(** A step of a program; the programs it calls by name are unfolded by hand or
    described by hints. *)
Create HintDb life.

Ltac life_step :=
  cbn beta iota zeta;
  lazymatch goal with
  | |- wp (mret _) _ _ _ => apply wp_ret
  | |- wp (lfail _) _ _ _ => apply wp_fail
  | |- wp (_ ≫= _) _ _ _ => apply wp_bind
  | |- wp (lattempt _) _ _ _ => apply wp_attempt
  | |- wp (lexpect ?o) _ _ _ => apply wp_expect; destruct o eqn:?
  | |- wp (lresult ?r _) _ _ _ => apply wp_result; destruct r eqn:?
  | |- wp (@lcall _ ?A ?k) ?Q ?tr ?c => apply (wp_call (A := A) k Q tr c); intros ? ? ?
  | |- wp (session_handles_or_err _) _ _ _ => apply wp_handles; [intros ?|]
  | |- wp (update_handles_of _ _) _ _ _ => apply wp_update_handles
  | |- wp is_reserved _ _ _ => apply wp_reserved; intros ?
  | |- wp get_default_model _ _ _ => apply wp_get_model; intros ?
  | |- wp (set_default_model _) _ _ _ => apply wp_set_model
  | |- wp (session_index_or_err ?k) _ _ _ => apply wp_index; destruct (session_index_for_id _ k) eqn:?
  | |- wp (session_or_err ?k) _ _ _ => apply wp_session; destruct (session_for_id _ k) eqn:?
  | |- wp (gets _) _ _ _ => apply wp_gets; [done|]
  | |- wp (if ?b then _ else _) _ _ _ => destruct b eqn:?
  | |- wp (match ?x with _ => _ end) _ _ _ => destruct x eqn:?
  | |- match ?r with Ok _ => _ | Err _ => _ end => destruct r as [?|[?|]]
  | |- wp (ldb _) _ _ _ => unfold ldb
  | |- wp (lgit _) _ _ _ => unfold lgit
  | |- wp (lfs _) _ _ _ => unfold lfs
  | |- wp (ltry _) _ _ _ => unfold ltry
  | |- wp (lemit _) _ _ _ => unfold lemit
  | |- wp (gate _) _ _ _ => unfold gate
  | |- wp (worktree_branch _) _ _ _ => unfold worktree_branch
  | |- wp (session_worktree_folder _) _ _ _ => unfold session_worktree_folder
  | |- wp (current_branch _) _ _ _ => unfold current_branch
  end.

Ltac life := repeat life_step.

(** ** What creations change *)

Inductive LifeChange :=
| RowReserved (k : str) | RowReady (k : str) | RowDeleted (k : str) (done : bool)
| WorktreeMade (path branch : str) | FolderRemoved (path : str) (done : bool)
| WorktreeRemoved (path : str) (done : bool) | BranchDeleted (branch : str) (done : bool) | FolderGone (path : str).

#[global] Instance LifeChange_eq_dec : EqDecision LifeChange.
Proof. solve_decision. Defined.

Definition succeeded {A E} (r : result A E) : bool := match r with Ok _ => true | Err _ => false end.

(** A reservation that succeeded, a workspace that became ready, a worktree that was
    made with its branch; the deletion of a row, the removal of a folder, of a worktree
    from Git and of a branch with their success; a folder that was found to be gone. *)
Definition life_change (e : LifeEffect) : option LifeChange :=
  match e with
  | LifeDid A c a =>
      match c in LifeCall A return A → option LifeChange with
      | InsertSession cr => λ a, match a with Ok _ => Some (RowReserved (created_session_id cr)) | Err _ => None end
      | ReserveSession cr => λ a, match a with Ok _ => Some (RowReserved (created_session_id cr)) | Err _ => None end
      | ReserveFork k _ _ _ => λ a, match a with Ok _ => Some (RowReserved k) | Err _ => None end
      | UpdatePreparation k Ready _ => λ a, match a with Ok true => Some (RowReady k) | _ => None end
      | DeleteRow k => λ a, Some (RowDeleted k (succeeded a))
      | LifeCreateWorktree _ folder branch _ => λ a, match a with Ok _ => Some (WorktreeMade folder branch) | Err _ => None end
      | RemoveTree path => λ a, Some (FolderRemoved path (succeeded a))
      | LifeRemoveWorktree folder => λ a, Some (WorktreeRemoved folder (succeeded a))
      | LifeDeleteBranch _ branch => λ a, Some (BranchDeleted branch (succeeded a))
      | PathIsDir path => λ a, if (a : bool) then None else Some (FolderGone path)
      | _ => λ _, None
      end a
  end.

(** The worktree is taken from Git and its branch is deleted, unless its folder is gone. *)
Definition let_go (f b : str) (l : list LifeChange) : Prop :=
  (∃ d d', WorktreeRemoved f d ∈ l ∧ BranchDeleted b d' ∈ l) ∨ FolderGone f ∈ l.

Definition let_go_done (f b : str) (l : list LifeChange) : Prop :=
  (WorktreeRemoved f true ∈ l ∧ BranchDeleted b true ∈ l) ∨ FolderGone f ∈ l.

#[global] Instance let_go_done_dec f b l : Decision (let_go_done f b l).
Proof. unfold let_go_done. apply _. Defined.

(** The removal of whatever was made is attempted later, and nothing became ready. *)
Fixpoint undone (l : list LifeChange) : Prop :=
  match l with
  | [] => True
  | x :: l =>
      match x with
      | RowReserved k => ∃ d, RowDeleted k d ∈ l
      | WorktreeMade f b => (∃ d, FolderRemoved f d ∈ l) ∧ let_go f b l
      | RowReady _ => False
      | _ => True
      end ∧ undone l
  end.

(** What was made and not successfully removed later. *)
Fixpoint left_over (l : list LifeChange) : list LifeChange :=
  match l with
  | [] => []
  | x :: l =>
      match x with
      | RowReserved k => if bool_decide (RowDeleted k true ∈ l) then [] else [x]
      | WorktreeMade f b => if bool_decide (FolderRemoved f true ∈ l ∧ let_go_done f b l) then [] else [x]
      | RowReady _ => [x]
      | _ => []
      end ++ left_over l
  end.

Definition removal_failed (x : LifeChange) : bool :=
  match x with RowDeleted _ d | FolderRemoved _ d | WorktreeRemoved _ d | BranchDeleted _ d => negb d | _ => false end.

Lemma undone_left_over l : undone l → existsb removal_failed l = false → left_over l = [].
Proof.
  assert (∀ l x, x ∈ l → existsb removal_failed l = false → removal_failed x = false) as HE.
  { clear l. intros l x HX HL. destruct (removal_failed x) eqn:E; [|done]. rewrite <- HL. symmetry. apply existsb_exists.
    exists x. split; [by apply list_elem_of_In|done]. }
  induction l as [|x l IH]; [done|]. cbn [undone existsb left_over]. intros [HX HU] [_ HF]%orb_false_iff. rewrite (IH HU HF), app_nil_r.
  assert (∀ c d, (removal_failed (c d) = negb d) → c d ∈ l → c true ∈ l) as HT.
  { intros c d E HD. pose proof (HE _ _ HD HF) as E'. rewrite E in E'. by destruct d. }
  destruct x as [k|k|k d|f b|f d|f d|b d|f]; try done.
  - destruct HX as [d HD]. by rewrite bool_decide_eq_true_2 by (by apply (HT (RowDeleted k) d)).
  - destruct HX as [[d HD] HG]. rewrite bool_decide_eq_true_2; [done|]. split; [by apply (HT (FolderRemoved f) d)|].
    destruct HG as [(d1 & d2 & H1 & H2)|HG]; [left|by right].
    split; [by apply (HT (WorktreeRemoved f) d1)|by apply (HT (BranchDeleted b) d2)].
Qed.

Definition is_row (x : LifeChange) : bool := match x with RowReserved _ | RowReady _ | RowDeleted _ _ => true | _ => false end.

Section creation.
Context `{Hlife : !LifeHost, Hfx : !FxHasher}.

Definition changing {A} (m : Lm A) (R : result A FlowStop → list LifeChange → Prop) : Prop :=
  ∀ c, wp m (λ r tr c', R r (omap life_change tr) ∧ c' = c) [] c.

Lemma wp_changing {A} (m : Lm A) R Q tr c :
  changing m R → (∀ r new, R r (omap life_change new) → Q r (tr ++ new) c) → wp m Q tr c.
Proof.
  intros HM HQ w HW. destruct (HM c w HW) as (new & E & HR & HC). exists new. rewrite HC. auto.
Qed.

(** The project's base directory does not move, and a preparation is found under
    its own id. *)
Context (base : str).
Hypothesis base_path : ∀ n, life_answer _ n BasePath = base.
Hypothesis preparation_by_id : ∀ n k row, life_answer _ n (LoadPreparation k) = Ok (Some row) → preparation_session_id row = k.

(** Only the worktree of the session is made, in its folder and on its branch. *)
Definition in_folder (k : str) (x : LifeChange) : Prop :=
  match x with
  | WorktreeMade f b => session_folder base k = Some f ∧ session_branch k = Some b
  | _ => is_row x = false
  end.

Ltac change_step :=
  first
    [ match goal with H : life_answer _ _ BasePath = ?a |- _ => rewrite base_path in H; subst a end
    | life_step
    | eapply wp_changing; [solve [eauto with life]|]; let HR := fresh "HR" in intros ? ? HR; cbn beta in HR ].

Ltac changes :=
  repeat change_step;
  repeat match goal with H : ∃ _, _ |- _ => destruct H | H : _ ∧ _ |- _ => destruct H end; rewrite ?omap_app;
  repeat match goal with H : omap life_change _ = _ |- _ => rewrite !H; clear H end;
  try (split; [|reflexivity]); cbn [omap list_omap life_change app];
  repeat (match goal with |- context [if ?b then None else Some (FolderGone _)] => destruct b end; cbn [app]).

(** A session whose id is too short for the name of its branch or its folder. *)
Definition unnamed (k : str) : Prop := session_branch k = None ∨ session_folder base k = None.

Ltac panics := first [congruence | intros _; first [by left|by right|by auto]].

Lemma validate_changes folder k :
  changing (validate_session_worktree folder k) (λ r l, (r = Err Panicked → unnamed k) ∧ Forall (in_folder k) l).
Proof.
  intros c. unfold validate_session_worktree, canonicalize_for_isolation. changes.
  all: split; [panics|by repeat constructor].
Qed.

Lemma temp_changes k :
  changing (cleanup_session_temp_directory k) (λ r l, r = Ok tt ∧ ∃ temp d, l = [FolderRemoved temp d]).
Proof.
  intros c. unfold cleanup_session_temp_directory, session_prompt_temp_directory, prompt_attachment_tmp_root.
  changes. all: eauto.
Qed.
Hint Resolve validate_changes temp_changes : life.

Lemma rollback_changes folder root k branch saved has_worktree :
  changing (rollback_failed_session_creation folder root k branch saved has_worktree) (λ r l,
    r = Ok tt ∧ ∃ temp d1 d2 d3 d4 d5, l = (if saved then [RowDeleted k d1] else []) ++
      (if has_worktree then [WorktreeRemoved folder d4; BranchDeleted branch d5] else []) ++
      [FolderRemoved folder d2; FolderRemoved temp d3]).
Proof.
  intros c. unfold rollback_failed_session_creation. changes.
  all: first [congruence|split; [assumption|]; first [by do 6 eexists|by eexists _, true, _, _, true, true
    |by eexists _, _, _, _, true, true|by eexists _, true, _, _, _, _]].
Qed.
Hint Resolve rollback_changes : life.

Lemma create_worktree_changes k root branch ref folder :
  session_folder base k = Some folder → session_branch k = Some branch →
  changing (create_session_worktree k folder root branch ref) (λ r l, r ≠ Err Panicked ∧ Forall (in_folder k) l).
Proof.
  intros HF HB c. unfold create_session_worktree. changes.
  all: split; [congruence|by repeat constructor].
Qed.

Lemma setup_changes kind folder : changing (setup_workspace_backend kind folder) (λ r l, r ≠ Err Panicked ∧ l = []).
Proof. intros c. unfold setup_workspace_backend. changes. all: split; [congruence|reflexivity]. Qed.
Hint Resolve create_worktree_changes setup_changes : life.

Lemma prepare_workspace_changes preparation row kind :
  changing (prepare_workspace preparation row kind) (λ r l,
    (r = Err Panicked → unnamed (preparation_session_id preparation)) ∧ Forall (in_folder (preparation_session_id preparation)) l).
Proof.
  intros c. unfold prepare_workspace. changes.
  all: split; [panics|rewrite ?Forall_app; repeat split; first [assumption|constructor]].
Qed.

Lemma cleanup_canceled_changes k : changing (cleanup_canceled_preparation k) (λ r l, (r = Err Panicked → unnamed k) ∧ Forall (in_folder k) l).
Proof.
  intros c. unfold cleanup_canceled_preparation, spawn_canceled_session_cleanup. changes.
  all: split; [panics|by repeat constructor].
Qed.
Hint Resolve prepare_workspace_changes cleanup_canceled_changes : life.

Lemma prepare_changes k :
  changing (prepare_reserved_session k) (λ r l, (r = Err Panicked → unnamed k) ∧
    ∃ work, Forall (in_folder k) work ∧ l = work ++ match r with Ok _ => [RowReady k] | Err _ => [] end).
Proof.
  intros c. unfold prepare_reserved_session. changes. all: rewrite ?app_nil_r.
  all: try match goal with H : life_answer _ _ (LoadPreparation _) = _ |- _ => subst; apply preparation_by_id in H; subst end.
  all: split; [panics|eexists; rewrite ?app_nil_r; split; [|reflexivity];
    first [assumption|constructor|apply Forall_app; by split]].
Qed.
Hint Resolve prepare_changes : life.

(** ** A creation succeeds or leaves nothing behind *)

Lemma let_go_app f b l1 l2 : let_go f b l2 → let_go f b (l1 ++ l2).
Proof. unfold let_go. set_solver. Qed.

Lemma undone_app l1 l2 :
  undone l2 → (∀ f b, WorktreeMade f b ∈ l1 → (∃ d, FolderRemoved f d ∈ l2) ∧ let_go f b l2) →
  Forall (λ x, is_row x = false) l1 → undone (l1 ++ l2).
Proof.
  intros H2 HM. induction 1 as [|x l1 HX HF IH]; [done|]. split; [|apply IH; intros f b HI; apply HM; by right].
  destruct x as [| | |f b| | | |]; try done. destruct (HM f b) as [[d HD] HG]; [by left|]. split; [|by apply let_go_app].
  exists d. apply elem_of_app. by right.
Qed.

Lemma in_folder_rows k l : Forall (in_folder k) l → Forall (λ x, is_row x = false) l.
Proof. intros H. eapply Forall_impl; [exact H|]. by intros []. Qed.

Lemma rolled_back k folder branch temp work (present : bool) d1 d2 d3 d4 d5 :
  session_folder base k = Some folder → session_branch k = Some branch → Forall (in_folder k) work →
  undone (work ++ (if present
    then [RowDeleted k d1; WorktreeRemoved folder d4; BranchDeleted branch d5; FolderRemoved folder d2; FolderRemoved temp d3]
    else [FolderGone folder; RowDeleted k d1; FolderRemoved folder d2; FolderRemoved temp d3])).
Proof.
  intros HF HB HW. apply undone_app; [by destruct present| |by eapply in_folder_rows]. intros f b HI.
  rewrite Forall_forall in HW. apply HW in HI as [E1 E2]. rewrite HF in E1. rewrite HB in E2. injection E1 as ->. injection E2 as ->.
  split; [exists d2; destruct present; set_solver|]. destruct present; [left; exists d4, d5; set_solver|right; set_solver].
Qed.

(** The end of a creation after its reservation. *)
Definition settled (k : str) (r : result str FlowStop) (l : list LifeChange) : Prop :=
  match r with
  | Ok k' => k' = k ∧ ∃ work, l = work ++ [RowReady k] ∧ Forall (in_folder k) work
  | Err (Flow.Failed _) => (∃ d, RowDeleted k d ∈ l) ∧ undone l
  | Err Panicked => unnamed k
  end.

Lemma prepare_or_roll_back_changes k root undo :
  (∀ Q tr c, (∀ c', Q (Ok tt) tr c') → wp undo Q tr c) →
  ∀ c, wp (prepare_or_roll_back k root undo) (λ r tr _, settled k r (omap life_change tr)) [] c.
Proof.
  intros HU c. unfold prepare_or_roll_back. changes. all: try (apply HU; intros c'; life); rewrite ?omap_app.
  all: repeat match goal with H : omap life_change _ = _ |- _ => rewrite !H; clear H end.
  all: cbn [omap list_omap life_change app]; unfold settled; rewrite ?app_nil_r.
  all: try first [congruence | by eauto | by right | by left].
  all: match goal with |- context [if ?x then None else Some _] => destruct x end; cbn [app]; rewrite <- ?app_assoc; cbn [app].
  all: split; [eexists; apply elem_of_app; right; first [left|right; left]|].
  all: first [by eapply (rolled_back _ _ _ _ _ true)|eapply (rolled_back _ _ _ _ _ false _ _ _ true true); eassumption].
Qed.

Lemma wp_ending {A} (m : Lm A) (R : result A FlowStop → list LifeChange → Prop) Q tr c :
  (∀ c, wp m (λ r tr _, R r (omap life_change tr)) [] c) →
  (∀ r new c', R r (omap life_change new) → Q r (tr ++ new) c') → wp m Q tr c.
Proof. intros HM HQ w HW. destruct (HM c w HW) as (new & E & HR). exists new. auto. Qed.

Lemma wp_modified f Q tr c : (∀ c', Q (Ok tt) tr c') → wp (modify f) Q tr c.
Proof. intros HQ w HW. exists []. rewrite !app_nil_r. split; [done|apply HQ]. Qed.

(** Identifiers are long enough to name a branch. *)
Hypothesis named_uuid : ∀ n, ¬ unnamed (life_answer _ n NewUuid).

(** A creation ends with a session that was reserved and became ready, or with the
    attempt to remove whatever was made of it. *)
Definition created (r : result str FlowStop) (l : list LifeChange) : Prop :=
  match r with
  | Ok k => ∃ work, l = RowReserved k :: work ++ [RowReady k] ∧ Forall (in_folder k) work
  | Err _ => undone l
  end.

Lemma settled_created n k r l :
  life_answer _ n NewUuid = k → settled k r l → created r (RowReserved k :: l).
Proof.
  intros <- HS. unfold created. destruct r as [k'|[e|]]; cbn in *.
  - destruct HS as (-> & work & -> & HW). eauto.
  - done.
  - by destruct (named_uuid n HS).
Qed.

Lemma materialize_ends project_id branch dir settings kind c :
  wp (materialize_session project_id branch dir settings kind) (λ r tr _, created r (omap life_change tr)) [] c.
Proof.
  unfold materialize_session, reserve_session, record_session_creation_activity. changes.
  all: try done.
  all: eapply wp_ending; [intros c'; apply prepare_or_roll_back_changes; by intros Q tr c'' HQ; apply wp_ret|].
  all: intros r new c' HR; rewrite omap_app; cbn [omap list_omap life_change app]; by eapply settled_created.
Qed.

Lemma settings_end project_id settings c :
  wp (resolve_session_creation_settings project_id settings) (λ r tr _, r ≠ Err Panicked ∧ omap life_change tr = []) [] c.
Proof. unfold resolve_session_creation_settings, resolve_default_session_agent. changes. all: congruence. Qed.

(** C22: a creation that a session waits for is all or nothing, as far as its cleanup
    is answered.  Whatever Git, the file system, the provider's setup and the database
    answer, a session created for a project or forked from another one ends in one of
    two ways.  Either it returns the id it reserved, whose workspace was then marked
    ready, with nothing but the session's own worktree made on the way.  Or it returns
    an error: no session was marked ready, and afterwards the deletion of every row it
    reserved and the removal of the folder of every worktree it made were requested,
    and, unless that folder was found to be gone, the removal of the worktree from Git
    and the deletion of its branch.  When none of these requests was answered with a
    failure nothing it made is left over, as far as the folder tells (a failing cleanup
    is logged and ignored by the code).  Assumed: the base directory
    stays the same, a preparation is found under its own id, and new ids are long
    enough to name a branch and a folder. *)
Theorem creation_is_all_or_nothing (m : Lm str) (w : Foreground) :
  (∃ project_id branch dir settings kind, m = create_session_for_project project_id branch dir settings kind)
  ∨ (∃ source, m = fork_session source) →
  ∃ new, fg_calls (m w).2 = fg_calls w ++ new ∧ created (m w).1 (omap life_change new)
    ∧ (∀ e, (m w).1 = Err e → existsb removal_failed (omap life_change new) = false → left_over (omap life_change new) = []).
Proof.
  intros HM. cut (∀ c, wp m (λ r tr _, created r (omap life_change tr)) [] c).
  { intros HW. destruct (HW (core w) w eq_refl) as (new & E & HC). exists new. split_and!; [done..|]. intros e He HF.
    apply undone_left_over; [|done]. rewrite He in HC. exact HC. }
  intros c. destruct HM as [(project_id & branch & dir & settings & kind & ->)|[source ->]].
  - unfold create_session_for_project. apply wp_bind. eapply (wp_ending _ (λ r l, r ≠ Err Panicked ∧ l = [])); [intros c'; apply settings_end|].
    intros r new c' [HR HN]. life; [|unfold created; cbn [app]; by rewrite HN..].
    eapply wp_ending; [intros c''; apply materialize_ends|]. intros r' new' c'' HC. cbn [app]. by rewrite omap_app, HN.
  - unfold fork_session, reserve_fork_session_with_repo_root, load_session_repo_root, required_project_id, project_path_of,
      record_session_creation_activity. changes.
    all: try exact I. all: apply wp_modified; intros c'; life; eapply wp_ending; [intros c''; apply prepare_or_roll_back_changes;
      intros Q tr c3 HQ; by apply wp_modified|].
    all: intros r new c'' HR; rewrite omap_app; cbn [omap list_omap life_change app]; by eapply settled_created.
Qed.
End creation.

(** ** A reply is handed to the worker once *)

Inductive Delivery :=
| Offered (k : str) (command : Command) (accepted : option bool)
| Shown (k : str) (message_kind : SessionMessageKind) (text : str).

(** A command offered to a worker, with [Some newly] when it took it, and a prompt
    appended to the transcript. *)
Definition delivery (e : LifeEffect) : option Delivery :=
  match e with
  | LifeDid A c a =>
      match c in LifeCall A return A → option Delivery with
      | Enqueue k cmd => λ a, Some (Offered k cmd (match a with Ok _ => Some true | Err _ => None end))
      | EnqueueExisting k cmd => λ a, Some (Offered k cmd (match a with Ok _ => Some true | Err _ => None end))
      | EnqueueIdempotent k cmd => λ a, Some (Offered k cmd (match a with Ok newly => Some newly | Err _ => None end))
      | AppendMessage k message_kind text => λ _,
          if bool_decide (message_kind = WorkflowNotice) then None else Some (Shown k message_kind text)
      | _ => λ _, None
      end a
  end.

Section replies.
Context `{Hlife : !LifeHost, Hfx : !FxHasher}.

(** The prompt's own line in the transcript. *)
Definition prompt_line (k : str) (prompt : TurnPrompt) (o : ReplyOptions) : list Delivery :=
  if persist_prompt o then [Shown k (presentation_kind (prompt_presentation o)) (transcript_text prompt)] else [].

Definition reply_command (prompt : TurnPrompt) (agent : AgentSelection) (o : ReplyOptions) (command : Command) : Prop :=
  ∃ operation_id turn replay upstream,
    command = Run operation_id turn replay prompt (mkTurnMetadata upstream (reply_review_comment_thread_ids o) agent)
    ∧ (∀ fixed, reply_operation_id o = Some fixed → operation_id = fixed).

Definition delivered (k : SessionId) (prompt : TurnPrompt) (agent : AgentSelection) (o : ReplyOptions)
    (r : result bool FlowStop) (l : list Delivery) : Prop :=
  let first := if defer_prompt_until_enqueued o then [] else prompt_line k prompt o in
  match r with
  | Ok true => ∃ command newly, reply_command prompt agent o command ∧
      l = first ++ Offered k command (Some newly)
            :: (if newly && defer_prompt_until_enqueued o && negb (is_preparation_prompt command k) then prompt_line k prompt o else [])
  | Ok false => l = [] ∨ ∃ command, reply_command prompt agent o command ∧ l = first ++ [Offered k command None]
  | Err _ => l = []
  end.

Lemma wp_projected {A B} (f : LifeEffect → option B) (m : Lm A) (R : result A FlowStop → list B → Prop) Q tr c :
  (∀ c, wp m (λ r tr _, R r (omap f tr)) [] c) → (∀ r new c', R r (omap f new) → Q r (tr ++ new) c') → wp m Q tr c.
Proof. intros HM HQ w HW. destruct (HM c w HW) as (new & E & HR). exists new. auto. Qed.

Definition silent {A} (m : Lm A) : Prop := ∀ c, wp m (λ _ tr _, omap delivery tr = []) [] c.

Lemma wp_silent {A} (m : Lm A) Q tr c :
  silent m → (∀ r new c', omap delivery new = [] → Q r (tr ++ new) c') → wp m Q tr c.
Proof. intros HM. by apply (wp_projected delivery m (λ _ l, l = [])). Qed.

(** The same for a program that also never fails. *)
Definition tacit {A} (m : Lm A) : Prop := ∀ c, wp m (λ r tr _, (∃ a, r = Ok a) ∧ omap delivery tr = []) [] c.

Lemma wp_tacit {A} (m : Lm A) Q tr c :
  tacit m → (∀ a new c', omap delivery new = [] → Q (Ok a) (tr ++ new) c') → wp m Q tr c.
Proof.
  intros HM HQ. apply (wp_projected delivery m (λ r l, (∃ a, r = Ok a) ∧ l = [])); [exact HM|].
  intros r new c' [[a ->] HN]. auto.
Qed.

Ltac reply_step :=
  first
    [ life_step
    | apply wp_modified; intros ?
    | lazymatch goal with |- wp (update_at _ _) _ _ _ => unfold update_at end
    | eapply wp_tacit; [solve [eauto with life]|]; intros ? ? ? ?
    | eapply wp_silent; [solve [eauto with life]|]; intros ? ? ? ? ].

Ltac replies :=
  repeat reply_step; rewrite ?omap_app;
  repeat match goal with H : omap delivery _ = _ |- _ => rewrite !H; clear H end;
  cbn [omap list_omap delivery app]; rewrite ?bool_decide_eq_true_2 by reflexivity.

Lemma apply_status_silent k s : silent (apply_status k s).
Proof. intros c. unfold apply_status, status_of_handle. by replies. Qed.

Lemma notice_tacit k text : tacit (append_notice k text).
Proof. intros c. unfold append_notice, append_transcript_message. replies; by eauto. Qed.
Hint Resolve apply_status_silent notice_tacit : life.

Lemma cleanup_tacit root paths : tacit (remove_managed_files root paths).
Proof. induction paths as [|p paths IH]; intros c; cbn [remove_managed_files]; replies; by eauto. Qed.
Hint Resolve cleanup_tacit : life.

Lemma cleanup_prompt_tacit prompt : tacit (cleanup_prompt_attachment_files prompt).
Proof.
  intros c. unfold cleanup_prompt_attachment_files, cleanup_prompt_attachment_paths, cleanup_prompt_attachment_paths_in_root,
    prompt_attachment_tmp_root. replies; by eauto.
Qed.
Hint Resolve cleanup_prompt_tacit : life.

(** The reply goes to the loaded session. *)
Lemma wp_context k prompt replay e s Q tr c :
  session_for_id (manager_state c) k = Some s →
  (∀ r new c', omap delivery new = [] → (∀ text first key saved, r = Ok (text, first, key, saved) → key = id s) → Q r (tr ++ new) c') →
  wp (prepare_reply_context k prompt replay e) Q tr c.
Proof.
  intros HS HQ w HW. cut (∃ new, fg_calls (prepare_reply_context k prompt replay e w).2 = fg_calls w ++ new ∧ omap delivery new = [] ∧
    ∀ text first key saved, (prepare_reply_context k prompt replay e w).1 = Ok (text, first, key, saved) → key = id s).
  { intros (new & E & HN & HK). exists new. auto. }
  revert w HW. change (wp (prepare_reply_context k prompt replay e)
    (λ r tr _, omap delivery tr = [] ∧ ∀ text first key saved, r = Ok (text, first, key, saved) → key = id s) [] c).
  unfold prepare_reply_context, lifecycle_can_reply. repeat reply_step. all: split; [by replies|].
  all: intros text first key saved [=]; simplify_eq; done.
Qed.

Lemma metadata_silent k text t : silent (persist_initial_reply_metadata k text t).
Proof. intros c. unfold persist_initial_reply_metadata, persist_first_message_metadata. by replies. Qed.

Lemma status_error_tacit k e : tacit (append_reply_status_error k e).
Proof. intros c. unfold append_reply_status_error. replies; by eauto. Qed.
Hint Resolve metadata_silent status_error_tacit : life.

Lemma wp_line k prompt presentation Q tr c :
  (∀ new c', omap delivery new = [Shown k (presentation_kind presentation) (transcript_text prompt)] → Q (Ok tt) (tr ++ new) c') →
  wp (append_reply_prompt_line k prompt presentation) Q tr c.
Proof.
  intros HQ. apply (wp_projected delivery _ (λ r l, r = Ok tt ∧ l = [Shown k (presentation_kind presentation) (transcript_text prompt)])).
  - intros c'. unfold append_reply_prompt_line, append_transcript_message. destruct presentation; replies; done.
  - intros r new c' [-> HN]. auto.
Qed.

Definition accepted_as (outcome : ReplyEnqueueOutcome) : option bool :=
  match outcome with Enqueued => Some true | AlreadyAccepted => Some false | EnqueueFailed => None end.

Lemma wp_enqueue k prompt command idempotent report existing Q tr c :
  (∀ outcome new c', omap delivery new = [Offered k command (accepted_as outcome)] → Q (Ok outcome) (tr ++ new) c') →
  wp (enqueue_reply_command k prompt command idempotent report existing) Q tr c.
Proof.
  intros HQ. apply (wp_projected delivery _ (λ r l, ∃ outcome, r = Ok outcome ∧ l = [Offered k command (accepted_as outcome)])).
  - intros c'. unfold enqueue_reply_command. replies; (eexists; split; [reflexivity|]).
    all: repeat match goal with |- context [match ?x with _ => _ end] => destruct x eqn:?; simplify_eq end; done.
  - intros r new c' (outcome & -> & HN). auto.
Qed.

Lemma delivered_offer k prompt agent o outcome command l :
  let shown := Shown k (presentation_kind (prompt_presentation o)) (transcript_text prompt) in
  reply_command prompt agent o command →
  l = (if persist_prompt o && negb (defer_prompt_until_enqueued o) then [shown] else [])
      ++ Offered k command (accepted_as outcome)
      :: (if is_enqueued outcome && defer_prompt_until_enqueued o && persist_prompt o && negb (is_preparation_prompt command k)
          then [shown] else []) →
  delivered k prompt agent o (Ok (negb (is_failed outcome))) l.
Proof.
  intros shown HC ->. unfold delivered, prompt_line. fold shown.
  destruct outcome; cbn [is_failed negb accepted_as is_enqueued andb]; [| |right].
  - exists command, false. split; [done|]. by destruct (persist_prompt o), (defer_prompt_until_enqueued o).
  - exists command, true. split; [done|]. destruct (persist_prompt o), (defer_prompt_until_enqueued o); cbn [negb andb app]; try done.
    by destruct (is_preparation_prompt command k).
  - exists command. split; [done|]. by destruct (persist_prompt o), (defer_prompt_until_enqueued o).
Qed.

Lemma prepared_delivery prompt agent o replay text first k saved c :
  wp (reply_prepared prompt agent o replay (text, first, k, saved)) (λ r tr _, delivered k prompt agent o r (omap delivery tr)) [] c.
Proof.
  unfold reply_prepared.
  repeat first [reply_step | apply wp_line; intros ? ? ? | apply wp_enqueue; intros ? ? ? ?].
  all: replies; try (unfold delivered; by auto).
  all: eapply delivered_offer; [|repeat match goal with H : _ && _ = _ |- _ => rewrite H; clear H end; reflexivity].
  all: do 4 eexists; split; [reflexivity|intros; congruence].
Qed.

(** C23: a reply is handed over once, to the session it is meant for.  Whatever its
    entry point (a plain reply, the answers to questions, a coordinator's message,
    review comments), at most one command is offered, to the worker of the session
    that was looked up, and it carries the prompt, the review threads and the
    operation id that were given and the agent of that session.  [true] is returned
    exactly when the worker took the command or had taken it before; an error or a
    refused session offers nothing.  The prompt enters the transcript of the same
    session at most once: before the offer, or, for deferred prompts, only after the
    worker newly took a command that is not the saved first turn, so a repeated or
    refused message leaves no line. *)
Theorem replies_are_handed_over_once (k : SessionId) (prompt : TurnPrompt) (blocked : Session → bool)
    (options : Session → ReplyOptions) (w : Foreground) :
  ∃ new, fg_calls (reply_with k prompt blocked options w).2 = fg_calls w ++ new ∧
    match session_for_id (manager_state (core w)) k with
    | Some s =>
        if blocked s then (reply_with k prompt blocked options w).1 = Ok false ∧ omap delivery new = []
        else delivered (id s) prompt (agent s) (options s) (reply_with k prompt blocked options w).1 (omap delivery new)
    | None => (reply_with k prompt blocked options w).1 = Ok false ∧ omap delivery new = []
    end.
Proof.
  cut (∀ c, wp (reply_with k prompt blocked options) (λ r tr _,
    match session_for_id (manager_state c) k with
    | Some s =>
        if blocked s then r = Ok false ∧ omap delivery tr = [] else delivered (id s) prompt (agent s) (options s) r (omap delivery tr)
    | None => r = Ok false ∧ omap delivery tr = []
    end) [] c); [intros HW; by apply (HW (core w))|].
  intros c. unfold reply_with, reply_impl. apply wp_bind, wp_attempt, wp_session.
  destruct (session_for_id (manager_state c) k) as [s|] eqn:HS; cbn beta iota; [|by apply wp_ret].
  destruct (blocked s); [by apply wp_ret|]. apply wp_bind, wp_gets; [done|]. cbn beta iota zeta.
  apply wp_bind, wp_attempt. eapply wp_context; [exact HS|]. intros r new c' HN HK. destruct r as [[[[text first] key] saved]|[e|]].
  - rewrite (HK text first key saved eq_refl).
    apply (wp_projected delivery _ (delivered (id s) prompt (agent s) (options s))); [intros c''; apply prepared_delivery|].
    intros r more c'' HD. rewrite omap_app. cbn [app]. by rewrite HN.
  - repeat reply_step. replies. by left.
  - by replies.
Qed.
End replies.

(** ** A changed model replaces the worker, or nothing happens *)

Inductive ModelStep :=
| WorkerPaused (k : str) (was_running : bool)
| ModelStored (k : str) (agent : AgentSelection) (changed : bool) (default_of : option Z)
| WorkerCleared (k : str) | WorkerShutDown (k : str)
| ModelAnnounced (k : str) (agent : AgentSelection).

Definition model_step (e : LifeEffect) : option ModelStep :=
  match e with
  | LifeDid A c a =>
      match c in LifeCall A return A → option ModelStep with
      | PauseWorker k => λ a, Some (WorkerPaused k a)
      | ApplyAgentModel k agent changed project => λ a,
          match a with Ok _ => Some (ModelStored k agent changed project) | Err _ => None end
      | ClearWorker k => λ _, Some (WorkerCleared k)
      | ShutdownPausedWorker k => λ _, Some (WorkerShutDown k)
      | LifeEmit (LifeModelUpdated k agent) => λ _, Some (ModelAnnounced k agent)
      | _ => λ _, None
      end a
  end.




Section places.
Context `{Hlife : !LifeHost, Hfx : !FxHasher}.

Lemma own_own m : own_state (own_state m) = own_state m.
Proof. apply own_handles. Qed.

Lemma wp_own {A} (m : Lm A) Q tr c : (own_state c = c → wp m Q tr c) → wp m Q tr c.
Proof. intros HM w HW. apply HM; [|exact HW]. rewrite <- HW. apply own_own. Qed.

Lemma own_replay c ks : own_state c = c → own_state (set_replay c ks) = set_replay c ks.
Proof. intros <-. by destruct c. Qed.

(** What a change of the model of [k] does in a state. *)
Definition model_changed (k : SessionId) (session_agent : AgentSelection) (persist : bool) (c : SessionManager)
    (r : result unit FlowStop) (l : list ModelStep) (c' : SessionManager) : Prop :=
  let changed :=
    match session_for_id (manager_state c) k with Some s => negb (bool_decide (agent s = session_agent)) | None => false end in
  match r with
  | Ok _ =>
      ∃ was_running default_of, (persist = false → default_of = None) ∧
        l = (if changed then [WorkerPaused k was_running] else [])
            ++ ModelStored k session_agent changed default_of
            :: (if changed && was_running then [WorkerCleared k; WorkerShutDown k] else [])
            ++ [ModelAnnounced k session_agent]
        ∧ c' = if changed then mark_history_replay_pending c k else c
  | Err _ => (l = [] ∨ changed = true ∧ ∃ was_running, l = [WorkerPaused k was_running]) ∧ c' = c
  end.

(** C34: changing the model of a session is all or nothing.  When a lookup or the
    database fails, the loaded sessions and the pending replays are as before, and
    nothing is stored or announced and no worker is dropped or shut down; at most the
    worker was paused.  Otherwise, in this order: when the session's agent or model
    differs its worker is paused; the new agent is stored for the session; a worker
    that the pause found running is dropped and shut down; the change is announced.
    The next turn of a session whose agent or model differs then replays its
    history.  A project's default is stored only when that was asked for. *)
Theorem model_change_is_all_or_nothing (k : SessionId) (session_agent : AgentSelection) (persist : bool) (w : Foreground) :
  let m := set_session_model_with_default_persistence k session_agent persist in
  ∃ new, fg_calls (m w).2 = fg_calls w ++ new
    ∧ model_changed k session_agent persist (core w) (m w).1 (omap model_step new) (core (m w).2).
Proof.
  intros m. cut (∀ c, wp m (λ r tr c', model_changed k session_agent persist c r (omap model_step tr) c') [] c);
    [intros HW; by apply (HW (core w))|].
  intros c. apply wp_own. intros HC. subst m.
  unfold model_changed, set_session_model_with_default_persistence, should_persist_last_used_model_as_default.
  apply wp_bind, wp_index. unfold session_for_id. destruct (session_index_for_id (manager_state c) k) as [i|]; [|by auto].
  apply wp_bind, wp_gets; [done|]. cbn [mbind option_bind]. destruct (sessions (manager_state c) !! i) as [s|].
  1: case_bool_decide as HA; [rewrite HA, (bool_decide_eq_true_2 _ eq_refl)|]; cbn [negb orb].
  all: life.
  all: try (apply wp_modify; [done|done|]).
  all: cbn [omap list_omap model_step app andb]; try by eauto.
  all: first [by eexists true, _ | by eexists false, _
    | eexists true, _; split_and!; [|done|by apply own_replay]; congruence
    | eexists false, _; split_and!; [|done|by apply own_replay]; congruence
    | eexists true, _; split_and!; [|done..]; congruence].
Qed.






End places.

(** ** Descendants *)

Inductive descends (ss : list Session) (parent : SessionId) : SessionId → Prop :=
| descends_child s : s ∈ ss → parent_session_id s = Some parent → descends ss parent (id s)
| descends_below s k : descends ss parent k → s ∈ ss → parent_session_id s = Some k → descends ss parent (id s).

(** Every id comes after its parent's. *)
Definition parents_first (ss : list Session) (parent : SessionId) (l : list SessionId) : Prop :=
  ∀ l1 k l2, l = l1 ++ k :: l2 → ∃ s p, s ∈ ss ∧ id s = k ∧ parent_session_id s = Some p ∧ p ∈ parent :: l1.

Definition is_next (ancestors descendants : list SessionId) (s : Session) : bool :=
  match parent_session_id s with
  | Some p => bool_decide (p ∈ ancestors) && negb (bool_decide (id s ∈ descendants))
  | None => false
  end.

Lemma is_next_spec a d s : is_next a d s = true ↔ ∃ p, parent_session_id s = Some p ∧ p ∈ a ∧ id s ∉ d.
Proof.
  unfold is_next. destruct (parent_session_id s) as [p|].
  - rewrite andb_true_iff, negb_true_iff, bool_decide_eq_true, bool_decide_eq_false. naive_solver.
  - naive_solver.
Qed.

Lemma next_elem a d ss k :
  k ∈ id <$> List.filter (is_next a d) ss ↔ ∃ s p, s ∈ ss ∧ id s = k ∧ parent_session_id s = Some p ∧ p ∈ a ∧ k ∉ d.
Proof.
  split.
  - intros (s & -> & HI%list_elem_of_In)%list_elem_of_fmap. apply filter_In in HI as [HI (p & HP & HA & HD)%is_next_spec].
    exists s, p. repeat split; [by apply list_elem_of_In|done..].
  - intros (s & p & HS & <- & HP). apply list_elem_of_fmap. exists s. split; [done|]. apply list_elem_of_In, filter_In.
    split; [by apply list_elem_of_In|]. apply is_next_spec. by exists p.
Qed.

Lemma filtered_ids_unique (f : Session → bool) ss : NoDup (id <$> ss) → NoDup (id <$> List.filter f ss).
Proof.
  induction ss as [|s ss IH]; cbn; [done|]. rewrite NoDup_cons. intros [HN HU]. destruct (f s); [|by apply IH].
  cbn. apply NoDup_cons. split; [|by apply IH]. rewrite list_elem_of_fmap in *. intros (s' & E & HI). apply HN. exists s'.
  split; [done|]. apply list_elem_of_In in HI. apply list_elem_of_In. by apply filter_In in HI as [HI _].
Qed.

Lemma parents_first_app ss parent l next :
  parents_first ss parent l →
  (∀ k, k ∈ next → ∃ s p, s ∈ ss ∧ id s = k ∧ parent_session_id s = Some p ∧ p ∈ parent :: l) →
  parents_first ss parent (l ++ next).
Proof.
  intros HL HN l1 k l2 E. symmetry in E. apply app_eq_app in E as [l3 [[-> E]|[-> E]]].
  - destruct (HN k) as (s & p & HS & HI & HP & HA); [rewrite E; set_solver|]. exists s, p. set_solver.
  - destruct l3 as [|k' l3]; cbn in E.
    + destruct (HN k) as (s & p & HS & HI & HP & HA); [rewrite <- E; by left|]. rewrite app_nil_r in HA. by exists s, p.
    + injection E as -> ->. by apply (HL l1 k' l3).
Qed.

Lemma descendants_loop ss parent fuel descendants :
  NoDup (id <$> ss) → NoDup descendants → (∀ k, k ∈ descendants → descends ss parent k) → parents_first ss parent descendants →
  length ss < fuel + length descendants →
  ∃ l, descendant_ids_loop fuel ss (parent :: descendants) descendants = Some l ∧ NoDup l
       ∧ (∀ k, k ∈ l ↔ descends ss parent k) ∧ parents_first ss parent l.
Proof.
  intros HU. revert descendants. induction fuel as [|fuel IH]; intros descendants HN HD HF HL.
  { assert (length descendants <= length (id <$> ss)); [|rewrite length_fmap in *; lia].
    apply submseteq_length, NoDup_submseteq; [done|]. intros k HK. apply HD in HK.
    apply list_elem_of_fmap. destruct HK as [s|s ? ?]; by exists s. }
  cbn [descendant_ids_loop].
  pose proof (next_elem (parent :: descendants) descendants ss) as HE.
  pose proof (filtered_ids_unique (is_next (parent :: descendants) descendants) ss HU) as HX.
  change (List.filter _ ss) with (List.filter (is_next (parent :: descendants) descendants) ss).
  destruct (id <$> List.filter _ ss) as [|k next].
  - exists descendants. split; [done|]. split; [done|]. split; [|done]. intros k. split; [apply HD|].
    assert (∀ s p, s ∈ ss → parent_session_id s = Some p → p ∈ parent :: descendants → id s ∈ descendants) as HC.
    { intros s p HS HP HA. destruct (decide (id s ∈ descendants)); [done|]. exfalso.
      apply (not_elem_of_nil (id s)), HE. by exists s, p. }
    induction 1 as [s HS HP|s p _ IHp HS HP]; eapply HC; eauto; [by left|by right].
  - apply (IH (descendants ++ k :: next)).
    + apply NoDup_app. split; [done|]. split; [|done]. intros k' HK (s & p & _ & _ & _ & _ & HK')%HE. done.
    + intros k' [HK|(s & p & HS & <- & HP & HA & _)%HE]%elem_of_app; [by apply HD|].
      apply elem_of_cons in HA as [->|HA]; [by apply descends_child|]. eapply descends_below; eauto.
    + apply parents_first_app; [done|]. intros k' (s & p & ?)%HE. exists s, p. tauto.
    + rewrite length_app. cbn [length]. lia.
Qed.

(** the stacked descendants of a session are found.  When the loaded sessions have
    different ids, the search ends, whatever their parents are, cycles included, and
    its result names exactly the sessions below the parent, each once and after its
    own parent. *)
Theorem descendants_are_found (ss : list Session) (parent : SessionId) :
  NoDup (id <$> ss) →
  ∃ l, stacked_descendant_session_ids ss parent = Some l ∧ NoDup l ∧ (∀ k, k ∈ l ↔ descends ss parent k) ∧ parents_first ss parent l.
Proof.
  intros HU. apply (descendants_loop ss parent (S (length ss)) []); [done|constructor|by intros k ?%not_elem_of_nil| |cbn; lia].
  intros [|? ?] ? ? [=].
Qed.

(** ** Cancellation *)

(** The agent runs of a session are canceled; its work is told to stop; it is moved to Canceled. *)
Inductive CancelStep := RunsCanceled (k : str) | Stopped (k : str) | Moved (k : str).

Definition cancel_step (e : LifeEffect) : option CancelStep :=
  match e with
  | LifeDid A c a =>
      match c in LifeCall A return A → option CancelStep with
      | CancelAgentRuns k => λ _, Some (RunsCanceled k)
      | FireCancelToken k => λ _, Some (Stopped k)
      | PersistStatus k Canceled => λ _, Some (Moved k)
      | _ => λ _, None
      end a
  end.

Definition step_session (x : CancelStep) : str := match x with RunsCanceled k | Stopped k | Moved k => k end.

Section cancellation.
Context `{Hlife : !LifeHost, Hfx : !FxHasher}.

(** What a program cancels while the foreground's own state stays. *)
Definition canceling {A} (m : Lm A) (c : SessionManager) (R : result A FlowStop → list CancelStep → Prop) : Prop :=
  wp m (λ r tr c', R r (omap cancel_step tr) ∧ c' = c) [] c.

Lemma wp_canceling {A} (m : Lm A) R Q tr c :
  canceling m c R → (∀ r new, R r (omap cancel_step new) → Q r (tr ++ new) c) → wp m Q tr c.
Proof. intros HM HQ w HW. destruct (HM w HW) as (new & E & HR & HC). exists new. rewrite HC. auto. Qed.

Lemma cancel_status_steps k c :
  canceling (apply_status k Canceled) c (λ r l, l = match r with Ok true => [Moved k] | _ => [] end).
Proof. unfold canceling, apply_status, status_of_handle. life. all: done. Qed.

(** The loaded session may be canceled so. *)
Definition cancelable (c : SessionManager) (capability : CancellationCapability) (k : SessionId) : bool :=
  match session_for_id (manager_state c) k with Some s => capability_allows capability s | None => false end.

(** The steps of one session. *)
Definition own_steps (k : SessionId) (moved : bool) : list CancelStep :=
  RunsCanceled k :: Stopped k :: if moved then [Moved k] else [].

Lemma own_steps_session k moved x : x ∈ own_steps k moved → step_session x = k.
Proof. unfold own_steps. destruct moved; set_solver. Qed.

(** The steps of several sessions, one after the other. *)
Definition each_steps (ks : list SessionId) (l : list CancelStep) : Prop :=
  ∃ moves, length moves = length ks ∧ l = concat (zip_with own_steps ks moves).

Lemma cancel_single_steps k capability c :
  canceling (cancel_single_session k capability) c (λ r l,
    match r with
    | Ok moved => if cancelable c capability k then l = own_steps k moved else moved = false ∧ capability = CancelDescendant ∧ l = []
    | Err _ => l = [] ∨ cancelable c capability k = true ∧ ∃ moved, l = own_steps k moved
    end).
Proof.
  unfold canceling, cancel_single_session, signal_session_cancellation, spawn_canceled_session_cleanup, cancelable.
  apply wp_bind, wp_session. destruct (session_for_id (manager_state c) k) as [s|]; [|by auto].
  destruct (capability_allows capability s) eqn:HA; cbn [negb]; [|destruct capability; life; by auto].
  life. all: try (eapply wp_canceling; [apply cancel_status_steps|]; intros r new HN; life).
  all: split; [|reflexivity]; rewrite ?omap_app; cbn [omap list_omap cancel_step app]; rewrite ?omap_app, ?HN.
  all: cbn [omap list_omap cancel_step app]; rewrite ?app_nil_r; try reflexivity; try by left.
  all: right; split; [reflexivity|]; first [by eexists|by exists false].
Qed.

Lemma cancel_each_steps ks failures c :
  canceling (cancel_each ks failures) c (λ r l,
    (∀ x, x ∈ l → step_session x ∈ ks ∧ cancelable c CancelDescendant (step_session x) = true) ∧
    match r with
    | Ok failed => (∃ more, failed = failures ++ more) ∧
        (failed = [] → each_steps (List.filter (cancelable c CancelDescendant) ks) l)
    | Err _ => True
    end).
Proof.
  revert failures. induction ks as [|k ks IH]; intros failures; unfold canceling; cbn [cancel_each].
  - life. split; [|done]. split; [by intros x ?%not_elem_of_nil|]. split; [exists []; by rewrite app_nil_r|]. by exists [].
  - apply wp_bind, wp_attempt. eapply wp_canceling; [apply cancel_single_steps|]. intros r new HR.
    assert (∀ x, x ∈ omap cancel_step new → cancelable c CancelDescendant k = true ∧ step_session x = k) as HX.
    { intros x. destruct r as [moved|e]; [destruct (cancelable c CancelDescendant k) eqn:E|].
      - rewrite HR. intros HI%own_steps_session. by split.
      - destruct HR as (_ & _ & ->). by intros ?%not_elem_of_nil.
      - destruct HR as [->|(E & moved & ->)]; [by intros ?%not_elem_of_nil|]. intros HI%own_steps_session. by split. }
    assert (∀ more, (∀ x, x ∈ omap cancel_step more → step_session x ∈ ks ∧ cancelable c CancelDescendant (step_session x) = true) →
      ∀ x, x ∈ omap cancel_step (new ++ more) → step_session x ∈ k :: ks ∧ cancelable c CancelDescendant (step_session x) = true) as HS.
    { intros more HM x. rewrite omap_app, elem_of_app. intros [HI|HI].
      - destruct (HX x HI) as [HC ->]. split; [by left|done].
      - destruct (HM x HI) as [HK HC]. split; [by right|done]. }
    destruct r as [moved|[e|]]; cbn beta iota.
    + rewrite app_nil_r. eapply wp_canceling; [apply IH|]. intros r more [HM HF]. split; [|done]. split; [by apply HS|].
      destruct r as [failed|e]; [|done]. destruct HF as [HP HF]. split; [done|]. intros HE. cbn [app]. rewrite omap_app.
      destruct (HF HE) as (moves & HL & ->). cbn [List.filter].
      destruct (cancelable c CancelDescendant k); [exists (moved :: moves); rewrite HR; cbn; by rewrite HL|].
      destruct HR as (_ & _ & ->). by exists moves.
    + eapply wp_canceling; [apply IH|]. intros r more [HM HF]. split; [|done]. split; [by apply HS|].
      destruct r as [failed|e']; [|done]. destruct HF as [[rest ->] _].
      split; [rewrite <- app_assoc; by eexists|]. intros HE. destruct failures; discriminate HE.
    + split; [|done]. split; [|done]. intros x HI. destruct (HX x HI) as [HC ->]. split; [by left|done].
Qed.

(** C24: a cancellation reaches the whole stack and nothing else.  Whatever happens,
    the only sessions whose agent runs are canceled, whose work is told to stop or that
    are moved to Canceled are the session itself and loaded descendants of it that can
    still be canceled; the foreground's own state stays (shared handles change).  When
    it succeeds, the session's own agent runs were canceled and its work was told to
    stop first; if the session was moved to Canceled, the same then happened to every
    loaded descendant that can still be canceled, one after the other, each once and
    parents first; if it was not moved (it had ended meanwhile), nothing else was
    stopped.  The loaded sessions have different ids. *)
Theorem cancellation_reaches_descendants (k : SessionId) (m : Lm unit) (w : Foreground) :
  let ss := sessions (manager_state (core w)) in
  m = cancel_session k ∨ m = cancel_managed_session k → NoDup (id <$> ss) →
  ∃ new, fg_calls (m w).2 = fg_calls w ++ new ∧ core (m w).2 = core w ∧
    (∀ x, x ∈ omap cancel_step new → step_session x = k
       ∨ descends ss k (step_session x) ∧ cancelable (core w) CancelDescendant (step_session x) = true) ∧
    ((m w).1 = Ok tt →
     ∃ moved below, omap cancel_step new = own_steps k moved ++ below ∧
       if moved : bool then
         ∃ order, (∀ d, d ∈ order ↔ descends ss k d) ∧ NoDup order ∧ parents_first ss k order ∧
           each_steps (List.filter (cancelable (core w) CancelDescendant) order) below
       else below = []).
Proof.
  intros ss HM HU. subst ss. cut (∀ c capability, capability ≠ CancelDescendant → NoDup (id <$> sessions (manager_state c)) →
    canceling (cancel_with k capability) c (λ r l,
      (∀ x, x ∈ l → step_session x = k
         ∨ descends (sessions (manager_state c)) k (step_session x) ∧ cancelable c CancelDescendant (step_session x) = true) ∧
      (r = Ok tt → ∃ moved below, l = own_steps k moved ++ below ∧
       if moved : bool then
         ∃ order, (∀ d, d ∈ order ↔ descends (sessions (manager_state c)) k d) ∧ NoDup order ∧
           parents_first (sessions (manager_state c)) k order ∧
           each_steps (List.filter (cancelable c CancelDescendant) order) below
       else below = []))).
  { intros HW. destruct HM as [-> | ->].
    - destruct (HW (core w) CancelByUser ltac:(done) HU w eq_refl) as (new & E & [HR HO] & HC). eauto.
    - destruct (HW (core w) CancelManaged ltac:(done) HU w eq_refl) as (new & E & [HR HO] & HC). eauto. }
  clear w m HM HU. intros c capability HQ HU. unfold canceling, cancel_with, cancel_stacked_child_sessions.
  apply wp_bind. eapply wp_canceling; [apply cancel_single_steps|]. intros r new HR. destruct r as [moved|e]; cbn [app].
  - destruct (cancelable c capability k); [|by destruct HR as (_ & ? & _)]. destruct moved; cbn beta iota.
    + apply wp_bind, wp_gets; [done|]. cbn beta iota.
      destruct (descendants_are_found (sessions (manager_state c)) k HU) as (below & -> & HN & HB & HF).
      apply wp_bind, wp_expect. cbn beta iota. apply wp_bind. eapply wp_canceling; [apply cancel_each_steps|].
      intros r more [HM HE]. assert (∀ x, x ∈ omap cancel_step (new ++ more) → step_session x = k
        ∨ descends (sessions (manager_state c)) k (step_session x) ∧ cancelable c CancelDescendant (step_session x) = true) as HD.
      { intros x. rewrite omap_app, HR, elem_of_app. intros [HI|HI]; [left; by eapply own_steps_session|right].
        destruct (HM x HI) as [HK HC]. split; [by apply HB|done]. }
      destruct r as [[|f fs]|e]; life; (split; [split; [exact HD|]|reflexivity]); [|congruence..].
      intros _. exists true, (omap cancel_step more). rewrite omap_app, HR. split; [done|]. exists below. destruct HE as [_ HE]. auto.
    + life. split; [|done]. rewrite HR. split; [intros x HI; left; by eapply own_steps_session|].
      intros _. exists false, []. by rewrite app_nil_r.
  - split; [|done]. split; [|congruence]. intros x HI. left. destruct HR as [HR|(_ & moved & HR)]; rewrite HR in HI;
      [by apply not_elem_of_nil in HI|by eapply own_steps_session].
Qed.
End cancellation.

Module LifeDemo.
(** A host whose answers are the simplest ones. *)
Definition plain (A : Set) (c : LifeCall A) : A.
Proof.
  destruct c; first
    [ exact tt | exact false | exact (Ok tt) | exact (Ok None) | exact (Ok true) | exact None | exact [] | exact [47%N] | exact 0%Z
    | exact (Ok [47%N]) | exact fallback | exact (Ok 0%Z) | exact (Ok ReasoningLevel_default) | exact (Ok ResponseStyle_default)
    | exact (Ok SpeedMode_default) ].
Defined.

Definition first_id : str := L"0123456789abcdef".

(** Git makes worktrees; the provider's setup works when [sets_up]. *)
Definition answers (sets_up : bool) (A : Set) (n : nat) (c : LifeCall A) : A :=
  match c in LifeCall B return B with
  | NewUuid => first_id
  | BasePath => L"/base"
  | LoadPreparation k => Ok (Some (mkPreparationRow None None k (L"main") Preparing))
  | LoadRow _ => Ok (Some (mkRowView (L"codex") (L"gpt") (Some 1%Z) None))
  | LoadProjectId _ => Ok (Some 1%Z)
  | GetProject _ => Ok (Some (L"/repo"))
  | LifeFindRepoRoot _ => Some (L"/repo")
  | PathIsDir _ => true
  | SetupBackend _ _ => if sets_up then Ok tt else Err (L"no provider")
  | c => plain _ c
  end.

#[local] Instance host (sets_up : bool) : LifeHost := {|
  life_answer := answers sets_up;
  preparation_reserved _ _ := false;
  shared_handles _ hs := hs
|}.

(** A session under review with two stacked ones, one below the other. *)
Definition stack : list Session :=
  [sample_session (L"parent00") None Review; sample_session (L"child000") (Some (L"parent00")) Review;
   sample_session (L"leaf0000") (Some (L"child000")) Done].
Definition idle (k : SessionId) : SessionId * SessionHandles := (k, SessionHandles_new Review).
Definition first_world : Foreground :=
  mkForeground (mkManager ∅ (SessionState_new (list_to_map (idle <$> [L"parent00"; L"child000"; L"leaf0000"])) stack None 3 0) ∅ ∅ ∅ ∅ [])
    Gpt56Sol [].

Definition settings : SessionCreationSettings :=
  mkCreationSettings (AgentSelection_new Codex Gpt56Sol) AutoEdit None High Balanced Worker Normal.
Definition creation : Lm str := create_session_for_project (Hlife := host true) 1 (L"main") (L"/repo") (Some settings) CreateWorker.
Definition failed_creation : Lm str :=
  create_session_for_project (Hlife := host false) 1 (L"main") (L"/repo") (Some settings) CreateWorker.

Definition folder : str := L"/base/01234567".
Definition branch : str := L"wt/01234567".

Lemma creation_is_all_or_nothing_witness :
  (creation first_world).1 = Ok first_id
  ∧ omap life_change (fg_calls (creation first_world).2)
    = [RowReserved first_id; WorktreeMade folder branch; RowReady first_id]
  ∧ omap life_change (fg_calls (failed_creation first_world).2)
    = [RowReserved first_id; WorktreeMade folder branch; RowDeleted first_id true; WorktreeRemoved folder true;
       BranchDeleted branch true; FolderRemoved folder true; FolderRemoved (L"/tmp/0123456789abcdef") true]
  ∧ ∃ new, fg_calls (failed_creation first_world).2 = fg_calls first_world ++ new
           ∧ created (L"/base") (failed_creation first_world).1 (omap life_change new)
           ∧ (∀ e, (failed_creation first_world).1 = Err e → existsb removal_failed (omap life_change new) = false →
                left_over (omap life_change new) = []).
Proof.
  split; [vm_compute; reflexivity|]. split; [vm_compute; reflexivity|]. split; [vm_compute; reflexivity|].
  apply (creation_is_all_or_nothing (Hlife := host false) (L"/base")).
  - reflexivity.
  - intros n k row [= <-]. reflexivity.
  - intros n [H|H]; vm_compute in H; discriminate H.
  - left. do 5 eexists. reflexivity.
Defined.

Lemma cancellation_reaches_descendants_witness :
  let m := cancel_session (Hlife := host true) (L"parent00") in
  let parent := L"parent00" in
  (m first_world).1 = Ok tt
  ∧ omap cancel_step (fg_calls (m first_world).2) = own_steps parent true ++ own_steps (L"child000") true
  ∧ ∃ new, fg_calls (m first_world).2 = fg_calls first_world ++ new ∧ core (m first_world).2 = core first_world ∧
    (∀ x, x ∈ omap cancel_step new → step_session x = parent
       ∨ descends stack parent (step_session x) ∧ cancelable (core first_world) CancelDescendant (step_session x) = true) ∧
    ((m first_world).1 = Ok tt →
     ∃ moved below, omap cancel_step new = own_steps parent moved ++ below ∧
       if moved : bool then
         ∃ order, (∀ d, d ∈ order ↔ descends stack parent d) ∧ NoDup order ∧ parents_first stack parent order ∧
           each_steps (List.filter (cancelable (core first_world) CancelDescendant) order) below
       else below = []).
Proof.
  intros m parent. split; [vm_compute; reflexivity|]. split; [vm_compute; reflexivity|].
  apply (cancellation_reaches_descendants (Hlife := host true) parent m first_world); [by left|].
  apply (bool_decide_eq_true_1 _). vm_compute. reflexivity.
Defined.

(** Two images of a second draft change places: the number given to the first one is
    still the old number of the second one, and the first occurrence is replaced. *)
Definition second_draft : TurnPrompt :=
  mkPrompt [mkAttachment (L"/tmp/before.png") (L"[Image #1]"); mkAttachment (L"/tmp/after.png") (L"[Image #2]")]
    (L"before [Image #1], after [Image #2]") SourceUserPrompt.

Example staging_swaps_images :
  renumbered_prompt_text second_draft 2 = L"before [Image #3], after [Image #2]"
  ∧ renumbered_attachments second_draft 2
    = [mkAttachment (L"/tmp/before.png") (L"[Image #2]"); mkAttachment (L"/tmp/after.png") (L"[Image #3]")].
Proof. split; vm_compute; reflexivity. Qed.
End LifeDemo.
