(* ===== verification/EventBatch.v ===== *)
(** * Application events (crates/agentty/src/app/core/event.rs, app/reducer.rs)

    What background tasks report, the batch one foreground cycle collects from
    the queue, and the plan of external effects drawn from it. *)
From stdpp Require Import gmap.
From S2P Require Import Prelude Contracts Agent Lifecycle Transcript Transient Prompt Input Review Session SessionState FileEntry SessionManager ReviewCache FocusedReview ToolCalls Forge SyncPasses Json Flow BranchPublish Commits RebaseFlow MergeFlow ProjectSync.

(** ** Payloads *)

Inductive AgentCliVersion := VersionLoading | VersionUnknown | VersionValue (value : str).

Record AgentCliInfo := mkCliInfo { executable_name : str; cli_kind : AgentKind; cli_version : AgentCliVersion }.

Inductive UpdateStatus := UpdateInProgress (version : str) | UpdateComplete (version : str) | UpdateFailed (version : str).

Inductive WorktreeFileContent := FileText (content : str) | FileMissing | FileBinary | FileTooLarge.

Record DiffPreviewUpdate := mkPreviewUpdate {
  preview_path : str;
  preview_request_id : Z;
  preview_result : result WorktreeFileContent str;
  preview_session_id : SessionId
}.

Record CommentSnapshotUpdate := mkSnapshotUpdate {
  snapshot_request_id : Z;
  snapshot_result : result ReviewCommentSnapshot str;
  snapshot_session_id : SessionId
}.

Record GitStatusBatchUpdate := mkGitStatusUpdate { batch_generation : Z; batch_status : option (Z * Z) }.

Record PublishedBranchSyncUpdate := mkSyncUpdate {
  persistent_notice : option str;
  sync_operation : str;
  sync_status : PublishedBranchSyncStatus
}.

Record ReviewRequestStatusUpdate := mkStatusUpdate {
  status_generation : Z;
  status_result : result SyncReviewRequestTaskResult str;
  status_session_id : SessionId
}.

(** ** Events *)

Inductive AppEvent :=
| SessionCreationCompleted (request_id : str) (r : result str str)
| AtMentionEntriesLoaded (entries : list FileEntry) (k : SessionId)
| DiffPreviewLoaded (path : str) (request_id : Z) (r : result WorktreeFileContent str) (k : SessionId)
| SessionDiffLoaded (request_id : Z) (r : result str str) (k : SessionId)
| GitStatusUpdated (generation : Z) (session_statuses : gmap SessionId SessionGitStatus) (status : option (Z * Z))
| VersionAvailabilityUpdated (latest_available_version : option str)
| AgentCliVersionsUpdated (agent_clis : list AgentCliInfo)
| UpdateStatusChanged (s : UpdateStatus)
| SessionModelUpdated (k : SessionId) (session_agent : AgentSelection)
| SessionPersonalityUpdated (personality_id : option str) (k : SessionId)
| SessionPermissionModeUpdated (permission_mode : PermissionMode) (k : SessionId)
| SessionReasoningLevelUpdated (reasoning_level : ReasoningLevel) (k : SessionId)
| SessionResponseStyleUpdated (response_style : ResponseStyle) (k : SessionId)
| SessionSpeedModeUpdated (k : SessionId) (speed_mode : SpeedMode)
| RefreshSessions
| RefreshProjects
| RefreshGitStatus
| SessionReviewCommentSnapshotLoaded (request_id : Z) (r : result ReviewCommentSnapshot str) (k : SessionId)
| SessionProgressUpdated (progress_message : option str) (k : SessionId)
| SyncMainCompleted (completion : SyncMainCompletion)
| SyncMainConflictResolutionStarted (conflicted_files : list str) (operation : ProjectSyncContext)
| SessionDiffStatsUpdated (diff_stats : SessionDiffStats) (k : SessionId)
| SessionTitleGenerationFinished (generation : Z) (k : SessionId)
| BranchPublishActionCompleted (r : BranchPublishTaskResult) (k : SessionId)
| BranchPublishActionResolved (k : SessionId)
| BranchPublishActionStarted (k : SessionId)
| SessionQueuedSyncResolved (k : SessionId)
| SessionTurnStarted (k : SessionId)
| ReviewPrepared (request_id diff_hash : Z) (review_text : str) (k : SessionId)
| ReviewProgressUpdated (request_id diff_hash : Z) (progress : ReviewProgress) (k : SessionId)
| ReviewPreparationFailed (request_id diff_hash : Z) (error : str) (k : SessionId)
| DeferredAutoReviewRetry (retry : DeferredAutoReviewPersistenceRetry)
| FocusedReviewRetry (retry : FocusedReviewPersistenceRetry)
| SessionUpdated (k : SessionId) (version : Z)
| AgentResponseReceived (k : SessionId) (turn_applied_state : TurnAppliedState)
| StackedParentTurnCompleted (k : SessionId)
| StackedParentSyncCompleted (k : SessionId)
| StackedParentMergeCompleted (child_session_ids : list SessionId)
| SessionWorkflowNoticeUpdated (notice : str) (k : SessionId)
| SessionOrchestrationProgressUpdated (progress : option str) (k : SessionId)
| PublishedBranchSyncUpdated (notice : option str) (k : SessionId) (operation : str) (s : PublishedBranchSyncStatus)
| ReviewRequestStatusUpdated (generation : Z) (r : result SyncReviewRequestTaskResult str) (k : SessionId).

(** ** The batch *)

(** Lists keep the order of their events. *)
Record BatchQueues := mkBatchQueues {
  branch_publish_action_updates : list (BranchPublishTaskResult * SessionId);
  deferred_auto_review_persistence_retries : list DeferredAutoReviewPersistenceRetry;
  diff_preview_updates : list DiffPreviewUpdate;
  focused_review_persistence_retries : list FocusedReviewPersistenceRetry;
  published_branch_sync_updates : list (SessionId * PublishedBranchSyncUpdate);
  review_progress_updates : list (SessionId * Z * Z * ReviewProgress);
  review_request_status_updates : list ReviewRequestStatusUpdate;
  review_updates : list (SessionId * ReviewUpdate);
  session_creations : list (str * result str str);
  session_diff_updates : list SessionDiffUpdate;
  session_review_comment_snapshots : list CommentSnapshotUpdate
}.

(** Touched sessions. *)
Record BatchSets := mkBatchSets {
  branch_publish_resolved_session_ids : gset SessionId;
  branch_publish_started_session_ids : gset SessionId;
  session_ids : gset SessionId;
  session_queued_sync_resolved_ids : gset SessionId;
  session_turn_started_ids : gset SessionId;
  stacked_parent_merge_child_rebases : gset SessionId;
  stacked_parent_syncs_completed : gset SessionId;
  stacked_parent_turns_completed : gset SessionId
}.

(** The latest projection of each session; turns and notices accumulate. *)
Record BatchMaps := mkBatchMaps {
  applied_turns : gmap SessionId TurnAppliedState;
  at_mention_entries_updates : gmap SessionId (list FileEntry);
  session_diff_stats_updates : gmap SessionId SessionDiffStats;
  session_git_status_updates : gmap SessionId SessionGitStatus;
  session_model_updates : gmap SessionId AgentSelection;
  session_orchestration_progress_updates : gmap SessionId (option str);
  session_permission_mode_updates : gmap SessionId PermissionMode;
  session_personality_updates : gmap SessionId (option str);
  session_progress_updates : gmap SessionId (option str);
  session_reasoning_level_updates : gmap SessionId ReasoningLevel;
  session_response_style_updates : gmap SessionId ResponseStyle;
  session_speed_mode_updates : gmap SessionId SpeedMode;
  session_title_generation_finished : gmap SessionId Z;
  session_update_versions : gmap SessionId Z;
  session_workflow_notice_updates : gmap SessionId (list str)
}.

(** The latest of its kind. *)
Record BatchLatest := mkBatchLatest {
  agent_cli_updates : option (list AgentCliInfo);
  git_status_update : option GitStatusBatchUpdate;
  latest_available_version_update : option (option str);
  sync_main_completion : option SyncMainCompletion;
  sync_main_conflict : option (ProjectSyncContext * list str);
  update_status : option UpdateStatus
}.

(** What to reload. *)
Record BatchFlags := mkBatchFlags {
  should_refresh_git_status : bool;
  should_reload_projects : bool;
  should_reload_sessions : bool
}.

Record AppEventBatch := mkBatch {
  queues : BatchQueues;
  sets : BatchSets;
  maps : BatchMaps;
  latest : BatchLatest;
  flags : BatchFlags
}.

Definition AppEventBatch_default : AppEventBatch :=
  mkBatch (mkBatchQueues [] [] [] [] [] [] [] [] [] [] [])
    (mkBatchSets ∅ ∅ ∅ ∅ ∅ ∅ ∅ ∅)
    (mkBatchMaps ∅ ∅ ∅ ∅ ∅ ∅ ∅ ∅ ∅ ∅ ∅ ∅ ∅ ∅ ∅)
    (mkBatchLatest None None None None None None)
    (mkBatchFlags false false false).

Definition on_branch_publish_action_updates (f : list (BranchPublishTaskResult * SessionId) → list
    (BranchPublishTaskResult * SessionId)) (b : AppEventBatch) : AppEventBatch :=
  let x := queues b in
  mkBatch (mkBatchQueues (f (branch_publish_action_updates x)) (deferred_auto_review_persistence_retries x)
    (diff_preview_updates x) (focused_review_persistence_retries x) (published_branch_sync_updates x)
    (review_progress_updates x) (review_request_status_updates x) (review_updates x) (session_creations x)
    (session_diff_updates x) (session_review_comment_snapshots x)) (sets b) (maps b) (latest b) (flags b).

Definition on_deferred_auto_review_persistence_retries (f : list DeferredAutoReviewPersistenceRetry → list
    DeferredAutoReviewPersistenceRetry) (b : AppEventBatch) : AppEventBatch :=
  let x := queues b in
  mkBatch (mkBatchQueues (branch_publish_action_updates x) (f (deferred_auto_review_persistence_retries x))
    (diff_preview_updates x) (focused_review_persistence_retries x) (published_branch_sync_updates x)
    (review_progress_updates x) (review_request_status_updates x) (review_updates x) (session_creations x)
    (session_diff_updates x) (session_review_comment_snapshots x)) (sets b) (maps b) (latest b) (flags b).

Definition on_diff_preview_updates (f : list DiffPreviewUpdate → list DiffPreviewUpdate) (b : AppEventBatch) :
    AppEventBatch :=
  let x := queues b in
  mkBatch (mkBatchQueues (branch_publish_action_updates x) (deferred_auto_review_persistence_retries x)
    (f (diff_preview_updates x)) (focused_review_persistence_retries x) (published_branch_sync_updates x)
    (review_progress_updates x) (review_request_status_updates x) (review_updates x) (session_creations x)
    (session_diff_updates x) (session_review_comment_snapshots x)) (sets b) (maps b) (latest b) (flags b).

Definition on_focused_review_persistence_retries (f : list FocusedReviewPersistenceRetry → list
    FocusedReviewPersistenceRetry) (b : AppEventBatch) : AppEventBatch :=
  let x := queues b in
  mkBatch (mkBatchQueues (branch_publish_action_updates x) (deferred_auto_review_persistence_retries x)
    (diff_preview_updates x) (f (focused_review_persistence_retries x)) (published_branch_sync_updates x)
    (review_progress_updates x) (review_request_status_updates x) (review_updates x) (session_creations x)
    (session_diff_updates x) (session_review_comment_snapshots x)) (sets b) (maps b) (latest b) (flags b).

Definition on_published_branch_sync_updates (f : list (SessionId * PublishedBranchSyncUpdate) → list (SessionId
    * PublishedBranchSyncUpdate)) (b : AppEventBatch) : AppEventBatch :=
  let x := queues b in
  mkBatch (mkBatchQueues (branch_publish_action_updates x) (deferred_auto_review_persistence_retries x)
    (diff_preview_updates x) (focused_review_persistence_retries x) (f (published_branch_sync_updates x))
    (review_progress_updates x) (review_request_status_updates x) (review_updates x) (session_creations x)
    (session_diff_updates x) (session_review_comment_snapshots x)) (sets b) (maps b) (latest b) (flags b).

Definition on_review_progress_updates (f : list (SessionId * Z * Z * ReviewProgress) → list (SessionId * Z * Z *
    ReviewProgress)) (b : AppEventBatch) : AppEventBatch :=
  let x := queues b in
  mkBatch (mkBatchQueues (branch_publish_action_updates x) (deferred_auto_review_persistence_retries x)
    (diff_preview_updates x) (focused_review_persistence_retries x) (published_branch_sync_updates x)
    (f (review_progress_updates x)) (review_request_status_updates x) (review_updates x) (session_creations x)
    (session_diff_updates x) (session_review_comment_snapshots x)) (sets b) (maps b) (latest b) (flags b).

Definition on_review_request_status_updates (f : list ReviewRequestStatusUpdate → list
    ReviewRequestStatusUpdate) (b : AppEventBatch) : AppEventBatch :=
  let x := queues b in
  mkBatch (mkBatchQueues (branch_publish_action_updates x) (deferred_auto_review_persistence_retries x)
    (diff_preview_updates x) (focused_review_persistence_retries x) (published_branch_sync_updates x)
    (review_progress_updates x) (f (review_request_status_updates x)) (review_updates x) (session_creations x)
    (session_diff_updates x) (session_review_comment_snapshots x)) (sets b) (maps b) (latest b) (flags b).

Definition on_review_updates (f : list (SessionId * ReviewUpdate) → list (SessionId * ReviewUpdate)) (b :
    AppEventBatch) : AppEventBatch :=
  let x := queues b in
  mkBatch (mkBatchQueues (branch_publish_action_updates x) (deferred_auto_review_persistence_retries x)
    (diff_preview_updates x) (focused_review_persistence_retries x) (published_branch_sync_updates x)
    (review_progress_updates x) (review_request_status_updates x) (f (review_updates x)) (session_creations x)
    (session_diff_updates x) (session_review_comment_snapshots x)) (sets b) (maps b) (latest b) (flags b).

Definition on_session_creations (f : list (str * result str str) → list (str * result str str)) (b :
    AppEventBatch) : AppEventBatch :=
  let x := queues b in
  mkBatch (mkBatchQueues (branch_publish_action_updates x) (deferred_auto_review_persistence_retries x)
    (diff_preview_updates x) (focused_review_persistence_retries x) (published_branch_sync_updates x)
    (review_progress_updates x) (review_request_status_updates x) (review_updates x) (f (session_creations x))
    (session_diff_updates x) (session_review_comment_snapshots x)) (sets b) (maps b) (latest b) (flags b).

Definition on_session_diff_updates (f : list SessionDiffUpdate → list SessionDiffUpdate) (b : AppEventBatch) :
    AppEventBatch :=
  let x := queues b in
  mkBatch (mkBatchQueues (branch_publish_action_updates x) (deferred_auto_review_persistence_retries x)
    (diff_preview_updates x) (focused_review_persistence_retries x) (published_branch_sync_updates x)
    (review_progress_updates x) (review_request_status_updates x) (review_updates x) (session_creations x)
    (f (session_diff_updates x)) (session_review_comment_snapshots x)) (sets b) (maps b) (latest b) (flags b).

Definition on_session_review_comment_snapshots (f : list CommentSnapshotUpdate → list CommentSnapshotUpdate) (b
    : AppEventBatch) : AppEventBatch :=
  let x := queues b in
  mkBatch (mkBatchQueues (branch_publish_action_updates x) (deferred_auto_review_persistence_retries x)
    (diff_preview_updates x) (focused_review_persistence_retries x) (published_branch_sync_updates x)
    (review_progress_updates x) (review_request_status_updates x) (review_updates x) (session_creations x)
    (session_diff_updates x) (f (session_review_comment_snapshots x))) (sets b) (maps b) (latest b) (flags b).

Definition on_branch_publish_resolved_session_ids (f : gset SessionId → gset SessionId) (b : AppEventBatch) :
    AppEventBatch :=
  let x := sets b in
  mkBatch (queues b) (mkBatchSets (f (branch_publish_resolved_session_ids x))
    (branch_publish_started_session_ids x) (session_ids x) (session_queued_sync_resolved_ids x)
    (session_turn_started_ids x) (stacked_parent_merge_child_rebases x) (stacked_parent_syncs_completed x)
    (stacked_parent_turns_completed x)) (maps b) (latest b) (flags b).

Definition on_branch_publish_started_session_ids (f : gset SessionId → gset SessionId) (b : AppEventBatch) :
    AppEventBatch :=
  let x := sets b in
  mkBatch (queues b) (mkBatchSets (branch_publish_resolved_session_ids x)
    (f (branch_publish_started_session_ids x)) (session_ids x) (session_queued_sync_resolved_ids x)
    (session_turn_started_ids x) (stacked_parent_merge_child_rebases x) (stacked_parent_syncs_completed x)
    (stacked_parent_turns_completed x)) (maps b) (latest b) (flags b).

Definition on_session_ids (f : gset SessionId → gset SessionId) (b : AppEventBatch) : AppEventBatch :=
  let x := sets b in
  mkBatch (queues b) (mkBatchSets (branch_publish_resolved_session_ids x) (branch_publish_started_session_ids x)
    (f (session_ids x)) (session_queued_sync_resolved_ids x) (session_turn_started_ids x)
    (stacked_parent_merge_child_rebases x) (stacked_parent_syncs_completed x)
    (stacked_parent_turns_completed x)) (maps b) (latest b) (flags b).

Definition on_session_queued_sync_resolved_ids (f : gset SessionId → gset SessionId) (b : AppEventBatch) :
    AppEventBatch :=
  let x := sets b in
  mkBatch (queues b) (mkBatchSets (branch_publish_resolved_session_ids x) (branch_publish_started_session_ids x)
    (session_ids x) (f (session_queued_sync_resolved_ids x)) (session_turn_started_ids x)
    (stacked_parent_merge_child_rebases x) (stacked_parent_syncs_completed x)
    (stacked_parent_turns_completed x)) (maps b) (latest b) (flags b).

Definition on_session_turn_started_ids (f : gset SessionId → gset SessionId) (b : AppEventBatch) : AppEventBatch
    :=
  let x := sets b in
  mkBatch (queues b) (mkBatchSets (branch_publish_resolved_session_ids x) (branch_publish_started_session_ids x)
    (session_ids x) (session_queued_sync_resolved_ids x) (f (session_turn_started_ids x))
    (stacked_parent_merge_child_rebases x) (stacked_parent_syncs_completed x)
    (stacked_parent_turns_completed x)) (maps b) (latest b) (flags b).

Definition on_stacked_parent_merge_child_rebases (f : gset SessionId → gset SessionId) (b : AppEventBatch) :
    AppEventBatch :=
  let x := sets b in
  mkBatch (queues b) (mkBatchSets (branch_publish_resolved_session_ids x) (branch_publish_started_session_ids x)
    (session_ids x) (session_queued_sync_resolved_ids x) (session_turn_started_ids x)
    (f (stacked_parent_merge_child_rebases x)) (stacked_parent_syncs_completed x)
    (stacked_parent_turns_completed x)) (maps b) (latest b) (flags b).

Definition on_stacked_parent_syncs_completed (f : gset SessionId → gset SessionId) (b : AppEventBatch) :
    AppEventBatch :=
  let x := sets b in
  mkBatch (queues b) (mkBatchSets (branch_publish_resolved_session_ids x) (branch_publish_started_session_ids x)
    (session_ids x) (session_queued_sync_resolved_ids x) (session_turn_started_ids x)
    (stacked_parent_merge_child_rebases x) (f (stacked_parent_syncs_completed x))
    (stacked_parent_turns_completed x)) (maps b) (latest b) (flags b).

Definition on_stacked_parent_turns_completed (f : gset SessionId → gset SessionId) (b : AppEventBatch) :
    AppEventBatch :=
  let x := sets b in
  mkBatch (queues b) (mkBatchSets (branch_publish_resolved_session_ids x) (branch_publish_started_session_ids x)
    (session_ids x) (session_queued_sync_resolved_ids x) (session_turn_started_ids x)
    (stacked_parent_merge_child_rebases x) (stacked_parent_syncs_completed x)
    (f (stacked_parent_turns_completed x))) (maps b) (latest b) (flags b).

Definition on_applied_turns (f : gmap SessionId TurnAppliedState → gmap SessionId TurnAppliedState) (b :
    AppEventBatch) : AppEventBatch :=
  let x := maps b in
  mkBatch (queues b) (sets b) (mkBatchMaps (f (applied_turns x)) (at_mention_entries_updates x)
    (session_diff_stats_updates x) (session_git_status_updates x) (session_model_updates x)
    (session_orchestration_progress_updates x) (session_permission_mode_updates x)
    (session_personality_updates x) (session_progress_updates x) (session_reasoning_level_updates x)
    (session_response_style_updates x) (session_speed_mode_updates x) (session_title_generation_finished x)
    (session_update_versions x) (session_workflow_notice_updates x)) (latest b) (flags b).

Definition on_at_mention_entries_updates (f : gmap SessionId (list FileEntry) → gmap SessionId (list FileEntry))
    (b : AppEventBatch) : AppEventBatch :=
  let x := maps b in
  mkBatch (queues b) (sets b) (mkBatchMaps (applied_turns x) (f (at_mention_entries_updates x))
    (session_diff_stats_updates x) (session_git_status_updates x) (session_model_updates x)
    (session_orchestration_progress_updates x) (session_permission_mode_updates x)
    (session_personality_updates x) (session_progress_updates x) (session_reasoning_level_updates x)
    (session_response_style_updates x) (session_speed_mode_updates x) (session_title_generation_finished x)
    (session_update_versions x) (session_workflow_notice_updates x)) (latest b) (flags b).

Definition on_session_diff_stats_updates (f : gmap SessionId SessionDiffStats → gmap SessionId SessionDiffStats)
    (b : AppEventBatch) : AppEventBatch :=
  let x := maps b in
  mkBatch (queues b) (sets b) (mkBatchMaps (applied_turns x) (at_mention_entries_updates x)
    (f (session_diff_stats_updates x)) (session_git_status_updates x) (session_model_updates x)
    (session_orchestration_progress_updates x) (session_permission_mode_updates x)
    (session_personality_updates x) (session_progress_updates x) (session_reasoning_level_updates x)
    (session_response_style_updates x) (session_speed_mode_updates x) (session_title_generation_finished x)
    (session_update_versions x) (session_workflow_notice_updates x)) (latest b) (flags b).

Definition on_session_git_status_updates (f : gmap SessionId SessionGitStatus → gmap SessionId SessionGitStatus)
    (b : AppEventBatch) : AppEventBatch :=
  let x := maps b in
  mkBatch (queues b) (sets b) (mkBatchMaps (applied_turns x) (at_mention_entries_updates x)
    (session_diff_stats_updates x) (f (session_git_status_updates x)) (session_model_updates x)
    (session_orchestration_progress_updates x) (session_permission_mode_updates x)
    (session_personality_updates x) (session_progress_updates x) (session_reasoning_level_updates x)
    (session_response_style_updates x) (session_speed_mode_updates x) (session_title_generation_finished x)
    (session_update_versions x) (session_workflow_notice_updates x)) (latest b) (flags b).

Definition on_session_model_updates (f : gmap SessionId AgentSelection → gmap SessionId AgentSelection) (b :
    AppEventBatch) : AppEventBatch :=
  let x := maps b in
  mkBatch (queues b) (sets b) (mkBatchMaps (applied_turns x) (at_mention_entries_updates x)
    (session_diff_stats_updates x) (session_git_status_updates x) (f (session_model_updates x))
    (session_orchestration_progress_updates x) (session_permission_mode_updates x)
    (session_personality_updates x) (session_progress_updates x) (session_reasoning_level_updates x)
    (session_response_style_updates x) (session_speed_mode_updates x) (session_title_generation_finished x)
    (session_update_versions x) (session_workflow_notice_updates x)) (latest b) (flags b).

Definition on_session_orchestration_progress_updates (f : gmap SessionId (option str) → gmap SessionId (option
    str)) (b : AppEventBatch) : AppEventBatch :=
  let x := maps b in
  mkBatch (queues b) (sets b) (mkBatchMaps (applied_turns x) (at_mention_entries_updates x)
    (session_diff_stats_updates x) (session_git_status_updates x) (session_model_updates x)
    (f (session_orchestration_progress_updates x)) (session_permission_mode_updates x)
    (session_personality_updates x) (session_progress_updates x) (session_reasoning_level_updates x)
    (session_response_style_updates x) (session_speed_mode_updates x) (session_title_generation_finished x)
    (session_update_versions x) (session_workflow_notice_updates x)) (latest b) (flags b).

Definition on_session_permission_mode_updates (f : gmap SessionId PermissionMode → gmap SessionId
    PermissionMode) (b : AppEventBatch) : AppEventBatch :=
  let x := maps b in
  mkBatch (queues b) (sets b) (mkBatchMaps (applied_turns x) (at_mention_entries_updates x)
    (session_diff_stats_updates x) (session_git_status_updates x) (session_model_updates x)
    (session_orchestration_progress_updates x) (f (session_permission_mode_updates x))
    (session_personality_updates x) (session_progress_updates x) (session_reasoning_level_updates x)
    (session_response_style_updates x) (session_speed_mode_updates x) (session_title_generation_finished x)
    (session_update_versions x) (session_workflow_notice_updates x)) (latest b) (flags b).

Definition on_session_personality_updates (f : gmap SessionId (option str) → gmap SessionId (option str)) (b :
    AppEventBatch) : AppEventBatch :=
  let x := maps b in
  mkBatch (queues b) (sets b) (mkBatchMaps (applied_turns x) (at_mention_entries_updates x)
    (session_diff_stats_updates x) (session_git_status_updates x) (session_model_updates x)
    (session_orchestration_progress_updates x) (session_permission_mode_updates x)
    (f (session_personality_updates x)) (session_progress_updates x) (session_reasoning_level_updates x)
    (session_response_style_updates x) (session_speed_mode_updates x) (session_title_generation_finished x)
    (session_update_versions x) (session_workflow_notice_updates x)) (latest b) (flags b).

Definition on_session_progress_updates (f : gmap SessionId (option str) → gmap SessionId (option str)) (b :
    AppEventBatch) : AppEventBatch :=
  let x := maps b in
  mkBatch (queues b) (sets b) (mkBatchMaps (applied_turns x) (at_mention_entries_updates x)
    (session_diff_stats_updates x) (session_git_status_updates x) (session_model_updates x)
    (session_orchestration_progress_updates x) (session_permission_mode_updates x)
    (session_personality_updates x) (f (session_progress_updates x)) (session_reasoning_level_updates x)
    (session_response_style_updates x) (session_speed_mode_updates x) (session_title_generation_finished x)
    (session_update_versions x) (session_workflow_notice_updates x)) (latest b) (flags b).

Definition on_session_reasoning_level_updates (f : gmap SessionId ReasoningLevel → gmap SessionId
    ReasoningLevel) (b : AppEventBatch) : AppEventBatch :=
  let x := maps b in
  mkBatch (queues b) (sets b) (mkBatchMaps (applied_turns x) (at_mention_entries_updates x)
    (session_diff_stats_updates x) (session_git_status_updates x) (session_model_updates x)
    (session_orchestration_progress_updates x) (session_permission_mode_updates x)
    (session_personality_updates x) (session_progress_updates x) (f (session_reasoning_level_updates x))
    (session_response_style_updates x) (session_speed_mode_updates x) (session_title_generation_finished x)
    (session_update_versions x) (session_workflow_notice_updates x)) (latest b) (flags b).

Definition on_session_response_style_updates (f : gmap SessionId ResponseStyle → gmap SessionId ResponseStyle)
    (b : AppEventBatch) : AppEventBatch :=
  let x := maps b in
  mkBatch (queues b) (sets b) (mkBatchMaps (applied_turns x) (at_mention_entries_updates x)
    (session_diff_stats_updates x) (session_git_status_updates x) (session_model_updates x)
    (session_orchestration_progress_updates x) (session_permission_mode_updates x)
    (session_personality_updates x) (session_progress_updates x) (session_reasoning_level_updates x)
    (f (session_response_style_updates x)) (session_speed_mode_updates x) (session_title_generation_finished x)
    (session_update_versions x) (session_workflow_notice_updates x)) (latest b) (flags b).

Definition on_session_speed_mode_updates (f : gmap SessionId SpeedMode → gmap SessionId SpeedMode) (b :
    AppEventBatch) : AppEventBatch :=
  let x := maps b in
  mkBatch (queues b) (sets b) (mkBatchMaps (applied_turns x) (at_mention_entries_updates x)
    (session_diff_stats_updates x) (session_git_status_updates x) (session_model_updates x)
    (session_orchestration_progress_updates x) (session_permission_mode_updates x)
    (session_personality_updates x) (session_progress_updates x) (session_reasoning_level_updates x)
    (session_response_style_updates x) (f (session_speed_mode_updates x)) (session_title_generation_finished x)
    (session_update_versions x) (session_workflow_notice_updates x)) (latest b) (flags b).

Definition on_session_title_generation_finished (f : gmap SessionId Z → gmap SessionId Z) (b : AppEventBatch) :
    AppEventBatch :=
  let x := maps b in
  mkBatch (queues b) (sets b) (mkBatchMaps (applied_turns x) (at_mention_entries_updates x)
    (session_diff_stats_updates x) (session_git_status_updates x) (session_model_updates x)
    (session_orchestration_progress_updates x) (session_permission_mode_updates x)
    (session_personality_updates x) (session_progress_updates x) (session_reasoning_level_updates x)
    (session_response_style_updates x) (session_speed_mode_updates x) (f (session_title_generation_finished x))
    (session_update_versions x) (session_workflow_notice_updates x)) (latest b) (flags b).

Definition on_session_update_versions (f : gmap SessionId Z → gmap SessionId Z) (b : AppEventBatch) :
    AppEventBatch :=
  let x := maps b in
  mkBatch (queues b) (sets b) (mkBatchMaps (applied_turns x) (at_mention_entries_updates x)
    (session_diff_stats_updates x) (session_git_status_updates x) (session_model_updates x)
    (session_orchestration_progress_updates x) (session_permission_mode_updates x)
    (session_personality_updates x) (session_progress_updates x) (session_reasoning_level_updates x)
    (session_response_style_updates x) (session_speed_mode_updates x) (session_title_generation_finished x)
    (f (session_update_versions x)) (session_workflow_notice_updates x)) (latest b) (flags b).

Definition on_session_workflow_notice_updates (f : gmap SessionId (list str) → gmap SessionId (list str)) (b :
    AppEventBatch) : AppEventBatch :=
  let x := maps b in
  mkBatch (queues b) (sets b) (mkBatchMaps (applied_turns x) (at_mention_entries_updates x)
    (session_diff_stats_updates x) (session_git_status_updates x) (session_model_updates x)
    (session_orchestration_progress_updates x) (session_permission_mode_updates x)
    (session_personality_updates x) (session_progress_updates x) (session_reasoning_level_updates x)
    (session_response_style_updates x) (session_speed_mode_updates x) (session_title_generation_finished x)
    (session_update_versions x) (f (session_workflow_notice_updates x))) (latest b) (flags b).

Definition on_agent_cli_updates (f : option (list AgentCliInfo) → option (list AgentCliInfo)) (b :
    AppEventBatch) : AppEventBatch :=
  let x := latest b in
  mkBatch (queues b) (sets b) (maps b) (mkBatchLatest (f (agent_cli_updates x)) (git_status_update x)
    (latest_available_version_update x) (sync_main_completion x) (sync_main_conflict x) (update_status x))
    (flags b).

Definition on_git_status_update (f : option GitStatusBatchUpdate → option GitStatusBatchUpdate) (b :
    AppEventBatch) : AppEventBatch :=
  let x := latest b in
  mkBatch (queues b) (sets b) (maps b) (mkBatchLatest (agent_cli_updates x) (f (git_status_update x))
    (latest_available_version_update x) (sync_main_completion x) (sync_main_conflict x) (update_status x))
    (flags b).

Definition on_latest_available_version_update (f : option (option str) → option (option str)) (b :
    AppEventBatch) : AppEventBatch :=
  let x := latest b in
  mkBatch (queues b) (sets b) (maps b) (mkBatchLatest (agent_cli_updates x) (git_status_update x)
    (f (latest_available_version_update x)) (sync_main_completion x) (sync_main_conflict x) (update_status x))
    (flags b).

Definition on_sync_main_completion (f : option SyncMainCompletion → option SyncMainCompletion) (b :
    AppEventBatch) : AppEventBatch :=
  let x := latest b in
  mkBatch (queues b) (sets b) (maps b) (mkBatchLatest (agent_cli_updates x) (git_status_update x)
    (latest_available_version_update x) (f (sync_main_completion x)) (sync_main_conflict x) (update_status x))
    (flags b).

Definition on_sync_main_conflict (f : option (ProjectSyncContext * list str) → option (ProjectSyncContext * list
    str)) (b : AppEventBatch) : AppEventBatch :=
  let x := latest b in
  mkBatch (queues b) (sets b) (maps b) (mkBatchLatest (agent_cli_updates x) (git_status_update x)
    (latest_available_version_update x) (sync_main_completion x) (f (sync_main_conflict x)) (update_status x))
    (flags b).

Definition on_update_status (f : option UpdateStatus → option UpdateStatus) (b : AppEventBatch) : AppEventBatch
    :=
  let x := latest b in
  mkBatch (queues b) (sets b) (maps b) (mkBatchLatest (agent_cli_updates x) (git_status_update x)
    (latest_available_version_update x) (sync_main_completion x) (sync_main_conflict x) (f (update_status x)))
    (flags b).

Definition on_should_refresh_git_status (f : bool → bool) (b : AppEventBatch) : AppEventBatch :=
  let x := flags b in
  mkBatch (queues b) (sets b) (maps b) (latest b) (mkBatchFlags (f (should_refresh_git_status x))
    (should_reload_projects x) (should_reload_sessions x)).

Definition on_should_reload_projects (f : bool → bool) (b : AppEventBatch) : AppEventBatch :=
  let x := flags b in
  mkBatch (queues b) (sets b) (maps b) (latest b) (mkBatchFlags (should_refresh_git_status x)
    (f (should_reload_projects x)) (should_reload_sessions x)).

Definition on_should_reload_sessions (f : bool → bool) (b : AppEventBatch) : AppEventBatch :=
  let x := flags b in
  mkBatch (queues b) (sets b) (maps b) (latest b) (mkBatchFlags (should_refresh_git_status x)
    (should_reload_projects x) (f (should_reload_sessions x))).
(** ** Collecting *)

Definition push {A} (x : A) (l : list A) : list A := l ++ [x].

Definition refresh_git_status : AppEventBatch → AppEventBatch := on_should_refresh_git_status (λ _, true).

Definition touch (k : SessionId) : AppEventBatch → AppEventBatch := on_session_ids (λ ids, {[k]} ∪ ids).

Definition collect_session_workflow_notice_updated (k : SessionId) (notice : str) (b : AppEventBatch) : AppEventBatch :=
  on_session_workflow_notice_updates (λ m, <[k := push notice (default [] (m !! k))]> m) (touch k b).

Definition collect_git_status_updated (generation : Z) (session_statuses : gmap SessionId SessionGitStatus)
    (status : option (Z * Z)) (b : AppEventBatch) : AppEventBatch :=
  if match git_status_update (latest b) with
     | None => true
     | Some batched => (batch_generation batched <=? generation)%Z
     end
  then on_session_git_status_updates (λ _, session_statuses)
         (on_git_status_update (λ _, Some (mkGitStatusUpdate generation status)) b)
  else b.

Definition collect_sync_main_completed (completion : SyncMainCompletion) (b : AppEventBatch) : AppEventBatch :=
  on_sync_main_completion (λ _, Some completion)
    (if is_ok (completion_result completion) then refresh_git_status b else b).

Definition collect_branch_publish_action_completed (r : BranchPublishTaskResult) (k : SessionId) (b : AppEventBatch)
  : AppEventBatch :=
  on_branch_publish_action_updates (push (r, k)) (if is_ok r then refresh_git_status b else b).

Definition collect_review (k : SessionId) (u : ReviewUpdate) : AppEventBatch → AppEventBatch :=
  on_review_updates (push (k, u)).

Definition collect_published_branch_sync_updated (k : SessionId) (operation : str) (s : PublishedBranchSyncStatus)
    (notice : option str) (b : AppEventBatch) : AppEventBatch :=
  let b := match s with SyncIdle | SyncSucceeded => refresh_git_status b | SyncInProgress | SyncFailed => b end in
  on_published_branch_sync_updates (push (k, mkSyncUpdate notice operation s)) (touch k b).

Definition collect_session_updated (k : SessionId) (version : Z) (b : AppEventBatch) : AppEventBatch :=
  on_session_update_versions <[k := version]> (touch k b).

Definition collect_agent_response_received (k : SessionId) (t : TurnAppliedState) (b : AppEventBatch) : AppEventBatch :=
  on_applied_turns (λ m, <[k := match m !! k with Some older => merge_newer older t | None => t end]> m) (touch k b).

Definition collect_workflow_event (e : AppEvent) (b : AppEventBatch) : AppEventBatch :=
  match e with
  | BranchPublishActionCompleted r k => collect_branch_publish_action_completed r k b
  | BranchPublishActionResolved k => on_branch_publish_resolved_session_ids (λ ids, {[k]} ∪ ids) b
  | BranchPublishActionStarted k => on_branch_publish_started_session_ids (λ ids, {[k]} ∪ ids) b
  | SessionQueuedSyncResolved k => on_session_queued_sync_resolved_ids (λ ids, {[k]} ∪ ids) b
  | SessionTurnStarted k => on_session_turn_started_ids (λ ids, {[k]} ∪ ids) b
  | ReviewPrepared request_id diff_hash review_text k =>
      collect_review k (mkReviewUpdate diff_hash request_id (Ok review_text)) b
  | ReviewPreparationFailed request_id diff_hash error k =>
      collect_review k (mkReviewUpdate diff_hash request_id (Err error)) b
  | DeferredAutoReviewRetry retry => on_deferred_auto_review_persistence_retries (push retry) b
  | FocusedReviewRetry retry => on_focused_review_persistence_retries (push retry) b
  | SessionUpdated k version => collect_session_updated k version b
  | AgentResponseReceived k t => collect_agent_response_received k t b
  | StackedParentTurnCompleted k => on_stacked_parent_turns_completed (λ ids, {[k]} ∪ ids) b
  | StackedParentSyncCompleted k => on_stacked_parent_syncs_completed (λ ids, {[k]} ∪ ids) b
  | StackedParentMergeCompleted children =>
      on_stacked_parent_merge_child_rebases (λ ids, ids ∪ list_to_set children) b
  | SessionWorkflowNoticeUpdated notice k => collect_session_workflow_notice_updated k notice b
  | PublishedBranchSyncUpdated notice k operation s => collect_published_branch_sync_updated k operation s notice b
  | ReviewRequestStatusUpdated generation r k => on_review_request_status_updates (push (mkStatusUpdate generation r k)) b
  | _ => b
  end.

Definition collect_runtime_event (e : AppEvent) (b : AppEventBatch) : AppEventBatch :=
  match e with
  | AtMentionEntriesLoaded entries k => on_at_mention_entries_updates <[k := entries]> b
  | SessionModelUpdated k session_agent => on_session_model_updates <[k := session_agent]> b
  | DiffPreviewLoaded path request_id r k => on_diff_preview_updates (push (mkPreviewUpdate path request_id r k)) b
  | SessionDiffLoaded request_id r k => on_session_diff_updates (push (mkDiffUpdate request_id r k)) b
  | SessionProgressUpdated progress_message k => on_session_progress_updates <[k := progress_message]> b
  | SessionReviewCommentSnapshotLoaded request_id r k =>
      on_session_review_comment_snapshots (push (mkSnapshotUpdate request_id r k)) b
  | SyncMainCompleted completion => collect_sync_main_completed completion b
  | SyncMainConflictResolutionStarted conflicted_files operation =>
      on_sync_main_conflict (λ _, Some (operation, conflicted_files)) b
  | SessionDiffStatsUpdated diff_stats k => on_session_diff_stats_updates <[k := diff_stats]> b
  | SessionTitleGenerationFinished generation k => on_session_title_generation_finished <[k := generation]> b
  | e => collect_workflow_event e b
  end.

Definition collect_event (b : AppEventBatch) (e : AppEvent) : AppEventBatch :=
  match e with
  | ReviewProgressUpdated request_id diff_hash progress k =>
      on_review_progress_updates (push (k, diff_hash, request_id, progress)) b
  | SessionOrchestrationProgressUpdated progress k => on_session_orchestration_progress_updates <[k := progress]> b
  | SessionCreationCompleted request_id r => on_session_creations (push (request_id, r)) b
  | GitStatusUpdated generation session_statuses status => collect_git_status_updated generation session_statuses status b
  | VersionAvailabilityUpdated latest_available_version =>
      on_latest_available_version_update (λ _, Some latest_available_version) b
  | AgentCliVersionsUpdated agent_clis => on_agent_cli_updates (λ _, Some agent_clis) b
  | UpdateStatusChanged s => on_update_status (λ _, Some s) b
  | SessionPersonalityUpdated personality_id k => on_session_personality_updates <[k := personality_id]> b
  | SessionPermissionModeUpdated permission_mode k => on_session_permission_mode_updates <[k := permission_mode]> b
  | SessionReasoningLevelUpdated reasoning_level k => on_session_reasoning_level_updates <[k := reasoning_level]> b
  | SessionResponseStyleUpdated response_style k => on_session_response_style_updates <[k := response_style]> b
  | SessionSpeedModeUpdated k speed_mode => on_session_speed_mode_updates <[k := speed_mode]> b
  | RefreshSessions => on_should_reload_sessions (λ _, true) b
  | RefreshProjects => on_should_reload_projects (λ _, true) b
  | RefreshGitStatus => refresh_git_status b
  | e => collect_runtime_event e b
  end.

Definition collect_events (es : list AppEvent) : AppEventBatch := fold_left collect_event es AppEventBatch_default.

(** ** One cycle of the foreground *)

Definition APP_EVENT_DRAIN_BUDGET : nat := 128.

(** The event that woke the reducer counts; the rest stays in the queue. *)
Definition drain (first_event : AppEvent) (queue : list AppEvent) : list AppEvent * list AppEvent :=
  (first_event :: take (APP_EVENT_DRAIN_BUDGET - 1) queue, skipn (APP_EVENT_DRAIN_BUDGET - 1) queue).

(** ** The plan *)

Inductive AppEventEffect :=
| ReloadSessions
| ReloadProjects
| EffectRefreshGitStatus
| ApplyReviewUpdates (updates : list (SessionId * ReviewUpdate))
| PersistDeferredAutoReviewTriggers (retries : list DeferredAutoReviewPersistenceRetry)
| PersistFocusedReviewUpdates (retries : list FocusedReviewPersistenceRetry).

Record AppEventReductionPlan := mkPlan {
  after_snapshot_effects : list AppEventEffect;
  before_snapshot_effects : list AppEventEffect;
  changes_observable_state : bool
}.

Definition when {A} (b : bool) (x : A) : list A := if b then [x] else [].

Definition filled {A} (l : list A) : bool := negb (is_empty l).
Definition given {A} (o : option A) : bool := match o with Some _ => true | None => false end.
Definition recorded {A} (m : gmap SessionId A) : bool := negb (bool_decide (m = ∅)).
Definition named (s : gset SessionId) : bool := negb (bool_decide (s = ∅)).

Definition batch_is_observable (b : AppEventBatch) : bool :=
  let q := queues b in let s := sets b in let m := maps b in let l := latest b in
  should_reload_sessions (flags b) || should_reload_projects (flags b) ||
  given (agent_cli_updates l) || given (git_status_update l) || given (latest_available_version_update l) ||
  given (update_status l) || recorded (applied_turns m) || recorded (at_mention_entries_updates m) ||
  filled (branch_publish_action_updates q) || named (branch_publish_resolved_session_ids s) ||
  named (branch_publish_started_session_ids s) || filled (diff_preview_updates q) ||
  filled (published_branch_sync_updates q) || filled (review_request_status_updates q) || filled (review_updates q) ||
  filled (review_progress_updates q) || recorded (session_model_updates m) ||
  recorded (session_orchestration_progress_updates m) || recorded (session_personality_updates m) ||
  recorded (session_permission_mode_updates m) || recorded (session_progress_updates m) ||
  named (session_queued_sync_resolved_ids s) || named (session_turn_started_ids s) ||
  filled (session_review_comment_snapshots q) || recorded (session_reasoning_level_updates m) ||
  recorded (session_response_style_updates m) || recorded (session_speed_mode_updates m) ||
  recorded (session_diff_stats_updates m) || filled (session_diff_updates q) ||
  recorded (session_title_generation_finished m) || recorded (session_workflow_notice_updates m) ||
  named (stacked_parent_merge_child_rebases s) || named (stacked_parent_syncs_completed s) ||
  named (stacked_parent_turns_completed s) || given (sync_main_conflict l) || given (sync_main_completion l).

Definition drain_reduction_plan (b : AppEventBatch) : AppEventReductionPlan * AppEventBatch :=
  let q := queues b in
  (mkPlan
     (when (filled (review_updates q)) (ApplyReviewUpdates (review_updates q)) ++
      when (filled (deferred_auto_review_persistence_retries q))
        (PersistDeferredAutoReviewTriggers (deferred_auto_review_persistence_retries q)) ++
      when (filled (focused_review_persistence_retries q))
        (PersistFocusedReviewUpdates (focused_review_persistence_retries q)))
     (when (should_reload_sessions (flags b)) ReloadSessions ++ when (should_reload_projects (flags b)) ReloadProjects ++
      when (should_refresh_git_status (flags b)) EffectRefreshGitStatus)
     (batch_is_observable b),
   on_review_updates (λ _, []) (on_deferred_auto_review_persistence_retries (λ _, [])
     (on_focused_review_persistence_retries (λ _, []) b))).
