(* ===== verification/EventReducer.v ===== *)
(** * The event reducer (crates/agentty/src/app/core/event.rs)

    How the foreground applies one batch of events to the sessions it shows, in
    the phases of the code.  Loading of diffs, project syncs, rebases and the
    results of publishing have models of their own; here the external effects
    are answers of an environment. *)
From stdpp Require Import gmap.
From S2P Require Import Prelude Contracts Agent Lifecycle Transcript Transient Prompt Input Review Session SessionState FileEntry SessionManager BranchPublish EventBatch.

(** ** The state of the foreground *)

Record Foreground := mkForeground {
  view_sessions : SessionManager;
  session_progress_messages : gmap SessionId str;
  last_seen_session_update_versions : gmap SessionId Z;
  question_progress : gset SessionId;
  latest_available_version : option str;
  last_update_status : option UpdateStatus;
  project_git_status : option (Z * Z);
  persisted_notices : list (SessionId * str);
  needs_redraw : bool;
  diff_comment_progress : gset SessionId;
  question_mode : option (SessionId * list QuestionItem * option nat)
}.

(** The external effects on the sessions (reloads), the generation of the published
    sync context, the clock, where a session's files are looked up, and the session
    on the screen. *)
Class ReducerHost := {
  host_effect : AppEventEffect → SessionManager → SessionManager;
  host_generation : Z;
  host_clock : Z;
  host_lookup_root : SessionId → str;
  host_viewed : option SessionId
}.

Section reducer.
Context `{Hhash : FxHasher, Hhost : !ReducerHost}.

Definition on_view (f : SessionManager → SessionManager) (w : Foreground) : Foreground :=
  mkForeground (f (view_sessions w)) (session_progress_messages w) (last_seen_session_update_versions w)
    (question_progress w) (latest_available_version w) (last_update_status w) (project_git_status w)
    (persisted_notices w) (needs_redraw w) (diff_comment_progress w) (question_mode w).

Definition on_progress (f : gmap SessionId str → gmap SessionId str) (w : Foreground) : Foreground :=
  mkForeground (view_sessions w) (f (session_progress_messages w)) (last_seen_session_update_versions w)
    (question_progress w) (latest_available_version w) (last_update_status w) (project_git_status w)
    (persisted_notices w) (needs_redraw w) (diff_comment_progress w) (question_mode w).

Definition note_persisted (k : SessionId) (notice : str) (w : Foreground) : Foreground :=
  mkForeground (view_sessions w) (session_progress_messages w) (last_seen_session_update_versions w)
    (question_progress w) (latest_available_version w) (last_update_status w) (project_git_status w)
    (persisted_notices w ++ [(k, notice)]) (needs_redraw w)
    (diff_comment_progress w) (question_mode w).

(** ** Phases *)

(** Whether a version is new, and what was seen. *)
Definition update_session_redraw_versions (versions : gmap SessionId Z) (w : Foreground) : bool * Foreground :=
  (negb (bool_decide (map_Forall (λ k v, last_seen_session_update_versions w !! k = Some v) versions)),
   mkForeground (view_sessions w) (session_progress_messages w) (versions ∪ last_seen_session_update_versions w)
     (question_progress w) (latest_available_version w) (last_update_status w) (project_git_status w)
     (persisted_notices w) (needs_redraw w) (diff_comment_progress w) (question_mode w)).

Definition apply_app_event_effects (effects : list AppEventEffect) (w : Foreground) : Foreground :=
  on_view (λ m, fold_left (λ m e, host_effect e m) effects m) w.

Definition apply_status_bar_updates (version : option (option str)) (s : option UpdateStatus) (w : Foreground)
  : Foreground :=
  mkForeground (view_sessions w) (session_progress_messages w) (last_seen_session_update_versions w)
    (question_progress w) (default (latest_available_version w) version)
    (match s with Some s => Some s | None => last_update_status w end)
    (project_git_status w) (persisted_notices w) (needs_redraw w) (diff_comment_progress w) (question_mode w).

(** A status of an older sync context is dropped. *)
Definition apply_git_status (b : AppEventBatch) (w : Foreground) : Foreground :=
  match git_status_update (latest b) with
  | Some u =>
      if (batch_generation u =? host_generation)%Z then
        mkForeground
          (on_state (λ st, replace_session_git_statuses st (session_git_status_updates (maps b))) (view_sessions w))
          (session_progress_messages w) (last_seen_session_update_versions w) (question_progress w)
          (latest_available_version w) (last_update_status w) (batch_status u) (persisted_notices w) (needs_redraw w) (diff_comment_progress w) (question_mode w)
      else w
  | None => w
  end.

Definition apply_batch_runtime_updates (b : AppEventBatch) (w : Foreground) : Foreground :=
  apply_status_bar_updates (latest_available_version_update (latest b)) (update_status (latest b)) (apply_git_status b w).

(** The order of a hash map is left open: [map_fold] promises none. *)
Definition for_sessions {A} (f : SessionManager → SessionId → A → SessionManager) (updates : gmap SessionId A)
    (self : SessionManager) : SessionManager := map_fold (λ k a self, f self k a) self updates.

Definition for_ids (f : SessionManager → SessionId → SessionManager) (ids : gset SessionId) (self : SessionManager)
  : SessionManager := set_fold (λ k self, f self k) self ids.

Definition manager_diff_stats_updated (self : SessionManager) (k : SessionId) (d : SessionDiffStats) : SessionManager :=
  on_state (λ st, apply_session_diff_stats_updated st k d) self.

Definition apply_batch_session_snapshot_updates (b : AppEventBatch) (self : SessionManager) : SessionManager :=
  let x := maps b in
  let self := for_sessions apply_session_model_updated (session_model_updates x) self in
  let self := for_sessions apply_session_personality_updated (session_personality_updates x) self in
  let self := for_sessions apply_session_permission_mode_updated (session_permission_mode_updates x) self in
  let self := for_sessions apply_session_reasoning_level_updated (session_reasoning_level_updates x) self in
  let self := for_sessions apply_session_response_style_updated (session_response_style_updates x) self in
  let self := for_sessions apply_session_speed_mode_updated (session_speed_mode_updates x) self in
  let self := for_sessions manager_diff_stats_updated (session_diff_stats_updates x) self in
  let self := for_sessions clear_title_generation_task_if_matches (session_title_generation_finished x) self in
  for_sessions (λ self k entries, set_at_mention_index_for_root self host_clock (host_lookup_root k) entries)
    (at_mention_entries_updates x) self.

Definition apply_worker_action_transitions (b : AppEventBatch) (self : SessionManager) : SessionManager :=
  let s := sets b in
  let self := for_ids (λ self k, start_branch_publish self k (branch_publish_loading_label PublishPullRequest))
                (branch_publish_started_session_ids s) self in
  let self := for_ids resolve_queued_branch_publish (branch_publish_resolved_session_ids s) self in
  for_ids resolve_queued_session_sync (session_queued_sync_resolved_ids s) self.

(** Comments on a diff belong to the turn that was started with them. *)
Definition apply_session_turn_starts (ids : gset SessionId) (w : Foreground) : Foreground :=
  mkForeground (view_sessions w) (session_progress_messages w) (last_seen_session_update_versions w)
    (question_progress w) (latest_available_version w) (last_update_status w) (project_git_status w)
    (persisted_notices w) (needs_redraw w) (diff_comment_progress w ∖ ids) (question_mode w).

Definition bold (title message : str) : TransientMessageBody :=
  Markdown (L"**" ++ title ++ L"**" ++ [newline; newline] ++ message).

Definition finish_publish (k : SessionId) (body : TransientMessageBody) (w : Foreground) : Foreground :=
  let '(notice, self) := finish_branch_publish (view_sessions w) k body in
  let w := on_view (λ _, self) w in
  match notice with Some notice => note_persisted k notice w | None => w end.

Definition apply_branch_publish_action_update (u : BranchPublishTaskResult * SessionId) (w : Foreground) : Foreground :=
  let '(r, k) := u in
  match r with
  | Ok (Pushed branch_name creation upstream_reference) =>
      finish_publish k (bold (branch_publish_success_title Push) (branch_push_success_message branch_name creation))
        (on_view (λ self, apply_published_upstream_ref self k upstream_reference) w)
  | Ok (PullRequestPublished _ review_request upstream_reference) =>
      let self := apply_review_request (apply_published_upstream_ref (view_sessions w) k upstream_reference) k
                    review_request in
      let notice := review_request_created_notice review_request in
      let '(finished, self) := finish_review_request_publish self k notice in
      let w := on_view (λ _, self) w in
      if finished then note_persisted k notice w else w
  | Err failure => finish_publish k (bold (failure_title failure) (failure_message failure)) w
  end.

Definition apply_session_progress_updates (updates : gmap SessionId (option str)) (w : Foreground) : Foreground :=
  on_progress (λ m, omap Datatypes.id updates ∪ filter (λ kv, updates !! kv.1 = None) m) w.

Definition apply_agent_response_received (w : Foreground) (k : SessionId) (t : TurnAppliedState) : Foreground :=
  match SessionState.find_session (manager_state (view_sessions w)) k with
  | None => w
  | Some _ =>
      let self := apply_turn_applied_state (view_sessions w) k t in
      let questions := applied_questions t in
      let accepts := match session_for_id (manager_state self) k with Some s => accepts_user_turns s | None => false end in
      let asks := filled questions && accepts && bool_decide (host_viewed = Some k) in
      mkForeground self (session_progress_messages w) (last_seen_session_update_versions w)
        (question_progress w ∖ {[k]}) (latest_available_version w) (last_update_status w) (project_git_status w)
        (persisted_notices w) (needs_redraw w) (diff_comment_progress w)
        (if asks then Some (k, questions, default_option_index questions 0) else question_mode w)
  end.

Definition apply_published_branch_sync_update (u : SessionId * PublishedBranchSyncUpdate) (w : Foreground) : Foreground :=
  let '(k, u) := u in
  match sync_status u with
  | SyncInProgress => on_view (λ self, start_published_branch_sync self k (sync_operation u)) w
  | SyncIdle | SyncSucceeded | SyncFailed =>
      let '(applied, self) := finish_published_branch_sync (view_sessions w) k (sync_operation u) (persistent_notice u) in
      let w := on_view (λ _, self) w in
      match applied, persistent_notice u with true, Some notice => note_persisted k notice w | _, _ => w end
  end.

Definition sync_touched_sessions (ids : gset SessionId) (self : SessionManager) : SessionManager :=
  for_ids (λ self k, on_state (λ st, sync_session_from_handle st k) self) ids self.

Definition append_workflow_notices (self : SessionManager) (k : SessionId) (notices : list str) : SessionManager :=
  fold_left (λ self notice, append_workflow_notice self k notice) notices self.

Definition is_in_progress (st : SessionState) (k : SessionId) : bool :=
  match SessionState.find_session st k with
  | Some s => bool_decide (status s = InProgress)
  | None => false
  end.

Definition retain_valid_session_progress_messages (w : Foreground) : Foreground :=
  on_progress (filter (λ kv, is_in_progress (manager_state (view_sessions w)) kv.1 = true)) w.

Definition mark_dirty (dirty : bool) (w : Foreground) : Foreground :=
  mkForeground (view_sessions w) (session_progress_messages w) (last_seen_session_update_versions w)
    (question_progress w) (latest_available_version w) (last_update_status w) (project_git_status w)
    (persisted_notices w) (dirty || needs_redraw w) (diff_comment_progress w) (question_mode w).

(** The phases of [apply_app_event_batch] that change the sessions and what is shown
    beside them, in its order.  The phases with models of their own stand between
    them in the code: session creations and review requests merged elsewhere, diff
    loads, comments and previews of the open mode, project syncs, rebases of stacked
    children, automatic reviews and the merge queue. *)
Definition apply_batch_phases (b : AppEventBatch) (w : Foreground) : Foreground :=
  let '(plan, b) := drain_reduction_plan b in
  let '(newer, w) := update_session_redraw_versions (session_update_versions (maps b)) w in
  let w := apply_app_event_effects (before_snapshot_effects plan) w in
  let w := apply_batch_runtime_updates b w in
  let w := on_view (apply_batch_session_snapshot_updates b) w in
  let w := apply_app_event_effects (after_snapshot_effects plan) w in
  let w := on_view (apply_worker_action_transitions b) w in
  let w := apply_session_turn_starts (session_turn_started_ids (sets b)) w in
  let w := fold_left (λ w u, apply_branch_publish_action_update u w) (branch_publish_action_updates (queues b)) w in
  let w := apply_session_progress_updates (session_progress_updates (maps b)) w in
  let w := map_fold (λ k t w, apply_agent_response_received w k t) w (applied_turns (maps b)) in
  let w := fold_left (λ w u, apply_published_branch_sync_update u w) (published_branch_sync_updates (queues b)) w in
  let w := on_view (sync_touched_sessions (session_ids (sets b))) w in
  let w := on_view (for_sessions update_orchestration_progress (session_orchestration_progress_updates (maps b))) w in
  let w := on_view (for_sessions append_workflow_notices (session_workflow_notice_updates (maps b))) w in
  let w := retain_valid_session_progress_messages w in
  let w := on_view (λ self, retain_active_prompt_outputs self host_clock) w in
  mark_dirty (changes_observable_state plan || newer) w.

(** The foreground takes a batch from a queue that is not empty. *)
Definition apply_app_events (queue : list AppEvent) (w : Foreground) : list AppEvent * Foreground :=
  match queue with
  | [] => ([], w)
  | first_event :: queue =>
      let '(events, rest) := drain first_event queue in
      (rest, apply_batch_phases (collect_events events) w)
  end.

(** What a batch does to a touched session. *)
Definition previous_session_states (ids : gset SessionId) (st : SessionState) : gmap SessionId SessionStatus :=
  map_imap (λ k _, status <$> SessionState.find_session st k) (gset_to_gmap tt ids).

Definition sessions_entering_review (ids : gset SessionId) (previous : gmap SessionId SessionStatus) (st : SessionState)
  : gset SessionId :=
  filter (λ k, match previous !! k with Some s => negb (allows_review_actions s) | None => false end
               && match session_for_id st k with Some s => bool_decide (status s = Review) | None => false end = true) ids.

Definition completed_review_session_ids (turns : gmap SessionId TurnAppliedState) : gset SessionId :=
  dom (filter (λ kv, is_empty (applied_questions kv.2) = true) turns).
End reducer.
