(* ===== verification/EventLaws.v ===== *)
(** * Laws of the event reducer

    Batching loses nothing: a batch of events leaves every session as the events
    say, and as they do one at a time, in any order in which the reducer visits its
    sessions; the queue is drained in order within the budget of a cycle; and what changes the
    visible state asks for a new frame. *)
From stdpp Require Import gmap.
From S2P Require Import Prelude Contracts Agent Lifecycle Transcript Transient Prompt Input Review Session SessionState FileEntry SessionManager BranchPublish EventBatch EventReducer.

(** ** Messages in different slots *)

Section slots.
Context `{Hhash : FxHasher}.

Fixpoint remove_first {A} (p : A → bool) (l : list A) : list A :=
  match l with [] => [] | x :: l => if p x then l else x :: remove_first p l end.

Lemma remove_position {A} (p : A → bool) l i : position p l = Some i → remove_nth i l = remove_first p l.
Proof.
  revert i. induction l as [|x l IH]; intros i; [done|]. cbn [position remove_first]. destruct (p x).
  - by intros [= <-].
  - destruct (position p l) as [j|]; [|done]. intros [= <-]. cbn. unfold remove_nth in *. cbn. f_equal. by apply IH.
Qed.

Lemma remove_first_None {A} (p : A → bool) l : position p l = None → remove_first p l = l.
Proof.
  induction l as [|x l IH]; [done|]. cbn. destruct (p x); [done|]. destruct (position p l); [done|]. intros _. by rewrite IH.
Qed.

Lemma remove_first_comm {A} (p q : A → bool) l :
  (∀ x, p x = true → q x = false) → remove_first p (remove_first q l) = remove_first q (remove_first p l).
Proof.
  intros HD. induction l as [|x l IH]; [done|]. cbn. destruct (p x) eqn:EP, (q x) eqn:EQ; cbn; rewrite ?EP, ?EQ; [|done..|].
  - by rewrite HD in EQ.
  - by rewrite IH.
Qed.

Lemma position_remove_other {A} (p q : A → bool) l :
  (∀ x, p x = true → q x = false) → position p (remove_first q l) = None ↔ position p l = None.
Proof.
  intros HD. rewrite !position_None. induction l as [|x l IH]; [done|]. cbn. destruct (q x) eqn:EQ.
  - rewrite Forall_cons. split; [|tauto]. intros H. split; [|done]. destruct (p x) eqn:EP; [|done]. by rewrite HD in EQ.
  - rewrite !Forall_cons, IH. done.
Qed.

Lemma retract_removes self s :
  (retract self s).2 = match position (has_slot s) (store_messages self) with
                       | None => self
                       | Some _ => bump_version self (remove_first (has_slot s) (store_messages self))
                       end.
Proof.
  unfold retract. destruct (position _ _) as [i|] eqn:E; [|done]. cbn. by rewrite (remove_position _ _ _ E).
Qed.

Lemma has_slot_disjoint s s' m : s ≠ s' → has_slot s m = true → has_slot s' m = false.
Proof. unfold has_slot. intros HN H%bool_decide_eq_true. apply bool_decide_eq_false. congruence. Qed.

Lemma present_remove_other {A B} (p q : A → bool) l (x : B) (f : B) :
  (∀ x, p x = true → q x = false) →
  match position p (remove_first q l) with None => x | Some _ => f end = match position p l with None => x | Some _ => f end.
Proof.
  intros HD. pose proof (position_remove_other p q l HD) as H.
  destruct (position p (remove_first q l)), (position p l); try done; naive_solver.
Qed.

Lemma retract_comm self s s' : s ≠ s' → (retract (retract self s).2 s').2 = (retract (retract self s').2 s).2.
Proof.
  intros HN. rewrite !retract_removes.
  pose proof (present_remove_other (B := bool) (has_slot s) (has_slot s') (store_messages self) false true
    (λ m, has_slot_disjoint s s' m HN)) as H1.
  pose proof (present_remove_other (B := bool) (has_slot s') (has_slot s) (store_messages self) false true
    (λ m, has_slot_disjoint s' s m (not_eq_sym HN))) as H2.
  destruct (position (has_slot s) (store_messages self)) eqn:E1, (position (has_slot s') (store_messages self)) eqn:E2;
    cbn [bump_version store_messages]; rewrite ?E1, ?E2; try done;
    destruct (position (has_slot s') (remove_first (has_slot s) (store_messages self))); try done;
    destruct (position (has_slot s) (remove_first (has_slot s') (store_messages self))); try done.
  unfold bump_version. cbn. rewrite remove_first_comm; [done|]. intros m. by apply has_slot_disjoint, not_eq_sym.
Qed.

Lemma retract_twice self s : wf_store self → (retract (retract self s).2 s).2 = (retract self s).2.
Proof.
  intros HW. destruct (retract_cases (retract self s).2 s) as [[_ ->]|(i & m & Hi & Hs & _)]; [done|].
  apply list_elem_of_lookup_2, (retract_elem self s m HW) in Hi as [_ Hi]. done.
Qed.
End slots.

(** ** Changes of single sessions *)

Section changes.
Implicit Types (st : SessionState) (f g : Session → Session).

Lemma update_first_compose k f g ss :
  (∀ s, id (g s) = id s) → update_first k f (update_first k g ss) = update_first k (λ s, f (g s)) ss.
Proof.
  intros HG. induction ss as [|s ss IH]; [done|]. cbn. case_bool_decide as E; cbn.
  - by rewrite bool_decide_true by (by rewrite HG).
  - by rewrite bool_decide_false, IH.
Qed.

Lemma update_first_ext k f g ss : Forall (λ s, f s = g s) ss → update_first k f ss = update_first k g ss.
Proof. induction 1 as [|s ss E _ IH]; [done|]. cbn. by rewrite E, IH. Qed.

Lemma update_first_comm k k' f g ss :
  (∀ s, id (f s) = id s) → (∀ s, id (g s) = id s) → k ≠ k' ∨ (∀ s, f (g s) = g (f s)) →
  update_first k f (update_first k' g ss) = update_first k' g (update_first k f ss).
Proof.
  intros HF HG HC. induction ss as [|s ss IH]; [done|]. cbn.
  destruct (decide (id s = k)) as [E|E], (decide (id s = k')) as [E'|E'];
    rewrite ?(bool_decide_true _ E), ?(bool_decide_false _ E), ?(bool_decide_true _ E'), ?(bool_decide_false _ E'); cbn;
    rewrite ?HF, ?HG, ?(bool_decide_true _ E), ?(bool_decide_false _ E), ?(bool_decide_true _ E'), ?(bool_decide_false _ E');
    try done; [|by rewrite IH].
  destruct HC as [HC|HC]; [congruence|by rewrite HC].
Qed.

Lemma update_first_Forall (P : Session → Prop) k f ss : (∀ s, P s → P (f s)) → Forall P ss → Forall P (update_first k f ss).
Proof. intros HP. induction 1 as [|s ss H HS IH]; [constructor|]. cbn. case_bool_decide; constructor; auto. Qed.

Lemma update_found_comm k k' f g st :
  (∀ s, id (f s) = id s) → (∀ s, id (g s) = id s) → k ≠ k' ∨ (∀ s, f (g s) = g (f s)) →
  update_found (update_found st k' g) k f = update_found (update_found st k f) k' g.
Proof. intros. unfold update_found. cbn. f_equal. by apply update_first_comm. Qed.
End changes.

(** ** The projections of one kind, by session *)

(** [h a] is the change of an update [a], [c older newer] their combination. *)
Section family.
Context {A : Type} (h : A → Session → Session) (c : A → A → A) (P : Session → Prop) (Q : A → Prop).
Hypothesis h_id : ∀ a s, id (h a s) = id s.
Hypothesis h_keeps : ∀ a s, Q a → P s → P (h a s).
Hypothesis h_combines : ∀ a a' s, Q a → Q a' → P s → h a (h a' s) = h (c a' a) s.

Definition apply_all (m : gmap SessionId A) (st : SessionState) : SessionState :=
  map_fold (λ k a st, update_found st k (h a)) st m.

Lemma apply_all_empty st : apply_all ∅ st = st.
Proof. apply map_fold_empty. Qed.

Lemma apply_all_fresh m k a st : m !! k = None → apply_all (<[k := a]> m) st = update_found (apply_all m st) k (h a).
Proof.
  intros HK. apply (map_fold_insert_L (λ k a st, update_found st k (h a))); [|done].
  intros j j' z z' y HN _ _. apply update_found_comm; [done..|by left].
Qed.

Lemma apply_all_comm m k g st :
  (∀ s, id (g s) = id s) → (∀ a s, g (h a s) = h a (g s)) →
  update_found (apply_all m st) k g = apply_all m (update_found st k g).
Proof.
  intros HG HC. induction m as [|j a m HJ IH] using map_ind; [by rewrite !apply_all_empty|].
  rewrite !apply_all_fresh by done. rewrite <- IH. apply update_found_comm; [done..|by right].
Qed.

Lemma apply_all_keeps (R : Session → Prop) m st :
  (∀ k a s, m !! k = Some a → R s → R (h a s)) → Forall R (sessions st) → Forall R (sessions (apply_all m st)).
Proof.
  induction m as [|j a m HJ IH] using map_ind; intros HM HS; [by rewrite apply_all_empty|].
  rewrite apply_all_fresh by done. cbn. apply update_first_Forall.
  - intros s. apply (HM j). apply lookup_insert_eq.
  - apply IH; [|done]. intros k b s HB. apply (HM k). rewrite lookup_insert_ne; [done|]. by intros ->; rewrite HJ in HB.
Qed.

(** A newer update of a session is applied on top of the combined one. *)
Lemma apply_all_insert m k a st :
  map_Forall (λ _ b, Q b) m → Q a → Forall P (sessions st) →
  apply_all (<[k := match m !! k with Some older => c older a | None => a end]> m) st = update_found (apply_all m st) k (h a).
Proof.
  intros HM HA HS. destruct (m !! k) as [older|] eqn:EK; [|by apply apply_all_fresh].
  pose proof (HM k older EK) as HO.
  rewrite <- (insert_delete_id m k older EK) at 2. rewrite <- insert_delete_eq.
  rewrite !apply_all_fresh by apply lookup_delete_eq. unfold update_found. cbn. f_equal.
  rewrite update_first_compose by done. apply update_first_ext.
  assert (Forall P (sessions (apply_all (delete k m) st))) as HF.
  { apply apply_all_keeps; [|done]. intros j b s [_ HB]%lookup_delete_Some. by apply h_keeps, (HM j b HB). }
  eapply Forall_impl; [exact HF|]. intros s HP. cbn. symmetry. by apply h_combines.
Qed.
End family.

Section overwrite.
Context {A : Type} (h : A → Session → Session) (P : Session → Prop) (Q : A → Prop).
Hypothesis h_id : ∀ a s, id (h a s) = id s.
Hypothesis h_keeps : ∀ a s, Q a → P s → P (h a s).
Hypothesis h_overwrites : ∀ a a' s, Q a → Q a' → P s → h a (h a' s) = h a s.

Lemma apply_all_latest m k a st :
  map_Forall (λ _ b, Q b) m → Q a → Forall P (sessions st) →
  apply_all h (<[k := a]> m) st = update_found (apply_all h m st) k (h a).
Proof.
  intros HM HA HS. rewrite <- (apply_all_insert h (λ _ a, a) P Q h_id h_keeps h_overwrites m k a st HM HA HS).
  by destruct (m !! k).
Qed.
End overwrite.

(** A fold over the manager is the fold over its sessions. *)
Lemma manager_for_sessions {A} (f : SessionManager → SessionId → A → SessionManager) (h : A → Session → Session)
    (R : SessionState → Prop) m self :
  (∀ self k a, R (manager_state self) → manager_state (f self k a) = update_found (manager_state self) k (h a)) →
  (∀ st k a, R st → R (update_found st k (h a))) → R (manager_state self) →
  manager_state (for_sessions f m self) = apply_all h m (manager_state self).
Proof.
  intros HF HR H0. unfold for_sessions, apply_all. rewrite !map_fold_foldr.
  assert (manager_state (foldr (uncurry (λ k a self, f self k a)) self (map_to_list m))
    = foldr (uncurry (λ k a st, update_found st k (h a))) (manager_state self) (map_to_list m)
    ∧ R (foldr (uncurry (λ k a st, update_found st k (h a))) (manager_state self) (map_to_list m))) as [HE _]; [|done].
  induction (map_to_list m) as [|[k a] l [IH IR]]; [done|]. rewrite <- IH in IR. split.
  - etransitivity; [by apply HF|]. exact (f_equal (λ st, update_found st k (h a)) IH).
  - change (R (update_found (foldr (uncurry (λ k a st, update_found st k (h a))) (manager_state self) l) k (h a))).
    apply HR. by rewrite <- IH.
Qed.

Lemma manager_unchanged {A} (f : SessionManager → SessionId → A → SessionManager) m self :
  (∀ self k a, manager_state (f self k a) = manager_state self) →
  manager_state (for_sessions f m self) = manager_state self.
Proof.
  intros HF. unfold for_sessions. rewrite map_fold_foldr. induction (map_to_list m) as [|[k a] l IH]; [done|].
  etransitivity; [apply HF|exact IH].
Qed.

(** ** Setting events *)

Section settings.
Context `{Hhash : FxHasher, Hhost : !ReducerHost}.

Definition progressed (p : option str) (s : Session) : Session := retracted SlotOrchestration (set_orchestration_progress s p).

(** What a setting event changes, and in which session. *)
Definition change_of (e : AppEvent) : option (SessionId * (Session → Session)) :=
  match e with
  | SessionModelUpdated k x => Some (k, λ s, set_agent s x)
  | SessionPersonalityUpdated x k => Some (k, λ s, set_personality_id s x)
  | SessionPermissionModeUpdated x k => Some (k, λ s, set_permission_mode s x)
  | SessionReasoningLevelUpdated x k => Some (k, λ s, set_reasoning_level_override s (Some x))
  | SessionResponseStyleUpdated x k => Some (k, λ s, set_response_style s x)
  | SessionSpeedModeUpdated k x => Some (k, λ s, set_speed_mode s x)
  | SessionDiffStatsUpdated (DiffStatsKnown _ _ _ _ as d) k => Some (k, with_diff_stats d)
  | SessionOrchestrationProgressUpdated p k => Some (k, progressed p)
  | _ => None
  end.

Definition is_known (d : SessionDiffStats) : Prop := match d with DiffStatsKnown _ _ _ _ => True | DiffStatsUnknown => False end.

Definition wf_transients (s : Session) : Prop := wf_store (transient_messages s).

(** The maps of a batch, applied in the order of the phases. *)
Definition settled (x : BatchMaps) (st : SessionState) : SessionState :=
  let st := apply_all (λ x s, set_agent s x) (session_model_updates x) st in
  let st := apply_all (λ x s, set_personality_id s x) (session_personality_updates x) st in
  let st := apply_all (λ x s, set_permission_mode s x) (session_permission_mode_updates x) st in
  let st := apply_all (λ x s, set_reasoning_level_override s (Some x)) (session_reasoning_level_updates x) st in
  let st := apply_all (λ x s, set_response_style s x) (session_response_style_updates x) st in
  let st := apply_all (λ x s, set_speed_mode s x) (session_speed_mode_updates x) st in
  let st := apply_all with_diff_stats (session_diff_stats_updates x) st in
  apply_all progressed (session_orchestration_progress_updates x) st.

Definition wf_view (st : SessionState) : Prop := wf_state st ∧ Forall wf_transients (sessions st).

Lemma progressed_id p s : id (progressed p s) = id s. Proof. done. Qed.
Lemma with_diff_stats_id d s : id (with_diff_stats d s) = id s. Proof. by destruct d. Qed.
Lemma with_diff_stats_transients d s : transient_messages (with_diff_stats d s) = transient_messages s.
Proof. by destruct d. Qed.

Lemma progressed_keeps p s : wf_transients s → wf_transients (progressed p s).
Proof. intros H. unfold wf_transients, progressed, retracted. cbn. by apply retract_wf. Qed.

Lemma progressed_latest p p' s : wf_transients s → progressed p (progressed p' s) = progressed p s.
Proof.
  intros H. unfold progressed, retracted. destruct s. cbn in *. unfold set_transient_messages, set_orchestration_progress. cbn.
  by rewrite retract_twice.
Qed.

Lemma with_diff_stats_latest d d' s : is_known d → with_diff_stats d (with_diff_stats d' s) = with_diff_stats d s.
Proof. destruct d; [|done]. intros _. by destruct d', s. Qed.

Lemma update_found_view st k f :
  (∀ s, id (f s) = id s) → (∀ s, wf_transients s → wf_transients (f s)) → wf_view st → wf_view (update_found st k f).
Proof.
  intros HI HT [HW HF]. split; [by apply update_found_wf|]. cbn. by apply update_first_Forall.
Qed.

Lemma apply_all_view {A} (h : A → Session → Session) m st :
  (∀ a s, id (h a s) = id s) → (∀ a s, wf_transients s → wf_transients (h a s)) → wf_view st → wf_view (apply_all h m st).
Proof.
  intros HI HT HV. unfold apply_all. rewrite map_fold_foldr. induction (map_to_list m) as [|[k a] l IH]; [done|].
  apply (update_found_view _ k (h a)); [apply HI|apply HT|exact IH].
Qed.

#[local] Ltac same_session := intros; repeat match goal with d : SessionDiffStats |- _ => destruct d end; done.

#[local] Ltac push_change :=
  repeat (rewrite <- apply_all_comm; [|solve [same_session]..]).

(** One more setting event in a batch is one more change of its session. *)
Lemma settled_step e b st k f :
  change_of e = Some (k, f) → map_Forall (λ _ d, is_known d) (session_diff_stats_updates (maps b)) → wf_view st →
  settled (maps (collect_event b e)) st = update_found (settled (maps b) st) k f.
Proof.
  intros HE HK HV. destruct e; try discriminate HE; try (destruct diff_stats as [added deleted lines session_size|]; [|discriminate HE]);
    injection HE as <- <-; unfold settled; cbn [maps collect_event collect_runtime_event on_session_model_updates
      on_session_personality_updates on_session_permission_mode_updates on_session_reasoning_level_updates
      on_session_response_style_updates on_session_speed_mode_updates on_session_diff_stats_updates
      on_session_orchestration_progress_updates session_model_updates session_personality_updates
      session_permission_mode_updates session_reasoning_level_updates session_response_style_updates
      session_speed_mode_updates session_diff_stats_updates session_orchestration_progress_updates].
  8: { rewrite (apply_all_latest progressed wf_transients (λ _, True)); try done.
       - intros a s _. apply progressed_keeps.
       - intros a a' s _ _. apply progressed_latest.
       - repeat (apply apply_all_view; [same_session|same_session|]). apply HV. }
  all: repeat lazymatch goal with
    | |- apply_all ?h (<[_:=_]> _) _ = _ => fail
    | |- context [apply_all ?h (<[?k:=?a]> ?m) ?st] =>
        rewrite (apply_all_latest h (λ _, True) (λ _, True) ltac:(same_session) ltac:(done) ltac:(same_session) m k a st)
          by first [done | by apply Forall_true]
    end.
  all: try (push_change; done).
  rewrite (apply_all_latest with_diff_stats (λ _, True) is_known); [by push_change|same_session|done| |exact HK|done|by apply Forall_true].
  intros a a' s HA _ _. by apply with_diff_stats_latest.
Qed.

(** A batch of setting events has nothing for the other phases. *)
Definition plain (b : AppEventBatch) : Prop :=
  queues b = queues AppEventBatch_default ∧ sets b = sets AppEventBatch_default ∧ latest b = latest AppEventBatch_default ∧
  flags b = flags AppEventBatch_default ∧ applied_turns (maps b) = ∅ ∧ session_workflow_notice_updates (maps b) = ∅.

Lemma plain_step e b c : change_of e = Some c → plain b → plain (collect_event b e).
Proof.
  intros HE (H1 & H2 & H3 & H4 & H5 & H6).
  destruct e; try discriminate HE; unfold plain; cbn; by rewrite ?H1, ?H2, ?H3, ?H4, ?H5, ?H6.
Qed.

Lemma selection_sessions x self :
  manager_state
    (for_sessions apply_session_speed_mode_updated (session_speed_mode_updates x)
      (for_sessions apply_session_response_style_updated (session_response_style_updates x)
        (for_sessions apply_session_reasoning_level_updated (session_reasoning_level_updates x)
          (for_sessions apply_session_permission_mode_updated (session_permission_mode_updates x)
            (for_sessions apply_session_personality_updated (session_personality_updates x)
              (for_sessions apply_session_model_updated (session_model_updates x) self)))))) =
  apply_all (λ x s, set_speed_mode s x) (session_speed_mode_updates x)
    (apply_all (λ x s, set_response_style s x) (session_response_style_updates x)
      (apply_all (λ x s, set_reasoning_level_override s (Some x)) (session_reasoning_level_updates x)
        (apply_all (λ x s, set_permission_mode s x) (session_permission_mode_updates x)
          (apply_all (λ x s, set_personality_id s x) (session_personality_updates x)
            (apply_all (λ x s, set_agent s x) (session_model_updates x) (manager_state self)))))).
Proof.
  rewrite (manager_for_sessions _ (λ x s, set_speed_mode s x) (λ _, True)) by done. f_equal.
  rewrite (manager_for_sessions _ (λ x s, set_response_style s x) (λ _, True)) by done. f_equal.
  rewrite (manager_for_sessions _ (λ x s, set_reasoning_level_override s (Some x)) (λ _, True)) by done. f_equal.
  rewrite (manager_for_sessions _ (λ x s, set_permission_mode s x) (λ _, True)) by done. f_equal.
  rewrite (manager_for_sessions _ (λ x s, set_personality_id s x) (λ _, True)) by done. f_equal.
  by rewrite (manager_for_sessions _ (λ x s, set_agent s x) (λ _, True)).
Qed.

Lemma snapshot_sessions b self :
  wf_view (manager_state self) →
  manager_state (for_sessions update_orchestration_progress (session_orchestration_progress_updates (maps b))
    (apply_batch_session_snapshot_updates b self)) = settled (maps b) (manager_state self).
Proof.
  intros HV. unfold apply_batch_session_snapshot_updates, settled.
  rewrite (manager_for_sessions _ progressed (λ _, True)) by done. f_equal.
  rewrite (manager_unchanged _ (at_mention_entries_updates (maps b))) by done.
  rewrite (manager_unchanged clear_title_generation_task_if_matches).
  2: { intros x k a. unfold clear_title_generation_task_if_matches. by repeat case_match. }
  rewrite (manager_for_sessions _ with_diff_stats wf_state).
  - by rewrite selection_sessions.
  - intros x k a HW. by apply update_for_id_found.
  - intros st k a. apply update_found_wf, with_diff_stats_id.
  - rewrite selection_sessions. do 6 (apply apply_all_view; [done|done|]). exact HV.
Qed.

Lemma for_sessions_empty {A} (f : SessionManager → SessionId → A → SessionManager) self : for_sessions f ∅ self = self.
Proof. apply map_fold_empty. Qed.

Lemma for_ids_empty f self : for_ids f ∅ self = self.
Proof. apply set_fold_empty. Qed.

Lemma worker_plain b self : sets b = sets AppEventBatch_default → apply_worker_action_transitions b self = self.
Proof. intros E. unfold apply_worker_action_transitions. rewrite E.
  cbn [AppEventBatch_default sets branch_publish_started_session_ids branch_publish_resolved_session_ids
    session_queued_sync_resolved_ids]. rewrite !for_ids_empty. reflexivity.
Qed.

Lemma plain_batch b w :
  plain b → wf_view (manager_state (view_sessions w)) →
  manager_state (view_sessions (apply_batch_phases b w)) = settled (maps b) (manager_state (view_sessions w)).
Proof.
  destruct b as [q s m l f]. unfold plain. cbn [queues sets maps latest flags]. intros (-> & -> & -> & -> & H5 & H6) HV.
  unfold apply_batch_phases, drain_reduction_plan, update_session_redraw_versions. cbn -[for_sessions map_fold
    apply_batch_session_snapshot_updates set_fold settled filter]. rewrite H5, H6, map_fold_empty, for_sessions_empty.
  unfold sync_touched_sessions. rewrite for_ids_empty.
  match goal with |- context [apply_batch_session_snapshot_updates ?b] => set (b1 := b) end.
  change (manager_state (for_sessions update_orchestration_progress (session_orchestration_progress_updates (maps b1))
    (apply_worker_action_transitions b1 (apply_batch_session_snapshot_updates b1 (view_sessions w)))) = settled (maps b1) (manager_state (view_sessions w))).
  rewrite worker_plain by done. by apply snapshot_sessions.
Qed.

(** ** Batching loses nothing *)

Definition setting_event (e : AppEvent) : Prop := is_Some (change_of e).

Definition change (st : SessionState) (e : AppEvent) : SessionState :=
  match change_of e with Some (k, f) => update_found st k f | None => st end.

Lemma change_of_keeps e k f : change_of e = Some (k, f) → (∀ s, id (f s) = id s) ∧ (∀ s, wf_transients s → wf_transients (f s)).
Proof.
  destruct e; try discriminate; cbn; try (destruct diff_stats; [|discriminate]); intros [= <- <-]; try (split; done).
  split; [done|]. intros s. apply progressed_keeps.
Qed.

Lemma change_view st e : wf_view st → wf_view (change st e).
Proof.
  unfold change. destruct (change_of e) as [[k f]|] eqn:E; [|done]. apply change_of_keeps in E as [H1 H2].
  by apply update_found_view.
Qed.

Lemma collect_known e b c :
  change_of e = Some c → map_Forall (λ _ d, is_known d) (session_diff_stats_updates (maps b)) →
  map_Forall (λ _ d, is_known d) (session_diff_stats_updates (maps (collect_event b e))).
Proof.
  intros HE HK. destruct e; try discriminate HE; try exact HK. destruct diff_stats; [|discriminate HE].
  cbn. by apply map_Forall_insert_2.
Qed.

Lemma batch_of_settings es w :
  Forall setting_event es → wf_view (manager_state (view_sessions w)) →
  manager_state (view_sessions (apply_batch_phases (collect_events es) w))
  = fold_left change es (manager_state (view_sessions w)).
Proof.
  intros HE HV. unfold collect_events.
  assert (plain (fold_left collect_event es AppEventBatch_default) ∧
    map_Forall (λ _ d, is_known d) (session_diff_stats_updates (maps (fold_left collect_event es AppEventBatch_default))) ∧
    settled (maps (fold_left collect_event es AppEventBatch_default)) (manager_state (view_sessions w))
      = fold_left change es (manager_state (view_sessions w))) as (HP & _ & HS); [|by rewrite plain_batch].
  induction es as [|e es IH] using rev_ind.
  { split_and!; [done|apply map_Forall_empty|]. unfold settled. cbn. by rewrite !apply_all_empty. }
  apply Forall_app in HE as [HE [[[k f] HC] _]%Forall_cons]. destruct (IH HE) as (HP & HK & HS). clear IH.
  rewrite !fold_left_app. cbn [fold_left]. split_and!; [by eapply plain_step|by eapply collect_known|].
  rewrite (settled_step e _ _ k f) by done. rewrite HS. unfold change at 2. by rewrite HC.
Qed.

(** One event at a time, each in a batch of its own. *)
Definition one_at_a_time (es : list AppEvent) (w : Foreground) : Foreground :=
  fold_left (λ w e, apply_batch_phases (collect_events [e]) w) es w.

(** C32: Batching loses nothing.  For every sequence of setting events (selections of
    model, personality, permissions, reasoning, style and speed, known diff
    statistics, orchestration progress), of any sessions and in any order, one
    batch changes the sessions exactly as the events say, in their order: each
    event sets, in the first session with its identifier, the field it is about
    to the value it carries ([change_of]) and leaves every other session as it
    is.  So no event is dropped, the latest value of each setting of each session
    is shown, and reducing the same events one at a time gives the same
    sessions, whatever order the reducer visits the sessions in.  (The sessions
    have different ids and an exact index, and each holds one message per slot.) *)
Theorem batching_loses_nothing es w :
  Forall setting_event es → wf_view (manager_state (view_sessions w)) →
  manager_state (view_sessions (apply_batch_phases (collect_events es) w))
  = fold_left change es (manager_state (view_sessions w))
  ∧ manager_state (view_sessions (one_at_a_time es w))
  = fold_left change es (manager_state (view_sessions w)).
Proof.
  intros HE HV. split; [by apply batch_of_settings|]. unfold one_at_a_time.
  revert w HV. induction HE as [|e es HC HE IH]; intros w HV; [done|]. cbn [fold_left].
  assert (manager_state (view_sessions (apply_batch_phases (collect_events [e]) w))
    = change (manager_state (view_sessions w)) e) as E1 by (rewrite batch_of_settings; [done|by apply Forall_singleton|done]).
  rewrite IH by (rewrite E1; by apply change_view). by rewrite E1.
Qed.
End settings.

(** ** Completed turns *)

Section turns.
Context `{Hhash : FxHasher, Hhost : !ReducerHost}.

Definition counts_tokens (x : SessionStats) : Prop := (0 <= input_tokens x)%Z ∧ (0 <= output_tokens x)%Z.

Definition wf_turn_session (s : Session) : Prop := wf_transients s ∧ counts_tokens (stats s).

Definition turn_change (st : SessionState) (e : AppEvent) : SessionState :=
  match e with AgentResponseReceived k t => update_found st k (with_turn_applied t) | _ => st end.

Definition counted (e : AppEvent) : Prop :=
  match e with AgentResponseReceived _ t => counts_tokens (token_usage_delta t) | _ => True end.

Lemma saturating_assoc a b c : (0 <= a → 0 <= c → u64_saturating_add (u64_saturating_add a b) c = u64_saturating_add a (u64_saturating_add b c))%Z.
Proof. unfold u64_saturating_add. lia. Qed.

Lemma saturating_nonneg a b : (0 <= a → 0 <= b → 0 <= u64_saturating_add a b)%Z.
Proof. unfold u64_saturating_add, u64_max. lia. Qed.

Lemma add_tokens_counts s d : counts_tokens s → counts_tokens d → counts_tokens (add_tokens s d).
Proof. intros [? ?] [? ?]. split; cbn; by apply saturating_nonneg. Qed.

Lemma turn_keeps t s : counts_tokens (token_usage_delta t) → wf_turn_session s → wf_turn_session (with_turn_applied t s).
Proof.
  intros HT [HW HC]. split.
  - unfold wf_transients, with_turn_applied, retracted. cbn. by apply retract_wf.
  - unfold with_turn_applied. cbn. by apply add_tokens_counts.
Qed.

(** What a turn writes. *)
Definition written (s : Session) tasks questions store x : Session :=
  set_stats (set_transient_messages (set_questions (set_follow_up_tasks s tasks) questions) store) x.

Lemma turn_shape t s :
  with_turn_applied t s = written s (applied_follow_up_tasks t) (applied_questions t)
    (retract (transient_messages s) ReviewCommentResolution).2 (add_tokens (stats s) (token_usage_delta t)).
Proof. reflexivity. Qed.

Lemma written_twice s a b c d a' b' c' d' : written (written s a b c d) a' b' c' d' = written s a' b' c' d'.
Proof. by destruct s. Qed.

(** Two turns are one turn with the newer questions and all tokens. *)
Lemma turns_combine t older s :
  counts_tokens (token_usage_delta t) → wf_turn_session s →
  with_turn_applied t (with_turn_applied older s) = with_turn_applied (merge_newer older t) s.
Proof.
  intros [H1 H2] [HW [H3 H4]]. rewrite !turn_shape, written_twice. f_equal.
  - cbn [token_usage_delta]. change (transient_messages (written s (applied_follow_up_tasks older) (applied_questions older)
      (retract (transient_messages s) ReviewCommentResolution).2 (add_tokens (stats s) (token_usage_delta older))))
      with (retract (transient_messages s) ReviewCommentResolution).2. by apply retract_twice.
  - change (add_tokens (add_tokens (stats s) (token_usage_delta older)) (token_usage_delta t)
      = add_tokens (stats s) (add_tokens (token_usage_delta older) (token_usage_delta t))).
    unfold add_tokens. cbn [input_tokens output_tokens added_lines deleted_lines diff_state]. by rewrite !saturating_assoc.
Qed.

Lemma applied_turns_step e b :
  applied_turns (maps (collect_event b e)) =
  match e with
  | AgentResponseReceived k t =>
      <[k := match applied_turns (maps b) !! k with Some older => merge_newer older t | None => t end]> (applied_turns (maps b))
  | _ => applied_turns (maps b)
  end.
Proof.
  destruct e; try done; cbn.
  - unfold collect_git_status_updated. by repeat case_match.
  - unfold collect_sync_main_completed. cbn. by case_match.
  - unfold collect_branch_publish_action_completed. cbn. by case_match.
  - unfold collect_published_branch_sync_updated. by case_match.
Qed.

Lemma update_first_absent k f ss : list_find_b (λ s, bool_decide (id s = k)) ss = None → update_first k f ss = ss.
Proof. induction ss as [|s ss IH]; [done|]. cbn. case_bool_decide; [done|]. intros HN. by rewrite IH. Qed.

Lemma turn_fold_sessions turns w :
  manager_state (view_sessions (map_fold (λ k t w, apply_agent_response_received w k t) w turns))
  = apply_all with_turn_applied turns (manager_state (view_sessions w)).
Proof.
  unfold apply_all. rewrite !map_fold_foldr. induction (map_to_list turns) as [|[k t] l IH]; [done|]. cbn.
  rewrite <- IH. set (w1 := foldr _ w l). unfold apply_agent_response_received, apply_turn_applied_state.
  destruct (SessionState.find_session (manager_state (view_sessions w1)) k) as [s|] eqn:EF; [done|].
  unfold update_found. rewrite update_first_absent; [by destruct (manager_state (view_sessions w1))|]. exact EF.
Qed.

(** No completed turn is lost when events are batched.  Whatever else is in the
    batch, applying the turns it collected leaves every session as applying each
    completed turn when it was reported: the questions and tasks are those of
    the latest turn and the tokens of all turns are added up, saturating at the
    width of the counters. *)
Theorem batched_turns_accumulate es w :
  Forall counted es → Forall wf_turn_session (sessions (manager_state (view_sessions w))) →
  manager_state (view_sessions (map_fold (λ k t w, apply_agent_response_received w k t) w
    (applied_turns (maps (collect_events es)))))
  = fold_left turn_change es (manager_state (view_sessions w)).
Proof.
  intros HE HS. rewrite turn_fold_sessions. unfold collect_events.
  assert (map_Forall (λ _ t, counts_tokens (token_usage_delta t)) (applied_turns (maps (fold_left collect_event es AppEventBatch_default)))
    ∧ apply_all with_turn_applied (applied_turns (maps (fold_left collect_event es AppEventBatch_default)))
        (manager_state (view_sessions w)) = fold_left turn_change es (manager_state (view_sessions w))) as [_ H]; [|done].
  induction es as [|e es IH] using rev_ind.
  { split; [apply map_Forall_empty|apply apply_all_empty]. }
  apply Forall_app in HE as [HE [HC _]%Forall_cons]. destruct (IH HE) as [HM HT]. clear IH.
  rewrite !fold_left_app. cbn [fold_left]. rewrite applied_turns_step. destruct e; try (split; [exact HM|exact HT]).
  cbn [turn_change]. split.
  - apply map_Forall_insert_2; [|done]. case_match; [|done]. apply add_tokens_counts; [|done]. by eapply (HM k).
  - rewrite (apply_all_insert _ merge_newer wf_turn_session (λ t, counts_tokens (token_usage_delta t))); try done.
    + by rewrite HT.
    + intros t s. apply turn_keeps.
    + intros t older s Ht _. by apply turns_combine.
Qed.
End turns.

(** ** The queue *)

Section queue.
Context `{Hhash : FxHasher, Hhost : !ReducerHost}.

(** The events a cycle takes. *)
Definition taken (queue : list AppEvent) : list AppEvent :=
  match queue with [] => [] | e :: queue => (drain e queue).1 end.

Definition left_over (queue : list AppEvent) : list AppEvent :=
  match queue with [] => [] | e :: queue => (drain e queue).2 end.

Lemma taken_take queue : taken queue = take APP_EVENT_DRAIN_BUDGET queue ∧ left_over queue = drop APP_EVENT_DRAIN_BUDGET queue.
Proof. destruct queue as [|e queue]; [by rewrite take_nil, drop_nil|]. done. Qed.

(** The queue of events is drained in order and without starving the screen.  A
    cycle reduces at most the budget of events, the oldest ones; nothing is lost
    or reordered over the cycles, and a queue of n events is empty after
    n/128 rounded up. *)
Theorem events_are_drained_in_order queue n w :
  (apply_app_events queue w).1 = left_over queue ∧
  length (taken queue) <= APP_EVENT_DRAIN_BUDGET ∧
  concat (map (λ i, taken (Nat.iter i left_over queue)) (seq 0 n)) ++ Nat.iter n left_over queue = queue ∧
  (length queue <= n * APP_EVENT_DRAIN_BUDGET → Nat.iter n left_over queue = []).
Proof.
  assert (∀ i, Nat.iter i left_over queue = drop (i * APP_EVENT_DRAIN_BUDGET) queue) as HI.
  { induction i as [|i IH]; [done|]. rewrite Nat.iter_succ, IH, (proj2 (taken_take _)), drop_drop. f_equal. lia. }
  split_and!.
  - by destruct queue.
  - rewrite (proj1 (taken_take queue)), length_take. lia.
  - rewrite HI. induction n as [|n IH]; [done|]. rewrite seq_S, map_app, concat_app. cbn [map concat plus].
    rewrite app_nil_r, HI, (proj1 (taken_take _)), <- app_assoc.
    replace (drop (S n * APP_EVENT_DRAIN_BUDGET) queue) with (drop APP_EVENT_DRAIN_BUDGET (drop (n * APP_EVENT_DRAIN_BUDGET) queue))
      by (rewrite drop_drop; f_equal; lia).
    by rewrite take_drop.
  - intros HL. rewrite HI. by apply drop_ge.
Qed.
End queue.

(** ** Witnesses *)

Module EventDemo.
#[local] Instance hasher : FxHasher := counting_hasher.
#[local] Instance quiet_host : ReducerHost := {|
  host_effect := λ _ self, self;
  host_generation := 0;
  host_clock := 0;
  host_lookup_root := λ _, L"/repo";
  host_viewed := None
|}.

Definition view : Foreground :=
  mkForeground (SessionManager_new StateDemo.two) ∅ ∅ ∅ None None None [] false ∅ None.

Definition changes : list AppEvent :=
  [SessionSpeedModeUpdated (L"a") Fast; SessionOrchestrationProgressUpdated (Some (L"1 of 2")) (L"b");
   SessionSpeedModeUpdated (L"a") Normal; SessionDiffStatsUpdated (DiffStatsKnown 3 1 true SizeXs) (L"a")].

Lemma batching_loses_nothing_witness :
  speed_mode <$> sessions (fold_left change changes StateDemo.two) = [Normal; Normal] ∧
  manager_state (view_sessions (apply_batch_phases (collect_events changes) view))
  = fold_left change changes (manager_state (view_sessions view)) ∧
  manager_state (view_sessions (one_at_a_time changes view))
  = fold_left change changes (manager_state (view_sessions view)).
Proof.
  split; [vm_compute; reflexivity|]. apply batching_loses_nothing.
  - repeat constructor; by eexists.
  - split; [exact StateDemo.two_wf|]. repeat constructor; try apply NoDup_nil_2; reflexivity.
Defined.

(** Two turns of one session in a batch. *)
Definition turn_events : list AppEvent :=
  [AgentResponseReceived (L"a") (mkTurnApplied [] [] (mkSessionStats 0 0 DiffUnknown 10 5)); RefreshProjects;
   AgentResponseReceived (L"a") (mkTurnApplied [] [] (mkSessionStats 0 0 DiffUnknown 7 2))].

Lemma batched_turns_accumulate_witness :
  (λ s, (input_tokens (stats s), output_tokens (stats s))) <$>
    sessions (manager_state (view_sessions (map_fold (λ k t w, apply_agent_response_received w k t) view
      (applied_turns (maps (collect_events turn_events)))))) = [(17%Z, 7%Z); (0%Z, 0%Z)].
Proof.
  rewrite batched_turns_accumulate.
  - vm_compute. reflexivity.
  - repeat constructor; cbn; lia.
  - repeat constructor; try apply NoDup_nil_2; try reflexivity; vm_compute; discriminate.
Defined.
End EventDemo.
