(* ===== verification/ReadFile.v ===== *)
(** * Bounded reads (crates/ag-harness/src/read/file.rs, output.rs, command.rs, inspection.rs)

    The pure part of the read tool: selecting lines of a stream within the
    limits, cutting a result so that its JSON fits, and bounding the output of
    repository commands.  A stream is the bytes it delivers and the error it
    ends with, if any. *)
From S2P Require Import Prelude Json HarnessModel Patch ToolCalls.

Definition DEFAULT_RESULT_LINES : Z := 200.
Definition MAX_READ_BYTES : Z := 50 * 1024.
Definition MAX_READ_LINES : Z := 2000.
Definition MAX_SCAN_BYTES : Z := 8 * 1024 * 1024.
Definition MAX_UNTRACKED_DIFF_FILES : Z := 100.

(** ** Errors *)

Inductive ReadError :=
| ReadRepositoryRoot (source : IoError)
| ResolvePath (path : str) (source : IoError)
| OutsideRepository (path : str)
| OpenFailed (path : str) (source : IoError)
| ReadFailed (path : str) (source : IoError)
| OffsetBeyondEnd (offset : Z) (path : str)
| LineTooLong (line : Z) (path : str)
| InvalidUtf8 (line : Z) (path : str)
| ScanLimitExceeded (limit : Z) (path : str)
| EncodeRead (reason : str).

Definition ReadError_is_model_correctable (self : ReadError) : bool :=
  match self with ReadRepositoryRoot _ | EncodeRead _ => false | _ => true end.

Definition ReadError_display (self : ReadError) : str :=
  match self with
  | ReadRepositoryRoot source => L"failed to resolve repository root: " ++ io_text source
  | ResolvePath path source => L"failed to resolve read path `" ++ path ++ L"`: " ++ io_text source
  | OutsideRepository path => L"read path `" ++ path ++ L"` resolves outside the repository"
  | OpenFailed path source => L"failed to open read path `" ++ path ++ L"`: " ++ io_text source
  | ReadFailed path source => L"failed to read `" ++ path ++ L"`: " ++ io_text source
  | OffsetBeyondEnd offset path =>
      L"read offset " ++ display_Z offset ++ L" is beyond the end of `" ++ path ++ L"`"
  | LineTooLong line path =>
      L"line " ++ display_Z line ++ L" in `" ++ path ++ L"` exceeds the read size limit"
  | InvalidUtf8 line path => L"line " ++ display_Z line ++ L" in `" ++ path ++ L"` is not valid UTF-8"
  | ScanLimitExceeded limit path =>
      L"read of `" ++ path ++ L"` exceeds the scan limit of " ++ display_Z limit ++ L" bytes"
  | EncodeRead reason => L"failed to encode read result: " ++ reason
  end.

(** ** Reading lines *)

Record Stream := mkStream { stream_bytes : list N; stream_failure : option IoError }.

(** [take(limit)]: the error is out of reach behind the limit. *)
Definition stream_take (limit : Z) (s : Stream) : Stream :=
  if (usize_len (stream_bytes s) <? limit)%Z then s
  else mkStream (take (Z.to_nat limit) (stream_bytes s)) None.

(** The bytes up to and with the first line feed, the rest, and whether one is there. *)
Fixpoint cut_line (bytes : list N) : list N * list N * bool :=
  match bytes with
  | [] => ([], [], false)
  | b :: rest =>
      if (b =? newline)%N then ([b], rest, true)
      else let '(line, rest', found) := cut_line rest in (b :: line, rest', found)
  end.

Definition consume_scan_budget (remaining_scan_bytes bytes : Z) (path : str) : result Z ReadError :=
  if (remaining_scan_bytes <? bytes)%Z then Err (ScanLimitExceeded MAX_SCAN_BYTES path)
  else Ok (remaining_scan_bytes - bytes)%Z.

(** The chunks of the buffered reader add up to the line; the error, if any,
    comes after the bytes. *)
Definition skip_line (reader : Stream) (path : str) (remaining : Z) : result (bool * Stream * Z) ReadError :=
  let '(line, rest, found) := cut_line (stream_bytes reader) in
  let? remaining := consume_scan_budget remaining (usize_len line) path in
  if found then Ok (true, mkStream rest (stream_failure reader), remaining)
  else match stream_failure reader with
       | Some source => Err (ReadFailed path source)
       | None => Ok (negb (is_empty line), mkStream rest None, remaining)
       end.

(** Every round reads a byte, so the length of the stream bounds the rounds. *)
Fixpoint skip_to_line (fuel : nat) (reader : Stream) (current_line start_line : Z) (path : str)
    (source_truncated : bool) (remaining : Z) : result (Stream * Z) ReadError :=
  if (current_line <? start_line)%Z then
    match fuel with
    | 0 => Err (OffsetBeyondEnd start_line path)
    | S fuel' =>
        let? (more, reader, remaining) := skip_line reader path remaining in
        if more then skip_to_line fuel' reader (current_line + 1) start_line path source_truncated remaining
        else Err (if source_truncated then ScanLimitExceeded MAX_SCAN_BYTES path
                  else OffsetBeyondEnd start_line path)
    end
  else Ok (reader, remaining).

(** [strip_suffix(b"\n")] and then [strip_suffix(b"\r")]; a carriage return
    alone stays. *)
Definition line_content (bytes : list N) : list N :=
  match rev bytes with
  | b :: r =>
      if (b =? newline)%N
      then rev (match r with b' :: r' => if (b' =? carriage_return)%N then r' else r | [] => r end)
      else bytes
  | [] => bytes
  end.

(** [read_until] on at most [MAX_READ_BYTES + 3] bytes. *)
Definition next_line (reader : Stream) (line : Z) (path : str) (remaining : Z)
  : result (option (list N) * Stream * Z) ReadError :=
  let limited := stream_take (MAX_READ_BYTES + 3) reader in
  let '(bytes, _, found) := cut_line (stream_bytes limited) in
  match (if found then None else stream_failure limited) with
  | Some source => Err (ReadFailed path source)
  | None =>
      if is_empty bytes then Ok (None, reader, remaining)
      else
        let? remaining := consume_scan_budget remaining (usize_len bytes) path in
        if (MAX_READ_BYTES <? usize_len (line_content bytes))%Z then Err (LineTooLong line path)
        else Ok (Some bytes, mkStream (drop (length bytes) (stream_bytes reader)) (stream_failure reader), remaining)
  end.

Definition decode_line (line : list N) (line_number : Z) (path : str) : result str ReadError :=
  match from_utf8 (line_content line) with
  | Some text => Ok text
  | None => Err (InvalidUtf8 line_number path)
  end.

Definition has_more (reader : Stream) (path : str) : result bool ReadError :=
  match stream_bytes reader, stream_failure reader with
  | [], Some source => Err (ReadFailed path source)
  | bytes, _ => Ok (negb (is_empty bytes))
  end.

(** What the loop has collected. *)
Record Selection := mkSelection {
  sel_content : str;
  sel_lines : Z;
  sel_next : option Z;
  sel_reader : Stream
}.

(** [while lines_read < selected_lines]; [fuel] is the number of lines left. *)
Fixpoint read_lines (fuel : nat) (reader : Stream) (start_line lines_read : Z) (content path : str)
    (source_truncated : bool) (remaining : Z) : result Selection ReadError :=
  match fuel with
  | 0 => Ok (mkSelection content lines_read None reader)
  | S fuel' =>
      let current_line := (start_line + lines_read)%Z in
      let? (line, reader, remaining) := next_line reader current_line path remaining in
      match line with
      | None =>
          if source_truncated then Err (ScanLimitExceeded MAX_SCAN_BYTES path)
          else Ok (mkSelection content lines_read None reader)
      | Some line =>
          let? line := decode_line line current_line path in
          let separator := if (0 <? lines_read)%Z then [newline] else [] in
          if (MAX_READ_BYTES <? str_len content + str_len separator + str_len line)%Z
          then Ok (mkSelection content lines_read (Some current_line) reader)
          else read_lines fuel' reader start_line (lines_read + 1) (content ++ separator ++ line) path
                 source_truncated remaining
      end
  end.

(** ** Results *)

Record ReadOutput := mkReadOutput {
  comparison_base : option str;
  content : str;
  end_line : option Z;
  next_offset : option Z;
  output_path : str;
  start_line : Z;
  truncated : bool
}.

Definition u64_checked_add (a b : Z) : option Z := if (a + b <=? u64_max)%Z then Some (a + b)%Z else None.

Definition read (file : Stream) (arguments : ReadArguments) (path : str) (source_truncated : bool)
  : result ReadOutput ReadError :=
  let start_line := default 1%Z (offset arguments) in
  let selected_lines := Z.min (default MAX_READ_LINES (limit arguments)) MAX_READ_LINES in
  let file := stream_take (MAX_SCAN_BYTES + 1) file in
  let? (reader, remaining) := skip_to_line (S (length (stream_bytes file))) file 1 start_line path source_truncated
                                MAX_SCAN_BYTES in
  let? sel := read_lines (Z.to_nat selected_lines) reader start_line 0 [] path source_truncated remaining in
  let lines_read := sel_lines sel in
  let? next_offset :=
    match sel_next sel with
    | Some n => Ok (Some n)
    | None =>
        if (lines_read =? selected_lines)%Z then
          let? more := if source_truncated then Ok true else has_more (sel_reader sel) path in
          Ok (if more then Some (start_line + lines_read)%Z else None)
        else Ok None
    end in
  if (lines_read =? 0)%Z && (1 <? start_line)%Z then Err (OffsetBeyondEnd start_line path)
  else
    let end_line := if (lines_read =? 0)%Z then None else u64_checked_add start_line (lines_read - 1) in
    Ok (mkReadOutput None (sel_content sel) end_line next_offset path start_line (bool_decide (is_Some next_offset))).

Section encoding.
Context `{JsonEscape}.

Definition json_bool (b : bool) : str := if b then L"true" else L"false".
Definition json_option (o : option Z) : str := match o with Some z => display_Z z | None => L"null" end.

(** [serde_json::to_string] of the struct, field by field. *)
Definition ReadOutput_json (self : ReadOutput) : str :=
  json_object
    [member (L"comparison_base") (json_string <$> comparison_base self);
     member (L"content") (Some (json_string (content self)));
     member (L"end_line") (Some (json_option (end_line self)));
     member (L"next_offset") (Some (json_option (next_offset self)));
     member (L"path") (Some (json_string (output_path self)));
     member (L"start_line") (Some (display_Z (start_line self)));
     member (L"truncated") (Some (json_bool (truncated self)))].

(** Byte offsets of the line ends. *)
Definition line_ends (content : str) : list nat :=
  ((List.filter (λ ic : nat * char, (ic.2 =? newline)%N) (char_indices content)).*1) ++
  (if is_empty content then [] else [byte_len content]).

(** [None] when the index is out of range or no character boundary. *)
Definition with_line_prefix (self : ReadOutput) (ends : list nat) (lines : nat) : option ReadOutput :=
  content_end ← ends !! (lines - 1);
  '(before, _) ← split_at_byte (content self) content_end;
  let count := Z.of_nat lines in
  Some (mkReadOutput (comparison_base self) before
          (u64_checked_add (start_line self) (Z.max 0 (count - 1)))
          (u64_checked_add (start_line self) count) (output_path self) (start_line self) true).

Definition fits_result (text : str) : bool := (str_len text <=? MAX_TOOL_RESULT_BYTES)%Z.

(** The search for the largest accepted number: every round halves the interval
    or more, so its length bounds the rounds.  [None] is a panic of the test. *)
Fixpoint search_largest (fuel : nat) (accepts : nat → option bool) (fitting candidate : nat) : option nat :=
  match fuel with
  | 0 => Some fitting
  | S fuel' =>
      if decide (fitting < candidate) then
        let midpoint := fitting + (candidate - fitting + 1) / 2 in
        match accepts midpoint with
        | None => None
        | Some true => search_largest fuel' accepts midpoint candidate
        | Some false => search_largest fuel' accepts fitting (midpoint - 1)
        end
      else Some fitting
  end.

(** The output that is encoded: as it is, or cut to the lines that fit. *)
Definition fit_output (self : ReadOutput) : option (result ReadOutput ReadError) :=
  if fits_result (ReadOutput_json self) then Some (Ok self)
  else
    let ends := line_ends (content self) in
    fitting_lines ← search_largest (length ends)
      (λ midpoint, (λ o, fits_result (ReadOutput_json o)) <$> with_line_prefix self ends midpoint) 0 (length ends);
    if (fitting_lines =? 0)%nat then Some (Err (LineTooLong (start_line self) (output_path self)))
    else Ok <$> with_line_prefix self ends fitting_lines.

Definition ReadOutput_to_tool_result (self : ReadOutput) : option (result str ReadError) :=
  r ← fit_output self; Some (let? o := r in Ok (ReadOutput_json o)).

Definition rejected_tool_result (error path : str) : str :=
  json_object [member (L"error") (Some (json_string (bounded_diagnostic error)));
               member (L"path") (Some (json_string path));
               member (L"status") (Some (json_string (L"rejected")))].

(** ** Inspection results *)

Definition json_array (items : list str) : str := L"[" ++ join (L",") items ++ L"]".

(** The keys of [json!] objects are sorted or kept as written; here both agree. *)
Definition encode_items_result (action : str) (items : list str) (truncated : bool) : str :=
  json_object [member (L"action") (Some (json_string action));
               member (L"result") (Some (json_array (json_string <$> items)));
               member (L"truncated") (Some (json_bool truncated))].

Definition bounded_items_result (action : str) (items : list str) (truncated : bool) : option str :=
  if fits_result (encode_items_result action items truncated) then Some (encode_items_result action items truncated)
  else
    fitting_items ← search_largest (length items)
      (λ midpoint, Some (fits_result (encode_items_result action (take midpoint items) true))) 0 (length items);
    Some (encode_items_result action (take fitting_items items) true).

Definition InspectionOutput_json (action : str) (base : option str) (result : str) (truncated : bool) : str :=
  json_object [member (L"action") (Some (json_string action));
               member (L"comparison_base") (json_string <$> base);
               member (L"result") (Some (json_string result));
               member (L"truncated") (Some (json_bool truncated))].

(** [&text[..boundaries[n]]] is the first [n] characters. *)
Definition bounded_text_result (action text : str) (truncated : bool) (base : option str) : option str :=
  if fits_result (InspectionOutput_json action base text truncated)
  then Some (InspectionOutput_json action base text truncated)
  else
    fitting ← search_largest (length text)
      (λ midpoint, Some (fits_result (InspectionOutput_json action base (take midpoint text) true))) 0 (length text);
    Some (InspectionOutput_json action base (take fitting text) true).
End encoding.

(** ** Command output *)

Record RepositoryCommandOutput := mkCommandOutput {
  code : option Z;
  stderr : list N;
  stdout : list N;
  stdout_truncated : bool
}.

(** [rposition] of the delimiter: what follows the last one is dropped. *)
Definition retain_complete_records (self : RepositoryCommandOutput) (delimiter : N) : RepositoryCommandOutput :=
  if stdout_truncated self then
    mkCommandOutput (code self) (stderr self)
      (rev (skip_while (λ b, negb (b =? delimiter)%N) (rev (stdout self)))) true
  else self.

(** The largest boundary at or below an offset is the longest prefix within it. *)
Definition bounded_inspection_text (output : RepositoryCommandOutput) : option (str * bool) :=
  text ← from_utf8 (stdout output);
  let truncated := stdout_truncated output || (MAX_READ_BYTES <? str_len text)%Z in
  Some (if truncated then floor_prefix text (Z.min MAX_READ_BYTES (str_len text)) else text, truncated).

Definition append_bounded_diff (diff addition : str) : str * bool :=
  let separator := if negb (is_empty diff) && negb (ends_with_newline diff) then 1%Z else 0%Z in
  let available := Z.max 0 (MAX_READ_BYTES - str_len diff) in
  if (separator + str_len addition <=? available)%Z
  then (diff ++ (if (0 <? separator)%Z then [newline] else []) ++ addition, false)
  else
    let diff := diff ++ (if (0 <? separator)%Z && (0 <? available)%Z then [newline] else []) in
    let available := Z.max 0 (MAX_READ_BYTES - str_len diff) in
    (diff ++ floor_prefix addition (Z.min available (str_len addition)), true).

Definition limit_items {A} (items : list A) (requested : option Z) : list A * bool :=
  let limit := Z.min (default DEFAULT_RESULT_LINES requested) MAX_READ_LINES in
  (take (Z.to_nat limit) items, (limit <? usize_len items)%Z).

(** [split(|byte| byte == 0)] without the empty records, decoded. *)
Definition decode_records (bytes : list N) : option (list str) :=
  mapM from_utf8 (List.filter (λ r, negb (is_empty r)) (split_char 0%N bytes)).
