(* ===== verification/ReadLaws.v ===== *)
(** * Laws of bounded reads

    A page of a file is the lines it says it is, as many as the limits allow,
    and a reader who follows the continuation offsets sees every line once. *)
From S2P Require Import Prelude Json HarnessModel Patch PatchLaws ToolCalls ReadFile.

#[local] Arguments lit : simpl never.

(** ** Decoding is exact *)

Lemma continuation_inv b x : continuation b = Some x → (b = 128 + x ∧ x < 64)%N.
Proof.
  unfold continuation. destruct (N.leb_spec 128 b); [|done]. destruct (N.ltb_spec b 192); [|done]. cbn.
  intros [= <-]. lia.
Qed.

Lemma scalar_inv c low d : scalar c low = Some d → (d = c ∧ low <= c ∧ c < 1114112)%N.
Proof.
  unfold scalar. destruct (N.leb_spec low c); [|done]. destruct (N.ltb_spec c 1114112); [|done].
  destruct (negb _); [|done]. by intros [= <-].
Qed.

Lemma div64 q r : (r < 64 → (q * 64 + r) / 64 = q ∧ (q * 64 + r) mod 64 = r)%N.
Proof.
  intros HR. rewrite N.add_comm, N.div_add, N.Div0.mod_add by done. by rewrite N.div_small, N.mod_small.
Qed.

Lemma encode_two q r : (r < 64 → q < 32 → 2 <= q → encode_utf8 (q * 64 + r) = [192 + q; 128 + r])%N.
Proof.
  intros HR HQ HL. unfold encode_utf8. destruct (div64 q r HR) as [-> ->].
  destruct (N.ltb_spec (q * 64 + r) 128); [lia|]. by destruct (N.ltb_spec (q * 64 + r) 2048); [|lia].
Qed.

Lemma encode_three q r1 r2 :
  (r1 < 64 → r2 < 64 → q < 16 → 2048 <= q * 4096 + r1 * 64 + r2 →
   encode_utf8 (q * 4096 + r1 * 64 + r2) = [224 + q; 128 + r1; 128 + r2])%N.
Proof.
  intros H1 H2 HQ HL. replace (q * 4096 + r1 * 64 + r2)%N with ((q * 64 + r1) * 64 + r2)%N in * by lia.
  unfold encode_utf8. destruct (div64_64 ((q * 64 + r1) * 64 + r2)) as [-> _].
  destruct (div64 (q * 64 + r1) r2 H2) as [-> ->]. destruct (div64 q r1 H1) as [-> ->].
  destruct (N.ltb_spec ((q * 64 + r1) * 64 + r2) 128); [lia|].
  destruct (N.ltb_spec ((q * 64 + r1) * 64 + r2) 2048); [lia|].
  by destruct (N.ltb_spec ((q * 64 + r1) * 64 + r2) 65536); [|lia].
Qed.

Lemma encode_four q r1 r2 r3 :
  (r1 < 64 → r2 < 64 → r3 < 64 → 65536 <= q * 262144 + r1 * 4096 + r2 * 64 + r3 →
   encode_utf8 (q * 262144 + r1 * 4096 + r2 * 64 + r3) = [240 + q; 128 + r1; 128 + r2; 128 + r3])%N.
Proof.
  intros H1 H2 H3 HL.
  replace (q * 262144 + r1 * 4096 + r2 * 64 + r3)%N with (((q * 64 + r1) * 64 + r2) * 64 + r3)%N in * by lia.
  unfold encode_utf8. destruct (div64_64 (((q * 64 + r1) * 64 + r2) * 64 + r3)) as [-> ->].
  destruct (div64 ((q * 64 + r1) * 64 + r2) r3 H3) as [-> ->]. destruct (div64 (q * 64 + r1) r2 H2) as [-> ->].
  destruct (div64 q r1 H1) as [-> ->].
  by repeat match goal with |- context [(?a <? ?b)%N] => destruct (N.ltb_spec a b); [lia|] end.
Qed.

Lemma from_utf8_loop_exact fuel bytes s : from_utf8_loop fuel bytes = Some s → as_bytes s = bytes.
Proof.
  revert bytes s. induction fuel as [|fuel IH]; intros bytes s; cbn [from_utf8_loop].
  { destruct bytes; [|done]. by intros [= <-]. }
  destruct bytes as [|b0 bytes]; [by intros [= <-]|].
  destruct (N.ltb_spec b0 128) as [L0|L0].
  { intros (s' & E & ->)%fmap_Some. cbn [as_bytes flat_map]. fold (as_bytes s'). rewrite (IH _ _ E). unfold encode_utf8.
    by destruct (N.ltb_spec b0 128); [|lia]. }
  destruct ((192 <=? b0) && (b0 <? 224))%N eqn:B1.
  { apply andb_true_iff in B1 as [B1%N.leb_le B2%N.ltb_lt]. destruct bytes as [|b1 bytes]; [done|].
    intros (x1 & [-> X1]%continuation_inv & (c & (-> & C1 & C2)%scalar_inv & (s' & E & ->)%fmap_Some)%bind_Some)%bind_Some.
    cbn [as_bytes flat_map]. fold (as_bytes s'). rewrite (IH _ _ E), encode_two by lia. cbn. do 2 f_equal. lia. }
  destruct ((224 <=? b0) && (b0 <? 240))%N eqn:B2.
  { apply andb_true_iff in B2 as [B2%N.leb_le B3%N.ltb_lt]. destruct bytes as [|b1 [|b2 bytes]]; [done..|].
    intros (x1 & [-> X1]%continuation_inv & (x2 & [-> X2]%continuation_inv &
      (c & (-> & C1 & C2)%scalar_inv & (s' & E & ->)%fmap_Some)%bind_Some)%bind_Some)%bind_Some.
    cbn [as_bytes flat_map]. fold (as_bytes s'). rewrite (IH _ _ E), encode_three by lia. cbn. do 2 f_equal. lia. }
  destruct ((240 <=? b0) && (b0 <? 248))%N eqn:B3; [|done].
  apply andb_true_iff in B3 as [B3%N.leb_le B4%N.ltb_lt]. destruct bytes as [|b1 [|b2 [|b3 bytes]]]; [done..|].
  intros (x1 & [-> X1]%continuation_inv & (x2 & [-> X2]%continuation_inv & (x3 & [-> X3]%continuation_inv &
    (c & (-> & C1 & C2)%scalar_inv & (s' & E & ->)%fmap_Some)%bind_Some)%bind_Some)%bind_Some)%bind_Some.
  cbn [as_bytes flat_map]. fold (as_bytes s'). rewrite (IH _ _ E), encode_four by lia. cbn. do 2 f_equal. lia.
Qed.

Lemma from_utf8_exact bytes s : from_utf8 bytes = Some s → as_bytes s = bytes.
Proof. apply from_utf8_loop_exact. Qed.

Lemma from_utf8_len bytes s : from_utf8 bytes = Some s → str_len s = usize_len bytes.
Proof. intros E. unfold str_len, usize_len. by rewrite <- (from_utf8_exact _ _ E), length_as_bytes. Qed.

(** ** Lines of a stream *)

Lemma cut_line_app x rest : newline ∉ x → cut_line (x ++ newline :: rest) = (x ++ [newline], rest, true).
Proof.
  induction x as [|b x IH]; [done|]. intros [HB HN]%not_elem_of_cons. cbn [app cut_line].
  destruct (N.eqb_spec b newline); [done|]. by rewrite IH.
Qed.

Lemma cut_line_last x : newline ∉ x → cut_line x = (x, [], false).
Proof.
  induction x as [|b x IH]; [done|]. intros [HB HN]%not_elem_of_cons. cbn [cut_line].
  destruct (N.eqb_spec b newline); [done|]. by rewrite IH.
Qed.

(** The first line of a file. *)
Lemma cut_first x ls :
  file_lines (x :: ls) → x ≠ [] ∧ cut_line (concat (x :: ls)) = (x, concat ls, ends_with_newline x) ∧
  (ends_with_newline x = false → ls = []).
Proof.
  intros HF. cbn [concat]. inversion HF as [|y HX HN|y ls' HN HF']; subst.
  - rewrite app_nil_r, no_newline_end by done. by split_and!; [|apply cut_line_last|].
  - rewrite ends_with_newline_snoc, <- app_assoc. split_and!; [by destruct y|by apply cut_line_app|done].
Qed.

Lemma usize_len_app {A} (a b : list A) : usize_len (a ++ b) = (usize_len a + usize_len b)%Z.
Proof. unfold usize_len. rewrite length_app. lia. Qed.

Lemma usize_len_pos {A} (l : list A) : l ≠ [] → (0 < usize_len l)%Z.
Proof. destruct l; [done|]. rewrite usize_len_cons. pose proof (usize_len_nonneg l). lia. Qed.

Definition reader_of (ls : list (list N)) : Stream := mkStream (concat ls) None.

Lemma skip_line_file x ls path remaining :
  file_lines (x :: ls) → (usize_len x <= remaining)%Z →
  skip_line (reader_of (x :: ls)) path remaining = Ok (true, reader_of ls, (remaining - usize_len x)%Z).
Proof.
  intros HF HR. destruct (cut_first _ _ HF) as (HX & HC & HE). unfold skip_line, reader_of. cbn [stream_bytes stream_failure].
  rewrite HC. unfold consume_scan_budget. destruct (Z.ltb_spec remaining (usize_len x)); [lia|]. cbn [and_then].
  destruct (ends_with_newline x); [done|]. rewrite (HE eq_refl). destruct x; done.
Qed.

Lemma skip_line_end path remaining :
  (0 <= remaining)%Z → skip_line (reader_of []) path remaining = Ok (false, reader_of [], remaining).
Proof.
  intros HR. unfold skip_line, consume_scan_budget. cbn [reader_of concat stream_bytes cut_line stream_failure].
  change (usize_len []) with 0%Z. destruct (Z.ltb_spec remaining 0); [lia|]. cbn [and_then]. by rewrite Z.sub_0_r.
Qed.

Lemma skip_to_line_file fuel ls k current path remaining :
  file_lines ls → (length (concat ls) < fuel)%nat → (usize_len (concat ls) <= remaining)%Z →
  skip_to_line fuel (reader_of ls) current (current + Z.of_nat k) path false remaining =
  if decide (k <= length ls) then Ok (reader_of (drop k ls), (remaining - usize_len (concat (take k ls)))%Z)
  else Err (OffsetBeyondEnd (current + Z.of_nat k) path).
Proof.
  revert ls current remaining fuel. induction k as [|k IH]; intros ls current remaining fuel HF HL HR.
  { destruct fuel; cbn [skip_to_line]; (destruct (Z.ltb_spec current (current + Z.of_nat 0)); [lia|]);
      (rewrite decide_True by lia); change (usize_len (concat (take 0 ls))) with 0%Z; by rewrite Z.sub_0_r. }
  destruct fuel as [|fuel]; [lia|]. cbn [skip_to_line].
  destruct (Z.ltb_spec current (current + Z.of_nat (S k))); [|lia]. destruct ls as [|x ls].
  { rewrite skip_line_end by (pose proof (usize_len_nonneg (@concat N [])); lia). cbn [and_then]. by rewrite decide_False by (cbn; lia). }
  destruct (cut_first _ _ HF) as (HX & _). cbn [concat] in HL, HR. rewrite length_app in HL. rewrite usize_len_app in HR.
  pose proof (usize_len_nonneg (concat ls)). rewrite skip_line_file by (done || lia). cbn [and_then].
  replace (current + Z.of_nat (S k))%Z with (current + 1 + Z.of_nat k)%Z by lia.
  rewrite IH; [|by apply (file_lines_suffix [x])|destruct x; [done|cbn in HL; lia]|lia]. cbn [take drop concat length].
  rewrite usize_len_app. destruct (decide (k <= length ls)).
  - rewrite decide_True by lia. do 2 f_equal. lia.
  - by rewrite decide_False by lia.
Qed.

Lemma line_content_len x : (usize_len (line_content x) <= usize_len x <= usize_len (line_content x) + 2)%Z.
Proof.
  unfold line_content, usize_len. destruct (rev x) as [|b r] eqn:E; [lia|].
  apply (f_equal (@length N)) in E. rewrite length_rev in E. cbn [length] in E.
  destruct (b =? newline)%N; [|lia]. destruct r as [|b' r]; [cbn in *; lia|].
  destruct (b' =? carriage_return)%N; rewrite length_rev; cbn [length] in *; lia.
Qed.

Lemma next_line_file x ls n path remaining :
  file_lines (x :: ls) → (usize_len (line_content x) <= MAX_READ_BYTES)%Z → (usize_len x <= remaining)%Z →
  next_line (reader_of (x :: ls)) n path remaining = Ok (Some x, reader_of ls, (remaining - usize_len x)%Z).
Proof.
  intros HF HM HR. destruct (cut_first _ _ HF) as (HX & HC & HE). pose proof (line_content_len x) as HL.
  assert (∃ r, cut_line (stream_bytes (stream_take (MAX_READ_BYTES + 3) (reader_of (x :: ls)))) =
    (x, r, ends_with_newline x) ∧ stream_failure (stream_take (MAX_READ_BYTES + 3) (reader_of (x :: ls))) = None) as (r & Hr & Hf).
  { unfold stream_take, reader_of. cbn [stream_bytes stream_failure].
    destruct (Z.ltb_spec (usize_len (concat (x :: ls))) (MAX_READ_BYTES + 3)) as [HS|HS]; [by eauto|].
    cbn [stream_bytes stream_failure]. inversion HF as [|y HY HN|y ls' HN HF']; subst.
    { cbn [concat] in HS. rewrite app_nil_r in HS. lia. }
    rewrite ends_with_newline_snoc. cbn [concat]. rewrite take_app_ge by (unfold usize_len in *; lia).
    rewrite <- app_assoc. cbn [app]. rewrite cut_line_app by done. by eauto. }
  unfold next_line. rewrite Hr, Hf. destruct x as [|b x]; [done|]. replace (if ends_with_newline (b :: x) then None else None)
    with (@None IoError) by (by destruct (ends_with_newline _)). cbn [is_empty]. unfold consume_scan_budget.
  destruct (Z.ltb_spec remaining (usize_len (b :: x))); [lia|]. cbn [and_then].
  destruct (Z.ltb_spec MAX_READ_BYTES (usize_len (line_content (b :: x)))); [lia|].
  unfold reader_of. cbn [stream_bytes stream_failure concat]. by rewrite drop_app_length.
Qed.

Lemma next_line_end n path remaining : next_line (reader_of []) n path remaining = Ok (None, reader_of [], remaining).
Proof. done. Qed.

(** ** Pages *)

(** The lines of a file with the texts they hold. *)
Definition readable (ls : list (list N)) (texts : list str) : Prop :=
  Forall2 (λ x t, from_utf8 (line_content x) = Some t ∧ (str_len t <= MAX_READ_BYTES)%Z) ls texts.

Definition lines_text (ts : list str) : str := join [newline] ts.

#[local] Arguments lines_text : simpl never.

Lemma join_snoc sep ts t : join sep (ts ++ [t]) = join sep ts ++ (if is_empty ts then [] else sep) ++ t.
Proof. destruct ts as [|x ts]; [done|]. by rewrite join_app. Qed.

Lemma str_len_app a b : str_len (a ++ b) = (str_len a + str_len b)%Z.
Proof. unfold str_len. rewrite byte_len_app. lia. Qed.

Lemma read_lines_file fuel ls texts start done_ path remaining :
  file_lines ls → readable ls texts → (usize_len (concat ls) <= remaining)%Z →
  (str_len (lines_text done_) <= MAX_READ_BYTES)%Z →
  ∃ k sel, read_lines fuel (reader_of ls) start (zlen done_) (lines_text done_) path false remaining = Ok sel ∧
    k <= fuel ∧ k <= length texts ∧ sel_content sel = lines_text (done_ ++ take k texts) ∧
    (str_len (sel_content sel) <= MAX_READ_BYTES)%Z ∧ sel_lines sel = (zlen done_ + Z.of_nat k)%Z ∧
    (k = fuel ∧ sel_next sel = None ∧ sel_reader sel = reader_of (drop k ls) ∨
     k < fuel ∧ sel_next sel = (if decide (k < length texts) then Some (start + zlen done_ + Z.of_nat k)%Z else None) ∧
     (k < length texts → (MAX_READ_BYTES < str_len (lines_text (done_ ++ take (S k) texts)))%Z)).
Proof.
  revert ls texts done_ remaining. induction fuel as [|fuel IH]; intros ls texts done_ remaining HF HT HR HD.
  { exists 0, (mkSelection (lines_text done_) (zlen done_) None (reader_of ls)). cbn. rewrite app_nil_r, Z.add_0_r.
    split_and!; [done|lia|lia|done|done|done|by left]. }
  cbn [read_lines]. inversion HT as [|x t ls' ts' [HX HM] HT']; subst.
  { rewrite next_line_end. cbn [and_then]. eexists 0, _. split; [done|]. cbn. rewrite app_nil_r, Z.add_0_r.
    split_and!; [lia|lia|done|done|done|]. right. split_and!; [lia|done|lia]. }
  cbn [concat] in HR. rewrite usize_len_app in HR. pose proof (usize_len_nonneg (concat ls')).
  rewrite next_line_file by (done || lia || by rewrite <- (from_utf8_len _ _ HX)). cbn [and_then].
  unfold decode_line. rewrite HX. cbn [and_then].
  set (sep := if (0 <? zlen done_)%Z then [newline] else []).
  assert (lines_text (done_ ++ [t]) = lines_text done_ ++ sep ++ t) as HJ.
  { unfold lines_text. rewrite join_snoc. subst sep. destruct done_ as [|d ds]; [done|]. rewrite zlen_cons.
    destruct (Z.ltb_spec 0 (1 + zlen ds)); [done|]. pose proof (zlen_nonneg ds). lia. }
  destruct (Z.ltb_spec MAX_READ_BYTES (str_len (lines_text done_) + str_len sep + str_len t)) as [HB|HB].
  { eexists 0, _. split; [done|]. cbn [sel_content sel_lines sel_next sel_reader length take]. rewrite app_nil_r, Z.add_0_r.
    split_and!; [lia|lia|done|done|done|]. right. split_and!; [lia|rewrite decide_True by lia; f_equal; lia|]. intros _. rewrite take_0, HJ, !str_len_app. lia. }
  destruct (IH ls' ts' (done_ ++ [t]) (remaining - usize_len x)%Z) as (k & sel & HE & HK1 & HK2 & HC & HL & HN & HX').
  { by apply (file_lines_suffix [x]). } { done. } { lia. } { rewrite HJ, !str_len_app. lia. }
  rewrite zlen_app in HE, HN. change (zlen [t]) with 1%Z in HE, HN. rewrite HJ in HE.
  exists (S k), sel. rewrite <- app_assoc in HC. split_and!; [done|lia|cbn; lia|done|done|lia|].
  destruct HX' as [(-> & H1 & H2)|(H1 & H2 & H3)]; [by left; split_and!|right].
  split_and!; [lia| |]; cbn [length].
  - rewrite H2, zlen_app. change (zlen [t]) with 1%Z. destruct (decide (k < length ts')).
    + rewrite decide_True by lia. f_equal. lia.
    + by rewrite decide_False by lia.
  - intros HK. specialize (H3 ltac:(lia)). by rewrite <- app_assoc in H3.
Qed.

(** The page with the lines [ts] after the first [m] lines of a file. *)
Definition page (path : str) (m : nat) (ts : list str) (next : option Z) : ReadOutput :=
  mkReadOutput None (lines_text ts) (Some (Z.of_nat m + zlen ts)%Z) next path (1 + Z.of_nat m) (bool_decide (is_Some next)).

Lemma file_lines_length ls : file_lines ls → (zlen ls <= usize_len (concat ls))%Z.
Proof.
  induction 1 as [|x HX HN|x ls HN HF IH]; cbn [concat]; [done| |].
  - rewrite app_nil_r. change (zlen [x]) with 1%Z. pose proof (usize_len_pos x HX). lia.
  - rewrite zlen_cons, !usize_len_app. change (usize_len [newline]) with 1%Z. pose proof (usize_len_nonneg x). lia.
Qed.

Lemma stream_take_all limit bytes :
  (usize_len bytes < limit)%Z → stream_take limit (mkStream bytes None) = mkStream bytes None.
Proof. intros HL. unfold stream_take. cbn. by destruct (Z.ltb_spec (usize_len bytes) limit); [|lia]. Qed.

Lemma skip_file bytes m path :
  (usize_len bytes <= MAX_SCAN_BYTES)%Z →
  skip_to_line (S (length bytes)) (mkStream bytes None) 1 (1 + Z.of_nat m) path false MAX_SCAN_BYTES =
  if decide (m <= length (split_inclusive bytes))
  then Ok (reader_of (drop m (split_inclusive bytes)),
           (MAX_SCAN_BYTES - usize_len (concat (take m (split_inclusive bytes))))%Z)
  else Err (OffsetBeyondEnd (1 + Z.of_nat m) path).
Proof.
  intros HS. replace (mkStream bytes None) with (reader_of (split_inclusive bytes)).
  - apply skip_to_line_file; [apply file_lines_split|rewrite concat_split_inclusive; lia|by rewrite concat_split_inclusive].
  - unfold reader_of. by rewrite concat_split_inclusive.
Qed.

Lemma readable_drop m ls texts : readable ls texts → readable (drop m ls) (drop m texts).
Proof. intros HR. by apply Forall2_drop. Qed.

Definition selected_lines (a : ReadArguments) : Z := Z.min (default MAX_READ_LINES (limit a)) MAX_READ_LINES.

Lemma read_page bytes texts a path m :
  readable (split_inclusive bytes) texts → (usize_len bytes <= MAX_SCAN_BYTES)%Z →
  default 1%Z (offset a) = (1 + Z.of_nat m)%Z → (1 <= selected_lines a)%Z → m < length texts →
  ∃ k, 1 <= k <= length texts - m ∧ (Z.of_nat k <= selected_lines a)%Z ∧
    (str_len (lines_text (take k (drop m texts))) <= MAX_READ_BYTES)%Z ∧
    (Z.of_nat k = selected_lines a ∨ k = length texts - m ∨
     (MAX_READ_BYTES < str_len (lines_text (take (S k) (drop m texts))))%Z) ∧
    read (mkStream bytes None) a path false =
      Ok (page path m (take k (drop m texts))
            (if decide (m + k < length texts) then Some (1 + Z.of_nat m + Z.of_nat k)%Z else None)).
Proof.
  intros HT HS HO HL HM. pose proof (Forall2_length _ _ _ HT) as HLen.
  pose proof (file_lines_split bytes) as HF. pose proof (file_lines_length _ HF) as HB. rewrite concat_split_inclusive in HB.
  unfold read. rewrite HO. fold (selected_lines a). rewrite stream_take_all by lia. cbn [stream_bytes].
  rewrite skip_file by done. rewrite decide_True by lia. cbn [and_then].
  set (remaining := (MAX_SCAN_BYTES - usize_len (concat (take m (split_inclusive bytes))))%Z).
  destruct (read_lines_file (Z.to_nat (selected_lines a)) (drop m (split_inclusive bytes)) (drop m texts)
    (1 + Z.of_nat m) [] path remaining) as (k & sel & HE & K1 & K2 & HC & HB' & HN & HX).
  { apply (file_lines_suffix (take m (split_inclusive bytes))). by rewrite take_drop. }
  { by apply readable_drop. }
  { subst remaining. pose proof (concat_split_inclusive bytes) as E.
    rewrite <- (take_drop m (split_inclusive bytes)), concat_app in E. apply (f_equal usize_len) in E.
    rewrite usize_len_app in E. lia. }
  { by vm_compute. }
  rewrite length_drop in K2. change (zlen []) with 0%Z in *. change (lines_text []) with (@nil N) in HE. rewrite HE. cbn [and_then].
  cbn [app] in HC. rewrite Z.add_0_l in HN. assert (1 <= k) as HK.
  { destruct k; [|lia]. exfalso. destruct HX as [(HX & _)|(_ & _ & HX)]; [lia|]. rewrite length_drop in HX.
    specialize (HX ltac:(lia)). destruct (drop m texts) as [|t ts] eqn:ED; [apply (f_equal length) in ED; rewrite length_drop in ED; cbn in ED; lia|].
    apply (readable_drop m) in HT. rewrite ED in HT. inversion HT as [|x t' ls' ts' [_ HTM] _]; subst.
    change (lines_text ([] ++ take 1 (t :: ts))) with t in HX. lia. }
  exists k. rewrite <- HC. split_and!; [lia|lia|lia|done| |].
  { destruct HX as [(HX & _)|(_ & _ & HX)]; [left; lia|]. right. rewrite length_drop in HX.
    destruct (decide (k < length texts - m)); [right; by apply HX|left; lia]. }
  set (next := if decide (m + k < length texts) then Some (1 + Z.of_nat m + Z.of_nat k)%Z else None).
  match goal with |- and_then ?e _ = _ => assert (e = Ok next) as -> end.
  { subst next. destruct HX as [(HX & -> & HR)|(HX & -> & _)].
    - rewrite HN. destruct (Z.eqb_spec (Z.of_nat k) (selected_lines a)); [|lia]. rewrite HR. unfold has_more, reader_of.
      cbn [stream_bytes stream_failure]. destruct (decide (m + k < length texts)) as [HD|HD].
      + destruct (concat (drop k (drop m (split_inclusive bytes)))) as [|b bs] eqn:EC; [|cbn; f_equal; f_equal; lia].
        exfalso. rewrite drop_drop in EC. pose proof (file_lines_suffix (take (m + k) (split_inclusive bytes)) (drop (m + k) (split_inclusive bytes))) as HF2.
        rewrite take_drop in HF2. specialize (file_lines_length _ (HF2 HF)) as HL2. rewrite EC in HL2.
        unfold zlen, usize_len in HL2. rewrite length_drop in HL2. cbn in HL2. lia.
      + rewrite drop_drop, (drop_ge (split_inclusive bytes)) by lia. done.
    - rewrite HN, length_drop. destruct (decide (k < length texts - m)) as [HD|HD].
      + rewrite decide_True by lia. do 2 f_equal. lia.
      + rewrite decide_False by lia. destruct (Z.eqb_spec (Z.of_nat k) (selected_lines a)); [lia|done]. }
  cbn [and_then]. rewrite HN. destruct (Z.eqb_spec (Z.of_nat k) 0); [lia|]. cbn [andb]. unfold page. f_equal.
  unfold u64_checked_add. assert (u64_max = 18446744073709551615)%Z as EU by done. assert (MAX_SCAN_BYTES = 8388608)%Z by done.
  rewrite HC. assert (zlen (take k (drop m texts)) = Z.of_nat k) as ->.
  { unfold zlen. rewrite length_take, length_drop. lia. }
  assert (Z.of_nat m + Z.of_nat k <= u64_max)%Z as HU by (rewrite EU; unfold zlen in HB; lia).
  destruct (Z.leb_spec (1 + Z.of_nat m + (Z.of_nat k - 1)) u64_max); [|lia]. f_equal; [f_equal; lia].
Qed.

(** An offset behind the last line is refused. *)
Lemma read_beyond bytes texts a path m :
  readable (split_inclusive bytes) texts → (usize_len bytes <= MAX_SCAN_BYTES)%Z →
  default 1%Z (offset a) = (1 + Z.of_nat m)%Z → 0 < m → length texts <= m →
  read (mkStream bytes None) a path false = Err (OffsetBeyondEnd (1 + Z.of_nat m) path).
Proof.
  intros HT HS HO H0 HM. pose proof (Forall2_length _ _ _ HT) as HLen. unfold read. rewrite HO. fold (selected_lines a).
  rewrite stream_take_all by lia. cbn [stream_bytes]. rewrite skip_file by done.
  destruct (decide (m <= length (split_inclusive bytes))); [|done]. cbn [and_then]. rewrite drop_ge by lia.
  assert (∃ r, read_lines (Z.to_nat (selected_lines a)) (reader_of []) (1 + Z.of_nat m) 0 [] path false
    (MAX_SCAN_BYTES - usize_len (concat (take m (split_inclusive bytes)))) = Ok (mkSelection [] 0 None r) ∧ stream_bytes r = [] ∧ stream_failure r = None)
    as (r & -> & Hr & Hf).
  { destruct (Z.to_nat (selected_lines a)); [|cbn [read_lines]; rewrite next_line_end]; by eexists. }
  cbn [and_then sel_next sel_lines sel_reader]. unfold has_more. rewrite Hr, Hf. cbn [is_empty negb and_then].
  destruct (0 =? selected_lines a)%Z; cbn [and_then]; (destruct (Z.eqb_spec 0 0); [|done]);
    (destruct (Z.ltb_spec 1 (1 + Z.of_nat m)); [done|lia]).
Qed.

(** ** The search for what fits *)

Lemma search_largest_spec fuel accepts lo hi n :
  (∀ i, lo < i <= hi → is_Some (accepts i)) → hi - lo <= fuel → lo <= hi <= n →
  (lo = 0 ∨ accepts lo = Some true) → (hi = n ∨ accepts (S hi) = Some false) →
  ∃ r, search_largest fuel accepts lo hi = Some r ∧ lo <= r <= hi ∧
    (r = 0 ∨ accepts r = Some true) ∧ (r = n ∨ accepts (S r) = Some false).
Proof.
  revert lo hi. induction fuel as [|fuel IH]; intros lo hi HA HF HB HL HH; cbn [search_largest].
  { exists lo. assert (lo = hi) as <- by lia. done. }
  destruct (decide (lo < hi)); [|exists lo; assert (lo = hi) as <- by lia; done].
  set (mid := lo + (hi - lo + 1) / 2).
  assert (lo < mid <= hi) as HM.
  { subst mid. pose proof (Nat.div_mod_eq (hi - lo + 1) 2). pose proof (Nat.mod_upper_bound (hi - lo + 1) 2). lia. }
  destruct (HA mid HM) as [b Hb]. rewrite Hb. destruct b.
  - destruct (IH mid hi) as (r & HR & HX); [intros i Hi; apply HA; lia|lia|lia|by right|done|].
    exists r. split; [done|]. split; [lia|apply HX].
  - destruct (IH lo (mid - 1)) as (r & HR & HX); [intros i Hi; apply HA; lia|lia|lia|done| |].
    { right. by replace (S (mid - 1)) with mid by lia. }
    exists r. split; [done|]. split; [lia|apply HX].
Qed.

Section fitting.
Context `{JsonEscape}.

(** *** Line ends *)

Definition newline_ends (off : nat) (s : str) : list nat :=
  (List.filter (λ ic : nat * char, (ic.2 =? newline)%N) (char_indices_from off s)).*1.

Lemma newline_ends_plain off s : newline ∉ s → newline_ends off s = [].
Proof.
  unfold newline_ends. revert off. induction s as [|c s IH]; intros off; [done|]. intros [HC HN]%not_elem_of_cons.
  cbn [char_indices_from List.filter snd]. destruct (N.eqb_spec c newline); [done|]. by apply IH.
Qed.

Lemma char_indices_from_app off a b :
  char_indices_from off (a ++ b) = char_indices_from off a ++ char_indices_from (off + byte_len a) b.
Proof.
  revert off. induction a as [|c a IH]; intros off; cbn [app char_indices_from].
  - change (byte_len []) with 0. by rewrite Nat.add_0_r.
  - rewrite IH, byte_len_cons. by rewrite Nat.add_assoc.
Qed.

Lemma newline_ends_app off a b : newline_ends off (a ++ b) = newline_ends off a ++ newline_ends (off + byte_len a) b.
Proof. unfold newline_ends. by rewrite char_indices_from_app, List.filter_app, fmap_app. Qed.

Lemma lines_text_cons t ts : ts ≠ [] → lines_text (t :: ts) = t ++ newline :: lines_text ts.
Proof. unfold lines_text. by destruct ts. Qed.

Lemma line_ends_from off ts :
  ts ≠ [] → Forall (λ t, newline ∉ t) ts →
  newline_ends off (lines_text ts) ++ [off + byte_len (lines_text ts)] =
  (λ i, off + byte_len (lines_text (take i ts))) <$> seq 1 (length ts).
Proof.
  revert off. induction ts as [|t ts IH]; intros off HT HN; [done|]. apply Forall_cons in HN as [Ht HN].
  destruct ts as [|u ts]; [by cbn; rewrite newline_ends_plain|].
  rewrite lines_text_cons by done. change (t ++ newline :: lines_text (u :: ts)) with (t ++ [newline] ++ lines_text (u :: ts)).
  rewrite !newline_ends_app, newline_ends_plain by done.
  change (newline_ends (off + byte_len t) [newline]) with [off + byte_len t].
  change (byte_len [newline]) with 1. rewrite !byte_len_app. change (byte_len [newline]) with 1. cbn [app].
  replace (off + (byte_len t + (1 + byte_len (lines_text (u :: ts))))) with (off + byte_len t + 1 + byte_len (lines_text (u :: ts))) by lia.
  rewrite IH by done. change (seq 1 (length (t :: u :: ts))) with (1 :: seq 2 (length (u :: ts))). cbn [fmap list_fmap].
  f_equal. rewrite <- (fmap_S_seq 1 (length (u :: ts))), <- list_fmap_compose. apply list_fmap_ext. intros j i Hi.
  apply lookup_seq in Hi as [-> _]. cbn [compose]. change (take (S (1 + j)) (t :: u :: ts)) with (t :: take (1 + j) (u :: ts)).
  rewrite lines_text_cons by (cbn; done). change (t ++ newline :: ?x) with (t ++ [newline] ++ x).
  rewrite !byte_len_app. change (byte_len [newline]) with 1. lia.
Qed.

Lemma line_ends_lines ts :
  Forall (λ t, newline ∉ t) ts → lines_text ts ≠ [] →
  line_ends (lines_text ts) = (λ i, byte_len (lines_text (take i ts))) <$> seq 1 (length ts).
Proof.
  intros HN HT. unfold line_ends. fold (newline_ends 0 (lines_text ts)).
  destruct (is_empty (lines_text ts)) eqn:E; [by apply is_empty_true in E|].
  destruct ts as [|t ts]; [done|]. exact (line_ends_from 0 (t :: ts) ltac:(done) HN).
Qed.

Lemma lines_text_prefix i ts : ∃ rest, lines_text ts = lines_text (take i ts) ++ rest.
Proof.
  destruct (decide (take i ts = [])) as [->|H1]; [by exists (lines_text ts)|].
  destruct (decide (drop i ts = [])) as [H2|H2].
  { exists []. rewrite app_nil_r. rewrite <- (take_drop i ts) at 1. by rewrite H2, app_nil_r. }
  exists ([newline] ++ lines_text (drop i ts)). rewrite <- (take_drop i ts) at 1. unfold lines_text. by rewrite join_app.
Qed.

Lemma with_line_prefix_page path m ts next i :
  Forall (λ t, newline ∉ t) ts → lines_text ts ≠ [] → 1 <= i <= length ts → (Z.of_nat m + zlen ts < u64_max)%Z →
  with_line_prefix (page path m ts next) (line_ends (lines_text ts)) i =
  Some (page path m (take i ts) (Some (1 + Z.of_nat m + Z.of_nat i)%Z)).
Proof.
  intros HN HT HI HU. unfold with_line_prefix. rewrite line_ends_lines by done. rewrite list_lookup_fmap.
  rewrite (lookup_seq_lt 1 (length ts) (i - 1)) by lia. cbn [fmap option_fmap option_map mbind option_bind].
  replace (1 + (i - 1)) with i by lia. cbn [page content]. destruct (lines_text_prefix i ts) as [rest E].
  rewrite E at 1. rewrite split_at_byte_app. cbn [mbind option_bind]. unfold page. cbn [comparison_base output_path start_line].
  unfold u64_checked_add. unfold zlen in *. rewrite length_take. rewrite Nat.min_l by lia.
  destruct (Z.leb_spec (1 + Z.of_nat m + Z.max 0 (Z.of_nat i - 1)) u64_max); [|lia].
  destruct (Z.leb_spec (1 + Z.of_nat m + Z.of_nat i) u64_max); [|lia]. do 3 f_equal. lia.
Qed.

(** A line that can be sent alone, with or without more to come. *)
Definition line_fits (path : str) (i : nat) (t : str) : bool :=
  fits_result (ReadOutput_json (page path i [t] None)) &&
  fits_result (ReadOutput_json (page path i [t] (Some (2 + Z.of_nat i)%Z))).

Lemma fit_page path m t ts next :
  Forall (λ t, newline ∉ t) (t :: ts) → (Z.of_nat m + zlen (t :: ts) < u64_max)%Z → line_fits path m t = true →
  (next = None ∨ next = Some (1 + Z.of_nat m + zlen (t :: ts))%Z) →
  ∃ k next', 1 <= k <= length (t :: ts) ∧
    fit_output (page path m (t :: ts) next) = Some (Ok (page path m (take k (t :: ts)) next')) ∧
    (k = length (t :: ts) ∧ next' = next ∨ next' = Some (1 + Z.of_nat m + Z.of_nat k)%Z) ∧
    fits_result (ReadOutput_json (page path m (take k (t :: ts)) next')) = true.
Proof.
  intros HN HU HL HX. apply andb_true_iff in HL as [HL1 HL2]. unfold fit_output.
  destruct (fits_result (ReadOutput_json (page path m (t :: ts) next))) eqn:HF.
  { exists (length (t :: ts)), next. rewrite firstn_all. split_and!; [cbn; lia|lia|done|by left|done]. }
  assert (lines_text (t :: ts) ≠ []) as HT.
  { intros E. assert (ts = []) as ->.
    { destruct ts as [|u ts]; [done|]. rewrite lines_text_cons in E by done. by destruct t. }
    destruct HX as [->| ->]; [congruence|]. change (zlen [t]) with 1%Z in HF.
    replace (1 + Z.of_nat m + 1)%Z with (2 + Z.of_nat m)%Z in HF by lia. congruence. }
  change (content (page path m (t :: ts) next)) with (lines_text (t :: ts)).
  assert (length (line_ends (lines_text (t :: ts))) = length (t :: ts)) as HE.
  { rewrite line_ends_lines by done. by rewrite length_fmap, length_seq. }
  rewrite HE. set (accepts := λ midpoint, _ <$> with_line_prefix _ _ midpoint).
  assert (∀ i, 1 <= i <= length (t :: ts) → accepts i =
    Some (fits_result (ReadOutput_json (page path m (take i (t :: ts)) (Some (1 + Z.of_nat m + Z.of_nat i)%Z))))) as HA.
  { intros i Hi. subst accepts. cbv beta. by rewrite with_line_prefix_page. }
  destruct (search_largest_spec (length (t :: ts)) accepts 0 (length (t :: ts)) (length (t :: ts))) as (r & -> & HR & HR1 & HR2);
    [intros i Hi; rewrite HA by lia; by eexists|lia|lia|by left|by left|]. cbn [mbind option_bind].
  assert (r ≠ 0) as HR0.
  { intros ->. destruct HR2 as [HR2|HR2]; [cbn in HR2; lia|]. rewrite HA in HR2 by (cbn; lia).
    injection HR2 as HR2. rewrite take_0 in HR2.
    replace (1 + Z.of_nat m + Z.of_nat 1)%Z with (2 + Z.of_nat m)%Z in HR2 by lia. congruence. }
  destruct (Nat.eqb_spec r 0); [done|]. rewrite with_line_prefix_page by (done || lia). cbn [fmap option_fmap option_map].
  exists r, (Some (1 + Z.of_nat m + Z.of_nat r)%Z). split_and!; [lia|lia|done|by right|].
  destruct HR1 as [?|HR1]; [done|]. rewrite HA in HR1 by lia. by injection HR1.
Qed.

(** A single line that fits only when it is marked as truncated. *)
Lemma fit_page_marked path m t :
  newline ∉ t → t ≠ [] → (Z.of_nat m + 1 < u64_max)%Z →
  fits_result (ReadOutput_json (page path m [t] None)) = false →
  fits_result (ReadOutput_json (page path m [t] (Some (2 + Z.of_nat m)%Z))) = true →
  fit_output (page path m [t] None) = Some (Ok (page path m [t] (Some (2 + Z.of_nat m)%Z))).
Proof.
  intros HN HT HU H1 H2. unfold fit_output. rewrite H1.
  change (content (page path m [t] None)) with (lines_text [t]).
  assert (with_line_prefix (page path m [t] None) (line_ends (lines_text [t])) 1 =
    Some (page path m [t] (Some (2 + Z.of_nat m)%Z))) as HP.
  { rewrite with_line_prefix_page by (done || lia || by constructor). do 3 f_equal. lia. }
  assert (length (line_ends (lines_text [t])) = 1) as ->.
  { rewrite line_ends_lines by (done || by constructor). done. }
  cbn [search_largest]. rewrite decide_True by lia. change (0 + (1 - 0 + 1) / 2) with 1. rewrite HP.
  cbn [fmap option_fmap option_map]. rewrite H2. cbn [mbind option_bind Nat.eqb]. by rewrite HP.
Qed.

(** ** Following the offsets *)

Definition arguments_at (path : str) (limit : option Z) (offset : Z) : ReadArguments :=
  mkReadArguments ActionFile limit (Some offset) (Some path) None None None.

(** A reader that asks for the next offset until there is none. *)
Fixpoint follow (fuel : nat) (bytes : list N) (path : str) (limit : option Z) (offset : Z) : list ReadOutput :=
  match fuel with
  | 0 => []
  | S fuel' =>
      match read (mkStream bytes None) (arguments_at path limit offset) path false with
      | Ok output =>
          match fit_output output with
          | Some (Ok shown) =>
              shown :: match next_offset shown with
                       | Some n => follow fuel' bytes path limit n
                       | None => []
                       end
          | _ => []
          end
      | Err _ => []
      end
  end.

Lemma newline_in_bytes s : newline ∈ s → newline ∈ as_bytes s.
Proof.
  intros HI. unfold as_bytes. apply list_elem_of_In, in_flat_map. exists newline. split; [by apply list_elem_of_In|by left].
Qed.

Lemma line_content_no_newline x ls : file_lines (x :: ls) → newline ∉ line_content x.
Proof.
  intros HF. inversion HF as [|y HX HN|y ls' HN HF']; subst; unfold line_content.
  - destruct (rev x) as [|b r] eqn:E; [done|]. destruct (N.eqb_spec b newline) as [->|]; [|done].
    exfalso. apply HN. apply list_elem_of_In, in_rev. rewrite E. by left.
  - rewrite rev_app_distr. cbn [rev app]. rewrite N.eqb_refl. destruct (rev y) as [|b r] eqn:E; [by apply not_elem_of_nil|].
    assert (∀ c, c ∈ b :: r → c ∈ y) as HS.
    { intros c HC. apply list_elem_of_In, in_rev. rewrite E. by apply list_elem_of_In. }
    destruct (b =? carriage_return)%N; intros HI%list_elem_of_In%in_rev%list_elem_of_In; apply HN, HS; [by right|done].
Qed.

Lemma readable_plain ls texts : file_lines ls → readable ls texts → Forall (λ t, newline ∉ t) texts.
Proof.
  intros HF HR. revert HF. induction HR as [|x t ls texts [HX _] HR IH]; intros HF; constructor.
  - intros HI%newline_in_bytes. rewrite (from_utf8_exact _ _ HX) in HI. by apply (line_content_no_newline _ _ HF) in HI.
  - apply IH. by apply (file_lines_suffix [x]).
Qed.

Lemma follow_covers fuel bytes path limit texts m :
  readable (split_inclusive bytes) texts → (usize_len bytes <= MAX_SCAN_BYTES)%Z → (1 <= default MAX_READ_LINES limit)%Z →
  (∀ i t, texts !! i = Some t → line_fits path i t = true) → m < length texts → length texts - m <= fuel →
  follow fuel bytes path limit (1 + Z.of_nat m) ≠ [] ∧
  lines_text (content <$> follow fuel bytes path limit (1 + Z.of_nat m)) = lines_text (drop m texts).
Proof.
  intros HT HS HL HFit. pose proof (readable_plain _ _ (file_lines_split bytes) HT) as HP.
  assert (zlen texts <= MAX_SCAN_BYTES)%Z as HB.
  { pose proof (file_lines_length _ (file_lines_split bytes)) as HB. rewrite concat_split_inclusive in HB.
    unfold zlen in *. rewrite <- (Forall2_length _ _ _ HT). lia. }
  assert (MAX_SCAN_BYTES < u64_max)%Z as HU by (vm_compute; done).
  revert m. induction fuel as [|fuel IH]; intros m HM HF; [lia|]. cbn [follow].
  destruct (read_page bytes texts (arguments_at path limit (1 + Z.of_nat m)) path m HT HS eq_refl) as (k & HK & _ & _ & _ & ->).
  { unfold selected_lines. cbn [ToolCalls.limit arguments_at]. assert (1 <= MAX_READ_LINES)%Z by (vm_compute; done). lia. }
  { done. }
  destruct (lookup_lt_is_Some_2 texts m HM) as [t Ht]. pose proof (drop_S texts t m Ht) as HD.
  assert (take k (drop m texts) = t :: take (k - 1) (drop (S m) texts)) as ET.
  { rewrite HD. destruct k as [|k]; [lia|]. cbn [take]. by replace (S k - 1) with k by lia. }
  assert (zlen (take k (drop m texts)) = Z.of_nat k) as EL.
  { unfold zlen. rewrite length_take, length_drop. lia. }
  rewrite ET in EL |- *. edestruct (fit_page path m t (take (k - 1) (drop (S m) texts))) as (j & next & HJ & -> & HN & _).
  { rewrite <- ET. by apply Forall_take, Forall_drop. } { rewrite EL. unfold zlen in HB. lia. } { by apply HFit. }
  { rewrite EL. destruct (decide (m + k < length texts)); [by right|by left]. }
  rewrite <- ET in *. rewrite take_take in *. assert (length (take k (drop m texts)) = k) as EL'.
  { rewrite length_take, length_drop. lia. } rewrite EL' in *. rewrite Nat.min_l by lia. split; [done|].
  change (next_offset (page path m (take j (drop m texts)) next)) with next. cbn [fmap list_fmap content page].
  assert (next = (if decide (m + j < length texts) then Some (1 + Z.of_nat (m + j))%Z else next)) as EN.
  { destruct (decide (m + j < length texts)); [|done]. destruct HN as [[-> ->]| ->]; [rewrite decide_True by lia|]; f_equal; lia. }
  assert (∀ rest, rest ≠ [] → lines_text (content <$> rest) = lines_text (drop (m + j) texts) → m + j < length texts →
    lines_text (lines_text (take j (drop m texts)) :: (content <$> rest)) = lines_text (drop m texts)) as HG.
  { intros rest HR HE HMJ. rewrite lines_text_cons by (by destruct rest). rewrite HE, <- drop_drop.
    rewrite <- (take_drop j (drop m texts)) at 3. unfold lines_text. rewrite join_app; [done| |].
    - intros E. apply (f_equal length) in E. rewrite length_take, length_drop in E. cbn in E. lia.
    - intros E. apply (f_equal length) in E. rewrite !length_drop in E. cbn in E. lia. }
  destruct (decide (m + j < length texts)) as [HMJ|HMJ].
  - rewrite EN. destruct (IH (m + j)) as [H1 H2]; [done|lia|]. by apply HG.
  - assert (j = length (drop m texts)) as Ej by (rewrite length_drop; lia).
    assert (lines_text (take j (drop m texts)) = lines_text (drop m texts)) as E1 by (by rewrite Ej, firstn_all).
    destruct next as [n|]; [|exact E1].
    destruct HN as [[HN1 HN2]|[= ->]]; [rewrite decide_False in HN2 by lia; done|].
    destruct fuel as [|fuel]; [exact E1|]. cbn [follow].
    replace (1 + Z.of_nat m + Z.of_nat j)%Z with (1 + Z.of_nat (m + j))%Z by lia.
    rewrite (read_beyond bytes texts _ path (m + j)) by (done || lia). cbn. exact E1.
Qed.

(** *** Bounds *)

Lemma search_largest_accepted fuel accepts lo hi r :
  search_largest fuel accepts lo hi = Some r → r = lo ∨ accepts r = Some true.
Proof.
  revert lo hi. induction fuel as [|fuel IH]; intros lo hi; cbn [search_largest]; [intros [= <-]; by left|].
  destruct (decide (lo < hi)); [|intros [= <-]; by left].
  destruct (accepts (lo + (hi - lo + 1) / 2)) as [[]|] eqn:E; [| |done]; intros HR; apply IH in HR as [->|HR]; [by right|by right|by left|by right].
Qed.

Lemma line_end_boundary s e : e ∈ line_ends s → is_Some (split_at_byte s e).
Proof.
  unfold line_ends. intros [HE|HE]%elem_of_app.
  - apply list_elem_of_fmap in HE as ([i c] & -> & HI). apply elem_of_filter_b in HI as [_ HI].
    apply list_elem_of_lookup in HI as [k HK]. unfold char_indices in HK. rewrite char_indices_from_lookup in HK.
    apply fmap_Some in HK as (d & _ & [= -> _]). change (is_Some (split_at_byte s (byte_len (take k s)))). rewrite split_at_byte_take. by eexists.
  - destruct (is_empty s); [by apply not_elem_of_nil in HE|]. apply list_elem_of_singleton in HE as ->.
    exists (s, []). rewrite <- (split_at_byte_app s []). by rewrite app_nil_r.
Qed.

(** The cut is always at a character boundary, so nothing panics. *)
Lemma with_line_prefix_total o n :
  0 < n <= length (line_ends (content o)) → is_Some (with_line_prefix o (line_ends (content o)) n).
Proof.
  intros HN. unfold with_line_prefix. destruct (lookup_lt_is_Some_2 (line_ends (content o)) (n - 1)) as [e HE]; [lia|].
  rewrite HE. cbn [mbind option_bind]. destruct (line_end_boundary (content o) e) as [[b t] ->]; [by eapply list_elem_of_lookup_2|].
  by eexists.
Qed.

Lemma fit_output_total o : is_Some (fit_output o).
Proof.
  unfold fit_output. destruct (fits_result _); [by eexists|]. cbv zeta. set (n := length (line_ends (content o))).
  edestruct (search_largest_spec n (λ midpoint, (λ o, fits_result (ReadOutput_json o)) <$>
    with_line_prefix o (line_ends (content o)) midpoint) 0 n n) as (r & -> & HR & _); [|lia|lia|by left|by left|].
  { intros i HI. apply fmap_is_Some, with_line_prefix_total. lia. }
  cbn [mbind option_bind]. destruct (Nat.eqb_spec r 0); [by eexists|]. apply fmap_is_Some, with_line_prefix_total. lia.
Qed.

Lemma to_tool_result_total o : is_Some (ReadOutput_to_tool_result o).
Proof. unfold ReadOutput_to_tool_result. destruct (fit_output_total o) as [r ->]. by eexists. Qed.

Lemma bounded_items_total a items tr : is_Some (bounded_items_result a items tr).
Proof.
  unfold bounded_items_result. destruct (fits_result _); [by eexists|].
  edestruct (search_largest_spec (length items) (λ midpoint, Some (fits_result
    (encode_items_result a (take midpoint items) true))) 0 (length items) (length items)) as (r & -> & _);
    [by eexists|lia|lia|by left|by left|by eexists].
Qed.

Lemma bounded_text_total a text tr base : is_Some (bounded_text_result a text tr base).
Proof.
  unfold bounded_text_result. destruct (fits_result _); [by eexists|].
  edestruct (search_largest_spec (length text) (λ midpoint, Some (fits_result
    (InspectionOutput_json a base (take midpoint text) true))) 0 (length text) (length text)) as (r & -> & _);
    [by eexists|lia|lia|by left|by left|by eexists].
Qed.

Lemma fit_output_fits o shown : fit_output o = Some (Ok shown) → fits_result (ReadOutput_json shown) = true.
Proof.
  unfold fit_output. destruct (fits_result (ReadOutput_json o)) eqn:E; [by intros [= <-]|].
  intros (r & HS & HR)%bind_Some. destruct (Nat.eqb_spec r 0); [discriminate|].
  apply fmap_Some in HR as (x & HX & [= ->]). apply search_largest_accepted in HS as [?|HS]; [done|].
  rewrite HX in HS. by injection HS.
Qed.

Lemma follow_fits fuel bytes path limit o :
  Forall (λ p, fits_result (ReadOutput_json p) = true) (follow fuel bytes path limit o).
Proof.
  revert o. induction fuel as [|fuel IH]; intros o; cbn [follow]; [constructor|].
  destruct (read _ _ _ _) as [out|]; [|constructor]. destruct (fit_output out) as [[shown|]|] eqn:E; [|constructor..].
  constructor; [by eapply fit_output_fits|]. destruct (next_offset shown); [apply IH|constructor].
Qed.

(** C39: Paging is complete: a model that reads a text file within the scan limit, whose lines can each be
    sent alone, and asks for [next_offset] as long as it is given one, receives every line of the file once
    and in order, whatever line limit it asks for, and no answer exceeds the limit for tool results. *)
Theorem pages_cover_file bytes path limit texts fuel :
  readable (split_inclusive bytes) texts → (usize_len bytes <= MAX_SCAN_BYTES)%Z →
  (1 <= default MAX_READ_LINES limit)%Z → (∀ i t, texts !! i = Some t → line_fits path i t = true) →
  0 < length texts <= fuel →
  lines_text (content <$> follow fuel bytes path limit 1) = lines_text texts ∧
  Forall (λ p, str_len (ReadOutput_json p) <= MAX_TOOL_RESULT_BYTES)%Z (follow fuel bytes path limit 1).
Proof.
  intros HT HS HL HF HN. split.
  - destruct (follow_covers fuel bytes path limit texts 0) as [_ HC]; [done..|lia|lia|exact HC].
  - eapply Forall_impl; [apply follow_fits|]. intros o. apply Z.leb_le.
Qed.

(** A list of paths or matches is cut only when it must be: the answer has all items when they fit the
    limit for tool results; otherwise it has the first items, marked as truncated, and one more would not fit. *)
Theorem inspection_list_is_longest_that_fits action items tr :
  fits_result (encode_items_result action [] true) = true →
  ∃ text, bounded_items_result action items tr = Some text ∧ (str_len text <= MAX_TOOL_RESULT_BYTES)%Z ∧
    (text = encode_items_result action items tr ∨
     (MAX_TOOL_RESULT_BYTES < str_len (encode_items_result action items tr))%Z ∧
     ∃ r, text = encode_items_result action (take r items) true ∧
       (r < length items → (MAX_TOOL_RESULT_BYTES < str_len (encode_items_result action (take (S r) items) true))%Z)).
Proof.
  intros H0. unfold bounded_items_result. destruct (fits_result (encode_items_result action items tr)) eqn:E.
  { eexists. split; [done|]. split; [by apply Z.leb_le|by left]. }
  set (accepts := λ midpoint, Some (fits_result _)).
  destruct (search_largest_spec (length items) accepts 0 (length items) (length items)) as (r & -> & HR & H1 & H2);
    [by eexists|lia|lia|by left|by left|]. cbn [mbind option_bind].
  eexists. split; [done|]. split.
  - apply Z.leb_le. destruct H1 as [->|[= H1]]; [|exact H1]. by rewrite take_0.
  - right. split; [by apply Z.leb_gt|]. exists r. split; [done|]. intros HL.
    destruct H2 as [->|[= H2]]; [lia|]. by apply Z.leb_gt.
Qed.
End fitting.

Module ReadDemo.
(** The short escapes of quotes and backslashes. *)
#[export] Instance short_escape : JsonEscape := λ c, if ((c =? 34) || (c =? 92))%N then [92%N; c] else [c].

Definition file : list N := as_bytes (L"a" ++ [newline] ++ L"b" ++ [newline] ++ L"c").

Lemma pages_cover_file_witness :
  lines_text (content <$> follow 3 file (L"f") (Some 1%Z) 1) = lines_text [L"a"; L"b"; L"c"].
Proof.
  apply (pages_cover_file file (L"f") (Some 1%Z) [L"a"; L"b"; L"c"] 3).
  - assert (split_inclusive file = [[97; 10]; [98; 10]; [99]]%N) as -> by (vm_compute; reflexivity).
    repeat (constructor; [split; [vm_compute; reflexivity|vm_compute; discriminate]|]). constructor.
  - by vm_compute.
  - by vm_compute.
  - intros i t Hi. do 3 (destruct i as [|i]; [injection Hi as <-; vm_compute; reflexivity|]). discriminate.
  - cbn. lia.
Defined.

Lemma inspection_list_is_longest_that_fits_witness :
  ∃ text, bounded_items_result (L"list") [L"a"] false = Some text ∧ (str_len text <= MAX_TOOL_RESULT_BYTES)%Z.
Proof.
  assert (fits_result (encode_items_result (L"list") [] true) = true) as H0 by (vm_compute; reflexivity).
  destruct (inspection_list_is_longest_that_fits (L"list") [L"a"] false H0) as (t & H1 & H2 & _).
  exists t. split; [exact H1|exact H2].
Defined.

(** A last page whose result exceeds the limit by one byte: marked as truncated
    it fits, and the continuation it names lies behind the end of the file. *)
Definition long_line : str := repeat 34%N 32722.

Lemma last_page_points_behind_end :
  fit_output (page (L"path") 0 [long_line] None) = Some (Ok (page (L"path") 0 [long_line] (Some 2%Z))).
Proof.
  apply (fit_page_marked (L"path") 0 long_line); [|discriminate|vm_compute; reflexivity..].
  apply has_char_false. vm_compute. reflexivity.
Qed.
End ReadDemo.
