(* ===== verification/HarnessIo.v ===== *)
(** * The harness and its surroundings (crates/ag-harness/src/model.rs, tool.rs, lifecycle.rs, effect.rs)

    Requests to a model and its answers, the definitions of the tools, lifecycle
    events, the count of retained file replacements, and the programs of the
    harness.  A program runs against an [Environment] that says what every call
    of the model, the file system, Git and the write journal returns; the call
    and its answer are noted in a trace.  Elapsed times are left out. *)
From S2P Require Import Prelude Json HarnessModel Patch ToolCalls ReadFile.

(** ** Tool definitions (tool.rs) *)

Record ToolDefinition := mkToolDefinition { description : str; tool_name : str; parameters : Value }.

Definition READ_DESCRIPTION : str :=
  L"Inspect the repository with one bounded read-only action. Use `file` with `path` and optional `offset`/`limit` for worktree text; `list` with optional `path`/`limit`; `search` with `query` and optional `path`/`limit`; `diff` with optional `path` for changes from the host-selected commit; or `show` with `path`, `side` (`base` or `head`), and optional `offset`/`limit`. Search queries are literal strings, not regular expressions. File/show offsets are one-based line numbers and limits count lines. If truncated, continue file/show at next_offset; narrow list/search/diff when no continuation is supplied.".
Definition WRITE_DESCRIPTION : str :=
  L"Apply one unified diff to one repository-relative text file. To create an empty file, use only `--- /dev/null` and `+++ b/<path>` headers.".

Definition str_value (s : str) : Value := VString s.
Definition number (z : Z) : Value := VNumber (display_Z z).

Definition repository_path_schema : Value :=
  VObject
    [(L"type", VString (L"string")); (L"minLength", number 1); (L"maxLength", number MAX_PATH_BYTES);
     (L"pattern", VString (L"^(?:[^./\\\u0000][^/\\\u0000]*|\.[^./\\\u0000][^/\\\u0000]*|\.\.[^/\\\u0000]+)(?:/(?:[^./\\\u0000][^/\\\u0000]*|\.[^./\\\u0000][^/\\\u0000]*|\.\.[^/\\\u0000]+))*$"));
     (L"not", VObject [(L"type", VString (L"string")); (L"pattern", VString (L"(^|/)\.[gG][iI][tT](/|$)"))])].

(** [schema["type"] = json!(["string", "null"])]. *)
Definition string_or_null : Value := VArray [VString (L"string"); VString (L"null")].

Definition nullable_schema (schema : Value) : Value :=
  match schema with VObject m => VObject (map_alter (L"type") (λ _, string_or_null) m) | v => v end.

Definition integer_schema : Value :=
  VObject [(L"type", VArray [VString (L"integer"); VString (L"null")]); (L"minimum", number 1); (L"maximum", number u64_max)].

Definition read_parameters (actions sides : list Value) : Value :=
  VObject
    [(L"type", VString (L"object"));
     (L"properties", VObject
        [(L"action", VObject [(L"type", VString (L"string")); (L"enum", VArray actions)]);
         (L"path", nullable_schema repository_path_schema);
         (L"query", VObject [(L"type", string_or_null); (L"minLength", number 1); (L"maxLength", number MAX_QUERY_BYTES);
                             (L"pattern", VString (L"^[^\u0000]*$"))]);
         (L"side", VObject [(L"type", string_or_null); (L"enum", VArray sides)]);
         (L"offset", integer_schema);
         (L"limit", integer_schema)]);
     (L"additionalProperties", VBool false)].

Definition ToolDefinition_read : ToolDefinition :=
  mkToolDefinition READ_DESCRIPTION READ_NAME
    (read_parameters (VString <$> [L"file"; L"list"; L"search"; L"diff"; L"show"])
       [VString (L"base"); VString (L"head"); VNull]).

Definition read_with_comparison_base (base : option str) : ToolDefinition :=
  match base with
  | Some oid =>
      mkToolDefinition (READ_DESCRIPTION ++ L" Comparison base OID: " ++ oid ++ L".") READ_NAME
        (parameters ToolDefinition_read)
  | None =>
      mkToolDefinition
        (L"Inspect repository worktree text with file, list, or search, or use show with side head for committed text. No comparison base is configured; diff and show(base) are unavailable. File and show accept path and optional offset/limit; list accepts optional path/limit; search requires a literal query (not a regex) and accepts optional path/limit. File/show offsets are one-based lines. On truncation follow next_offset for file/show; narrow other requests.")
        READ_NAME
        (read_parameters (VString <$> [L"file"; L"list"; L"search"; L"show"]) [VString (L"head"); VNull])
  end.

Definition ToolDefinition_write : ToolDefinition :=
  mkToolDefinition WRITE_DESCRIPTION WRITE_NAME
    (VObject
       [(L"type", VString (L"object"));
        (L"properties", VObject
           [(L"path", repository_path_schema);
            (L"patch", VObject [(L"type", VString (L"string")); (L"minLength", number 1);
                                (L"maxLength", number MAX_PATCH_BYTES)])]);
        (L"required", VArray [VString (L"path"); VString (L"patch")]);
        (L"additionalProperties", VBool false)]).

(** ** Requests and answers (model.rs) *)

Inductive ReasoningEffort := EffortLow | EffortMedium | EffortHigh | EffortXHigh | EffortMax.

Definition ReasoningEffort_as_str (self : ReasoningEffort) : str :=
  match self with
  | EffortLow => L"low" | EffortMedium => L"medium" | EffortHigh => L"high"
  | EffortXHigh => L"xhigh" | EffortMax => L"max"
  end.

Record CompletionUsage := mkUsage {
  cache_hit : option Z; cache_miss : option Z; usage_input : option Z; usage_output : option Z;
  usage_reasoning : option Z; usage_total : option Z
}.

Record CompletionMetadata := mkCompletionMetadata {
  finish_reason : str;
  response_id : option str;
  response_model : option str;
  system_fingerprint : option str;
  usage : option CompletionUsage
}.

Inductive ModelResponseType := ResponseOutput | ResponseResumeUnavailable | ResponseToolCall.

#[global] Instance ModelResponseType_eq_dec : EqDecision ModelResponseType.
Proof. solve_decision. Defined.

Record ModelMetadata := mkModelMetadata { metadata_model : str; metadata_provider : str }.

Definition ModelMetadata_new (provider model : str) : result ModelMetadata str :=
  if is_empty (trim provider) then Err (L"model provider must not be empty")
  else if is_empty (trim model) then Err (L"model identifier must not be empty")
  else Ok (mkModelMetadata model provider).

Section requests.
Context `{JsonEscape}.

Record ModelRequest := mkModelRequest {
  lifecycle_observed : bool;
  messages : list ModelMessage;
  model_reasoning_effort : option ReasoningEffort;
  prompt : str;
  provider_session_id : option str;
  schema : Value;
  tools : list ToolDefinition
}.

Definition with_history (history : list ModelMessage) (input : TurnInput) (schema : Value) : ModelRequest :=
  mkModelRequest false (history ++ [into_user_message input]) None (joined_text input) None schema [].

Definition ModelRequest_new (input : TurnInput) (schema : Value) : ModelRequest := with_history [] input schema.

Definition set_messages (self : ModelRequest) (ms : list ModelMessage) : ModelRequest :=
  mkModelRequest (lifecycle_observed self) ms (model_reasoning_effort self) (prompt self)
    (provider_session_id self) (schema self) (tools self).

Definition set_provider_session_id (self : ModelRequest) (id : option str) : ModelRequest :=
  mkModelRequest (lifecycle_observed self) (messages self) (model_reasoning_effort self) (prompt self)
    id (schema self) (tools self).

Definition mark_lifecycle_observed (self : ModelRequest) : ModelRequest :=
  mkModelRequest true (messages self) (model_reasoning_effort self) (prompt self)
    (provider_session_id self) (schema self) (tools self).

Definition with_model_reasoning_effort (self : ModelRequest) (effort : ReasoningEffort) : ModelRequest :=
  mkModelRequest (lifecycle_observed self) (messages self) (Some effort) (prompt self)
    (provider_session_id self) (schema self) (tools self).

Definition advertises_tool (self : ModelRequest) (name : str) : bool :=
  existsb (λ tool, str_eqb (tool_name tool) name) (tools self).

Definition with_tool (self : ModelRequest) (tool : ToolDefinition) : ModelRequest :=
  if advertises_tool self (tool_name tool) then self
  else mkModelRequest (lifecycle_observed self) (messages self) (model_reasoning_effort self) (prompt self)
         (provider_session_id self) (schema self) (tools self ++ [tool]).

Definition result_message (call : ToolCall) (content : str) : ModelMessage :=
  ToolResult (tool_call_id call) content (ToolCall_name call).

Definition record_tool_result (self : ModelRequest) (call : ToolCall) (content : str) : ModelRequest :=
  set_messages self (messages self ++ [AssistantToolCall call; result_message call content]).

Definition record_tool_results (self : ModelRequest) (calls : list ToolCall) (contents : list str) : ModelRequest :=
  set_messages self (messages self ++ AssistantToolCalls calls :: zip_with result_message calls contents).

Inductive ModelResponse :=
| Output (output : Value)
| ToolCallResponse (call : ToolCall)
| ToolCallsResponse (calls : list ToolCall).

Definition response_output (self : ModelResponse) : option Value :=
  match self with Output output => Some output | _ => None end.

Definition response_calls (self : ModelResponse) : list ToolCall :=
  match self with Output _ => [] | ToolCallResponse call => [call] | ToolCallsResponse calls => calls end.

Definition response_type (self : ModelResponse) : ModelResponseType :=
  match self with Output _ => ResponseOutput | _ => ResponseToolCall end.

Record ModelCompletion := mkModelCompletion {
  completion_metadata : option CompletionMetadata;
  completion_session_id : option str;
  completion_reasoning : option str;
  response : ModelResponse
}.

(** ** Lifecycle events (lifecycle.rs) *)

Inductive TurnErrorType :=
| TurnCancelledType | TurnModelType (error_type : ModelErrorType) | TurnToolType | TurnToolDeniedType
| TurnToolCallLimitType | TurnRepositoryRequiredType | TurnComparisonMismatchType | TurnSessionType.

Inductive ToolErrorType := ToolCancelledType | ToolCallLimitType | ToolExecutionType.

Inductive LifecycleEventKind :=
| TurnStarted (turn_id : Z)
| TurnCompleted (turn_id : Z)
| TurnFailed (error_type : TurnErrorType) (turn_id : Z)
| ModelRequestStarted (model_call_id : Z) (model : option ModelMetadata) (request_index : Z) (turn_id : option Z)
| ModelRequestCompleted (completion : option CompletionMetadata) (model_call_id : Z)
    (response_type : ModelResponseType) (turn_id : option Z)
| ModelRequestFailed (error_type : ModelErrorType) (http_status : option Z) (model_call_id : Z) (turn_id : option Z)
| ModelRequestCancelled (model_call_id : Z) (turn_id : option Z)
| ToolRequested (provider_call_id : str) (tool_call_id : Z) (tool_name : str) (turn_id : Z)
| ToolStarted (tool_call_id turn_id : Z)
| ToolCompleted (tool_call_id turn_id : Z)
| ToolDeniedEvent (tool_call_id turn_id : Z)
| ToolFailed (error_type : ToolErrorType) (tool_call_id turn_id : Z).

(** ** Retained effects (effect.rs) *)

Record EffectSettlementError := mkSettlementError { settlement_message : str; unresolved : bool }.

(** [admission] is a clone of the shared guard of the session's lock, kept while
    effects are pending; [kept_forever] holds the clones that are never released.  The
    lock is free when no clone of its guard is left. *)
Record EffectState := mkEffectState {
  admission : option Z;
  failure : option EffectSettlementError;
  pending : Z;
  kept_forever : list Z
}.

Definition EffectState_default : EffectState := mkEffectState None None 0 [].

Definition effects_retain (s : EffectState) : EffectState :=
  mkEffectState (admission s) (failure s) (pending s + 1) (kept_forever s).

Definition effects_admit (s : EffectState) (lock : Z) : EffectState :=
  mkEffectState (Some lock) (failure s) (pending s) (kept_forever s).

Definition effects_recording_failed (s : EffectState) (error : str) : EffectState :=
  mkEffectState (admission s) (Some (mkSettlementError (bounded_diagnostic error) false)) (pending s) (kept_forever s).

(** [settled]: [None] while it waits. *)
Definition effects_settled (s : EffectState) : option (result unit EffectSettlementError) :=
  if (pending s =? 0)%Z then Some (match failure s with Some e => Err e | None => Ok tt end) else None.

Record EffectLease := mkEffectLease { recording : bool; lease_unresolved : bool }.

Definition lease_new : EffectLease := mkEffectLease false false.
Definition starting (l : EffectLease) : EffectLease := mkEffectLease (recording l) true.
Definition acknowledged (l : EffectLease) : EffectLease := mkEffectLease true false.
Definition recorded (l : EffectLease) : EffectLease := mkEffectLease false (lease_unresolved l).

Definition NOT_RECORDED : str := L"outcome recording worker ended without acknowledgment".
Definition NOT_ACKNOWLEDGED : str := L"replacement worker ended without acknowledging filesystem completion".

(** [Drop for EffectLease]. *)
Definition lease_drop (l : EffectLease) (s : EffectState) : EffectState :=
  let s := if recording l then effects_recording_failed s NOT_RECORDED else s in
  let s := if lease_unresolved l
           then mkEffectState None (Some (mkSettlementError NOT_ACKNOWLEDGED true)) (pending s)
                  (kept_forever s ++ match admission s with Some lock => [lock] | None => [] end)
           else s in
  let left := (pending s - 1)%Z in
  mkEffectState (if (left =? 0)%Z then None else admission s) (failure s) left (kept_forever s).

(** [AdmittedStore::settled] (store_coordinator.rs): the store has a clone of the guard of
    its own, which it gives up when an operation that ends the turn succeeds. *)
Definition admitted_settled {E} (store_admission : option Z) (r : result unit E) : option Z :=
  match r with Ok _ => None | Err _ => store_admission end.

(** ** Programs *)

(** The calls that leave the harness, with what they returned. *)
Inductive Effect :=
| DidComplete (request : ModelRequest) (answer : result ModelCompletion ModelError)
| DidCanonicalize (path : str) (answer : result str IoError)
| DidOpen (root path : str) (answer : result Stream IoError)
| DidRun (large : bool) (root : str) (arguments : list str)
| DidIntent (call_id root path : str) (expected : option (list N)) (resulting : list N) (answer : result Z str)
| DidReplace (root path : str) (expected : option (list N)) (resulting : list N) (answer : option (result unit IoError))
| DidFinish (id : Z) (applied : bool) (answer : option (result unit str))
| DidEvent (kind : LifecycleEventKind).

(** The answer of the call at a position of the trace.  [None] is a panic of
    the worker that performs a replacement and records its outcome. *)
Class Environment := {
  env_complete : nat → ModelRequest → result ModelCompletion ModelError;
  env_canonicalize : nat → str → result str IoError;
  env_open : nat → str → str → result Stream IoError;
  env_run : nat → bool → str → list str → result RepositoryCommandOutput IoError;
  env_intent : nat → str → str → str → option (list N) → list N → result Z str;
  env_replace : nat → str → str → option (list N) → list N → option (result unit IoError);
  env_finish : nat → Z → bool → option (result unit str)
}.

Record HarnessWorld := mkHarnessWorld {
  trace : list Effect;
  next_lifecycle_id : Z;
  effects : EffectState
}.

(** A program that ends with a value or panics. *)
Definition Hm (A : Type) : Type := HarnessWorld → option A * HarnessWorld.

#[global] Instance Hm_ret : MRet Hm := λ A a w, (Some a, w).
#[global] Instance Hm_bind : MBind Hm := λ A B f m w,
  match m w with (Some a, w') => f a w' | (None, w') => (None, w') end.

Definition panicking {A} : Hm A := λ w, (None, w).
Definition some_or_panic {A} (o : option A) : Hm A := match o with Some a => mret a | None => panicking end.

(** [?] inside a program that returns a [result]. *)
Definition try_bind {A B E} (m : Hm (result A E)) (f : A → Hm (result B E)) : Hm (result B E) :=
  r ← m; match r with Ok a => f a | Err e => mret (Err e) end.

Definition note (e : Effect) : Hm unit := λ w,
  (Some tt, mkHarnessWorld (trace w ++ [e]) (next_lifecycle_id w) (effects w)).

(** A call: its answer depends on its position. *)
Definition call {A} (answer : nat → A) (e : A → Effect) : Hm A := λ w,
  let a := answer (length (trace w)) in
  (Some a, mkHarnessWorld (trace w ++ [e a]) (next_lifecycle_id w) (effects w)).

Definition with_effects (f : EffectState → EffectState) : Hm unit := λ w,
  (Some tt, mkHarnessWorld (trace w) (next_lifecycle_id w) (f (effects w))).

Context `{!Environment}.

Definition complete (request : ModelRequest) : Hm (result ModelCompletion ModelError) :=
  call (λ n, env_complete n request) (DidComplete request).
Definition canonicalize (path : str) : Hm (result str IoError) :=
  call (λ n, env_canonicalize n path) (DidCanonicalize path).
Definition open_beneath (root path : str) : Hm (result Stream IoError) :=
  call (λ n, env_open n root path) (DidOpen root path).
Definition run_git (large : bool) (root : str) (arguments : list str) : Hm (result RepositoryCommandOutput IoError) :=
  call (λ n, env_run n large root arguments) (λ _, DidRun large root arguments).
Definition journal_intent (call_id root path : str) (expected : option (list N)) (resulting : list N)
  : Hm (result Z str) :=
  call (λ n, env_intent n call_id root path expected resulting) (DidIntent call_id root path expected resulting).
Definition replace_beneath (root path : str) (expected : option (list N)) (resulting : list N)
  : Hm (option (result unit IoError)) :=
  call (λ n, env_replace n root path expected resulting) (DidReplace root path expected resulting).
Definition journal_finish (id : Z) (applied : bool) : Hm (option (result unit str)) :=
  call (λ n, env_finish n id applied) (DidFinish id applied).

(** The emitter: nothing happens without an observer. *)
Definition emit (enabled : bool) (kind : LifecycleEventKind) : Hm unit :=
  if enabled then note (DidEvent kind) else mret tt.

Definition next_id (enabled : bool) : Hm (option Z) := λ w,
  if enabled
  then (Some (Some (next_lifecycle_id w)), mkHarnessWorld (trace w) (u64_wrapping_add (next_lifecycle_id w) 1) (effects w))
  else (Some None, w).
End requests.

(** [let p = m?; k] in a program. *)
Notation "'let!' p ':=' m 'in' k" := (try_bind m (λ x, match x with p => k end))
  (at level 200, p pattern, m at level 200, k at level 200, only parsing) : rust_scope.
