(* ===== verification/EffectLaws.v ===== *)
(** * Laws of retained effects (crates/ag-harness/src/effect.rs)

    A turn and its replacement workers hold leases on the state of effects, and the
    store through which the turn was admitted (store_coordinator.rs) holds a clone of
    the same lock guard.  However their operations interleave, the lock of the session
    is held as long as a lease is or the store keeps its clone, and for good once a
    replacement ended without a known outcome. *)
From S2P Require Import Prelude Json HarnessModel Patch ToolCalls ReadFile ReadLaws HarnessIo.

(** ** Interleavings *)

(** What the holder of a lease does with it. *)
Inductive lease_step : EffectLease → EffectLease → Prop :=
| step_starting l : lease_step l (starting l)
| step_acknowledged l : lease_step l (acknowledged l)
| step_recorded l : lease_step l (recorded l).

(** The state, the leases that are held, whether one was dropped while its replacement
    had no known outcome, the clone of the store, and whether the store gave it up. *)
Record EffectSystem := mkEffectSystem {
  shared : EffectState;
  held : list EffectLease;
  lost : bool;
  store_admission : option Z;
  store_released : bool
}.

(** A worker retains the state while the turn that starts it holds a lease.  The store
    settles with the answer of the database, or is dropped. *)
Inductive effect_step : EffectSystem → EffectSystem → Prop :=
| step_retain s ls b a g :
    ls ≠ [] → effect_step (mkEffectSystem s ls b a g) (mkEffectSystem (effects_retain s) (ls ++ [lease_new]) b a g)
| step_recording_failed s ls b a g e :
    effect_step (mkEffectSystem s ls b a g) (mkEffectSystem (effects_recording_failed s e) ls b a g)
| step_lease s before l l' after b a g :
    lease_step l l' →
    effect_step (mkEffectSystem s (before ++ l :: after) b a g) (mkEffectSystem s (before ++ l' :: after) b a g)
| step_drop s before l after b a g :
    effect_step (mkEffectSystem s (before ++ l :: after) b a g)
      (mkEffectSystem (lease_drop l s) (before ++ after) (b || lease_unresolved l) a g)
| step_store_settled s ls b a g (r : result unit str) :
    effect_step (mkEffectSystem s ls b a g)
      (mkEffectSystem s ls b (admitted_settled a r) (g || match r with Ok _ => true | Err _ => false end))
| step_store_dropped s ls b a g : effect_step (mkEffectSystem s ls b a g) (mkEffectSystem s ls b None true).

(** A turn retains the state, admits the lock of its session, and gives the store a
    clone of its guard. *)
Inductive effect_reachable (lock : Z) : EffectSystem → Prop :=
| reachable_admitted :
    effect_reachable lock
      (mkEffectSystem (effects_admit (effects_retain EffectState_default) lock) [lease_new] false (Some lock) false)
| reachable_step s s' : effect_reachable lock s → effect_step s s' → effect_reachable lock s'.

(** Somebody holds a clone of the guard. *)
Definition lock_taken (lock : Z) (x : EffectSystem) : Prop :=
  admission (shared x) = Some lock ∨ lock ∈ kept_forever (shared x) ∨ store_admission x = Some lock.

(** ** The invariant *)

Record effect_inv (lock : Z) (x : EffectSystem) : Prop := {
  inv_pending : pending (shared x) = usize_len (held x);
  inv_held : held x ≠ [] → admission (shared x) = Some lock ∨ lock ∈ kept_forever (shared x);
  inv_lost : lost x = true → lock ∈ kept_forever (shared x) ∧ is_Some (failure (shared x));
  inv_kept : lost x = false → kept_forever (shared x) = [];
  inv_idle : held x = [] → admission (shared x) = None;
  inv_store : store_admission x = if store_released x then None else Some lock
}.

Lemma lease_drop_fields l s :
  pending (lease_drop l s) = (pending s - 1)%Z ∧
  (is_Some (failure s) ∨ lease_unresolved l = true → is_Some (failure (lease_drop l s))) ∧
  admission (lease_drop l s) =
    (if (pending s - 1 =? 0)%Z then None else if lease_unresolved l then None else admission s) ∧
  kept_forever (lease_drop l s) =
    kept_forever s ++ (if lease_unresolved l then match admission s with Some a => [a] | None => [] end else []).
Proof.
  unfold lease_drop. destruct (recording l), (lease_unresolved l);
    cbn [pending failure admission kept_forever effects_recording_failed]; split_and!; rewrite ?app_nil_r; try done.
  by intros [?|?].
Qed.

Lemma effect_inv_drop lock s before l after b a g :
  effect_inv lock (mkEffectSystem s (before ++ l :: after) b a g) →
  effect_inv lock (mkEffectSystem (lease_drop l s) (before ++ after) (b || lease_unresolved l) a g).
Proof.
  intros [HP HH HL HK _ HG]. cbn [shared held lost store_admission store_released] in *. destruct (lease_drop_fields l s) as (EP & HF & EA & EK).
  specialize (HH ltac:(by destruct before)).
  assert (pending s - 1 = usize_len (before ++ after))%Z as EL.
  { rewrite HP. unfold usize_len. rewrite !length_app. cbn [length]. lia. }
  assert (lock ∈ kept_forever s ∨ lease_unresolved l = true → lock ∈ kept_forever (lease_drop l s)) as HX.
  { rewrite EK. intros [HI|HU]; [apply elem_of_app; by left|]. rewrite HU. apply elem_of_app.
    destruct HH as [->|HH]; [right; by left|by left]. }
  split; cbn [shared held lost store_admission store_released]; [| | | | |exact HG].
  - by rewrite EP.
  - intros HN. apply usize_len_pos in HN. rewrite EA, (proj2 (Z.eqb_neq _ _)) by lia.
    destruct (lease_unresolved l) eqn:EU; [right; by apply HX; right|].
    destruct HH as [HH|HH]; [by left|right; apply HX; by left].
  - intros [->|HU]%orb_true_iff; [destruct (HL eq_refl)|]; split; auto.
  - intros [-> HU]%orb_false_iff. by rewrite EK, HU, app_nil_r, HK.
  - intros HN. rewrite HN in EL. change (usize_len (@nil EffectLease)) with 0%Z in EL. by rewrite EA, EL.
Qed.

Lemma effect_inv_step lock x x' : effect_inv lock x → effect_step x x' → effect_inv lock x'.
Proof.
  intros HI HS. destruct HS as [s ls b a g HN|s ls b a g e|s before l l' after b a g HS|s before l after b a g|s ls b a g r|s ls b a g].
  4: by apply effect_inv_drop.
  all: destruct HI as [HP HH HL HK HD HG]; cbn [shared held lost store_admission store_released] in *;
    split; cbn [shared held lost store_admission store_released effects_retain effects_recording_failed pending admission failure
      kept_forever]; try done.
  - rewrite HP. unfold usize_len. rewrite length_app. cbn [length]. lia.
  - intros _. by apply HH.
  - by destruct ls.
  - intros HB. by destruct (HL HB).
  - rewrite HP. unfold usize_len. by rewrite !length_app.
  - intros _. apply HH. by destruct before.
  - by destruct before.
  - rewrite HG. by destruct r, g.
Qed.

(** C17: The lock of a session outlives what may still change its files.  While any
    lease is held, by the turn or by a replacement worker, the effects keep the lock
    taken, whatever the store does; a worker that ended without a known outcome keeps
    it taken for the rest of the process; and until the store has settled its turn or
    is gone, so in particular after a failed cleanup, its own clone keeps it taken.
    Otherwise, once the last lease is dropped, the lock is free as soon as the store
    gave up its clone.  Waiting for the effects reports success only when no lease is
    held and no outcome is unknown. *)
Theorem lock_outlives_effects lock x :
  effect_reachable lock x →
  pending (shared x) = usize_len (held x) ∧
  (held x ≠ [] → admission (shared x) = Some lock ∨ lock ∈ kept_forever (shared x)) ∧
  (lost x = true → lock ∈ kept_forever (shared x)) ∧
  (store_released x = false → lock_taken lock x) ∧
  (lost x = false → held x = [] → (lock_taken lock x ↔ store_released x = false)) ∧
  (effects_settled (shared x) = Some (Ok tt) → held x = [] ∧ lost x = false).
Proof.
  intros HR. assert (effect_inv lock x) as [HP HH HL HK HD HG].
  { induction HR as [|s s' _ IH HS]; [|by eapply effect_inv_step].
    by split; cbn [shared held lost store_admission store_released effects_admit effects_retain EffectState_default pending admission
      kept_forever]; auto. }
  assert (store_released x = false → lock_taken lock x) as HT by (intros E; right; right; by rewrite HG, E).
  split_and!; [done|done|by intros HB; destruct (HL HB)|done| |].
  - intros HB HN. split; [|exact HT]. unfold lock_taken. rewrite (HD HN), (HK HB), HG.
    intros [H|[H|H]]; [done|by apply not_elem_of_nil in H|]. by destruct (store_released x).
  - unfold effects_settled. destruct (Z.eqb_spec (pending (shared x)) 0) as [HZ|]; [|discriminate].
    intros HS. split.
    + destruct (held x) as [|l ls]; [done|]. rewrite usize_len_cons in HP. pose proof (usize_len_nonneg ls). lia.
    + destruct (lost x); [|done]. destruct (HL eq_refl) as [_ [e EF]]. by rewrite EF in HS.
Qed.

Module EffectDemo.
(** The turn ended while its replacement worker runs; then the worker dies. *)
Lemma lock_outlives_effects_witness :
  7%Z ∈ kept_forever (lease_drop (starting lease_new)
    (lease_drop lease_new (effects_retain (effects_admit (effects_retain EffectState_default) 7)))).
Proof.
  set (s := effects_admit (effects_retain EffectState_default) 7).
  assert (effect_reachable 7 (mkEffectSystem (lease_drop (starting lease_new) (lease_drop lease_new (effects_retain s))) [] true None true)) as HR.
  { apply (reachable_step _ (mkEffectSystem (lease_drop lease_new (effects_retain s)) [starting lease_new] false None true));
      [|apply (step_drop _ [] (starting lease_new) [] false)].
    apply (reachable_step _ (mkEffectSystem (effects_retain s) [lease_new; starting lease_new] false None true));
      [|apply (step_drop _ [] lease_new [starting lease_new] false)].
    apply (reachable_step _ (mkEffectSystem (effects_retain s) [lease_new; lease_new] false None true));
      [|apply (step_lease _ [lease_new] lease_new _ [] false); constructor].
    apply (reachable_step _ (mkEffectSystem s [lease_new] false None true)); [|by apply (step_retain s [lease_new] false)].
    apply (reachable_step _ (mkEffectSystem s [lease_new] false (Some 7%Z) false)); [constructor|].
    apply (step_store_settled s [lease_new] false (Some 7%Z) false (Ok tt)). }
  by apply (lock_outlives_effects 7 _ HR).
Defined.
End EffectDemo.
