(* ===== verification/TurnSnapshot.v ===== *)
(** * Turn options and their snapshots (crates/ag-harness/src/turn.rs, policy.rs,
    comparison.rs, turn_options_snapshot.rs)

    The options a turn runs with, the versioned snapshot stored with the turn,
    its fingerprint, and the test that a provider continuation may be reused.
    JSON text and schema compilation come from [serde_json] and [jsonschema]:
    they are the operations of [SnapshotCodec], with the round trip of [serde]
    as [SnapshotCodecLaws]. *)
From S2P Require Import Prelude HarnessModel.

(** ** Tool permissions *)

Inductive Tool := ReadTool | WriteTool.

Record ToolPolicy := mkToolPolicy { policy_read : bool; policy_write : bool }.

#[global] Instance ToolPolicy_eq_dec : EqDecision ToolPolicy.
Proof. solve_decision. Defined.

Definition ToolPolicy_default : ToolPolicy := mkToolPolicy false false.

Definition allow (self : ToolPolicy) (tool : Tool) : ToolPolicy :=
  match tool with
  | ReadTool => mkToolPolicy true (policy_write self)
  | WriteTool => mkToolPolicy (policy_read self) true
  end.

Definition deny (self : ToolPolicy) (tool : Tool) : ToolPolicy :=
  match tool with
  | ReadTool => mkToolPolicy false (policy_write self)
  | WriteTool => mkToolPolicy (policy_read self) false
  end.

Definition allows (self : ToolPolicy) (tool : Tool) : bool :=
  match tool with ReadTool => policy_read self | WriteTool => policy_write self end.

(** ** Comparison identities *)

Record ComparisonIdentity := mkComparisonIdentity { oid : str; repository_root : list N }.

#[global] Instance ComparisonIdentity_eq_dec : EqDecision ComparisonIdentity.
Proof. solve_decision. Defined.

Definition is_ascii_hexdigit (b : N) : bool :=
  (is_ascii_digit b || ((97 <=? b) && (b <=? 102)) || ((65 <=? b) && (b <=? 70)))%N.

Definition valid_oid (text : str) : bool :=
  ((byte_len text =? 40) || (byte_len text =? 64)) && forallb is_ascii_hexdigit (as_bytes text).

Definition is_valid (self : ComparisonIdentity) : bool :=
  valid_oid (oid self) && negb (is_empty (repository_root self)).

(** ** Options *)

Section snapshot.
Context {Value : Type}.

(** [limits] holds one bound; a [ComparisonBase] wraps its identity. *)
Record TurnOptions := mkTurnOptions {
  options_comparison_base : option ComparisonIdentity;
  options_max_tool_calls : positive;
  options_schema : Value;
  options_tool_policy : ToolPolicy
}.

Definition TurnOptions_new (schema : Value) (tool_policy : ToolPolicy) (max_tool_calls : positive)
  : TurnOptions := mkTurnOptions None max_tool_calls schema tool_policy.

Definition with_comparison_base (self : TurnOptions) (base : ComparisonIdentity) : TurnOptions :=
  mkTurnOptions (Some base) (options_max_tool_calls self) (options_schema self)
    (options_tool_policy self).

Record StoredTurnOptions := mkStoredTurnOptions {
  stored_comparison_base : option ComparisonIdentity;
  stored_fingerprint : option str;
  stored_max_tool_calls : positive;
  stored_output_schema : Value;
  stored_tool_policy : ToolPolicy;
  stored_version : Z
}.

(** The members of the JSON object that [effective_options] builds. *)
Record EffectiveOptions := mkEffectiveOptions {
  effective_comparison_base : option ComparisonIdentity;
  effective_max_tool_calls : positive;
  effective_output_schema : Value;
  effective_tool_policy : ToolPolicy;
  effective_version : Z
}.

Definition effective_options (self : StoredTurnOptions) : EffectiveOptions :=
  mkEffectiveOptions (stored_comparison_base self) (stored_max_tool_calls self)
    (stored_output_schema self) (stored_tool_policy self) (stored_version self).

Inductive StoredTurnOptionsError :=
| StoredInvalidData (reason : str)
| StoredJson (error : str)
| StoredSchema (error : str).

Definition SessionError_from_options (error : StoredTurnOptionsError) : SessionError :=
  match error with
  | StoredInvalidData reason => InvalidData reason
  | StoredJson error => InvalidData (L"invalid persistent message JSON: " ++ error)
  | StoredSchema error => SchemaError error
  end.

(** [serde_json] and [jsonschema]: the text of the options, with the members of
    every object sorted or in insertion order; the text with the fingerprint
    added; parsing; and what [OutputSchema::new] rejects. *)
Class SnapshotCodec := {
  value_eq_dec :: EqDecision Value;
  effective_text : bool → EffectiveOptions → str;
  snapshot_text : EffectiveOptions → str → str;
  snapshot_parse : str → result StoredTurnOptions str;
  schema_error : Value → option str
}.

(** What [serde] documents for the derived reader: it reads back what was written. *)
Class SnapshotCodecLaws `{SnapshotCodec} : Prop :=
  parse_snapshot_text e fingerprint :
    snapshot_parse (snapshot_text e fingerprint) =
    Ok (mkStoredTurnOptions (effective_comparison_base e) (Some fingerprint)
          (effective_max_tool_calls e) (effective_output_schema e) (effective_tool_policy e)
          (effective_version e)).

Context `{SnapshotCodec} `{ContentHash}.

Definition fingerprint (self : StoredTurnOptions) : str :=
  content_hash (as_bytes (effective_text (stored_version self =? 3)%Z (effective_options self))).

Definition stored_options (options : TurnOptions) : StoredTurnOptions :=
  mkStoredTurnOptions (options_comparison_base options) None (options_max_tool_calls options)
    (options_schema options) (options_tool_policy options) 3.

Definition encode (options : TurnOptions) : str :=
  let stored := stored_options options in
  snapshot_text (effective_options stored) (fingerprint stored).

Definition unsupported_version (version : Z) : str :=
  L"unsupported turn options version " ++ display_nat (Z.to_nat version).
Definition invalid_comparison : str :=
  L"invalid comparison identity or effective-options fingerprint".

Definition is_none_or {A} (p : A → bool) (o : option A) : bool :=
  match o with Some x => p x | None => true end.

Definition decode (snapshot : str) : result StoredTurnOptions StoredTurnOptionsError :=
  match snapshot_parse snapshot with
  | Err error => Err (StoredJson error)
  | Ok stored =>
      if negb ((1 <=? stored_version stored)%Z && (stored_version stored <=? 3)%Z)
      then Err (StoredInvalidData (unsupported_version (stored_version stored)))
      else
        match schema_error (stored_output_schema stored) with
        | Some error => Err (StoredSchema error)
        | None =>
            let valid :=
              if (stored_version stored =? 1)%Z
              then bool_decide (stored_comparison_base stored = None) &&
                   bool_decide (stored_fingerprint stored = None)
              else is_none_or is_valid (stored_comparison_base stored) &&
                   bool_decide (stored_fingerprint stored = Some (fingerprint stored)) in
            if negb valid then Err (StoredInvalidData invalid_comparison) else Ok stored
        end
  end.

Definition continuation_compatible (self : StoredTurnOptions) (options : TurnOptions) : bool :=
  ((stored_version self =? 2)%Z || (stored_version self =? 3)%Z) &&
  bool_decide (stored_output_schema self = options_schema options) &&
  bool_decide (stored_tool_policy self = options_tool_policy options) &&
  bool_decide (stored_comparison_base self = options_comparison_base options).

(** ** Laws *)

(** What [TurnOptions] values are made of: a schema that compiled and a
    comparison base that was validated. *)
Definition options_valid (options : TurnOptions) : Prop :=
  schema_error (options_schema options) = None ∧
  is_none_or is_valid (options_comparison_base options) = true.

(** The options a continuation depends on: everything but the tool-call budget. *)
Definition continuation_policy (options : TurnOptions)
  : Value * ToolPolicy * option ComparisonIdentity :=
  (options_schema options, options_tool_policy options, options_comparison_base options).

Lemma decode_encode `{!SnapshotCodecLaws} options :
  options_valid options →
  decode (encode options) =
    Ok (mkStoredTurnOptions (options_comparison_base options) (Some (fingerprint (stored_options options)))
          (options_max_tool_calls options) (options_schema options) (options_tool_policy options) 3).
Proof.
  intros [Hs Hb]. unfold decode, encode. rewrite parse_snapshot_text.
  cbv beta iota zeta delta [effective_options stored_options effective_comparison_base
    effective_max_tool_calls effective_output_schema effective_tool_policy effective_version
    stored_comparison_base stored_fingerprint stored_max_tool_calls stored_output_schema
    stored_tool_policy stored_version Z.leb Z.eqb Z.compare Pos.compare Pos.compare_cont Pos.eqb
    andb negb].
  rewrite Hs, Hb. rewrite bool_decide_eq_true_2 by done. done.
Qed.

Lemma continuation_compatible_encode `{!SnapshotCodecLaws} options options' stored :
  options_valid options → decode (encode options) = Ok stored →
  continuation_compatible stored options' = true ↔
  continuation_policy options = continuation_policy options'.
Proof.
  intros Hv. rewrite (decode_encode _ Hv). intros [= <-]. unfold continuation_compatible. cbn.
  rewrite !andb_true_iff, !bool_decide_eq_true. unfold continuation_policy.
  rewrite !pair_eq. intuition congruence.
Qed.
End snapshot.

Arguments TurnOptions : clear implicits.
Arguments StoredTurnOptions : clear implicits.
Arguments SnapshotCodec : clear implicits.
Arguments SnapshotCodecLaws Value {_} : assert.
