(* ===== verification/RepoTools.v ===== *)
(** * Repository tools (crates/ag-harness/src/read/, write.rs)

    The read tool and the write tool as programs: paths are resolved by the
    file system, committed content and lists come from Git, and a replacement is
    announced to the journal before it starts and settled after it ended. *)
From S2P Require Import Prelude Json HarnessModel Patch ToolCalls ReadFile HarnessIo TurnSnapshot.

Section tools.
Context `{JsonEscape} `{!Environment}.

(** ** Paths *)

Definition path_components (p : str) : list str :=
  List.filter (λ c, negb (is_empty c)) (split_char slash p).

(** [Path::join] with a relative path, [Path::starts_with] on canonical paths. *)
Definition path_join (root path : str) : str :=
  if starts_with path [slash] then path
  else root ++ (if ends_with root [slash] then [] else [slash]) ++ path.

Fixpoint list_starts_with (prefix l : list str) : bool :=
  match prefix, l with
  | [], _ => true
  | p :: prefix', x :: l' => str_eqb p x && list_starts_with prefix' l'
  | _ :: _, [] => false
  end.

Definition path_starts_with (path root : str) : bool :=
  list_starts_with (path_components root) (path_components path).

(** ** Lossy text *)

(** [String::from_utf8_lossy]: each longest invalid start becomes one
    replacement character.  The value and the number of bytes taken. *)
Definition in_range (b lo hi : N) : bool := ((lo <=? b) && (b <=? hi))%N.

Definition replacement : char := 65533%N.

(** The trail bytes of a sequence: the ranges they must be in. *)
Fixpoint take_trail (acc : N) (ranges : list (N * N)) (bytes : list N) (taken : nat) : char * nat :=
  match ranges with
  | [] => (acc, taken)
  | (lo, hi) :: ranges' =>
      match bytes with
      | b :: rest =>
          if in_range b lo hi then take_trail (acc * 64 + (b - 128))%N ranges' rest (S taken) else (replacement, taken)
      | [] => (replacement, taken)
      end
  end.

Definition lossy_step (b : N) (rest : list N) : char * nat :=
  let trail := (128, 191)%N in
  if (b <? 128)%N then (b, 1)
  else if in_range b 194 223 then take_trail (b - 192) [trail] rest 1
  else if (b =? 224)%N then take_trail 0 [(160, 191)%N; trail] rest 1
  else if in_range b 225 236 || in_range b 238 239 then take_trail (b - 224) [trail; trail] rest 1
  else if (b =? 237)%N then take_trail 13 [(128, 159)%N; trail] rest 1
  else if (b =? 240)%N then take_trail 0 [(144, 191)%N; trail; trail] rest 1
  else if in_range b 241 243 then take_trail (b - 240) [trail; trail; trail] rest 1
  else if (b =? 244)%N then take_trail 4 [(128, 143)%N; trail; trail] rest 1
  else (replacement, 1).

Fixpoint from_utf8_lossy_loop (fuel : nat) (bytes : list N) : str :=
  match fuel, bytes with
  | S fuel', b :: rest => let '(c, taken) := lossy_step b rest in c :: from_utf8_lossy_loop fuel' (drop taken bytes)
  | _, _ => []
  end.

Definition from_utf8_lossy (bytes : list N) : str := from_utf8_lossy_loop (length bytes) bytes.

(** ** The read tool *)

Record RepositoryReadTool := mkReadTool { reader_base : option ComparisonIdentity; reader_root : str }.

Inductive InspectionError :=
| RepositoryCommand (source : IoError)
| RepositoryCommandRejected (detail : str)
| InspectionInvalidUtf8
| InspectionRead (error : ReadError).

Definition InspectionError_is_model_correctable (self : InspectionError) : bool :=
  match self with
  | RepositoryCommand _ => false
  | InspectionRead error => ReadError_is_model_correctable error
  | RepositoryCommandRejected _ | InspectionInvalidUtf8 => true
  end.

Definition InspectionError_display (self : InspectionError) : str :=
  match self with
  | RepositoryCommand source => L"repository inspection failed: " ++ io_text source
  | RepositoryCommandRejected detail => L"repository inspection was rejected: " ++ detail
  | InspectionInvalidUtf8 => L"repository inspection returned non-UTF-8 output"
  | InspectionRead error => ReadError_display error
  end.

Definition into_read_error (self : InspectionError) (path : str) : ReadError :=
  match self with
  | RepositoryCommand source => ReadFailed path source
  | RepositoryCommandRejected detail => OpenFailed path (mkIoError IoOther detail)
  | InspectionInvalidUtf8 => InvalidUtf8 1 path
  | InspectionRead error => error
  end.

(** [map_err] on the result of a program. *)
Definition mapping_err {A E F} (f : E → F) (m : Hm (result A E)) : Hm (result A F) := r ← m; mret (map_err f r).

Definition execute_file (self : RepositoryReadTool) (arguments : ReadArguments) (requested_path : str)
  : Hm (result ReadOutput ReadError) :=
  let! root := mapping_err ReadRepositoryRoot (canonicalize (reader_root self)) in
  let! canonical_path := mapping_err (ResolvePath requested_path) (canonicalize (path_join root requested_path)) in
  if negb (path_starts_with canonical_path root) ||
     bool_decide (path_components canonical_path = path_components root)
  then mret (Err (OutsideRepository requested_path))
  else
    let! file := mapping_err (OpenFailed requested_path) (open_beneath root requested_path) in
    mret (read file arguments requested_path false).

Definition validate_command_output (output : RepositoryCommandOutput) (accepted_codes : list Z)
  : result RepositoryCommandOutput InspectionError :=
  if match code output with Some c => existsb (Z.eqb c) accepted_codes | None => false end then Ok output
  else Err (RepositoryCommandRejected (bounded_diagnostic (trim (from_utf8_lossy (stderr output))))).

Definition run_command_at (large : bool) (root : str) (arguments : list str) (accepted_codes : list Z)
  : Hm (result RepositoryCommandOutput InspectionError) :=
  let! output := mapping_err RepositoryCommand (run_git large root arguments) in
  mret (validate_command_output output accepted_codes).

Definition tool_repository_root (self : RepositoryReadTool) : Hm (result str InspectionError) :=
  mapping_err (λ source, InspectionRead (ReadRepositoryRoot source)) (canonicalize (reader_root self)).

Definition run_command (self : RepositoryReadTool) (arguments : list str) (accepted_codes : list Z)
  : Hm (result RepositoryCommandOutput InspectionError) :=
  let! root := tool_repository_root self in run_command_at false root arguments accepted_codes.

Definition ok_or_utf8 {A} (o : option A) : result A InspectionError :=
  match o with Some a => Ok a | None => Err InspectionInvalidUtf8 end.

Definition list_ (self : RepositoryReadTool) (arguments : ReadArguments) : Hm (result (str * str) InspectionError) :=
  let command := [L"ls-files"; L"--cached"; L"--others"; L"--exclude-standard"; L"-z"; L"--"] in
  let filter := default (L".") (path_filter arguments) in
  let! output := run_command self (command ++ [filter]) [0%Z] in
  let output := retain_complete_records output 0%N in
  let! paths := mret (ok_or_utf8 (decode_records (stdout output))) in
  let '(paths, limited) := limit_items paths (limit arguments) in
  text ← some_or_panic (bounded_items_result (L"list") paths (limited || stdout_truncated output));
  mret (Ok (text, filter)).

Definition search (self : RepositoryReadTool) (arguments : ReadArguments) (query : str)
  : Hm (result (str * str) InspectionError) :=
  let command := [L"grep"; L"--untracked"; L"-n"; L"-I"; L"-F"; L"-e"; query; L"--"] in
  let! output := run_command self (command ++ [default (L".") (path_filter arguments)]) [0%Z; 1%Z] in
  let output := retain_complete_records output newline in
  let! text := mret (ok_or_utf8 (from_utf8 (stdout output))) in
  let '(matches, limited) := limit_items (str_lines text) (limit arguments) in
  result ← some_or_panic (bounded_items_result (L"search") matches (limited || stdout_truncated output));
  mret (Ok (result, query)).

Definition comparison_oid (self : RepositoryReadTool) : result str InspectionError :=
  match reader_base self with
  | Some base => Ok (oid base)
  | None => Err (RepositoryCommandRejected (L"comparison base is not configured by the host"))
  end.

(** The diffs of untracked files, until one does not fit. *)
Fixpoint untracked_diffs (root : str) (paths : list str) (text : str)
  : Hm (result (str * bool) InspectionError) :=
  match paths with
  | [] => mret (Ok (text, false))
  | path :: rest =>
      let command := [L"diff"; L"--no-index"; L"--no-ext-diff"; L"--no-textconv"; L"--unified=20"; L"--";
                      L"/dev/null"; path] in
      let! output := run_command_at false root command [0%Z; 1%Z] in
      let output := retain_complete_records output newline in
      let! (addition, addition_truncated) := mret (ok_or_utf8 (bounded_inspection_text output)) in
      let '(text, append_truncated) := append_bounded_diff text addition in
      if addition_truncated || append_truncated then mret (Ok (text, true)) else untracked_diffs root rest text
  end.

Definition diff (self : RepositoryReadTool) (arguments : ReadArguments) : Hm (result (str * str) InspectionError) :=
  let! base := mret (comparison_oid self) in
  let! root := tool_repository_root self in
  let filter := default (L".") (path_filter arguments) in
  let command := [L"--no-replace-objects"; L"diff"; L"--no-ext-diff"; L"--no-textconv"; L"--relative";
                  L"--unified=20"; base; L"--"] in
  let! output := run_command_at false root (command ++ [filter]) [0%Z] in
  let output := retain_complete_records output newline in
  let! (text, truncated) := mret (ok_or_utf8 (bounded_inspection_text output)) in
  let! (text, truncated) :=
    (if truncated then mret (Ok (text, true))
     else
       let untracked_command := [L"ls-files"; L"--others"; L"--exclude-standard"; L"-z"; L"--"] in
       let! untracked := run_command_at false root (untracked_command ++ [filter]) [0%Z] in
       let untracked := retain_complete_records untracked 0%N in
       let! paths := mret (ok_or_utf8 (decode_records (stdout untracked))) in
       if stdout_truncated untracked || (MAX_UNTRACKED_DIFF_FILES <? usize_len paths)%Z
       then mret (Ok (text, true)) else untracked_diffs root paths text) in
  result ← some_or_panic (bounded_text_result (L"diff") text truncated (Some base));
  mret (Ok (result, base)).

Definition is_line_end (c : char) : bool := ((c =? newline) || (c =? carriage_return))%N.

Definition repository_prefix (root : str) : Hm (result str InspectionError) :=
  let! output := run_command_at false root [L"rev-parse"; L"--show-prefix"] [0%Z] in
  if stdout_truncated output
  then mret (Err (RepositoryCommandRejected (L"Git returned a truncated repository prefix")))
  else
    let! text := mret (ok_or_utf8 (from_utf8 (stdout output))) in
    let prefix := trim_end_matches is_line_end text in
    if starts_with prefix [slash] ||
       existsb (λ c, (c =? nul) || is_line_end c || (c =? backslash))%N prefix ||
       existsb (λ part, str_eqb part (L"..")) (split_char slash prefix)
    then mret (Err (RepositoryCommandRejected (L"Git returned an invalid repository prefix")))
    else mret (Ok prefix).

Definition show (self : RepositoryReadTool) (arguments : ReadArguments) (path : str) (side : ReadSide)
  : Hm (result (str * str) InspectionError) :=
  let! revision := mret (match side with SideBase => comparison_oid self | SideHead => Ok (L"HEAD") end) in
  let! root := tool_repository_root self in
  let! prefix := repository_prefix root in
  let command := (match side with SideBase => [L"--no-replace-objects"] | SideHead => [] end) ++
                 [L"cat-file"; L"blob"; revision ++ L":" ++ prefix ++ path] in
  let! output := run_command_at true root command [0%Z] in
  let! output := mret (map_err InspectionRead
                   (read (mkStream (stdout output) None) arguments path (stdout_truncated output))) in
  let output := match side with
                | SideBase => mkReadOutput (Some revision) (content output) (end_line output) (next_offset output)
                                (output_path output) (start_line output) (truncated output)
                | SideHead => output
                end in
  result ← some_or_panic (ReadOutput_to_tool_result output);
  mret (map_err InspectionRead (let? text := result in Ok (text, revision ++ L":" ++ path))).

Definition execute_inspection (self : RepositoryReadTool) (arguments : ReadArguments)
  : Hm (result (str * str) InspectionError) :=
  match action arguments with
  | ActionDiff => diff self arguments
  | ActionFile =>
      let! output := mapping_err InspectionRead (execute_file self arguments (path arguments)) in
      result ← some_or_panic (ReadOutput_to_tool_result output);
      mret (map_err InspectionRead (let? text := result in Ok (text, output_path output)))
  | ActionList => list_ self arguments
  | ActionSearch => search self arguments (default [] (query arguments))
  | ActionShow => show self arguments (path arguments) (default SideHead (side_ arguments))
  end.

(** ** The write tool *)

(** [journaled] says whether the turn has a write journal. *)
Record RepositoryWriteTool := mkWriteTool { journaled : bool; writer_root : str }.

Record WriteOutput := mkWriteOutput { bytes_written : Z; written_path : str; status : str }.

Definition WriteOutput_new (path : str) (bytes : Z) : WriteOutput := mkWriteOutput bytes path (L"applied").

Definition WriteOutput_json (self : WriteOutput) : str :=
  json_object [member (L"bytes_written") (Some (display_Z (bytes_written self)));
               member (L"path") (Some (json_string (written_path self)));
               member (L"status") (Some (json_string (status self)))].

Definition WriteError_display (self : WriteError) : str :=
  match self with
  | BinaryTarget path => L"write target `" ++ path ++ L"` is not UTF-8 text"
  | EncodeFailed reason => L"failed to encode write result: " ++ reason
  | NoChange path => L"patch does not change `" ++ path ++ L"`"
  | PatchInvalid reason => L"invalid patch: " ++ reason
  | PathMismatch path => L"patch headers do not match write path `" ++ path ++ L"`"
  | ReadTarget path source => L"failed to read write target `" ++ path ++ L"`: " ++ io_text source
  | RepositoryRoot path source => L"failed to resolve repository root `" ++ path ++ L"`: " ++ io_text source
  | TargetTooLarge limit path =>
      L"write target `" ++ path ++ L"` exceeds the " ++ display_Z limit ++ L"-byte limit"
  | Unsupported reason => L"unsupported patch operation: " ++ reason
  | WriteTarget path source => L"failed to write target `" ++ path ++ L"`: " ++ io_text source
  end.

Definition WriteError_to_tool_result (self : WriteError) (path : str) : str :=
  rejected_tool_result (WriteError_display self) path.

Definition read_current (root path : str) : Hm (result (option (list N)) WriteError) :=
  r ← open_beneath root path;
  match r with
  | Err error =>
      mret (match io_kind error with IoNotFound => Ok None | _ => Err (ReadTarget path error) end)
  | Ok file =>
      let limited := stream_take (MAX_FILE_BYTES + 1) file in
      mret (match stream_failure limited with
            | Some source => Err (ReadTarget path source)
            | None =>
                if (MAX_FILE_BYTES <? usize_len (stream_bytes limited))%Z
                then Err (TargetTooLarge MAX_FILE_BYTES path) else Ok (Some (stream_bytes limited))
            end)
  end.

Definition PANICKED : str := L"task panicked".

Definition io_other (text : str) : IoError := mkIoError IoOther text.

(** The spawned worker: it owns the lease, so dropping it settles the count.
    [None] is a panic, seen as a failed [JoinHandle]. *)
Definition write_worker (intent : option Z) (root path : str) (current : option (list N)) (resulting : list N)
    (bytes : Z) : Hm (result WriteOutput WriteError) :=
  let lease := starting lease_new in
  replaced ← replace_beneath root path current resulting;
  match replaced with
  | None => _ ← with_effects (lease_drop lease); mret (Err (WriteTarget path (io_other PANICKED)))
  | Some replacement =>
      let lease := acknowledged lease in
      let applied := match replacement with Ok _ => true | Err _ => false end in
      recording ← (match intent with
                   | Some id => r ← journal_finish id applied; mret (Some r)
                   | None => mret None
                   end);
      match recording with
      | Some None => _ ← with_effects (lease_drop lease); mret (Err (WriteTarget path (io_other PANICKED)))
      | Some (Some (Err failed)) =>
          let source := match replacement with
                        | Ok _ => io_other failed
                        | Err error => io_other (io_text error ++ L"; outcome recording failed: " ++ failed)
                        end in
          let lease := recorded lease in
          _ ← with_effects (λ s, effects_recording_failed s (io_text source));
          _ ← with_effects (lease_drop lease);
          mret (Err (WriteTarget path source))
      | _ =>
          let lease := recorded lease in
          _ ← with_effects (lease_drop lease);
          mret (match replacement with
                | Err source => Err (WriteTarget path source)
                | Ok _ => Ok (WriteOutput_new path bytes)
                end)
      end
  end.

Definition execute_write (self : RepositoryWriteTool) (arguments : WriteArguments) (call_id : str)
  : Hm (result WriteOutput WriteError) :=
  let path := write_path_ arguments in
  let! root := mapping_err (RepositoryRoot (writer_root self)) (canonicalize (writer_root self)) in
  let! current := read_current root path in
  let! resulting := mret (apply_unified_diff path current (write_patch arguments)) in
  if (MAX_FILE_BYTES <? usize_len resulting)%Z then mret (Err (TargetTooLarge MAX_FILE_BYTES path))
  else if bool_decide (current = Some resulting) then mret (Err (NoChange path))
  else
    let! intent :=
      (if journaled self
       then mapping_err (λ error, WriteTarget path (io_other error))
              (let! id := journal_intent call_id root path current resulting in mret (Ok (Some id)))
       else mret (Ok None)) in
    _ ← with_effects effects_retain;
    write_worker intent root path current resulting (usize_len resulting).
End tools.
