(* ===== verification/Engine.v ===== *)
(** * The turn engine (crates/ag-harness/src/engine.rs, turn.rs)

    One turn: the model is asked, its tool calls are executed and reported back,
    until it gives an output that its schema accepts, or the turn fails.  The
    number of tool calls is limited; a round without a call ends the turn. *)
From S2P Require Import Prelude Json HarnessModel Patch ToolCalls ReadFile HarnessIo TurnSnapshot RepoTools.

(** ** Outcomes and errors (turn.rs) *)

Inductive ToolActivity :=
| ActivityRead (end_line : option Z) (path : str) (start_line : Z) (truncated : bool)
| ActivityReadInspection (action : ReadAction) (summary : str)
| ActivityReadInspectionRejected (action : ReadAction) (summary : str)
| ActivityReadRejected (path : str)
| ActivityWrite (bytes_written : Z) (path : str)
| ActivityWriteRejected (path : str).

Definition ToolActivity_name (self : ToolActivity) : str :=
  match self with
  | ActivityWrite _ _ | ActivityWriteRejected _ => L"write"
  | _ => L"read"
  end.

Definition ToolActivity_path (self : ToolActivity) : str :=
  match self with
  | ActivityRead _ path _ _ | ActivityReadRejected path | ActivityWrite _ path | ActivityWriteRejected path => path
  | ActivityReadInspection _ summary | ActivityReadInspectionRejected _ summary => summary
  end.

Record ModelRequestActivity := mkRequestActivity {
  activity_completion : option CompletionMetadata;
  activity_response_type : ModelResponseType
}.

Record TurnReport := mkTurnReport { model_requests : list ModelRequestActivity; report_tool_calls : list ToolActivity }.

Record TurnOutcome := mkTurnOutcome { outcome_output : Value; report : TurnReport }.

Inductive TurnError :=
| TurnCancelled
| TurnModel (error : ModelError)
| ToolDenied (name : str)
| TurnRead (error : ReadError)
| RepositoryRequired
| ComparisonRepositoryMismatch
| TurnWrite (error : WriteError)
| ToolCallLimit (limit : Z).

Definition TurnError_type (self : TurnError) : TurnErrorType :=
  match self with
  | TurnCancelled => TurnCancelledType
  | TurnModel error => TurnModelType (error_type error)
  | ToolDenied _ => TurnToolDeniedType
  | TurnRead _ | TurnWrite _ => TurnToolType
  | RepositoryRequired => TurnRepositoryRequiredType
  | ComparisonRepositoryMismatch => TurnComparisonMismatchType
  | ToolCallLimit _ => TurnToolCallLimitType
  end.

(** [char::is_control]: the code points of category Cc. *)
Definition is_control (c : char) : bool := ((c <? 32) || ((127 <=? c) && (c <? 160)))%N.

Definition sanitize_report_text (text : str) : str := map (λ c, if is_control c then replacement else c) text.

Definition sanitized_completion_metadata (metadata : CompletionMetadata) : CompletionMetadata :=
  mkCompletionMetadata (sanitize_report_text (finish_reason metadata))
    (sanitize_report_text <$> response_id metadata) (sanitize_report_text <$> response_model metadata)
    (sanitize_report_text <$> system_fingerprint metadata) (usage metadata).

(** A failed continuation keeps the error, except that a failed request says
    which of the two attempts failed. *)
Inductive ResumeFailure := ResumeNative (source : ModelError) | ResumeReplay (source : ModelError).

(** The [Display] text of an error of a model; it is read only inside a
    wrapped request error. *)
Class ModelErrorText := model_error_text : ModelError → str.

Definition into_model_error `{ModelErrorText} (self : ResumeFailure) : ModelError :=
  let '(source, text) :=
    match self with
    | ResumeNative source => (source, L"native provider continuation failed: " ++ model_error_text source)
    | ResumeReplay source =>
        (source, L"native provider continuation was unavailable and history replay failed: " ++ model_error_text source)
    end in
  match source with
  | Request _ => Request (ClassifiedRequestError (error_type source) (http_status source) text)
  | _ => source
  end.

(** [jsonschema]: the path and the reason of the first violation. *)
Class SchemaValidator := schema_violation : Value → Value → option (str * str).
(** [Value::to_string], which [to_writer] writes as well. *)
Class ValueText := value_text : Value → str.

Section engine.
Context `{JsonEscape} `{!Environment} `{ModelErrorText} `{SchemaValidator} `{ValueText}.

(** The writer refuses the text when it would pass the limit. *)
Definition validate_value (schema output : Value) : result unit ModelError :=
  if (RESPONSE_CONTENT_LIMIT_BYTES <? str_len (value_text output))%Z then Err ResponseContentTooLarge
  else match schema_violation schema output with
       | Some (path, reason) =>
           Err (SchemaViolation (if is_empty path then L"$" else bounded_diagnostic path) (bounded_diagnostic reason))
       | None => Ok tt
       end.

Definition record_output_with_reasoning (self : ModelRequest) (output : Value) (reasoning_content : option str)
  : ModelRequest :=
  set_messages self (messages self ++
    [match reasoning_content with
     | Some reasoning => AssistantReasoning (value_text output) reasoning
     | None => Assistant (value_text output)
     end]).

Record Engine := mkEngine {
  engine_lifecycle : bool;
  engine_model : option ModelMetadata;
  engine_effort : option ReasoningEffort;
  engine_options : @TurnOptions Value;
  engine_repository : option str
}.

Definition max_tool_calls (self : Engine) : Z := Z.pos (options_max_tool_calls (engine_options self)).

(** ** Preparation *)

Definition matches_repository (base : ComparisonIdentity) (root : str) : bool :=
  bool_decide (repository_root base = as_bytes root).

Definition prepare_request (self : Engine) (request : ModelRequest) (journal : bool)
  : result (ModelRequest * option RepositoryReadTool * option RepositoryWriteTool) TurnError :=
  let options := engine_options self in
  let request := if engine_lifecycle self then mark_lifecycle_observed request else request in
  let request := match model_reasoning_effort request, engine_effort self with
                 | None, Some effort => with_model_reasoning_effort request effort
                 | _, _ => request
                 end in
  if match options_comparison_base options with
     | Some base => negb (match engine_repository self with Some root => matches_repository base root | None => false end)
     | None => false
     end
  then Err ComparisonRepositoryMismatch
  else
    let read_allowed := allows (options_tool_policy options) ReadTool in
    let write_allowed := allows (options_tool_policy options) WriteTool in
    if negb read_allowed && negb write_allowed then Ok (request, None, None)
    else
      match engine_repository self with
      | None => Err RepositoryRequired
      | Some root =>
          let request := if read_allowed
                         then with_tool request (read_with_comparison_base (oid <$> options_comparison_base options))
                         else request in
          let read_tool := if read_allowed then Some (mkReadTool (options_comparison_base options) root) else None in
          let request := if write_allowed then with_tool request ToolDefinition_write else request in
          let write_tool := if write_allowed then Some (mkWriteTool journal root) else None in
          Ok (request, read_tool, write_tool)
      end.

(** ** Model requests *)

Definition complete_model_attempt (self : Engine) (request : ModelRequest) (model_request_index : Z)
    (turn_id : option Z) : Hm (result (ModelResponse * ModelRequestActivity * option str * option str) ModelError) :=
  lifecycle_id ← next_id (engine_lifecycle self);
  _ ← (match lifecycle_id with
       | Some id => emit true (ModelRequestStarted id (engine_model self) model_request_index turn_id)
       | None => mret tt
       end);
  let failed (error : ModelError) : Hm (result (ModelResponse * ModelRequestActivity * option str * option str) ModelError) :=
    _ ← (match lifecycle_id with
         | Some id => emit true (ModelRequestFailed (error_type error) (http_status error) id turn_id)
         | None => mret tt
         end);
    mret (Err error) in
  completion ← complete request;
  match completion with
  | Err error => failed error
  | Ok completion =>
      match (match response_output (response completion) with
             | Some output => validate_value (schema request) output
             | None => Ok tt
             end) with
      | Err error => failed error
      | Ok _ =>
          let activity := mkRequestActivity (sanitized_completion_metadata <$> completion_metadata completion)
                            (response_type (response completion)) in
          _ ← (match lifecycle_id with
               | Some id => emit true (ModelRequestCompleted (completion_metadata completion) id
                                         (response_type (response completion)) turn_id)
               | None => mret tt
               end);
          mret (Ok (response completion, activity, completion_session_id completion, completion_reasoning completion))
      end
  end.

Definition complete_model_request (self : Engine) (request : ModelRequest) (model_request_index : Z)
    (turn_id : option Z)
  : Hm (result (ModelResponse * list ModelRequestActivity * option str * bool * option str) TurnError) :=
  let native_resume := bool_decide (is_Some (provider_session_id request)) in
  first ← complete_model_attempt self request model_request_index turn_id;
  match first with
  | Ok (response, activity, session_id, reasoning) => mret (Ok (response, [activity], session_id, false, reasoning))
  | Err ResumeUnavailable =>
      if native_resume then
        let rejected := mkRequestActivity None ResponseResumeUnavailable in
        second ← complete_model_attempt self (set_provider_session_id request None)
                   (u64_saturating_add model_request_index 1) turn_id;
        match second with
        | Ok (response, activity, session_id, reasoning) =>
            mret (Ok (response, [rejected; activity], session_id, true, reasoning))
        | Err error => mret (Err (TurnModel (into_model_error (ResumeReplay error))))
        end
      else mret (Err (TurnModel ResumeUnavailable))
  | Err error =>
      if native_resume then mret (Err (TurnModel (into_model_error (ResumeNative error))))
      else mret (Err (TurnModel error))
  end.

(** ** Tool calls *)

Definition reject_invalid_read_arguments (arguments : ReadArguments) (error : str) : str * ToolActivity :=
  let summary := match path_filter arguments with
                 | Some p => p | None => default (L"read") (query arguments) end in
  (rejected_tool_result error summary,
   if bool_decide (action arguments = ActionFile) then ActivityReadRejected (sanitize_report_text summary)
   else ActivityReadInspectionRejected (action arguments) (sanitize_report_text summary)).

Definition execute_file_read (tool : RepositoryReadTool) (arguments : ReadArguments)
  : Hm (result (str * ToolActivity) TurnError) :=
  r ← execute_file tool arguments (path arguments);
  match r with
  | Ok output =>
      text ← some_or_panic (ReadOutput_to_tool_result output);
      mret (Ok (match text with
                | Ok text => (text, ActivityRead (end_line output) (sanitize_report_text (output_path output))
                                      (start_line output) (truncated output))
                | Err error => (rejected_tool_result (ReadError_display error) (output_path output),
                                ActivityReadRejected (sanitize_report_text (output_path output)))
                end))
  | Err error =>
      if ReadError_is_model_correctable error
      then mret (Ok (rejected_tool_result (ReadError_display error) (path arguments),
                     ActivityReadRejected (sanitize_report_text (path arguments))))
      else mret (Err (TurnRead error))
  end.

Definition execute_repository_inspection (tool : RepositoryReadTool) (arguments : ReadArguments)
  : Hm (result (str * ToolActivity) TurnError) :=
  let fallback := match path_filter arguments with
                  | Some p => p | None => default (L"read") (query arguments) end in
  r ← execute_inspection tool arguments;
  mret (match r with
        | Ok (text, summary) => Ok (text, ActivityReadInspection (action arguments) (sanitize_report_text summary))
        | Err error =>
            if InspectionError_is_model_correctable error
            then Ok (rejected_tool_result (InspectionError_display error) fallback,
                     ActivityReadInspectionRejected (action arguments) (sanitize_report_text fallback))
            else Err (TurnRead (into_read_error error fallback))
        end).

Definition execute_read_tool (tool : RepositoryReadTool) (arguments : ReadArguments)
  : Hm (result (str * ToolActivity) TurnError) :=
  match validation_error arguments with
  | Some error => mret (Ok (reject_invalid_read_arguments arguments error))
  | None =>
      if bool_decide (action arguments = ActionFile) then execute_file_read tool arguments
      else execute_repository_inspection tool arguments
  end.

Definition execute_write_tool (tool : RepositoryWriteTool) (arguments : WriteArguments) (call_id : str)
  : Hm (result (str * ToolActivity) TurnError) :=
  r ← execute_write tool arguments call_id;
  mret (match r with
        | Ok output => Ok (WriteOutput_json output,
                           ActivityWrite (bytes_written output) (sanitize_report_text (written_path output)))
        | Err error =>
            if is_model_correctable error
            then Ok (WriteError_to_tool_result error (write_path_ arguments),
                     ActivityWriteRejected (sanitize_report_text (write_path_ arguments)))
            else Err (TurnWrite error)
        end).

Definition is_rejected (activity : ToolActivity) : bool :=
  match activity with
  | ActivityReadInspectionRejected _ _ | ActivityReadRejected _ | ActivityWriteRejected _ => true
  | _ => false
  end.

(** The identifier of a tool operation exists only with an observed turn. *)
Definition request_tool (self : Engine) (c : ToolCall) (turn_id : option Z) : Hm (option (Z * Z)) :=
  match turn_id with
  | None => mret None
  | Some turn =>
      id ← next_id (engine_lifecycle self);
      match id with
      | None => mret None
      | Some id => _ ← emit true (ToolRequested (tool_call_id c) id (ToolCall_name c) turn); mret (Some (id, turn))
      end
  end.

Definition emit_tool (lifecycle : option (Z * Z)) (kind : Z → Z → LifecycleEventKind) : Hm unit :=
  match lifecycle with Some (id, turn) => emit true (kind id turn) | None => mret tt end.

Definition finish_tool_call (r : result (str * ToolActivity) TurnError) (lifecycle : option (Z * Z))
  : Hm (result (str * ToolActivity) TurnError) :=
  _ ← emit_tool lifecycle
        (match r with
         | Ok (_, activity) => if is_rejected activity then ToolFailed ToolExecutionType else ToolCompleted
         | Err _ => ToolFailed ToolExecutionType
         end);
  mret r.

Definition execute_tool_call (self : Engine) (c : ToolCall) (read_tool : option RepositoryReadTool)
    (write_tool : option RepositoryWriteTool) (completed_tool_calls : Z) (turn_id : option Z)
  : Hm (result (str * ToolActivity) TurnError) :=
  lifecycle ← request_tool self c turn_id;
  let execution : option (Hm (result (str * ToolActivity) TurnError)) :=
    match tool_arguments c with
    | ToolRead arguments => (λ tool, execute_read_tool tool arguments) <$> read_tool
    | ToolWrite arguments => (λ tool, execute_write_tool tool arguments (tool_call_id c)) <$> write_tool
    end in
  match execution with
  | None => _ ← emit_tool lifecycle ToolDeniedEvent; mret (Err (ToolDenied (ToolCall_name c)))
  | Some operation =>
      if (max_tool_calls self <=? completed_tool_calls)%Z then
        _ ← emit_tool lifecycle (ToolFailed ToolCallLimitType);
        mret (Err (ToolCallLimit (max_tool_calls self)))
      else
        _ ← emit_tool lifecycle ToolStarted;
        r ← operation;
        finish_tool_call r lifecycle
  end.

(** The calls of a batch, in order; the first failure ends the turn. *)
Fixpoint execute_batch (self : Engine) (calls : list ToolCall) (read_tool : option RepositoryReadTool)
    (write_tool : option RepositoryWriteTool) (completed_tool_calls : Z) (turn_id : option Z)
  : Hm (result (list str * list ToolActivity) TurnError) :=
  match calls with
  | [] => mret (Ok ([], []))
  | c :: rest =>
      let! (text, activity) := execute_tool_call self c read_tool write_tool completed_tool_calls turn_id in
      let! (texts, activities) := execute_batch self rest read_tool write_tool (completed_tool_calls + 1) turn_id in
      mret (Ok (text :: texts, activity :: activities))
  end.

(** ** The loop *)

Record LoopState := mkLoopState {
  loop_request : ModelRequest;
  completed_tool_calls : Z;
  model_request_index : Z;
  loop_model_requests : list ModelRequestActivity;
  loop_tool_calls : list ToolActivity
}.

Definition TurnResult : Type := result (TurnOutcome * list ModelMessage * option str) TurnError.

(** One round: the state of the next round, or the end of the turn. *)
Definition round (self : Engine) (read_tool : option RepositoryReadTool) (write_tool : option RepositoryWriteTool)
    (turn_id : option Z) (s : LoopState) : Hm (LoopState + TurnResult) :=
  completed ← complete_model_request self (loop_request s) (model_request_index s) turn_id;
  match completed with
  | Err error => mret (inr (Err error))
  | Ok (response, activities, session_id, native_resume_rejected, reasoning) =>
      let request := if native_resume_rejected || bool_decide (is_Some session_id)
                     then set_provider_session_id (loop_request s) session_id else loop_request s in
      let index := u64_saturating_add (model_request_index s) (Z.of_nat (length activities)) in
      let requests := loop_model_requests s ++ activities in
      match response with
      | Output output =>
          let request := record_output_with_reasoning request output reasoning in
          mret (inr (Ok (mkTurnOutcome output (mkTurnReport requests (loop_tool_calls s)), messages request,
                         provider_session_id request)))
      | ToolCallResponse c =>
          r ← execute_tool_call self c read_tool write_tool (completed_tool_calls s) turn_id;
          mret (match r with
                | Err error => inr (Err error)
                | Ok (text, activity) =>
                    inl (mkLoopState (record_tool_result request c text) (completed_tool_calls s + 1) index requests
                           (loop_tool_calls s ++ [activity]))
                end)
      | ToolCallsResponse calls =>
          if is_empty calls then mret (inr (Err (TurnModel MissingToolCall)))
          else
            match ensure_unique_tool_call_ids calls with
            | Err error => mret (inr (Err (TurnModel error)))
            | Ok _ =>
                if (Z.max 0 (max_tool_calls self - completed_tool_calls s) <? usize_len calls)%Z
                then mret (inr (Err (ToolCallLimit (max_tool_calls self))))
                else
                  r ← execute_batch self calls read_tool write_tool (completed_tool_calls s) turn_id;
                  mret (match r with
                        | Err error => inr (Err error)
                        | Ok (texts, activities) =>
                            inl (mkLoopState (record_tool_results request calls texts)
                                   (completed_tool_calls s + usize_len calls) index requests
                                   (loop_tool_calls s ++ activities))
                        end)
            end
      end
  end.

(** [None] when the rounds do not suffice. *)
Fixpoint run_loop (fuel : nat) (self : Engine) (read_tool : option RepositoryReadTool)
    (write_tool : option RepositoryWriteTool) (turn_id : option Z) (s : LoopState) : Hm (option TurnResult) :=
  match fuel with
  | 0 => mret None
  | S fuel' =>
      r ← round self read_tool write_tool turn_id s;
      match r with
      | inl s' => run_loop fuel' self read_tool write_tool turn_id s'
      | inr result => mret (Some result)
      end
  end.

Definition run (fuel : nat) (self : Engine) (request : ModelRequest) (turn_id : option Z) (journal : bool)
  : Hm (option TurnResult) :=
  match prepare_request self request journal with
  | Err error => mret (Some (Err error))
  | Ok (request, read_tool, write_tool) =>
      run_loop fuel self read_tool write_tool turn_id (mkLoopState request 0 0 [] [])
  end.
End engine.
