(* ===== verification/EngineLaws.v ===== *)
(** * Laws of the turn engine (crates/ag-harness/src/engine.rs, write.rs)

    A logic of programs that relates the result of a program to the calls it
    made, and what it shows of a turn: it ends, its tool calls are bounded and
    permitted, every replacement of a file is journaled, and the history it
    returns pairs every tool call with its result. *)
From S2P Require Import Prelude Json HarnessModel Patch ToolCalls ReadFile ReadLaws HarnessIo TurnSnapshot RepoTools Engine.

Section logic.
Context `{Hesc : JsonEscape} `{Henv : !Environment}.

(** ** A logic of programs *)

(** Every run appends calls to the trace that satisfy, with the result, [Q]. *)
Definition spec {A} (m : Hm A) (Q : list Effect → option A → Prop) : Prop :=
  ∀ w, ∃ es, trace (snd (m w)) = trace w ++ es ∧ Q es (fst (m w)).

(** The calls made lie in a language, whatever the result. *)
Definition within {A} (Lg : list Effect → Prop) (m : Hm A) : Prop := spec m (λ es _, Lg es).

(** A language that contains the empty run and is closed under sequencing. *)
Class Language (Lg : list Effect → Prop) : Prop := {
  language_nil : Lg [];
  language_app es1 es2 : Lg es1 → Lg es2 → Lg (es1 ++ es2)
}.

#[export] Instance Forall_language (P : Effect → Prop) : Language (Forall P).
Proof. split; [constructor|]. intros es1 es2 H1 H2. by apply Forall_app. Qed.

Lemma spec_weaken {A} (m : Hm A) (Q Q' : list Effect → option A → Prop) :
  (∀ es r, Q es r → Q' es r) → spec m Q → spec m Q'.
Proof. intros HW HS w. destruct (HS w) as (es & HT & HQ). eauto. Qed.

Lemma spec_and {A} (m : Hm A) (Q Q' : list Effect → option A → Prop) :
  spec m Q → spec m Q' → spec m (λ es r, Q es r ∧ Q' es r).
Proof.
  intros H1 H2 w. destruct (H1 w) as (es & HT & HQ), (H2 w) as (es' & HT' & HQ').
  rewrite HT in HT'. apply app_inv_head in HT' as <-. eauto.
Qed.

Lemma spec_ret {A} (a : A) Q : Q [] (Some a) → spec (mret a) Q.
Proof. intros HQ w. exists []. by rewrite app_nil_r. Qed.

Lemma spec_bind {A B} (m : Hm A) (f : A → Hm B) (Q1 : list Effect → option A → Prop) Q :
  spec m Q1 → (∀ es, Q1 es None → Q es None) →
  (∀ es a, Q1 es (Some a) → spec (f a) (λ es' r, Q (es ++ es') r)) → spec (m ≫= f) Q.
Proof.
  intros HM HN HF w. unfold mbind, Hm_bind. destruct (HM w) as (es & HT & HQ).
  destruct (m w) as [[a|] w']; cbn [fst snd] in *; [|eauto].
  destruct (HF es a HQ w') as (es' & HT' & HQ'). exists (es ++ es'). by rewrite HT', HT, app_assoc.
Qed.

Lemma spec_try {A B E} (m : Hm (result A E)) (f : A → Hm (result B E)) (Q1 : list Effect → option (result A E) → Prop) Q :
  spec m Q1 → (∀ es, Q1 es None → Q es None) → (∀ es e, Q1 es (Some (Err e)) → Q es (Some (Err e))) →
  (∀ es a, Q1 es (Some (Ok a)) → spec (f a) (λ es' r, Q (es ++ es') r)) → spec (try_bind m f) Q.
Proof.
  intros HM HN HE HF. eapply spec_bind; [exact HM|exact HN|]. intros es [a|e] HQ; [by apply HF|].
  apply spec_ret. rewrite app_nil_r. by apply HE.
Qed.

(** A pure step. *)
Lemma spec_try_ret {A B E} (r : result A E) (f : A → Hm (result B E)) Q :
  (∀ e, r = Err e → Q [] (Some (Err e))) → (∀ a, r = Ok a → spec (f a) Q) → spec (try_bind (mret r) f) Q.
Proof.
  intros HE HF. eapply spec_try with (Q1 := λ es x, es = [] ∧ x = Some r); [by apply spec_ret|by intros es []| |].
  - intros es e [-> [= <-]]. by apply HE.
  - intros es a [-> [= <-]]. by apply HF.
Qed.

Lemma spec_call {A} (answer : nat → A) (e : A → Effect) (Q : list Effect → option A → Prop) :
  (∀ n, Q [e (answer n)] (Some (answer n))) → spec (call answer e) Q.
Proof. intros HQ w. eexists. split; [done|]. apply HQ. Qed.

Lemma spec_silent {A} (m : Hm A) (Q : list Effect → option A → Prop) :
  (∀ w, trace (snd (m w)) = trace w) → (∀ w, Q [] (fst (m w))) → spec m Q.
Proof. intros HT HQ w. exists []. rewrite app_nil_r. by split. Qed.

Lemma spec_elim {A} (m : Hm A) Q w r w' : spec m Q → m w = (r, w') → ∃ es, trace w' = trace w ++ es ∧ Q es r.
Proof. intros HS HM. specialize (HS w). by rewrite HM in HS. Qed.

(** *** Programs that do not panic *)

Definition total {A} (m : Hm A) : Prop := ∀ w, is_Some (fst (m w)).

Lemma total_ret {A} (a : A) : total (mret a).
Proof. intros w. by eexists. Qed.

Lemma total_bind {A B} (m : Hm A) (f : A → Hm B) : total m → (∀ a, total (f a)) → total (m ≫= f).
Proof.
  intros HM HF w. unfold mbind, Hm_bind. specialize (HM w). destruct (m w) as [[a|] w']; [apply HF|].
  by apply is_Some_None in HM.
Qed.

Lemma total_try {A B E} (m : Hm (result A E)) (f : A → Hm (result B E)) :
  total m → (∀ a, total (f a)) → total (try_bind m f).
Proof. intros HM HF. apply total_bind; [done|]. intros [a|e]; [apply HF|apply total_ret]. Qed.

Lemma total_mapping_err {A E F} (f : E → F) (m : Hm (result A E)) : total m → total (mapping_err f m).
Proof. intros HM. apply total_bind; [done|]. intros a. apply total_ret. Qed.

Lemma total_some {A} (o : option A) : is_Some o → total (some_or_panic o).
Proof. intros [a ->]. apply total_ret. Qed.

Lemma total_call {A} (answer : nat → A) (e : A → Effect) : total (call answer e).
Proof. intros w. by eexists. Qed.

Lemma total_effects f : total (with_effects f).
Proof. intros w. by eexists. Qed.

Lemma total_next_id b : total (next_id b).
Proof. intros w. unfold next_id. destruct b; by eexists. Qed.

Lemma total_emit b kind : total (emit b kind).
Proof. intros w. destruct b; by eexists. Qed.

Section language.
Context (Lg : list Effect → Prop) `{HL : !Language Lg}.

Lemma within_ret {A} (a : A) : within Lg (mret a).
Proof. apply spec_ret, language_nil. Qed.

Lemma within_bind {A B} (m : Hm A) (f : A → Hm B) : within Lg m → (∀ a, within Lg (f a)) → within Lg (m ≫= f).
Proof.
  intros HM HF. eapply spec_bind; [exact HM|done|]. intros es a HE. eapply spec_weaken; [|apply HF].
  intros es' r HE'. by apply language_app.
Qed.

Lemma within_try {A B E} (m : Hm (result A E)) (f : A → Hm (result B E)) :
  within Lg m → (∀ a, within Lg (f a)) → within Lg (try_bind m f).
Proof. intros HM HF. apply within_bind; [done|]. intros [a|e]; [apply HF|apply within_ret]. Qed.

Lemma within_mapping_err {A E F} (f : E → F) (m : Hm (result A E)) : within Lg m → within Lg (mapping_err f m).
Proof. intros HM. apply within_bind; [done|]. intros a. apply within_ret. Qed.

Lemma within_some {A} (o : option A) : within Lg (some_or_panic o).
Proof. destruct o; [apply within_ret|]. apply spec_silent; [done|]. intros _. apply language_nil. Qed.

Lemma within_call {A} (answer : nat → A) (e : A → Effect) : (∀ n, Lg [e (answer n)]) → within Lg (call answer e).
Proof. intros HC. by apply spec_call. Qed.

Lemma within_effects f : within Lg (with_effects f).
Proof. apply spec_silent; [done|]. intros _. apply language_nil. Qed.

Lemma within_next_id b : within Lg (next_id b).
Proof. apply spec_silent; intros w; unfold next_id; destruct b; try done; apply language_nil. Qed.

Lemma within_emit b kind : Lg [DidEvent kind] → within Lg (emit b kind).
Proof.
  intros HC. destruct b; [|apply within_ret]. intros w. by exists [DidEvent kind].
Qed.
End language.
End logic.

(** Walks through a program along its sequencing and its case distinctions. *)
Ltac walk :=
  repeat match goal with
    | |- ∀ _, _ => intro
    | |- Language _ => typeclasses eauto
    | |- within _ (mret _) => apply within_ret
    | |- within _ (some_or_panic _) => apply within_some
    | |- within _ (with_effects _) => apply within_effects
    | |- within _ (next_id _) => apply within_next_id
    | |- within _ (mapping_err _ _) => apply within_mapping_err
    | |- within _ (try_bind _ _) => apply within_try
    | |- within _ (_ ≫= _) => apply within_bind
    | |- within _ (match ?x with _ => _ end) => destruct x
    | |- within _ (let _ := _ in _) => cbv zeta
    end.

Ltac walk_total :=
  repeat match goal with
    | |- ∀ _, _ => intro
    | |- total (mret _) => apply total_ret
    | |- total (with_effects _) => apply total_effects
    | |- total (next_id _) => apply total_next_id
    | |- total (emit _ _) => apply total_emit
    | |- total (canonicalize _) => apply total_call
    | |- total (open_beneath _ _) => apply total_call
    | |- total (run_git _ _ _) => apply total_call
    | |- total (journal_intent _ _ _ _ _) => apply total_call
    | |- total (replace_beneath _ _ _ _) => apply total_call
    | |- total (journal_finish _ _) => apply total_call
    | |- total (complete _) => apply total_call
    | |- total (some_or_panic _) => apply total_some
    | |- total (mapping_err _ _) => apply total_mapping_err
    | |- total (try_bind _ _) => apply total_try
    | |- total (_ ≫= _) => apply total_bind
    | |- total (match ?x with _ => _ end) => destruct x
    | |- total (let _ := _ in _) => cbv zeta
    end.

Section tools.
Context `{Hesc : JsonEscape} `{Henv : !Environment}.

(** ** The read tool *)

Section reads.
Context (Lg : list Effect → Prop) `{HLg : !Language Lg}.
Context (Hcanonicalize : ∀ p a, Lg [DidCanonicalize p a]) (Hrun : ∀ large root a, Lg [DidRun large root a]).

Lemma canonicalize_within p : within Lg (canonicalize p).
Proof. apply within_call. intros n. apply Hcanonicalize. Qed.

Lemma run_git_within large root a : within Lg (run_git large root a).
Proof. apply within_call. intros n. apply Hrun. Qed.

Lemma run_command_at_within large root a codes : within Lg (run_command_at large root a codes).
Proof. unfold run_command_at. walk. apply run_git_within. Qed.

Lemma tool_repository_root_within tool : within Lg (tool_repository_root tool).
Proof. unfold tool_repository_root. walk. apply canonicalize_within. Qed.

Lemma untracked_diffs_within root paths text : within Lg (untracked_diffs root paths text).
Proof.
  revert text. induction paths as [|p paths IH]; intros text; cbn [untracked_diffs]; walk; [apply run_command_at_within|].
  apply IH.
Qed.

Lemma execute_file_within tool a path : (∀ root x, Lg [DidOpen root path x]) → within Lg (execute_file tool a path).
Proof.
  intros HO. unfold execute_file. walk; [apply canonicalize_within..|].
  apply within_call. intros n. apply HO.
Qed.

Lemma execute_inspection_within tool a :
  (action a = ActionFile → ∀ root x, Lg [DidOpen root (path a) x]) → within Lg (execute_inspection tool a).
Proof.
  intros HO. unfold execute_inspection, list_, search, diff, show, run_command, repository_prefix.
  destruct (action a) eqn:EA; [|specialize (HO eq_refl)|..];
  walk; first [ apply run_command_at_within | apply tool_repository_root_within | apply untracked_diffs_within
              | by apply execute_file_within ].
Qed.
End reads.

(** The read tool never cuts a text inside a character. *)
Lemma untracked_diffs_total root paths text : total (untracked_diffs root paths text).
Proof.
  revert text. induction paths as [|p paths IH]; intros text; cbn [untracked_diffs]; unfold run_command_at; walk_total.
  apply IH.
Qed.

Lemma execute_file_total tool a path : total (execute_file tool a path).
Proof. unfold execute_file. walk_total. Qed.

Lemma execute_inspection_total tool a : total (execute_inspection tool a).
Proof.
  unfold execute_inspection, list_, search, diff, show, run_command, repository_prefix, run_command_at, tool_repository_root.
  walk_total; match goal with
    | |- is_Some (bounded_items_result _ _ _) => apply bounded_items_total
    | |- is_Some (bounded_text_result _ _ _ _) => apply bounded_text_total
    | |- is_Some (ReadOutput_to_tool_result _) => apply to_tool_result_total
    | |- total (untracked_diffs _ _ _) => apply untracked_diffs_total
    | |- total (execute_file _ _ _) => apply execute_file_total
    end.
Qed.

(** ** The write tool *)

(** The content of a file as the write tool sees it through an opened stream. *)
Definition observed (answer : result Stream IoError) (current : option (list N)) : Prop :=
  match answer, current with
  | Err error, None => io_kind error = IoNotFound
  | Ok file, Some bytes => stream_bytes file = bytes ∧ stream_failure file = None
  | _, _ => False
  end.

(** What a replacement of a file consists of: the file is read, the patch is
    applied to what was read, the intent is journaled, the file is replaced if
    it still has the content that was read, and the outcome is journaled. *)
Inductive ReplaceRun (journal : bool) (call_id path patch : str) : list Effect → Prop :=
| run_refused root answer current resulting e :
    journal = true → observed answer current → apply_unified_diff path current patch = Ok resulting →
    ReplaceRun journal call_id path patch
      [DidOpen root path answer; DidIntent call_id root path current resulting (Err e)]
| run_crashed root answer current resulting id :
    journal = true → observed answer current → apply_unified_diff path current patch = Ok resulting →
    ReplaceRun journal call_id path patch
      [DidOpen root path answer; DidIntent call_id root path current resulting (Ok id);
       DidReplace root path current resulting None]
| run_settled root answer current resulting id outcome recorded :
    journal = true → observed answer current → apply_unified_diff path current patch = Ok resulting →
    ReplaceRun journal call_id path patch
      [DidOpen root path answer; DidIntent call_id root path current resulting (Ok id);
       DidReplace root path current resulting (Some outcome);
       DidFinish id (match outcome with Ok _ => true | Err _ => false end) recorded]
| run_plain root answer current resulting outcome :
    journal = false → observed answer current → apply_unified_diff path current patch = Ok resulting →
    ReplaceRun journal call_id path patch
      [DidOpen root path answer; DidReplace root path current resulting outcome].

(** The calls a write makes when it replaces nothing. *)
Definition write_probe (path : str) (e : Effect) : Prop :=
  match e with DidCanonicalize _ _ => True | DidOpen _ p _ => p = path | _ => False end.

Definition replaces_once (journal : bool) (call_id path patch : str) (es : list Effect) : Prop :=
  ∃ pre run, es = pre ++ run ∧ Forall (write_probe path) pre ∧
    (run = [] ∨ ReplaceRun journal call_id path patch run).

Lemma read_current_spec root path :
  spec (read_current root path) (λ es r, ∃ answer, es = [DidOpen root path answer] ∧ r ≠ None ∧
    ∀ current, r = Some (Ok current) → observed answer current).
Proof.
  unfold read_current. eapply spec_bind with (Q1 := λ es r, ∃ answer, es = [DidOpen root path answer] ∧ r = Some answer).
  - apply spec_call. eauto.
  - by intros es (answer & -> & ?).
  - intros es a (answer & -> & [= <-]). destruct a as [file|error]; apply spec_ret; eexists; (split; [done|split; [done|]]).
    + intros current. cbv zeta. destruct (stream_failure _) as [source|] eqn:EF; [discriminate|].
      destruct (Z.ltb_spec MAX_FILE_BYTES (usize_len (stream_bytes (stream_take (MAX_FILE_BYTES + 1) file)))) as [|HL]; [discriminate|].
      intros [= <-]. cbn [observed]. revert EF HL. unfold stream_take, usize_len. destruct (Z.ltb_spec (Z.of_nat (length (stream_bytes file))) (MAX_FILE_BYTES + 1)); cbn [stream_bytes stream_failure]; [done|].
      rewrite length_take. assert (0 < MAX_FILE_BYTES)%Z by (vm_compute; done). lia.
    + intros current. destruct (io_kind error) eqn:EK; intros [= <-]. exact EK.
Qed.

(** The worker's calls after the intent. *)
Definition worker_run (intent : option Z) (root path : str) (current : option (list N)) (resulting : list N)
    (es : list Effect) : Prop :=
  match intent with
  | None => ∃ outcome, es = [DidReplace root path current resulting outcome]
  | Some id =>
      es = [DidReplace root path current resulting None] ∨
      ∃ outcome recorded, es = [DidReplace root path current resulting (Some outcome);
                                DidFinish id (match outcome with Ok _ => true | Err _ => false end) recorded]
  end.

Lemma with_effects_silent f : spec (with_effects f) (λ es r, es = [] ∧ r = Some tt).
Proof. by apply spec_silent. Qed.

(** A silent step leaves the claim about the rest. *)
Lemma spec_effects {B} f (k : unit → Hm B) Q : spec (k tt) Q → spec (with_effects f ≫= k) Q.
Proof.
  intros HK. eapply spec_bind; [apply with_effects_silent|by intros es []|]. intros es a [-> [= ->]]. exact HK.
Qed.

Lemma write_worker_spec intent root path current resulting bytes :
  spec (write_worker intent root path current resulting bytes) (λ es r, worker_run intent root path current resulting es).
Proof.
  unfold write_worker. cbv zeta.
  eapply spec_bind with (Q1 := λ es r, ∃ outcome, es = [DidReplace root path current resulting outcome] ∧ r = Some outcome).
  { apply spec_call. eauto. }
  { by intros es (? & _ & ?). }
  intros es a (outcome & -> & [= <-]). destruct a as [replacement|].
  2: { apply spec_effects, spec_ret. destruct intent; cbn [worker_run]; eauto. }
  eapply spec_bind with (Q1 := λ es r, match intent with
      | Some id => ∃ x, es = [DidFinish id (match replacement with Ok _ => true | Err _ => false end) x] ∧ r = Some (Some x)
      | None => es = [] ∧ r = Some None end).
  { destruct intent as [id|]; [|by apply spec_ret].
    eapply spec_bind with (Q1 := λ es r, ∃ x, es = [DidFinish id (match replacement with Ok _ => true | Err _ => false end) x] ∧ r = Some x).
    - apply spec_call. eauto.
    - by intros es (? & _ & ?).
    - intros es a (x & -> & [= <-]). apply spec_ret. eauto. }
  { intros es. destruct intent; [by intros (? & _ & ?)|by intros []]. }
  intros es a HE. assert (worker_run intent root path current resulting
    ([DidReplace root path current resulting (Some replacement)] ++ es)) as HW.
  { destruct intent as [id|]; cbn [worker_run]; [destruct HE as (x & -> & _); right; eauto|].
    destruct HE as [-> _]. eauto. }
  destruct a as [[[|]|]|]; repeat apply spec_effects; apply spec_ret; by rewrite app_nil_r.
Qed.

Lemma probe_only journal call_id path patch es :
  Forall (write_probe path) es → replaces_once journal call_id path patch es.
Proof. intros HF. exists es, []. rewrite app_nil_r. auto. Qed.

Lemma execute_write_spec tool a call_id :
  spec (execute_write tool a call_id)
    (λ es r, replaces_once (journaled tool) call_id (write_path_ a) (write_patch a) es).
Proof.
  unfold execute_write. cbv zeta. set (path := write_path_ a).
  eapply spec_try with (Q1 := λ es r, Forall (write_probe path) es).
  { apply (within_mapping_err (Forall (write_probe path))), within_call. intros n. by repeat constructor. }
  1,2: intros; by apply probe_only.
  intros pre root HP. eapply spec_try; [apply read_current_spec|by intros es (? & _ & ? & _)| |].
  { intros es e (answer & -> & _ & _). apply probe_only, Forall_app. split; [done|]. by repeat constructor. }
  intros es current (answer & -> & _ & HO). specialize (HO current eq_refl).
  assert (replaces_once (journaled tool) call_id path (write_patch a) (pre ++ [DidOpen root path answer])) as HD.
  { apply probe_only, Forall_app. split; [done|]. by repeat constructor. }
  apply spec_try_ret; [intros e _; by rewrite app_nil_r|]. intros resulting HR.
  destruct (Z.ltb_spec MAX_FILE_BYTES (usize_len resulting)); [apply spec_ret; by rewrite app_nil_r|].
  case_bool_decide; [apply spec_ret; by rewrite app_nil_r|].
  eapply spec_try with (Q1 := λ es r, match r with
    | Some (Ok None) => journaled tool = false ∧ es = []
    | Some (Ok (Some id)) => journaled tool = true ∧ es = [DidIntent call_id root path current resulting (Ok id)]
    | Some (Err _) => journaled tool = true ∧ ∃ e, es = [DidIntent call_id root path current resulting (Err e)]
    | None => False end).
  - destruct (journaled tool); [|by apply spec_ret]. unfold mapping_err.
    eapply spec_bind with (Q1 := λ es r, match r with
      | Some (Ok (Some id)) => es = [DidIntent call_id root path current resulting (Ok id)]
      | Some (Err e) => es = [DidIntent call_id root path current resulting (Err e)]
      | _ => False end).
    + eapply spec_try with (Q1 := λ es r, ∃ x, es = [DidIntent call_id root path current resulting x] ∧ r = Some x).
      * apply spec_call. eauto.
      * by intros es (? & _ & ?).
      * by intros es e (x & -> & [= <-]).
      * intros es id (x & -> & [= <-]). by apply spec_ret.
    + done.
    + intros es [[id|]|e] HE; [|done|]; subst es; apply spec_ret; cbn; eauto.
  - done.
  - intros es e [HJ [e' ->]]. exists pre, [DidOpen root path answer; DidIntent call_id root path current resulting (Err e')].
    split; [by rewrite <- ?app_assoc|]. split; [done|]. right. by apply run_refused.
  - intros es intent HI. apply spec_effects. eapply spec_weaken; [|apply write_worker_spec].
    intros run r HW. exists pre, ([DidOpen root path answer] ++ es ++ run). split; [by rewrite <- ?app_assoc|].
    split; [done|]. right. destruct intent as [id|]; cbn [worker_run] in HW; destruct HI as [HJ ->].
    + destruct HW as [->|(outcome & recorded & ->)]; [by apply run_crashed|by apply run_settled].
    + destruct HW as [outcome ->]. by apply run_plain.
Qed.

Lemma execute_write_total tool a call_id : total (execute_write tool a call_id).
Proof. unfold execute_write, write_worker, read_current. walk_total. Qed.

(** ** Languages of writes *)

Section writes.
Context (Lg : list Effect → Prop) `{HLg : !Language Lg}.

Lemma execute_write_within tool a call_id :
  (∀ p x, Lg [DidCanonicalize p x]) → (∀ root x, Lg [DidOpen root (write_path_ a) x]) →
  (∀ es, ReplaceRun (journaled tool) call_id (write_path_ a) (write_patch a) es → Lg es) →
  within Lg (execute_write tool a call_id).
Proof.
  intros HC HO HR. eapply spec_weaken; [|apply execute_write_spec]. intros es r (pre & run & -> & HP & HX).
  apply language_app; [|destruct HX as [->|HX]; [apply language_nil|by apply HR]].
  induction HP as [|e pre HE HP IH]; [apply language_nil|]. apply (language_app [e]); [|done].
  destruct e; try done. rewrite HE. apply HO.
Qed.
End writes.
End tools.

Section turns.
Context `{Hesc : JsonEscape} `{Henv : !Environment} `{Htext : ModelErrorText} `{Hval : SchemaValidator} `{Hvt : ValueText}.

(** ** Answers of the model *)

(** The answer came from the model and an output satisfies the schema. *)
Definition answered (request : ModelRequest) (answer : ModelResponse) : Prop :=
  (∃ n request' completion, env_complete n request' = Ok completion ∧ response completion = answer) ∧
  ∀ output, answer = Output output → validate_value (schema request) output = Ok tt.

Section asking.
Context (Lg : list Effect → Prop) `{HLg : !Language Lg}.
Context (Hevent : ∀ k, Lg [DidEvent k]) (Hcomplete : ∀ n request, Lg [DidComplete request (env_complete n request)]).

Lemma emit_within b k : within Lg (emit b k).
Proof. by apply within_emit. Qed.

Lemma attempt_spec self request index turn_id :
  spec (complete_model_attempt self request index turn_id)
    (λ es r, Lg es ∧ ∀ answer activity session_id reasoning, r = Some (Ok (answer, activity, session_id, reasoning)) →
       answered request answer).
Proof.
  unfold complete_model_attempt.
  eapply spec_bind with (Q1 := λ es _, Lg es); [apply (within_next_id Lg)|done|]. intros es1 id H1.
  eapply spec_bind with (Q1 := λ es _, Lg es); [destruct id; [apply emit_within|apply (within_ret Lg)]| |].
  { intros es H2. split; [by apply language_app|done]. }
  intros es2 _ H2. cbv zeta.
  eapply spec_bind with (Q1 := λ es r, Lg es ∧ ∃ n, r = Some (env_complete n request)).
  { apply spec_call. eauto. }
  { by intros es [_ [n ?]]. }
  intros es3 completion (H3 & n & [= EC]).
  assert (∀ error : ModelError, spec
    (_ ← match id with
         | Some id => emit true (ModelRequestFailed (error_type error) (http_status error) id turn_id)
         | None => mret tt end;
     mret (Err error : result (ModelResponse * ModelRequestActivity * option str * option str) ModelError))
    (λ es r, Lg (es1 ++ es2 ++ es3 ++ es) ∧ ∀ answer activity session_id reasoning,
       r = Some (Ok (answer, activity, session_id, reasoning)) → answered request answer)) as HF.
  { intros error. eapply spec_bind with (Q1 := λ es _, Lg es); [destruct id; [apply emit_within|apply (within_ret Lg)]| |].
    - intros es HE. split; [|done]. by repeat apply language_app.
    - intros es _ HE. apply spec_ret. split; [|done]. rewrite app_nil_r. by repeat apply language_app. }
  destruct completion as [completion|error]; [|apply HF].
  destruct (match response_output (response completion) with Some _ => _ | None => _ end) as [[]|error] eqn:EV; [|apply HF].
  eapply spec_bind with (Q1 := λ es _, Lg es); [destruct id; [apply emit_within|apply (within_ret Lg)]| |].
  { intros es HE. split; [|done]. by repeat apply language_app. }
  intros es _ HE. apply spec_ret. split; [rewrite app_nil_r; by repeat apply language_app|].
  intros answer activity session_id reasoning [= <- _ _ _]. split; [by eauto|]. intros output EO. by rewrite EO in EV.
Qed.

Lemma model_request_spec self request index turn_id :
  spec (complete_model_request self request index turn_id)
    (λ es r, Lg es ∧ ∀ answer activities session_id rejected reasoning,
       r = Some (Ok (answer, activities, session_id, rejected, reasoning)) → answered request answer).
Proof.
  unfold complete_model_request. cbv zeta.
  eapply spec_bind; [apply attempt_spec|by intros es []|].
  intros es [[[[answer activity] session_id] reasoning]|error] [HL HA].
  { apply spec_ret. rewrite app_nil_r. split; [done|]. intros ? ? ? ? ? [= <- _ _ _ _]. by eapply HA. }
  assert (∀ error : TurnError, spec (mret (Err error :
      result (ModelResponse * list ModelRequestActivity * option str * bool * option str) TurnError))
    (λ es' r, Lg (es ++ es') ∧
    ∀ answer activities session_id rejected reasoning,
       r = Some (Ok (answer, activities, session_id, rejected, reasoning)) → answered request answer)) as HF.
  { intros e. apply spec_ret. by rewrite app_nil_r. }
  destruct error; try (case_bool_decide; apply HF). case_bool_decide; [|apply HF].
  eapply spec_bind; [apply attempt_spec| |].
  { intros es' [HL' _]. split; [by apply language_app|done]. }
  intros es' [[[[answer activity] session_id] reasoning]|error] [HL' HA'].
  - apply spec_ret. rewrite app_nil_r. split; [by apply language_app|]. intros ? ? ? ? ? [= <- _ _ _ _].
    by eapply HA'.
  - apply spec_ret. rewrite app_nil_r. split; [by apply language_app|done].
Qed.
End asking.

(** ** Tool calls *)

Section calls.
Context (Lg : list Effect → Prop) `{HLg : !Language Lg} (Hevent : ∀ k, Lg [DidEvent k]).

Lemma emit_tool_within lifecycle kind : within Lg (emit_tool lifecycle kind).
Proof. unfold emit_tool. walk. by apply emit_within. Qed.

Lemma request_tool_within self c turn_id : within Lg (request_tool self c turn_id).
Proof. unfold request_tool. walk. by apply emit_within. Qed.

(** What a permitted call does. *)
Definition operation_within (c : ToolCall) (read_tool : option RepositoryReadTool)
    (write_tool : option RepositoryWriteTool) : Prop :=
  match tool_arguments c with
  | ToolRead a => ∀ tool, read_tool = Some tool → within Lg (execute_read_tool tool a)
  | ToolWrite a => ∀ tool, write_tool = Some tool → within Lg (execute_write tool a (tool_call_id c))
  end.

Lemma execute_write_tool_within tool a call_id :
  within Lg (execute_write tool a call_id) → within Lg (execute_write_tool tool a call_id).
Proof. intros HW. unfold execute_write_tool. by walk. Qed.

Lemma execute_tool_call_within self c read_tool write_tool n turn_id :
  operation_within c read_tool write_tool →
  within Lg (execute_tool_call self c read_tool write_tool n turn_id).
Proof.
  intros HO. unfold execute_tool_call, finish_tool_call. apply within_bind; [done|apply request_tool_within|]. intros lifecycle.
  cbv zeta. assert (∀ operation, match tool_arguments c with
      | ToolRead a => (λ tool, execute_read_tool tool a) <$> read_tool
      | ToolWrite a => (λ tool, execute_write_tool tool a (tool_call_id c)) <$> write_tool
      end = Some operation → within Lg operation) as HX.
  { intros operation. unfold operation_within in HO. destruct (tool_arguments c) as [a|a];
      intros (tool & ET & ->)%fmap_Some; specialize (HO tool ET); [done|by apply execute_write_tool_within]. }
  destruct (match tool_arguments c with ToolRead _ => _ | ToolWrite _ => _ end) as [operation|] eqn:EO;
    [specialize (HX _ eq_refl)|]; walk; try done; apply emit_tool_within.
Qed.

Lemma execute_read_tool_within tool a :
  (∀ p x, Lg [DidCanonicalize p x]) → (∀ large root x, Lg [DidRun large root x]) →
  (validation_error a = None → action a = ActionFile → ∀ root x, Lg [DidOpen root (path a) x]) →
  within Lg (execute_read_tool tool a).
Proof.
  intros HC HR HO. unfold execute_read_tool, execute_file_read, execute_repository_inspection.
  destruct (validation_error a) as [e|]; [walk|]. specialize (HO eq_refl).
  case_bool_decide as HB; walk; [apply execute_file_within; [done..|by apply HO]|by apply execute_inspection_within].
Qed.
End calls.

(** ** Rounds *)

Section rounds.
Context (self : Engine) (Lg : list Effect → Prop) `{HLg : !Language Lg} (call_ok : ToolCall → Prop).
Context (Hevent : ∀ k, Lg [DidEvent k]) (Hcomplete : ∀ n request, Lg [DidComplete request (env_complete n request)]).
Context (Hanswers : ∀ n request completion, env_complete n request = Ok completion →
                      Forall call_ok (response_calls (response completion))).
Context (read_tool : option RepositoryReadTool) (write_tool : option RepositoryWriteTool).
Context (Hcall : ∀ c, call_ok c → operation_within Lg c read_tool write_tool).

Lemma execute_batch_within calls n turn_id :
  Forall call_ok calls → within Lg (execute_batch self calls read_tool write_tool n turn_id).
Proof.
  intros HF. revert n. induction HF as [|c calls HC HF IH]; intros n; cbn [execute_batch]; walk.
  - apply execute_tool_call_within; auto.
  - apply IH.
Qed.

Lemma round_within turn_id s : within Lg (round self read_tool write_tool turn_id s).
Proof.
  unfold round. eapply spec_bind; [by apply (model_request_spec Lg)|by intros es []|].
  intros es completed [HE HA].
  assert (∀ m : Hm (LoopState + TurnResult), within Lg m → spec m (λ es' _, Lg (es ++ es'))) as HX.
  { intros m HM. eapply spec_weaken; [|exact HM]. intros es' r HE'. by apply language_app. }
  destruct completed as [[[[[answer activities] session_id] rejected] reasoning]|error]; [|apply HX; walk].
  destruct (HA _ _ _ _ _ eq_refl) as [(n & request' & completion & EC & <-) _]. apply Hanswers in EC. apply HX. clear HX HA.
  cbv zeta. destruct (response completion) as [output|c|calls] eqn:ER; cbn [response_calls] in EC; walk.
  - apply execute_tool_call_within; [done|done|]. apply Hcall. by inversion EC.
  - by apply execute_batch_within.
Qed.

Lemma run_loop_within fuel turn_id s : within Lg (run_loop fuel self read_tool write_tool turn_id s).
Proof.
  revert s. induction fuel as [|fuel IH]; intros s; cbn [run_loop]; walk; [apply round_within|apply IH].
Qed.
End rounds.

(** ** Counting replacements *)

Definition is_replacement (e : Effect) : bool := match e with DidReplace _ _ _ _ _ => true | _ => false end.
Definition replacements (es : list Effect) : Z := usize_len (List.filter is_replacement es).
Definition quiet (e : Effect) : Prop := is_replacement e = false.

Lemma replacements_app es es' : replacements (es ++ es') = (replacements es + replacements es')%Z.
Proof. unfold replacements, usize_len. rewrite List.filter_app, length_app. lia. Qed.

Lemma replacements_quiet es : Forall quiet es → replacements es = 0%Z.
Proof. induction 1 as [|e es HE _ IH]; [done|]. unfold replacements in *. cbn. by rewrite HE. Qed.

Lemma replacements_nonneg es : (0 <= replacements es)%Z.
Proof. apply usize_len_nonneg. Qed.

Lemma replaces_once_count journal call_id path patch es :
  replaces_once journal call_id path patch es → (replacements es <= 1)%Z.
Proof.
  intros (pre & run & -> & HP & HR). rewrite replacements_app, replacements_quiet.
  - destruct HR as [->|HR]; [vm_compute; discriminate|]. destruct HR; vm_compute; discriminate.
  - eapply Forall_impl; [exact HP|]. by intros [] HE.
Qed.

Lemma execute_read_tool_quiet tool a : within (Forall quiet) (execute_read_tool tool a).
Proof. apply execute_read_tool_within; [apply _|intros; by repeat constructor..]. Qed.

Lemma tool_call_count self c read_tool write_tool n turn_id :
  spec (execute_tool_call self c read_tool write_tool n turn_id)
    (λ es r, (replacements es <= Z.max 0 (Z.min 1 (max_tool_calls self - n)))%Z ∧
       ∀ x, r = Some (Ok x) → (n < max_tool_calls self)%Z).
Proof.
  unfold execute_tool_call.
  eapply spec_bind with (Q1 := λ es _, Forall quiet es); [apply (request_tool_within (Forall quiet)); by repeat constructor| |].
  { intros es HE. rewrite replacements_quiet by done. split; [lia|done]. }
  intros es1 lifecycle H1. cbv zeta.
  assert (∀ kind, within (Forall quiet) (emit_tool lifecycle kind)) as HEmit.
  { intros kind. apply emit_tool_within; [apply _|]. by repeat constructor. }
  set (operation := match tool_arguments c with ToolRead _ => _ | ToolWrite _ => _ end).
  assert (∀ m, operation = Some m → spec m (λ es _, replacements es <= 1)%Z) as HO.
  { intros m. subst operation. destruct (tool_arguments c) as [a|a]; intros (tool & _ & ->)%fmap_Some.
    - eapply spec_weaken; [|apply execute_read_tool_quiet]. intros es r HE. cbn beta. rewrite replacements_quiet; [lia|done].
    - unfold execute_write_tool. eapply spec_bind; [apply execute_write_spec|intros es; apply replaces_once_count|].
      intros es r HE. apply spec_ret. rewrite app_nil_r. exact (replaces_once_count _ _ _ _ _ HE). }
  assert (∀ kind (e : TurnError), spec (_ ← emit_tool lifecycle kind; mret (Err e : result (str * ToolActivity) TurnError))
    (λ es r, (replacements (es1 ++ es) <= Z.max 0 (Z.min 1 (max_tool_calls self - n)))%Z ∧
       ∀ x, r = Some (Ok x) → (n < max_tool_calls self)%Z)) as HErr.
  { intros kind e. eapply spec_bind; [apply HEmit| |].
    - intros es HE. rewrite replacements_quiet by by apply Forall_app. split; [lia|done].
    - intros es u HE. apply spec_ret. rewrite app_nil_r, replacements_quiet by by apply Forall_app. split; [lia|done]. }
  clearbody operation. destruct operation as [m|]; [|apply HErr]. destruct (Z.leb_spec (max_tool_calls self) n) as [|HN]; [apply HErr|].
  eapply spec_bind; [apply HEmit| |].
  { intros es HE. rewrite replacements_quiet by by apply Forall_app. split; [lia|done]. }
  intros es2 u H2. eapply spec_bind; [apply (HO m eq_refl)| |].
  { intros es HE. cbn beta in HE. rewrite app_assoc, replacements_app, (replacements_quiet (es1 ++ es2)) by by apply Forall_app. split; [lia|done]. }
  intros es3 r H3. cbn beta in H3. unfold finish_tool_call. eapply spec_bind; [apply HEmit| |].
  - intros es HE. rewrite !replacements_app, (replacements_quiet es1), (replacements_quiet es2), (replacements_quiet es) by done. split; [lia|done].
  - intros es u2 HE. apply spec_ret. rewrite app_nil_r, !replacements_app, (replacements_quiet es1), (replacements_quiet es2), (replacements_quiet es) by done.
    split; [lia|done].
Qed.

Lemma batch_spec self calls read_tool write_tool n turn_id :
  (n + usize_len calls <= max_tool_calls self)%Z →
  spec (execute_batch self calls read_tool write_tool n turn_id)
    (λ es r, (replacements es <= usize_len calls)%Z ∧
       ∀ texts activities, r = Some (Ok (texts, activities)) →
         length texts = length calls ∧ length activities = length calls).
Proof.
  revert n. induction calls as [|c calls IH]; intros n HN; cbn [execute_batch].
  { apply spec_ret. split; [vm_compute; discriminate|]. by intros texts activities [= <- <-]. }
  rewrite usize_len_cons in HN |- *. pose proof (usize_len_nonneg calls).
  eapply spec_try; [apply tool_call_count|intros es [HE _]; split; [lia|done]|intros es e [HE _]; split; [lia|done]|].
  intros es1 [text activity] [H1 _]. eapply spec_try;
    [apply IH; lia|intros es [HE _]|intros es e [HE _]|]; [rewrite replacements_app; split; [lia|done]..|].
  intros es2 [texts activities] [H2 HA]. apply spec_ret. rewrite app_nil_r, replacements_app. split; [lia|].
  intros ? ? [= <- <-]. destruct (HA texts activities eq_refl) as [HT HL]. cbn. auto.
Qed.

(** ** What a round adds *)

(** Calls and their results, as they stand in the history. *)
Inductive exchange : list ToolCall → list ModelMessage → Prop :=
| exchange_single c text : exchange [c] [AssistantToolCall c; result_message c text]
| exchange_batch calls texts :
    calls ≠ [] → NoDup (tool_call_id <$> calls) → length texts = length calls →
    exchange calls (AssistantToolCalls calls :: zip_with result_message calls texts).

Inductive exchanges : list ToolCall → list ModelMessage → Prop :=
| exchanges_nil : exchanges [] []
| exchanges_cons calls block calls' block' :
    exchange calls block → exchanges calls' block' → exchanges (calls ++ calls') (block ++ block').

Definition final_message (output : Value) (reasoning : option str) : ModelMessage :=
  match reasoning with
  | Some reasoning => AssistantReasoning (value_text output) reasoning
  | None => Assistant (value_text output)
  end.

Definition round_continues (self : Engine) (s s' : LoopState) : Prop :=
  ∃ calls block, exchange calls block ∧
    messages (loop_request s') = messages (loop_request s) ++ block ∧
    schema (loop_request s') = schema (loop_request s) ∧
    completed_tool_calls s' = (completed_tool_calls s + usize_len calls)%Z ∧
    usize_len (loop_tool_calls s') = (usize_len (loop_tool_calls s) + usize_len calls)%Z ∧
    (0 < usize_len calls)%Z ∧ (completed_tool_calls s' <= max_tool_calls self)%Z.

Definition round_ends (s : LoopState) (outcome : TurnOutcome) (history : list ModelMessage) : Prop :=
  validate_value (schema (loop_request s)) (outcome_output outcome) = Ok tt ∧
  report_tool_calls (report outcome) = loop_tool_calls s ∧
  ∃ reasoning, history = messages (loop_request s) ++ [final_message (outcome_output outcome) reasoning].

Lemma max_tool_calls_pos self : (0 < max_tool_calls self)%Z.
Proof. unfold max_tool_calls. lia. Qed.

Lemma asked_quiet self request index turn_id :
  spec (complete_model_request self request index turn_id)
    (λ es r, Forall quiet es ∧ ∀ answer activities session_id rejected reasoning,
       r = Some (Ok (answer, activities, session_id, rejected, reasoning)) → answered request answer).
Proof. apply model_request_spec; [apply _|by repeat constructor..]. Qed.

Lemma round_spec self read_tool write_tool turn_id s :
  spec (round self read_tool write_tool turn_id s)
    (λ es r, (replacements es <= Z.max 0 (max_tool_calls self - completed_tool_calls s))%Z ∧
       (∀ s', r = Some (inl s') →
          round_continues self s s' ∧ (replacements es <= completed_tool_calls s' - completed_tool_calls s)%Z) ∧
       (∀ outcome history session_id, r = Some (inr (Ok (outcome, history, session_id))) → round_ends s outcome history)).
Proof.
  unfold round. eapply spec_bind; [apply asked_quiet| |].
  { intros es [HE _]. rewrite replacements_quiet by done. split_and!; [lia|done|done]. }
  intros es completed [HE HA].
  assert (∀ error : TurnError, spec (mret (inr (Err error) : LoopState + TurnResult)) (λ es' r,
    (replacements (es ++ es') <= Z.max 0 (max_tool_calls self - completed_tool_calls s))%Z ∧
       (∀ s', r = Some (inl s') →
          round_continues self s s' ∧ (replacements (es ++ es') <= completed_tool_calls s' - completed_tool_calls s)%Z) ∧
       (∀ outcome history session_id, r = Some (inr (Ok (outcome, history, session_id))) → round_ends s outcome history))) as HF.
  { intros error. apply spec_ret. rewrite app_nil_r, replacements_quiet by done. split_and!; [lia|done|done]. }
  destruct completed as [[[[[answer activities] session_id] rejected] reasoning]|error]; [|apply HF].
  destruct (HA _ _ _ _ _ eq_refl) as [_ HV]. clear HA. cbv zeta.
  set (request := if rejected || _ then _ else _).
  assert (messages request = messages (loop_request s) ∧ schema request = schema (loop_request s)) as [HM HS].
  { subst request. by destruct (rejected || _). }
  clearbody request. destruct answer as [output|c|calls].
  - apply spec_ret. rewrite app_nil_r, replacements_quiet by done. split_and!; [lia|done|].
    intros ? ? ? [= <- <- _]. split_and!; [by apply HV|done|]. exists reasoning. cbn. by rewrite HM.
  - eapply spec_bind; [apply tool_call_count| |].
    { intros es' [HC _]. rewrite replacements_app, replacements_quiet by done. split_and!; [lia|done|done]. }
    intros es' r [HC HN]. apply spec_ret. rewrite app_nil_r, replacements_app, (replacements_quiet es) by done.
    destruct r as [[text activity]|error]; split_and!; try lia; try done.
    intros s' [= <-]. specialize (HN _ eq_refl). split; [|cbn [completed_tool_calls]; lia].
    exists [c], [AssistantToolCall c; result_message c text].
    cbn [loop_request messages schema record_tool_result set_messages completed_tool_calls loop_tool_calls].
    split_and!; [constructor|by rewrite HM|done|done|by rewrite usize_len_app|done|]. change (usize_len [c]) with 1%Z. lia.
  - destruct (is_empty calls) eqn:EE; [apply HF|].
    destruct (ensure_unique_tool_call_ids calls) as [[]|error] eqn:EU; [|apply HF]. apply ensure_unique_Ok in EU.
    destruct (Z.ltb_spec (Z.max 0 (max_tool_calls self - completed_tool_calls s)) (usize_len calls)) as [|HL]; [apply HF|].
    assert (calls ≠ []) as HNE by by intros ->. pose proof (usize_len_pos calls HNE) as HP.
    eapply spec_bind; [apply batch_spec; lia| |].
    { intros es' [HC _]. rewrite replacements_app, replacements_quiet by done. split_and!; [lia|done|done]. }
    intros es' r [HC HN]. apply spec_ret. rewrite app_nil_r, replacements_app, (replacements_quiet es) by done.
    destruct r as [[texts acts]|error]; split_and!; try lia; try done.
    intros s' [= <-]. destruct (HN _ _ eq_refl) as [HT HA]. split; [|cbn [completed_tool_calls]; lia].
    exists calls, (AssistantToolCalls calls :: zip_with result_message calls texts).
    cbn [loop_request messages schema record_tool_results set_messages completed_tool_calls loop_tool_calls].
    split_and!; [by constructor|by rewrite HM|done|done| |done|lia]. rewrite usize_len_app. unfold usize_len. lia.
Qed.

(** ** The turn ends *)

Lemma execute_tool_call_total self c read_tool write_tool n turn_id :
  total (execute_tool_call self c read_tool write_tool n turn_id).
Proof.
  unfold execute_tool_call, request_tool, emit_tool, finish_tool_call.
  assert (∀ operation, match tool_arguments c with
      | ToolRead a => (λ tool, execute_read_tool tool a) <$> read_tool
      | ToolWrite a => (λ tool, execute_write_tool tool a (tool_call_id c)) <$> write_tool
      end = Some operation → total operation) as HX.
  { intros operation. destruct (tool_arguments c) as [a|a]; intros (tool & _ & ->)%fmap_Some.
    - unfold execute_read_tool, execute_file_read, execute_repository_inspection. walk_total;
        first [apply execute_file_total|apply to_tool_result_total|apply execute_inspection_total].
    - unfold execute_write_tool. walk_total. apply execute_write_total. }
  destruct (match tool_arguments c with ToolRead _ => _ | ToolWrite _ => _ end) as [operation|] eqn:EO;
    [specialize (HX _ eq_refl)|]; walk_total; unfold emit_tool, request_tool; walk_total; done.
Qed.

Lemma execute_batch_total self calls read_tool write_tool n turn_id :
  total (execute_batch self calls read_tool write_tool n turn_id).
Proof.
  revert n. induction calls as [|c calls IH]; intros n; cbn [execute_batch]; walk_total; [apply execute_tool_call_total|apply IH].
Qed.

Lemma round_total self read_tool write_tool turn_id s : total (round self read_tool write_tool turn_id s).
Proof.
  unfold round, complete_model_request, complete_model_attempt. walk_total;
    first [apply execute_tool_call_total|apply execute_batch_total].
Qed.

(** Every round of the loop executes a call, and the calls are limited. *)
Lemma run_loop_ends fuel self read_tool write_tool turn_id s w :
  Z.to_nat (max_tool_calls self - completed_tool_calls s) < fuel →
  ∃ r w', run_loop fuel self read_tool write_tool turn_id s w = (Some (Some r), w').
Proof.
  revert s w. induction fuel as [|fuel IH]; intros s w HF; [lia|]. cbn [run_loop]. unfold mbind, Hm_bind.
  destruct (round_total self read_tool write_tool turn_id s w) as [r HR].
  destruct (round_spec self read_tool write_tool turn_id s w) as (es & _ & _ & HC & _).
  destruct (round self read_tool write_tool turn_id s w) as [o w']. cbn [fst] in HR, HC. subst o.
  destruct r as [s'|result]; [|by exists result, w'].
  destruct (HC s' eq_refl) as [(calls & block & _ & _ & _ & EC & _ & HP & HM) _]. apply IH. lia.
Qed.

Lemma run_loop_more fuel k self read_tool write_tool turn_id s w r w' :
  run_loop fuel self read_tool write_tool turn_id s w = (Some (Some r), w') →
  run_loop (fuel + k) self read_tool write_tool turn_id s w = (Some (Some r), w').
Proof.
  revert s w. induction fuel as [|fuel IH]; intros s w; cbn [run_loop Nat.add]; [discriminate|]. unfold mbind, Hm_bind.
  destruct (round self read_tool write_tool turn_id s w) as [[[s'|result]|] w'']; [apply IH|done|done].
Qed.

Lemma run_loop_count fuel self read_tool write_tool turn_id s :
  spec (run_loop fuel self read_tool write_tool turn_id s)
    (λ es _, replacements es <= Z.max 0 (max_tool_calls self - completed_tool_calls s))%Z.
Proof.
  revert s. induction fuel as [|fuel IH]; intros s; cbn [run_loop].
  { apply spec_ret. change (replacements []) with 0%Z. lia. }
  eapply spec_bind; [apply round_spec|by intros es [HE _]|]. intros es [s'|result] (HE & HC & _).
  - destruct (HC s' eq_refl) as [(calls & block & _ & _ & _ & EC & _ & HP & HM) HR].
    eapply spec_weaken; [|apply IH]. intros es' r HE'. cbn beta in HE' |- *. rewrite replacements_app. lia.
  - apply spec_ret. by rewrite app_nil_r.
Qed.

(** What the loop returns from a state. *)
Definition finished (self : Engine) (s : LoopState) (outcome : TurnOutcome) (history : list ModelMessage) : Prop :=
  validate_value (schema (loop_request s)) (outcome_output outcome) = Ok tt ∧
  ∃ calls block reasoning, exchanges calls block ∧
    history = messages (loop_request s) ++ block ++ [final_message (outcome_output outcome) reasoning] ∧
    usize_len (report_tool_calls (report outcome)) = (usize_len (loop_tool_calls s) + usize_len calls)%Z ∧
    (calls = [] ∨ completed_tool_calls s + usize_len calls <= max_tool_calls self)%Z.

Lemma finished_step self s s' outcome history :
  round_continues self s s' → finished self s' outcome history → finished self s outcome history.
Proof.
  intros (calls & block & HX & EM & ES & EC & ET & HP & HM) (HV & calls' & block' & reasoning & HX' & EH & ER & HL).
  split; [by rewrite <- ES|]. exists (calls ++ calls'), (block ++ block'), reasoning.
  split_and!; [by constructor|by rewrite EH, EM, <- !app_assoc|rewrite usize_len_app; lia|].
  right. rewrite usize_len_app. destruct HL as [->|HL]; [change (usize_len (@nil ToolCall)) with 0%Z|]; lia.
Qed.

Lemma run_loop_finished fuel self read_tool write_tool turn_id s :
  spec (run_loop fuel self read_tool write_tool turn_id s)
    (λ _ r, ∀ outcome history session_id, r = Some (Some (Ok (outcome, history, session_id))) →
       finished self s outcome history).
Proof.
  revert s. induction fuel as [|fuel IH]; intros s; cbn [run_loop]; [by apply spec_ret|].
  eapply spec_bind; [apply round_spec|by intros es _|]. intros es [s'|result] (_ & HC & HE).
  - eapply spec_weaken; [|apply IH]. intros es' r HF outcome history session_id ER.
    eapply finished_step; [by apply HC|by eapply HF].
  - apply spec_ret. intros outcome history session_id [= ->].
    destruct (HE _ _ _ eq_refl) as (HV & HR & reasoning & EH). split; [done|].
    exists [], [], reasoning. split_and!; [constructor|done|rewrite HR; change (usize_len (@nil ToolCall)) with 0%Z; lia|by left].
Qed.

(** ** The turn *)

Definition tool_allowed (self : Engine) (tool : Tool) : bool := allows (options_tool_policy (engine_options self)) tool.

Lemma with_tool_messages request tool :
  messages (with_tool request tool) = messages request ∧ schema (with_tool request tool) = schema request.
Proof. unfold with_tool. by destruct (advertises_tool _ _). Qed.

Lemma prepare_Ok self request journal request' read_tool write_tool :
  prepare_request self request journal = Ok (request', read_tool, write_tool) →
  (messages request' = messages request ∧ schema request' = schema request) ∧
  (is_Some read_tool → tool_allowed self ReadTool = true) ∧
  (∀ tool, write_tool = Some tool → tool_allowed self WriteTool = true ∧ journaled tool = journal).
Proof.
  unfold prepare_request, tool_allowed, allows. cbv beta iota zeta. set (policy := options_tool_policy (engine_options self)).
  set (marked := if engine_lifecycle self then _ else _).
  assert (messages marked = messages request ∧ schema marked = schema request) as HM by (subst marked; by destruct (engine_lifecycle self)).
  set (effort := match model_reasoning_effort marked with Some _ => _ | None => _ end).
  assert (messages effort = messages request ∧ schema effort = schema request) as HE.
  { subst effort. by destruct (model_reasoning_effort marked), (engine_effort self). }
  clearbody effort. clear HM marked.
  destruct (match options_comparison_base (engine_options self) with Some _ => _ | None => _ end); [discriminate|].
  destruct (negb (policy_read policy) && negb (policy_write policy)).
  { intros [= <- <- <-]. split_and!; [apply HE..| |done]. by intros [? ?]. }
  destruct (engine_repository self) as [root|]; [|discriminate]. intros [= <- <- <-].
  pose proof (with_tool_messages) as HW. split_and!.
  - destruct (policy_read policy), (policy_write policy); rewrite ?(proj1 (HW _ _)); apply HE.
  - destruct (policy_read policy), (policy_write policy); rewrite ?(proj2 (HW _ _)); apply HE.
  - destruct (policy_read policy); [done|]. by intros [? ?].
  - destruct (policy_write policy); [|done]. by intros tool [= <-].
Qed.

(** What a turn does follows from what its permitted tools do. *)
Lemma run_within (Lg : list Effect → Prop) `{HLg : !Language Lg} (call_ok : ToolCall → Prop) fuel self request turn_id journal :
  (∀ k, Lg [DidEvent k]) → (∀ n request, Lg [DidComplete request (env_complete n request)]) →
  (∀ n request completion, env_complete n request = Ok completion →
     Forall call_ok (response_calls (response completion))) →
  (tool_allowed self ReadTool = true → ∀ c a tool, call_ok c → tool_arguments c = ToolRead a →
     within Lg (execute_read_tool tool a)) →
  (tool_allowed self WriteTool = true → ∀ c a tool, call_ok c → tool_arguments c = ToolWrite a →
     journaled tool = journal → within Lg (execute_write tool a (tool_call_id c))) →
  within Lg (run fuel self request turn_id journal).
Proof.
  intros HE HC HA HR HW. unfold run. destruct (prepare_request self request journal) as [[[request' rt] wt]|error] eqn:EP;
    [|by apply within_ret].
  apply prepare_Ok in EP as (_ & HRT & HWT). eapply (run_loop_within _ _ call_ok); [done..|].
  intros c HOK. unfold operation_within. destruct (tool_arguments c) as [a|a] eqn:EA; intros tool ->.
  - by eapply HR; [apply HRT; eexists| |].
  - destruct (HWT tool eq_refl) as [HT HJ]. by eapply HW.
Qed.

(** *** The calls a policy permits *)

Definition permitted (self : Engine) (journal : bool) (e : Effect) : Prop :=
  match e with
  | DidComplete _ _ | DidEvent _ => True
  | DidCanonicalize _ _ | DidOpen _ _ _ => tool_allowed self ReadTool = true ∨ tool_allowed self WriteTool = true
  | DidRun _ _ _ => tool_allowed self ReadTool = true
  | DidReplace _ _ _ _ _ => tool_allowed self WriteTool = true
  | DidIntent _ _ _ _ _ _ | DidFinish _ _ _ => tool_allowed self WriteTool = true ∧ journal = true
  end.

(** A denied tool touches nothing: whatever the model asks for, a turn reads and lists files or runs Git
    only when the policy allows reading, replaces files only when it allows writing, and uses the write journal
    only when there is one; with both tools denied it only asks the model. *)
Theorem denied_tools_touch_nothing fuel self request turn_id journal w :
  ∃ es, trace (snd (run fuel self request turn_id journal w)) = trace w ++ es ∧ Forall (permitted self journal) es.
Proof.
  revert w. apply (run_within (Forall (permitted self journal)) (λ _, True)).
  - by repeat constructor.
  - by repeat constructor.
  - intros. by apply Forall_true.
  - intros HR c a tool _ _. apply execute_read_tool_within; [apply _|intros; apply Forall_singleton; cbn; auto..].
  - intros HW c a tool _ _ HJ. apply execute_write_within; [apply _|intros; apply Forall_singleton; cbn; auto..|].
    rewrite HJ. intros es []; repeat (apply Forall_cons; split; [cbn; auto|]); by apply Forall_nil.
Qed.

(** *** Journaled replacements *)

(** Runs of replacements between calls that do not write. *)
Inductive write_history (journal : bool) : list Effect → Prop :=
| history_nil : write_history journal []
| history_other e es :
    match e with DidIntent _ _ _ _ _ _ | DidReplace _ _ _ _ _ | DidFinish _ _ _ => False | _ => True end →
    write_history journal es → write_history journal (e :: es)
| history_run call_id path patch run es :
    ReplaceRun journal call_id path patch run → write_history journal es → write_history journal (run ++ es).

#[export] Instance write_history_language journal : Language (write_history journal).
Proof.
  split; [constructor|]. intros es1 es2 H1 H2. induction H1 as [|e es HE H1 IH|call_id path patch run es HR H1 IH]; [done|by constructor|].
  rewrite <- app_assoc. by eapply history_run.
Qed.

(** C16: Every replacement of a file in a turn follows the journal's protocol: the file was read just before,
    the new content is the patch applied to what was read and the replacement expects exactly that content;
    with a journal its intent was accepted first, and after the replacement its outcome is reported under the
    identifier of that intent, unless the process of the replacement died; a refused intent replaces nothing. *)
Theorem replacements_are_journaled fuel self request turn_id journal w :
  ∃ es, trace (snd (run fuel self request turn_id journal w)) = trace w ++ es ∧ write_history journal es.
Proof.
  revert w. apply (run_within (write_history journal) (λ _, True)).
  - intros k. by repeat constructor.
  - intros n r. by repeat constructor.
  - intros. by apply Forall_true.
  - intros _ c a tool _ _. apply execute_read_tool_within; [apply _|..]; intros; by repeat constructor.
  - intros _ c a tool _ _ <-. apply execute_write_within; [apply _|intros; by repeat constructor..|].
    intros es HR. rewrite <- (app_nil_r es). eapply history_run; [exact HR|constructor].
Qed.

(** *** Bounds *)

(** C14: A turn ends and never panics: it needs at most one round more than the limit of tool calls, whatever
    the model, the file system, Git and the journal answer, and then returns an outcome or an error. *)
Theorem run_ends self request turn_id journal w k :
  ∃ r w', run (S (Z.to_nat (max_tool_calls self)) + k) self request turn_id journal w = (Some (Some r), w') ∧
    run (S (Z.to_nat (max_tool_calls self))) self request turn_id journal w = (Some (Some r), w').
Proof.
  unfold run. destruct (prepare_request self request journal) as [[[request' rt] wt]|error]; [|by eexists _, w].
  destruct (run_loop_ends (S (Z.to_nat (max_tool_calls self))) self rt wt turn_id (mkLoopState request' 0 0 [] []) w)
    as (r & w' & ER); [cbn [completed_tool_calls]; lia|]. exists r, w'. split; [|exact ER]. by apply run_loop_more.
Qed.

(** A turn replaces at most as many files as its limit of tool calls, even when it fails. *)
Theorem replacements_are_bounded fuel self request turn_id journal w :
  ∃ es, trace (snd (run fuel self request turn_id journal w)) = trace w ++ es ∧ (replacements es <= max_tool_calls self)%Z.
Proof.
  revert w. change (spec (run fuel self request turn_id journal) (λ es _, replacements es <= max_tool_calls self)%Z).
  unfold run. pose proof (max_tool_calls_pos self).
  destruct (prepare_request self request journal) as [[[request' rt] wt]|error].
  - eapply spec_weaken; [|apply run_loop_count]. cbn [completed_tool_calls]. intros es r HE. lia.
  - apply spec_ret. change (replacements []) with 0%Z. lia.
Qed.

(** *** History *)

(** What a program does from a given trace on. *)
Definition from_trace {A} (t : list Effect) (m : Hm A) (Q : list Effect → option A → Prop) : Prop :=
  ∀ w, trace w = t → ∃ es, trace (snd (m w)) = t ++ es ∧ Q es (fst (m w)).

Lemma from_spec {A} t (m : Hm A) Q : spec m Q → from_trace t m Q.
Proof. intros HS w <-. apply HS. Qed.

Lemma from_ret {A} t (a : A) (Q : list Effect → option A → Prop) : Q [] (Some a) → from_trace t (mret a) Q.
Proof. intros HQ. by apply from_spec, spec_ret. Qed.

Lemma from_bind {A B} t (m : Hm A) (f : A → Hm B) (Q1 : list Effect → option A → Prop) Q :
  from_trace t m Q1 → (∀ es, Q1 es None → Q es None) →
  (∀ es a, Q1 es (Some a) → from_trace (t ++ es) (f a) (λ es' r, Q (es ++ es') r)) → from_trace t (m ≫= f) Q.
Proof.
  intros HM HN HF w HW. unfold mbind, Hm_bind. destruct (HM w HW) as (es & HT & HQ).
  destruct (m w) as [[a|] w']; cbn [fst snd] in *; [|eauto].
  destruct (HF es a HQ w' HT) as (es' & HT' & HQ'). exists (es ++ es'). by rewrite HT', app_assoc.
Qed.

(** Events of observers, and a request to the model that was refused. *)
Definition is_event (e : Effect) : Prop := match e with DidEvent _ => True | _ => False end.
Definition is_refused (e : Effect) : Prop :=
  match e with DidEvent _ | DidComplete _ (Err _) => True | _ => False end.

(** The model was asked with these messages and answered this; an earlier attempt was refused at most. *)
Definition model_answers (ms : list ModelMessage) (answer : ModelResponse) (reasoning : option str) (es : list Effect) : Prop :=
  ∃ before asked completion after, es = before ++ DidComplete asked (Ok completion) :: after ∧
    Forall is_refused before ∧ Forall is_event after ∧ messages asked = ms ∧
    response completion = answer ∧ completion_reasoning completion = reasoning.

Lemma event_emitted b k : within (Forall is_event) (emit b k).
Proof. apply (within_emit (Forall is_event)). by apply Forall_singleton. Qed.

Lemma attempt_answers self request index turn_id :
  spec (complete_model_attempt self request index turn_id)
    (λ es r, (∀ answer activity session_id reasoning, r = Some (Ok (answer, activity, session_id, reasoning)) →
       model_answers (messages request) answer reasoning es) ∧
     (r = Some (Err ResumeUnavailable) → Forall is_refused es)).
Proof.
  unfold complete_model_attempt.
  eapply spec_bind with (Q1 := λ es _, Forall is_event es); [apply (within_next_id (Forall is_event))|by intros; split|].
  intros es1 id H1. eapply spec_bind with (Q1 := λ es _, Forall is_event es);
    [destruct id; [apply event_emitted|apply (within_ret (Forall is_event))]|by intros; split|].
  intros es2 _ H2. cbv zeta.
  eapply spec_bind with (Q1 := λ es r, ∃ a, r = Some a ∧ es = [DidComplete request a]);
    [apply spec_call; by eexists|by intros es (? & ? & _)|].
  intros es3 completion (a & [= <-] & ->).
  assert (∀ error : ModelError, (completion = Err error ∨ error ≠ ResumeUnavailable) → spec
    (_ ← match id with
         | Some id => emit true (ModelRequestFailed (error_type error) (http_status error) id turn_id)
         | None => mret tt end;
     mret (Err error : result (ModelResponse * ModelRequestActivity * option str * option str) ModelError))
    (λ es r, (∀ answer activity session_id reasoning, r = Some (Ok (answer, activity, session_id, reasoning)) →
       model_answers (messages request) answer reasoning (es1 ++ es2 ++ [DidComplete request completion] ++ es)) ∧
     (r = Some (Err ResumeUnavailable) → Forall is_refused (es1 ++ es2 ++ [DidComplete request completion] ++ es)))) as HF.
  { intros error HE. eapply spec_bind with (Q1 := λ es _, Forall is_event es);
      [destruct id; [apply event_emitted|apply (within_ret (Forall is_event))]|by intros; split|].
    intros es _ H3. apply spec_ret. split; [done|]. intros [= ->]. destruct HE as [->|HE]; [|done].
    rewrite app_nil_r. assert (∀ l, Forall is_event l → Forall is_refused l) as HR
      by (intros l HL; eapply Forall_impl; [exact HL|]; by intros []).
    rewrite !Forall_app. split_and!; auto. by repeat constructor. }
  destruct completion as [completion|error]; [|apply HF; by left].
  destruct (match response_output (response completion) with Some _ => _ | None => _ end) as [[]|error] eqn:EV.
  - eapply spec_bind with (Q1 := λ es _, Forall is_event es);
      [destruct id; [apply event_emitted|apply (within_ret (Forall is_event))]|by intros; split|].
    intros es _ H3. apply spec_ret. split; [|done]. intros answer activity session_id reasoning [= <- _ _ <-].
    exists (es1 ++ es2), request, completion, es. rewrite app_nil_r, <- app_assoc. split_and!; try done.
    apply Forall_app. split; (eapply Forall_impl; [eassumption|]); by intros [].
  - apply HF. right. intros ->. destruct (response_output (response completion)) as [output|]; [|done].
    revert EV. unfold validate_value. destruct (_ <? _)%Z; [done|]. by destruct (schema_violation _ _) as [[? ?]|].
Qed.

Lemma request_answers self request index turn_id :
  spec (complete_model_request self request index turn_id)
    (λ es r, ∀ answer activities session_id rejected reasoning,
       r = Some (Ok (answer, activities, session_id, rejected, reasoning)) →
       model_answers (messages request) answer reasoning es).
Proof.
  unfold complete_model_request. cbv zeta. eapply spec_bind; [apply attempt_answers|by intros|].
  intros es [[[[answer activity] session_id] reasoning]|error] [HA HE].
  { apply spec_ret. rewrite app_nil_r. intros ? ? ? ? ? [= <- _ _ _ <-]. by eapply HA. }
  destruct error; try (case_bool_decide; by apply spec_ret). case_bool_decide; [|by apply spec_ret].
  specialize (HE eq_refl). eapply spec_bind; [apply attempt_answers|by intros|].
  intros es' [[[[answer activity] session_id] reasoning]|error] [HA' _]; [|by apply spec_ret].
  apply spec_ret. rewrite app_nil_r. intros ? ? ? ? ? [= <- _ _ _ <-].
  destruct (HA' _ _ _ _ eq_refl) as (before & asked & completion & after & -> & HB & HR).
  exists (es ++ before), asked, completion, after. split; [by rewrite <- app_assoc|]. split; [by apply Forall_app|done].
Qed.

(** The operation behind a call. *)
Definition tool_operation (read_tool : option RepositoryReadTool) (write_tool : option RepositoryWriteTool) (c : ToolCall)
  : option (Hm (result (str * ToolActivity) TurnError)) :=
  match tool_arguments c with
  | ToolRead a => (λ tool, execute_read_tool tool a) <$> read_tool
  | ToolWrite a => (λ tool, execute_write_tool tool a (tool_call_id c)) <$> write_tool
  end.

Lemma operation_traces read_tool write_tool c operation :
  tool_operation read_tool write_tool c = Some operation → ∀ w, ∃ es, trace (snd (operation w)) = trace w ++ es.
Proof.
  unfold tool_operation. intros HO w.
  assert (within (λ _, True) operation) as HW; [|destruct (HW w) as (es & HE & _); by exists es].
  assert (Language (λ _ : list Effect, True)) by done.
  destruct (tool_arguments c) as [a|a]; apply fmap_Some in HO as (tool & _ & ->).
  - by apply execute_read_tool_within.
  - unfold execute_write_tool. apply (within_bind (λ _, True)); [by apply execute_write_within|]. intros r. by apply within_ret.
Qed.

Section ran.
Context (read_tool : option RepositoryReadTool) (write_tool : option RepositoryWriteTool).

(** After the trace [t] the tool of the call ran and returned [r]; its calls are the part of the trace that is not
    events around it. *)
Definition tool_ran (t : list Effect) (c : ToolCall) (r : str * ToolActivity) (es : list Effect) : Prop :=
  ∃ operation before calls after w w', tool_operation read_tool write_tool c = Some operation ∧
    es = before ++ calls ++ after ∧ Forall is_event before ∧ Forall is_event after ∧
    trace w = t ++ before ∧ operation w = (Some (Ok r), w') ∧ trace w' = trace w ++ calls.

(** The calls of a batch ran one after the other, each with its own result. *)
Inductive batch_ran : list Effect → list ToolCall → list (str * ToolActivity) → list Effect → Prop :=
| batch_nil t : batch_ran t [] [] []
| batch_cons t c r es calls results es' :
    tool_ran t c r es → batch_ran (t ++ es) calls results es' →
    batch_ran t (c :: calls) (r :: results) (es ++ es').

(** A turn that asks with the messages [ms] after the trace [t]: the model's output ends it; the model's calls are run
    and the next request shows them with what their tools returned. *)
Inductive turn_ran : list Effect → list ModelMessage → list Effect → list ModelMessage → list ToolActivity → Value → Prop :=
| turn_output t ms es output reasoning :
    model_answers ms (Output output) reasoning es →
    turn_ran t ms es (ms ++ [final_message output reasoning]) [] output
| turn_call t ms c reasoning es text activity es' es'' history activities output :
    model_answers ms (ToolCallResponse c) reasoning es → tool_ran (t ++ es) c (text, activity) es' →
    turn_ran (t ++ es ++ es') (ms ++ [AssistantToolCall c; result_message c text]) es'' history activities output →
    turn_ran t ms (es ++ es' ++ es'') history (activity :: activities) output
| turn_batch t ms calls reasoning es results es' es'' history activities output :
    model_answers ms (ToolCallsResponse calls) reasoning es → calls ≠ [] → NoDup (tool_call_id <$> calls) →
    batch_ran (t ++ es) calls results es' →
    turn_ran (t ++ es ++ es') (ms ++ AssistantToolCalls calls :: zip_with result_message calls (fst <$> results))
      es'' history activities output →
    turn_ran t ms (es ++ es' ++ es'') history ((snd <$> results) ++ activities) output.

Lemma tool_call_ran t self c n turn_id :
  from_trace t (execute_tool_call self c read_tool write_tool n turn_id)
    (λ es r, ∀ x, r = Some (Ok x) → tool_ran t c x es).
Proof.
  unfold execute_tool_call. assert (∀ k, Forall is_event [DidEvent k]) as HK by by repeat constructor.
  eapply from_bind with (Q1 := λ es _, Forall is_event es);
    [apply from_spec, (request_tool_within (Forall is_event)); exact HK|by intros|].
  intros es1 lifecycle H1. cbv zeta. change (match tool_arguments c with ToolRead _ => _ | ToolWrite _ => _ end)
    with (tool_operation read_tool write_tool c).
  assert (∀ kind, within (Forall is_event) (emit_tool lifecycle kind)) as HEmit
    by (intros kind; apply (emit_tool_within (Forall is_event)); exact HK).
  assert (∀ t' kind (e : TurnError) (P : list Effect → (str * ToolActivity) → Prop),
    from_trace t' (_ ← emit_tool lifecycle kind; mret (Err e : result (str * ToolActivity) TurnError))
      (λ es r, ∀ x, r = Some (Ok x) → P es x)) as HErr.
  { intros t' kind e P. eapply from_bind; [apply from_spec, HEmit|done|]. intros es u _. by apply from_ret. }
  destruct (tool_operation read_tool write_tool c) as [operation|] eqn:EO; [|apply HErr].
  destruct (_ <=? _)%Z; [apply HErr|].
  eapply from_bind; [apply from_spec, HEmit|done|]. intros es2 u H2. cbn beta in H2.
  eapply from_bind with (Q1 := λ es r, ∃ w w', trace w = (t ++ es1) ++ es2 ∧ operation w = (r, w') ∧ trace w' = trace w ++ es);
    [|done|].
  { intros w HW. destruct (operation_traces _ _ c operation EO w) as (es & HE). exists es. rewrite HE, HW. split; [done|].
    exists w, (snd (operation w)). split_and!; [done|by destruct (operation w)|by rewrite HE]. }
  intros es3 r (w & w' & HW & HO & HT). unfold finish_tool_call.
  eapply from_bind; [apply from_spec, HEmit|done|]. intros es4 u2 H4. apply from_ret. intros x [= ->].
  exists operation, (es1 ++ es2), es3, es4, w, w'. rewrite app_nil_r, <- !app_assoc in *.
  split_and!; try done. by apply Forall_app.
Qed.

Lemma batch_calls_ran t self calls n turn_id :
  from_trace t (execute_batch self calls read_tool write_tool n turn_id)
    (λ es r, ∀ texts activities, r = Some (Ok (texts, activities)) →
       ∃ results, batch_ran t calls results es ∧ texts = fst <$> results ∧ activities = snd <$> results).
Proof.
  revert t n. induction calls as [|c calls IH]; intros t n; cbn [execute_batch].
  { apply from_ret. intros ? ? [= <- <-]. exists []. split; [constructor|done]. }
  unfold try_bind. eapply from_bind; [apply tool_call_ran|by intros|].
  intros es [[text activity]|error] HC; [|by apply from_ret].
  eapply from_bind; [apply IH|by intros|]. intros es' [[texts activities]|error] HB; [|by apply from_ret].
  apply from_ret. intros ? ? [= <- <-]. destruct (HB _ _ eq_refl) as (results & HR & -> & ->).
  exists ((text, activity) :: results). rewrite app_nil_r. split; [|done]. constructor; [by apply HC|done].
Qed.

(** A round is the model's answer, and the calls it asked for. *)
Lemma round_ran t self turn_id s :
  from_trace t (round self read_tool write_tool turn_id s)
    (λ es r, (∀ s', r = Some (inl s') → ∃ activities, loop_tool_calls s' = loop_tool_calls s ++ activities ∧
         ∀ es' history activities' output,
           turn_ran (t ++ es) (messages (loop_request s')) es' history activities' output →
           turn_ran t (messages (loop_request s)) (es ++ es') history (activities ++ activities') output) ∧
       (∀ outcome history session_id, r = Some (inr (Ok (outcome, history, session_id))) →
         report_tool_calls (report outcome) = loop_tool_calls s ∧
         turn_ran t (messages (loop_request s)) es history [] (outcome_output outcome))).
Proof.
  unfold round. eapply from_bind; [apply from_spec, request_answers|by intros|].
  intros es [[[[[answer activities] session_id] rejected] reasoning]|error] HA; [|by apply from_ret].
  specialize (HA _ _ _ _ _ eq_refl). cbv zeta. set (request := if rejected || _ then _ else _).
  assert (messages request = messages (loop_request s)) as HM by (subst request; by destruct (rejected || _)).
  clearbody request. destruct answer as [output|c|calls].
  - apply from_ret. split; [done|]. intros ? ? ? [= <- <- _]. split; [done|]. cbn. rewrite app_nil_r, HM.
    by apply turn_output.
  - eapply from_bind; [apply tool_call_ran|by intros; split|]. intros es' [[text activity]|error] HC;
      [|apply from_ret; by split]. apply from_ret. split; [|done]. intros s' [= <-]. exists [activity]. split; [done|].
    intros es'' history activities' output HT. cbn in HT. rewrite HM, app_nil_r in HT. rewrite app_nil_r, <- app_assoc.
    eapply turn_call; [exact HA|by apply HC|exact HT].
  - destruct (is_empty calls) eqn:EE; [by apply from_ret|].
    destruct (ensure_unique_tool_call_ids calls) as [[]|error] eqn:EU; [|by apply from_ret]. apply ensure_unique_Ok in EU.
    destruct (_ <? _)%Z; [by apply from_ret|].
    eapply from_bind; [apply batch_calls_ran|by intros; split|]. intros es' [[texts acts]|error] HC;
      [|apply from_ret; by split]. apply from_ret. split; [|done]. intros s' [= <-].
    destruct (HC _ _ eq_refl) as (results & HB & -> & ->). exists (snd <$> results). split; [done|].
    intros es'' history activities' output HT. cbn in HT. rewrite HM, app_nil_r in HT. rewrite app_nil_r, <- app_assoc.
    eapply turn_batch; [exact HA|by intros ->|done|exact HB|exact HT].
Qed.

Lemma loop_ran t fuel self turn_id s :
  from_trace t (run_loop fuel self read_tool write_tool turn_id s)
    (λ es r, ∀ outcome history session_id, r = Some (Some (Ok (outcome, history, session_id))) →
       ∃ activities, report_tool_calls (report outcome) = loop_tool_calls s ++ activities ∧
         turn_ran t (messages (loop_request s)) es history activities (outcome_output outcome)).
Proof.
  revert t s. induction fuel as [|fuel IH]; intros t s; cbn [run_loop]; [by apply from_ret|].
  eapply from_bind; [apply round_ran|by intros|]. intros es [s'|result] [HC HE].
  - destruct (HC s' eq_refl) as (activities & HR & HT). intros w HW. destruct (IH (t ++ es) s' w HW) as (es' & HX & HQ).
    exists es'. split; [exact HX|]. intros outcome history session_id ER.
    destruct (HQ outcome history session_id ER) as (activities' & -> & HT'). exists (activities ++ activities').
    split; [by rewrite HR, app_assoc|by apply HT].
  - apply from_ret. intros outcome history session_id [= ->]. destruct (HE _ _ _ eq_refl) as [HR HT].
    exists []. rewrite !app_nil_r. by split.
Qed.
End ran.

(** C13: A successful turn returns a complete and true history.  Between the start and the end of the turn the trace
    consists of rounds: the model is asked with the history so far and answers with tool calls; each call's tool is run,
    in the order of the calls, and the history then holds the model's calls followed by what each call's own tool
    returned, under that call's identifier and in that order; the last answer is the output, which ends the history
    and satisfies the schema and the size limit.  The report lists the activity of every call, in order, and these
    are within the limit. *)
Theorem turn_history_is_complete fuel self request turn_id journal w outcome history session_id w' :
  run fuel self request turn_id journal w = (Some (Some (Ok (outcome, history, session_id))), w') →
  ∃ request' read_tool write_tool es, prepare_request self request journal = Ok (request', read_tool, write_tool) ∧
    trace w' = trace w ++ es ∧
    turn_ran read_tool write_tool (trace w) (messages request) es history
      (report_tool_calls (report outcome)) (outcome_output outcome) ∧
    validate_value (schema request) (outcome_output outcome) = Ok tt ∧
    (usize_len (report_tool_calls (report outcome)) <= max_tool_calls self)%Z.
Proof.
  unfold run. destruct (prepare_request self request journal) as [[[request' rt] wt]|error] eqn:EP; [|discriminate].
  apply prepare_Ok in EP as ([EM ES] & _). intros ER.
  destruct (loop_ran rt wt (trace w) fuel self turn_id (mkLoopState request' 0 0 [] []) w eq_refl) as (es & HT & HR).
  rewrite ER in HT, HR. destruct (HR _ _ _ eq_refl) as (activities & HA & HX).
  apply (spec_elim _ _ _ _ _ (run_loop_finished _ _ _ _ _ _)) in ER as (es' & _ & HF).
  destruct (HF _ _ _ eq_refl) as (HV & calls & block & reasoning & _ & _ & HL & HB).
  cbn [loop_request completed_tool_calls loop_tool_calls app] in *. rewrite EM in HX. rewrite ES in HV. rewrite HA in *.
  exists request', rt, wt, es. split_and!; [done..|]. pose proof (max_tool_calls_pos self).
  change (usize_len (@nil ToolActivity)) with 0%Z in HL. destruct HB as [->|HB]; [|lia].
  change (usize_len (@nil ToolCall)) with 0%Z in HL. lia.
Qed.

(** *** Paths *)

Section paths.
Context `{Hserde : ToolSerde}.

(** The call was decoded from the JSON of the model. *)
Definition decoded (c : ToolCall) : Prop :=
  ∃ id name arguments reasoning, ToolCall_from_json id name arguments reasoning = Ok c.

Definition valid_path (p : str) : Prop := validate_repository_path p = Ok p.

Lemma validate_path_same p q : validate_repository_path p = Ok q → valid_path q.
Proof.
  unfold valid_path, validate_repository_path. intros HP.
  repeat match type of HP with (if ?b then _ else _) = _ => destruct b eqn:?; [discriminate|] end.
  injection HP as <-. by repeat match goal with HB : ?b = false |- _ => rewrite HB; clear HB end.
Qed.

Lemma decoded_write c a : decoded c → tool_arguments c = ToolWrite a → valid_path (write_path_ a).
Proof.
  intros (id & name & arguments & reasoning & HD) HA. revert HD. unfold ToolCall_from_json. destruct (_ || _); [discriminate|].
  intros (u & _ & (u' & _ & (d & HX & [= <-])%and_then_Ok)%and_then_Ok)%and_then_Ok. cbn [tool_arguments] in HA. subst d.
  destruct (str_eqb name READ_NAME); [|destruct (str_eqb name WRITE_NAME); [|discriminate]].
  - destruct (read_wire arguments) as [wire|]; [|discriminate]. cbn in HX. by destruct (ReadArguments_deserialize wire).
  - destruct (write_wire arguments) as [wire|]; [|discriminate]. cbn in HX.
    destruct (WriteArguments_deserialize wire) as [a'|] eqn:EW; [|discriminate]. injection HX as <-.
    apply and_then_Ok in EW as (patch & _ & (p & HP & [= <-])%and_then_Ok). by eapply validate_path_same.
Qed.

Lemma decoded_read c a :
  decoded c → tool_arguments c = ToolRead a → validation_error a = None → action a = ActionFile → valid_path (path a).
Proof.
  intros (id & name & arguments & reasoning & HD) HA. revert HD. unfold ToolCall_from_json. destruct (_ || _); [discriminate|].
  intros (u & _ & (u' & _ & (d & HX & [= <-])%and_then_Ok)%and_then_Ok)%and_then_Ok. cbn [tool_arguments] in HA. subst d.
  destruct (str_eqb name READ_NAME); [|destruct (str_eqb name WRITE_NAME); [|discriminate]].
  - destruct (read_wire arguments) as [wire|]; [|discriminate]. cbn in HX.
    destruct (ReadArguments_deserialize wire) as [a'|] eqn:EW; [|discriminate]. injection HX as <-. revert EW.
    unfold ReadArguments_deserialize.
    intros (l & _ & (o & _ & (p & HP & (q & _ & [= <-])%and_then_Ok)%and_then_Ok)%and_then_Ok)%and_then_Ok.
    cbn [validation_error action path read_path]. intros HE HF. rewrite HF in HE. cbn [action_error] in HE.
    destruct p as [p|]; [|discriminate]. destruct (wire_path wire) as [wp|]; [|discriminate]. unfold transpose in HP.
    destruct (validate_repository_path wp) as [p'|] eqn:EV; [|discriminate]. injection HP as ->. by eapply validate_path_same.
  - destruct (write_wire arguments) as [wire|]; [|discriminate]. cbn in HX. by destruct (WriteArguments_deserialize wire).
Qed.

Definition opens_valid_path (e : Effect) : Prop :=
  match e with
  | DidOpen _ p _ | DidIntent _ _ p _ _ _ | DidReplace _ p _ _ _ => valid_path p
  | _ => True
  end.

(** C15: When a provider client passes on only calls it decoded from the model's JSON, every path a turn opens,
    journals or replaces passed the check of repository paths. *)
Theorem file_access_is_validated fuel self request turn_id journal w :
  (∀ n request completion, env_complete n request = Ok completion →
     Forall decoded (response_calls (response completion))) →
  ∃ es, trace (snd (run fuel self request turn_id journal w)) = trace w ++ es ∧ Forall opens_valid_path es.
Proof.
  intros HD. revert w. apply (run_within (Forall opens_valid_path) decoded); [by repeat constructor..|exact HD| |].
  - intros _ c a tool HC HA. apply execute_read_tool_within; [apply _|by repeat constructor..|].
    intros HV HF root x. apply Forall_singleton. by eapply decoded_read.
  - intros _ c a tool HC HA _. pose proof (decoded_write c a HC HA) as HP.
    apply execute_write_within; [apply _|intros; by apply Forall_singleton..|].
    intros es []; repeat (apply Forall_cons; split; [done|]); by apply Forall_nil.
Qed.
End paths.
End turns.

(** ** A turn that creates a file *)
Module EngineDemo.
#[export] Instance plain_escape : JsonEscape := λ c, [c].
#[export] Instance no_text : ModelErrorText := λ _, [].
#[export] Instance accept_all : SchemaValidator := λ _ _, None.
#[export] Instance null_text : ValueText := λ _, L"null".

Definition patch_text : str := L"--- /dev/null" ++ [newline] ++ L"+++ b/a" ++ [newline].

#[export] Instance one_write : ToolSerde := {|
  read_wire := λ _, Err [];
  write_wire := λ _, Ok (mkWriteWire patch_text (L"a"));
  member_error := λ _ e, e
|}.

Definition write_call : ToolCall := mkToolCall (ToolWrite (mkWriteArguments patch_text (L"a"))) (L"call") None.

#[export] Instance creating : Environment := {|
  env_complete := λ n _, Ok (mkModelCompletion None None None (if (n =? 0)%nat then ToolCallResponse write_call else Output VNull));
  env_canonicalize := λ _ p, Ok p;
  env_open := λ _ _ _, Err (mkIoError IoNotFound []);
  env_run := λ _ _ _ _, Err (mkIoError IoOther []);
  env_intent := λ _ _ _ _ _ _, Ok 7%Z;
  env_replace := λ _ _ _ _ _, Some (Ok tt);
  env_finish := λ _ _ _, Some (Ok tt)
|}.

Definition engine : Engine :=
  mkEngine false None None (TurnOptions_new VNull (mkToolPolicy false true) 1) (Some (L"/r")).
Definition request : ModelRequest := mkModelRequest false [] None [] None VNull [].
Definition world : HarnessWorld := mkHarnessWorld [] 0 EffectState_default.

(** The two rounds that a limit of one call needs. *)
Definition turn : option (option TurnResult) * HarnessWorld := run 2 engine request None true world.

Lemma turn_replaces_once :
  (λ e, match e with DidIntent _ _ _ _ _ _ => 1 | DidReplace _ _ _ _ _ => 2 | DidFinish _ _ _ => 3 | _ => 0 end) <$>
    trace (snd turn) = [0; 0; 0; 1; 2; 3; 0].
Proof. vm_compute. reflexivity. Qed.

Lemma turn_history_is_complete_witness :
  match fst turn with
  | Some (Some (Ok (outcome, history, session_id))) => length history = 3 ∧
      validate_value VNull (outcome_output outcome) = Ok tt
  | _ => False
  end.
Proof.
  destruct turn as [o w'] eqn:ET. unfold turn in ET. destruct o as [[[[[outcome history] session_id]|]|]|] eqn:EO;
    [|vm_compute in ET; discriminate..].
  destruct (turn_history_is_complete 2 engine request None true world outcome history session_id w' ET)
    as (_ & _ & _ & _ & _ & _ & _ & HV & _).
  split; [vm_compute in ET; injection ET as _ <- _ _; reflexivity|exact HV].
Defined.

Lemma file_access_is_validated_witness :
  ∃ es, trace (snd turn) = trace world ++ es ∧ Forall opens_valid_path es.
Proof.
  apply (file_access_is_validated 2 engine request None true world). intros n r completion [= <-]. cbn [response].
  destruct (n =? 0)%nat; cbn [response_calls]; [|constructor]. apply Forall_singleton.
  exists (L"call"), WRITE_NAME, (L"{}"), None. vm_compute. reflexivity.
Defined.
End EngineDemo.
