(* ===== verification/MemoryStore.v ===== *)
(** * The process-local session store (crates/ag-harness/src/memory_store.rs)

    Sessions with their turns and write journals, and the operations of the
    [SessionStore] trait that [MemoryStore] implements.  A method locks the
    state for its whole body, so each is one function on [State] that returns
    the result and the state left behind, on errors too.  Every reading of
    [Instant::now()] is an argument, in nanoseconds. *)
From S2P Require Import Prelude HarnessModel TurnSnapshot.

(** ** Store identities and turn owners (session.rs) *)

Inductive StoreIdentity :=
| IdentityFile (path : str)
| IdentityHost (namespace key : str)
| IdentityTemporary (serial : Z).

#[global] Instance StoreIdentity_eq_dec : EqDecision StoreIdentity.
Proof. solve_decision. Defined.

Record TurnOwner := mkTurnOwner {
  owner_database : StoreIdentity;
  interruption_error_type : str;
  owner_session_id : str;
  owner_token : list N;
  owner_turn_position : Z
}.

Definition TurnOwner_new (database : StoreIdentity) (session_id : str) (turn_position : Z)
    (token : list N) : TurnOwner :=
  mkTurnOwner database L"interrupted" session_id token turn_position.

Definition TurnOwner_identity (self : TurnOwner) : StoreIdentity * str * Z * list N :=
  (owner_database self, owner_session_id self, owner_turn_position self, owner_token self).

(** [PartialEq]: the interruption diagnostic is not compared. *)
Definition TurnOwner_eq (self other : TurnOwner) : bool :=
  bool_decide (TurnOwner_identity self = TurnOwner_identity other).

Definition lost (owner : TurnOwner) : SessionError :=
  OwnershipLost (owner_session_id owner) (owner_turn_position owner).

Definition with_interruption (self : TurnOwner) (error_type : str) : TurnOwner :=
  mkTurnOwner (owner_database self) error_type (owner_session_id self) (owner_token self)
    (owner_turn_position self).

(** [i64::to_le_bytes]. *)
Definition to_le_bytes (position : Z) : list N :=
  (λ k, Z.to_N ((position / 256 ^ Z.of_nat k) mod 256)) <$> seq 0 8.

Definition TURN_LEASE_SECONDS : Z := 300.

(** [Duration::from_secs(TURN_LEASE_SECONDS)] in nanoseconds. *)
Definition lease : Z := TURN_LEASE_SECONDS * 1000000000.

(** ** Failure classes (lifecycle.rs, model.rs) *)

Inductive ModelErrorType :=
| ErrorRequest | ErrorTransport | ErrorProvider | InvalidProviderResponse | InvalidResponse
| UnsupportedOutput | UnsupportedInput | ResponseTooLarge | InvalidOutput | InvalidToolCall.

Inductive TurnErrorType :=
| ErrorCancelled
| ErrorModel (error_type : ModelErrorType)
| ErrorTool | ErrorToolDenied | ErrorToolCallLimit | ErrorRepositoryRequired
| ErrorComparisonRepositoryMismatch | ErrorSession.

(** The derived [Debug] texts. *)
Definition ModelErrorType_debug (self : ModelErrorType) : str :=
  match self with
  | ErrorRequest => L"Request"
  | ErrorTransport => L"Transport"
  | ErrorProvider => L"Provider"
  | InvalidProviderResponse => L"InvalidProviderResponse"
  | InvalidResponse => L"InvalidResponse"
  | UnsupportedOutput => L"UnsupportedOutput"
  | UnsupportedInput => L"UnsupportedInput"
  | ResponseTooLarge => L"ResponseTooLarge"
  | InvalidOutput => L"InvalidOutput"
  | InvalidToolCall => L"InvalidToolCall"
  end.

Definition TurnErrorType_debug (self : TurnErrorType) : str :=
  match self with
  | ErrorCancelled => L"Cancelled"
  | ErrorModel error_type => L"Model(" ++ ModelErrorType_debug error_type ++ L")"
  | ErrorTool => L"Tool"
  | ErrorToolDenied => L"ToolDenied"
  | ErrorToolCallLimit => L"ToolCallLimit"
  | ErrorRepositoryRequired => L"RepositoryRequired"
  | ErrorComparisonRepositoryMismatch => L"ComparisonRepositoryMismatch"
  | ErrorSession => L"Session"
  end.

Record ModelMetadata := mkModelMetadata { metadata_model : str; metadata_provider : str }.

(** ** Records

    [Value] is the JSON value of schemas, [Outcome] the [TurnOutcome] that the
    store keeps and returns unread. *)

Inductive Status := Running | Completed | Failed | Interrupted.

#[global] Instance Status_eq_dec : EqDecision Status.
Proof. solve_decision. Defined.

Section store.
Context {Value Outcome : Type} `{ToolArgumentTypes} `{!SnapshotCodec Value} `{ContentHash}.

Record NewSession := mkNewSession {
  new_id : str;
  new_registration_identity : option ExecutionIdentity;
  new_schema : Value;
  new_system_prompt : option str
}.

Record LoadedSession := mkLoadedSession {
  max_history_bytes : Z;
  loaded_model : option str;
  model_generation : Z;
  loaded_provider : option str;
  provider_session_id : option str;
  registration_identity : option ExecutionIdentity;
  loaded_schema : Value;
  loaded_system_prompt : option str;
  loaded_turns : list (list ModelMessage)
}.

Definition recorded_model (self : LoadedSession) : RecordedModel :=
  mkRecordedModel (model_generation self) (loaded_model self) (loaded_provider self)
    (registration_identity self).

Record TurnRecord := mkTurnRecord {
  deadline : Z;
  error_type : option str;
  messages : list ModelMessage;
  turn_model : RecordedModel;
  options_text : str;
  outcome : option Outcome;
  turn_owner : TurnOwner;
  turn_request : option HostRequest;
  turn_status : Status
}.

(** The source's [Record] and [State]. *)
Record SessionRecord := mkSessionRecord {
  configuration : LoadedSession;
  next_turn : Z;
  turns : list TurnRecord;
  writes : list WriteRecord
}.

Record State := mkState { next_write : Z; sessions : gmap str SessionRecord }.

Definition State_default : State := mkState 0 ∅.

Inductive HostTurnStatus :=
| InProgress
| HostCompleted (outcome : Outcome)
| HostFailed (error_type : str)
| HostInterrupted (error_type : str).

Record HostTurnRecord := mkHostTurnRecord {
  host_model : option RecordedModel;
  host_request : HostRequest;
  host_status : HostTurnStatus;
  host_turn_position : Z;
  host_writes : list WriteRecord
}.

Record AcquiredTurn := mkAcquiredTurn {
  acquired_owner : TurnOwner;
  acquired_deadline : Z;
  acquired_provider_session_id : option str;
  acquired_turns : list (list ModelMessage)
}.

Inductive HostTurnAcquisition :=
| Acquired (turn : AcquiredTurn)
| Recorded (record : HostTurnRecord).

(** *** Field updates *)

Definition set_provider_session (c : LoadedSession) (continuation : option str) : LoadedSession :=
  mkLoadedSession (max_history_bytes c) (loaded_model c) (model_generation c) (loaded_provider c)
    continuation (registration_identity c) (loaded_schema c) (loaded_system_prompt c)
    (loaded_turns c).

Definition set_loaded_turns (c : LoadedSession) (ts : list (list ModelMessage)) : LoadedSession :=
  mkLoadedSession (max_history_bytes c) (loaded_model c) (model_generation c) (loaded_provider c)
    (provider_session_id c) (registration_identity c) (loaded_schema c) (loaded_system_prompt c) ts.

Definition set_selection (c : LoadedSession) (generation : Z) (identity : ExecutionIdentity)
    (metadata : option ModelMetadata) : LoadedSession :=
  mkLoadedSession (max_history_bytes c) (metadata_model <$> metadata) generation
    (metadata_provider <$> metadata) None (Some identity) (loaded_schema c)
    (loaded_system_prompt c) (loaded_turns c).

Definition set_status (t : TurnRecord) (status : Status) (error : option str) : TurnRecord :=
  mkTurnRecord (deadline t) error (messages t) (turn_model t) (options_text t) (outcome t)
    (turn_owner t) (turn_request t) status.

Definition set_deadline (t : TurnRecord) (d : Z) : TurnRecord :=
  mkTurnRecord d (error_type t) (messages t) (turn_model t) (options_text t) (outcome t)
    (turn_owner t) (turn_request t) (turn_status t).

Definition set_completed (t : TurnRecord) (added : list ModelMessage) (o : option Outcome)
  : TurnRecord :=
  mkTurnRecord (deadline t) (error_type t) (messages t ++ added) (turn_model t) (options_text t) o
    (turn_owner t) (turn_request t) Completed.

(** Assigning through [turns.last_mut()]. *)
Definition set_last {A} (l : list A) (x : A) : list A :=
  match rev l with [] => [] | _ :: rest => rev (x :: rest) end.

Definition set_last_turn (r : SessionRecord) (t : TurnRecord) : SessionRecord :=
  mkSessionRecord (configuration r) (next_turn r) (set_last (turns r) t) (writes r).

Definition set_continuation (r : SessionRecord) (continuation : option str) : SessionRecord :=
  mkSessionRecord (set_provider_session (configuration r) continuation) (next_turn r) (turns r)
    (writes r).

Definition set_session (state : State) (id : str) (r : SessionRecord) : State :=
  mkState (next_write state) (<[id := r]> (sessions state)).

(** ** Operations on one session record *)

Definition is_running (t : TurnRecord) : bool := bool_decide (turn_status t = Running).
Definition is_completed (t : TurnRecord) : bool := bool_decide (turn_status t = Completed).

Definition recover (now : Z) (r : SessionRecord) : SessionRecord :=
  match last (turns r) with
  | Some turn =>
      if is_running turn && (deadline turn <=? now)%Z then
        set_continuation (set_last_turn r (set_status turn Interrupted (Some L"interrupted"))) None
      else r
  | None => r
  end.

Definition turn_bytes (ms : list ModelMessage) : Z :=
  fold_left (λ bytes message, usize_saturating_add bytes (retained_bytes message)) ms 0%Z.

(** The loop of [history], newest turn first, up to its [break]. *)
Fixpoint take_within (remaining : Z) (ts : list (list ModelMessage)) : list (list ModelMessage) :=
  match ts with
  | [] => []
  | ms :: rest =>
      if (remaining <? turn_bytes ms)%Z then []
      else ms :: take_within (remaining - turn_bytes ms) rest
  end.

Definition history (r : SessionRecord) : list (list ModelMessage) :=
  rev (take_within (max_history_bytes (configuration r))
         (messages <$> List.filter is_completed (rev (turns r)))).

Definition has_request (host_id : str) (turn : TurnRecord) : bool :=
  match turn_request turn with
  | Some request => str_eqb (request_id request) host_id
  | None => false
  end.

Definition turn_writes (r : SessionRecord) (position : Z) : list WriteRecord :=
  List.filter (λ w, (write_turn_position w =? position)%Z) (writes r).

Definition host_turn_status (turn : TurnRecord) : option HostTurnStatus :=
  match turn_status turn with
  | Running => Some InProgress
  | Completed => HostCompleted <$> outcome turn
  | Failed => Some (HostFailed (default [] (error_type turn)))
  | Interrupted => Some (HostInterrupted (default [] (error_type turn)))
  end.

Definition request (r : SessionRecord) (host_id : str) : option HostTurnRecord :=
  turn ← list_find_b (has_request host_id) (turns r);
  req ← turn_request turn;
  status ← host_turn_status turn;
  let turn_position := owner_turn_position (turn_owner turn) in
  Some (mkHostTurnRecord (Some (turn_model turn)) req status turn_position
          (turn_writes r turn_position)).

Definition check_request (self : HostTurnRecord) (req : HostRequest) : result unit SessionError :=
  if decide (host_request self = req) then Ok tt else Err HostTurnConflict.

Definition is_live (owner : TurnOwner) (now : Z) (turn : TurnRecord) : bool :=
  TurnOwner_eq (turn_owner turn) owner && is_running turn && (now <? deadline turn)%Z.

Definition live_turn (r : SessionRecord) (owner : TurnOwner) (now : Z)
  : result TurnRecord SessionError :=
  match last (turns r) with
  | Some turn => if is_live owner now turn then Ok turn else Err (lost owner)
  | None => Err (lost owner)
  end.

(** [AcquiredTurn::new] and [AcquiredTurn::activate]; the renewal task that
    activation starts calls [renew], and dropping the value [interrupt]. *)
Definition AcquiredTurn_new (store : StoreIdentity) (owner : TurnOwner) (d : Z)
    (ts : list (list ModelMessage)) (continuation : option str) : result AcquiredTurn SessionError :=
  if decide (store = owner_database owner) then Ok (mkAcquiredTurn owner d continuation ts)
  else Err (lost owner).

Definition AcquiredTurn_activate (self : AcquiredTurn) (now : Z) : result AcquiredTurn SessionError :=
  if (acquired_deadline self <=? now)%Z then Err (lost (acquired_owner self))
  else Ok (mkAcquiredTurn (with_interruption (acquired_owner self) L"cancelled")
             (acquired_deadline self) (acquired_provider_session_id self) (acquired_turns self)).

(** ** Acquisition *)

Definition different_backing : SessionError :=
  InvalidData L"acquisition store has a different backing identity".
Definition position_overflow : SessionError :=
  InvalidData L"session turn position exceeds integer range".

Definition last_running (r : SessionRecord) : bool :=
  match last (turns r) with Some turn => is_running turn | None => false end.

(** [previous.map(decode).transpose()?.is_some_and(..)]. *)
Definition previous_compatible (r : SessionRecord) (options : TurnOptions Value)
  : result bool SessionError :=
  match list_find_b is_completed (rev (turns r)) with
  | None => Ok false
  | Some turn =>
      match decode (options_text turn) with
      | Err error => Err (SessionError_from_options error)
      | Ok snapshot => Ok (continuation_compatible snapshot options)
      end
  end.

Definition reserved_turn (r : SessionRecord) (owner : TurnOwner) (d : Z) (input : TurnInput)
    (options : TurnOptions Value) (req : option HostRequest) : TurnRecord :=
  mkTurnRecord d None [into_user_message input] (recorded_model (configuration r)) (encode options)
    None owner req Running.

(** The part of [acquire] after the request lookup, on the recovered record:
    checks, then the reservation of the next position. *)
Definition reserve (self store : StoreIdentity) (session_id : str) (input : TurnInput)
    (options : TurnOptions Value) (req : option HostRequest) (generation : Z)
    (now_deadline now_activate : Z) (r : SessionRecord)
  : result HostTurnAcquisition SessionError * SessionRecord :=
  match check_generation session_id (model_generation (configuration r)) generation with
  | Err e => (Err e, r)
  | Ok _ =>
      if last_running r then (Err (Busy session_id), r) else
      match previous_compatible r options with
      | Err e => (Err e, r)
      | Ok compatible =>
          let continuation := if compatible then provider_session_id (configuration r) else None in
          let position := next_turn r in
          match i64_checked_add position 1 with
          | None => (Err position_overflow, r)
          | Some next_position =>
              let owner := TurnOwner_new self session_id position (to_le_bytes position) in
              let d := (now_deadline + lease)%Z in
              match AcquiredTurn_new store owner d (history r) continuation with
              | Err e => (Err e, r)
              | Ok acquired =>
                  let r' := mkSessionRecord (set_provider_session (configuration r) continuation)
                              next_position (turns r ++ [reserved_turn r owner d input options req])
                              (writes r) in
                  match AcquiredTurn_activate acquired now_activate with
                  | Err e => (Err e, r')
                  | Ok active => (Ok (Acquired active), r')
                  end
              end
          end
      end
  end.

Definition acquire (self store : StoreIdentity) (session_id : str) (input : TurnInput)
    (options : TurnOptions Value) (req : option HostRequest) (generation : Z)
    (now_recover now_deadline now_activate : Z) (state : State)
  : result HostTurnAcquisition SessionError * State :=
  if decide (store ≠ self) then (Err different_backing, state) else
  match sessions state !! session_id with
  | None => (Err (NotFound session_id), state)
  | Some r0 =>
      let r := recover now_recover r0 in
      match q ← req; request r (request_id q) with
      | Some record =>
          (match req with
           | Some q => match check_request record q with
                       | Err e => Err e
                       | Ok _ => Ok (Recorded record)
                       end
           | None => Ok (Recorded record)
           end, set_session state session_id r)
      | None =>
          let '(res, r') := reserve self store session_id input options req generation
                              now_deadline now_activate r in
          (res, set_session state session_id r')
      end
  end.

Definition begin_turn (self store : StoreIdentity) (session_id : str) (input : TurnInput)
    (options : TurnOptions Value) (generation : Z) (now_recover now_deadline now_activate : Z)
    (state : State) : result AcquiredTurn SessionError * State :=
  let '(res, state') := acquire self store session_id input options None generation
                          now_recover now_deadline now_activate state in
  (match res with
   | Err e => Err e
   | Ok (Acquired acquired) => Ok acquired
   | Ok (Recorded _) => Err HostTurnConflict
   end, state').

Definition begin_request (self store : StoreIdentity) (session_id : str) (input : TurnInput)
    (options : TurnOptions Value) (req : HostRequest) (generation : Z)
    (now_recover now_deadline now_activate : Z) (state : State)
  : result HostTurnAcquisition SessionError * State :=
  acquire self store session_id input options (Some req) generation
    now_recover now_deadline now_activate state.

(** ** Session operations *)

Definition create_session (config : NewSession) (metadata : option ModelMetadata) (budget : Z)
    (state : State) : result unit SessionError * State :=
  if is_empty (trim (new_id config))
  then (Err (InvalidData L"session identifier must not be empty"), state)
  else match sessions state !! new_id config with
       | Some _ => (Err (AlreadyExists (new_id config)), state)
       | None =>
           (Ok tt,
            set_session state (new_id config)
              (mkSessionRecord
                 (mkLoadedSession budget (metadata_model <$> metadata) 0
                    (metadata_provider <$> metadata) None (new_registration_identity config)
                    (new_schema config) (new_system_prompt config) [])
                 0 [] []))
       end.

Definition load_session (id : str) (now : Z) (state : State)
  : result LoadedSession SessionError * State :=
  match sessions state !! id with
  | None => (Err (NotFound id), state)
  | Some r0 =>
      let r := recover now r0 in
      (Ok (set_loaded_turns (configuration r) (history r)), set_session state id r)
  end.

Definition load_request (session_id host_id : str) (now : Z) (state : State)
  : result (option HostTurnRecord) SessionError * State :=
  match sessions state !! session_id with
  | None => (Err (NotFound session_id), state)
  | Some r0 =>
      let r := recover now r0 in
      (Ok (request r host_id), set_session state session_id r)
  end.

Definition completed_messages (r : SessionRecord) : list ModelMessage :=
  flat_map messages (List.filter is_completed (turns r)).

Definition select_model (id : str) (generation : Z) (identity : ExecutionIdentity)
    (metadata : option ModelMetadata) (capabilities : ModelCapabilities) (r : SessionRecord)
  : result Z SessionError * SessionRecord :=
  match check_generation id (model_generation (configuration r)) generation with
  | Err e => (Err e, r)
  | Ok _ =>
      if last_running r then (Err (Busy id), r) else
      match check_history (completed_messages r) capabilities with
      | Err e => (Err e, r)
      | Ok _ =>
          match next_generation generation with
          | Err e => (Err e, r)
          | Ok next =>
              (Ok next, mkSessionRecord (set_selection (configuration r) next identity metadata)
                          (next_turn r) (turns r) (writes r))
          end
      end
  end.

Definition switch_model (id : str) (generation : Z) (identity : ExecutionIdentity)
    (metadata : option ModelMetadata) (capabilities : ModelCapabilities) (now : Z) (state : State)
  : result Z SessionError * State :=
  match sessions state !! id with
  | None => (Err (NotFound id), state)
  | Some r0 =>
      let '(res, r) := select_model id generation identity metadata capabilities (recover now r0) in
      (res, set_session state id r)
  end.

(** ** Owner-scoped operations *)

Definition validate_identity (self : StoreIdentity) (owner : TurnOwner) : result unit SessionError :=
  if decide (owner_database owner = self) then Ok tt else Err (lost owner).

Definition owned_session (state : State) (owner : TurnOwner) : result SessionRecord SessionError :=
  match sessions state !! owner_session_id owner with
  | Some r => Ok r
  | None => Err (lost owner)
  end.

(** The shared opening of the owner-scoped mutations: identity, session, live
    turn; [body] then runs on the record and its last turn. *)
Definition with_live {A} (self : StoreIdentity) (owner : TurnOwner) (now : Z) (state : State)
    (body : SessionRecord → TurnRecord → result A SessionError * State)
  : result A SessionError * State :=
  match validate_identity self owner with
  | Err e => (Err e, state)
  | Ok _ =>
      match owned_session state owner with
      | Err e => (Err e, state)
      | Ok r =>
          match live_turn r owner now with
          | Err e => (Err e, state)
          | Ok turn => body r turn
          end
      end
  end.

Definition outcome_required : SessionError :=
  InvalidData L"host turn completion requires its terminal outcome".

Definition complete (self : StoreIdentity) (owner : TurnOwner) (added : list ModelMessage)
    (continuation : option str) (o : option Outcome) (now : Z) (state : State)
  : result unit SessionError * State :=
  with_live self owner now state (λ r turn,
    if bool_decide (is_Some (turn_request turn)) && negb (bool_decide (is_Some o))
    then (Err outcome_required, state)
    else (Ok tt, set_session state (owner_session_id owner)
                   (set_continuation (set_last_turn r (set_completed turn added o)) continuation))).

Definition complete_turn (self : StoreIdentity) (owner : TurnOwner) (added : list ModelMessage)
    (continuation : option str) (now : Z) (state : State) : result unit SessionError * State :=
  complete self owner added continuation None now state.

Definition complete_request (self : StoreIdentity) (owner : TurnOwner) (added : list ModelMessage)
    (continuation : option str) (o : Outcome) (now : Z) (state : State)
  : result unit SessionError * State :=
  complete self owner added continuation (Some o) now state.

Definition renew (self : StoreIdentity) (owner : TurnOwner) (now now_deadline : Z) (state : State)
  : result Z SessionError * State :=
  with_live self owner now state (λ r turn,
    let d := (now_deadline + lease)%Z in
    (Ok d, set_session state (owner_session_id owner) (set_last_turn r (set_deadline turn d)))).

Definition fail_turn (self : StoreIdentity) (owner : TurnOwner) (error : TurnErrorType) (now : Z)
    (state : State) : result unit SessionError * State :=
  with_live self owner now state (λ r turn,
    (Ok tt, set_session state (owner_session_id owner)
       (set_continuation
          (set_last_turn r (set_status turn Failed (Some (TurnErrorType_debug error)))) None))).

Definition interrupt (self : StoreIdentity) (owner : TurnOwner) (state : State)
  : result unit SessionError * State :=
  match validate_identity self owner with
  | Err e => (Err e, state)
  | Ok _ =>
      (Ok tt,
       match sessions state !! owner_session_id owner with
       | Some r =>
           match last (turns r) with
           | Some turn =>
               if TurnOwner_eq (turn_owner turn) owner && is_running turn then
                 set_session state (owner_session_id owner)
                   (set_continuation
                      (set_last_turn r
                         (set_status turn Interrupted (Some (interruption_error_type owner)))) None)
               else state
           | None => state
           end
       | None => state
       end)
  end.

(** ** Write journal *)

Definition load_writes (session_id : str) (state : State) : list WriteRecord :=
  match sessions state !! session_id with Some r => writes r | None => [] end.

Definition write_overflow : SessionError :=
  InvalidData L"write identifier exceeds integer range".

Definition write_intent (self : StoreIdentity) (owner : TurnOwner) (call_id root path : str)
    (expected : option (list N)) (resulting : list N) (now : Z) (state : State)
  : result Z SessionError * State :=
  match validate_identity self owner with
  | Err e => (Err e, state)
  | Ok _ =>
      match i64_checked_add (next_write state) 1 with
      | None => (Err write_overflow, state)
      | Some id =>
          with_live self owner now state (λ r _,
            let write := mkWriteRecord call_id (content_hash <$> expected) id path root
                           (content_hash resulting) WritePending (owner_turn_position owner) in
            (Ok id, mkState id
               (<[owner_session_id owner :=
                    mkSessionRecord (configuration r) (next_turn r) (turns r) (writes r ++ [write])]>
                  (sessions state))))
      end
  end.

Definition settled (applied : bool) : WriteStatus := if applied then WriteApplied else WriteFailed.

Definition settles (owner : TurnOwner) (id : Z) (status : WriteStatus) (w : WriteRecord) : bool :=
  (write_id w =? id)%Z && (write_turn_position w =? owner_turn_position owner)%Z &&
  (bool_decide (write_status w = WritePending) || bool_decide (write_status w = status)).

Definition set_write_status (w : WriteRecord) (status : WriteStatus) : WriteRecord :=
  mkWriteRecord (write_call_id w) (write_expected_hash w) (write_id w) (write_path w)
    (write_repository_root w) (write_resulting_hash w) status (write_turn_position w).

(** Assigning through the reference that [iter_mut().find(..)] returns. *)
Fixpoint update_first {A} (p : A → bool) (f : A → A) (l : list A) : option (list A) :=
  match l with
  | [] => None
  | x :: rest => if p x then Some (f x :: rest) else cons x <$> update_first p f rest
  end.

Definition finish_write (self : StoreIdentity) (owner : TurnOwner) (id : Z) (applied : bool)
    (state : State) : result unit SessionError * State :=
  match validate_identity self owner with
  | Err e => (Err e, state)
  | Ok _ =>
      match owned_session state owner with
      | Err e => (Err e, state)
      | Ok r =>
          if negb (existsb (λ turn, TurnOwner_eq (turn_owner turn) owner) (turns r))
          then (Err (lost owner), state)
          else
            match update_first (settles owner id (settled applied))
                    (λ w, set_write_status w (settled applied)) (writes r) with
            | None => (Err (lost owner), state)
            | Some ws =>
                (Ok tt, set_session state (owner_session_id owner)
                   (mkSessionRecord (configuration r) (next_turn r) (turns r) ws))
            end
      end
  end.
End store.
