(* ===== verification/StoreLaws.v ===== *)
(** * Laws of the process-local session store (crates/ag-harness/src/memory_store.rs, store.rs)

    The [SessionStore] contract as transitions of one session record, the proof
    that every operation of [MemoryStore] performs only such transitions, and
    what follows for any sequence of operations: at most one running turn, the
    last one; finished turns and settled writes never change; a host request
    runs at most once; a caller without the live lease changes nothing. *)
From S2P Require Import Prelude HarnessModel TurnSnapshot MemoryStore.

Section laws.
Context {Value Outcome : Type} `{ToolArgumentTypes} `{!SnapshotCodec Value} `{ContentHash}.
Context (self : StoreIdentity).

Local Abbreviation TurnRecord := (TurnRecord (Outcome := Outcome)).
Local Abbreviation SessionRecord := (SessionRecord (Value := Value) (Outcome := Outcome)).
Local Abbreviation State := (State (Value := Value) (Outcome := Outcome)).

(** ** The operations as data *)

Inductive Op :=
| OpCreate (config : NewSession (Value := Value)) (metadata : option ModelMetadata) (budget : Z)
| OpLoad (id : str) (now : Z)
| OpLoadRequest (session_id host_id : str) (now : Z)
| OpSwitch (id : str) (generation : Z) (identity : ExecutionIdentity)
    (metadata : option ModelMetadata) (capabilities : ModelCapabilities) (now : Z)
| OpBegin (store : StoreIdentity) (session_id : str) (input : TurnInput)
    (options : TurnOptions Value) (generation now_recover now_deadline now_activate : Z)
| OpBeginRequest (store : StoreIdentity) (session_id : str) (input : TurnInput)
    (options : TurnOptions Value) (req : HostRequest)
    (generation now_recover now_deadline now_activate : Z)
| OpComplete (owner : TurnOwner) (added : list ModelMessage) (continuation : option str) (now : Z)
| OpCompleteRequest (owner : TurnOwner) (added : list ModelMessage) (continuation : option str)
    (o : Outcome) (now : Z)
| OpRenew (owner : TurnOwner) (now now_deadline : Z)
| OpFail (owner : TurnOwner) (error : TurnErrorType) (now : Z)
| OpInterrupt (owner : TurnOwner)
| OpIntent (owner : TurnOwner) (call_id root path : str) (expected : option (list N))
    (resulting : list N) (now : Z)
| OpFinish (owner : TurnOwner) (id : Z) (applied : bool).

Definition exec (state : State) (op : Op) : State :=
  match op with
  | OpCreate config metadata budget => (create_session config metadata budget state).2
  | OpLoad id now => (load_session id now state).2
  | OpLoadRequest session_id host_id now => (load_request session_id host_id now state).2
  | OpSwitch id generation identity metadata capabilities now =>
      (switch_model id generation identity metadata capabilities now state).2
  | OpBegin store session_id input options generation t1 t2 t3 =>
      (begin_turn self store session_id input options generation t1 t2 t3 state).2
  | OpBeginRequest store session_id input options req generation t1 t2 t3 =>
      (begin_request self store session_id input options req generation t1 t2 t3 state).2
  | OpComplete owner added continuation now =>
      (complete_turn self owner added continuation now state).2
  | OpCompleteRequest owner added continuation o now =>
      (complete_request self owner added continuation o now state).2
  | OpRenew owner now now_deadline => (renew self owner now now_deadline state).2
  | OpFail owner error now => (fail_turn self owner error now state).2
  | OpInterrupt owner => (interrupt self owner state).2
  | OpIntent owner call_id root path expected resulting now =>
      (write_intent self owner call_id root path expected resulting now state).2
  | OpFinish owner id applied => (finish_write self owner id applied state).2
  end.

Definition run (ops : list Op) (state : State) : State := fold_left exec ops state.

(** ** The contract: transitions of one record *)

Inductive turn_step : TurnRecord → option str → TurnRecord → option str → Prop :=
| turn_renewed t c d : turn_status t = Running → turn_step t c (set_deadline t d) c
| turn_completed t c added o c' :
    turn_status t = Running → (is_Some (turn_request t) → is_Some o) →
    turn_step t c (set_completed t added o) c'
| turn_failed t c e : turn_status t = Running → turn_step t c (set_status t Failed (Some e)) None
| turn_interrupted t c e :
    turn_status t = Running → turn_step t c (set_status t Interrupted (Some e)) None.

Inductive write_step : WriteRecord → WriteRecord → Prop :=
| write_settled w applied :
    write_status w = WritePending ∨ write_status w = settled applied →
    write_step w (set_write_status w (settled applied)).

Definition host_ids (ts : list TurnRecord) : list str :=
  omap (λ t, request_id <$> turn_request t) ts.

(** One transition of the record of session [id] and of the write counter. *)
Inductive record_step (id : str) : Z * SessionRecord → Z * SessionRecord → Prop :=
| step_turn nw r ts t t' c' :
    turns r = ts ++ [t] → turn_step t (provider_session_id (configuration r)) t' c' →
    record_step id (nw, r)
      (nw, mkSessionRecord (set_provider_session (configuration r) c') (next_turn r) (ts ++ [t'])
             (writes r))
| step_reserve nw r c' d input options req :
    last_running r = false →
    (next_turn r + 1 <= i64_max)%Z →
    (∀ q, req = Some q → request_id q ∉ host_ids (turns r)) →
    c' = None ∨ c' = provider_session_id (configuration r) →
    record_step id (nw, r)
      (nw, mkSessionRecord (set_provider_session (configuration r) c') (next_turn r + 1)
             (turns r ++ [reserved_turn r (TurnOwner_new self id (next_turn r)
                            (to_le_bytes (next_turn r))) d input options req])
             (writes r))
| step_select nw r identity metadata :
    last_running r = false →
    record_step id (nw, r)
      (nw, mkSessionRecord
             (set_selection (configuration r) (model_generation (configuration r) + 1) identity metadata)
             (next_turn r) (turns r) (writes r))
| step_intent nw r call_id expected path root resulting :
    last_running r = true →
    record_step id (nw, r)
      ((nw + 1)%Z,
       mkSessionRecord (configuration r) (next_turn r) (turns r)
         (writes r ++ [mkWriteRecord call_id expected (nw + 1) path root resulting WritePending
                         (next_turn r - 1)]))
| step_settle nw r ws1 w w' ws2 :
    writes r = ws1 ++ w :: ws2 → write_step w w' →
    record_step id (nw, r)
      (nw, mkSessionRecord (configuration r) (next_turn r) (turns r) (ws1 ++ w' :: ws2))
| step_elsewhere nw nw' r : (nw <= nw')%Z → record_step id (nw, r) (nw', r).

Record record_wf (id : str) (p : Z * SessionRecord) : Prop := mkRecordWf {
  wf_owner i t : turns p.2 !! i = Some t →
    TurnOwner_identity (turn_owner t) = (self, id, Z.of_nat i, to_le_bytes (Z.of_nat i));
  wf_running i t : turns p.2 !! i = Some t → turn_status t = Running → S i = length (turns p.2);
  wf_next : next_turn p.2 = Z.of_nat (length (turns p.2));
  wf_outcome t : t ∈ turns p.2 → turn_status t = Completed → is_Some (turn_request t) →
    is_Some (outcome t);
  wf_requests : NoDup (host_ids (turns p.2));
  wf_stopped t : last (turns p.2) = Some t → turn_status t = Failed ∨ turn_status t = Interrupted →
    provider_session_id (configuration p.2) = None;
  wf_write_ids : StronglySorted Z.lt (write_id <$> writes p.2);
  wf_writes w : w ∈ writes p.2 →
    (write_id w <= p.1)%Z ∧ (0 <= write_turn_position w < next_turn p.2)%Z
}.

Definition state_wf (state : State) : Prop :=
  ∀ id r, sessions state !! id = Some r → record_wf id (next_write state, r).

(** What a later record keeps of an earlier one. *)
Record turn_le (t t' : TurnRecord) : Prop := mkTurnLe {
  le_owner : turn_owner t' = turn_owner t;
  le_model : turn_model t' = turn_model t;
  le_options : options_text t' = options_text t;
  le_request : turn_request t' = turn_request t;
  le_messages : messages t `prefix_of` messages t';
  le_terminal : turn_status t ≠ Running → t' = t
}.

Record write_le (w w' : WriteRecord) : Prop := mkWriteLe {
  le_write : ∃ status, w' = set_write_status w status;
  le_settled : write_status w ≠ WritePending → w' = w
}.

Definition rows_le {A} (R : A → A → Prop) (l l' : list A) : Prop :=
  ∀ i x, l !! i = Some x → ∃ x', l' !! i = Some x' ∧ R x x'.

Definition selection (c : LoadedSession (Value := Value))
  : Z * option str * option str * option ExecutionIdentity :=
  (model_generation c, loaded_model c, loaded_provider c, registration_identity c).

Record record_le (p p' : Z * SessionRecord) : Prop := mkRecordLe {
  le_counter : (p.1 <= p'.1)%Z;
  le_turns : rows_le turn_le (turns p.2) (turns p'.2);
  le_writes : rows_le write_le (writes p.2) (writes p'.2);
  le_generation : (model_generation (configuration p.2) <= model_generation (configuration p'.2))%Z;
  le_selection :
    model_generation (configuration p'.2) = model_generation (configuration p.2) →
    selection (configuration p'.2) = selection (configuration p.2);
  le_session : (max_history_bytes (configuration p'.2), loaded_schema (configuration p'.2),
                loaded_system_prompt (configuration p'.2)) =
               (max_history_bytes (configuration p.2), loaded_schema (configuration p.2),
                loaded_system_prompt (configuration p.2))
}.

(** ** Laws of the order *)

#[local] Instance turn_le_preorder : PreOrder turn_le.
Proof.
  split; [by intros t; constructor|]. intros a b c [Hab1 Hab2 Hab3 Hab4 Hab5 Hab6] [].
  split; try congruence; [by etrans|]. intros Hs. specialize (Hab6 Hs). subst. auto.
Qed.

Lemma set_write_status_id w : set_write_status w (write_status w) = w.
Proof. by destruct w. Qed.

#[local] Instance write_le_preorder : PreOrder write_le.
Proof.
  split.
  - intros w. split; [exists (write_status w); symmetry; apply set_write_status_id|done].
  - intros a b c [[s1 ->] Hab] [[s2 ->] Hbc]. split; [by exists s2|]. intros Hs.
    specialize (Hab Hs). rewrite Hab in Hbc |- *. auto.
Qed.

Lemma rows_le_preorder {A} (R : A → A → Prop) : PreOrder R → PreOrder (rows_le R).
Proof.
  intros HR. split; [intros l i x Hx; exists x; split; [done|reflexivity]|].
  intros a b c Hab Hbc i x (y & Hy & Rxy)%Hab. destruct (Hbc _ _ Hy) as (z & Hz & Ryz).
  exists z. split; [done|]. by etrans.
Qed.

Lemma rows_le_app {A} (R : A → A → Prop) `{!PreOrder R} (l k : list A) : rows_le R l (l ++ k).
Proof.
  intros i x Hx. exists x. split; [|reflexivity]. by apply lookup_app_l_Some.
Qed.

Lemma rows_le_middle {A} (R : A → A → Prop) `{!PreOrder R} (l k : list A) x x' :
  R x x' → rows_le R (l ++ x :: k) (l ++ x' :: k).
Proof.
  intros HR i y Hy. destruct (decide (i = length l)) as [->|Hne].
  - rewrite list_lookup_middle in Hy by done. simplify_eq. exists x'. split; [|done].
    by apply list_lookup_middle.
  - exists y. split; [|reflexivity]. rewrite <- Hy. destruct (decide (i < length l)).
    + by rewrite !lookup_app_l by done.
    + rewrite !lookup_app_r by lia. destruct (i - length l) eqn:E; [lia|done].
Qed.

#[local] Instance record_le_preorder : PreOrder record_le.
Proof.
  pose proof (rows_le_preorder turn_le _). pose proof (rows_le_preorder write_le _).
  split.
  - intros p. split; (lia || done || reflexivity).
  - intros p q s [] []. split; try (etrans; eassumption); try congruence.
    intros Hg. assert (model_generation (configuration q.2) = model_generation (configuration p.2)) by lia.
    etrans; [apply le_selection1|apply le_selection0]; lia.
Qed.

Lemma turn_step_le t c t' c' : turn_step t c t' c' → turn_le t t'.
Proof.
  destruct 1; split; cbn; try done; try congruence. apply prefix_app_r. done.
Qed.

Lemma write_step_le w w' : write_step w w' → write_le w w'.
Proof.
  destruct 1 as [w applied Hw]. split; [by eexists|]. intros Hp.
  destruct Hw as [|Hw]; [done|]. rewrite <- Hw. apply set_write_status_id.
Qed.

(** Every transition keeps what is recorded. *)
Lemma record_step_le id p p' : record_step id p p' → record_le p p'.
Proof.
  destruct 1 as [nw r ts t t' c' E Ht|nw r c' d input options req| | |nw r ws1 w w' ws2 E Hw|];
    split; cbn; try (done || lia || apply rows_le_app, _ || (apply rows_le_preorder, _)).
  - rewrite E. by apply (rows_le_middle _), (turn_step_le _ _ _ _ Ht).
  - rewrite E. by apply (rows_le_middle _), write_step_le.
Qed.

(** ** Every transition preserves well-formedness *)

Lemma lookup_snoc_cases {A} (l : list A) x i y :
  (l ++ [x]) !! i = Some y → l !! i = Some y ∨ i = length l ∧ y = x.
Proof.
  intros [?|[? [? ->]%list_lookup_singleton_Some]]%lookup_app_Some; [by left|right; split; [lia|done]].
Qed.

Lemma host_ids_app ts ts' : host_ids (ts ++ ts') = host_ids ts ++ host_ids ts'.
Proof. apply omap_app. Qed.

Lemma turn_step_fields t c t' c' :
  turn_step t c t' c' →
  turn_status t = Running ∧ turn_owner t' = turn_owner t ∧ turn_request t' = turn_request t ∧
  (turn_status t' = Completed → is_Some (turn_request t') → is_Some (outcome t')) ∧
  (turn_status t' = Failed ∨ turn_status t' = Interrupted → c' = None).
Proof. destruct 1; cbn; repeat split; try done; try (intros; congruence); auto;
  intros []; congruence. Qed.

Lemma wf_step_turn id nw r ts t t' c' :
  turns r = ts ++ [t] → turn_step t (provider_session_id (configuration r)) t' c' →
  record_wf id (nw, r) →
  record_wf id (nw, mkSessionRecord (set_provider_session (configuration r) c') (next_turn r)
                      (ts ++ [t']) (writes r)).
Proof.
  intros E Hs [Ho Hr Hn Hc Hq Hp Hi Hw]. simpl in *.
  apply turn_step_fields in Hs as (Hrun & Eo & Eq & Hout & Hstop). rewrite E in *. split; cbn.
  - intros i x [Hx|[-> ->]]%lookup_snoc_cases; [apply (Ho i); by apply lookup_app_l_Some|].
    rewrite Eo. apply Ho. by apply list_lookup_middle.
  - intros i x Hx Hxr. rewrite length_app in *. cbn in *.
    apply lookup_lt_Some in Hx as Hi'. rewrite length_app in Hi'. cbn in Hi'.
    apply lookup_snoc_cases in Hx as [Hx|[-> ->]]; [|lia].
    apply (Hr i x); [by apply lookup_app_l_Some|done].
  - rewrite length_app in *. done.
  - intros x [Hx|Hx]%elem_of_app Hcx; [apply Hc; [set_solver|done]|].
    apply list_elem_of_singleton in Hx as ->. auto.
  - revert Hq. rewrite !host_ids_app. cbn. by rewrite Eq.
  - intros x. rewrite last_snoc. intros [= <-]. done.
  - done.
  - done.
Qed.

Lemma last_running_false r id nw i t :
  record_wf id (nw, r) → last_running r = false → turns r !! i = Some t → turn_status t ≠ Running.
Proof.
  intros Hwf Hl Hi Hrun. pose proof (wf_running _ _ Hwf i t Hi Hrun) as Hlen. simpl in Hlen.
  unfold last_running in Hl. rewrite last_lookup, <- Hlen in Hl. simpl in Hl. rewrite Hi in Hl.
  unfold is_running in Hl. by rewrite bool_decide_eq_true_2 in Hl.
Qed.

Lemma last_running_nonempty (r : SessionRecord) : last_running r = true → 0 < length (turns r).
Proof. unfold last_running. destruct (turns r); simpl; [done|lia]. Qed.

Lemma wf_step_reserve id nw r c' d input options req :
  last_running r = false →
  (∀ q, req = Some q → request_id q ∉ host_ids (turns r)) →
  record_wf id (nw, r) →
  record_wf id
    (nw, mkSessionRecord (set_provider_session (configuration r) c') (next_turn r + 1)
           (turns r ++ [reserved_turn r (TurnOwner_new self id (next_turn r)
                          (to_le_bytes (next_turn r))) d input options req]) (writes r)).
Proof.
  intros Hl Hnew Hwf. pose proof (λ i t, last_running_false r id nw i t Hwf Hl) as Hnr.
  destruct Hwf as [Ho Hr Hn Hc Hq Hp Hi Hw]. simpl in *. split; cbn.
  - intros i x [Hx|[-> ->]]%lookup_snoc_cases; [by apply Ho|]. cbn. by rewrite Hn.
  - intros i x [Hx|[-> ->]]%lookup_snoc_cases Hxr; [by destruct (Hnr i x)|].
    rewrite length_app. cbn. lia.
  - rewrite length_app. cbn. lia.
  - intros x [Hx|Hx]%elem_of_app Hcx; [by apply Hc|]. apply list_elem_of_singleton in Hx as ->. done.
  - rewrite host_ids_app. apply NoDup_app. split; [done|]. cbn.
    destruct req as [q|]; cbn; [|split; [set_solver|constructor]].
    split; [|apply NoDup_singleton]. intros x Hx ->%list_elem_of_singleton. by apply (Hnew q).
  - intros x. rewrite last_snoc. intros [= <-]. cbn. by intros [].
  - done.
  - intros w [? ?]%Hw. lia.
Qed.

Lemma StronglySorted_snoc (l : list Z) x :
  StronglySorted Z.lt l → (∀ y, y ∈ l → (y < x)%Z) → StronglySorted Z.lt (l ++ [x]).
Proof.
  induction 1 as [|y l Hl IH Hy]; intros Hx; simpl; [repeat constructor|].
  constructor; [apply IH; set_solver|]. apply Forall_app. split; [done|]. constructor; [|done].
  apply Hx. by left.
Qed.

Lemma wf_step_intent id nw r call_id expected path root resulting :
  last_running r = true →
  record_wf id (nw, r) →
  record_wf id
    ((nw + 1)%Z, mkSessionRecord (configuration r) (next_turn r) (turns r)
       (writes r ++ [mkWriteRecord call_id expected (nw + 1) path root resulting WritePending
                       (next_turn r - 1)])).
Proof.
  intros Hl%last_running_nonempty [Ho Hr Hn Hc Hq Hp Hi Hw]. simpl in *. split; cbn; try done.
  - rewrite fmap_app. apply StronglySorted_snoc; [done|].
    intros y (w & -> & Hin)%list_elem_of_fmap. cbn. destruct (Hw w Hin). lia.
  - intros w [Hin|Hin]%elem_of_app; [destruct (Hw w Hin); lia|].
    apply list_elem_of_singleton in Hin as ->. cbn. lia.
Qed.

Lemma write_step_fields w w' :
  write_step w w' → write_id w' = write_id w ∧ write_turn_position w' = write_turn_position w.
Proof. by destruct 1. Qed.

Lemma record_step_wf id p p' : record_step id p p' → record_wf id p → record_wf id p'.
Proof.
  destruct 1 as [nw r ts t t' c' E Ht|nw r c' d input options req Hl Hb Hnew Hc'|nw r identity metadata Hl
    |nw r call_id expected path root resulting Hl|nw r ws1 w w' ws2 E Hw|nw nw' r Hle].
  - by apply wf_step_turn with (t := t).
  - by apply wf_step_reserve.
  - intros []. by split.
  - by apply wf_step_intent.
  - intros []. apply write_step_fields in Hw as [Ei Ep]. simpl in *. rewrite E in *.
    split; cbn; try done.
    + revert wf_write_ids0. rewrite !fmap_app. cbn. by rewrite Ei.
    + intros x [Hx|[->|Hx]%elem_of_cons]%elem_of_app; [apply wf_writes0; set_solver| |apply wf_writes0; set_solver].
      rewrite Ei, Ep. apply wf_writes0. set_solver.
  - intros []. split; try done. simpl in *. intros w Hw. destruct (wf_writes0 w Hw). lia.
Qed.

Lemma rtc_step_wf id p p' : rtc (record_step id) p p' → record_wf id p → record_wf id p'.
Proof. induction 1; eauto using record_step_wf. Qed.

Lemma rtc_step_le id p p' : rtc (record_step id) p p' → record_le p p'.
Proof. induction 1; [reflexivity|]. etrans; [by eapply record_step_le|done]. Qed.

(** ** Every operation performs transitions of the contract *)

Definition fresh_record (r : SessionRecord) : Prop :=
  next_turn r = 0%Z ∧ turns r = [] ∧ writes r = [] ∧ model_generation (configuration r) = 0%Z ∧
  provider_session_id (configuration r) = None.

Definition state_steps (s s' : State) : Prop :=
  (next_write s <= next_write s')%Z ∧
  ∀ id, match sessions s !! id, sessions s' !! id with
        | Some r, Some r' => rtc (record_step id) (next_write s, r) (next_write s', r')
        | Some _, None => False
        | None, Some r' => fresh_record r'
        | None, None => True
        end.

Lemma state_steps_refl s : state_steps s s.
Proof. split; [lia|]. intros id. by case_match. Qed.

Lemma state_steps_session s id r nw' r' :
  sessions s !! id = Some r → (next_write s <= nw')%Z →
  rtc (record_step id) (next_write s, r) (nw', r') →
  state_steps s (mkState nw' (<[id := r']> (sessions s))).
Proof.
  intros Hr Hle Hs. split; [done|]. simpl. intros id'. destruct (decide (id' = id)) as [->|Hne].
  - by rewrite Hr, lookup_insert_eq.
  - rewrite lookup_insert_ne by done. case_match; [|done]. by apply rtc_once, step_elsewhere.
Qed.

Lemma set_last_snoc {A} (l : list A) x y : set_last (l ++ [x]) y = l ++ [y].
Proof. unfold set_last. rewrite rev_app_distr. simpl. by rewrite rev_involutive. Qed.

Lemma last_turn_step id nw (r : SessionRecord) t t' c' :
  last (turns r) = Some t → turn_step t (provider_session_id (configuration r)) t' c' →
  record_step id (nw, r) (nw, set_continuation (set_last_turn r t') c').
Proof.
  intros [ts E]%last_Some Hs. unfold set_continuation, set_last_turn. cbn.
  rewrite E, set_last_snoc. by apply step_turn with (t := t).
Qed.

Lemma set_continuation_same (r : SessionRecord) :
  set_continuation r (provider_session_id (configuration r)) = r.
Proof. by destruct r as [[]]. Qed.

Lemma renew_turn_step id nw (r : SessionRecord) t d :
  last (turns r) = Some t → turn_status t = Running →
  record_step id (nw, r) (nw, set_last_turn r (set_deadline t d)).
Proof.
  intros Hl Ht. pose proof (last_turn_step id nw r t (set_deadline t d)
    (provider_session_id (configuration r)) Hl (turn_renewed _ _ d Ht)) as Hs.
  change (provider_session_id (configuration r)) with
    (provider_session_id (configuration (set_last_turn r (set_deadline t d)))) in Hs.
  by rewrite set_continuation_same in Hs.
Qed.

Lemma is_running_true t : is_running t = true ↔ turn_status (Outcome := Outcome) t = Running.
Proof. apply bool_decide_eq_true. Qed.

Lemma recover_steps id nw now (r : SessionRecord) :
  rtc (record_step id) (nw, r) (nw, recover now r).
Proof.
  unfold recover. case_match eqn:El; [|done]. case_match eqn:Ec; [|done].
  apply andb_true_iff in Ec as [Ec%is_running_true _].
  by eapply rtc_once, last_turn_step, turn_interrupted.
Qed.

Lemma recover_wf id nw now r : record_wf id (nw, r) → record_wf id (nw, recover now r).
Proof. eauto using rtc_step_wf, recover_steps. Qed.

(** The lookup of a host request misses only when the session has no such request. *)
Lemma request_None id nw r host_id :
  record_wf id (nw, r) → request r host_id = None ↔ host_id ∉ host_ids (turns r).
Proof.
  intros Hwf. unfold request, host_ids. rewrite list_elem_of_omap.
  destruct (list_find_b (has_request host_id) (turns r)) as [t|] eqn:E; cbn.
  - apply list_find_b_Some in E as [Hin Ht]. unfold has_request in Ht.
    destruct (turn_request t) as [q|] eqn:Eq; [|done]. apply str_eqb_true in Ht. cbn.
    assert (is_Some (host_turn_status t)) as [s Es].
    { unfold host_turn_status. case_match eqn:Est; try done.
      destruct (wf_outcome _ _ Hwf t) as [o ->]; rewrite ?Eq; eauto. }
    rewrite Es. cbn. split; [done|]. intros []. exists t. rewrite Eq. cbn. by subst.
  - split; [|done]. intros _ (t & Hin & Ht). rewrite list_find_b_None in E. specialize (E t Hin).
    unfold has_request in E. destruct (turn_request t); [|done]. simplify_eq/=.
    by rewrite str_eqb_refl in E.
Qed.

Lemma reserve_steps store session_id input options req generation t2 t3 nw r :
  record_wf session_id (nw, r) → (∀ q, req = Some q → request r (request_id q) = None) →
  rtc (record_step session_id) (nw, r)
    (nw, (reserve self store session_id input options req generation t2 t3 r).2).
Proof.
  intros Hwf Hreq. unfold reserve. case_match; [|done]. destruct (last_running r) eqn:El; [done|].
  case_match; [|done]. destruct (i64_checked_add _ _) as [np|] eqn:Ea; [|done].
  unfold i64_checked_add in Ea. case_decide; [|done]. simplify_eq.
  case_match; [|done]. assert (Hnew : ∀ q, req = Some q → request_id q ∉ host_ids (turns r)).
  { intros q Eq. apply (request_None session_id nw); auto. }
  destruct (AcquiredTurn_activate _ _); apply rtc_once, step_reserve; try done; try lia;
    case_match; auto.
Qed.

(** The caller that holds the lease: its session's last turn is running, has
    this owner and has not expired. *)
Definition live_owner (s : State) (owner : TurnOwner) (now : Z) (r : SessionRecord) (t : TurnRecord)
  : Prop :=
  owner_database owner = self ∧ sessions s !! owner_session_id owner = Some r ∧
  last (turns r) = Some t ∧ TurnOwner_identity (turn_owner t) = TurnOwner_identity owner ∧
  turn_status t = Running ∧ (now < deadline t)%Z.

Lemma with_live_cases {A} (s : State) owner now (body : SessionRecord → TurnRecord → result A SessionError * State) :
  (∃ r t, live_owner s owner now r t ∧ with_live self owner now s body = body r t) ∨
  (∀ r t, ¬ live_owner s owner now r t) ∧ with_live self owner now s body = (Err (lost owner), s).
Proof.
  unfold with_live, validate_identity, owned_session, live_turn, live_owner.
  case_decide as Ed; [|right; split; [by intros r t [? _]|done]].
  destruct (sessions s !! owner_session_id owner) as [r|]; [|right; split; [by intros r t (? & ? & _)|done]].
  destruct (last (turns r)) as [t|] eqn:El; [|right; split; [intros r' t (_ & [= ->] & Hl & _); congruence|done]].
  destruct (is_live owner now t) eqn:Elive.
  - left. exists r, t. split; [|done]. unfold is_live in Elive.
    apply andb_true_iff in Elive as [[Eo%bool_decide_eq_true Er%is_running_true]%andb_true_iff Hd%Z.ltb_lt].
    done.
  - right. split; [|done]. intros r' t' (_ & Er' & Hl & Eo & Er & Hd).
    assert (r' = r) as -> by congruence. assert (t' = t) as -> by congruence.
    assert (Eb : TurnOwner_eq (turn_owner t) owner = true) by (by apply bool_decide_eq_true).
    unfold is_live in Elive. rewrite Eb, (proj2 (is_running_true t) Er) in Elive.
    simpl in Elive. apply Z.ltb_ge in Elive. lia.
Qed.

Lemma acquire_steps store session_id input options req generation t1 t2 t3 s :
  state_wf s →
  state_steps s (acquire self store session_id input options req generation t1 t2 t3 s).2.
Proof.
  intros Hwf. unfold acquire. case_decide; [apply state_steps_refl|].
  destruct (sessions s !! session_id) as [r|] eqn:Er; [|apply state_steps_refl].
  pose proof (recover_steps session_id (next_write s) t1 r) as Hrec.
  destruct (_ ≫= _) eqn:Eq.
  - by eapply state_steps_session.
  - destruct (reserve _ _ _ _ _ _ _ _ _ _) as [res r'] eqn:Ers.
    eapply state_steps_session; [done..|]. etrans; [exact Hrec|].
    replace r' with (res, r').2 by done. rewrite <- Ers. apply reserve_steps.
    + apply recover_wf, Hwf, Er.
    + intros q ->. exact Eq.
Qed.

Lemma select_steps id generation identity metadata capabilities nw r :
  rtc (record_step id) (nw, r)
    (nw, (select_model id generation identity metadata capabilities r).2).
Proof.
  unfold select_model, check_generation. destruct (Z.eqb_spec (model_generation (configuration r)) generation)
    as [<-|_]; [|done]. destruct (last_running r) eqn:El; [done|]. case_match; [|done].
  unfold next_generation, i64_checked_add. case_decide; [|done]. cbn.
  by apply rtc_once, step_select.
Qed.

Lemma update_first_Some {A} (p : A → bool) f (l l' : list A) :
  update_first p f l = Some l' →
  ∃ l1 x l2, l = l1 ++ x :: l2 ∧ l' = l1 ++ f x :: l2 ∧ p x = true ∧ ∀ y, y ∈ l1 → p y = false.
Proof.
  revert l'. induction l as [|x l IH]; intros l'; simpl; [done|]. destruct (p x) eqn:Ep.
  - intros [= <-]. exists [], x, l. set_solver.
  - intros (l'' & E & ->)%fmap_Some. apply IH in E as (l1 & y & l2 & -> & -> & Hy & Hl).
    exists (x :: l1), y, l2. set_solver.
Qed.

Lemma live_position s owner now r t :
  state_wf s → live_owner s owner now r t →
  owner_turn_position owner = (next_turn r - 1)%Z ∧ last_running r = true.
Proof.
  intros Hwf (_ & Hr & Hl & Eo & Ht & _). pose proof (Hwf _ _ Hr) as [Ho _ Hn _ _ _ _ _]. simpl in *.
  split.
  - apply last_Some in Hl as [ts Els]. specialize (Ho (length ts) t). rewrite Els in *.
    rewrite list_lookup_middle, Eo in Ho by done. specialize (Ho eq_refl).
    rewrite length_app in Hn. apply (f_equal (λ x, x.1.2)) in Ho. cbn in *. lia.
  - unfold last_running. rewrite Hl. by apply is_running_true.
Qed.

Lemma live_turn_step {A} s owner now (body : SessionRecord → TurnRecord → result A SessionError * State) :
  (∀ r t, live_owner s owner now r t →
     (body r t).2 = s ∨
     ∃ r', record_step (owner_session_id owner) (next_write s, r) (next_write s, r') ∧
           (body r t).2 = set_session s (owner_session_id owner) r') →
  state_steps s (with_live self owner now s body).2.
Proof.
  intros Hbody. destruct (with_live_cases s owner now body) as [(r & t & Hlive & ->)|[_ ->]];
    [|apply state_steps_refl].
  destruct (Hbody r t Hlive) as [->|(r' & Hs & ->)]; [apply state_steps_refl|].
  destruct Hlive as (_ & Hr & _). eapply state_steps_session; [done..|]. by apply rtc_once.
Qed.

Lemma complete_steps owner added c o now s :
  state_steps s (complete self owner added c o now s).2.
Proof.
  apply live_turn_step. intros r t (_ & _ & Hl & _ & Ht & _). case_match eqn:E; [by left|right].
  eexists. split; [|done]. apply (last_turn_step _ _ _ _ _ _ Hl), turn_completed; [done|].
  intros Hq. rewrite bool_decide_eq_true_2 in E by done. simpl in E. apply negb_false_iff in E.
  by apply bool_decide_eq_true in E.
Qed.

Lemma create_steps config metadata budget s :
  state_steps s (create_session config metadata budget s).2.
Proof.
  unfold create_session. case_match; [apply state_steps_refl|].
  destruct (sessions s !! new_id config) eqn:Ei; [apply state_steps_refl|].
  split; simpl; [lia|]. intros id. destruct (decide (id = new_id config)) as [->|Hne].
  - by rewrite Ei, lookup_insert_eq.
  - rewrite lookup_insert_ne by done. by case_match.
Qed.

Lemma intent_steps owner call_id root path expected resulting now s :
  state_wf s →
  state_steps s (write_intent self owner call_id root path expected resulting now s).2.
Proof.
  intros Hwf. unfold write_intent. case_match; [|apply state_steps_refl].
  unfold i64_checked_add. case_decide; [|apply state_steps_refl].
  destruct (with_live_cases s owner now (λ r _, (Ok (next_write s + 1)%Z, mkState (next_write s + 1)
    (<[owner_session_id owner := mkSessionRecord (configuration r) (next_turn r) (turns r)
       (writes r ++ [mkWriteRecord call_id (content_hash <$> expected) (next_write s + 1) path root
          (content_hash resulting) WritePending (owner_turn_position owner)])]> (sessions s)))))
    as [(r & t & Hlive & ->)|[_ ->]]; [|apply state_steps_refl].
  destruct (live_position _ _ _ _ _ Hwf Hlive) as [-> Hrun]. destruct Hlive as (_ & Hr & _).
  eapply state_steps_session; [done|lia|]. by apply rtc_once, step_intent.
Qed.

Lemma finish_steps owner id applied s : state_steps s (finish_write self owner id applied s).2.
Proof.
  unfold finish_write, owned_session. case_match; [|apply state_steps_refl].
  destruct (sessions s !! owner_session_id owner) as [r|] eqn:Er; [|apply state_steps_refl].
  case_match; [apply state_steps_refl|].
  destruct (update_first _ _ _) as [ws|] eqn:Eu; [|apply state_steps_refl].
  apply update_first_Some in Eu as (ws1 & w & ws2 & Ew & -> & Hw & _).
  eapply state_steps_session; [done..|]. eapply rtc_once, step_settle; [done|].
  apply write_settled. unfold settles in Hw.
  apply andb_true_iff in Hw as [_ [Hw|Hw]%orb_true_iff]; apply bool_decide_eq_true in Hw; auto.
Qed.

Lemma interrupt_steps owner s : state_steps s (interrupt self owner s).2.
Proof.
  unfold interrupt. case_match; [|apply state_steps_refl]. simpl.
  destruct (sessions s !! owner_session_id owner) as [r|] eqn:Er; [|apply state_steps_refl].
  destruct (last (turns r)) as [t|] eqn:El; [|apply state_steps_refl].
  case_match eqn:E; [|apply state_steps_refl]. apply andb_true_iff in E as [_ Ht%is_running_true].
  eapply state_steps_session; [done..|]. by eapply rtc_once, last_turn_step, turn_interrupted.
Qed.

Lemma exec_steps s op : state_wf s → state_steps s (exec s op).
Proof.
  intros Hwf. destruct op; cbn -[create_session acquire complete renew fail_turn interrupt write_intent finish_write].
  - apply create_steps.
  - unfold load_session. case_match eqn:E; [|apply state_steps_refl].
    eapply state_steps_session; [done..|]. apply recover_steps.
  - unfold load_request. case_match eqn:E; [|apply state_steps_refl].
    eapply state_steps_session; [done..|]. apply recover_steps.
  - unfold switch_model. case_match eqn:E; [|apply state_steps_refl].
    destruct (select_model _ _ _ _ _ _) as [res r'] eqn:Es.
    eapply state_steps_session; [done..|]. etrans; [apply recover_steps|].
    replace r' with (res, r').2 by done. rewrite <- Es. apply select_steps.
  - unfold begin_turn. destruct (acquire _ _ _ _ _ _ _ _ _ _ _) as [res s'] eqn:Ea. simpl.
    replace s' with (res, s').2 by done. rewrite <- Ea. by apply acquire_steps.
  - by apply acquire_steps.
  - apply complete_steps.
  - apply complete_steps.
  - apply live_turn_step. intros r t (_ & _ & Hl & _ & Ht & _). right. eexists. split; [|done].
    by apply renew_turn_step.
  - apply live_turn_step. intros r t (_ & _ & Hl & _ & Ht & _). right. eexists. split; [|done].
    by apply (last_turn_step _ _ _ _ _ _ Hl), turn_failed.
  - apply interrupt_steps.
  - by apply intent_steps.
  - apply finish_steps.
Qed.

Lemma fresh_wf id nw r : fresh_record r → record_wf id (nw, r).
Proof.
  intros (Hn & Ht & Hw & _ & Hc). split; simpl; rewrite ?Hn, ?Ht, ?Hw; try done; try constructor;
    set_solver.
Qed.

Lemma state_steps_wf s s' : state_steps s s' → state_wf s → state_wf s'.
Proof.
  intros [_ Hs] Hwf id r' Hr'. specialize (Hs id). rewrite Hr' in Hs. case_match eqn:E.
  - eapply rtc_step_wf; [done|]. by apply Hwf.
  - by apply fresh_wf.
Qed.

Lemma run_wf ops s : state_wf s → state_wf (run ops s).
Proof.
  revert s. induction ops as [|op ops IH]; intros s Hs; simpl; [done|].
  apply IH. eapply state_steps_wf, Hs. by apply exec_steps.
Qed.

Lemma default_wf : state_wf State_default.
Proof. intros id r. simpl. by rewrite lookup_empty. Qed.

Lemma state_steps_le s s' id r :
  state_steps s s' → sessions s !! id = Some r →
  ∃ r', sessions s' !! id = Some r' ∧ record_le (next_write s, r) (next_write s', r').
Proof.
  intros [_ Hs] Hr. specialize (Hs id). rewrite Hr in Hs. case_match; [|done].
  eexists. split; [done|]. by eapply rtc_step_le.
Qed.

Lemma run_le ops s id r :
  state_wf s → sessions s !! id = Some r →
  ∃ r', sessions (run ops s) !! id = Some r' ∧ record_le (next_write s, r) (next_write (run ops s), r').
Proof.
  revert s r. induction ops as [|op ops IH]; intros s r Hwf Hr; simpl; [exists r; split; [done|reflexivity]|].
  pose proof (exec_steps s op Hwf) as Hs. destruct (state_steps_le _ _ _ _ Hs Hr) as (r1 & Hr1 & Hle1).
  destruct (IH (exec s op) r1) as (r2 & Hr2 & Hle2); [by eapply state_steps_wf|done|].
  exists r2. split; [done|]. by etrans.
Qed.

(** ** What the store guarantees *)

(** After any sequence of operations on a new store, every session record is
    well formed: its turns are numbered from 0 and owned accordingly, only the
    last can be running, a completed host request has its outcome, no host
    request has two turns, a failed or interrupted last turn leaves no
    continuation, and write identifiers increase and name turns of the session. *)
Theorem store_reachable_wf ops : state_wf (run ops State_default).
Proof. apply run_wf, default_wf. Qed.

(** C9: In any reachable state, any operation moves each session by transitions of
    the [SessionStore] contract and removes none; a new session is empty. *)
Theorem store_refines_contract ops op :
  state_steps (run ops State_default) (exec (run ops State_default) op).
Proof. apply exec_steps, run_wf, default_wf. Qed.

(** C10: What is recorded persists: over any further operations a session keeps every
    turn with its owner, model, options and request, a finished turn unchanged,
    every write with its settled outcome, and its budget, schema and prompt; the
    model selection changes only with a larger generation. *)
Theorem recorded_facts_persist ops ops' id r :
  sessions (run ops State_default) !! id = Some r →
  ∃ r', sessions (run (ops ++ ops') State_default) !! id = Some r' ∧
        record_le (next_write (run ops State_default), r)
                  (next_write (run (ops ++ ops') State_default), r').
Proof.
  assert (E : run (ops ++ ops') State_default = run ops' (run ops State_default)) by apply fold_left_app.
  rewrite E. apply run_le, run_wf, default_wf.
Qed.

(** C12: The mutations of a turn's owner are fenced by its live lease.  Without a live
    lease, completing the turn (with or without the outcome of a host request), failing
    it, renewing the lease and recording a write intent return [OwnershipLost] and
    change nothing; only an intent of an owner of this store reports the overflow of
    the write counter before it looks at the lease.  With it, renewing and failing
    succeed; completing succeeds, except that a turn of a host request is completed
    only together with the request's outcome, an error that changes nothing; an intent
    is appended as pending under the next number, unless the counter overflows, an
    error that changes nothing.  Each success changes the owner's own session only: its
    last turn and continuation, or its list of writes. *)
Theorem owner_mutations_fenced s owner now now' added c o error call_id root path expected resulting :
  ((∀ r t, ¬ live_owner s owner now r t) →
   complete_turn self owner added c now s = (Err (lost owner), s) ∧
   complete_request self owner added c o now s = (Err (lost owner), s) ∧
   fail_turn self owner error now s = (Err (lost owner), s) ∧
   renew self owner now now' s = (Err (lost owner), s) ∧
   write_intent self owner call_id root path expected resulting now s
   = (Err (match validate_identity self owner, i64_checked_add (next_write s) 1 with
           | Ok _, None => write_overflow
           | _, _ => lost owner
           end), s)) ∧
  (∀ r t, live_owner s owner now r t →
   let commit := λ t' c', set_session s (owner_session_id owner)
                            (set_continuation (set_last_turn r t') c') in
   complete_request self owner added c o now s = (Ok tt, commit (set_completed t added (Some o)) c) ∧
   complete_turn self owner added c now s =
     (if decide (turn_request t = None) then (Ok tt, commit (set_completed t added None) c)
      else (Err outcome_required, s)) ∧
   fail_turn self owner error now s =
     (Ok tt, commit (set_status t Failed (Some (TurnErrorType_debug error))) None) ∧
   renew self owner now now' s =
     (Ok (now' + lease)%Z,
      set_session s (owner_session_id owner) (set_last_turn r (set_deadline t (now' + lease)))) ∧
   write_intent self owner call_id root path expected resulting now s =
     match i64_checked_add (next_write s) 1 with
     | None => (Err write_overflow, s)
     | Some number =>
         let write := mkWriteRecord call_id (content_hash <$> expected) number path root (content_hash resulting)
                        WritePending (owner_turn_position owner) in
         (Ok number, mkState number (<[owner_session_id owner :=
            mkSessionRecord (configuration r) (next_turn r) (turns r) (writes r ++ [write])]> (sessions s)))
     end).
Proof.
  assert (Huniq : ∀ r t r' t', live_owner s owner now r t → live_owner s owner now r' t' → r = r' ∧ t = t').
  { intros r t r' t' (_ & ? & ? & _) (_ & ? & ? & _). assert (r = r') as -> by congruence.
    split; congruence. }
  unfold complete_turn, complete_request, complete, fail_turn, renew. split.
  - intros Hno.
    assert (Hlost : ∀ A (body : _ → _ → result A SessionError * State),
      with_live self owner now s body = (Err (lost owner), s)).
    { intros A body. by destruct (with_live_cases s owner now body) as [(r & t & []%Hno & _)|[_ ->]]. }
    rewrite !Hlost. do 4 (split; [done|]). unfold write_intent.
    destruct (validate_identity self owner) as [u|e] eqn:E; [by case_match; [rewrite Hlost|]|].
    unfold validate_identity in E. case_decide; [done|]. by injection E as <-.
  - intros r t Hlive.
    assert (Hrun : ∀ A (body : _ → _ → result A SessionError * State),
      with_live self owner now s body = body r t).
    { intros A body. destruct (with_live_cases s owner now body) as [(r' & t' & Hl & ->)|[Hno _]];
        [by destruct (Huniq _ _ _ _ Hl Hlive) as [-> ->]|by destruct (Hno r t)]. }
    assert (∃ u, validate_identity self owner = Ok u) as [u Hu].
    { destruct Hlive as (Hi & _). unfold validate_identity. case_decide; [by eexists|done]. }
    unfold write_intent. rewrite Hu, !Hrun. destruct (turn_request t), (i64_checked_add (next_write s) 1); simpl; rewrite ?Hrun; repeat split.
Qed.

(** *** Host requests *)

Lemma NoDup_omap_inj {A B} (f : A → option B) (l : list A) x y k :
  NoDup (omap f l) → x ∈ l → y ∈ l → f x = Some k → f y = Some k → x = y.
Proof.
  induction l as [|z l IH]; [set_solver|]. csimpl. intros Hnd Hx Hy Ex Ey.
  assert (Hin : ∀ v, v ∈ l → f v = Some k → k ∈ omap f l).
  { intros v Hv Ev. apply list_elem_of_omap. eauto. }
  apply elem_of_cons in Hx as [->|Hx], Hy as [->|Hy]; try done.
  - rewrite Ex in Hnd. apply NoDup_cons in Hnd as [[] _]. eauto.
  - rewrite Ey in Hnd. apply NoDup_cons in Hnd as [[] _]. eauto.
  - apply IH; try done. destruct (f z); [by apply NoDup_cons in Hnd as [_ ?]|done].
Qed.

Lemma find_request id nw r t q :
  record_wf id (nw, r) → t ∈ turns r → turn_request t = Some q →
  list_find_b (has_request (request_id q)) (turns r) = Some t.
Proof.
  intros Hwf Ht Eq.
  assert (Hh : has_request (request_id q) t = true) by (unfold has_request; rewrite Eq; apply str_eqb_refl).
  destruct (list_find_b_is_Some _ _ _ Ht Hh) as [t' Et']. rewrite Et'. f_equal.
  apply list_find_b_Some in Et' as [Hin' Hh']. unfold has_request in Hh'.
  destruct (turn_request t') as [q'|] eqn:Eq'; [|done]. apply str_eqb_true in Hh'.
  eapply (NoDup_omap_inj _ _ _ _ (request_id q) (wf_requests _ _ Hwf)); [done..| |].
  - cbn. by rewrite Eq', <- Hh'.
  - cbn. by rewrite Eq.
Qed.

Lemma request_Some id nw r t q :
  record_wf id (nw, r) → t ∈ turns r → turn_request t = Some q →
  ∃ record, request r (request_id q) = Some record ∧ host_request record = q ∧
    host_turn_status t = Some (host_status record) ∧ host_model record = Some (turn_model t) ∧
    host_turn_position record = owner_turn_position (turn_owner t) ∧
    host_writes record = turn_writes r (owner_turn_position (turn_owner t)).
Proof.
  intros Hwf Ht Eq. unfold request. rewrite (find_request _ _ _ _ _ Hwf Ht Eq). cbn. rewrite Eq. cbn.
  assert (is_Some (host_turn_status t)) as [st Est].
  { unfold host_turn_status. case_match eqn:E; try done.
    destruct (wf_outcome _ _ Hwf t Ht E) as [o ->]; rewrite ?Eq; eauto. }
  rewrite Est. cbn. by eexists.
Qed.

Lemma recover_turns now (r : SessionRecord) :
  turns (recover now r) = turns r ∨
  ∃ ts t, turns r = ts ++ [t] ∧ turn_status t = Running ∧
    turns (recover now r) = ts ++ [set_status t Interrupted (Some L"interrupted")].
Proof.
  unfold recover. destruct (last (turns r)) as [t|] eqn:El; [|by left]. case_match eqn:E; [|by left].
  apply andb_true_iff in E as [Et%is_running_true _]. apply last_Some in El as [ts El].
  right. exists ts, t. split; [done|]. split; [done|]. cbn. by rewrite El, set_last_snoc.
Qed.

Lemma recover_keeps now (r : SessionRecord) :
  length (turns (recover now r)) = length (turns r) ∧ writes (recover now r) = writes r ∧
  selection (configuration (recover now r)) = selection (configuration r) ∧
  max_history_bytes (configuration (recover now r)) = max_history_bytes (configuration r).
Proof.
  split.
  - destruct (recover_turns now r) as [->|(ts & t & -> & _ & ->)]; [done|]. by rewrite !length_app.
  - unfold recover. repeat case_match; done.
Qed.

(** C11: The same request submitted again never starts a second turn: with the same
    fingerprint the recorded turn is returned, with its model, writes and, when
    it has finished, its outcome; with another fingerprint the submission is a
    conflict.  Neither the generation nor a busy session is consulted. *)
Theorem request_runs_once ops id r t q0 q input options generation t1 t2 t3 :
  sessions (run ops State_default) !! id = Some r →
  t ∈ turns r → turn_request t = Some q0 → request_id q0 = request_id q →
  ∃ record,
    begin_request self self id input options q generation t1 t2 t3 (run ops State_default) =
      (if decide (q0 = q) then Ok (Recorded record) else Err HostTurnConflict,
       set_session (run ops State_default) id (recover t1 r)) ∧
    length (turns (recover t1 r)) = length (turns r) ∧
    host_request record = q0 ∧ host_model record = Some (turn_model t) ∧
    host_writes record = turn_writes r (owner_turn_position (turn_owner t)) ∧
    (turn_status t ≠ Running → host_turn_status t = Some (host_status record)).
Proof.
  intros Hr [i Hi]%list_elem_of_lookup_1 Eq Eid. unfold begin_request, acquire.
  rewrite decide_False by tauto. rewrite Hr.
  pose proof (recover_wf id _ t1 r (run_wf ops _ default_wf id r Hr)) as Hwf.
  pose proof (rtc_step_le _ _ _ (recover_steps id (next_write (run ops State_default)) t1 r)) as Hle.
  destruct (le_turns _ _ Hle i t Hi) as (t' & Hi' & Htt). simpl in Hi'.
  destruct (request_Some id _ (recover t1 r) t' q0 Hwf) as (record & Hrec & Hq & Hst & Hm & _ & Hws);
    [by apply list_elem_of_lookup_2 in Hi'|by rewrite (le_request _ _ Htt)|].
  destruct (recover_keeps t1 r) as (Hlen & Hwr & _). exists record.
  rewrite Eid in Hrec. cbn. rewrite Hrec. unfold check_request. rewrite Hq.
  rewrite Hm, Hws, (le_model _ _ Htt), (le_owner _ _ Htt). unfold turn_writes. rewrite Hwr.
  split; [by case_decide|]. repeat split; try done.
  intros Hs. by rewrite <- (le_terminal _ _ Htt Hs).
Qed.

(** *** Replayed history *)

Definition history_bytes (ts : list (list ModelMessage)) : Z :=
  foldr (λ ms total, turn_bytes ms + total)%Z 0%Z ts.

Lemma history_bytes_app a b : history_bytes (a ++ b) = (history_bytes a + history_bytes b)%Z.
Proof. induction a as [|x a IH]; simpl; [done|]. lia. Qed.

Lemma history_bytes_rev ts : history_bytes (rev ts) = history_bytes ts.
Proof. induction ts as [|x ts IH]; simpl; [done|]. rewrite history_bytes_app. simpl. lia. Qed.

Lemma take_within_spec remaining ts :
  ∃ rest, ts = take_within remaining ts ++ rest ∧
    (history_bytes (take_within remaining ts) <= Z.max 0 remaining)%Z ∧
    (∀ ms, head rest = Some ms →
       remaining < turn_bytes ms + history_bytes (take_within remaining ts))%Z.
Proof.
  revert remaining. induction ts as [|ms ts IH]; intros remaining; simpl; [exists []; split; [done|]; split; [lia|done]|].
  case_match eqn:E.
  - exists (ms :: ts). split; [done|]. simpl. split; [lia|]. intros m [= ->]. apply Z.ltb_lt in E. lia.
  - apply Z.ltb_ge in E. destruct (IH (remaining - turn_bytes ms)%Z) as (rest & Ets & Hb & Hm).
    exists rest. simpl. split; [by rewrite <- Ets|]. split; [|intros m Hh; specialize (Hm m Hh); lia].
    destruct (decide (0 <= remaining - turn_bytes ms)%Z); lia.
Qed.

(** The replayed history is the longest run of the most recent completed turns,
    each whole and oldest first, that fits the session's byte budget. *)
Theorem history_longest_suffix (r : SessionRecord) :
  ∃ older,
    messages <$> List.filter is_completed (turns r) = older ++ history r ∧
    (history_bytes (history r) <= Z.max 0 (max_history_bytes (configuration r)))%Z ∧
    (∀ ms, last older = Some ms →
       max_history_bytes (configuration r) < turn_bytes ms + history_bytes (history r))%Z.
Proof.
  unfold history.
  destruct (take_within_spec (max_history_bytes (configuration r))
              (messages <$> List.filter is_completed (rev (turns r)))) as (rest & E & Hb & Hm).
  exists (rev rest). rewrite history_bytes_rev. split; [|split; [done|]].
  - rewrite <- rev_app_distr, <- E, List.filter_rev.
    change (messages <$> rev ?l) with (map messages (rev l)). by rewrite map_rev, rev_involutive.
  - intros ms Hl. apply Hm. destruct rest; [done|]. simpl in *. rewrite last_snoc in Hl. done.
Qed.

(** *** Model selection *)

Lemma check_history_Ok ms capabilities :
  check_history ms capabilities = Ok tt ↔ Forall (λ m, check_message capabilities m = None) ms.
Proof.
  induction ms as [|m ms IH]; simpl; [by split; [constructor|]|]. rewrite Forall_cons, <- IH.
  destruct (check_message capabilities m); naive_solver.
Qed.

(** What a switch to [generation] needs of the recovered record. *)
Definition switchable (r : SessionRecord) (generation : Z) (capabilities : ModelCapabilities) : Prop :=
  model_generation (configuration r) = generation ∧ last_running r = false ∧
  Forall (λ m, check_message capabilities m = None) (completed_messages r) ∧
  (i64_min <= generation + 1 <= i64_max)%Z.

(** A switch succeeds exactly on an idle session of the expected generation whose
    completed turns, replayed or not, the target can read.  It then selects the
    model under the next generation and clears the continuation; a rejected
    switch leaves the recovered session as it was. *)
Theorem switch_model_spec (s : State) id r generation identity metadata capabilities now :
  sessions s !! id = Some r →
  let '(res, s') := switch_model id generation identity metadata capabilities now s in
  ∃ r', sessions s' !! id = Some r' ∧ next_turn r' = next_turn (recover now r) ∧
    turns r' = turns (recover now r) ∧ writes r' = writes r ∧
    (switchable (recover now r) generation capabilities ↔ res = Ok (generation + 1)%Z) ∧
    match res with
    | Ok next =>
        selection (configuration r') =
          (next, metadata_model <$> metadata, metadata_provider <$> metadata, Some identity) ∧
        next = (generation + 1)%Z ∧ provider_session_id (configuration r') = None
    | Err _ => r' = recover now r
    end.
Proof.
  intros Hr. unfold switch_model. rewrite Hr. destruct (recover_keeps now r) as (_ & <- & _ & _).
  set (r1 := recover now r). clearbody r1. unfold select_model, check_generation, switchable.
  destruct (Z.eqb_spec (model_generation (configuration r1)) generation) as [Eg|Eg]; simpl.
  2:{ exists r1. rewrite lookup_insert_eq. repeat split; try done. by intros [? _]. }
  destruct (last_running r1) eqn:El.
  { exists r1. simpl. rewrite lookup_insert_eq. repeat split; try done. by intros (_ & ? & _). }
  pose proof (check_history_Ok (completed_messages r1) capabilities) as Hh.
  destruct (check_history (completed_messages r1) capabilities) as [[]|e].
  2:{ exists r1. simpl. rewrite lookup_insert_eq. repeat split; try done.
      intros (_ & _ & Hc & _). by apply Hh in Hc. }
  unfold next_generation, i64_checked_add. case_decide as Hb; simpl; eexists;
    rewrite lookup_insert_eq; repeat split; try done; try (by apply Hh); try lia.
Qed.

(** *** Reservations *)

(** The latest completed turn decides whether the continuation is reused: it is,
    exactly when that turn ran with the same schema, permissions and comparison
    base; the tool-call budget may differ. *)
Theorem continuation_reuse `{!SnapshotCodecLaws Value} (r : SessionRecord) t o options :
  list_find_b is_completed (rev (turns r)) = Some t →
  options_text t = encode o → options_valid o →
  ∃ compatible, previous_compatible r options = Ok compatible ∧
    (compatible = true ↔ continuation_policy o = continuation_policy options).
Proof.
  intros Ht Eo Hv. unfold previous_compatible. rewrite Ht, Eo, (decode_encode o Hv). eexists.
  split; [done|]. by apply (continuation_compatible_encode o options _ Hv), decode_encode.
Qed.

(** A turn that begins holds the lease: the session is recovered and idle, the
    new turn takes the next position with the user's input, the selected model
    and the options, and the returned owner is the live owner until the deadline.
    The caller gets the bounded history and either the stored continuation or
    none, as the session keeps it. *)
Theorem begun_turn_is_live ops id r input options generation t1 t2 t3 acquired s' :
  sessions (run ops State_default) !! id = Some r →
  begin_turn self self id input options generation t1 t2 t3 (run ops State_default) =
    (Ok acquired, s') →
  let r1 := recover t1 r in
  model_generation (configuration r) = generation ∧ last_running r1 = false ∧
  acquired_turns acquired = history r1 ∧ acquired_deadline acquired = (t2 + lease)%Z ∧
  ∃ r' t, turns r' = turns r1 ++ [t] ∧ writes r' = writes r ∧
    (∀ now, (now < t2 + lease)%Z → live_owner s' (acquired_owner acquired) now r' t) ∧
    messages t = [into_user_message input] ∧ turn_request t = None ∧
    turn_model t = recorded_model (configuration r) ∧ options_text t = encode options ∧
    provider_session_id (configuration r') = acquired_provider_session_id acquired ∧
    (acquired_provider_session_id acquired = None ∨
     acquired_provider_session_id acquired = provider_session_id (configuration r1)).
Proof.
  intros Hr. unfold begin_turn, acquire. rewrite decide_False by tauto. rewrite Hr. simpl.
  destruct (recover_keeps t1 r) as (_ & <- & Hsel & _).
  assert (Hm : recorded_model (configuration (recover t1 r)) = recorded_model (configuration r)).
  { unfold recorded_model. by injection Hsel as -> -> -> ->. }
  assert (Hg : model_generation (configuration (recover t1 r)) = model_generation (configuration r))
    by (by injection Hsel).
  rewrite <- Hm, <- Hg. clear Hm Hg Hsel. set (r1 := recover t1 r). clearbody r1. unfold reserve, check_generation.
  destruct (Z.eqb_spec (model_generation (configuration r1)) generation) as [Eg|]; [|done].
  destruct (last_running r1) eqn:El; [done|]. destruct (previous_compatible r1 options) as [b|]; [|done].
  destruct (i64_checked_add (next_turn r1) 1) as [np|]; [|done].
  unfold AcquiredTurn_new, AcquiredTurn_activate. rewrite decide_True by done. cbn [acquired_deadline].
  destruct (Z.leb_spec (t2 + lease) t3); [by intros [=]|]. intros [= <- <-]. cbn.
  do 4 (split; [done|]). eexists (mkSessionRecord _ _ _ _), _. cbn.
  split; [reflexivity|]. split; [reflexivity|]. split.
  { intros now Hnow. unfold live_owner. cbn. rewrite lookup_insert_eq, last_snoc. done. }
  repeat split; try done. destruct b; auto.
Qed.

(** *** Interruption *)

(** Interrupting is idempotent and touches the owner's own running turn only: a
    turn that has finished, or a successor's, is left alone with its
    continuation. *)
Theorem interrupt_own_turn_only (s : State) owner :
  let s' := (interrupt self owner s).2 in
  (interrupt self owner s').2 = s' ∧
  (s' ≠ s → ∃ r ts t,
     owner_database owner = self ∧ sessions s !! owner_session_id owner = Some r ∧
     turns r = ts ++ [t] ∧ TurnOwner_identity (turn_owner t) = TurnOwner_identity owner ∧
     turn_status t = Running ∧
     s' = set_session s (owner_session_id owner)
            (mkSessionRecord (set_provider_session (configuration r) None) (next_turn r)
               (ts ++ [set_status t Interrupted (Some (interruption_error_type owner))]) (writes r))).
Proof.
  unfold interrupt. destruct (validate_identity self owner) eqn:Ev; [|done]. simpl.
  unfold validate_identity in Ev. case_decide as Ed; [|done].
  destruct (sessions s !! owner_session_id owner) as [r|] eqn:Er; simpl; [|by rewrite Er].
  destruct (last (turns r)) as [t|] eqn:El; simpl; [|by rewrite Er, El].
  destruct (TurnOwner_eq (turn_owner t) owner && is_running t) eqn:Ec; simpl; [|by rewrite Er, El, Ec].
  rewrite lookup_insert_eq. simpl. apply last_Some in El as [ts El]. rewrite El, set_last_snoc, last_snoc.
  apply andb_true_iff in Ec as [Eo Et%is_running_true]. cbn. rewrite andb_false_r. split; [done|].
  intros _. exists r, ts, t. do 5 (split; [try done; by apply bool_decide_eq_true in Eo|]).
  unfold set_continuation, set_last_turn. cbn. by rewrite El, set_last_snoc.
Qed.

(** *** Write journal *)

Lemma update_first_middle {A} (p : A → bool) f (l1 l2 : list A) x :
  (∀ y, y ∈ l1 → p y = false) →
  update_first p f (l1 ++ x :: l2) =
    (if p x then Some (l1 ++ f x :: l2) else (λ l, l1 ++ x :: l) <$> update_first p f l2).
Proof.
  intros Hl. induction l1 as [|y l1 IH]; simpl; [by case_match|].
  rewrite (Hl y) by (by left). rewrite IH by set_solver. case_match; [done|].
  by destruct (update_first p f l2).
Qed.

Lemma update_first_None {A} (p : A → bool) f (l : list A) :
  (∀ y, y ∈ l → p y = false) → update_first p f l = None.
Proof.
  induction l as [|x l IH]; intros Hl; simpl; [done|].
  rewrite (Hl x) by (by left). rewrite IH by set_solver. done.
Qed.

Lemma sorted_ids_distinct (ws1 ws2 : list WriteRecord) w :
  StronglySorted Z.lt (write_id <$> ws1 ++ w :: ws2) →
  (∀ v, v ∈ ws1 → write_id v ≠ write_id w) ∧ (∀ v, v ∈ ws2 → write_id v ≠ write_id w).
Proof.
  induction ws1 as [|u ws1 IH]; csimpl; intros [Hs Hf]%StronglySorted_inv.
  - split; [set_solver|]. intros v Hv. rewrite Forall_forall in Hf.
    specialize (Hf (write_id v)). enough (write_id w < write_id v)%Z by lia.
    apply Hf. by apply list_elem_of_fmap_2.
  - destruct (IH Hs) as [H1 H2]. split; [|done]. rewrite Forall_forall in Hf.
    intros v [->|Hv]%elem_of_cons; [|by apply H1]. enough (write_id u < write_id w)%Z by lia.
    apply Hf. apply list_elem_of_fmap_2. set_solver.
Qed.

(** A write settles once.  The owner that declared it may report its outcome at
    any time, also after its turn ended and a successor started: a pending
    record takes the outcome, a repeated report is accepted, a contradicting one
    is refused and changes nothing. *)
Theorem finish_write_settles ops owner r ws1 w ws2 t applied :
  sessions (run ops State_default) !! owner_session_id owner = Some r →
  writes r = ws1 ++ w :: ws2 → owner_database owner = self →
  t ∈ turns r → TurnOwner_identity (turn_owner t) = TurnOwner_identity owner →
  write_turn_position w = owner_turn_position owner →
  finish_write self owner (write_id w) applied (run ops State_default) =
    if decide (write_status w = WritePending ∨ write_status w = settled applied) then
      (Ok tt, set_session (run ops State_default) (owner_session_id owner)
         (mkSessionRecord (configuration r) (next_turn r) (turns r)
            (ws1 ++ set_write_status w (settled applied) :: ws2)))
    else (Err (lost owner), run ops State_default).
Proof.
  intros Hr Ew Hself Ht Eo Hpos.
  pose proof (wf_write_ids _ _ (run_wf ops _ default_wf _ r Hr)) as Hids. simpl in Hids.
  rewrite Ew in Hids. apply sorted_ids_distinct in Hids as [H1 H2].
  unfold finish_write, validate_identity, owned_session. rewrite decide_True, Hr by done.
  assert (Hex : existsb (λ turn, TurnOwner_eq (turn_owner turn) owner) (turns r) = true).
  { apply existsb_true. exists t. split; [done|]. by apply bool_decide_eq_true. }
  rewrite Hex, Ew. cbn [negb].
  assert (Hne : ∀ v, write_id v ≠ write_id w → settles owner (write_id w) (settled applied) v = false).
  { intros v Hv. unfold settles. apply Z.eqb_neq in Hv. by rewrite Hv. }
  rewrite update_first_middle by auto. rewrite (update_first_None _ _ ws2) by auto.
  unfold settles. rewrite Z.eqb_refl, Hpos, Z.eqb_refl. cbn [andb].
  case_decide as Hd.
  - destruct Hd as [Hd|Hd]; rewrite (bool_decide_eq_true_2 _ Hd), ?orb_true_r; done.
  - rewrite !bool_decide_eq_false_2 by tauto. done.
Qed.
End laws.

(** ** Witnesses: a store with a concrete codec *)

#[local] Instance demo_tools : ToolArgumentTypes :=
  {| ReadArguments := unit; WriteArguments := unit;
     read_json _ := Some L"{}"; write_json _ := Some L"{}" |}.

#[local] Instance demo_hash : ContentHash := λ bytes, [N.of_nat (length bytes)].

(** Snapshots as one number: the pairing of their members. *)
Definition demo_members : Type :=
  option (str * list N) * str * positive * N * (bool * bool) * Z.

Definition demo_text (e : EffectiveOptions (Value := N)) (fp : str) : str :=
  [N.pos (countable.encode (A := demo_members)
     ((λ i, (oid i, repository_root i)) <$> effective_comparison_base e, fp,
      effective_max_tool_calls e, effective_output_schema e,
      (policy_read (effective_tool_policy e), policy_write (effective_tool_policy e)),
      effective_version e))].

Definition demo_parse (text : str) : result (StoredTurnOptions N) str :=
  match text with
  | [N.pos p] =>
      match countable.decode (A := demo_members) p with
      | Some (base, fp, calls, schema, (rd, wr), version) =>
          Ok (mkStoredTurnOptions ((λ '(o, root), mkComparisonIdentity o root) <$> base) (Some fp)
                calls schema (mkToolPolicy rd wr) version)
      | None => Err L"syntax"
      end
  | _ => Err L"syntax"
  end.

#[local] Instance demo_codec : SnapshotCodec N :=
  {| effective_text sorted e := demo_text e []; snapshot_text := demo_text;
     snapshot_parse := demo_parse; schema_error _ := None |}.

#[local] Instance demo_codec_laws : SnapshotCodecLaws N.
Proof.
  intros e fp. cbn. unfold demo_text, demo_parse. rewrite countable.decode_encode.
  destruct e as [base calls schema [rd wr] version]. cbn. f_equal. f_equal.
  by destruct base as [[]|].
Qed.

Definition demo_self : StoreIdentity := IdentityTemporary 0.
Definition demo_options : TurnOptions N := TurnOptions_new 5%N ToolPolicy_default 8.
Definition demo_request : HostRequest := mkHostRequest L"v1:a" L"r1".
Definition demo_owner : TurnOwner := TurnOwner_new demo_self L"s" 0 (to_le_bytes 0).

(** One host request that declares a write and completes with a continuation. *)
Definition demo_ops : list (Op (Value := N) (Outcome := N)) :=
  [OpCreate (mkNewSession L"s" None 5%N None) None 100;
   OpBeginRequest demo_self L"s" (TurnInput_text L"hi") demo_options demo_request 0 0 0 0;
   OpIntent demo_owner L"call" L"/repo" L"file" None [1%N] 1;
   OpCompleteRequest demo_owner [Assistant L"done"] (Some L"thread") 7%N 2].

Definition demo_state : State (Value := N) (Outcome := N) := run demo_self demo_ops State_default.

Definition demo_empty : SessionRecord (Value := N) (Outcome := N) :=
  mkSessionRecord (mkLoadedSession 0 None 0 None None None 0%N None []) 0 [] [].
Definition demo_record : SessionRecord (Value := N) (Outcome := N) :=
  default demo_empty (sessions demo_state !! L"s").
Definition demo_turn : TurnRecord (Outcome := N) :=
  default (reserved_turn demo_empty demo_owner 0 (TurnInput_text []) demo_options None)
    (last (turns demo_record)).
Definition demo_write : WriteRecord :=
  mkWriteRecord L"call" None 1 L"file" L"/repo" [1%N] WritePending 0.

Lemma demo_lookup : sessions demo_state !! L"s" = Some demo_record.
Proof. vm_compute. reflexivity. Qed.

Lemma demo_turns : turns demo_record = [demo_turn].
Proof. vm_compute. reflexivity. Qed.

Lemma recorded_facts_persist_witness :
  ∃ r', sessions (run demo_self (demo_ops ++ [OpFinish demo_owner 1 true]) State_default) !! L"s" = Some r' ∧
        record_le (next_write demo_state, demo_record)
          (next_write (run demo_self (demo_ops ++ [OpFinish demo_owner 1 true]) State_default), r').
Proof. exact (recorded_facts_persist demo_self demo_ops [OpFinish demo_owner 1 true] _ _ demo_lookup). Defined.

Lemma request_runs_once_witness :
  ∃ record,
    begin_request demo_self demo_self L"s" (TurnInput_text L"hi") demo_options demo_request 9 10 10 10
      demo_state = (Ok (Recorded record), set_session demo_state L"s" (recover 10 demo_record)) ∧
    host_status record = HostCompleted 7%N.
Proof.
  assert (Ht : demo_turn ∈ turns demo_record) by (rewrite demo_turns; left).
  assert (Eq : turn_request demo_turn = Some demo_request) by (vm_compute; reflexivity).
  assert (Es : host_turn_status demo_turn = Some (HostCompleted 7%N)) by (vm_compute; reflexivity).
  destruct (request_runs_once demo_self demo_ops L"s" demo_record demo_turn demo_request demo_request
    (TurnInput_text L"hi") demo_options 9 10 10 10 demo_lookup Ht Eq eq_refl)
    as (record & Hb & _ & _ & _ & _ & Hst).
  exists record. rewrite decide_True in Hb by done. split; [exact Hb|].
  rewrite Es in Hst. enough (turn_status demo_turn ≠ Running) as Hn by (specialize (Hst Hn); congruence).
  vm_compute. discriminate.
Defined.

Lemma finish_write_settles_witness :
  (finish_write demo_self demo_owner 1 false demo_state).1 = Ok tt.
Proof.
  assert (Ht : demo_turn ∈ turns demo_record) by (rewrite demo_turns; left).
  assert (Ew : writes demo_record = [] ++ demo_write :: []) by (vm_compute; reflexivity).
  assert (Eo : TurnOwner_identity (turn_owner demo_turn) = TurnOwner_identity demo_owner)
    by (vm_compute; reflexivity).
  pose proof (finish_write_settles demo_self demo_ops demo_owner demo_record [] demo_write [] demo_turn
    false demo_lookup Ew eq_refl Ht Eo eq_refl) as Hf.
  change (write_id demo_write) with 1%Z in Hf. change (run demo_self demo_ops State_default) with demo_state in Hf.
  rewrite decide_True in Hf by (by left). by rewrite Hf.
Defined.

Definition demo_capabilities : ModelCapabilities := mkCapabilities false false false.
Definition demo_identity : ExecutionIdentity := mkExecutionIdentity L"key" L"1".

Lemma switch_model_spec_witness :
  (switch_model L"s" 0 demo_identity None demo_capabilities 3 demo_state).1 = Ok 1%Z.
Proof.
  pose proof (switch_model_spec demo_state L"s" demo_record 0 demo_identity None demo_capabilities 3
    demo_lookup) as Hs.
  destruct (switch_model _ _ _ _ _ _ _) as [res s']. destruct Hs as (r' & _ & _ & _ & _ & [Hok _] & _).
  apply Hok. unfold switchable. split; [vm_compute; reflexivity|]. split; [vm_compute; reflexivity|].
  split; [vm_compute; repeat constructor|vm_compute; split; discriminate].
Defined.

Lemma continuation_reuse_witness :
  ∃ compatible, previous_compatible demo_record (TurnOptions_new 5%N ToolPolicy_default 2) = Ok compatible ∧
    compatible = true.
Proof.
  assert (Ht : list_find_b is_completed (rev (turns demo_record)) = Some demo_turn)
    by (vm_compute; reflexivity).
  assert (Eo : options_text demo_turn = encode demo_options) by (vm_compute; reflexivity).
  destruct (continuation_reuse demo_record demo_turn demo_options
    (TurnOptions_new 5%N ToolPolicy_default 2) Ht Eo) as (c & Hp & Hc); [by split|].
  exists c. split; [exact Hp|]. apply Hc. reflexivity.
Defined.

(** What [begin_turn] returns on the demo session. *)
Definition demo_begin : result AcquiredTurn SessionError * State (Value := N) (Outcome := N) :=
  begin_turn demo_self demo_self L"s" (TurnInput_text L"next") demo_options 0 10 10 10 demo_state.
Definition demo_acquired : AcquiredTurn :=
  match demo_begin.1 with Ok a => a | Err _ => mkAcquiredTurn demo_owner 0 None [] end.

Lemma begun_turn_is_live_witness :
  ∃ r' t, live_owner demo_self demo_begin.2 (acquired_owner demo_acquired) 20 r' t ∧
          acquired_turns demo_acquired = history (recover 10 demo_record).
Proof.
  assert (Hb : demo_begin = (Ok demo_acquired, demo_begin.2)) by (vm_compute; reflexivity).
  destruct (begun_turn_is_live demo_self demo_ops L"s" demo_record (TurnInput_text L"next")
    demo_options 0 10 10 10 demo_acquired demo_begin.2 demo_lookup Hb)
    as (_ & _ & Hh & _ & r' & t & _ & _ & Hlive & _).
  exists r', t. split; [apply Hlive; vm_compute; reflexivity|exact Hh].
Defined.
