(* ===== verification/CampaignStore.v ===== *)
(** * Campaign tables (crates/ag-store/src/orchestration.rs, status.rs)

    The rows of [session_orchestration], [session_orchestration_task] and of the
    tables the repository joins with them, and the operations of
    [OrchestrationRepository].  An [UPDATE .. WHERE p SET f] rewrites the rows
    that satisfy [p]; a transaction is one function on the tables.  Status,
    kind, role and verdict columns hold the enumerations: the repository
    validates their texts on every load and writes no others.  Time stamps are
    left out; a failing statement is an outcome of the caller ([Coordinator]). *)
From S2P Require Import Prelude Contracts Agent Lifecycle Orchestration Review Protocol.

(** ** Statements *)

Definition update_where {A} (p : A → bool) (f : A → A) (l : list A) : list A :=
  (λ x, if p x then f x else x) <$> l.

(** [rows_affected() == 1]. *)
Definition affects_one {A} (p : A → bool) (l : list A) : bool :=
  bool_decide (length (List.filter p l) = 1).

(** ** Rows *)

Inductive OperationStatus := OpCanceled | OpDone | OpFailed | OpQueued | OpRunning.

#[global] Instance OperationStatus_eq_dec : EqDecision OperationStatus.
Proof. solve_decision. Defined.

(** One row of [session_orchestration]. *)
Record OrchestrationRow := mkOrchestrationRow {
  o_id : Z;
  o_controller : str;
  o_goal : str;
  o_status : OrchestrationStatus;
  o_parallelism : Z;
  o_relayed : option Z;
  o_generation : Z;
  o_approach : IntegrationApproach
}.

(** One row of [session_orchestration_task]; the areas and criteria are JSON texts. *)
Record TaskRow := mkTaskRow {
  t_id : Z;
  t_orchestration : Z;
  t_key : str;
  t_child : option str;
  t_title : str;
  t_prompt : str;
  t_areas : str;
  t_criteria : str;
  t_kind : OrchestrationTaskKind;
  t_position : Z;
  t_status : OrchestrationTaskStatus;
  t_attempts : Z;
  t_summary : option str;
  t_error : option str;
  t_verdict : option VerificationVerdict;
  t_reason : option str;
  t_continuation : option str;
  t_generation : Z;
  t_retries : Z;
  t_violations : str;
  t_compliant : option bool;
  t_iteration : Z;
  t_report : option str
}.

(** The columns of [session] that campaigns read or write. *)
Record SessionRow := mkSessionRow {
  s_id : str;
  s_project : Z;
  s_role : SessionRole;
  s_status : SessionStatus;
  s_questions : option str;
  s_task : option Z;
  s_base_branch : str;
  s_review_status : option str;
  s_review_hash : option str;
  s_review_text : option str;
  s_has_diff : option bool;
  s_added : Z;
  s_deleted : Z;
  s_input_tokens : Z;
  s_output_tokens : Z
}.

Record MessageRow := mkMessageRow {
  m_session : str;
  m_kind : str;
  m_position : Z;
  m_content : str
}.

Record Db := mkDb {
  db_orchestrations : list OrchestrationRow;
  db_tasks : list TaskRow;
  db_sessions : list SessionRow;
  db_messages : list MessageRow;
  db_operations : list (str * OperationStatus);
  db_settings : list (str * str);
  db_last_orchestration : Z;
  db_last_task : Z
}.

Definition with_orchestrations (db : Db) (os : list OrchestrationRow) : Db :=
  mkDb os (db_tasks db) (db_sessions db) (db_messages db) (db_operations db) (db_settings db)
    (db_last_orchestration db) (db_last_task db).
Definition with_tasks (db : Db) (ts : list TaskRow) : Db :=
  mkDb (db_orchestrations db) ts (db_sessions db) (db_messages db) (db_operations db)
    (db_settings db) (db_last_orchestration db) (db_last_task db).
Definition with_sessions (db : Db) (ss : list SessionRow) : Db :=
  mkDb (db_orchestrations db) (db_tasks db) ss (db_messages db) (db_operations db)
    (db_settings db) (db_last_orchestration db) (db_last_task db).

(** *** Column updates *)

Definition set_o_status (s : OrchestrationStatus) (o : OrchestrationRow) : OrchestrationRow :=
  mkOrchestrationRow (o_id o) (o_controller o) (o_goal o) s (o_parallelism o) (o_relayed o)
    (o_generation o) (o_approach o).
Definition set_o_relayed (t : option Z) (o : OrchestrationRow) : OrchestrationRow :=
  mkOrchestrationRow (o_id o) (o_controller o) (o_goal o) (o_status o) (o_parallelism o) t
    (o_generation o) (o_approach o).

Definition set_t_status (s : OrchestrationTaskStatus) (t : TaskRow) : TaskRow :=
  mkTaskRow (t_id t) (t_orchestration t) (t_key t) (t_child t) (t_title t) (t_prompt t) (t_areas t)
    (t_criteria t) (t_kind t) (t_position t) s (t_attempts t) (t_summary t) (t_error t)
    (t_verdict t) (t_reason t) (t_continuation t) (t_generation t) (t_retries t) (t_violations t)
    (t_compliant t) (t_iteration t) (t_report t).
Definition set_t_error (e : option str) (t : TaskRow) : TaskRow :=
  mkTaskRow (t_id t) (t_orchestration t) (t_key t) (t_child t) (t_title t) (t_prompt t) (t_areas t)
    (t_criteria t) (t_kind t) (t_position t) (t_status t) (t_attempts t) (t_summary t) e
    (t_verdict t) (t_reason t) (t_continuation t) (t_generation t) (t_retries t) (t_violations t)
    (t_compliant t) (t_iteration t) (t_report t).
Definition set_t_child (c : option str) (t : TaskRow) : TaskRow :=
  mkTaskRow (t_id t) (t_orchestration t) (t_key t) c (t_title t) (t_prompt t) (t_areas t)
    (t_criteria t) (t_kind t) (t_position t) (t_status t) (t_attempts t) (t_summary t) (t_error t)
    (t_verdict t) (t_reason t) (t_continuation t) (t_generation t) (t_retries t) (t_violations t)
    (t_compliant t) (t_iteration t) (t_report t).
Definition set_t_attempts (n : Z) (t : TaskRow) : TaskRow :=
  mkTaskRow (t_id t) (t_orchestration t) (t_key t) (t_child t) (t_title t) (t_prompt t) (t_areas t)
    (t_criteria t) (t_kind t) (t_position t) (t_status t) n (t_summary t) (t_error t)
    (t_verdict t) (t_reason t) (t_continuation t) (t_generation t) (t_retries t) (t_violations t)
    (t_compliant t) (t_iteration t) (t_report t).
Definition set_t_summary (s : option str) (t : TaskRow) : TaskRow :=
  mkTaskRow (t_id t) (t_orchestration t) (t_key t) (t_child t) (t_title t) (t_prompt t) (t_areas t)
    (t_criteria t) (t_kind t) (t_position t) (t_status t) (t_attempts t) s (t_error t)
    (t_verdict t) (t_reason t) (t_continuation t) (t_generation t) (t_retries t) (t_violations t)
    (t_compliant t) (t_iteration t) (t_report t).
Definition set_t_verdict (v : option VerificationVerdict) (r : option str) (t : TaskRow) : TaskRow :=
  mkTaskRow (t_id t) (t_orchestration t) (t_key t) (t_child t) (t_title t) (t_prompt t) (t_areas t)
    (t_criteria t) (t_kind t) (t_position t) (t_status t) (t_attempts t) (t_summary t) (t_error t)
    v r (t_continuation t) (t_generation t) (t_retries t) (t_violations t)
    (t_compliant t) (t_iteration t) (t_report t).
Definition set_t_retries (n : Z) (t : TaskRow) : TaskRow :=
  mkTaskRow (t_id t) (t_orchestration t) (t_key t) (t_child t) (t_title t) (t_prompt t) (t_areas t)
    (t_criteria t) (t_kind t) (t_position t) (t_status t) (t_attempts t) (t_summary t) (t_error t)
    (t_verdict t) (t_reason t) (t_continuation t) (t_generation t) n (t_violations t)
    (t_compliant t) (t_iteration t) (t_report t).
Definition set_t_areas_check (violations : str) (compliant : option bool) (t : TaskRow) : TaskRow :=
  mkTaskRow (t_id t) (t_orchestration t) (t_key t) (t_child t) (t_title t) (t_prompt t) (t_areas t)
    (t_criteria t) (t_kind t) (t_position t) (t_status t) (t_attempts t) (t_summary t) (t_error t)
    (t_verdict t) (t_reason t) (t_continuation t) (t_generation t) (t_retries t) violations
    compliant (t_iteration t) (t_report t).
Definition set_t_report (r : option str) (t : TaskRow) : TaskRow :=
  mkTaskRow (t_id t) (t_orchestration t) (t_key t) (t_child t) (t_title t) (t_prompt t) (t_areas t)
    (t_criteria t) (t_kind t) (t_position t) (t_status t) (t_attempts t) (t_summary t) (t_error t)
    (t_verdict t) (t_reason t) (t_continuation t) (t_generation t) (t_retries t) (t_violations t)
    (t_compliant t) (t_iteration t) r.
(** Feedback for the child: a new generation with its prompt and review counter. *)
Definition set_t_continuation (prompt : option str) (iteration : Z) (t : TaskRow) : TaskRow :=
  mkTaskRow (t_id t) (t_orchestration t) (t_key t) (t_child t) (t_title t) (t_prompt t) (t_areas t)
    (t_criteria t) (t_kind t) (t_position t) (t_status t) (t_attempts t) (t_summary t) (t_error t)
    (t_verdict t) (t_reason t) prompt (t_generation t + 1) (t_retries t) (t_violations t)
    (t_compliant t) iteration (t_report t).
Definition set_t_scope (criteria areas : str) (t : TaskRow) : TaskRow :=
  mkTaskRow (t_id t) (t_orchestration t) (t_key t) (t_child t) (t_title t) (t_prompt t) areas
    criteria (t_kind t) (t_position t) (t_status t) (t_attempts t) (t_summary t) (t_error t)
    (t_verdict t) (t_reason t) (t_continuation t) (t_generation t) (t_retries t) (t_violations t)
    (t_compliant t) (t_iteration t) (t_report t).

Definition set_s_task (task : option Z) (s : SessionRow) : SessionRow :=
  mkSessionRow (s_id s) (s_project s) (s_role s) (s_status s) (s_questions s) task (s_base_branch s)
    (s_review_status s) (s_review_hash s) (s_review_text s) (s_has_diff s) (s_added s) (s_deleted s)
    (s_input_tokens s) (s_output_tokens s).
Definition set_s_role (role : SessionRole) (s : SessionRow) : SessionRow :=
  mkSessionRow (s_id s) (s_project s) role (s_status s) (s_questions s) (s_task s) (s_base_branch s)
    (s_review_status s) (s_review_hash s) (s_review_text s) (s_has_diff s) (s_added s) (s_deleted s)
    (s_input_tokens s) (s_output_tokens s).
Definition set_s_questions (questions : str) (status : SessionStatus) (s : SessionRow) : SessionRow :=
  mkSessionRow (s_id s) (s_project s) (s_role s) status (Some questions) (s_task s) (s_base_branch s)
    (s_review_status s) (s_review_hash s) (s_review_text s) (s_has_diff s) (s_added s) (s_deleted s)
    (s_input_tokens s) (s_output_tokens s).
Definition clear_s_review (s : SessionRow) : SessionRow :=
  mkSessionRow (s_id s) (s_project s) (s_role s) (s_status s) (s_questions s) (s_task s)
    (s_base_branch s) None None None (s_has_diff s) (s_added s) (s_deleted s)
    (s_input_tokens s) (s_output_tokens s).

(** ** Loaded rows *)

(** [SessionOrchestrationRow]: the row with the project of its controller. *)
Record SessionOrchestrationRow := mkLoadedOrchestration {
  lo_row : OrchestrationRow;
  lo_project : Z
}.

(** [SessionOrchestrationTaskRow]: the row with the columns joined from its child. *)
Record SessionOrchestrationTaskRow := mkTaskView {
  v_row : TaskRow;
  c_added_lines : Z;
  c_answer : option str;
  c_deleted_lines : Z;
  c_review_status : option str;
  c_review_text : option str;
  c_has_diff : option bool;
  c_input_tokens : Z;
  c_output_tokens : Z;
  c_questions : option str;
  c_status : option SessionStatus
}.

Record PersistedOrchestrationTask := mkPersistedTask {
  p_criteria : str;
  p_kind : OrchestrationTaskKind;
  p_position : Z;
  p_prompt : str;
  p_orchestration : Z;
  p_key : str;
  p_title : str;
  p_areas : str
}.

Record OrchestrationTaskScopeRow := mkTaskScope {
  sc_base_branch : str;
  sc_id : Z;
  sc_areas : str
}.

Record SessionOrchestrationMetadataRow := mkMetadataRow {
  md_controller : option str;
  md_status : option OrchestrationStatus;
  md_running : Z;
  md_session : str;
  md_waiting : Z
}.

(** ** Queries *)

Definition has_task_id (id : Z) (t : TaskRow) : bool := (t_id t =? id)%Z.
Definition has_orchestration_id (id : Z) (o : OrchestrationRow) : bool := (o_id o =? id)%Z.
Definition has_session_id (id : str) (s : SessionRow) : bool := str_eqb (s_id s) id.
Definition in_campaign (id : Z) (t : TaskRow) : bool := (t_orchestration t =? id)%Z.
Definition status_in (statuses : list OrchestrationTaskStatus) (t : TaskRow) : bool :=
  bool_decide (t_status t ∈ statuses).

Definition find_task (db : Db) (id : Z) : option TaskRow := list_find_b (has_task_id id) (db_tasks db).
Definition find_orchestration (db : Db) (id : Z) : option OrchestrationRow :=
  list_find_b (has_orchestration_id id) (db_orchestrations db).
Definition find_session (db : Db) (id : str) : option SessionRow :=
  list_find_b (has_session_id id) (db_sessions db).

(** [EXISTS (SELECT 1 FROM session_orchestration WHERE id = .. AND status IN ..)]. *)
Definition campaign_is (db : Db) (id : Z) (statuses : list OrchestrationStatus) : bool :=
  existsb (λ o, has_orchestration_id id o && bool_decide (o_status o ∈ statuses))
    (db_orchestrations db).

Definition load_row (db : Db) (o : OrchestrationRow) : option SessionOrchestrationRow :=
  s ← find_session db (o_controller o); Some (mkLoadedOrchestration o (s_project s)).

Definition by_id (a b : SessionOrchestrationRow) : bool :=
  (o_id (lo_row a) <=? o_id (lo_row b))%Z.

Definition load_orchestration_for_controller (controller : str) (db : Db)
  : option SessionOrchestrationRow * Db :=
  (last (sort_by by_id (omap (load_row db)
     (List.filter (λ o, str_eqb (o_controller o) controller) (db_orchestrations db)))), db).

Definition active_statuses : list OrchestrationStatus :=
  [OrchAwaitingApproval; OrchRunning; OrchVerifying; OrchAwaitingIntegration; OrchIntegrating;
   OrchCanceling].

Definition load_active_orchestrations (db : Db) : list SessionOrchestrationRow * Db :=
  (sort_by by_id (omap (load_row db)
     (List.filter (λ o, bool_decide (o_status o ∈ active_statuses)) (db_orchestrations db))), db).

(** The last assistant answer of a session, by position. *)
Definition last_answer (db : Db) (session : option str) : option str :=
  id ← session;
  m_content <$> last (sort_by_key m_position
    (List.filter (λ m, str_eqb (m_session m) id && str_eqb (m_kind m) (L"assistant_answer"))
       (db_messages db))).

Definition task_view (db : Db) (t : TaskRow) : SessionOrchestrationTaskRow :=
  let answer := last_answer db (t_child t) in
  match c ← t_child t; find_session db c with
  | Some s =>
      mkTaskView t (s_added s) answer (s_deleted s) (s_review_status s) (s_review_text s)
        (s_has_diff s) (s_input_tokens s) (s_output_tokens s) (s_questions s) (Some (s_status s))
  | None => mkTaskView t 0 answer 0 None None None 0 0 None None
  end.

(** [ORDER BY task.merge_position, task.id]. *)
Definition plan_order (a b : TaskRow) : bool :=
  ((t_position a <? t_position b) || ((t_position a =? t_position b) && (t_id a <=? t_id b)))%Z.

Definition load_orchestration_tasks (id : Z) (db : Db) : list SessionOrchestrationTaskRow * Db :=
  (task_view db <$> sort_by plan_order (List.filter (in_campaign id) (db_tasks db)), db).

(** [fetch_one] fails without a row: [None]. *)
Definition load_orchestration_integration_approach (id : Z) (db : Db)
  : option IntegrationApproach * Db := (o_approach <$> find_orchestration db id, db).

Definition load_orchestration_task_scope_for_child (child : str) (db : Db)
  : option OrchestrationTaskScopeRow * Db :=
  (t ← list_find_b (λ t, bool_decide (t_child t = Some child) && bool_decide (t_kind t = Implementation))
         (db_tasks db);
   s ← find_session db child;
   if bool_decide (s_role s = OrchestrationWorker)
   then Some (mkTaskScope (s_base_branch s) (t_id t) (t_areas t)) else None, db).

Definition load_child_session_id_for_task (task : Z) (db : Db) : option str * Db :=
  (s_id <$> list_find_b (λ s, bool_decide (s_task s = Some task)) (db_sessions db), db).

Definition load_rollup_operation_status (operation : str) (db : Db) : option OperationStatus * Db :=
  (snd <$> list_find_b (λ op, str_eqb op.1 operation) (db_operations db), db).

Definition load_recoverable_focused_review_session_ids (project : Z) (db : Db) : list str * Db :=
  (omap (λ t,
     c ← t_child t;
     s ← find_session db c;
     if (s_project s =? project)%Z && campaign_is db (t_orchestration t) [OrchAwaitingApproval; OrchRunning]
        && status_in [TaskReviewing] t && bool_decide (s_status s ∈ [Review; AgentReview])
        && bool_decide (s_review_status s ∈ [None; Some (L"Pending")])
     then Some (s_id s) else None)
   (sort_by (λ a b, t_id a <=? t_id b)%Z (db_tasks db)), db).

Definition running_statuses : list OrchestrationTaskStatus :=
  [TaskCreating; TaskRunning; TaskReviewing; TaskReviewApplying; TaskContinuationPending].

(** The latest campaign of a controller. *)
Definition latest_orchestration (db : Db) (controller : str) : option OrchestrationRow :=
  last (sort_by (λ a b, o_id a <=? o_id b)%Z
          (List.filter (λ o, str_eqb (o_controller o) controller) (db_orchestrations db))).

Definition count_status (db : Db) (id : Z) (statuses : list OrchestrationTaskStatus) : Z :=
  Z.of_nat (length (List.filter (λ t, in_campaign id t && status_in statuses t) (db_tasks db))).

(** The controller of the task that links a child. *)
Definition child_controller (db : Db) (child : str) : option str :=
  t ← list_find_b (λ t, bool_decide (t_child t = Some child)) (db_tasks db);
  o_controller <$> find_orchestration db (t_orchestration t).

Definition session_metadata (db : Db) (s : SessionRow) : option SessionOrchestrationMetadataRow :=
  match latest_orchestration db (s_id s), child_controller db (s_id s) with
  | None, None => None
  | Some o, controller =>
      Some (mkMetadataRow controller (Some (o_status o)) (count_status db (o_id o) running_statuses)
              (s_id s) (count_status db (o_id o) [TaskWaitingForInput]))
  | None, controller => Some (mkMetadataRow controller None 0 (s_id s) 0)
  end.

Definition load_session_metadata_for_project (project : Z) (db : Db)
  : list SessionOrchestrationMetadataRow * Db :=
  (omap (session_metadata db)
     (sort_by (λ a b, str_leb (s_id a) (s_id b))
        (List.filter (λ s, (s_project s =? project)%Z) (db_sessions db))), db).

(** ** Campaign operations *)

Definition update_orchestrations (db : Db) (p : OrchestrationRow → bool)
    (f : OrchestrationRow → OrchestrationRow) : Db :=
  with_orchestrations db (update_where p f (db_orchestrations db)).
Definition update_tasks (db : Db) (p : TaskRow → bool) (f : TaskRow → TaskRow) : Db :=
  with_tasks db (update_where p f (db_tasks db)).
Definition update_sessions (db : Db) (p : SessionRow → bool) (f : SessionRow → SessionRow) : Db :=
  with_sessions db (update_where p f (db_sessions db)).

Definition insert_orchestration (controller : str) (status : OrchestrationStatus) (parallelism : Z)
    (db : Db) : Z * Db :=
  let id := (db_last_orchestration db + 1)%Z in
  (id, mkDb (db_orchestrations db ++
               [mkOrchestrationRow id controller [] status parallelism None 0 LocalMerge])
         (db_tasks db) (db_sessions db) (db_messages db) (db_operations db) (db_settings db)
         id (db_last_task db)).

(** Both persisted directions of a child link are cleared. *)
Definition unlink_sessions (db : Db) (task : Z) : Db :=
  update_sessions db (λ s, bool_decide (s_task s = Some task)) (set_s_task None).

(** [ON CONFLICT(session_orchestration_id, task_key) DO UPDATE]: identity,
    attempts, retries, generation and area evidence stay. *)
Definition replan (task : PersistedOrchestrationTask) (t : TaskRow) : TaskRow :=
  mkTaskRow (t_id t) (t_orchestration t) (t_key t) None (p_title task) (p_prompt task)
    (p_areas task) (p_criteria task) (p_kind task) (p_position task) TaskPlanned (t_attempts t)
    None None None None None (t_generation t) (t_retries t) (t_violations t) (t_compliant t) 0 None.

Definition planned_row (id : Z) (task : PersistedOrchestrationTask) : TaskRow :=
  mkTaskRow id (p_orchestration task) (p_key task) None (p_title task) (p_prompt task)
    (p_areas task) (p_criteria task) (p_kind task) (p_position task) TaskPlanned 0
    None None None None None 0 0 (L"[]") None 0 None.

Definition same_key (task : PersistedOrchestrationTask) (t : TaskRow) : bool :=
  in_campaign (p_orchestration task) t && str_eqb (t_key t) (p_key task).

Definition upsert_orchestration_task (task : PersistedOrchestrationTask) (db : Db) : Z * Db :=
  match list_find_b (same_key task) (db_tasks db) with
  | Some t =>
      (t_id t, unlink_sessions (update_tasks db (same_key task) (replan task)) (t_id t))
  | None =>
      let id := (db_last_task db + 1)%Z in
      (id, unlink_sessions
             (mkDb (db_orchestrations db) (db_tasks db ++ [planned_row id task]) (db_sessions db)
                (db_messages db) (db_operations db) (db_settings db) (db_last_orchestration db) id)
             id)
  end.

Definition update_orchestration_status (id : Z) (status : OrchestrationStatus) (db : Db) : unit * Db :=
  (tt, update_orchestrations db (has_orchestration_id id) (set_o_status status)).

Definition campaign_in (id : Z) (statuses : list OrchestrationStatus) (o : OrchestrationRow) : bool :=
  has_orchestration_id id o && bool_decide (o_status o ∈ statuses).

(** [transition_orchestration_and_tasks]. *)
Definition transition_orchestration_and_tasks (id : Z) (from_o to_o : OrchestrationStatus)
    (from_t to_t : OrchestrationTaskStatus) (require_pass : bool) (db : Db) : bool * Db :=
  let moved := affects_one (campaign_in id [from_o]) (db_orchestrations db) in
  let db1 := update_orchestrations db (campaign_in id [from_o]) (set_o_status to_o) in
  (moved,
   if moved
   then update_tasks db1
          (λ t, in_campaign id t && status_in [from_t] t &&
                (negb require_pass || bool_decide (t_verdict t = Some Pass)))
          (set_t_status to_t)
   else db1).

Definition approve_orchestration_plan (id : Z) : Db → bool * Db :=
  transition_orchestration_and_tasks id OrchAwaitingApproval OrchRunning TaskProposed TaskPlanned false.

Definition complete_orchestration_rollup (id : Z) : Db → bool * Db :=
  transition_orchestration_and_tasks id OrchVerifying OrchAwaitingIntegration TaskReady
    TaskAwaitingIntegration true.

Definition approve_orchestration_integration (id : Z) (approach : IntegrationApproach) (db : Db)
  : bool * Db :=
  let p := campaign_in id [OrchAwaitingIntegration] in
  (affects_one p (db_orchestrations db),
   update_orchestrations db p (λ o,
     mkOrchestrationRow (o_id o) (o_controller o) (o_goal o) OrchIntegrating (o_parallelism o)
       (o_relayed o) (o_generation o) approach)).

Definition update_orchestration_plan (id : Z) (goal : str) (parallelism : Z) (db : Db) : unit * Db :=
  (tt, update_orchestrations db (campaign_in id [OrchAwaitingApproval]) (λ o,
     mkOrchestrationRow (o_id o) (o_controller o) goal (o_status o) parallelism (o_relayed o)
       (o_generation o) (o_approach o))).

Definition begin_orchestration_cancellation (id : Z) (db : Db) : bool * Db :=
  let p := campaign_in id active_statuses in
  (affects_one p (db_orchestrations db), update_orchestrations db p (set_o_status OrchCanceling)).

Definition claim_orchestration_rollup (id : Z) (db : Db) : bool * Db :=
  let p := campaign_in id [OrchRunning] in
  (affects_one p (db_orchestrations db),
   update_orchestrations db p (λ o,
     mkOrchestrationRow (o_id o) (o_controller o) (o_goal o) OrchVerifying (o_parallelism o)
       (o_relayed o) (o_generation o + 1) (o_approach o))).

(** The campaign and its idle controller become [Done] together. *)
Definition complete_orchestration_campaign (id : Z) (db : Db) : bool * Db :=
  let p := campaign_in id [OrchAwaitingIntegration; OrchIntegrating] in
  match list_find_b p (db_orchestrations db) with
  | None => (false, db)
  | Some o =>
      (true,
       update_sessions (update_orchestrations db p (set_o_status OrchDone))
         (λ s, has_session_id (o_controller o) s && bool_decide (s_role s = Orchestrator) &&
               bool_decide (s_status s ∈ [Review; Question]))
         (set_s_questions [] Done))
  end.

(** ** Task operations *)

Definition update_orchestration_task_status (id : Z) (status : OrchestrationTaskStatus)
    (error : option str) (db : Db) : unit * Db :=
  (tt, update_tasks db (has_task_id id) (λ t, set_t_error error (set_t_status status t))).

Definition update_orchestration_task_result_summary (id : Z) (summary : str) (db : Db) : unit * Db :=
  (tt, update_tasks db (has_task_id id) (set_t_summary (Some summary))).

Definition update_orchestration_task_research_report (id : Z) (report : str) (db : Db) : unit * Db :=
  (tt, update_tasks db (λ t, has_task_id id t && bool_decide (t_kind t = Research))
         (set_t_report (Some report))).

Definition update_orchestration_task_area_compliance (id : Z) (compliant : option bool)
    (violations : str) (db : Db) : unit * Db :=
  (tt, update_tasks db (has_task_id id) (set_t_areas_check violations compliant)).

Definition claim_orchestration_task (id : Z) (db : Db) : bool * Db :=
  let p := λ t, has_task_id id t && status_in [TaskPlanned] t &&
                campaign_is db (t_orchestration t) [OrchRunning] in
  (affects_one p (db_tasks db),
   update_tasks db p (λ t, set_t_error None (set_t_status TaskCreating t))).

Definition link_orchestration_task_child (id : Z) (child : str) (db : Db) : bool * Db :=
  let p := λ t, has_task_id id t && status_in [TaskCreating] t &&
                campaign_is db (t_orchestration t) [OrchRunning] in
  (affects_one p (db_tasks db),
   update_tasks db p (λ t,
     set_t_attempts (t_attempts t + 1) (set_t_status TaskRunning (set_t_child (Some child) t)))).

(** The review cache of the task's child is consumed. *)
Definition clear_child_review (db : Db) (id : Z) : Db :=
  match t ← find_task db id; t_child t with
  | Some child => update_sessions db (has_session_id child) clear_s_review
  | None => db
  end.

Definition claim_orchestration_review_application (id : Z) (prompt : str) (iteration_limit : Z)
    (db : Db) : bool * Db :=
  let p := λ t, has_task_id id t && status_in [TaskReviewing] t &&
                (t_iteration t <? iteration_limit)%Z && bool_decide (is_Some (t_child t)) in
  if negb (existsb p (db_tasks db)) then (false, db)
  else
    (true,
     clear_child_review
       (update_tasks db p (λ t,
          set_t_status TaskReviewApplying (set_t_continuation (Some prompt) (t_iteration t + 1) t)))
       id).

Definition queue_orchestration_continuation (id : Z) (prompt criteria areas : str) (db : Db)
  : bool * Db :=
  let p := λ t, has_task_id id t && bool_decide (is_Some (t_child t)) &&
                status_in [TaskReady; TaskAwaitingIntegration; TaskIntegrationFailed] t in
  let db1 := update_tasks db p (λ t,
    set_t_error None (set_t_verdict None None (set_t_summary None (set_t_status TaskContinuationPending
      (set_t_areas_check (L"[]") None (set_t_scope criteria areas
         (set_t_continuation (Some prompt) 0 t))))))) in
  let moved := affects_one p (db_tasks db) in
  (moved, if moved then clear_child_review db1 id else db1).

Definition reset_orchestration_verification (id : Z) (db : Db) : unit * Db :=
  (tt, update_tasks db (λ t, in_campaign id t && status_in [TaskAwaitingIntegration] t)
         (λ t, set_t_verdict None None (set_t_status TaskReady t))).

Definition record_orchestration_verdict (id : Z) (key : str) (is_pass : bool) (reason : str) (db : Db)
  : bool * Db :=
  let p := λ t, in_campaign id t && str_eqb (t_key t) key && status_in [TaskReady; TaskReported] t &&
                campaign_is db id [OrchVerifying] in
  (affects_one p (db_tasks db),
   update_tasks db p (set_t_verdict (Some (if is_pass then Pass else Flag)) (Some reason))).

(** [CASE WHEN infrastructure_retry_count < ?]: the count before the update. *)
Definition spawn_failure_status (retry_limit : Z) (t : TaskRow) : OrchestrationTaskStatus :=
  if (t_retries t <? retry_limit)%Z then TaskPlanned else TaskFailed.

(** [None]: no row to return. *)
Definition record_orchestration_spawn_failure (id : Z) (error : str) (retry_limit : Z) (db : Db)
  : option OrchestrationTaskStatus * Db :=
  match find_task db id with
  | None => (None, db)
  | Some t0 =>
      (Some (spawn_failure_status retry_limit t0),
       update_tasks (unlink_sessions db id) (has_task_id id) (λ t,
         set_t_error (Some error) (set_t_status (spawn_failure_status retry_limit t)
           (set_t_retries (t_retries t + 1) (set_t_child None t)))))
  end.

Definition detach_orchestration_child (child : str) (db : Db) : bool * Db :=
  match s ← find_session db child;
        if bool_decide (s_role s = OrchestrationWorker) then s_task s else None with
  | None => (false, db)
  | Some task =>
      (true,
       update_sessions
         (update_tasks db (has_task_id task) (λ t, set_t_status TaskDetached (set_t_child None t)))
         (has_session_id child) (λ s, set_s_role Worker (set_s_task None s)))
  end.

(** ** Question relay *)

Definition relay_ready (db : Db) (id task : Z) (o : OrchestrationRow) : bool :=
  has_orchestration_id id o && bool_decide (o_relayed o = None) &&
  existsb (λ t, has_task_id task t && in_campaign (o_id o) t && status_in [TaskWaitingForInput] t &&
                bool_decide (is_Some (t_child t))) (db_tasks db) &&
  existsb (λ s, has_session_id (o_controller o) s && bool_decide (s_role s = Orchestrator) &&
                bool_decide (s_status s ∈ [Review; Question]) &&
                is_empty (default [] (s_questions s))) (db_sessions db).

Definition surface_orchestration_questions (id task : Z) (questions : str) (db : Db) : bool * Db :=
  match list_find_b (relay_ready db id task) (db_orchestrations db) with
  | None => (false, db)
  | Some o =>
      (true,
       update_sessions (update_orchestrations db (relay_ready db id task) (set_o_relayed (Some task)))
         (has_session_id (o_controller o)) (set_s_questions questions Question))
  end.

Definition clear_orchestration_questions (id : Z) (db : Db) : unit * Db :=
  let relayed := λ o, has_orchestration_id id o && bool_decide (is_Some (o_relayed o)) in
  let db1 :=
    match list_find_b relayed (db_orchestrations db) with
    | Some o =>
        update_sessions db
          (λ s, has_session_id (o_controller o) s && bool_decide (s_role s = Orchestrator) &&
                bool_decide (s_status s = Question))
          (set_s_questions [] Review)
    | None => db
    end in
  (tt, update_orchestrations db1 relayed (set_o_relayed None)).
