(* ===== verification/Coordinator.v ===== *)
(** * Campaign coordinator (crates/ag-orchestration/src/coordinator.rs, event.rs)

    The controller-turn entry points, the user actions and the reconciliation
    pass, as programs over the campaign tables.  Every repository statement and
    every call of the session service is an await point: other tasks may change
    the tables there, and the statement or the call may fail.  A [Host] says
    what happens at each of them; the theorems quantify over it. *)
From stdpp Require Import gmap.
From S2P Require Import Prelude Json Contracts Agent Lifecycle Orchestration Prompt Review Session.
From S2P Require Import Protocol CampaignStore CampaignText.

(** ** Ports (ag-session/src/service.rs) *)

Inductive CreateSessionMode :=
| RegularSession | DraftSession | OrchestratorSession
| OrchestrationChild (task_id : Z) | OrchestrationResearch (task_id : Z)
| StackedSession (parent_session_id : str).

Record CreateSessionRequest := mkCreateSession {
  inherit_from_session_id : option str;
  create_mode : CreateSessionMode;
  create_project_id : Z
}.

Inductive CoordinatorMessageVisibility := Hidden | Visible.

Record CoordinatorMessageRequest := mkCoordinatorMessage {
  message : str;
  operation_id : str;
  visibility : CoordinatorMessageVisibility
}.

(** The operations of [SessionService] that the coordinator uses. *)
Inductive ServiceCall :=
| CallCreateSession (request : CreateSessionRequest)
| CallSendMessage (session message : str)
| CallSubmitCoordinatorMessage (session : str) (request : CoordinatorMessageRequest)
| CallCancelSession (session : str)
| CallMergeSession (session : str)
| CallCreateReviewRequest (session : str).

Inductive OrchestrationEvent :=
| RefreshSessions
| ProgressUpdated (progress : option str) (session_id : str).

Inductive OrchestrationApprovalOutcome := Approved | IntegrationApproachRequired | Unavailable.

Record OrchestrationSessionMetadata := mkSessionMetadata {
  metadata_controller : option str;
  metadata_progress : option str
}.

(** At await point [n] other tasks run ([interference]); then the statement
    fails with [statement_error] or is applied, or the call is served.  Only
    [create_session] returns a value that is read: the identifier. *)
Class Host := {
  interference : nat → Db → Db;
  statement_error : nat → option str;
  service : nat → ServiceCall → Db → result str str * Db
}.

(** [askama]: the rendered templates; [None] is a failed rendering. *)
Class Templates := {
  controller_template : str → str → option str;
  child_template : str → str → str → str → str → option str;
  research_template : str → str → str → str → option str
}.

(** ** Programs *)

(** The coordinator with its tables, the notifications it sent and the calls it made. *)
Record World := mkWorld {
  w_db : Db;
  live_statuses : gmap Z str;
  w_events : list OrchestrationEvent;
  w_calls : list ServiceCall;
  w_tick : nat
}.

Inductive Stop := StopError (error : str) | StopPanic.

Definition M (A : Type) : Type := World → result A Stop * World.

#[global] Instance M_ret : MRet M := λ A a w, (Ok a, w).
#[global] Instance M_bind : MBind M := λ A B f m w,
  match m w with (Ok a, w') => f a w' | (Err e, w') => (Err e, w') end.

Definition fail {A} (error : str) : M A := λ w, (Err (StopError error), w).
Definition panic {A} : M A := λ w, (Err StopPanic, w).

(** [?] on a result, and a value that panics when it is missing. *)
Definition question {A} (r : result A str) : M A :=
  match r with Ok a => mret a | Err e => fail e end.
Definition or_panic {A} (o : option A) : M A :=
  match o with Some a => mret a | None => panic end.
(** [ok_or_else]. *)
Definition ok_or {A} (o : option A) (error : str) : M A :=
  match o with Some a => mret a | None => fail error end.

Definition emit (event : OrchestrationEvent) : M unit := λ w,
  (Ok tt, mkWorld (w_db w) (live_statuses w) (w_events w ++ [event]) (w_calls w) (w_tick w)).

(** [for x in &mut l]: the body returns the changed element. *)
Fixpoint for_each {A} (f : A → M A) (l : list A) : M (list A) :=
  match l with
  | [] => mret []
  | x :: rest => y ← f x; ys ← for_each f rest; mret (y :: ys)
  end.

Definition when (b : bool) (m : M unit) : M unit := if b then m else mret tt.

Definition row_not_found : str :=
  L"no rows returned by a query that expected to return at least one row".

(** ** Settings *)

Definition DEFAULT_AUTO_APPROVE_ORCHESTRATION_RESEARCH : bool := true.
Definition DEFAULT_ORCHESTRATION_PARALLELISM : Z := 3.
Definition MAX_ORCHESTRATION_PARALLELISM : Z := 8.

Definition parse_bool (s : str) : option bool := match_str s [(L"true", true); (L"false", false)].

Definition get_setting (name : str) (db : Db) : option str * Db :=
  (snd <$> list_find_b (λ kv, str_eqb kv.1 name) (db_settings db), db).

Definition load_session_role (session : str) (db : Db) : option SessionRole * Db :=
  (s_role <$> find_session db session, db).

(** ** Pure helpers *)

Definition orchestration_task_kind (kind : SubtaskKind) : OrchestrationTaskKind :=
  match kind with SubtaskImplementation => Implementation | SubtaskResearch => Research end.

Definition subtask_kind (kind : OrchestrationTaskKind) : SubtaskKind :=
  match kind with Implementation => SubtaskImplementation | Research => SubtaskResearch end.

Definition subtask_touched_areas (subtask : SubtaskItem) : list str :=
  if bool_decide (sub_kind subtask = SubtaskResearch) then [] else sub_areas subtask.

Definition plan_task (subtask : SubtaskItem) : OrchestrationPlanTask :=
  {| acceptance_criteria := sub_criteria subtask; task_kind := orchestration_task_kind (sub_kind subtask);
     task_prompt := sub_prompt subtask; task_key := sub_key subtask; task_title := sub_title subtask;
     touched_areas := sub_areas subtask |}.

(** The coordinator's wrapper of [validate_subtasks]. *)
Definition validate_items (items : list SubtaskItem) (is_retry : bool) : result unit str :=
  validate_subtasks (plan_task <$> items) is_retry.

Definition task_blocks_integration_approval (task : SessionOrchestrationTaskRow) : bool :=
  match kind_of task, status_of task with
  | Research, TaskReported => negb (bool_decide (t_verdict (v_row task) = Some Pass))
  | _, TaskReady => true
  | _, _ => false
  end.

Definition task_is_integration_settled (task : SessionOrchestrationTaskRow) : bool :=
  match kind_of task, status_of task with
  | Research, TaskReported => bool_decide (t_verdict (v_row task) = Some Pass)
  | _, status => is_integration_settled status
  end.

Definition child_session_is_stopped (status : option SessionStatus) : bool :=
  match status with Some (Merged | Done | Canceled) => true | _ => false end.

Definition session_metadata_from_row (row : SessionOrchestrationMetadataRow)
  : OrchestrationSessionMetadata :=
  mkSessionMetadata (md_controller row)
    ((λ status, match status with
       | OrchAwaitingApproval => L"Awaiting approval"
       | OrchCanceling => L"Canceling orchestration"
       | OrchRunning =>
           display_Z (md_running row) ++ L" running, " ++ display_Z (md_waiting row) ++
           L" waiting on you"
       | OrchVerifying => L"Verifying results"
       | OrchAwaitingIntegration => L"Awaiting integration approval"
       | OrchIntegrating => L"Integrating verified work"
       | OrchDone => L"Phase: Done" ++ [newline] ++ L"Campaign complete"
       | OrchCanceled => L"Phase: Canceled" ++ [newline] ++ L"Campaign canceled"
       end) <$> md_status row).

Definition continuation_routing_question (key : str) : QuestionItem :=
  QuestionItem_with_options
    (L"Task `" ++ key ++
     L"` cannot be continued in place until its live child settles. Wait for it, or use a new task key.")
    [L"Wait, then continue this task"; L"Create a separate follow-up task"; L"Drop this feedback"].

(** *** Changes of a loaded row *)

Definition change_row (f : TaskRow → TaskRow) (task : SessionOrchestrationTaskRow)
  : SessionOrchestrationTaskRow :=
  mkTaskView (f (v_row task)) (c_added_lines task) (c_answer task) (c_deleted_lines task)
    (c_review_status task) (c_review_text task) (c_has_diff task) (c_input_tokens task)
    (c_output_tokens task) (c_questions task) (c_status task).

Definition drop_review (task : SessionOrchestrationTaskRow) : SessionOrchestrationTaskRow :=
  mkTaskView (v_row task) (c_added_lines task) (c_answer task) (c_deleted_lines task)
    None None (c_has_diff task) (c_input_tokens task)
    (c_output_tokens task) (c_questions task) (c_status task).

Definition task_id_of (task : SessionOrchestrationTaskRow) : Z := t_id (v_row task).
Definition child_of (task : SessionOrchestrationTaskRow) : option str := t_child (v_row task).

Definition review_applied (prompt : str) (t : TaskRow) : TaskRow :=
  mkTaskRow (t_id t) (t_orchestration t) (t_key t) (t_child t) (t_title t) (t_prompt t) (t_areas t)
    (t_criteria t) (t_kind t) (t_position t) TaskReviewApplying (t_attempts t) (t_summary t)
    (t_error t) (t_verdict t) (t_reason t) (Some prompt) (i64_saturating_add (t_generation t) 1)
    (t_retries t) (t_violations t) (t_compliant t) (i64_saturating_add (t_iteration t) 1) (t_report t).

Section programs.
Context `{Host} `{JsonText} `{UnicodeAlnum} `{Templates}.

(** ** Await points *)

(** One repository statement. *)
Definition query {R} (op : Db → R * Db) : M (result R str) := λ w,
  let db := interference (w_tick w) (w_db w) in
  match statement_error (w_tick w) with
  | Some e => (Ok (Err e), mkWorld db (live_statuses w) (w_events w) (w_calls w) (S (w_tick w)))
  | None =>
      let '(r, db') := op db in
      (Ok (Ok r), mkWorld db' (live_statuses w) (w_events w) (w_calls w) (S (w_tick w)))
  end.

Definition statement {R} (op : Db → R * Db) : M R := r ← query op; question r.

(** One call of the session service. *)
Definition request (c : ServiceCall) : M (result str str) := λ w,
  let '(r, db) := service (w_tick w) c (interference (w_tick w) (w_db w)) in
  (Ok r, mkWorld db (live_statuses w) (w_events w) (w_calls w ++ [c]) (S (w_tick w))).

(** ** Notifications *)

Definition emit_live_status (orchestration : SessionOrchestrationRow)
    (tasks : list SessionOrchestrationTaskRow) : M unit := λ w,
  let id := o_id (lo_row orchestration) in
  let text := campaign_status_message orchestration tasks in
  if bool_decide (live_statuses w !! id = Some text) then (Ok tt, w)
  else emit (ProgressUpdated (Some text) (o_controller (lo_row orchestration)))
         (mkWorld (w_db w) (<[id := text]> (live_statuses w)) (w_events w) (w_calls w) (w_tick w)).

Definition clear_live_status (orchestration : SessionOrchestrationRow) : M unit := λ w,
  emit (ProgressUpdated None (o_controller (lo_row orchestration)))
    (mkWorld (w_db w) (delete (o_id (lo_row orchestration)) (live_statuses w)) (w_events w)
       (w_calls w) (w_tick w)).

(** ** Controller turns *)

Definition load_max_parallelism : M Z :=
  r ← query (get_setting (L"OrchestrationParallelism"));
  let value := match r with Ok v => v | Err _ => None end in
  mret (Z.max 1 (Z.min (default DEFAULT_ORCHESTRATION_PARALLELISM (v ← value; parse_i64 v))
                   MAX_ORCHESTRATION_PARALLELISM)).

Definition load_auto_approve_research : M bool :=
  r ← query (get_setting (L"AutoApproveOrchestrationResearch"));
  let value := match r with Ok v => v | Err _ => None end in
  mret (default DEFAULT_AUTO_APPROVE_ORCHESTRATION_RESEARCH (v ← value; parse_bool v)).

Definition should_auto_approve_research (items : list SubtaskItem) : M bool :=
  if negb (is_empty items) && forallb (λ s, bool_decide (sub_kind s = SubtaskResearch)) items
  then load_auto_approve_research else mret false.

Definition controller_snapshot (controller : str) : M str :=
  r ← query (load_orchestration_for_controller controller);
  match r with
  | Ok (Some orchestration) =>
      tasks ← query (load_orchestration_tasks (o_id (lo_row orchestration)));
      mret (controller_campaign_snapshot orchestration
              (match tasks with Ok ts => ts | Err _ => [] end))
  | _ => mret (L"No campaign has been planned yet.")
  end.

Definition controller_prompt (session : str) (prompt : TurnPrompt) : M TurnPrompt :=
  role ← query (load_session_role session);
  match role with
  | Ok (Some Orchestrator) =>
    let agent_prompt := agent_text prompt in
    snapshot ← controller_snapshot session;
    mret (mkPrompt (attachments prompt)
            (default agent_prompt (controller_template agent_prompt snapshot)) SourceAgentData)
  | _ => mret prompt
  end.

Definition proposed_task (orchestration_id merge_position : Z) (subtask : SubtaskItem)
  : PersistedOrchestrationTask :=
  mkPersistedTask (json_list (sub_criteria subtask)) (orchestration_task_kind (sub_kind subtask))
    merge_position (sub_prompt subtask) orchestration_id (sub_key subtask) (sub_title subtask)
    (json_list (subtask_touched_areas subtask)).

Definition persist_proposed_subtask (orchestration_id merge_position : Z) (subtask : SubtaskItem)
  : M unit :=
  task_id ← statement (upsert_orchestration_task (proposed_task orchestration_id merge_position subtask));
  statement (update_orchestration_task_status task_id TaskProposed None).

Definition task_as_subtask (task : SessionOrchestrationTaskRow) : option SubtaskItem :=
  criteria ← parse_list (t_criteria (v_row task));
  areas ← (if is_research_task task then Some [] else parse_list (t_areas (v_row task)));
  Some (mkSubtask criteria (subtask_kind (kind_of task)) (t_prompt (v_row task)) (t_key (v_row task))
          (t_title (v_row task)) areas).

(** [collect] into a map: the last task with a key wins. *)
Definition existing_by_key (tasks : list SessionOrchestrationTaskRow) (key : str)
  : option SessionOrchestrationTaskRow :=
  list_find_b (λ task, str_eqb (t_key (v_row task)) key) (rev tasks).

Definition kind_change_question (key : str) : QuestionItem :=
  QuestionItem_with_options
    (L"Task `" ++ key ++ L"` cannot change between research and implementation. Use a new task key for the new execution kind.")
    [L"Create a new task key"; L"Keep the existing task kind"].

(** The check of one follow-up subtask against the task that has its key. *)
Definition subtask_question (tasks : list SessionOrchestrationTaskRow) (subtask : SubtaskItem)
  : option QuestionItem :=
  task ← existing_by_key tasks (sub_key subtask);
  if negb (bool_decide (kind_of task = orchestration_task_kind (sub_kind subtask)))
  then Some (kind_change_question (sub_key subtask))
  else if bool_decide (task_as_subtask task = Some subtask) then None
  else match status_of task with
       | TaskReady | TaskReported | TaskAwaitingIntegration | TaskIntegrationFailed => None
       | _ => Some (continuation_routing_question (sub_key subtask))
       end.

Fixpoint first_question (tasks : list SessionOrchestrationTaskRow) (items : list SubtaskItem)
  : option QuestionItem :=
  match items with
  | [] => None
  | subtask :: rest =>
      match subtask_question tasks subtask with Some q => Some q | None => first_question tasks rest end
  end.

Definition active_subtask_validation_question (orchestration : SessionOrchestrationRow)
    (tasks : list SessionOrchestrationTaskRow) (items : list SubtaskItem) : option QuestionItem :=
  match validate_items items true with
  | Err reason =>
      Some (QuestionItem_with_options
              (L"The follow-up work cannot run yet: " ++ reason ++ L" Revise it?")
              [L"Revise the follow-up"; L"Drop the follow-up"])
  | Ok _ =>
      if bool_decide (o_status (lo_row orchestration) = OrchIntegrating) &&
         existsb (λ task, bool_decide (status_of task = TaskMerging)) tasks
      then Some (QuestionItem_with_options
              (L"Integration is currently applying a task. Wait for that action to settle before routing more work.")
              [L"Wait for integration"; L"Drop the follow-up"])
      else first_question tasks items
  end.

(** [ExistingSubtaskRouter::route]: the response, and whether routing is
    blocked, whether work was routed and how many tasks were proposed. *)
Definition route_existing (orchestration_id : Z) (response : AgentResponse)
    (task : SessionOrchestrationTaskRow) (subtask : SubtaskItem)
  : M (AgentResponse * (bool * bool * Z)) :=
  if bool_decide (task_as_subtask task = Some subtask) then mret (response, (false, false, 0%Z))
  else if bool_decide (sub_kind subtask = SubtaskResearch) then
    _ ← persist_proposed_subtask orchestration_id (t_position (v_row task)) subtask;
    mret (response, (false, true, 1%Z))
  else
    queued ← statement (queue_orchestration_continuation (task_id_of task) (sub_prompt subtask)
                          (json_list (sub_criteria subtask))
                          (json_list (subtask_touched_areas subtask)));
    if (queued : bool) then mret (response, (false, true, 0%Z))
    else mret (ask_instead (continuation_routing_question (sub_key subtask)) response,
               (true, false, 0%Z)).

(** The loop over the subtasks; [None] in the second part is the early return. *)
Fixpoint route_loop (orchestration_id next_position : Z) (tasks : list SessionOrchestrationTaskRow)
    (response : AgentResponse) (routed : bool) (proposed : Z) (items : list SubtaskItem)
  : M (AgentResponse * option (bool * Z)) :=
  match items with
  | [] => mret (response, Some (routed, proposed))
  | subtask :: rest =>
      match existing_by_key tasks (sub_key subtask) with
      | Some task =>
          '(response', (blocked, routed', increment)) ←
            route_existing orchestration_id response task subtask;
          if (blocked : bool) then mret (response', None)
          else route_loop orchestration_id next_position tasks response' (routed || routed')
                 (i64_saturating_add proposed increment) rest
      | None =>
          _ ← persist_proposed_subtask orchestration_id (i64_saturating_add next_position proposed) subtask;
          route_loop orchestration_id next_position tasks response true
            (i64_saturating_add proposed 1) rest
      end
  end.

Definition next_merge_position (tasks : list SessionOrchestrationTaskRow) : Z :=
  i64_saturating_add
    (match (λ task, t_position (v_row task)) <$> tasks with
     | [] => -1
     | p :: ps => fold_left Z.max ps p
     end) 1.

Definition route_active_subtasks (orchestration : SessionOrchestrationRow) (response : AgentResponse)
  : M AgentResponse :=
  let id := o_id (lo_row orchestration) in
  let items := subtask_items response in
  tasks ← statement (load_orchestration_tasks id);
  match active_subtask_validation_question orchestration tasks items with
  | Some q => mret (ask_instead q response)
  | None =>
      auto_approve ← should_auto_approve_research items;
      '(response, outcome) ← route_loop id (next_merge_position tasks) tasks response false 0 items;
      match outcome with
      | None => mret response
      | Some (false, _) => mret (clear_subtasks response)
      | Some (true, proposed) =>
          _ ← when (bool_decide (o_status (lo_row orchestration) ∈
                                   [OrchAwaitingIntegration; OrchIntegrating]))
                (statement (reset_orchestration_verification id));
          _ ← statement (update_orchestration_status id
                           (if (proposed =? 0)%Z then OrchRunning else OrchAwaitingApproval));
          _ ← when ((0 <? proposed)%Z && (auto_approve : bool))
                (_ ← statement (approve_orchestration_plan id); mret tt);
          mret (clear_subtasks response)
      end
  end.

(** The response and whether it was consumed. *)
Definition handle_active_controller_plan (orchestration : SessionOrchestrationRow)
    (response : AgentResponse) : M (AgentResponse * bool) :=
  let status := o_status (lo_row orchestration) in
  if bool_decide (status ∈ [OrchRunning; OrchVerifying; OrchAwaitingIntegration; OrchIntegrating]) &&
     negb (is_empty (subtasks response)) then
    response' ← route_active_subtasks orchestration response;
    mret (response', true)
  else if bool_decide (status = OrchAwaitingApproval) && negb (is_empty (subtasks response)) then
    _ ← statement (update_orchestration_status (o_id (lo_row orchestration)) OrchCanceled);
    mret (response, false)
  else mret (clear_subtasks response, true).

Definition verdict_mismatch (orchestration_id : Z) (key : str) : str :=
  L"Invalid orchestration verification verdict: task `" ++ key ++
  L"` did not match a ready task in orchestration " ++ display_Z orchestration_id.

Fixpoint record_verdicts (orchestration_id : Z) (recorded_task_keys : list str)
    (items : list VerificationVerdictItem) : M unit :=
  match items with
  | [] => mret tt
  | item :: rest =>
      let key := trim (verdict_key item) in
      if is_empty key || bool_decide (key ∈ recorded_task_keys)
      then record_verdicts orchestration_id recorded_task_keys rest
      else
        recorded ← statement (record_orchestration_verdict orchestration_id key
                                (bool_decide (verdict item = Pass)) (trim (verdict_reason item)));
        if (recorded : bool) then record_verdicts orchestration_id (key :: recorded_task_keys) rest
        else fail (verdict_mismatch orchestration_id key)
  end.

Definition persist_controller_verdicts (orchestration : SessionOrchestrationRow)
    (response : AgentResponse) : M unit :=
  if negb (bool_decide (o_status (lo_row orchestration) = OrchVerifying)) then mret tt
  else record_verdicts (o_id (lo_row orchestration)) [] (verification_verdict_items response).

Definition reusable_retry_orchestration_id (existing : option SessionOrchestrationRow)
    (items : list SubtaskItem) : M (option Z) :=
  match existing with
  | Some orchestration =>
      if bool_decide (o_status (lo_row orchestration) = OrchDone) then
        tasks ← statement (load_orchestration_tasks (o_id (lo_row orchestration)));
        let retryable :=
          (λ task, t_key (v_row task)) <$>
            List.filter (λ task, bool_decide (status_of task ∈ [TaskFailed; TaskCanceled])) tasks in
        mret (if negb (is_empty items) && forallb (λ s, bool_decide (sub_key s ∈ retryable)) items
              then Some (o_id (lo_row orchestration)) else None)
      else mret None
  | None => mret None
  end.

Fixpoint persist_plan_loop (orchestration_id position : Z) (items : list SubtaskItem) : M unit :=
  match items with
  | [] => mret tt
  | subtask :: rest =>
      _ ← persist_proposed_subtask orchestration_id position subtask;
      persist_plan_loop orchestration_id (position + 1)%Z rest
  end.

Definition plan_rejected (reason : str) : QuestionItem :=
  QuestionItem_with_options
    (L"The orchestration plan cannot run yet: " ++ reason ++ L" Revise the plan?")
    [L"Revise the plan"; L"Use a regular session"].

(** The part after the active campaign: a new plan, or a retry of a finished one. *)
Definition persist_new_plan (controller : str) (existing : option SessionOrchestrationRow)
    (response : AgentResponse) : M AgentResponse :=
  if is_empty (subtasks response) then mret response
  else
    let items := subtask_items response in
    auto_approve ← should_auto_approve_research items;
    retry ← reusable_retry_orchestration_id existing items;
    match validate_items items (bool_decide (is_Some retry)) with
    | Err reason => mret (ask_instead (plan_rejected reason) response)
    | Ok _ =>
        id ← match retry with
             | Some id => mret id
             | None =>
                 parallelism ← load_max_parallelism;
                 statement (insert_orchestration controller OrchAwaitingApproval parallelism)
             end;
        _ ← statement (update_orchestration_status id OrchAwaitingApproval);
        parallelism ← load_max_parallelism;
        _ ← statement (update_orchestration_plan id (bounded_goal (answer response)) parallelism);
        _ ← persist_plan_loop id 0 items;
        _ ← when auto_approve (_ ← statement (approve_orchestration_plan id); mret tt);
        mret response
    end.

Definition persist_controller_plan (controller : str) (response : AgentResponse) : M AgentResponse :=
  role ← statement (load_session_role controller);
  if negb (bool_decide (role = Some Orchestrator)) then mret response
  else
    existing ← statement (load_orchestration_for_controller controller);
    match (existing : option SessionOrchestrationRow) with
    | Some orchestration =>
        if OrchestrationStatus_is_active (o_status (lo_row orchestration)) then
          _ ← persist_controller_verdicts orchestration response;
          '(response', consumed) ← handle_active_controller_plan orchestration response;
          if (consumed : bool) then mret response' else persist_new_plan controller None response'
        else persist_new_plan controller existing response
    | None => persist_new_plan controller None response
    end.

(** ** User actions *)

Definition approve_orchestration (controller : str) (approach : option IntegrationApproach)
  : M OrchestrationApprovalOutcome :=
  existing ← statement (load_orchestration_for_controller controller);
  match (existing : option SessionOrchestrationRow) with
  | None => mret Unavailable
  | Some orchestration =>
      let id := o_id (lo_row orchestration) in
      match o_status (lo_row orchestration) with
      | OrchAwaitingApproval =>
          approved ← statement (approve_orchestration_plan id);
          mret (if (approved : bool) then Approved else Unavailable)
      | OrchAwaitingIntegration =>
          tasks ← statement (load_orchestration_tasks id);
          if existsb task_blocks_integration_approval tasks then mret Unavailable
          else match approach with
               | None => mret IntegrationApproachRequired
               | Some a =>
                   approved ← statement (approve_orchestration_integration id a);
                   mret (if (approved : bool) then Approved else Unavailable)
               end
      | _ => mret Unavailable
      end
  end.

Definition detach_managed_child (child : str) : M bool := statement (detach_orchestration_child child).

Definition session_metadata_for_project (project : Z)
  : M (list (str * OrchestrationSessionMetadata)) :=
  rows ← query (load_session_metadata_for_project project);
  mret ((λ row, (md_session row, session_metadata_from_row row)) <$>
          (match rows with Ok l => l | Err _ => [] end)).

Definition has_child (task : SessionOrchestrationTaskRow) : M bool :=
  match child_of task with
  | Some _ => mret true
  | None =>
      r ← query (load_child_session_id_for_task (task_id_of task));
      mret (match r with Ok (Some _) => true | _ => false end)
  end.

Fixpoint count_children (count : nat) (tasks : list SessionOrchestrationTaskRow) : M nat :=
  match tasks with
  | [] => mret count
  | task :: rest =>
      present ← has_child task;
      count_children (if (present : bool) then S count else count) rest
  end.

Definition running_child_count (controller : str) : M nat :=
  r ← query (load_orchestration_for_controller controller);
  match r with
  | Ok (Some orchestration) =>
      tasks ← query (load_orchestration_tasks (o_id (lo_row orchestration)));
      count_children 0
        (List.filter (λ task, occupies_parallelism_slot (status_of task))
           (match tasks with Ok l => l | Err _ => [] end))
  | _ => mret 0
  end.

(** [persist_managed_child_area_compliance]; the changed files come from Git, and
    the parser's own message is left out of the error. *)
Definition persist_managed_child_area_compliance (diff_changed_files : str → result (list str) str)
    (child : str) : M unit :=
  scope ← statement (load_orchestration_task_scope_for_child child);
  match (scope : option OrchestrationTaskScopeRow) with
  | None => mret tt
  | Some scope =>
      areas ← ok_or (parse_list (sc_areas scope)) (L"Invalid touched areas for managed child");
      changed_files ← question (diff_changed_files (sc_base_branch scope));
      let violations := if is_empty areas then [] else area_violations changed_files areas in
      statement (update_orchestration_task_area_compliance (sc_id scope)
                   (if is_empty areas then None else Some (is_empty violations))
                   (json_list violations))
  end.

(** ** Task reconciliation *)

Definition update_task_status (task : SessionOrchestrationTaskRow) (next : OrchestrationTaskStatus)
    (last_error : option str) : M SessionOrchestrationTaskRow :=
  if bool_decide (status_of task = next) then mret task
  else
    _ ← statement (update_orchestration_task_status (task_id_of task) next last_error);
    mret (change_row (λ t, set_t_error last_error (set_t_status next t)) task).

Definition cancel_unclaimed_child (child : str) : M unit :=
  r ← request (CallCancelSession child);
  _ ← question r;
  emit RefreshSessions.

Definition fail_task_spawn (task : SessionOrchestrationTaskRow) (error : str)
  : M SessionOrchestrationTaskRow :=
  _ ← match child_of task with Some child => cancel_unclaimed_child child | None => mret tt end;
  next ← statement (record_orchestration_spawn_failure (task_id_of task) error INFRASTRUCTURE_RETRY_LIMIT);
  next ← ok_or next row_not_found;
  mret (change_row (λ t, set_t_error (Some error)
          (set_t_retries (i64_saturating_add (t_retries t) 1) (set_t_status next (set_t_child None t))))
          task).

(** The summary of a settled task, written when it changed. *)
Definition record_summary (task : SessionOrchestrationTaskRow) : M SessionOrchestrationTaskRow :=
  let summary := bounded_summary (default (L"Completed") (c_answer task)) in
  if bool_decide (t_summary (v_row task) = Some summary) then mret task
  else
    _ ← statement (update_orchestration_task_result_summary (task_id_of task) summary);
    mret (change_row (set_t_summary (Some summary)) task).

Definition complete_task_review (task : SessionOrchestrationTaskRow) : M SessionOrchestrationTaskRow :=
  task ← update_task_status task TaskReady None;
  record_summary task.

(** The coordinator prompt of a child, sent again until its operation is done. *)
Definition submit_to_child (child operation prompt : str) : M unit :=
  r ← request (CallSubmitCoordinatorMessage child (mkCoordinatorMessage prompt operation Visible));
  _ ← question r;
  mret tt.

Definition reconcile_review_application (task : SessionOrchestrationTaskRow)
  : M SessionOrchestrationTaskRow :=
  let operation := continuation_operation_id task in
  status ← statement (load_rollup_operation_status operation);
  match (status : option OperationStatus) with
  | None | Some OpFailed | Some OpCanceled =>
      child ← ok_or (child_of task) (L"Review remediation lost its managed child");
      prompt ← ok_or (t_continuation (v_row task)) (L"Review remediation lost its verification prompt");
      _ ← submit_to_child child operation prompt;
      mret task
  | Some OpQueued | Some OpRunning => mret task
  | Some OpDone =>
      match c_status task with
      | Some Question => update_task_status task TaskWaitingForInput None
      | Some Canceled => update_task_status task TaskFailed None
      | Some (Review | AgentReview) => update_task_status task TaskReviewing None
      | Some (Merged | Done) => update_task_status task TaskReady None
      | _ => mret task
      end
  end.

Definition reconcile_focused_review (task : SessionOrchestrationTaskRow)
  : M SessionOrchestrationTaskRow :=
  if negb (bool_decide (c_has_diff task = Some true)) then complete_task_review task
  else
    review_status ← match c_review_status task with
                    | None => mret None
                    | Some text => s ← question (FocusedReviewStatus_from_str text); mret (Some s)
                    end;
    match (review_status : option FocusedReviewStatus) with
    | None | Some ReviewPending => update_task_status task TaskReviewing None
    | Some ReviewFailed | Some ReviewPartial => complete_task_review task
    | Some ReviewReady =>
        if is_partial (c_review_text task) then complete_task_review task
        else match child_suggestions task with
        | None => complete_task_review task
        | Some suggestions =>
            if (MAX_AUTOMATED_REVIEW_ITERATIONS <=? t_iteration (v_row task))%Z
            then complete_task_review task
            else
              task ← update_task_status task TaskReviewing None;
              let prompt := agent_text (build_apply_review_prompt suggestions) in
              claimed ← statement (claim_orchestration_review_application (task_id_of task) prompt
                                     MAX_AUTOMATED_REVIEW_ITERATIONS);
              if (claimed : bool)
              then reconcile_review_application (drop_review (change_row (review_applied prompt) task))
              else mret task
        end
    end.

Definition reconcile_continuation (task : SessionOrchestrationTaskRow)
  : M SessionOrchestrationTaskRow :=
  match child_of task with
  | None => update_task_status task TaskFailed (Some (L"Continuation lost its managed child"))
  | Some child =>
      let operation := continuation_operation_id task in
      status ← statement (load_rollup_operation_status operation);
      match (status : option OperationStatus) with
      | None | Some OpFailed | Some OpCanceled =>
          _ ← submit_to_child child operation (continuation_message task);
          mret task
      | Some OpQueued | Some OpRunning => mret task
      | Some OpDone =>
          let settle next summary :=
            _ ← statement (update_orchestration_task_status (task_id_of task) next None);
            _ ← match (summary : option str) with
                | Some s => statement (update_orchestration_task_result_summary (task_id_of task) s)
                | None => mret tt
                end;
            mret (change_row (λ t, set_t_summary summary (set_t_status next t)) task) in
          match c_status task with
          | Some (Review | AgentReview) => reconcile_focused_review task
          | Some Question => settle TaskWaitingForInput None
          | Some Canceled => settle TaskFailed None
          | Some (Merged | Done) => settle TaskReady (bounded_summary <$> c_answer task)
          | _ => mret task
          end
      end
  end.

Definition no_report : str := L"Research child completed without a report.".

Definition captured_report (task : SessionOrchestrationTaskRow) : str :=
  match bounded_research_report <$> c_answer task with
  | Some report => if is_empty report then no_report else report
  | None => no_report
  end.

Definition complete_research_task (task : SessionOrchestrationTaskRow) (child_status : SessionStatus)
  : M SessionOrchestrationTaskRow :=
  let report := captured_report task in
  task ← (if bool_decide (t_report (v_row task) = Some report) then mret task
          else
            _ ← statement (update_orchestration_task_research_report (task_id_of task) report);
            mret (change_row (set_t_report (Some report)) task));
  _ ← (if bool_decide (child_status ∈ [Review; AgentReview]) then
         child ← ok_or (child_of task) (L"Research task lost its temporary child");
         r ← request (CallCancelSession child);
         _ ← question r;
         mret tt
       else mret tt);
  update_task_status task TaskReported (research_edit_warning task).

Definition reconcile_research_task (task : SessionOrchestrationTaskRow)
  : M SessionOrchestrationTaskRow :=
  if bool_decide (status_of task = TaskReported) then mret task
  else
    let child_status := default Canceled (c_status task) in
    match child_status with
    | Question => update_task_status task TaskWaitingForInput None
    | Review | AgentReview | Merged | Done => complete_research_task task child_status
    | Canceled =>
        if bool_decide (is_Some (t_report (v_row task)))
        then update_task_status task TaskReported (research_edit_warning task)
        else update_task_status task TaskFailed
               (Some (L"Research child stopped before returning a report"))
    | Draft | InProgress | Queued | Rebasing | Merging => update_task_status task TaskRunning None
    end.

(** A task whose child creation was interrupted: adopt the child or fail the spawn. *)
Definition recover_creating_task (task : SessionOrchestrationTaskRow)
  : M SessionOrchestrationTaskRow :=
  found ← statement (load_child_session_id_for_task (task_id_of task));
  let task := change_row (set_t_child found) task in
  match (found : option str) with
  | Some child =>
      linked ← statement (link_orchestration_task_child (task_id_of task) child);
      if (linked : bool) then mret (change_row (set_t_status TaskRunning) task)
      else (_ ← cancel_unclaimed_child child; mret task)
  | None => fail_task_spawn task (L"Child creation did not complete")
  end.

Definition reconcile_task (task : SessionOrchestrationTaskRow) : M SessionOrchestrationTaskRow :=
  if bool_decide (status_of task = TaskReviewApplying) then reconcile_review_application task
  else if bool_decide (status_of task = TaskContinuationPending) then reconcile_continuation task
  else match child_of task with
  | None =>
      if bool_decide (status_of task = TaskCreating) then recover_creating_task task else mret task
  | Some _ =>
      if is_research_task task then reconcile_research_task task
      else
        let child_status := default Canceled (c_status task) in
        if bool_decide (child_status ∈ [Review; AgentReview]) then reconcile_focused_review task
        else
          let next := from_child_status child_status in
          task ← update_task_status task next None;
          if bool_decide (next = TaskReady) then record_summary task else mret task
  end.

(** ** Spawning *)

Definition child_prompt (task : SessionOrchestrationTaskRow) : str :=
  let t := v_row task in
  default (t_prompt t)
    (if is_research_task task
     then research_template (t_criteria t) (t_prompt t) (t_key t) (t_title t)
     else child_template (t_criteria t) (t_prompt t) (t_key t) (t_title t) (t_areas t)).

Definition child_request (orchestration : SessionOrchestrationRow) (task : SessionOrchestrationTaskRow)
  : CreateSessionRequest :=
  mkCreateSession (Some (o_controller (lo_row orchestration)))
    (match kind_of task with
     | Research => OrchestrationResearch (task_id_of task)
     | Implementation => OrchestrationChild (task_id_of task)
     end)
    (lo_project orchestration).

Definition spawn_task (orchestration : SessionOrchestrationRow) (task : SessionOrchestrationTaskRow)
  : M SessionOrchestrationTaskRow :=
  claimed ← statement (claim_orchestration_task (task_id_of task));
  if negb claimed then mret task
  else
    let task := change_row (λ t, set_t_error None (set_t_status TaskCreating t)) task in
    created ← request (CallCreateSession (child_request orchestration task));
    match created with
    | Err error => fail_task_spawn task error
    | Ok child =>
        linked ← statement (link_orchestration_task_child (task_id_of task) child);
        if negb linked then (_ ← cancel_unclaimed_child child; mret task)
        else
          let task := change_row (λ t, set_t_status TaskRunning (set_t_child (Some child) t)) task in
          sent ← request (CallSendMessage child (child_prompt task));
          task ← match sent with Err error => fail_task_spawn task error | Ok _ => mret task end;
          _ ← emit RefreshSessions;
          mret task
    end.

(** [filter(Planned).take(count)]. *)
Fixpoint spawn_loop (orchestration : SessionOrchestrationRow) (count : nat)
    (tasks : list SessionOrchestrationTaskRow) : M unit :=
  match tasks with
  | [] => mret tt
  | task :: rest =>
      if bool_decide (status_of task = TaskPlanned) then
        match count with
        | 0 => mret tt
        | S count' => _ ← spawn_task orchestration task; spawn_loop orchestration count' rest
        end
      else spawn_loop orchestration count rest
  end.

(** ** Campaign reconciliation *)

Definition waiting_question (task : SessionOrchestrationTaskRow) : option (Z * str) :=
  if bool_decide (status_of task = TaskWaitingForInput) then
    q ← c_questions task; if is_empty q then None else Some (task_id_of task, q)
  else None.

Definition surface_child_questions (orchestration : SessionOrchestrationRow)
    (tasks : list SessionOrchestrationTaskRow) : M unit :=
  match head (omap waiting_question tasks) with
  | None => mret tt
  | Some (task, questions) =>
      surfaced ← statement (surface_orchestration_questions (o_id (lo_row orchestration)) task questions);
      when surfaced (emit RefreshSessions)
  end.

Definition submit_rollup (orchestration : SessionOrchestrationRow)
    (tasks : list SessionOrchestrationTaskRow) (generation : Z) : M unit :=
  rollup ← or_panic (rollup_message (o_goal (lo_row orchestration)) tasks);
  r ← request (CallSubmitCoordinatorMessage (o_controller (lo_row orchestration))
                 (mkCoordinatorMessage rollup
                    (rollup_operation_id (o_id (lo_row orchestration)) generation) Hidden));
  _ ← question r;
  mret tt.

Definition is_live_task (task : SessionOrchestrationTaskRow) : bool :=
  bool_decide (status_of task ∈ [TaskContinuationPending; TaskRunning; TaskReviewing;
                                 TaskReviewApplying; TaskWaitingForInput]).

Definition reconcile_parked_plan (orchestration : SessionOrchestrationRow) : M unit :=
  tasks ← statement (load_orchestration_tasks (o_id (lo_row orchestration)));
  tasks ← for_each (λ task, if is_live_task task then reconcile_task task else mret task) tasks;
  _ ← surface_child_questions orchestration tasks;
  emit_live_status orchestration tasks.

Definition complete_campaign (orchestration : SessionOrchestrationRow) : M unit :=
  completed ← statement (complete_orchestration_campaign (o_id (lo_row orchestration)));
  when completed (_ ← clear_live_status orchestration; emit RefreshSessions).

Definition reconcile_awaiting_integration (orchestration : SessionOrchestrationRow) : M unit :=
  tasks ← statement (load_orchestration_tasks (o_id (lo_row orchestration)));
  if forallb task_is_integration_settled tasks then complete_campaign orchestration
  else emit_live_status orchestration tasks.

(** One round of the cancellation loop: an error of [cancel_session] is kept
    for later and the task is left as it is. *)
Definition cancel_task (task : SessionOrchestrationTaskRow) : M (option str) :=
  if is_settled (status_of task) then mret None
  else if child_session_is_stopped (c_status task) then
    _ ← update_task_status task TaskCanceled None; mret None
  else
    child ← match child_of task with
            | Some child => mret (Some child)
            | None => statement (load_child_session_id_for_task (task_id_of task))
            end;
    match (child : option str) with
    | Some child =>
        r ← request (CallCancelSession child);
        match r with
        | Err error => mret (Some error)
        | Ok _ => _ ← update_task_status task TaskCanceled None; mret None
        end
    | None => _ ← update_task_status task TaskCanceled None; mret None
    end.

Fixpoint cancel_loop (first_error : option str) (tasks : list SessionOrchestrationTaskRow)
  : M (option str) :=
  match tasks with
  | [] => mret first_error
  | task :: rest =>
      error ← cancel_task task;
      cancel_loop (match first_error with Some e => Some e | None => error end) rest
  end.

Definition reconcile_cancellation (orchestration : SessionOrchestrationRow) : M unit :=
  tasks ← statement (load_orchestration_tasks (o_id (lo_row orchestration)));
  first_error ← cancel_loop None tasks;
  match (first_error : option str) with
  | Some error => fail error
  | None =>
      _ ← statement (update_orchestration_status (o_id (lo_row orchestration)) OrchCanceled);
      _ ← clear_live_status orchestration;
      emit RefreshSessions
  end.

Definition decide_schedule (orchestration : SessionOrchestrationRow)
    (tasks : list SessionOrchestrationTaskRow) : OrchestrationScheduleDecision :=
  schedule (Z.to_nat (o_parallelism (lo_row orchestration))) (Some ∘ status_of <$> tasks).

Definition reconcile_orchestration (orchestration : SessionOrchestrationRow) : M unit :=
  let id := o_id (lo_row orchestration) in
  tasks ← statement (load_orchestration_tasks id);
  tasks ← for_each reconcile_task tasks;
  _ ← surface_child_questions orchestration tasks;
  _ ← spawn_loop orchestration (spawn_count (decide_schedule orchestration tasks)) tasks;
  refreshed ← statement (load_orchestration_tasks id);
  if should_submit (decide_schedule orchestration refreshed) then
    _ ← clear_live_status orchestration;
    claimed ← statement (claim_orchestration_rollup id);
    when claimed
      (submit_rollup orchestration refreshed (i64_saturating_add (o_generation (lo_row orchestration)) 1))
  else emit_live_status orchestration refreshed.

Definition reconcile_rollup (orchestration : SessionOrchestrationRow)
    (tasks : list SessionOrchestrationTaskRow) : M unit :=
  let id := o_id (lo_row orchestration) in
  let generation := o_generation (lo_row orchestration) in
  status ← statement (load_rollup_operation_status (rollup_operation_id id generation));
  match (status : option OperationStatus) with
  | Some OpDone => _ ← statement (complete_orchestration_rollup id); mret tt
  | Some OpQueued | Some OpRunning => mret tt
  | None | Some OpFailed | Some OpCanceled => submit_rollup orchestration tasks generation
  end.

(** ** Integration *)

Definition publish_review_request (task : SessionOrchestrationTaskRow) (child : str)
  : M SessionOrchestrationTaskRow :=
  r ← request (CallCreateReviewRequest child);
  match r with
  | Ok _ => update_task_status task TaskReviewRequested None
  | Err error => update_task_status task TaskIntegrationFailed (Some error)
  end.

Definition no_child_session : str := L"Verified task has no child session".

Definition integrate_task (task : SessionOrchestrationTaskRow) (approach : IntegrationApproach)
  : M SessionOrchestrationTaskRow :=
  match child_of task with
  | None => update_task_status task TaskIntegrationFailed (Some no_child_session)
  | Some child =>
      task ← update_task_status task TaskMerging None;
      if bool_decide (approach = ApproachReviewRequest) then publish_review_request task child
      else
        r ← request (CallMergeSession child);
        match r with
        | Err error => update_task_status task TaskIntegrationFailed (Some error)
        | Ok _ => mret task
        end
  end.

Definition reconcile_review_requested_task (task : SessionOrchestrationTaskRow)
  : M SessionOrchestrationTaskRow :=
  if negb (bool_decide (status_of task = TaskReviewRequested)) then mret task
  else match c_status task with
       | Some (Merged | Done) => update_task_status task TaskIntegrated None
       | Some Canceled =>
           update_task_status task TaskIntegrationFailed (Some (L"Review request closed without merge"))
       | _ => mret task
       end.

Definition reconcile_merging_task (approach : IntegrationApproach) (task : SessionOrchestrationTaskRow)
  : M SessionOrchestrationTaskRow :=
  if negb (bool_decide (status_of task = TaskMerging)) then mret task
  else if bool_decide (approach = ApproachReviewRequest) then
    match child_of task with
    | Some child => publish_review_request task child
    | None => update_task_status task TaskIntegrationFailed (Some no_child_session)
    end
  else match c_status task with
       | Some (Done | Merged) => update_task_status task TaskIntegrated None
       | Some Canceled =>
           update_task_status task TaskIntegrationFailed (Some (L"Child integration was canceled"))
       | _ => mret task
       end.

(** [iter_mut().find(AwaitingIntegration)]: the first verified task is integrated. *)
Fixpoint integrate_first (approach : IntegrationApproach) (tasks : list SessionOrchestrationTaskRow)
  : M (option (list SessionOrchestrationTaskRow)) :=
  match tasks with
  | [] => mret None
  | task :: rest =>
      if bool_decide (status_of task = TaskAwaitingIntegration)
      then task' ← integrate_task task approach; mret (Some (task' :: rest))
      else rest' ← integrate_first approach rest; mret ((task ::.) <$> rest')
  end.

Definition reconcile_integration (orchestration : SessionOrchestrationRow) : M unit :=
  let id := o_id (lo_row orchestration) in
  approach ← statement (load_orchestration_integration_approach id);
  approach ← ok_or approach row_not_found;
  tasks ← statement (load_orchestration_tasks id);
  tasks ← for_each (λ task,
            task ← reconcile_review_requested_task task; reconcile_merging_task approach task) tasks;
  if existsb (λ task, bool_decide (status_of task = TaskMerging)) tasks
  then emit_live_status orchestration tasks
  else
    integrated ← integrate_first approach tasks;
    match (integrated : option (list SessionOrchestrationTaskRow)) with
    | Some tasks' => emit_live_status orchestration tasks'
    | None =>
        if forallb task_is_integration_settled tasks then complete_campaign orchestration
        else emit_live_status orchestration tasks
    end.

(** ** One pass *)

Definition reconcile_campaign (orchestration : SessionOrchestrationRow) : M unit :=
  match o_status (lo_row orchestration) with
  | OrchAwaitingApproval => reconcile_parked_plan orchestration
  | OrchAwaitingIntegration => reconcile_awaiting_integration orchestration
  | OrchRunning => reconcile_orchestration orchestration
  | OrchVerifying =>
      tasks ← statement (load_orchestration_tasks (o_id (lo_row orchestration)));
      reconcile_rollup orchestration tasks
  | OrchIntegrating => reconcile_integration orchestration
  | OrchCanceling => reconcile_cancellation orchestration
  | OrchDone | OrchCanceled => mret tt
  end.

Fixpoint reconcile_campaigns (orchestrations : list SessionOrchestrationRow) : M unit :=
  match orchestrations with
  | [] => mret tt
  | orchestration :: rest => _ ← reconcile_campaign orchestration; reconcile_campaigns rest
  end.

Definition reconcile_once : M unit :=
  orchestrations ← statement load_active_orchestrations;
  reconcile_campaigns orchestrations.

(** ** Cascade cancellation (app/session_api.rs) *)

(** One unsettled task of [cancel_api_orchestration]; the managed child is
    canceled unless it has stopped, and an error ends the cascade. *)
Definition cancel_api_task (task : SessionOrchestrationTaskRow) : M unit :=
  child ← match child_of task with
          | Some child => mret (Some child)
          | None => statement (load_child_session_id_for_task (task_id_of task))
          end;
  _ ← match (child : option str) with
      | Some child =>
          if negb (child_session_is_stopped (c_status task)) then
            r ← request (CallCancelSession child);
            _ ← question r;
            mret tt
          else mret tt
      | None => mret tt
      end;
  statement (update_orchestration_task_status (task_id_of task) TaskCanceled None).

Fixpoint cancel_api_tasks (tasks : list SessionOrchestrationTaskRow) : M unit :=
  match tasks with
  | [] => mret tt
  | task :: rest =>
      _ ← when (negb (is_settled (status_of task))) (cancel_api_task task);
      cancel_api_tasks rest
  end.

Definition cancel_api_orchestration (controller : str) : M unit :=
  existing ← statement (load_orchestration_for_controller controller);
  match (existing : option SessionOrchestrationRow) with
  | None => mret tt
  | Some orchestration =>
      let id := o_id (lo_row orchestration) in
      started ← statement (begin_orchestration_cancellation id);
      when started
        (tasks ← statement (load_orchestration_tasks id);
         _ ← cancel_api_tasks tasks;
         statement (update_orchestration_status id OrchCanceled))
  end.
End programs.
