(* ===== verification/CampaignSpec.v ===== *)
(** * Abstract campaigns

    What a campaign promises, without texts, evidence or child sessions: the
    phase of every campaign and, for every task, its status, kind, child,
    verdict and review counter.  [step] lists the changes that are allowed and
    the guards they have on the state they change; [Sound] is the invariant of
    every run.  [CampaignLaws] shows that the coordinator refines this machine. *)
From stdpp Require Import relations.
From S2P Require Import Prelude Contracts Agent Lifecycle Orchestration Protocol CampaignStore.

Record TaskCore := mkCore {
  k_id : Z;
  k_orchestration : Z;
  k_kind : OrchestrationTaskKind;
  k_status : OrchestrationTaskStatus;
  k_child : option str;
  k_verdict : option VerificationVerdict;
  k_iteration : Z
}.

Record Spec := mkSpec {
  phases : list (Z * OrchestrationStatus);
  cores : list TaskCore
}.

Definition core (t : TaskRow) : TaskCore :=
  mkCore (t_id t) (t_orchestration t) (t_kind t) (t_status t) (t_child t) (t_verdict t) (t_iteration t).

Definition phase (o : OrchestrationRow) : Z * OrchestrationStatus := (o_id o, o_status o).

(** The abstraction function. *)
Definition spec_of (db : Db) : Spec :=
  mkSpec (phase <$> db_orchestrations db) (core <$> db_tasks db).

Definition to_status (s : OrchestrationTaskStatus) (k : TaskCore) : TaskCore :=
  mkCore (k_id k) (k_orchestration k) (k_kind k) s (k_child k) (k_verdict k) (k_iteration k).
Definition to_child (c : option str) (k : TaskCore) : TaskCore :=
  mkCore (k_id k) (k_orchestration k) (k_kind k) (k_status k) c (k_verdict k) (k_iteration k).
Definition to_verdict (v : option VerificationVerdict) (k : TaskCore) : TaskCore :=
  mkCore (k_id k) (k_orchestration k) (k_kind k) (k_status k) (k_child k) v (k_iteration k).
Definition to_iteration (n : Z) (k : TaskCore) : TaskCore :=
  mkCore (k_id k) (k_orchestration k) (k_kind k) (k_status k) (k_child k) (k_verdict k) n.

(** ** Guards *)

(** The statuses an observation of the child can set. *)
Definition observed (kind : OrchestrationTaskKind) : list OrchestrationTaskStatus :=
  match kind with
  | Implementation => [TaskRunning; TaskWaitingForInput; TaskReviewing; TaskReady; TaskFailed]
  | Research => [TaskRunning; TaskWaitingForInput; TaskReported; TaskFailed]
  end.

(** The statuses of verified work. *)
Definition verified_statuses : list OrchestrationTaskStatus :=
  [TaskAwaitingIntegration; TaskMerging; TaskReviewRequested; TaskIntegrated].

Definition research_statuses : list OrchestrationTaskStatus :=
  [TaskProposed; TaskPlanned; TaskCreating; TaskRunning; TaskWaitingForInput; TaskReported;
   TaskFailed; TaskCanceled; TaskDetached].

Definition unspawned_statuses : list OrchestrationTaskStatus :=
  [TaskProposed; TaskPlanned; TaskCreating].

Definition working_phases : list OrchestrationStatus := [OrchRunning; OrchAwaitingApproval].

(** The phases in which the controller may route follow-up work, and in which it may plan. *)
Definition follow_up_phases : list OrchestrationStatus :=
  [OrchRunning; OrchVerifying; OrchAwaitingIntegration; OrchIntegrating].
Definition open_phases : list OrchestrationStatus := OrchAwaitingApproval :: follow_up_phases.

Definition core_settled (k : TaskCore) : bool :=
  match k_kind k, k_status k with
  | Research, TaskReported => bool_decide (k_verdict k = Some Pass)
  | _, status => is_integration_settled status
  end.

(** One task, in a campaign whose phase is [ph]. *)
Inductive task_move (ph : OrchestrationStatus) : TaskCore → TaskCore → Prop :=
| move_evidence k : task_move ph k k
| move_observe k next :
    ph ∈ working_phases → next ∈ observed (k_kind k) →
    is_Some (k_child k) ∨ k_status k = TaskContinuationPending →
    task_move ph k (to_status next k)
| move_remediate k :
    ph ∈ working_phases → k_status k = TaskReviewing → is_Some (k_child k) →
    (k_iteration k < MAX_AUTOMATED_REVIEW_ITERATIONS)%Z →
    task_move ph k (to_status TaskReviewApplying (to_iteration (k_iteration k + 1) k))
| move_claim k :
    ph = OrchRunning → k_status k = TaskPlanned → task_move ph k (to_status TaskCreating k)
| move_link k child :
    ph = OrchRunning → k_status k = TaskCreating →
    task_move ph k (to_status TaskRunning (to_child (Some child) k))
| move_spawn_failed k next :
    ph = OrchRunning → k_status k ∈ [TaskCreating; TaskRunning] → next ∈ [TaskPlanned; TaskFailed] →
    task_move ph k (to_status next (to_child None k))
| move_integrate k next :
    ph = OrchIntegrating →
    k_status k ∈ [TaskAwaitingIntegration; TaskMerging; TaskReviewRequested] →
    next = TaskIntegrationFailed ∨
    (k_status k ∈ [TaskMerging; TaskReviewRequested] ∧ next ∈ [TaskIntegrated; TaskReviewRequested]) →
    task_move ph k (to_status next k)
| move_cancel k :
    ph = OrchCanceling → is_settled (k_status k) = false → task_move ph k (to_status TaskCanceled k)
| move_detach k : task_move ph k (to_status TaskDetached (to_child None k))
| move_verdict k v :
    ph = OrchVerifying → k_status k ∈ [TaskReady; TaskReported] →
    task_move ph k (to_verdict (Some v) k)
| move_continue k :
    ph ∈ open_phases → k_kind k = Implementation → is_Some (k_child k) →
    k_status k ∈ [TaskReady; TaskAwaitingIntegration; TaskIntegrationFailed] →
    task_move ph k (to_status TaskContinuationPending (to_verdict None (to_iteration 0 k)))
| move_unverify k :
    ph ∈ open_phases → k_kind k = Implementation → k_status k = TaskAwaitingIntegration →
    task_move ph k (to_status TaskReady (to_verdict None k))
| move_replan k kind :
    ph ∈ open_phases →
    task_move ph k (mkCore (k_id k) (k_orchestration k) kind TaskPlanned None None 0)
| move_propose k :
    ph ∈ open_phases → k_status k = TaskPlanned → task_move ph k (to_status TaskProposed k).

(** A campaign with the tasks [ks] changes its phase. *)
Inductive phase_move (ks : list TaskCore) : OrchestrationStatus → OrchestrationStatus → Prop :=
| phase_same ph : phase_move ks ph ph
| phase_supersede : phase_move ks OrchAwaitingApproval OrchCanceled
| phase_verify :
    Forall (λ k, is_settled (k_status k) = true) ks → phase_move ks OrchRunning OrchVerifying
| phase_reopen ph next :
    ph ∈ follow_up_phases → next ∈ working_phases →
    Forall (λ k, k_status k ≠ TaskMerging) ks → phase_move ks ph next
| phase_integrate : phase_move ks OrchAwaitingIntegration OrchIntegrating
| phase_done ph :
    ph ∈ [OrchAwaitingIntegration; OrchIntegrating] →
    Forall (λ k, core_settled k = true) ks → phase_move ks ph OrchDone
| phase_retry : phase_move ks OrchDone OrchAwaitingApproval
| phase_cancel ph : ph ∈ active_statuses → phase_move ks ph OrchCanceling
| phase_canceled :
    Forall (λ k, is_settled (k_status k) = true) ks → phase_move ks OrchCanceling OrchCanceled.

Definition tasks_of (s : Spec) (id : Z) : list TaskCore :=
  List.filter (λ k, k_orchestration k =? id)%Z (cores s).

Definition in_phase (id : Z) (ph : OrchestrationStatus) (c : Z * OrchestrationStatus) : bool :=
  (c.1 =? id)%Z && bool_decide (c.2 = ph).

Definition has_core_id (id : Z) (k : TaskCore) : bool := (k_id k =? id)%Z.

(** One atomic change; an [UPDATE] may move several rows at once. *)
Inductive step (s : Spec) : Spec → Prop :=
| step_tasks p g :
    (∀ k, k ∈ cores s → p k = true →
       ∃ ph, (k_orchestration k, ph) ∈ phases s ∧ task_move ph k (g k)) →
    step s (mkSpec (phases s) (update_where p g (cores s)))
| step_merge k :
    k ∈ cores s → (k_orchestration k, OrchIntegrating) ∈ phases s →
    k_status k = TaskAwaitingIntegration → is_Some (k_child k) →
    Forall (λ k', k_status k' ≠ TaskMerging) (tasks_of s (k_orchestration k)) →
    step s (mkSpec (phases s) (update_where (has_core_id (k_id k)) (to_status TaskMerging) (cores s)))
| step_phase p next :
    (∀ c, c ∈ phases s → p c = true → phase_move (tasks_of s c.1) c.2 next) →
    step s (mkSpec (update_where p (λ c, (c.1, next)) (phases s)) (cores s))
| step_approve id :
    (id, OrchAwaitingApproval) ∈ phases s →
    step s (mkSpec (update_where (in_phase id OrchAwaitingApproval) (λ c, (c.1, OrchRunning)) (phases s))
       (update_where (λ k, (k_orchestration k =? id)%Z && bool_decide (k_status k = TaskProposed))
          (to_status TaskPlanned) (cores s)))
| step_rollup id :
    (id, OrchVerifying) ∈ phases s →
    step s (mkSpec
       (update_where (in_phase id OrchVerifying) (λ c, (c.1, OrchAwaitingIntegration)) (phases s))
       (update_where (λ k, (k_orchestration k =? id)%Z &&
                           (bool_decide (k_status k = TaskReady) && bool_decide (k_verdict k = Some Pass)))
          (to_status TaskAwaitingIntegration) (cores s)))
| step_open id :
    Forall (λ c, c.1 < id)%Z (phases s) →
    step s (mkSpec (phases s ++ [(id, OrchAwaitingApproval)]) (cores s))
| step_plan id campaign kind ph :
    Forall (λ k, k_id k < id)%Z (cores s) → (campaign, ph) ∈ phases s → ph ∈ open_phases →
    step s (mkSpec (phases s) (cores s ++ [mkCore id campaign kind TaskPlanned None None 0])).

(** ** Invariant *)

(** One task of a campaign in phase [ph]. *)
Record task_sound (ph : OrchestrationStatus) (k : TaskCore) : Prop := mkTaskSound {
  sound_verified : k_status k ∈ verified_statuses → k_verdict k = Some Pass;
  sound_research : k_kind k = Research → k_status k ∈ research_statuses;
  sound_unspawned : k_status k ∈ unspawned_statuses → k_child k = None;
  sound_applying : k_status k = TaskReviewApplying → is_Some (k_child k);
  sound_iteration : (0 <= k_iteration k <= MAX_AUTOMATED_REVIEW_ITERATIONS)%Z;
  sound_merging : k_status k = TaskMerging → ph ∈ [OrchIntegrating; OrchCanceling];
  sound_done : ph = OrchDone → core_settled k = true
}.

Record Sound (s : Spec) : Prop := mkSound {
  sound_phase_ids : NoDup (phases s).*1;
  sound_task_ids : NoDup (k_id <$> cores s);
  sound_tasks k : k ∈ cores s → ∃ ph, (k_orchestration k, ph) ∈ phases s;
  sound_each k ph : k ∈ cores s → (k_orchestration k, ph) ∈ phases s → task_sound ph k;
  sound_one_merging k k' :
    k ∈ cores s → k' ∈ cores s → k_orchestration k = k_orchestration k' →
    k_status k = TaskMerging → k_status k' = TaskMerging → k = k'
}.

(** ** Lemmas *)

Lemma elem_of_update_where {A} (p : A → bool) f (l : list A) y :
  y ∈ update_where p f l ↔ ∃ x, x ∈ l ∧ y = if p x then f x else x.
Proof.
  unfold update_where. rewrite list_elem_of_fmap. split; intros (x & ? & ?); eauto.
Qed.

Lemma update_where_fmap {A B} (h : A → B) (p : A → bool) f (l : list A) :
  (∀ x, x ∈ l → p x = true → h (f x) = h x) → h <$> update_where p f l = h <$> l.
Proof.
  intros E. unfold update_where. rewrite <-list_fmap_compose. apply list_fmap_ext.
  intros i x Hx. apply list_elem_of_lookup_2 in Hx. cbn. destruct (p x) eqn:P; auto.
Qed.

Lemma filter_one {A} (p : A → bool) (l : list A) (h : A → Z) i t :
  NoDup (h <$> l) → t ∈ l → p t = true → (∀ x, x ∈ l → p x = true → h x = i) →
  length (List.filter p l) = 1.
Proof.
  induction l as [|x l IH]; cbn; [set_solver|]. rewrite NoDup_cons.
  intros [N ND] Ht Pt HI.
  assert (∀ y, y ∈ l → p y = true → p x = true → False) as HF.
  { intros y Hy Py Px. apply N. rewrite (HI x), <-(HI y) by (done || by (left || right)).
    by apply list_elem_of_fmap_2. }
  apply elem_of_cons in Ht as [->|Ht].
  - rewrite Pt. cbn. f_equal. destruct (List.filter p l) as [|y ys] eqn:E; [done|].
    assert (y ∈ List.filter p l) as Hy by (rewrite E; by left).
    apply elem_of_filter_b in Hy as [Py Hy]. by destruct (HF y Hy Py Pt).
  - destruct (p x) eqn:Px; [by destruct (HF t Ht Pt)|].
    apply IH; auto. intros y Hy. apply HI. by right.
Qed.

Lemma update_where_none {A} (p : A → bool) f (l : list A) : existsb p l = false → update_where p f l = l.
Proof.
  intros E. unfold update_where. rewrite <-(list_fmap_id l) at 2. apply list_fmap_ext.
  intros i x Hx. rewrite existsb_false in E. rewrite (E x); [done|]. by eapply list_elem_of_lookup_2.
Qed.

Lemma update_where_ext_f {A} (p : A → bool) f g l :
  (∀ x, x ∈ l → p x = true → f x = g x) → update_where p f l = update_where p g l.
Proof.
  intros E. unfold update_where. apply list_fmap_ext. intros i x Hx.
  destruct (p x) eqn:P; [|done]. apply E; [|done]. by eapply list_elem_of_lookup_2.
Qed.

Lemma NoDup_unique {A} (h : A → Z) (l : list A) x y :
  NoDup (h <$> l) → x ∈ l → y ∈ l → h x = h y → x = y.
Proof.
  intros ND Hx Hy E. apply list_elem_of_lookup in Hx as [i Hi], Hy as [j Hj].
  assert (i = j) as ->; [|congruence].
  eapply (NoDup_lookup _ _ _ (h x) ND); rewrite list_lookup_fmap.
  - by rewrite Hi.
  - rewrite Hj. cbn. congruence.
Qed.

Lemma update_where_ext_both {A} (p q : A → bool) f g l :
  (∀ x, p x = q x) → (∀ x, f x = g x) → update_where p f l = update_where q g l.
Proof. intros P F. unfold update_where. apply list_fmap_ext. intros i x _. by rewrite P, F. Qed.

Lemma update_where_ext {A} (p q : A → bool) f l :
  (∀ x, x ∈ l → p x = q x) → update_where p f l = update_where q f l.
Proof.
  intros E. unfold update_where. apply list_fmap_ext. intros i x Hx.
  by rewrite (E x) by by eapply list_elem_of_lookup_2.
Qed.

Lemma NoDup_omap_key {A B} (g : A → option B) (h : B → Z) (h' : A → Z) (l : list A) :
  (∀ x y, g x = Some y → h y = h' x) → NoDup (h' <$> l) → NoDup (h <$> omap g l).
Proof.
  intros E. induction l as [|x l IH]; cbn; [constructor|]. rewrite NoDup_cons. intros [N ND].
  destruct (g x) as [y|] eqn:G; [|auto]. cbn. apply NoDup_cons. split; [|auto].
  rewrite (E _ _ G). intros (y' & Ey & (x' & Hx & Gx)%list_elem_of_omap)%list_elem_of_fmap.
  apply N, list_elem_of_fmap. exists x'. split; [|done]. rewrite Ey. by apply E.
Qed.

(** A homomorphism takes an update to the update of the images. *)
Lemma fmap_update_where {A B} (h : A → B) p f p' f' (l : list A) :
  (∀ x, p x = p' (h x)) → (∀ x, h (f x) = f' (h x)) →
  h <$> update_where p f l = update_where p' f' (h <$> l).
Proof.
  intros P F. unfold update_where. rewrite <-!list_fmap_compose. apply list_fmap_ext.
  intros i x _. cbn. rewrite <-P. destruct (p x); auto.
Qed.

Lemma NoDup_fst_unique {A B} (l : list (A * B)) a b b' :
  NoDup l.*1 → (a, b) ∈ l → (a, b') ∈ l → b = b'.
Proof.
  induction l as [|[a0 b0] l IH]; cbn; [set_solver|].
  rewrite NoDup_cons, !elem_of_cons. intros [N ND] [E|E] [E'|E']; [congruence| | |by eauto].
  all: injection E as -> -> || injection E' as -> ->.
  all: destruct N; apply list_elem_of_fmap; eexists (_, _); cbn; eauto.
Qed.

Lemma elem_of_tasks_of s id k : k ∈ tasks_of s id ↔ k ∈ cores s ∧ k_orchestration k = id.
Proof. unfold tasks_of. rewrite elem_of_filter_b, Z.eqb_eq. tauto. Qed.

(** Membership in a closed list, in the goal and in the hypotheses. *)
Ltac in_list := repeat first [apply list_elem_of_here | apply list_elem_of_further].
Ltac split_in :=
  repeat match goal with
  | H : ?x ∈ [] |- _ => by apply not_elem_of_nil in H
  | H : ?x ∈ _ :: _ |- _ => apply elem_of_cons in H as [H|H]
  end.

(** The guards of a move, resolved against what is known of the task. *)
Ltac guards :=
  unfold working_phases, open_phases, follow_up_phases, observed, verified_statuses,
    unspawned_statuses, research_statuses, MAX_AUTOMATED_REVIEW_ITERATIONS in *;
  subst; repeat match goal with
  | H : k_kind ?k = _, H' : context [k_kind ?k] |- _ => rewrite H in H'
  | H : k_kind ?k = _ |- context [k_kind ?k] => rewrite H
  | H : k_status ?k = _, H' : context [k_status ?k] |- _ => rewrite H in H'
  | H : _ ∨ _ |- _ => destruct H
  | H : _ ∧ _ |- _ => destruct H
  | H : ?x = ?x → _ |- _ => specialize (H eq_refl)
  end; split_in; subst; try discriminate; try congruence.

Lemma task_move_ids ph k k' :
  task_move ph k k' → k_id k' = k_id k ∧ k_orchestration k' = k_orchestration k.
Proof. by destruct 1. Qed.

Lemma task_move_merging ph k k' :
  task_move ph k k' → k_status k' = TaskMerging → k_status k = TaskMerging.
Proof.
  destruct 1; cbn; try done.
  - intros ->. by destruct (k_kind k); cbn in *; split_in.
  - intros ->. split_in; done.
  - intros ->. match goal with H : _ ∨ _ |- _ => destruct H as [|[? ?]] end; [done|]. split_in; done.
Qed.

(** A move of one task keeps it sound. *)
Lemma task_move_sound ph k k' : task_move ph k k' → task_sound ph k → task_sound ph k'.
Proof.
  intros M [V R U A I G D].
  destruct M; constructor; cbn; intros; auto; try done.
  all: try (destruct (k_kind k) eqn:K).
  all: try solve [unfold core_settled; cbn; by rewrite K].
  all: guards; guards; solve [in_list | auto | lia | apply V; in_list | apply U; in_list ].
Qed.

Lemma core_settled_not_merging k : core_settled k = true → k_status k ≠ TaskMerging.
Proof. unfold core_settled. intros E S. rewrite S in E. by destruct (k_kind k). Qed.

(** A change of phase keeps the tasks of the campaign sound. *)
Lemma phase_move_sound ks ph ph' k :
  phase_move ks ph ph' → k ∈ ks → task_sound ph k → task_sound ph' k.
Proof.
  intros M Hk [V R U A I G D].
  assert (ph' ∉ [OrchIntegrating; OrchCanceling] → ph ≠ ph' → k_status k ≠ TaskMerging) as NM.
  { intros N N' E. destruct M; rewrite ?Forall_forall in *; try done.
    all: try solve [specialize (G E); guards].
    - by specialize (H1 k Hk).
    - specialize (H0 k Hk). by apply core_settled_not_merging in H0.
    - apply N. in_list.
    - specialize (H k Hk). by rewrite E in H. }
  constructor; auto.
  - intros E. destruct (decide (ph = ph')) as [<-|N']; [auto|].
    destruct (decide (ph' ∈ [OrchIntegrating; OrchCanceling])) as [|N]; [done|].
    by destruct (NM N N').
  - intros ->. inversion M; subst; auto; [guards|].
    rewrite Forall_forall in *. auto.
Qed.

Lemma to_status_sound ph k next :
  task_sound ph k → next ∉ [TaskMerging; TaskReviewApplying] → (ph = OrchDone → False) →
  (next ∈ verified_statuses → k_verdict k = Some Pass) →
  (k_kind k = Research → next ∈ research_statuses) →
  (next ∈ unspawned_statuses → k_child k = None) → task_sound ph (to_status next k).
Proof. intros [V R U A I G D] N ND V' R' U'. constructor; cbn; auto; set_solver. Qed.

(** The two batch transitions. *)
Lemma approve_sound k :
  k_status k = TaskProposed → task_sound OrchRunning k → task_sound OrchRunning (to_status TaskPlanned k).
Proof.
  intros E S. apply to_status_sound; try done; [set_solver|by intros; guards| |].
  - intros _. in_list.
  - intros _. apply S. rewrite E. in_list.
Qed.

Lemma rollup_sound k :
  k_status k = TaskReady → k_verdict k = Some Pass → task_sound OrchAwaitingIntegration k →
  task_sound OrchAwaitingIntegration (to_status TaskAwaitingIntegration k).
Proof.
  intros E P S. apply to_status_sound; try done; [set_solver| |].
  - intros K. pose proof (sound_research _ _ S K) as R. guards.
  - intros. guards.
Qed.

(** Rows that keep their campaign keep the shape of the tables. *)
Lemma sound_rows s ps ks :
  Sound s → ps.*1 = (phases s).*1 → k_id <$> ks = k_id <$> cores s →
  (∀ k', k' ∈ ks → ∃ k, k ∈ cores s ∧ k_orchestration k' = k_orchestration k ∧ k_id k' = k_id k ∧
     (k_status k' = TaskMerging → k_status k = TaskMerging) ∧
     ∀ ph ph', (k_orchestration k, ph) ∈ phases s → (k_orchestration k, ph') ∈ ps →
       task_sound ph k → task_sound ph' k') →
  Sound (mkSpec ps ks).
Proof.
  intros [P T C E O] HP HT HK.
  assert (∀ a, a ∈ ps.*1 → ∃ b, (a, b) ∈ ps) as HF.
  { intros a (x & -> & ?)%list_elem_of_fmap. exists x.2. by destruct x. }
  constructor; cbn.
  - by rewrite HP.
  - by rewrite HT.
  - intros k' (k & Hk & -> & _)%HK. destruct (C k Hk) as [ph Hph]. apply HF. rewrite HP.
    apply list_elem_of_fmap. by exists (k_orchestration k, ph).
  - intros k' ph' Hk' Hph'. destruct (HK k' Hk') as (k & Hk & Eo & _ & _ & HS).
    destruct (C k Hk) as [ph Hph]. rewrite Eo in Hph'. eauto.
  - intros a b Ha Hb Eo Ma Mb.
    destruct (HK a Ha) as (ka & Hka & Eoa & Eia & HMa & _).
    destruct (HK b Hb) as (kb & Hkb & Eob & Eib & HMb & _).
    assert (ka = kb) as -> by (apply O; auto; congruence).
    assert (NoDup (k_id <$> ks)) as ND by (by rewrite HT).
    apply (NoDup_unique k_id ks); auto. congruence.
Qed.

(** [UPDATE] on the phases keeps the identities. *)
Lemma update_phases_ids p next (ps : list (Z * OrchestrationStatus)) :
  (update_where p (λ c, (c.1, next)) ps).*1 = ps.*1.
Proof. by apply update_where_fmap. Qed.

Lemma sound_phase_unique s id ph ph' :
  Sound s → (id, ph) ∈ phases s → (id, ph') ∈ phases s → ph = ph'.
Proof. intros S. apply NoDup_fst_unique, S. Qed.

Lemma step_tasks_sound s p g :
  Sound s →
  (∀ k, k ∈ cores s → p k = true →
     ∃ ph, (k_orchestration k, ph) ∈ phases s ∧ task_move ph k (g k)) →
  Sound (mkSpec (phases s) (update_where p g (cores s))).
Proof.
  intros S HM. apply (sound_rows s); auto.
  - apply update_where_fmap. intros k Hk Pk. destruct (HM k Hk Pk) as (ph & _ & M).
    by apply task_move_ids in M as [-> _].
  - intros k' (k & Hk & ->)%elem_of_update_where. exists k.
    destruct (p k) eqn:Pk; [|split_and!; auto].
    + destruct (HM k Hk Pk) as (ph & Hph & M). pose proof (task_move_ids _ _ _ M) as [Ei Eo].
      split_and!; auto; [by eapply task_move_merging|].
      intros ph1 ph2 H1 H2 Sk. pose proof (sound_phase_unique _ _ _ _ S H1 Hph) as ->.
      pose proof (sound_phase_unique _ _ _ _ S H2 Hph) as ->. by eapply task_move_sound.
    + intros ph1 ph2 H1 H2 Sk. by rewrite <-(sound_phase_unique _ _ _ _ S H1 H2).
Qed.

Lemma step_phase_sound s p next :
  Sound s →
  (∀ c, c ∈ phases s → p c = true → phase_move (tasks_of s c.1) c.2 next) →
  Sound (mkSpec (update_where p (λ c, (c.1, next)) (phases s)) (cores s)).
Proof.
  intros S HM. apply (sound_rows s); auto; [apply update_phases_ids|].
  intros k Hk. exists k. split_and!; auto. intros ph ph' Hph Hph' Sk.
  apply elem_of_update_where in Hph' as ([id ph0] & Hin & E).
  destruct (p (id, ph0)) eqn:P; injection E as <- ->.
  - rewrite (sound_phase_unique _ _ _ _ S Hph Hin) in Sk.
    eapply phase_move_sound; [apply (HM _ Hin P)| |done]. by apply elem_of_tasks_of.
  - by rewrite <-(sound_phase_unique _ _ _ _ S Hph Hin).
Qed.

(** A campaign and some of its tasks change together. *)
Lemma step_batch_sound s id from next q st :
  Sound s → (id, from) ∈ phases s → st ≠ TaskMerging →
  (∀ k, k ∈ cores s → k_orchestration k = id → task_sound from k → task_sound next k) →
  (∀ k, k ∈ cores s → k_orchestration k = id → q k = true → task_sound next k →
     task_sound next (to_status st k)) →
  Sound (mkSpec (update_where (in_phase id from) (λ c, (c.1, next)) (phases s))
           (update_where (λ k, (k_orchestration k =? id)%Z && q k) (to_status st) (cores s))).
Proof.
  intros S Hin NM HN HQ. apply (sound_rows s); auto; [apply update_phases_ids|by apply update_where_fmap|].
  intros k' (k & Hk & ->)%elem_of_update_where. exists k.
  assert (∀ ph ph', (k_orchestration k, ph) ∈ phases s →
    (k_orchestration k, ph') ∈ update_where (in_phase id from) (λ c, (c.1, next)) (phases s) →
    (k_orchestration k = id ∧ ph = from ∧ ph' = next) ∨ (k_orchestration k ≠ id ∧ ph = ph')) as HP.
  { intros ph ph' H1 ([i0 p0] & H2 & E)%elem_of_update_where. unfold in_phase in E; cbn in E.
    destruct (Z.eqb_spec i0 id) as [->|Ni]; cbn in E.
    - pose proof (sound_phase_unique _ _ _ _ S H2 Hin) as ->. rewrite bool_decide_true in E by done.
      injection E as Ei Ep. left. rewrite Ei in H1. split_and!; auto. by eapply sound_phase_unique.
    - injection E as Ei Ep. right. rewrite Ei in *. subst. split; [done|].
      by eapply sound_phase_unique. }
  destruct (Z.eqb_spec (k_orchestration k) id) as [Eo|No]; cbn.
  - destruct (q k) eqn:Q; split_and!; auto; try done;
      intros ph ph' H1 H2 Sk; destruct (HP _ _ H1 H2) as [(_ & -> & ->)|[? _]]; auto; done.
  - split_and!; auto. intros ph ph' H1 H2 Sk.
    by destruct (HP _ _ H1 H2) as [(? & _)|[_ <-]].
Qed.

Lemma step_merge_sound s k :
  Sound s → k ∈ cores s → (k_orchestration k, OrchIntegrating) ∈ phases s →
  k_status k = TaskAwaitingIntegration → is_Some (k_child k) →
  Forall (λ k', k_status k' ≠ TaskMerging) (tasks_of s (k_orchestration k)) →
  Sound (mkSpec (phases s) (update_where (has_core_id (k_id k)) (to_status TaskMerging) (cores s))).
Proof.
  intros S Hk Hph E _ NM. rewrite Forall_forall in NM.
  assert (∀ x, x ∈ cores s → has_core_id (k_id k) x = true → x = k) as HU.
  { intros x Hx Ei%Z.eqb_eq. by apply (NoDup_unique k_id (cores s)); [apply S|..]. }
  pose proof S as [P T C EA O]. constructor; cbn; auto.
  - by rewrite update_where_fmap.
  - intros x (y & Hy & ->)%elem_of_update_where. destruct (has_core_id _ y); cbn; eauto.
  - intros x ph (y & Hy & ->)%elem_of_update_where Hph'.
    destruct (has_core_id (k_id k) y) eqn:Ei; [|eauto].
    rewrite (HU y Hy Ei) in *. cbn in Hph'.
    rewrite (sound_phase_unique _ _ _ _ S Hph' Hph) in *.
    destruct (EA k _ Hk Hph) as [V R U A I G D]. constructor; cbn; auto; try done.
    + intros _. apply V. rewrite E. in_list.
    + intros K. specialize (R K). guards.
    + intros. guards.
    + intros _. in_list.
  - intros a b (x & Hx & ->)%elem_of_update_where (y & Hy & ->)%elem_of_update_where Eo Ma Mb.
    assert (∀ z, z ∈ cores s → k_orchestration z = k_orchestration k →
      k_status (if has_core_id (k_id k) z then to_status TaskMerging z else z) = TaskMerging → z = k) as HZ.
    { intros z Hz Ez Mz. destruct (has_core_id (k_id k) z) eqn:Iz; [by apply HU|].
      destruct (NM z); [|done]. apply elem_of_tasks_of. auto. }
    destruct (has_core_id (k_id k) x) eqn:Ix, (has_core_id (k_id k) y) eqn:Iy; cbn in *.
    + by rewrite (HU x Hx Ix), (HU y Hy Iy).
    + rewrite (HU x Hx Ix) in *. destruct (NM y); [apply elem_of_tasks_of; auto|done].
    + rewrite (HU y Hy Iy) in *. destruct (NM x); [apply elem_of_tasks_of; auto|done].
    + auto.
Qed.

Lemma fresh_not_in {A} (h : A → Z) (l : list A) id : Forall (λ x, h x < id)%Z l → id ∉ h <$> l.
Proof.
  rewrite Forall_forall. intros F (x & -> & Hx)%list_elem_of_fmap. specialize (F x Hx). lia.
Qed.

Lemma step_open_sound s id :
  Sound s → Forall (λ c, c.1 < id)%Z (phases s) →
  Sound (mkSpec (phases s ++ [(id, OrchAwaitingApproval)]) (cores s)).
Proof.
  intros [P T C E O] F. apply fresh_not_in in F. constructor; cbn; auto.
  - rewrite fmap_app, NoDup_app. split_and!; auto; [|apply NoDup_singleton].
    intros x Hx. by intros ->%list_elem_of_singleton.
  - intros k Hk. destruct (C k Hk) as [ph Hph]. exists ph. apply elem_of_app. auto.
  - intros k ph Hk [Hph|Hph]%elem_of_app; [eauto|].
    apply list_elem_of_singleton in Hph. injection Hph as Eo ->. destruct (C k Hk) as [ph Hph].
    destruct F. apply list_elem_of_fmap. exists (k_orchestration k, ph). by rewrite <-Eo.
Qed.

Lemma step_plan_sound s id campaign kind ph :
  Sound s → Forall (λ k, k_id k < id)%Z (cores s) → (campaign, ph) ∈ phases s → ph ∈ open_phases →
  Sound (mkSpec (phases s) (cores s ++ [mkCore id campaign kind TaskPlanned None None 0])).
Proof.
  intros S F Hph Ho. pose proof S as [P T C E O]. apply fresh_not_in in F. constructor; cbn; auto.
  - rewrite fmap_app, NoDup_app. split_and!; auto; [|apply NoDup_singleton].
    intros x Hx. by intros ->%list_elem_of_singleton.
  - intros k [Hk| ->%list_elem_of_singleton]%elem_of_app; eauto.
  - intros k ph' [Hk| ->%list_elem_of_singleton]%elem_of_app Hph'; [eauto|].
    cbn in Hph'. rewrite (sound_phase_unique _ _ _ _ S Hph' Hph) in *.
    constructor; cbn; intros; auto; try done; [by guards|in_list|by guards].
  - intros a b [Ha| ->%list_elem_of_singleton]%elem_of_app; [|done].
    intros [Hb| ->%list_elem_of_singleton]%elem_of_app; [auto|done].
Qed.

(** Every step keeps the invariant. *)
Theorem step_sound s s' : step s s' → Sound s → Sound s'.
Proof.
  intros St S. destruct St as [p g HM|k|p next HM|id Hin|id Hin|id F|id campaign kind ph].
  - by apply step_tasks_sound.
  - by apply step_merge_sound.
  - by apply step_phase_sound.
  - apply step_batch_sound; try done.
    + intros k Hk _ Sk. destruct Sk as [V R U A I G D]. constructor; auto; try done.
      intros M. specialize (G M). guards.
    + intros k Hk _ Q%bool_decide_eq_true Sk. by apply approve_sound.
  - apply step_batch_sound; try done.
    + intros k Hk _ Sk. destruct Sk as [V R U A I G D]. constructor; auto; try done.
      intros M. specialize (G M). guards.
    + intros k Hk _ [Q1%bool_decide_eq_true Q2%bool_decide_eq_true]%andb_prop Sk.
      by apply rollup_sound.
  - by apply step_open_sound.
  - by eapply step_plan_sound.
Qed.

Theorem steps_sound s s' : rtc step s s' → Sound s → Sound s'.
Proof. induction 1; eauto using step_sound. Qed.

(** A canceled campaign stays canceled. *)
Lemma phase_move_canceled ks ph : phase_move ks OrchCanceled ph → ph = OrchCanceled.
Proof. intros M. inversion M; subst; try done; unfold active_statuses in *; guards. Qed.

Lemma step_keeps_canceled s s' id :
  step s s' → (id, OrchCanceled) ∈ phases s → (id, OrchCanceled) ∈ phases s'.
Proof.
  intros [p g HM|k|p next HM|i Hi|i Hi|i F|] Hin; cbn; auto.
  - apply elem_of_update_where. exists (id, OrchCanceled). split; [done|].
    destruct (p (id, OrchCanceled)) eqn:P; [|done]. cbn.
    by rewrite (phase_move_canceled _ _ (HM _ Hin P)).
  - apply elem_of_update_where. exists (id, OrchCanceled). split; [done|]. unfold in_phase. cbn.
    by rewrite andb_false_r.
  - apply elem_of_update_where. exists (id, OrchCanceled). split; [done|]. unfold in_phase. cbn.
    by rewrite andb_false_r.
  - apply elem_of_app. by left.
Qed.

Lemma steps_keep_canceled s s' id :
  rtc step s s' → (id, OrchCanceled) ∈ phases s → (id, OrchCanceled) ∈ phases s'.
Proof. induction 1; eauto using step_keeps_canceled. Qed.
