(* ===== verification/CampaignLaws.v ===== *)
(** * The coordinator refines the campaign machine

    Under a host that leaves the campaign tables alone ([QuietHost]) every entry
    point of [Coordinator] is a sequence of steps of [CampaignSpec], whatever
    statement fails and whatever the session service answers.  A loaded row that
    a pass works on agrees with its table row up to evidence ([knows]); a program
    for one task changes that row only ([frame]). *)
From stdpp Require Import gmap relations.
From S2P Require Import Prelude Contracts Agent Lifecycle Orchestration Prompt Review Session.
From S2P Require Import Protocol CampaignStore CampaignText Coordinator CampaignSpec.

(** ** Hosts that leave the campaign tables alone *)

Definition tables (db : Db) : list OrchestrationRow * list TaskRow * Z * Z :=
  (db_orchestrations db, db_tasks db, db_last_orchestration db, db_last_task db).

Class QuietHost `{Host} : Prop := {
  quiet_interference n db : tables (interference n db) = tables db;
  quiet_service n c db : tables (service n c db).2 = tables db
}.

(** Identifiers are handed out in increasing order. *)
Definition Fresh (db : Db) : Prop :=
  Forall (λ o, o_id o <= db_last_orchestration db)%Z (db_orchestrations db) ∧
  Forall (λ t, t_id t <= db_last_task db)%Z (db_tasks db).

Lemma tables_spec db db' : tables db = tables db' → spec_of db = spec_of db'.
Proof. unfold tables, spec_of. by intros [= -> -> _ _]. Qed.

Lemma tables_fresh db db' : tables db = tables db' → Fresh db' → Fresh db.
Proof. unfold tables, Fresh. by intros [= -> -> -> ->]. Qed.

Lemma tables_update_sessions db p f : tables (update_sessions db p f) = tables db.
Proof. done. Qed.

(** ** Reachable tables *)

Definition Reach (s0 : Spec) (db : Db) : Prop := rtc step s0 (spec_of db) ∧ Fresh db.

Lemma reach_sound s0 db : Sound s0 → Reach s0 db → Sound (spec_of db).
Proof. intros S [R _]. by eapply steps_sound. Qed.

Lemma reach_tables s0 db db' : tables db' = tables db → Reach s0 db → Reach s0 db'.
Proof.
  intros E [R F]. split; [by rewrite (tables_spec _ _ E)|by apply (tables_fresh _ _ E)].
Qed.

Lemma reach_step s0 db db' : Reach s0 db → step (spec_of db) (spec_of db') → Fresh db' → Reach s0 db'.
Proof. intros [R _] St F. split; [by eapply rtc_r|done]. Qed.

(** ** Correctness of programs *)

Section logic.
Context `{Host} `{!QuietHost} (s0 : Spec).

(** From [db], the program returns a value that satisfies [Q], or stops with
    tables that are still reachable. *)
Definition ok {A} (db : Db) (m : M A) (Q : A → Db → Prop) : Prop :=
  ∀ w, w_db w = db →
    match m w with
    | (Ok a, w') => Q a (w_db w')
    | (Err _, w') => Reach s0 (w_db w')
    end.

Lemma ok_ret {A} db (a : A) (Q : A → Db → Prop) : Q a db → ok db (mret a) Q.
Proof. by intros HQ w <-. Qed.

Lemma ok_bind {A B} db (m : M A) (f : A → M B) Q :
  ok db m (λ a db', ok db' (f a) Q) → ok db (m ≫= f) Q.
Proof.
  intros HM w Hw. unfold mbind, M_bind. specialize (HM w Hw).
  destruct (m w) as [[a|e] w']; [by apply HM|done].
Qed.

Lemma ok_mono {A} db (m : M A) (Q Q' : A → Db → Prop) :
  ok db m Q → (∀ a db', Q a db' → Q' a db') → ok db m Q'.
Proof. intros HM HQ w Hw. specialize (HM w Hw). destruct (m w) as [[]]; auto. Qed.

Lemma ok_fail {A} db e (Q : A → Db → Prop) : Reach s0 db → ok db (fail e) Q.
Proof. by intros R w <-. Qed.

Lemma ok_panic {A} db (Q : A → Db → Prop) : Reach s0 db → ok db panic Q.
Proof. by intros R w <-. Qed.

Lemma ok_question {A} db (r : result A str) (Q : A → Db → Prop) :
  Reach s0 db → (∀ a, r = Ok a → Q a db) → ok db (question r) Q.
Proof. intros R HQ. destruct r; [apply ok_ret; auto|by apply ok_fail]. Qed.

Lemma ok_ok_or {A} db (o : option A) e (Q : A → Db → Prop) :
  Reach s0 db → (∀ a, o = Some a → Q a db) → ok db (ok_or o e) Q.
Proof. intros R HQ. destruct o; [apply ok_ret; auto|by apply ok_fail]. Qed.

Lemma ok_or_panic {A} db (o : option A) (Q : A → Db → Prop) :
  Reach s0 db → (∀ a, o = Some a → Q a db) → ok db (or_panic o) Q.
Proof. intros R HQ. destruct o; [apply ok_ret; auto|by apply ok_panic]. Qed.

Lemma ok_emit db e (Q : unit → Db → Prop) : Q tt db → ok db (emit e) Q.
Proof. by intros HQ w <-. Qed.

Lemma ok_query {R} db (op : Db → R * Db) (Q : result R str → Db → Prop) :
  (∀ db1, tables db1 = tables db → (∀ e, Q (Err e) db1) ∧ Q (Ok (op db1).1) (op db1).2) →
  ok db (query op) Q.
Proof.
  intros HQ w <-. unfold query.
  destruct (HQ _ (quiet_interference (w_tick w) (w_db w))) as [HE HO].
  destruct (statement_error (w_tick w)); [apply HE|].
  destruct (op _); apply HO.
Qed.

Lemma ok_statement {R} db (op : Db → R * Db) (Q : R → Db → Prop) :
  Reach s0 db → (∀ db1, tables db1 = tables db → Q (op db1).1 (op db1).2) →
  ok db (statement op) Q.
Proof.
  intros HR HQ. apply ok_bind, ok_query. intros db1 E. split.
  - intros e. apply ok_fail. by apply (reach_tables _ db).
  - apply ok_ret, HQ, E.
Qed.

Lemma ok_request db c (Q : result str str → Db → Prop) :
  (∀ r db1, tables db1 = tables db → Q r db1) → ok db (request c) Q.
Proof.
  intros HQ w <-. unfold request.
  pose proof (quiet_service (w_tick w) c (interference (w_tick w) (w_db w))) as E.
  destruct (service _ _ _) as [r db1]. cbn in *. apply HQ. rewrite E. apply quiet_interference.
Qed.

Lemma ok_when db b (m : M unit) (Q : unit → Db → Prop) :
  (b = true → ok db m Q) → Q tt db → ok db (when b m) Q.
Proof. intros HM HQ. destruct b; [auto|by apply ok_ret]. Qed.
End logic.

(** ** One row *)

Definition knows (db : Db) (v : SessionOrchestrationTaskRow) : Prop :=
  core (v_row v) ∈ cores (spec_of db).

Definition campaign_of (v : SessionOrchestrationTaskRow) : Z := t_orchestration (v_row v).

Definition idents (s : Spec) : list (Z * Z) := (λ k, (k_id k, k_orchestration k)) <$> cores s.

(** Only the row [i] may differ. *)
Record frame (i : Z) (s s' : Spec) : Prop := mkFrame {
  frame_phases : phases s' = phases s;
  frame_idents : idents s' = idents s;
  frame_rest k : k ∈ cores s → k_id k ≠ i → k ∈ cores s'
}.

Lemma frame_refl i s : frame i s s.
Proof. by constructor. Qed.

Lemma frame_trans i s1 s2 s3 : frame i s1 s2 → frame i s2 s3 → frame i s1 s3.
Proof. intros [P I R] [P' I' R']. constructor; [congruence|congruence|auto]. Qed.

Lemma unique_row s k k' : Sound s → k ∈ cores s → k' ∈ cores s → k_id k = k_id k' → k = k'.
Proof. intros S. apply NoDup_unique, S. Qed.

Lemma fresh_update_tasks db p f :
  (∀ t, t_id (f t) = t_id t) → Fresh db → Fresh (update_tasks db p f).
Proof.
  intros E [F1 F2]. split; [done|]. cbn. rewrite Forall_forall in *.
  intros t' (t & Ht & ->)%elem_of_update_where. destruct (p t); rewrite ?E; auto.
Qed.

(** Rewriting the row a view knows, with an update that moves its core by [g]. *)
Lemma set_row_spec db i f g :
  (∀ t, core (f t) = g (core t)) →
  spec_of (update_tasks db (has_task_id i) f) =
  mkSpec (phases (spec_of db)) (update_where (has_core_id i) g (cores (spec_of db))).
Proof. intros E. unfold spec_of. cbn. f_equal. by apply fmap_update_where. Qed.

Lemma frame_update s i g :
  (∀ k, k_id (g k) = k_id k ∧ k_orchestration (g k) = k_orchestration k) →
  frame i s (mkSpec (phases s) (update_where (has_core_id i) g (cores s))).
Proof.
  intros E. constructor; cbn; [done| |].
  - apply update_where_fmap. intros k _ _. destruct (E k) as [-> ->]. done.
  - intros k Hk N. apply elem_of_update_where. exists k. unfold has_core_id.
    rewrite (proj2 (Z.eqb_neq _ _)) by done. auto.
Qed.

Lemma update_own_row s k g :
  k ∈ cores s → g k ∈ update_where (has_core_id (k_id k)) g (cores s).
Proof.
  intros Hk. apply elem_of_update_where. exists k. unfold has_core_id. by rewrite Z.eqb_refl.
Qed.

(** The identity of a task never changes. *)
Definition keeps_ident (g : TaskCore → TaskCore) : Prop :=
  ∀ k, k_id (g k) = k_id k ∧ k_orchestration (g k) = k_orchestration k.

Section rows.
Context `{Host} `{!QuietHost} (s0 : Spec) (s0_sound : Sound s0).

Local Abbreviation Reach := (Reach s0).
Local Abbreviation ok := (ok s0).

Lemma known_row db v t :
  Reach db → knows db v → t ∈ db_tasks db → t_id t = task_id_of v → core t = core (v_row v).
Proof.
  intros R K Ht E. apply (unique_row (spec_of db)); [by eapply reach_sound| |done|done].
  by apply list_elem_of_fmap_2.
Qed.

Lemma move_row db db' v p f g ph :
  Reach db → knows db v → (campaign_of v, ph) ∈ phases (spec_of db) →
  tables db' = tables (update_tasks db p f) →
  (∀ t, core t = core (v_row v) → p t = true) →
  (∀ t, p t = true → has_task_id (task_id_of v) t = true) →
  (∀ t, core (f t) = g (core t)) → keeps_ident g →
  task_move ph (core (v_row v)) (g (core (v_row v))) →
  Reach db' ∧ frame (task_id_of v) (spec_of db) (spec_of db') ∧
  g (core (v_row v)) ∈ cores (spec_of db').
Proof.
  intros R K P T P1 P2 F G M.
  assert (update_tasks db p f = update_tasks db (has_task_id (task_id_of v)) f) as E.
  { unfold update_tasks. f_equal. apply update_where_ext. intros t Ht.
    destruct (p t) eqn:Pt; [by rewrite (P2 _ Pt)|].
    unfold has_task_id. destruct (Z.eqb_spec (t_id t) (task_id_of v)) as [Ei|]; [|done].
    by rewrite (P1 t) in Pt by by eapply known_row. }
  rewrite E in T. pose proof (tables_spec _ _ T) as HS.
  rewrite (set_row_spec _ _ _ _ F) in HS. rewrite HS. split_and!.
  - apply (reach_tables _ _ _ T). apply (reach_step _ db); [done| |].
    + rewrite (set_row_spec _ _ _ _ F). apply step_tasks.
      intros k Hk Ek%Z.eqb_eq. exists ph.
      assert (k = core (v_row v)) as -> by (apply (unique_row (spec_of db)); auto;
        by eapply reach_sound). done.
    + apply fresh_update_tasks; [|by destruct R]. intros t.
      pose proof (G (core t)) as [Ei _]. by rewrite <-F in Ei.
  - by apply frame_update.
  - by apply update_own_row.
Qed.

(** What a program for the task of [v] leaves behind. *)
Definition task_post (db : Db) (v v' : SessionOrchestrationTaskRow) (db' : Db) : Prop :=
  Reach db' ∧ frame (task_id_of v) (spec_of db) (spec_of db') ∧ knows db' v' ∧
  task_id_of v' = task_id_of v ∧ campaign_of v' = campaign_of v.

Lemma task_post_refl db v : Reach db → knows db v → task_post db v v db.
Proof. intros. split_and!; auto. apply frame_refl. Qed.

Lemma task_post_tables db db1 v v' db' :
  tables db1 = tables db → task_post db1 v v' db' → task_post db v v' db'.
Proof. intros E. unfold task_post. by rewrite (tables_spec _ _ E). Qed.

Lemma task_post_trans db v v1 db1 v2 db2 :
  task_post db v v1 db1 → task_post db1 v1 v2 db2 → task_post db v v2 db2.
Proof.
  intros (R & F & K & E1 & E2) (R' & F' & K' & E1' & E2'). split_and!; auto; [|congruence|congruence].
  rewrite E1 in F'. by eapply frame_trans.
Qed.

(** The campaign of a task keeps its phase under a program for the task. *)
Lemma task_post_phase db v v' db' ph :
  task_post db v v' db' → (campaign_of v, ph) ∈ phases (spec_of db) →
  (campaign_of v', ph) ∈ phases (spec_of db').
Proof. intros (_ & F & _ & _ & ->) Hph. by rewrite (frame_phases _ _ _ F). Qed.

Lemma knows_tables db db1 v : tables db1 = tables db → knows db v → knows db1 v.
Proof. intros E. unfold knows. by rewrite (tables_spec _ _ E). Qed.

(** A statement that moves the row of a known task. *)
Lemma ok_row {R} db v v' (op : Db → R * Db) p f g ph (Q : R → Db → Prop) :
  Reach db → knows db v → (campaign_of v, ph) ∈ phases (spec_of db) →
  (∀ db1, tables db1 = tables db → tables (op db1).2 = tables (update_tasks db1 (p db1) f)) →
  (∀ db1 t, tables db1 = tables db → core t = core (v_row v) → p db1 t = true) →
  (∀ db1 t, p db1 t = true → has_task_id (task_id_of v) t = true) →
  (∀ t, core (f t) = g (core t)) → keeps_ident g →
  task_move ph (core (v_row v)) (g (core (v_row v))) →
  core (v_row v') = g (core (v_row v)) →
  (∀ db1 db', tables db1 = tables db → tables db' = tables (op db1).2 →
     task_post db v v' db' → Q (op db1).1 db') →
  ok db (statement op) Q.
Proof.
  intros HR K P T P1 P2 F G M E HQ. apply ok_statement; [done|]. intros db1 E1.
  apply HQ; [done|done|]. apply (task_post_tables _ db1); [done|].
  destruct (move_row db1 (op db1).2 v (p db1) f g ph) as (R1 & F1 & K1); eauto.
  - by eapply reach_tables.
  - by eapply knows_tables.
  - by rewrite (tables_spec _ _ E1).
  - split_and!; auto.
    + unfold knows. by rewrite E.
    + unfold task_id_of. change (k_id (core (v_row v')) = k_id (core (v_row v))). rewrite E. apply G.
    + unfold campaign_of.
      change (k_orchestration (core (v_row v')) = k_orchestration (core (v_row v))). rewrite E. apply G.
Qed.

Definition task_ok (db : Db) (v : SessionOrchestrationTaskRow) (m : M SessionOrchestrationTaskRow)
  : Prop := ok db m (task_post db v).

(** A second program for the task that the first one returned. *)
Lemma task_ok_bind db v (m : M SessionOrchestrationTaskRow) f :
  task_ok db v m → (∀ v' db', task_post db v v' db' → task_ok db' v' (f v')) → task_ok db v (m ≫= f).
Proof.
  intros HM HF. apply ok_bind. eapply ok_mono; [apply HM|]. cbn. intros v' db' HP.
  eapply ok_mono; [by apply HF|]. cbn. intros v2 db2 HP2. by eapply task_post_trans.
Qed.

Lemma task_ok_ret db v : Reach db → knows db v → task_ok db v (mret v).
Proof. intros. by apply ok_ret, task_post_refl. Qed.

(** Evidence does not move the task. *)
Lemma task_ok_evidence {R} db v ph (op : Db → R * Db) f g :
  Reach db → knows db v → (campaign_of v, ph) ∈ phases (spec_of db) →
  (∀ db1, tables (op db1).2 = tables (update_tasks db1 (has_task_id (task_id_of v)) f)) →
  (∀ t, core (f t) = core t) → (∀ t, core (g t) = core t) →
  task_ok db v (_ ← statement op; mret (change_row g v)).
Proof.
  intros HR K P T F G. apply ok_bind.
  apply (ok_row db v (change_row g v) op (λ _, has_task_id (task_id_of v)) f (λ k, k) ph); auto.
  - intros db1 t _ E. unfold has_task_id. apply Z.eqb_eq.
    change (k_id (core t) = k_id (core (v_row v))). congruence.
  - done.
  - constructor.
  - cbn. by rewrite G.
  - intros. by apply ok_ret.
Qed.

Lemma update_task_status_ok db v next e ph :
  Reach db → knows db v → (campaign_of v, ph) ∈ phases (spec_of db) →
  task_move ph (core (v_row v)) (to_status next (core (v_row v))) →
  ok db (update_task_status v next e)
    (λ v' db', task_post db v v' db' ∧ core (v_row v') = to_status next (core (v_row v))).
Proof.
  intros HR K P M. unfold update_task_status.
  destruct (bool_decide_reflect (status_of v = next)) as [E|N].
  - apply ok_ret. split; [by apply task_post_refl|]. by destruct v as [[]]; cbn in *; subst.
  - apply ok_bind.
    apply (ok_row db v (change_row (λ t, set_t_error e (set_t_status next t)) v) _
      (λ _, has_task_id (task_id_of v)) (λ t, set_t_error e (set_t_status next t))
      (to_status next) ph); auto; try done.
    + intros db1 t _ E. unfold has_task_id. apply Z.eqb_eq.
      change (k_id (core t) = k_id (core (v_row v))). congruence.
    + intros. apply ok_ret. auto.
Qed.

Corollary update_task_status_task db v next e ph :
  Reach db → knows db v → (campaign_of v, ph) ∈ phases (spec_of db) →
  task_move ph (core (v_row v)) (to_status next (core (v_row v))) →
  task_ok db v (update_task_status v next e).
Proof. intros. eapply ok_mono; [by eapply update_task_status_ok|]. by intros ?? []. Qed.
End rows.

(** ** Task programs *)

Section tasks.
Context `{Host} `{!QuietHost} `{JsonText} `{UnicodeAlnum} `{Templates} (s0 : Spec) (s0_sound : Sound s0).

Local Abbreviation Reach := (Reach s0).
Local Abbreviation ok := (ok s0).
Local Abbreviation task_ok := (task_ok s0).
Local Abbreviation task_post := (task_post s0).

(** What a task program may assume: the view is known and its campaign is in phase [ph]. *)
Record ready (db : Db) (v : SessionOrchestrationTaskRow) (ph : OrchestrationStatus) : Prop := mkReady {
  ready_reach : Reach db;
  ready_knows : knows db v;
  ready_phase : (campaign_of v, ph) ∈ phases (spec_of db)
}.

Lemma ready_sound db v ph : ready db v ph → task_sound ph (core (v_row v)).
Proof.
  intros [R K P]. eapply sound_each; [by eapply reach_sound|done|done].
Qed.

Lemma ready_tables db db1 v ph : tables db1 = tables db → ready db v ph → ready db1 v ph.
Proof.
  intros E [R K P]. constructor; [by eapply reach_tables|by eapply knows_tables|].
  by rewrite (tables_spec _ _ E).
Qed.

Lemma ready_post db v ph v' db' : ready db v ph → task_post db v v' db' → ready db' v' ph.
Proof.
  intros [R K P] HP. constructor; [apply HP|apply HP|by eapply task_post_phase].
Qed.

(** An await that changes no table leaves the task as it was. *)
Lemma task_ok_tables db db1 v m : tables db1 = tables db → task_ok db1 v m → ok db1 m (task_post db v).
Proof. intros E HM. eapply ok_mono; [apply HM|]. intros v' db'. by apply task_post_tables. Qed.

Lemma task_ok_read {R} db v ph (op : Db → R * Db) (k : R → M SessionOrchestrationTaskRow) :
  ready db v ph → (∀ db1, (op db1).2 = db1) →
  (∀ r db1, ready db1 v ph → task_ok db1 v (k r)) → task_ok db v (r ← statement op; k r).
Proof.
  intros RD HO HK. apply ok_bind, ok_statement; [apply RD|]. intros db1 E. rewrite HO.
  apply task_ok_tables; [done|]. apply HK. by eapply ready_tables.
Qed.

Lemma task_ok_request db v ph c (k : result str str → M SessionOrchestrationTaskRow) :
  ready db v ph → (∀ r db1, ready db1 v ph → task_ok db1 v (k r)) →
  task_ok db v (r ← request c; k r).
Proof.
  intros RD HK. apply ok_bind, ok_request. intros r db1 E.
  apply task_ok_tables; [done|]. apply HK. by eapply ready_tables.
Qed.

Lemma observe_ok db v ph next e :
  ready db v ph → ph ∈ working_phases → next ∈ observed (kind_of v) →
  is_Some (child_of v) ∨ status_of v = TaskContinuationPending →
  task_ok db v (update_task_status v next e).
Proof.
  intros [R K P] W O C. eapply update_task_status_task; [done..|]. by apply move_observe.
Qed.

Lemma record_summary_ok db v ph : ready db v ph → task_ok db v (record_summary v).
Proof.
  intros [R K P]. unfold record_summary. destruct (bool_decide _); [by apply task_ok_ret|].
  by eapply task_ok_evidence.
Qed.

Lemma complete_task_review_ok db v ph :
  ready db v ph → ph ∈ working_phases → kind_of v = Implementation →
  is_Some (child_of v) ∨ status_of v = TaskContinuationPending →
  task_ok db v (complete_task_review v).
Proof.
  intros RD W K C. apply task_ok_bind.
  - eapply observe_ok; [done..|by rewrite K; in_list|done].
  - intros v' db' HP. eapply record_summary_ok. by eapply ready_post.
Qed.

(** A message to the child changes no campaign table. *)
Lemma submit_to_child_ok db v ph child op prompt (k : unit → M SessionOrchestrationTaskRow) :
  ready db v ph → (∀ db1, ready db1 v ph → task_ok db1 v (k tt)) →
  task_ok db v (u ← submit_to_child child op prompt; k u).
Proof.
  intros RD HK. unfold submit_to_child.
  apply ok_bind, ok_bind, ok_request. intros r db1 E.
  assert (ready db1 v ph) as RD1 by by eapply ready_tables.
  apply ok_bind, ok_question; [apply RD1|]. intros a _. apply ok_ret.
  apply task_ok_tables; [done|]. auto.
Qed.

Lemma reconcile_review_application_ok db v ph :
  ready db v ph → ph ∈ working_phases → kind_of v = Implementation → is_Some (child_of v) →
  task_ok db v (reconcile_review_application v).
Proof.
  intros RD W K C. eapply task_ok_read; [done..|]. intros r db1 RD1.
  assert (∀ next, next ∈ observed Implementation → task_ok db1 v (update_task_status v next None)) as HO.
  { intros next Hn. eapply observe_ok; [done|done|by rewrite K|by left]. }
  assert (task_ok db1 v (mret v)) as HV by (apply task_ok_ret; apply RD1).
  assert (task_ok db1 v (child ← ok_or (child_of v) (L"Review remediation lost its managed child");
      prompt ← ok_or (t_continuation (v_row v)) (L"Review remediation lost its verification prompt");
      _ ← submit_to_child child (continuation_operation_id v) prompt; mret v)) as HS.
  { apply ok_bind, ok_ok_or; [apply RD1|]. intros child _.
    apply ok_bind, ok_ok_or; [apply RD1|]. intros prompt _.
    eapply submit_to_child_ok; [done|]. intros db2 RD2. apply task_ok_ret; apply RD2. }
  destruct r as [[]|]; auto. destruct (c_status v) as [[]|]; auto; apply HO; in_list.
Qed.

(** *** Guarded statements *)

Lemma known_exists db db1 v :
  tables db1 = tables db → knows db v → ∃ t, t ∈ db_tasks db1 ∧ core t = core (v_row v).
Proof.
  intros E K. apply (knows_tables _ _ _ E) in K. apply list_elem_of_fmap in K as (t & ? & ?). eauto.
Qed.

(** A guard that holds of the known row is met by some row, and by one row only
    when it names the row. *)
Lemma guard_exists db db1 v p :
  tables db1 = tables db → knows db v → (∀ t, core t = core (v_row v) → p t = true) →
  existsb p (db_tasks db1) = true.
Proof. intros E K P. destruct (known_exists _ _ _ E K) as (t & Ht & Et). apply existsb_true. eauto. Qed.

Lemma guard_one db db1 v p :
  Reach db → tables db1 = tables db → knows db v → (∀ t, core t = core (v_row v) → p t = true) →
  (∀ t, p t = true → has_task_id (task_id_of v) t = true) → affects_one p (db_tasks db1) = true.
Proof.
  intros R E K P1 P2. destruct (known_exists _ _ _ E K) as (t & Ht & Et).
  apply bool_decide_eq_true. apply (filter_one _ _ t_id (task_id_of v) t); auto.
  - pose proof (sound_task_ids _ (reach_sound _ _ s0_sound R)) as ND.
    rewrite <-(tables_spec _ _ E) in ND. cbn in ND. by rewrite <-list_fmap_compose in ND.
  - intros x _ Px. apply Z.eqb_eq, P2, Px.
Qed.

Lemma tables_clear_child_review db i : tables (clear_child_review db i) = tables db.
Proof. unfold clear_child_review. by destruct (find_task db i ≫= _). Qed.

Lemma campaign_is_known db db1 v ph :
  tables db1 = tables db → (campaign_of v, ph) ∈ phases (spec_of db) → ∀ t,
  core t = core (v_row v) → campaign_is db1 (t_orchestration t) [ph] = true.
Proof.
  intros E P t Et. rewrite <-(tables_spec _ _ E) in P. apply list_elem_of_fmap in P as (o & Eo & Ho).
  injection Eo as E1 E2. injection Et as _ E3 _ _ _ _ _. apply existsb_true. exists o. split; [done|].
  unfold has_orchestration_id. apply andb_true_intro. split.
  - apply Z.eqb_eq. unfold campaign_of in E1. congruence.
  - apply bool_decide_eq_true. rewrite E2. by left.
Qed.

(** The boolean guards on a row whose core is known. *)
Ltac known_guard E :=
  injection E as E1 E2 E3 E4 E5 E6 E7; unfold status_of, child_of, kind_of, task_id_of in *;
  cbv beta; repeat (apply andb_true_intro; split); unfold has_task_id, status_in;
  first [ reflexivity
        | apply Z.eqb_eq; congruence
        | apply Z.ltb_lt; lia
        | apply bool_decide_eq_true; congruence
        | apply bool_decide_eq_true;
          match goal with
          | E : t_status ?t = t_status ?r, S : t_status ?r = _ |- t_status ?t ∈ _ => rewrite E, S
          end; in_list
        | idtac ].

Lemma claim_review_ok db v ph prompt (Q : bool → Db → Prop) :
  ready db v ph → ph ∈ working_phases → status_of v = TaskReviewing → is_Some (child_of v) →
  (t_iteration (v_row v) < MAX_AUTOMATED_REVIEW_ITERATIONS)%Z →
  (∀ db', task_post db v (drop_review (change_row (review_applied prompt) v)) db' → Q true db') →
  ok db (statement (claim_orchestration_review_application (task_id_of v) prompt
                      MAX_AUTOMATED_REVIEW_ITERATIONS)) Q.
Proof.
  intros RD W S C I HQ. pose proof RD as [R K P]. pose proof (sound_iteration _ _ (ready_sound _ _ _ RD)) as B.
  set (p t := has_task_id (task_id_of v) t && status_in [TaskReviewing] t &&
     (t_iteration t <? MAX_AUTOMATED_REVIEW_ITERATIONS)%Z && bool_decide (is_Some (t_child t))).
  assert (∀ t, core t = core (v_row v) → p t = true) as HP.
  { intros t Et. unfold p. known_guard Et. }
  eapply (ok_row s0 s0_sound db v (drop_review (change_row (review_applied prompt) v)) _ (λ _, p)
    (λ t, set_t_status TaskReviewApplying (set_t_continuation (Some prompt) (t_iteration t + 1) t))
    (λ k, to_status TaskReviewApplying (to_iteration (k_iteration k + 1) k)) ph); auto.
  - intros db1 E1. unfold claim_orchestration_review_application. fold p.
    destruct (existsb p (db_tasks db1)) eqn:X; cbn; [by rewrite tables_clear_child_review|].
    unfold update_tasks. by rewrite update_where_none.
  - intros db1 t. unfold p. rewrite !andb_true_iff. tauto.
  - done.
  - by apply move_remediate.
  - cbn. unfold core, review_applied, to_status, to_iteration. cbn. f_equal.
    unfold i64_saturating_add, i64_clamp, i64_min, i64_max, MAX_AUTOMATED_REVIEW_ITERATIONS in *.
    cbn in B. lia.
  - intros db1 db' E1 E2 HT. unfold claim_orchestration_review_application. fold p.
    rewrite (guard_exists db db1 v p) by done. cbn. auto.
Qed.

Lemma reconcile_focused_review_ok db v ph :
  ready db v ph → ph ∈ working_phases → kind_of v = Implementation → is_Some (child_of v) →
  task_ok db v (reconcile_focused_review v).
Proof.
  intros RD W K C. unfold reconcile_focused_review.
  assert (task_ok db v (complete_task_review v)) as HC.
  { eapply complete_task_review_ok; [done..|by left]. }
  destruct (negb _); [done|].
  apply ok_bind. apply (ok_mono _ _ _ (λ r db1, db1 = db)).
  { destruct (c_review_status v) as [text|]; [|by apply ok_ret].
    apply ok_bind, ok_question; [apply RD|]. intros s _. by apply ok_ret. }
  intros r db1 ->.
  assert (task_ok db v (update_task_status v TaskReviewing None)) as HR.
  { eapply observe_ok; [done..|by rewrite K; in_list|by left]. }
  destruct r as [[]|]; try done. destruct (is_partial _); [done|].
  destruct (child_suggestions v) as [suggestions|]; [|done].
  destruct (Z.leb_spec MAX_AUTOMATED_REVIEW_ITERATIONS (t_iteration (v_row v))) as [|Hi]; [done|].
  apply ok_bind. eapply ok_mono.
  { eapply update_task_status_ok; [done|apply RD..|]. apply move_observe; [done| |by left].
    cbn. unfold kind_of in K. rewrite K. in_list. }
  intros v1 db1 [HP1 E1]. apply ok_bind. eapply claim_review_ok.
  - by eapply ready_post.
  - done.
  - unfold status_of. change (k_status (core (v_row v1)) = TaskReviewing). by rewrite E1.
  - unfold child_of. change (is_Some (k_child (core (v_row v1)))). by rewrite E1.
  - change (k_iteration (core (v_row v1)) < MAX_AUTOMATED_REVIEW_ITERATIONS)%Z. by rewrite E1.
  - intros db2 HP2.
    pose proof (task_post_trans _ _ _ _ _ _ _ HP1 HP2) as HP.
    eapply ok_mono; [eapply reconcile_review_application_ok|].
    + by eapply ready_post.
    + done.
    + change (k_kind (core (v_row v1)) = Implementation). by rewrite E1.
    + change (is_Some (k_child (core (v_row v1)))). by rewrite E1.
    + intros v3 db3 HP3. by eapply task_post_trans.
Qed.

(** *** Continuations and research *)

Lemma settle_ok db v ph next (summary : option str) :
  ready db v ph → ph ∈ working_phases → next ∈ observed (kind_of v) →
  is_Some (child_of v) ∨ status_of v = TaskContinuationPending →
  task_ok db v
    (_ ← statement (update_orchestration_task_status (task_id_of v) next None);
     _ ← match summary with
         | Some s => statement (update_orchestration_task_result_summary (task_id_of v) s)
         | None => mret tt
         end;
     mret (change_row (λ t, set_t_summary summary (set_t_status next t)) v)).
Proof.
  intros [R K P] W O C. apply ok_bind.
  apply (ok_row s0 s0_sound db v (change_row (λ t, set_t_summary summary (set_t_status next t)) v) _
    (λ _, has_task_id (task_id_of v)) (λ t, set_t_error None (set_t_status next t)) (to_status next) ph);
    auto; try done.
  - intros db1 t _ E. known_guard E.
  - by apply move_observe.
  - intros db1 db' _ _ HP.
    assert (task_ok db' (change_row (λ t, set_t_summary summary (set_t_status next t)) v)
      (_ ← match summary with
           | Some s => statement (update_orchestration_task_result_summary (task_id_of v) s)
           | None => mret tt
           end; mret (change_row (λ t, t) (change_row (λ t, set_t_summary summary (set_t_status next t)) v)))) as HS.
    { destruct summary as [s|].
      - eapply task_ok_evidence; [done|apply HP|apply HP|by eapply task_post_phase|done..].
      - apply ok_bind, ok_ret, ok_ret, task_post_refl; apply HP. }
    eapply ok_mono; [apply HS|]. intros v2 db2 HP2. by eapply task_post_trans.
Qed.

Lemma reconcile_continuation_ok db v ph :
  ready db v ph → ph ∈ working_phases → status_of v = TaskContinuationPending →
  task_ok db v (reconcile_continuation v).
Proof.
  intros RD W S.
  assert (kind_of v = Implementation) as K.
  { destruct (kind_of v) eqn:K; [done|].
    pose proof (sound_research _ _ (ready_sound _ _ _ RD) K) as R.
    change (status_of v ∈ research_statuses) in R. rewrite S in R. guards. }
  unfold reconcile_continuation. destruct (child_of v) as [child|] eqn:C.
  2:{ eapply observe_ok; [done..|by rewrite K; in_list|by right]. }
  eapply task_ok_read; [done..|]. intros r db1 RD1.
  assert (task_ok db1 v (mret v)) as HV by (apply task_ok_ret; apply RD1).
  assert (task_ok db1 v (_ ← submit_to_child child (continuation_operation_id v) (continuation_message v);
                         mret v)) as HS.
  { eapply submit_to_child_ok; [done|]. intros db2 RD2. apply task_ok_ret; apply RD2. }
  destruct r as [[]|]; try done.
  assert (∀ next summary, next ∈ observed Implementation → task_ok db1 v
    (_ ← statement (update_orchestration_task_status (task_id_of v) next None);
     _ ← match summary with
         | Some s => statement (update_orchestration_task_result_summary (task_id_of v) s)
         | None => mret tt
         end;
     mret (change_row (λ t, set_t_summary summary (set_t_status next t)) v))) as HN.
  { intros next summary Hn. eapply settle_ok; [done|done|by rewrite K|by right]. }
  destruct (c_status v) as [[]|]; try done; try (apply HN; in_list).
  all: eapply reconcile_focused_review_ok; [done..|by rewrite C].
Qed.

Lemma complete_research_task_ok db v ph st :
  ready db v ph → ph ∈ working_phases → kind_of v = Research → is_Some (child_of v) →
  task_ok db v (complete_research_task v st).
Proof.
  intros RD W K C. unfold complete_research_task. cbv zeta.
  apply ok_bind. apply (ok_mono _ _ _ (λ v1 db1, task_post db v v1 db1 ∧ core (v_row v1) = core (v_row v))).
  { destruct (bool_decide _).
    - apply ok_ret. split; [apply task_post_refl; apply RD|done].
    - apply ok_bind. destruct RD as [R KN P].
      apply (ok_row s0 s0_sound db v (change_row (set_t_report (Some (captured_report v))) v) _
        (λ _ t, has_task_id (task_id_of v) t && bool_decide (t_kind t = Research))
        (set_t_report (Some (captured_report v))) (λ k, k) ph); auto; try done.
      + intros db1 t _ E. known_guard E.
      + intros db1 t [? _]%andb_prop. done.
      + constructor.
      + intros. apply ok_ret. split; [done|done]. }
  intros v1 db1 [HP1 E1]. assert (ready db1 v1 ph) as RD1 by by eapply ready_post.
  assert (is_Some (child_of v1)) as C1.
  { change (is_Some (k_child (core (v_row v1)))). by rewrite E1. }
  assert (kind_of v1 = Research) as K1.
  { change (k_kind (core (v_row v1)) = Research). by rewrite E1. }
  assert (∀ db2, ready db2 v1 ph →
    task_ok db2 v1 (update_task_status v1 TaskReported (research_edit_warning v1))) as HU.
  { intros db2 RD2. eapply observe_ok; [done..|rewrite K1; in_list|by left]. }
  assert (task_ok db1 v1 (_ ← (if bool_decide (st ∈ [Review; AgentReview]) then
         child ← ok_or (child_of v1) (L"Research task lost its temporary child");
         r ← request (CallCancelSession child); _ ← question r; mret tt
       else mret tt); update_task_status v1 TaskReported (research_edit_warning v1))) as HT.
  { destruct (bool_decide _); [|apply ok_bind, ok_ret; by apply HU].
    apply ok_bind, ok_bind, ok_ok_or; [apply RD1|]. intros child _.
    apply ok_bind, ok_request. intros r db2 E2.
    assert (ready db2 v1 ph) as RD2 by by eapply ready_tables.
    apply ok_bind, ok_question; [apply RD2|]. intros a _. apply ok_ret.
    apply task_ok_tables; auto. }
  eapply ok_mono; [apply HT|]. intros v2 db2 HP2. by eapply task_post_trans.
Qed.

Lemma reconcile_research_task_ok db v ph :
  ready db v ph → ph ∈ working_phases → kind_of v = Research → is_Some (child_of v) →
  task_ok db v (reconcile_research_task v).
Proof.
  intros RD W K C. unfold reconcile_research_task.
  destruct (bool_decide _); [apply task_ok_ret; apply RD|].
  assert (∀ next e, next ∈ observed Research → task_ok db v (update_task_status v next e)) as HO.
  { intros next e Hn. eapply observe_ok; [done|done|by rewrite K|by left]. }
  cbv zeta. destruct (default Canceled (c_status v)).
  all: try (apply HO; in_list).
  all: try by eapply complete_research_task_ok.
  destruct (bool_decide _); apply HO; in_list.
Qed.

(** *** Spawning *)

(** A call and a notification before a program for the task. *)
Lemma cancel_unclaimed_ok {A} db v ph child (k : unit → M A) Q :
  ready db v ph → (∀ db1, ready db1 v ph → tables db1 = tables db → ok db1 (k tt) Q) →
  ok db (u ← cancel_unclaimed_child child; k u) Q.
Proof.
  intros RD HK. unfold cancel_unclaimed_child. apply ok_bind, ok_bind, ok_request.
  intros r db1 E. assert (ready db1 v ph) as RD1 by by eapply ready_tables.
  apply ok_bind, ok_question; [apply RD1|]. intros a _. apply ok_emit. auto.
Qed.

Lemma task_rows_nodup db : Reach db → NoDup (t_id <$> db_tasks db).
Proof.
  intros R. pose proof (sound_task_ids _ (reach_sound _ _ s0_sound R)) as ND. cbn in ND.
  by rewrite <-list_fmap_compose in ND.
Qed.

(** The row that [find_task] returns decides between another attempt and failure. *)
Lemma spawn_failure_ok db v error (Q : option OrchestrationTaskStatus → Db → Prop) :
  ready db v OrchRunning → status_of v ∈ [TaskCreating; TaskRunning] →
  (∀ next db' f, core (v_row (change_row f v)) = to_status next (to_child None (core (v_row v))) →
     task_post db v (change_row f v) db' → Q (Some next) db') →
  ok db (statement (record_orchestration_spawn_failure (task_id_of v) error INFRASTRUCTURE_RETRY_LIMIT)) Q.
Proof.
  intros RD S HQ. apply ok_statement; [apply RD|]. intros db1 E.
  apply (ready_tables _ db1) in RD as RD1; [|done]. destruct RD1 as [R1 K1 P1].
  destruct (known_exists db1 db1 v eq_refl K1) as (t & Ht & Et).
  assert (∃ t0, find_task db1 (task_id_of v) = Some t0) as [t0 F].
  { apply (list_find_b_is_Some _ _ t); [done|]. known_guard Et. }
  unfold record_orchestration_spawn_failure. rewrite F. cbn [fst snd].
  apply list_find_b_Some in F as [F0 F1].
  set (next := spawn_failure_status INFRASTRUCTURE_RETRY_LIMIT t0).
  apply (HQ next _ (λ r, set_t_status next (set_t_child None r))); [done|].
  apply (task_post_tables _ _ db1); [done|].
  match goal with |- task_post _ _ _ ?d => set (db2 := d) end.
  destruct (move_row s0 s0_sound db1 db2 v (has_task_id (task_id_of v))
    (λ r, set_t_error (Some error) (set_t_status next (set_t_retries (t_retries r + 1) (set_t_child None r))))
    (λ k, to_status next (to_child None k)) OrchRunning) as (R2 & F2 & K2); auto; try done.
  - unfold db2, tables. cbn. do 3 f_equal. apply update_where_ext_f.
    intros x Hx Ex%Z.eqb_eq. assert (x = t0) as ->; [|done].
    apply (NoDup_unique t_id (db_tasks db1)); auto; [by apply task_rows_nodup|].
    apply Z.eqb_eq in F1. congruence.
  - intros x Ex. known_guard Ex.
  - apply move_spawn_failed; [done|done|]. unfold next, spawn_failure_status.
    destruct (_ <? _)%Z; in_list.
Qed.

Lemma fail_task_spawn_ok db v error :
  ready db v OrchRunning → status_of v ∈ [TaskCreating; TaskRunning] →
  task_ok db v (fail_task_spawn v error).
Proof.
  intros RD S. unfold fail_task_spawn.
  assert (∀ db1, ready db1 v OrchRunning → task_ok db1 v
    (next ← statement (record_orchestration_spawn_failure (task_id_of v) error INFRASTRUCTURE_RETRY_LIMIT);
     next ← ok_or next row_not_found;
     mret (change_row (λ t, set_t_error (Some error)
          (set_t_retries (i64_saturating_add (t_retries t) 1) (set_t_status next (set_t_child None t))))
          v))) as HS.
  { intros db1 RD1. apply ok_bind, spawn_failure_ok; [done|done|]. intros next db2 f Ef HP.
    apply ok_bind, ok_ok_or; [apply HP|]. intros a [= <-]. apply ok_ret.
    destruct HP as (HP1 & HP2 & HP3 & _ & _). split_and!; auto.
    unfold knows in *. by rewrite Ef in HP3. }
  destruct (child_of v) as [child|].
  - apply (cancel_unclaimed_ok db v OrchRunning); [done|]. intros db1 RD1 E.
    apply task_ok_tables; auto.
  - apply ok_bind, ok_ret. by apply HS.
Qed.

Lemma link_ok db v v' child (Q : bool → Db → Prop) :
  ready db v OrchRunning → status_of v = TaskCreating →
  core (v_row v') = to_status TaskRunning (to_child (Some child) (core (v_row v))) →
  (∀ db', task_post db v v' db' → Q true db') →
  ok db (statement (link_orchestration_task_child (task_id_of v) child)) Q.
Proof.
  intros [R K P] S E HQ.
  set (p d t := has_task_id (task_id_of v) t && status_in [TaskCreating] t &&
                campaign_is d (t_orchestration t) [OrchRunning]).
  assert (∀ d t, tables d = tables db → core t = core (v_row v) → p d t = true) as HP.
  { intros d t Ed Et. pose proof (campaign_is_known _ _ _ _ Ed P t Et) as C. unfold p. rewrite C.
    known_guard Et. }
  eapply (ok_row s0 s0_sound db v v' _ p
    (λ t, set_t_attempts (t_attempts t + 1) (set_t_status TaskRunning (set_t_child (Some child) t)))
    (λ k, to_status TaskRunning (to_child (Some child) k)) OrchRunning); auto; try done.
  - intros d t. unfold p. rewrite !andb_true_iff. tauto.
  - by apply move_link.
  - intros d db' Ed _ HT. change (Q (affects_one (p d) (db_tasks d)) db').
    rewrite (guard_one db d v (p d)); auto. intros t. unfold p. rewrite !andb_true_iff. tauto.
Qed.

Lemma claim_ok db v v' (Q : bool → Db → Prop) :
  ready db v OrchRunning → status_of v = TaskPlanned →
  core (v_row v') = to_status TaskCreating (core (v_row v)) →
  (∀ db', task_post db v v' db' → Q true db') →
  ok db (statement (claim_orchestration_task (task_id_of v))) Q.
Proof.
  intros [R K P] S E HQ.
  set (p d t := has_task_id (task_id_of v) t && status_in [TaskPlanned] t &&
                campaign_is d (t_orchestration t) [OrchRunning]).
  assert (∀ d t, tables d = tables db → core t = core (v_row v) → p d t = true) as HP.
  { intros d t Ed Et. pose proof (campaign_is_known _ _ _ _ Ed P t Et) as C. unfold p. rewrite C.
    known_guard Et. }
  eapply (ok_row s0 s0_sound db v v' _ p (λ t, set_t_error None (set_t_status TaskCreating t))
    (to_status TaskCreating) OrchRunning); auto; try done.
  - intros d t. unfold p. rewrite !andb_true_iff. tauto.
  - by apply move_claim.
  - intros d db' Ed _ HT. change (Q (affects_one (p d) (db_tasks d)) db').
    rewrite (guard_one db d v (p d)); auto. intros t. unfold p. rewrite !andb_true_iff. tauto.
Qed.

Lemma ready_core db v v' ph : core (v_row v') = core (v_row v) → ready db v ph → ready db v' ph.
Proof.
  intros E [R K P]. constructor; [done|by unfold knows; rewrite E|].
  change (campaign_of v') with (k_orchestration (core (v_row v'))). by rewrite E.
Qed.

Lemma task_ok_core db v v' m : core (v_row v') = core (v_row v) → task_ok db v' m → task_ok db v m.
Proof.
  intros E HM. eapply ok_mono; [apply HM|]. intros v2 db2 (R & F & K & I & C).
  assert (task_id_of v' = task_id_of v) as Ei.
  { change (k_id (core (v_row v')) = k_id (core (v_row v))). by rewrite E. }
  assert (campaign_of v' = campaign_of v) as Ec.
  { change (k_orchestration (core (v_row v')) = k_orchestration (core (v_row v))). by rewrite E. }
  rewrite Ei in *. rewrite Ec in *. by split_and!.
Qed.

Lemma recover_creating_task_ok db v :
  ready db v OrchRunning → status_of v = TaskCreating → child_of v = None →
  task_ok db v (recover_creating_task v).
Proof.
  intros RD S C. eapply task_ok_read; [done|done|]. intros found db1 RD1.
  destruct found as [child|].
  - apply ok_bind. apply (link_ok db1 v (change_row (set_t_status TaskRunning)
      (change_row (set_t_child (Some child)) v)) child); [done|done|done|].
    intros db2 HP. by apply ok_ret.
  - set (v1 := change_row (set_t_child None) v).
    assert (core (v_row v1) = core (v_row v)) as E.
    { unfold v1, core. cbn. f_equal. symmetry. apply C. }
    apply (task_ok_core _ _ v1); [done|]. apply fail_task_spawn_ok.
    + by apply (ready_core _ v).
    + change (t_status (v_row v) ∈ [TaskCreating; TaskRunning]). unfold status_of in S. rewrite S. in_list.
Qed.

(** A task of a working campaign; one whose creation was interrupted needs a running one. *)
Lemma reconcile_task_ok db v ph :
  ready db v ph → ph ∈ working_phases → (status_of v = TaskCreating → ph = OrchRunning) →
  task_ok db v (reconcile_task v).
Proof.
  intros RD W HC. pose proof (ready_sound _ _ _ RD) as SO. unfold reconcile_task.
  destruct (bool_decide_reflect (status_of v = TaskReviewApplying)) as [S|_].
  { eapply reconcile_review_application_ok; [done|done| |].
    - destruct (kind_of v) eqn:K; [done|]. pose proof (sound_research _ _ SO K) as R.
      change (status_of v ∈ research_statuses) in R. rewrite S in R. guards.
    - by apply (sound_applying _ _ SO). }
  destruct (bool_decide_reflect (status_of v = TaskContinuationPending)) as [S|_].
  { by eapply reconcile_continuation_ok. }
  destruct (child_of v) as [child|] eqn:C.
  2:{ destruct (bool_decide_reflect (status_of v = TaskCreating)) as [S|_].
      - rewrite (HC S) in RD. by apply recover_creating_task_ok.
      - apply task_ok_ret; apply RD. }
  unfold is_research_task. destruct (bool_decide_reflect (kind_of v = Research)) as [K|NK].
  { eapply reconcile_research_task_ok; [done..|by rewrite C]. }
  assert (kind_of v = Implementation) as K by by destruct (kind_of v).
  cbv zeta. destruct (bool_decide_reflect (default Canceled (c_status v) ∈ [Review; AgentReview])).
  { eapply reconcile_focused_review_ok; [done..|by rewrite C]. }
  apply task_ok_bind.
  - eapply observe_ok; [done..| |by rewrite C; left].
    rewrite K. destruct (default Canceled (c_status v)); cbn; in_list.
  - intros v' db' HP. destruct (bool_decide _).
    + eapply record_summary_ok. by eapply ready_post.
    + apply task_ok_ret; apply HP.
Qed.

Lemma spawn_task_ok db o v :
  ready db v OrchRunning → status_of v = TaskPlanned → task_ok db v (spawn_task o v).
Proof.
  intros RD S. unfold spawn_task. apply ok_bind.
  set (v1 := change_row (λ t, set_t_error None (set_t_status TaskCreating t)) v).
  apply (claim_ok db v v1); [done|done|done|]. intros db1 HP1. cbn [negb].
  assert (ready db1 v1 OrchRunning) as RD1 by by eapply ready_post.
  assert (task_ok db1 v1
    (created ← request (CallCreateSession (child_request o v1));
     match created with
     | Err error => fail_task_spawn v1 error
     | Ok child =>
         linked ← statement (link_orchestration_task_child (task_id_of v1) child);
         if negb linked then (_ ← cancel_unclaimed_child child; mret v1)
         else
           let task := change_row (λ t, set_t_status TaskRunning (set_t_child (Some child) t)) v1 in
           sent ← request (CallSendMessage child (child_prompt task));
           task ← match sent with Err error => fail_task_spawn task error | Ok _ => mret task end;
           _ ← emit RefreshSessions;
           mret task
     end)) as HS.
  { eapply task_ok_request; [done|]. intros [child|error] db2 RD2.
    2:{ apply fail_task_spawn_ok; [done|]. cbn. in_list. }
    apply ok_bind. set (v2 := change_row (λ t, set_t_status TaskRunning (set_t_child (Some child) t)) v1).
    apply (link_ok db2 v1 v2 child); [done|done|done|]. intros db3 HP3. cbn [negb].
    assert (ready db3 v2 OrchRunning) as RD3 by by eapply ready_post.
    apply (ok_mono _ _ _ (task_post db3 v2)); [|intros v4 db4 HP4; by eapply task_post_trans].
    cbv zeta. eapply task_ok_request; [done|]. intros sent db4 RD4.
    apply task_ok_bind.
    - destruct sent; [apply task_ok_ret; apply RD4|].
      apply fail_task_spawn_ok; [done|]. cbn. in_list.
    - intros v5 db5 HP5. apply ok_bind, ok_emit, ok_ret, task_post_refl; apply HP5. }
  eapply ok_mono; [apply HS|]. intros v6 db6 HP6. by eapply task_post_trans.
Qed.

(** *** Integration and cancellation *)

Lemma integration_ok db v next e :
  ready db v OrchIntegrating →
  status_of v ∈ [TaskAwaitingIntegration; TaskMerging; TaskReviewRequested] →
  next = TaskIntegrationFailed ∨
    (status_of v ∈ [TaskMerging; TaskReviewRequested] ∧ next ∈ [TaskIntegrated; TaskReviewRequested]) →
  task_ok db v (update_task_status v next e).
Proof.
  intros [R K P] S N. eapply update_task_status_task; [done..|]. by apply move_integrate.
Qed.

Lemma publish_review_request_ok db v child :
  ready db v OrchIntegrating → status_of v = TaskMerging →
  task_ok db v (publish_review_request v child).
Proof.
  intros RD S. eapply task_ok_request; [done|]. intros r db1 RD1.
  destruct r; apply integration_ok; try done; rewrite S; try in_list; [right|by left].
  split; in_list.
Qed.

Lemma reconcile_review_requested_task_ok db v :
  ready db v OrchIntegrating → task_ok db v (reconcile_review_requested_task v).
Proof.
  intros RD. unfold reconcile_review_requested_task.
  assert (task_ok db v (mret v)) as HV by (apply task_ok_ret; apply RD).
  destruct (bool_decide_reflect (status_of v = TaskReviewRequested)) as [S|]; [|done]. cbn [negb].
  destruct (c_status v) as [[]|]; try done; apply integration_ok; try done; rewrite S; try in_list.
  all: first [by left | right; split; in_list].
Qed.

Lemma reconcile_merging_task_ok db v approach :
  ready db v OrchIntegrating → task_ok db v (reconcile_merging_task approach v).
Proof.
  intros RD. unfold reconcile_merging_task.
  assert (task_ok db v (mret v)) as HV by (apply task_ok_ret; apply RD).
  destruct (bool_decide_reflect (status_of v = TaskMerging)) as [S|]; [|done]. cbn [negb].
  assert (∀ next e, next ∈ [TaskIntegrated; TaskIntegrationFailed] →
    task_ok db v (update_task_status v next e)) as HU.
  { intros next e Hn. apply integration_ok; [done|rewrite S; in_list|]. rewrite S.
    split_in; subst; [right; split; in_list|by left]. }
  destruct (bool_decide _).
  - destruct (child_of v); [by apply publish_review_request_ok|apply HU; in_list].
  - destruct (c_status v) as [[]|]; try done; apply HU; in_list.
Qed.
End tasks.

(** ** Campaign programs *)

(** Only the rows [ids] may differ. *)
Record frames (ids : list Z) (s s' : Spec) : Prop := mkFrames {
  frames_phases : phases s' = phases s;
  frames_idents : idents s' = idents s;
  frames_rest k : k ∈ cores s → k_id k ∉ ids → k ∈ cores s'
}.

Lemma frames_nil s : frames [] s s.
Proof. by constructor. Qed.

Lemma frames_cons i ids s1 s2 s3 : frame i s1 s2 → frames ids s2 s3 → frames (i :: ids) s1 s3.
Proof.
  intros [P I R] [P' I' R']. constructor; [congruence|congruence|].
  intros k Hk N. apply R'; [apply R; [done|]|]; set_solver.
Qed.

Lemma idents_campaign s s' k' :
  idents s' = idents s → k' ∈ cores s' →
  ∃ k, k ∈ cores s ∧ k_id k = k_id k' ∧ k_orchestration k = k_orchestration k'.
Proof.
  intros E Hk'. assert ((k_id k', k_orchestration k') ∈ idents s) as Hin.
  { rewrite <-E. by apply (list_elem_of_fmap_2 (λ k, (k_id k, k_orchestration k))). }
  apply list_elem_of_fmap in Hin as (k & [= Ei Eo] & Hk). exists k. auto.
Qed.

Lemma status_update_phase db id ph next :
  (id, ph) ∈ phases (spec_of db) → (id, next) ∈ phases (spec_of (update_orchestration_status id next db).2).
Proof.
  intros (o & [= -> ->] & Ho)%list_elem_of_fmap. cbn.
  apply list_elem_of_fmap. exists (set_o_status next o). split; [done|].
  apply elem_of_update_where. exists o. unfold has_orchestration_id. by rewrite Z.eqb_refl.
Qed.

Section campaigns.
Context `{Host} `{!QuietHost} `{JsonText} `{UnicodeAlnum} `{Templates} (s0 : Spec) (s0_sound : Sound s0).

Local Abbreviation Reach := (Reach s0).
Local Abbreviation ok := (ok s0).
Local Abbreviation task_ok := (task_ok s0).
Local Abbreviation task_post := (task_post s0).
Local Abbreviation ready := (ready s0).

(** The views of a pass: known, distinct, and all the tasks of the campaign. *)
Record loaded (db : Db) (c : Z) (ph : OrchestrationStatus) (vs : list SessionOrchestrationTaskRow)
  : Prop := mkLoaded {
  loaded_reach : Reach db;
  loaded_phase : (c, ph) ∈ phases (spec_of db);
  loaded_knows : Forall (knows db) vs;
  loaded_campaign : Forall (λ v, campaign_of v = c) vs;
  loaded_distinct : NoDup (task_id_of <$> vs);
  loaded_covers k : k ∈ tasks_of (spec_of db) c → k_id k ∈ task_id_of <$> vs
}.

Lemma loaded_tables db db1 c ph vs : tables db1 = tables db → loaded db c ph vs → loaded db1 c ph vs.
Proof.
  intros E [R P K C D V]. constructor; rewrite ?(tables_spec _ _ E); auto.
  - by eapply reach_tables.
  - eapply Forall_impl; [apply K|]. intros v. by apply knows_tables.
Qed.

Lemma loaded_ready db c ph vs v : loaded db c ph vs → v ∈ vs → ready db v ph.
Proof.
  intros [R P K C D V] Hv. rewrite Forall_forall in *. constructor; auto. by rewrite (C v Hv).
Qed.

(** What holds of every view holds of every task of the campaign. *)
Lemma loaded_forall db c ph vs (p : TaskCore → Prop) :
  loaded db c ph vs → Forall (λ v, p (core (v_row v))) vs → Forall p (tasks_of (spec_of db) c).
Proof.
  intros [R P K C D V] HF. apply Forall_forall. intros k Hk.
  pose proof (proj1 (Forall_forall _ _) HF) as HF'. pose proof (proj1 (Forall_forall _ _) K) as K'.
  pose proof (V k Hk) as (v & Ei & Hv)%list_elem_of_fmap.
  apply elem_of_tasks_of in Hk as [Hk _].
  assert (k = core (v_row v)) as ->; [|by apply (HF' v)].
  apply (unique_row (spec_of db)); [by eapply reach_sound|done|by apply K'|done].
Qed.

(** [load_orchestration_tasks] reads the tasks of the campaign. *)
Lemma load_tasks_loaded db c ph :
  Reach db → (c, ph) ∈ phases (spec_of db) → loaded db c ph (load_orchestration_tasks c db).1.
Proof.
  intros R P. cbn. set (rows := sort_by plan_order (List.filter (in_campaign c) (db_tasks db))).
  assert (∀ t, t ∈ rows ↔ t ∈ db_tasks db ∧ t_orchestration t = c) as HR.
  { intros t. unfold rows. rewrite sort_by_elem, elem_of_filter_b. unfold in_campaign.
    rewrite Z.eqb_eq. tauto. }
  assert (∀ t, v_row (task_view db t) = t) as HV.
  { intros t. unfold task_view. by destruct (_ ≫= _). }
  constructor; auto.
  - apply Forall_fmap, Forall_forall. intros t Ht%HR. unfold knows. cbn. rewrite HV.
    apply list_elem_of_fmap_2. tauto.
  - apply Forall_fmap, Forall_forall. intros t Ht%HR. unfold campaign_of. cbn. rewrite HV. tauto.
  - rewrite <-list_fmap_compose.
    rewrite (list_fmap_ext (task_id_of ∘ task_view db) t_id).
    2:{ intros i t _. unfold task_id_of. cbn. by rewrite HV. }
    unfold rows. rewrite sort_by_perm. apply NoDup_fmap_filter. by apply (task_rows_nodup s0 s0_sound).
  - intros k (Hk & Ec)%elem_of_tasks_of. apply list_elem_of_fmap in Hk as (t & -> & Ht).
    rewrite <-list_fmap_compose. apply list_elem_of_fmap. exists t. split.
    + unfold task_id_of. cbn. by rewrite HV.
    + by apply HR.
Qed.

Lemma loaded_post db c ph v v' vs db' :
  loaded db c ph (v :: vs) → task_post db v v' db' →
  Reach db' ∧ (c, ph) ∈ phases (spec_of db') ∧ Forall (knows db') vs.
Proof.
  intros [R P K C D V] (R' & F & K' & _). split_and!; [done|by rewrite (frame_phases _ _ _ F)|].
  rewrite Forall_forall in *. intros x Hx. apply (frame_rest _ _ _ F); [by apply K; right|].
  intros E. inversion D as [|? ? N]; subst. apply N, list_elem_of_fmap. exists x. split; [|done].
  unfold task_id_of in *. cbn in *. by symmetry.
Qed.

(** A loop whose body works on one task at a time. *)
Lemma for_each_ok db c ph vs f :
  (∀ db v, ready db v ph → task_ok db v (f v)) →
  Reach db → (c, ph) ∈ phases (spec_of db) → Forall (knows db) vs →
  Forall (λ v, campaign_of v = c) vs → NoDup (task_id_of <$> vs) →
  ok db (for_each f vs) (λ vs' db',
    Reach db' ∧ frames (task_id_of <$> vs) (spec_of db) (spec_of db') ∧ Forall (knows db') vs' ∧
    Forall (λ v, campaign_of v = c) vs' ∧ task_id_of <$> vs' = task_id_of <$> vs).
Proof.
  intros HF. revert db. induction vs as [|v vs IH]; intros db R P K C D; cbn [for_each].
  { apply ok_ret. split_and!; auto. apply frames_nil. }
  inversion K as [|? ? Kv Ks]; inversion C as [|? ? Cv Cs]; inversion D as [|? ? Dv Ds]; subst.
  apply ok_bind. eapply ok_mono; [apply HF; by constructor|].
  intros v' db' (R' & F & K' & Ei & Ec). cbn.
  apply ok_bind. eapply ok_mono.
  { apply IH; auto.
    - by rewrite (frame_phases _ _ _ F).
    - rewrite Forall_forall in *. intros x Hx. apply (frame_rest _ _ _ F); [by apply Ks|].
      intros E. apply Dv, list_elem_of_fmap. exists x. split; [|done]. by symmetry. }
  intros vs' db2 (R2 & F2 & K2 & C2 & I2). apply ok_ret. split_and!; auto.
  - by eapply frames_cons.
  - constructor; [|done]. apply (frames_rest _ _ _ F2); [done|].
    change (task_id_of v' ∉ task_id_of <$> vs). by rewrite Ei.
  - cbn. by rewrite Ei, I2.
Qed.

Lemma loaded_frames db c ph vs db' vs' :
  loaded db c ph vs → Reach db' → frames (task_id_of <$> vs) (spec_of db) (spec_of db') →
  Forall (knows db') vs' → Forall (λ v, campaign_of v = c) vs' →
  task_id_of <$> vs' = task_id_of <$> vs → loaded db' c ph vs'.
Proof.
  intros [R P K C D V] R' F K' C' I'. constructor; auto.
  - by rewrite (frames_phases _ _ _ F).
  - by rewrite I'.
  - intros k [Hk Ec]%elem_of_tasks_of. rewrite I'.
    destruct (idents_campaign _ _ k (frames_idents _ _ _ F) Hk) as (k0 & Hk0 & Ei & Eo).
    rewrite <-Ei. apply V, elem_of_tasks_of. split; [done|congruence].
Qed.

Lemma for_each_loaded db c ph vs f :
  (∀ db v, ready db v ph → task_ok db v (f v)) → loaded db c ph vs →
  ok db (for_each f vs) (λ vs' db', loaded db' c ph vs' ∧ phases (spec_of db') = phases (spec_of db)).
Proof.
  intros HF HL. pose proof HL as [R P K C D V].
  eapply ok_mono; [by apply (for_each_ok db c ph)|]. intros vs' db' (R' & F & K' & C' & I').
  split; [by eapply loaded_frames|apply F].
Qed.

(** *** Campaign statements *)

(** Other campaigns keep their phase. *)
Definition others (c : Z) (s s' : Spec) : Prop :=
  ∀ id ph, id ≠ c → (id, ph) ∈ phases s → (id, ph) ∈ phases s'.

Definition campaign_post (db : Db) (c : Z) (db' : Db) : Prop :=
  Reach db' ∧ others c (spec_of db) (spec_of db').

Lemma campaign_post_same db c db' :
  Reach db' → phases (spec_of db') = phases (spec_of db) → campaign_post db c db'.
Proof. intros R E. split; [done|]. intros id ph _. by rewrite E. Qed.

Lemma campaign_post_trans db c db1 db2 :
  campaign_post db c db1 → campaign_post db1 c db2 → campaign_post db c db2.
Proof. intros [_ O1] [R2 O2]. split; [done|]. intros id ph N Hin. auto. Qed.

Definition campaign_ok (db : Db) (c : Z) (m : M unit) : Prop := ok db m (λ _, campaign_post db c).

Lemma campaign_ok_same db db1 c m :
  phases (spec_of db1) = phases (spec_of db) → campaign_ok db1 c m → ok db1 m (λ _, campaign_post db c).
Proof.
  intros E HM. eapply ok_mono; [apply HM|]. intros _ db' [R O]. split; [done|].
  intros id ph N Hin. apply O; [done|]. by rewrite E.
Qed.

(** A statement that writes no phase and no core. *)
Lemma spec_same_reach db db1 : spec_of db1 = spec_of db → (Fresh db → Fresh db1) → Reach db → Reach db1.
Proof. intros E F [R FR]. split; [by rewrite E|auto]. Qed.

Lemma loaded_same db db1 c ph vs :
  spec_of db1 = spec_of db → Reach db1 → loaded db c ph vs → loaded db1 c ph vs.
Proof.
  intros E R1 [R P K C D V]. constructor; rewrite ?E; auto.
  eapply Forall_impl; [apply K|]. intros v. unfold knows. by rewrite E.
Qed.

Lemma fresh_update_orchestrations db p f :
  (∀ o, o_id (f o) = o_id o) → Fresh db → Fresh (update_orchestrations db p f).
Proof.
  intros E [F1 F2]. split; [|done]. cbn. rewrite Forall_forall in *.
  intros o' (o & Ho & ->)%elem_of_update_where. destruct (p o); rewrite ?E; auto.
Qed.

Lemma update_orchestrations_same db p f :
  (∀ o, phase (f o) = phase o) → spec_of (update_orchestrations db p f) = spec_of db.
Proof. intros E. unfold spec_of. cbn. f_equal. by apply update_where_fmap. Qed.

Definition phase_in (id : Z) (statuses : list OrchestrationStatus) (c : Z * OrchestrationStatus) : bool :=
  (c.1 =? id)%Z && bool_decide (c.2 ∈ statuses).

Lemma set_phase_spec db id statuses next f :
  (∀ o, phase (f o) = (o_id o, next)) →
  spec_of (update_orchestrations db (campaign_in id statuses) f) =
  mkSpec (update_where (phase_in id statuses) (λ c, (c.1, next)) (phases (spec_of db)))
    (cores (spec_of db)).
Proof. intros E. unfold spec_of. cbn. f_equal. by apply fmap_update_where. Qed.

Lemma others_update id p next s ks :
  (∀ c, p c = true → c.1 = id) →
  others id s (mkSpec (update_where p (λ c, (c.1, next)) (phases s)) ks).
Proof.
  intros HP i ph N Hin. apply elem_of_update_where. exists (i, ph). split; [done|].
  destruct (p (i, ph)) eqn:E; [|done]. by destruct (N (HP _ E)).
Qed.

(** A conditional change of the phase of campaign [id]. *)
Lemma phase_update db id statuses next f :
  Reach db → (∀ o, phase (f o) = (o_id o, next)) →
  (∀ ph, ph ∈ statuses → (id, ph) ∈ phases (spec_of db) →
     phase_move (tasks_of (spec_of db) id) ph next) →
  campaign_post db id (update_orchestrations db (campaign_in id statuses) f).
Proof.
  intros R E HM. split.
  - apply (reach_step _ db); [done| |].
    + rewrite (set_phase_spec _ _ _ _ _ E). apply step_phase. intros [i ph] Hin.
      unfold phase_in. intros [Ei%Z.eqb_eq Hs%bool_decide_eq_true]%andb_prop. cbn in *. subst.
      by apply HM.
    + apply fresh_update_orchestrations; [|by destruct R]. intros o.
      change ((phase (f o)).1 = o_id o). by rewrite E.
  - rewrite (set_phase_spec _ _ _ _ _ E). apply others_update.
    intros c. unfold phase_in. by intros [?%Z.eqb_eq _]%andb_prop.
Qed.

(** An unconditional change, as [update_orchestration_status] makes it. *)
Lemma status_update db id ph next :
  Reach db → (id, ph) ∈ phases (spec_of db) → phase_move (tasks_of (spec_of db) id) ph next →
  campaign_post db id (update_orchestration_status id next db).2.
Proof.
  intros R Hin HM. cbn.
  assert (spec_of (update_orchestrations db (has_orchestration_id id) (set_o_status next)) =
    mkSpec (update_where (λ c, c.1 =? id)%Z (λ c, (c.1, next)) (phases (spec_of db)))
      (cores (spec_of db))) as E.
  { unfold spec_of. cbn. f_equal. by apply fmap_update_where. }
  split.
  - apply (reach_step _ db); [done| |].
    + rewrite E. apply step_phase. intros [i ph'] Hi Ei%Z.eqb_eq. cbn in *. subst.
      assert (ph' = ph) as ->; [|done].
      eapply sound_phase_unique; [by eapply reach_sound|done|done].
    + apply fresh_update_orchestrations; [done|]. by destruct R.
  - rewrite E. apply others_update. by intros c Ei%Z.eqb_eq.
Qed.

Lemma tables_campaign db db1 c db' :
  tables db1 = tables db → campaign_post db1 c db' → campaign_post db c db'.
Proof. intros E. unfold campaign_post. by rewrite (tables_spec _ _ E). Qed.

(** *** Passes over one campaign *)

Lemma emit_live_status_ok db o vs (Q : unit → Db → Prop) : Q tt db → ok db (emit_live_status o vs) Q.
Proof. intros HQ w <-. unfold emit_live_status. by destruct (bool_decide _). Qed.

Lemma clear_live_status_ok db o (Q : unit → Db → Prop) : Q tt db → ok db (clear_live_status o) Q.
Proof. by intros HQ w <-. Qed.

Lemma surface_spec c task questions db :
  spec_of (surface_orchestration_questions c task questions db).2 = spec_of db ∧
  (Fresh db → Fresh (surface_orchestration_questions c task questions db).2).
Proof.
  unfold surface_orchestration_questions. destruct (list_find_b _ _); [|done]. cbn [snd]. split.
  - by apply (update_orchestrations_same db (relay_ready db c task) (set_o_relayed (Some task))).
  - intros F. by apply (fresh_update_orchestrations db (relay_ready db c task) (set_o_relayed (Some task))).
Qed.

Lemma surface_child_questions_ok db o c ph vs (k : unit → M unit) Q :
  loaded db c ph vs →
  (∀ db1, loaded db1 c ph vs → spec_of db1 = spec_of db → ok db1 (k tt) Q) →
  ok db (u ← surface_child_questions o vs; k u) Q.
Proof.
  intros LD HK. apply ok_bind. unfold surface_child_questions.
  destruct (head _) as [[task questions]|]; [|apply ok_ret; auto].
  apply ok_bind, ok_statement; [apply LD|]. intros db1 E.
  destruct (surface_spec (o_id (lo_row o)) task questions db1) as [ES EF].
  assert (Reach db1) as R1 by (eapply reach_tables; [done|apply LD]).
  assert (ok (surface_orchestration_questions (o_id (lo_row o)) task questions db1).2 (k tt) Q) as HK'.
  { apply HK; [|by rewrite ES; apply tables_spec]. eapply loaded_same; [done| |by eapply loaded_tables].
    by eapply spec_same_reach. }
  apply ok_when; [|done]. intros _. by apply ok_emit.
Qed.

Lemma submit_rollup_ok db o vs g : Reach db → ok db (submit_rollup o vs g)
  (λ _ db', Reach db' ∧ spec_of db' = spec_of db).
Proof.
  intros R. apply ok_bind, ok_or_panic; [done|]. intros text _. apply ok_bind, ok_request.
  intros r db1 E. assert (Reach db1) as R1 by by eapply reach_tables.
  apply ok_bind, ok_question; [done|]. intros a _. apply ok_ret. split; [done|by apply tables_spec].
Qed.

Lemma load_tasks_ok {A} db c ph (k : list SessionOrchestrationTaskRow → M A) Q :
  Reach db → (c, ph) ∈ phases (spec_of db) →
  (∀ vs db1, loaded db1 c ph vs → tables db1 = tables db → ok db1 (k vs) Q) →
  ok db (vs ← statement (load_orchestration_tasks c); k vs) Q.
Proof.
  intros R P HK. apply ok_bind, ok_statement; [done|]. intros db1 E. cbn [fst snd].
  apply HK; [|done]. apply load_tasks_loaded; [by eapply reach_tables|]. by rewrite (tables_spec _ _ E).
Qed.

Lemma loaded_done db c ph vs db0 :
  loaded db c ph vs → phases (spec_of db) = phases (spec_of db0) → campaign_post db0 c db.
Proof. intros HL E. apply campaign_post_same; [apply HL|done]. Qed.

Lemma reconcile_parked_plan_ok db o c :
  Reach db → o_id (lo_row o) = c → (c, OrchAwaitingApproval) ∈ phases (spec_of db) →
  campaign_ok db c (reconcile_parked_plan o).
Proof.
  intros R <- P. eapply load_tasks_ok; [done..|]. intros vs db1 HL E1.
  apply ok_bind. eapply ok_mono.
  { apply (for_each_loaded _ (o_id (lo_row o)) OrchAwaitingApproval); [|done]. intros d v RD.
    unfold is_live_task. destruct (bool_decide_reflect (status_of v ∈ [TaskContinuationPending;
      TaskRunning; TaskReviewing; TaskReviewApplying; TaskWaitingForInput])) as [S|_].
    - eapply reconcile_task_ok; [done|done|in_list|]. intros S'. rewrite S' in S. split_in; done.
    - apply task_ok_ret; apply RD. }
  intros vs' db2 [HL2 E2]. eapply surface_child_questions_ok; [done|]. intros db3 HL3 E3.
  apply emit_live_status_ok. eapply loaded_done; [done|].
  rewrite E3, E2. by rewrite (tables_spec _ _ E1).
Qed.

Lemma settled_core v : task_is_integration_settled v = core_settled (core (v_row v)).
Proof. done. Qed.

Lemma complete_campaign_ok db o c vs ph :
  loaded db c ph vs → o_id (lo_row o) = c → ph ∈ [OrchAwaitingIntegration; OrchIntegrating] →
  forallb task_is_integration_settled vs = true → campaign_ok db c (complete_campaign o).
Proof.
  intros HL <- Hph HF.
  assert (Forall (λ k, core_settled k = true) (tasks_of (spec_of db) (o_id (lo_row o)))) as HS.
  { eapply loaded_forall; [done|]. apply Forall_forall. intros v Hv. rewrite <-settled_core.
    rewrite forallb_true in HF. auto. }
  apply ok_bind, ok_statement; [apply HL|]. intros db1 E1.
  assert (campaign_post db (o_id (lo_row o)) (complete_orchestration_campaign (o_id (lo_row o)) db1).2) as HP.
  { apply (tables_campaign _ db1); [done|].
    assert (Reach db1) as R1 by (eapply reach_tables; [done|apply HL]).
    unfold complete_orchestration_campaign. destruct (list_find_b _ _) as [row|]; cbn [snd].
    2:{ by apply campaign_post_same. }
    assert (campaign_post db1 (o_id (lo_row o)) (update_orchestrations db1
      (campaign_in (o_id (lo_row o)) [OrchAwaitingIntegration; OrchIntegrating]) (set_o_status OrchDone)))
      as [R2 O2].
    { apply (phase_update _ _ _ OrchDone); [done|done|]. intros ph' Hp _. rewrite (tables_spec _ _ E1).
      by apply phase_done. }
    split; [by eapply reach_tables|done]. }
  apply ok_when; [|done]. intros _. apply ok_bind, clear_live_status_ok, ok_emit, HP.
Qed.

Lemma reconcile_awaiting_integration_ok db o c :
  Reach db → o_id (lo_row o) = c → (c, OrchAwaitingIntegration) ∈ phases (spec_of db) →
  campaign_ok db c (reconcile_awaiting_integration o).
Proof.
  intros R <- P. eapply load_tasks_ok; [done..|]. intros vs db1 HL E1.
  destruct (forallb _ vs) eqn:HF.
  - apply campaign_ok_same; [by rewrite (tables_spec _ _ E1)|].
    eapply complete_campaign_ok; [done|done|in_list|done].
  - apply emit_live_status_ok. eapply loaded_done; [done|]. by rewrite (tables_spec _ _ E1).
Qed.

Lemma spawn_loop_ok db o c n vs :
  Reach db → (c, OrchRunning) ∈ phases (spec_of db) → Forall (knows db) vs →
  Forall (λ v, campaign_of v = c) vs → NoDup (task_id_of <$> vs) →
  ok db (spawn_loop o n vs) (λ _ db', Reach db' ∧ phases (spec_of db') = phases (spec_of db)).
Proof.
  revert db n. induction vs as [|v vs IH]; intros db n R P K C D; cbn [spawn_loop]; [by apply ok_ret|].
  inversion K as [|? ? Kv Ks]; inversion C as [|? ? Cv Cs]; inversion D as [|? ? Dv Ds]; subst.
  destruct (bool_decide_reflect (status_of v = TaskPlanned)) as [S|_]; [|by apply IH].
  destruct n as [|n]; [by apply ok_ret|]. apply ok_bind. eapply ok_mono.
  { apply spawn_task_ok; [done|by constructor|done]. }
  intros v' db' (R' & F & _). rewrite <-(frame_phases _ _ _ F). apply IH; auto.
  - by rewrite (frame_phases _ _ _ F).
  - rewrite Forall_forall in *. intros x Hx. apply (frame_rest _ _ _ F); [by apply Ks|].
    intros E. apply Dv, list_elem_of_fmap. exists x. split; [|done]. by symmetry.
Qed.

Lemma reconcile_orchestration_ok db o c :
  Reach db → o_id (lo_row o) = c → (c, OrchRunning) ∈ phases (spec_of db) →
  campaign_ok db c (reconcile_orchestration o).
Proof.
  intros R <- P. set (c := o_id (lo_row o)) in *. eapply load_tasks_ok; [done..|]. intros vs db1 HL E1.
  apply ok_bind. eapply ok_mono.
  { apply (for_each_loaded _ c OrchRunning); [|done]. intros d v RD.
    eapply reconcile_task_ok; [done|done|in_list|done]. }
  intros vs2 db2 [HL2 E2]. eapply surface_child_questions_ok; [done|]. intros db3 HL3 E3.
  apply ok_bind. eapply ok_mono; [apply (spawn_loop_ok _ _ c); apply HL3|].
  intros _ db4 [R4 E4].
  assert (phases (spec_of db4) = phases (spec_of db)) as EP.
  { rewrite E4, E3, E2. by rewrite (tables_spec _ _ E1). }
  eapply load_tasks_ok; [done|by rewrite EP|]. intros vs5 db5 HL5 E5.
  assert (phases (spec_of db5) = phases (spec_of db)) as EP5 by by rewrite (tables_spec _ _ E5).
  destruct (should_submit _) eqn:HS.
  2:{ apply emit_live_status_ok. by eapply loaded_done. }
  apply ok_bind, clear_live_status_ok, ok_bind, ok_statement; [apply HL5|]. intros db6 E6.
  assert (campaign_post db c (claim_orchestration_rollup c db6).2) as HP.
  { apply (campaign_post_trans _ _ db5); [by eapply loaded_done|].
    apply (tables_campaign _ db6); [done|]. apply (phase_update _ _ _ OrchVerifying); [|done|].
    - eapply reach_tables; [done|apply HL5].
    - intros ph Hph _. apply list_elem_of_singleton in Hph as ->. apply phase_verify.
      rewrite (tables_spec _ _ E6). eapply loaded_forall; [done|].
      unfold decide_schedule, schedule in HS. cbn in HS. apply andb_prop in HS as [_ HS].
      rewrite forallb_true in HS. apply Forall_forall. intros v Hv.
      apply (HS (Some (status_of v))). apply list_elem_of_fmap. by exists v. }
  apply ok_when; [|done]. intros _. eapply ok_mono; [apply submit_rollup_ok; apply HP|].
  intros _ db7 [R7 E7]. split; [done|]. intros id ph N Hin. rewrite E7. by apply HP.
Qed.

(** [transition_orchestration_and_tasks], in the phase it starts from. *)
Lemma moved_once db id ph :
  Reach db → (id, ph) ∈ phases (spec_of db) → affects_one (campaign_in id [ph]) (db_orchestrations db) = true.
Proof.
  intros R Hin. pose proof Hin as (row & [= Ei Es] & Hr)%list_elem_of_fmap.
  apply bool_decide_eq_true. apply (filter_one _ _ o_id id row); auto.
  - pose proof (sound_phase_ids _ (reach_sound _ _ s0_sound R)) as ND. cbn in ND.
    by rewrite <-list_fmap_compose in ND.
  - apply andb_true_intro. split; [by apply Z.eqb_eq|]. apply bool_decide_eq_true. subst. by left.
  - intros x _ [E%Z.eqb_eq _]%andb_prop. done.
Qed.

Lemma approve_plan_ok db id :
  Reach db → (id, OrchAwaitingApproval) ∈ phases (spec_of db) →
  campaign_post db id (approve_orchestration_plan id db).2.
Proof.
  intros R P. unfold approve_orchestration_plan, transition_orchestration_and_tasks.
  rewrite (moved_once db id OrchAwaitingApproval) by done. cbn [snd].
  set (db1 := update_orchestrations db (campaign_in id [OrchAwaitingApproval]) (set_o_status OrchRunning)).
  assert (∀ c, phase_in id [OrchAwaitingApproval] c = in_phase id OrchAwaitingApproval c) as EQ.
  { intros [i ph]. unfold phase_in, in_phase. f_equal. apply bool_decide_ext. cbn. set_solver. }
  assert (spec_of (update_tasks db1 (λ t, in_campaign id t && status_in [TaskProposed] t &&
                (negb false || bool_decide (t_verdict t = Some Pass))) (set_t_status TaskPlanned)) =
    mkSpec (update_where (in_phase id OrchAwaitingApproval) (λ c, (c.1, OrchRunning)) (phases (spec_of db)))
       (update_where (λ k, (k_orchestration k =? id)%Z && bool_decide (k_status k = TaskProposed))
          (to_status TaskPlanned) (cores (spec_of db)))) as E.
  { unfold spec_of at 1. cbn. f_equal.
    - rewrite (fmap_update_where phase _ _ (phase_in id [OrchAwaitingApproval]) (λ c, (c.1, OrchRunning)))
        by done. by apply update_where_ext_both.
    - apply fmap_update_where; [|done]. intros t. rewrite andb_true_r. unfold in_campaign, status_in. cbn.
      f_equal. apply bool_decide_ext. set_solver. }
  split.
  - apply (reach_step _ db); [done|rewrite E; by apply step_approve|].
    apply fresh_update_tasks; [done|]. apply fresh_update_orchestrations; [done|]. by destruct R.
  - rewrite E. apply others_update. intros c [Ei%Z.eqb_eq _]%andb_prop. done.
Qed.

Lemma complete_rollup_ok db id :
  Reach db → (id, OrchVerifying) ∈ phases (spec_of db) →
  campaign_post db id (complete_orchestration_rollup id db).2.
Proof.
  intros R P. unfold complete_orchestration_rollup, transition_orchestration_and_tasks.
  rewrite (moved_once db id OrchVerifying) by done. cbn [snd].
  set (db1 := update_orchestrations db (campaign_in id [OrchVerifying]) (set_o_status OrchAwaitingIntegration)).
  assert (∀ c, phase_in id [OrchVerifying] c = in_phase id OrchVerifying c) as EQ.
  { intros [i ph]. unfold phase_in, in_phase. f_equal. apply bool_decide_ext. cbn. set_solver. }
  assert (spec_of (update_tasks db1 (λ t, in_campaign id t && status_in [TaskReady] t &&
                (negb true || bool_decide (t_verdict t = Some Pass))) (set_t_status TaskAwaitingIntegration)) =
    mkSpec (update_where (in_phase id OrchVerifying) (λ c, (c.1, OrchAwaitingIntegration)) (phases (spec_of db)))
       (update_where (λ k, (k_orchestration k =? id)%Z &&
                           (bool_decide (k_status k = TaskReady) && bool_decide (k_verdict k = Some Pass)))
          (to_status TaskAwaitingIntegration) (cores (spec_of db)))) as E.
  { unfold spec_of at 1. cbn. f_equal.
    - rewrite (fmap_update_where phase _ _ (phase_in id [OrchVerifying])
        (λ c, (c.1, OrchAwaitingIntegration))) by done. by apply update_where_ext_both.
    - apply fmap_update_where; [|done]. intros t. unfold in_campaign, status_in. cbn.
      rewrite <-andb_assoc. do 2 f_equal. apply bool_decide_ext. set_solver. }
  split.
  - apply (reach_step _ db); [done|rewrite E; by apply step_rollup|].
    apply fresh_update_tasks; [done|]. apply fresh_update_orchestrations; [done|]. by destruct R.
  - rewrite E. apply others_update. intros c [Ei%Z.eqb_eq _]%andb_prop. done.
Qed.

Lemma reconcile_rollup_ok db o c vs :
  Reach db → o_id (lo_row o) = c → (c, OrchVerifying) ∈ phases (spec_of db) →
  campaign_ok db c (reconcile_rollup o vs).
Proof.
  intros R <- P. apply ok_bind, ok_statement; [done|]. intros db1 E1. cbn [fst snd].
  assert (Reach db1) as R1 by by eapply reach_tables.
  assert (campaign_post db (o_id (lo_row o)) db1) as HP.
  { apply campaign_post_same; [done|]. by rewrite (tables_spec _ _ E1). }
  assert (∀ g, ok db1 (submit_rollup o vs g) (λ _, campaign_post db (o_id (lo_row o)))) as HS.
  { intros g. eapply ok_mono; [by apply submit_rollup_ok|]. intros _ db2 [R2 E2].
    apply campaign_post_same; [done|]. rewrite E2. by rewrite (tables_spec _ _ E1). }
  destruct (load_rollup_operation_status _ db1).1 as [[]|]; try apply HS; try by apply ok_ret.
  apply ok_bind, ok_statement; [done|]. intros db2 E2. apply ok_ret.
  apply (tables_campaign _ db2); [by rewrite E2|].
  apply complete_rollup_ok; [by apply (reach_tables _ db1)|].
  by rewrite (tables_spec db2 db1 E2), (tables_spec _ _ E1).
Qed.

(** *** Integration *)

(** The first status write of [integrate_task], with no merge under way. *)
Lemma start_merge_ok db v c vs :
  loaded db c OrchIntegrating vs → v ∈ vs → status_of v = TaskAwaitingIntegration →
  is_Some (child_of v) → Forall (λ x, status_of x ≠ TaskMerging) vs →
  ok db (update_task_status v TaskMerging None)
    (λ v' db', task_post db v v' db' ∧ status_of v' = TaskMerging).
Proof.
  intros HL Hv S C NM. destruct (loaded_ready _ _ _ _ _ HL Hv) as [R K P].
  assert (campaign_of v = c) as Ec.
  { pose proof (proj1 (Forall_forall _ _) (loaded_campaign _ _ _ _ HL)) as HC. by apply HC. }
  unfold update_task_status. rewrite bool_decide_false by by rewrite S.
  apply ok_bind, ok_statement; [done|]. intros db1 E1. apply ok_ret. split; [|done].
  apply (task_post_tables _ _ db1); [done|].
  set (db2 := (update_orchestration_task_status (task_id_of v) TaskMerging None db1).2).
  assert (spec_of db2 = mkSpec (phases (spec_of db1))
    (update_where (has_core_id (task_id_of v)) (to_status TaskMerging) (cores (spec_of db1)))) as E2.
  { by apply set_row_spec. }
  assert (core (v_row v) ∈ cores (spec_of db1)) as K1 by by eapply knows_tables.
  split_and!; [|rewrite E2; by apply frame_update| |done|done].
  - apply (reach_step _ db1); [by eapply reach_tables| |].
    + rewrite E2. apply (step_merge _ (core (v_row v))); [done| |done|done|].
      * rewrite (tables_spec _ _ E1). exact P.
      * change (k_orchestration (core (v_row v))) with (campaign_of v). rewrite Ec, (tables_spec _ _ E1).
        by eapply loaded_forall.
    + apply fresh_update_tasks; [done|]. apply (tables_fresh _ _ E1). by destruct R.
  - unfold knows. rewrite E2. cbn [cores]. by apply (update_own_row (spec_of db1) (core (v_row v)) (to_status TaskMerging)).
Qed.

Lemma integrate_task_ok db v c vs approach :
  loaded db c OrchIntegrating vs → v ∈ vs → status_of v = TaskAwaitingIntegration →
  Forall (λ x, status_of x ≠ TaskMerging) vs → task_ok db v (integrate_task v approach).
Proof.
  intros HL Hv S NM. assert (ready db v OrchIntegrating) as RD by by eapply loaded_ready.
  unfold integrate_task. destruct (child_of v) as [child|] eqn:C.
  2:{ apply integration_ok; [done|done|rewrite S; in_list|by left]. }
  apply ok_bind. eapply ok_mono; [eapply start_merge_ok; [done..|by rewrite C|done]|].
  intros v1 db1 [HP1 S1]. assert (ready db1 v1 OrchIntegrating) as RD1 by by eapply ready_post.
  apply (ok_mono _ _ _ (task_post db1 v1)); [|intros v2 db2 HP2; by eapply task_post_trans].
  destruct (bool_decide _); [by apply publish_review_request_ok|].
  eapply task_ok_request; [done|]. intros [r|e] db2 RD2.
  - apply task_ok_ret; apply RD2.
  - apply integration_ok; [done|done|rewrite S1; in_list|by left].
Qed.

Lemma integrate_first_ok db c approach all vs :
  loaded db c OrchIntegrating all → Forall (λ x, status_of x ≠ TaskMerging) all →
  (∀ v, v ∈ vs → v ∈ all) →
  ok db (integrate_first approach vs) (λ r db', Reach db' ∧
    phases (spec_of db') = phases (spec_of db) ∧ (r = None → db' = db)).
Proof.
  intros HL NM. induction vs as [|v vs IH]; intros HI; cbn [integrate_first].
  { apply ok_ret. split_and!; auto. apply HL. }
  destruct (bool_decide_reflect (status_of v = TaskAwaitingIntegration)) as [S|_].
  - apply ok_bind. eapply ok_mono; [eapply integrate_task_ok; [done|apply HI; by left|done|done]|].
    intros v' db' HP. apply ok_ret. split_and!; [apply HP|apply HP|done].
  - apply ok_bind. eapply ok_mono; [apply IH; set_solver|]. intros [l|] db' (R' & P' & N');
      apply ok_ret; split_and!; auto; done.
Qed.

Lemma reconcile_integration_ok db o c :
  Reach db → o_id (lo_row o) = c → (c, OrchIntegrating) ∈ phases (spec_of db) →
  campaign_ok db c (reconcile_integration o).
Proof.
  intros R <- P. set (c := o_id (lo_row o)) in *.
  apply ok_bind, ok_statement; [done|]. intros db1 E1. cbn [fst snd].
  assert (Reach db1) as R1 by by eapply reach_tables.
  apply ok_bind, ok_ok_or; [done|]. intros approach _.
  eapply (load_tasks_ok _ c); [done|rewrite <-(tables_spec _ _ E1) in P; exact P|]. intros vs db2 HL E2.
  apply ok_bind. eapply ok_mono.
  { apply (for_each_loaded _ c OrchIntegrating); [|done]. intros d v RD. apply task_ok_bind.
    - by apply reconcile_review_requested_task_ok.
    - intros v' d' HP. apply reconcile_merging_task_ok; [done|]. by eapply ready_post. }
  intros vs3 db3 [HL3 E3].
  assert (phases (spec_of db3) = phases (spec_of db)) as EP.
  { rewrite E3. by rewrite (tables_spec db2 db1 E2), (tables_spec _ _ E1). }
  destruct (existsb _ vs3) eqn:NM; [apply emit_live_status_ok; by eapply loaded_done|].
  rewrite existsb_false in NM.
  apply ok_bind. eapply ok_mono.
  { eapply (integrate_first_ok _ c approach vs3 vs3); [done| |done].
    apply Forall_forall. intros v Hv. specialize (NM v Hv). by apply bool_decide_eq_false in NM. }
  intros r db4 (R4 & P4 & N4). destruct r as [vs4|].
  { apply emit_live_status_ok, campaign_post_same; [done|congruence]. }
  rewrite (N4 eq_refl). destruct (forallb _ vs3) eqn:HF.
  - apply campaign_ok_same; [done|]. eapply complete_campaign_ok; [done|done|in_list|done].
  - apply emit_live_status_ok. by eapply loaded_done.
Qed.

(** *** Cancellation *)

Definition settled_row (db : Db) (v : SessionOrchestrationTaskRow) : Prop :=
  ∃ k, k ∈ cores (spec_of db) ∧ k_id k = task_id_of v ∧ is_settled (k_status k) = true.

Lemma cancel_task_ok db v :
  ready db v OrchCanceling →
  ok db (cancel_task v) (λ r db', Reach db' ∧ frame (task_id_of v) (spec_of db) (spec_of db') ∧
    (r = None → settled_row db' v)).
Proof.
  intros RD. unfold cancel_task. destruct (is_settled (status_of v)) eqn:S.
  { apply ok_ret. split_and!; [apply RD|apply frame_refl|]. intros _. exists (core (v_row v)).
    split_and!; [apply RD|done|done]. }
  assert (∀ db1, tables db1 = tables db →
    ok db1 (_ ← update_task_status v TaskCanceled None; mret None)
      (λ (r : option str) db', Reach db' ∧ frame (task_id_of v) (spec_of db) (spec_of db') ∧
        (r = None → settled_row db' v))) as HU.
  { intros db1 E1. assert (ready db1 v OrchCanceling) as [R1 K1 P1] by by eapply ready_tables.
    apply ok_bind. eapply ok_mono.
    { eapply update_task_status_ok; [done..|]. by apply move_cancel. }
    intros v' db' [(R' & F' & K' & I' & _) E']. apply ok_ret. split_and!; [done| |].
    - by rewrite <-(tables_spec _ _ E1).
    - intros _. exists (core (v_row v')). split_and!; [done|exact I'|by rewrite E']. }
  destruct (child_session_is_stopped _); [by apply HU|].
  apply ok_bind. apply (ok_mono _ _ _ (λ _ db1, tables db1 = tables db)).
  { destruct (child_of v); [by apply ok_ret|]. apply ok_statement; [apply RD|]. by intros db1 E1. }
  intros child db1 E1. destruct child as [child|]; [|by apply HU].
  apply ok_bind, ok_request. intros [r|e] db2 E2; [apply HU; congruence|].
  assert (ready db2 v OrchCanceling) as RD2 by (eapply ready_tables; [|done]; congruence).
  apply ok_ret. split_and!; [apply RD2| |done].
  rewrite (tables_spec db2 db) by congruence. apply frame_refl.
Qed.

Lemma cancel_loop_ok db c first vs :
  Reach db → (c, OrchCanceling) ∈ phases (spec_of db) → Forall (knows db) vs →
  Forall (λ v, campaign_of v = c) vs → NoDup (task_id_of <$> vs) →
  ok db (cancel_loop first vs) (λ r db', Reach db' ∧
    frames (task_id_of <$> vs) (spec_of db) (spec_of db') ∧
    (r = None → first = None ∧ Forall (settled_row db') vs)).
Proof.
  revert db first. induction vs as [|v vs IH]; intros db first R P K C D; cbn [cancel_loop].
  { apply ok_ret. split_and!; [done|apply frames_nil|]. intros ->. auto. }
  inversion K as [|? ? Kv Ks]; inversion C as [|? ? Cv Cs]; inversion D as [|? ? Dv Ds]; subst.
  apply ok_bind. eapply ok_mono; [apply cancel_task_ok; by constructor|].
  intros r db' (R' & F & HS). eapply ok_mono.
  { apply IH; auto.
    - by rewrite (frame_phases _ _ _ F).
    - rewrite Forall_forall in *. intros x Hx. apply (frame_rest _ _ _ F); [by apply Ks|].
      intros E. apply Dv, list_elem_of_fmap. exists x. split; [|done]. by symmetry. }
  intros r2 db2 (R2 & F2 & HS2). split_and!; [done|by eapply frames_cons|].
  intros Er. destruct (HS2 Er) as [Ef Fs]. destruct first as [e|]; [done|]. split; [done|].
  constructor; [|done]. destruct (HS Ef) as (k & Hk & Ei & Sk). exists k. split_and!; auto.
  apply (frames_rest _ _ _ F2); [done|]. by rewrite Ei.
Qed.

(** The rows of the views are settled, so the campaign is. *)
Lemma settled_tasks db1 db2 c ph vs :
  loaded db1 c ph vs → Reach db2 → frames (task_id_of <$> vs) (spec_of db1) (spec_of db2) →
  Forall (settled_row db2) vs →
  Forall (λ k, is_settled (k_status k) = true) (tasks_of (spec_of db2) c).
Proof.
  intros HL R2 F2 FS. apply Forall_forall. intros k [Hk Ec]%elem_of_tasks_of.
  destruct (idents_campaign _ _ k (frames_idents _ _ _ F2) Hk) as (k0 & Hk0 & Ei & Eo).
  assert (k_id k0 ∈ task_id_of <$> vs) as (v & Ev & Hv)%list_elem_of_fmap.
  { apply (loaded_covers _ _ _ _ HL). apply elem_of_tasks_of. split; [done|]. by rewrite Eo. }
  rewrite Forall_forall in FS. destruct (FS v Hv) as (k1 & Hk1 & Ei1 & S1).
  assert (k = k1) as ->; [|done].
  apply (unique_row (spec_of db2)); [by eapply reach_sound|done|done|]. by rewrite <-Ei, Ev.
Qed.

(** A pass that returns has canceled the campaign with every task settled. *)
Lemma reconcile_cancellation_done db o c :
  Reach db → o_id (lo_row o) = c → (c, OrchCanceling) ∈ phases (spec_of db) →
  ok db (reconcile_cancellation o) (λ _ db', campaign_post db c db' ∧
    (c, OrchCanceled) ∈ phases (spec_of db') ∧
    Forall (λ k, is_settled (k_status k) = true) (tasks_of (spec_of db') c)).
Proof.
  intros R <- P. set (c := o_id (lo_row o)) in *. eapply load_tasks_ok; [done..|]. intros vs db1 HL E1.
  apply ok_bind. eapply ok_mono; [apply (cancel_loop_ok _ c); apply HL|].
  intros r db2 (R2 & F2 & HS2). destruct r as [e|]; [by apply ok_fail|].
  destruct (HS2 eq_refl) as [_ FS].
  assert (Forall (λ k, is_settled (k_status k) = true) (tasks_of (spec_of db2) c)) as HS
    by by eapply settled_tasks.
  assert ((c, OrchCanceling) ∈ phases (spec_of db2)) as P2.
  { rewrite (frames_phases _ _ _ F2). by rewrite (tables_spec _ _ E1). }
  apply ok_bind, ok_statement; [done|]. intros db3 E3.
  apply ok_bind, clear_live_status_ok, ok_emit. split_and!.
  - apply (campaign_post_trans _ _ db2).
    { apply campaign_post_same; [done|]. rewrite (frames_phases _ _ _ F2). by rewrite (tables_spec _ _ E1). }
    apply (tables_campaign _ db3); [done|].
    apply (status_update db3 c OrchCanceling OrchCanceled).
    + by eapply reach_tables.
    + by rewrite (tables_spec _ _ E3).
    + rewrite (tables_spec _ _ E3). by apply phase_canceled.
  - apply (status_update_phase db3 c OrchCanceling). by rewrite (tables_spec _ _ E3).
  - rewrite <-(tables_spec _ _ E3) in HS. done.
Qed.

Lemma reconcile_cancellation_ok db o c :
  Reach db → o_id (lo_row o) = c → (c, OrchCanceling) ∈ phases (spec_of db) →
  campaign_ok db c (reconcile_cancellation o).
Proof. intros. eapply ok_mono; [by apply reconcile_cancellation_done|]. by intros ?? []. Qed.

(** *** Cascade cancellation *)

Lemma cancel_api_task_ok db v :
  ready db v OrchCanceling →
  ok db (when (negb (is_settled (status_of v))) (cancel_api_task v))
    (λ _ db', Reach db' ∧ frame (task_id_of v) (spec_of db) (spec_of db') ∧ settled_row db' v).
Proof.
  intros RD. destruct (is_settled (status_of v)) eqn:S; cbn [negb when].
  { apply ok_ret. split_and!; [apply RD|apply frame_refl|]. exists (core (v_row v)).
    split_and!; [apply RD|done|done]. }
  unfold cancel_api_task. apply ok_bind. apply (ok_mono _ _ _ (λ _ db1, tables db1 = tables db)).
  { destruct (child_of v); [by apply ok_ret|]. apply ok_statement; [apply RD|]. by intros db1 E1. }
  intros child db1 E1. apply ok_bind. apply (ok_mono _ _ _ (λ _ db2, tables db2 = tables db)).
  { destruct child as [child|]; [|by apply ok_ret]. destruct (negb _); [|by apply ok_ret].
    apply ok_bind, ok_request. intros r db2 E2.
    apply ok_bind, ok_question; [|intros a _; apply ok_ret; congruence].
    apply (reach_tables _ db); [congruence|apply RD]. }
  intros u db2 E2. assert (ready db2 v OrchCanceling) as [R2 K2 P2] by by eapply ready_tables.
  set (v' := change_row (λ t, set_t_error None (set_t_status TaskCanceled t)) v).
  apply (ok_row s0 s0_sound db2 v v' _ (λ _, has_task_id (task_id_of v))
    (λ t, set_t_error None (set_t_status TaskCanceled t)) (to_status TaskCanceled) OrchCanceling);
    auto; try done.
  - intros d t _ E. apply Z.eqb_eq. change (k_id (core t) = k_id (core (v_row v))). by rewrite E.
  - by apply move_cancel.
  - intros d db' _ _ (R' & F' & K' & _). split_and!; [done| |].
    + by rewrite <-(tables_spec _ _ E2).
    + exists (core (v_row v')). by split_and!.
Qed.

Lemma cancel_api_tasks_ok db c vs :
  Reach db → (c, OrchCanceling) ∈ phases (spec_of db) → Forall (knows db) vs →
  Forall (λ v, campaign_of v = c) vs → NoDup (task_id_of <$> vs) →
  ok db (cancel_api_tasks vs) (λ _ db', Reach db' ∧
    frames (task_id_of <$> vs) (spec_of db) (spec_of db') ∧ Forall (settled_row db') vs).
Proof.
  revert db. induction vs as [|v vs IH]; intros db R P K C D; cbn [cancel_api_tasks].
  { apply ok_ret. split_and!; [done|apply frames_nil|done]. }
  inversion K as [|? ? Kv Ks]; inversion C as [|? ? Cv Cs]; inversion D as [|? ? Dv Ds]; subst.
  apply ok_bind. eapply ok_mono; [apply cancel_api_task_ok; by constructor|].
  intros u db' (R' & F & k & Hk & Ei & Sk). eapply ok_mono.
  { apply IH; auto.
    - by rewrite (frame_phases _ _ _ F).
    - rewrite Forall_forall in *. intros x Hx. apply (frame_rest _ _ _ F); [by apply Ks|].
      intros E. apply Dv, list_elem_of_fmap. exists x. split; [|done]. by symmetry. }
  intros u2 db2 (R2 & F2 & HS2). split_and!; [done|by eapply frames_cons|].
  constructor; [|done]. exists k. split_and!; auto.
  apply (frames_rest _ _ _ F2); [done|]. by rewrite Ei.
Qed.

Lemma begin_cancellation_update db id :
  Reach db → campaign_post db id (begin_orchestration_cancellation id db).2.
Proof.
  intros R. apply (phase_update _ _ _ OrchCanceling); [done|done|].
  intros ph Hph _. by apply phase_cancel.
Qed.

(** Once begun, the campaign is in [Canceling]. *)
Lemma begin_cancellation_phase db id :
  (begin_orchestration_cancellation id db).1 = true →
  (id, OrchCanceling) ∈ phases (spec_of (begin_orchestration_cancellation id db).2).
Proof.
  unfold begin_orchestration_cancellation. cbv zeta. cbn [fst snd].
  intros E%bool_decide_eq_true. destruct (List.filter _ _) as [|o os] eqn:F; [done|].
  assert (o ∈ List.filter (campaign_in id active_statuses) (db_orchestrations db)) as Ho
    by (rewrite F; by left).
  apply elem_of_filter_b in Ho as [P Ho]. pose proof P as [Ei%Z.eqb_eq _]%andb_prop.
  apply list_elem_of_fmap. exists (set_o_status OrchCanceling o). split; [by unfold phase; rewrite <-Ei|].
  apply elem_of_update_where. exists o. by rewrite P.
Qed.

(** *** The whole pass *)

Lemma reconcile_campaign_ok db o :
  Reach db → phase (lo_row o) ∈ phases (spec_of db) →
  campaign_ok db (o_id (lo_row o)) (reconcile_campaign o).
Proof.
  intros R P. unfold reconcile_campaign. unfold phase in P. destruct (o_status (lo_row o)).
  all: try (apply ok_ret; by apply campaign_post_same).
  all: try by apply reconcile_parked_plan_ok.
  all: try by apply reconcile_awaiting_integration_ok.
  all: try by apply reconcile_orchestration_ok.
  all: try by apply reconcile_integration_ok.
  all: try by apply reconcile_cancellation_ok.
  eapply load_tasks_ok; [done..|]. intros vs db1 HL E1.
  apply campaign_ok_same; [by rewrite (tables_spec _ _ E1)|].
  apply reconcile_rollup_ok; [apply HL|done|apply HL].
Qed.

Lemma reconcile_campaigns_ok db os :
  Reach db → Forall (λ o, phase (lo_row o) ∈ phases (spec_of db)) os →
  NoDup ((λ o, o_id (lo_row o)) <$> os) → ok db (reconcile_campaigns os) (λ _, Reach).
Proof.
  revert db. induction os as [|o os IH]; intros db R P D; cbn [reconcile_campaigns]; [by apply ok_ret|].
  inversion P as [|? ? Po Ps]; inversion D as [|? ? Do Ds]; subst.
  apply ok_bind. eapply ok_mono; [by apply reconcile_campaign_ok|]. intros _ db' [R' O'].
  apply IH; auto. rewrite Forall_forall in *. intros x Hx.
  apply (O' (o_id (lo_row x)) (o_status (lo_row x))); [|by apply Ps].
  intros E. apply Do, list_elem_of_fmap. by exists x.
Qed.

Lemma reconcile_once_ok db : Reach db → ok db reconcile_once (λ _, Reach).
Proof.
  intros R. apply ok_bind, ok_statement; [done|]. intros db1 E1. cbn [fst snd].
  assert (Reach db1) as R1 by by eapply reach_tables.
  set (os := (load_active_orchestrations db1).1).
  assert (∀ o, o ∈ os → lo_row o ∈ db_orchestrations db1) as HO.
  { intros o. unfold os. cbn. rewrite sort_by_elem, list_elem_of_omap.
    intros (row & Hrow & E). apply elem_of_filter_b in Hrow as [_ Hrow].
    unfold load_row in E. destruct (find_session _ _); cbn in E; [|done]. by injection E as <-. }
  apply reconcile_campaigns_ok; [done| |].
  - apply Forall_forall. intros o Ho. by apply list_elem_of_fmap_2, HO.
  - unfold os. cbn. rewrite sort_by_perm. apply (NoDup_omap_key _ _ o_id).
    + intros row o E. unfold load_row in E. destruct (find_session _ _); cbn in E; [|done].
      by injection E as <-.
    + apply NoDup_fmap_filter.
      pose proof (sound_phase_ids _ (reach_sound _ _ s0_sound R1)) as ND. cbn in ND.
      by rewrite <-list_fmap_compose in ND.
Qed.
End campaigns.
