(* ===== verification/CampaignTurns.v ===== *)
(** * Controller turns and user actions refine the campaign machine

    The entry points of [Coordinator] other than the reconciliation pass, and
    the runs of a campaign: any sequence of passes, controller turns, user
    actions and changes outside the campaign tables. *)
From stdpp Require Import gmap relations.
From S2P Require Import Prelude Contracts Agent Lifecycle Orchestration Prompt Review Session.
From S2P Require Import Protocol CampaignStore CampaignText Coordinator CampaignSpec CampaignLaws.

Definition unmerged (s : Spec) (c : Z) : Prop :=
  Forall (λ k, k_status k ≠ TaskMerging) (tasks_of s c).

Section turns.
Context `{Host} `{!QuietHost} `{JsonText} `{UnicodeAlnum} `{Templates} (s0 : Spec) (s0_sound : Sound s0).

Local Abbreviation Reach := (Reach s0).
Local Abbreviation ok := (ok s0).

(** What planning in campaign [c] leaves behind. *)
Record planned (db : Db) (c : Z) (db' : Db) : Prop := mkPlanned {
  planned_reach : Reach db';
  planned_phases : phases (spec_of db') = phases (spec_of db);
  planned_idents x : x ∈ idents (spec_of db) → x ∈ idents (spec_of db');
  planned_unmerged : unmerged (spec_of db) c → unmerged (spec_of db') c
}.

Lemma planned_tables db c db' : tables db' = tables db → Reach db → planned db c db'.
Proof.
  intros E R. constructor; rewrite ?(tables_spec _ _ E); auto. by eapply reach_tables.
Qed.

Lemma planned_trans db c db1 db2 : planned db c db1 → planned db1 c db2 → planned db c db2.
Proof. intros [R P I U] [R' P' I' U']. constructor; auto. congruence. Qed.

(** Moves of the tasks that satisfy [p], none of which starts a merge. *)
Lemma move_rows db db' c p f p' g :
  Reach db → tables db' = tables (update_tasks db p f) →
  (∀ t, t ∈ db_tasks db → p t = p' (core t)) → (∀ t, core (f t) = g (core t)) → keeps_ident g →
  (∀ k, k ∈ cores (spec_of db) → p' k = true →
     ∃ ph, (k_orchestration k, ph) ∈ phases (spec_of db) ∧ task_move ph k (g k)) →
  planned db c db'.
Proof.
  intros R T P F G M.
  assert (spec_of (update_tasks db p f) =
    mkSpec (phases (spec_of db)) (update_where p' g (cores (spec_of db)))) as E.
  { unfold spec_of. cbn. f_equal.
    rewrite (update_where_ext p (λ t, p' (core t))) by done. by apply fmap_update_where. }
  pose proof (tables_spec _ _ T) as E'. rewrite E in E'. constructor.
  - apply (reach_tables _ _ _ T). apply (reach_step _ db); [done|rewrite E; by apply step_tasks|].
    apply fresh_update_tasks; [|by destruct R]. intros t. destruct (G (core t)) as [Ei _].
    by rewrite <-F in Ei.
  - by rewrite E'.
  - intros x Hx. rewrite E'. unfold idents. cbn [cores]. rewrite update_where_fmap; [done|].
    intros k _ _. by destruct (G k) as [-> ->].
  - unfold unmerged. rewrite E'. intros U. apply Forall_forall.
    intros k' [Hk' Ec]%elem_of_tasks_of. cbn [cores] in Hk'.
    apply elem_of_update_where in Hk' as (k & Hk & ->).
    pose proof (proj1 (Forall_forall _ _) U) as U'.
    assert (k_orchestration k = c) as Eo.
    { destruct (p' k); [|done]. destruct (G k) as [_ Eo]. congruence. }
    assert (k_status k ≠ TaskMerging) as N by (apply U', elem_of_tasks_of; auto).
    destruct (p' k) eqn:Pk; [|done]. destruct (M k Hk Pk) as (ph & _ & Mk).
    intros S. by apply N, (task_move_merging _ _ _ Mk).
Qed.

(** *** Planning *)

Lemma upsert_ok db task c ph (Q : Z → Db → Prop) :
  Reach db → p_orchestration task = c → (c, ph) ∈ phases (spec_of db) → ph ∈ open_phases →
  (∀ id db', planned db c db' →
     (∀ k, k ∈ cores (spec_of db') → k_id k = id → k_orchestration k = c ∧ k_status k = TaskPlanned) →
     Q id db') →
  ok db (statement (upsert_orchestration_task task)) Q.
Proof.
  intros R Ec P O HQ. apply ok_statement; [done|]. intros db1 E1.
  assert (Reach db1) as R1 by by eapply reach_tables.
  assert ((c, ph) ∈ phases (spec_of db1)) as P1 by by rewrite (tables_spec _ _ E1).
  assert (∀ db', planned db1 c db' → planned db c db') as HT.
  { intros db' HP. eapply planned_trans; [by apply planned_tables|done]. }
  unfold upsert_orchestration_task. destruct (list_find_b _ _) as [t0|] eqn:F; cbn [fst snd].
  - apply list_find_b_Some in F as [Ht0 K0].
    set (hit k := existsb (λ t, same_key task t && (t_id t =? k_id k)%Z) (db_tasks db1)).
    assert (∀ t, t ∈ db_tasks db1 → same_key task t = hit (core t)) as HH.
    { intros t Ht. unfold hit. destruct (same_key task t) eqn:Kt.
      - symmetry. apply existsb_true. exists t. split; [done|]. cbn. by rewrite Kt, Z.eqb_refl.
      - symmetry. apply existsb_false. intros x Hx.
        destruct (same_key task x) eqn:Kx; [|done]. cbn. apply Z.eqb_neq. intros Ei.
        assert (x = t) as ->; [|congruence].
        apply (NoDup_unique t_id (db_tasks db1)); auto. by apply (task_rows_nodup s0 s0_sound). }
    assert (∀ t, same_key task t = true → t_orchestration t = c) as HC.
    { intros t [C%Z.eqb_eq _]%andb_prop. congruence. }
    set (db2 := unlink_sessions (update_tasks db1 (same_key task) (replan task)) (t_id t0)).
    set (g k := mkCore (k_id k) (k_orchestration k) (p_kind task) TaskPlanned None None 0).
    assert (planned db1 c db2) as HP.
    { apply (move_rows _ _ _ (same_key task) (replan task) hit g); auto; [done|].
      intros k Hk Hh. exists ph. apply list_elem_of_fmap in Hk as (t & -> & Ht).
      rewrite <-HH in Hh by done. split; [|by apply move_replan]. cbn. by rewrite (HC t Hh). }
    apply HQ; [by apply HT|]. intros k Hk Ei.
    assert (core (replan task t0) ∈ cores (spec_of db2)) as K2.
    { apply list_elem_of_fmap_2. cbn. apply elem_of_update_where. exists t0. by rewrite K0. }
    assert (k = core (replan task t0)) as ->.
    { apply (unique_row (spec_of db2)); auto. apply (reach_sound s0); [done|apply HP]. }
    split; [|done]. by apply HC.
  - set (id := (db_last_task db1 + 1)%Z).
    match goal with |- Q id ?d => set (db2 := d) end.
    assert (spec_of db2 = mkSpec (phases (spec_of db1))
      (cores (spec_of db1) ++ [mkCore id c (p_kind task) TaskPlanned None None 0])) as E2.
    { unfold spec_of. cbn. f_equal. rewrite fmap_app. cbn. unfold core at 2. cbn. by rewrite Ec. }
    destruct R1 as [R1 [F1 F2]].
    assert (Reach db2) as R2.
    { split.
      - eapply rtc_r; [done|]. rewrite E2. eapply step_plan; [|done|done].
        apply Forall_fmap. eapply Forall_impl; [apply F2|]. cbn. intros t. unfold id. lia.
      - split; [done|]. cbn. apply Forall_app. split; [|apply Forall_singleton; cbn; lia].
        eapply Forall_impl; [apply F2|]. cbn. intros t. lia. }
    apply HQ.
    + apply HT. constructor; [done|by rewrite E2| |].
      * intros x Hx. rewrite E2. unfold idents. cbn. rewrite fmap_app. apply elem_of_app. by left.
      * unfold unmerged, tasks_of. rewrite E2. cbn [cores]. rewrite List.filter_app, Forall_app.
        intros U. split; [done|]. cbn. destruct (_ =? _)%Z; repeat constructor. done.
    + intros k. rewrite E2. cbn [cores]. intros [Hk|Hk]%elem_of_app Ei.
      * exfalso. apply list_elem_of_fmap in Hk as (t & -> & Ht).
        rewrite Forall_forall in F2. specialize (F2 t Ht). cbn in Ei. unfold id in Ei. lia.
      * apply list_elem_of_singleton in Hk as ->. done.
Qed.

Lemma persist_proposed_subtask_ok db c pos sub ph :
  Reach db → (c, ph) ∈ phases (spec_of db) → ph ∈ open_phases →
  ok db (persist_proposed_subtask c pos sub) (λ _, planned db c).
Proof.
  intros R P O. apply ok_bind. eapply upsert_ok; [done|done|done|done|]. intros id db1 HP HI.
  apply ok_statement; [apply HP|]. intros db2 E2. cbn [snd update_orchestration_task_status].
  apply (planned_trans _ _ db2).
  { eapply planned_trans; [done|]. apply planned_tables; [done|apply HP]. }
  apply (move_rows _ _ _ (has_task_id id) (λ t, set_t_error None (set_t_status TaskProposed t))
    (has_core_id id) (to_status TaskProposed)); try done.
  - eapply reach_tables; [done|apply HP].
  - intros k. rewrite (tables_spec _ _ E2). intros Hk Ei%Z.eqb_eq. exists ph.
    destruct (HI k Hk Ei) as [Ec S]. rewrite Ec, (planned_phases _ _ _ HP). split; [done|].
    by apply move_propose.
Qed.

(** *** Follow-up work *)

(** A task of the campaign, whatever its row holds now. *)
Definition member (db : Db) (c : Z) (v : SessionOrchestrationTaskRow) : Prop :=
  (task_id_of v, c) ∈ idents (spec_of db).

Lemma member_campaign db c v k :
  Reach db → member db c v → k ∈ cores (spec_of db) → k_id k = task_id_of v → k_orchestration k = c.
Proof.
  intros R (k' & [= Ei Ec] & Hk')%list_elem_of_fmap Hk E.
  assert (k = k') as ->; [|done].
  apply (unique_row (spec_of db)); [by eapply reach_sound|done|done|congruence].
Qed.

Lemma implementation_of db k ph next :
  Reach db → k ∈ cores (spec_of db) → (k_orchestration k, ph) ∈ phases (spec_of db) →
  k_status k = next → next ∉ research_statuses → k_kind k = Implementation.
Proof.
  intros R Hk P S N. destruct (k_kind k) eqn:K; [done|].
  pose proof (sound_research _ _ (sound_each _ (reach_sound _ _ s0_sound R) _ _ Hk P) K) as HR.
  rewrite S in HR. done.
Qed.

Lemma continuation_ok db c ph v prompt criteria areas :
  Reach db → member db c v → (c, ph) ∈ phases (spec_of db) → ph ∈ open_phases →
  planned db c (queue_orchestration_continuation (task_id_of v) prompt criteria areas db).2.
Proof.
  intros R HM P O. unfold queue_orchestration_continuation. cbv zeta. cbn [snd].
  set (p t := has_task_id (task_id_of v) t && bool_decide (is_Some (t_child t)) &&
                status_in [TaskReady; TaskAwaitingIntegration; TaskIntegrationFailed] t).
  set (f t := set_t_error None (set_t_verdict None None (set_t_summary None
      (set_t_status TaskContinuationPending (set_t_areas_check (L"[]") None (set_t_scope criteria areas
         (set_t_continuation (Some prompt) 0 t))))))).
  apply (move_rows _ _ _ p f
    (λ k, has_core_id (task_id_of v) k && bool_decide (is_Some (k_child k)) &&
          bool_decide (k_status k ∈ [TaskReady; TaskAwaitingIntegration; TaskIntegrationFailed]))
    (λ k, to_status TaskContinuationPending (to_verdict None (to_iteration 0 k)))); try done.
  - destruct (affects_one _ _); [by rewrite tables_clear_child_review|done].
  - intros k Hk [[Ei%Z.eqb_eq C%bool_decide_eq_true]%andb_prop S%bool_decide_eq_true]%andb_prop.
    exists ph. pose proof (member_campaign _ _ _ _ R HM Hk Ei) as Ec. rewrite Ec. split; [done|].
    apply move_continue; [done| |done|done].
    eapply implementation_of; [done|done|by rewrite Ec|done|].
    intros HR. split_in; rewrite S in HR; guards.
Qed.

Lemma route_existing_ok db c ph response v sub :
  Reach db → member db c v → (c, ph) ∈ phases (spec_of db) → ph ∈ open_phases →
  ok db (route_existing c response v sub) (λ _, planned db c).
Proof.
  intros R HM P O. unfold route_existing.
  destruct (bool_decide _); [by apply ok_ret, planned_tables|].
  destruct (bool_decide _).
  { apply ok_bind. eapply ok_mono; [by eapply persist_proposed_subtask_ok|]. intros u db' HP.
    by apply ok_ret. }
  apply ok_bind, ok_statement; [done|]. intros db1 E1.
  assert (planned db c (queue_orchestration_continuation (task_id_of v) (sub_prompt sub)
    (json_list (sub_criteria sub)) (json_list (subtask_touched_areas sub)) db1).2) as HP.
  { eapply planned_trans; [by apply planned_tables|]. eapply continuation_ok; [| | |done].
    - by eapply reach_tables.
    - unfold member. by rewrite (tables_spec _ _ E1).
    - by rewrite (tables_spec _ _ E1). }
  match goal with |- context [if ?b then _ else _] => destruct b end; by apply ok_ret.
Qed.

Lemma existing_by_key_in vs key v : existing_by_key vs key = Some v → v ∈ vs.
Proof. intros [Hv _]%list_find_b_Some. by apply list_elem_of_In, in_rev, list_elem_of_In. Qed.

Lemma member_planned db c v db' : planned db c db' → member db c v → member db' c v.
Proof. intros HP. apply HP. Qed.

Lemma route_loop_ok db c ph next vs response routed n items :
  Reach db → (c, ph) ∈ phases (spec_of db) → ph ∈ open_phases → Forall (member db c) vs →
  ok db (route_loop c next vs response routed n items) (λ _, planned db c).
Proof.
  intros R P O. revert db R P response routed n.
  induction items as [|sub items IH]; intros db R P response routed n HM; cbn [route_loop].
  { by apply ok_ret, planned_tables. }
  assert (∀ db' response' routed' n', planned db c db' →
    ok db' (route_loop c next vs response' routed' n' items) (λ _, planned db c)) as HI.
  { intros db' response' routed' n' HP. eapply ok_mono.
    - apply IH; [apply HP|by rewrite (planned_phases _ _ _ HP)|].
      eapply Forall_impl; [apply HM|]. intros v. by apply member_planned.
    - intros u db2 HP2. by eapply planned_trans. }
  destruct (existing_by_key vs (sub_key sub)) as [v|] eqn:X.
  - apply ok_bind. eapply ok_mono.
    { eapply (route_existing_ok _ c ph); [done| |done|done].
      rewrite Forall_forall in HM. by eapply HM, existing_by_key_in. }
    intros [response' [[blocked routed'] inc]] db' HP. cbn.
    destruct blocked; [by apply ok_ret|auto].
  - apply ok_bind. eapply ok_mono; [by eapply persist_proposed_subtask_ok|].
    intros u db' HP. auto.
Qed.

Lemma reset_ok db c ph :
  Reach db → (c, ph) ∈ phases (spec_of db) → ph ∈ open_phases →
  planned db c (reset_orchestration_verification c db).2.
Proof.
  intros R P O. apply (move_rows _ _ _
    (λ t, in_campaign c t && status_in [TaskAwaitingIntegration] t)
    (λ t, set_t_verdict None None (set_t_status TaskReady t))
    (λ k, (k_orchestration k =? c)%Z && bool_decide (k_status k ∈ [TaskAwaitingIntegration]))
    (λ k, to_status TaskReady (to_verdict None k))); try done.
  intros k Hk [Ec%Z.eqb_eq S%bool_decide_eq_true]%andb_prop. apply list_elem_of_singleton in S.
  exists ph. rewrite Ec. split; [done|]. apply move_unverify; [done| |done].
  eapply implementation_of; [done|done|by rewrite Ec|done|]. intros HR. guards.
Qed.

(** A read leaves the tables as they were. *)
Lemma load_auto_approve_ok db items (Q : bool → Db → Prop) :
  (∀ b db', tables db' = tables db → Q b db') → ok db (should_auto_approve_research items) Q.
Proof.
  intros HQ. unfold should_auto_approve_research. destruct (_ && _); [|apply ok_ret; auto].
  apply ok_bind, ok_query. intros db1 E1. split; [intros e|]; apply ok_ret; auto.
Qed.

Lemma load_max_parallelism_ok db (Q : Z → Db → Prop) :
  (∀ n db', tables db' = tables db → Q n db') → ok db load_max_parallelism Q.
Proof. intros HQ. apply ok_bind, ok_query. intros db1 E1. split; [intros e|]; apply ok_ret; auto. Qed.

(** The rest of [route_active_subtasks], after the loop. *)
Lemma reopen_ok db c ph n auto (response : AgentResponse) :
  Reach db → (c, ph) ∈ phases (spec_of db) → ph ∈ follow_up_phases → unmerged (spec_of db) c →
  ok db (_ ← statement (update_orchestration_status c
                          (if (n =? 0)%Z then OrchRunning else OrchAwaitingApproval));
         _ ← when ((0 <? n)%Z && auto) (_ ← statement (approve_orchestration_plan c); mret tt);
         mret response) (λ _, Reach).
Proof.
  intros R P F U. apply ok_bind, ok_statement; [done|]. intros db1 E1.
  set (next := if (n =? 0)%Z then OrchRunning else OrchAwaitingApproval).
  assert (Reach (update_orchestration_status c next db1).2) as R2.
  { eapply (status_update s0 s0_sound _ _ ph).
    - by eapply reach_tables.
    - by rewrite (tables_spec _ _ E1).
    - rewrite (tables_spec _ _ E1). apply phase_reopen; [done| |done].
      unfold next. destruct (_ =? _)%Z; in_list. }
  apply ok_bind, ok_when; [|by apply ok_ret].
  intros [Hn%Z.ltb_lt _]%andb_prop. apply ok_bind, ok_statement; [done|]. intros db2 E2.
  apply ok_ret, ok_ret. apply (approve_plan_ok s0 s0_sound); [by eapply reach_tables|].
  rewrite (tables_spec _ _ E2). unfold next. destruct (Z.eqb_spec n 0); [lia|].
  eapply status_update_phase. by rewrite (tables_spec _ _ E1).
Qed.

Lemma route_active_subtasks_ok db o response :
  Reach db → phase (lo_row o) ∈ phases (spec_of db) → o_status (lo_row o) ∈ follow_up_phases →
  ok db (route_active_subtasks o response) (λ _, Reach).
Proof.
  intros R P F. unfold phase in P. set (c := o_id (lo_row o)) in *. set (ph := o_status (lo_row o)) in *.
  assert (ph ∈ open_phases) as O by (by right).
  eapply (load_tasks_ok _ s0_sound _ c ph); [done|done|]. intros vs db1 HL E1.
  destruct (active_subtask_validation_question _ _ _) as [q|] eqn:V; [apply ok_ret; apply HL|].
  assert (unmerged (spec_of db1) c) as U.
  { unfold active_subtask_validation_question in V. destruct (validate_items _ _); [|done].
    fold ph in V.
    destruct (bool_decide_reflect (ph = OrchIntegrating)) as [Ei|Ni].
    - destruct (existsb _ vs) eqn:X; [done|]. rewrite existsb_false in X.
      eapply loaded_forall; [done..|]. apply Forall_forall. intros v Hv.
      specialize (X v Hv). by apply bool_decide_eq_false in X.
    - apply Forall_forall. intros k [Hk Ec]%elem_of_tasks_of S.
      pose proof (reach_sound _ _ s0_sound (loaded_reach _ _ _ _ _ HL)) as SO.
      assert ((k_orchestration k, ph) ∈ phases (spec_of db1)) as Pk by (rewrite Ec; apply HL).
      pose proof (sound_merging _ _ (sound_each _ SO k ph Hk Pk) S) as HM. guards. }
  apply ok_bind, load_auto_approve_ok. intros auto_approve db2 E2.
  assert (tables db2 = tables db1) as E21 by done.
  apply ok_bind. eapply ok_mono.
  { apply (route_loop_ok _ c ph).
    - eapply reach_tables; [done|apply HL].
    - rewrite (tables_spec _ _ E2). apply HL.
    - done.
    - apply Forall_forall. intros v Hv. unfold member. rewrite (tables_spec _ _ E2).
      destruct (loaded_ready _ _ _ _ _ _ HL Hv) as [_ K _]. apply list_elem_of_fmap.
      exists (core (v_row v)). split; [|done].
      pose proof (proj1 (Forall_forall _ _) (loaded_campaign _ _ _ _ _ HL) v Hv) as Ec.
      unfold campaign_of in Ec. cbn. by rewrite Ec. }
  intros [response' outcome] db3 HP. cbn.
  destruct outcome as [[[] n]|]; [|apply ok_ret; apply HP..].
  assert (phases (spec_of db3) = phases (spec_of db1)) as EP.
  { rewrite (planned_phases _ _ _ HP). by rewrite (tables_spec _ _ E2). }
  assert ((c, ph) ∈ phases (spec_of db3)) as P3 by (rewrite EP; apply HL).
  assert (unmerged (spec_of db3) c) as U3.
  { apply HP. by rewrite (tables_spec _ _ E2). }
  apply ok_bind, ok_when.
  - intros _. apply ok_statement; [apply HP|]. intros db4 E4.
    assert (planned db3 c (reset_orchestration_verification c db4).2) as HP4.
    { eapply planned_trans; [apply planned_tables; [done|apply HP]|].
      eapply (reset_ok _ c ph); [|by rewrite (tables_spec _ _ E4)|done].
      eapply reach_tables; [done|apply HP]. }
    pose proof (planned_phases _ _ _ HP4) as X. rewrite <-X in P3.
    eapply (reopen_ok _ c ph); [apply HP4|exact P3|done|by apply HP4].
  - eapply (reopen_ok _ c ph); [apply HP|done|done|done].
Qed.

(** *** Controller responses *)

Lemma handle_active_ok db o response :
  Reach db → phase (lo_row o) ∈ phases (spec_of db) →
  ok db (handle_active_controller_plan o response) (λ _, Reach).
Proof.
  intros R P. unfold handle_active_controller_plan. cbv zeta.
  destruct (bool_decide_reflect (o_status (lo_row o) ∈
    [OrchRunning; OrchVerifying; OrchAwaitingIntegration; OrchIntegrating])) as [F|_]; cbn [andb].
  - destruct (negb _); cbn [andb].
    + apply ok_bind. eapply ok_mono; [by apply route_active_subtasks_ok|]. intros u db' R'. by apply ok_ret.
    + rewrite andb_false_r. by apply ok_ret.
  - destruct (bool_decide_reflect (o_status (lo_row o) = OrchAwaitingApproval)) as [S|_]; cbn [andb];
      [|by apply ok_ret].
    destruct (negb _); [|by apply ok_ret].
    apply ok_bind, ok_statement; [done|]. intros db1 E1. apply ok_ret.
    unfold phase in P. rewrite S in P.
    eapply (status_update s0 s0_sound _ _ OrchAwaitingApproval); [by eapply reach_tables| |constructor].
    by rewrite (tables_spec _ _ E1).
Qed.

Lemma verdict_ok db c key pass reason :
  Reach db → planned db c (record_orchestration_verdict c key pass reason db).2.
Proof.
  intros R. unfold record_orchestration_verdict. cbv zeta. cbn [snd].
  destruct (campaign_is db c [OrchVerifying]) eqn:CV.
  2:{ apply planned_tables; [|done]. unfold update_tasks, tables. cbn. do 3 f_equal.
      apply update_where_none, existsb_false. intros t _. by rewrite andb_false_r. }
  apply existsb_true in CV as (o & Ho & [Eo%Z.eqb_eq So%bool_decide_eq_true]%andb_prop).
  apply list_elem_of_singleton in So.
  assert ((c, OrchVerifying) ∈ phases (spec_of db)) as P.
  { apply list_elem_of_fmap. exists o. unfold phase. by rewrite Eo, So. }
  set (p t := in_campaign c t && str_eqb (t_key t) key && status_in [TaskReady; TaskReported] t && true).
  set (hit k := existsb (λ t, p t && (t_id t =? k_id k)%Z) (db_tasks db)).
  apply (move_rows _ _ _ p (set_t_verdict (Some (if pass then Pass else Flag)) (Some reason)) hit
    (to_verdict (Some (if pass then Pass else Flag)))); try done.
  - intros t Ht. unfold hit. destruct (p t) eqn:Pt.
    + symmetry. apply existsb_true. exists t. split; [done|]. cbn. by rewrite Pt, Z.eqb_refl.
    + symmetry. apply existsb_false. intros x Hx. destruct (p x) eqn:Px; [|done]. cbn.
      apply Z.eqb_neq. intros Ei. assert (x = t) as ->; [|congruence].
      apply (NoDup_unique t_id (db_tasks db)); auto. by apply (task_rows_nodup s0 s0_sound).
  - intros k Hk (t & Ht & [Pt Ei%Z.eqb_eq]%andb_prop)%existsb_true.
    assert (k = core t) as ->.
    { apply (unique_row (spec_of db)); [by eapply reach_sound|done|by apply list_elem_of_fmap_2|done]. }
    unfold p in Pt. apply andb_prop in Pt as [[[C%Z.eqb_eq _]%andb_prop S%bool_decide_eq_true]%andb_prop _].
    exists OrchVerifying. cbn. rewrite C. split; [done|]. by apply move_verdict.
Qed.

Lemma record_verdicts_ok db c keys items :
  Reach db → ok db (record_verdicts c keys items) (λ _ db', Reach db' ∧
    phases (spec_of db') = phases (spec_of db)).
Proof.
  revert db keys. induction items as [|item items IH]; intros db keys R; cbn [record_verdicts].
  { by apply ok_ret. }
  destruct (_ || _); [by apply IH|]. apply ok_bind, ok_statement; [done|]. intros db1 E1.
  pose proof (verdict_ok db1 c (trim (verdict_key item)) (bool_decide (verdict item = Pass))
    (trim (verdict_reason item)) (reach_tables _ _ _ E1 R)) as HP.
  match goal with |- context [if ?b then _ else _] => destruct b end.
  - eapply ok_mono; [apply IH; apply HP|]. intros u db2 [R2 E2]. split; [done|].
    rewrite E2. rewrite <-(tables_spec _ _ E1). apply HP.
  - apply ok_fail. apply HP.
Qed.

Lemma persist_plan_loop_ok db c pos items :
  Reach db → (c, OrchAwaitingApproval) ∈ phases (spec_of db) →
  ok db (persist_plan_loop c pos items) (λ _ db', Reach db' ∧
    phases (spec_of db') = phases (spec_of db)).
Proof.
  revert db pos. induction items as [|sub items IH]; intros db pos R P; cbn [persist_plan_loop].
  { by apply ok_ret. }
  apply ok_bind. eapply ok_mono; [eapply persist_proposed_subtask_ok; [done|done|in_list]|].
  intros u db1 HP. eapply ok_mono.
  { apply IH; [apply HP|]. by rewrite (planned_phases _ _ _ HP). }
  intros u2 db2 [R2 E2]. split; [done|]. rewrite E2. apply HP.
Qed.

(** From the chosen campaign on: the plan is parked and filled in. *)
Lemma park_plan_ok db c ph goal items auto (response : AgentResponse) :
  Reach db → (c, ph) ∈ phases (spec_of db) → ph ∈ [OrchAwaitingApproval; OrchDone] →
  ok db (_ ← statement (update_orchestration_status c OrchAwaitingApproval);
         parallelism ← load_max_parallelism;
         _ ← statement (update_orchestration_plan c goal parallelism);
         _ ← persist_plan_loop c 0 items;
         _ ← when auto (_ ← statement (approve_orchestration_plan c); mret tt);
         mret response) (λ _, Reach).
Proof.
  intros R P HO. apply ok_bind, ok_statement; [done|]. intros db1 E1.
  assert (Reach (update_orchestration_status c OrchAwaitingApproval db1).2) as R2.
  { eapply (status_update s0 s0_sound _ _ ph); [by eapply reach_tables|by rewrite (tables_spec _ _ E1)|].
    split_in; subst; [apply phase_same|apply phase_retry]. }
  assert ((c, OrchAwaitingApproval) ∈ phases (spec_of (update_orchestration_status c OrchAwaitingApproval db1).2)) as P2.
  { eapply status_update_phase. by rewrite (tables_spec _ _ E1). }
  apply ok_bind, load_max_parallelism_ok. intros n db3 E3.
  assert (Reach db3) as R3 by by eapply reach_tables.
  apply ok_bind, ok_statement; [done|]. intros db4 E4.
  assert (spec_of (update_orchestration_plan c goal n db4).2 = spec_of db4) as E5
    by by apply update_orchestrations_same.
  assert (Reach (update_orchestration_plan c goal n db4).2) as R5.
  { eapply spec_same_reach; [done| |by eapply reach_tables].
    by apply fresh_update_orchestrations. }
  assert ((c, OrchAwaitingApproval) ∈ phases (spec_of (update_orchestration_plan c goal n db4).2)) as P5.
  { rewrite E5, (tables_spec _ _ E4), (tables_spec _ _ E3). done. }
  apply ok_bind. eapply ok_mono; [by apply persist_plan_loop_ok|]. intros u db6 [R6 E6].
  apply ok_bind, ok_when; [|by apply ok_ret]. intros _.
  apply ok_bind, ok_statement; [done|]. intros db7 E7. apply ok_ret, ok_ret.
  apply (approve_plan_ok s0 s0_sound); [by eapply reach_tables|].
  by rewrite (tables_spec _ _ E7), E6.
Qed.

Lemma insert_ok db controller n (Q : Z → Db → Prop) :
  Reach db →
  (∀ id db', Reach db' → (id, OrchAwaitingApproval) ∈ phases (spec_of db') → Q id db') →
  ok db (statement (insert_orchestration controller OrchAwaitingApproval n)) Q.
Proof.
  intros R HQ. apply ok_statement; [done|]. intros db1 E1.
  apply (reach_tables _ _ _ E1) in R as [R1 [F1 F2]]. cbn.
  set (id := (db_last_orchestration db1 + 1)%Z).
  match goal with |- Q id ?d => set (db2 := d) end.
  assert (spec_of db2 = mkSpec (phases (spec_of db1) ++ [(id, OrchAwaitingApproval)])
    (cores (spec_of db1))) as E2.
  { unfold spec_of. cbn. by rewrite fmap_app. }
  apply HQ.
  - split.
    + eapply rtc_r; [done|]. rewrite E2. apply step_open. apply Forall_fmap.
      eapply Forall_impl; [apply F1|]. cbn. intros o. unfold id. lia.
    + split; [|done]. cbn. apply Forall_app. split; [|apply Forall_singleton; cbn; lia].
      eapply Forall_impl; [apply F1|]. cbn. intros o. unfold id. lia.
  - rewrite E2. apply elem_of_app. right. by left.
Qed.

Lemma persist_new_plan_ok db controller existing response :
  Reach db → (∀ o, existing = Some o → phase (lo_row o) ∈ phases (spec_of db)) →
  ok db (persist_new_plan controller existing response) (λ _, Reach).
Proof.
  intros R HE. unfold persist_new_plan. destruct (is_empty _); [by apply ok_ret|]. cbv zeta.
  apply ok_bind, load_auto_approve_ok. intros auto_approve db1 E1.
  assert (Reach db1) as R1 by by eapply reach_tables.
  apply ok_bind. apply (ok_mono _ _ _ (λ r db2, Reach db2 ∧
    ∀ id, r = Some id → (id, OrchDone) ∈ phases (spec_of db2))).
  { unfold reusable_retry_orchestration_id. destruct existing as [o|]; [|by apply ok_ret].
    destruct (bool_decide_reflect (o_status (lo_row o) = OrchDone)) as [S|_]; [|by apply ok_ret].
    apply ok_bind, ok_statement; [done|]. intros db2 E2. apply ok_ret.
    split; [by eapply reach_tables|]. intros id. destruct (_ && _); [|done]. intros [= <-].
    cbn [snd load_orchestration_tasks]. rewrite (tables_spec _ _ E2), (tables_spec _ _ E1).
    specialize (HE o eq_refl). unfold phase in HE. by rewrite S in HE. }
  intros retry db2 [R2 HR]. destruct (validate_items _ _); [|by apply ok_ret].
  apply ok_bind. apply (ok_mono _ _ _ (λ id db3, Reach db3 ∧ ∃ ph,
    (id, ph) ∈ phases (spec_of db3) ∧ ph ∈ [OrchAwaitingApproval; OrchDone])).
  { destruct retry as [id|].
    - apply ok_ret. split; [done|]. exists OrchDone. split; [by apply HR|in_list].
    - apply ok_bind, load_max_parallelism_ok. intros n db3 E3. apply insert_ok; [by eapply reach_tables|].
      intros id db' R' P'. split; [done|]. exists OrchAwaitingApproval. split; [done|in_list]. }
  intros id db3 (R3 & ph & P3 & O3). by eapply park_plan_ok.
Qed.

Lemma loaded_controller db controller o :
  (load_orchestration_for_controller controller db).1 = Some o →
  phase (lo_row o) ∈ phases (spec_of db).
Proof.
  cbn. intros Ho%last_Some_elem_of. rewrite sort_by_elem, list_elem_of_omap in Ho.
  destruct Ho as (row & [_ Hrow]%elem_of_filter_b & E). unfold load_row in E.
  destruct (find_session _ _); cbn in E; [|done]. injection E as <-. by apply list_elem_of_fmap_2.
Qed.

Lemma persist_controller_plan_ok db controller response :
  Reach db → ok db (persist_controller_plan controller response) (λ _, Reach).
Proof.
  intros R. apply ok_bind, ok_statement; [done|]. intros db1 E1. cbn [fst snd].
  assert (Reach db1) as R1 by by eapply reach_tables.
  destruct (negb _); [by apply ok_ret|].
  apply ok_bind, ok_statement; [done|]. intros db2 E2.
  assert (Reach db2) as R2 by by apply (reach_tables _ db1).
  pose proof (λ o, loaded_controller db2 controller o) as HO.
  destruct (load_orchestration_for_controller controller db2).1 as [o|] eqn:EO.
  2:{ by apply persist_new_plan_ok. }
  specialize (HO o eq_refl). destruct (OrchestrationStatus_is_active _).
  2:{ apply persist_new_plan_ok; [done|]. by intros o' [= <-]. }
  apply ok_bind. apply (ok_mono _ _ _ (λ _ db3, Reach db3 ∧ phases (spec_of db3) = phases (spec_of db2))).
  { unfold persist_controller_verdicts. destruct (negb _); [by apply ok_ret|].
    by apply record_verdicts_ok. }
  intros u db3 [R3 E3]. apply ok_bind. eapply ok_mono.
  { apply handle_active_ok; [done|]. by rewrite E3. }
  intros [response' consumed] db4 R4. cbn. destruct consumed; [by apply ok_ret|].
  by apply persist_new_plan_ok.
Qed.

(** *** User actions *)

Lemma approve_orchestration_ok db controller approach :
  Reach db → ok db (approve_orchestration controller approach) (λ _, Reach).
Proof.
  intros R. apply ok_bind, ok_statement; [done|]. intros db1 E1.
  assert (Reach db1) as R1 by by eapply reach_tables.
  pose proof (λ o, loaded_controller db1 controller o) as HO.
  destruct (load_orchestration_for_controller controller db1).1 as [o|]; [|by apply ok_ret].
  specialize (HO o eq_refl). unfold phase in HO. cbn [snd load_orchestration_for_controller].
  destruct (o_status (lo_row o)); try by apply ok_ret.
  - apply ok_bind, ok_statement; [done|]. intros db2 E2. apply ok_ret.
    apply (approve_plan_ok s0 s0_sound); [by eapply reach_tables|]. by rewrite (tables_spec _ _ E2).
  - apply ok_bind, ok_statement; [done|]. intros db2 E2. cbn [fst snd load_orchestration_tasks].
    assert (Reach db2) as R2 by by eapply reach_tables.
    destruct (existsb _ _); [by apply ok_ret|]. destruct approach as [a|]; [|by apply ok_ret].
    apply ok_bind, ok_statement; [done|]. intros db3 E3. apply ok_ret.
    unfold approve_orchestration_integration. cbv zeta. cbn [snd].
    apply (phase_update s0 _ _ _ OrchIntegrating); [by eapply reach_tables|done|].
    intros ph Hph _. apply list_elem_of_singleton in Hph as ->. apply phase_integrate.
Qed.

Lemma detach_ok db child : Reach db → ok db (detach_managed_child child) (λ _, Reach).
Proof.
  intros R. apply ok_statement; [done|]. intros db1 E1.
  assert (Reach db1) as R1 by by eapply reach_tables.
  unfold detach_orchestration_child. destruct (_ ≫= _) as [task|]; [|done]. cbn [snd].
  eapply (planned_reach db1 0).
  apply (move_rows _ _ _ (has_task_id task) (λ t, set_t_status TaskDetached (set_t_child None t))
    (has_core_id task) (λ k, to_status TaskDetached (to_child None k))); try done.
  intros k Hk _. destruct (sound_tasks _ (reach_sound _ _ s0_sound R1) k Hk) as [ph P].
  exists ph. split; [done|apply move_detach].
Qed.

Lemma cancel_api_orchestration_ok db controller :
  Reach db → ok db (cancel_api_orchestration controller) (λ _, Reach).
Proof.
  intros R. apply ok_bind, ok_statement; [done|]. intros db1 E1.
  assert (Reach db1) as R1 by by eapply reach_tables.
  destruct (load_orchestration_for_controller controller db1).1 as [o|]; [|by apply ok_ret].
  cbv zeta. set (id := o_id (lo_row o)). apply ok_bind, ok_statement; [done|]. intros db2 E2.
  change (tables db2 = tables db1) in E2.
  assert (Reach db2) as R2 by by eapply reach_tables.
  pose proof (begin_cancellation_phase db2 id) as HB.
  destruct (begin_cancellation_update s0 db2 id R2) as [R3 _].
  apply ok_when; [|done]. intros Es. specialize (HB Es).
  eapply (load_tasks_ok _ s0_sound _ id OrchCanceling); [done|done|]. intros vs db4 HL E4.
  apply ok_bind. eapply ok_mono; [apply (cancel_api_tasks_ok _ s0_sound _ id); apply HL|].
  intros u db5 (R5 & F5 & FS). apply ok_statement; [done|]. intros db6 E6.
  apply (status_update s0 s0_sound db6 id OrchCanceling).
  - by eapply reach_tables.
  - rewrite (tables_spec _ _ E6), (frames_phases _ _ _ F5). apply HL.
  - rewrite (tables_spec _ _ E6). apply phase_canceled. by eapply settled_tasks.
Qed.

Lemma clear_questions_ok db id :
  Reach db → ok db (statement (clear_orchestration_questions id)) (λ _, Reach).
Proof.
  intros R. apply ok_statement; [done|]. intros db1 E1.
  unfold clear_orchestration_questions. cbv zeta. cbn [snd].
  match goal with |- Reach (update_orchestrations ?d _ _) => set (db2 := d) end.
  assert (Reach db2) as R2.
  { apply (reach_tables _ db1); [|by eapply reach_tables]. unfold db2. by destruct (list_find_b _ _). }
  eapply spec_same_reach; [by apply update_orchestrations_same| |done].
  by apply fresh_update_orchestrations.
Qed.

Lemma area_compliance_ok db files child :
  Reach db → ok db (persist_managed_child_area_compliance files child) (λ _, Reach).
Proof.
  intros R. apply ok_bind, ok_statement; [done|]. intros db1 E1. cbn [fst snd].
  assert (Reach db1) as R1 by by eapply reach_tables.
  destruct (load_orchestration_task_scope_for_child child db1).1 as [scope|]; [|by apply ok_ret].
  apply ok_bind, ok_ok_or; [done|]. intros areas _.
  apply ok_bind, ok_question; [done|]. intros changed _. cbv zeta.
  apply ok_statement; [done|]. intros db2 E2. change (tables db2 = tables db1) in E2.
  eapply (planned_reach db2 0).
  assert (Reach db2) as R2 by by eapply reach_tables.
  eapply (move_rows _ _ _ (has_task_id (sc_id scope)) _ (has_core_id (sc_id scope)) (λ k, k));
    [done|reflexivity|done|done|done|].
  intros k Hk _. destruct (sound_tasks _ (reach_sound _ _ s0_sound R2) k Hk) as [ph P].
  exists ph. split; [done|apply move_evidence].
Qed.
End turns.
