(* ===== verification/Campaigns.v ===== *)
(** * Runs of campaigns

    Any sequence of reconciliation passes, controller turns, user actions and
    changes outside the campaign tables, from a database without campaigns;
    the events take turns, so that no other task changes the campaign tables
    between two statements of one.  The invariants of [CampaignSpec] hold of
    every database reached that way; a cancellation completes when the host
    answers and nobody interferes.  The last part runs the
    coordinator on small campaigns. *)
From stdpp Require Import gmap relations.
From S2P Require Import Prelude Json Contracts Agent Lifecycle Orchestration Prompt Review Session.
From S2P Require Import Protocol CampaignStore CampaignText Coordinator CampaignSpec CampaignLaws CampaignTurns.

(** ** Events *)

Inductive CampaignEvent :=
| Reconcile
| ControllerTurn (controller : str) (response : AgentResponse)
| ApproveStep (controller : str) (approach : option IntegrationApproach)
| DetachChild (child : str)
| CheckAreas (files : str → result (list str) str) (child : str)
| CancelController (controller : str)
| ClearQuestions (id : Z).

Section runs.
Context `{JsonText} `{UnicodeAlnum} `{Templates}.

Definition perform `{Host} (e : CampaignEvent) : M unit :=
  match e with
  | Reconcile => reconcile_once
  | ControllerTurn controller response => _ ← persist_controller_plan controller response; mret tt
  | ApproveStep controller approach => _ ← approve_orchestration controller approach; mret tt
  | DetachChild child => _ ← detach_managed_child child; mret tt
  | CheckAreas files child => persist_managed_child_area_compliance files child
  | CancelController controller => cancel_api_orchestration controller
  | ClearQuestions id => statement (clear_orchestration_questions id)
  end.

(** One event with any quiet host and any outcome, or a change elsewhere. *)
Inductive run : Db → Db → Prop :=
| run_event (h : Host) e w r w' :
    QuietHost → perform e w = (r, w') → run (w_db w) (w_db w')
| run_outside db db' : tables db' = tables db → run db db'.

Definition no_campaigns (db : Db) : Prop := db_orchestrations db = [] ∧ db_tasks db = [].

Definition campaign_reachable (db : Db) : Prop := ∃ db0, no_campaigns db0 ∧ rtc run db0 db.

(** ** Refinement *)

Lemma perform_ok `{Host} `{!QuietHost} s0 db e :
  Sound s0 → Reach s0 db → ok s0 db (perform e) (λ _, Reach s0).
Proof.
  intros S R. destruct e; cbn [perform].
  - by apply reconcile_once_ok.
  - apply ok_bind. eapply ok_mono; [by apply persist_controller_plan_ok|]. intros u db' R'. by apply ok_ret.
  - apply ok_bind. eapply ok_mono; [by apply approve_orchestration_ok|]. intros u db' R'. by apply ok_ret.
  - apply ok_bind. eapply ok_mono; [by apply detach_ok|]. intros u db' R'. by apply ok_ret.
  - by apply area_compliance_ok.
  - by apply cancel_api_orchestration_ok.
  - by apply clear_questions_ok.
Qed.

Lemma run_reach s0 db db' : Sound s0 → run db db' → Reach s0 db → Reach s0 db'.
Proof.
  intros S [h e w r w' Q E|? ? E] R; [|by eapply reach_tables].
  pose proof (perform_ok s0 (w_db w) e S R w eq_refl) as HW. rewrite E in HW. by destruct r.
Qed.

Lemma no_campaigns_good db : no_campaigns db → Sound (spec_of db) ∧ Fresh db.
Proof.
  intros [E1 E2]. split.
  - unfold spec_of. rewrite E1, E2. constructor; cbn; try constructor; set_solver.
  - unfold Fresh. rewrite E1, E2. by split.
Qed.

Lemma runs_reach s0 db db' : Sound s0 → rtc run db db' → Reach s0 db → Reach s0 db'.
Proof. intros S. induction 1; eauto using run_reach. Qed.

Lemma reachable_good db : campaign_reachable db → Sound (spec_of db) ∧ Fresh db.
Proof.
  intros (db0 & Z & R). destruct (no_campaigns_good _ Z) as [S0 F0].
  assert (Reach (spec_of db0) db) as [RS F] by (eapply runs_reach; [done|done|by split]).
  split; [by eapply steps_sound|done].
Qed.

Lemma reachable_run db db' : campaign_reachable db → run db db' → campaign_reachable db'.
Proof. intros (db0 & Z & R) S. exists db0. split; [done|]. by eapply rtc_r. Qed.

(** C1: Every event of a campaign (a reconciliation pass, a controller turn, an
    approval, a detachment, an area check, a cancellation), with any answers
    and failures of the host, changes the tables by steps of the abstract
    campaign machine [CampaignSpec.step]: no event moves a task or a campaign
    in a way the machine does not allow.  The host does not change the
    campaign tables itself between two statements. *)
Theorem run_refines_campaigns db db' :
  campaign_reachable db → run db db' → rtc step (spec_of db) (spec_of db').
Proof.
  intros [S F]%reachable_good R. by apply (run_reach (spec_of db) _ _ S R).
Qed.

Lemma reachable_task db t :
  campaign_reachable db → t ∈ db_tasks db →
  ∃ o, o ∈ db_orchestrations db ∧ o_id o = t_orchestration t ∧ task_sound (o_status o) (core t).
Proof.
  intros [S F]%reachable_good Ht.
  assert (core t ∈ cores (spec_of db)) as Hk by by apply list_elem_of_fmap_2.
  destruct (sound_tasks _ S _ Hk) as [ph P]. pose proof (sound_each _ S _ _ Hk P) as SO.
  apply list_elem_of_fmap in P as (o & [= E1 E2] & Ho). exists o. subst. auto.
Qed.

(** C2: In every database that campaigns reach while their events take turns,
    a task that waits for integration, is being merged, has its review request
    open or is integrated carries the verdict Pass of the controller.  Events
    take turns: no other task changes the campaign tables between two
    statements of an event ([QuietHost]); the statements' answers and failures,
    the session service and all other tables are arbitrary.  Nothing is claimed
    of a pass and a controller turn whose statements interleave. *)
Theorem integrated_work_is_verified db t :
  campaign_reachable db → t ∈ db_tasks db →
  t_status t ∈ [TaskAwaitingIntegration; TaskMerging; TaskReviewRequested; TaskIntegrated] →
  t_verdict t = Some Pass.
Proof. intros R Ht S. destruct (reachable_task _ _ R Ht) as (o & _ & _ & SO). by apply SO. Qed.

(** In every reachable database a research task is in none of the review,
    verification or integration states: it is proposed, planned, running,
    reported or ended. *)
Theorem research_is_never_integrated db t :
  campaign_reachable db → t ∈ db_tasks db → t_kind t = Research →
  t_status t ∈ [TaskProposed; TaskPlanned; TaskCreating; TaskRunning; TaskWaitingForInput;
                TaskReported; TaskFailed; TaskCanceled; TaskDetached].
Proof. intros R Ht K. destruct (reachable_task _ _ R Ht) as (o & _ & _ & SO). by apply SO. Qed.

(** C4: While campaign events take turns (no other task changes the campaign
    tables between two statements of an event, see [QuietHost]; answers and
    failures are arbitrary), a campaign has at most one task being merged, and
    only while the campaign integrates or is being canceled.  Nothing is claimed
    of events whose statements interleave. *)
Theorem one_merge_per_campaign db t t' :
  campaign_reachable db → t ∈ db_tasks db → t' ∈ db_tasks db →
  t_status t = TaskMerging → t_status t' = TaskMerging → t_orchestration t = t_orchestration t' →
  t = t' ∧ ∃ o, o ∈ db_orchestrations db ∧ o_id o = t_orchestration t ∧
    o_status o ∈ [OrchIntegrating; OrchCanceling].
Proof.
  intros R Ht Ht' M M' E. destruct (reachable_task _ _ R Ht) as (o & Ho & Eo & SO).
  destruct (reachable_good _ R) as [S F]. split; [|exists o; split_and!; auto; by apply SO].
  assert (core t = core t') as EC.
  { apply (sound_one_merging _ S); auto; by apply list_elem_of_fmap_2. }
  apply (NoDup_unique t_id (db_tasks db)); auto; [|by injection EC].
  pose proof (sound_task_ids _ S) as ND. cbn in ND. by rewrite <-list_fmap_compose in ND.
Qed.

(** When a campaign is Done each of its tasks is integrated or otherwise
    settled, or is a research task reported and passed by the controller. *)
Theorem done_campaign_is_settled db o t :
  campaign_reachable db → o ∈ db_orchestrations db → o_status o = OrchDone →
  t ∈ db_tasks db → t_orchestration t = o_id o →
  is_integration_settled (t_status t) = true ∨
  (t_kind t = Research ∧ t_status t = TaskReported ∧ t_verdict t = Some Pass).
Proof.
  intros R Ho D Ht E. destruct (reachable_good _ R) as [S F].
  assert (task_sound OrchDone (core t)) as SO.
  { apply (sound_each _ S); [by apply list_elem_of_fmap_2|]. apply list_elem_of_fmap.
    exists o. split; [|done]. unfold phase. cbn. by rewrite E, D. }
  pose proof (sound_done _ _ SO eq_refl) as HD. unfold core_settled in HD. cbn in HD.
  destruct (t_kind t), (t_status t); auto. right. by apply bool_decide_eq_true in HD.
Qed.

(** A canceled campaign stays canceled through every later sequence of
    events. *)
Theorem canceled_campaign_is_final db db' o :
  campaign_reachable db → rtc run db db' → o ∈ db_orchestrations db → o_status o = OrchCanceled →
  ∃ o', o' ∈ db_orchestrations db' ∧ o_id o' = o_id o ∧ o_status o' = OrchCanceled.
Proof.
  intros RC R Ho C. destruct (reachable_good _ RC) as [S F].
  assert (Reach (spec_of db) db') as [RS _] by (eapply runs_reach; [done|done|by split]).
  assert ((o_id o, OrchCanceled) ∈ phases (spec_of db)) as P.
  { apply list_elem_of_fmap. exists o. unfold phase. by rewrite C. }
  apply (steps_keep_canceled _ _ _ RS), list_elem_of_fmap in P as (o' & [= E1 E2] & Ho').
  exists o'. auto.
Qed.

(** The review counter of a task never exceeds the limit of automatic
    remediation turns, whatever the history of the campaign. *)
Theorem remediation_is_bounded db t :
  campaign_reachable db → t ∈ db_tasks db → (0 <= t_iteration t <= MAX_AUTOMATED_REVIEW_ITERATIONS)%Z.
Proof. intros R Ht. destruct (reachable_task _ _ R Ht) as (o & _ & _ & SO). apply SO. Qed.

(** C40: Typing of the campaign tables, in every database that campaigns reach
    while their events take turns (no other task changes the campaign tables
    between two statements of an event, see [QuietHost]; answers and failures
    are arbitrary): identifiers of campaigns and of tasks are unique, every
    task belongs to a stored campaign, and a task that is proposed, planned or
    being created has no child session. *)
Theorem campaign_tables_well_formed db :
  campaign_reachable db →
  NoDup (o_id <$> db_orchestrations db) ∧ NoDup (t_id <$> db_tasks db) ∧
  (∀ t, t ∈ db_tasks db → t_orchestration t ∈ o_id <$> db_orchestrations db) ∧
  (∀ t, t ∈ db_tasks db → t_status t ∈ [TaskProposed; TaskPlanned; TaskCreating] → t_child t = None).
Proof.
  intros R. destruct (reachable_good _ R) as [S F]. split_and!.
  - pose proof (sound_phase_ids _ S) as ND. cbn in ND. by rewrite <-list_fmap_compose in ND.
  - pose proof (sound_task_ids _ S) as ND. cbn in ND. by rewrite <-list_fmap_compose in ND.
  - intros t Ht. destruct (reachable_task _ _ R Ht) as (o & Ho & <- & _). by apply list_elem_of_fmap_2.
  - intros t Ht. destruct (reachable_task _ _ R Ht) as (o & _ & _ & SO). apply SO.
Qed.

(** ** Cancellation completes *)

(** No statement fails and every session can be canceled. *)
Class ReliableHost `{Host} : Prop := {
  reliable_statement n : statement_error n = None;
  reliable_cancel n session db : ∃ r, (service n (CallCancelSession session) db).1 = Ok r
}.

Section reliable.
Context `{Host} `{!ReliableHost}.

Definition returns {A} (m : M A) (P : A → Prop) : Prop := ∀ w, ∃ a w', m w = (Ok a, w') ∧ P a.

Lemma returns_ret {A} (a : A) (P : A → Prop) : P a → returns (mret a) P.
Proof. intros HP w. exists a, w. done. Qed.

Lemma returns_bind {A B} (m : M A) (f : A → M B) P Q :
  returns m P → (∀ a, P a → returns (f a) Q) → returns (m ≫= f) Q.
Proof.
  intros HM HF w. destruct (HM w) as (a & w' & E & HP). destruct (HF a HP w') as (b & w2 & E2 & HQ).
  exists b, w2. split; [|done]. unfold mbind, M_bind. by rewrite E.
Qed.

Lemma returns_statement {R} (op : Db → R * Db) : returns (statement op) (λ _, True).
Proof.
  intros w. unfold statement, mbind, M_bind, query, question. rewrite reliable_statement.
  destruct (op _) as [r db']. by exists r, (mkWorld db' (live_statuses w) (w_events w) (w_calls w) (S (w_tick w))).
Qed.

Lemma returns_cancel session : returns (request (CallCancelSession session)) (λ r, ∃ a, r = Ok a).
Proof.
  intros w. unfold request. destruct (reliable_cancel (w_tick w) session (interference (w_tick w) (w_db w))) as [a Ea].
  destruct (service _ _ _) as [r db']. cbn in Ea. subst. eexists (Ok a), _. split; [done|eauto].
Qed.

Lemma returns_update v next e : returns (update_task_status v next e) (λ _, True).
Proof.
  unfold update_task_status. destruct (bool_decide _); [by apply returns_ret|].
  eapply returns_bind; [apply returns_statement|]. intros. by apply returns_ret.
Qed.

Lemma returns_cancel_task v : returns (cancel_task v) (λ r, r = None).
Proof.
  assert (returns (_ ← update_task_status v TaskCanceled None; mret None) (λ r : option str, r = None)) as HU.
  { eapply returns_bind; [apply returns_update|]. intros. by apply returns_ret. }
  unfold cancel_task. destruct (is_settled _); [by apply returns_ret|].
  destruct (child_session_is_stopped _); [done|].
  eapply (returns_bind _ _ (λ _, True)).
  { destruct (child_of v); [by apply returns_ret|apply returns_statement]. }
  intros [child|] _; [|done]. eapply returns_bind; [apply returns_cancel|].
  intros r [a ->]. done.
Qed.

Lemma returns_cancel_loop vs : returns (cancel_loop None vs) (λ r, r = None).
Proof.
  induction vs as [|v vs IH]; cbn [cancel_loop]; [by apply returns_ret|].
  eapply returns_bind; [apply returns_cancel_task|]. by intros r ->.
Qed.

Lemma returns_cancellation o : returns (reconcile_cancellation o) (λ _, True).
Proof.
  unfold reconcile_cancellation. eapply returns_bind; [apply returns_statement|]. intros vs _.
  eapply returns_bind; [apply returns_cancel_loop|]. intros r ->.
  eapply returns_bind; [apply returns_statement|]. intros u _.
  intros w. unfold mbind, M_bind, clear_live_status, emit. eauto.
Qed.
End reliable.

(** C5: Cancellation completes when nothing gets in its way: if no statement
    fails, every session can be canceled, and no other task changes the
    campaign tables during the pass or changed them within an earlier event
    ([QuietHost]), then one pass over a campaign that is being canceled returns
    without error, leaves the campaign Canceled and every task of it settled. *)
Theorem cancellation_completes (h : Host) (w : World) (o : SessionOrchestrationRow) :
  QuietHost → ReliableHost → campaign_reachable (w_db w) →
  lo_row o ∈ db_orchestrations (w_db w) → o_status (lo_row o) = OrchCanceling →
  ∃ w', reconcile_campaign o w = (Ok tt, w') ∧
    (∃ row, row ∈ db_orchestrations (w_db w') ∧ o_id row = o_id (lo_row o) ∧ o_status row = OrchCanceled) ∧
    (∀ t, t ∈ db_tasks (w_db w') → t_orchestration t = o_id (lo_row o) → is_settled (t_status t) = true).
Proof.
  intros Q RH RC Ho C. destruct (reachable_good _ RC) as [S F].
  unfold reconcile_campaign. rewrite C.
  destruct (returns_cancellation o w) as ([] & w' & E & _). exists w'. split; [done|].
  assert (Reach (spec_of (w_db w)) (w_db w)) as R0 by by split.
  assert ((o_id (lo_row o), OrchCanceling) ∈ phases (spec_of (w_db w))) as P.
  { apply list_elem_of_fmap. exists (lo_row o). unfold phase. by rewrite C. }
  pose proof (reconcile_cancellation_done _ S _ o _ R0 eq_refl P w eq_refl) as HD.
  rewrite E in HD. destruct HD as (_ & HP & HT). split.
  - apply list_elem_of_fmap in HP as (row & [= E1 E2] & Hr). exists row. auto.
  - intros t Ht Et. rewrite Forall_forall in HT. apply (HT (core t)), elem_of_tasks_of.
    split; [by apply list_elem_of_fmap_2|done].
Qed.
End runs.

(** ** Concrete campaigns *)

Module Demo.

(** A lossless encoding of lists of strings in place of JSON. *)
Definition encode_str (s : str) : str := flat_map (λ c, [1%N; c]) s ++ [2%N].

Fixpoint decode (current : str) (s : str) : option (list str) :=
  match s with
  | [] => match current with [] => Some [] | _ => None end
  | 1%N :: c :: rest => decode (current ++ [c]) rest
  | 2%N :: rest => l ← decode [] rest; Some (current :: l)
  | _ => None
  end.

#[export] Instance demo_json : JsonText := {|
  text_escape := λ c, [c];
  json_list l := flat_map encode_str l;
  parse_list s := decode [] s;
  snapshot_json _ _ _ _ := []
|}.

#[export] Instance demo_alnum : UnicodeAlnum := is_ascii_lowercase.

#[export] Instance demo_templates : Templates := {|
  controller_template _ _ := None;
  child_template _ _ _ _ _ := None;
  research_template _ _ _ _ := None
|}.

(** A service that starts a session in progress for every child, stops it on
    cancellation and refuses what [broken] selects. *)
Definition new_child (n : nat) (task : Z) : SessionRow :=
  mkSessionRow (L"child-" ++ display_nat n) 1 OrchestrationWorker InProgress None (Some task)
    (L"main") None None None None 0 0 0 0.

Definition set_s_status (status : SessionStatus) (s : SessionRow) : SessionRow :=
  mkSessionRow (s_id s) (s_project s) (s_role s) status (s_questions s) (s_task s) (s_base_branch s)
    (s_review_status s) (s_review_hash s) (s_review_text s) (s_has_diff s) (s_added s) (s_deleted s)
    (s_input_tokens s) (s_output_tokens s).

Definition demo_service (broken : ServiceCall → bool) (n : nat) (c : ServiceCall) (db : Db)
  : result str str * Db :=
  if broken c then (Err (L"refused"), db)
  else match c with
  | CallCreateSession r =>
      match create_mode r with
      | OrchestrationChild task | OrchestrationResearch task =>
          (Ok (s_id (new_child n task)), with_sessions db (db_sessions db ++ [new_child n task]))
      | _ => (Ok [], db)
      end
  | CallCancelSession child =>
      (Ok [], update_sessions db (has_session_id child) (set_s_status Canceled))
  | _ => (Ok [], db)
  end.

Definition demo_host (fails : nat → bool) (broken : ServiceCall → bool) : Host := {|
  interference _ db := db;
  statement_error n := if fails n then Some (L"database is locked") else None;
  service := demo_service broken
|}.

Definition good_host : Host := demo_host (λ _, false) (λ _, false).

#[export] Instance demo_quiet fails broken : @QuietHost (demo_host fails broken).
Proof.
  split; [done|]. intros n c db. cbn. unfold demo_service. destruct (broken c); [done|].
  destruct c as [r| | | | |]; try done. by destruct (create_mode r).
Qed.

#[export] Instance demo_reliable : @ReliableHost good_host.
Proof. split; [done|]. intros n session db. by exists []. Qed.

(** A host that refuses to cancel sessions. *)
Definition refuse_cancel : Host :=
  demo_host (λ _, false) (λ c, match c with CallCancelSession _ => true | _ => false end).

(** *** Playing events *)

Definition world (db : Db) : World := mkWorld db ∅ [] [] 0.

Definition play (h : Host) (e : CampaignEvent) (db : Db) : Db := w_db (perform e (world db)).2.

Definition calls_of (h : Host) (e : CampaignEvent) (db : Db) : list ServiceCall :=
  w_calls (perform e (world db)).2.

(** The children reach a status, and an operation ends. *)
Definition children (status : SessionStatus) (db : Db) : Db :=
  update_sessions db (λ s, bool_decide (s_role s = OrchestrationWorker)) (set_s_status status).

Definition operation (name : str) (status : OperationStatus) (db : Db) : Db :=
  mkDb (db_orchestrations db) (db_tasks db) (db_sessions db) (db_messages db)
    ((name, status) :: db_operations db) (db_settings db) (db_last_orchestration db) (db_last_task db).

Lemma play_run h e db : @QuietHost h → run db (play h e db).
Proof.
  intros Q. unfold play. destruct (perform e (world db)) as [r w'] eqn:E.
  by apply (run_event h e (world db) r w').
Qed.

Lemma reachable_play h e db : @QuietHost h → campaign_reachable db → campaign_reachable (play h e db).
Proof. intros Q R. eapply reachable_run; [done|by apply play_run]. Qed.

Lemma reachable_outside db db' : tables db' = tables db → campaign_reachable db → campaign_reachable db'.
Proof. intros E R. eapply reachable_run; [done|by apply run_outside]. Qed.

(** *** One campaign of two tasks *)

Definition controller : SessionRow :=
  mkSessionRow (L"ctl") 1 Orchestrator Review None None (L"main") None None None None 0 0 0 0.

Definition empty_db : Db := mkDb [] [] [controller] [] [] [] 0 0.

Definition subtask (kind : SubtaskKind) (key prompt : str) : SubtaskItem :=
  mkSubtask [L"tests pass"] kind prompt key (L"Title") [].

Definition respond (items : list SubtaskItem) (verdicts : list VerificationVerdictItem) : CampaignEvent :=
  ControllerTurn (L"ctl") (mkAgentResponse (L"Plan") [] [] items verdicts).

Definition impl (key : str) : SubtaskItem := subtask SubtaskImplementation key (L"do it").

Definition plan_db : Db := play good_host (respond [impl (L"a"); impl (L"b")] []) empty_db.
Definition running_db : Db :=
  play good_host Reconcile (play good_host (ApproveStep (L"ctl") None) plan_db).
Definition ready_db : Db := play good_host Reconcile (children Done running_db).
Definition verified_db : Db :=
  play good_host (respond [] [mkVerdictItem (L"ok") (L"a") Pass; mkVerdictItem (L"ok") (L"b") Pass])
    (operation (rollup_operation_id 1 1) OpDone ready_db).
Definition integrating_db : Db :=
  play good_host (ApproveStep (L"ctl") (Some LocalMerge)) (play good_host Reconcile verified_db).
Definition merging_db : Db := play good_host Reconcile integrating_db.
Definition merged_db : Db := play good_host Reconcile (play good_host Reconcile (children Done merging_db)).
Definition done_db : Db := play good_host Reconcile (play good_host Reconcile merged_db).

(** The row of a task in a database. *)
Definition no_task : TaskRow := planned_row 0 (mkPersistedTask [] Research 0 [] 0 [] [] []).
Definition task_at (n : nat) (db : Db) : TaskRow := nth n (db_tasks db) no_task.
Definition campaign_at (n : nat) (db : Db) : OrchestrationRow :=
  nth n (db_orchestrations db) (mkOrchestrationRow 0 [] [] OrchDone 0 None 0 LocalMerge).

Lemma task_at_in n db : n < length (db_tasks db) → task_at n db ∈ db_tasks db.
Proof. intros E. apply list_elem_of_In. by apply nth_In. Qed.

Lemma campaign_at_in n db : n < length (db_orchestrations db) → campaign_at n db ∈ db_orchestrations db.
Proof. intros E. apply list_elem_of_In. by apply nth_In. Qed.

(** The child of a task reaches a status. *)
Definition child_reaches (n : nat) (status : SessionStatus) (db : Db) : Db :=
  update_sessions db (λ s, bool_decide (t_child (task_at n db) = Some (s_id s))) (set_s_status status).

Lemma reachable_children st db : campaign_reachable db → campaign_reachable (children st db).
Proof. by apply reachable_outside. Qed.
Lemma reachable_operation name st db : campaign_reachable db → campaign_reachable (operation name st db).
Proof. by apply reachable_outside. Qed.
Lemma reachable_child n st db : campaign_reachable db → campaign_reachable (child_reaches n st db).
Proof. by apply reachable_outside. Qed.
Lemma reachable_good_host e db : campaign_reachable db → campaign_reachable (play good_host e db).
Proof. apply reachable_play, _. Qed.

Lemma plan_reachable : campaign_reachable plan_db.
Proof. apply reachable_good_host. exists empty_db. split; [done|apply rtc_refl]. Qed.

Lemma running_reachable : campaign_reachable running_db.
Proof. exact (reachable_good_host _ _ (reachable_good_host _ _ plan_reachable)). Qed.
Lemma ready_reachable : campaign_reachable ready_db.
Proof. exact (reachable_good_host _ _ (reachable_children _ _ running_reachable)). Qed.
Lemma verified_reachable : campaign_reachable verified_db.
Proof. exact (reachable_good_host _ _ (reachable_operation _ _ _ ready_reachable)). Qed.
Lemma integrating_reachable : campaign_reachable integrating_db.
Proof. exact (reachable_good_host _ _ (reachable_good_host _ _ verified_reachable)). Qed.
Lemma merging_reachable : campaign_reachable merging_db.
Proof. exact (reachable_good_host _ _ integrating_reachable). Qed.
Lemma merged_reachable : campaign_reachable merged_db.
Proof.
  exact (reachable_good_host _ _ (reachable_good_host _ _ (reachable_children _ _ merging_reachable))).
Qed.

(** *** A correction in the verification turn *)

(** Task [a] passes, [b] is flagged and continued in the same turn; the next
    verification names [b] only. *)
Definition corrected_db : Db :=
  play good_host (respond [subtask SubtaskImplementation (L"b") (L"fix it")]
      [mkVerdictItem (L"ok") (L"a") Pass; mkVerdictItem (L"no") (L"b") Flag]) ready_db.
Definition verifying_again_db : Db :=
  play good_host Reconcile (operation (L"orchestration-continuation-2-1") OpDone corrected_db).
Definition second_verdict_db : Db :=
  play good_host Reconcile (operation (rollup_operation_id 1 2) OpDone
    (play good_host (respond [] [mkVerdictItem (L"ok") (L"b") Pass]) verifying_again_db)).

(** *** A follow-up beside an integrated task *)

(** [a] is integrated, the merge of [b] fails and [b] is continued. *)
Definition refuse_merge : Host :=
  demo_host (λ _, false) (λ c, match c with CallMergeSession _ => true | _ => false end).
Definition half_merged_db : Db :=
  play refuse_merge Reconcile (child_reaches 1 Review (child_reaches 0 Done merging_db)).
Definition continued_db : Db :=
  play good_host Reconcile
    (play good_host (respond [subtask SubtaskImplementation (L"b") (L"fix it")] []) half_merged_db).
Definition reintegrated_db : Db :=
  let again := play good_host Reconcile
    (operation (L"orchestration-continuation-2-1") OpDone continued_db) in
  let passed := play good_host (respond [] [mkVerdictItem (L"ok") (L"b") Pass])
    (operation (rollup_operation_id 1 2) OpDone again) in
  play good_host (ApproveStep (L"ctl") (Some LocalMerge)) (play good_host Reconcile passed).

(** *** A statement that fails between the two writes of a proposal *)

Definition fail_proposal : Host := demo_host (λ n, bool_decide (n = 4)) (λ _, false).
Definition half_proposed_db : Db := play fail_proposal (respond [impl (L"c")] []) running_db.

(** *** A revised plan while children run *)

Definition extended_db : Db := play good_host (respond [impl (L"c")] []) running_db.
Definition revised_db : Db := play good_host (respond [impl (L"d"); impl (L"e")] []) extended_db.

(** *** A cancellation while a child is created *)

(** The cancellation of a session that has stopped is an error. *)
Definition strict_service (n : nat) (c : ServiceCall) (db : Db) : result str str * Db :=
  match c with
  | CallCancelSession child =>
      match find_session db child with
      | Some s =>
          if bool_decide (s_status s = Canceled)
          then (Err (L"Session is not cancelable in its current state"), db)
          else demo_service (λ _, false) n c db
      | None => (Err (L"Session not found"), db)
      end
  | _ => demo_service (λ _, false) n c db
  end.

Definition strict_host (cancel_at : option nat) : Host := {|
  interference n db :=
    if bool_decide (cancel_at = Some n) then (begin_orchestration_cancellation 1 db).2 else db;
  statement_error _ := None;
  service := strict_service
|}.

Definition approved_db : Db := play good_host (ApproveStep (L"ctl") None) plan_db.
Definition stranded_db : Db := play (strict_host (Some 4)) Reconcile approved_db.
End Demo.
Import Demo.

Ltac computed := vm_compute; reflexivity.

(** *** Witnesses *)

Lemma run_refines_campaigns_witness :
  rtc step (spec_of integrating_db) (spec_of merging_db) ∧ spec_of integrating_db ≠ spec_of merging_db.
Proof.
  split; [|vm_compute; discriminate]. apply run_refines_campaigns.
  - apply integrating_reachable.
  - apply (play_run good_host Reconcile integrating_db), _.
Defined.

Lemma integrated_work_is_verified_witness :
  t_status (task_at 0 merging_db) = TaskMerging ∧ t_verdict (task_at 0 merging_db) = Some Pass.
Proof.
  assert (t_status (task_at 0 merging_db) = TaskMerging) as E by computed. split; [done|].
  apply (integrated_work_is_verified merging_db).
  - apply merging_reachable.
  - apply task_at_in. vm_compute. lia.
  - rewrite E. in_list.
Defined.

(** A research wave, approved by default, with its report. *)
Definition research_db : Db :=
  play good_host Reconcile (children Done (play good_host Reconcile
    (play good_host (respond [subtask SubtaskResearch (L"look") (L"look")] []) empty_db))).

Lemma research_reachable : campaign_reachable research_db.
Proof.
  apply reachable_good_host, reachable_children, reachable_good_host, reachable_good_host.
  exists empty_db. split; [done|apply rtc_refl].
Qed.

Lemma research_is_never_integrated_witness :
  t_status (task_at 0 research_db) = TaskReported ∧
  t_status (task_at 0 research_db) ∈ [TaskProposed; TaskPlanned; TaskCreating; TaskRunning;
    TaskWaitingForInput; TaskReported; TaskFailed; TaskCanceled; TaskDetached].
Proof.
  split; [computed|]. apply (research_is_never_integrated research_db).
  - apply research_reachable.
  - apply task_at_in. vm_compute. lia.
  - computed.
Defined.

Lemma one_merge_per_campaign_witness :
  task_at 0 merging_db = task_at 0 merging_db ∧
  ∃ o, o ∈ db_orchestrations merging_db ∧ o_id o = t_orchestration (task_at 0 merging_db) ∧
    o_status o ∈ [OrchIntegrating; OrchCanceling].
Proof.
  apply (one_merge_per_campaign merging_db (task_at 0 merging_db) (task_at 0 merging_db)).
  - apply merging_reachable.
  - apply task_at_in. vm_compute. lia.
  - apply task_at_in. vm_compute. lia.
  - computed.
  - computed.
  - reflexivity.
Defined.

Lemma done_campaign_is_settled_witness :
  o_status (campaign_at 0 merged_db) = OrchDone ∧
  (is_integration_settled (t_status (task_at 1 merged_db)) = true ∨
   (t_kind (task_at 1 merged_db) = Research ∧ t_status (task_at 1 merged_db) = TaskReported ∧
    t_verdict (task_at 1 merged_db) = Some Pass)).
Proof.
  split; [computed|]. apply (done_campaign_is_settled merged_db (campaign_at 0 merged_db)).
  - apply merged_reachable.
  - apply campaign_at_in. vm_compute. lia.
  - computed.
  - apply task_at_in. vm_compute. lia.
  - computed.
Defined.

Lemma canceled_campaign_is_final_witness :
  ∃ o', o' ∈ db_orchestrations (play good_host Reconcile revised_db) ∧
    o_id o' = o_id (campaign_at 0 revised_db) ∧ o_status o' = OrchCanceled.
Proof.
  apply (canceled_campaign_is_final revised_db).
  - exact (reachable_good_host _ _ (reachable_good_host _ _ running_reachable)).
  - apply rtc_once, play_run, _.
  - apply campaign_at_in. vm_compute. lia.
  - computed.
Defined.

Lemma remediation_is_bounded_witness :
  (0 <= t_iteration (task_at 0 merging_db) <= MAX_AUTOMATED_REVIEW_ITERATIONS)%Z.
Proof.
  apply (remediation_is_bounded merging_db).
  - apply merging_reachable.
  - apply task_at_in. vm_compute. lia.
Defined.

Lemma campaign_tables_well_formed_witness :
  NoDup (o_id <$> db_orchestrations revised_db) ∧ NoDup (t_id <$> db_tasks revised_db) ∧
  (∀ t, t ∈ db_tasks revised_db → t_orchestration t ∈ o_id <$> db_orchestrations revised_db) ∧
  (∀ t, t ∈ db_tasks revised_db → t_status t ∈ [TaskProposed; TaskPlanned; TaskCreating] →
     t_child t = None).
Proof.
  apply campaign_tables_well_formed.
  exact (reachable_good_host _ _ (reachable_good_host _ _ running_reachable)).
Defined.

(** A running campaign whose cancellation has begun. *)
Definition canceling_db : Db :=
  play refuse_cancel (CancelController (L"ctl")) running_db.

Lemma canceling_reachable : campaign_reachable canceling_db.
Proof. apply reachable_play; [apply _|]. apply running_reachable. Qed.

Definition canceling_campaign : SessionOrchestrationRow :=
  mkLoadedOrchestration (campaign_at 0 canceling_db) 1.

Lemma cancellation_completes_witness :
  ∃ w', @reconcile_campaign good_host demo_json demo_alnum demo_templates canceling_campaign
          (world canceling_db) = (Ok tt, w') ∧
    (∃ row, row ∈ db_orchestrations (w_db w') ∧ o_id row = o_id (lo_row canceling_campaign) ∧
       o_status row = OrchCanceled) ∧
    (∀ t, t ∈ db_tasks (w_db w') → t_orchestration t = o_id (lo_row canceling_campaign) →
       is_settled (t_status t) = true).
Proof.
  refine (cancellation_completes good_host (world canceling_db) canceling_campaign _ _ _ _ _).
  - apply canceling_reachable.
  - unfold canceling_campaign, world. cbn [lo_row w_db]. apply campaign_at_in. vm_compute. lia.
  - computed.
Defined.

(** *** What the runs show *)

(** Task [a] passed once and enters integration although the second
    verification turn, after the correction of [b], gave it no verdict. *)
Lemma stale_pass_is_admitted :
  o_generation (campaign_at 0 verifying_again_db) = 2%Z ∧
  t_status (task_at 0 verifying_again_db) = TaskReady ∧
  t_verdict (task_at 0 verifying_again_db) = Some Pass ∧
  t_status (task_at 0 second_verdict_db) = TaskAwaitingIntegration.
Proof. split_and!; computed. Qed.

(** An integrated task is integrated again after a follow-up on its sibling. *)
Lemma integrated_task_is_merged_again :
  t_status (task_at 0 half_merged_db) = TaskIntegrated ∧
  t_status (task_at 0 continued_db) = TaskReady ∧
  t_status (task_at 0 reintegrated_db) = TaskAwaitingIntegration ∧
  ∃ child, t_child (task_at 0 reintegrated_db) = Some child ∧
    calls_of good_host Reconcile reintegrated_db = [CallMergeSession child].
Proof. split_and!; [computed..|]. eexists. split; computed. Qed.

(** A failed statement leaves a proposal approved: the next pass starts its child. *)
Lemma unapproved_task_is_started :
  o_status (campaign_at 0 half_proposed_db) = OrchRunning ∧
  t_status (task_at 2 half_proposed_db) = TaskPlanned ∧
  t_status (task_at 2 (play good_host Reconcile half_proposed_db)) = TaskRunning.
Proof. split_and!; computed. Qed.

(** Revising a parked follow-up cancels the campaign and leaves its children running. *)
Lemma revised_plan_orphans_children :
  o_status (campaign_at 0 extended_db) = OrchAwaitingApproval ∧
  o_status (campaign_at 0 revised_db) = OrchCanceled ∧
  t_status (task_at 0 revised_db) = TaskRunning ∧
  List.filter (λ s, bool_decide (s_status s = InProgress)) (db_sessions revised_db) ≠ [] ∧
  calls_of good_host (respond [impl (L"d"); impl (L"e")] []) extended_db = [].
Proof. split_and!; try computed. vm_compute. discriminate. Qed.

(** A child that was created while the campaign was canceled and that the pass
    stopped keeps the campaign in [Canceling]: every further pass fails. *)
Lemma stranded_child_blocks_cancellation :
  let again := play (strict_host None) Reconcile stranded_db in
  o_status (campaign_at 0 again) = OrchCanceling ∧
  (@perform _ _ _ (strict_host None) Reconcile (world again)).1 =
    Err (StopError (L"Session is not cancelable in its current state")) ∧
  tables (play (strict_host None) Reconcile again) = tables again.
Proof. cbv zeta. split_and!; computed. Qed.
