(* ===== verification/PlanLaws.v ===== *)
(** * Laws of the coordinator that need no campaign history

    Rejected plans change no table, a subtask is read back as it was stored, a
    pass creates no more children than the campaign's parallelism, and the
    texts of a campaign keep their bounds. *)
From stdpp Require Import gmap.
From S2P Require Import Prelude Json Contracts Agent Lifecycle Orchestration Prompt Review Session.
From S2P Require Import Protocol CampaignStore CampaignText Coordinator CampaignLaws Campaigns.

(** ** Programs that keep the tables *)

Section keeps.
Context `{Host} `{!QuietHost}.

Definition keeps {A} (m : M A) (P : A → Prop) : Prop :=
  ∀ w, tables (w_db (m w).2) = tables (w_db w) ∧ ∀ a, (m w).1 = Ok a → P a.

Lemma plan_keeps_ret {A} (a : A) (P : A → Prop) : P a → keeps (mret a) P.
Proof. intros HP w. split; [done|]. by intros b [= <-]. Qed.

Lemma plan_keeps_bind {A B} (m : M A) (f : A → M B) P Q :
  keeps m P → (∀ a, P a → keeps (f a) Q) → keeps (m ≫= f) Q.
Proof.
  intros HM HF w. unfold mbind, M_bind. destruct (HM w) as [E1 HP].
  destruct (m w) as [[a|e] w1]; cbn in *; [|done].
  destruct (HF a (HP a eq_refl) w1) as [E2 HQ]. split; [congruence|done].
Qed.

Lemma keeps_query {R} (op : Db → R * Db) (P : result R str → Prop) :
  (∀ db, tables (op db).2 = tables db) → (∀ e, P (Err e)) → (∀ db, P (Ok (op db).1)) →
  keeps (query op) P.
Proof.
  intros HT HE HO w. unfold query. destruct (statement_error (w_tick w)).
  - split; [apply quiet_interference|]. intros a [= <-]. apply HE.
  - pose proof (HT (interference (w_tick w) (w_db w))) as E.
    pose proof (HO (interference (w_tick w) (w_db w))) as HP.
    destruct (op _) as [r db']. cbn in *. split; [rewrite E; apply quiet_interference|].
    by intros a [= <-].
Qed.

Lemma keeps_statement {R} (op : Db → R * Db) (P : R → Prop) :
  (∀ db, tables (op db).2 = tables db) → (∀ db, P (op db).1) → keeps (statement op) P.
Proof.
  intros HT HO. eapply (plan_keeps_bind _ _ (λ r, match r with Ok a => P a | Err _ => True end)).
  - by apply keeps_query.
  - intros [a|e] HP; [by apply plan_keeps_ret|]. intros w. split; [done|]. by intros a [=].
Qed.

Context `{JsonText} `{UnicodeAlnum} `{Templates}.

Lemma keeps_auto_approve items : keeps (should_auto_approve_research items) (λ _, True).
Proof.
  unfold should_auto_approve_research. destruct (_ && _); [|by apply plan_keeps_ret].
  eapply (plan_keeps_bind _ _ (λ _, True)); [by apply keeps_query|]. intros r _. by apply plan_keeps_ret.
Qed.

Lemma keeps_retry existing items : keeps (reusable_retry_orchestration_id existing items) (λ _, True).
Proof.
  destruct existing as [o|]; [|by apply plan_keeps_ret]. cbn.
  destruct (bool_decide _); [|by apply plan_keeps_ret].
  eapply (plan_keeps_bind _ _ (λ _, True)); [by apply keeps_statement|]. intros r _. by apply plan_keeps_ret.
Qed.

Definition follow_up_rejected (reason : str) : QuestionItem :=
  QuestionItem_with_options (L"The follow-up work cannot run yet: " ++ reason ++ L" Revise it?")
    [L"Revise the follow-up"; L"Drop the follow-up"].

Lemma keeps_new_plan controller existing response :
  (∀ retry, ∃ reason, validate_items (subtask_items response) retry = Err reason) →
  is_empty (subtasks response) = false →
  keeps (persist_new_plan controller existing response) (λ r, ∃ retry reason,
    validate_items (subtask_items response) retry = Err reason ∧
    r = ask_instead (plan_rejected reason) response).
Proof.
  intros HV HE. unfold persist_new_plan. rewrite HE.
  eapply plan_keeps_bind; [apply keeps_auto_approve|]. intros auto_approve _.
  eapply plan_keeps_bind; [apply keeps_retry|]. intros retry _.
  destruct (HV (bool_decide (is_Some retry))) as [reason E]. rewrite E.
  apply plan_keeps_ret. eauto.
Qed.

Lemma keeps_follow_up o response reason :
  validate_items (subtask_items response) true = Err reason →
  keeps (route_active_subtasks o response) (λ r, r = ask_instead (follow_up_rejected reason) response).
Proof.
  intros E. unfold route_active_subtasks. cbv zeta.
  eapply (plan_keeps_bind _ _ (λ _, True)); [by apply keeps_statement|]. intros tasks _.
  unfold active_subtask_validation_question. rewrite E. by apply plan_keeps_ret.
Qed.

(** A plan that does not validate is not stored: the tables stay as they
    were and the response asks for a revision in its place, for a new plan and
    for follow-up work. *)
Theorem invalid_plan_changes_nothing controller existing o response reason (w : World) :
  validate_items (subtask_items response) true = Err reason →
  (∃ r, validate_items (subtask_items response) false = Err r) →
  is_empty (subtasks response) = false →
  let new := persist_new_plan controller existing response w in
  let follow_up := route_active_subtasks o response w in
  tables (w_db new.2) = tables (w_db w) ∧ tables (w_db follow_up.2) = tables (w_db w) ∧
  (∀ response', new.1 = Ok response' → subtasks response' = [] ∧ ∃ r,
     response_questions response' = [plan_rejected r]) ∧
  (∀ response', follow_up.1 = Ok response' → subtasks response' = [] ∧
     response_questions response' = [follow_up_rejected reason]).
Proof.
  intros E1 E2 HE new follow_up.
  assert (∀ retry, ∃ r, validate_items (subtask_items response) retry = Err r) as HV
    by (intros []; eauto).
  destruct (keeps_new_plan controller existing response HV HE w) as [T1 Q1].
  destruct (keeps_follow_up o response reason E1 w) as [T2 Q2]. split_and!; [done|done| |].
  - intros response' (retry & r & _ & ->)%Q1. split; [done|]. by exists r.
  - by intros response' ->%Q2.
Qed.
End keeps.

(** ** Stored subtasks *)

Section stored.
Context `{Host} `{JsonText} `{!JsonTextLaws}.

(** A subtask of a plan is read back as it was stored, so a controller
    that repeats it unchanged routes no work and reaches no statement. *)
Theorem stored_subtask_roundtrip (db : Db) (c pos id : Z) (sub : SubtaskItem) (response : AgentResponse) :
  (sub_kind sub = SubtaskResearch → sub_areas sub = []) →
  let task := task_view db (planned_row id (proposed_task c pos sub)) in
  task_as_subtask task = Some sub ∧
  route_existing c response task sub = mret (response, (false, false, 0%Z)).
Proof.
  intros HR task.
  assert (task_as_subtask task = Some sub) as E.
  { assert (v_row task = planned_row id (proposed_task c pos sub)) as EV.
    { unfold task, task_view. by destruct (_ ≫= _). }
    unfold task_as_subtask, is_research_task, kind_of. rewrite EV. cbn.
    rewrite !parse_json_list. unfold subtask_touched_areas.
    destruct sub as [criteria [] prompt key title areas]; cbn in *.
    - done.
    - by rewrite (HR eq_refl). }
  split; [done|]. unfold route_existing. by rewrite bool_decide_true.
Qed.
End stored.

(** ** Children per pass *)

Definition is_create (c : ServiceCall) : bool :=
  match c with CallCreateSession _ => true | _ => false end.

Definition created (w : World) : nat := length (List.filter is_create (w_calls w)).

Section spawning.
Context `{Host} `{JsonText} `{UnicodeAlnum} `{Templates}.

(** The program asks for at most [n] sessions. *)
Definition creates {A} (n : nat) (m : M A) : Prop := ∀ w, created (m w).2 <= created w + n.

Lemma creates_ret {A} (a : A) : creates 0 (mret a).
Proof. intros w. cbn. lia. Qed.

Lemma creates_bind {A B} n k (m : M A) (f : A → M B) :
  creates n m → (∀ a, creates k (f a)) → creates (n + k) (m ≫= f).
Proof.
  intros HM HF w. unfold mbind, M_bind. specialize (HM w).
  destruct (m w) as [[a|e] w1]; cbn in *; [|lia]. specialize (HF a w1). lia.
Qed.

Lemma creates_bind0 {A B} (m : M A) (f : A → M B) :
  creates 0 m → (∀ a, creates 0 (f a)) → creates 0 (m ≫= f).
Proof. apply (creates_bind 0 0). Qed.

Lemma creates_fail {A} e : creates 0 (@fail A e).
Proof. intros w. cbn. lia. Qed.
Lemma creates_panic {A} : creates 0 (@panic A).
Proof. intros w. cbn. lia. Qed.
Lemma creates_question {A} (r : result A str) : creates 0 (question r).
Proof. destruct r; [apply creates_ret|apply creates_fail]. Qed.
Lemma creates_ok_or {A} (o : option A) e : creates 0 (ok_or o e).
Proof. destruct o; [apply creates_ret|apply creates_fail]. Qed.
Lemma creates_or_panic {A} (o : option A) : creates 0 (or_panic o).
Proof. destruct o; [apply creates_ret|apply creates_panic]. Qed.
Lemma creates_emit e : creates 0 (emit e).
Proof. intros w. unfold created. cbn. lia. Qed.
Lemma creates_statement {R} (op : Db → R * Db) : creates 0 (statement op).
Proof.
  apply creates_bind0; [|intros r; apply creates_question].
  intros w. unfold query, created. destruct (statement_error _); [cbn; lia|]. destruct (op _). cbn. lia.
Qed.
Lemma creates_request c : creates (if is_create c then 1 else 0) (request c).
Proof.
  intros w. unfold request. destruct (service _ _ _). unfold created. cbn.
  rewrite List.filter_app, length_app. cbn. destruct (is_create c); cbn; lia.
Qed.
Lemma creates_clear o : creates 0 (clear_live_status o).
Proof. intros w. unfold created. cbn. lia. Qed.
Lemma creates_live o vs : creates 0 (emit_live_status o vs).
Proof. intros w. unfold emit_live_status. destruct (bool_decide _); unfold created; cbn; lia. Qed.

Create HintDb creates.
#[local] Hint Resolve creates_ret creates_fail creates_panic creates_question creates_ok_or
  creates_or_panic creates_emit creates_statement creates_clear creates_live : creates.

(** Walks through a program that creates no session. *)
Ltac no_creates :=
  repeat match goal with
  | |- creates 0 (request ?c) => exact (creates_request c)
  | |- creates 0 (_ ≫= _) => apply creates_bind0; [|intros ?]
  | |- creates 0 (when ?b _) => unfold when
  | |- creates 0 (if ?b then _ else _) => destruct b
  | |- creates 0 (match ?x with _ => _ end) => destruct x
  | |- creates 0 (let _ := _ in _) => cbv zeta
  | _ => solve [auto with creates]
  end.

Lemma creates_update v next e : creates 0 (update_task_status v next e).
Proof. unfold update_task_status. no_creates. Qed.
#[local] Hint Resolve creates_update : creates.
Lemma creates_summary v : creates 0 (record_summary v).
Proof. unfold record_summary. no_creates. Qed.
#[local] Hint Resolve creates_summary : creates.
Lemma creates_review v : creates 0 (complete_task_review v).
Proof. unfold complete_task_review. no_creates. Qed.
Lemma creates_submit child op prompt : creates 0 (submit_to_child child op prompt).
Proof. unfold submit_to_child. no_creates. Qed.
#[local] Hint Resolve creates_review creates_submit : creates.
Lemma creates_application v : creates 0 (reconcile_review_application v).
Proof. unfold reconcile_review_application. no_creates. Qed.
#[local] Hint Resolve creates_application : creates.
Lemma creates_focused v : creates 0 (reconcile_focused_review v).
Proof. unfold reconcile_focused_review. no_creates. Qed.
#[local] Hint Resolve creates_focused : creates.
Lemma creates_continuation v : creates 0 (reconcile_continuation v).
Proof. unfold reconcile_continuation. no_creates. Qed.
Lemma creates_complete_research v st : creates 0 (complete_research_task v st).
Proof. unfold complete_research_task. no_creates. Qed.
#[local] Hint Resolve creates_continuation creates_complete_research : creates.
Lemma creates_research v : creates 0 (reconcile_research_task v).
Proof. unfold reconcile_research_task. no_creates. Qed.
Lemma creates_cancel_unclaimed child : creates 0 (cancel_unclaimed_child child).
Proof. unfold cancel_unclaimed_child. no_creates. Qed.
#[local] Hint Resolve creates_research creates_cancel_unclaimed : creates.
Lemma creates_fail_spawn v e : creates 0 (fail_task_spawn v e).
Proof. unfold fail_task_spawn. no_creates. Qed.
#[local] Hint Resolve creates_fail_spawn : creates.
Lemma creates_recover v : creates 0 (recover_creating_task v).
Proof. unfold recover_creating_task. no_creates. Qed.
#[local] Hint Resolve creates_recover : creates.
Lemma creates_reconcile_task v : creates 0 (reconcile_task v).
Proof. unfold reconcile_task. no_creates. Qed.
#[local] Hint Resolve creates_reconcile_task : creates.

Lemma creates_for_each {A} (f : A → M A) l : (∀ x, creates 0 (f x)) → creates 0 (for_each f l).
Proof. intros HF. induction l; cbn [for_each]; no_creates. Qed.

Lemma creates_surface o vs : creates 0 (surface_child_questions o vs).
Proof. unfold surface_child_questions. no_creates. Qed.
Lemma creates_rollup o vs g : creates 0 (submit_rollup o vs g).
Proof. unfold submit_rollup. no_creates. Qed.
#[local] Hint Resolve creates_surface creates_rollup : creates.

Lemma creates_spawn o v : creates 1 (spawn_task o v).
Proof.
  unfold spawn_task. apply (creates_bind 0 1); [auto with creates|]. intros claimed.
  destruct (negb claimed); [intros w; cbn; lia|]. cbv zeta.
  apply (creates_bind 1 0); [exact (creates_request (CallCreateSession _))|]. intros r. no_creates.
Qed.

Lemma creates_spawn_loop o n vs : creates n (spawn_loop o n vs).
Proof.
  revert n. induction vs as [|v vs IH]; intros n; cbn [spawn_loop]; [intros w; cbn; lia|].
  destruct (bool_decide _); [|done]. destruct n as [|n]; [apply creates_ret|].
  apply (creates_bind 1 n); [apply creates_spawn|auto].
Qed.

(** A pass over a running campaign asks for at most as many children as
    the campaign may run at once, whatever the host does and whichever step
    fails. *)
Theorem pass_creates_at_most_parallelism (o : SessionOrchestrationRow) (w : World) :
  created (reconcile_orchestration o w).2 <= created w + Z.to_nat (o_parallelism (lo_row o)).
Proof.
  revert w. set (n := Z.to_nat (o_parallelism (lo_row o))).
  change (creates n (reconcile_orchestration o)). unfold reconcile_orchestration. cbv zeta.
  apply (creates_bind 0 n); [auto with creates|]. intros tasks0.
  apply (creates_bind 0 n); [apply creates_for_each; auto with creates|]. intros tasks.
  apply (creates_bind 0 n); [auto with creates|]. intros _.
  replace n with (n + 0) by lia. apply creates_bind.
  - intros w. pose proof (creates_spawn_loop o (spawn_count (decide_schedule o tasks)) tasks w).
    assert (spawn_count (decide_schedule o tasks) <= n); [|lia].
    unfold decide_schedule, schedule. cbn. unfold n. lia.
  - intros _. no_creates.
Qed.
End spawning.

(** ** Research reports *)

Section reports.
Context `{JsonText} `{!JsonTextLaws}.

(** The encoding of a report with its mark, against what [prefix_fits] adds up. *)
Lemma truncated_blen s :
  blen (json_string (s ++ RESEARCH_REPORT_TRUNCATION)) = (blen (json_string s) + suffix_bytes)%Z.
Proof. unfold suffix_bytes. rewrite !json_string_blen, flat_map_app, blen_app. lia. Qed.

Lemma prefix_fits_mono report m m' :
  (m <= m')%Z → prefix_fits report m' = true → prefix_fits report m = true.
Proof.
  unfold prefix_fits. intros Hm. rewrite !Z.leb_le. destruct (floor_prefix_app report m m' Hm) as [rest ->].
  rewrite !json_string_blen, flat_map_app, blen_app.
  assert (0 <= blen (flat_map json_escape rest))%Z by (unfold blen; lia). lia.
Qed.

(** The search ends at the last offset that fits. *)
Lemma report_search_spec fuel report start end_ :
  (start <= end_)%Z → (end_ - start <= Z.of_nat fuel)%Z → prefix_fits report start = true →
  let found := report_search fuel report start end_ in
  (start <= found <= end_)%Z ∧ prefix_fits report found = true ∧
  ∀ m, (found < m <= end_)%Z → prefix_fits report m = false.
Proof.
  revert start end_. induction fuel as [|fuel IH]; intros start end_ Hle Hf HS; cbn.
  { split_and!; [lia|lia|done|]. intros m Hm. lia. }
  destruct (Z.ltb_spec start end_) as [Hlt|Hge].
  2:{ split_and!; [lia|lia|done|]. intros m Hm. lia. }
  set (middle := (start + (end_ - start + 1) / 2)%Z).
  assert (start < middle <= end_)%Z as HM.
  { unfold middle. pose proof (Z.div_mod (end_ - start + 1) 2). pose proof (Z.mod_pos_bound (end_ - start + 1) 2).
    lia. }
  destruct (prefix_fits report middle) eqn:PM.
  - destruct (IH middle end_) as (H1 & H2 & H3); [lia|lia|done|]. split_and!; [lia|lia|done|done].
  - destruct (IH start (middle - 1)%Z) as (H1 & H2 & H3); [lia|lia|done|].
    split_and!; [lia|lia|done|]. intros m Hm.
    destruct (Z.le_gt_cases m (middle - 1)) as [L1|L1]; [apply H3; lia|].
    destruct (prefix_fits report m) eqn:P; [|done].
    by rewrite (prefix_fits_mono report middle m) in PM by (done || lia).
Qed.

Lemma empty_prefix_fits report : prefix_fits report 0 = true.
Proof.
  unfold prefix_fits. rewrite floor_prefix_zero. apply Z.leb_le. unfold suffix_bytes.
  rewrite !json_string_blen. pose proof (flat_map_blen RESEARCH_REPORT_TRUNCATION) as HB.
  change (blen RESEARCH_REPORT_TRUNCATION) with 59%Z in HB. cbn [flat_map].
  unfold RESEARCH_REPORT_MAX_JSON_BYTES. change (blen []) with 0%Z. lia.
Qed.

Lemma suffix_nonneg : (0 <= suffix_bytes)%Z.
Proof. unfold suffix_bytes. rewrite json_string_blen. unfold blen. lia. Qed.

(** A prefix that fits with the mark is within what the search looks at. *)
Lemma fitting_within_cap report m :
  (blen (json_string (floor_prefix report m ++ RESEARCH_REPORT_TRUNCATION)) <=
   RESEARCH_REPORT_MAX_JSON_BYTES)%Z →
  let k := blen (floor_prefix report m) in
  prefix_fits report k = true ∧
  (k <= blen (floor_prefix report (Z.min (blen report) (RESEARCH_REPORT_MAX_JSON_BYTES - 2))))%Z.
Proof.
  rewrite truncated_blen. intros HM k. split.
  { unfold prefix_fits, k. rewrite floor_prefix_idem. by apply Z.leb_le. }
  pose proof suffix_nonneg as HS. pose proof (json_string_lower (floor_prefix report m)) as HJ.
  destruct (floor_prefix_cut report m) as [rest E]. apply (f_equal blen) in E. rewrite blen_app in E.
  assert (0 <= blen rest)%Z by (unfold blen; lia). fold k in HJ, E.
  assert (k <= Z.min (blen report) (RESEARCH_REPORT_MAX_JSON_BYTES - 2))%Z as HK by lia.
  apply (floor_prefix_le report) in HK. unfold k in HK at 1. by rewrite floor_prefix_idem in HK.
Qed.

(** The search finds the longest prefix. *)
Lemma search_longest report e :
  e = blen (floor_prefix report (Z.min (blen report) (RESEARCH_REPORT_MAX_JSON_BYTES - 2))) →
  let found := report_search (Z.to_nat e) report 0 e in
  prefix_fits report found = true ∧
  ∀ m, (blen (json_string (floor_prefix report m ++ RESEARCH_REPORT_TRUNCATION)) <=
        RESEARCH_REPORT_MAX_JSON_BYTES)%Z →
    (blen (floor_prefix report m) <= blen (floor_prefix report found))%Z.
Proof.
  intros E found. assert (0 <= e)%Z as HP by (rewrite E; unfold blen; lia).
  destruct (report_search_spec (Z.to_nat e) report 0 e) as (_ & HF & HN);
    [lia|lia|apply empty_prefix_fits|]. fold found in HF, HN. clearbody found.
  split; [done|]. intros m [PF HC]%fitting_within_cap. rewrite <- E in HC.
  rewrite <- (floor_prefix_idem report m). apply floor_prefix_le.
  destruct (Z.le_gt_cases (blen (floor_prefix report m)) found) as [|G]; [done|].
  rewrite HN in PF by lia. done.
Qed.

#[local] Opaque RESEARCH_REPORT_MAX_JSON_BYTES RESEARCH_REPORT_TRUNCATION.

(** The report of a research task in a verification prompt takes at most
    32 KiB of JSON. A report whose encoding fits is passed whole; any other is
    passed as a prefix followed by the truncation mark, and no prefix that
    fits with the mark is longer. *)
Theorem research_report_is_longest_that_fits (report : str) :
  (blen (research_report_json report) <= RESEARCH_REPORT_MAX_JSON_BYTES)%Z ∧
  (((blen (json_string report) <= RESEARCH_REPORT_MAX_JSON_BYTES)%Z ∧
    research_report_json report = json_string report) ∨
   ((RESEARCH_REPORT_MAX_JSON_BYTES < blen (json_string report))%Z ∧ ∃ found,
    research_report_json report = json_string (floor_prefix report found ++ RESEARCH_REPORT_TRUNCATION) ∧
    ∀ m, (blen (json_string (floor_prefix report m ++ RESEARCH_REPORT_TRUNCATION)) <=
          RESEARCH_REPORT_MAX_JSON_BYTES)%Z →
      (blen (floor_prefix report m) <= blen (floor_prefix report found))%Z)).
Proof.
  pose proof (json_string_lower report) as HL. unfold research_report_json. cbv zeta.
  destruct (search_longest report _ eq_refl) as [HF HN].
  set (head := floor_prefix report (Z.min _ _)) in *. generalize dependent (report_search (Z.to_nat (blen head)) report 0 (blen head)).
  intros found HF HN.
  destruct (Z.le_gt_cases (blen (json_string report)) RESEARCH_REPORT_MAX_JSON_BYTES) as [LE|GT].
  - assert (head = report) as -> by (apply floor_prefix_whole; lia).
    rewrite Z.eqb_refl, (proj2 (Z.leb_le _ _) LE). auto.
  - destruct ((_ =? _)%Z && _) eqn:B.
    { apply andb_true_iff in B as [B1%Z.eqb_eq B2%Z.leb_le].
      unfold head in B1, B2. rewrite (floor_prefix_full _ _ B1) in B2. lia. }
    split; [rewrite truncated_blen; by apply Z.leb_le in HF|]. eauto.
Qed.
End reports.

(** ** Concrete texts *)

Module PlanDemo.
Import Demo.

Lemma decode_chars current s rest :
  decode current (flat_map (λ c, [1%N; c]) s ++ 2%N :: rest) =
  l ← decode [] rest; Some ((current ++ s) :: l).
Proof.
  revert current. induction s as [|c s IH]; intros current; cbn; [by rewrite app_nil_r|].
  rewrite IH. by rewrite <- app_assoc.
Qed.

#[export] Instance demo_json_laws : JsonTextLaws (H := demo_json).
Proof.
  split; [|split; [intros c; cbn; rewrite byte_len_cons; change (byte_len []) with 0; lia..|done]].
  intros l. cbn. induction l as [|s l IH]; [done|]. cbn. unfold encode_str at 1.
  rewrite <- !app_assoc. cbn [app]. rewrite decode_chars, IH. done.
Qed.

(** A plan that names one task twice. *)
Definition twice : AgentResponse := mkAgentResponse (L"Plan") [] [] [impl (L"a"); impl (L"a")] [].

Definition running_campaign : SessionOrchestrationRow :=
  mkLoadedOrchestration (campaign_at 0 running_db) 2.

Lemma stored_subtask_roundtrip_witness :
  let sub := subtask SubtaskImplementation (L"parser") (L"Write the parser.") in
  let task := task_view running_db (planned_row 7 (proposed_task 3 0 sub)) in
  task_as_subtask task = Some sub ∧
  @route_existing good_host demo_json 3 twice task sub = mret (twice, (false, false, 0%Z)).
Proof. apply (stored_subtask_roundtrip (H := good_host)). discriminate. Defined.

Lemma invalid_plan_changes_nothing_witness :
  ∃ reason, validate_items (subtask_items twice) true = Err reason ∧
    tables (w_db (@persist_new_plan good_host demo_json (L"ctl") None twice (world running_db)).2) =
      tables (w_db (world running_db)) ∧
    tables (w_db (@route_active_subtasks good_host demo_json running_campaign twice (world running_db)).2) =
      tables (w_db (world running_db)).
Proof.
  destruct (validate_items (subtask_items twice) true) as [[]|reason] eqn:E; [vm_compute in E; discriminate|].
  exists reason. split; [done|].
  destruct (@invalid_plan_changes_nothing good_host _ demo_json (L"ctl") None running_campaign twice reason
    (world running_db) E) as (T1 & T2 & _).
  - destruct (validate_items (subtask_items twice) false) as [[]|r] eqn:E2; [vm_compute in E2; discriminate|].
    by exists r.
  - vm_compute. reflexivity.
  - split; [exact T1|exact T2].
Defined.

Lemma research_report_is_longest_that_fits_witness :
  @research_report_json demo_json (L"Fine.") = json_string (L"Fine.").
Proof.
  destruct (@research_report_is_longest_that_fits demo_json demo_json_laws (L"Fine.")) as [_ [[_ E]|[E _]]];
    [exact E|]. vm_compute in E. discriminate.
Defined.
End PlanDemo.
